(* ===== verification/_CoqProject ===== *)
-Q . S2P
Prelude.v
MachineInt.v
RustStr.v
XsdDecimal.v
XsdDecimalFacts.v
XsdDuration.v
XsdDurationFacts.v
XsdDateTime.v
XsdDateTimeText.v
XsdCalendarFacts.v
XsdDateTimeFacts.v
XsdDateTimeTextFacts.v
EncodedTerm.v
BinaryEncoder.v
BinaryEncoderFacts.v
RdfModel.v
NumericEncoder.v
VersionRange.v
StoreKeys.v
MemoryStorage.v
NumericEncoderFacts.v
MemoryRangeFacts.v
MemoryOpsFacts.v
MemorySpec.v
MemoryStorageFacts.v
BTree.v
RdfDisplay.v
RustChars.v
OxParser.v
OxParserFacts.v
OxParserRoundTrip.v
OxParserResults.v
DatalogIr.v
StateResult.v
DatalogValidate.v
DatalogStrataFacts.v
DatalogValidateFacts.v
DatalogControl.v
DatalogStorage.v
DatalogRules.v
DatalogEngine.v
DatalogControlFacts.v
DatalogStorageFacts.v
DatalogInternerFacts.v
DatalogJoinFacts.v
DatalogSpec.v
DatalogDeriveFacts.v
DatalogCommitFacts.v
DatalogStratumFacts.v
DatalogFixpointFacts.v
DatalogEngineFacts.v
DatalogCorrectness.v
OxInterning.v
OxDataset.v
OxGraphView.v
OxOrderFacts.v
OxInterningFacts.v
OxDatasetFacts.v
OxGraphViewFacts.v
OxDatasetRefinement.v
OxCanonicalization.v
OxIssuerFacts.v
OxCanonFacts.v
OxRenameFacts.v
DatalogRdf.v
DatalogRdfFacts.v
DatalogRdfCorrectness.v
RdfsProfile.v
RdfsSpec.v
RdfsSafe.v
RdfsValidation.v
RdfsCorrectness.v
SpAlgebra.v
SpTypes.v
SpDataset.v
SpPath.v
SpEval.v
SpTypeFacts.v
SpOptimizer.v
SpFilterFacts.v
