(* ===== verification/Prelude.v ===== *)
(** * A verification of the core of Oxigraph

    Oxigraph is an RDF database in Rust.  A query or an update works on a store of
    quads; the terms of the quads are encoded as fixed-size values, with the long
    strings in a dictionary; literals of the XML Schema datatypes are encoded by
    their values.  This development models, from the bottom up, the XML Schema
    values (lib/oxsdatatypes), the encoded terms and their byte format
    (lib/oxigraph/src/storage/numeric_encoder.rs, small_string.rs and
    binary_encoder.rs) and the transactional in-memory store
    (lib/oxigraph/src/storage/memory.rs), the Datalog engine that derives facts
    (lib/oxdatalog), the in-memory datasets (lib/oxrdf), the RDFS profile on
    both (lib/oxrdfs), and the evaluation of SPARQL queries on a dataset
    (lib/sparopt, lib/spareval), and proves what each promises to the one above
    it.  Definitions keep the names of the source, with the type before the
    method ([Decimal_checked_mul] is [Decimal::checked_mul]).

    ** Conventions

    - Integers are [Z] with the width written out (MachineInt): [checked_] methods
      return [None] out of range, [as] casts wrap.
    - A [Result] is [result] with the error types of the source; a function that
      may panic returns an option, [None] being the panic.
    - Strings are lists of bytes (RustStr); a [&str] is valid UTF-8 where the code
      checks it.
    - Loops that are not structural have fuel or [bounded_loop]; a theorem shows
      that the bound is never reached ([Decimal_loops_terminate],
      [normalize_day_terminates], [read_term_total], [quads_for_pattern_spec]).
    - Code that threads mutable state through [?] is in the state and error monad
      of StateResult, with a Hoare triple [holds]; the Datalog engine's errors and
      panics are the type [failure], and its [while] loop has [2 ^ 64] rounds, more
      than the counter of iterations can reach ([Engine_evaluate_failure] has no
      panic).

    ** Files

    - Prelude, MachineInt, RustStr: results, tactics, hint databases, machine
      integers, strings and number formatting.
    - XsdDecimal (boolean.rs, integer.rs, decimal.rs) and XsdDecimalFacts: the
      decimal arithmetic is exact or fails, its text parses back, its loops
      terminate; where it departs from that is proved too.
    - XsdDuration (duration.rs) and XsdDurationFacts: the sign invariant, the
      components, the parser as a state machine, the round trip with the printer.
    - XsdDateTime and XsdDateTimeText (date_time.rs), XsdCalendarFacts,
      XsdDateTimeFacts, XsdDateTimeTextFacts: the proleptic calendar, the timestamp
      arithmetic, the casts, the parsers and printers of the eight types.
    - EncodedTerm (small_string.rs, the types of numeric_encoder.rs): inline
      strings, encoded terms, their equality and hash; the errors of the storage
      layer (error.rs).
    - BinaryEncoder (binary_encoder.rs) and BinaryEncoderFacts: the bytes of terms
      and quads: round trips, injectivity, absence of prefixes, sizes, totality of
      the reader on corrupted input, and the agreement of equality and hash.
    - RdfModel (lib/oxrdf/src): the RDF terms the store takes and returns, the
      identifiers of blank nodes.
    - NumericEncoder (numeric_encoder.rs) and NumericEncoderFacts: encoding,
      dictionary and decoding of RDF terms; decoding gives the canonical form of
      the encoded term back.
    - VersionRange, StoreKeys, MemoryStorage (memory.rs): the ranges of versions,
      the content of the store, readers, iterators, transactions, outcomes, bulk
      loading and validation.
    - MemoryRangeFacts, MemoryOpsFacts: the invariants of the ranges and of the
      chains of nodes, iteration.
    - MemorySpec: the specification, a dataset per version, the refinement of
      every operation, and the store and the specification as two state machines
      over the same events.
    - MemoryStorageFacts: the simulation between them and what follows: snapshot
      isolation, the meaning of patterns, the end of transactions, the finality of
      outcomes.

    - BTree: ordered maps and sets by their sorted entries; RdfDisplay: facts
      on RDF terms and their N-Quads text (the [Display] of lib/oxrdf/src).
    - RustChars: the characters of UTF-8 text; OxParser (parser.rs, variable.rs):
      the parser of terms, triples and quads, with fuel for its escapes and for
      nested triple terms: the length of the text.  OxParserFacts,
      OxParserRoundTrip, OxParserResults: it reads back what is
      printed, ends with its fuel unused and returns only printable terms, and the
      texts on which it departs from that.
    - DatalogIr (ir.rs), DatalogValidate (validate.rs, validate/strata.rs),
      DatalogControl (engine/control.rs and the options of engine.rs),
      DatalogStorage (engine/storage.rs), DatalogRules (engine/rules.rs and
      provenance.rs), DatalogEngine (engine/strata.rs and the entry points of
      engine.rs): the Datalog engine of lib/oxdatalog/src.
    - DatalogStrataFacts, DatalogValidateFacts, DatalogControlFacts: the
      strata are the least ones, [validate] decides its specification, and the
      controlled validation agrees with it.
    - DatalogSpec, the first part of DatalogEngineFacts: the meaning of a program as its stratified
      model, which is closed under the rules, supported, and least without
      negation.
    - DatalogControlFacts, DatalogStorageFacts, DatalogInternerFacts,
      DatalogJoinFacts, DatalogDeriveFacts, DatalogCommitFacts,
      DatalogStratumFacts, DatalogFixpointFacts, DatalogEngineFacts: triples of the operations, bottom up: guard, index
      lookups, identifiers and generated blank nodes, joins, heads, commits, the
      invariant of semi-naive evaluation, derivations, strata, entry points.
    - DatalogCorrectness: the properties of [Engine::evaluate]: it computes the
      model with its provenance within its limits, fails only for a reason, and
      completes when it has the room.
    - OxInterning (interning.rs), OxDataset (dataset.rs), OxGraphView (the graph
      views of dataset.rs, graph.rs): the in-memory datasets of lib/oxrdf/src.
    - OxOrderFacts, OxInterningFacts, OxDatasetFacts, OxGraphViewFacts,
      OxDatasetRefinement: the ranges of the derived orders,
      interning with its round trip, and the refinement of sets of quads by
      datasets and their views, with the inputs on which they differ.
    - OxCanonicalization (the canonicalization and isomorphism of dataset.rs),
      OxIssuerFacts, OxCanonFacts, OxRenameFacts: issuers name
      each blank node once, the iterator of permutations lists [n!] of them, the
      algorithm names every blank node and never panics, a canonicalized dataset
      is the dataset renamed one to one, and datasets found isomorphic are; a
      dataset whose answer depends on the order of a hash map.  The recursion of
      Hash N-Degree Quads has the budget of calls as its fuel, which is enough
      ([n_degree_fuel]).
    - DatalogRdf (lib/oxdatalog/src/rdf.rs), DatalogRdfFacts,
      DatalogRdfCorrectness: Datalog over datasets.  Compiling a program to one
      relation for each predicate translates its facts one to one, so that the
      evaluation is the closure of the dataset under the program itself.
    - RdfsProfile (rules.rs and profile.rs of lib/oxrdfs/src), RdfsSpec,
      RdfsSafe, RdfsValidation, RdfsCorrectness: the profile [rdfs-d0].  The
      validation accepts exactly the input on which every consequence is a quad
      again; then the evaluation is the set of the consequences.  The loop over
      subproperties has [2 ^ close_rounds] rounds, and each property is taken at
      most once.
    - SpAlgebra (lib/sparopt/src/algebra.rs, with the patterns of
      lib/spargebra/src), SpTypes (type_inference.rs): the algebra of the
      optimizer, the constructors that simplify what they build, and the types of
      variables.
    - SpDataset (lib/spareval/src/dataset.rs and the dataset of eval.rs), SpPath
      (property paths), SpEval (the evaluators of eval.rs and expression.rs): the
      evaluation of query expressions, as functions from an input tuple to the
      list of its solutions.  The work list of a transitive closure has as its
      fuel the starting states and the number of nodes of the graph, or of pairs
      of nodes; [PathEvaluator_spec] shows that it suffices.
    - SpOptimizer (the last pass of lib/sparopt/src/optimizer.rs): the conditions
      of filters move to the parts that bind their variables.
    - SpTypeFacts: the inferred types allow every solution
      ([infer_query_expression_types_sound]); the lemmas whose names end in
      [_unsound] are the expressions on which the inference is wrong, and
      [typable] excludes them.
    - SpFilterFacts: the constructors and [push_filters] keep the solutions
      ([push_filters_correct]) of the queries that [pushable] describes, and two
      queries outside it whose solutions are lost.

    ** Parameters

    The hash function of the strings (SipHash, an external crate) and the
    conversion of floats from and to text (the Rust core library) are the class
    [EncoderParams]; no law is assumed of them.  Where two strings with one hash
    would break a property, the theorem says so ([collides]).  The Datalog engine
    takes SHA-256 and the sizes of Rust types from [DatalogParams], without laws;
    time and the other owners of a cancellation token are its environment, which
    says what each check sees.  The hash function of an in-memory dataset is
    [InternerParams]; the theorems ask that the strings at hand have distinct
    hashes, since the code does not return otherwise ([get_or_intern_collision]).
    Canonicalization takes SHA-256, SHA-384, the default hasher, the order of the
    keys of a hash map and the unstable sort from [CanonParams]; [CanonLaws] asks
    that keys are listed once each and that the sort keeps the elements.  The RDFS
    profile takes the order of its hash maps from [HashOrder], of which
    [LawfulHashOrder] asks the same.  The hash that orders the arguments of
    commutative operators is [OrderParams]; [OrderLaws] asks that the sorts by it
    keep the arguments.  The evaluator takes the
    dataset, the hash of the keys of a join, the comparisons of values, the
    functions that compute with typed values, aggregates, the sort of ORDER BY and
    services from [EvalParams]; [EvalLaws] asks that the sort permutes, and
    [iri_graphs] that named graphs are named by IRIs.

    ** Not modelled

    Float arithmetic; the governed transactions of the in-memory store (receipts,
    outbox), the timeouts of its lock, progress hooks and memory reclamation; the
    RocksDB storage; the interruptible clone of datasets; the concrete syntaxes
    of RDF; the grammar of SPARQL, the other passes of the optimizer
    (normalization, graph names, order of joins, estimates), the errors, budgets and
    cancellation of the evaluation, the functions on values, aggregates and
    services; SHACL, OWL and the finite profile
    of RDFS 1.2; the server and the language bindings. *)
From Stdlib Require Export Ascii String.
From Stdlib Require Export ZArith Zquot Lia.
From stdpp Require Export base strings list numbers option.

#[global] Open Scope Z_scope.

(** ** Results

    Rust's [Result<A, E>].  The [?] operator is the monadic bind, written with
    stdpp's notation [x ← m; k]. *)

Inductive result (E A : Type) : Type :=
| Ok (a : A)
| Err (e : E).
Arguments Ok {E A} _.
Arguments Err {E A} _.

#[global] Instance result_ret {E : Type} : MRet (result E) := fun A a => Ok a.
#[global] Instance result_bind {E : Type} : MBind (result E) :=
  fun A B f m => match m with Ok a => f a | Err e => Err e end.
#[global] Instance result_fmap {E : Type} : FMap (result E) :=
  fun A B f m => match m with Ok a => Ok (f a) | Err e => Err e end.

(** [Option::ok_or], [Result::ok] and [Result::map_err]. *)
Definition ok_or {E A : Type} (e : E) (o : option A) : result E A :=
  match o with Some a => Ok a | None => Err e end.
Definition ok {E A : Type} (r : result E A) : option A :=
  match r with Ok a => Some a | Err _ => None end.
Definition map_err {E F A : Type} (f : E -> F) (r : result E A) : result F A :=
  match r with Ok a => Ok a | Err e => Err (f e) end.
Definition is_ok {E A : Type} (r : result E A) : bool :=
  match r with Ok _ => true | Err _ => false end.

(** Byte strings.  A Rust [&str] or [\[u8\]] is the list of its bytes; [str]
    turns a literal into one. *)
Abbreviation bytes := (list ascii).
Definition str (s : string) : bytes := list_ascii_of_string s.
Arguments str !s.

(** A loop whose body either continues with a new state or returns: at most
    [2 ^ depth] rounds, so a small [depth] bounds a loop over a 64-bit counter. *)
Fixpoint bounded_loop {S R : Type} (depth : nat) (body : S -> S + R) (s : S) : S + R :=
  match depth with
  | O => body s
  | Datatypes.S depth =>
      match bounded_loop depth body s with
      | inl s' => bounded_loop depth body s'
      | inr r => inr r
      end
  end.

(** ** Tactics *)

(** Turn every boolean comparison of a hypothesis or of the goal into the
    proposition it decides. *)
Ltac bool_to_prop :=
  repeat match goal with
  | H : (_ && _)%bool = true |- _ => apply andb_prop in H; destruct H
  | H : (_ && _)%bool = false |- _ => apply andb_false_iff in H
  | H : (_ || _)%bool = true |- _ => apply orb_prop in H
  | H : (_ || _)%bool = false |- _ => apply orb_false_elim in H; destruct H
  | H : negb _ = true |- _ => apply negb_true_iff in H
  | H : negb _ = false |- _ => apply negb_false_iff in H
  | H : (_ =? _) = true |- _ => apply Z.eqb_eq in H
  | H : (_ =? _) = false |- _ => apply Z.eqb_neq in H
  | H : (_ <? _) = true |- _ => apply Z.ltb_lt in H
  | H : (_ <? _) = false |- _ => apply Z.ltb_ge in H
  | H : (_ <=? _) = true |- _ => apply Z.leb_le in H
  | H : (_ <=? _) = false |- _ => apply Z.leb_gt in H
  | H : (_ >=? _) = true |- _ => rewrite Z.geb_leb in H
  | H : (_ >=? _) = false |- _ => rewrite Z.geb_leb in H
  | H : (_ >? _) = true |- _ => rewrite Z.gtb_ltb in H
  | H : (_ >? _) = false |- _ => rewrite Z.gtb_ltb in H
  end.

(** Split the first [if] of the goal on its boolean, keeping the facts. *)
Ltac case_if_bool :=
  match goal with
  | |- context [if ?b then _ else _] =>
      let E := fresh "Hif" in destruct b eqn:E; bool_to_prop
  end.

Lemma bind_Ok {E A B : Type} (m : result E A) (f : A -> result E B) (b : B) :
  m ≫= f = Ok b <-> exists a, m = Ok a /\ f a = Ok b.
Proof.
  destruct m as [a|e]; simpl; split; [intros; by exists a| |done|];
    intros (a' & H & H'); congruence.
Qed.

Lemma fmap_Ok {E A B : Type} (m : result E A) (f : A -> B) (b : B) :
  f <$> m = Ok b <-> exists a, m = Ok a /\ b = f a.
Proof.
  destruct m as [a|e]; cbn; split; [intros [= <-]; by exists a| |done|];
    intros (a' & H & H'); congruence.
Qed.

Lemma ok_or_Ok {E A : Type} (e : E) (o : option A) (a : A) :
  ok_or e o = Ok a <-> o = Some a.
Proof. destruct o; simpl; split; congruence. Qed.

(** Peel the binds of a successful computation found in a hypothesis. *)
Ltac peel H :=
  repeat match type of H with
  | (_ ≫= _) = Some _ =>
      let x := fresh "x" in let E := fresh "Hs" in apply bind_Some in H as (x & E & H)
  | (_ <$> _) = Some _ =>
      let x := fresh "x" in let E := fresh "Hs" in apply fmap_Some in H as (x & E & H)
  | (_ ≫= _) = Ok _ =>
      let x := fresh "x" in let E := fresh "Hs" in apply bind_Ok in H as (x & E & H)
  | (_ <$> _) = Ok _ =>
      let x := fresh "x" in let E := fresh "Hs" in apply fmap_Ok in H as (x & E & H)
  | ok_or _ _ = Ok _ => apply ok_or_Ok in H
  | (let '(_, _) := ?p in _) = _ => destruct p
  | Some _ = Some _ => injection H; clear H; intros
  | Ok _ = Ok _ => injection H; clear H; intros
  end.

(** Unfold the binds and returns of the option and result monads. *)
Ltac monad := cbn [mbind mret option_bind option_ret result_bind result_ret
                   fmap result_fmap option_fmap option_map ok ok_or map_err is_ok] in *.

Create HintDb oxi.
Create Rewrite HintDb oxi_len.

(** ** Arithmetic shared by the components *)

Lemma quot_quot (a b c : Z) : 0 < c -> Z.quot (Z.quot a b) c = Z.quot a (b * c).
Proof. intros. destruct (decide (b = 0)) as [->|]. 
  - rewrite Z.mul_0_l. rewrite !Zquot_0_r. apply Zquot_0_l.
  - apply Z.quot_quot; lia.
Qed.

Lemma quot_cancel_r (a b c : Z) : c <> 0 -> Z.quot (a * c) (b * c) = Z.quot a b.
Proof.
  intros. destruct (decide (b = 0)) as [->|].
  - rewrite Z.mul_0_l. by rewrite !Zquot_0_r.
  - apply Z.quot_mul_cancel_r; lia.
Qed.

(** Lists. *)

Lemma app_eq_length_inv {A : Type} (l1 l2 k1 k2 : list A) :
  length l1 = length l2 -> l1 ++ k1 = l2 ++ k2 -> l1 = l2 /\ k1 = k2.
Proof. intros Hl He. by apply app_inj_1. Qed.

Lemma take_app_length_eq {A : Type} (n : nat) (l k : list A) :
  length l = n -> take n (l ++ k) = l.
Proof. intros <-. apply take_app_length. Qed.

Lemma drop_app_length_eq {A : Type} (n : nat) (l k : list A) :
  length l = n -> drop n (l ++ k) = k.
Proof. intros <-. apply drop_app_length. Qed.

(** A loop whose body decreases a measure returns before its bound. *)
Lemma bounded_loop_measure {S R : Type} (body : S -> S + R) (inv : S -> Prop) (m : S -> Z)
  (depth : nat) (s : S) :
  (forall s s', inv s -> body s = inl s' -> inv s' /\ 0 <= m s' < m s) ->
  inv s ->
  match bounded_loop depth body s with
  | inl s' => inv s' /\ m s' <= m s - 2 ^ Z.of_nat depth /\ 0 <= m s'
  | inr _ => True
  end.
Proof.
  intros Hbody. revert s. induction depth as [|depth IH]; intros s Hs; simpl bounded_loop.
  - destruct (body s) as [s'|] eqn:E; [|done]. destruct (Hbody s s' Hs E). simpl. split; [done|lia].
  - pose proof (IH s Hs) as H1. destruct (bounded_loop depth body s) as [s1|]; [|done].
    destruct H1 as (Hi & Hm & H0). pose proof (IH s1 Hi) as H2.
    destruct (bounded_loop depth body s1) as [s2|]; [|done]. destruct H2 as (Hi2 & Hm2 & H02).
    rewrite Nat2Z.inj_succ, Z.pow_succ_r by lia. split; [done|lia].
Qed.

Lemma bounded_loop_terminates {S R : Type} (body : S -> S + R) (inv : S -> Prop) (m : S -> Z)
  (depth : nat) (s : S) :
  (forall s s', inv s -> body s = inl s' -> inv s' /\ 0 <= m s' < m s) ->
  inv s -> m s < 2 ^ Z.of_nat depth -> exists r, bounded_loop depth body s = inr r.
Proof.
  intros Hbody Hs Hm. pose proof (bounded_loop_measure body inv m depth s Hbody Hs) as H.
  destruct (bounded_loop depth body s) as [s'|r]; [lia|by exists r].
Qed.

(** What every round keeps holds of the result. *)
Lemma bounded_loop_result {S R : Type} (body : S -> S + R) (inv : S -> Prop) (post : R -> Prop)
  (depth : nat) (s : S) :
  (forall s s', inv s -> body s = inl s' -> inv s') ->
  (forall s r, inv s -> body s = inr r -> post r) ->
  inv s ->
  match bounded_loop depth body s with inl s' => inv s' | inr r => post r end.
Proof.
  intros Hb Hr. revert s. induction depth as [|depth IH]; intros s Hs; simpl.
  - destruct (body s) eqn:E; [by eapply Hb|by eapply Hr].
  - pose proof (IH s Hs). destruct (bounded_loop depth body s); [by apply IH|done].
Qed.
