(* ===== verification/MachineInt.v ===== *)
(** * Rust's fixed-width integers

    The integer types the modelled code uses, as ranges of [Z]: the [checked_]
    operations return [None] exactly when the mathematical result leaves the
    range of the type (or the divisor is zero), [as] casts wrap, and
    [to_be_bytes]/[from_be_bytes] are the big-endian two's complement images. *)
From S2P Require Import Prelude.

Inductive int_ty : Set := I8 | I16 | I32 | I64 | I128 | U8 | U16 | U32 | U64 | U128.

Definition int_min (t : int_ty) : Z :=
  match t with
  | I8 => -128
  | I16 => -32768
  | I32 => -2147483648
  | I64 => -9223372036854775808
  | I128 => -170141183460469231731687303715884105728
  | U8 | U16 | U32 | U64 | U128 => 0
  end.

Definition int_max (t : int_ty) : Z :=
  match t with
  | I8 => 127
  | I16 => 32767
  | I32 => 2147483647
  | I64 => 9223372036854775807
  | I128 => 170141183460469231731687303715884105727
  | U8 => 255
  | U16 => 65535
  | U32 => 4294967295
  | U64 => 18446744073709551615
  | U128 => 340282366920938463463374607431768211455
  end.

Definition in_int (t : int_ty) (z : Z) : Prop := int_min t <= z <= int_max t.
Definition fits (t : int_ty) (z : Z) : bool := (int_min t <=? z) && (z <=? int_max t).

(** [Some z] when [z] is a value of type [t]: the result of every [checked_]
    operation and of [try_from]/[try_into] between integer types. *)
Definition checked (t : int_ty) (z : Z) : option Z := if fits t z then Some z else None.

Definition checked_add (t : int_ty) (a b : Z) : option Z := checked t (a + b).
Definition checked_sub (t : int_ty) (a b : Z) : option Z := checked t (a - b).
Definition checked_mul (t : int_ty) (a b : Z) : option Z := checked t (a * b).
Definition checked_neg (t : int_ty) (a : Z) : option Z := checked t (- a).
Definition checked_abs (t : int_ty) (a : Z) : option Z := checked t (Z.abs a).
Definition checked_pow (t : int_ty) (a b : Z) : option Z := checked t (a ^ b).
Definition checked_div (t : int_ty) (a b : Z) : option Z :=
  if b =? 0 then None else checked t (Z.quot a b).
Definition checked_rem (t : int_ty) (a b : Z) : option Z :=
  if b =? 0 then None else if fits t (Z.quot a b) then Some (Z.rem a b) else None.
Definition rem_euclid (a b : Z) : Z := a mod Z.abs b.
Definition checked_rem_euclid (t : int_ty) (a b : Z) : option Z :=
  if b =? 0 then None
  else if fits t (Z.quot a b) then Some (rem_euclid a b) else None.

(** The number of bytes of a type and its modulus. *)
Definition int_bytes (t : int_ty) : nat :=
  match t with
  | I8 | U8 => 1 | I16 | U16 => 2 | I32 | U32 => 4 | I64 | U64 => 8 | I128 | U128 => 16
  end%nat.
Definition int_modulus (t : int_ty) : Z := int_max t - int_min t + 1.

(** [z as t] *)
Definition wrap (t : int_ty) (z : Z) : Z := (z - int_min t) mod int_modulus t + int_min t.

(** Bytes. *)
Definition byte_of_Z (z : Z) : ascii := ascii_of_N (Z.to_N (z mod 256)).
Definition Z_of_byte (b : ascii) : Z := Z.of_N (N_of_ascii b).

Fixpoint to_le_bytes (n : nat) (z : Z) : bytes :=
  match n with
  | O => []
  | S n => byte_of_Z z :: to_le_bytes n (z / 256)
  end.
Fixpoint of_le_bytes (bs : bytes) : Z :=
  match bs with
  | [] => 0
  | b :: bs => Z_of_byte b + 256 * of_le_bytes bs
  end.

Definition to_be_bytes (t : int_ty) (z : Z) : bytes := rev (to_le_bytes (int_bytes t) z).
Definition from_be_bytes (t : int_ty) (bs : bytes) : Z := wrap t (of_le_bytes (rev bs)).

(** ** Lemmas *)

Lemma fits_true (t : int_ty) (z : Z) : fits t z = true <-> in_int t z.
Proof. unfold fits, in_int. rewrite andb_true_iff, !Z.leb_le. done. Qed.

Lemma checked_Some (t : int_ty) (z r : Z) : checked t z = Some r <-> r = z /\ in_int t z.
Proof.
  unfold checked. destruct (fits t z) eqn:E.
  - apply fits_true in E. split; [by intros [= <-]|by intros [-> _]].
  - split; [done|]. intros [_ H]. apply fits_true in H. congruence.
Qed.

Lemma checked_None (t : int_ty) (z : Z) : checked t z = None <-> ~ in_int t z.
Proof.
  unfold checked. rewrite <- fits_true. destruct (fits t z); split; try done.
Qed.

Lemma checked_in (t : int_ty) (z : Z) : in_int t z -> checked t z = Some z.
Proof. intros. by apply checked_Some. Qed.

Ltac int_bounds := unfold in_int, int_min, int_max in *; lia.

Lemma Z_of_byte_range (b : ascii) : 0 <= Z_of_byte b < 256.
Proof. unfold Z_of_byte. pose proof (N_ascii_bounded b). lia. Qed.

Lemma Z_of_byte_of_Z (z : Z) : Z_of_byte (byte_of_Z z) = z mod 256.
Proof.
  unfold Z_of_byte, byte_of_Z. pose proof (Z.mod_pos_bound z 256 eq_refl).
  rewrite N_ascii_embedding by lia. lia.
Qed.

Lemma byte_of_Z_of_byte (b : ascii) : byte_of_Z (Z_of_byte b) = b.
Proof.
  unfold byte_of_Z. pose proof (Z_of_byte_range b). rewrite Z.mod_small by lia.
  unfold Z_of_byte. rewrite N2Z.id. apply ascii_N_embedding.
Qed.

Lemma length_to_le_bytes (n : nat) (z : Z) : length (to_le_bytes n z) = n.
Proof. revert z. induction n; intros; simpl; [done|by rewrite IHn]. Qed.

Lemma of_to_le_bytes (n : nat) (z : Z) :
  of_le_bytes (to_le_bytes n z) = z mod 256 ^ Z.of_nat n.
Proof.
  revert z. induction n as [|n IH]; intros z; simpl to_le_bytes; simpl of_le_bytes.
  - by rewrite Z.mod_1_r.
  - rewrite Z_of_byte_of_Z, IH, Nat2Z.inj_succ, Z.pow_succ_r by lia.
    rewrite Z.rem_mul_r by lia. lia.
Qed.

Lemma of_le_bytes_range (bs : bytes) :
  0 <= of_le_bytes bs < 256 ^ Z.of_nat (length bs).
Proof.
  induction bs as [|b bs IH]; simpl of_le_bytes; simpl length; [lia|].
  rewrite Nat2Z.inj_succ, Z.pow_succ_r by lia. pose proof (Z_of_byte_range b). lia.
Qed.

Lemma to_of_le_bytes (bs : bytes) : to_le_bytes (length bs) (of_le_bytes bs) = bs.
Proof.
  induction bs as [|b bs IH]; simpl; [done|].
  pose proof (Z_of_byte_range b).
  rewrite (Z.mul_comm 256), Z.div_add, Z.div_small by lia. rewrite Z.add_0_l, IH. f_equal.
  rewrite <- (byte_of_Z_of_byte b) at 2. unfold byte_of_Z. by rewrite Z.mod_add.
Qed.

Lemma length_to_be_bytes (t : int_ty) (z : Z) : length (to_be_bytes t z) = int_bytes t.
Proof. unfold to_be_bytes. by rewrite length_rev, length_to_le_bytes. Qed.

Lemma int_modulus_bytes (t : int_ty) : 256 ^ Z.of_nat (int_bytes t) = int_modulus t.
Proof. by destruct t. Qed.

Lemma wrap_id (t : int_ty) (z : Z) : in_int t z -> wrap t z = z.
Proof.
  intros H. unfold wrap. rewrite Z.mod_small; [lia|].
  unfold int_modulus, in_int in *. lia.
Qed.

Lemma wrap_mod (t : int_ty) (z : Z) : wrap t (z mod int_modulus t) = wrap t z.
Proof. unfold wrap. by rewrite Zminus_mod_idemp_l. Qed.

Lemma wrap_in (t : int_ty) (z : Z) : in_int t (wrap t z).
Proof.
  unfold wrap, in_int. assert (0 < int_modulus t) as Hm by (by destruct t).
  pose proof (Z.mod_pos_bound (z - int_min t) _ Hm). unfold int_modulus in *. lia.
Qed.

(** Writing an integer and reading it back gives the integer. *)
Lemma from_to_be_bytes (t : int_ty) (z : Z) :
  in_int t z -> from_be_bytes t (to_be_bytes t z) = z.
Proof.
  intros H. unfold from_be_bytes, to_be_bytes.
  rewrite rev_involutive, of_to_le_bytes, int_modulus_bytes, wrap_mod. by apply wrap_id.
Qed.

(** Reading bytes and writing them back gives the bytes. *)
Lemma to_from_be_bytes (t : int_ty) (bs : bytes) :
  length bs = int_bytes t -> to_be_bytes t (from_be_bytes t bs) = bs.
Proof.
  intros Hl. unfold from_be_bytes, to_be_bytes.
  assert (forall n z, to_le_bytes n z = to_le_bytes n (z mod 256 ^ Z.of_nat n)) as Hmod.
  { intros n. induction n as [|n IH]; intros z; [done|].
    simpl. rewrite Nat2Z.inj_succ, Z.pow_succ_r by lia.
    rewrite Z.rem_mul_r by lia. f_equal.
    - unfold byte_of_Z. rewrite (Z.mul_comm 256), Z.mod_add by lia. by rewrite Z.mod_mod by lia.
    - rewrite (Z.mul_comm 256), Z.div_add, (Z.div_small (z mod 256)) by
        (pose proof (Z.mod_pos_bound z 256 eq_refl); lia). apply IH. }
  rewrite Hmod, int_modulus_bytes.
  assert (wrap t (of_le_bytes (rev bs)) mod int_modulus t = of_le_bytes (rev bs)) as ->.
  { pose proof (of_le_bytes_range (rev bs)) as Hr.
    rewrite length_rev, Hl, int_modulus_bytes in Hr. unfold wrap.
    rewrite Zplus_mod_idemp_l. replace (_ - _ + _) with (of_le_bytes (rev bs)) by lia.
    by apply Z.mod_small. }
  rewrite <- Hl, <- (length_rev bs), to_of_le_bytes. apply rev_involutive.
Qed.

Lemma checked_add_Some t a b r : checked_add t a b = Some r <-> r = a + b /\ in_int t (a + b).
Proof. apply checked_Some. Qed.
Lemma checked_sub_Some t a b r : checked_sub t a b = Some r <-> r = a - b /\ in_int t (a - b).
Proof. apply checked_Some. Qed.
Lemma checked_mul_Some t a b r : checked_mul t a b = Some r <-> r = a * b /\ in_int t (a * b).
Proof. apply checked_Some. Qed.

#[export] Hint Rewrite length_to_be_bytes : oxi_len.
#[export] Hint Resolve checked_in wrap_in : oxi.
