(* ===== verification/RustStr.v ===== *)
(** * Rust strings and integer text

    What the modelled code uses of [&str], [FromStr] for the integer types and
    integer formatting ([{}] and the zero-padded [{:0w}]).  A string is the list
    of its UTF-8 bytes; every character the code tests for is ASCII, and no byte
    of a multi-byte character equals an ASCII byte, so testing bytes and testing
    characters agree. *)
From S2P Require Import Prelude MachineInt.

Definition ch (s : string) : ascii :=
  match s with String c _ => c | EmptyString => Ascii.zero end.
Arguments ch !s.

Definition is_ascii_digit (c : ascii) : bool :=
  (48 <=? Z_of_byte c) && (Z_of_byte c <=? 57).
(** [c - b'0'] *)
Definition digit_value (c : ascii) : Z := Z_of_byte c - 48.
(** [b'0' + d] *)
Definition digit_char (d : Z) : ascii := byte_of_Z (48 + d).

Definition strip_prefix (c : ascii) (s : bytes) : option bytes :=
  match s with
  | x :: s => if Ascii.eqb x c then Some s else None
  | [] => None
  end.

Definition str_contains (c : ascii) (s : bytes) : bool := existsb (Ascii.eqb c) s.

(** [core::num::IntErrorKind], in the order [from_str] can report them. *)
Inductive ParseIntError : Set := IntEmpty | IntInvalidDigit | IntPosOverflow | IntNegOverflow.

Definition int_signed (t : int_ty) : bool :=
  match t with I8 | I16 | I32 | I64 | I128 => true | _ => false end.

Fixpoint int_digits (t : int_ty) (neg : bool) (acc : Z) (s : bytes) : result ParseIntError Z :=
  match s with
  | [] => Ok acc
  | c :: s =>
      let overflow := if neg then IntNegOverflow else IntPosOverflow in
      let mul := checked_mul t acc 10 in
      if is_ascii_digit c then
        m ← ok_or overflow mul;
        r ← ok_or overflow (if neg then checked_sub t m (digit_value c)
                            else checked_add t m (digit_value c));
        int_digits t neg r s
      else Err IntInvalidDigit
  end.

(** [<int>::from_str] *)
Definition int_from_str (t : int_ty) (s : bytes) : result ParseIntError Z :=
  match s with
  | [] => Err IntEmpty
  | c :: s' =>
      if Ascii.eqb c "+"%char then
        match s' with [] => Err IntInvalidDigit | _ => int_digits t false 0 s' end
      else if Ascii.eqb c "-"%char then
        match s' with
        | [] => Err IntInvalidDigit
        | _ => if int_signed t then int_digits t true 0 s' else Err IntInvalidDigit
        end
      else int_digits t false 0 s
  end.

(** Decimal digits of a natural number, least significant first; the fuel is
    the number of its bits, more than the number of its digits. *)
Fixpoint le_digits_fuel (fuel : nat) (n : Z) : bytes :=
  match fuel with
  | O => []
  | S fuel => if n =? 0 then [] else digit_char (n mod 10) :: le_digits_fuel fuel (n / 10)
  end.
Definition le_digits (n : Z) : bytes := le_digits_fuel (S (Z.to_nat (Z.log2 n))) n.

(** [{}] for a non-negative integer *)
Definition print_nat (n : Z) : bytes := if n =? 0 then str "0" else rev (le_digits n).
(** [{}] for a signed integer *)
Definition print_int (n : Z) : bytes := (if n <? 0 then str "-" else []) ++ print_nat (Z.abs n).
(** [{:0w}] for a non-negative integer *)
Definition print_padded (w : nat) (n : Z) : bytes :=
  let d := print_nat n in replicate (w - length d)%nat "0"%char ++ d.

(** The prefix of ASCII digits and what follows. *)
Fixpoint integer_prefix (s : bytes) : bytes * bytes :=
  match s with
  | [] => ([], [])
  | c :: s' =>
      if is_ascii_digit c then
        let '(d, r) := integer_prefix s' in (c :: d, r)
      else ([], s)
  end.

(** The longest prefix of ASCII digits with at most one dot. *)
Fixpoint decimal_prefix_from (dot_seen : bool) (s : bytes) : bytes * bytes :=
  match s with
  | [] => ([], [])
  | c :: s' =>
      if is_ascii_digit c then
        let '(d, r) := decimal_prefix_from dot_seen s' in (c :: d, r)
      else if Ascii.eqb c "."%char && negb dot_seen then
        let '(d, r) := decimal_prefix_from true s' in (c :: d, r)
      else ([], s)
  end.
Definition decimal_prefix (s : bytes) : bytes * bytes := decimal_prefix_from false s.

(** ** Lemmas *)

(** The value of a digit string read after [acc]. *)
Fixpoint digits_value (acc : Z) (s : bytes) : Z :=
  match s with
  | [] => acc
  | c :: s => digits_value (acc * 10 + digit_value c) s
  end.

Definition all_digits (s : bytes) : Prop := Forall (fun c => is_ascii_digit c = true) s.

Lemma is_ascii_digit_value (c : ascii) :
  is_ascii_digit c = true -> 0 <= digit_value c <= 9.
Proof. unfold is_ascii_digit, digit_value. intros. bool_to_prop. lia. Qed.

Lemma digit_value_char (d : Z) : 0 <= d <= 9 -> digit_value (digit_char d) = d.
Proof.
  intros. unfold digit_value, digit_char. rewrite Z_of_byte_of_Z, Z.mod_small; lia.
Qed.

Lemma digit_char_is_digit (d : Z) : 0 <= d <= 9 -> is_ascii_digit (digit_char d) = true.
Proof.
  intros. unfold is_ascii_digit, digit_char. rewrite Z_of_byte_of_Z, Z.mod_small by lia.
  apply andb_true_intro. split; apply Z.leb_le; lia.
Qed.

Lemma digit_not (c c' : ascii) :
  is_ascii_digit c = true -> is_ascii_digit c' = false -> Ascii.eqb c c' = false.
Proof. intros H H'. apply Ascii.eqb_neq. congruence. Qed.

Lemma digits_value_app (acc : Z) (s s' : bytes) :
  digits_value acc (s ++ s') = digits_value (digits_value acc s) s'.
Proof. revert acc. induction s; intros; simpl; auto. Qed.

Lemma digits_value_shift (acc : Z) (s : bytes) :
  digits_value acc s = acc * 10 ^ Z.of_nat (length s) + digits_value 0 s.
Proof.
  revert acc. induction s as [|c s IH]; intros acc; simpl digits_value; simpl length; [lia|].
  rewrite IH, (IH (0 * 10 + digit_value c)), Nat2Z.inj_succ, Z.pow_succ_r by lia. lia.
Qed.

Lemma digits_value_nonneg (acc : Z) (s : bytes) :
  all_digits s -> 0 <= acc -> 0 <= digits_value acc s.
Proof.
  intros H. revert acc. induction H as [|c s Hc _ IH]; intros; simpl; [done|].
  apply IH. apply is_ascii_digit_value in Hc. lia.
Qed.

Lemma digits_value_ge (acc : Z) (s : bytes) :
  all_digits s -> 0 <= acc -> acc <= digits_value acc s.
Proof.
  intros H. revert acc. induction H as [|c s Hc _ IH]; intros acc Ha; simpl; [lia|].
  apply is_ascii_digit_value in Hc. etransitivity; [|apply IH]; lia.
Qed.

Lemma digits_value_zeros (n : nat) (s : bytes) :
  digits_value 0 (replicate n "0"%char ++ s) = digits_value 0 s.
Proof.
  induction n; simpl; [done|]. by change (0 * 10 + digit_value "0") with 0.
Qed.

Lemma all_digits_replicate (n : nat) : all_digits (replicate n "0"%char).
Proof. by apply Forall_replicate. Qed.

(** Parsing digits whose value fits the type gives the value. *)
Lemma int_digits_pos (t : int_ty) (acc : Z) (s : bytes) :
  all_digits s -> 0 <= acc -> digits_value acc s <= int_max t ->
  int_digits t false acc s = Ok (digits_value acc s).
Proof.
  intros H. revert acc. induction H as [|c s Hc Hs IH]; intros acc Ha Hv; simpl; [done|].
  rewrite Hc. simpl in Hv. pose proof (is_ascii_digit_value _ Hc).
  assert (acc * 10 + digit_value c <= int_max t) as Hb.
  { etransitivity; [|exact Hv]. apply digits_value_ge; [done|lia]. }
  assert (int_min t <= 0) by (by destruct t).
  unfold checked_mul, checked_add. rewrite checked_in by (unfold in_int; lia). monad.
  rewrite checked_in by (unfold in_int; lia). monad. apply IH; lia.
Qed.

Lemma int_digits_neg (t : int_ty) (acc : Z) (s : bytes) :
  all_digits s -> 0 <= acc -> int_min t <= - digits_value acc s ->
  int_digits t true (- acc) s = Ok (- digits_value acc s).
Proof.
  intros H. revert acc. induction H as [|c s Hc Hs IH]; intros acc Ha Hv; simpl; [done|].
  rewrite Hc. simpl in Hv. pose proof (is_ascii_digit_value _ Hc).
  assert (int_min t <= - (acc * 10 + digit_value c)) as Hb.
  { etransitivity; [exact Hv|]. apply Z.opp_le_mono. rewrite !Z.opp_involutive.
    apply digits_value_ge; [done|lia]. }
  assert (0 <= int_max t) by (by destruct t).
  unfold checked_mul, checked_sub. rewrite checked_in by (unfold in_int; lia). monad.
  rewrite checked_in by (unfold in_int; lia). monad.
  replace (- acc * 10 - digit_value c) with (- (acc * 10 + digit_value c)) by lia.
  apply IH; lia.
Qed.

(** A string that starts with a digit is parsed as a number without sign. *)
Lemma int_from_str_digits (t : int_ty) (c : ascii) (s : bytes) :
  all_digits (c :: s) -> digits_value 0 (c :: s) <= int_max t ->
  int_from_str t (c :: s) = Ok (digits_value 0 (c :: s)).
Proof.
  intros H Hv. unfold int_from_str. inversion H as [|? ? Hc Hs]; subst.
  rewrite !(digit_not c) by done. by apply int_digits_pos.
Qed.

(** Digits. *)

Fixpoint le_value (ds : bytes) : Z :=
  match ds with
  | [] => 0
  | c :: ds => digit_value c + 10 * le_value ds
  end.

Lemma digits_value_rev (acc : Z) (ds : bytes) :
  digits_value acc (rev ds) = acc * 10 ^ Z.of_nat (length ds) + le_value ds.
Proof.
  induction ds as [|c ds IH]; simpl rev; simpl length; simpl le_value; [simpl; lia|].
  rewrite digits_value_app, IH. simpl. rewrite Nat2Z.inj_succ, Z.pow_succ_r by lia. lia.
Qed.

Lemma le_digits_fuel_spec (fuel : nat) (n : Z) :
  0 <= n < 10 ^ Z.of_nat fuel ->
  all_digits (le_digits_fuel fuel n) /\ le_value (le_digits_fuel fuel n) = n.
Proof.
  revert n. induction fuel as [|fuel IH]; intros n Hn.
  - simpl in *. split; [constructor|lia].
  - simpl. case_if_bool; [split; [constructor|simpl; lia]|].
    rewrite Nat2Z.inj_succ, Z.pow_succ_r in Hn by lia.
    pose proof (Z.mod_pos_bound n 10 eq_refl). pose proof (Z.div_mod n 10 ltac:(lia)).
    destruct (IH (n / 10)) as [Hd Hv]; [split; [apply Z.div_pos; lia|
      apply Z.div_lt_upper_bound; lia]|].
    split; [constructor; [apply digit_char_is_digit; lia|done]|].
    simpl. rewrite Hv, digit_value_char; lia.
Qed.

(** The number of digits: no digit is superfluous. *)
Lemma le_digits_fuel_length (fuel : nat) (n : Z) :
  0 < n < 10 ^ Z.of_nat fuel ->
  (1 <= length (le_digits_fuel fuel n))%nat /\
  10 ^ (Z.of_nat (length (le_digits_fuel fuel n)) - 1) <= n.
Proof.
  revert n. induction fuel as [|fuel IH]; intros n Hn; [simpl in Hn; lia|].
  simpl. case_if_bool; [lia|]. simpl length. split; [lia|].
  rewrite Nat2Z.inj_succ, Z.pow_succ_r in Hn by lia.
  pose proof (Z.div_mod n 10 ltac:(lia)). pose proof (Z.mod_pos_bound n 10 eq_refl).
  destruct (decide (n / 10 = 0)) as [E|E].
  - rewrite E. assert (le_digits_fuel fuel 0 = []) as -> by (by destruct fuel). simpl. lia.
  - destruct (IH (n / 10)) as [Hl Hv]; [lia|].
    replace (Z.of_nat (S _) - 1) with (Z.succ (Z.of_nat (length (le_digits_fuel fuel (n / 10))) - 1))
      by lia. rewrite Z.pow_succ_r by lia. lia.
Qed.

Lemma le_digits_fuel_enough (n : Z) : 0 <= n -> 0 <= n < 10 ^ Z.of_nat (S (Z.to_nat (Z.log2 n))).
Proof.
  intros. rewrite Nat2Z.inj_succ, Z2Nat.id by apply Z.log2_nonneg. split; [done|].
  destruct (decide (n = 0)) as [->|]; [done|].
  eapply Z.lt_le_trans; [apply Z.log2_spec; lia|]. apply Z.pow_le_mono_l. lia.
Qed.

Lemma le_digits_spec (n : Z) :
  0 <= n -> all_digits (le_digits n) /\ le_value (le_digits n) = n.
Proof. intros. by apply le_digits_fuel_spec, le_digits_fuel_enough. Qed.

Lemma le_digits_nil (n : Z) : 0 <= n -> le_digits n = [] -> n = 0.
Proof. intros Hn E. destruct (le_digits_spec n Hn) as [_ H]. rewrite E in H. simpl in H. lia. Qed.

Lemma print_nat_digits (n : Z) : 0 <= n -> all_digits (print_nat n).
Proof.
  intros. unfold print_nat. case_if_bool; [by repeat constructor|].
  apply Forall_rev. by apply le_digits_spec.
Qed.

Lemma print_nat_value (n : Z) : 0 <= n -> digits_value 0 (print_nat n) = n.
Proof.
  intros. unfold print_nat. case_if_bool; [by subst|].
  rewrite digits_value_rev. destruct (le_digits_spec n H) as [_ ->]. lia.
Qed.

Lemma print_nat_cons (n : Z) : 0 <= n -> exists c s, print_nat n = c :: s.
Proof.
  intros. destruct (print_nat n) as [|c s] eqn:E; [|eauto].
  exfalso. unfold print_nat in E. destruct (n =? 0) eqn:E0; [done|].
  bool_to_prop. apply (f_equal (@rev ascii)) in E. rewrite rev_involutive in E.
  apply le_digits_nil in E; [done|lia].
Qed.

Lemma print_padded_digits (w : nat) (n : Z) : 0 <= n -> all_digits (print_padded w n).
Proof.
  intros. apply Forall_app. split; [apply all_digits_replicate|by apply print_nat_digits].
Qed.

Lemma print_padded_value (w : nat) (n : Z) : 0 <= n -> digits_value 0 (print_padded w n) = n.
Proof. intros. unfold print_padded. rewrite digits_value_zeros. by apply print_nat_value. Qed.

(** Printing a signed integer and parsing it gives it back. *)
Lemma int_from_print (t : int_ty) (n : Z) :
  in_int t n -> int_signed t = true -> int_from_str t (print_int n) = Ok n.
Proof.
  intros Hn Hsg. unfold print_int. destruct (print_nat_cons (Z.abs n) ltac:(lia)) as (c & s & E).
  pose proof (print_nat_digits (Z.abs n) ltac:(lia)) as Hd.
  pose proof (print_nat_value (Z.abs n) ltac:(lia)) as Hv.
  rewrite E in *. case_if_bool; simpl app.
  - change (int_from_str t ("-"%char :: c :: s))
      with (if int_signed t then int_digits t true (- 0) (c :: s) else Err IntInvalidDigit).
    rewrite Hsg, int_digits_neg; [f_equal; lia|done|lia|]. unfold in_int in Hn. lia.
  - rewrite int_from_str_digits; [f_equal; lia|done|]. unfold in_int in Hn. lia.
Qed.

Lemma integer_prefix_digits (d r : bytes) :
  all_digits d -> match r with c :: _ => is_ascii_digit c = false | [] => True end ->
  integer_prefix (d ++ r) = (d, r).
Proof.
  intros H. induction H as [|c d Hc Hd IH]; intros Hr; simpl.
  - destruct r as [|c r]; simpl; [done|]. by rewrite Hr.
  - rewrite Hc, IH; done.
Qed.

(** Cutting a little-endian digit string cuts the number. *)
Lemma le_value_app (d e : bytes) :
  le_value (d ++ e) = le_value d + 10 ^ Z.of_nat (length d) * le_value e.
Proof.
  induction d as [|c d IH]; simpl app; simpl le_value; simpl length; [lia|].
  rewrite IH, Nat2Z.inj_succ, Z.pow_succ_r by lia. lia.
Qed.

Lemma le_value_bound (d : bytes) : all_digits d -> 0 <= le_value d < 10 ^ Z.of_nat (length d).
Proof.
  intros H. induction H as [|c d Hc Hd IH]; simpl le_value; simpl length; [lia|].
  rewrite Nat2Z.inj_succ, Z.pow_succ_r by lia. apply is_ascii_digit_value in Hc. lia.
Qed.

Lemma le_value_zeros (n : nat) : le_value (replicate n "0"%char) = 0.
Proof. induction n; simpl; [done|]. rewrite IHn. done. Qed.

Lemma digits_value_of_le (d : bytes) : digits_value 0 (rev d) = le_value d.
Proof. rewrite digits_value_rev. lia. Qed.

(** The digits do not depend on the fuel, and dropping digits divides. *)
Lemma le_digits_fuel_eq (f g : nat) (n : Z) :
  0 <= n < 10 ^ Z.of_nat f -> 0 <= n < 10 ^ Z.of_nat g -> le_digits_fuel f n = le_digits_fuel g n.
Proof.
  revert g n. induction f as [|f IH]; intros [|g] n Hf Hg; simpl.
  - done.
  - change (10 ^ Z.of_nat 0) with 1 in Hf. by rewrite (proj2 (Z.eqb_eq n 0)) by lia.
  - change (10 ^ Z.of_nat 0) with 1 in Hg. by rewrite (proj2 (Z.eqb_eq n 0)) by lia.
  - rewrite Nat2Z.inj_succ, Z.pow_succ_r in Hf, Hg by lia. case_if_bool; [done|]. f_equal.
    apply IH; split; try (apply Z.div_pos; lia); apply Z.div_lt_upper_bound; lia.
Qed.

Lemma le_digits_fuel_0 (f : nat) : le_digits_fuel f 0 = [].
Proof. by destruct f. Qed.

Lemma drop_le_digits (k f : nat) (n : Z) :
  0 <= n -> drop k (le_digits_fuel (k + f) n) = le_digits_fuel f (n / 10 ^ Z.of_nat k).
Proof.
  revert n. induction k as [|k IH]; intros n Hn.
  - change (10 ^ Z.of_nat 0) with 1. by rewrite Z.div_1_r.
  - cbn [Nat.add le_digits_fuel]. destruct (n =? 0) eqn:E; bool_to_prop.
    + subst n. by rewrite Z.div_0_l, le_digits_fuel_0 by (apply Z.pow_nonzero; lia).
    + cbn [drop]. rewrite IH by (apply Z.div_pos; lia).
      by rewrite Nat2Z.inj_succ, Z.pow_succ_r, Z.div_div by lia.
Qed.

Lemma print_nat_fuel (f : nat) (n : Z) :
  0 < n < 10 ^ Z.of_nat f -> print_nat n = rev (le_digits_fuel f n).
Proof.
  intros Hn. unfold print_nat. rewrite (proj2 (Z.eqb_neq n 0)) by lia. f_equal.
  apply le_digits_fuel_eq; [apply le_digits_fuel_enough; lia|lia].
Qed.

(** A number below [10 ^ w] is printed on at most [w] digits, and its first
    digit is not [0]. *)
Lemma print_nat_length (w : nat) (n : Z) :
  0 <= n < 10 ^ Z.of_nat w -> (0 < w)%nat -> (length (print_nat n) <= w)%nat.
Proof.
  intros Hn Hw. destruct (decide (n = 0)) as [->|]; [simpl; lia|].
  rewrite (print_nat_fuel w) by lia. rewrite length_rev.
  clear. revert n. induction w; intros n; simpl; [lia|]. case_if_bool; simpl; [lia|].
  specialize (IHw (n / 10)). lia.
Qed.

Lemma le_digits_fuel_last (f : nat) (n : Z) (c : ascii) :
  0 <= n < 10 ^ Z.of_nat f -> list.last (le_digits_fuel f n) = Some c -> c <> "0"%char.
Proof.
  revert n. induction f as [|f IH]; intros n Hn; simpl; [done|]. case_if_bool; [done|].
  rewrite Nat2Z.inj_succ, Z.pow_succ_r in Hn by lia.
  destruct (le_digits_fuel f (n / 10)) as [|x l] eqn:E.
  - assert (n / 10 = 0) as E0.
    { pose proof (le_digits_fuel_spec f (n / 10)) as H. rewrite E in H. simpl in H.
      symmetry. apply H. split; [apply Z.div_pos|apply Z.div_lt_upper_bound]; lia. }
    simpl. intros [= <-] C. assert (digit_value (digit_char (n mod 10)) = 0) as Hd by (by rewrite C).
    pose proof (Z.mod_pos_bound n 10 eq_refl). rewrite digit_value_char in Hd by lia.
    pose proof (Z.div_mod n 10 ltac:(lia)). lia.
  - rewrite last_cons_cons, <- E. apply IH.
    split; [apply Z.div_pos|apply Z.div_lt_upper_bound]; lia.
Qed.

Lemma print_nat_first (n : Z) (c : ascii) (s : bytes) :
  0 < n -> print_nat n = c :: s -> c <> "0"%char.
Proof.
  intros Hn E. unfold print_nat in E. rewrite (proj2 (Z.eqb_neq n 0)) in E by lia.
  apply (le_digits_fuel_last _ n c (le_digits_fuel_enough n ltac:(lia))).
  fold (le_digits n). apply (f_equal (@rev ascii)) in E. rewrite rev_involutive in E.
  rewrite E. simpl. by rewrite last_snoc.
Qed.
