(* ===== verification/XsdDecimal.v ===== *)
(** * xsd:boolean, xsd:integer and xsd:decimal

    lib/oxsdatatypes/src/boolean.rs, integer.rs and decimal.rs.  An [Integer] is
    an [i64]; a [Decimal] is an [i128] holding the value times 10^18.  The
    conversions from and to [Float]/[Double] are not modelled. *)
From S2P Require Import Prelude MachineInt RustStr.

(** ** Boolean *)

Record Boolean : Set := mkBoolean { Boolean_value : bool }.

Definition Boolean_is_identical_with (a b : Boolean) : bool :=
  Bool.eqb (Boolean_value a) (Boolean_value b).

(** [bool::from_str] accepts exactly [true] and [false], so the last arm of the
    source's match never succeeds. *)
Definition Boolean_from_str (input : bytes) : option Boolean :=
  if bool_decide (input = str "true") || bool_decide (input = str "1") then Some (mkBoolean true)
  else if bool_decide (input = str "false") || bool_decide (input = str "0")
  then Some (mkBoolean false)
  else None.

Definition Boolean_to_string (b : Boolean) : bytes :=
  if Boolean_value b then str "true" else str "false".

(** ** Integer *)

Record Integer : Set := mkInteger { Integer_value : Z }.

Definition Integer_wf (a : Integer) : Prop := in_int I64 (Integer_value a).
Definition Integer_MAX : Integer := mkInteger (int_max I64).
Definition Integer_MIN : Integer := mkInteger (int_min I64).

Definition Integer_from_be_bytes (bs : bytes) : Integer := mkInteger (from_be_bytes I64 bs).
Definition Integer_to_be_bytes (a : Integer) : bytes := to_be_bytes I64 (Integer_value a).

Definition Integer_checked_add (a b : Integer) : option Integer :=
  mkInteger <$> checked_add I64 (Integer_value a) (Integer_value b).
Definition Integer_checked_sub (a b : Integer) : option Integer :=
  mkInteger <$> checked_sub I64 (Integer_value a) (Integer_value b).
Definition Integer_checked_mul (a b : Integer) : option Integer :=
  mkInteger <$> checked_mul I64 (Integer_value a) (Integer_value b).
Definition Integer_checked_div (a b : Integer) : option Integer :=
  mkInteger <$> checked_div I64 (Integer_value a) (Integer_value b).
Definition Integer_checked_rem (a b : Integer) : option Integer :=
  mkInteger <$> checked_rem I64 (Integer_value a) (Integer_value b).
Definition Integer_checked_rem_euclid (a b : Integer) : option Integer :=
  mkInteger <$> checked_rem_euclid I64 (Integer_value a) (Integer_value b).
Definition Integer_checked_neg (a : Integer) : option Integer :=
  mkInteger <$> checked_neg I64 (Integer_value a).
Definition Integer_checked_abs (a : Integer) : option Integer :=
  mkInteger <$> checked_abs I64 (Integer_value a).
Definition Integer_is_negative (a : Integer) : bool := Integer_value a <? 0.
Definition Integer_is_positive (a : Integer) : bool := Integer_value a >? 0.
Definition Integer_is_identical_with (a b : Integer) : bool :=
  Integer_value a =? Integer_value b.

Definition Integer_from_bool (b : bool) : Integer := mkInteger (Z.b2z b).
(** [From<i8>], ..., [From<u32>]: widening, the value is unchanged. *)
Definition Integer_from_int (z : Z) : Integer := mkInteger z.
Definition Integer_from_boolean (b : Boolean) : Integer := Integer_from_bool (Boolean_value b).
Definition Boolean_from_integer (a : Integer) : Boolean :=
  mkBoolean (negb (Integer_is_identical_with a (Integer_from_int 0))).

Definition Integer_from_str (input : bytes) : result ParseIntError Integer :=
  z ← int_from_str I64 input; Ok (mkInteger z).
Definition Integer_to_string (a : Integer) : bytes := print_int (Integer_value a).

(** ** Decimal *)

Definition DECIMAL_PART_DIGITS : Z := 18.
Definition DECIMAL_PART_POW : Z := 1000000000000000000.
Definition DECIMAL_PART_POW_MINUS_ONE : Z := 100000000000000000.

Record Decimal : Set := mkDecimal { Decimal_value : Z }.

Definition Decimal_wf (a : Decimal) : Prop := in_int I128 (Decimal_value a).
Definition Decimal_MAX : Decimal := mkDecimal (int_max I128).
Definition Decimal_MIN : Decimal := mkDecimal (int_min I128).
Definition Decimal_default : Decimal := mkDecimal 0.

(** [TooLargeForDecimalError] and [TooLargeForIntegerError] *)
Inductive TooLargeForDecimalError : Set := TooLargeForDecimal.
Inductive TooLargeForIntegerError : Set := TooLargeForInteger.

(** The decimal [i / 10^n]. *)
Definition Decimal_new (i n : Z) : result TooLargeForDecimalError Decimal :=
  match checked_sub U32 DECIMAL_PART_DIGITS n with
  | None => Err TooLargeForDecimal
  | Some shift =>
      match checked_mul I128 i (10 ^ shift) with
      | None => Err TooLargeForDecimal
      | Some value => Ok (mkDecimal value)
      end
  end.

Definition Decimal_new_from_i128_unchecked (value : Z) : Decimal :=
  mkDecimal (value * DECIMAL_PART_POW).

Definition Decimal_from_be_bytes (bs : bytes) : Decimal := mkDecimal (from_be_bytes I128 bs).
Definition Decimal_to_be_bytes (a : Decimal) : bytes := to_be_bytes I128 (Decimal_value a).

Definition Decimal_checked_add (a b : Decimal) : option Decimal :=
  mkDecimal <$> checked_add I128 (Decimal_value a) (Decimal_value b).
Definition Decimal_checked_sub (a b : Decimal) : option Decimal :=
  mkDecimal <$> checked_sub I128 (Decimal_value a) (Decimal_value b).

(** [while v % 10 == 0 { v /= 10; shift += 1; }] for [v != 0]; an [i128] has
    fewer than 40 decimal digits, so 40 rounds are enough. *)
Fixpoint strip_zeros (fuel : nat) (v shift : Z) : Z * Z :=
  match fuel with
  | O => (v, shift)
  | S fuel =>
      if Z.rem v 10 =? 0 then strip_zeros fuel (Z.quot v 10) (shift + 1) else (v, shift)
  end.

(** [while let Some(r) = v.checked_mul(10) { v = r; shift += 1; }] for [v != 0]. *)
Fixpoint scale_up (fuel : nat) (v shift : Z) : Z * Z :=
  match fuel with
  | O => (v, shift)
  | S fuel =>
      match checked_mul I128 v 10 with
      | Some r => scale_up fuel r (shift + 1)
      | None => (v, shift)
      end
  end.

Definition Decimal_loop_fuel : nat := 40.

Definition Decimal_checked_mul (a b : Decimal) : option Decimal :=
  let '(lhs, shift_left) :=
    if Decimal_value a =? 0 then (Decimal_value a, 0)
    else strip_zeros Decimal_loop_fuel (Decimal_value a) 0 in
  let '(rhs, shift_right) :=
    if Decimal_value b =? 0 then (Decimal_value b, 0)
    else strip_zeros Decimal_loop_fuel (Decimal_value b) 0 in
  shift ← checked_sub U32 (shift_left + shift_right) DECIMAL_PART_DIGITS;
  product ← checked_mul I128 lhs rhs;
  pow ← checked_pow I128 10 shift;
  value ← checked_mul I128 product pow;
  Some (mkDecimal value).

Definition Decimal_checked_div (a b : Decimal) : option Decimal :=
  let '(lhs, shift_left) :=
    if Decimal_value a =? 0 then (Decimal_value a, 0)
    else scale_up Decimal_loop_fuel (Decimal_value a) 0 in
  let '(rhs, shift_right) :=
    if Decimal_value b =? 0 then (Decimal_value b, 0)
    else strip_zeros Decimal_loop_fuel (Decimal_value b) 0 in
  shift ← checked_sub U32 (shift_left + shift_right) DECIMAL_PART_DIGITS;
  quotient ← checked_div I128 lhs rhs;
  pow ← checked_pow I128 10 shift;
  value ← checked_div I128 quotient pow;
  Some (mkDecimal value).

Definition Decimal_checked_rem (a b : Decimal) : option Decimal :=
  mkDecimal <$> checked_rem I128 (Decimal_value a) (Decimal_value b).
Definition Decimal_checked_rem_euclid (a b : Decimal) : option Decimal :=
  mkDecimal <$> checked_rem_euclid I128 (Decimal_value a) (Decimal_value b).
Definition Decimal_checked_neg (a : Decimal) : option Decimal :=
  mkDecimal <$> checked_neg I128 (Decimal_value a).
Definition Decimal_checked_abs (a : Decimal) : option Decimal :=
  mkDecimal <$> checked_abs I128 (Decimal_value a).

Definition Decimal_checked_round (a : Decimal) : option Decimal :=
  let value := Z.quot (Decimal_value a) DECIMAL_PART_POW_MINUS_ONE in
  mkDecimal <$> checked_mul I128
    (if value >=? 0
     then Z.quot value 10 + Z.b2z (Z.rem value 10 >=? 5)
     else Z.quot value 10 - Z.b2z (Z.rem (- value) 10 >? 5))
    DECIMAL_PART_POW.

Definition Decimal_checked_ceil (a : Decimal) : option Decimal :=
  mkDecimal <$> checked_mul I128
    (if (Decimal_value a >? 0) && negb (Z.rem (Decimal_value a) DECIMAL_PART_POW =? 0)
     then Z.quot (Decimal_value a) DECIMAL_PART_POW + 1
     else Z.quot (Decimal_value a) DECIMAL_PART_POW)
    DECIMAL_PART_POW.

Definition Decimal_checked_floor (a : Decimal) : option Decimal :=
  mkDecimal <$> checked_mul I128
    (if (Decimal_value a >=? 0) || (Z.rem (Decimal_value a) DECIMAL_PART_POW =? 0)
     then Z.quot (Decimal_value a) DECIMAL_PART_POW
     else Z.quot (Decimal_value a) DECIMAL_PART_POW - 1)
    DECIMAL_PART_POW.

Definition Decimal_is_negative (a : Decimal) : bool := Decimal_value a <? 0.
Definition Decimal_is_positive (a : Decimal) : bool := Decimal_value a >? 0.
Definition Decimal_is_identical_with (a b : Decimal) : bool :=
  Decimal_value a =? Decimal_value b.
Definition Decimal_as_i128 (a : Decimal) : Z := Z.quot (Decimal_value a) DECIMAL_PART_POW.

(** The derived [Eq] and [Ord] compare the scaled values. *)
Definition Decimal_eqb (a b : Decimal) : bool := Decimal_value a =? Decimal_value b.
Definition Decimal_ltb (a b : Decimal) : bool := Decimal_value a <? Decimal_value b.
Definition Decimal_cmp (a b : Decimal) : comparison := Decimal_value a ?= Decimal_value b.

Definition Decimal_from_bool (b : bool) : Decimal := mkDecimal (Z.b2z b * DECIMAL_PART_POW).
(** [From<i8>], ..., [From<u64>]: at most 64 bits, so the product cannot overflow. *)
Definition Decimal_from_int (z : Z) : Decimal := mkDecimal (z * DECIMAL_PART_POW).
Definition Decimal_from_integer (a : Integer) : Decimal := Decimal_from_int (Integer_value a).
Definition Decimal_try_from_i128 (value : Z) : result TooLargeForDecimalError Decimal :=
  v ← ok_or TooLargeForDecimal (checked_mul I128 value DECIMAL_PART_POW); Ok (mkDecimal v).
Definition Decimal_try_from_u128 (value : Z) : result TooLargeForDecimalError Decimal :=
  i ← ok_or TooLargeForDecimal (checked I128 value);
  v ← ok_or TooLargeForDecimal (checked_mul I128 i DECIMAL_PART_POW);
  Ok (mkDecimal v).
Definition Decimal_from_boolean (b : Boolean) : Decimal := Decimal_from_bool (Boolean_value b).
Definition Boolean_from_decimal (a : Decimal) : Boolean :=
  mkBoolean (negb (Decimal_eqb a (Decimal_from_int 0))).
Definition Integer_try_from_decimal (a : Decimal) : result TooLargeForIntegerError Integer :=
  q ← ok_or TooLargeForInteger (checked_div I128 (Decimal_value a) DECIMAL_PART_POW);
  i ← ok_or TooLargeForInteger (checked I64 q);
  Ok (mkInteger i).

(** *** Text *)

Inductive DecimalParseErrorKind : Set := Overflow | Underflow | UnexpectedChar | UnexpectedEnd.

(** [value.checked_mul(10)?.checked_add(sign * digit)?] *)
Definition push_digit (sign value : Z) (c : ascii) : result DecimalParseErrorKind Z :=
  m ← ok_or Overflow (checked_mul I128 value 10);
  ok_or Overflow (checked_add I128 m (sign * digit_value c)).

(** The digits before the dot, and the rest of the input. *)
Fixpoint digits_before_dot (sign value : Z) (input : bytes)
  : result DecimalParseErrorKind (Z * bytes) :=
  match input with
  | c :: rest =>
      if is_ascii_digit c then
        v ← push_digit sign value c; digits_before_dot sign v rest
      else Ok (value, input)
  | [] => Ok (value, [])
  end.

(** The digits after the dot: every one divides [exp] by ten. *)
Fixpoint digits_after_dot (sign value exp : Z) (input : bytes)
  : result DecimalParseErrorKind (Z * Z) :=
  match input with
  | c :: rest =>
      if is_ascii_digit c then
        v ← push_digit sign value c; digits_after_dot sign v (Z.quot exp 10) rest
      else Err UnexpectedChar
  | [] => Ok (value, exp)
  end.

(** [while input.last() == Some(&b'0') { input = &input[..input.len() - 1] }] *)
Fixpoint drop_zeros (s : bytes) : bytes :=
  match s with
  | c :: s' => if Ascii.eqb c "0"%char then drop_zeros s' else s
  | [] => []
  end.
Definition trim_end_zeros (s : bytes) : bytes := rev (drop_zeros (rev s)).

Definition Decimal_from_str (input : bytes) : result DecimalParseErrorKind Decimal :=
  match input with
  | [] => Err UnexpectedEnd
  | first :: rest =>
      let '(sign, input) :=
        if Ascii.eqb first "+"%char then (1, rest)
        else if Ascii.eqb first "-"%char then (-1, rest)
        else (1, input) in
      let with_before_dot := match input with c :: _ => is_ascii_digit c | [] => false end in
      '(value, input) ← digits_before_dot sign 0 input;
      '(value, exp) ←
        match input with
        | c :: input =>
            if negb (Ascii.eqb c "."%char) then Err UnexpectedChar
            else if (match input with [] => true | _ => false end) && negb with_before_dot
            then Err UnexpectedEnd
            else
              '(value, exp) ← digits_after_dot sign value DECIMAL_PART_POW (trim_end_zeros input);
              if exp =? 0 then Err Underflow else Ok (value, exp)
        | [] => if negb with_before_dot then Err UnexpectedEnd else Ok (value, DECIMAL_PART_POW)
        end;
      v ← ok_or Overflow (checked_mul I128 value exp);
      Ok (mkDecimal v)
  end.

(** The loop of [fmt] that writes the digits, least significant first. *)
Fixpoint fmt_digits (fuel : nat) (value : Z) : bytes :=
  match fuel with
  | O => []
  | S fuel =>
      if value =? 0 then []
      else digit_char (Z.abs (Z.rem value 10)) :: fmt_digits fuel (Z.quot value 10)
  end.

(** Position of the first digit that is not [0], 40 when there is none. *)
Fixpoint first_non_zero_from (i : nat) (digits : bytes) : nat :=
  match digits with
  | c :: digits => if Ascii.eqb c "0"%char then first_non_zero_from (S i) digits else i
  | [] => 40
  end.

(** [digits\[a..b\]], with [None] for the panic of an out-of-range slice. *)
Definition slice (l : bytes) (a b : nat) : option bytes :=
  if (a <=? b)%nat && (b <=? length l)%nat then Some (take (b - a) (drop a l)) else None.

(** The end of the digits of the integer part, with the optional width of the
    format; [None] where [width -= 1] underflows. *)
Definition fmt_end (width : option nat) (negative : bool) (last_non_zero : nat) : option nat :=
  match width with
  | Some w =>
      w ← (if negative then match w with O => None | S w => Some w end else Some w);
      Some (if (last_non_zero - 18 + 1 <? w)%nat then (18 + w)%nat else (last_non_zero + 1)%nat)
  | None => Some (last_non_zero + 1)%nat
  end.

(** [Display::fmt] with the width and the precision of the format; [None] is a panic. *)
Definition Decimal_fmt (width precision : option nat) (a : Decimal) : option bytes :=
  if Decimal_value a =? 0 then
    match width with
    | Some w => Some (replicate w "0"%char)
    | None => Some (str "0")
    end
  else
    let written := fmt_digits Decimal_loop_fuel (Decimal_value a) in
    let i := length written in
    let digits := written ++ replicate (40 - i)%nat "0"%char in
    let last_non_zero := (i - 1)%nat in
    let first_non_zero := first_non_zero_from 0 digits in
    let sign := if Decimal_value a <? 0 then str "-" else [] in
    before ← (if (18 <=? last_non_zero)%nat then
                e ← fmt_end width (Decimal_value a <? 0) last_non_zero;
                d ← slice digits 18 e; Some (rev d)
              else Some (str "0"));
    after ← (if (first_non_zero <? 18)%nat then
               let start := match precision with
                            | Some p => if (p <? 18 - first_non_zero)%nat then (18 - p)%nat
                                        else first_non_zero
                            | None => first_non_zero
                            end in
               d ← slice digits start 18; Some ("."%char :: rev d)
             else Some []);
    Some (sign ++ before ++ after).

(** [to_string]: the format without width and precision, which never panics
    ([Decimal_fmt_total]). *)
Definition Decimal_to_string (a : Decimal) : bytes := default [] (Decimal_fmt None None a).

#[global] Instance Boolean_eq_dec : EqDecision Boolean.
Proof. solve_decision. Defined.
#[global] Instance Integer_eq_dec : EqDecision Integer.
Proof. solve_decision. Defined.
#[global] Instance Decimal_eq_dec : EqDecision Decimal.
Proof. solve_decision. Defined.
