(* ===== verification/XsdDecimalFacts.v ===== *)
(** * Correctness of xsd:integer and xsd:decimal

    The arithmetic of [Decimal] against exact arithmetic on the scaled values,
    and the round trips through text and through bytes. *)
From S2P Require Import Prelude MachineInt RustStr XsdDecimal.

(** ** The two scaling loops *)

Lemma pow10_pos (n : Z) : 0 <= n -> 0 < 10 ^ n.
Proof. intros. apply Z.pow_pos_nonneg; lia. Qed.

Lemma pow10_add (a b : Z) : 0 <= a -> 0 <= b -> 10 ^ (a + b) = 10 ^ a * 10 ^ b.
Proof. intros. apply Z.pow_add_r; lia. Qed.

(** What [strip_zeros] returns: the same number written with a larger power of ten. *)
Lemma strip_zeros_value (fuel : nat) (v s v' s' : Z) :
  strip_zeros fuel v s = (v', s') -> s <= s' /\ v = v' * 10 ^ (s' - s).
Proof.
  revert v s. induction fuel as [|fuel IH]; intros v s; simpl.
  - intros [= -> ->]. rewrite Z.sub_diag. lia.
  - case_if_bool; [|intros [= -> ->]; rewrite Z.sub_diag; lia].
    intros H. apply IH in H as [Hs Hv]. split; [lia|].
    replace (s' - s) with (s' - (s + 1) + 1) by lia. rewrite pow10_add by lia.
    pose proof (Z.quot_rem' v 10). lia.
Qed.

(** With enough fuel it stops at a number that ten does not divide. *)
Lemma strip_zeros_stops (fuel : nat) (v s v' s' : Z) :
  v <> 0 -> Z.abs v < 10 ^ Z.of_nat fuel -> strip_zeros fuel v s = (v', s') ->
  Z.rem v' 10 <> 0.
Proof.
  revert v s. induction fuel as [|fuel IH]; intros v s Hv Hb; simpl.
  - change (10 ^ Z.of_nat 0) with 1 in Hb. lia.
  - rewrite Nat2Z.inj_succ, Z.pow_succ_r in Hb by lia. pose proof (Z.quot_rem' v 10).
    case_if_bool; [|by intros [= -> ->]].
    apply IH; [lia|]. rewrite <- Z.quot_abs by lia. change (Z.abs 10) with 10.
    apply Z.quot_lt_upper_bound; lia.
Qed.

Lemma strip_zeros_nonzero (fuel : nat) (v s v' s' : Z) :
  v <> 0 -> strip_zeros fuel v s = (v', s') -> v' <> 0.
Proof. intros Hv H. apply strip_zeros_value in H as [_ H]. intros ->. lia. Qed.

Lemma divide_rem_0 (a b : Z) : b <> 0 -> (b | a) <-> Z.rem a b = 0.
Proof. intros. symmetry. by apply Z.rem_divide. Qed.

(** The exponent it finds is the largest one. *)
Lemma strip_zeros_max (v v' s' i : Z) :
  v <> 0 -> in_int I128 v -> strip_zeros Decimal_loop_fuel v 0 = (v', s') ->
  0 <= i -> (10 ^ i | v) <-> i <= s'.
Proof.
  intros Hv Hin H Hi.
  assert (Z.rem v' 10 <> 0) as Hr.
  { eapply strip_zeros_stops; [done| |exact H]. change (10 ^ Z.of_nat Decimal_loop_fuel)
      with 10000000000000000000000000000000000000000. int_bounds. }
  apply strip_zeros_value in H as [Hs E]. rewrite Z.sub_0_r in E. split.
  - intros [k Hk]. destruct (Z.le_gt_cases i s') as [|Hlt]; [done|]. exfalso. apply Hr.
    apply divide_rem_0; [done|]. exists (k * 10 ^ (i - s' - 1)).
    assert (v' * 10 ^ s' = (k * 10 ^ (i - s' - 1) * 10) * 10 ^ s') as Heq.
    { rewrite <- E, Hk. replace i with ((i - s' - 1) + 1 + s') at 1 by lia.
      rewrite !pow10_add by lia. change (10 ^ 1) with 10. ring. }
    apply Z.mul_reg_r in Heq; [done|]. pose proof (pow10_pos s'). lia.
  - intros Hle. exists (v' * 10 ^ (s' - i)). rewrite E.
    replace s' with ((s' - i) + i) at 1 by lia. rewrite pow10_add by lia. ring.
Qed.

Lemma strip_zeros_le_38 (v v' s' : Z) :
  v <> 0 -> in_int I128 v -> strip_zeros Decimal_loop_fuel v 0 = (v', s') -> s' <= 38.
Proof.
  intros Hv Hin H. pose proof H as H'. apply strip_zeros_value in H as [Hs E].
  rewrite Z.sub_0_r in E. destruct (Z.le_gt_cases s' 38) as [|Hlt]; [done|]. exfalso.
  pose proof (strip_zeros_nonzero _ _ _ _ _ Hv H').
  assert (10 ^ 39 <= 10 ^ s') by (apply Z.pow_le_mono_r; lia).
  change (10 ^ 39) with 1000000000000000000000000000000000000000 in *.
  assert (10 ^ s' <= Z.abs v) by (rewrite E, Z.abs_mul, (Z.abs_eq (10 ^ s')) by lia; nia).
  int_bounds.
Qed.

(** A factor of a number in range is in range. *)
Lemma factor_in_int (t : int_ty) (p q : Z) : 0 < q -> in_int t (p * q) -> in_int t p.
Proof.
  intros Hq H. unfold in_int in *. assert (int_min t <= 0 <= int_max t) by (by destruct t).
  split; nia.
Qed.

Lemma pow10_in_i128 (p s : Z) :
  0 <= s -> p <> 0 -> in_int I128 (p * 10 ^ s) -> in_int I128 (10 ^ s).
Proof.
  intros Hs Hp H. pose proof (pow10_pos s Hs).
  destruct (Z.le_gt_cases s 38) as [Hle|Hlt].
  - assert (10 ^ s <= 10 ^ 38) by (apply Z.pow_le_mono_r; lia).
    change (10 ^ 38) with 100000000000000000000000000000000000000 in *. int_bounds.
  - exfalso. assert (10 ^ 39 <= 10 ^ s) by (apply Z.pow_le_mono_r; lia).
    change (10 ^ 39) with 1000000000000000000000000000000000000000 in *.
    assert (10 ^ s <= Z.abs (p * 10 ^ s)) by (rewrite Z.abs_mul, (Z.abs_eq (10 ^ s)) by lia; nia).
    int_bounds.
Qed.

(** ** Multiplication *)

(** The multiplication and the shift of [Decimal_checked_mul], on the stripped factors. *)
Lemma mul_shift (l sl r sr : Z) (c : Decimal) :
  l <> 0 -> r <> 0 -> 0 <= sl <= 38 -> 0 <= sr <= 38 ->
  (shift ← checked_sub U32 (sl + sr) DECIMAL_PART_DIGITS;
   product ← checked_mul I128 l r;
   pow ← checked_pow I128 10 shift;
   value ← checked_mul I128 product pow;
   Some (mkDecimal value)) = Some c <->
  18 <= sl + sr /\ Decimal_wf c /\ Decimal_value c = l * r * 10 ^ (sl + sr - 18).
Proof.
  intros Hl Hr Hsl Hsr. unfold checked_sub, checked_mul, checked_pow, DECIMAL_PART_DIGITS.
  split.
  - intros H. peel H.
    repeat match goal with E : checked _ _ = Some _ |- _ => apply checked_Some in E as [-> ?] end.
    subst c. unfold Decimal_wf. simpl. split; [int_bounds|done].
  - intros (Hge & Hwf & E). unfold Decimal_wf in Hwf. rewrite E in Hwf.
    rewrite (checked_in U32) by int_bounds. monad.
    pose proof (pow10_pos (sl + sr - 18) ltac:(lia)).
    rewrite (checked_in I128 (l * r)) by (eapply factor_in_int; [|exact Hwf]; lia). monad.
    rewrite (checked_in I128 (10 ^ _)) by (eapply pow10_in_i128; [| |exact Hwf]; nia). monad.
    rewrite checked_in by done. monad. destruct c; simpl in *. by subst.
Qed.

Lemma pow10_18 : 10 ^ 18 = DECIMAL_PART_POW.
Proof. done. Qed.

(** Multiplication of two non-zero decimals in terms of the stripped factors. *)
Lemma Decimal_checked_mul_shift (a b c : Decimal) (l sl r sr : Z) :
  Decimal_wf a -> Decimal_wf b -> Decimal_value a <> 0 -> Decimal_value b <> 0 ->
  strip_zeros Decimal_loop_fuel (Decimal_value a) 0 = (l, sl) ->
  strip_zeros Decimal_loop_fuel (Decimal_value b) 0 = (r, sr) ->
  Decimal_checked_mul a b = Some c <->
  18 <= sl + sr /\ Decimal_wf c /\ Decimal_value c = l * r * 10 ^ (sl + sr - 18).
Proof.
  intros Ha Hb Ha0 Hb0 El Er. unfold Decimal_checked_mul.
  rewrite (proj2 (Z.eqb_neq (Decimal_value a) 0)), (proj2 (Z.eqb_neq (Decimal_value b) 0)) by done.
  rewrite El, Er. apply mul_shift; eauto using strip_zeros_nonzero.
  - split; [by apply strip_zeros_value in El as [? _]|by apply strip_zeros_le_38 in El].
  - split; [by apply strip_zeros_value in Er as [? _]|by apply strip_zeros_le_38 in Er].
Qed.

(** The shifted product is the exact one. *)
Lemma mul_shift_exact (a b l sl r sr : Z) :
  0 <= sl -> 0 <= sr -> 18 <= sl + sr -> a = l * 10 ^ sl -> b = r * 10 ^ sr ->
  l * r * 10 ^ (sl + sr - 18) * DECIMAL_PART_POW = a * b.
Proof.
  intros Hsl Hsr Hge -> ->. rewrite <- pow10_18, <- (Z.mul_assoc (l * r)), <- pow10_add by lia.
  replace (sl + sr - 18 + 18) with (sl + sr) by lia. rewrite pow10_add by lia. ring.
Qed.

Lemma Decimal_checked_mul_complete (a b c : Decimal) (i j : Z) :
  Decimal_wf a -> Decimal_wf b -> Decimal_value a <> 0 -> Decimal_value b <> 0 ->
  Decimal_wf c -> Decimal_value c * DECIMAL_PART_POW = Decimal_value a * Decimal_value b ->
  0 <= i -> 0 <= j -> i + j = 18 ->
  (10 ^ i | Decimal_value a) -> (10 ^ j | Decimal_value b) ->
  Decimal_checked_mul a b = Some c.
Proof.
  intros Ha Hb Ha0 Hb0 Hwf E Hi Hj Hij Da Db.
  destruct (strip_zeros Decimal_loop_fuel (Decimal_value a) 0) as [l sl] eqn:El.
  destruct (strip_zeros Decimal_loop_fuel (Decimal_value b) 0) as [r sr] eqn:Er.
  rewrite (Decimal_checked_mul_shift a b c l sl r sr) by done.
  apply (strip_zeros_max _ _ _ i Ha0 Ha El Hi) in Da.
  apply (strip_zeros_max _ _ _ j Hb0 Hb Er Hj) in Db.
  apply strip_zeros_value in El as [Hsl Va]. apply strip_zeros_value in Er as [Hsr Vb].
  rewrite Z.sub_0_r in Va, Vb. split; [lia|]. split; [done|].
  rewrite <- (mul_shift_exact (Decimal_value a) (Decimal_value b) l sl r sr) in E by (done || lia).
  apply Z.mul_reg_r in E; [done|discriminate].
Qed.

(** Two operands other than zero. *)
Lemma Decimal_checked_mul_nonzero (a b c : Decimal) :
  Decimal_wf a -> Decimal_wf b -> Decimal_value a <> 0 -> Decimal_value b <> 0 ->
  Decimal_checked_mul a b = Some c <->
  Decimal_wf c /\ Decimal_value c * DECIMAL_PART_POW = Decimal_value a * Decimal_value b /\
  exists i j, 0 <= i /\ 0 <= j /\ i + j = 18 /\
    (10 ^ i | Decimal_value a) /\ (10 ^ j | Decimal_value b).
Proof.
  intros Ha Hb Ha0 Hb0. split.
  - destruct (strip_zeros Decimal_loop_fuel (Decimal_value a) 0) as [l sl] eqn:El.
    destruct (strip_zeros Decimal_loop_fuel (Decimal_value b) 0) as [r sr] eqn:Er.
    rewrite (Decimal_checked_mul_shift a b c l sl r sr) by done. intros (Hge & Hwf & E).
    pose proof (strip_zeros_max _ _ _ (Z.min sl 18) Ha0 Ha El) as Ma.
    pose proof (strip_zeros_max _ _ _ (18 - Z.min sl 18) Hb0 Hb Er) as Mb.
    apply strip_zeros_value in El as [Hsl Va]. apply strip_zeros_value in Er as [Hsr Vb].
    rewrite Z.sub_0_r in Va, Vb. split; [done|].
    split; [rewrite E; by apply mul_shift_exact|].
    exists (Z.min sl 18), (18 - Z.min sl 18). repeat split; try lia; [apply Ma|apply Mb]; lia.
  - intros (Hwf & E & i & j & Hi & Hj & Hij & Da & Db).
    by apply Decimal_checked_mul_complete with i j.
Qed.

Lemma Decimal_checked_mul_comm (a b : Decimal) : Decimal_checked_mul a b = Decimal_checked_mul b a.
Proof.
  unfold Decimal_checked_mul.
  destruct (if Decimal_value a =? 0 then _ else _) as [l sl], (if Decimal_value b =? 0 then _ else _) as [r sr].
  unfold checked_mul. by rewrite (Z.add_comm sl sr), (Z.mul_comm l r).
Qed.

(** A product by zero is zero when the other operand is an integer other than
    zero, and an error otherwise. *)
Lemma Decimal_checked_mul_zero_l (b c : Decimal) :
  Decimal_wf b ->
  Decimal_checked_mul (mkDecimal 0) b = Some c <->
  Decimal_value b <> 0 /\ (DECIMAL_PART_POW | Decimal_value b) /\ c = mkDecimal 0.
Proof.
  intros Hb. unfold Decimal_checked_mul. change (Decimal_value (mkDecimal 0) =? 0) with true. cbv iota.
  destruct (Z.eqb_spec (Decimal_value b) 0) as [E0|Hb0].
  { rewrite E0. cbn [Decimal_value Z.add]. split; [by intros H|by intros (? & _)]. }
  destruct (strip_zeros Decimal_loop_fuel (Decimal_value b) 0) as [r sr] eqn:Er.
  pose proof (strip_zeros_le_38 _ _ _ Hb0 Hb Er). pose proof (strip_zeros_max _ _ _ 18 Hb0 Hb Er ltac:(lia)) as M.
  pose proof (strip_zeros_value _ _ _ _ _ Er) as [Hsr _]. rewrite pow10_18 in M. rewrite M. cbn [Decimal_value]. rewrite Z.add_0_l.
  unfold checked_sub, checked_mul, checked_pow, DECIMAL_PART_DIGITS. rewrite !Z.mul_0_l. split.
  - intros Hc. peel Hc. apply checked_Some in Hs as [-> Hin], Hs0 as [-> _], Hs1 as [-> _], Hs2 as [-> _].
    subst c. split; [done|]. split; [int_bounds|]. by rewrite Z.mul_0_l.
  - intros (_ & Hge & ->). rewrite (checked_in U32) by int_bounds. monad. rewrite (checked_in I128 0) by int_bounds. monad.
    rewrite checked_in; [monad; rewrite Z.mul_0_l, checked_in by int_bounds; by monad|].
    assert (10 ^ (sr - 18) <= 10 ^ 20) by (apply Z.pow_le_mono_r; lia). pose proof (pow10_pos (sr - 18) ltac:(lia)).
    change (10 ^ 20) with 100000000000000000000 in *. int_bounds.
Qed.

(** The exact product by zero, with the zeros that are there. *)
Lemma zero_product (b c : Decimal) :
  Decimal_wf b ->
  Decimal_value b <> 0 /\ (DECIMAL_PART_POW | Decimal_value b) /\ c = mkDecimal 0 <->
  Decimal_wf c /\ Decimal_value c * DECIMAL_PART_POW = 0 * Decimal_value b /\
  exists i j, 0 <= i /\ 0 <= j /\ i + j = 18 /\ (0 = 0 -> i = 0) /\ (Decimal_value b = 0 -> j = 0) /\
    (10 ^ i | 0) /\ (10 ^ j | Decimal_value b).
Proof.
  intros _. split.
  - intros (Hb0 & Hd & ->). split; [split; discriminate|]. split; [done|]. exists 0, 18. rewrite pow10_18.
    repeat split; try done; try apply Z.divide_0_r; lia.
  - intros (_ & E & i & j & Hi & Hj & Hij & Hi0 & Hj0 & _ & Hd). specialize (Hi0 eq_refl). assert (j = 18) as -> by lia.
    rewrite pow10_18 in Hd. split; [intros H; specialize (Hj0 H); lia|]. split; [done|].
    destruct c as [vc]. cbn [Decimal_value] in E. f_equal. unfold DECIMAL_PART_POW in E. lia.
Qed.

(** C34. [Decimal::checked_mul] returns [c] exactly when [c] is the exact product, it
    fits the representation, and the scaled values of the two operands have
    together at least 18 trailing zeros, where zero has none.  It never rounds;
    representable products without the zeros are errors. *)
Theorem Decimal_checked_mul_spec (a b c : Decimal) :
  Decimal_wf a -> Decimal_wf b ->
  Decimal_checked_mul a b = Some c <->
  Decimal_wf c /\ Decimal_value c * DECIMAL_PART_POW = Decimal_value a * Decimal_value b /\
  exists i j, 0 <= i /\ 0 <= j /\ i + j = 18 /\
    (Decimal_value a = 0 -> i = 0) /\ (Decimal_value b = 0 -> j = 0) /\
    (10 ^ i | Decimal_value a) /\ (10 ^ j | Decimal_value b).
Proof.
  intros Ha Hb. destruct (Z.eq_dec (Decimal_value a) 0) as [Ea|Ha0]; [|destruct (Z.eq_dec (Decimal_value b) 0) as [Eb|Hb0]].
  - destruct a as [va]. cbn [Decimal_value] in Ea |- *. subst va. rewrite Decimal_checked_mul_zero_l by done. by apply zero_product.
  - destruct b as [vb]. cbn [Decimal_value] in Eb |- *. subst vb.
    rewrite Decimal_checked_mul_comm, Decimal_checked_mul_zero_l, zero_product, (Z.mul_comm (Decimal_value a)) by done.
    split; intros (H1 & H2 & i & j & ? & ? & ? & H); (split; [done|]; split; [done|]; exists j, i; rewrite Z.add_comm; tauto).
  - rewrite Decimal_checked_mul_nonzero by done.
    split; intros (H1 & H2 & i & j & H); (split; [done|]; split; [done|]; exists i, j; tauto).
Qed.

Lemma Decimal_checked_mul_spec_witness :
  Decimal_checked_mul (mkDecimal 1500000000000000000) (mkDecimal (-200000000000000000))
  = Some (mkDecimal (-300000000000000000)).
Proof.
  apply (Decimal_checked_mul_spec (mkDecimal 1500000000000000000)
           (mkDecimal (-200000000000000000)) (mkDecimal (-300000000000000000)));
    [split; discriminate|split; discriminate|].
  split; [split; discriminate|]. split; [reflexivity|].
  exists 17, 1. repeat split; try discriminate.
  - exists 15. reflexivity.
  - exists (-20000000000000000). reflexivity.
Defined.

(** A decimal that is not an integer multiplied by zero is an error, not zero:
    [Decimal::checked_mul] returns [None] for [0 * b] exactly when [b] has a fraction. *)
Theorem Decimal_checked_mul_zero (b : Decimal) :
  Decimal_wf b -> Decimal_value b <> 0 ->
  Decimal_checked_mul (mkDecimal 0) b = None <-> Z.rem (Decimal_value b) DECIMAL_PART_POW <> 0.
Proof.
  intros Hb Hb0. unfold Decimal_checked_mul. rewrite (proj2 (Z.eqb_neq _ 0) Hb0).
  change (Decimal_value (mkDecimal 0) =? 0) with true. cbv iota.
  destruct (strip_zeros Decimal_loop_fuel (Decimal_value b) 0) as [r sr] eqn:Er.
  pose proof (strip_zeros_le_38 _ _ _ Hb0 Hb Er).
  pose proof (strip_zeros_max _ _ _ 18 Hb0 Hb Er ltac:(lia)) as M.
  rewrite pow10_18, divide_rem_0 in M by discriminate. rewrite M.
  pose proof (strip_zeros_value _ _ _ _ _ Er) as [Hsr _].
  unfold checked_sub, checked_mul, checked_pow, DECIMAL_PART_DIGITS. simpl Decimal_value.
  rewrite !Z.mul_0_l, !Z.add_0_l. destruct (Z.le_gt_cases 18 sr).
  - rewrite (checked_in U32) by int_bounds. monad. rewrite (checked_in I128 0) by int_bounds. monad.
    rewrite checked_in by (eapply (pow10_in_i128 1); [lia|lia|];
      assert (10 ^ (sr - 18) <= 10 ^ 20) by (apply Z.pow_le_mono_r; lia);
      pose proof (pow10_pos (sr - 18) ltac:(lia)); change (10 ^ 20) with 100000000000000000000 in *;
      int_bounds). monad.
    rewrite Z.mul_0_l, checked_in by int_bounds. monad. split; [done|lia].
  - rewrite (proj2 (checked_None U32 (sr - 18))) by int_bounds. monad. split; [lia|done].
Qed.

Lemma Decimal_checked_mul_zero_witness :
  Decimal_checked_mul (mkDecimal 0) (mkDecimal 500000000000000000) = None.
Proof.
  apply (Decimal_checked_mul_zero (mkDecimal 500000000000000000));
    [split; discriminate|discriminate|discriminate].
Defined.

(** ** Division *)

Lemma scale_up_value (fuel : nat) (v s v' s' : Z) :
  scale_up fuel v s = (v', s') -> s <= s' /\ v' = v * 10 ^ (s' - s).
Proof.
  revert v s. induction fuel as [|fuel IH]; intros v s; simpl.
  - intros [= -> ->]. rewrite Z.sub_diag. lia.
  - destruct (checked_mul I128 v 10) as [r|] eqn:E; [|intros [= -> ->]; rewrite Z.sub_diag; lia].
    apply checked_mul_Some in E as [-> _]. intros H. apply IH in H as [Hs ->]. split; [lia|].
    replace (s' - s) with (1 + (s' - (s + 1))) by lia. rewrite pow10_add by lia. lia.
Qed.

(** The loop stops because the product overflows, not because the fuel is out. *)
Lemma scale_up_stops (fuel : nat) (v s v' s' : Z) :
  in_int I128 v -> - int_min I128 < Z.abs v * 10 ^ Z.of_nat fuel ->
  scale_up fuel v s = (v', s') -> checked_mul I128 v' 10 = None.
Proof.
  revert v s. induction fuel as [|fuel IH]; intros v s Hv Hb; simpl.
  - change (10 ^ Z.of_nat 0) with 1 in Hb. exfalso. int_bounds.
  - rewrite Nat2Z.inj_succ, Z.pow_succ_r in Hb by lia.
    destruct (checked_mul I128 v 10) as [r|] eqn:E; [|by intros [= <- <-]].
    apply checked_mul_Some in E as [-> Hr]. intros H.
    eapply IH; [exact Hr| |exact H]. rewrite Z.abs_mul. change (Z.abs 10) with 10. lia.
Qed.

(** The two loops of the decimal arithmetic terminate: for every non-zero
    [i128] the model's 40 rounds reach the exit condition of the source's
    [while] loops (no factor ten is left; the next product overflows). *)
Theorem Decimal_loops_terminate (v : Z) :
  v <> 0 -> in_int I128 v ->
  (forall v' s', strip_zeros Decimal_loop_fuel v 0 = (v', s') -> Z.rem v' 10 <> 0) /\
  (forall v' s', scale_up Decimal_loop_fuel v 0 = (v', s') -> checked_mul I128 v' 10 = None).
Proof.
  intros Hv Hin. split; intros v' s' H.
  - eapply strip_zeros_stops; [done| |exact H].
    change (10 ^ Z.of_nat Decimal_loop_fuel) with 10000000000000000000000000000000000000000.
    int_bounds.
  - eapply scale_up_stops; [done| |exact H].
    change (10 ^ Z.of_nat Decimal_loop_fuel) with 10000000000000000000000000000000000000000.
    unfold int_min. lia.
Qed.

Lemma Decimal_loops_terminate_witness :
  Z.rem (fst (strip_zeros Decimal_loop_fuel (-12000) 0)) 10 <> 0 /\
  checked_mul I128 (fst (scale_up Decimal_loop_fuel 7 0)) 10 = None.
Proof.
  split.
  - apply (proj1 (Decimal_loops_terminate (-12000) ltac:(discriminate)
      ltac:(split; discriminate)) _ (snd (strip_zeros Decimal_loop_fuel (-12000) 0))).
    reflexivity.
  - apply (proj2 (Decimal_loops_terminate 7 ltac:(discriminate)
      ltac:(split; discriminate)) _ (snd (scale_up Decimal_loop_fuel 7 0))).
    vm_compute. reflexivity.
Defined.

Lemma checked_div_Some (t : int_ty) (a b r : Z) :
  checked_div t a b = Some r <-> b <> 0 /\ r = Z.quot a b /\ in_int t (Z.quot a b).
Proof.
  unfold checked_div. destruct (b =? 0) eqn:E; bool_to_prop.
  - split; [done|]. by intros [? _].
  - rewrite checked_Some. tauto.
Qed.

Lemma div_shift (a l sl b r sr : Z) :
  0 <= sl -> 0 <= sr -> 18 <= sl + sr -> l = a * 10 ^ sl -> b = r * 10 ^ sr ->
  Z.quot (Z.quot l r) (10 ^ (sl + sr - 18)) = Z.quot (a * DECIMAL_PART_POW) b.
Proof.
  intros Hsl Hsr Hge El Er. rewrite quot_quot by (apply pow10_pos; lia).
  rewrite <- (quot_cancel_r l _ (10 ^ 18)) by discriminate.
  rewrite <- (quot_cancel_r _ b (10 ^ sl)) by (pose proof (pow10_pos sl Hsl); lia).
  rewrite <- pow10_18. f_equal.
  - rewrite El. ring.
  - rewrite <- Z.mul_assoc, <- pow10_add by lia.
    replace (sl + sr - 18 + 18) with (sr + sl) by lia. rewrite pow10_add, Er by lia. ring.
Qed.

Lemma scale_up_in (fuel : nat) (v s v' s' : Z) :
  in_int I128 v -> scale_up fuel v s = (v', s') -> in_int I128 v'.
Proof.
  revert v s. induction fuel as [|fuel IH]; intros v s Hv; simpl; [by intros [= <- _]|].
  destruct (checked_mul I128 v 10) as [r|] eqn:E; [|by intros [= <- _]].
  apply checked_mul_Some in E as [-> Hr]. by apply IH.
Qed.

(** The largest power of ten the dividend can be multiplied by. *)
Lemma scale_up_max (v v' s' i : Z) :
  v <> 0 -> in_int I128 v -> scale_up Decimal_loop_fuel v 0 = (v', s') ->
  0 <= i -> in_int I128 (v * 10 ^ i) <-> i <= s'.
Proof.
  intros Hv Hin H Hi. pose proof (proj2 (Decimal_loops_terminate v Hv Hin) _ _ H) as Hstop.
  pose proof (scale_up_in _ _ _ _ _ Hin H) as Hin'. apply scale_up_value in H as [Hs ->]. rewrite Z.sub_0_r in *.
  apply checked_None in Hstop. split; intros Hc.
  - destruct (Z.le_gt_cases i s') as [|Hlt]; [done|]. exfalso. apply Hstop.
    apply (factor_in_int _ _ (10 ^ (i - s' - 1))); [apply pow10_pos; lia|].
    replace (v * 10 ^ s' * 10 * 10 ^ (i - s' - 1)) with (v * 10 ^ i); [done|].
    replace i with (s' + 1 + (i - s' - 1)) at 1 by lia. rewrite !pow10_add by lia. change (10 ^ 1) with 10. ring.
  - apply (factor_in_int _ _ (10 ^ (s' - i))); [apply pow10_pos; lia|].
    rewrite <- Z.mul_assoc, <- pow10_add by lia. by replace (i + (s' - i)) with s' by lia.
Qed.

Lemma quot_in_int (l r : Z) :
  in_int I128 l -> r <> 0 -> in_int I128 (Z.quot l r) <-> ~ (l = int_min I128 /\ r = -1).
Proof.
  intros Hl Hr. split.
  - intros Hq [-> ->]. revert Hq. vm_compute. by intros [_ ?].
  - intros Hn. assert (Z.abs r = 1 \/ 2 <= Z.abs r) as [H1|H2] by lia.
    + assert (r = 1 \/ r = -1) as [->| ->] by lia; [by rewrite Z.quot_1_r|].
      replace (Z.quot l (-1)) with (- l) by (change (-1) with (- (1)); rewrite Z.quot_opp_r, Z.quot_1_r by lia; lia).
      assert (l <> int_min I128) by tauto. int_bounds.
    + assert (Z.abs (Z.quot l r) <= Z.quot (Z.abs l) 2) as Hb.
      { rewrite <- Z.quot_abs by lia. apply Z.quot_le_compat_l; lia. }
      assert (Z.quot (Z.abs l) 2 <= int_max I128) by (apply Z.quot_le_upper_bound; [lia|]; int_bounds). int_bounds.
Qed.

Lemma pow10_fits (s : Z) : 0 <= s -> in_int I128 (10 ^ s) <-> s <= 38.
Proof.
  intros Hs. split; intros H.
  - destruct (Z.le_gt_cases s 38) as [|Hlt]; [done|]. exfalso. assert (10 ^ 39 <= 10 ^ s) by (apply Z.pow_le_mono_r; lia).
    change (10 ^ 39) with 1000000000000000000000000000000000000000 in *. int_bounds.
  - assert (10 ^ s <= 10 ^ 38) by (apply Z.pow_le_mono_r; lia). pose proof (pow10_pos s Hs).
    change (10 ^ 38) with 100000000000000000000000000000000000000 in *. int_bounds.
Qed.

(** The division and the shift, on the scaled dividend and the stripped divisor. *)
Lemma div_chain (l sl r sr : Z) (c : Decimal) :
  in_int I128 l -> 0 <= sl <= 40 -> 0 <= sr <= 38 ->
  (shift ← checked_sub U32 (sl + sr) DECIMAL_PART_DIGITS;
   quotient ← checked_div I128 l r;
   pow ← checked_pow I128 10 shift;
   value ← checked_div I128 quotient pow;
   Some (mkDecimal value)) = Some c <->
  18 <= sl + sr <= 56 /\ r <> 0 /\ ~ (l = int_min I128 /\ r = -1) /\
  c = mkDecimal (Z.quot (Z.quot l r) (10 ^ (sl + sr - 18))).
Proof.
  intros Hl Hsl Hsr. unfold checked_sub, checked_pow, DECIMAL_PART_DIGITS. split.
  - intros H. peel H. apply checked_Some in Hs as [-> Hx], Hs1 as [-> Hp].
    apply checked_div_Some in Hs0 as (Hr & -> & Hq), Hs2 as (_ & -> & _). subst c.
    assert (18 <= sl + sr) by int_bounds. apply pow10_fits in Hp; [|lia]. apply quot_in_int in Hq; [|done..]. split_and!; [lia..|done|done|done].
  - intros (Hs & Hr & Hn & ->). pose proof (pow10_pos (sl + sr - 18) ltac:(lia)).
    apply (quot_in_int l r Hl Hr) in Hn. rewrite (checked_in U32) by int_bounds. monad.
    assert (checked_div I128 l r = Some (Z.quot l r)) as -> by by apply checked_div_Some. monad. rewrite checked_in by (apply pow10_fits; lia). monad.
    assert (in_int I128 (Z.quot (Z.quot l r) (10 ^ (sl + sr - 18)))) as Hv by (apply quot_in_int; [done|lia|lia]).
    unfold checked_div. rewrite (proj2 (Z.eqb_neq _ 0)) by lia. rewrite checked_in by done. by monad.
Qed.

(** The powers of ten that [Decimal::checked_div] finds: of the dividend the
    largest that multiplies it in range, of the divisor the largest that divides it. *)
Definition dividend_shift (a s : Z) : Prop :=
  0 <= s /\ if a =? 0 then s = 0 else forall i, 0 <= i -> in_int I128 (a * 10 ^ i) <-> i <= s.
Definition divisor_shift (b s : Z) : Prop := 0 <= s /\ forall i, 0 <= i -> (10 ^ i | b) <-> i <= s.

Lemma dividend_shift_unique (a s s' : Z) : dividend_shift a s -> dividend_shift a s' -> s = s'.
Proof.
  intros [H1 H2] [H3 H4]. destruct (a =? 0); [by subst|].
  apply Z.le_antisymm; [apply H4, H2|apply H2, H4]; done || lia.
Qed.
Lemma divisor_shift_unique (b s s' : Z) : divisor_shift b s -> divisor_shift b s' -> s = s'.
Proof. intros [H1 H2] [H3 H4]. apply Z.le_antisymm; [apply H4, H2|apply H2, H4]; done || lia. Qed.

Lemma dividend_loop (a l sl : Z) :
  in_int I128 a -> (if a =? 0 then (a, 0) else scale_up Decimal_loop_fuel a 0) = (l, sl) ->
  in_int I128 l /\ 0 <= sl <= 40 /\ l = a * 10 ^ sl /\ (l = int_min I128 <-> a = int_min I128) /\ dividend_shift a sl.
Proof.
  intros Ha. unfold dividend_shift. destruct (Z.eqb_spec a 0) as [->|Ha0].
  { intros [= <- <-]. split_and!; [done|done|done|done|done|done|done]. }
  intros E. pose proof (scale_up_in _ _ _ _ _ Ha E) as Hl. pose proof (fun i => scale_up_max a l sl i Ha0 Ha E) as Hm.
  apply scale_up_value in E as [Hs El]. rewrite Z.sub_0_r in El.
  assert (Hle : sl <= 40).
  { destruct (Z.le_gt_cases sl 40) as [|Hlt]; [done|]. exfalso.
    assert (in_int I128 (10 ^ sl)) as Hp by (apply (pow10_in_i128 a); [done|done|by rewrite <- El]). apply pow10_fits in Hp; lia. }
  split_and!; [done|lia|lia|done| |lia|done]. split.
  - rewrite El. intros Hx. destruct (Z.eq_dec sl 0) as [->|Hs0]; [by rewrite Z.mul_1_r in Hx|]. exfalso.
    assert ((10 | int_min I128)) as Hd.
    { rewrite <- Hx. exists (a * 10 ^ (sl - 1)). rewrite <- Z.mul_assoc. f_equal. replace sl with (sl - 1 + 1) at 1 by lia. by rewrite pow10_add by lia. }
    apply divide_rem_0 in Hd; [|done]. revert Hd. by vm_compute.
  - intros Hx. rewrite El. assert (sl <= 0); [|by replace sl with 0 by lia; rewrite Z.mul_1_r].
    destruct (Z.le_gt_cases sl 0) as [|Hlt]; [done|]. exfalso. assert (10 ^ 1 <= 10 ^ sl) by (apply Z.pow_le_mono_r; lia).
    change (10 ^ 1) with 10 in *. rewrite El, Hx in Hl. unfold in_int in Hl. assert (int_min I128 < 0) by done. nia.
Qed.

Lemma divisor_loop (b r sr : Z) :
  b <> 0 -> in_int I128 b -> strip_zeros Decimal_loop_fuel b 0 = (r, sr) ->
  r <> 0 /\ 0 <= sr <= 38 /\ b = r * 10 ^ sr /\ divisor_shift b sr.
Proof.
  intros Hb0 Hb E. pose proof (strip_zeros_nonzero _ _ _ _ _ Hb0 E). pose proof (strip_zeros_le_38 _ _ _ Hb0 Hb E).
  pose proof (fun i => strip_zeros_max b r sr i Hb0 Hb E). apply strip_zeros_value in E as [Hs Er]. rewrite Z.sub_0_r in Er.
  split_and!; [done|lia|done|done|]. split; [lia|done].
Qed.

(** C35. [Decimal::checked_div] returns a value exactly when the divisor is not zero
    and the two shifts (of a zero dividend there is none) add up to at least 18 and
    at most 56, apart from the smallest value divided by -10^s.  The value is
    then the exact quotient truncated towards zero at 18 decimals, in range. *)
Theorem Decimal_checked_div_spec (a b c : Decimal) :
  Decimal_wf a -> Decimal_wf b ->
  Decimal_checked_div a b = Some c <->
  Decimal_value b <> 0 /\ Decimal_wf c /\
  Decimal_value c = Z.quot (Decimal_value a * DECIMAL_PART_POW) (Decimal_value b) /\
  exists sl sr, dividend_shift (Decimal_value a) sl /\ divisor_shift (Decimal_value b) sr /\ 18 <= sl + sr <= 56 /\
    ~ (Decimal_value a = int_min I128 /\ Decimal_value b = - 10 ^ sr).
Proof.
  intros Ha Hb. unfold Decimal_checked_div.
  destruct (if Decimal_value a =? 0 then _ else _) as [l sl] eqn:EL.
  destruct (if Decimal_value b =? 0 then _ else _) as [r sr] eqn:ER.
  destruct (Z.eq_dec (Decimal_value b) 0) as [Hb0|Hb0].
  { rewrite Hb0 in ER. injection ER as <- <-. split; [intros H; peel H; by apply checked_div_Some in Hs0 as [? _]|by intros [? _]]. }
  rewrite (proj2 (Z.eqb_neq (Decimal_value b) 0)) in ER by done.
  pose proof (dividend_loop _ _ _ Ha EL) as (Hl & Hsl & El & Hmin & Hda). pose proof (divisor_loop _ _ _ Hb0 Hb ER) as (Hr & Hsr & Er & Hdb).
  rewrite div_chain by done.
  assert (~ (l = int_min I128 /\ r = -1) <-> ~ (Decimal_value a = int_min I128 /\ Decimal_value b = - 10 ^ sr)) as Hex.
  { rewrite Hmin, Er. pose proof (pow10_pos sr ltac:(lia)). split; intros Hn [H1 H2]; apply Hn; (split; [done|nia]). }
  split.
  - intros (Hs & _ & Hn & ->). rewrite (div_shift (Decimal_value a) l sl (Decimal_value b) r sr) by (done || lia). cbn [Decimal_value].
    split; [done|]. split; [|split; [done|exists sl, sr; tauto]].
    rewrite <- (div_shift (Decimal_value a) l sl (Decimal_value b) r sr) by (done || lia).
    pose proof (pow10_pos (sl + sr - 18) ltac:(lia)). apply quot_in_int; [by apply quot_in_int|lia|lia].
  - intros (_ & _ & Ec & sl' & sr' & Hda' & Hdb' & Hs & Hn).
    assert (sl' = sl) as -> by (by eapply dividend_shift_unique). assert (sr' = sr) as -> by (by eapply divisor_shift_unique).
    split; [done|]. split; [done|]. split; [tauto|]. destruct c as [vc]. cbn [Decimal_value] in Ec. f_equal. rewrite Ec. symmetry.
    apply div_shift; done || lia.
Qed.

(** A dividend close to zero is an overflow: 10^-18 / 10 is an error, not 0. *)
Lemma Decimal_checked_div_small_dividend :
  Decimal_checked_div (mkDecimal 1) (Decimal_from_int 10) = None.
Proof. vm_compute. reflexivity. Qed.

Lemma Decimal_checked_div_spec_witness :
  Decimal_checked_div (Decimal_from_int (-1)) (Decimal_from_int 3) = Some (mkDecimal (-333333333333333333)) /\
  exists sl sr, dividend_shift (Decimal_value (Decimal_from_int (-1))) sl /\
    divisor_shift (Decimal_value (Decimal_from_int 3)) sr /\ 18 <= sl + sr <= 56.
Proof.
  assert (E : Decimal_checked_div (Decimal_from_int (-1)) (Decimal_from_int 3) = Some (mkDecimal (-333333333333333333)))
    by (vm_compute; reflexivity).
  split; [exact E|].
  destruct (proj1 (Decimal_checked_div_spec (Decimal_from_int (-1)) (Decimal_from_int 3) (mkDecimal (-333333333333333333))
    ltac:(split; discriminate) ltac:(split; discriminate)) E) as (_ & _ & _ & sl & sr & H1 & H2 & H3 & _).
  exists sl, sr. split; [exact H1|]. split; [exact H2|exact H3].
Defined.

(** ** Rounding *)

(** The integer nearest to [v / 10^18], halves rounded up, as fn:round defines it. *)
Definition round_half_up (v : Z) : Z := (v + 5 * DECIMAL_PART_POW_MINUS_ONE) / DECIMAL_PART_POW.

Lemma round_nonneg (v : Z) :
  0 <= v ->
  Z.quot (Z.quot v DECIMAL_PART_POW_MINUS_ONE) 10
    + Z.b2z (Z.rem (Z.quot v DECIMAL_PART_POW_MINUS_ONE) 10 >=? 5) = round_half_up v.
Proof.
  intros. unfold round_half_up, DECIMAL_PART_POW_MINUS_ONE, DECIMAL_PART_POW.
  rewrite Z.geb_leb. destruct (Z.leb_spec 5 (Z.rem (Z.quot v 100000000000000000) 10));
    simpl Z.b2z; Z.to_euclidean_division_equations; lia.
Qed.

Lemma round_neg (v : Z) :
  v < 0 -> ~ (500000000000000000 < Z.rem (- v) DECIMAL_PART_POW < 600000000000000000) ->
  Z.quot (Z.quot v DECIMAL_PART_POW_MINUS_ONE) 10
    - Z.b2z (Z.rem (- Z.quot v DECIMAL_PART_POW_MINUS_ONE) 10 >? 5) = round_half_up v.
Proof.
  unfold round_half_up, DECIMAL_PART_POW_MINUS_ONE, DECIMAL_PART_POW. intros.
  rewrite Z.gtb_ltb. destruct (Z.ltb_spec 5 (Z.rem (- Z.quot v 100000000000000000) 10));
    simpl Z.b2z; Z.to_euclidean_division_equations; lia.
Qed.

(** C36. [Decimal::checked_round] rounds to the nearest integer, halves up, and
    fails only on overflow, for every value except the negative ones whose
    fraction lies strictly between 0.5 and 0.6. *)
Theorem Decimal_checked_round_spec (a : Decimal) :
  ~ (Decimal_value a < 0 /\
     500000000000000000 < Z.rem (- Decimal_value a) DECIMAL_PART_POW < 600000000000000000) ->
  Decimal_checked_round a
  = mkDecimal <$> checked I128 (round_half_up (Decimal_value a) * DECIMAL_PART_POW).
Proof.
  intros H. unfold Decimal_checked_round, checked_mul.
  set (v := Decimal_value a) in *. rewrite Z.geb_leb.
  destruct (Z.le_gt_cases 0 v).
  - rewrite (proj2 (Z.leb_le 0 _)) by (apply Z.quot_pos; done).
    by rewrite round_nonneg.
  - destruct (Z.leb_spec 0 (Z.quot v DECIMAL_PART_POW_MINUS_ONE)).
    + assert (Z.quot v DECIMAL_PART_POW_MINUS_ONE = 0) as E
        by (unfold DECIMAL_PART_POW_MINUS_ONE in *; Z.to_euclidean_division_equations; lia).
      rewrite E. simpl (Z.quot 0 10 + _). do 3 f_equal.
      unfold round_half_up, DECIMAL_PART_POW_MINUS_ONE, DECIMAL_PART_POW in *.
      Z.to_euclidean_division_equations. lia.
    + rewrite round_neg; [done|lia|tauto].
Qed.

Lemma Decimal_checked_round_spec_witness :
  Decimal_checked_round (mkDecimal (-2500000000000000000)) = Some (Decimal_from_int (-2)).
Proof.
  rewrite (Decimal_checked_round_spec (mkDecimal (-2500000000000000000)));
    [reflexivity|intros [_ [H _]]; exact (Z.lt_irrefl _ H)].
Defined.

(** [Decimal::checked_round] does not round to the nearest integer on a
    negative value whose fraction is between 0.5 and 0.6: it returns the integer
    above it, one more than fn:round (for instance -2.51 becomes -2, not -3). *)
Theorem Decimal_checked_round_negative (a : Decimal) :
  Decimal_wf a -> Decimal_value a < 0 ->
  500000000000000000 < Z.rem (- Decimal_value a) DECIMAL_PART_POW < 600000000000000000 ->
  Decimal_checked_round a
  = Some (mkDecimal ((round_half_up (Decimal_value a) + 1) * DECIMAL_PART_POW)).
Proof.
  intros Hwf Hn H. unfold Decimal_checked_round, checked_mul.
  unfold Decimal_wf in Hwf. set (v := Decimal_value a) in *.
  assert (Z.quot v DECIMAL_PART_POW_MINUS_ONE < 0
    /\ Z.quot (Z.quot v DECIMAL_PART_POW_MINUS_ONE) 10
       - Z.b2z (Z.rem (- Z.quot v DECIMAL_PART_POW_MINUS_ONE) 10 >? 5) = round_half_up v + 1
    /\ v <= (round_half_up v + 1) * DECIMAL_PART_POW <= 0) as (E & -> & Hr).
  { unfold round_half_up, DECIMAL_PART_POW_MINUS_ONE, DECIMAL_PART_POW in *.
    rewrite Z.gtb_ltb.
    destruct (Z.ltb_spec 5 (Z.rem (- Z.quot v 100000000000000000) 10));
      simpl Z.b2z; Z.to_euclidean_division_equations; lia. }
  rewrite Z.geb_leb, (proj2 (Z.leb_gt 0 _) E), checked_in by int_bounds. done.
Qed.

Lemma Decimal_checked_round_negative_witness :
  Decimal_checked_round (mkDecimal (-2510000000000000000)) = Some (Decimal_from_int (-2)).
Proof.
  rewrite (Decimal_checked_round_negative (mkDecimal (-2510000000000000000)));
    [reflexivity|split; discriminate|reflexivity|split; reflexivity].
Defined.

(** Floor and ceiling are the exact ones. *)
Lemma Decimal_checked_floor_spec (a : Decimal) :
  Decimal_checked_floor a
  = mkDecimal <$> checked I128 (Decimal_value a / DECIMAL_PART_POW * DECIMAL_PART_POW).
Proof.
  unfold Decimal_checked_floor, checked_mul. do 2 f_equal. f_equal.
  rewrite Z.geb_leb. unfold DECIMAL_PART_POW.
  case_if_bool; destruct_or?; bool_to_prop; Z.to_euclidean_division_equations; lia.
Qed.

Lemma Decimal_checked_ceil_spec (a : Decimal) :
  Decimal_checked_ceil a
  = mkDecimal <$> checked I128 (- (- Decimal_value a / DECIMAL_PART_POW) * DECIMAL_PART_POW).
Proof.
  unfold Decimal_checked_ceil, checked_mul. do 2 f_equal. f_equal.
  rewrite Z.gtb_ltb. unfold DECIMAL_PART_POW.
  case_if_bool; destruct_or?; bool_to_prop; Z.to_euclidean_division_equations; lia.
Qed.

(** ** Text round trip *)

Lemma fmt_digits_le (fuel : nat) (v : Z) : fmt_digits fuel v = le_digits_fuel fuel (Z.abs v).
Proof.
  revert v. induction fuel as [|fuel IH]; intros v; simpl; [done|].
  assert ((v =? 0) = (Z.abs v =? 0)) as <-.
  { destruct (Z.eqb_spec v 0), (Z.eqb_spec (Z.abs v) 0); lia. }
  destruct (v =? 0); [done|]. f_equal.
  - f_equal. rewrite <- Z.rem_abs_l by lia. by rewrite Z.rem_mod_nonneg by lia.
  - rewrite IH. f_equal. rewrite <- Z.quot_abs by lia. by rewrite Z.quot_div_nonneg by lia.
Qed.

Lemma sign_in_int (t : int_ty) (sign x n : Z) :
  sign = 1 \/ sign = -1 -> 0 <= x <= n -> in_int t (sign * n) -> in_int t (sign * x).
Proof.
  assert (int_min t <= 0 <= int_max t) by (by destruct t).
  unfold in_int. intros [-> | ->]; lia.
Qed.

Lemma push_digit_ok (sign acc : Z) (c : ascii) (n : Z) :
  sign = 1 \/ sign = -1 -> is_ascii_digit c = true -> 0 <= acc ->
  acc * 10 + digit_value c <= n -> in_int I128 (sign * n) ->
  push_digit sign (sign * acc) c = Ok (sign * (acc * 10 + digit_value c)).
Proof.
  intros Hs Hc Ha Hn Hin. apply is_ascii_digit_value in Hc.
  unfold push_digit, checked_mul, checked_add.
  rewrite checked_in by (rewrite <- Z.mul_assoc; eapply sign_in_int; [done| |exact Hin]; lia).
  monad. replace (sign * acc * 10 + sign * digit_value c)
    with (sign * (acc * 10 + digit_value c)) by ring.
  rewrite checked_in by (eapply sign_in_int; [done| |exact Hin]; lia). done.
Qed.

Lemma digits_before_dot_ok (sign acc : Z) (d rest : bytes) :
  sign = 1 \/ sign = -1 -> all_digits d -> 0 <= acc ->
  match rest with c :: _ => is_ascii_digit c = false | [] => True end ->
  in_int I128 (sign * digits_value acc d) ->
  digits_before_dot sign (sign * acc) (d ++ rest) = Ok (sign * digits_value acc d, rest).
Proof.
  intros Hs Hd. revert acc. induction Hd as [|c d Hc Hd IH]; intros acc Ha Hr Hin; simpl.
  - destruct rest as [|c rest]; simpl; [done|]. by rewrite Hr.
  - pose proof (is_ascii_digit_value _ Hc). simpl in Hin.
    rewrite Hc, (push_digit_ok sign acc c (digits_value (acc * 10 + digit_value c) d));
      [|done|done|done|apply digits_value_ge; [done|lia]|done].
    monad. apply IH; [lia|done|done].
Qed.

Lemma digits_after_dot_ok (sign acc exp : Z) (d : bytes) :
  sign = 1 \/ sign = -1 -> all_digits d -> 0 <= acc ->
  in_int I128 (sign * digits_value acc d) ->
  digits_after_dot sign (sign * acc) exp d
  = Ok (sign * digits_value acc d, Z.quot exp (10 ^ Z.of_nat (length d))).
Proof.
  intros Hs Hd. revert acc exp. induction Hd as [|c d Hc Hd IH]; intros acc exp Ha Hin.
  - simpl. by rewrite Z.quot_1_r.
  - simpl digits_after_dot. pose proof (is_ascii_digit_value _ Hc). simpl in Hin.
    rewrite Hc, (push_digit_ok sign acc c (digits_value (acc * 10 + digit_value c) d));
      [|done|done|done|apply digits_value_ge; [done|lia]|done].
    monad. rewrite IH by (done || lia). simpl length. simpl digits_value.
    rewrite quot_quot by (apply pow10_pos; lia).
    by rewrite Nat2Z.inj_succ, Z.pow_succ_r by lia.
Qed.

(** The first digit that is not zero. *)
Lemma first_non_zero_spec (d : bytes) (i : nat) :
  all_digits d -> le_value d <> 0 ->
  exists z c e, d = replicate z "0"%char ++ c :: e /\ c <> "0"%char /\
    first_non_zero_from i d = (i + z)%nat.
Proof.
  intros Hd. revert i. induction Hd as [|c d Hc Hd IH]; intros i Hv; [simpl in Hv; lia|].
  simpl. destruct (Ascii.eqb_spec c "0"%char) as [->|Hne].
  - simpl in Hv. change (digit_value "0") with 0 in Hv.
    destruct (IH (S i)) as (z & c' & e & -> & Hc' & E); [lia|].
    exists (S z), c', e. rewrite E. split; [done|]. split; [done|lia].
  - exists 0%nat, c, d. split; [done|]. split; [done|lia].
Qed.

Lemma trim_end_zeros_id (c : ascii) (e : bytes) :
  c <> "0"%char -> trim_end_zeros (rev (c :: e)) = rev (c :: e).
Proof.
  intros H. unfold trim_end_zeros. rewrite rev_involutive.
  change (drop_zeros (c :: e)) with (if Ascii.eqb c "0" then drop_zeros e else c :: e).
  by rewrite (proj2 (Ascii.eqb_neq c "0") H).
Qed.

Lemma slice_app (a b c : bytes) (i j : nat) :
  i = length a -> j = (length a + length b)%nat -> slice (a ++ b ++ c) i j = Some b.
Proof.
  intros -> ->. unfold slice. rewrite !length_app.
  rewrite (proj2 (Nat.leb_le _ _)), (proj2 (Nat.leb_le _ _)) by lia. simpl.
  rewrite drop_app_length. f_equal. apply take_app_length_eq. lia.
Qed.

(** What [fmt] writes for a value whose absolute value is [n]: the digits of the
    integer part, then nothing or a dot and the digits of the fraction down to
    the last one that is not zero. *)
Inductive fraction_text (n : Z) : bytes -> Prop :=
| fraction_none : n mod DECIMAL_PART_POW = 0 -> fraction_text n []
| fraction_some (c : ascii) (e : bytes) :
    c <> "0"%char -> all_digits (c :: e) -> (length (c :: e) <= 18)%nat ->
    le_value (c :: e) * 10 ^ (18 - Z.of_nat (length (c :: e))) = n mod DECIMAL_PART_POW ->
    fraction_text n ("."%char :: rev (c :: e)).

(** The 40 digits [fmt] works on, cut at the decimal point. *)
Lemma fmt_buffer (n : Z) (ds : bytes) :
  0 < n < 10 ^ 39 -> ds = le_digits_fuel Decimal_loop_fuel n ->
  (1 <= length ds <= 39)%nat /\ all_digits ds /\ le_value ds = n /\
  ((length ds <= 18)%nat -> n < DECIMAL_PART_POW).
Proof.
  intros Hn ->. assert (10 ^ 39 < 10 ^ Z.of_nat Decimal_loop_fuel) by done.
  destruct (le_digits_fuel_length Decimal_loop_fuel n) as [Hl Hb]; [lia|].
  destruct (le_digits_fuel_spec Decimal_loop_fuel n) as [Hd Hv]; [lia|].
  split; [split; [done|]|split; [done|split; [done|]]].
  - destruct (Nat.le_gt_cases (length (le_digits_fuel Decimal_loop_fuel n)) 39) as [|Hgt]; [done|].
    exfalso. assert (10 ^ 39 <= 10 ^ (Z.of_nat (length (le_digits_fuel Decimal_loop_fuel n)) - 1))
      by (apply Z.pow_le_mono_r; lia). lia.
  - intros Hle. pose proof (le_value_bound _ Hd) as Hbd. rewrite Hv in Hbd.
    eapply Z.lt_le_trans; [apply Hbd|]. rewrite <- pow10_18. apply Z.pow_le_mono_r; lia.
Qed.

Lemma le_value_cut (lo hi : bytes) :
  all_digits lo -> length lo = 18%nat ->
  le_value lo = le_value (lo ++ hi) mod DECIMAL_PART_POW /\
  le_value hi = le_value (lo ++ hi) / DECIMAL_PART_POW.
Proof.
  intros Hd Hl. pose proof (le_value_bound lo Hd) as Hb. rewrite le_value_app, Hl in *.
  change (10 ^ Z.of_nat 18) with DECIMAL_PART_POW in *.
  rewrite (Z.mul_comm DECIMAL_PART_POW), Z.mod_add, Z.div_add by discriminate.
  rewrite Z.mod_small, Z.div_small by lia. lia.
Qed.

(** The part after the dot. *)
Lemma fmt_after (digits : bytes) (z : nat) (n : Z) :
  all_digits digits -> length digits = 40%nat -> le_value digits = n -> n <> 0 ->
  z = first_non_zero_from 0 digits ->
  exists after, fraction_text n after /\
    (if (z <? 18)%nat then
       d ← slice digits z 18; Some ("."%char :: rev d)
     else Some []) = Some after.
Proof.
  intros Hd Hl Hv Hn ->.
  destruct (first_non_zero_spec digits 0 Hd) as (z & c & e & E & Hc & ->); [lia|].
  rewrite Nat.add_0_l. rewrite E in Hd, Hl. apply Forall_app in Hd as [_ Hd].
  rewrite length_app, length_replicate in Hl. simpl length in Hl.
  destruct (Nat.ltb_spec z 18) as [Hz|Hz].
  - assert (take (18 - z) (c :: e) = c :: take (17 - z) e) as Et
      by (replace (18 - z)%nat with (S (17 - z)) by lia; done).
    assert (c :: e = (c :: take (17 - z) e) ++ drop (17 - z) e) as Ec
      by (simpl; by rewrite take_drop).
    assert (length (c :: take (17 - z) e) = 18 - z)%nat as El
      by (rewrite <- Et, length_take; simpl; lia).
    exists ("."%char :: rev (c :: take (17 - z) e)). split.
    + apply fraction_some; [done| |lia|].
      * rewrite Ec in Hd. by apply Forall_app in Hd as [? _].
      * rewrite El. replace (18 - Z.of_nat (18 - z)) with (Z.of_nat z) by lia.
        destruct (le_value_cut (replicate z "0"%char ++ c :: take (17 - z) e) (drop (17 - z) e))
          as [Hlo _].
        { apply Forall_app. split; [apply all_digits_replicate|].
          rewrite Ec in Hd. by apply Forall_app in Hd as [? _]. }
        { rewrite length_app, El, length_replicate. lia. }
        rewrite <- app_assoc, <- Ec, <- E, Hv in Hlo. rewrite <- Hlo.
        rewrite le_value_app, le_value_zeros, length_replicate. lia.
    + rewrite E, Ec. rewrite slice_app with (b := c :: take (17 - z) e);
        [done|by rewrite length_replicate|rewrite length_replicate; lia].
  - exists []. split; [|done]. apply fraction_none. rewrite <- Hv, E.
    replace (replicate z "0"%char) with (replicate 18 "0"%char ++ replicate (z - 18) "0"%char)
      by (rewrite <- replicate_add; f_equal; lia).
    rewrite <- app_assoc.
    destruct (le_value_cut (replicate 18 "0"%char) (replicate (z - 18) "0"%char ++ c :: e))
      as [<- _]; [apply all_digits_replicate|done|apply le_value_zeros].
Qed.

(** The part before the dot. *)
Lemma fmt_before (ds : bytes) (n : Z) :
  (1 <= length ds <= 39)%nat -> all_digits ds -> le_value ds = n ->
  ((length ds <= 18)%nat -> n < DECIMAL_PART_POW) ->
  ds = le_digits_fuel Decimal_loop_fuel n ->
  exists before, before = print_nat (n / DECIMAL_PART_POW) /\ before <> [] /\ all_digits before /\
    digits_value 0 before = n / DECIMAL_PART_POW /\
    (if (18 <=? length ds - 1)%nat then
       e ← fmt_end None false (length ds - 1);
       d ← slice (ds ++ replicate (40 - length ds) "0"%char) 18 e; Some (rev d)
     else Some (str "0")) = Some before.
Proof.
  intros Hl Hd Hv Hsmall Eds. pose proof (le_value_bound ds Hd) as Hlv.
  destruct (Nat.leb_spec 18 (length ds - 1)) as [Hge|Hlt].
  - exists (rev (drop 18 ds)).
    assert (ds = take 18 ds ++ drop 18 ds) as E by (by rewrite take_drop).
    assert (length (take 18 ds) = 18%nat) as Et by (rewrite length_take; lia).
    assert (length (drop 18 ds) = length ds - 18)%nat as Ed by apply length_drop.
    split.
    { rewrite Eds, (drop_le_digits 18 22) by lia. change (10 ^ Z.of_nat 18) with DECIMAL_PART_POW.
      symmetry. apply print_nat_fuel. rewrite Hv in Hlv.
      assert (10 ^ Z.of_nat (length ds) <= 10 ^ 39) by (apply Z.pow_le_mono_r; lia).
      assert (DECIMAL_PART_POW <= n) as Hge'.
      { destruct (le_digits_fuel_length Decimal_loop_fuel n) as [_ Hmin].
        - assert (n <> 0) by (intros ->; rewrite Eds in Hl; simpl in Hl; lia).
          change (10 ^ Z.of_nat Decimal_loop_fuel) with (10 * 10 ^ 39). lia.
        - rewrite <- Eds in Hmin. etransitivity; [|exact Hmin]. rewrite <- pow10_18.
          apply Z.pow_le_mono_r; lia. }
      split; [apply Z.div_str_pos; split; [done|lia]|].
      apply Z.div_lt_upper_bound; [done|].
      change (DECIMAL_PART_POW * 10 ^ Z.of_nat 22) with (10 * 10 ^ 39). lia. }
    rewrite E in Hd. apply Forall_app in Hd as [Hdl Hdh].
    split; [intros C; apply (f_equal length) in C; rewrite length_rev, Ed in C; simpl in C; lia|].
    split; [by apply Forall_rev|]. split.
    + rewrite digits_value_of_le. destruct (le_value_cut (take 18 ds) (drop 18 ds) Hdl Et) as [_ ->].
      by rewrite <- E, Hv.
    + unfold fmt_end. monad. rewrite E at 1. rewrite <- app_assoc.
      rewrite slice_app with (b := drop 18 ds); [done|done|lia].
  - assert (n / DECIMAL_PART_POW = 0) as E0
      by (apply Z.div_small; split; [lia|apply Hsmall; lia]).
    exists (str "0"). rewrite E0. split; [done|]. split; [done|].
    split; [by repeat constructor|]. by split.
Qed.

Lemma Decimal_fmt_nonzero (a : Decimal) :
  Decimal_wf a -> Decimal_value a <> 0 ->
  exists before after, before = print_nat (Z.abs (Decimal_value a) / DECIMAL_PART_POW) /\
    before <> [] /\ all_digits before /\
    digits_value 0 before = Z.abs (Decimal_value a) / DECIMAL_PART_POW /\
    fraction_text (Z.abs (Decimal_value a)) after /\
    Decimal_fmt None None a
    = Some ((if Decimal_value a <? 0 then str "-" else []) ++ before ++ after).
Proof.
  intros Hwf Hn. unfold Decimal_fmt. rewrite (proj2 (Z.eqb_neq _ 0) Hn), fmt_digits_le.
  set (n := Z.abs (Decimal_value a)). set (ds := le_digits_fuel Decimal_loop_fuel n).
  assert (0 < n < 10 ^ 39) as Hb.
  { subst n. unfold Decimal_wf in Hwf. change (10 ^ 39) with 1000000000000000000000000000000000000000.
    int_bounds. }
  destruct (fmt_buffer n ds Hb eq_refl) as (Hl & Hd & Hv & Hsm).
  destruct (fmt_before ds n Hl Hd Hv Hsm eq_refl) as (before & Hb0 & Hb1 & Hb2 & Hb3 & Hb4).
  destruct (fmt_after (ds ++ replicate (40 - length ds) "0"%char)
    (first_non_zero_from 0 (ds ++ replicate (40 - length ds) "0"%char)) n) as (after & Ha1 & Ha2);
    [apply Forall_app; split; [done|apply all_digits_replicate]|
     rewrite length_app, length_replicate; lia|
     rewrite le_value_app, le_value_zeros; lia|lia|done|].
  exists before, after. do 5 (split; [done|]).
  unfold fmt_end in *. rewrite Hb4. cbn [mbind option_bind]. by rewrite Ha2.
Qed.

(** [to_string] never panics. *)
Lemma Decimal_fmt_total (a : Decimal) : Decimal_wf a -> is_Some (Decimal_fmt None None a).
Proof.
  intros. destruct (decide (Decimal_value a = 0)) as [E|E].
  - unfold Decimal_fmt. rewrite E. by eexists.
  - destruct (Decimal_fmt_nonzero a) as (? & ? & _ & _ & _ & _ & _ & ->); eauto.
Qed.

(** Reading the two parts of the text gives the signed value. *)
Lemma parse_text_parts (sign n : Z) (before after : bytes) :
  sign = 1 \/ sign = -1 -> 0 <= n -> in_int I128 (sign * n) ->
  all_digits before -> digits_value 0 before = n / DECIMAL_PART_POW -> fraction_text n after ->
  ('(value, input) ← digits_before_dot sign 0 (before ++ after);
   '(value, exp) ←
     match input with
     | c :: input =>
         if negb (Ascii.eqb c "."%char) then Err UnexpectedChar
         else if (match input with [] => true | _ => false end) && negb true
         then Err UnexpectedEnd
         else
           '(value, exp) ← digits_after_dot sign value DECIMAL_PART_POW (trim_end_zeros input);
           if exp =? 0 then Err Underflow else Ok (value, exp)
     | [] => if negb true then Err UnexpectedEnd else Ok (value, DECIMAL_PART_POW)
     end;
   v ← ok_or Overflow (checked_mul I128 value exp);
   Ok (mkDecimal v)) = Ok (mkDecimal (sign * n)).
Proof.
  intros Hs Hn Hin Hd Hv Hf. unfold DECIMAL_PART_POW in *.
  pose proof (Z.div_mod n 1000000000000000000 ltac:(discriminate)) as Hdm.
  pose proof (Z.mod_pos_bound n 1000000000000000000 eq_refl) as Hmod.
  pose proof (Z.div_pos n 1000000000000000000 Hn eq_refl) as Hdiv.
  replace (digits_before_dot sign 0 (before ++ after))
    with (digits_before_dot sign (sign * 0) (before ++ after)) by (f_equal; lia).
  rewrite digits_before_dot_ok; [|done|done|done|by destruct Hf|
    rewrite Hv; eapply sign_in_int; [done| |exact Hin]; lia].
  rewrite Hv. simpl. destruct Hf as [H0|c e Hc He Hl Hval]; unfold DECIMAL_PART_POW in *.
  - simpl. unfold checked_mul. rewrite H0 in Hdm.
    replace (sign * (n / 1000000000000000000) * 1000000000000000000) with (sign * n) by lia.
    by rewrite checked_in.
  - change (Ascii.eqb "." ".") with true. cbv iota beta. rewrite andb_false_r.
    rewrite trim_end_zeros_id by done. cbn [negb].
    pose proof (digits_value_rev (n / 1000000000000000000) (c :: e)) as Hdr.
    set (len := Z.of_nat (length (c :: e))) in *.
    assert (10 ^ len * 10 ^ (18 - len) = 1000000000000000000) as Hpow
      by (rewrite <- pow10_add by lia; by replace (len + (18 - len)) with 18 by lia).
    pose proof (pow10_pos len ltac:(lia)). pose proof (pow10_pos (18 - len) ltac:(lia)).
    assert (sign * digits_value (n / 1000000000000000000) (rev (c :: e)) * 10 ^ (18 - len)
      = sign * n) as Hfin by (rewrite Hdr; nia).
    rewrite digits_after_dot_ok; [|done|by apply Forall_rev|done|
      eapply factor_in_int; [|rewrite Hfin; exact Hin]; done].
    cbn [mbind result_bind]. rewrite length_rev. fold len.
    assert (Z.quot 1000000000000000000 (10 ^ len) = 10 ^ (18 - len)) as ->
      by (rewrite <- Hpow, Z.mul_comm; apply Z.quot_mul; lia).
    rewrite (proj2 (Z.eqb_neq _ 0)) by lia. unfold checked_mul. cbn [mbind result_bind].
    rewrite Hfin, checked_in by done. done.
Qed.

Lemma Decimal_from_str_text (n : Z) (negative : bool) (before after : bytes) :
  0 <= n -> in_int I128 (if negative then - n else n) -> before <> [] ->
  all_digits before -> digits_value 0 before = n / DECIMAL_PART_POW -> fraction_text n after ->
  Decimal_from_str ((if negative then str "-" else []) ++ before ++ after)
  = Ok (mkDecimal (if negative then - n else n)).
Proof.
  intros Hn Hin Hne Hd Hv Hf. destruct before as [|c before]; [done|].
  inversion Hd as [|? ? Hc _]; subst.
  replace (if negative then - n else n) with ((if negative then -1 else 1) * n) in *
    by (destruct negative; lia).
  rewrite <- (parse_text_parts (if negative then -1 else 1) n (c :: before) after)
    by (done || (by destruct negative; [right|left])).
  destruct negative; unfold Decimal_from_str; simpl app; cbv iota.
  - change (Ascii.eqb "-" "+") with false. change (Ascii.eqb "-" "-") with true. cbv iota beta.
    by rewrite Hc.
  - rewrite !(digit_not c) by done. by rewrite Hc.
Qed.

(** The shape of the text, for the parsers that read a decimal inside a longer string. *)
Lemma Decimal_to_string_shape (a : Decimal) :
  Decimal_wf a ->
  exists before after, before = print_nat (Z.abs (Decimal_value a) / DECIMAL_PART_POW) /\
    before <> [] /\ all_digits before /\
    fraction_text (Z.abs (Decimal_value a)) after /\
    Decimal_to_string a = (if Decimal_value a <? 0 then str "-" else []) ++ before ++ after /\
    Decimal_from_str (Decimal_to_string a) = Ok a.
Proof.
  intros Hwf. unfold Decimal_to_string. destruct (decide (Decimal_value a = 0)) as [E|E].
  - destruct a as [v]. simpl in E. subst v. exists (str "0"), [].
    repeat split; try done; [by repeat constructor|by apply fraction_none].
  - destruct (Decimal_fmt_nonzero a Hwf E) as (before & after & H0 & H1 & H2 & H3 & H4 & ->).
    unfold default, from_option, id. exists before, after. do 5 (split; [done|]).
    unfold Decimal_wf in Hwf. destruct a as [v]. simpl in *.
    assert ((if v <? 0 then - Z.abs v else Z.abs v) = v) as Ev by (case_if_bool; lia).
    rewrite (Decimal_from_str_text (Z.abs v)); rewrite ?Ev; done || lia.
Qed.

(** C33. Parsing what [Display] writes for a decimal gives the decimal back, for
    every decimal of the representation (MIN and MAX included). *)
Theorem Decimal_from_to_string (a : Decimal) :
  Decimal_wf a -> Decimal_from_str (Decimal_to_string a) = Ok a.
Proof. intros Hwf. by destruct (Decimal_to_string_shape a Hwf) as (? & ? & _ & _ & _ & _ & _ & ?). Qed.

Lemma Decimal_from_to_string_witness :
  Decimal_wf Decimal_MIN /\ Decimal_from_str (Decimal_to_string Decimal_MIN) = Ok Decimal_MIN.
Proof.
  split; [split; discriminate|].
  apply (Decimal_from_to_string Decimal_MIN). split; discriminate.
Defined.

(** Parsing what [Display] writes for an integer gives the integer back. *)
Theorem Integer_from_to_string (a : Integer) :
  Integer_wf a -> Integer_from_str (Integer_to_string a) = Ok a.
Proof.
  intros Hwf. unfold Integer_from_str, Integer_to_string. rewrite int_from_print by done.
  by destruct a.
Qed.

Lemma Integer_from_to_string_witness :
  Integer_wf Integer_MIN /\ Integer_from_str (Integer_to_string Integer_MIN) = Ok Integer_MIN.
Proof.
  split; [split; discriminate|].
  apply (Integer_from_to_string Integer_MIN). split; discriminate.
Defined.

(** Bytes. *)
Lemma Decimal_from_to_be_bytes (a : Decimal) :
  Decimal_wf a -> Decimal_from_be_bytes (Decimal_to_be_bytes a) = a.
Proof.
  intros. unfold Decimal_from_be_bytes, Decimal_to_be_bytes.
  rewrite from_to_be_bytes by done. by destruct a.
Qed.

Lemma Integer_from_to_be_bytes (a : Integer) :
  Integer_wf a -> Integer_from_be_bytes (Integer_to_be_bytes a) = a.
Proof.
  intros. unfold Integer_from_be_bytes, Integer_to_be_bytes.
  rewrite from_to_be_bytes by done. by destruct a.
Qed.

(** Converting a decimal to an integer truncates towards zero and fails only on
    overflow; converting an integer to a decimal and back is the identity. *)
Lemma Integer_try_from_decimal_spec (a : Decimal) :
  Decimal_wf a ->
  Integer_try_from_decimal a
  = ok_or TooLargeForInteger (mkInteger <$> checked I64 (Decimal_as_i128 a)).
Proof.
  intros Hwf. unfold Integer_try_from_decimal, Decimal_as_i128, checked_div.
  change (DECIMAL_PART_POW =? 0) with false. cbv iota.
  rewrite (checked_in I128) by (unfold Decimal_wf, DECIMAL_PART_POW in *;
    unfold in_int, int_min, int_max in *; Z.to_euclidean_division_equations; lia).
  monad. by destruct (checked I64 _).
Qed.

Lemma Integer_decimal_integer (i : Integer) :
  Integer_wf i -> Integer_try_from_decimal (Decimal_from_integer i) = Ok i.
Proof.
  intros H. unfold Integer_wf in H. rewrite Integer_try_from_decimal_spec.
  - unfold Decimal_as_i128. simpl. rewrite Z.quot_mul by discriminate.
    rewrite checked_in by done. by destruct i.
  - unfold Decimal_wf. simpl. unfold DECIMAL_PART_POW. int_bounds.
Qed.

#[export] Hint Resolve Decimal_from_to_be_bytes Integer_from_to_be_bytes : oxi.
