(* ===== verification/XsdDuration.v ===== *)
(** * xsd:duration, xsd:yearMonthDuration and xsd:dayTimeDuration

    lib/oxsdatatypes/src/duration.rs: a duration is a number of months ([i64])
    and a number of seconds ([Decimal]) that never have opposite signs.  The
    partial order compares against dates and is in XsdDateTime. *)
From S2P Require Import Prelude MachineInt RustStr XsdDecimal.

(** ** Data *)

Record YearMonthDuration : Set := mkYearMonthDuration { ymd_months : Z }.
Record DayTimeDuration : Set := mkDayTimeDuration { dtd_seconds : Decimal }.
Record Duration : Set := mkDuration {
  dur_year_month : YearMonthDuration;
  dur_day_time : DayTimeDuration
}.

Inductive DurationOverflowError : Set := DurationOverflow.
Inductive OppositeSignInDurationComponentsError : Set := OppositeSign.

Record ParseDurationError : Set := mkParseDurationError { duration_error_msg : string }.
Definition OVERFLOW_ERROR : ParseDurationError := mkParseDurationError "Overflow error".
Definition ParseDurationError_from_opposite_sign (_ : OppositeSignInDurationComponentsError)
  : ParseDurationError :=
  mkParseDurationError
    "The xsd:yearMonthDuration and xsd:dayTimeDuration components of a xsd:duration can't have opposite sign".

(** ** YearMonthDuration *)

Definition YearMonthDuration_default : YearMonthDuration := mkYearMonthDuration 0.
Definition YearMonthDuration_MAX : YearMonthDuration := mkYearMonthDuration (int_max I64).
Definition YearMonthDuration_MIN : YearMonthDuration := mkYearMonthDuration (int_min I64).
Definition YearMonthDuration_new (months : Z) : YearMonthDuration := mkYearMonthDuration months.
Definition YearMonthDuration_from_be_bytes (bs : bytes) : YearMonthDuration :=
  mkYearMonthDuration (from_be_bytes I64 bs).
Definition YearMonthDuration_years (d : YearMonthDuration) : Z := Z.quot (ymd_months d) 12.
Definition YearMonthDuration_months (d : YearMonthDuration) : Z := Z.rem (ymd_months d) 12.
Definition YearMonthDuration_all_months (d : YearMonthDuration) : Z := ymd_months d.
Definition YearMonthDuration_to_be_bytes (d : YearMonthDuration) : bytes :=
  to_be_bytes I64 (ymd_months d).
Definition YearMonthDuration_checked_add (a b : YearMonthDuration) : option YearMonthDuration :=
  mkYearMonthDuration <$> checked_add I64 (ymd_months a) (ymd_months b).
Definition YearMonthDuration_checked_sub (a b : YearMonthDuration) : option YearMonthDuration :=
  mkYearMonthDuration <$> checked_sub I64 (ymd_months a) (ymd_months b).
Definition YearMonthDuration_checked_neg (a : YearMonthDuration) : option YearMonthDuration :=
  mkYearMonthDuration <$> checked_neg I64 (ymd_months a).
Definition YearMonthDuration_is_identical_with (a b : YearMonthDuration) : bool :=
  ymd_months a =? ymd_months b.

(** ** DayTimeDuration *)

Definition DayTimeDuration_default : DayTimeDuration := mkDayTimeDuration Decimal_default.
Definition DayTimeDuration_MAX : DayTimeDuration := mkDayTimeDuration Decimal_MAX.
Definition DayTimeDuration_MIN : DayTimeDuration := mkDayTimeDuration Decimal_MIN.
Definition DayTimeDuration_new (seconds : Decimal) : DayTimeDuration := mkDayTimeDuration seconds.
Definition DayTimeDuration_from_be_bytes (bs : bytes) : DayTimeDuration :=
  mkDayTimeDuration (Decimal_from_be_bytes bs).
(** [(... / 86400) as i64]: the cast wraps. *)
Definition DayTimeDuration_days (d : DayTimeDuration) : Z :=
  wrap I64 (Z.quot (Decimal_as_i128 (dtd_seconds d)) 86400).
Definition DayTimeDuration_hours (d : DayTimeDuration) : Z :=
  wrap I64 (Z.quot (Z.rem (Decimal_as_i128 (dtd_seconds d)) 86400) 3600).
Definition DayTimeDuration_minutes (d : DayTimeDuration) : Z :=
  wrap I64 (Z.quot (Z.rem (Decimal_as_i128 (dtd_seconds d)) 3600) 60).
(** [self.seconds.checked_rem(60).unwrap()]: [None] is a panic. *)
Definition DayTimeDuration_seconds (d : DayTimeDuration) : option Decimal :=
  Decimal_checked_rem (dtd_seconds d) (Decimal_from_int 60).
Definition DayTimeDuration_as_seconds (d : DayTimeDuration) : Decimal := dtd_seconds d.
Definition DayTimeDuration_to_be_bytes (d : DayTimeDuration) : bytes :=
  Decimal_to_be_bytes (dtd_seconds d).
Definition DayTimeDuration_checked_add (a b : DayTimeDuration) : option DayTimeDuration :=
  mkDayTimeDuration <$> Decimal_checked_add (dtd_seconds a) (dtd_seconds b).
Definition DayTimeDuration_checked_sub (a b : DayTimeDuration) : option DayTimeDuration :=
  mkDayTimeDuration <$> Decimal_checked_sub (dtd_seconds a) (dtd_seconds b).
Definition DayTimeDuration_checked_neg (a : DayTimeDuration) : option DayTimeDuration :=
  mkDayTimeDuration <$> Decimal_checked_neg (dtd_seconds a).
Definition DayTimeDuration_is_identical_with (a b : DayTimeDuration) : bool :=
  Decimal_eqb (dtd_seconds a) (dtd_seconds b).

(** [std::time::Duration]: whole seconds ([u64]) and nanoseconds below 10^9. *)
Record StdDuration : Set := mkStdDuration { std_secs : Z; std_nanos : Z }.

Definition DayTimeDuration_try_from_std (value : StdDuration)
  : result DurationOverflowError DayTimeDuration :=
  nanos ← ok_or DurationOverflow (checked I128 (std_secs value * 1000000000 + std_nanos value));
  d ← map_err (fun _ => DurationOverflow) (Decimal_new nanos 9);
  Ok (mkDayTimeDuration d).

(** [StdDuration::new] carries the whole seconds of the nanoseconds. *)
Definition StdDuration_try_from_day_time (value : DayTimeDuration)
  : result DurationOverflowError StdDuration :=
  if Decimal_is_negative (dtd_seconds value) then Err DurationOverflow
  else
    secs ← ok_or DurationOverflow (Decimal_checked_floor (dtd_seconds value));
    fraction ← ok_or DurationOverflow (Decimal_checked_sub (dtd_seconds value) secs);
    scaled ← ok_or DurationOverflow (Decimal_checked_mul fraction (Decimal_from_int 1000000000));
    nanos ← ok_or DurationOverflow (Decimal_checked_floor scaled);
    s ← ok_or DurationOverflow (checked U64 (Decimal_as_i128 secs));
    n ← ok_or DurationOverflow (checked U32 (Decimal_as_i128 nanos));
    Ok (mkStdDuration (s + n / 1000000000) (n mod 1000000000)).

(** ** Duration *)

Definition Duration_default : Duration :=
  mkDuration YearMonthDuration_default DayTimeDuration_default.
Definition Duration_MAX : Duration := mkDuration YearMonthDuration_MAX DayTimeDuration_MAX.
Definition Duration_MIN : Duration := mkDuration YearMonthDuration_MIN DayTimeDuration_MIN.

Definition Duration_construct (year_month : YearMonthDuration) (day_time : DayTimeDuration)
  : result OppositeSignInDurationComponentsError Duration :=
  if ((ymd_months year_month >? 0) && Decimal_ltb (dtd_seconds day_time) Decimal_default)
     || ((ymd_months year_month <? 0) && Decimal_ltb Decimal_default (dtd_seconds day_time))
  then Err OppositeSign
  else Ok (mkDuration year_month day_time).

Definition Duration_new (months : Z) (seconds : Decimal)
  : result OppositeSignInDurationComponentsError Duration :=
  Duration_construct (YearMonthDuration_new months) (DayTimeDuration_new seconds).

Definition Duration_from_be_bytes (bs : bytes) : Duration :=
  mkDuration (YearMonthDuration_from_be_bytes (take 8 bs))
             (DayTimeDuration_from_be_bytes (take 16 (drop 8 bs))).
Definition Duration_years (d : Duration) : Z := YearMonthDuration_years (dur_year_month d).
Definition Duration_months (d : Duration) : Z := YearMonthDuration_months (dur_year_month d).
Definition Duration_days (d : Duration) : Z := DayTimeDuration_days (dur_day_time d).
Definition Duration_hours (d : Duration) : Z := DayTimeDuration_hours (dur_day_time d).
Definition Duration_minutes (d : Duration) : Z := DayTimeDuration_minutes (dur_day_time d).
Definition Duration_seconds (d : Duration) : option Decimal :=
  DayTimeDuration_seconds (dur_day_time d).
Definition Duration_all_months (d : Duration) : Z :=
  YearMonthDuration_all_months (dur_year_month d).
Definition Duration_all_seconds (d : Duration) : Decimal :=
  DayTimeDuration_as_seconds (dur_day_time d).
Definition Duration_to_be_bytes (d : Duration) : bytes :=
  YearMonthDuration_to_be_bytes (dur_year_month d) ++ DayTimeDuration_to_be_bytes (dur_day_time d).

Definition Duration_checked_add (a b : Duration) : option Duration :=
  ym ← YearMonthDuration_checked_add (dur_year_month a) (dur_year_month b);
  dt ← DayTimeDuration_checked_add (dur_day_time a) (dur_day_time b);
  ok (Duration_construct ym dt).
Definition Duration_checked_sub (a b : Duration) : option Duration :=
  ym ← YearMonthDuration_checked_sub (dur_year_month a) (dur_year_month b);
  dt ← DayTimeDuration_checked_sub (dur_day_time a) (dur_day_time b);
  ok (Duration_construct ym dt).
Definition Duration_checked_neg (a : Duration) : option Duration :=
  ym ← YearMonthDuration_checked_neg (dur_year_month a);
  dt ← DayTimeDuration_checked_neg (dur_day_time a);
  Some (mkDuration ym dt).
Definition Duration_is_identical_with (a b : Duration) : bool :=
  YearMonthDuration_is_identical_with (dur_year_month a) (dur_year_month b)
  && DayTimeDuration_is_identical_with (dur_day_time a) (dur_day_time b).

Definition Duration_from_year_month (d : YearMonthDuration) : Duration :=
  mkDuration d DayTimeDuration_default.
Definition Duration_from_day_time (d : DayTimeDuration) : Duration :=
  mkDuration YearMonthDuration_default d.
Definition Duration_try_from_std (value : StdDuration) : result DurationOverflowError Duration :=
  d ← DayTimeDuration_try_from_std value; Ok (Duration_from_day_time d).
Definition YearMonthDuration_try_from_duration (value : Duration)
  : result DurationOverflowError YearMonthDuration :=
  if DayTimeDuration_is_identical_with (dur_day_time value) DayTimeDuration_default
  then Ok (dur_year_month value) else Err DurationOverflow.
Definition DayTimeDuration_try_from_duration (value : Duration)
  : result DurationOverflowError DayTimeDuration :=
  if YearMonthDuration_is_identical_with (dur_year_month value) YearMonthDuration_default
  then Ok (dur_day_time value) else Err DurationOverflow.

(** [PartialEq] between the three types goes through [Duration]. *)
Definition YearMonthDuration_eq_duration (a : YearMonthDuration) (b : Duration) : bool :=
  Duration_is_identical_with (Duration_from_year_month a) b.
Definition DayTimeDuration_eq_duration (a : DayTimeDuration) (b : Duration) : bool :=
  Duration_is_identical_with (Duration_from_day_time a) b.
Definition DayTimeDuration_eq_year_month (a : DayTimeDuration) (b : YearMonthDuration) : bool :=
  Duration_is_identical_with (Duration_from_day_time a) (Duration_from_year_month b).

(** ** Parsing *)

Record DurationParts : Set := mkDurationParts {
  parts_year_month : option Z;
  parts_day_time : option Decimal
}.

Definition apply_i64_neg (value : Z) (is_negative : bool) : result ParseDurationError Z :=
  if is_negative then ok_or OVERFLOW_ERROR (checked_neg I64 value) else Ok value.
Definition apply_decimal_neg (value : Decimal) (is_negative : bool)
  : result ParseDurationError Decimal :=
  if is_negative then ok_or OVERFLOW_ERROR (Decimal_checked_neg value) else Ok value.

Definition duration_expect_char (input : bytes) (constant : ascii) (error_message : string)
  : result ParseDurationError bytes :=
  match strip_prefix constant input with
  | Some rest => Ok rest
  | None => Err (mkParseDurationError error_message)
  end.

Definition duration_ensure_complete {T : Type} (input : bytes)
  (parse : bytes -> result ParseDurationError (T * bytes)) : result ParseDurationError T :=
  '(result, rest) ← parse input;
  match rest with
  | [] => Ok result
  | _ => Err (mkParseDurationError "Unrecognized value suffix")
  end.

(** The states of the parser. *)
Definition START : Z := 0.
Definition AFTER_YEAR : Z := 1.
Definition AFTER_MONTH : Z := 2.
Definition AFTER_DAY : Z := 3.
Definition AFTER_T : Z := 4.
Definition AFTER_HOUR : Z := 5.
Definition AFTER_MINUTE : Z := 6.
Definition AFTER_SECOND : Z := 7.

Record parser_state : Set := mkParserState {
  ps_state : Z;
  ps_year_month : option Z;
  ps_day_time : option Decimal
}.

(** [year_month = Some(year_month.unwrap_or_default().checked_add(v)?)] *)
Definition add_months (st : parser_state) (v : Z) : result ParseDurationError (option Z) :=
  r ← ok_or OVERFLOW_ERROR (checked_add I64 (default 0 (ps_year_month st)) v); Ok (Some r).
(** [day_time = Some(day_time.unwrap_or_default().checked_add(v)?)] *)
Definition add_seconds (st : parser_state) (v : Decimal)
  : result ParseDurationError (option Decimal) :=
  r ← ok_or OVERFLOW_ERROR (Decimal_checked_add (default Decimal_default (ps_day_time st)) v);
  Ok (Some r).

(** [apply_decimal_neg(Decimal::from_str(number_str)?, is_negative)?.checked_mul(unit)?],
    after the check that the number has no dot. *)
Definition day_time_component (is_negative : bool) (number_str : bytes) (unit : Z) (what : string)
  : result ParseDurationError Decimal :=
  if str_contains "."%char number_str
  then Err (mkParseDurationError (String.append "Decimal numbers are not allowed for " what))
  else
    n ← map_err (fun _ => OVERFLOW_ERROR) (Decimal_from_str number_str);
    n ← apply_decimal_neg n is_negative;
    ok_or OVERFLOW_ERROR (Decimal_checked_mul n (Decimal_from_int unit)).

(** One round of the [while !input.is_empty()] loop. *)
Definition duration_step (is_negative : bool) (st : parser_state) (input : bytes)
  : result ParseDurationError (parser_state * bytes) :=
  match strip_prefix "T"%char input with
  | Some rest =>
      if ps_state st >=? AFTER_T
      then Err (mkParseDurationError "Duplicated time separator 'T'")
      else Ok (mkParserState AFTER_T (ps_year_month st) (ps_day_time st), rest)
  | None =>
      let '(number_str, rest) := decimal_prefix input in
      match rest with
      | [] => Err (mkParseDurationError "Numbers in durations must be followed by a type character")
      | c :: rest =>
          if Ascii.eqb c "Y"%char && (ps_state st <? AFTER_YEAR) then
            n ← map_err (fun _ => OVERFLOW_ERROR) (int_from_str I64 number_str);
            n ← apply_i64_neg n is_negative;
            n ← ok_or OVERFLOW_ERROR (checked_mul I64 n 12);
            ym ← add_months st n;
            Ok (mkParserState AFTER_YEAR ym (ps_day_time st), rest)
          else if Ascii.eqb c "M"%char && (ps_state st <? AFTER_MONTH) then
            n ← map_err (fun _ => OVERFLOW_ERROR) (int_from_str I64 number_str);
            n ← apply_i64_neg n is_negative;
            ym ← add_months st n;
            Ok (mkParserState AFTER_MONTH ym (ps_day_time st), rest)
          else if Ascii.eqb c "D"%char && (ps_state st <? AFTER_DAY) then
            n ← day_time_component is_negative number_str 86400 "days";
            dt ← add_seconds st n;
            Ok (mkParserState AFTER_DAY (ps_year_month st) dt, rest)
          else if Ascii.eqb c "H"%char && (ps_state st =? AFTER_T) then
            n ← day_time_component is_negative number_str 3600 "hours";
            dt ← add_seconds st n;
            Ok (mkParserState AFTER_HOUR (ps_year_month st) dt, rest)
          else if Ascii.eqb c "M"%char
                  && ((AFTER_T <=? ps_state st) && (ps_state st <? AFTER_MINUTE)) then
            n ← day_time_component is_negative number_str 60 "minutes";
            dt ← add_seconds st n;
            Ok (mkParserState AFTER_MINUTE (ps_year_month st) dt, rest)
          else if Ascii.eqb c "S"%char
                  && ((AFTER_T <=? ps_state st) && (ps_state st <? AFTER_SECOND)) then
            n ← map_err (fun _ => OVERFLOW_ERROR) (Decimal_from_str number_str);
            n ← apply_decimal_neg n is_negative;
            dt ← add_seconds st n;
            Ok (mkParserState AFTER_SECOND (ps_year_month st) dt, rest)
          else Err (mkParseDurationError "Unexpected type character")
      end
  end.

(** The loop: every round consumes a character, so the length of the input is
    enough fuel ([duration_loop_fuel]). *)
Fixpoint duration_loop (fuel : nat) (is_negative : bool) (st : parser_state) (input : bytes)
  : result ParseDurationError parser_state :=
  match input, fuel with
  | [], _ => Ok st
  | _, O => Err OVERFLOW_ERROR
  | _, S fuel => '(st, input) ← duration_step is_negative st input;
                 duration_loop fuel is_negative st input
  end.

Definition duration_parts (input : bytes) : result ParseDurationError (DurationParts * bytes) :=
  let '(is_negative, input) :=
    match strip_prefix "-"%char input with
    | Some rest => (true, rest)
    | None => (false, input)
    end in
  input ← duration_expect_char input "P"%char "Durations must start with 'P'";
  st ← duration_loop (length input) is_negative (mkParserState START None None) input;
  Ok (mkDurationParts (ps_year_month st) (ps_day_time st), []).

Definition Duration_from_str (input : bytes) : result ParseDurationError Duration :=
  parts ← duration_ensure_complete input duration_parts;
  match parts_year_month parts, parts_day_time parts with
  | None, None => Err (mkParseDurationError "Empty duration")
  | ym, dt =>
      map_err ParseDurationError_from_opposite_sign
        (Duration_new (default 0 ym) (default Decimal_default dt))
  end.

Definition YearMonthDuration_from_str (input : bytes)
  : result ParseDurationError YearMonthDuration :=
  parts ← duration_ensure_complete input duration_parts;
  match parts_day_time parts with
  | Some _ => Err (mkParseDurationError
      "There must not be any day or time component in a yearMonthDuration")
  | None =>
      ym ← ok_or (mkParseDurationError "No year and month values found") (parts_year_month parts);
      Ok (YearMonthDuration_new ym)
  end.

Definition DayTimeDuration_from_str (input : bytes) : result ParseDurationError DayTimeDuration :=
  parts ← duration_ensure_complete input duration_parts;
  match parts_year_month parts with
  | Some _ => Err (mkParseDurationError
      "There must not be any year or month component in a dayTimeDuration")
  | None =>
      dt ← ok_or (mkParseDurationError "No day or time values found") (parts_day_time parts);
      Ok (DayTimeDuration_new dt)
  end.

(** ** Printing: [None] is [fmt::Error] *)

Definition fmt_year_month (ym : Z) (ss : Decimal) : bytes :=
  let y := Z.quot ym 12 in
  let m := Z.rem ym 12 in
  if negb (y =? 0) then
    if m =? 0 then print_int (Z.abs y) ++ str "Y"
    else print_int (Z.abs y) ++ str "Y" ++ print_int (Z.abs m) ++ str "M"
  else if negb (m =? 0) || Decimal_eqb ss (Decimal_from_int 0) then print_int (Z.abs m) ++ str "M"
  else [].

Definition fmt_day_time (ss : Decimal) : option bytes :=
  let s_int := Decimal_as_i128 ss in
  let d := Z.quot s_int 86400 in
  let h := Z.quot (Z.rem s_int 86400) 3600 in
  let m := Z.quot (Z.rem s_int 3600) 60 in
  whole ← ok (Decimal_try_from_i128 (d * 86400 + h * 3600 + m * 60));
  s ← Decimal_checked_sub ss whole;
  let days := if negb (d =? 0) then print_int (Z.abs d) ++ str "D" else [] in
  if negb (h =? 0) || negb (m =? 0) || negb (Decimal_eqb s (Decimal_from_int 0)) then
    let hours := if negb (h =? 0) then print_int (Z.abs h) ++ str "H" else [] in
    let minutes := if negb (m =? 0) then print_int (Z.abs m) ++ str "M" else [] in
    seconds ← (if negb (Decimal_eqb s (Decimal_from_int 0)) then
                 a ← Decimal_checked_abs s; Some (Decimal_to_string a ++ str "S")
               else Some []);
    Some (days ++ str "T" ++ hours ++ minutes ++ seconds)
  else Some days.

Definition Duration_fmt (a : Duration) : option bytes :=
  let ym := ymd_months (dur_year_month a) in
  let ss := dtd_seconds (dur_day_time a) in
  if ((ym <? 0) && Decimal_ltb (Decimal_from_int 0) ss)
     || ((ym >? 0) && Decimal_ltb ss (Decimal_from_int 0))
  then None
  else
    let sign := if (ym <? 0) || Decimal_ltb ss (Decimal_from_int 0) then str "-" else [] in
    if (ym =? 0) && Decimal_eqb ss (Decimal_from_int 0) then Some (sign ++ str "P" ++ str "T0S")
    else
      dt ← fmt_day_time ss;
      Some (sign ++ str "P" ++ fmt_year_month ym ss ++ dt).

Definition YearMonthDuration_fmt (a : YearMonthDuration) : option bytes :=
  if ymd_months a =? 0 then Some (str "P0M") else Duration_fmt (Duration_from_year_month a).
Definition DayTimeDuration_fmt (a : DayTimeDuration) : option bytes :=
  Duration_fmt (Duration_from_day_time a).

#[global] Instance YearMonthDuration_eq_dec : EqDecision YearMonthDuration.
Proof. solve_decision. Defined.
#[global] Instance DayTimeDuration_eq_dec : EqDecision DayTimeDuration.
Proof. solve_decision. Defined.
#[global] Instance Duration_eq_dec : EqDecision Duration.
Proof. solve_decision. Defined.
