(* ===== verification/XsdDurationFacts.v ===== *)
(** * Correctness of the durations

    The sign invariant, the decomposition into components, and the text round
    trip of [Duration]. *)
From S2P Require Import Prelude MachineInt RustStr XsdDecimal XsdDecimalFacts XsdDuration.

(** ** The invariant *)

(** The representation is in range and the two components do not have opposite signs. *)
Definition Duration_wf (d : Duration) : Prop :=
  let ym := ymd_months (dur_year_month d) in
  let ss := Decimal_value (dtd_seconds (dur_day_time d)) in
  in_int I64 ym /\ in_int I128 ss /\ ~ (0 < ym /\ ss < 0) /\ ~ (ym < 0 /\ 0 < ss).

Lemma Duration_construct_spec (ym : YearMonthDuration) (dt : DayTimeDuration) (d : Duration) :
  Duration_construct ym dt = Ok d <->
  d = mkDuration ym dt /\ ~ (0 < ymd_months ym /\ Decimal_value (dtd_seconds dt) < 0)
  /\ ~ (ymd_months ym < 0 /\ 0 < Decimal_value (dtd_seconds dt)).
Proof.
  unfold Duration_construct, Decimal_ltb, Decimal_default. simpl Decimal_value.
  rewrite Z.gtb_ltb.
  destruct (Z.ltb_spec 0 (ymd_months ym)), (Z.ltb_spec (ymd_months ym) 0),
    (Z.ltb_spec 0 (Decimal_value (dtd_seconds dt))),
    (Z.ltb_spec (Decimal_value (dtd_seconds dt)) 0); simpl; split;
    try discriminate; try (intros [= <-]); try intros (-> & ? & ?); try done; try lia;
    split; try done; lia.
Qed.

Lemma Duration_construct_wf (ym : YearMonthDuration) (dt : DayTimeDuration) (d : Duration) :
  in_int I64 (ymd_months ym) -> Decimal_wf (dtd_seconds dt) ->
  Duration_construct ym dt = Ok d -> Duration_wf d.
Proof. intros ? ? (-> & ? & ?)%Duration_construct_spec. by split. Qed.

(** A state of the parser whose accumulators are in range. *)
Definition parser_state_wf (st : parser_state) : Prop :=
  from_option (in_int I64) True (ps_year_month st) /\
  from_option Decimal_wf True (ps_day_time st).

Lemma add_months_wf (st : parser_state) (v : Z) (r : option Z) :
  add_months st v = Ok r -> from_option (in_int I64) True r.
Proof.
  unfold add_months. intros H. peel H. peel Hs. apply checked_Some in Hs as [-> ?]. by subst.
Qed.

Lemma add_seconds_wf (st : parser_state) (v : Decimal) (r : option Decimal) :
  add_seconds st v = Ok r -> from_option Decimal_wf True r.
Proof.
  unfold add_seconds, Decimal_checked_add. intros H. peel H. peel Hs. peel Hs0.
  apply checked_Some in Hs0 as [-> ?]. by subst.
Qed.

Lemma duration_step_wf (neg : bool) (st st' : parser_state) (input rest : bytes) :
  parser_state_wf st -> duration_step neg st input = Ok (st', rest) -> parser_state_wf st'.
Proof.
  intros [Hym Hdt]. unfold duration_step.
  destruct (strip_prefix _ _) as [r|]; [case_if_bool; [done|]; by intros [= <- <-]|].
  destruct (decimal_prefix input) as [num [|c r]]; [done|].
  repeat (case_if_bool; [intros Hst; peel Hst; simplify_eq; split; simpl;
    eauto using add_months_wf, add_seconds_wf|]).
  done.
Qed.

Lemma duration_loop_wf (fuel : nat) (neg : bool) (st st' : parser_state) (input : bytes) :
  parser_state_wf st -> duration_loop fuel neg st input = Ok st' -> parser_state_wf st'.
Proof.
  revert st input. induction fuel as [|fuel IH]; intros st [|c input] Hst; simpl;
    try (by intros [= <-]); try done.
  intros H. peel H. eapply IH; [|exact H]. by eapply duration_step_wf.
Qed.

Lemma duration_parts_wf (input rest : bytes) (p : DurationParts) :
  duration_parts input = Ok (p, rest) ->
  from_option (in_int I64) True (parts_year_month p) /\
  from_option Decimal_wf True (parts_day_time p).
Proof.
  unfold duration_parts. destruct (match strip_prefix _ _ with Some _ => _ | None => _ end).
  intros H. peel H. apply duration_loop_wf in Hs0; [|by split]. by simplify_eq.
Qed.

(** What the three parsers return. *)
Lemma Duration_from_str_wf (input : bytes) (d : Duration) :
  Duration_from_str input = Ok d -> Duration_wf d.
Proof.
  intros H. unfold Duration_from_str, duration_ensure_complete in H.
  destruct (duration_parts input) as [[[ym dt] [|? ?]]|] eqn:Hp; try discriminate H.
  apply duration_parts_wf in Hp as [Hym Hdt]. simpl in Hym, Hdt.
  cbn [mbind result_bind parts_year_month parts_day_time] in H.
  destruct (Duration_new (default 0 ym) (default Decimal_default dt)) as [d'|] eqn:E;
    destruct ym, dt; try discriminate H; rewrite E in H; simplify_eq/=.
  all: eapply Duration_construct_wf; [| |exact E]; done.
Qed.
Lemma YearMonthDuration_from_str_wf (input : bytes) (d : YearMonthDuration) :
  YearMonthDuration_from_str input = Ok d -> Duration_wf (Duration_from_year_month d).
Proof.
  intros H. unfold YearMonthDuration_from_str, duration_ensure_complete in H.
  destruct (duration_parts input) as [[[ym dt] [|? ?]]|] eqn:Hp; try discriminate H.
  apply duration_parts_wf in Hp as [Hym _]. simpl in Hym.
  cbn [mbind result_bind parts_year_month parts_day_time] in H.
  destruct dt, ym; try discriminate H. injection H as <-. unfold Duration_wf. simpl in *.
  split_and!; [done|done|lia..].
Qed.
Lemma DayTimeDuration_from_str_wf (input : bytes) (d : DayTimeDuration) :
  DayTimeDuration_from_str input = Ok d -> Duration_wf (Duration_from_day_time d).
Proof.
  intros H. unfold DayTimeDuration_from_str, duration_ensure_complete in H.
  destruct (duration_parts input) as [[[ym dt] [|? ?]]|] eqn:Hp; try discriminate H.
  apply duration_parts_wf in Hp as [_ Hdt]. simpl in Hdt.
  cbn [mbind result_bind parts_year_month parts_day_time] in H.
  destruct ym, dt; try discriminate H. injection H as <-. unfold Duration_wf. simpl in *.
  split_and!; [done|done|lia..].
Qed.

(** ** Components *)

Lemma as_i128_bound (a : Decimal) :
  Decimal_wf a -> -170141183460469231732 < Decimal_as_i128 a < 170141183460469231732.
Proof.
  unfold Decimal_wf, Decimal_as_i128, DECIMAL_PART_POW, in_int, int_min, int_max. intros.
  Z.to_euclidean_division_equations. lia.
Qed.

(** The components of a dayTimeDuration add up to it, without a panic and
    without loss in the [as i64] casts: days, hours, minutes and seconds have
    the sign of the duration and hours, minutes, seconds are below 24, 60, 60. *)
Theorem DayTimeDuration_components (d : DayTimeDuration) :
  Decimal_wf (dtd_seconds d) ->
  exists s, DayTimeDuration_seconds d = Some s /\
    Decimal_value (dtd_seconds d)
    = (DayTimeDuration_days d * 86400 + DayTimeDuration_hours d * 3600
       + DayTimeDuration_minutes d * 60) * DECIMAL_PART_POW + Decimal_value s /\
    Z.abs (DayTimeDuration_hours d) < 24 /\ Z.abs (DayTimeDuration_minutes d) < 60 /\
    Z.abs (Decimal_value s) < 60 * DECIMAL_PART_POW /\
    (0 <= Decimal_value (dtd_seconds d) ->
       0 <= DayTimeDuration_days d /\ 0 <= DayTimeDuration_hours d /\
       0 <= DayTimeDuration_minutes d /\ 0 <= Decimal_value s) /\
    (Decimal_value (dtd_seconds d) <= 0 ->
       DayTimeDuration_days d <= 0 /\ DayTimeDuration_hours d <= 0 /\
       DayTimeDuration_minutes d <= 0 /\ Decimal_value s <= 0).
Proof.
  intros Hwf. pose proof (as_i128_bound _ Hwf) as Hb. destruct d as [[v]]. simpl in *.
  exists (mkDecimal (Z.rem v (60 * DECIMAL_PART_POW))).
  unfold DayTimeDuration_seconds, Decimal_checked_rem, checked_rem. simpl.
  unfold DayTimeDuration_days, DayTimeDuration_hours, DayTimeDuration_minutes. simpl.
  unfold Decimal_as_i128, Decimal_wf, DECIMAL_PART_POW in *. simpl in *.
  rewrite (proj2 (fits_true I128 _)) by
    (unfold in_int, int_min, int_max in *; Z.to_euclidean_division_equations; lia).
  split; [done|].
  rewrite !wrap_id by (unfold in_int, int_min, int_max in *;
    clear Hwf; Z.to_euclidean_division_equations; lia).
  set (q := Z.quot v 1000000000000000000) in *.
  pose proof (Z.quot_rem' v 1000000000000000000) as E. fold q in E.
  assert (Z.rem v (60 * 1000000000000000000)
    = Z.rem v 1000000000000000000 + Z.rem q 60 * 1000000000000000000) as ->.
  { subst q. clear. Z.to_euclidean_division_equations. lia. }
  assert (0 <= v -> 0 <= q /\ 0 <= Z.rem v 1000000000000000000) as Hpos
    by (subst q; clear; Z.to_euclidean_division_equations; lia).
  assert (v <= 0 -> q <= 0 /\ Z.rem v 1000000000000000000 <= 0) as Hneg
    by (subst q; clear; Z.to_euclidean_division_equations; lia).
  assert (Z.abs (Z.rem v 1000000000000000000) < 1000000000000000000) as Hr
    by (clear; Z.to_euclidean_division_equations; lia).
  clearbody q. set (f := Z.rem v 1000000000000000000) in *. clearbody f. clear Hwf.
  assert (q = (Z.quot q 86400 * 86400 + Z.quot (Z.rem q 86400) 3600 * 3600
    + Z.quot (Z.rem q 3600) 60 * 60) + Z.rem q 60) as Hq
    by (clear; Z.to_euclidean_division_equations; lia).
  repeat split_and!; try (Z.to_euclidean_division_equations; lia).
  all: intros; Z.to_euclidean_division_equations; lia.
Qed.

Lemma DayTimeDuration_components_witness :
  Decimal_wf Decimal_MIN /\ exists s, DayTimeDuration_seconds DayTimeDuration_MIN = Some s.
Proof.
  split; [split; discriminate|].
  destruct (DayTimeDuration_components DayTimeDuration_MIN ltac:(split; discriminate))
    as (s & H & _).
  exists s. exact H.
Defined.

(** ** Parsing what is printed *)

Lemma decimal_prefix_from_app (seen : bool) (s d r : bytes) :
  decimal_prefix_from seen s = (d, r) -> s = d ++ r.
Proof.
  revert seen d r. induction s as [|c s IH]; intros seen d r; simpl; [by intros [= <- <-]|].
  repeat case_if_bool; [| |by intros [= <- <-]];
    (destruct (decimal_prefix_from _ s) as [d' r'] eqn:E; intros [= <- <-]; simpl;
     f_equal; by eapply IH).
Qed.

(** Every round of the parser's loop consumes at least one byte. *)
Lemma duration_step_shortens (neg : bool) (st st' : parser_state) (input rest : bytes) :
  duration_step neg st input = Ok (st', rest) -> (length rest < length input)%nat.
Proof.
  unfold duration_step. destruct (strip_prefix _ input) as [r|] eqn:Ep.
  - case_if_bool; [done|]. intros [= <- <-]. destruct input as [|c i]; [done|]. simpl in Ep.
    destruct (Ascii.eqb c "T"); simplify_eq. simpl. lia.
  - destruct (decimal_prefix input) as [num [|c r]] eqn:En; [done|].
    apply decimal_prefix_from_app in En as ->. rewrite length_app. simpl length.
    repeat (case_if_bool; [intros Hst; peel Hst; simplify_eq; lia|]). done.
Qed.

(** The loop with the fuel the parser gives it: one round per byte is enough. *)
Lemma duration_loop_fuel (fuel : nat) (neg : bool) (st : parser_state) (input : bytes) :
  (length input <= fuel)%nat ->
  duration_loop fuel neg st input = duration_loop (length input) neg st input.
Proof.
  revert st input. induction fuel as [fuel IH] using lt_wf_ind.
  intros st [|c input] Hl; [by destruct fuel|]. destruct fuel as [|fuel]; simpl in Hl; [lia|].
  cbn [length duration_loop]. destruct (duration_step neg st (c :: input)) as [[st' rest]|] eqn:E;
    cbn [mbind result_bind]; [|done].
  apply duration_step_shortens in E. cbn [length] in E.
  rewrite IH by lia. destruct (decide (fuel = length input)) as [->|]; [|symmetry; apply IH; lia].
  symmetry. apply IH; lia.
Qed.

Definition duration_run (neg : bool) (st : parser_state) (input : bytes)
  : result ParseDurationError parser_state := duration_loop (length input) neg st input.

Lemma duration_run_step (neg : bool) (st st' : parser_state) (input rest : bytes) :
  duration_step neg st input = Ok (st', rest) ->
  duration_run neg st input = duration_run neg st' rest.
Proof.
  intros E. pose proof (duration_step_shortens _ _ _ _ _ E). unfold duration_run.
  destruct input as [|c input]; [simpl in *; lia|]. cbn [length duration_loop].
  rewrite E. cbn [mbind result_bind]. apply duration_loop_fuel. simpl in *. lia.
Qed.

(** A number the parser reads whole when a letter follows. *)
Definition number_text (num : bytes) : Prop :=
  forall c rest, is_ascii_digit c = false -> c <> "."%char ->
    strip_prefix "T"%char (num ++ c :: rest) = None /\
    decimal_prefix (num ++ c :: rest) = (num, c :: rest).

Lemma decimal_prefix_digits (seen : bool) (d r : bytes) :
  all_digits d ->
  decimal_prefix_from seen (d ++ r)
  = (d ++ (decimal_prefix_from seen r).1, (decimal_prefix_from seen r).2).
Proof.
  intros H. induction H as [|c d Hc Hd IH]; simpl; [by destruct (decimal_prefix_from seen r)|].
  rewrite Hc, IH. done.
Qed.

Lemma decimal_prefix_stop (seen : bool) (c : ascii) (rest : bytes) :
  is_ascii_digit c = false -> c <> "."%char -> decimal_prefix_from seen (c :: rest) = ([], c :: rest).
Proof. intros H H'. simpl. rewrite H. by apply Ascii.eqb_neq in H' as ->. Qed.

Lemma number_text_parts (n : Z) (before after : bytes) :
  before <> [] -> all_digits before -> fraction_text n after -> number_text (before ++ after).
Proof.
  intros Hne Hd Hf c rest Hc Hdot. split.
  - destruct before as [|x before]; [done|]. simpl. inversion Hd; subst.
    by rewrite (digit_not x).
  - unfold decimal_prefix. rewrite <- app_assoc, decimal_prefix_digits by done.
    destruct Hf as [_|x e _ He _ _]; rewrite ?app_nil_l;
      [|apply Forall_rev in He; generalize dependent (rev (x :: e)); intros e' He'].
    + rewrite !decimal_prefix_stop by done. simpl. by rewrite !app_nil_r.
    + simpl app. cbn [decimal_prefix_from]. change (is_ascii_digit ".") with false.
      change (Ascii.eqb "." "." && negb false) with true. cbv iota.
      rewrite decimal_prefix_digits by done.
      rewrite !decimal_prefix_stop by done. simpl. by rewrite app_nil_r.
Qed.

Lemma number_text_int (n : Z) : 0 <= n -> number_text (print_int n).
Proof.
  intros Hn. unfold print_int. rewrite (proj2 (Z.ltb_ge n 0)) by done.
  rewrite Z.abs_eq, app_nil_l, <- (app_nil_r (print_nat n)) by done.
  apply (number_text_parts 0); [|by apply print_nat_digits|by apply fraction_none].
  destruct (print_nat_cons n Hn) as (c & s & ->). done.
Qed.

(** The sign the parser reads is the sign of the component. *)
Definition has_sign (neg : bool) (z : Z) : Prop := if neg then z <= 0 else 0 <= z.
Definition with_sign (neg : bool) (z : Z) : Z := if neg then - z else z.

Lemma with_sign_abs (neg : bool) (z : Z) : has_sign neg z -> with_sign neg (Z.abs z) = z.
Proof. destruct neg; simpl; lia. Qed.

Lemma apply_i64_neg_abs (neg : bool) (z : Z) :
  has_sign neg z -> in_int I64 z -> apply_i64_neg (Z.abs z) neg = Ok z.
Proof.
  intros Hs Hz. pose proof (with_sign_abs neg z Hs) as E. unfold apply_i64_neg, checked_neg.
  destruct neg; simpl in E; [rewrite checked_in by (by rewrite E)|]; simpl; by rewrite E.
Qed.

Lemma print_abs_from_str (z : Z) :
  in_int I64 (Z.abs z) -> int_from_str I64 (print_int (Z.abs z)) = Ok (Z.abs z).
Proof. intros. by apply int_from_print. Qed.

(** A year or month number adds to the months. *)
Lemma add_months_ok (st : parser_state) (v : Z) :
  in_int I64 (default 0 (ps_year_month st) + v) ->
  add_months st v = Ok (Some (default 0 (ps_year_month st) + v)).
Proof. intros. unfold add_months, checked_add. by rewrite checked_in. Qed.

Lemma add_seconds_ok (st : parser_state) (v : Decimal) :
  in_int I128 (Decimal_value (default Decimal_default (ps_day_time st)) + Decimal_value v) ->
  add_seconds st v
  = Ok (Some (mkDecimal (Decimal_value (default Decimal_default (ps_day_time st))
                         + Decimal_value v))).
Proof. intros. unfold add_seconds, Decimal_checked_add, checked_add. by rewrite checked_in. Qed.

(** Reading a whole number of days, hours or minutes. *)
Lemma Decimal_from_str_int (n : Z) :
  0 <= n -> in_int I128 (n * DECIMAL_PART_POW) ->
  Decimal_from_str (print_int n) = Ok (Decimal_from_int n).
Proof.
  intros Hn Hin. unfold print_int. rewrite (proj2 (Z.ltb_ge n 0)), Z.abs_eq by done.
  rewrite app_nil_l, <- (app_nil_r (print_nat n)).
  pose proof (Decimal_from_str_text (n * DECIMAL_PART_POW) false (print_nat n) []) as H.
  rewrite app_nil_l in H. apply H.
  - unfold DECIMAL_PART_POW. lia.
  - done.
  - destruct (print_nat_cons n Hn) as (c & s & ->). done.
  - by apply print_nat_digits.
  - rewrite print_nat_value by done. by rewrite Z.div_mul.
  - apply fraction_none. by apply Z.mod_mul.
Qed.

Lemma all_digits_no_dot (s : bytes) : all_digits s -> str_contains "."%char s = false.
Proof.
  intros H. unfold str_contains. induction H as [|c s Hc Hs IH]; cbn [existsb]; [done|].
  rewrite IH, orb_false_r, Ascii.eqb_sym. by rewrite (digit_not c).
Qed.

Lemma day_time_component_ok (neg : bool) (z unit : Z) (what : string) :
  has_sign neg z -> z <> 0 -> 0 < unit <= 86400 -> in_int I128 (z * unit * DECIMAL_PART_POW) ->
  day_time_component neg (print_int (Z.abs z)) unit what
  = Ok (mkDecimal (z * unit * DECIMAL_PART_POW)).
Proof.
  intros Hs Hz Hu Hin. unfold day_time_component.
  rewrite all_digits_no_dot by (unfold print_int; rewrite (proj2 (Z.ltb_ge (Z.abs z) 0)) by lia;
    apply print_nat_digits; lia).
  assert (in_int I128 (z * DECIMAL_PART_POW)) as Hz1.
  { eapply (factor_in_int I128 _ unit); [lia|]. by replace (z * DECIMAL_PART_POW * unit)
      with (z * unit * DECIMAL_PART_POW) by ring. }
  assert (z * DECIMAL_PART_POW <> int_min I128) as Hmin
    by (unfold DECIMAL_PART_POW, int_min; lia).
  rewrite Decimal_from_str_int by (unfold DECIMAL_PART_POW in *; int_bounds).
  cbn [map_err mbind result_bind].
  assert (apply_decimal_neg (Decimal_from_int (Z.abs z)) neg = Ok (mkDecimal (z * DECIMAL_PART_POW)))
    as ->.
  { unfold apply_decimal_neg, Decimal_checked_neg, checked_neg, Decimal_from_int.
    pose proof (with_sign_abs neg z Hs) as E. destruct neg; simpl in E; simpl Decimal_value.
    - rewrite <- Z.mul_opp_l, E, checked_in by done. done.
    - by rewrite E. }
  cbn [mbind result_bind]. apply ok_or_Ok.
  apply Decimal_checked_mul_complete with 18 0; unfold Decimal_from_int, Decimal_wf; simpl; try done.
  - unfold DECIMAL_PART_POW. int_bounds.
  - unfold DECIMAL_PART_POW. lia.
  - unfold DECIMAL_PART_POW. lia.
  - ring.
  - by exists z.
  - apply Z.divide_1_l.
Qed.

(** The seconds accumulated so far. *)
Definition acc_seconds (st : parser_state) : Z :=
  Decimal_value (default Decimal_default (ps_day_time st)).

(** Text of an optional component. *)
Definition opt_unit (z : Z) (c : ascii) : bytes :=
  if negb (z =? 0) then print_int (Z.abs z) ++ [c] else [].

(** Reading an optional number of days, hours or minutes: what the parser does
    on it is given by [Hstep], the instance of [duration_step] for the letter. *)
Lemma unit_fragment (neg : bool) (st : parser_state) (z unit state : Z) (c : ascii)
  (what : string) (rest : bytes) :
  (forall num, number_text num ->
    duration_step neg st (num ++ c :: rest)
    = (n ← day_time_component neg num unit what;
       dt ← add_seconds st n;
       Ok (mkParserState state (ps_year_month st) dt, rest))) ->
  has_sign neg z -> 0 < unit <= 86400 ->
  in_int I128 (z * unit * DECIMAL_PART_POW) ->
  in_int I128 (acc_seconds st + z * unit * DECIMAL_PART_POW) ->
  exists st',
    duration_run neg st (opt_unit z c ++ rest) = duration_run neg st' rest /\
    ps_year_month st' = ps_year_month st /\
    acc_seconds st' = acc_seconds st + z * unit * DECIMAL_PART_POW /\
    (is_Some (ps_day_time st) \/ z <> 0 -> is_Some (ps_day_time st')) /\
    (ps_state st' = state \/ ps_state st' = ps_state st).
Proof.
  intros Hstep Hs Hu Hin Hacc. unfold opt_unit. destruct (z =? 0) eqn:E; bool_to_prop; simpl.
  - exists st. subst z. rewrite !Z.mul_0_l, Z.add_0_r. split_and!; eauto; tauto.
  - exists (mkParserState state (ps_year_month st)
             (Some (mkDecimal (acc_seconds st + z * unit * DECIMAL_PART_POW)))).
    repeat split; try (by left); try by eexists.
    apply duration_run_step. rewrite <- app_assoc. simpl app.
    rewrite Hstep by (apply number_text_int; lia).
    rewrite day_time_component_ok by done. cbn [mbind result_bind].
    rewrite add_seconds_ok by done. done.
Qed.

(** Reading the optional seconds, the last fragment. *)
Lemma seconds_fragment (neg : bool) (st : parser_state) (s : Decimal) (text : bytes) :
  AFTER_T <= ps_state st < AFTER_SECOND ->
  has_sign neg (Decimal_value s) -> Z.abs (Decimal_value s) < 60 * DECIMAL_PART_POW ->
  in_int I128 (acc_seconds st + Decimal_value s) ->
  (if negb (Decimal_eqb s (Decimal_from_int 0)) then
     a ← Decimal_checked_abs s; Some (Decimal_to_string a ++ str "S")
   else Some []) = Some text ->
  exists st',
    duration_run neg st text = Ok st' /\ ps_year_month st' = ps_year_month st /\
    acc_seconds st' = acc_seconds st + Decimal_value s /\
    (is_Some (ps_day_time st) \/ Decimal_value s <> 0 -> is_Some (ps_day_time st')).
Proof.
  intros Hst Hs Hb Hacc. unfold Decimal_eqb, Decimal_from_int, Decimal_checked_abs, checked_abs.
  destruct s as [v]. simpl Decimal_value in *. rewrite Z.mul_0_l.
  unfold DECIMAL_PART_POW in Hb. destruct (v =? 0) eqn:E; bool_to_prop; simpl negb; cbv iota.
  - intros [= <-]. exists st. subst v. rewrite Z.add_0_r. split_and!; eauto; tauto.
  - rewrite checked_in by int_bounds. cbn [fmap option_fmap option_map mbind option_bind].
    intros [= <-].
    destruct (Decimal_to_string_shape (mkDecimal (Z.abs v))) as (before & after & _ & H1 & H2 & H3 & H4 & H5);
      [unfold Decimal_wf; simpl; int_bounds|].
    simpl Decimal_value in *. rewrite (proj2 (Z.ltb_ge (Z.abs v) 0)), app_nil_l in H4 by lia.
    pose proof (number_text_parts _ _ _ H1 H2 H3) as Hn. rewrite <- H4 in Hn.
    destruct (Hn "S"%char [] eq_refl ltac:(done)) as [Hn1 Hn2].
    exists (mkParserState AFTER_SECOND (ps_year_month st) (Some (mkDecimal (acc_seconds st + v)))).
    repeat split; try by eexists.
    change (str "S") with ["S"%char]. erewrite duration_run_step with (rest := []); [unfold duration_run; simpl; reflexivity|].
    unfold duration_step. rewrite Hn1, Hn2, H5. simpl Ascii.eqb.
    rewrite (proj2 (Z.leb_le AFTER_T (ps_state st))), (proj2 (Z.ltb_lt (ps_state st) AFTER_SECOND))
      by lia. cbn [andb map_err mbind result_bind].
    assert (apply_decimal_neg (mkDecimal (Z.abs v)) neg = Ok (mkDecimal v)) as ->.
    { unfold apply_decimal_neg, Decimal_checked_neg, checked_neg.
      pose proof (with_sign_abs neg v Hs) as Ev. destruct neg; simpl in Ev |- *; [|by rewrite Ev].
      rewrite Ev, checked_in by int_bounds. done. }
    cbn [mbind result_bind]. by rewrite add_seconds_ok.
Qed.

Lemma quot_rem_sign (neg : bool) (a b : Z) :
  0 < b -> has_sign neg a ->
  has_sign neg (Z.quot a b) /\ has_sign neg (Z.rem a b) /\ Z.abs (Z.rem a b) < b.
Proof.
  intros Hb Ha. assert (Z.abs (Z.rem a b) < b)
    by (pose proof (Z.rem_bound_abs a b ltac:(lia)); lia).
  destruct neg; simpl in *; (split; [|split; [|done]]).
  - assert (0 <= Z.quot (- a) b) by (apply Z.quot_pos; lia). rewrite Z.quot_opp_l in * by lia. lia.
  - assert (0 <= Z.rem (- a) b) by (apply Z.rem_nonneg; lia). rewrite Z.rem_opp_l in * by lia. lia.
  - apply Z.quot_pos; lia.
  - apply Z.rem_nonneg; lia.
Qed.

(** The components [fmt] prints all have the sign of the duration and add up to it. *)
Lemma day_time_split (neg : bool) (v : Z) :
  has_sign neg v ->
  let s_int := Z.quot v DECIMAL_PART_POW in
  let d := Z.quot s_int 86400 in
  let h := Z.quot (Z.rem s_int 86400) 3600 in
  let m := Z.quot (Z.rem s_int 3600) 60 in
  let s := v - (d * 86400 + h * 3600 + m * 60) * DECIMAL_PART_POW in
  has_sign neg d /\ has_sign neg h /\ has_sign neg m /\ has_sign neg s /\
  Z.abs s < 60 * DECIMAL_PART_POW.
Proof.
  intros Hs. cbv zeta. set (q := Z.quot v DECIMAL_PART_POW).
  assert (Z.quot q 86400 * 86400 + Z.quot (Z.rem q 86400) 3600 * 3600
    + Z.quot (Z.rem q 3600) 60 * 60 = q - Z.rem q 60) as E
    by (clearbody q; Z.to_euclidean_division_equations; lia).
  rewrite E.
  assert (v - (q - Z.rem q 60) * DECIMAL_PART_POW
          = Z.rem v DECIMAL_PART_POW + Z.rem q 60 * DECIMAL_PART_POW) as ->
    by (pose proof (Z.quot_rem' v DECIMAL_PART_POW); fold q in H; lia).
  destruct (quot_rem_sign neg v DECIMAL_PART_POW eq_refl Hs) as (Hq & Hr & Hrb). fold q in Hq.
  clearbody q. generalize dependent (Z.rem v DECIMAL_PART_POW). intros r Hr Hrb.
  unfold DECIMAL_PART_POW in *. clear E Hs v.
  destruct (quot_rem_sign neg q 86400 eq_refl Hq) as (H1 & H2 & _).
  destruct (quot_rem_sign neg q 3600 eq_refl Hq) as (_ & H3 & _).
  destruct (quot_rem_sign neg q 60 eq_refl Hq) as (_ & H4 & H5).
  destruct (quot_rem_sign neg _ 3600 eq_refl H2) as (H6 & _).
  destruct (quot_rem_sign neg _ 60 eq_refl H3) as (H7 & _).
  destruct neg; simpl in *; lia.
Qed.

Lemma days_run (neg : bool) (st : parser_state) (d : Z) (rest : bytes) :
  ps_state st < AFTER_DAY -> has_sign neg d ->
  in_int I128 (d * 86400 * DECIMAL_PART_POW) ->
  in_int I128 (acc_seconds st + d * 86400 * DECIMAL_PART_POW) ->
  exists st', duration_run neg st (opt_unit d "D" ++ rest) = duration_run neg st' rest /\
    ps_year_month st' = ps_year_month st /\
    acc_seconds st' = acc_seconds st + d * 86400 * DECIMAL_PART_POW /\
    (is_Some (ps_day_time st) \/ d <> 0 -> is_Some (ps_day_time st')) /\ ps_state st' < AFTER_T.
Proof.
  intros Hst Hs H1 H2.
  destruct (unit_fragment neg st d 86400 AFTER_DAY "D" "days" rest) as (st' & E & ? & ? & ? & Hp);
    [|done|lia|done|done|].
  - intros num Hn. destruct (Hn "D"%char rest eq_refl ltac:(done)) as [E1 E2].
    unfold duration_step. rewrite E1, E2. simpl Ascii.eqb.
    by rewrite (proj2 (Z.ltb_lt (ps_state st) AFTER_DAY)) by done.
  - exists st'. repeat split; try done. unfold AFTER_DAY, AFTER_T in *. lia.
Qed.

Lemma time_run (neg : bool) (st : parser_state) (h m : Z) (s : Decimal) (text : bytes) :
  ps_state st = AFTER_T -> has_sign neg h -> has_sign neg m -> has_sign neg (Decimal_value s) ->
  Z.abs (Decimal_value s) < 60 * DECIMAL_PART_POW ->
  in_int I128 (h * 3600 * DECIMAL_PART_POW) -> in_int I128 (m * 60 * DECIMAL_PART_POW) ->
  in_int I128 (acc_seconds st + h * 3600 * DECIMAL_PART_POW) ->
  in_int I128 (acc_seconds st + h * 3600 * DECIMAL_PART_POW + m * 60 * DECIMAL_PART_POW) ->
  in_int I128 (acc_seconds st + h * 3600 * DECIMAL_PART_POW + m * 60 * DECIMAL_PART_POW
               + Decimal_value s) ->
  (if negb (Decimal_eqb s (Decimal_from_int 0)) then
     a ← Decimal_checked_abs s; Some (Decimal_to_string a ++ str "S")
   else Some []) = Some text ->
  exists st', duration_run neg st (opt_unit h "H" ++ opt_unit m "M" ++ text) = Ok st' /\
    ps_year_month st' = ps_year_month st /\
    acc_seconds st' = acc_seconds st + h * 3600 * DECIMAL_PART_POW + m * 60 * DECIMAL_PART_POW
                      + Decimal_value s /\
    (is_Some (ps_day_time st) \/ h <> 0 \/ m <> 0 \/ Decimal_value s <> 0 ->
     is_Some (ps_day_time st')).
Proof.
  intros Hst Hh Hm Hs Hb B1 B2 B3 B4 B5 Ht.
  destruct (unit_fragment neg st h 3600 AFTER_HOUR "H" "hours" (opt_unit m "M" ++ text))
    as (st1 & E1 & Y1 & A1 & S1 & P1); [|done|lia|done|done|].
  { intros num Hn. destruct (Hn "H"%char (opt_unit m "M" ++ text) eq_refl ltac:(done)) as [X1 X2].
    unfold duration_step. rewrite X1, X2. simpl Ascii.eqb. by rewrite Hst. }
  destruct (unit_fragment neg st1 m 60 AFTER_MINUTE "M" "minutes" text)
    as (st2 & E2 & Y2 & A2 & S2 & P2); [|done|lia|done|by rewrite A1|].
  { intros num Hn. destruct (Hn "M"%char text eq_refl ltac:(done)) as [X1 X2].
    unfold duration_step. rewrite X1, X2. simpl Ascii.eqb.
    rewrite Hst in P1. by destruct P1 as [-> | ->]. }
  destruct (seconds_fragment neg st2 s text) as (st3 & E3 & Y3 & A3 & S3);
    [unfold AFTER_T, AFTER_SECOND, AFTER_HOUR, AFTER_MINUTE in *; lia|done|done|
     by rewrite A2, A1|done|].
  exists st3. split; [by rewrite <- E3, <- E2, <- E1|]. split; [congruence|].
  split; [by rewrite A3, A2, A1|]. tauto.
Qed.

Lemma duration_run_T (neg : bool) (st : parser_state) (rest : bytes) :
  ps_state st < AFTER_T ->
  duration_run neg st (str "T" ++ rest)
  = duration_run neg (mkParserState AFTER_T (ps_year_month st) (ps_day_time st)) rest.
Proof.
  intros H. apply duration_run_step. unfold duration_step. simpl strip_prefix. cbv iota.
  by rewrite Z.geb_leb, (proj2 (Z.leb_gt AFTER_T (ps_state st))).
Qed.

Lemma fmt_day_time_run (neg : bool) (st : parser_state) (ss : Decimal) :
  ps_state st < AFTER_DAY -> ps_day_time st = None -> Decimal_wf ss ->
  has_sign neg (Decimal_value ss) ->
  exists text st', fmt_day_time ss = Some text /\
    duration_run neg st text = Ok st' /\ ps_year_month st' = ps_year_month st /\
    acc_seconds st' = Decimal_value ss /\
    (Decimal_value ss <> 0 -> is_Some (ps_day_time st')).
Proof.
  intros Hst Hdt Hwf Hs. unfold Decimal_wf in Hwf. destruct ss as [v]. simpl Decimal_value in *.
  pose proof (day_time_split neg v Hs) as Hsplit. unfold fmt_day_time, Decimal_as_i128.
  simpl Decimal_value. cbv zeta in Hsplit |- *. revert Hsplit.
  set (d := Z.quot _ 86400). set (h := Z.quot _ 3600). set (m := Z.quot _ 60).
  clearbody d h m. intros (Hd & Hh & Hm & Hss & Hb). set (s := v - _) in *.
  assert (v = d * 86400 * DECIMAL_PART_POW + h * 3600 * DECIMAL_PART_POW
              + m * 60 * DECIMAL_PART_POW + s) as Ev by (subst s; lia).
  unfold Decimal_try_from_i128, Decimal_checked_sub, checked_mul, checked_sub.
  rewrite (checked_in I128 (_ * DECIMAL_PART_POW)) by (clearbody s;
    unfold DECIMAL_PART_POW, in_int, int_min, int_max in *; destruct neg; simpl in *; lia).
  cbn [ok_or mbind result_bind option_bind ok]. simpl Decimal_value. fold s.
  rewrite checked_in by (clearbody s;
    unfold DECIMAL_PART_POW, in_int, int_min, int_max in *; destruct neg; simpl in *; lia).
  cbn [fmap option_fmap option_map mbind option_bind]. clearbody s.
  assert (acc_seconds st = 0) as H0 by (unfold acc_seconds; by rewrite Hdt).
  assert (in_int I128 s) as Bs
    by (unfold DECIMAL_PART_POW, in_int, int_min, int_max in *; lia).
  assert (exists tail, (if negb (Decimal_eqb (mkDecimal s) (Decimal_from_int 0)) then
     a ← Decimal_checked_abs (mkDecimal s); Some (Decimal_to_string a ++ str "S")
   else Some []) = Some tail) as [tail Ht].
  { unfold Decimal_checked_abs, checked_abs. destruct (negb _); [|by eexists].
    simpl Decimal_value. rewrite checked_in by (unfold DECIMAL_PART_POW in *; int_bounds).
    by eexists. }
  destruct (days_run neg st d (if negb (h =? 0) || negb (m =? 0)
      || negb (Decimal_eqb (mkDecimal s) (Decimal_from_int 0)) then
      str "T" ++ opt_unit h "H" ++ opt_unit m "M" ++ tail else []))
    as (st1 & E1 & Y1 & A1 & S1 & P1); [done|done| | |].
  1-2: unfold DECIMAL_PART_POW, in_int, int_min, int_max in *; destruct neg; simpl in *; lia.
  rewrite H0, Z.add_0_l in A1. rewrite Ht. cbn [mbind option_bind].
  revert E1. destruct (_ || _) eqn:Ez; intros E1.
  - rewrite duration_run_T in E1 by done.
    destruct (time_run neg (mkParserState AFTER_T (ps_year_month st1) (ps_day_time st1)) h m
      (mkDecimal s) tail) as (st2 & E2 & Y2 & A2 & S2); try done.
    1-5: change (acc_seconds (mkParserState _ _ _)) with (acc_seconds st1); rewrite ?A1;
      unfold DECIMAL_PART_POW, in_int, int_min, int_max in *; destruct neg; simpl in *; lia.
    change (acc_seconds (mkParserState _ _ _)) with (acc_seconds st1) in A2. simpl in Y2, S2.
    exists (opt_unit d "D" ++ str "T" ++ opt_unit h "H" ++ opt_unit m "M" ++ tail), st2.
    split; [done|]. split; [by rewrite E1|]. split; [congruence|]. split; [simpl in A2; lia|].
    intros. apply S2. destruct (decide (d = 0)) as [->|]; [|auto]. right. lia.
  - rewrite !orb_false_iff, !negb_false_iff in Ez. unfold Decimal_eqb in Ez. simpl Decimal_value in Ez.
    destruct Ez as [[Eh Em] Es]. bool_to_prop. rewrite app_nil_r in E1.
    exists (opt_unit d "D"), st1. split; [done|]. split; [by rewrite E1|]. split; [done|].
    split; [lia|]. intros. apply S1. right. lia.
Qed.

Lemma year_month_fragment (neg : bool) (st : parser_state) (z factor state : Z) (c : ascii)
  (rest : bytes) :
  (z <> 0 -> duration_step neg st (print_int (Z.abs z) ++ c :: rest)
    = Ok (mkParserState state (Some (default 0 (ps_year_month st) + z * factor)) (ps_day_time st),
          rest)) ->
  exists st',
    duration_run neg st (opt_unit z c ++ rest) = duration_run neg st' rest /\
    ps_day_time st' = ps_day_time st /\
    default 0 (ps_year_month st') = default 0 (ps_year_month st) + z * factor /\
    (is_Some (ps_year_month st) \/ z <> 0 -> is_Some (ps_year_month st')) /\
    (ps_state st' = state \/ ps_state st' = ps_state st).
Proof.
  intros Hstep. unfold opt_unit. destruct (z =? 0) eqn:E; bool_to_prop; simpl.
  - exists st. subst z. rewrite !Z.mul_0_l, Z.add_0_r. split_and!; eauto; tauto.
  - exists (mkParserState state (Some (default 0 (ps_year_month st) + z * factor)) (ps_day_time st)).
    repeat split; try (by left); try by eexists.
    apply duration_run_step. rewrite <- app_assoc. simpl app. by apply Hstep.
Qed.

Lemma fmt_year_month_units (ym : Z) (ss : Decimal) :
  ~ (ym = 0 /\ Decimal_value ss = 0) ->
  fmt_year_month ym ss = opt_unit (Z.quot ym 12) "Y" ++ opt_unit (Z.rem ym 12) "M".
Proof.
  intros H. unfold fmt_year_month, opt_unit. pose proof (Z.quot_rem' ym 12) as E.
  destruct (Z.quot ym 12 =? 0) eqn:Ey, (Z.rem ym 12 =? 0) eqn:Em; bool_to_prop; simpl negb; cbv iota;
    cbn [orb]; try done.
  - unfold Decimal_eqb. change (Decimal_value (Decimal_from_int 0)) with 0.
    rewrite (proj2 (Z.eqb_neq (Decimal_value ss) 0)); [done|]. lia.
  - by rewrite app_nil_r.
  - by rewrite <- !app_assoc.
Qed.

Lemma fmt_year_month_run (neg : bool) (ym : Z) (ss : Decimal) (rest : bytes) :
  has_sign neg ym -> in_int I64 ym -> ~ (ym = 0 /\ Decimal_value ss = 0) ->
  exists st',
    duration_run neg (mkParserState START None None) (fmt_year_month ym ss ++ rest)
    = duration_run neg st' rest /\
    ps_state st' < AFTER_DAY /\ ps_day_time st' = None /\
    default 0 (ps_year_month st') = ym /\ (ym <> 0 -> is_Some (ps_year_month st')).
Proof.
  intros Hs Hin Hnz. rewrite fmt_year_month_units, <- app_assoc by done.
  pose proof (Z.quot_rem' ym 12) as Ed.
  destruct (quot_rem_sign neg ym 12 eq_refl Hs) as (Hy & Hm & Hb).
  set (y := Z.quot ym 12) in *. set (m := Z.rem ym 12) in *. clearbody y m.
  destruct (year_month_fragment neg (mkParserState START None None) y 12 AFTER_YEAR "Y"
    (opt_unit m "M" ++ rest)) as (st1 & E1 & D1 & A1 & S1 & P1).
  { intros _. destruct (number_text_int (Z.abs y) ltac:(lia) "Y"%char (opt_unit m "M" ++ rest)
      eq_refl ltac:(done)) as [X1 X2].
    unfold duration_step. rewrite X1, X2. simpl Ascii.eqb. cbn [andb ps_state].
    change (START <? AFTER_YEAR) with true. cbv iota.
    rewrite print_abs_from_str by int_bounds. cbn [map_err mbind result_bind].
    rewrite apply_i64_neg_abs by (done || int_bounds). cbn [mbind result_bind]. unfold checked_mul.
    rewrite checked_in by (destruct neg; simpl in *; int_bounds). cbn [ok_or mbind result_bind].
    rewrite add_months_ok by (destruct neg; simpl in *; int_bounds). done. }
  simpl in A1, D1, P1.
  destruct (year_month_fragment neg st1 m 1 AFTER_MONTH "M" rest) as (st2 & E2 & D2 & A2 & S2 & P2).
  { intros _. destruct (number_text_int (Z.abs m) ltac:(lia) "M"%char rest
      eq_refl ltac:(done)) as [X1 X2].
    unfold duration_step. rewrite X1, X2. simpl Ascii.eqb. rewrite !andb_false_l.
    rewrite (proj2 (Z.ltb_lt (ps_state st1) AFTER_MONTH)) by
      (unfold AFTER_YEAR, AFTER_MONTH, START in *; lia). cbn [andb]. cbv iota.
    rewrite print_abs_from_str by int_bounds. cbn [map_err mbind result_bind].
    rewrite apply_i64_neg_abs by (done || int_bounds). cbn [mbind result_bind].
    rewrite add_months_ok by (rewrite A1; int_bounds). by rewrite Z.mul_1_r. }
  exists st2. split; [by rewrite E1, E2|].
  split; [unfold AFTER_YEAR, AFTER_MONTH, START, AFTER_DAY in *; lia|].
  split; [congruence|]. split; [rewrite A2, A1; lia|]. intros. apply S2.
  destruct (decide (y = 0)) as [->|]; [right; lia|left; apply S1; auto].
Qed.

Lemma Duration_fmt_parses (d : Duration) :
  Duration_wf d -> exists text, Duration_fmt d = Some text /\ Duration_from_str text = Ok d.
Proof.
  destruct d as [[ym] [[v]]]. intros (Hym & Hss & Hs1 & Hs2). simpl in *.
  unfold Duration_fmt, Decimal_ltb, Decimal_eqb.
  cbn [ymd_months dtd_seconds dur_year_month dur_day_time].
  change (Decimal_value (Decimal_from_int 0)) with 0. simpl Decimal_value.
  rewrite Z.gtb_ltb. set (neg := (ym <? 0) || (v <? 0)).
  assert (has_sign neg ym /\ has_sign neg v) as [Hn1 Hn2]
    by (subst neg; destruct (Z.ltb_spec ym 0), (Z.ltb_spec v 0); simpl; lia).
  replace (((ym <? 0) && (0 <? v)) || ((0 <? ym) && (v <? 0))) with false
    by (destruct (Z.ltb_spec ym 0), (Z.ltb_spec 0 v), (Z.ltb_spec 0 ym), (Z.ltb_spec v 0);
        simpl; done || lia).
  destruct ((ym =? 0) && (v =? 0)) eqn:Ez.
  { bool_to_prop. subst ym v. subst neg. eexists. split; [reflexivity|]. vm_compute. done. }
  assert (~ (ym = 0 /\ v = 0)) as Hnz by (intros [-> ->]; done).
  destruct (fmt_day_time_run neg (mkParserState START None None) (mkDecimal v))
    as (text & _ & Et & _); [done|done|done|done|].
  rewrite Et. cbn [mbind option_bind]. eexists. split; [reflexivity|].
  destruct (fmt_year_month_run neg ym (mkDecimal v) text) as (st1 & E1 & P1 & D1 & A1 & S1);
    [done|done|done|].
  destruct (fmt_day_time_run neg st1 (mkDecimal v)) as (text' & st2 & Et' & E2 & Y2 & A2 & S2);
    [done|done|done|done|]. rewrite Et in Et'. injection Et' as <-.
  unfold Duration_from_str, duration_ensure_complete, duration_parts.
  replace (match strip_prefix _ _ with Some rest => (true, rest) | None => (false, _) end)
    with (neg, str "P" ++ fmt_year_month ym (mkDecimal v) ++ text) by (by destruct neg).
  change (duration_expect_char (str "P" ++ ?x) "P" _) with (Ok (E := ParseDurationError) x).
  cbn [mbind result_bind].
  change (duration_loop _ neg _ ?i) with (duration_run neg (mkParserState START None None) i).
  rewrite E1, E2. cbn [mbind result_bind parts_year_month parts_day_time].
  assert (Duration_new (default 0 (ps_year_month st2)) (default Decimal_default (ps_day_time st2))
          = Ok (mkDuration (mkYearMonthDuration ym) (mkDayTimeDuration (mkDecimal v)))) as E.
  { rewrite Y2, A1. replace (default Decimal_default (ps_day_time st2)) with (mkDecimal v).
    - by apply Duration_construct_spec.
    - revert A2. unfold acc_seconds. 
      destruct (default Decimal_default (ps_day_time st2)) as [w]. simpl. by intros ->. }
  rewrite Y2 in E |- *.
  destruct (ps_year_month st1), (ps_day_time st2); try (by rewrite E).
  exfalso. apply Hnz. split; apply dec_stable; intros H; [apply S1 in H|apply S2 in H];
    by destruct H.
Qed.

(** C38. Parsing what [Display] writes for a duration gives the duration back,
    for every duration that satisfies the sign invariant; [fmt] does not fail on it. *)
Theorem Duration_from_to_string (d : Duration) :
  Duration_wf d -> exists text, Duration_fmt d = Some text /\ Duration_from_str text = Ok d.
Proof. apply Duration_fmt_parses. Qed.

Lemma Duration_from_to_string_witness :
  exists text, Duration_fmt (mkDuration (mkYearMonthDuration (int_min I64))
    (mkDayTimeDuration Decimal_MIN)) = Some text /\
  Duration_from_str text = Ok (mkDuration (mkYearMonthDuration (int_min I64))
    (mkDayTimeDuration Decimal_MIN)).
Proof.
  apply (Duration_from_to_string (mkDuration (mkYearMonthDuration (int_min I64))
    (mkDayTimeDuration Decimal_MIN))).
  repeat split; try discriminate; intros [H1 H2]; discriminate.
Defined.

(** ** Bytes *)

Lemma Duration_from_to_be_bytes (d : Duration) :
  Duration_wf d -> Duration_from_be_bytes (Duration_to_be_bytes d) = d.
Proof.
  destruct d as [[ym] [[v]]]. intros (Hym & Hss & _). simpl in *.
  unfold Duration_from_be_bytes, Duration_to_be_bytes. cbn [dur_year_month dur_day_time].
  unfold YearMonthDuration_from_be_bytes, YearMonthDuration_to_be_bytes,
    DayTimeDuration_from_be_bytes, DayTimeDuration_to_be_bytes, Decimal_from_be_bytes,
    Decimal_to_be_bytes. cbn [ymd_months dtd_seconds Decimal_value].
  rewrite take_app_length_eq, drop_app_length_eq by apply length_to_be_bytes.
  rewrite take_ge by (by rewrite length_to_be_bytes).
  by rewrite !from_to_be_bytes.
Qed.

Lemma length_Duration_to_be_bytes (d : Duration) : length (Duration_to_be_bytes d) = 24%nat.
Proof.
  unfold Duration_to_be_bytes. rewrite length_app.
  unfold YearMonthDuration_to_be_bytes, DayTimeDuration_to_be_bytes, Decimal_to_be_bytes.
  by rewrite !length_to_be_bytes.
Qed.

#[export] Hint Rewrite length_Duration_to_be_bytes : oxi_len.

(** ** The sign invariant *)

(** C37. The sign invariant of durations holds of the constants, and is kept by every
    operation that produces a [Duration]: construction, conversion from the two
    partial types and from [std::time::Duration], addition, subtraction, negation
    and parsing; also by decoding bytes that encode a well-formed duration.  (Other
    bytes are not checked: they can decode to parts of opposite signs.) *)
Theorem Duration_operations_wf :
  (Duration_wf Duration_default /\ Duration_wf Duration_MAX /\ Duration_wf Duration_MIN) /\
  (forall m s d, in_int I64 m -> Decimal_wf s -> Duration_new m s = Ok d -> Duration_wf d) /\
  (forall ym, in_int I64 (ymd_months ym) -> Duration_wf (Duration_from_year_month ym)) /\
  (forall dt, Decimal_wf (dtd_seconds dt) -> Duration_wf (Duration_from_day_time dt)) /\
  (forall v d, Duration_try_from_std v = Ok d -> Duration_wf d) /\
  (forall a b d, Duration_checked_add a b = Some d -> Duration_wf d) /\
  (forall a b d, Duration_checked_sub a b = Some d -> Duration_wf d) /\
  (forall a d, Duration_wf a -> Duration_checked_neg a = Some d -> Duration_wf d) /\
  (forall input d, Duration_from_str input = Ok d -> Duration_wf d) /\
  (forall d, Duration_wf d -> Duration_wf (Duration_from_be_bytes (Duration_to_be_bytes d))).
Proof.
  assert (Hday : forall dt, Decimal_wf (dtd_seconds dt) -> Duration_wf (Duration_from_day_time dt)).
  { intros dt Hdt. split; [split; discriminate|]. split; [done|]. cbn [Duration_from_day_time dur_year_month YearMonthDuration_default ymd_months]. lia. }
  split; [unfold Duration_wf; split_and!; try (split; discriminate); intros [H1 H2]; discriminate|].
  split_and!; [| |exact Hday|..].
  - intros m s d Hm Hs H. by eapply Duration_construct_wf; [| |exact H].
  - intros ym Hym. split; [done|]. split; [split; discriminate|]. cbn. lia.
  - intros v d H. unfold Duration_try_from_std, DayTimeDuration_try_from_std in H. peel H. subst d. apply Hday.
    peel Hs. subst x. unfold Decimal_new in *. repeat case_match; simplify_eq/=.
    match goal with E : checked_mul I128 _ _ = Some _ |- _ => by apply checked_mul_Some in E as [-> ?] end.
  - intros a b d H. unfold Duration_checked_add in H. peel H.
    destruct (Duration_construct x x0) eqn:E; simplify_eq/=.
    unfold YearMonthDuration_checked_add, DayTimeDuration_checked_add, Decimal_checked_add in *.
    peel Hs. peel Hs0. peel Hs2. apply checked_Some in Hs1 as [-> ?], Hs3 as [-> ?]. subst.
    by eapply Duration_construct_wf; [| |exact E].
  - intros a b d H. unfold Duration_checked_sub in H. peel H.
    destruct (Duration_construct x x0) eqn:E; simplify_eq/=.
    unfold YearMonthDuration_checked_sub, DayTimeDuration_checked_sub, Decimal_checked_sub in *.
    peel Hs. peel Hs0. peel Hs2. apply checked_Some in Hs1 as [-> ?], Hs3 as [-> ?]. subst.
    by eapply Duration_construct_wf; [| |exact E].
  - intros a d (Hym & Hss & H1 & H2) H. unfold Duration_checked_neg in H. peel H.
    unfold YearMonthDuration_checked_neg, DayTimeDuration_checked_neg, Decimal_checked_neg in *.
    peel Hs. peel Hs0. peel Hs2. apply checked_Some in Hs1 as [-> ?], Hs3 as [-> ?]. subst.
    split; [done|]. split; [done|]. simpl. lia.
  - apply Duration_from_str_wf.
  - intros d Hd. by rewrite Duration_from_to_be_bytes.
Qed.

Lemma Duration_operations_wf_witness :
  Duration_wf (mkDuration (mkYearMonthDuration (-14)) (mkDayTimeDuration (Decimal_from_int (-60)))).
Proof.
  apply (proj1 (proj2 (proj2 (proj2 (proj2 (proj2 (proj2 (proj2 (proj2 Duration_operations_wf)))))))) (str "-P1Y2MT1M")).
  vm_compute. reflexivity.
Defined.

(** ** std::time::Duration *)

Lemma nanos_scaled (n : Z) :
  0 <= n < 1000000000 ->
  Decimal_checked_mul (mkDecimal (n * 1000000000)) (Decimal_from_int 1000000000)
  = Some (Decimal_from_int n).
Proof.
  intros Hn. destruct (decide (n = 0)) as [->|]; [reflexivity|].
  apply Decimal_checked_mul_complete with 0 18; unfold Decimal_from_int, Decimal_wf; simpl;
    try done; unfold DECIMAL_PART_POW; try int_bounds; try lia.
  - apply Z.divide_1_l.
  - by exists 1000000000.
Qed.

Lemma floor_parts (secs rest : Z) :
  0 <= secs <= int_max U64 -> 0 <= rest < DECIMAL_PART_POW ->
  Decimal_checked_floor (mkDecimal (secs * DECIMAL_PART_POW + rest)) = Some (Decimal_from_int secs).
Proof.
  intros Hs Hr. unfold Decimal_checked_floor, checked_mul, Decimal_from_int. simpl Decimal_value.
  rewrite Z.geb_leb, (proj2 (Z.leb_le 0 _)) by (unfold DECIMAL_PART_POW in *; lia). simpl orb. cbv iota.
  assert (Z.quot (secs * DECIMAL_PART_POW + rest) DECIMAL_PART_POW = secs) as ->.
  { rewrite Z.quot_div_nonneg by (unfold DECIMAL_PART_POW in *; lia).
    rewrite Z.div_add_l, Z.div_small by (done || lia). lia. }
  by rewrite checked_in by (unfold DECIMAL_PART_POW in *; int_bounds).
Qed.

(** Every [std::time::Duration] converts to a dayTimeDuration without
    overflow, and converting that back gives it again, to the nanosecond. *)
Theorem StdDuration_round_trip (v : StdDuration) :
  in_int U64 (std_secs v) -> 0 <= std_nanos v < 1000000000 ->
  exists d, DayTimeDuration_try_from_std v = Ok d /\ StdDuration_try_from_day_time d = Ok v.
Proof.
  destruct v as [secs n]. cbn [std_secs std_nanos]. intros Hs Hn.
  unfold DayTimeDuration_try_from_std. cbn [std_secs std_nanos].
  rewrite checked_in by int_bounds. cbn [ok_or mbind result_bind]. unfold Decimal_new.
  change (checked_sub U32 DECIMAL_PART_DIGITS 9) with (Some 9). cbv iota. unfold checked_mul.
  change (10 ^ 9) with 1000000000. rewrite checked_in by int_bounds.
  cbn [map_err mbind result_bind]. eexists. split; [reflexivity|].
  unfold StdDuration_try_from_day_time, Decimal_is_negative. cbn [dtd_seconds].
  replace ((secs * 1000000000 + n) * 1000000000) with (secs * DECIMAL_PART_POW + n * 1000000000)
    by (unfold DECIMAL_PART_POW; lia).
  simpl Decimal_value. rewrite (proj2 (Z.ltb_ge _ 0)) by (unfold DECIMAL_PART_POW; int_bounds).
  rewrite floor_parts by (unfold DECIMAL_PART_POW; int_bounds). cbn [ok_or mbind result_bind].
  unfold Decimal_checked_sub, checked_sub, Decimal_from_int. simpl Decimal_value.
  replace (secs * DECIMAL_PART_POW + n * 1000000000 - secs * DECIMAL_PART_POW)
    with (n * 1000000000) by lia.
  rewrite (checked_in I128 (n * 1000000000)) by int_bounds. cbn [fmap option_fmap option_map ok_or mbind result_bind].
  fold (Decimal_from_int 1000000000). rewrite nanos_scaled by done. cbn [ok_or mbind result_bind].
  unfold Decimal_from_int. rewrite <- (Z.add_0_r (n * DECIMAL_PART_POW)).
  rewrite floor_parts by (done || int_bounds). cbn [ok_or mbind result_bind].
  unfold Decimal_as_i128, Decimal_from_int. simpl Decimal_value. rewrite !Z.quot_mul by done.
  rewrite (checked_in U64 secs) by done. cbn [ok_or mbind result_bind].
  rewrite (checked_in U32 n) by int_bounds. cbn [ok_or mbind result_bind].
  rewrite Z.div_small, Z.mod_small, Z.add_0_r by lia. done.
Qed.

Lemma StdDuration_round_trip_witness :
  exists d, DayTimeDuration_try_from_std (mkStdDuration (int_max U64) 999999999) = Ok d /\
    StdDuration_try_from_day_time d = Ok (mkStdDuration (int_max U64) 999999999).
Proof.
  apply (StdDuration_round_trip (mkStdDuration (int_max U64) 999999999));
    split; discriminate || reflexivity.
Defined.
