(* ===== verification/XsdDateTime.v ===== *)
(** * xsd:dateTime and the seven other date/time types

    lib/oxsdatatypes/src/date_time.rs: every type is a [Timestamp], a [Decimal]
    number of seconds on the proleptic Gregorian timeline (in UTC when there is a
    timezone) and an optional timezone offset in minutes.  The partial orders of
    duration.rs that compare durations by adding them to dates are here too.

    Arithmetic the source leaves unchecked wraps, as in its release profile.
    [option] results of the casts model [expect]: [None] is a panic. *)
From S2P Require Import Prelude MachineInt RustStr XsdDecimal XsdDuration.

(** ** Data *)

Record TimezoneOffset : Set := mkTimezoneOffset { tz_offset : Z }.

Record InvalidTimezoneError : Set := mkInvalidTimezoneError { offset_in_minutes : Z }.
Inductive DateTimeOverflowError : Set := DateTimeOverflow.

Record DateTimeSevenPropertyModel : Set := mkProps {
  props_year : option Z;
  props_month : option Z;
  props_day : option Z;
  props_hour : option Z;
  props_minute : option Z;
  props_second : option Decimal;
  props_timezone_offset : option TimezoneOffset
}.

Record Timestamp : Set := mkTimestamp {
  ts_value : Decimal;
  ts_timezone_offset : option TimezoneOffset
}.

Record DateTime : Set := mkDateTime { DateTime_timestamp : Timestamp }.
Record Time : Set := mkTime { Time_timestamp : Timestamp }.
Record Date : Set := mkDate { Date_timestamp : Timestamp }.
Record GYearMonth : Set := mkGYearMonth { GYearMonth_timestamp : Timestamp }.
Record GYear : Set := mkGYear { GYear_timestamp : Timestamp }.
Record GMonthDay : Set := mkGMonthDay { GMonthDay_timestamp : Timestamp }.
Record GMonth : Set := mkGMonth { GMonth_timestamp : Timestamp }.
Record GDay : Set := mkGDay { GDay_timestamp : Timestamp }.

Inductive ParseDateTimeErrorKind : Set :=
| InvalidDayOfMonth (day month : Z)
| DateTimeErrorOverflow (e : DateTimeOverflowError)
| InvalidTimezone (e : InvalidTimezoneError)
| Message (msg : string).

#[global] Instance TimezoneOffset_eq_dec : EqDecision TimezoneOffset.
Proof. solve_decision. Defined.
#[global] Instance Decimal_eq_dec : EqDecision Decimal.
Proof. solve_decision. Defined.
#[global] Instance Timestamp_eq_dec : EqDecision Timestamp.
Proof. solve_decision. Defined.

(** ** The calendar *)

Definition days_in_month (y : option Z) (m : Z) : Z :=
  if m =? 2 then
    match y with
    | Some y =>
        if negb (Z.rem y 4 =? 0) || ((Z.rem y 100 =? 0) && negb (Z.rem y 400 =? 0)) then 28 else 29
    | None => 28
    end
  else if (m =? 4) || (m =? 6) || (m =? 9) || (m =? 11) then 30
  else 31.

Definition normalize_month (yr mo : Z) : option (Z * Z) :=
  if mo >=? 0 then
    mo' ← checked_sub I64 mo 1;
    q ← checked_div I64 mo' 12;
    yr ← checked_add I64 yr q;
    r ← checked_rem I64 mo' 12;
    r ← checked_add I64 (Z.abs r) 1;
    mo ← checked U8 r;
    Some (yr, mo)
  else
    mo' ← checked_sub I64 mo 1;
    q ← checked_div I64 mo' 12;
    q ← checked_sub I64 q 1;
    yr ← checked_add I64 yr q;
    r ← checked_rem I64 mo' 12;
    r ← checked_add I64 12 r;
    r ← checked_add I64 r 1;
    mo ← checked U8 r;
    Some (yr, mo).

(** One round of the [loop] of [normalize_day]: the next [(yr, mo, da)] or the
    value the function returns. *)
Definition normalize_day_round (st : Z * Z * Z)
  : (Z * Z * Z) + option (Z * Z * Z) :=
  let '(yr, mo, da) := st in
  if da <=? 0 then
    match
      mo' ← checked_sub I64 mo 1;
      '(yr, mo) ← normalize_month yr mo';
      da ← checked_add I64 da (days_in_month (Some yr) mo);
      Some (yr, mo, da)
    with Some st => inl st | None => inr None end
  else if da >? days_in_month (Some yr) mo then
    match
      da ← checked_sub I64 da (days_in_month (Some yr) mo);
      mo' ← checked_add I64 mo 1;
      '(yr, mo) ← normalize_month yr mo';
      Some (yr, mo, da)
    with Some st => inl st | None => inr None end
  else inr (da ← checked U8 da; Some (yr, mo, da)).

(** At most 2^64 rounds, more than there are values of [da]: the bound is never
    reached (theorem [normalize_day_terminates]). *)
Definition normalize_day_depth : nat := 64.

Definition normalize_day (yr mo da : Z) : option (Z * Z * Z) :=
  '(yr, mo) ← normalize_month yr mo;
  match bounded_loop normalize_day_depth normalize_day_round (yr, mo, da) with
  | inr r => r
  | inl _ => None
  end.

Definition normalize_minute (yr mo da hr mi : Z) : option (Z * Z * Z * Z * Z) :=
  q ← checked_div I64 mi 60;
  hr ← checked_add I64 hr q;
  mi ← checked_rem I64 mi 60;
  q ← checked_div I64 hr 24;
  da ← checked_add I64 da q;
  hr ← checked_rem I64 hr 24;
  '(yr, mo, da) ← normalize_day yr mo da;
  hr ← checked U8 hr;
  mi ← checked U8 mi;
  Some (yr, mo, da, hr, mi).

Definition normalize_second (yr mo da hr mi : Z) (se : Decimal)
  : option (Z * Z * Z * Z * Z * Decimal) :=
  q ← checked_div I128 (Decimal_as_i128 se) 60;
  q ← checked I64 q;
  mi ← checked_add I64 mi q;
  se ← Decimal_checked_rem se (Decimal_from_int 60);
  '(yr, mo, da, hr, mi) ← normalize_minute yr mo da hr mi;
  Some (yr, mo, da, hr, mi, se).

Definition date_time_plus_duration (du : Duration) (dt : DateTimeSevenPropertyModel)
  : option DateTimeSevenPropertyModel :=
  let yr := default 1 (props_year dt) in
  let mo := default 1 (props_month dt) in
  let da := default 1 (props_day dt) in
  let hr := default 0 (props_hour dt) in
  let mi := default 0 (props_minute dt) in
  let se := default Decimal_default (props_second dt) in
  mo ← checked_add I64 mo (Duration_all_months du);
  '(yr, mo) ← normalize_month yr mo;
  let da := Z.min da (days_in_month (Some yr) mo) in
  se ← Decimal_checked_add se (Duration_all_seconds du);
  '(yr, mo, da, hr, mi, se) ← normalize_second yr mo da hr mi se;
  Some (mkProps ((fun _ => yr) <$> props_year dt) ((fun _ => mo) <$> props_month dt)
          ((fun _ => da) <$> props_day dt) ((fun _ => hr) <$> props_hour dt)
          ((fun _ => mi) <$> props_minute dt) ((fun _ => se) <$> props_second dt)
          (props_timezone_offset dt)).

Definition TimezoneOffset_UTC : TimezoneOffset := mkTimezoneOffset 0.

(** [(1..mo).map(|m| days_in_month(Some(y), m)).sum()] *)
Definition days_before_month (y mo : Z) : Z :=
  foldr Z.add 0 ((fun m => days_in_month (Some y) m) <$> seqZ 1 (mo - 1)).

(** The whole seconds of a date before the seconds are added. *)
Definition timeline_seconds (props : DateTimeSevenPropertyModel) : Z :=
  let yr := match props_year props with Some y => wrap I64 (y - 1) | None => 1971 end in
  let mo := default 12 (props_month props) in
  let da := match props_day props with
            | Some d => wrap U8 (d - 1)
            | None => wrap U8 (days_in_month (Some (wrap I64 (yr + 1))) mo - 1)
            end in
  let hr := default 0 (props_hour props) in
  let mi := default 0 (props_minute props)
            - tz_offset (default TimezoneOffset_UTC (props_timezone_offset props)) in
  31536000 * yr + 86400 * wrap I64 (yr / 400 - yr / 100 + yr / 4)
  + 86400 * days_before_month (wrap I64 (yr + 1)) mo
  + 86400 * da + 3600 * hr + 60 * mi.

Definition time_on_timeline (props : DateTimeSevenPropertyModel) : option Decimal :=
  let se := default Decimal_default (props_second props) in
  d ← ok (Decimal_try_from_i128 (timeline_seconds props));
  Decimal_checked_add d se.

(** ** TimezoneOffset *)

Definition TimezoneOffset_MAX : TimezoneOffset := mkTimezoneOffset (14 * 60).
Definition TimezoneOffset_MIN : TimezoneOffset := mkTimezoneOffset (-14 * 60).

Definition TimezoneOffset_new (offset_in_minutes : Z)
  : result InvalidTimezoneError TimezoneOffset :=
  let value := mkTimezoneOffset offset_in_minutes in
  if (tz_offset TimezoneOffset_MIN <=? tz_offset value)
     && (tz_offset value <=? tz_offset TimezoneOffset_MAX)
  then Ok value
  else Err (mkInvalidTimezoneError offset_in_minutes).

Definition TimezoneOffset_from_be_bytes (bs : bytes) : TimezoneOffset :=
  mkTimezoneOffset (from_be_bytes I16 bs).
Definition TimezoneOffset_to_be_bytes (a : TimezoneOffset) : bytes :=
  to_be_bytes I16 (tz_offset a).

Definition DayTimeDuration_from_timezone (value : TimezoneOffset) : DayTimeDuration :=
  DayTimeDuration_new (Decimal_from_int (tz_offset value * 60)).
Definition Duration_from_timezone (value : TimezoneOffset) : Duration :=
  Duration_from_day_time (DayTimeDuration_from_timezone value).

Definition TimezoneOffset_try_from_day_time (value : DayTimeDuration)
  : result InvalidTimezoneError TimezoneOffset :=
  let offset := wrap I64 (DayTimeDuration_minutes value + DayTimeDuration_hours value * 60) in
  o ← ok_or (mkInvalidTimezoneError offset) (checked I16 offset);
  r ← TimezoneOffset_new o;
  if bool_decide (DayTimeDuration_from_timezone r = value) then Ok r
  else Err (mkInvalidTimezoneError offset).
Definition TimezoneOffset_try_from_duration (value : Duration)
  : result InvalidTimezoneError TimezoneOffset :=
  d ← map_err (fun _ => mkInvalidTimezoneError 0) (DayTimeDuration_try_from_duration value);
  TimezoneOffset_try_from_day_time d.

Definition TimezoneOffset_to_string (a : TimezoneOffset) : bytes :=
  let offset := tz_offset a in
  if offset =? 0 then str "Z"
  else if offset <? 0 then
    str "-" ++ print_padded 2 (Z.quot (- offset) 60) ++ str ":" ++ print_padded 2 (Z.rem (- offset) 60)
  else str "+" ++ print_padded 2 (Z.quot offset 60) ++ str ":" ++ print_padded 2 (Z.rem offset 60).

(** ** Timestamp *)

Definition Timestamp_eq (a b : Timestamp) : bool :=
  match ts_timezone_offset a, ts_timezone_offset b with
  | Some _, Some _ | None, None => Decimal_eqb (ts_value a) (ts_value b)
  | _, _ => false
  end.

(** The comparison of [plus_result] with [minus_result]. *)
Definition agree (p m : option comparison) : option comparison :=
  if bool_decide (p = m) then p else None.

Definition Timestamp_partial_cmp (a b : Timestamp) : option comparison :=
  match ts_timezone_offset a, ts_timezone_offset b with
  | Some _, Some _ | None, None => Some (Decimal_cmp (ts_value a) (ts_value b))
  | Some _, None =>
      p ← Decimal_checked_add (ts_value b) (Decimal_from_int (14 * 3600));
      m ← Decimal_checked_sub (ts_value b) (Decimal_from_int (14 * 3600));
      agree (Some (Decimal_cmp (ts_value a) p)) (Some (Decimal_cmp (ts_value a) m))
  | None, Some _ =>
      p ← Decimal_checked_add (ts_value a) (Decimal_from_int (14 * 3600));
      m ← Decimal_checked_sub (ts_value a) (Decimal_from_int (14 * 3600));
      agree (Some (Decimal_cmp p (ts_value b))) (Some (Decimal_cmp m (ts_value b)))
  end.

Definition Timestamp_MAX : Timestamp := mkTimestamp Decimal_MAX (Some TimezoneOffset_MAX).
Definition Timestamp_MIN : Timestamp := mkTimestamp Decimal_MIN (Some TimezoneOffset_MIN).

Definition Timestamp_new (props : DateTimeSevenPropertyModel)
  : result DateTimeOverflowError Timestamp :=
  value ← ok_or DateTimeOverflow (time_on_timeline props);
  Ok (mkTimestamp value (props_timezone_offset props)).

(** The clock, [since_unix_epoch()], is an argument; [None] is a panic. *)
Definition Timestamp_now (since_unix_epoch : Duration) : option Timestamp :=
  props ← date_time_plus_duration since_unix_epoch
    (mkProps (Some 1970) (Some 1) (Some 1) (Some 0) (Some 0) (Some Decimal_default)
       (Some TimezoneOffset_UTC));
  ok (Timestamp_new props).

Definition NO_TIMEZONE : bytes := [byte_of_Z 255; byte_of_Z 255].

Definition Timestamp_from_be_bytes (bs : bytes) : Timestamp :=
  mkTimestamp (Decimal_from_be_bytes (take 16 bs))
    (if bool_decide (take 2 (drop 16 bs) = NO_TIMEZONE) then None
     else Some (TimezoneOffset_from_be_bytes (take 2 (drop 16 bs)))).

(** The whole seconds in the timezone of the timestamp. *)
Definition local_seconds (t : Timestamp) : Z :=
  Decimal_as_i128 (ts_value t) + tz_offset (default TimezoneOffset_UTC (ts_timezone_offset t)) * 60.

(** [for month_i in 1..=12]: the month and the days left, month 0 when no month is found. *)
Fixpoint find_month (fuel : nat) (year month_i days : Z) : Z * Z :=
  match fuel with
  | O => (0, days)
  | S fuel =>
      if days_in_month (Some year) month_i >? days then (month_i, days)
      else find_month fuel year (month_i + 1) (days - days_in_month (Some year) month_i)
  end.

(** The year, and the days since its first one, of a number of days since 0000-01-01. *)
Definition split_year (days : Z) : Z * Z :=
  let '(shift, days) :=
    if days <? 0 then
      let shift := Z.quot days 146097 - 1 in (shift * 400, days - shift * 146097)
    else (0, days) in
  let year_mul_400 := Z.quot days 146097 in
  let days := days - year_mul_400 * 146097 in
  let days := days - 1 in
  let year_mul_100 := Z.quot days 36524 in
  let days := days - year_mul_100 * 36524 in
  let days := days + 1 in
  let year_mul_4 := Z.quot days 1461 in
  let days := days - year_mul_4 * 1461 in
  let days := days - 1 in
  let year_mod_4 := Z.quot days 365 in
  let days := days - year_mod_4 * 365 in
  let year := wrap I64 (400 * year_mul_400 + 100 * year_mul_100 + 4 * year_mul_4
                        + year_mod_4 + shift) in
  let is_leap_year := ((year_mul_100 =? 0) || negb (year_mul_4 =? 0)) && (year_mod_4 =? 0) in
  (year, days + Z.b2z is_leap_year).

Definition Timestamp_year_month_day (t : Timestamp) : Z * Z * Z :=
  let '(year, days) := split_year (local_seconds t / 86400 + 366) in
  let '(month, days) := find_month 12 year 1 days in
  (year, month, wrap U8 (wrap U8 days + 1)).

Definition Timestamp_year (t : Timestamp) : Z :=
  let '(year, _, _) := Timestamp_year_month_day t in year.
Definition Timestamp_month (t : Timestamp) : Z :=
  let '(_, month, _) := Timestamp_year_month_day t in month.
Definition Timestamp_day (t : Timestamp) : Z :=
  let '(_, _, day) := Timestamp_year_month_day t in day.
Definition Timestamp_hour (t : Timestamp) : Z :=
  wrap U8 (Z.quot (rem_euclid (local_seconds t) 86400) 3600).
Definition Timestamp_minute (t : Timestamp) : Z :=
  wrap U8 (Z.quot (rem_euclid (local_seconds t) 3600) 60).
(** Neither [unwrap] panics (lemma [Timestamp_second_value]). *)
Definition Timestamp_second (t : Timestamp) : Decimal :=
  default Decimal_default
    (r ← Decimal_checked_rem_euclid (ts_value t) (Decimal_from_int 60);
     Decimal_checked_abs r).
Definition Timestamp_timezone_offset (t : Timestamp) : option TimezoneOffset :=
  ts_timezone_offset t.

Definition Timestamp_checked_add_seconds (t : Timestamp) (seconds : Decimal) : option Timestamp :=
  v ← Decimal_checked_add (ts_value t) seconds; Some (mkTimestamp v (ts_timezone_offset t)).
Definition Timestamp_checked_sub (a b : Timestamp) : option DayTimeDuration :=
  match ts_timezone_offset a, ts_timezone_offset b with
  | Some _, Some _ | None, None =>
      d ← Decimal_checked_sub (ts_value a) (ts_value b); Some (DayTimeDuration_new d)
  | _, _ => None
  end.
Definition Timestamp_checked_sub_seconds (t : Timestamp) (seconds : Decimal) : option Timestamp :=
  v ← Decimal_checked_sub (ts_value t) seconds; Some (mkTimestamp v (ts_timezone_offset t)).

Definition Timestamp_adjust (t : Timestamp) (timezone_offset : option TimezoneOffset)
  : option Timestamp :=
  match ts_timezone_offset t with
  | Some from_timezone =>
      match timezone_offset with
      | Some to_timezone => Some (mkTimestamp (ts_value t) (Some to_timezone))
      | None =>
          v ← Decimal_checked_add (ts_value t) (Decimal_from_int (tz_offset from_timezone * 60));
          Some (mkTimestamp v None)
      end
  | None =>
      match timezone_offset with
      | Some to_timezone =>
          v ← Decimal_checked_sub (ts_value t) (Decimal_from_int (tz_offset to_timezone * 60));
          Some (mkTimestamp v (Some to_timezone))
      | None => Some (mkTimestamp (ts_value t) None)
      end
  end.

Definition Timestamp_to_be_bytes (t : Timestamp) : bytes :=
  Decimal_to_be_bytes (ts_value t) ++
  match ts_timezone_offset t with
  | Some timezone_offset => TimezoneOffset_to_be_bytes timezone_offset
  | None => NO_TIMEZONE
  end.

Definition Timestamp_is_identical_with (a b : Timestamp) : bool :=
  Decimal_eqb (ts_value a) (ts_value b)
  && bool_decide (ts_timezone_offset a = ts_timezone_offset b).

(** ** DateTime *)

Definition DateTime_MAX : DateTime := mkDateTime Timestamp_MAX.
Definition DateTime_MIN : DateTime := mkDateTime Timestamp_MIN.

Definition DateTime_new (year month day hour minute : Z) (second : Decimal) (timezone_offset : option TimezoneOffset)
  : result DateTimeOverflowError DateTime :=
  t ← Timestamp_new (mkProps (Some year) (Some month) (Some day) (Some hour) (Some minute) (Some second) timezone_offset);
  Ok (mkDateTime t).
Definition DateTime_from_be_bytes (bs : bytes) : DateTime := mkDateTime (Timestamp_from_be_bytes bs).
Definition DateTime_year (a : DateTime) : Z := Timestamp_year (DateTime_timestamp a).
Definition DateTime_month (a : DateTime) : Z := Timestamp_month (DateTime_timestamp a).
Definition DateTime_day (a : DateTime) : Z := Timestamp_day (DateTime_timestamp a).
Definition DateTime_hour (a : DateTime) : Z := Timestamp_hour (DateTime_timestamp a).
Definition DateTime_minute (a : DateTime) : Z := Timestamp_minute (DateTime_timestamp a).
Definition DateTime_second (a : DateTime) : Decimal := Timestamp_second (DateTime_timestamp a).
Definition DateTime_timezone_offset (a : DateTime) : option TimezoneOffset :=
  Timestamp_timezone_offset (DateTime_timestamp a).
Definition DateTime_timezone (a : DateTime) : option DayTimeDuration :=
  DayTimeDuration_from_timezone <$> DateTime_timezone_offset a.
Definition DateTime_to_be_bytes (a : DateTime) : bytes := Timestamp_to_be_bytes (DateTime_timestamp a).
Definition DateTime_is_identical_with (a b : DateTime) : bool :=
  Timestamp_is_identical_with (DateTime_timestamp a) (DateTime_timestamp b).
Definition DateTime_adjust (a : DateTime) (timezone_offset : option TimezoneOffset) : option DateTime :=
  t ← Timestamp_adjust (DateTime_timestamp a) timezone_offset; Some (mkDateTime t).
(** The derived [PartialOrd] compares the only field. *)
Definition DateTime_partial_cmp (a b : DateTime) : option comparison :=
  Timestamp_partial_cmp (DateTime_timestamp a) (DateTime_timestamp b).
Definition DateTime_now (since_unix_epoch : Duration) : option DateTime :=
  mkDateTime <$> Timestamp_now since_unix_epoch.
Definition DateTime_properties (a : DateTime) : DateTimeSevenPropertyModel :=
  mkProps (Some (DateTime_year a)) (Some (DateTime_month a)) (Some (DateTime_day a))
    (Some (DateTime_hour a)) (Some (DateTime_minute a)) (Some (DateTime_second a))
    (DateTime_timezone_offset a).
Definition DateTime_checked_sub (a b : DateTime) : option DayTimeDuration :=
  Timestamp_checked_sub (DateTime_timestamp a) (DateTime_timestamp b).
Definition DateTime_checked_add_day_time_duration (a : DateTime) (rhs : Duration)
  : option DateTime :=
  t ← Timestamp_checked_add_seconds (DateTime_timestamp a) (Duration_all_seconds rhs);
  Some (mkDateTime t).
Definition DateTime_checked_add_duration (a : DateTime) (rhs : Duration) : option DateTime :=
  match DayTimeDuration_try_from_duration rhs with
  | Ok rhs => DateTime_checked_add_day_time_duration a (Duration_from_day_time rhs)
  | Err _ =>
      props ← date_time_plus_duration rhs (DateTime_properties a);
      t ← ok (Timestamp_new props);
      Some (mkDateTime t)
  end.
Definition DateTime_checked_add_year_month_duration (a : DateTime) (rhs : YearMonthDuration)
  : option DateTime := DateTime_checked_add_duration a (Duration_from_year_month rhs).
Definition DateTime_checked_sub_day_time_duration (a : DateTime) (rhs : DayTimeDuration)
  : option DateTime :=
  t ← Timestamp_checked_sub_seconds (DateTime_timestamp a) (DayTimeDuration_as_seconds rhs);
  Some (mkDateTime t).
Definition DateTime_checked_sub_duration (a : DateTime) (rhs : Duration) : option DateTime :=
  match DayTimeDuration_try_from_duration rhs with
  | Ok rhs => DateTime_checked_sub_day_time_duration a rhs
  | Err _ =>
      rhs ← Duration_checked_neg rhs;
      props ← date_time_plus_duration rhs (DateTime_properties a);
      t ← ok (Timestamp_new props);
      Some (mkDateTime t)
  end.
Definition DateTime_checked_sub_year_month_duration (a : DateTime) (rhs : YearMonthDuration)
  : option DateTime := DateTime_checked_sub_duration a (Duration_from_year_month rhs).

(** ** Time *)

Definition Time_MAX : Time :=
  mkTime (mkTimestamp (Decimal_new_from_i128_unchecked 62230255200)
    (Some TimezoneOffset_MIN)).
Definition Time_MIN : Time :=
  mkTime (mkTimestamp (Decimal_new_from_i128_unchecked 62230154400)
    (Some TimezoneOffset_MAX)).

Definition Time_new (hour minute : Z) (second : Decimal) (timezone_offset : option TimezoneOffset)
  : result DateTimeOverflowError Time :=
  let hour := if (hour =? 24) && (minute =? 0) && Decimal_eqb second Decimal_default
              then 0 else hour in
  t ← Timestamp_new (mkProps None None None (Some hour) (Some minute) (Some second) timezone_offset);
  Ok (mkTime t).
Definition Time_from_be_bytes (bs : bytes) : Time := mkTime (Timestamp_from_be_bytes bs).
Definition Time_hour (a : Time) : Z := Timestamp_hour (Time_timestamp a).
Definition Time_minute (a : Time) : Z := Timestamp_minute (Time_timestamp a).
Definition Time_second (a : Time) : Decimal := Timestamp_second (Time_timestamp a).
Definition Time_timezone_offset (a : Time) : option TimezoneOffset :=
  Timestamp_timezone_offset (Time_timestamp a).
Definition Time_timezone (a : Time) : option DayTimeDuration :=
  DayTimeDuration_from_timezone <$> Time_timezone_offset a.
Definition Time_to_be_bytes (a : Time) : bytes := Timestamp_to_be_bytes (Time_timestamp a).
Definition Time_is_identical_with (a b : Time) : bool :=
  Timestamp_is_identical_with (Time_timestamp a) (Time_timestamp b).
Definition Time_checked_sub (a b : Time) : option DayTimeDuration :=
  Timestamp_checked_sub (Time_timestamp a) (Time_timestamp b).
Definition Time_now (since_unix_epoch : Duration) : option Time :=
  mkTime <$> Timestamp_now since_unix_epoch.
(** [From<DateTime>]: [None] is the panic of [expect]. *)
Definition Time_from_date_time (d : DateTime) : option Time :=
  ok (Time_new (DateTime_hour d) (DateTime_minute d) (DateTime_second d)
        (DateTime_timezone_offset d)).
(** The time on 1972-12-31. *)
Definition Time_to_date_time (a : Time) : result DateTimeOverflowError DateTime :=
  DateTime_new 1972 12 31 (Time_hour a) (Time_minute a) (Time_second a) (Time_timezone_offset a).
Definition Time_checked_add_duration (a : Time) (rhs : Duration) : option Time :=
  d ← ok (Time_to_date_time a);
  d ← DateTime_checked_add_duration d rhs;
  Time_from_date_time d.
Definition Time_checked_add_day_time_duration (a : Time) (rhs : DayTimeDuration) : option Time :=
  Time_checked_add_duration a (Duration_from_day_time rhs).
Definition Time_checked_sub_duration (a : Time) (rhs : Duration) : option Time :=
  d ← ok (Time_to_date_time a);
  d ← DateTime_checked_sub_duration d rhs;
  Time_from_date_time d.
Definition Time_checked_sub_day_time_duration (a : Time) (rhs : DayTimeDuration) : option Time :=
  Time_checked_sub_duration a (Duration_from_day_time rhs).
Definition Time_adjust (a : Time) (timezone_offset : option TimezoneOffset) : option Time :=
  d ← ok (Time_to_date_time a);
  d ← DateTime_adjust d timezone_offset;
  Time_from_date_time d.

(** ** Date *)

Definition Date_MAX : Date :=
  mkDate (mkTimestamp (Decimal_new_from_i128_unchecked 170141183460469216800)
    (Some TimezoneOffset_MAX)).
Definition Date_MIN : Date :=
  mkDate (mkTimestamp (Decimal_new_from_i128_unchecked (-170141183460469216800))
    (Some TimezoneOffset_MIN)).

Definition Date_new (year month day : Z) (timezone_offset : option TimezoneOffset)
  : result DateTimeOverflowError Date :=
  t ← Timestamp_new (mkProps (Some year) (Some month) (Some day) None None None timezone_offset);
  Ok (mkDate t).
Definition Date_from_be_bytes (bs : bytes) : Date := mkDate (Timestamp_from_be_bytes bs).
Definition Date_year (a : Date) : Z := Timestamp_year (Date_timestamp a).
Definition Date_month (a : Date) : Z := Timestamp_month (Date_timestamp a).
Definition Date_day (a : Date) : Z := Timestamp_day (Date_timestamp a).
Definition Date_timezone_offset (a : Date) : option TimezoneOffset :=
  Timestamp_timezone_offset (Date_timestamp a).
Definition Date_timezone (a : Date) : option DayTimeDuration :=
  DayTimeDuration_from_timezone <$> Date_timezone_offset a.
Definition Date_to_be_bytes (a : Date) : bytes := Timestamp_to_be_bytes (Date_timestamp a).
Definition Date_is_identical_with (a b : Date) : bool :=
  Timestamp_is_identical_with (Date_timestamp a) (Date_timestamp b).
Definition DateTime_try_from_date (date : Date) : result DateTimeOverflowError DateTime :=
  DateTime_new (Date_year date) (Date_month date) (Date_day date) 0 0 Decimal_default
    (Date_timezone_offset date).
Definition Date_try_from_date_time (d : DateTime) : result DateTimeOverflowError Date :=
  Date_new (DateTime_year d) (DateTime_month d) (DateTime_day d) (DateTime_timezone_offset d).
Definition Date_now (since_unix_epoch : Duration) : option Date :=
  d ← DateTime_now since_unix_epoch; ok (Date_try_from_date_time d).
Definition Date_checked_sub (a b : Date) : option DayTimeDuration :=
  Timestamp_checked_sub (Date_timestamp a) (Date_timestamp b).
Definition Date_checked_add_duration (a : Date) (rhs : Duration) : option Date :=
  d ← ok (DateTime_try_from_date a);
  d ← DateTime_checked_add_duration d rhs;
  ok (Date_try_from_date_time d).
Definition Date_checked_add_year_month_duration (a : Date) (rhs : YearMonthDuration)
  : option Date := Date_checked_add_duration a (Duration_from_year_month rhs).
Definition Date_checked_add_day_time_duration (a : Date) (rhs : DayTimeDuration)
  : option Date := Date_checked_add_duration a (Duration_from_day_time rhs).
Definition Date_checked_sub_duration (a : Date) (rhs : Duration) : option Date :=
  d ← ok (DateTime_try_from_date a);
  d ← DateTime_checked_sub_duration d rhs;
  ok (Date_try_from_date_time d).
Definition Date_checked_sub_year_month_duration (a : Date) (rhs : YearMonthDuration)
  : option Date := Date_checked_sub_duration a (Duration_from_year_month rhs).
Definition Date_checked_sub_day_time_duration (a : Date) (rhs : DayTimeDuration)
  : option Date := Date_checked_sub_duration a (Duration_from_day_time rhs).
Definition Date_adjust (a : Date) (timezone_offset : option TimezoneOffset) : option Date :=
  d ← ok (DateTime_new (Date_year a) (Date_month a) (Date_day a) 0 0 Decimal_default
            (Date_timezone_offset a));
  d ← DateTime_adjust d timezone_offset;
  ok (Date_try_from_date_time d).

(** ** GYearMonth *)

Definition GYearMonth_MAX : GYearMonth :=
  mkGYearMonth (mkTimestamp (Decimal_new_from_i128_unchecked 170141183460469216800)
    (Some TimezoneOffset_MAX)).
Definition GYearMonth_MIN : GYearMonth :=
  mkGYearMonth (mkTimestamp (Decimal_new_from_i128_unchecked (-170141183460466970400))
    (Some TimezoneOffset_MIN)).

Definition GYearMonth_new (year month : Z) (timezone_offset : option TimezoneOffset)
  : result DateTimeOverflowError GYearMonth :=
  t ← Timestamp_new (mkProps (Some year) (Some month) None None None None timezone_offset);
  Ok (mkGYearMonth t).
Definition GYearMonth_from_be_bytes (bs : bytes) : GYearMonth := mkGYearMonth (Timestamp_from_be_bytes bs).
Definition GYearMonth_year (a : GYearMonth) : Z := Timestamp_year (GYearMonth_timestamp a).
Definition GYearMonth_month (a : GYearMonth) : Z := Timestamp_month (GYearMonth_timestamp a).
Definition GYearMonth_timezone_offset (a : GYearMonth) : option TimezoneOffset :=
  Timestamp_timezone_offset (GYearMonth_timestamp a).
Definition GYearMonth_timezone (a : GYearMonth) : option DayTimeDuration :=
  DayTimeDuration_from_timezone <$> GYearMonth_timezone_offset a.
Definition GYearMonth_to_be_bytes (a : GYearMonth) : bytes := Timestamp_to_be_bytes (GYearMonth_timestamp a).
Definition GYearMonth_is_identical_with (a b : GYearMonth) : bool :=
  Timestamp_is_identical_with (GYearMonth_timestamp a) (GYearMonth_timestamp b).
Definition GYearMonth_adjust (a : GYearMonth) (timezone_offset : option TimezoneOffset) : option GYearMonth :=
  t ← Timestamp_adjust (GYearMonth_timestamp a) timezone_offset; Some (mkGYearMonth t).
Definition GYearMonth_try_from_date_time (a : DateTime) : result DateTimeOverflowError GYearMonth :=
  GYearMonth_new (DateTime_year a) (DateTime_month a) (DateTime_timezone_offset a).
Definition GYearMonth_from_date (a : Date) : option GYearMonth :=
  ok (GYearMonth_new (Date_year a) (Date_month a) (Date_timezone_offset a)).

(** ** GYear *)

Definition GYear_MAX : GYear :=
  mkGYear (mkTimestamp (Decimal_new_from_i128_unchecked 170141183460461440800)
    (Some TimezoneOffset_MAX)).
Definition GYear_MIN : GYear :=
  mkGYear (mkTimestamp (Decimal_new_from_i128_unchecked (-170141183460461700000))
    (Some TimezoneOffset_MIN)).

Definition GYear_new (year : Z) (timezone_offset : option TimezoneOffset)
  : result DateTimeOverflowError GYear :=
  t ← Timestamp_new (mkProps (Some year) None None None None None timezone_offset);
  Ok (mkGYear t).
Definition GYear_from_be_bytes (bs : bytes) : GYear := mkGYear (Timestamp_from_be_bytes bs).
Definition GYear_year (a : GYear) : Z := Timestamp_year (GYear_timestamp a).
Definition GYear_timezone_offset (a : GYear) : option TimezoneOffset :=
  Timestamp_timezone_offset (GYear_timestamp a).
Definition GYear_timezone (a : GYear) : option DayTimeDuration :=
  DayTimeDuration_from_timezone <$> GYear_timezone_offset a.
Definition GYear_to_be_bytes (a : GYear) : bytes := Timestamp_to_be_bytes (GYear_timestamp a).
Definition GYear_is_identical_with (a b : GYear) : bool :=
  Timestamp_is_identical_with (GYear_timestamp a) (GYear_timestamp b).
Definition GYear_adjust (a : GYear) (timezone_offset : option TimezoneOffset) : option GYear :=
  t ← Timestamp_adjust (GYear_timestamp a) timezone_offset; Some (mkGYear t).
Definition GYear_try_from_date_time (a : DateTime) : result DateTimeOverflowError GYear :=
  GYear_new (DateTime_year a) (DateTime_timezone_offset a).
Definition GYear_try_from_date (a : Date) : result DateTimeOverflowError GYear :=
  GYear_new (Date_year a) (Date_timezone_offset a).
Definition GYear_try_from_g_year_month (a : GYearMonth) : result DateTimeOverflowError GYear :=
  GYear_new (GYearMonth_year a) (GYearMonth_timezone_offset a).

(** ** GMonthDay *)


Definition GMonthDay_new (month day : Z) (timezone_offset : option TimezoneOffset)
  : result DateTimeOverflowError GMonthDay :=
  t ← Timestamp_new (mkProps None (Some month) (Some day) None None None timezone_offset);
  Ok (mkGMonthDay t).
Definition GMonthDay_from_be_bytes (bs : bytes) : GMonthDay := mkGMonthDay (Timestamp_from_be_bytes bs).
Definition GMonthDay_month (a : GMonthDay) : Z := Timestamp_month (GMonthDay_timestamp a).
Definition GMonthDay_day (a : GMonthDay) : Z := Timestamp_day (GMonthDay_timestamp a).
Definition GMonthDay_timezone_offset (a : GMonthDay) : option TimezoneOffset :=
  Timestamp_timezone_offset (GMonthDay_timestamp a).
Definition GMonthDay_timezone (a : GMonthDay) : option DayTimeDuration :=
  DayTimeDuration_from_timezone <$> GMonthDay_timezone_offset a.
Definition GMonthDay_to_be_bytes (a : GMonthDay) : bytes := Timestamp_to_be_bytes (GMonthDay_timestamp a).
Definition GMonthDay_is_identical_with (a b : GMonthDay) : bool :=
  Timestamp_is_identical_with (GMonthDay_timestamp a) (GMonthDay_timestamp b).
Definition GMonthDay_adjust (a : GMonthDay) (timezone_offset : option TimezoneOffset) : option GMonthDay :=
  t ← Timestamp_adjust (GMonthDay_timestamp a) timezone_offset; Some (mkGMonthDay t).
Definition GMonthDay_from_date_time (a : DateTime) : option GMonthDay :=
  ok (GMonthDay_new (DateTime_month a) (DateTime_day a) (DateTime_timezone_offset a)).
Definition GMonthDay_from_date (a : Date) : option GMonthDay :=
  ok (GMonthDay_new (Date_month a) (Date_day a) (Date_timezone_offset a)).

(** ** GMonth *)


Definition GMonth_new (month : Z) (timezone_offset : option TimezoneOffset)
  : result DateTimeOverflowError GMonth :=
  t ← Timestamp_new (mkProps None (Some month) None None None None timezone_offset);
  Ok (mkGMonth t).
Definition GMonth_from_be_bytes (bs : bytes) : GMonth := mkGMonth (Timestamp_from_be_bytes bs).
Definition GMonth_month (a : GMonth) : Z := Timestamp_month (GMonth_timestamp a).
Definition GMonth_timezone_offset (a : GMonth) : option TimezoneOffset :=
  Timestamp_timezone_offset (GMonth_timestamp a).
Definition GMonth_timezone (a : GMonth) : option DayTimeDuration :=
  DayTimeDuration_from_timezone <$> GMonth_timezone_offset a.
Definition GMonth_to_be_bytes (a : GMonth) : bytes := Timestamp_to_be_bytes (GMonth_timestamp a).
Definition GMonth_is_identical_with (a b : GMonth) : bool :=
  Timestamp_is_identical_with (GMonth_timestamp a) (GMonth_timestamp b).
Definition GMonth_adjust (a : GMonth) (timezone_offset : option TimezoneOffset) : option GMonth :=
  t ← Timestamp_adjust (GMonth_timestamp a) timezone_offset; Some (mkGMonth t).
Definition GMonth_from_date_time (a : DateTime) : option GMonth :=
  ok (GMonth_new (DateTime_month a) (DateTime_timezone_offset a)).
Definition GMonth_from_date (a : Date) : option GMonth :=
  ok (GMonth_new (Date_month a) (Date_timezone_offset a)).
Definition GMonth_from_g_year_month (a : GYearMonth) : option GMonth :=
  ok (GMonth_new (GYearMonth_month a) (GYearMonth_timezone_offset a)).
Definition GMonth_from_g_month_day (a : GMonthDay) : option GMonth :=
  ok (GMonth_new (GMonthDay_month a) (GMonthDay_timezone_offset a)).

(** ** GDay *)


Definition GDay_new (day : Z) (timezone_offset : option TimezoneOffset)
  : result DateTimeOverflowError GDay :=
  t ← Timestamp_new (mkProps None None (Some day) None None None timezone_offset);
  Ok (mkGDay t).
Definition GDay_from_be_bytes (bs : bytes) : GDay := mkGDay (Timestamp_from_be_bytes bs).
Definition GDay_day (a : GDay) : Z := Timestamp_day (GDay_timestamp a).
Definition GDay_timezone_offset (a : GDay) : option TimezoneOffset :=
  Timestamp_timezone_offset (GDay_timestamp a).
Definition GDay_timezone (a : GDay) : option DayTimeDuration :=
  DayTimeDuration_from_timezone <$> GDay_timezone_offset a.
Definition GDay_to_be_bytes (a : GDay) : bytes := Timestamp_to_be_bytes (GDay_timestamp a).
Definition GDay_is_identical_with (a b : GDay) : bool :=
  Timestamp_is_identical_with (GDay_timestamp a) (GDay_timestamp b).
Definition GDay_adjust (a : GDay) (timezone_offset : option TimezoneOffset) : option GDay :=
  t ← Timestamp_adjust (GDay_timestamp a) timezone_offset; Some (mkGDay t).
Definition GDay_from_date_time (a : DateTime) : option GDay :=
  ok (GDay_new (DateTime_day a) (DateTime_timezone_offset a)).
Definition GDay_from_date (a : Date) : option GDay :=
  ok (GDay_new (Date_day a) (Date_timezone_offset a)).
Definition GDay_from_g_month_day (a : GMonthDay) : option GDay :=
  ok (GDay_new (GMonthDay_day a) (GMonthDay_timezone_offset a)).

(** ** Comparing durations *)

(** The comparison of two durations added to a reference date-time. *)
Definition compare_from (year month day : Z) (a b : Duration) : option (option comparison) :=
  start ← ok (DateTime_new year month day 0 0 (Decimal_from_int 0) None);
  x ← DateTime_checked_add_duration start a;
  y ← DateTime_checked_add_duration start b;
  Some (DateTime_partial_cmp x y).

Definition Duration_partial_cmp (a b : Duration) : option comparison :=
  first_result ← compare_from 1969 9 1 a b;
  second_result ← compare_from 1697 2 1 a b;
  third_result ← compare_from 1903 3 1 a b;
  fourth_result ← compare_from 1903 7 1 a b;
  if bool_decide (first_result = second_result) && bool_decide (second_result = third_result)
     && bool_decide (third_result = fourth_result)
  then first_result else None.

Definition YearMonthDuration_partial_cmp_duration (a : YearMonthDuration) (b : Duration)
  : option comparison := Duration_partial_cmp (Duration_from_year_month a) b.
Definition Duration_partial_cmp_year_month (a : Duration) (b : YearMonthDuration)
  : option comparison := Duration_partial_cmp a (Duration_from_year_month b).
Definition DayTimeDuration_partial_cmp_duration (a : DayTimeDuration) (b : Duration)
  : option comparison := Duration_partial_cmp (Duration_from_day_time a) b.
Definition Duration_partial_cmp_day_time (a : Duration) (b : DayTimeDuration)
  : option comparison := Duration_partial_cmp a (Duration_from_day_time b).
Definition DayTimeDuration_partial_cmp_year_month (a : DayTimeDuration) (b : YearMonthDuration)
  : option comparison :=
  Duration_partial_cmp (Duration_from_day_time a) (Duration_from_year_month b).
Definition YearMonthDuration_partial_cmp_day_time (a : YearMonthDuration) (b : DayTimeDuration)
  : option comparison :=
  Duration_partial_cmp (Duration_from_year_month a) (Duration_from_day_time b).
