(* ===== verification/XsdDateTimeText.v ===== *)
(** * Text of the date/time types

    The lexical parsers and the [Display] implementations of
    lib/oxsdatatypes/src/date_time.rs. *)
From S2P Require Import Prelude MachineInt RustStr XsdDecimal XsdDuration XsdDateTime.

(** ** Parser combinators *)

Abbreviation parsed := (result ParseDateTimeErrorKind).

Definition dt_msg {A : Type} (message : string) : parsed A := Err (Message message).

(** [From<DateTimeOverflowError>] *)
Definition dt_overflow {A : Type} (r : result DateTimeOverflowError A) : parsed A :=
  map_err DateTimeErrorOverflow r.

Definition ensure_complete {T : Type} (input : bytes) (parse : bytes -> parsed (T * bytes))
  : parsed T :=
  '(result, rest) ← parse input;
  match rest with
  | [] => Ok result
  | _ => dt_msg "Unrecognized value suffix"
  end.

Definition expect_char (input : bytes) (constant : ascii) (error_message : string) : parsed bytes :=
  match strip_prefix constant input with
  | Some rest => Ok rest
  | None => dt_msg error_message
  end.

Definition optional_end {T : Type} (input : bytes) (parse : bytes -> parsed (T * bytes))
  : parsed (option T * bytes) :=
  match input with
  | [] => Ok (None, input)
  | _ => '(result, input) ← parse input; Ok (Some result, input)
  end.

Definition validate_day_of_month (year : option Z) (month day : Z) : parsed unit :=
  if day >? days_in_month year month then Err (InvalidDayOfMonth day month) else Ok tt.

(** ** Fragments *)

Definition year_frag (input : bytes) : parsed (Z * bytes) :=
  let '(sign, input) :=
    match strip_prefix "-"%char input with
    | Some rest => (-1, rest)
    | None => (1, input)
    end in
  let '(number_str, input) := integer_prefix input in
  if (length number_str <? 4)%nat then dt_msg "The year should be encoded on 4 digits"
  else if (4 <? length number_str)%nat
          && match number_str with c :: _ => Ascii.eqb c "0"%char | [] => false end
  then dt_msg "The years value must not start with 0 if it can be encoded in at least 4 digits"
  else
    number ← map_err (fun _ => Message "Integer overflow") (int_from_str I64 number_str);
    Ok (sign * number, input).

(** Two digits in a range: [month_frag], [day_frag], [hour_frag] and [minute_frag]. *)
Definition two_digits_frag (lo hi : Z) (length_message range_message : string) (input : bytes)
  : parsed (Z * bytes) :=
  let '(number_str, input) := integer_prefix input in
  if negb (length number_str =? 2)%nat then dt_msg length_message
  else
    number ← map_err (fun _ => Message "Integer overflow") (int_from_str U8 number_str);
    if negb ((lo <=? number) && (number <=? hi)) then dt_msg range_message
    else Ok (number, input).

Definition month_frag : bytes -> parsed (Z * bytes) :=
  two_digits_frag 1 12 "Month must be encoded with two digits" "Month must be between 01 and 12".
Definition day_frag : bytes -> parsed (Z * bytes) :=
  two_digits_frag 1 31 "Day must be encoded with two digits" "Day must be between 01 and 31".
Definition hour_frag : bytes -> parsed (Z * bytes) :=
  two_digits_frag 0 24 "Hours must be encoded with two digits" "Hours must be between 00 and 24".
Definition minute_frag : bytes -> parsed (Z * bytes) :=
  two_digits_frag 0 59 "Minutes must be encoded with two digits"
    "Minutes must be between 00 and 59".

(** [number_str.split_once('.').unwrap_or((number_str, "")).0] *)
Fixpoint before_dot (s : bytes) : bytes :=
  match s with
  | c :: s => if Ascii.eqb c "."%char then [] else c :: before_dot s
  | [] => []
  end.

Definition second_frag (input : bytes) : parsed (Decimal * bytes) :=
  let '(number_str, input) := decimal_prefix input in
  if negb (length (before_dot number_str) =? 2)%nat
  then dt_msg "Seconds must be encoded with two digits"
  else
    number ← map_err (fun _ => Message "The second precision is too large")
               (Decimal_from_str number_str);
    if Decimal_ltb number (Decimal_from_int 0) || negb (Decimal_ltb number (Decimal_from_int 60))
    then dt_msg "Seconds must be between 00 and 60"
    else if match list.last number_str with Some c => Ascii.eqb c "."%char | None => false end
    then dt_msg "Seconds are not allowed to end with a dot"
    else Ok (number, input).

Definition timezone_frag (input : bytes) : parsed (TimezoneOffset * bytes) :=
  match strip_prefix "Z"%char input with
  | Some rest => Ok (TimezoneOffset_UTC, rest)
  | None =>
      let '(sign, input) :=
        match strip_prefix "-"%char input with
        | Some rest => (-1, rest)
        | None =>
            match strip_prefix "+"%char input with
            | Some rest => (1, rest)
            | None => (1, input)
            end
        end in
      let '(hour_str, input) := integer_prefix input in
      if negb (length hour_str =? 2)%nat
      then dt_msg "The timezone hours must be encoded with two digits"
      else
        hours ← map_err (fun _ => Message "Integer overflow") (int_from_str I16 hour_str);
        input ← expect_char input ":"%char "The timezone hours and minutes must be separated by ':'";
        '(minutes, input) ← minute_frag input;
        if (hours >? 13) && negb ((hours =? 14) && (minutes =? 0))
        then dt_msg "The timezone hours must be between 00 and 13"
        else
          tz ← map_err InvalidTimezone (TimezoneOffset_new (sign * (hours * 60 + minutes)));
          Ok (tz, input)
  end.

(** ** Lexical representations *)

(** Hours, minutes and seconds, with the rule on 24:00:00. *)
Definition time_of_day_frag (input : bytes) : parsed (Z * Z * Decimal * bytes) :=
  '(hour, input) ← hour_frag input;
  input ← expect_char input ":"%char "The hours and minutes must be separated by ':'";
  '(minute, input) ← minute_frag input;
  input ← expect_char input ":"%char "The minutes and seconds must be separated by ':'";
  '(second, input) ← second_frag input;
  if (hour =? 24) && (negb (minute =? 0) || negb (Decimal_eqb second (Decimal_from_int 0)))
  then dt_msg "Times are not allowed to be after 24:00:00"
  else Ok (hour, minute, second, input).

Definition date_time_lexical_rep (input : bytes) : parsed (DateTime * bytes) :=
  '(year, input) ← year_frag input;
  input ← expect_char input "-"%char "The year and month must be separated by '-'";
  '(month, input) ← month_frag input;
  input ← expect_char input "-"%char "The month and day must be separated by '-'";
  '(day, input) ← day_frag input;
  input ← expect_char input "T"%char "The date and time must be separated by 'T'";
  '(hour, minute, second, input) ← time_of_day_frag input;
  '(timezone_offset, input) ← optional_end input timezone_frag;
  _ ← validate_day_of_month (Some year) month day;
  d ← dt_overflow (DateTime_new year month day hour minute second timezone_offset);
  Ok (d, input).

Definition time_lexical_rep (input : bytes) : parsed (Time * bytes) :=
  '(hour, minute, second, input) ← time_of_day_frag input;
  '(timezone_offset, input) ← optional_end input timezone_frag;
  t ← dt_overflow (Time_new hour minute second timezone_offset);
  Ok (t, input).

Definition date_lexical_rep (input : bytes) : parsed (Date * bytes) :=
  '(year, input) ← year_frag input;
  input ← expect_char input "-"%char "The year and month must be separated by '-'";
  '(month, input) ← month_frag input;
  input ← expect_char input "-"%char "The month and day must be separated by '-'";
  '(day, input) ← day_frag input;
  '(timezone_offset, input) ← optional_end input timezone_frag;
  _ ← validate_day_of_month (Some year) month day;
  d ← dt_overflow (Date_new year month day timezone_offset);
  Ok (d, input).

Definition g_year_month_lexical_rep (input : bytes) : parsed (GYearMonth * bytes) :=
  '(year, input) ← year_frag input;
  input ← expect_char input "-"%char "The year and month must be separated by '-'";
  '(month, input) ← month_frag input;
  '(timezone_offset, input) ← optional_end input timezone_frag;
  d ← dt_overflow (GYearMonth_new year month timezone_offset);
  Ok (d, input).

Definition g_year_lexical_rep (input : bytes) : parsed (GYear * bytes) :=
  '(year, input) ← year_frag input;
  '(timezone_offset, input) ← optional_end input timezone_frag;
  d ← dt_overflow (GYear_new year timezone_offset);
  Ok (d, input).

Definition g_month_day_lexical_rep (input : bytes) : parsed (GMonthDay * bytes) :=
  input ← expect_char input "-"%char "gMonthDay values must start with '--'";
  input ← expect_char input "-"%char "gMonthDay values must start with '--'";
  '(month, input) ← month_frag input;
  input ← expect_char input "-"%char "The month and day must be separated by '-'";
  '(day, input) ← day_frag input;
  '(timezone_offset, input) ← optional_end input timezone_frag;
  _ ← validate_day_of_month None month day;
  d ← dt_overflow (GMonthDay_new month day timezone_offset);
  Ok (d, input).

Definition g_day_lexical_rep (input : bytes) : parsed (GDay * bytes) :=
  input ← expect_char input "-"%char "gDay values must start with '---'";
  input ← expect_char input "-"%char "gDay values must start with '---'";
  input ← expect_char input "-"%char "gDay values must start with '---'";
  '(day, input) ← day_frag input;
  '(timezone_offset, input) ← optional_end input timezone_frag;
  d ← dt_overflow (GDay_new day timezone_offset);
  Ok (d, input).

Definition g_month_lexical_rep (input : bytes) : parsed (GMonth * bytes) :=
  input ← expect_char input "-"%char "gMonth values must start with '--'";
  input ← expect_char input "-"%char "gMonth values must start with '--'";
  '(month, input) ← month_frag input;
  '(timezone_offset, input) ← optional_end input timezone_frag;
  d ← dt_overflow (GMonth_new month timezone_offset);
  Ok (d, input).

(** [FromStr] *)
Definition DateTime_from_str (input : bytes) : parsed DateTime :=
  ensure_complete input date_time_lexical_rep.
Definition Time_from_str (input : bytes) : parsed Time := ensure_complete input time_lexical_rep.
Definition Date_from_str (input : bytes) : parsed Date := ensure_complete input date_lexical_rep.
Definition GYearMonth_from_str (input : bytes) : parsed GYearMonth :=
  ensure_complete input g_year_month_lexical_rep.
Definition GYear_from_str (input : bytes) : parsed GYear := ensure_complete input g_year_lexical_rep.
Definition GMonthDay_from_str (input : bytes) : parsed GMonthDay :=
  ensure_complete input g_month_day_lexical_rep.
Definition GMonth_from_str (input : bytes) : parsed GMonth :=
  ensure_complete input g_month_lexical_rep.
Definition GDay_from_str (input : bytes) : parsed GDay := ensure_complete input g_day_lexical_rep.

(** ** Display *)

Definition print_year (year : Z) : bytes :=
  (if year <? 0 then str "-" else []) ++ print_padded 4 (Z.abs year).
Definition print_second (second : Decimal) : bytes :=
  (if Decimal_ltb (Decimal_from_int (-10)) second && Decimal_ltb second (Decimal_from_int 10)
   then str "0" else []) ++ Decimal_to_string second.
Definition print_timezone (tz : option TimezoneOffset) : bytes :=
  match tz with Some tz => TimezoneOffset_to_string tz | None => [] end.

Definition DateTime_to_string (a : DateTime) : bytes :=
  print_year (DateTime_year a) ++ str "-" ++ print_padded 2 (DateTime_month a)
  ++ str "-" ++ print_padded 2 (DateTime_day a) ++ str "T" ++ print_padded 2 (DateTime_hour a)
  ++ str ":" ++ print_padded 2 (DateTime_minute a) ++ str ":" ++ print_second (DateTime_second a)
  ++ print_timezone (DateTime_timezone_offset a).
Definition Time_to_string (a : Time) : bytes :=
  print_padded 2 (Time_hour a) ++ str ":" ++ print_padded 2 (Time_minute a) ++ str ":"
  ++ print_second (Time_second a) ++ print_timezone (Time_timezone_offset a).
Definition Date_to_string (a : Date) : bytes :=
  print_year (Date_year a) ++ str "-" ++ print_padded 2 (Date_month a) ++ str "-"
  ++ print_padded 2 (Date_day a) ++ print_timezone (Date_timezone_offset a).
Definition GYearMonth_to_string (a : GYearMonth) : bytes :=
  print_year (GYearMonth_year a) ++ str "-" ++ print_padded 2 (GYearMonth_month a)
  ++ print_timezone (GYearMonth_timezone_offset a).
Definition GYear_to_string (a : GYear) : bytes :=
  print_year (GYear_year a) ++ print_timezone (GYear_timezone_offset a).
Definition GMonthDay_to_string (a : GMonthDay) : bytes :=
  str "--" ++ print_padded 2 (GMonthDay_month a) ++ str "-" ++ print_padded 2 (GMonthDay_day a)
  ++ print_timezone (GMonthDay_timezone_offset a).
Definition GMonth_to_string (a : GMonth) : bytes :=
  str "--" ++ print_padded 2 (GMonth_month a) ++ print_timezone (GMonth_timezone_offset a).
Definition GDay_to_string (a : GDay) : bytes :=
  str "---" ++ print_padded 2 (GDay_day a) ++ print_timezone (GDay_timezone_offset a).
