(* ===== verification/XsdCalendarFacts.v ===== *)
(** * Correctness of the calendar

    The day number of a date, its inverse [year_month_day], and the fields of a
    timestamp against the properties it was made from. *)
From S2P Require Import Prelude MachineInt RustStr XsdDecimal XsdDecimalFacts XsdDuration.
From S2P Require Import XsdDateTime.

(** ** Reference definitions *)

(** A date of the proleptic Gregorian calendar. *)
Definition valid_date (y m d : Z) : Prop :=
  1 <= m <= 12 /\ 1 <= d <= days_in_month (Some y) m.

(** The number of days from 0001-01-01 to the date. *)
Definition day_number (y m d : Z) : Z :=
  365 * (y - 1) + (y - 1) / 400 - (y - 1) / 100 + (y - 1) / 4
  + days_before_month y m + d - 1.

Definition leap_year (y : Z) : bool :=
  (y mod 4 =? 0) && (negb (y mod 100 =? 0) || (y mod 400 =? 0)).

(** The years for which no step of the calendar arithmetic wraps. *)
Definition year_ok (y : Z) : Prop := -4611686018427387904 <= y <= 4611686018427387904.

(** The years of the timestamps a [Decimal] can hold. *)
Definition year_small (y : Z) : Prop := -10000000000000 <= y <= 10000000000000.

Lemma year_small_ok (y : Z) : year_small y -> year_ok y.
Proof. unfold year_small, year_ok. lia. Qed.

(** ** Months *)

Lemma rem_mod_0 (a b : Z) : 0 < b -> (Z.rem a b =? 0) = (a mod b =? 0).
Proof.
  intros Hb. apply Bool.eq_iff_eq_true. rewrite !Z.eqb_eq.
  rewrite <- divide_rem_0, <- Z.mod_divide by lia. done.
Qed.

Lemma days_in_february (y : Z) :
  days_in_month (Some y) 2 = if leap_year y then 29 else 28.
Proof.
  unfold days_in_month, leap_year. change (2 =? 2) with true. cbv iota.
  rewrite !rem_mod_0 by lia.
  by destruct (y mod 4 =? 0), (y mod 100 =? 0), (y mod 400 =? 0).
Qed.

Lemma days_in_month_range (y : option Z) (m : Z) : 28 <= days_in_month y m <= 31.
Proof. unfold days_in_month. destruct y; repeat case_if_bool; lia. Qed.

(** Case analysis on a month. *)
Ltac month_split H m :=
  let H' := fresh in
  assert (m = 1 \/ m = 2 \/ m = 3 \/ m = 4 \/ m = 5 \/ m = 6 \/ m = 7 \/ m = 8 \/ m = 9
    \/ m = 10 \/ m = 11 \/ m = 12) as H' by lia;
  clear H; repeat destruct H' as [H'|H']; subst m.

(** The days before a month, by month. *)
Definition month_offset (y m : Z) : Z :=
  nth (Z.to_nat m) [0; 0; 31; 59; 90; 120; 151; 181; 212; 243; 273; 304; 334; 365] 0
  + (if (2 <? m) && leap_year y then 1 else 0).

Lemma days_before_month_offset (y m : Z) :
  1 <= m <= 13 -> days_before_month y m = month_offset y m.
Proof.
  intros H. unfold days_before_month, month_offset.
  assert (m = 13 \/ 1 <= m <= 12) as [-> | Hm] by lia; [|clear H; month_split Hm m];
    unfold seqZ; simpl seq; simpl list_fmap; simpl foldr;
    rewrite ?days_in_february; by destruct (leap_year y).
Qed.

(** Stepping over the months before [m]. *)
Lemma find_month_skip (fuel : nat) (y i days : Z) :
  days_in_month (Some y) i <= days ->
  find_month (S fuel) y i days = find_month fuel y (i + 1) (days - days_in_month (Some y) i).
Proof. intros H. simpl. rewrite Z.gtb_ltb, (proj2 (Z.ltb_ge _ _)) by done. done. Qed.

Lemma days_before_month_succ (y m : Z) :
  1 <= m <= 12 -> days_before_month y (m + 1) = days_before_month y m + days_in_month (Some y) m.
Proof.
  intros H. rewrite !days_before_month_offset by lia. unfold month_offset.
  month_split H m; rewrite ?days_in_february; simpl; by destruct (leap_year y).
Qed.

Lemma days_before_month_mono (y : Z) (k : nat) (i : Z) :
  1 <= i -> i + Z.of_nat k <= 13 ->
  days_before_month y i + 28 * Z.of_nat k <= days_before_month y (i + Z.of_nat k).
Proof.
  revert i. induction k as [|k IH]; intros i Hi Hk; [simpl Z.of_nat; rewrite !Z.add_0_r; lia|].
  specialize (IH (i + 1) ltac:(lia) ltac:(lia)).
  rewrite days_before_month_succ in IH by lia. pose proof (days_in_month_range (Some y) i).
  replace (i + Z.of_nat (S k)) with (i + 1 + Z.of_nat k) by lia. lia.
Qed.

Lemma find_month_steps (k : nat) (fuel : nat) (y i r : Z) :
  1 <= i -> i + Z.of_nat k <= 12 -> (k < fuel)%nat ->
  0 <= r < days_in_month (Some y) (i + Z.of_nat k) ->
  find_month fuel y i (days_before_month y (i + Z.of_nat k) - days_before_month y i + r)
  = (i + Z.of_nat k, r).
Proof.
  revert fuel i. induction k as [|k IH]; intros fuel i Hi Hk Hf Hr.
  - simpl Z.of_nat in *. rewrite Z.add_0_r in *. rewrite Z.sub_diag, Z.add_0_l. destruct fuel as [|fuel]; [lia|]. simpl.
    by rewrite Z.gtb_ltb, (proj2 (Z.ltb_lt _ _)) by lia.
  - destruct fuel as [|fuel]; [lia|]. replace (i + Z.of_nat (S k)) with (i + 1 + Z.of_nat k) in * by lia.
    pose proof (days_before_month_mono y k (i + 1) ltac:(lia) ltac:(lia)).
    pose proof (days_before_month_succ y i ltac:(lia)).
    rewrite find_month_skip by lia. rewrite <- (IH fuel (i + 1)) by lia. f_equal. lia.
Qed.

Lemma find_month_date (y m d : Z) :
  valid_date y m d -> find_month 12 y 1 (days_before_month y m + d - 1) = (m, d - 1).
Proof.
  intros [Hm Hd]. pose proof (find_month_steps (Z.to_nat (m - 1)) 12 y 1 (d - 1)) as H.
  replace (1 + Z.of_nat (Z.to_nat (m - 1))) with m in H by lia.
  change (days_before_month y 1) with 0 in H.
  replace (days_before_month y m + d - 1) with (days_before_month y m - 0 + (d - 1)) by lia.
  apply H; lia.
Qed.

(** ** Years *)

(** The day of the year, from 0. *)
Definition year_length (y : Z) : Z := if leap_year y then 366 else 365.

Lemma day_of_year_range (y m d : Z) :
  valid_date y m d -> 0 <= days_before_month y m + d - 1 < year_length y.
Proof.
  intros [Hm Hd]. pose proof (days_before_month_mono y (Z.to_nat (m - 1)) 1 ltac:(lia) ltac:(lia)).
  pose proof (days_before_month_mono y (Z.to_nat (12 - m)) (m + 1) ltac:(lia) ltac:(lia)) as H2.
  rewrite days_before_month_succ in H2 by lia.
  replace (1 + Z.of_nat (Z.to_nat (m - 1))) with m in * by lia.
  replace (m + 1 + Z.of_nat (Z.to_nat (12 - m))) with 13 in H2 by lia.
  change (days_before_month y 1) with 0 in *.
  assert (days_before_month y 13 = year_length y) as E.
  { rewrite days_before_month_offset by lia. unfold month_offset, year_length.
    simpl. by destruct (leap_year y). }
  lia.
Qed.

(** The position of a year in the 400-year cycle. *)
Lemma leap_year_cycle (a b c e : Z) :
  0 <= b < 4 -> 0 <= c < 25 -> 0 <= e < 4 ->
  leap_year (400 * a + 100 * b + 4 * c + e)
  = ((b =? 0) || negb (c =? 0)) && (e =? 0).
Proof.
  intros Hb Hc He. unfold leap_year.
  assert ((400 * a + 100 * b + 4 * c + e) mod 4 = e) as ->
    by (Z.to_euclidean_division_equations; lia).
  assert ((400 * a + 100 * b + 4 * c + e) mod 100 = 4 * c + e) as ->
    by (Z.to_euclidean_division_equations; lia).
  assert ((400 * a + 100 * b + 4 * c + e) mod 400 = 100 * b + 4 * c + e) as ->
    by (Z.to_euclidean_division_equations; lia).
  destruct (Z.eqb_spec e 0), (Z.eqb_spec b 0), (Z.eqb_spec c 0),
    (Z.eqb_spec (4 * c + e) 0), (Z.eqb_spec (100 * b + 4 * c + e) 0); simpl; done || lia.
Qed.

(** The days before a year of the cycle, from 0000-01-01. *)
Lemma year_start_cycle (a b c e : Z) :
  0 <= b < 4 -> 0 <= c < 25 -> 0 <= e < 4 ->
  let y := 400 * a + 100 * b + 4 * c + e in
  365 * (y - 1) + (y - 1) / 400 - (y - 1) / 100 + (y - 1) / 4 + 366
  = 146097 * a + 36524 * b + 1461 * c + 365 * e + (if leap_year y then 0 else 1).
Proof.
  intros Hb Hc He y. subst y. rewrite leap_year_cycle by done.
  destruct (Z.eqb_spec e 0), (Z.eqb_spec b 0), (Z.eqb_spec c 0); simpl; 
    Z.to_euclidean_division_equations; lia.
Qed.

Lemma quot_parts (k q r : Z) : 0 < k -> 0 <= q -> 0 <= r < k -> Z.quot (q * k + r) k = q.
Proof.
  intros. rewrite Z.quot_div_nonneg by lia. rewrite Z.div_add_l, Z.div_small by lia. lia.
Qed.

(** The first period of a cycle is a day longer: the quotient the code computes
    from the day before is still the index of the period. *)
Lemma quot_period (k q r : Z) :
  1 < k -> 0 <= q -> 0 <= r < k \/ (q = 0 /\ r = -1) -> Z.quot (q * k + r) k = q.
Proof.
  intros Hk Hq [Hr|[-> ->]]; [by apply quot_parts; lia|].
  change (0 * k + -1) with (- (1)). rewrite Z.quot_opp_l by lia. by rewrite Z.quot_small by lia.
Qed.

Lemma split_year_cycle (a b c e doy : Z) :
  0 <= b < 4 -> 0 <= c < 25 -> 0 <= e < 4 ->
  let y := 400 * a + 100 * b + 4 * c + e in
  year_ok y -> 0 <= doy < year_length y ->
  split_year (146097 * a + 36524 * b + 1461 * c + 365 * e + (if leap_year y then 0 else 1) + doy)
  = (y, doy).
Proof.
  intros Hb Hc He y Hy Hdoy. unfold year_length in Hdoy.
  assert (leap_year y = ((b =? 0) || negb (c =? 0)) && (e =? 0)) as El
    by (by apply leap_year_cycle).
  set (x := 36524 * b + 1461 * c + 365 * e + (if leap_year y then 0 else 1) + doy).
  assert (0 <= x < 146097) as Hx.
  { subst x. rewrite El in *. destruct (Z.eqb_spec e 0), (Z.eqb_spec b 0), (Z.eqb_spec c 0);
      simpl in *; lia. }
  replace (146097 * a + _ + _ + _ + _ + _) with (a * 146097 + x) by (subst x; lia).
  unfold split_year.
  assert (exists sh q, (if a * 146097 + x <? 0
     then ((Z.quot (a * 146097 + x) 146097 - 1) * 400,
           a * 146097 + x - (Z.quot (a * 146097 + x) 146097 - 1) * 146097)
     else (0, a * 146097 + x)) = (sh * 400, q * 146097 + x) /\ 0 <= q /\ a = q + sh)
    as (sh & q & -> & Hq & Ha).
  { destruct (Z.ltb_spec (a * 146097 + x) 0).
    - exists (Z.quot (a * 146097 + x) 146097 - 1), (a - (Z.quot (a * 146097 + x) 146097 - 1)).
      split; [f_equal; lia|]. split; [|lia]. Z.to_euclidean_division_equations; lia.
    - exists 0, a. split; [f_equal; lia|]. lia. }
  rewrite quot_parts by lia. cbv zeta.
  replace (q * 146097 + x - q * 146097 - 1) with (b * 36524 + (x - 36524 * b - 1)) by lia.
  rewrite quot_period; [|lia|lia|].
  2:{ subst x. rewrite El in *. destruct (Z.eqb_spec e 0), (Z.eqb_spec b 0), (Z.eqb_spec c 0);
      simpl in *; lia. }
  replace (b * 36524 + (x - 36524 * b - 1) - b * 36524 + 1) with (c * 1461 + (x - 36524 * b - 1461 * c))
    by lia.
  rewrite quot_parts; [|lia|lia|].
  2:{ subst x. rewrite El in *. destruct (Z.eqb_spec e 0), (Z.eqb_spec b 0), (Z.eqb_spec c 0);
      simpl in *; lia. }
  replace (c * 1461 + (x - 36524 * b - 1461 * c) - c * 1461 - 1)
    with (e * 365 + (x - 36524 * b - 1461 * c - 365 * e - 1)) by lia.
  rewrite quot_period; [|lia|lia|].
  2:{ subst x. rewrite El in *. destruct (Z.eqb_spec e 0), (Z.eqb_spec b 0), (Z.eqb_spec c 0);
      simpl in *; lia. }
  replace (400 * q + 100 * b + 4 * c + e + sh * 400) with y by (subst y; lia).
  rewrite wrap_id by (unfold year_ok in Hy; int_bounds). f_equal. rewrite <- El. subst x.
  destruct (leap_year y); simpl; lia.
Qed.

(** Every year has a position in the cycle. *)
Lemma year_cycle (y : Z) :
  exists a b c e, 0 <= b < 4 /\ 0 <= c < 25 /\ 0 <= e < 4 /\ y = 400 * a + 100 * b + 4 * c + e.
Proof.
  exists (y / 400), (y mod 400 / 100), (y mod 100 / 4), (y mod 4).
  Z.to_euclidean_division_equations. lia.
Qed.

(** [year_month_day] on a number of days. *)
Definition date_of_days (days : Z) : Z * Z * Z :=
  let '(year, days) := split_year (days + 366) in
  let '(month, days) := find_month 12 year 1 days in
  (year, month, wrap U8 (wrap U8 days + 1)).

Lemma date_of_day_number (y m d : Z) :
  year_ok y -> valid_date y m d -> date_of_days (day_number y m d) = (y, m, d).
Proof.
  intros Hy Hv. pose proof (day_of_year_range y m d Hv) as Hr. unfold date_of_days, day_number.
  destruct (year_cycle y) as (a & b & c & e & Hb & Hc & He & E).
  pose proof (year_start_cycle a b c e Hb Hc He) as Hs. cbv zeta in Hs. rewrite <- E in Hs.
  pose proof (split_year_cycle a b c e (days_before_month y m + d - 1) Hb Hc He) as Hsp.
  cbv zeta in Hsp. rewrite <- E in Hsp. specialize (Hsp Hy Hr).
  replace (365 * (y - 1) + (y - 1) / 400 - (y - 1) / 100 + (y - 1) / 4 + days_before_month y m + d
    - 1 + 366) with (146097 * a + 36524 * b + 1461 * c + 365 * e + (if leap_year y then 0 else 1)
    + (days_before_month y m + d - 1)) by lia.
  rewrite Hsp, find_month_date by done. destruct Hv as [_ Hd].
  pose proof (days_in_month_range (Some y) m).
  rewrite !wrap_id; [f_equal; lia|int_bounds|rewrite wrap_id; int_bounds].
Qed.

(** Every day of the year is a day of a month. *)
Lemma month_of_doy (k : nat) (y i r : Z) :
  1 <= i -> i + Z.of_nat k = 13 ->
  days_before_month y i <= r < year_length y ->
  exists m d, i <= m <= 12 /\ 1 <= d <= days_in_month (Some y) m /\
    days_before_month y m + d - 1 = r.
Proof.
  revert i. induction k as [|k IH]; intros i Hi Hk Hr.
  - exfalso. replace i with 13 in Hr by lia. rewrite days_before_month_offset in Hr by lia.
    unfold month_offset, year_length in Hr. simpl in Hr. destruct (leap_year y); simpl in Hr; lia.
  - destruct (Z.lt_ge_cases r (days_before_month y i + days_in_month (Some y) i)).
    + exists i, (r - days_before_month y i + 1). lia.
    + destruct (IH (i + 1)) as (m & d & ? & ? & ?);
        [lia|lia|rewrite days_before_month_succ by lia; lia|].
      exists m, d. lia.
Qed.

(** Every day is a date. *)
Lemma day_number_surjective (n : Z) : exists y m d, valid_date y m d /\ day_number y m d = n.
Proof.
  set (x := (n + 366) mod 146097). set (a := (n + 366) / 146097).
  set (b := Z.min ((x - 1) / 36524) 3 `max` 0). set (x1 := x - 36524 * b).
  set (c := x1 / 1461). set (x2 := x1 - 1461 * c). set (e := Z.min ((x2 - 1) / 365) 3 `max` 0).
  assert (0 <= x < 146097) as Hx by (apply Z.mod_pos_bound; lia).
  assert (n + 366 = 146097 * a + x) as Hn by (apply Z.div_mod; lia).
  assert (0 <= b < 4 /\ 0 <= x1 < 36525 /\ (b = 0 \/ 1 <= x1)) as (Hb & Hx1 & Hx1')
    by (subst x1 b; clearbody x; Z.to_euclidean_division_equations; lia).
  assert (0 <= c < 25 /\ 0 <= x2 < 1461) as (Hc & Hx2)
    by (subst x2 c; clearbody x1; Z.to_euclidean_division_equations; lia).
  set (y := 400 * a + 100 * b + 4 * c + e).
  assert (0 <= e < 4 /\ 0 <= x2 - 365 * e - (if leap_year y then 0 else 1) < year_length y)
    as (He & Hd).
  { assert (0 <= e < 4) as He by (subst e; lia). split; [done|]. unfold year_length. subst y.
    rewrite leap_year_cycle by done. 
    assert (b = 0 \/ c <> 0 \/ 1 <= x2) as H1 by (subst x2; lia). clearbody x2.
    destruct (Z.eqb_spec e 0), (Z.eqb_spec b 0), (Z.eqb_spec c 0); simpl; subst e;
      Z.to_euclidean_division_equations; lia. }
  destruct (month_of_doy 12 y 1 (x2 - 365 * e - (if leap_year y then 0 else 1)))
    as (m & d & Hm & Hdd & E); [lia|lia|by change (days_before_month y 1) with 0|].
  exists y, m, d. split; [done|]. unfold day_number.
  pose proof (year_start_cycle a b c e Hb Hc He) as Hs. cbv zeta in Hs. fold y in Hs.
  subst x2 x1. lia.
Qed.

(** ** Timestamps *)

(** The seconds of the timezone of a timestamp. *)
Definition tz_seconds (tz : option TimezoneOffset) : Z :=
  60 * tz_offset (default TimezoneOffset_UTC tz).

(** The local whole minute a date and time of day denote. *)
Definition civil_seconds (y m d h mi : Z) : Z := 86400 * day_number y m d + 3600 * h + 60 * mi.

(** Truncation of the seconds towards zero does not move the minute: the
    timestamp is not negative, or it has no fraction of a second, or its second
    is below 59. *)
Definition exact_minute (v s : Z) : Prop :=
  0 <= v \/ v mod DECIMAL_PART_POW = 0 \/ s < 59 * DECIMAL_PART_POW.

(** The whole seconds [as_i128] sees. *)
Lemma as_i128_minute (l s : Z) :
  0 <= s < 60 * DECIMAL_PART_POW -> exact_minute (l * 60 * DECIMAL_PART_POW + s) s ->
  exists k, 0 <= k < 60 /\ Z.quot (l * 60 * DECIMAL_PART_POW + s) DECIMAL_PART_POW = l * 60 + k.
Proof.
  unfold exact_minute, DECIMAL_PART_POW. intros Hs Hx.
  exists (Z.quot (l * 60 * 1000000000000000000 + s) 1000000000000000000 - l * 60).
  split; [|lia]. Z.to_euclidean_division_equations. lia.
Qed.

Lemma Timestamp_second_value (t : Timestamp) :
  Decimal_wf (ts_value t) ->
  (r ← Decimal_checked_rem_euclid (ts_value t) (Decimal_from_int 60); Decimal_checked_abs r)
  = Some (mkDecimal (Decimal_value (ts_value t) mod (60 * DECIMAL_PART_POW))).
Proof.
  destruct t as [[v] tz]. unfold Decimal_wf. simpl Decimal_value. intros Hv.
  unfold Decimal_checked_rem_euclid, checked_rem_euclid, Decimal_from_int, rem_euclid. simpl Decimal_value.
  change (60 * DECIMAL_PART_POW =? 0) with false. cbv iota.
  rewrite (proj2 (fits_true I128 _)) by (unfold DECIMAL_PART_POW, in_int, int_min, int_max in *;
    Z.to_euclidean_division_equations; lia).
  cbn [fmap option_fmap option_map mbind option_bind]. unfold Decimal_checked_abs, checked_abs.
  change (Z.abs (60 * DECIMAL_PART_POW)) with (60 * DECIMAL_PART_POW). simpl Decimal_value.
  pose proof (Z.mod_pos_bound v (60 * DECIMAL_PART_POW) eq_refl).
  rewrite Z.abs_eq, checked_in by (unfold DECIMAL_PART_POW in *; int_bounds). done.
Qed.

(** The date and time of day of a timestamp are those of its local minute. *)
Lemma Timestamp_fields_local (t : Timestamp) (y m d h mi k : Z) :
  year_ok y -> valid_date y m d -> 0 <= h < 24 -> 0 <= mi < 60 -> 0 <= k < 60 ->
  local_seconds t = civil_seconds y m d h mi + k ->
  Timestamp_year_month_day t = (y, m, d) /\ Timestamp_hour t = h /\ Timestamp_minute t = mi.
Proof.
  intros Hy Hv Hh Hmi Hk Eloc. unfold civil_seconds in Eloc. split_and!.
  - unfold Timestamp_year_month_day. fold (date_of_days (local_seconds t / 86400)). rewrite Eloc.
    replace (_ + k) with (day_number y m d * 86400 + (3600 * h + 60 * mi + k)) by lia.
    rewrite Z.div_add_l, Z.div_small, Z.add_0_r by lia. by apply date_of_day_number.
  - unfold Timestamp_hour, rem_euclid. change (Z.abs 86400) with 86400. rewrite Eloc.
    replace (_ + k) with (3600 * h + 60 * mi + k + day_number y m d * 86400) by lia.
    rewrite Z.mod_add, Z.mod_small by lia.
    rewrite wrap_id; [|unfold in_int, int_min, int_max]; Z.to_euclidean_division_equations; lia.
  - unfold Timestamp_minute, rem_euclid. change (Z.abs 3600) with 3600. rewrite Eloc.
    replace (_ + k) with (60 * mi + k + (24 * day_number y m d + h) * 3600) by lia.
    rewrite Z.mod_add, Z.mod_small by lia.
    rewrite wrap_id; [|unfold in_int, int_min, int_max]; Z.to_euclidean_division_equations; lia.
Qed.

(** The fields of a timestamp are those of the civil time it denotes. *)
Lemma Timestamp_fields (y m d h mi s v : Z) (tz : option TimezoneOffset) :
  year_ok y -> valid_date y m d -> 0 <= h < 24 -> 0 <= mi < 60 -> 0 <= s < 60 * DECIMAL_PART_POW ->
  in_int I128 v ->
  v = (civil_seconds y m d h mi - tz_seconds tz) * DECIMAL_PART_POW + s -> exact_minute v s ->
  let t := mkTimestamp (mkDecimal v) tz in
  Timestamp_year_month_day t = (y, m, d) /\ Timestamp_hour t = h /\ Timestamp_minute t = mi /\
  Timestamp_second t = mkDecimal s.
Proof.
  intros Hy Hv Hh Hmi Hs Hin Ev Hx t.
  set (off := tz_offset (default TimezoneOffset_UTC tz)).
  set (l := 1440 * day_number y m d + 60 * h + mi - off).
  assert (v = l * 60 * DECIMAL_PART_POW + s) as El
    by (rewrite Ev; unfold civil_seconds, tz_seconds; fold off; subst l; lia).
  rewrite El in Hx. destruct (as_i128_minute l s Hs Hx) as (k & Hk & Eq). rewrite <- El in Eq.
  destruct (Timestamp_fields_local t y m d h mi k Hy Hv Hh Hmi Hk) as (? & ? & ?).
  { unfold local_seconds, Decimal_as_i128, civil_seconds. simpl. fold off. rewrite Eq. subst l. lia. }
  do 3 (split; [done|]). unfold Timestamp_second. rewrite Timestamp_second_value by done. simpl. f_equal.
  rewrite El. replace (l * 60 * DECIMAL_PART_POW + s) with (s + l * (60 * DECIMAL_PART_POW)) by lia.
  rewrite Z.mod_add by done. by apply Z.mod_small.
Qed.

Lemma timeline_seconds_civil (y m d : Z) (h mi : option Z) (s : option Decimal)
  (tz : option TimezoneOffset) :
  year_ok y -> valid_date y m d ->
  timeline_seconds (mkProps (Some y) (Some m) (Some d) h mi s tz)
  = civil_seconds y m d (default 0 h) (default 0 mi) - tz_seconds tz.
Proof.
  intros Hy [Hm Hd]. unfold year_ok in Hy. unfold timeline_seconds, civil_seconds, day_number, tz_seconds.
  cbn [props_year props_month props_day props_hour props_minute props_timezone_offset].
  pose proof (days_in_month_range (Some y) m).
  rewrite (wrap_id I64 (y - 1)) by int_bounds. replace (y - 1 + 1) with y by lia.
  rewrite (wrap_id I64 y) by int_bounds. rewrite (wrap_id U8) by int_bounds.
  rewrite (wrap_id I64) by (unfold in_int, int_min, int_max; Z.to_euclidean_division_equations; lia).
  unfold default, from_option, id. destruct h, mi; lia.
Qed.

(** Every minute is a civil minute. *)
Lemma civil_surjective (l : Z) :
  exists y m d h mi, valid_date y m d /\ 0 <= h < 24 /\ 0 <= mi < 60 /\
    civil_seconds y m d h mi = 60 * l.
Proof.
  destruct (day_number_surjective (l / 1440)) as (y & m & d & Hv & E).
  exists y, m, d, (l mod 1440 / 60), (l mod 60). unfold civil_seconds. rewrite E.
  split; [done|]. Z.to_euclidean_division_equations. lia.
Qed.

(** A bound on the seconds is a bound on the year. *)
Lemma civil_year_small (y m d h mi : Z) :
  valid_date y m d -> 0 <= h < 24 -> 0 <= mi < 60 ->
  -200000000000000000000 <= civil_seconds y m d h mi <= 200000000000000000000 ->
  year_small y.
Proof.
  intros Hv Hh Hmi Hb. pose proof (day_of_year_range y m d Hv) as Hr.
  assert (year_length y <= 366) by (unfold year_length; destruct (leap_year y); lia).
  unfold civil_seconds, day_number, year_small in *.
  generalize dependent (days_before_month y m). intros dbm.
  Z.to_euclidean_division_equations. lia.
Qed.

Definition tz_wf (tz : option TimezoneOffset) : Prop :=
  from_option (fun z => in_int I16 (tz_offset z)) True tz.
Definition Timestamp_wf (t : Timestamp) : Prop :=
  Decimal_wf (ts_value t) /\ tz_wf (ts_timezone_offset t).

Lemma tz_seconds_bound (tz : option TimezoneOffset) : tz_wf tz -> Z.abs (tz_seconds tz) <= 2000000.
Proof.
  unfold tz_wf, tz_seconds. destruct tz as [[o]|]; simpl; [|lia]. intros. int_bounds.
Qed.

(** [Timestamp_new] on the properties of a civil time. *)
Lemma Timestamp_new_civil (y m d h mi s : Z) (tz : option TimezoneOffset) :
  year_ok y -> valid_date y m d -> 0 <= s ->
  in_int I128 ((civil_seconds y m d h mi - tz_seconds tz) * DECIMAL_PART_POW) ->
  Timestamp_new (mkProps (Some y) (Some m) (Some d) (Some h) (Some mi) (Some (mkDecimal s)) tz)
  = ok_or DateTimeOverflow
      (v ← checked I128 ((civil_seconds y m d h mi - tz_seconds tz) * DECIMAL_PART_POW + s);
       Some (mkTimestamp (mkDecimal v) tz)).
Proof.
  intros Hy Hv Hs Hin. unfold Timestamp_new, time_on_timeline. rewrite timeline_seconds_civil by done.
  cbn [props_second props_timezone_offset default from_option id].
  unfold Decimal_try_from_i128, checked_mul. rewrite checked_in by done.
  cbn [ok_or mbind result_bind option_bind ok]. unfold Decimal_checked_add, checked_add. simpl Decimal_value.
  by destruct (checked I128 _).
Qed.
