(* ===== verification/XsdDateTimeFacts.v ===== *)
(** * Correctness of the date/time types

    The properties of a date-time against its timestamp, the month arithmetic,
    the casts between the types, the byte encoding and the text round trip. *)
From S2P Require Import Prelude MachineInt RustStr XsdDecimal XsdDecimalFacts XsdDuration.
From S2P Require Import XsdDurationFacts XsdDateTime XsdDateTimeText XsdCalendarFacts.

(** ** Fields *)

(** Every timestamp has a civil date and time, and its accessors return them. *)
Lemma Timestamp_civil (t : Timestamp) :
  Timestamp_wf t ->
  exists y m d h mi k, year_small y /\ valid_date y m d /\ 0 <= h < 24 /\ 0 <= mi < 60 /\ 0 <= k < 60 /\
    local_seconds t = civil_seconds y m d h mi + k /\
    Timestamp_year_month_day t = (y, m, d) /\ Timestamp_hour t = h /\ Timestamp_minute t = mi.
Proof.
  intros [Hv Htz].
  destruct (civil_surjective (local_seconds t / 60)) as (y & m & d & h & mi & Hd & Hh & Hmi & E).
  pose proof (Z.div_mod (local_seconds t) 60 ltac:(lia)) as Hdm.
  pose proof (Z.mod_pos_bound (local_seconds t) 60 eq_refl) as Hk.
  assert (year_small y) as Hy.
  { apply (civil_year_small y m d h mi Hd Hh Hmi). pose proof (as_i128_bound _ Hv).
    pose proof (tz_seconds_bound _ Htz). unfold tz_seconds in *. unfold local_seconds in *. lia. }
  exists y, m, d, h, mi, (local_seconds t mod 60). do 5 (split; [done|]).
  assert (local_seconds t = civil_seconds y m d h mi + local_seconds t mod 60) as El by lia.
  split; [done|]. pose proof (year_small_ok _ Hy). by apply Timestamp_fields_local with (local_seconds t mod 60).
Qed.

Lemma Timestamp_second_mod (t : Timestamp) :
  Decimal_wf (ts_value t) ->
  Timestamp_second t = mkDecimal (Decimal_value (ts_value t) mod (60 * DECIMAL_PART_POW)).
Proof. intros H. unfold Timestamp_second. by rewrite Timestamp_second_value. Qed.

Lemma DateTime_properties_fields (t : Timestamp) (y m d : Z) :
  Timestamp_year_month_day t = (y, m, d) ->
  DateTime_properties (mkDateTime t)
  = mkProps (Some y) (Some m) (Some d) (Some (Timestamp_hour t)) (Some (Timestamp_minute t))
      (Some (Timestamp_second t)) (ts_timezone_offset t).
Proof.
  intros E. unfold DateTime_properties, DateTime_year, DateTime_month, DateTime_day.
  cbn [DateTime_timestamp]. unfold Timestamp_year, Timestamp_month, Timestamp_day. by rewrite E.
Qed.

(** The minute the truncated seconds fall in is the minute of the timestamp
    exactly when [exact_minute] holds. *)
Lemma trunc_minute (v : Z) :
  (Z.quot v DECIMAL_PART_POW) / 60 = v / (60 * DECIMAL_PART_POW)
  <-> exact_minute v (v mod (60 * DECIMAL_PART_POW)).
Proof.
  unfold exact_minute, DECIMAL_PART_POW. split; intros; Z.to_euclidean_division_equations; lia.
Qed.

Lemma DateTime_properties_exact (a : DateTime) :
  let t := DateTime_timestamp a in
  let v := Decimal_value (ts_value t) in
  let s := v mod (60 * DECIMAL_PART_POW) in
  Timestamp_wf t -> in_int I128 (v - s) ->
  Timestamp_new (DateTime_properties a) = Ok t <-> exact_minute v s.
Proof.
  destruct a as [t]. cbv zeta. cbn [DateTime_timestamp]. intros Hwf Hlo.
  destruct (Timestamp_civil t Hwf) as (y & m & d & h & mi & k & Hy & Hd & Hh & Hmi & Hk & El & E1 & E2 & E3).
  rewrite (DateTime_properties_fields t y m d E1), E2, E3, Timestamp_second_mod by apply Hwf.
  destruct t as [[v] tz]. cbn [ts_value ts_timezone_offset Decimal_value] in *.
  destruct Hwf as [Hv Htz]. unfold Decimal_wf in Hv. cbn [ts_value Decimal_value] in Hv.
  rewrite <- trunc_minute. set (q := Z.quot v DECIMAL_PART_POW) in *.
  assert (civil_seconds y m d h mi - tz_seconds tz = q / 60 * 60) as Ec.
  { unfold local_seconds, Decimal_as_i128 in El. cbn [ts_value ts_timezone_offset Decimal_value] in El.
    fold q in El. unfold tz_seconds, civil_seconds in *.
    generalize dependent (day_number y m d). intros n El.
    Z.to_euclidean_division_equations. lia. }
  pose proof (Z.mod_pos_bound v (60 * DECIMAL_PART_POW) eq_refl) as Hs.
  pose proof (Z.div_mod v (60 * DECIMAL_PART_POW) ltac:(done)) as Hdm.
  rewrite Timestamp_new_civil; [|by apply year_small_ok|done|lia|].
  2:{ rewrite Ec. subst q. unfold DECIMAL_PART_POW in *. clear Ec El.
      unfold in_int, int_min, int_max in *. Z.to_euclidean_division_equations. lia. }
  rewrite Ec. split.
  - intros H. apply ok_or_Ok in H. peel H. apply checked_Some in Hs0 as [-> _].
    simplify_eq. unfold DECIMAL_PART_POW in *. lia.
  - intros E. rewrite checked_in by (rewrite E; unfold DECIMAL_PART_POW in *; int_bounds). simpl.
    do 3 f_equal. rewrite E. unfold DECIMAL_PART_POW in *. lia.
Qed.

(** C39. The seven properties of a date-time determine it: rebuilding the
    timestamp from year, month, day, hour, minute, second and timezone gives the
    timestamp back exactly when it is not negative, or has no fraction of a
    second, or its seconds are below 59 (the accessors truncate towards zero).
    The hypothesis excludes the first minute of the range, whose start is below
    the smallest decimal. *)
Theorem DateTime_properties_round_trip (a : DateTime) :
  let t := DateTime_timestamp a in
  let v := Decimal_value (ts_value t) in
  let s := v mod (60 * DECIMAL_PART_POW) in
  Timestamp_wf t -> in_int I128 (v - s) ->
  Timestamp_new (DateTime_properties a) = Ok t <-> exact_minute v s.
Proof. apply DateTime_properties_exact. Qed.

Lemma DateTime_properties_round_trip_witness :
  Timestamp_new (DateTime_properties (mkDateTime (mkTimestamp (mkDecimal 63120384000500000000000000000)
    (Some (mkTimezoneOffset 90)))))
  = Ok (mkTimestamp (mkDecimal 63120384000500000000000000000) (Some (mkTimezoneOffset 90))).
Proof.
  apply (DateTime_properties_round_trip (mkDateTime (mkTimestamp (mkDecimal 63120384000500000000000000000)
    (Some (mkTimezoneOffset 90))))).
  - split; split; discriminate.
  - vm_compute. split; discriminate.
  - left. discriminate.
Defined.

(** ** Month arithmetic *)

(** [normalize_month] keeps the number of months since year 0, except that
    month 0 (December of the year before) becomes February of the same year. *)
Theorem normalize_month_spec (yr mo : Z) :
  (forall y' m', mo <> 0 -> normalize_month yr mo = Some (y', m') ->
     12 * y' + m' = 12 * yr + mo /\ 1 <= m' <= 13 /\ (0 <= mo -> m' <= 12)) /\
  (in_int I64 yr -> normalize_month yr 0 = Some (yr, 2)).
Proof.
  split.
  - intros y' m' Hmo. unfold normalize_month. rewrite Z.geb_leb.
    destruct (Z.leb_spec 0 mo); intros H'; peel H';
      repeat match goal with
      | E : checked_div _ _ _ = Some _ |- _ => apply checked_div_Some in E as (_ & -> & _)
      | E : checked_sub _ _ _ = Some _ |- _ => apply checked_Some in E as [-> _]
      | E : checked_add _ _ _ = Some _ |- _ => apply checked_Some in E as [-> _]
      | E : checked _ _ = Some _ |- _ => apply checked_Some in E as [-> _]
      | E : checked_rem _ _ _ = Some _ |- _ => unfold checked_rem in E; simpl in E;
          destruct (fits _ _); [injection E as <-|discriminate]
      end; subst; Z.to_euclidean_division_equations; lia.
  - intros Hyr. unfold normalize_month. simpl.
    unfold checked_add. rewrite Z.add_0_r, checked_in by done. done.
Qed.

Lemma normalize_month_spec_witness :
  normalize_month 2000 0 = Some (2000, 2) /\ 12 * 1998 + 13 = 12 * 2000 + (-11).
Proof.
  split.
  - apply (proj2 (normalize_month_spec 2000 0)). split; discriminate.
  - apply (proj1 (normalize_month_spec 2000 (-11)) 1998 13); [discriminate|reflexivity].
Defined.

(** The distance of the day from the range of its month. *)
Definition day_distance (st : Z * Z * Z) : Z :=
  let '(yr, mo, da) := st in
  if (1 <=? da) && (da <=? days_in_month (Some yr) mo) then 0
  else if da <=? 0 then 1 - da else da.

Lemma normalize_day_round_decreases (st st' : Z * Z * Z) :
  in_int I64 (snd st) -> normalize_day_round st = inl st' ->
  in_int I64 (snd st') /\ 0 <= day_distance st' < day_distance st.
Proof.
  destruct st as [[yr mo] da]. simpl snd. intros Hda. unfold normalize_day_round.
  pose proof (days_in_month_range (Some yr) mo) as Hdim. rewrite Z.gtb_ltb.
  destruct (Z.leb_spec da 0); [|destruct (Z.ltb_spec (days_in_month (Some yr) mo) da); [|done]].
  - destruct (checked_sub I64 mo 1) as [mo1|]; simpl; [|done].
    destruct (normalize_month yr mo1) as [[yr2 mo2]|]; simpl; [|done].
    pose proof (days_in_month_range (Some yr2) mo2).
    destruct (checked_add I64 da _) as [da2|] eqn:E; simpl; [|done]. intros [= <-].
    apply checked_Some in E as [-> ?]. simpl. split; [done|].
    rewrite (proj2 (Z.leb_gt 1 da)), (proj2 (Z.leb_le da 0)) by lia. simpl.
    repeat case_if_bool; lia.
  - destruct (checked_sub I64 da _) as [da2|] eqn:E; simpl; [|done].
    destruct (checked_add I64 mo 1) as [mo1|]; simpl; [|done].
    destruct (normalize_month yr mo1) as [[yr2 mo2]|]; simpl; [|done]. intros [= <-].
    apply checked_Some in E as [-> ?]. simpl. split; [done|].
    rewrite (proj2 (Z.leb_gt da (days_in_month (Some yr) mo))), (proj2 (Z.leb_gt da 0)) by lia.
    rewrite andb_false_r. repeat case_if_bool; lia.
Qed.

(** The [loop] of [normalize_day] terminates on every [i64] day: every round
    brings the day closer to the range of its month, and the bound of the model
    is never reached. *)
Theorem normalize_day_terminates (yr mo da : Z) :
  in_int I64 da ->
  exists r, bounded_loop normalize_day_depth normalize_day_round (yr, mo, da) = inr r.
Proof.
  intros Hda. apply (bounded_loop_terminates normalize_day_round (fun st => in_int I64 (snd st))
    day_distance); [intros st st' H E; by apply normalize_day_round_decreases|done|].
  unfold day_distance. change (2 ^ Z.of_nat normalize_day_depth) with 18446744073709551616.
  repeat case_if_bool; int_bounds.
Qed.

Lemma normalize_day_terminates_witness :
  exists r, bounded_loop normalize_day_depth normalize_day_round (2000, 1, int_min I64) = inr r.
Proof. apply (normalize_day_terminates 2000 1 (int_min I64)). split; discriminate. Defined.

Lemma checked_rem_12 (a : Z) : in_int I64 a -> checked_rem I64 a 12 = Some (Z.rem a 12).
Proof.
  intros H. unfold checked_rem. simpl.
  rewrite (proj2 (fits_true I64 _)); [done|].
  unfold in_int, int_min, int_max in *. Z.to_euclidean_division_equations. lia.
Qed.

Lemma normalize_month_positive (yr mo : Z) :
  year_ok yr -> 1 <= mo <= int_max I64 ->
  normalize_month yr mo = Some (yr + (mo - 1) / 12, (mo - 1) mod 12 + 1).
Proof.
  unfold year_ok. intros Hy Hmo. unfold normalize_month, checked_sub, checked_add, checked_div.
  rewrite Z.geb_leb, (proj2 (Z.leb_le 0 mo)) by lia. cbn [Z.eqb].
  rewrite (checked_in I64 (mo - 1)) by int_bounds. cbn [mbind option_bind].
  assert (Z.quot (mo - 1) 12 = (mo - 1) / 12) as -> by (apply Z.quot_div_nonneg; lia).
  pose proof (Z.div_mod (mo - 1) 12 ltac:(lia)) as Hdm.
  pose proof (Z.mod_pos_bound (mo - 1) 12 eq_refl) as Hm.
  rewrite (checked_in I64 ((mo - 1) / 12)) by int_bounds. cbn [mbind option_bind].
  rewrite (checked_in I64 (yr + _)) by int_bounds. cbn [mbind option_bind].
  rewrite checked_rem_12 by int_bounds. cbn [mbind option_bind].
  rewrite Z.rem_mod_nonneg, Z.abs_eq by lia.
  rewrite (checked_in I64) by int_bounds. cbn [mbind option_bind].
  by rewrite checked_in by int_bounds.
Qed.

Lemma normalize_month_negative (yr mo : Z) :
  year_ok yr -> int_min I64 < mo < 0 ->
  normalize_month yr mo = Some (yr + Z.quot (mo - 1) 12 - 1, Z.rem (mo - 1) 12 + 13).
Proof.
  unfold year_ok. intros Hy Hmo. unfold normalize_month, checked_sub, checked_add, checked_div.
  rewrite Z.geb_leb, (proj2 (Z.leb_gt 0 mo)) by lia. cbn [Z.eqb].
  rewrite (checked_in I64 (mo - 1)) by int_bounds. cbn [mbind option_bind].
  assert (-12 < Z.rem (mo - 1) 12 <= 0 /\ int_min I64 <= 12 * Z.quot (mo - 1) 12 <= 0) as [Hr Hq]
    by (unfold int_min in *; Z.to_euclidean_division_equations; lia).
  rewrite (checked_in I64 (Z.quot _ _)) by int_bounds. cbn [mbind option_bind].
  rewrite (checked_in I64 (_ - 1)) by int_bounds. cbn [mbind option_bind].
  rewrite (checked_in I64 (yr + _)) by int_bounds. cbn [mbind option_bind].
  rewrite checked_rem_12 by int_bounds. cbn [mbind option_bind].
  rewrite (checked_in I64) by int_bounds. cbn [mbind option_bind].
  rewrite (checked_in I64) by int_bounds. cbn [mbind option_bind].
  rewrite checked_in by int_bounds. cbn [mbind option_bind]. do 2 f_equal; lia.
Qed.

(** [normalize_month] on a month and, as [normalize_day] does, on its result. *)
Lemma normalize_month_twice (yr mo : Z) :
  year_small yr -> mo <> 0 -> int_min I64 < mo <= int_max I64 ->
  let y' := (12 * yr + mo - 1) / 12 in
  let m' := (12 * yr + mo - 1) mod 12 + 1 in
  exists y1 m1, normalize_month yr mo = Some (y1, m1) /\
    days_in_month (Some y1) m1 = days_in_month (Some y') m' /\
    normalize_month y1 m1 = Some (y', m').
Proof.
  intros Hy Hmo Hr y' m'. pose proof (year_small_ok yr Hy) as Hyok. unfold year_small in Hy.
  destruct (Z.lt_ge_cases mo 0).
  - rewrite normalize_month_negative by (done || lia). eexists _, _. split; [reflexivity|].
    assert (year_ok (yr + Z.quot (mo - 1) 12 - 1)) as Hy1 by (unfold year_ok, int_min, int_max in *;
      Z.to_euclidean_division_equations; lia).
    destruct (Z.eq_dec (Z.rem (mo - 1) 12) 0) as [E|E].
    + assert (m' = 1 /\ y' = yr + Z.quot (mo - 1) 12 - 1 + 1) as [-> ->]
        by (subst y' m'; Z.to_euclidean_division_equations; lia).
      rewrite E. split; [done|]. by rewrite normalize_month_positive by done.
    + assert (m' = Z.rem (mo - 1) 12 + 13 /\ y' = yr + Z.quot (mo - 1) 12 - 1 /\ 1 <= m' <= 12)
        as (Em & Ey & Hm') by (subst y' m'; Z.to_euclidean_division_equations; lia).
      rewrite <- ?Em, <- ?Ey in *. split; [done|]. rewrite normalize_month_positive by (done || int_bounds).
      rewrite Z.div_small, Z.mod_small by lia. do 2 f_equal; lia.
  - rewrite normalize_month_positive by (done || lia). eexists _, _. split; [reflexivity|].
    assert (year_ok (yr + (mo - 1) / 12)) as Hy1 by (unfold year_ok, int_min, int_max in *;
      Z.to_euclidean_division_equations; lia).
    assert (m' = (mo - 1) mod 12 + 1 /\ y' = yr + (mo - 1) / 12 /\ 1 <= m' <= 12) as (Em & Ey & Hm')
      by (subst y' m'; Z.to_euclidean_division_equations; lia).
    rewrite <- ?Em, <- ?Ey in *. split; [done|]. rewrite normalize_month_positive by (done || int_bounds).
    rewrite Z.div_small, Z.mod_small by lia. do 2 f_equal; lia.
Qed.

(** Seconds below a minute are left alone by [normalize_second]. *)
Lemma normalize_second_small (yr mo da h mi : Z) (s : Decimal) :
  0 <= h < 24 -> 0 <= mi < 60 -> 0 <= Decimal_value s < 60 * DECIMAL_PART_POW -> in_int I64 da ->
  normalize_second yr mo da h mi s
  = ('(y, m, d) ← normalize_day yr mo da; Some (y, m, d, h, mi, s)).
Proof.
  intros Hh Hmi Hs Hda. destruct s as [s]. simpl Decimal_value in Hs.
  unfold normalize_second, Decimal_as_i128, checked_div. simpl Decimal_value. cbn [Z.eqb].
  assert (Z.quot (Z.quot s DECIMAL_PART_POW) 60 = 0) as ->.
  { rewrite quot_quot by lia. apply Z.quot_small. unfold DECIMAL_PART_POW in *. lia. }
  unfold checked_add, Decimal_checked_rem, checked_rem. simpl Decimal_value.
  change (60 * DECIMAL_PART_POW =? 0) with false. cbv iota.
  rewrite (checked_in I128) by int_bounds. cbn [mbind option_bind].
  rewrite (checked_in I64 0) by int_bounds. cbn [mbind option_bind].
  rewrite Z.add_0_r, (checked_in I64 mi) by int_bounds. cbn [mbind option_bind].
  rewrite (Z.quot_small s), (Z.rem_small s) by done. cbn [fits]. 
  change (fits I128 0) with true. cbn [fmap option_fmap option_map mbind option_bind].
  unfold normalize_minute, checked_div, checked_rem, checked_add. cbn [Z.eqb].
  rewrite (Z.quot_small mi), (Z.rem_small mi) by lia.
  change (fits I64 0) with true. rewrite (checked_in I64 0) by int_bounds. cbn [mbind option_bind].
  rewrite Z.add_0_r, (checked_in I64 h) by int_bounds. cbn [mbind option_bind].
  rewrite (Z.quot_small h), (Z.rem_small h) by lia.
  change (fits I64 0) with true. rewrite (checked_in I64 0) by int_bounds. cbn [mbind option_bind].
  rewrite Z.add_0_r, (checked_in I64 da) by done. cbn [mbind option_bind].
  destruct (normalize_day yr mo da) as [[[y m] d]|]; cbn [mbind option_bind]; [|done].
  rewrite !(checked_in U8) by int_bounds. done.
Qed.

(** A day in the range of its month is left alone by [normalize_day]. *)
Lemma normalize_day_valid (yr mo y m d : Z) :
  normalize_month yr mo = Some (y, m) -> 1 <= d <= days_in_month (Some y) m ->
  normalize_day yr mo d = Some (y, m, d).
Proof.
  intros E Hd. unfold normalize_day. rewrite E. cbn [mbind option_bind].
  pose proof (days_in_month_range (Some y) m).
  assert (normalize_day_round (y, m, d) = inr (Some (y, m, d))) as Er.
  { unfold normalize_day_round. rewrite (proj2 (Z.leb_gt d 0)), Z.gtb_ltb, (proj2 (Z.ltb_ge _ d)) by lia.
    by rewrite checked_in by int_bounds. }
  assert (forall k, bounded_loop k normalize_day_round (y, m, d) = inr (Some (y, m, d))) as El
    by (intros k; induction k as [|k IH]; simpl; [done|by rewrite IH]).
  by rewrite El.
Qed.

(** The month [n] months after month [m] of year [y], counted from month 0 of year 0. *)
Definition month_index (y m n : Z) : Z := 12 * y + m - 1 + n.

Lemma plus_months (y m d h mi s n : Z) (tz : option TimezoneOffset) :
  year_small y -> 1 <= d <= 31 -> 0 <= h < 24 -> 0 <= mi < 60 ->
  0 <= s < 60 * DECIMAL_PART_POW -> m + n <> 0 -> int_min I64 < m + n <= int_max I64 ->
  let y' := month_index y m n / 12 in
  let m' := month_index y m n mod 12 + 1 in
  date_time_plus_duration (Duration_from_year_month (mkYearMonthDuration n))
    (mkProps (Some y) (Some m) (Some d) (Some h) (Some mi) (Some (mkDecimal s)) tz)
  = Some (mkProps (Some y') (Some m') (Some (Z.min d (days_in_month (Some y') m')))
            (Some h) (Some mi) (Some (mkDecimal s)) tz).
Proof.
  intros Hy Hd Hh Hmi Hs Hmn Hr y' m'.
  destruct (normalize_month_twice y (m + n) Hy Hmn Hr) as (y1 & m1 & N1 & Edim & N2).
  replace (12 * y + (m + n) - 1) with (month_index y m n) in Edim, N2 by (unfold month_index; lia).
  fold y' m' in Edim, N2. clearbody y' m'. pose proof (days_in_month_range (Some y') m').
  pose proof (normalize_second_small y1 m1 (Z.min d (days_in_month (Some y') m')) h mi (mkDecimal s)
    Hh Hmi Hs ltac:(int_bounds)) as N3.
  rewrite (normalize_day_valid y1 m1 y' m' _ N2) in N3 by lia.
  unfold date_time_plus_duration. simpl default.
  replace (checked_add I64 m (Duration_all_months _)) with (Some (m + n))
    by (symmetry; apply checked_in; int_bounds).
  cbn [mbind option_bind]. rewrite N1. cbn [mbind option_bind]. rewrite Edim.
  replace (Decimal_checked_add (mkDecimal s) _) with (Some (mkDecimal s)).
  2:{ unfold Decimal_checked_add, checked_add. simpl Decimal_value. rewrite Z.add_0_r, checked_in; [done|].
      unfold DECIMAL_PART_POW in *. int_bounds. }
  cbn [mbind option_bind]. rewrite N3. reflexivity.
Qed.

Lemma option_bind_Some {E A B C : Type} (p : A) (g : A -> result E B) (f : B -> C) :
  (x ← Some p; t ← ok (g x); Some (f t)) = f <$> ok (g p).
Proof. simpl. by destruct (g p). Qed.

(** The accessors of a date-time, as a civil date and time. *)
Lemma DateTime_civil (t : Timestamp) :
  Timestamp_wf t ->
  exists y m d h mi s, year_small y /\ 1 <= m <= 12 /\ 1 <= d <= 31 /\ 0 <= h < 24 /\ 0 <= mi < 60 /\
    0 <= s < 60 * DECIMAL_PART_POW /\
    DateTime_year (mkDateTime t) = y /\ DateTime_month (mkDateTime t) = m /\
    DateTime_day (mkDateTime t) = d /\ DateTime_hour (mkDateTime t) = h /\
    DateTime_minute (mkDateTime t) = mi /\ DateTime_second (mkDateTime t) = mkDecimal s.
Proof.
  intros Hwf.
  destruct (Timestamp_civil t Hwf) as (y & m & d & h & mi & k & Hy & [Hm Hd] & Hh & Hmi & Hk & El & E1 & E2 & E3).
  pose proof (days_in_month_range (Some y) m).
  exists y, m, d, h, mi, (Decimal_value (ts_value t) mod (60 * DECIMAL_PART_POW)).
  unfold DateTime_year, DateTime_month, DateTime_day, DateTime_hour, DateTime_minute, DateTime_second.
  cbn [DateTime_timestamp]. unfold Timestamp_year, Timestamp_month, Timestamp_day.
  rewrite E1, Timestamp_second_mod by apply Hwf.
  split_and!; try done; try lia; by apply Z.mod_pos_bound.
Qed.

(** Adding [n] months to a date-time moves to the month [n] months later,
    clips the day to the length of that month and keeps the time of day and the
    timezone, for every [n] except those that bring [month + n] to 0. *)
Theorem DateTime_add_months (a : DateTime) (n : Z) :
  Timestamp_wf (DateTime_timestamp a) -> n <> 0 -> DateTime_month a + n <> 0 ->
  int_min I64 < DateTime_month a + n <= int_max I64 ->
  let y' := month_index (DateTime_year a) (DateTime_month a) n / 12 in
  let m' := month_index (DateTime_year a) (DateTime_month a) n mod 12 + 1 in
  DateTime_checked_add_year_month_duration a (mkYearMonthDuration n)
  = mkDateTime <$> ok (Timestamp_new
      (mkProps (Some y') (Some m') (Some (Z.min (DateTime_day a) (days_in_month (Some y') m')))
         (Some (DateTime_hour a)) (Some (DateTime_minute a)) (Some (DateTime_second a))
         (DateTime_timezone_offset a))).
Proof.
  destruct a as [t]. cbn [DateTime_timestamp]. intros Hwf Hn.
  destruct (DateTime_civil t Hwf) as (y & m & d & h & mi & s & Hy & Hm & Hd & Hh & Hmi & Hs & E1 & E2 & E3 & E4 & E5 & E6).
  unfold DateTime_checked_add_year_month_duration, DateTime_checked_add_duration.
  replace (DayTimeDuration_try_from_duration _)
    with (Err (A := DayTimeDuration) DurationOverflow).
  2:{ unfold DayTimeDuration_try_from_duration, YearMonthDuration_is_identical_with.
      change (ymd_months (dur_year_month (Duration_from_year_month (mkYearMonthDuration n)))) with n.
      change (ymd_months YearMonthDuration_default) with 0.
      by rewrite (proj2 (Z.eqb_neq n 0) Hn). }
  unfold DateTime_properties. rewrite E1, E2, E3, E4, E5, E6. intros Hmn Hr. cbv zeta.
  pose proof (plus_months y m d h mi s n (DateTime_timezone_offset (mkDateTime t))
    Hy Hd Hh Hmi Hs Hmn Hr) as P.
  cbv zeta in P. rewrite P. apply option_bind_Some.
Qed.

Lemma DateTime_add_months_witness :
  DateTime_to_string <$> DateTime_checked_add_year_month_duration
    (mkDateTime (mkTimestamp (Decimal_from_int 63116496000) None)) (mkYearMonthDuration 13)
  = Some (str "2002-02-28T00:00:00").
Proof.
  rewrite (DateTime_add_months (mkDateTime (mkTimestamp (Decimal_from_int 63116496000) None)) 13).
  - vm_compute. reflexivity.
  - split; [split; discriminate|exact I].
  - discriminate.
  - vm_compute. discriminate.
  - vm_compute. split; [reflexivity|discriminate].
Defined.

(** ** Casts *)

Lemma month_offset_range (y m : Z) : 1 <= m <= 12 -> 0 <= days_before_month y m <= 335.
Proof.
  intros Hm. rewrite days_before_month_offset by lia. unfold month_offset.
  month_split Hm m; simpl; destruct (leap_year y); simpl; lia.
Qed.

(** The properties of the types without a year never overflow. *)
Lemma Timestamp_new_no_year (m d h mi : option Z) (s : option Decimal) (tz : option TimezoneOffset) :
  from_option (fun m => 1 <= m <= 12) True m -> from_option (fun d => 1 <= d <= 31) True d ->
  from_option (fun h => 0 <= h <= 24) True h -> from_option (fun mi => 0 <= mi < 60) True mi ->
  from_option (fun s => 0 <= Decimal_value s < 60 * DECIMAL_PART_POW) True s -> tz_wf tz ->
  is_Some (ok (Timestamp_new (mkProps None m d h mi s tz))).
Proof.
  intros Hm Hd Hh Hmi Hs Htz. pose proof (tz_seconds_bound tz Htz) as Hb.
  assert (-1000000000000 <= timeline_seconds (mkProps None m d h mi s tz) <= 1000000000000) as Ht.
  { unfold timeline_seconds.
    cbn [props_year props_month props_day props_hour props_minute props_timezone_offset].
    rewrite (wrap_id I64 (1971 + 1)) by int_bounds.
    change (wrap I64 (1971 / 400 - 1971 / 100 + 1971 / 4)) with 477.
    assert (0 <= days_before_month (1971 + 1) (default 12 m) <= 335) as H1
      by (apply month_offset_range; destruct m; simpl in *; lia).
    assert (0 <= match d with Some d => wrap U8 (d - 1)
      | None => wrap U8 (days_in_month (Some (1971 + 1)) (default 12 m) - 1) end <= 255) as H2
      by (destruct d; apply (wrap_in U8)).
    assert (0 <= default 0 h <= 24) as H3 by (destruct h; simpl in *; lia).
    assert (0 <= default 0 mi < 60) as H4 by (destruct mi; simpl in *; lia).
    unfold tz_seconds in Hb. lia. }
  assert (0 <= Decimal_value (default Decimal_default s) < 60 * DECIMAL_PART_POW) as Hs'
    by (destruct s; simpl in *; [done|unfold DECIMAL_PART_POW; lia]).
  unfold Timestamp_new, time_on_timeline. cbn [props_second].
  unfold Decimal_try_from_i128, checked_mul, Decimal_checked_add, checked_add.
  generalize dependent (timeline_seconds (mkProps None m d h mi s tz)). intros l Hl.
  rewrite (checked_in I128 (l * _)) by (unfold DECIMAL_PART_POW; int_bounds).
  cbn [ok_or mbind result_bind option_bind ok Decimal_value].
  rewrite checked_in by (unfold DECIMAL_PART_POW in *; int_bounds). by eexists.
Qed.

(** The month and the day of a timestamp are in range. *)
Lemma Timestamp_month_day (t : Timestamp) :
  Timestamp_wf t -> 1 <= Timestamp_month t <= 12 /\ 1 <= Timestamp_day t <= 31.
Proof.
  intros Hwf. destruct (Timestamp_civil t Hwf) as (y & m & d & h & mi & k & _ & [Hm Hd] & _ & _ & _ & _ & E & _).
  unfold Timestamp_month, Timestamp_day. rewrite E. pose proof (days_in_month_range (Some y) m). lia.
Qed.

Lemma ok_wrap_is_Some {E A B : Type} (r : result E A) (f : A -> B) :
  is_Some (ok r) -> is_Some (ok (a ← r; Ok (f a))).
Proof. destruct r; simpl; [by eexists|by intros [? ?]]. Qed.

(** The casts documented not to fail do not panic: from dateTime and date to
    time, gMonthDay, gMonth and gDay, from gYearMonth to gMonth and from
    gMonthDay to gMonth and gDay. *)
Theorem casts_do_not_panic (t : Timestamp) :
  Timestamp_wf t ->
  is_Some (Time_from_date_time (mkDateTime t)) /\
  is_Some (GMonthDay_from_date_time (mkDateTime t)) /\ is_Some (GMonthDay_from_date (mkDate t)) /\
  is_Some (GMonth_from_date_time (mkDateTime t)) /\ is_Some (GMonth_from_date (mkDate t)) /\
  is_Some (GMonth_from_g_year_month (mkGYearMonth t)) /\
  is_Some (GMonth_from_g_month_day (mkGMonthDay t)) /\
  is_Some (GDay_from_date_time (mkDateTime t)) /\ is_Some (GDay_from_date (mkDate t)) /\
  is_Some (GDay_from_g_month_day (mkGMonthDay t)).
Proof.
  intros Hwf. destruct (Timestamp_month_day t Hwf) as [Hm Hd].
  destruct (Timestamp_civil t Hwf) as (_ & _ & _ & h & mi & _ & _ & _ & Hh & Hmi & _ & _ & _ & E2 & E3).
  destruct Hwf as [Hv Htz].
  pose proof (Z.mod_pos_bound (Decimal_value (ts_value t)) (60 * DECIMAL_PART_POW) eq_refl) as Hs.
  split_and!; apply ok_wrap_is_Some, Timestamp_new_no_year; try done.
  - simpl. unfold DateTime_hour, DateTime_minute, DateTime_second. cbn [DateTime_timestamp].
    rewrite E2. case_if_bool; lia.
  - simpl. unfold DateTime_minute. cbn [DateTime_timestamp]. by rewrite E3.
  - simpl. unfold DateTime_second. cbn [DateTime_timestamp]. by rewrite Timestamp_second_mod.
Qed.

Lemma casts_do_not_panic_witness : is_Some (Time_from_date_time DateTime_MIN).
Proof.
  apply (casts_do_not_panic Timestamp_MIN). split; split; discriminate.
Defined.

(** The cast from date to gYearMonth can panic: the date 5391559471919-03-30
    parses, but the gYearMonth is stored as the last day of the month, which is
    out of range. *)
Theorem GYearMonth_from_date_panics :
  exists d, Date_from_str (str "5391559471919-03-30") = Ok d /\ GYearMonth_from_date d = None.
Proof.
  exists (mkDate (mkTimestamp (Decimal_from_int 170141183460469180800) None)).
  split; vm_compute; reflexivity.
Qed.

(** ** Bytes and timezones *)

Lemma Timestamp_bytes_exact (t : Timestamp) :
  Timestamp_wf t ->
  Timestamp_from_be_bytes (Timestamp_to_be_bytes t) = t
  <-> ts_timezone_offset t <> Some (mkTimezoneOffset (-1)).
Proof.
  intros [Hv Htz]. destruct t as [v tz]. cbn [ts_value ts_timezone_offset] in *.
  unfold Timestamp_from_be_bytes, Timestamp_to_be_bytes. cbn [ts_value ts_timezone_offset].
  rewrite take_app_length_eq, drop_app_length_eq by (apply length_to_be_bytes).
  rewrite Decimal_from_to_be_bytes by done. destruct tz as [[o]|].
  - unfold TimezoneOffset_to_be_bytes, TimezoneOffset_from_be_bytes. simpl tz_offset. simpl in Htz.
    rewrite take_ge by (by rewrite length_to_be_bytes). rewrite from_to_be_bytes by done.
    destruct (decide (o = -1)) as [->|Ho].
    + rewrite bool_decide_true by (vm_compute; reflexivity). split; [done|]. intros H. by destruct H.
    + rewrite bool_decide_false; [split; [congruence|done]|].
      intros C. apply Ho. rewrite <- (from_to_be_bytes I16 o), C by done. vm_compute. reflexivity.
  - rewrite bool_decide_true by (vm_compute; reflexivity). done.
Qed.

(** Writing a timestamp to its 18 bytes and reading it back gives it back
    exactly when its timezone offset is not -1 minute, whose two bytes are the
    marker of an absent timezone. *)
Theorem Timestamp_from_to_be_bytes (t : Timestamp) :
  Timestamp_wf t ->
  Timestamp_from_be_bytes (Timestamp_to_be_bytes t) = t
  <-> ts_timezone_offset t <> Some (mkTimezoneOffset (-1)).
Proof. apply Timestamp_bytes_exact. Qed.

Lemma Timestamp_from_to_be_bytes_witness :
  Timestamp_from_be_bytes (Timestamp_to_be_bytes Timestamp_MIN) = Timestamp_MIN.
Proof.
  apply (Timestamp_from_to_be_bytes Timestamp_MIN); [split; split; discriminate|discriminate].
Defined.

Lemma length_Timestamp_to_be_bytes (t : Timestamp) : length (Timestamp_to_be_bytes t) = 18%nat.
Proof.
  unfold Timestamp_to_be_bytes, Decimal_to_be_bytes. rewrite length_app, length_to_be_bytes.
  destruct (ts_timezone_offset t); [|done]. unfold TimezoneOffset_to_be_bytes.
  by rewrite length_to_be_bytes.
Qed.
#[export] Hint Rewrite length_Timestamp_to_be_bytes : oxi_len.
