(* ===== verification/XsdDateTimeTextFacts.v ===== *)
(** * Round trip of the date/time types through text

    Parsing what [Display] writes gives the value back, for the eight types. *)
From S2P Require Import Prelude MachineInt RustStr XsdDecimal XsdDecimalFacts XsdDuration.
From S2P Require Import XsdDurationFacts XsdDateTime XsdDateTimeText XsdCalendarFacts.
From S2P Require Import XsdDateTimeFacts.

(** ** Fragments *)

(** What may follow a number: not a digit, not a dot. *)
Definition stops (rest : bytes) : Prop :=
  match rest with c :: _ => is_ascii_digit c = false /\ c <> "."%char | [] => True end.

Lemma integer_prefix_stops (d rest : bytes) :
  all_digits d -> stops rest -> integer_prefix (d ++ rest) = (d, rest).
Proof. intros Hd Hr. apply integer_prefix_digits; [done|]. destruct rest; [done|]. apply Hr. Qed.

Lemma print_padded_length (w : nat) (n : Z) :
  0 <= n < 10 ^ Z.of_nat w -> (0 < w)%nat -> length (print_padded w n) = w.
Proof.
  intros Hn Hw. unfold print_padded. rewrite length_app, length_replicate.
  pose proof (print_nat_length w n Hn Hw). lia.
Qed.

Lemma print_padded_cons (w : nat) (n : Z) : 0 <= n -> exists c s, print_padded w n = c :: s.
Proof.
  intros Hn. unfold print_padded. destruct (replicate _ _) as [|x l] eqn:E; [|by exists x, (l ++ print_nat n)].
  by apply print_nat_cons.
Qed.

Lemma int_from_str_padded (t : int_ty) (w : nat) (n : Z) :
  0 <= n <= int_max t -> int_from_str t (print_padded w n) = Ok n.
Proof.
  intros Hn. pose proof (print_padded_digits w n ltac:(lia)) as Hd.
  pose proof (print_padded_value w n ltac:(lia)) as Hv.
  destruct (print_padded_cons w n ltac:(lia)) as (c & s & E). rewrite E in *.
  rewrite int_from_str_digits; [by rewrite Hv|done|rewrite Hv; lia].
Qed.

Lemma two_digits_frag_print (lo hi n : Z) (m1 m2 : string) (rest : bytes) :
  lo <= n <= hi -> 0 <= n < 100 -> stops rest ->
  two_digits_frag lo hi m1 m2 (print_padded 2 n ++ rest) = Ok (n, rest).
Proof.
  intros Hn Hb Hr. unfold two_digits_frag.
  rewrite integer_prefix_stops by (done || apply print_padded_digits; lia).
  rewrite print_padded_length by (change (10 ^ Z.of_nat 2) with 100; lia). cbn [Nat.eqb negb].
  rewrite int_from_str_padded by (simpl; lia). cbn [map_err mbind result_bind].
  by rewrite (proj2 (Z.leb_le lo n)), (proj2 (Z.leb_le n hi)) by lia.
Qed.

Lemma expect_char_here (c : ascii) (rest : bytes) (msg : string) :
  expect_char (str (String c EmptyString) ++ rest) c msg = Ok rest.
Proof. unfold expect_char. simpl. by rewrite Ascii.eqb_refl. Qed.

(** A year of more than four digits has no leading zero. *)
Lemma year_digits_ok (n : Z) :
  0 <= n -> (4 <= length (print_padded 4 n))%nat /\
  ((4 <? length (print_padded 4 n))%nat
   && match print_padded 4 n with c :: _ => Ascii.eqb c "0"%char | [] => false end = false).
Proof.
  intros Hn. unfold print_padded.
  destruct (Nat.le_gt_cases (length (print_nat n)) 4) as [Hl|Hl].
  - rewrite length_app, length_replicate. split; [lia|].
    by replace (4 - length (print_nat n) + length (print_nat n))%nat with 4%nat by lia.
  - replace (4 - length (print_nat n))%nat with O by lia. simpl. split; [lia|].
    destruct (print_nat n) as [|c s] eqn:E; [apply andb_false_r|].
    rewrite andb_false_iff. right. apply Ascii.eqb_neq. apply (print_nat_first n c s); [|done].
    destruct (decide (n = 0)) as [->|]; [|lia]. exfalso. apply (f_equal length) in E. simpl in *. lia.
Qed.

Lemma year_frag_print (y : Z) (rest : bytes) :
  Z.abs y <= int_max I64 -> stops rest -> year_frag (print_year y ++ rest) = Ok (y, rest).
Proof.
  intros Hy Hr. unfold year_frag, print_year.
  destruct (year_digits_ok (Z.abs y) ltac:(lia)) as [Hl Hz].
  assert ((match strip_prefix "-" (((if y <? 0 then str "-" else []) ++ print_padded 4 (Z.abs y)) ++ rest)
           with Some rest => (-1, rest) | None => (1, ((if y <? 0 then str "-" else [])
             ++ print_padded 4 (Z.abs y)) ++ rest) end)
    = ((if y <? 0 then -1 else 1), print_padded 4 (Z.abs y) ++ rest)) as ->.
  { destruct (Z.ltb_spec y 0); [done|].
    pose proof (print_padded_digits 4 (Z.abs y) ltac:(lia)) as Hd.
    destruct (print_padded_cons 4 (Z.abs y) ltac:(lia)) as (c & s & E). rewrite E in *.
    inversion Hd; subst. cbn [app strip_prefix]. by rewrite (digit_not c). }
  rewrite integer_prefix_stops by (done || apply print_padded_digits; lia).
  rewrite (proj2 (Nat.ltb_ge _ 4)) by done. rewrite Hz.
  rewrite int_from_str_padded by lia. cbn [map_err mbind result_bind].
  do 2 f_equal. destruct (Z.ltb_spec y 0); lia.
Qed.

(** The text of the seconds: two digits and the fraction. *)
Lemma print_second_shape (s : Z) :
  0 <= s < 60 * DECIMAL_PART_POW ->
  exists after, fraction_text s after /\
    print_second (mkDecimal s) = print_padded 2 (s / DECIMAL_PART_POW) ++ after.
Proof.
  intros Hs. destruct (Decimal_to_string_shape (mkDecimal s)) as (before & after & H0 & H1 & H2 & H3 & H4 & _);
    [unfold Decimal_wf, DECIMAL_PART_POW in *; simpl; int_bounds|].
  simpl Decimal_value in *. rewrite Z.abs_eq in * by lia. exists after. split; [done|].
  rewrite (proj2 (Z.ltb_ge s 0)), app_nil_l in H4 by lia.
  unfold print_second, Decimal_ltb, Decimal_from_int. simpl Decimal_value.
  rewrite H4, H0. unfold print_padded.
  rewrite (proj2 (Z.ltb_lt (-10 * DECIMAL_PART_POW) s)) by (unfold DECIMAL_PART_POW in *; lia). simpl andb.
  assert (s / DECIMAL_PART_POW < 60) by (apply Z.div_lt_upper_bound; [done|lia]).
  destruct (Z.ltb_spec s (10 * DECIMAL_PART_POW)).
  - assert (length (print_nat (s / DECIMAL_PART_POW)) <= 1)%nat.
    { apply print_nat_length; [|lia]. split; [apply Z.div_pos; [lia|done]|].
      apply Z.div_lt_upper_bound; [done|]. change (10 ^ Z.of_nat 1) with 10. lia. }
    destruct (print_nat_cons (s / DECIMAL_PART_POW)) as (c & r & E); [apply Z.div_pos; [lia|done]|].
    rewrite E in *. simpl in *. destruct r; [done|simpl in *; lia].
  - assert (10 <= s / DECIMAL_PART_POW) by (apply Z.div_le_lower_bound; [done|lia]).
    assert (2 <= length (print_nat (s / DECIMAL_PART_POW)))%nat as Hl.
    { destruct (Nat.le_gt_cases 2 (length (print_nat (s / DECIMAL_PART_POW)))); [done|]. exfalso.
      pose proof (print_nat_value (s / DECIMAL_PART_POW) ltac:(lia)) as Hv.
      pose proof (print_nat_digits (s / DECIMAL_PART_POW) ltac:(lia)) as Hd.
      destruct (print_nat _) as [|c [|c' r]]; simpl in *; try lia.
      inversion Hd as [|? ? Hc _]; subst. apply is_ascii_digit_value in Hc. lia. }
    by replace (2 - length (print_nat (s / DECIMAL_PART_POW)))%nat with O by lia.
Qed.

Lemma before_dot_digits (d rest : bytes) :
  all_digits d -> before_dot (d ++ "."%char :: rest) = d /\ before_dot d = d.
Proof.
  intros H. induction H as [|c d Hc _ [IH1 IH2]]; [by split|].
  cbn [app before_dot]. rewrite (digit_not c) by done. by rewrite IH1, IH2.
Qed.

Lemma last_digit (d : bytes) (c : ascii) :
  all_digits d -> list.last d = Some c -> Ascii.eqb c "."%char = false.
Proof.
  intros Hd Hl. apply digit_not; [|done]. apply last_Some in Hl as [l' ->].
  apply Forall_app in Hd as [_ Hd]. by inversion Hd.
Qed.

Lemma fraction_text_before_dot (n : Z) (d after : bytes) :
  all_digits d -> fraction_text n after -> before_dot (d ++ after) = d.
Proof.
  intros Hd Hf. destruct Hf; [rewrite app_nil_r; by apply (before_dot_digits d [])|].
  by apply before_dot_digits.
Qed.

Lemma fraction_text_last (n : Z) (d after : bytes) :
  d <> [] -> all_digits d -> fraction_text n after ->
  match list.last (d ++ after) with Some c => Ascii.eqb c "."%char | None => false end = false.
Proof.
  intros Hne Hd Hf. destruct (list.last (d ++ after)) as [c|] eqn:E; [|done].
  destruct Hf as [_|x e _ He _ _].
  - rewrite app_nil_r in E. by apply last_digit in E.
  - simpl in E. replace (d ++ "."%char :: rev e ++ [x]) with ((d ++ "."%char :: rev e) ++ [x]) in E
      by (by rewrite <- app_assoc). rewrite last_snoc in E. injection E as <-.
    inversion He; subst. by apply digit_not.
Qed.

Lemma second_frag_print (s : Z) (rest : bytes) :
  0 <= s < 60 * DECIMAL_PART_POW -> stops rest ->
  second_frag (print_second (mkDecimal s) ++ rest) = Ok (mkDecimal s, rest).
Proof.
  intros Hs Hr. destruct (print_second_shape s Hs) as (after & Hf & ->).
  assert (0 <= s / DECIMAL_PART_POW < 60) as Hq
    by (split; [apply Z.div_pos; [lia|done]|apply Z.div_lt_upper_bound; [done|lia]]).
  set (d := print_padded 2 (s / DECIMAL_PART_POW)).
  assert (all_digits d) as Hd by (apply print_padded_digits; lia).
  assert (length d = 2%nat) as Hl by (apply print_padded_length; [change (10 ^ Z.of_nat 2) with 100|]; lia).
  assert (d <> []) as Hne by (by intros ->).
  unfold second_frag.
  assert (decimal_prefix ((d ++ after) ++ rest) = (d ++ after, rest)) as ->.
  { destruct rest as [|c r].
    - rewrite app_nil_r. pose proof (number_text_parts s d after Hne Hd Hf) as Hn.
      unfold decimal_prefix. rewrite decimal_prefix_digits by done.
      destruct Hf as [_|x e _ He _ _]; [done|].
      cbn [decimal_prefix_from]. change (is_ascii_digit ".") with false.
      change (Ascii.eqb "." "." && negb false) with true. cbv iota.
      rewrite <- (app_nil_r (rev (x :: e))), decimal_prefix_digits by (by apply Forall_rev).
      simpl. by rewrite !app_nil_r.
    - destruct Hr as [Hc Hdot]. by apply (number_text_parts s d after Hne Hd Hf). }
  rewrite (fraction_text_before_dot s), Hl by done. cbn [Nat.eqb negb].
  pose proof (Decimal_from_str_text s false d after) as Hp. rewrite app_nil_l in Hp. rewrite Hp; try done.
  2: lia.
  2: unfold DECIMAL_PART_POW in *; int_bounds.
  2: apply print_padded_value; lia.
  cbn [map_err mbind result_bind]. unfold Decimal_ltb, Decimal_from_int. simpl Decimal_value.
  rewrite (proj2 (Z.ltb_ge s _)), (proj2 (Z.ltb_lt s _)) by (unfold DECIMAL_PART_POW in *; lia).
  cbn [orb negb]. by rewrite (fraction_text_last s).
Qed.

(** ** Timezones *)

Definition tz_valid (tz : option TimezoneOffset) : Prop :=
  from_option (fun z => -840 <= tz_offset z <= 840) True tz.

Lemma tz_valid_wf (tz : option TimezoneOffset) : tz_valid tz -> tz_wf tz.
Proof. unfold tz_valid, tz_wf. destruct tz as [z|]; simpl; [intros; int_bounds|done]. Qed.

Lemma print_timezone_stops (tz : option TimezoneOffset) (rest : bytes) :
  stops rest -> stops (print_timezone tz ++ rest).
Proof.
  intros Hr. destruct tz as [[o]|]; [|done]. simpl. unfold TimezoneOffset_to_string. simpl.
  destruct (o =? 0); [done|]. by destruct (o <? 0).
Qed.

(** Reading a signed offset of at most fourteen hours. *)
Lemma timezone_frag_signed (c : ascii) (sign o : Z) :
  c = "-"%char /\ sign = -1 \/ c = "+"%char /\ sign = 1 -> 0 < o <= 840 ->
  timezone_frag (str (String c EmptyString) ++ print_padded 2 (Z.quot o 60) ++ str ":"
                 ++ print_padded 2 (Z.rem o 60))
  = Ok (mkTimezoneOffset (sign * o), []).
Proof.
  intros Hc Ho.
  assert (0 <= Z.quot o 60 <= 14 /\ 0 <= Z.rem o 60 < 60 /\ o = Z.quot o 60 * 60 + Z.rem o 60)
    as (Hq & Hr & Ed) by (Z.to_euclidean_division_equations; lia).
  assert (forall i, timezone_frag (str (String c EmptyString) ++ i)
    = (let '(hour_str, input) := integer_prefix i in
      if negb (length hour_str =? 2)%nat
      then dt_msg "The timezone hours must be encoded with two digits"
      else
        hours ← map_err (fun _ => Message "Integer overflow") (int_from_str I16 hour_str);
        input ← expect_char input ":"%char "The timezone hours and minutes must be separated by ':'";
        '(minutes, input) ← minute_frag input;
        if (hours >? 13) && negb ((hours =? 14) && (minutes =? 0))
        then dt_msg "The timezone hours must be between 00 and 13"
        else
          tz ← map_err InvalidTimezone (TimezoneOffset_new (sign * (hours * 60 + minutes)));
          Ok (tz, input))) as Hstep by (by destruct Hc as [[-> ->]|[-> ->]]).
  rewrite Hstep, integer_prefix_stops by (done || apply print_padded_digits; lia).
  rewrite print_padded_length by (change (10 ^ Z.of_nat 2) with 100; lia). cbn [Nat.eqb negb].
  rewrite int_from_str_padded by (simpl; lia). cbn [map_err mbind result_bind].
  rewrite expect_char_here. cbn [mbind result_bind].
  unfold minute_frag. rewrite <- (app_nil_r (print_padded 2 (Z.rem o 60))).
  rewrite two_digits_frag_print by (done || lia). cbn [mbind result_bind].
  assert ((Z.quot o 60 >? 13) && negb ((Z.quot o 60 =? 14) && (Z.rem o 60 =? 0)) = false) as ->.
  { rewrite Z.gtb_ltb. destruct (Z.ltb_spec 13 (Z.quot o 60)); [|done].
    rewrite (proj2 (Z.eqb_eq (Z.quot o 60) 14)), (proj2 (Z.eqb_eq (Z.rem o 60) 0)) by lia. done. }
  rewrite <- Ed. unfold TimezoneOffset_new. simpl tz_offset.
  rewrite (proj2 (Z.leb_le (-840) _)), (proj2 (Z.leb_le _ 840)) by (destruct Hc as [[_ ->]|[_ ->]]; lia).
  done.
Qed.

Lemma optional_timezone_print (tz : option TimezoneOffset) :
  tz_valid tz -> optional_end (print_timezone tz) timezone_frag = Ok (tz, []).
Proof.
  intros Htz. destruct tz as [[o]|]; [|done]. simpl in Htz.
  assert (timezone_frag (TimezoneOffset_to_string (mkTimezoneOffset o)) = Ok (mkTimezoneOffset o, [])) as E.
  { unfold TimezoneOffset_to_string. simpl tz_offset.
    destruct (Z.eqb_spec o 0) as [->|]; [done|]. destruct (Z.ltb_spec o 0).
    - rewrite (timezone_frag_signed "-" (-1) (- o)) by (auto || lia). do 3 f_equal. lia.
    - rewrite (timezone_frag_signed "+" 1 o) by (auto || lia). do 3 f_equal. lia. }
  unfold print_timezone, optional_end. destruct (TimezoneOffset_to_string _) eqn:Et.
  - exfalso. clear E. unfold TimezoneOffset_to_string in Et. simpl in Et.
    destruct (o =? 0); [done|]. by destruct (o <? 0).
  - by rewrite E.
Qed.

(** ** Round trips *)

Lemma time_of_day_frag_print (h mi s : Z) (rest : bytes) :
  0 <= h < 24 -> 0 <= mi < 60 -> 0 <= s < 60 * DECIMAL_PART_POW -> stops rest ->
  time_of_day_frag (print_padded 2 h ++ str ":" ++ print_padded 2 mi ++ str ":"
                    ++ print_second (mkDecimal s) ++ rest)
  = Ok (h, mi, mkDecimal s, rest).
Proof.
  intros Hh Hmi Hs Hr. unfold time_of_day_frag, hour_frag, minute_frag.
  rewrite two_digits_frag_print by (done || lia). cbn [mbind result_bind].
  rewrite expect_char_here. cbn [mbind result_bind].
  rewrite two_digits_frag_print by (done || lia). cbn [mbind result_bind].
  rewrite expect_char_here. cbn [mbind result_bind].
  rewrite second_frag_print by done. cbn [mbind result_bind].
  by rewrite (proj2 (Z.eqb_neq h 24)) by lia.
Qed.

(** A timestamp whose fields determine it and whose timezone can be written. *)
Definition printable (t : Timestamp) : Prop :=
  let v := Decimal_value (ts_value t) in
  let s := v mod (60 * DECIMAL_PART_POW) in
  Decimal_wf (ts_value t) /\ tz_valid (ts_timezone_offset t) /\ in_int I128 (v - s) /\ exact_minute v s.

(** The civil fields of a printable timestamp. *)
Lemma printable_civil (t : Timestamp) :
  printable t ->
  exists y m d h mi s, Z.abs y <= int_max I64 /\ valid_date y m d /\ 0 <= h < 24 /\ 0 <= mi < 60 /\
    0 <= s < 60 * DECIMAL_PART_POW /\
    Timestamp_year t = y /\ Timestamp_month t = m /\ Timestamp_day t = d /\ Timestamp_hour t = h /\
    Timestamp_minute t = mi /\ Timestamp_second t = mkDecimal s /\
    Timestamp_new (mkProps (Some y) (Some m) (Some d) (Some h) (Some mi) (Some (mkDecimal s))
                     (ts_timezone_offset t)) = Ok t.
Proof.
  intros (Hv & Htz & Hlo & Hx). assert (Timestamp_wf t) as Hwf by (split; [done|by apply tz_valid_wf]).
  destruct (Timestamp_civil t Hwf) as (y & m & d & h & mi & k & Hy & Hd & Hh & Hmi & _ & _ & E1 & E2 & E3).
  exists y, m, d, h, mi, (Decimal_value (ts_value t) mod (60 * DECIMAL_PART_POW)).
  pose proof (proj2 (DateTime_properties_exact (mkDateTime t) Hwf Hlo) Hx) as Ep.
  rewrite (DateTime_properties_fields t y m d E1), E2, E3, Timestamp_second_mod in Ep by done.
  unfold Timestamp_year, Timestamp_month, Timestamp_day. rewrite E1.
  split; [unfold year_small in Hy; int_bounds|]. split; [done|]. split; [done|]. split; [done|].
  split; [by apply Z.mod_pos_bound|]. do 5 (split; [done|]). split; [|done]. by apply Timestamp_second_mod.
Qed.

(** Read a two-digit fragment and a separator of the text. *)
Ltac frag :=
  first [ rewrite year_frag_print by (done || (try by apply print_timezone_stops) || lia)
        | rewrite expect_char_here
        | rewrite time_of_day_frag_print by (done || by apply print_timezone_stops)
        | rewrite two_digits_frag_print by (done || lia || (by apply print_timezone_stops))
        | rewrite optional_timezone_print by done ];
  cbn [mbind result_bind].

(** Read all the fields up to the timezone, then the timezone. *)
Ltac parse_fields tz :=
  rewrite <- (app_nil_r (print_timezone tz)); repeat frag; rewrite ?app_nil_r; repeat frag.

Lemma validate_valid (y : option Z) (m d : Z) :
  d <= days_in_month y m -> validate_day_of_month y m d = Ok tt.
Proof. intros. unfold validate_day_of_month. by rewrite Z.gtb_ltb, (proj2 (Z.ltb_ge _ _)). Qed.

(** C40. Parsing what [Display] writes for a dateTime gives it back, when its
    timezone is at most fourteen hours, the start of its minute is in range and its
    properties determine the timestamp (so not the negative ones with a fraction of a
    second whose accessors truncate to another minute). *)
Theorem DateTime_from_to_string (a : DateTime) :
  printable (DateTime_timestamp a) -> DateTime_from_str (DateTime_to_string a) = Ok a.
Proof.
  destruct a as [t]. cbn [DateTime_timestamp]. intros Hp. pose proof Hp as (_ & Htz & _).
  destruct (printable_civil t Hp) as (y & m & d & h & mi & s & Hy & [Hm Hd] & Hh & Hmi & Hs & E1 & E2 & E3 & E4 & E5 & E6 & En).
  unfold DateTime_to_string, DateTime_year, DateTime_month, DateTime_day, DateTime_hour, DateTime_minute,
    DateTime_second, DateTime_timezone_offset, Timestamp_timezone_offset. cbn [DateTime_timestamp].
  rewrite E1, E2, E3, E4, E5, E6. pose proof (days_in_month_range (Some y) m).
  unfold DateTime_from_str, ensure_complete, date_time_lexical_rep, month_frag, day_frag.
  rewrite <- (app_nil_r (print_timezone (ts_timezone_offset t))).
  do 7 frag. rewrite app_nil_r. frag. rewrite validate_valid by lia. cbn [mbind result_bind].
  unfold DateTime_new. rewrite En. done.
Qed.

Lemma DateTime_from_to_string_witness :
  DateTime_from_str (DateTime_to_string (mkDateTime (mkTimestamp
    (mkDecimal 63120384000500000000000000000) (Some (mkTimezoneOffset (-90))))))
  = Ok (mkDateTime (mkTimestamp (mkDecimal 63120384000500000000000000000)
          (Some (mkTimezoneOffset (-90))))).
Proof.
  apply (DateTime_from_to_string (mkDateTime (mkTimestamp (mkDecimal 63120384000500000000000000000)
          (Some (mkTimezoneOffset (-90)))))).
  split; [split; discriminate|]. split; [split; discriminate|].
  split; [vm_compute; split; discriminate|]. left. discriminate.
Defined.

(** The properties a type leaves out stand for 1972, December, the last day of
    the month and midnight. *)
Lemma props_fill (y m d : Z) (oy om od oh omi : option Z) (os : option Decimal)
  (h mi : Z) (s : Decimal) (tz : option TimezoneOffset) :
  in_int I64 (y - 1) -> in_int I64 y ->
  oy = Some y \/ oy = None /\ y = 1972 -> om = Some m \/ om = None /\ m = 12 ->
  od = Some d \/ od = None /\ d = days_in_month (Some y) m ->
  oh = Some h \/ oh = None /\ h = 0 -> omi = Some mi \/ omi = None /\ mi = 0 ->
  os = Some s \/ os = None /\ s = Decimal_default ->
  Timestamp_new (mkProps oy om od oh omi os tz)
  = Timestamp_new (mkProps (Some y) (Some m) (Some d) (Some h) (Some mi) (Some s) tz).
Proof.
  intros Hy1 Hy Hoy Hom Hod Hoh Homi Hos. unfold Timestamp_new, time_on_timeline.
  assert (timeline_seconds (mkProps oy om od oh omi os tz)
    = timeline_seconds (mkProps (Some y) (Some m) (Some d) (Some h) (Some mi) (Some s) tz)) as ->.
  { unfold timeline_seconds.
    cbn [props_year props_month props_day props_hour props_minute props_timezone_offset].
    replace (match oy with Some y => wrap I64 (y - 1) | None => 1971 end) with (wrap I64 (y - 1))
      by (by destruct Hoy as [-> | [-> ->]]).
    rewrite (wrap_id I64 (y - 1)) by done. replace (y - 1 + 1) with y by lia. rewrite (wrap_id I64 y) by done.
    destruct Hom as [-> | [-> ->]], Hod as [-> | [-> ->]], Hoh as [-> | [-> ->]], Homi as [-> | [-> ->]];
      reflexivity. }
  by destruct Hos as [-> | [-> ->]].
Qed.

Definition midnight (t : Timestamp) : Prop :=
  Timestamp_hour t = 0 /\ Timestamp_minute t = 0 /\ Timestamp_second t = Decimal_default.

(** Parsing what [Display] writes gives the value back for the seven other
    types, on the timestamps they store: times on 1972-12-31, dates at midnight,
    and so on; a gMonthDay must not be --02-29. *)
Theorem date_parts_from_to_string (t : Timestamp) :
  printable t ->
  (Timestamp_year_month_day t = (1972, 12, 31) ->
     Time_from_str (Time_to_string (mkTime t)) = Ok (mkTime t)) /\
  (midnight t -> Date_from_str (Date_to_string (mkDate t)) = Ok (mkDate t)) /\
  (midnight t -> Timestamp_day t = days_in_month (Some (Timestamp_year t)) (Timestamp_month t) ->
     GYearMonth_from_str (GYearMonth_to_string (mkGYearMonth t)) = Ok (mkGYearMonth t)) /\
  (midnight t -> Timestamp_month t = 12 -> Timestamp_day t = 31 ->
     GYear_from_str (GYear_to_string (mkGYear t)) = Ok (mkGYear t)) /\
  (midnight t -> Timestamp_year t = 1972 -> Timestamp_day t <= days_in_month None (Timestamp_month t) ->
     GMonthDay_from_str (GMonthDay_to_string (mkGMonthDay t)) = Ok (mkGMonthDay t)) /\
  (midnight t -> Timestamp_year t = 1972 ->
   Timestamp_day t = days_in_month (Some 1972) (Timestamp_month t) ->
     GMonth_from_str (GMonth_to_string (mkGMonth t)) = Ok (mkGMonth t)) /\
  (midnight t -> Timestamp_year t = 1972 -> Timestamp_month t = 12 ->
     GDay_from_str (GDay_to_string (mkGDay t)) = Ok (mkGDay t)).
Proof.
  intros Hp. pose proof Hp as (_ & Htz & _).
  destruct (printable_civil t Hp) as (y & m & d & h & mi & s & Hy & [Hm Hd] & Hh & Hmi & Hs & E1 & E2 & E3 & E4 & E5 & E6 & En).
  pose proof (days_in_month_range (Some y) m). unfold midnight. rewrite E1, E2, E3, E4, E5, E6.
  assert (Timestamp_year_month_day t = (y, m, d)) as E
    by (unfold Timestamp_year, Timestamp_month, Timestamp_day in *;
        destruct (Timestamp_year_month_day t) as [[? ?] ?]; congruence).
  assert (in_int I64 (y - 1) /\ in_int I64 y) as [Hy1 Hy2] by int_bounds.
  clear Hp. set (tz := ts_timezone_offset t) in *. split_and!.
  - rewrite E. intros [= -> -> ->]. unfold Time_to_string, Time_hour, Time_minute, Time_second,
      Time_timezone_offset, Timestamp_timezone_offset. cbn [Time_timestamp]. rewrite E4, E5, E6. fold tz.
    unfold Time_from_str, ensure_complete, time_lexical_rep. parse_fields tz.
    unfold Time_new. rewrite (proj2 (Z.eqb_neq h 24)) by lia. cbn [andb].
    rewrite (props_fill 1972 12 31) with (h := h) (mi := mi) (s := mkDecimal s) by auto.
    by rewrite En.
  - intros (-> & -> & Es). unfold Date_to_string, Date_year, Date_month, Date_day,
      Date_timezone_offset, Timestamp_timezone_offset. cbn [Date_timestamp]. rewrite E1, E2, E3. fold tz.
    unfold Date_from_str, ensure_complete, date_lexical_rep, month_frag, day_frag. parse_fields tz.
    rewrite validate_valid by lia. cbn [mbind result_bind]. unfold Date_new.
    rewrite (props_fill y m d) with (h := 0) (mi := 0) (s := mkDecimal s) by auto. by rewrite En.
  - intros (-> & -> & Es) Ed. unfold GYearMonth_to_string, GYearMonth_year, GYearMonth_month,
      GYearMonth_timezone_offset, Timestamp_timezone_offset. cbn [GYearMonth_timestamp].
    rewrite E1, E2. fold tz.
    unfold GYearMonth_from_str, ensure_complete, g_year_month_lexical_rep, month_frag. parse_fields tz.
    unfold GYearMonth_new.
    rewrite (props_fill y m d) with (h := 0) (mi := 0) (s := mkDecimal s) by auto. by rewrite En.
  - intros (-> & -> & Es) -> ->. unfold GYear_to_string, GYear_year, GYear_timezone_offset,
      Timestamp_timezone_offset. cbn [GYear_timestamp]. rewrite E1. fold tz.
    unfold GYear_from_str, ensure_complete, g_year_lexical_rep. parse_fields tz.
    unfold GYear_new.
    rewrite (props_fill y 12 31) with (h := 0) (mi := 0) (s := mkDecimal s) by auto. by rewrite En.
  - intros (-> & -> & Es) -> Ed. unfold GMonthDay_to_string, GMonthDay_month, GMonthDay_day,
      GMonthDay_timezone_offset, Timestamp_timezone_offset. cbn [GMonthDay_timestamp].
    rewrite E2, E3. fold tz. change (str "--") with (str "-" ++ str "-"). rewrite <- app_assoc.
    unfold GMonthDay_from_str, ensure_complete, g_month_day_lexical_rep, month_frag, day_frag.
    parse_fields tz. rewrite validate_valid by lia. cbn [mbind result_bind]. unfold GMonthDay_new.
    rewrite (props_fill 1972 m d) with (h := 0) (mi := 0) (s := mkDecimal s) by auto. by rewrite En.
  - intros (-> & -> & Es) -> Ed. unfold GMonth_to_string, GMonth_month,
      GMonth_timezone_offset, Timestamp_timezone_offset. cbn [GMonth_timestamp].
    rewrite E2. fold tz. change (str "--") with (str "-" ++ str "-"). rewrite <- app_assoc.
    unfold GMonth_from_str, ensure_complete, g_month_lexical_rep, month_frag.
    parse_fields tz. unfold GMonth_new.
    rewrite (props_fill 1972 m d) with (h := 0) (mi := 0) (s := mkDecimal s) by auto. by rewrite En.
  - intros (-> & -> & Es) -> ->. unfold GDay_to_string, GDay_day,
      GDay_timezone_offset, Timestamp_timezone_offset. cbn [GDay_timestamp].
    rewrite E3. fold tz. change (str "---") with (str "-" ++ str "-" ++ str "-").
    rewrite <- !app_assoc.
    unfold GDay_from_str, ensure_complete, g_day_lexical_rep, day_frag.
    parse_fields tz. unfold GDay_new.
    rewrite (props_fill 1972 12 d) with (h := 0) (mi := 0) (s := mkDecimal s) by auto. by rewrite En.
Qed.

Lemma date_parts_from_to_string_witness :
  Date_from_str (Date_to_string (mkDate (mkTimestamp (Decimal_from_int 63116496000) None)))
  = Ok (mkDate (mkTimestamp (Decimal_from_int 63116496000) None)).
Proof.
  apply (proj1 (proj2 (date_parts_from_to_string
    (mkTimestamp (Decimal_from_int 63116496000) None) ltac:(split; [split; discriminate|];
      split; [exact I|]; split; [vm_compute; split; discriminate|]; left; discriminate)))).
  split; [|split]; vm_compute; reflexivity.
Defined.

(** The gMonthDay of the date 2000-02-29 is written --02-29, which its own
    parser rejects. *)
Theorem GMonthDay_leap_day_rejected :
  exists d g, Date_from_str (str "2000-02-29") = Ok d /\ GMonthDay_from_date d = Some g /\
    GMonthDay_to_string g = str "--02-29" /\
    GMonthDay_from_str (GMonthDay_to_string g) = Err (InvalidDayOfMonth 29 2).
Proof.
  exists (mkDate (mkTimestamp (Decimal_from_int 63087379200) None)),
    (mkGMonthDay (mkTimestamp (Decimal_from_int 62203766400) None)).
  split_and!; vm_compute; reflexivity.
Qed.
