(* ===== verification/EncodedTerm.v ===== *)
(** * Encoded terms

    lib/oxigraph/src/storage/small_string.rs and the data, equality and hashing
    of lib/oxigraph/src/storage/numeric_encoder.rs.  A term of the store is a
    small value: strings of at most 15 bytes are stored inline, longer ones by
    their 128-bit hash.

    The hash function itself is a third-party SipHash, which no definition here
    needs: a [StrHash] is its 16 bytes.  Floats are their bit patterns, which is
    all the storage layer uses of them. *)
From S2P Require Import Prelude MachineInt RustStr XsdDecimal XsdDuration XsdDateTime.

(** ** UTF-8 *)

(** [str::from_utf8]: the well-formed byte sequences. *)
Definition byte_in (lo hi : Z) (b : ascii) : bool := (lo <=? Z_of_byte b) && (Z_of_byte b <=? hi).

Fixpoint utf8_valid (bs : bytes) : bool :=
  match bs with
  | [] => true
  | b0 :: bs =>
      if byte_in 0 127 b0 then utf8_valid bs
      else match bs with
      | [] => false
      | b1 :: bs =>
          if byte_in 194 223 b0 then byte_in 128 191 b1 && utf8_valid bs
          else match bs with
          | [] => false
          | b2 :: bs =>
              if byte_in 224 239 b0 then
                byte_in (if byte_in 224 224 b0 then 160 else 128)
                        (if byte_in 237 237 b0 then 159 else 191) b1
                && byte_in 128 191 b2 && utf8_valid bs
              else match bs with
              | [] => false
              | b3 :: bs =>
                  byte_in 240 244 b0
                  && byte_in (if byte_in 240 240 b0 then 144 else 128)
                             (if byte_in 244 244 b0 then 143 else 191) b1
                  && byte_in 128 191 b2 && byte_in 128 191 b3 && utf8_valid bs
              end
          end
      end
  end.

(** ** Small strings *)

Inductive BadSmallStringError : Set :=
| TooLong (len : Z)
| BadUtf8.

(** The 16 bytes: the string, padding, and its length in the last byte. *)
Record SmallString : Set := mkSmallString { ss_inner : bytes }.

Definition SmallString_new : SmallString := mkSmallString (replicate 16 (byte_of_Z 0)).

Definition SmallString_len (s : SmallString) : Z :=
  Z_of_byte (nth 15 (ss_inner s) (byte_of_Z 0)).
Definition SmallString_is_empty (s : SmallString) : bool := SmallString_len s =? 0.
Definition SmallString_as_bytes (s : SmallString) : bytes :=
  take (Z.to_nat (SmallString_len s)) (ss_inner s).
Definition SmallString_as_str (s : SmallString) : bytes := SmallString_as_bytes s.
Definition SmallString_to_be_bytes (s : SmallString) : bytes := ss_inner s.

Definition SmallString_from_str (value : bytes) : result BadSmallStringError SmallString :=
  let len := Z.of_nat (length value) in
  if len <=? 15 then
    match checked U8 len with
    | Some l => Ok (mkSmallString (value ++ replicate (15 - length value) (byte_of_Z 0) ++ [byte_of_Z l]))
    | None => Err (TooLong len)
    end
  else Err (TooLong len).

Definition SmallString_from_utf8 (bs : bytes) : result BadSmallStringError SmallString :=
  if utf8_valid bs then SmallString_from_str bs else Err BadUtf8.

Definition SmallString_from_be_bytes (bs : bytes) : result BadSmallStringError SmallString :=
  let length := Z_of_byte (nth 15 bs (byte_of_Z 0)) in
  if length >? 15 then Err (TooLong length)
  else if utf8_valid (take (Z.to_nat length) bs) then Ok (mkSmallString bs)
  else Err BadUtf8.

Definition SmallString_eq (a b : SmallString) : bool :=
  bool_decide (SmallString_as_str a = SmallString_as_str b).

(** The lexicographic order of the bytes, which is that of [str]. *)
Fixpoint str_cmp (a b : bytes) : comparison :=
  match a, b with
  | [], [] => Eq
  | [], _ :: _ => Lt
  | _ :: _, [] => Gt
  | x :: a, y :: b =>
      match Z_of_byte x ?= Z_of_byte y with Eq => str_cmp a b | c => c end
  end.
Definition SmallString_cmp (a b : SmallString) : comparison :=
  str_cmp (SmallString_as_str a) (SmallString_as_str b).

(** ** Terms *)

Record StrHash : Set := mkStrHash { hash_bytes : bytes }.
Definition StrHash_from_be_bytes (hash : bytes) : StrHash := mkStrHash hash.
Definition StrHash_to_be_bytes (h : StrHash) : bytes := hash_bytes h.

(** [f32] and [f64] by their bits. *)
Record Float : Set := mkFloat { float_bits : Z }.
Definition Float_from_be_bytes (bs : bytes) : Float := mkFloat (from_be_bytes U32 bs).
Definition Float_to_be_bytes (f : Float) : bytes := to_be_bytes U32 (float_bits f).
Definition Float_is_identical_with (a b : Float) : bool := float_bits a =? float_bits b.
Record Double : Set := mkDouble { double_bits : Z }.
Definition Double_from_be_bytes (bs : bytes) : Double := mkDouble (from_be_bytes U64 bs).
Definition Double_to_be_bytes (f : Double) : bytes := to_be_bytes U64 (double_bits f).
Definition Double_is_identical_with (a b : Double) : bool := double_bits a =? double_bits b.

Inductive EncodedTerm : Set :=
| DefaultGraph
| NamedNode (iri_id : StrHash)
| NumericalBlankNode (id : bytes)
| SmallBlankNode (id : SmallString)
| BigBlankNode (id_id : StrHash)
| SmallStringLiteral (value : SmallString)
| BigStringLiteral (value_id : StrHash)
| SmallSmallLangStringLiteral (value language : SmallString)
| SmallBigLangStringLiteral (value : SmallString) (language_id : StrHash)
| BigSmallLangStringLiteral (value_id : StrHash) (language : SmallString)
| BigBigLangStringLiteral (value_id language_id : StrHash)
| LtrSmallSmallDirLangStringLiteral (value language : SmallString)
| LtrSmallBigDirLangStringLiteral (value : SmallString) (language_id : StrHash)
| LtrBigSmallDirLangStringLiteral (value_id : StrHash) (language : SmallString)
| LtrBigBigDirLangStringLiteral (value_id language_id : StrHash)
| RtlSmallSmallDirLangStringLiteral (value language : SmallString)
| RtlSmallBigDirLangStringLiteral (value : SmallString) (language_id : StrHash)
| RtlBigSmallDirLangStringLiteral (value_id : StrHash) (language : SmallString)
| RtlBigBigDirLangStringLiteral (value_id language_id : StrHash)
| SmallTypedLiteral (value : SmallString) (datatype_id : StrHash)
| BigTypedLiteral (value_id datatype_id : StrHash)
| BooleanLiteral (value : Boolean)
| FloatLiteral (value : Float)
| DoubleLiteral (value : Double)
| IntegerLiteral (value : Integer)
| DecimalLiteral (value : Decimal)
| DateTimeLiteral (value : DateTime)
| TimeLiteral (value : Time)
| DateLiteral (value : Date)
| GYearMonthLiteral (value : GYearMonth)
| GYearLiteral (value : GYear)
| GMonthDayLiteral (value : GMonthDay)
| GDayLiteral (value : GDay)
| GMonthLiteral (value : GMonth)
| DurationLiteral (value : Duration)
| YearMonthDurationLiteral (value : YearMonthDuration)
| DayTimeDurationLiteral (value : DayTimeDuration)
| Triple (subject predicate object : EncodedTerm).

Record EncodedQuad : Set := mkEncodedQuad {
  quad_subject : EncodedTerm;
  quad_predicate : EncodedTerm;
  quad_object : EncodedTerm;
  quad_graph_name : EncodedTerm
}.

Definition EncodedTerm_is_default_graph (t : EncodedTerm) : bool :=
  match t with DefaultGraph => true | _ => false end.

Definition StrHash_eq (a b : StrHash) : bool := bool_decide (hash_bytes a = hash_bytes b).
Definition Boolean_eq (a b : Boolean) : bool := Bool.eqb (Boolean_value a) (Boolean_value b).

(** [PartialEq]: terms of different discriminants differ. *)
Fixpoint EncodedTerm_eq (a b : EncodedTerm) : bool :=
  match a, b with
  | DefaultGraph, DefaultGraph => true
  | NamedNode a, NamedNode b => StrHash_eq a b
  | NumericalBlankNode a, NumericalBlankNode b => bool_decide (a = b)
  | SmallBlankNode a, SmallBlankNode b => SmallString_eq a b
  | BigBlankNode a, BigBlankNode b => StrHash_eq a b
  | SmallStringLiteral a, SmallStringLiteral b => SmallString_eq a b
  | BigStringLiteral a, BigStringLiteral b => StrHash_eq a b
  | SmallSmallLangStringLiteral va la, SmallSmallLangStringLiteral vb lb
  | LtrSmallSmallDirLangStringLiteral va la, LtrSmallSmallDirLangStringLiteral vb lb
  | RtlSmallSmallDirLangStringLiteral va la, RtlSmallSmallDirLangStringLiteral vb lb =>
      SmallString_eq va vb && SmallString_eq la lb
  | SmallBigLangStringLiteral va la, SmallBigLangStringLiteral vb lb
  | LtrSmallBigDirLangStringLiteral va la, LtrSmallBigDirLangStringLiteral vb lb
  | RtlSmallBigDirLangStringLiteral va la, RtlSmallBigDirLangStringLiteral vb lb =>
      SmallString_eq va vb && StrHash_eq la lb
  | BigSmallLangStringLiteral va la, BigSmallLangStringLiteral vb lb
  | LtrBigSmallDirLangStringLiteral va la, LtrBigSmallDirLangStringLiteral vb lb
  | RtlBigSmallDirLangStringLiteral va la, RtlBigSmallDirLangStringLiteral vb lb =>
      StrHash_eq va vb && SmallString_eq la lb
  | BigBigLangStringLiteral va la, BigBigLangStringLiteral vb lb
  | LtrBigBigDirLangStringLiteral va la, LtrBigBigDirLangStringLiteral vb lb
  | RtlBigBigDirLangStringLiteral va la, RtlBigBigDirLangStringLiteral vb lb =>
      StrHash_eq va vb && StrHash_eq la lb
  | SmallTypedLiteral va da, SmallTypedLiteral vb db => SmallString_eq va vb && StrHash_eq da db
  | BigTypedLiteral va da, BigTypedLiteral vb db => StrHash_eq va vb && StrHash_eq da db
  | BooleanLiteral a, BooleanLiteral b => Boolean_eq a b
  | FloatLiteral a, FloatLiteral b => Float_is_identical_with a b
  | DoubleLiteral a, DoubleLiteral b => Double_is_identical_with a b
  | IntegerLiteral a, IntegerLiteral b => Integer_is_identical_with a b
  | DecimalLiteral a, DecimalLiteral b => Decimal_is_identical_with a b
  | DateTimeLiteral a, DateTimeLiteral b => DateTime_is_identical_with a b
  | TimeLiteral a, TimeLiteral b => Time_is_identical_with a b
  | DateLiteral a, DateLiteral b => Date_is_identical_with a b
  | GYearMonthLiteral a, GYearMonthLiteral b => GYearMonth_is_identical_with a b
  | GYearLiteral a, GYearLiteral b => GYear_is_identical_with a b
  | GMonthDayLiteral a, GMonthDayLiteral b => GMonthDay_is_identical_with a b
  | GDayLiteral a, GDayLiteral b => GDay_is_identical_with a b
  | GMonthLiteral a, GMonthLiteral b => GMonth_is_identical_with a b
  | DurationLiteral a, DurationLiteral b => Duration_is_identical_with a b
  | YearMonthDurationLiteral a, YearMonthDurationLiteral b =>
      YearMonthDuration_is_identical_with a b
  | DayTimeDurationLiteral a, DayTimeDurationLiteral b => DayTimeDuration_is_identical_with a b
  | Triple s p o, Triple s' p' o' =>
      EncodedTerm_eq s s' && EncodedTerm_eq p p' && EncodedTerm_eq o o'
  | _, _ => false
  end.

Definition EncodedQuad_eq (a b : EncodedQuad) : bool :=
  EncodedTerm_eq (quad_subject a) (quad_subject b)
  && EncodedTerm_eq (quad_predicate a) (quad_predicate b)
  && EncodedTerm_eq (quad_object a) (quad_object b)
  && EncodedTerm_eq (quad_graph_name a) (quad_graph_name b).

(** ** Hashing

    What [Hash::hash] feeds to the hasher, in order. *)

Inductive hash_write : Set :=
| HashDiscriminant (n : nat)
| HashStr (s : bytes)
| HashBytes (bs : bytes)
| HashInt (z : Z).

(** The position of the constructor. *)
Definition EncodedTerm_discriminant (t : EncodedTerm) : nat :=
  match t with
  | DefaultGraph => 0 | NamedNode _ => 1 | NumericalBlankNode _ => 2 | SmallBlankNode _ => 3
  | BigBlankNode _ => 4 | SmallStringLiteral _ => 5 | BigStringLiteral _ => 6
  | SmallSmallLangStringLiteral _ _ => 7 | SmallBigLangStringLiteral _ _ => 8
  | BigSmallLangStringLiteral _ _ => 9 | BigBigLangStringLiteral _ _ => 10
  | LtrSmallSmallDirLangStringLiteral _ _ => 11 | LtrSmallBigDirLangStringLiteral _ _ => 12
  | LtrBigSmallDirLangStringLiteral _ _ => 13 | LtrBigBigDirLangStringLiteral _ _ => 14
  | RtlSmallSmallDirLangStringLiteral _ _ => 15 | RtlSmallBigDirLangStringLiteral _ _ => 16
  | RtlBigSmallDirLangStringLiteral _ _ => 17 | RtlBigBigDirLangStringLiteral _ _ => 18
  | SmallTypedLiteral _ _ => 19 | BigTypedLiteral _ _ => 20 | BooleanLiteral _ => 21
  | FloatLiteral _ => 22 | DoubleLiteral _ => 23 | IntegerLiteral _ => 24 | DecimalLiteral _ => 25
  | DateTimeLiteral _ => 26 | TimeLiteral _ => 27 | DateLiteral _ => 28
  | GYearMonthLiteral _ => 29 | GYearLiteral _ => 30 | GMonthDayLiteral _ => 31
  | GDayLiteral _ => 32 | GMonthLiteral _ => 33 | DurationLiteral _ => 34
  | YearMonthDurationLiteral _ => 35 | DayTimeDurationLiteral _ => 36 | Triple _ _ _ => 37
  end%nat.

Definition SmallString_hash (s : SmallString) : list hash_write := [HashStr (SmallString_as_str s)].
Definition StrHash_hash (h : StrHash) : list hash_write := [HashBytes (hash_bytes h)].
(** [Hash for Timestamp] hashes the value only. *)
Definition Timestamp_hash (t : Timestamp) : list hash_write :=
  [HashInt (Decimal_value (ts_value t))].

Fixpoint EncodedTerm_hash (t : EncodedTerm) : list hash_write :=
  HashDiscriminant (EncodedTerm_discriminant t) ::
  match t with
  | NamedNode h | BigBlankNode h | BigStringLiteral h => StrHash_hash h
  | NumericalBlankNode id => [HashBytes id]
  | SmallBlankNode s | SmallStringLiteral s => SmallString_hash s
  | DefaultGraph => []
  | SmallSmallLangStringLiteral v l | LtrSmallSmallDirLangStringLiteral v l
  | RtlSmallSmallDirLangStringLiteral v l => SmallString_hash v ++ SmallString_hash l
  | SmallBigLangStringLiteral v l | LtrSmallBigDirLangStringLiteral v l
  | RtlSmallBigDirLangStringLiteral v l => SmallString_hash v ++ StrHash_hash l
  | BigSmallLangStringLiteral v l | LtrBigSmallDirLangStringLiteral v l
  | RtlBigSmallDirLangStringLiteral v l => StrHash_hash v ++ SmallString_hash l
  | BigBigLangStringLiteral v l | LtrBigBigDirLangStringLiteral v l
  | RtlBigBigDirLangStringLiteral v l => StrHash_hash v ++ StrHash_hash l
  | SmallTypedLiteral v d => SmallString_hash v ++ StrHash_hash d
  | BigTypedLiteral v d => StrHash_hash v ++ StrHash_hash d
  | BooleanLiteral b => [HashInt (Z.b2z (Boolean_value b))]
  | FloatLiteral f => [HashBytes (Float_to_be_bytes f)]
  | DoubleLiteral f => [HashBytes (Double_to_be_bytes f)]
  | IntegerLiteral i => [HashInt (Integer_value i)]
  | DecimalLiteral d => [HashInt (Decimal_value d)]
  | DateTimeLiteral v => Timestamp_hash (DateTime_timestamp v)
  | TimeLiteral v => Timestamp_hash (Time_timestamp v)
  | DateLiteral v => Timestamp_hash (Date_timestamp v)
  | GYearMonthLiteral v => Timestamp_hash (GYearMonth_timestamp v)
  | GYearLiteral v => Timestamp_hash (GYear_timestamp v)
  | GMonthDayLiteral v => Timestamp_hash (GMonthDay_timestamp v)
  | GDayLiteral v => Timestamp_hash (GDay_timestamp v)
  | GMonthLiteral v => Timestamp_hash (GMonth_timestamp v)
  | DurationLiteral v => [HashInt (ymd_months (dur_year_month v));
                          HashInt (Decimal_value (dtd_seconds (dur_day_time v)))]
  | YearMonthDurationLiteral v => [HashInt (ymd_months v)]
  | DayTimeDurationLiteral v => [HashInt (Decimal_value (dtd_seconds v))]
  | Triple s p o => EncodedTerm_hash s ++ EncodedTerm_hash p ++ EncodedTerm_hash o
  end.

(** ** Decidable equality *)

#[global] Instance SmallString_eq_dec : EqDecision SmallString.
Proof. solve_decision. Defined.
#[global] Instance StrHash_eq_dec : EqDecision StrHash.
Proof. solve_decision. Defined.
#[global] Instance Boolean_eq_dec : EqDecision Boolean.
Proof. solve_decision. Defined.
#[global] Instance Integer_eq_dec : EqDecision Integer.
Proof. solve_decision. Defined.
#[global] Instance Float_eq_dec : EqDecision Float.
Proof. solve_decision. Defined.
#[global] Instance Double_eq_dec : EqDecision Double.
Proof. solve_decision. Defined.
#[global] Instance DateTime_eq_dec : EqDecision DateTime.
Proof. solve_decision. Defined.
#[global] Instance Time_eq_dec : EqDecision Time.
Proof. solve_decision. Defined.
#[global] Instance Date_eq_dec : EqDecision Date.
Proof. solve_decision. Defined.
#[global] Instance GYearMonth_eq_dec : EqDecision GYearMonth.
Proof. solve_decision. Defined.
#[global] Instance GYear_eq_dec : EqDecision GYear.
Proof. solve_decision. Defined.
#[global] Instance GMonthDay_eq_dec : EqDecision GMonthDay.
Proof. solve_decision. Defined.
#[global] Instance GDay_eq_dec : EqDecision GDay.
Proof. solve_decision. Defined.
#[global] Instance GMonth_eq_dec : EqDecision GMonth.
Proof. solve_decision. Defined.
#[global] Instance EncodedTerm_eq_dec : EqDecision EncodedTerm.
Proof. solve_decision. Defined.
#[global] Instance EncodedQuad_eq_dec : EqDecision EncodedQuad.
Proof. solve_decision. Defined.

(** * Storage errors

    lib/oxigraph/src/storage/error.rs: the errors of the storage layer. *)

(** [CorruptionErrorKind]: a message, or a wrapped error; the errors the code
    wraps are those of [SmallString] and the missing dictionary entry. *)
Inductive CorruptionError : Set :=
| CorruptionMsg (msg : string)
| CorruptionSmallString (error : BadSmallStringError)
| CorruptionMissingString (id : StrHash)
| CorruptionOther (msg : string).

Inductive StorageError : Set :=
| StorageIo
| StorageCorruption (error : CorruptionError)
| UpgradeIncomplete
| SchemaUnknown
| UpgradeRequired (found supported : Z)
| SchemaTooNew (found supported : Z)
| FeatureIncompatible (feature : string)
| StorageOther (msg : string).

(** [CorruptionError::msg(m).into()] and [CorruptionError::new(m).into()]. *)
Definition corruption_msg (msg : string) : StorageError := StorageCorruption (CorruptionMsg msg).
Definition corruption_new (msg : string) : StorageError := StorageCorruption (CorruptionOther msg).
