(* ===== verification/BinaryEncoder.v ===== *)
(** * Binary encoding of terms and quads

    lib/oxigraph/src/storage/binary_encoder.rs: the keys of the on-disk indexes.
    A writer appends to the sink; a reader returns the value and the rest of the
    buffer, or the error. *)
From S2P Require Import Prelude MachineInt RustStr XsdDecimal XsdDuration XsdDateTime EncodedTerm.


Definition WRITTEN_TERM_MAX_SIZE : Z := 33.

(** ** Type tags *)

Definition TYPE_NAMED_NODE_ID : Z := 1.
Definition TYPE_NUMERICAL_BLANK_NODE_ID : Z := 8.
Definition TYPE_SMALL_BLANK_NODE_ID : Z := 9.
Definition TYPE_BIG_BLANK_NODE_ID : Z := 10.
Definition TYPE_SMALL_STRING_LITERAL : Z := 16.
Definition TYPE_BIG_STRING_LITERAL : Z := 17.
Definition TYPE_SMALL_SMALL_LANG_STRING_LITERAL : Z := 20.
Definition TYPE_SMALL_BIG_LANG_STRING_LITERAL : Z := 21.
Definition TYPE_BIG_SMALL_LANG_STRING_LITERAL : Z := 22.
Definition TYPE_BIG_BIG_LANG_STRING_LITERAL : Z := 23.
Definition TYPE_SMALL_TYPED_LITERAL : Z := 24.
Definition TYPE_BIG_TYPED_LITERAL : Z := 25.
Definition TYPE_BOOLEAN_LITERAL_TRUE : Z := 28.
Definition TYPE_BOOLEAN_LITERAL_FALSE : Z := 29.
Definition TYPE_FLOAT_LITERAL : Z := 30.
Definition TYPE_DOUBLE_LITERAL : Z := 31.
Definition TYPE_INTEGER_LITERAL : Z := 32.
Definition TYPE_DECIMAL_LITERAL : Z := 33.
Definition TYPE_DATE_TIME_LITERAL : Z := 34.
Definition TYPE_TIME_LITERAL : Z := 35.
Definition TYPE_DATE_LITERAL : Z := 36.
Definition TYPE_G_YEAR_MONTH_LITERAL : Z := 37.
Definition TYPE_G_YEAR_LITERAL : Z := 38.
Definition TYPE_G_MONTH_DAY_LITERAL : Z := 39.
Definition TYPE_G_DAY_LITERAL : Z := 40.
Definition TYPE_G_MONTH_LITERAL : Z := 41.
Definition TYPE_DURATION_LITERAL : Z := 42.
Definition TYPE_YEAR_MONTH_DURATION_LITERAL : Z := 43.
Definition TYPE_DAY_TIME_DURATION_LITERAL : Z := 44.
Definition TYPE_STAR_TRIPLE : Z := 48.
Definition TYPE_TRIPLE : Z := 49.
Definition TYPE_LTR_SMALL_SMALL_DIR_LANG_STRING_LITERAL : Z := 56.
Definition TYPE_LTR_SMALL_BIG_DIR_LANG_STRING_LITERAL : Z := 57.
Definition TYPE_LTR_BIG_SMALL_DIR_LANG_STRING_LITERAL : Z := 58.
Definition TYPE_LTR_BIG_BIG_DIR_LANG_STRING_LITERAL : Z := 59.
Definition TYPE_RTL_SMALL_SMALL_DIR_LANG_STRING_LITERAL : Z := 60.
Definition TYPE_RTL_SMALL_BIG_DIR_LANG_STRING_LITERAL : Z := 61.
Definition TYPE_RTL_BIG_SMALL_DIR_LANG_STRING_LITERAL : Z := 62.
Definition TYPE_RTL_BIG_BIG_DIR_LANG_STRING_LITERAL : Z := 63.

Definition RDF_12_ONLY_TERM_TYPES : list Z :=
  [TYPE_STAR_TRIPLE; TYPE_TRIPLE; TYPE_LTR_SMALL_SMALL_DIR_LANG_STRING_LITERAL;
   TYPE_LTR_SMALL_BIG_DIR_LANG_STRING_LITERAL; TYPE_LTR_BIG_SMALL_DIR_LANG_STRING_LITERAL;
   TYPE_LTR_BIG_BIG_DIR_LANG_STRING_LITERAL; TYPE_RTL_SMALL_SMALL_DIR_LANG_STRING_LITERAL;
   TYPE_RTL_SMALL_BIG_DIR_LANG_STRING_LITERAL; TYPE_RTL_BIG_SMALL_DIR_LANG_STRING_LITERAL;
   TYPE_RTL_BIG_BIG_DIR_LANG_STRING_LITERAL].

(** ** Writing *)

(** [sink.push(tag); sink.extend_from_slice(payload)] *)
Definition write_tagged (sink : bytes) (tag : Z) (payload : bytes) : bytes :=
  sink ++ byte_of_Z tag :: payload.

Fixpoint write_term (sink : bytes) (term : EncodedTerm) : bytes :=
  match term with
  | DefaultGraph => sink
  | NamedNode iri_id => write_tagged sink TYPE_NAMED_NODE_ID (StrHash_to_be_bytes iri_id)
  | NumericalBlankNode id => write_tagged sink TYPE_NUMERICAL_BLANK_NODE_ID id
  | SmallBlankNode id => write_tagged sink TYPE_SMALL_BLANK_NODE_ID (SmallString_to_be_bytes id)
  | BigBlankNode id_id => write_tagged sink TYPE_BIG_BLANK_NODE_ID (StrHash_to_be_bytes id_id)
  | SmallStringLiteral value =>
      write_tagged sink TYPE_SMALL_STRING_LITERAL (SmallString_to_be_bytes value)
  | BigStringLiteral value_id =>
      write_tagged sink TYPE_BIG_STRING_LITERAL (StrHash_to_be_bytes value_id)
  | SmallSmallLangStringLiteral value language =>
      write_tagged sink TYPE_SMALL_SMALL_LANG_STRING_LITERAL
        (SmallString_to_be_bytes language ++ SmallString_to_be_bytes value)
  | SmallBigLangStringLiteral value language_id =>
      write_tagged sink TYPE_SMALL_BIG_LANG_STRING_LITERAL
        (StrHash_to_be_bytes language_id ++ SmallString_to_be_bytes value)
  | BigSmallLangStringLiteral value_id language =>
      write_tagged sink TYPE_BIG_SMALL_LANG_STRING_LITERAL
        (SmallString_to_be_bytes language ++ StrHash_to_be_bytes value_id)
  | BigBigLangStringLiteral value_id language_id =>
      write_tagged sink TYPE_BIG_BIG_LANG_STRING_LITERAL
        (StrHash_to_be_bytes language_id ++ StrHash_to_be_bytes value_id)
  | LtrSmallSmallDirLangStringLiteral value language =>
      write_tagged sink TYPE_LTR_SMALL_SMALL_DIR_LANG_STRING_LITERAL
        (SmallString_to_be_bytes language ++ SmallString_to_be_bytes value)
  | LtrSmallBigDirLangStringLiteral value language_id =>
      write_tagged sink TYPE_LTR_SMALL_BIG_DIR_LANG_STRING_LITERAL
        (StrHash_to_be_bytes language_id ++ SmallString_to_be_bytes value)
  | LtrBigSmallDirLangStringLiteral value_id language =>
      write_tagged sink TYPE_LTR_BIG_SMALL_DIR_LANG_STRING_LITERAL
        (SmallString_to_be_bytes language ++ StrHash_to_be_bytes value_id)
  | LtrBigBigDirLangStringLiteral value_id language_id =>
      write_tagged sink TYPE_LTR_BIG_BIG_DIR_LANG_STRING_LITERAL
        (StrHash_to_be_bytes language_id ++ StrHash_to_be_bytes value_id)
  | RtlSmallSmallDirLangStringLiteral value language =>
      write_tagged sink TYPE_RTL_SMALL_SMALL_DIR_LANG_STRING_LITERAL
        (SmallString_to_be_bytes language ++ SmallString_to_be_bytes value)
  | RtlSmallBigDirLangStringLiteral value language_id =>
      write_tagged sink TYPE_RTL_SMALL_BIG_DIR_LANG_STRING_LITERAL
        (StrHash_to_be_bytes language_id ++ SmallString_to_be_bytes value)
  | RtlBigSmallDirLangStringLiteral value_id language =>
      write_tagged sink TYPE_RTL_BIG_SMALL_DIR_LANG_STRING_LITERAL
        (SmallString_to_be_bytes language ++ StrHash_to_be_bytes value_id)
  | RtlBigBigDirLangStringLiteral value_id language_id =>
      write_tagged sink TYPE_RTL_BIG_BIG_DIR_LANG_STRING_LITERAL
        (StrHash_to_be_bytes language_id ++ StrHash_to_be_bytes value_id)
  | SmallTypedLiteral value datatype_id =>
      write_tagged sink TYPE_SMALL_TYPED_LITERAL
        (StrHash_to_be_bytes datatype_id ++ SmallString_to_be_bytes value)
  | BigTypedLiteral value_id datatype_id =>
      write_tagged sink TYPE_BIG_TYPED_LITERAL
        (StrHash_to_be_bytes datatype_id ++ StrHash_to_be_bytes value_id)
  | BooleanLiteral value =>
      write_tagged sink (if Boolean_value value then TYPE_BOOLEAN_LITERAL_TRUE
                         else TYPE_BOOLEAN_LITERAL_FALSE) []
  | FloatLiteral value => write_tagged sink TYPE_FLOAT_LITERAL (Float_to_be_bytes value)
  | DoubleLiteral value => write_tagged sink TYPE_DOUBLE_LITERAL (Double_to_be_bytes value)
  | IntegerLiteral value => write_tagged sink TYPE_INTEGER_LITERAL (Integer_to_be_bytes value)
  | DecimalLiteral value => write_tagged sink TYPE_DECIMAL_LITERAL (Decimal_to_be_bytes value)
  | DateTimeLiteral value => write_tagged sink TYPE_DATE_TIME_LITERAL (DateTime_to_be_bytes value)
  | TimeLiteral value => write_tagged sink TYPE_TIME_LITERAL (Time_to_be_bytes value)
  | DurationLiteral value => write_tagged sink TYPE_DURATION_LITERAL (Duration_to_be_bytes value)
  | DateLiteral value => write_tagged sink TYPE_DATE_LITERAL (Date_to_be_bytes value)
  | GYearMonthLiteral value =>
      write_tagged sink TYPE_G_YEAR_MONTH_LITERAL (GYearMonth_to_be_bytes value)
  | GYearLiteral value => write_tagged sink TYPE_G_YEAR_LITERAL (GYear_to_be_bytes value)
  | GMonthDayLiteral value =>
      write_tagged sink TYPE_G_MONTH_DAY_LITERAL (GMonthDay_to_be_bytes value)
  | GDayLiteral value => write_tagged sink TYPE_G_DAY_LITERAL (GDay_to_be_bytes value)
  | GMonthLiteral value => write_tagged sink TYPE_G_MONTH_LITERAL (GMonth_to_be_bytes value)
  | YearMonthDurationLiteral value =>
      write_tagged sink TYPE_YEAR_MONTH_DURATION_LITERAL (YearMonthDuration_to_be_bytes value)
  | DayTimeDurationLiteral value =>
      write_tagged sink TYPE_DAY_TIME_DURATION_LITERAL (DayTimeDuration_to_be_bytes value)
  | Triple subject predicate object =>
      write_term (write_term (write_term (write_tagged sink TYPE_TRIPLE []) subject) predicate) object
  end.

Definition encode_term (t : EncodedTerm) : bytes := write_term [] t.
Definition encode_term_pair (t1 t2 : EncodedTerm) : bytes := write_term (write_term [] t1) t2.
Definition encode_term_triple (t1 t2 t3 : EncodedTerm) : bytes :=
  write_term (write_term (write_term [] t1) t2) t3.
Definition encode_term_quad (t1 t2 t3 t4 : EncodedTerm) : bytes :=
  write_term (write_term (write_term (write_term [] t1) t2) t3) t4.

Definition write_spog_quad (sink : bytes) (q : EncodedQuad) : bytes :=
  write_term (write_term (write_term (write_term sink (quad_subject q)) (quad_predicate q))
    (quad_object q)) (quad_graph_name q).
Definition write_posg_quad (sink : bytes) (q : EncodedQuad) : bytes :=
  write_term (write_term (write_term (write_term sink (quad_predicate q)) (quad_object q))
    (quad_subject q)) (quad_graph_name q).
Definition write_ospg_quad (sink : bytes) (q : EncodedQuad) : bytes :=
  write_term (write_term (write_term (write_term sink (quad_object q)) (quad_subject q))
    (quad_predicate q)) (quad_graph_name q).
Definition write_gspo_quad (sink : bytes) (q : EncodedQuad) : bytes :=
  write_term (write_term (write_term (write_term sink (quad_graph_name q)) (quad_subject q))
    (quad_predicate q)) (quad_object q).
Definition write_gpos_quad (sink : bytes) (q : EncodedQuad) : bytes :=
  write_term (write_term (write_term (write_term sink (quad_graph_name q)) (quad_predicate q))
    (quad_object q)) (quad_subject q).
Definition write_gosp_quad (sink : bytes) (q : EncodedQuad) : bytes :=
  write_term (write_term (write_term (write_term sink (quad_graph_name q)) (quad_object q))
    (quad_subject q)) (quad_predicate q).
Definition write_spo_quad (sink : bytes) (q : EncodedQuad) : bytes :=
  write_term (write_term (write_term sink (quad_subject q)) (quad_predicate q)) (quad_object q).
Definition write_pos_quad (sink : bytes) (q : EncodedQuad) : bytes :=
  write_term (write_term (write_term sink (quad_predicate q)) (quad_object q)) (quad_subject q).
Definition write_osp_quad (sink : bytes) (q : EncodedQuad) : bytes :=
  write_term (write_term (write_term sink (quad_object q)) (quad_subject q)) (quad_predicate q).

(** ** Reading *)

Abbreviation read A := (result StorageError (A * bytes)).

Definition read_exact (n : nat) (buffer : bytes) : read bytes :=
  if (n <=? length buffer)%nat then Ok (take n buffer, drop n buffer) else Err StorageIo.

(** Read [n] bytes and convert them. *)
Definition read_value {A : Type} (n : nat) (of_bytes : bytes -> A) (buffer : bytes) : read A :=
  '(bs, buffer) ← read_exact n buffer; Ok (of_bytes bs, buffer).

(** [SmallString::from_be_bytes(buffer).map_err(CorruptionError::new)?] *)
Definition small_string_of (bs : bytes) : result StorageError SmallString :=
  map_err (fun e => StorageCorruption (CorruptionSmallString e)) (SmallString_from_be_bytes bs).

(** The two 16-byte buffers of a language-tagged or typed literal. *)
Definition read_two (buffer : bytes) : read (bytes * bytes) :=
  '(first, buffer) ← read_exact 16 buffer;
  '(second, buffer) ← read_exact 16 buffer;
  Ok ((first, second), buffer).

Section read_lang.
Context (small_small : SmallString -> SmallString -> EncodedTerm)
        (small_big : SmallString -> StrHash -> EncodedTerm)
        (big_small : StrHash -> SmallString -> EncodedTerm)
        (big_big : StrHash -> StrHash -> EncodedTerm).

(** The four ways to store a value and a language: the value is checked first. *)
Definition read_small_small (buffer : bytes) : read EncodedTerm :=
  '((language_buffer, value_buffer), buffer) ← read_two buffer;
  value ← small_string_of value_buffer;
  language ← small_string_of language_buffer;
  Ok (small_small value language, buffer).
Definition read_small_big (buffer : bytes) : read EncodedTerm :=
  '((language_buffer, value_buffer), buffer) ← read_two buffer;
  value ← small_string_of value_buffer;
  Ok (small_big value (StrHash_from_be_bytes language_buffer), buffer).
Definition read_big_small (buffer : bytes) : read EncodedTerm :=
  '((language_buffer, value_buffer), buffer) ← read_two buffer;
  language ← small_string_of language_buffer;
  Ok (big_small (StrHash_from_be_bytes value_buffer) language, buffer).
Definition read_big_big (buffer : bytes) : read EncodedTerm :=
  '((language_buffer, value_buffer), buffer) ← read_two buffer;
  Ok (big_big (StrHash_from_be_bytes value_buffer) (StrHash_from_be_bytes language_buffer), buffer).
End read_lang.

(** The literals from the typed ones on. *)
Definition read_value_literal (ty : Z) (buffer : bytes) : read EncodedTerm :=
  if ty =? TYPE_SMALL_TYPED_LITERAL then
    '((datatype_buffer, value_buffer), buffer) ← read_two buffer;
    value ← small_string_of value_buffer;
    Ok (SmallTypedLiteral value (StrHash_from_be_bytes datatype_buffer), buffer)
  else if ty =? TYPE_BIG_TYPED_LITERAL then
    '((datatype_buffer, value_buffer), buffer) ← read_two buffer;
    Ok (BigTypedLiteral (StrHash_from_be_bytes value_buffer) (StrHash_from_be_bytes datatype_buffer),
        buffer)
  else if ty =? TYPE_SMALL_STRING_LITERAL then
    '(bs, buffer) ← read_exact 16 buffer;
    value ← small_string_of bs; Ok (SmallStringLiteral value, buffer)
  else if ty =? TYPE_BIG_STRING_LITERAL then
    read_value 16 (fun bs => BigStringLiteral (StrHash_from_be_bytes bs)) buffer
  else if ty =? TYPE_BOOLEAN_LITERAL_TRUE then Ok (BooleanLiteral (mkBoolean true), buffer)
  else if ty =? TYPE_BOOLEAN_LITERAL_FALSE then Ok (BooleanLiteral (mkBoolean false), buffer)
  else if ty =? TYPE_FLOAT_LITERAL then
    read_value 4 (fun bs => FloatLiteral (Float_from_be_bytes bs)) buffer
  else if ty =? TYPE_DOUBLE_LITERAL then
    read_value 8 (fun bs => DoubleLiteral (Double_from_be_bytes bs)) buffer
  else if ty =? TYPE_INTEGER_LITERAL then
    read_value 8 (fun bs => IntegerLiteral (Integer_from_be_bytes bs)) buffer
  else if ty =? TYPE_DECIMAL_LITERAL then
    read_value 16 (fun bs => DecimalLiteral (Decimal_from_be_bytes bs)) buffer
  else if ty =? TYPE_DATE_TIME_LITERAL then
    read_value 18 (fun bs => DateTimeLiteral (DateTime_from_be_bytes bs)) buffer
  else if ty =? TYPE_TIME_LITERAL then
    read_value 18 (fun bs => TimeLiteral (Time_from_be_bytes bs)) buffer
  else if ty =? TYPE_DATE_LITERAL then
    read_value 18 (fun bs => DateLiteral (Date_from_be_bytes bs)) buffer
  else if ty =? TYPE_G_YEAR_MONTH_LITERAL then
    read_value 18 (fun bs => GYearMonthLiteral (GYearMonth_from_be_bytes bs)) buffer
  else if ty =? TYPE_G_YEAR_LITERAL then
    read_value 18 (fun bs => GYearLiteral (GYear_from_be_bytes bs)) buffer
  else if ty =? TYPE_G_MONTH_DAY_LITERAL then
    read_value 18 (fun bs => GMonthDayLiteral (GMonthDay_from_be_bytes bs)) buffer
  else if ty =? TYPE_G_DAY_LITERAL then
    read_value 18 (fun bs => GDayLiteral (GDay_from_be_bytes bs)) buffer
  else if ty =? TYPE_G_MONTH_LITERAL then
    read_value 18 (fun bs => GMonthLiteral (GMonth_from_be_bytes bs)) buffer
  else if ty =? TYPE_DURATION_LITERAL then
    read_value 24 (fun bs => DurationLiteral (Duration_from_be_bytes bs)) buffer
  else if ty =? TYPE_YEAR_MONTH_DURATION_LITERAL then
    read_value 8 (fun bs => YearMonthDurationLiteral (YearMonthDuration_from_be_bytes bs)) buffer
  else if ty =? TYPE_DAY_TIME_DURATION_LITERAL then
    read_value 16 (fun bs => DayTimeDurationLiteral (DayTimeDuration_from_be_bytes bs)) buffer
  else Err (StorageCorruption (CorruptionMsg "the term buffer has an invalid type id")).

(** The terms that are not triples. *)
Definition read_flat_term (ty : Z) (buffer : bytes) : read EncodedTerm :=
  if ty =? TYPE_NAMED_NODE_ID then
    read_value 16 (fun bs => NamedNode (StrHash_from_be_bytes bs)) buffer
  else if ty =? TYPE_NUMERICAL_BLANK_NODE_ID then read_value 16 NumericalBlankNode buffer
  else if ty =? TYPE_SMALL_BLANK_NODE_ID then
    '(bs, buffer) ← read_exact 16 buffer;
    id ← small_string_of bs; Ok (SmallBlankNode id, buffer)
  else if ty =? TYPE_BIG_BLANK_NODE_ID then
    read_value 16 (fun bs => BigBlankNode (StrHash_from_be_bytes bs)) buffer
  else if ty =? TYPE_SMALL_SMALL_LANG_STRING_LITERAL then
    read_small_small SmallSmallLangStringLiteral buffer
  else if ty =? TYPE_SMALL_BIG_LANG_STRING_LITERAL then
    read_small_big SmallBigLangStringLiteral buffer
  else if ty =? TYPE_BIG_SMALL_LANG_STRING_LITERAL then
    read_big_small BigSmallLangStringLiteral buffer
  else if ty =? TYPE_BIG_BIG_LANG_STRING_LITERAL then
    read_big_big BigBigLangStringLiteral buffer
  else if ty =? TYPE_RTL_SMALL_SMALL_DIR_LANG_STRING_LITERAL then
    read_small_small RtlSmallSmallDirLangStringLiteral buffer
  else if ty =? TYPE_RTL_SMALL_BIG_DIR_LANG_STRING_LITERAL then
    read_small_big RtlSmallBigDirLangStringLiteral buffer
  else if ty =? TYPE_RTL_BIG_SMALL_DIR_LANG_STRING_LITERAL then
    read_big_small RtlBigSmallDirLangStringLiteral buffer
  else if ty =? TYPE_RTL_BIG_BIG_DIR_LANG_STRING_LITERAL then
    read_big_big RtlBigBigDirLangStringLiteral buffer
  else if ty =? TYPE_LTR_SMALL_SMALL_DIR_LANG_STRING_LITERAL then
    read_small_small LtrSmallSmallDirLangStringLiteral buffer
  else if ty =? TYPE_LTR_SMALL_BIG_DIR_LANG_STRING_LITERAL then
    read_small_big LtrSmallBigDirLangStringLiteral buffer
  else if ty =? TYPE_LTR_BIG_SMALL_DIR_LANG_STRING_LITERAL then
    read_big_small LtrBigSmallDirLangStringLiteral buffer
  else if ty =? TYPE_LTR_BIG_BIG_DIR_LANG_STRING_LITERAL then
    read_big_big LtrBigBigDirLangStringLiteral buffer
  else read_value_literal ty buffer.

(** [read_term]; [None] when the fuel, which bounds the nesting of triples, is out. *)
Fixpoint read_term_fuel (fuel : nat) (buffer : bytes) : option (read EncodedTerm) :=
  match fuel with
  | O => None
  | S fuel =>
      match buffer with
      | [] => Some (Err StorageIo)
      | ty :: buffer =>
          if (Z_of_byte ty =? TYPE_TRIPLE) || (Z_of_byte ty =? TYPE_STAR_TRIPLE) then
            r ← read_term_fuel fuel buffer;
            match r with
            | Err e => Some (Err e)
            | Ok (subject, buffer) =>
                r ← read_term_fuel fuel buffer;
                match r with
                | Err e => Some (Err e)
                | Ok (predicate, buffer) =>
                    r ← read_term_fuel fuel buffer;
                    match r with
                    | Err e => Some (Err e)
                    | Ok (object, buffer) => Some (Ok (Triple subject predicate object, buffer))
                    end
                end
            end
          else Some (read_flat_term (Z_of_byte ty) buffer)
      end
  end.

(** Every level of nesting reads a byte, so the length of the buffer is enough
    fuel (theorem [read_term_total]). *)
Definition read_term (buffer : bytes) : read EncodedTerm :=
  default (Err StorageIo) (read_term_fuel (S (length buffer)) buffer).

Definition decode_term (buffer : bytes) : result StorageError EncodedTerm :=
  '(t, _) ← read_term buffer; Ok t.

Definition read_spog_quad (buffer : bytes) : read EncodedQuad :=
  '(s, buffer) ← read_term buffer; '(p, buffer) ← read_term buffer;
  '(o, buffer) ← read_term buffer; '(g, buffer) ← read_term buffer;
  Ok (mkEncodedQuad s p o g, buffer).
Definition read_posg_quad (buffer : bytes) : read EncodedQuad :=
  '(p, buffer) ← read_term buffer; '(o, buffer) ← read_term buffer;
  '(s, buffer) ← read_term buffer; '(g, buffer) ← read_term buffer;
  Ok (mkEncodedQuad s p o g, buffer).
Definition read_ospg_quad (buffer : bytes) : read EncodedQuad :=
  '(o, buffer) ← read_term buffer; '(s, buffer) ← read_term buffer;
  '(p, buffer) ← read_term buffer; '(g, buffer) ← read_term buffer;
  Ok (mkEncodedQuad s p o g, buffer).
Definition read_gspo_quad (buffer : bytes) : read EncodedQuad :=
  '(g, buffer) ← read_term buffer; '(s, buffer) ← read_term buffer;
  '(p, buffer) ← read_term buffer; '(o, buffer) ← read_term buffer;
  Ok (mkEncodedQuad s p o g, buffer).
Definition read_gpos_quad (buffer : bytes) : read EncodedQuad :=
  '(g, buffer) ← read_term buffer; '(p, buffer) ← read_term buffer;
  '(o, buffer) ← read_term buffer; '(s, buffer) ← read_term buffer;
  Ok (mkEncodedQuad s p o g, buffer).
Definition read_gosp_quad (buffer : bytes) : read EncodedQuad :=
  '(g, buffer) ← read_term buffer; '(o, buffer) ← read_term buffer;
  '(s, buffer) ← read_term buffer; '(p, buffer) ← read_term buffer;
  Ok (mkEncodedQuad s p o g, buffer).
Definition read_dspo_quad (buffer : bytes) : read EncodedQuad :=
  '(s, buffer) ← read_term buffer; '(p, buffer) ← read_term buffer;
  '(o, buffer) ← read_term buffer; Ok (mkEncodedQuad s p o DefaultGraph, buffer).
Definition read_dpos_quad (buffer : bytes) : read EncodedQuad :=
  '(p, buffer) ← read_term buffer; '(o, buffer) ← read_term buffer;
  '(s, buffer) ← read_term buffer; Ok (mkEncodedQuad s p o DefaultGraph, buffer).
Definition read_dosp_quad (buffer : bytes) : read EncodedQuad :=
  '(o, buffer) ← read_term buffer; '(s, buffer) ← read_term buffer;
  '(p, buffer) ← read_term buffer; Ok (mkEncodedQuad s p o DefaultGraph, buffer).

Inductive QuadEncoding : Set := Spog | Posg | Ospg | Gspo | Gpos | Gosp | Dspo | Dpos | Dosp.

Definition QuadEncoding_read (e : QuadEncoding) (buffer : bytes) : read EncodedQuad :=
  match e with
  | Spog => read_spog_quad buffer
  | Posg => read_posg_quad buffer
  | Ospg => read_ospg_quad buffer
  | Gspo => read_gspo_quad buffer
  | Gpos => read_gpos_quad buffer
  | Gosp => read_gosp_quad buffer
  | Dspo => read_dspo_quad buffer
  | Dpos => read_dpos_quad buffer
  | Dosp => read_dosp_quad buffer
  end.
Definition QuadEncoding_decode (e : QuadEncoding) (buffer : bytes)
  : result StorageError EncodedQuad :=
  '(q, _) ← QuadEncoding_read e buffer; Ok q.

(** The writer of each index. *)
Definition QuadEncoding_write (e : QuadEncoding) (q : EncodedQuad) : bytes :=
  match e with
  | Spog => write_spog_quad [] q
  | Posg => write_posg_quad [] q
  | Ospg => write_ospg_quad [] q
  | Gspo => write_gspo_quad [] q
  | Gpos => write_gpos_quad [] q
  | Gosp => write_gosp_quad [] q
  | Dspo => write_spo_quad [] q
  | Dpos => write_pos_quad [] q
  | Dosp => write_osp_quad [] q
  end.
