(* ===== verification/BinaryEncoderFacts.v ===== *)
(** * Correctness of the binary encoding

    Reading what was written gives the term back and stops exactly at its end;
    the encodings of two terms are never prefixes of each other; the nine quad
    orders decode to the quad they encode. *)
From S2P Require Import Prelude MachineInt RustStr XsdDecimal XsdDecimalFacts XsdDuration.
From S2P Require Import XsdDurationFacts XsdDateTime XsdCalendarFacts XsdDateTimeFacts.
From S2P Require Import EncodedTerm BinaryEncoder.

(** ** The interface of an encoding *)

(** A self-delimiting encoding: decoding reads exactly what encoding wrote. *)
Class Codec (A : Type) := {
  codec_valid : A -> Prop;
  codec_encode : A -> bytes;
  codec_decode : bytes -> read A;
  codec_round_trip : forall a rest, codec_valid a ->
    codec_decode (codec_encode a ++ rest) = Ok (a, rest)
}.

Section codec.
Context {A B : Type} `{Codec A} `{Codec B}.

(** No encoding is a prefix of another, and equal encodings are of equal values. *)
Lemma codec_prefix_free (a b : A) (r1 r2 : bytes) :
  codec_valid a -> codec_valid b -> codec_encode a ++ r1 = codec_encode b ++ r2 ->
  a = b /\ r1 = r2.
Proof.
  intros Ha Hb E. pose proof (codec_round_trip a r1 Ha) as H1. rewrite E in H1.
  rewrite codec_round_trip in H1 by done. by simplify_eq.
Qed.

Lemma codec_injective (a b : A) :
  codec_valid a -> codec_valid b -> codec_encode a = codec_encode b -> a = b.
Proof.
  intros Ha Hb E. apply (codec_prefix_free a b [] []); [done|done|by rewrite E].
Qed.

(** Two encodings in a row. *)
#[global] Program Instance codec_pair : Codec (A * B) := {
  codec_valid p := codec_valid p.1 /\ codec_valid p.2;
  codec_encode p := codec_encode p.1 ++ codec_encode p.2;
  codec_decode bs := '(a, bs) ← codec_decode bs; '(b, bs) ← codec_decode bs; Ok ((a, b), bs)
}.
Next Obligation.
  intros [a b] rest [Ha Hb]. simpl in *. rewrite <- app_assoc, codec_round_trip by done.
  cbn [mbind result_bind]. by rewrite codec_round_trip.
Qed.
End codec.

(** ** Small strings *)

Definition SmallString_wf (s : SmallString) : Prop :=
  exists value, utf8_valid value = true /\ SmallString_from_str value = Ok s.

Lemma SmallString_from_str_inv (value : bytes) (s : SmallString) :
  SmallString_from_str value = Ok s ->
  (length value <= 15)%nat /\
  ss_inner s = value ++ replicate (15 - length value) (byte_of_Z 0)
               ++ [byte_of_Z (Z.of_nat (length value))].
Proof.
  unfold SmallString_from_str. case_if_bool; [|done]. rewrite checked_in by int_bounds.
  intros [= <-]. split; [lia|done].
Qed.

Lemma SmallString_inner_length (s : SmallString) : SmallString_wf s -> length (ss_inner s) = 16%nat.
Proof.
  intros (value & _ & E). apply SmallString_from_str_inv in E as [Hl ->].
  rewrite !length_app, length_replicate. simpl. lia.
Qed.

Lemma SmallString_last (value : bytes) :
  (length value <= 15)%nat ->
  Z_of_byte (nth 15 (value ++ replicate (15 - length value) (byte_of_Z 0)
               ++ [byte_of_Z (Z.of_nat (length value))]) (byte_of_Z 0))
  = Z.of_nat (length value).
Proof.
  intros Hl. rewrite app_assoc, app_nth2 by (rewrite length_app, length_replicate; lia).
  rewrite length_app, length_replicate. replace (15 - _)%nat with O by lia. simpl.
  rewrite Z_of_byte_of_Z. apply Z.mod_small. lia.
Qed.

(** The string of a small string is the string it was made from. *)
Lemma SmallString_as_str_from (value : bytes) (s : SmallString) :
  SmallString_from_str value = Ok s -> SmallString_as_str s = value.
Proof.
  intros E. apply SmallString_from_str_inv in E as [Hl Es].
  unfold SmallString_as_str, SmallString_as_bytes, SmallString_len.
  rewrite Es, SmallString_last, Nat2Z.id by done. apply take_app_length.
Qed.

Lemma SmallString_from_to_be_bytes (s : SmallString) :
  SmallString_wf s -> SmallString_from_be_bytes (SmallString_to_be_bytes s) = Ok s.
Proof.
  intros (value & Hu & E). apply SmallString_from_str_inv in E as [Hl Es].
  unfold SmallString_from_be_bytes, SmallString_to_be_bytes. rewrite Es, SmallString_last by done.
  rewrite Z.gtb_ltb, (proj2 (Z.ltb_ge _ _)) by lia. rewrite Nat2Z.id, take_app_length, Hu.
  destruct s. simpl in Es. by subst.
Qed.

(** On well-formed small strings [==] is equality. *)
Lemma SmallString_eq_spec (a b : SmallString) :
  SmallString_wf a -> SmallString_wf b -> SmallString_eq a b = true <-> a = b.
Proof.
  intros (va & _ & Ea) (vb & _ & Eb). unfold SmallString_eq. rewrite bool_decide_eq_true.
  rewrite (SmallString_as_str_from va a Ea), (SmallString_as_str_from vb b Eb).
  split; [congruence|]. intros ->. apply SmallString_as_str_from in Ea, Eb. congruence.
Qed.

(** A string of at most 15 bytes is stored inline without loss and a longer
    one is refused: [from_str] succeeds exactly on the short strings, [as_str]
    gives the string back, and so does the round trip through the 16 bytes. *)
Theorem SmallString_round_trip (value : bytes) :
  utf8_valid value = true ->
  ((length value <= 15)%nat ->
     exists s, SmallString_from_str value = Ok s /\ SmallString_as_str s = value /\
       SmallString_from_be_bytes (SmallString_to_be_bytes s) = Ok s) /\
  ((15 < length value)%nat ->
     SmallString_from_str value = Err (TooLong (Z.of_nat (length value)))).
Proof.
  intros Hu. split; intros Hl.
  - unfold SmallString_from_str. rewrite (proj2 (Z.leb_le _ _)) by lia.
    rewrite checked_in by int_bounds. eexists. split; [reflexivity|].
    assert (SmallString_from_str value = Ok (mkSmallString (value ++ replicate (15 - length value)
      (byte_of_Z 0) ++ [byte_of_Z (Z.of_nat (length value))]))) as E.
    { unfold SmallString_from_str. rewrite (proj2 (Z.leb_le _ _)) by lia.
      by rewrite checked_in by int_bounds. }
    split; [by apply SmallString_as_str_from|]. apply SmallString_from_to_be_bytes. by exists value.
  - unfold SmallString_from_str. by rewrite (proj2 (Z.leb_gt _ _)) by lia.
Qed.

Lemma SmallString_round_trip_witness :
  exists s, SmallString_from_str (str "urn:x") = Ok s /\ SmallString_as_str s = str "urn:x".
Proof.
  destruct (proj1 (SmallString_round_trip (str "urn:x") eq_refl)) as (s & E1 & E2 & _);
    [simpl; lia|]. exists s. split; [exact E1|exact E2].
Defined.

(** ** Terms *)

Definition StrHash_wf (h : StrHash) : Prop := length (hash_bytes h) = 16%nat.

(** The timezone offset the bytes cannot represent is excluded. *)
Definition Timestamp_codable (t : Timestamp) : Prop :=
  Timestamp_wf t /\ ts_timezone_offset t <> Some (mkTimezoneOffset (-1)).

(** The terms the encoder can represent: every part is in the range of its type
    and the default graph, which is written as nothing, does not occur. *)
Fixpoint term_wf (t : EncodedTerm) : Prop :=
  match t with
  | DefaultGraph => False
  | NamedNode h | BigBlankNode h | BigStringLiteral h => StrHash_wf h
  | NumericalBlankNode id => length id = 16%nat
  | SmallBlankNode s | SmallStringLiteral s => SmallString_wf s
  | SmallSmallLangStringLiteral v l | LtrSmallSmallDirLangStringLiteral v l
  | RtlSmallSmallDirLangStringLiteral v l => SmallString_wf v /\ SmallString_wf l
  | SmallBigLangStringLiteral v l | LtrSmallBigDirLangStringLiteral v l
  | RtlSmallBigDirLangStringLiteral v l | SmallTypedLiteral v l => SmallString_wf v /\ StrHash_wf l
  | BigSmallLangStringLiteral v l | LtrBigSmallDirLangStringLiteral v l
  | RtlBigSmallDirLangStringLiteral v l => StrHash_wf v /\ SmallString_wf l
  | BigBigLangStringLiteral v l | LtrBigBigDirLangStringLiteral v l
  | RtlBigBigDirLangStringLiteral v l | BigTypedLiteral v l => StrHash_wf v /\ StrHash_wf l
  | BooleanLiteral _ => True
  | FloatLiteral f => in_int U32 (float_bits f)
  | DoubleLiteral f => in_int U64 (double_bits f)
  | IntegerLiteral i => Integer_wf i
  | DecimalLiteral d => Decimal_wf d
  | DateTimeLiteral v => Timestamp_codable (DateTime_timestamp v)
  | TimeLiteral v => Timestamp_codable (Time_timestamp v)
  | DateLiteral v => Timestamp_codable (Date_timestamp v)
  | GYearMonthLiteral v => Timestamp_codable (GYearMonth_timestamp v)
  | GYearLiteral v => Timestamp_codable (GYear_timestamp v)
  | GMonthDayLiteral v => Timestamp_codable (GMonthDay_timestamp v)
  | GDayLiteral v => Timestamp_codable (GDay_timestamp v)
  | GMonthLiteral v => Timestamp_codable (GMonth_timestamp v)
  | DurationLiteral v => Duration_wf v
  | YearMonthDurationLiteral v => in_int I64 (ymd_months v)
  | DayTimeDurationLiteral v => Decimal_wf (dtd_seconds v)
  | Triple s p o => term_wf s /\ term_wf p /\ term_wf o
  end.

(** A writer appends: what it writes does not depend on the sink. *)
Lemma write_term_app (sink : bytes) (t : EncodedTerm) :
  write_term sink t = sink ++ encode_term t.
Proof.
  revert sink. induction t as [| | | | | | | | | | | | | | | | | | | | | | | | | | | | | | | | | | | | | s IHs p IHp o IHo];
    intros sink; try (cbn; by rewrite ?app_nil_r).
  unfold encode_term. cbn [write_term]. rewrite !IHo, !IHp, !IHs. unfold write_tagged.
  by rewrite <- !app_assoc.
Qed.

Lemma encode_triple (s p o : EncodedTerm) :
  encode_term (Triple s p o)
  = byte_of_Z TYPE_TRIPLE :: encode_term s ++ encode_term p ++ encode_term o.
Proof.
  unfold encode_term at 1. cbn [write_term]. rewrite !write_term_app. unfold write_tagged.
  rewrite app_nil_l. simpl app. by rewrite <- !app_assoc.
Qed.

Lemma read_exact_app (n : nat) (bs rest : bytes) :
  length bs = n -> read_exact n (bs ++ rest) = Ok (bs, rest).
Proof.
  intros <-. unfold read_exact. rewrite (proj2 (Nat.leb_le _ _)) by (rewrite length_app; lia).
  by rewrite take_app_length, drop_app_length.
Qed.

Lemma read_value_app {A : Type} (n : nat) (f : bytes -> A) (bs rest : bytes) :
  length bs = n -> read_value n f (bs ++ rest) = Ok (f bs, rest).
Proof. intros H. unfold read_value. by rewrite read_exact_app. Qed.

Lemma read_two_app (a b rest : bytes) :
  length a = 16%nat -> length b = 16%nat -> read_two ((a ++ b) ++ rest) = Ok ((a, b), rest).
Proof.
  intros Ha Hb. unfold read_two. rewrite <- app_assoc, read_exact_app by done.
  cbn [mbind result_bind]. by rewrite read_exact_app.
Qed.

Lemma small_string_of_wf (s : SmallString) :
  SmallString_wf s -> small_string_of (SmallString_to_be_bytes s) = Ok s.
Proof. intros H. unfold small_string_of. by rewrite SmallString_from_to_be_bytes. Qed.

Lemma Timestamp_from_to_bytes_codable (t : Timestamp) :
  Timestamp_codable t -> Timestamp_from_be_bytes (Timestamp_to_be_bytes t) = t.
Proof. intros [? ?]. by apply Timestamp_bytes_exact. Qed.

(** Select the arm of the reader for a known tag. *)
Ltac select_tag :=
  cbv beta iota zeta delta [read_flat_term read_value_literal Z.eqb Pos.eqb orb
    TYPE_NAMED_NODE_ID TYPE_NUMERICAL_BLANK_NODE_ID TYPE_SMALL_BLANK_NODE_ID TYPE_BIG_BLANK_NODE_ID
    TYPE_SMALL_STRING_LITERAL TYPE_BIG_STRING_LITERAL TYPE_SMALL_SMALL_LANG_STRING_LITERAL
    TYPE_SMALL_BIG_LANG_STRING_LITERAL TYPE_BIG_SMALL_LANG_STRING_LITERAL
    TYPE_BIG_BIG_LANG_STRING_LITERAL TYPE_SMALL_TYPED_LITERAL TYPE_BIG_TYPED_LITERAL
    TYPE_BOOLEAN_LITERAL_TRUE TYPE_BOOLEAN_LITERAL_FALSE TYPE_FLOAT_LITERAL TYPE_DOUBLE_LITERAL
    TYPE_INTEGER_LITERAL TYPE_DECIMAL_LITERAL TYPE_DATE_TIME_LITERAL TYPE_TIME_LITERAL
    TYPE_DATE_LITERAL TYPE_G_YEAR_MONTH_LITERAL TYPE_G_YEAR_LITERAL TYPE_G_MONTH_DAY_LITERAL
    TYPE_G_DAY_LITERAL TYPE_G_MONTH_LITERAL TYPE_DURATION_LITERAL TYPE_YEAR_MONTH_DURATION_LITERAL
    TYPE_DAY_TIME_DURATION_LITERAL TYPE_STAR_TRIPLE TYPE_TRIPLE
    TYPE_LTR_SMALL_SMALL_DIR_LANG_STRING_LITERAL TYPE_LTR_SMALL_BIG_DIR_LANG_STRING_LITERAL
    TYPE_LTR_BIG_SMALL_DIR_LANG_STRING_LITERAL TYPE_LTR_BIG_BIG_DIR_LANG_STRING_LITERAL
    TYPE_RTL_SMALL_SMALL_DIR_LANG_STRING_LITERAL TYPE_RTL_SMALL_BIG_DIR_LANG_STRING_LITERAL
    TYPE_RTL_BIG_SMALL_DIR_LANG_STRING_LITERAL TYPE_RTL_BIG_BIG_DIR_LANG_STRING_LITERAL].

Lemma read_tagged (fuel : nat) (tag : Z) (payload rest : bytes) :
  0 <= tag < 256 -> tag <> TYPE_TRIPLE -> tag <> TYPE_STAR_TRIPLE ->
  read_term_fuel (S fuel) (write_tagged [] tag payload ++ rest)
  = Some (read_flat_term tag (payload ++ rest)).
Proof.
  intros Ht H1 H2. cbn [read_term_fuel write_tagged app].
  rewrite Z_of_byte_of_Z, Z.mod_small by done.
  by rewrite (proj2 (Z.eqb_neq tag TYPE_TRIPLE)), (proj2 (Z.eqb_neq tag TYPE_STAR_TRIPLE)).
Qed.

Lemma small_string_of_inner (s : SmallString) :
  SmallString_wf s -> small_string_of (ss_inner s) = Ok s.
Proof. apply small_string_of_wf. Qed.

Lemma YearMonthDuration_from_to_be_bytes (d : YearMonthDuration) :
  in_int I64 (ymd_months d) -> YearMonthDuration_from_be_bytes (YearMonthDuration_to_be_bytes d) = d.
Proof.
  intros H. unfold YearMonthDuration_from_be_bytes, YearMonthDuration_to_be_bytes.
  rewrite from_to_be_bytes by done. by destruct d.
Qed.

(** Open a value-language pair and check its small strings. *)
Ltac read_pair :=
  intros; unfold read_small_small, read_small_big, read_big_small, read_big_big, StrHash_wf in *;
  rewrite read_two_app by (assumption || (apply SmallString_inner_length; assumption));
  cbn [mbind result_bind];
  rewrite ?small_string_of_inner by assumption; cbn [mbind result_bind];
  rewrite ?small_string_of_inner by assumption; cbn [mbind result_bind];
  unfold StrHash_from_be_bytes; repeat match goal with h : StrHash |- _ => destruct h end; reflexivity.

Lemma read_small_small_app c (v l : SmallString) (rest : bytes) :
  SmallString_wf v -> SmallString_wf l ->
  read_small_small c ((ss_inner l ++ ss_inner v) ++ rest) = Ok (c v l, rest).
Proof. read_pair. Qed.
Lemma read_small_big_app c (v : SmallString) (hl : StrHash) (rest : bytes) :
  SmallString_wf v -> StrHash_wf hl ->
  read_small_big c ((hash_bytes hl ++ ss_inner v) ++ rest) = Ok (c v hl, rest).
Proof. read_pair. Qed.
Lemma read_big_small_app c (hv : StrHash) (l : SmallString) (rest : bytes) :
  StrHash_wf hv -> SmallString_wf l ->
  read_big_small c ((ss_inner l ++ hash_bytes hv) ++ rest) = Ok (c hv l, rest).
Proof. read_pair. Qed.
Lemma read_big_big_app c (hv hl : StrHash) (rest : bytes) :
  StrHash_wf hv -> StrHash_wf hl ->
  read_big_big c ((hash_bytes hl ++ hash_bytes hv) ++ rest) = Ok (c hv hl, rest).
Proof. read_pair. Qed.

(** The arms that read one value of fixed size. *)
Lemma read_value_round_trip {A B : Type} (n : nat) (to : A -> bytes) (from : bytes -> A) (c : A -> B)
  (a : A) (rest : bytes) :
  length (to a) = n -> from (to a) = a ->
  read_value n (fun bs => c (from bs)) (to a ++ rest) = Ok (c a, rest).
Proof. intros Hl E. rewrite read_value_app by done. by rewrite E. Qed.

Definition is_triple (t : EncodedTerm) : Prop :=
  match t with Triple _ _ _ => True | _ => False end.

Lemma read_flat (fuel : nat) (t : EncodedTerm) (rest : bytes) :
  term_wf t -> ~ is_triple t ->
  read_term_fuel (S fuel) (encode_term t ++ rest) = Some (Ok (t, rest)).
Proof.
  intros Hwf Hnt. destruct t; try done; try (destruct Hnt; exact I); cbn [term_wf] in Hwf;
    unfold encode_term; cbn [write_term].
  all: rewrite read_tagged by (done || by destruct (Boolean_value value)); f_equal.
  all: unfold StrHash_to_be_bytes, SmallString_to_be_bytes; select_tag.
  all: try first
    [ apply read_small_small_app; apply Hwf | apply read_small_big_app; apply Hwf
    | apply read_big_small_app; apply Hwf | apply read_big_big_app; apply Hwf ].
  all: try (apply (read_value_round_trip _ hash_bytes StrHash_from_be_bytes);
            [exact Hwf | by destruct iri_id || by destruct id_id || by destruct value_id]).
  all: try (rewrite read_exact_app by (by apply SmallString_inner_length); cbn [mbind result_bind];
            by rewrite small_string_of_inner).
  all: try (apply (read_value_round_trip 18); [apply length_Timestamp_to_be_bytes|];
            destruct value; by apply (f_equal _ (Timestamp_from_to_bytes_codable _ Hwf))).
  - by apply read_value_app.
  - by destruct value as [[]].
  - apply (read_value_round_trip 4); [apply length_to_be_bytes|]. destruct value.
    unfold Float_from_be_bytes, Float_to_be_bytes. by rewrite from_to_be_bytes.
  - apply (read_value_round_trip 8); [apply length_to_be_bytes|]. destruct value.
    unfold Double_from_be_bytes, Double_to_be_bytes. by rewrite from_to_be_bytes.
  - apply (read_value_round_trip 8); [apply length_to_be_bytes|]. by apply Integer_from_to_be_bytes.
  - apply (read_value_round_trip 16); [apply length_to_be_bytes|]. by apply Decimal_from_to_be_bytes.
  - apply (read_value_round_trip 24); [apply length_Duration_to_be_bytes|].
    by apply Duration_from_to_be_bytes.
  - apply (read_value_round_trip 8); [apply length_to_be_bytes|].
    by apply YearMonthDuration_from_to_be_bytes.
  - apply (read_value_round_trip 16); [apply length_to_be_bytes|]. destruct value.
    unfold DayTimeDuration_from_be_bytes, DayTimeDuration_to_be_bytes.
    by rewrite Decimal_from_to_be_bytes.
Qed.

Lemma encode_term_nonempty (t : EncodedTerm) : term_wf t -> (1 <= length (encode_term t))%nat.
Proof.
  destruct t; intros Hwf; try done; try (cbn; lia); try (destruct Hwf).
  rewrite encode_triple. simpl. lia.
Qed.

Lemma read_term_fuel_encode (t : EncodedTerm) (fuel : nat) (rest : bytes) :
  term_wf t -> (length (encode_term t) <= fuel)%nat ->
  read_term_fuel fuel (encode_term t ++ rest) = Some (Ok (t, rest)).
Proof.
  revert fuel rest.
  induction t as [| | | | | | | | | | | | | | | | | | | | | | | | | | | | | | | | | | | | | s IHs p IHp o IHo];
    intros fuel rest Hwf Hf; [destruct Hwf|..];
    try (pose proof (encode_term_nonempty _ Hwf); destruct fuel as [|fuel]; [lia|];
         apply read_flat; [done|by intros []]).
  destruct Hwf as (Hs & Hp & Ho). rewrite encode_triple in Hf |- *. cbn [length app] in Hf |- *.
  rewrite !length_app in Hf. destruct fuel as [|fuel]; [lia|]. cbn [read_term_fuel].
  change (Z_of_byte (byte_of_Z TYPE_TRIPLE)) with 49. cbn [Z.eqb Pos.eqb TYPE_TRIPLE orb].
  rewrite <- !app_assoc, IHs by (done || lia). cbn [mbind option_bind].
  rewrite IHp by (done || lia). cbn [mbind option_bind]. by rewrite IHo by (done || lia).
Qed.

Lemma read_term_encode (t : EncodedTerm) (rest : bytes) :
  term_wf t -> read_term (encode_term t ++ rest) = Ok (t, rest).
Proof.
  intros Hwf. unfold read_term. rewrite read_term_fuel_encode; [done|done|].
  rewrite length_app. lia.
Qed.

(** The terms are a [Codec]. *)
#[global] Instance term_codec : Codec EncodedTerm := {
  codec_valid := term_wf;
  codec_encode := encode_term;
  codec_decode := read_term;
  codec_round_trip := read_term_encode
}.

(** C30. Reading an encoded term gives the term back and leaves exactly what
    follows it, for every term in the range of its types, triple terms of any depth
    included, but for the default graph, which is written as nothing, and dates and
    times with the timezone -00:01, whose bytes are those of no timezone. *)
Theorem read_term_write_term (t : EncodedTerm) (sink rest : bytes) :
  term_wf t -> read_term (drop (length sink) (write_term sink t) ++ rest) = Ok (t, rest).
Proof.
  intros Hwf. rewrite write_term_app, drop_app_length. by apply read_term_encode.
Qed.

Lemma read_term_write_term_witness :
  read_term (drop 1 (write_term (str "x") (Triple (NamedNode (mkStrHash (str "0123456789abcdef")))
    (IntegerLiteral (mkInteger (-5))) (BooleanLiteral (mkBoolean true)))) ++ str "tail")
  = Ok (Triple (NamedNode (mkStrHash (str "0123456789abcdef"))) (IntegerLiteral (mkInteger (-5)))
          (BooleanLiteral (mkBoolean true)), str "tail").
Proof.
  apply (read_term_write_term (Triple (NamedNode (mkStrHash (str "0123456789abcdef")))
    (IntegerLiteral (mkInteger (-5))) (BooleanLiteral (mkBoolean true))) (str "x") (str "tail")).
  repeat split; discriminate.
Defined.

(** The encodings of two terms are equal only for equal terms, and one is
    never a proper prefix of the other: a range scan on an encoded term finds
    exactly the keys of that term. *)
Theorem encode_term_prefix_free (a b : EncodedTerm) (r1 r2 : bytes) :
  term_wf a -> term_wf b -> encode_term a ++ r1 = encode_term b ++ r2 -> a = b /\ r1 = r2.
Proof. apply (@codec_prefix_free _ term_codec). Qed.

Lemma encode_term_prefix_free_witness :
  NamedNode (mkStrHash (str "0123456789abcdef")) = NamedNode (mkStrHash (str "0123456789abcdef"))
  /\ str "r" = str "r".
Proof.
  apply (encode_term_prefix_free (NamedNode (mkStrHash (str "0123456789abcdef")))
    (NamedNode (mkStrHash (str "0123456789abcdef"))) (str "r") (str "r")); reflexivity.
Defined.

(** ** Quads *)

(** A quad an index can hold: the graph name of the three default-graph orders
    is implicit, the others write it as a term. *)
Definition quad_wf (e : QuadEncoding) (q : EncodedQuad) : Prop :=
  term_wf (quad_subject q) /\ term_wf (quad_predicate q) /\ term_wf (quad_object q) /\
  match e with
  | Dspo | Dpos | Dosp => quad_graph_name q = DefaultGraph
  | _ => term_wf (quad_graph_name q)
  end.

Lemma QuadEncoding_read_write (e : QuadEncoding) (q : EncodedQuad) (rest : bytes) :
  quad_wf e q -> QuadEncoding_read e (QuadEncoding_write e q ++ rest) = Ok (q, rest).
Proof.
  destruct q as [s p o g]. intros (Hs & Hp & Ho & Hg).
  destruct e; cbn [quad_subject quad_predicate quad_object quad_graph_name] in *; try subst g;
    unfold QuadEncoding_write, write_spog_quad, write_posg_quad, write_ospg_quad, write_gspo_quad,
      write_gpos_quad, write_gosp_quad, write_spo_quad, write_pos_quad, write_osp_quad;
    cbn [quad_subject quad_predicate quad_object quad_graph_name];
    rewrite !write_term_app, app_nil_l, <- !app_assoc;
    unfold QuadEncoding_read, read_spog_quad, read_posg_quad, read_ospg_quad, read_gspo_quad,
      read_gpos_quad, read_gosp_quad, read_dspo_quad, read_dpos_quad, read_dosp_quad;
    repeat (rewrite read_term_encode by assumption; cbn [mbind result_bind]); reflexivity.
Qed.

(** The quads of an index are a [Codec]. *)
#[global] Instance quad_codec (e : QuadEncoding) : Codec EncodedQuad := {
  codec_valid := quad_wf e;
  codec_encode := QuadEncoding_write e;
  codec_decode := QuadEncoding_read e;
  codec_round_trip := QuadEncoding_read_write e
}.

(** C31. Each of the nine index orders decodes the key of a quad to that quad,
    and two quads have the same key only if they are equal, when their terms are in
    the range of their types, without the timezone -00:01 in dates and times, and
    the graph is the default one exactly in the orders without a graph. *)
Theorem QuadEncoding_decode_write (e : QuadEncoding) (q : EncodedQuad) :
  quad_wf e q ->
  QuadEncoding_decode e (QuadEncoding_write e q) = Ok q /\
  (forall q', quad_wf e q' -> QuadEncoding_write e q = QuadEncoding_write e q' -> q = q').
Proof.
  intros Hq. split.
  - unfold QuadEncoding_decode. rewrite <- (app_nil_r (QuadEncoding_write e q)).
    by rewrite QuadEncoding_read_write.
  - intros q' Hq' E. by apply (@codec_injective _ (quad_codec e)).
Qed.

Lemma QuadEncoding_decode_write_witness :
  QuadEncoding_decode Dosp (QuadEncoding_write Dosp (mkEncodedQuad
    (NamedNode (mkStrHash (str "0123456789abcdef"))) (NamedNode (mkStrHash (str "fedcba9876543210")))
    (DecimalLiteral Decimal_MIN) DefaultGraph))
  = Ok (mkEncodedQuad
    (NamedNode (mkStrHash (str "0123456789abcdef"))) (NamedNode (mkStrHash (str "fedcba9876543210")))
    (DecimalLiteral Decimal_MIN) DefaultGraph).
Proof.
  apply (QuadEncoding_decode_write Dosp). repeat split; discriminate.
Defined.

(** ** Totality of the reader *)

Lemma read_exact_shortens (n : nat) (buffer bs rest : bytes) :
  read_exact n buffer = Ok (bs, rest) -> (length rest <= length buffer)%nat.
Proof.
  unfold read_exact. destruct (n <=? length buffer)%nat; [|done]. intros [= _ <-].
  rewrite length_drop. lia.
Qed.

Lemma read_value_shortens {A : Type} (n : nat) (f : bytes -> A) (buffer rest : bytes) (a : A) :
  read_value n f buffer = Ok (a, rest) -> (length rest <= length buffer)%nat.
Proof.
  unfold read_value. intros H. apply bind_Ok in H as ([bs r] & E & H). injection H as _ <-.
  by apply read_exact_shortens in E.
Qed.

Lemma read_two_shortens (buffer rest : bytes) (ab : bytes * bytes) :
  read_two buffer = Ok (ab, rest) -> (length rest <= length buffer)%nat.
Proof.
  unfold read_two. intros H. apply bind_Ok in H as ([a r1] & E1 & H).
  apply bind_Ok in H as ([b r2] & E2 & H). injection H as _ <-.
  apply read_exact_shortens in E1, E2. lia.
Qed.

(** Each arm of the reader ends in one of the three reads above. *)
Ltac shortens H :=
  first
  [ by apply read_value_shortens in H
  | let r := fresh "r" in let E := fresh "E" in
    apply bind_Ok in H as ([[? ?] r] & E & H); apply read_two_shortens in E;
    repeat (apply bind_Ok in H as (? & _ & H)); injection H as _ <-; exact E
  | let r := fresh "r" in let E := fresh "E" in
    apply bind_Ok in H as ([? r] & E & H); apply read_exact_shortens in E;
    repeat (apply bind_Ok in H as (? & _ & H)); injection H as _ <-; exact E
  | by (injection H as _ <-; lia) | discriminate H ].

Lemma read_flat_term_shortens (ty : Z) (buffer rest : bytes) (t : EncodedTerm) :
  read_flat_term ty buffer = Ok (t, rest) -> (length rest <= length buffer)%nat.
Proof.
  intros H. unfold read_flat_term, read_value_literal, read_small_small, read_small_big,
    read_big_small, read_big_big in H.
  repeat match type of H with (if ?b then _ else _) = _ => destruct b; [shortens H|] end.
  discriminate H.
Qed.

Lemma read_term_fuel_total (fuel : nat) (buffer : bytes) :
  (length buffer < fuel)%nat ->
  exists r, read_term_fuel fuel buffer = Some r /\
    (forall t rest, r = Ok (t, rest) -> (length rest < length buffer)%nat).
Proof.
  revert buffer. induction fuel as [|fuel IH]; intros buffer Hf; [lia|].
  destruct buffer as [|ty buffer]; cbn [read_term_fuel]; [by eexists|]. simpl in Hf.
  destruct (_ || _).
  - destruct (IH buffer ltac:(lia)) as (r1 & -> & L1). cbn [mbind option_bind].
    destruct r1 as [[s b1]|e]; [|by eexists]. specialize (L1 s b1 eq_refl).
    destruct (IH b1 ltac:(lia)) as (r2 & -> & L2). cbn [mbind option_bind].
    destruct r2 as [[p b2]|e]; [|by eexists]. specialize (L2 p b2 eq_refl).
    destruct (IH b2 ltac:(lia)) as (r3 & -> & L3). cbn [mbind option_bind].
    destruct r3 as [[o b3]|e]; [|by eexists]. specialize (L3 o b3 eq_refl).
    eexists. split; [reflexivity|]. intros t rest [= <- <-]. simpl. lia.
  - eexists. split; [reflexivity|]. intros t rest E. apply read_flat_term_shortens in E. simpl. lia.
Qed.

(** [read_term] returns on every buffer, corrupted ones included: the
    nesting bound of the model is never reached, and a successful read consumes
    at least one byte. *)
Theorem read_term_total (buffer : bytes) :
  exists r, read_term_fuel (S (length buffer)) buffer = Some r /\ read_term buffer = r /\
    (forall t rest, r = Ok (t, rest) -> (length rest < length buffer)%nat).
Proof.
  destruct (read_term_fuel_total (S (length buffer)) buffer) as (r & E & L); [lia|].
  exists r. unfold read_term. rewrite E. done.
Qed.

Lemma encode_term_length (t : EncodedTerm) :
  term_wf t -> ~ is_triple t -> (length (encode_term t) <= 33)%nat.
Proof.
  intros Hwf Hnt.
  destruct t; try (destruct Hwf; fail); try (destruct Hnt; exact I); unfold encode_term;
    cbn [write_term]; unfold write_tagged; cbn [app length]; cbn [term_wf] in Hwf;
    unfold StrHash_wf, StrHash_to_be_bytes, SmallString_to_be_bytes in *;
    repeat match goal with H : _ /\ _ |- _ => destruct H end;
    repeat match goal with H : SmallString_wf _ |- _ => apply SmallString_inner_length in H end;
    rewrite ?length_app; try (unfold Float_to_be_bytes, Double_to_be_bytes, Integer_to_be_bytes,
      Decimal_to_be_bytes, YearMonthDuration_to_be_bytes, DayTimeDuration_to_be_bytes,
      DateTime_to_be_bytes, Time_to_be_bytes, Date_to_be_bytes, GYearMonth_to_be_bytes,
      GYear_to_be_bytes, GMonthDay_to_be_bytes, GDay_to_be_bytes, GMonth_to_be_bytes;
      autorewrite with oxi_len); simpl; lia.
Qed.

(** A term that is not a triple is written on at most
    [WRITTEN_TERM_MAX_SIZE] bytes, so the buffers allocated with that capacity
    per term do not grow. *)
Theorem encode_term_size (t : EncodedTerm) :
  term_wf t -> ~ is_triple t -> Z.of_nat (length (encode_term t)) <= WRITTEN_TERM_MAX_SIZE.
Proof.
  intros Hwf Hnt. pose proof (encode_term_length t Hwf Hnt). unfold WRITTEN_TERM_MAX_SIZE. lia.
Qed.

Lemma encode_term_size_witness :
  Z.of_nat (length (encode_term (DurationLiteral Duration_MAX))) <= WRITTEN_TERM_MAX_SIZE.
Proof.
  apply (encode_term_size (DurationLiteral Duration_MAX)).
  - repeat split; try discriminate; intros [H1 H2]; discriminate.
  - intros [].
Defined.

(** ** Equality and hashing *)

Lemma StrHash_eq_true (a b : StrHash) : StrHash_eq a b = true <-> a = b.
Proof.
  unfold StrHash_eq. rewrite bool_decide_eq_true. destruct a, b. simpl. split; congruence.
Qed.

Lemma Timestamp_is_identical_true (a b : Timestamp) :
  Timestamp_is_identical_with a b = true <-> a = b.
Proof.
  unfold Timestamp_is_identical_with, Decimal_eqb. destruct a as [[v] tz], b as [[v'] tz']. simpl.
  rewrite andb_true_iff, bool_decide_eq_true, Z.eqb_eq. split; [intros [-> ->]; done|].
  intros [= -> ->]. done.
Qed.

Lemma Duration_is_identical_true (a b : Duration) : Duration_is_identical_with a b = true <-> a = b.
Proof.
  destruct a as [[m] [[s]]], b as [[m'] [[s']]]. unfold Duration_is_identical_with,
    YearMonthDuration_is_identical_with, DayTimeDuration_is_identical_with, Decimal_eqb. simpl.
  rewrite andb_true_iff, !Z.eqb_eq. split; [intros [-> ->]; done|]. intros [= -> ->]. done.
Qed.

(** Turn the boolean equality of two parts into the equality the hash needs. *)
Ltac part_eq :=
  repeat match goal with
  | H : (_ && _) = true |- _ => apply andb_true_iff in H as [? ?]
  | H : StrHash_eq _ _ = true |- _ => apply StrHash_eq_true in H; subst
  | H : Timestamp_is_identical_with _ _ = true |- _ => apply Timestamp_is_identical_true in H
  | H : Duration_is_identical_with _ _ = true |- _ => apply Duration_is_identical_true in H; subst
  | H : bool_decide _ = true |- _ => apply bool_decide_eq_true in H; subst
  | H : (_ =? _) = true |- _ => apply Z.eqb_eq in H
  end.

(** Equal terms have equal hashes, the contract of [Hash] and [Eq] that the
    hash maps of the in-memory store rely on; it holds for all terms, also those
    read from a corrupted store, whose small strings may have arbitrary padding. *)
Theorem EncodedTerm_eq_hash (a b : EncodedTerm) :
  EncodedTerm_eq a b = true -> EncodedTerm_hash a = EncodedTerm_hash b.
Proof.
  revert b. induction a as [| | | | | | | | | | | | | | | | | | | | | | | | | | | | | | | | | | | | | s IHs p IHp o IHo];
    intros b H; destruct b; try discriminate H; cbn [EncodedTerm_eq] in H;
    try (apply andb_true_iff in H as [H H3]; apply andb_true_iff in H as [H1 H2];
         cbn [EncodedTerm_hash]; by rewrite (IHs _ H1), (IHp _ H2), (IHo _ H3));
    unfold SmallString_eq, Boolean_eq, Float_is_identical_with, Double_is_identical_with,
      Integer_is_identical_with, Decimal_is_identical_with, DateTime_is_identical_with,
      Time_is_identical_with, Date_is_identical_with, GYearMonth_is_identical_with,
      GYear_is_identical_with, GMonthDay_is_identical_with, GDay_is_identical_with,
      GMonth_is_identical_with, YearMonthDuration_is_identical_with,
      DayTimeDuration_is_identical_with, Decimal_eqb in H; part_eq;
    cbn [EncodedTerm_hash EncodedTerm_discriminant]; f_equal;
    unfold SmallString_hash, Timestamp_hash, Float_to_be_bytes, Double_to_be_bytes; try congruence.
  by apply Bool.eqb_prop in H as ->.
Qed.

Lemma EncodedTerm_eq_hash_witness :
  EncodedTerm_hash (SmallStringLiteral (mkSmallString (str "a______________" ++ [byte_of_Z 1])))
  = EncodedTerm_hash (SmallStringLiteral (mkSmallString (str "a++++++++++++++" ++ [byte_of_Z 1]))).
Proof. apply EncodedTerm_eq_hash. vm_compute. reflexivity. Defined.

(** C32. On the terms the store can hold [==] is equality of the encoded terms. *)
Theorem EncodedTerm_eq_spec (a b : EncodedTerm) :
  term_wf a -> term_wf b -> EncodedTerm_eq a b = true <-> a = b.
Proof.
  revert b. induction a as [| | | | | | | | | | | | | | | | | | | | | | | | | | | | | | | | | | | | | s IHs p IHp o IHo];
    intros b Ha Hb; destruct b; try (split; discriminate); cbn [EncodedTerm_eq term_wf] in *; try done;
    try (rewrite !andb_true_iff, IHs, IHp, IHo by tauto; naive_solver);
    repeat match goal with H : _ /\ _ |- _ => destruct H end;
    rewrite ?andb_true_iff, ?StrHash_eq_true, ?SmallString_eq_spec by done;
    unfold Boolean_eq, Float_is_identical_with, Double_is_identical_with,
      Integer_is_identical_with, Decimal_is_identical_with, DateTime_is_identical_with,
      Time_is_identical_with, Date_is_identical_with, GYearMonth_is_identical_with,
      GYear_is_identical_with, GMonthDay_is_identical_with, GDay_is_identical_with,
      GMonth_is_identical_with, YearMonthDuration_is_identical_with,
      DayTimeDuration_is_identical_with, Decimal_eqb;
    rewrite ?Timestamp_is_identical_true, ?Duration_is_identical_true, ?bool_decide_eq_true, ?Z.eqb_eq;
    try (split; [intros; destruct_and?; congruence|intros [= ?]; by subst]).
  all: try rewrite Bool.eqb_true_iff; split; [|intros [= ?]; by subst].
  all: destruct value, value0; simpl; intros; try congruence.
  destruct dtd_seconds, dtd_seconds0. simpl in *. by subst.
Qed.

Lemma EncodedTerm_eq_spec_witness :
  EncodedTerm_eq (Triple (IntegerLiteral (mkInteger 1)) (IntegerLiteral (mkInteger 2)) (BooleanLiteral (mkBoolean true)))
                 (Triple (IntegerLiteral (mkInteger 1)) (IntegerLiteral (mkInteger 2)) (BooleanLiteral (mkBoolean true))) = true.
Proof. apply EncodedTerm_eq_spec; [vm_compute; repeat split; (reflexivity || discriminate)..|reflexivity]. Defined.
