(* ===== verification/RdfModel.v ===== *)
(** * RDF terms

    The owned terms of lib/oxrdf/src: named_node.rs, blank_node.rs, literal.rs
    and triple.rs.  Strings are their UTF-8 bytes.  The types carry the prefix
    [Rdf], the encoded terms of the store have the bare names. *)
From S2P Require Import Prelude MachineInt RustStr XsdDecimal XsdDuration XsdDateTime.
From S2P Require Import XsdDateTimeText EncodedTerm.

(** ** Named nodes *)

Record RdfNamedNode : Set := mkNamedNode { nn_iri : bytes }.
Definition NamedNode_new_unchecked (iri : bytes) : RdfNamedNode := mkNamedNode iri.
Definition NamedNode_as_str (n : RdfNamedNode) : bytes := nn_iri n.

(** The vocabulary the encoder uses. *)
Definition XSD (name : string) : RdfNamedNode :=
  mkNamedNode (str "http://www.w3.org/2001/XMLSchema#" ++ str name).
Definition RDF (name : string) : RdfNamedNode :=
  mkNamedNode (str "http://www.w3.org/1999/02/22-rdf-syntax-ns#" ++ str name).
Definition XSD_STRING : RdfNamedNode := XSD "string".
Definition RDF_LANG_STRING : RdfNamedNode := RDF "langString".
Definition RDF_DIR_LANG_STRING : RdfNamedNode := RDF "dirLangString".

(** ** Blank nodes *)

(** [BlankNodeContent]: an identifier, or a 128-bit number with its hexadecimal
    text. *)
Inductive RdfBlankNode : Set :=
| BlankNamed (id : bytes)
| BlankAnonymous (id : Z) (id_str : bytes).

Definition hex_digit (d : Z) : ascii := if d <? 10 then digit_char d else byte_of_Z (87 + d).

(** [write!(f, "{id:x}")]: at most 32 digits for a [u128]. *)
Fixpoint hex_digits (fuel : nat) (n : Z) : bytes :=
  match fuel with
  | O => []
  | S fuel => if n =? 0 then [] else hex_digits fuel (n / 16) ++ [hex_digit (n mod 16)]
  end.
Definition IdStr_new (id : Z) : bytes := if id =? 0 then str "0" else hex_digits 32 id.

(** The value of one lower-case hexadecimal digit. *)
Definition hex_value (c : ascii) : option Z :=
  let b := Z_of_byte c in
  if (48 <=? b) && (b <=? 57) then Some (b - 48)
  else if (97 <=? b) && (b <=? 102) then Some (b - 97 + 10)
  else None.

Fixpoint to_integer_id_loop (value : Z) (digits : bytes) : option Z :=
  match digits with
  | [] => Some value
  | digit :: digits =>
      d ← hex_value digit;
      value ← checked_mul U128 value 16;
      value ← checked_add U128 value d;
      to_integer_id_loop value digits
  end.
Definition to_integer_id (id : bytes) : option Z :=
  match id with
  | [] => None
  | c :: _ => if Ascii.eqb c "0"%char then None else to_integer_id_loop 0 id
  end.

Definition BlankNode_new_from_unique_id (id : Z) : RdfBlankNode := BlankAnonymous id (IdStr_new id).
Definition BlankNode_new_unchecked (id : bytes) : RdfBlankNode :=
  match to_integer_id id with
  | Some numerical_id => BlankNode_new_from_unique_id numerical_id
  | None => BlankNamed id
  end.
Definition BlankNode_as_str (n : RdfBlankNode) : bytes :=
  match n with BlankNamed id => id | BlankAnonymous _ s => s end.
Definition BlankNode_unique_id (n : RdfBlankNode) : option Z :=
  match n with BlankNamed _ => None | BlankAnonymous id _ => Some id end.

(** ** Literals *)

Inductive BaseDirection : Set := Ltr | Rtl.

(** [LiteralContent] *)
Inductive RdfLiteral : Set :=
| LiteralString (value : bytes)
| LanguageTaggedString (value language : bytes)
| DirectionalLanguageTaggedString (value language : bytes) (direction : BaseDirection)
| TypedLiteral (value : bytes) (datatype : RdfNamedNode).

Inductive InvalidLiteralDatatypeError : Set := InvalidLangString | InvalidDirLangString.

#[global] Instance RdfNamedNode_eq_dec : EqDecision RdfNamedNode.
Proof. solve_decision. Defined.

Definition invalid_typed_literal_datatype (datatype : RdfNamedNode)
  : option InvalidLiteralDatatypeError :=
  if bool_decide (datatype = RDF_LANG_STRING) then Some InvalidLangString
  else if bool_decide (datatype = RDF_DIR_LANG_STRING) then Some InvalidDirLangString
  else None.
Definition Literal_new_typed_literal_validated (value : bytes) (datatype : RdfNamedNode) : RdfLiteral :=
  if bool_decide (datatype = XSD_STRING) then LiteralString value else TypedLiteral value datatype.
Definition Literal_try_new_typed_literal (value : bytes) (datatype : RdfNamedNode)
  : result InvalidLiteralDatatypeError RdfLiteral :=
  match invalid_typed_literal_datatype datatype with
  | Some error => Err error
  | None => Ok (Literal_new_typed_literal_validated value datatype)
  end.
(** [None] is the panic of the assertion. *)
Definition Literal_new_typed_literal (value : bytes) (datatype : RdfNamedNode) : option RdfLiteral :=
  ok (Literal_try_new_typed_literal value datatype).

Definition Literal_value (l : RdfLiteral) : bytes :=
  match l with
  | LiteralString v | LanguageTaggedString v _ | DirectionalLanguageTaggedString v _ _
  | TypedLiteral v _ => v
  end.
Definition Literal_language (l : RdfLiteral) : option bytes :=
  match l with
  | LanguageTaggedString _ l | DirectionalLanguageTaggedString _ l _ => Some l
  | LiteralString _ | TypedLiteral _ _ => None
  end.
Definition Literal_direction (l : RdfLiteral) : option BaseDirection :=
  match l with DirectionalLanguageTaggedString _ _ d => Some d | _ => None end.
Definition Literal_datatype (l : RdfLiteral) : RdfNamedNode :=
  match l with
  | LiteralString _ => XSD_STRING
  | LanguageTaggedString _ _ => RDF_LANG_STRING
  | DirectionalLanguageTaggedString _ _ _ => RDF_DIR_LANG_STRING
  | TypedLiteral _ d => d
  end.
Definition Literal_destruct (l : RdfLiteral)
  : bytes * option RdfNamedNode * option bytes * option BaseDirection :=
  match l with
  | LiteralString s => (s, None, None, None)
  | LanguageTaggedString value language => (value, None, Some language, None)
  | DirectionalLanguageTaggedString value language direction =>
      (value, None, Some language, Some direction)
  | TypedLiteral value datatype => (value, Some datatype, None, None)
  end.

(** ** Terms, triples and quads *)

Inductive RdfNamedOrBlankNode : Set :=
| NodeNamed (node : RdfNamedNode)
| NodeBlank (node : RdfBlankNode).

(** [Term], with the boxed [Triple] of its last constructor written in place. *)
Inductive RdfTerm : Set :=
| TermNamedNode (node : RdfNamedNode)
| TermBlankNode (node : RdfBlankNode)
| TermLiteral (literal : RdfLiteral)
| TermTriple (subject : RdfNamedOrBlankNode) (predicate : RdfNamedNode) (object : RdfTerm).

Inductive RdfGraphName : Set :=
| GraphNamedNode (node : RdfNamedNode)
| GraphBlankNode (node : RdfBlankNode)
| GraphDefault.

Record RdfTriple : Set := mkTriple {
  t_subject : RdfNamedOrBlankNode;
  t_predicate : RdfNamedNode;
  t_object : RdfTerm
}.

Record RdfQuad : Set := mkQuad {
  q_subject : RdfNamedOrBlankNode;
  q_predicate : RdfNamedNode;
  q_object : RdfTerm;
  q_graph_name : RdfGraphName
}.

Definition GraphName_is_default_graph (g : RdfGraphName) : bool :=
  match g with GraphDefault => true | _ => false end.
(** [From<NamedOrBlankNode> for Term] and [From<NamedOrBlankNode> for GraphName]. *)
Definition Term_from_node (n : RdfNamedOrBlankNode) : RdfTerm :=
  match n with NodeNamed n => TermNamedNode n | NodeBlank n => TermBlankNode n end.
Definition GraphName_from_node (n : RdfNamedOrBlankNode) : RdfGraphName :=
  match n with NodeNamed n => GraphNamedNode n | NodeBlank n => GraphBlankNode n end.
