(* ===== verification/NumericEncoder.v ===== *)
(** * The numeric encoder

    lib/oxigraph/src/storage/numeric_encoder.rs: the encoding of RDF terms as
    [EncodedTerm]s, the strings it adds to the dictionary ([insert_term]) and
    the decoder.  Two things come from outside the repository and are
    parameters: the hash function of [StrHash::new] (the siphasher crate) and
    the conversions of floats from and to text (the parser and printer of the
    Rust standard library). *)
From S2P Require Import Prelude MachineInt RustStr XsdDecimal XsdDuration XsdDateTime.
From S2P Require Import XsdDateTimeText EncodedTerm RdfModel.

(** ** Parameters *)

Class EncoderParams := {
  StrHash_new : bytes -> StrHash;
  Float_from_str : bytes -> option Float;
  Float_to_string : Float -> bytes;
  Double_from_str : bytes -> option Double;
  Double_to_string : Double -> bytes
}.

(** ** Encoding *)

Section encode.
Context `{EncoderParams}.

Definition EncodedTerm_from_named_node (n : RdfNamedNode) : EncodedTerm :=
  NamedNode (StrHash_new (NamedNode_as_str n)).

Definition EncodedTerm_from_blank_node (n : RdfBlankNode) : EncodedTerm :=
  match BlankNode_unique_id n with
  | Some id => NumericalBlankNode (to_be_bytes U128 id)
  | None =>
      let id := BlankNode_as_str n in
      match SmallString_from_str id with
      | Ok id => SmallBlankNode id
      | Err _ => BigBlankNode (StrHash_new id)
      end
  end.

(** The four ways to store a value and a language. *)
Definition lang_string
  (small_small : SmallString -> SmallString -> EncodedTerm)
  (small_big : SmallString -> StrHash -> EncodedTerm)
  (big_small : StrHash -> SmallString -> EncodedTerm)
  (big_big : StrHash -> StrHash -> EncodedTerm) (value language : bytes) : EncodedTerm :=
  match SmallString_from_str value, SmallString_from_str language with
  | Ok value, Ok language => small_small value language
  | Ok value, Err _ => small_big value (StrHash_new language)
  | Err _, Ok language => big_small (StrHash_new value) language
  | Err _, Err _ => big_big (StrHash_new value) (StrHash_new language)
  end.

Definition parse_boolean_str (v : bytes) : option EncodedTerm := BooleanLiteral <$> Boolean_from_str v.
Definition parse_float_str (v : bytes) : option EncodedTerm := FloatLiteral <$> Float_from_str v.
Definition parse_double_str (v : bytes) : option EncodedTerm := DoubleLiteral <$> Double_from_str v.
Definition parse_integer_str (v : bytes) : option EncodedTerm := IntegerLiteral <$> ok (Integer_from_str v).
Definition parse_decimal_str (v : bytes) : option EncodedTerm := DecimalLiteral <$> ok (Decimal_from_str v).
Definition parse_date_time_str (v : bytes) : option EncodedTerm := DateTimeLiteral <$> ok (DateTime_from_str v).
Definition parse_time_str (v : bytes) : option EncodedTerm := TimeLiteral <$> ok (Time_from_str v).
Definition parse_date_str (v : bytes) : option EncodedTerm := DateLiteral <$> ok (Date_from_str v).
Definition parse_g_year_month_str (v : bytes) : option EncodedTerm :=
  GYearMonthLiteral <$> ok (GYearMonth_from_str v).
Definition parse_g_year_str (v : bytes) : option EncodedTerm := GYearLiteral <$> ok (GYear_from_str v).
Definition parse_g_month_day_str (v : bytes) : option EncodedTerm :=
  GMonthDayLiteral <$> ok (GMonthDay_from_str v).
Definition parse_g_day_str (v : bytes) : option EncodedTerm := GDayLiteral <$> ok (GDay_from_str v).
Definition parse_g_month_str (v : bytes) : option EncodedTerm := GMonthLiteral <$> ok (GMonth_from_str v).
Definition parse_duration_str (v : bytes) : option EncodedTerm := DurationLiteral <$> ok (Duration_from_str v).
Definition parse_year_month_duration_str (v : bytes) : option EncodedTerm :=
  YearMonthDurationLiteral <$> ok (YearMonthDuration_from_str v).
Definition parse_day_time_duration_str (v : bytes) : option EncodedTerm :=
  DayTimeDurationLiteral <$> ok (DayTimeDuration_from_str v).

Definition parse_string_str (v : bytes) : option EncodedTerm :=
  Some match SmallString_from_str v with
       | Ok value => SmallStringLiteral value
       | Err _ => BigStringLiteral (StrHash_new v)
       end.

(** The parsers of the datatypes with a native encoding, by the local name of
    the datatype in the XML Schema namespace. *)
Definition native_parsers : list (string * (bytes -> option EncodedTerm)) :=
  [("boolean", parse_boolean_str); ("string", parse_string_str);
   ("float", parse_float_str); ("double", parse_double_str);
   ("integer", parse_integer_str); ("byte", parse_integer_str); ("short", parse_integer_str);
   ("int", parse_integer_str); ("long", parse_integer_str); ("unsignedByte", parse_integer_str);
   ("unsignedShort", parse_integer_str); ("unsignedInt", parse_integer_str);
   ("unsignedLong", parse_integer_str); ("positiveInteger", parse_integer_str);
   ("negativeInteger", parse_integer_str); ("nonPositiveInteger", parse_integer_str);
   ("nonNegativeInteger", parse_integer_str); ("decimal", parse_decimal_str);
   ("dateTime", parse_date_time_str); ("dateTimeStamp", parse_date_time_str);
   ("time", parse_time_str); ("date", parse_date_str); ("gYearMonth", parse_g_year_month_str);
   ("gYear", parse_g_year_str); ("gMonthDay", parse_g_month_day_str); ("gDay", parse_g_day_str);
   ("gMonth", parse_g_month_str); ("duration", parse_duration_str);
   ("yearMonthDuration", parse_year_month_duration_str);
   ("dayTimeDuration", parse_day_time_duration_str)]%string.

(** The [match datatype] on those constants. *)
Fixpoint parse_native (parsers : list (string * (bytes -> option EncodedTerm)))
  (datatype : RdfNamedNode) (value : bytes) : option EncodedTerm :=
  match parsers with
  | [] => None
  | (name, parse) :: parsers =>
      if bool_decide (datatype = XSD name) then parse value
      else parse_native parsers datatype value
  end.

(** [native_encoding] *)
Definition native_encoding (literal : RdfLiteral) : option EncodedTerm :=
  let value := Literal_value literal in
  let datatype := Literal_datatype literal in
  if bool_decide (datatype = RDF_LANG_STRING) then
    language ← Literal_language literal;
    Some (lang_string SmallSmallLangStringLiteral SmallBigLangStringLiteral
            BigSmallLangStringLiteral BigBigLangStringLiteral value language)
  else if bool_decide (datatype = RDF_DIR_LANG_STRING) then
    language ← Literal_language literal;
    direction ← Literal_direction literal;
    Some match direction with
         | Ltr => lang_string LtrSmallSmallDirLangStringLiteral LtrSmallBigDirLangStringLiteral
                    LtrBigSmallDirLangStringLiteral LtrBigBigDirLangStringLiteral value language
         | Rtl => lang_string RtlSmallSmallDirLangStringLiteral RtlSmallBigDirLangStringLiteral
                    RtlBigSmallDirLangStringLiteral RtlBigBigDirLangStringLiteral value language
         end
  else parse_native native_parsers datatype value.

Definition EncodedTerm_from_literal (literal : RdfLiteral) : EncodedTerm :=
  match native_encoding literal with
  | Some term => term
  | None =>
      let value := Literal_value literal in
      let datatype := NamedNode_as_str (Literal_datatype literal) in
      match SmallString_from_str value with
      | Ok value => SmallTypedLiteral value (StrHash_new datatype)
      | Err _ => BigTypedLiteral (StrHash_new value) (StrHash_new datatype)
      end
  end.

Definition EncodedTerm_from_node (n : RdfNamedOrBlankNode) : EncodedTerm :=
  match n with
  | NodeNamed n => EncodedTerm_from_named_node n
  | NodeBlank n => EncodedTerm_from_blank_node n
  end.

Fixpoint EncodedTerm_from_term (term : RdfTerm) : EncodedTerm :=
  match term with
  | TermNamedNode n => EncodedTerm_from_named_node n
  | TermBlankNode n => EncodedTerm_from_blank_node n
  | TermLiteral l => EncodedTerm_from_literal l
  | TermTriple s p o =>
      Triple (EncodedTerm_from_node s) (EncodedTerm_from_named_node p) (EncodedTerm_from_term o)
  end.

Definition EncodedTerm_from_graph_name (g : RdfGraphName) : EncodedTerm :=
  match g with
  | GraphNamedNode n => EncodedTerm_from_named_node n
  | GraphBlankNode n => EncodedTerm_from_blank_node n
  | GraphDefault => DefaultGraph
  end.

Definition EncodedQuad_from_quad (q : RdfQuad) : EncodedQuad :=
  mkEncodedQuad (EncodedTerm_from_node (q_subject q)) (EncodedTerm_from_named_node (q_predicate q))
    (EncodedTerm_from_term (q_object q)) (EncodedTerm_from_graph_name (q_graph_name q)).
End encode.

(** ** Filling the dictionary *)

Section insert.
(** The callback [insert_str]: [None] is a panic. *)
Context {S : Type} (insert_str : StrHash -> bytes -> S -> option S).

(** [if let Some(language) = language { insert_str(language_id, language) }] *)
Definition insert_opt (key : StrHash) (value : option bytes) (s : S) : option S :=
  match value with Some value => insert_str key value s | None => Some s end.

(** The [Term::Literal] arm; [None] is [unreachable!]. *)
Definition insert_literal (literal : RdfLiteral) (encoded : EncodedTerm) (s : S) : option S :=
  let '(value, datatype, language, _) := Literal_destruct literal in
  match encoded with
  | BigStringLiteral value_id | BigSmallLangStringLiteral value_id _
  | RtlBigSmallDirLangStringLiteral value_id _ | LtrBigSmallDirLangStringLiteral value_id _ =>
      insert_str value_id (Literal_value literal) s
  | SmallBigLangStringLiteral _ language_id
  | RtlSmallBigDirLangStringLiteral _ language_id | LtrSmallBigDirLangStringLiteral _ language_id =>
      insert_opt language_id language s
  | BigBigLangStringLiteral value_id language_id
  | RtlBigBigDirLangStringLiteral value_id language_id
  | LtrBigBigDirLangStringLiteral value_id language_id =>
      s ← insert_str value_id value s; insert_opt language_id language s
  | SmallTypedLiteral _ datatype_id =>
      insert_str datatype_id (NamedNode_as_str (Literal_datatype literal)) s
  | BigTypedLiteral value_id datatype_id =>
      s ← insert_str value_id value s; insert_opt datatype_id (nn_iri <$> datatype) s
  | SmallStringLiteral _ | SmallSmallLangStringLiteral _ _
  | RtlSmallSmallDirLangStringLiteral _ _ | LtrSmallSmallDirLangStringLiteral _ _
  | BooleanLiteral _ | FloatLiteral _ | DoubleLiteral _ | IntegerLiteral _ | DecimalLiteral _
  | DateTimeLiteral _ | TimeLiteral _ | DateLiteral _ | GYearMonthLiteral _ | GYearLiteral _
  | GMonthDayLiteral _ | GDayLiteral _ | GMonthLiteral _ | DurationLiteral _
  | YearMonthDurationLiteral _ | DayTimeDurationLiteral _ => Some s
  | DefaultGraph | NamedNode _ | NumericalBlankNode _ | SmallBlankNode _ | BigBlankNode _
  | Triple _ _ _ => None
  end.

(** The [Term::NamedNode] and [Term::BlankNode] arms. *)
Definition insert_named_node (node : RdfNamedNode) (encoded : EncodedTerm) (s : S) : option S :=
  match encoded with
  | NamedNode iri_id => insert_str iri_id (NamedNode_as_str node) s
  | _ => None
  end.
Definition insert_blank_node (node : RdfBlankNode) (encoded : EncodedTerm) (s : S) : option S :=
  match encoded with
  | BigBlankNode id_id => insert_str id_id (BlankNode_as_str node) s
  | SmallBlankNode _ | NumericalBlankNode _ => Some s
  | _ => None
  end.
Definition insert_node (node : RdfNamedOrBlankNode) (encoded : EncodedTerm) (s : S) : option S :=
  match node with
  | NodeNamed node => insert_named_node node encoded s
  | NodeBlank node => insert_blank_node node encoded s
  end.

Fixpoint insert_term (term : RdfTerm) (encoded : EncodedTerm) (s : S) : option S :=
  match term with
  | TermNamedNode node => insert_named_node node encoded s
  | TermBlankNode node => insert_blank_node node encoded s
  | TermLiteral literal => insert_literal literal encoded s
  | TermTriple subject predicate object =>
      match encoded with
      | Triple es ep eo =>
          s ← insert_node subject es s;
          s ← insert_named_node predicate ep s;
          insert_term object eo s
      | _ => None
      end
  end.
End insert.

(** ** Decoding *)

(** [trait StrLookup] *)
Class StrLookup (L : Type) := get_str : L -> StrHash -> result StorageError (option bytes).

(** A computation that may panic ([None]) or return an error: [Display for
    Duration] fails on a duration with parts of opposite signs, and then
    [to_string] panics. *)
Definition fallible (A : Type) : Type := option (result StorageError A).
Definition returns {A : Type} (a : A) : fallible A := Some (Ok a).
Definition fails {A : Type} (e : StorageError) : fallible A := Some (Err e).
(** The [?] operator on it. *)
Definition and_then {A B : Type} (m : fallible A) (f : A -> fallible B) : fallible B :=
  match m with
  | Some (Ok a) => f a
  | Some (Err e) => Some (Err e)
  | None => None
  end.

Section decode.
Context `{EncoderParams} {L : Type} `{StrLookup L}.

Definition get_required_str (lookup : L) (id : StrHash) : fallible bytes :=
  Some (value ← get_str lookup id;
        ok_or (StorageCorruption (CorruptionMissingString id)) value).

(** [Literal::from(value).into()] of a printed value *)
Definition decode_native (text : option bytes) (datatype : RdfNamedNode) : fallible RdfTerm :=
  match text with
  | Some text => (fun l => Ok (TermLiteral l)) <$> Literal_new_typed_literal text datatype
  | None => None
  end.

(** [Literal::try_new_typed_literal(value, datatype).map_err(CorruptionError::msg)] *)
Definition decode_typed (value datatype : bytes) : fallible RdfTerm :=
  Some (TermLiteral <$> map_err
    (fun e => corruption_msg match e with
       | InvalidLangString => "rdf:langString requires a non-empty language tag"
       | InvalidDirLangString =>
           "rdf:dirLangString requires a non-empty language tag and a base direction"
       end%string)
    (Literal_try_new_typed_literal value (NamedNode_new_unchecked datatype))).

(** The language-tagged strings: each part is inline or in the dictionary. *)
Definition part (lookup : L) (p : SmallString + StrHash) : fallible bytes :=
  match p with
  | inl s => returns (SmallString_as_str s)
  | inr id => get_required_str lookup id
  end.
Definition decode_lang (lookup : L) (value language : SmallString + StrHash) : fallible RdfTerm :=
  and_then (part lookup value) (fun value => and_then (part lookup language) (fun language =>
    returns (TermLiteral (LanguageTaggedString value language)))).
Definition decode_dir (lookup : L) (value language : SmallString + StrHash) (direction : BaseDirection)
  : fallible RdfTerm :=
  and_then (part lookup value) (fun value => and_then (part lookup language) (fun language =>
    returns (TermLiteral (DirectionalLanguageTaggedString value language direction)))).

Definition decode_flat_term (lookup : L) (encoded : EncodedTerm) : fallible RdfTerm :=
  match encoded with
  | DefaultGraph => fails (corruption_msg "The default graph tag is not a valid term")
  | NamedNode iri_id =>
      and_then (get_required_str lookup iri_id) (fun s =>
        returns (TermNamedNode (NamedNode_new_unchecked s)))
  | NumericalBlankNode id =>
      returns (TermBlankNode (BlankNode_new_from_unique_id (from_be_bytes U128 id)))
  | SmallBlankNode id => returns (TermBlankNode (BlankNode_new_unchecked (SmallString_as_str id)))
  | BigBlankNode id_id =>
      and_then (get_required_str lookup id_id) (fun s =>
        returns (TermBlankNode (BlankNode_new_unchecked s)))
  | SmallStringLiteral value => returns (TermLiteral (LiteralString (SmallString_as_str value)))
  | BigStringLiteral value_id =>
      and_then (get_required_str lookup value_id) (fun s => returns (TermLiteral (LiteralString s)))
  | SmallSmallLangStringLiteral v l => decode_lang lookup (inl v) (inl l)
  | SmallBigLangStringLiteral v l => decode_lang lookup (inl v) (inr l)
  | BigSmallLangStringLiteral v l => decode_lang lookup (inr v) (inl l)
  | BigBigLangStringLiteral v l => decode_lang lookup (inr v) (inr l)
  | LtrSmallSmallDirLangStringLiteral v l => decode_dir lookup (inl v) (inl l) Ltr
  | LtrSmallBigDirLangStringLiteral v l => decode_dir lookup (inl v) (inr l) Ltr
  | LtrBigSmallDirLangStringLiteral v l => decode_dir lookup (inr v) (inl l) Ltr
  | LtrBigBigDirLangStringLiteral v l => decode_dir lookup (inr v) (inr l) Ltr
  | RtlSmallSmallDirLangStringLiteral v l => decode_dir lookup (inl v) (inl l) Rtl
  | RtlSmallBigDirLangStringLiteral v l => decode_dir lookup (inl v) (inr l) Rtl
  | RtlBigSmallDirLangStringLiteral v l => decode_dir lookup (inr v) (inl l) Rtl
  | RtlBigBigDirLangStringLiteral v l => decode_dir lookup (inr v) (inr l) Rtl
  | SmallTypedLiteral value datatype_id =>
      and_then (get_required_str lookup datatype_id) (fun d => decode_typed (SmallString_as_str value) d)
  | BigTypedLiteral value_id datatype_id =>
      and_then (get_required_str lookup value_id) (fun v =>
      and_then (get_required_str lookup datatype_id) (fun d => decode_typed v d))
  | BooleanLiteral v => decode_native (Some (Boolean_to_string v)) (XSD "boolean")
  | FloatLiteral v => decode_native (Some (Float_to_string v)) (XSD "float")
  | DoubleLiteral v => decode_native (Some (Double_to_string v)) (XSD "double")
  | IntegerLiteral v => decode_native (Some (Integer_to_string v)) (XSD "integer")
  | DecimalLiteral v => decode_native (Some (Decimal_to_string v)) (XSD "decimal")
  | DateTimeLiteral v => decode_native (Some (DateTime_to_string v)) (XSD "dateTime")
  | DateLiteral v => decode_native (Some (Date_to_string v)) (XSD "date")
  | TimeLiteral v => decode_native (Some (Time_to_string v)) (XSD "time")
  | GYearMonthLiteral v => decode_native (Some (GYearMonth_to_string v)) (XSD "gYearMonth")
  | GYearLiteral v => decode_native (Some (GYear_to_string v)) (XSD "gYear")
  | GMonthDayLiteral v => decode_native (Some (GMonthDay_to_string v)) (XSD "gMonthDay")
  | GDayLiteral v => decode_native (Some (GDay_to_string v)) (XSD "gDay")
  | GMonthLiteral v => decode_native (Some (GMonth_to_string v)) (XSD "gMonth")
  | DurationLiteral v => decode_native (Duration_fmt v) (XSD "duration")
  | YearMonthDurationLiteral v => decode_native (YearMonthDuration_fmt v) (XSD "yearMonthDuration")
  | DayTimeDurationLiteral v => decode_native (DayTimeDuration_fmt v) (XSD "dayTimeDuration")
  | Triple _ _ _ => None
  end.

(** The [match] of [decode_named_or_blank_node], [decode_named_node] and the
    graph name of [decode_quad]. *)
Definition as_named_or_blank_node (t : RdfTerm) : fallible RdfNamedOrBlankNode :=
  match t with
  | TermNamedNode n => returns (NodeNamed n)
  | TermBlankNode n => returns (NodeBlank n)
  | TermLiteral _ => fails (corruption_msg "A literal has been found instead of a named or blank node")
  | TermTriple _ _ _ => fails (corruption_msg "A triple has been found instead of a named or blank node")
  end.
Definition as_named_node (t : RdfTerm) : fallible RdfNamedNode :=
  match t with
  | TermNamedNode n => returns n
  | TermBlankNode _ => fails (corruption_msg "A blank node has been found instead of a named node")
  | TermLiteral _ => fails (corruption_msg "A literal has been found instead of a named node")
  | TermTriple _ _ _ => fails (corruption_msg "A triple has been found instead of a named node")
  end.
Definition as_graph_name (t : RdfTerm) : fallible RdfGraphName :=
  match t with
  | TermNamedNode n => returns (GraphNamedNode n)
  | TermBlankNode n => returns (GraphBlankNode n)
  | TermLiteral _ => fails (corruption_msg "A literal is not a valid graph name")
  | TermTriple _ _ _ => fails (corruption_msg "A triple is not a valid graph name")
  end.

Fixpoint decode_term (lookup : L) (encoded : EncodedTerm) : fallible RdfTerm :=
  match encoded with
  | Triple s p o =>
      and_then (and_then (decode_term lookup s) as_named_or_blank_node) (fun s =>
      and_then (and_then (decode_term lookup p) as_named_node) (fun p =>
      and_then (decode_term lookup o) (fun o => returns (TermTriple s p o))))
  | _ => decode_flat_term lookup encoded
  end.

Definition decode_named_or_blank_node (lookup : L) (encoded : EncodedTerm)
  : fallible RdfNamedOrBlankNode :=
  and_then (decode_term lookup encoded) as_named_or_blank_node.
Definition decode_named_node (lookup : L) (encoded : EncodedTerm) : fallible RdfNamedNode :=
  and_then (decode_term lookup encoded) as_named_node.

Definition decode_quad (lookup : L) (encoded : EncodedQuad) : fallible RdfQuad :=
  and_then (decode_named_or_blank_node lookup (quad_subject encoded)) (fun s =>
  and_then (decode_named_node lookup (quad_predicate encoded)) (fun p =>
  and_then (decode_term lookup (quad_object encoded)) (fun o =>
  and_then (if EncodedTerm_eq (quad_graph_name encoded) DefaultGraph then returns GraphDefault
            else and_then (decode_term lookup (quad_graph_name encoded)) as_graph_name) (fun g =>
    returns (mkQuad s p o g))))).
End decode.
