(* ===== verification/VersionRange.v ===== *)
(** * Version ranges

    [VersionRange] of lib/oxigraph/src/storage/memory.rs: the versions in which
    a quad, a graph name or a namespace of the in-memory store exists.

    The specification is the list of the bounds of the range in increasing
    order: an entry appears at the first bound, disappears at the second, and so
    on.  [add] and [remove] toggle the presence from one version on, and the
    four constructors are the canonical representation of such a list. *)
From Stdlib Require Import Sorted.
From S2P Require Import Prelude MachineInt.

(** ** The source *)

Inductive VersionRange : Set :=
| RangeEmpty
| RangeStart (start : Z)
| RangeStartEnd (start stop : Z)
| RangeBigger (range : list Z).

#[global] Instance VersionRange_eq_dec : EqDecision VersionRange.
Proof. solve_decision. Defined.

Definition push_boxed_slice (slice : list Z) (element : Z) : list Z := slice ++ [element].
Definition pop_boxed_slice (slice : list Z) : list Z := take (length slice - 1) slice.
(** [slice.ends_with(&[x])] *)
Definition ends_with (slice : list Z) (x : Z) : bool := bool_decide (list.last slice = Some x).

(** The loop over [range.chunks(2)]. *)
Fixpoint contains_chunks (range : list Z) (version : Z) : bool :=
  match range with
  | [] => false
  | [start] => start <=? version
  | start :: stop :: range =>
      if (start <=? version) && (version <? stop) then true else contains_chunks range version
  end.

Definition VersionRange_contains (r : VersionRange) (version : Z) : bool :=
  match r with
  | RangeEmpty => false
  | RangeStart start => start <=? version
  | RangeStartEnd start stop => (start <=? version) && (version <? stop)
  | RangeBigger range => contains_chunks range version
  end.

(** The new range and whether something changed. *)
Definition VersionRange_add (r : VersionRange) (version : Z) : VersionRange * bool :=
  match r with
  | RangeEmpty => (RangeStart version, true)
  | RangeStart _ => (r, false)
  | RangeStartEnd start stop =>
      (if version =? stop then RangeStart start else RangeBigger [start; stop; version], true)
  | RangeBigger vec =>
      if Nat.even (length vec) then
        (RangeBigger (if ends_with vec version then pop_boxed_slice vec
                      else push_boxed_slice vec version), true)
      else (r, false)
  end.

(** [match vec.as_ref() { \[start, end, _\] => StartEnd(..), _ => Bigger(pop) }] *)
Definition VersionRange_pop (vec : list Z) : VersionRange :=
  match vec with
  | [start; stop; _] => RangeStartEnd start stop
  | _ => RangeBigger (pop_boxed_slice vec)
  end.

Definition VersionRange_remove (r : VersionRange) (version : Z) : VersionRange * bool :=
  match r with
  | RangeEmpty | RangeStartEnd _ _ => (r, false)
  | RangeStart start =>
      (if start =? version then RangeEmpty else RangeStartEnd start version, true)
  | RangeBigger vec =>
      if Nat.even (length vec) then (r, false)
      else (if ends_with vec version then VersionRange_pop vec
            else RangeBigger (push_boxed_slice vec version), true)
  end.

Definition VersionRange_upgrade_transaction (r : VersionRange) (transaction_id version_id : Z)
  : VersionRange :=
  match r with
  | RangeEmpty => RangeEmpty
  | RangeStart start => RangeStart (if start =? transaction_id then version_id else start)
  | RangeStartEnd start stop =>
      RangeStartEnd start (if stop =? transaction_id then version_id else stop)
  | RangeBigger vec =>
      RangeBigger (if ends_with vec transaction_id
                   then <[(length vec - 1)%nat := version_id]> vec else vec)
  end.

Definition VersionRange_rollback_transaction (r : VersionRange) (transaction_id : Z) : VersionRange :=
  match r with
  | RangeEmpty => RangeEmpty
  | RangeStart start => if start =? transaction_id then RangeEmpty else r
  | RangeStartEnd start stop => if stop =? transaction_id then RangeStart start else r
  | RangeBigger vec => if ends_with vec transaction_id then VersionRange_pop vec else r
  end.

(** ** The specification *)

(** The bounds of a range. *)
Definition bounds (r : VersionRange) : list Z :=
  match r with
  | RangeEmpty => []
  | RangeStart start => [start]
  | RangeStartEnd start stop => [start; stop]
  | RangeBigger vec => vec
  end.
Definition of_bounds (l : list Z) : VersionRange :=
  match l with
  | [] => RangeEmpty
  | [start] => RangeStart start
  | [start; stop] => RangeStartEnd start stop
  | _ => RangeBigger l
  end.

(** The representation invariant: the long form is used for long ranges only,
    and the bounds are in strictly increasing order. *)
Definition VersionRange_wf (r : VersionRange) : Prop :=
  of_bounds (bounds r) = r /\ StronglySorted Z.lt (bounds r).

(** All the bounds are below a version. *)
Definition below (r : VersionRange) (v : Z) : Prop := Forall (fun b => b < v) (bounds r).

(** Whether the entry exists at the end of its history. *)
Definition present (r : VersionRange) : bool := Nat.odd (length (bounds r)).

(** Append or and the state changes from version [v] on. *)
Definition toggle (r : VersionRange) (v : Z) : VersionRange := of_bounds (bounds r ++ [v]).

(** ** Lemmas *)

Lemma bounds_of_bounds (l : list Z) : bounds (of_bounds l) = l.
Proof. by destruct l as [|a [|b [|c l]]]. Qed.
Lemma of_bounds_inj (l k : list Z) : of_bounds l = of_bounds k -> l = k.
Proof. intros E. by rewrite <- (bounds_of_bounds l), E, bounds_of_bounds. Qed.

Lemma bounds_toggle (r : VersionRange) (v : Z) : bounds (toggle r v) = bounds r ++ [v].
Proof. apply bounds_of_bounds. Qed.
Lemma present_toggle (r : VersionRange) (v : Z) : present (toggle r v) = negb (present r).
Proof.
  unfold present. rewrite bounds_toggle, length_app. simpl. rewrite Nat.add_1_r, Nat.odd_succ.
  by rewrite <- Nat.negb_odd.
Qed.

Lemma ends_with_app (l : list Z) (a x : Z) : ends_with (l ++ [a]) x = (a =? x).
Proof.
  unfold ends_with. rewrite last_snoc. destruct (Z.eqb_spec a x) as [->|Hne].
  - by apply bool_decide_eq_true.
  - apply bool_decide_eq_false. congruence.
Qed.
Lemma pop_app (l : list Z) (a : Z) : pop_boxed_slice (l ++ [a]) = l.
Proof. unfold pop_boxed_slice. rewrite length_app, Nat.add_sub. apply take_app_length. Qed.

Lemma VersionRange_pop_app (l : list Z) (a : Z) :
  (2 <= length l)%nat -> VersionRange_pop (l ++ [a]) = of_bounds l.
Proof.
  intros Hl. destruct l as [|x [|y [|z l]]]; simpl in Hl; try lia; [done|].
  unfold of_bounds. rewrite <- (pop_app (x :: y :: z :: l) a) at 2. by destruct l.
Qed.

(** Induction two bounds at a time, as the code reads them. *)
Lemma chunks_ind (P : list Z -> Prop) :
  P [] -> (forall a, P [a]) -> (forall a b l, P l -> P (a :: b :: l)) -> forall l, P l.
Proof.
  intros H0 H1 H2. fix IH 1. intros [|a [|b l]]; [done|done|]. apply H2, IH.
Qed.

(** Once all the bounds are reached, membership is the parity of their number. *)
Lemma contains_chunks_all (l : list Z) (v : Z) :
  Forall (fun b => b <= v) l -> contains_chunks l v = Nat.odd (length l).
Proof.
  revert l. apply (chunks_ind (fun l => Forall (fun b => b <= v) l -> _)); [done|..].
  - intros a H. inversion H; subst. simpl. by apply Z.leb_le.
  - intros a b l IH H. inversion H as [|? ? Ha H']; inversion H' as [|? ? Hb Hl]; subst.
    simpl contains_chunks. rewrite (IH Hl).
    replace (v <? b) with false by (symmetry; by apply Z.ltb_ge). by rewrite andb_false_r.
Qed.

(** A new last bound does not change the versions before it. *)
Lemma contains_chunks_snoc (l : list Z) (t v : Z) :
  v < t -> contains_chunks (l ++ [t]) v = contains_chunks l v.
Proof.
  intros Hv. revert l. apply chunks_ind; simpl.
  - by apply Z.leb_gt.
  - intros a. replace (v <? t) with true by (symmetry; by apply Z.ltb_lt).
    rewrite andb_true_r. by destruct (a <=? v).
  - intros a b l ->. done.
Qed.

Lemma contains_bounds (r : VersionRange) (v : Z) :
  VersionRange_contains r v = contains_chunks (bounds r) v.
Proof. destruct r; simpl; try done. by destruct (_ && _). Qed.

Lemma below_mono (r : VersionRange) (v w : Z) : v <= w -> below r v -> below r w.
Proof. intros H. apply Forall_impl. lia. Qed.
Lemma below_toggle (r : VersionRange) (t v : Z) : below r t -> t < v -> below (toggle r t) v.
Proof.
  intros Hb Ht. unfold below. rewrite bounds_toggle, Forall_app. split; [|by constructor].
  apply (below_mono _ t); [lia|done].
Qed.

(** A range shows its final state from its last bound on. *)
Lemma contains_after (r : VersionRange) (v : Z) :
  below r (v + 1) -> VersionRange_contains r v = present r.
Proof.
  intros H. rewrite contains_bounds. apply contains_chunks_all. revert H. apply Forall_impl. lia.
Qed.
Lemma contains_toggle_before (r : VersionRange) (t v : Z) :
  v < t -> VersionRange_contains (toggle r t) v = VersionRange_contains r v.
Proof. intros H. rewrite !contains_bounds, bounds_toggle. by apply contains_chunks_snoc. Qed.
Lemma contains_toggle_after (r : VersionRange) (t v : Z) :
  below r t -> t <= v -> VersionRange_contains (toggle r t) v = negb (present r).
Proof.
  intros Hb H. rewrite contains_after, present_toggle; [done|]. apply below_toggle; [done|lia].
Qed.

Lemma wf_of_bounds (l : list Z) : StronglySorted Z.lt l -> VersionRange_wf (of_bounds l).
Proof. intros H. unfold VersionRange_wf. by rewrite bounds_of_bounds. Qed.
Lemma StronglySorted_snoc (l : list Z) (t : Z) :
  StronglySorted Z.lt l -> Forall (fun b => b < t) l -> StronglySorted Z.lt (l ++ [t]).
Proof.
  induction 1 as [|a l Hl IH Ha]; intros H; simpl; [by repeat constructor|].
  inversion H; subst. constructor; [by apply IH|]. rewrite Forall_app. split; [done|by constructor].
Qed.
Lemma toggle_wf (r : VersionRange) (t : Z) :
  VersionRange_wf r -> below r t -> VersionRange_wf (toggle r t).
Proof. intros [_ Hs] Hb. apply wf_of_bounds. by apply StronglySorted_snoc. Qed.
Lemma RangeEmpty_wf : VersionRange_wf RangeEmpty.
Proof. split; [done|constructor]. Qed.
Lemma toggle_empty (t : Z) : toggle RangeEmpty t = RangeStart t.
Proof. done. Qed.

(** ** A transaction in progress

    While transaction [t] runs, an entry has its committed range [r0], whose
    bounds are below [t], or that range toggled once at [t]. *)
Definition pending (t : Z) (r0 r : VersionRange) : Prop := r = r0 \/ r = toggle r0 t.

Section pending.
Context (t : Z) (r0 : VersionRange) (Hwf : VersionRange_wf r0) (Hbelow : below r0 t).

(** The last bound of the committed range is not the transaction. *)
Lemma below_ends_with (l : list Z) : Forall (fun b => b < t) l -> ends_with l t = false.
Proof.
  intros H. unfold ends_with. apply bool_decide_eq_false. intros E.
  apply last_Some_elem_of in E. rewrite list.Forall_forall in H. specialize (H _ E). lia.
Qed.
Lemma bigger_length (vec : list Z) : of_bounds vec = RangeBigger vec -> (3 <= length vec)%nat.
Proof. destruct vec as [|a [|b [|c l]]]; simpl; intros; try discriminate; lia. Qed.
Lemma of_bounds_bigger (vec : list Z) : (3 <= length vec)%nat -> of_bounds vec = RangeBigger vec.
Proof. destruct vec as [|a [|b [|c l]]]; simpl; intros; try lia; done. Qed.
Lemma even_present (l : list Z) : Nat.even (length l) = negb (Nat.odd (length l)).
Proof. by rewrite Nat.negb_odd. Qed.

(** The operations on the committed range. *)
Lemma add_committed :
  VersionRange_add r0 t = (if present r0 then r0 else toggle r0 t, negb (present r0)).
Proof.
  destruct Hwf as [Hc _], r0 as [|a|a b|vec]; [done|done|..]; unfold present; simpl.
  - inversion Hbelow as [|? ? _ H']; inversion H'; subst.
    by rewrite (proj2 (Z.eqb_neq t b)) by lia.
  - rewrite even_present, below_ends_with by done. destruct (Nat.odd (length vec)); [done|].
    simpl. unfold toggle. simpl. rewrite of_bounds_bigger; [done|].
    apply bigger_length in Hc. rewrite length_app. simpl. lia.
Qed.
Lemma remove_committed :
  VersionRange_remove r0 t = (if present r0 then toggle r0 t else r0, present r0).
Proof.
  destruct Hwf as [Hc _], r0 as [|a|a b|vec]; [done| |done|]; unfold present; simpl.
  - inversion Hbelow; subst. by rewrite (proj2 (Z.eqb_neq a t)) by lia.
  - rewrite even_present, below_ends_with by done. destruct (Nat.odd (length vec)); [|done].
    simpl. unfold toggle. simpl. rewrite of_bounds_bigger; [done|].
    apply bigger_length in Hc. rewrite length_app. simpl. lia.
Qed.
Lemma rollback_committed : VersionRange_rollback_transaction r0 t = r0.
Proof.
  destruct r0 as [|a|a b|vec]; [done|..]; simpl.
  - inversion Hbelow; subst. by rewrite (proj2 (Z.eqb_neq a t)) by lia.
  - inversion Hbelow as [|? ? _ H']; inversion H'; subst.
    by rewrite (proj2 (Z.eqb_neq b t)) by lia.
  - by rewrite below_ends_with.
Qed.
Lemma upgrade_committed (v : Z) : VersionRange_upgrade_transaction r0 t v = r0.
Proof.
  destruct r0 as [|a|a b|vec]; [done|..]; simpl.
  - inversion Hbelow; subst. by rewrite (proj2 (Z.eqb_neq a t)) by lia.
  - inversion Hbelow as [|? ? _ H']; inversion H'; subst.
    by rewrite (proj2 (Z.eqb_neq b t)) by lia.
  - by rewrite below_ends_with.
Qed.

(** The long form of a toggled range. *)
Lemma toggle_cases :
  (exists a b, r0 = RangeStartEnd a b /\ toggle r0 t = RangeBigger [a; b; t]) \/
  (exists vec, r0 = RangeBigger vec /\ (3 <= length vec)%nat /\ toggle r0 t = RangeBigger (vec ++ [t])) \/
  (r0 = RangeEmpty /\ toggle r0 t = RangeStart t) \/
  (exists a, r0 = RangeStart a /\ toggle r0 t = RangeStartEnd a t).
Proof.
  destruct Hwf as [Hc _], r0 as [|a|a b|vec]; [naive_solver..|]. right. left. exists vec.
  apply bigger_length in Hc. split; [done|]. split; [done|]. unfold toggle. simpl.
  rewrite of_bounds_bigger; [done|]. rewrite length_app. simpl. lia.
Qed.

(** The operations on the toggled range. *)
Lemma add_toggled :
  VersionRange_add (toggle r0 t) t = (if present r0 then r0 else toggle r0 t, present r0).
Proof.
  destruct toggle_cases as [(a & b & -> & ->)|[(vec & -> & Hl & ->)|[[-> ->]|(a & -> & ->)]]]; simpl;
    try done.
  - rewrite length_app, Nat.add_1_r, Nat.even_succ, ends_with_app, Z.eqb_refl, pop_app.
    unfold present. simpl. by destruct (Nat.odd (length vec)).
  - by rewrite Z.eqb_refl.
Qed.
Lemma remove_toggled :
  VersionRange_remove (toggle r0 t) t = (if present r0 then toggle r0 t else r0, negb (present r0)).
Proof.
  destruct toggle_cases as [(a & b & -> & ->)|[(vec & -> & Hl & ->)|[[-> ->]|(a & -> & ->)]]]; simpl;
    try done.
  - unfold ends_with. simpl. by rewrite bool_decide_eq_true_2.
  - rewrite length_app, Nat.add_1_r, Nat.even_succ, ends_with_app, Z.eqb_refl.
    rewrite VersionRange_pop_app, of_bounds_bigger by lia. unfold present. simpl.
    by destruct (Nat.odd (length vec)).
  - by rewrite Z.eqb_refl.
Qed.
Lemma rollback_toggled : VersionRange_rollback_transaction (toggle r0 t) t = r0.
Proof.
  destruct toggle_cases as [(a & b & -> & ->)|[(vec & -> & Hl & ->)|[[-> ->]|(a & -> & ->)]]]; simpl.
  - unfold ends_with. simpl. by rewrite bool_decide_eq_true_2.
  - rewrite ends_with_app, Z.eqb_refl, VersionRange_pop_app by lia. by apply of_bounds_bigger.
  - by rewrite Z.eqb_refl.
  - by rewrite Z.eqb_refl.
Qed.
Lemma upgrade_toggled (v : Z) :
  VersionRange_upgrade_transaction (toggle r0 t) t v = toggle r0 v.
Proof.
  destruct toggle_cases as [(a & b & -> & ->)|[(vec & -> & Hl & ->)|[[-> ->]|(a & -> & ->)]]]; simpl.
  - unfold ends_with. simpl. by rewrite bool_decide_eq_true_2.
  - rewrite ends_with_app, Z.eqb_refl. unfold toggle. simpl.
    rewrite of_bounds_bigger by (rewrite length_app; simpl; lia).
    rewrite length_app, Nat.add_sub, insert_app_r_alt by lia. by rewrite Nat.sub_diag.
  - by rewrite Z.eqb_refl.
  - by rewrite Z.eqb_refl.
Qed.

(** On either: [add] leads to the one that is present, [remove] to the one that
    is not, and both report whether they changed it. *)
Lemma add_pending (r : VersionRange) :
  pending t r0 r -> VersionRange_add r t = (if present r0 then r0 else toggle r0 t, negb (present r)).
Proof.
  intros [->| ->]; [apply add_committed|]. rewrite add_toggled, present_toggle. by rewrite negb_involutive.
Qed.
Lemma remove_pending (r : VersionRange) :
  pending t r0 r -> VersionRange_remove r t = (if present r0 then toggle r0 t else r0, present r).
Proof. intros [->| ->]; [apply remove_committed|]. by rewrite remove_toggled, present_toggle. Qed.
Lemma rollback_pending (r : VersionRange) :
  pending t r0 r -> VersionRange_rollback_transaction r t = r0.
Proof. intros [->| ->]; [apply rollback_committed|apply rollback_toggled]. Qed.
Lemma upgrade_pending (v : Z) (r : VersionRange) :
  pending t r0 r ->
  VersionRange_upgrade_transaction r t v = if decide (r = r0) then r0 else toggle r0 v.
Proof.
  intros [->| ->]; [rewrite decide_True by done; apply upgrade_committed|].
  rewrite decide_False; [apply upgrade_toggled|]. intros E. apply (f_equal (length ∘ bounds)) in E.
  simpl in E. rewrite bounds_toggle, length_app in E. simpl in E. lia.
Qed.
End pending.
