(* ===== verification/StoreKeys.v ===== *)
(** * Keys of the store's maps

    The hash maps of the in-memory store are keyed by encoded terms and quads.
    This file gives their types the [Countable] instances that stdpp's finite
    maps need.  [==] on the terms a store can hold is equality
    ([EncodedTerm_eq_spec] and [EncodedTerm_eq_hash] of BinaryEncoderFacts), so
    a finite map with these keys is the hash map. *)
From stdpp Require Export gmap.
From S2P Require Import Prelude MachineInt RustStr XsdDecimal XsdDuration XsdDateTime EncodedTerm.

(** A record with one field is as countable as the field. *)
#[global] Instance SmallString_countable : Countable SmallString.
Proof. by apply (inj_countable' ss_inner mkSmallString); intros []. Defined.
#[global] Instance StrHash_countable : Countable StrHash.
Proof. by apply (inj_countable' hash_bytes mkStrHash); intros []. Defined.
#[global] Instance Boolean_countable : Countable Boolean.
Proof. by apply (inj_countable' Boolean_value mkBoolean); intros []. Defined.
#[global] Instance Float_countable : Countable Float.
Proof. by apply (inj_countable' float_bits mkFloat); intros []. Defined.
#[global] Instance Double_countable : Countable Double.
Proof. by apply (inj_countable' double_bits mkDouble); intros []. Defined.
#[global] Instance Integer_countable : Countable Integer.
Proof. by apply (inj_countable' Integer_value mkInteger); intros []. Defined.
#[global] Instance Decimal_countable : Countable Decimal.
Proof. by apply (inj_countable' Decimal_value mkDecimal); intros []. Defined.
#[global] Instance TimezoneOffset_countable : Countable TimezoneOffset.
Proof. by apply (inj_countable' tz_offset mkTimezoneOffset); intros []. Defined.
#[global] Instance Timestamp_countable : Countable Timestamp.
Proof.
  by apply (inj_countable' (fun t => (ts_value t, ts_timezone_offset t))
              (fun p => mkTimestamp p.1 p.2)); intros [].
Defined.
#[global] Instance YearMonthDuration_countable : Countable YearMonthDuration.
Proof. by apply (inj_countable' ymd_months mkYearMonthDuration); intros []. Defined.
#[global] Instance DayTimeDuration_countable : Countable DayTimeDuration.
Proof. by apply (inj_countable' dtd_seconds mkDayTimeDuration); intros []. Defined.
#[global] Instance Duration_countable : Countable Duration.
Proof.
  by apply (inj_countable' (fun d => (dur_year_month d, dur_day_time d))
              (fun p => mkDuration p.1 p.2)); intros [].
Defined.

(** What the leaves of a term hold. *)
Definition leaf : Set :=
  (SmallString + StrHash) + (bytes + Timestamp) + (Boolean + (Float + Double))
  + (Integer + Decimal) + (Duration + (YearMonthDuration + DayTimeDuration)).
Definition leaf_small (s : SmallString) : gen_tree leaf := GenLeaf (inl (inl (inl (inl (inl s))))).
Definition leaf_hash (h : StrHash) : gen_tree leaf := GenLeaf (inl (inl (inl (inl (inr h))))).
Definition leaf_bytes (b : bytes) : gen_tree leaf := GenLeaf (inl (inl (inl (inr (inl b))))).
Definition leaf_time (t : Timestamp) : gen_tree leaf := GenLeaf (inl (inl (inl (inr (inr t))))).

(** A term as a tree: the position of its constructor and its parts. *)
Fixpoint term_to_tree (t : EncodedTerm) : gen_tree leaf :=
  let n := EncodedTerm_discriminant t in
  match t with
  | DefaultGraph => GenNode n []
  | NamedNode h | BigBlankNode h | BigStringLiteral h => GenNode n [leaf_hash h]
  | NumericalBlankNode id => GenNode n [leaf_bytes id]
  | SmallBlankNode s | SmallStringLiteral s => GenNode n [leaf_small s]
  | SmallSmallLangStringLiteral v l | LtrSmallSmallDirLangStringLiteral v l
  | RtlSmallSmallDirLangStringLiteral v l => GenNode n [leaf_small v; leaf_small l]
  | SmallBigLangStringLiteral v l | LtrSmallBigDirLangStringLiteral v l
  | RtlSmallBigDirLangStringLiteral v l | SmallTypedLiteral v l => GenNode n [leaf_small v; leaf_hash l]
  | BigSmallLangStringLiteral v l | LtrBigSmallDirLangStringLiteral v l
  | RtlBigSmallDirLangStringLiteral v l => GenNode n [leaf_hash v; leaf_small l]
  | BigBigLangStringLiteral v l | LtrBigBigDirLangStringLiteral v l
  | RtlBigBigDirLangStringLiteral v l | BigTypedLiteral v l => GenNode n [leaf_hash v; leaf_hash l]
  | BooleanLiteral v => GenNode n [GenLeaf (inl (inl (inr (inl v))))]
  | FloatLiteral v => GenNode n [GenLeaf (inl (inl (inr (inr (inl v)))))]
  | DoubleLiteral v => GenNode n [GenLeaf (inl (inl (inr (inr (inr v)))))]
  | IntegerLiteral v => GenNode n [GenLeaf (inl (inr (inl v)))]
  | DecimalLiteral v => GenNode n [GenLeaf (inl (inr (inr v)))]
  | DateTimeLiteral v => GenNode n [leaf_time (DateTime_timestamp v)]
  | TimeLiteral v => GenNode n [leaf_time (Time_timestamp v)]
  | DateLiteral v => GenNode n [leaf_time (Date_timestamp v)]
  | GYearMonthLiteral v => GenNode n [leaf_time (GYearMonth_timestamp v)]
  | GYearLiteral v => GenNode n [leaf_time (GYear_timestamp v)]
  | GMonthDayLiteral v => GenNode n [leaf_time (GMonthDay_timestamp v)]
  | GDayLiteral v => GenNode n [leaf_time (GDay_timestamp v)]
  | GMonthLiteral v => GenNode n [leaf_time (GMonth_timestamp v)]
  | DurationLiteral v => GenNode n [GenLeaf (inr (inl v))]
  | YearMonthDurationLiteral v => GenNode n [GenLeaf (inr (inr (inl v)))]
  | DayTimeDurationLiteral v => GenNode n [GenLeaf (inr (inr (inr v)))]
  | Triple s p o => GenNode n [term_to_tree s; term_to_tree p; term_to_tree o]
  end.

(** The inverse, by the shape of the parts and the constructor's position. *)
Definition tree_of_value (n : nat) (l : leaf) : EncodedTerm :=
  match l with
  | inl (inl (inl (inl (inl s)))) => if decide (n = 3%nat) then SmallBlankNode s else SmallStringLiteral s
  | inl (inl (inl (inl (inr h)))) =>
      match n with 1%nat => NamedNode h | 4%nat => BigBlankNode h | _ => BigStringLiteral h end
  | inl (inl (inl (inr (inl b)))) => NumericalBlankNode b
  | inl (inl (inl (inr (inr t)))) =>
      match n with
      | 26%nat => DateTimeLiteral (mkDateTime t) | 27%nat => TimeLiteral (mkTime t)
      | 28%nat => DateLiteral (mkDate t) | 29%nat => GYearMonthLiteral (mkGYearMonth t)
      | 30%nat => GYearLiteral (mkGYear t) | 31%nat => GMonthDayLiteral (mkGMonthDay t)
      | 32%nat => GDayLiteral (mkGDay t) | _ => GMonthLiteral (mkGMonth t)
      end
  | inl (inl (inr (inl v))) => BooleanLiteral v
  | inl (inl (inr (inr (inl v)))) => FloatLiteral v
  | inl (inl (inr (inr (inr v)))) => DoubleLiteral v
  | inl (inr (inl v)) => IntegerLiteral v
  | inl (inr (inr v)) => DecimalLiteral v
  | inr (inl v) => DurationLiteral v
  | inr (inr (inl v)) => YearMonthDurationLiteral v
  | inr (inr (inr v)) => DayTimeDurationLiteral v
  end.

Definition tree_of_pair (n : nat) (v l : leaf) : EncodedTerm :=
  match v, l with
  | inl (inl (inl (inl (inl v)))), inl (inl (inl (inl (inl l)))) =>
      match n with
      | 7%nat => SmallSmallLangStringLiteral v l | 11%nat => LtrSmallSmallDirLangStringLiteral v l
      | _ => RtlSmallSmallDirLangStringLiteral v l
      end
  | inl (inl (inl (inl (inl v)))), inl (inl (inl (inl (inr l)))) =>
      match n with
      | 8%nat => SmallBigLangStringLiteral v l | 12%nat => LtrSmallBigDirLangStringLiteral v l
      | 16%nat => RtlSmallBigDirLangStringLiteral v l | _ => SmallTypedLiteral v l
      end
  | inl (inl (inl (inl (inr v)))), inl (inl (inl (inl (inl l)))) =>
      match n with
      | 9%nat => BigSmallLangStringLiteral v l | 13%nat => LtrBigSmallDirLangStringLiteral v l
      | _ => RtlBigSmallDirLangStringLiteral v l
      end
  | inl (inl (inl (inl (inr v)))), inl (inl (inl (inl (inr l)))) =>
      match n with
      | 10%nat => BigBigLangStringLiteral v l | 14%nat => LtrBigBigDirLangStringLiteral v l
      | 18%nat => RtlBigBigDirLangStringLiteral v l | _ => BigTypedLiteral v l
      end
  | _, _ => DefaultGraph
  end.

Fixpoint term_of_tree (t : gen_tree leaf) : EncodedTerm :=
  match t with
  | GenNode n [GenLeaf v] => tree_of_value n v
  | GenNode n [GenLeaf v; GenLeaf l] => tree_of_pair n v l
  | GenNode _ [s; p; o] => Triple (term_of_tree s) (term_of_tree p) (term_of_tree o)
  | _ => DefaultGraph
  end.

Lemma term_to_tree_node (t : EncodedTerm) : exists n l, term_to_tree t = GenNode n l.
Proof. destruct t; simpl; eauto. Qed.
Lemma term_of_to_tree (t : EncodedTerm) : term_of_tree (term_to_tree t) = t.
Proof.
  induction t; try reflexivity; simpl;
    try (match goal with v : _ |- _ => destruct v end; reflexivity).
  destruct (term_to_tree_node t1) as (n & l & E). rewrite E in *. by rewrite IHt1, IHt2, IHt3.
Qed.
#[global] Instance EncodedTerm_countable : Countable EncodedTerm := inj_countable' _ _ term_of_to_tree.
#[global] Instance EncodedQuad_countable : Countable EncodedQuad.
Proof.
  by apply (inj_countable' (fun q => (quad_subject q, quad_predicate q, quad_object q, quad_graph_name q))
              (fun p => mkEncodedQuad p.1.1.1 p.1.1.2 p.1.2 p.2)); intros [].
Defined.
