(* ===== verification/MemoryStorage.v ===== *)
(** * The in-memory store

    lib/oxigraph/src/storage/memory.rs: a multi-version store.  Every quad,
    graph name and namespace mapping carries the range of the versions it exists
    in; a reader sees the entries whose range contains its snapshot, the single
    writer marks its changes with a transaction number far above all versions and
    turns them into the next version when it commits.

    Representation.  [Arc<QuadListNode>] is the position of the node in the list
    [nodes], in allocation order: nodes are never freed while the store lives,
    so upgrading a [Weak] pointer succeeds exactly on the positions of the list.
    The four indexes by subject, predicate, object and graph name, which the code
    writes out one after the other, are one family indexed by [QuadPosition].
    Hash maps are finite maps; where the code iterates over one, the model takes
    the order of [map_to_list].  A function that can panic returns an option. *)
From S2P Require Import Prelude MachineInt RustStr EncodedTerm RdfModel.
From S2P Require Import NumericEncoder VersionRange StoreKeys.
#[local] Open Scope Z_scope.

(** ** Data *)

Inductive QuadPosition : Set := PosSubject | PosPredicate | PosObject | PosGraphName.

Definition quad_term (k : QuadPosition) (q : EncodedQuad) : EncodedTerm :=
  match k with
  | PosSubject => quad_subject q
  | PosPredicate => quad_predicate q
  | PosObject => quad_object q
  | PosGraphName => quad_graph_name q
  end.

(** [previous_subject], [previous_predicate], [previous_object] and
    [previous_graph_name] are [node_previous_by]. *)
Record QuadListNode : Set := mkNode {
  node_quad : EncodedQuad;
  node_range : VersionRange;
  node_previous : option nat;
  node_previous_by : QuadPosition -> option nat
}.

Record NamespaceMapping : Set := mkNamespaceMapping { ns_prefix : bytes; ns_iri : bytes }.
#[global] Instance NamespaceMapping_eq_dec : EqDecision NamespaceMapping.
Proof. solve_decision. Defined.
#[global] Instance NamespaceMapping_countable : Countable NamespaceMapping.
Proof.
  by apply (inj_countable' (fun m => (ns_prefix m, ns_iri m)) (fun p => mkNamespaceMapping p.1 p.2));
    intros [].
Defined.

(** [last_quad_by_subject] and the three others are [last_quad_by]: the last node
    of each chain and the number of its nodes. *)
Record Content : Type := mkContent {
  nodes : list QuadListNode;
  quad_set : gmap EncodedQuad nat;
  last_quad : option nat;
  last_quad_by : QuadPosition -> gmap EncodedTerm (nat * Z);
  graphs : gmap EncodedTerm VersionRange;
  namespaces : gmap NamespaceMapping VersionRange
}.

Inductive MemoryTransactionOutcomeState : Set := Staging | CommitAttempted | Committed | RolledBack.
Inductive StorageTransactionOutcome : Set :=
| OutcomeCommitted | OutcomeRejected | OutcomeConflicted | OutcomeCancelled
| OutcomeRolledBack | OutcomeIndeterminate.

Record MemoryStorage : Type := mkStorage {
  content : Content;
  id2str : gmap StrHash bytes;
  transaction_outcomes : gmap bytes MemoryTransactionOutcomeState;
  version_counter : Z;
  transaction_counter : Z;
  transaction_lock : bool
}.

Inductive LogEntry : Set :=
| LogQuadNode (node : nat)
| LogGraph (graph_name : EncodedTerm)
| LogNamespace (mapping : NamespaceMapping).

(** The transaction, without its handle on the storage, which is passed beside
    it, and without its lock guard. *)
Record MemoryStorageTransaction : Set := mkTransaction {
  tx_log : list LogEntry;
  tx_transaction_id : Z;
  tx_snapshot_id : Z;
  tx_transaction_key : option bytes;
  tx_governed : bool;
  tx_completed : bool
}.

(** ** Updates of one field *)

Definition set_content (s : MemoryStorage) (c : Content) : MemoryStorage :=
  mkStorage c (id2str s) (transaction_outcomes s) (version_counter s) (transaction_counter s)
    (transaction_lock s).
Definition set_id2str (s : MemoryStorage) (m : gmap StrHash bytes) : MemoryStorage :=
  mkStorage (content s) m (transaction_outcomes s) (version_counter s) (transaction_counter s)
    (transaction_lock s).
Definition set_outcomes (s : MemoryStorage) (m : gmap bytes MemoryTransactionOutcomeState)
  : MemoryStorage :=
  mkStorage (content s) (id2str s) m (version_counter s) (transaction_counter s) (transaction_lock s).
Definition set_version (s : MemoryStorage) (v : Z) : MemoryStorage :=
  mkStorage (content s) (id2str s) (transaction_outcomes s) v (transaction_counter s)
    (transaction_lock s).
Definition set_lock (s : MemoryStorage) (counter : Z) (locked : bool) : MemoryStorage :=
  mkStorage (content s) (id2str s) (transaction_outcomes s) (version_counter s) counter locked.

Definition set_nodes (c : Content) (ns : list QuadListNode) : Content :=
  mkContent ns (quad_set c) (last_quad c) (last_quad_by c) (graphs c) (namespaces c).
Definition set_graphs (c : Content) (m : gmap EncodedTerm VersionRange) : Content :=
  mkContent (nodes c) (quad_set c) (last_quad c) (last_quad_by c) m (namespaces c).
Definition set_namespaces (c : Content) (m : gmap NamespaceMapping VersionRange) : Content :=
  mkContent (nodes c) (quad_set c) (last_quad c) (last_quad_by c) (graphs c) m.
Definition set_range (n : QuadListNode) (r : VersionRange) : QuadListNode :=
  mkNode (node_quad n) r (node_previous n) (node_previous_by n).

(** [self.log.push(entry)] *)
Definition push_log (t : MemoryStorageTransaction) (e : LogEntry) : MemoryStorageTransaction :=
  mkTransaction (tx_log t ++ [e]) (tx_transaction_id t) (tx_snapshot_id t) (tx_transaction_key t)
    (tx_governed t) (tx_completed t).
(** [take(&mut self.log)] and [self.completed = true] *)
Definition finish (t : MemoryStorageTransaction) (completed : bool) : MemoryStorageTransaction :=
  mkTransaction [] (tx_transaction_id t) (tx_snapshot_id t) (tx_transaction_key t)
    (tx_governed t) completed.

(** ** Storage *)

Definition MemoryStorage_new : MemoryStorage :=
  mkStorage (mkContent [] ∅ None (fun _ => ∅) ∅ ∅) ∅ ∅ 0 (Z.shiftr (int_max U64) 1) false.

(** The version a new reader is pinned to. *)
Definition MemoryStorage_snapshot (s : MemoryStorage) : Z := version_counter s.

Definition start_transaction_with_guard_and_key (s : MemoryStorage) (key : option bytes)
  : MemoryStorage * MemoryStorageTransaction :=
  (set_lock s (wrap U64 (transaction_counter s + 1)) true,
   mkTransaction [] (transaction_counter s) (version_counter s) key false false).

(** [None] while the lock is held: the caller waits. *)
Definition MemoryStorage_start_transaction (s : MemoryStorage)
  : option (MemoryStorage * MemoryStorageTransaction) :=
  if transaction_lock s then None else Some (start_transaction_with_guard_and_key s None).

(** The key is reserved once the lock is acquired; a key that was used before is
    an error, after which the lock is free again. *)
Definition start_keyed_readable_transaction (s : MemoryStorage) (key : bytes)
  : option (result StorageError (MemoryStorage * MemoryStorageTransaction)) :=
  if transaction_lock s then None
  else Some match transaction_outcomes s !! key with
            | Some _ => Err (StorageOther "transaction key has already been reserved")
            | None =>
                Ok (start_transaction_with_guard_and_key
                      (set_outcomes s (<[key := Staging]> (transaction_outcomes s))) (Some key))
            end.

Definition lookup_transaction_outcome (s : MemoryStorage) (key : bytes) : StorageTransactionOutcome :=
  match transaction_outcomes s !! key with
  | Some Committed => OutcomeCommitted
  | Some RolledBack => OutcomeRolledBack
  | Some (Staging | CommitAttempted) | None => OutcomeIndeterminate
  end.

(** ** Reading, at a snapshot *)

Definition is_in_range (snapshot_id : Z) (r : VersionRange) : bool :=
  VersionRange_contains r snapshot_id.
Definition is_node_in_range (snapshot_id : Z) (n : QuadListNode) : bool :=
  is_in_range snapshot_id (node_range n).

(** The nodes of the quad set, in the order of its iteration. *)
Definition quad_set_nodes (c : Content) : list QuadListNode :=
  omap (fun '(_, p) => nodes c !! p) (map_to_list (quad_set c)).

Definition Reader_len (c : Content) (snapshot_id : Z) : nat :=
  length (List.filter (is_node_in_range snapshot_id) (quad_set_nodes c)).
Definition Reader_is_empty (c : Content) (snapshot_id : Z) : bool :=
  negb (existsb (is_node_in_range snapshot_id) (quad_set_nodes c)).
Definition Reader_contains (c : Content) (snapshot_id : Z) (quad : EncodedQuad) : bool :=
  match quad_set c !! quad ≫= (nodes c !!.) with
  | Some node => is_node_in_range snapshot_id node
  | None => false
  end.
Definition Reader_named_graphs (c : Content) (snapshot_id : Z) : list EncodedTerm :=
  (List.filter (fun '(_, r) => is_in_range snapshot_id r) (map_to_list (graphs c))).*1.
Definition Reader_contains_named_graph (c : Content) (snapshot_id : Z) (graph_name : EncodedTerm) : bool :=
  match graphs c !! graph_name with
  | Some r => is_in_range snapshot_id r
  | None => false
  end.
Definition Reader_contains_str (s : MemoryStorage) (key : StrHash) : bool :=
  bool_decide (is_Some (id2str s !! key)).
Definition Reader_str_len (s : MemoryStorage) (key : StrHash) : option nat :=
  length <$> id2str s !! key.
#[global] Instance Reader_get_str : StrLookup MemoryStorage := fun s key => Ok (id2str s !! key).

(** *** Patterns *)

(** [QuadIteratorKind]: the chain an iterator follows; [None] is [All]. *)
Definition QuadIteratorKind : Set := option QuadPosition.

Record QuadIterator : Set := mkIterator {
  it_snapshot_id : Z;
  it_current : option nat;
  it_kind : QuadIteratorKind;
  it_expect : QuadPosition -> option EncodedTerm
}.

Record QuadPattern : Set := mkPattern {
  pat_subject : option EncodedTerm;
  pat_predicate : option EncodedTerm;
  pat_object : option EncodedTerm;
  pat_graph_name : option EncodedTerm
}.
Definition pat_term (p : QuadPattern) (k : QuadPosition) : option EncodedTerm :=
  match k with
  | PosSubject => pat_subject p
  | PosPredicate => pat_predicate p
  | PosObject => pat_object p
  | PosGraphName => pat_graph_name p
  end.

(** [get_start_and_count]: an absent term has the largest count. *)
Definition get_start_and_count (c : Content) (p : QuadPattern) (k : QuadPosition) : option nat * Z :=
  match pat_term p k with
  | None => (None, int_max U64)
  | Some term =>
      match last_quad_by c k !! term with
      | Some (node, count) => (Some node, count)
      | None => (None, 0)
      end
  end.

(** The chain with the smallest count, in the order of the code's comparisons. *)
Definition choose_chain (c : Content) (p : QuadPattern) : option nat * QuadIteratorKind :=
  let '(subject_start, subject_count) := get_start_and_count c p PosSubject in
  let '(predicate_start, predicate_count) := get_start_and_count c p PosPredicate in
  let '(object_start, object_count) := get_start_and_count c p PosObject in
  let '(graph_name_start, graph_name_count) := get_start_and_count c p PosGraphName in
  if bool_decide (is_Some (pat_subject p)) && (subject_count <=? predicate_count)
     && (subject_count <=? object_count) && (subject_count <=? graph_name_count)
  then (subject_start, Some PosSubject)
  else if bool_decide (is_Some (pat_predicate p)) && (predicate_count <=? object_count)
     && (predicate_count <=? graph_name_count)
  then (predicate_start, Some PosPredicate)
  else if bool_decide (is_Some (pat_object p)) && (object_count <=? graph_name_count)
  then (object_start, Some PosObject)
  else if bool_decide (is_Some (pat_graph_name p)) then (graph_name_start, Some PosGraphName)
  else (last_quad c, None).

#[global] Instance QuadPosition_eq_dec : EqDecision QuadPosition.
Proof. solve_decision. Defined.

Definition quads_for_pattern (c : Content) (snapshot_id : Z) (p : QuadPattern) : QuadIterator :=
  let '(start, kind) := choose_chain c p in
  mkIterator snapshot_id start kind
    (fun k => if bool_decide (kind = Some k) then None else pat_term p k).

(** The expectation of one position. *)
Definition expected (e : option EncodedTerm) (t : EncodedTerm) : bool :=
  match e with Some e => bool_decide (t = e) | None => true end.
Definition it_matches (it : QuadIterator) (q : EncodedQuad) : bool :=
  expected (it_expect it PosSubject) (quad_subject q)
  && expected (it_expect it PosPredicate) (quad_predicate q)
  && expected (it_expect it PosObject) (quad_object q)
  && expected (it_expect it PosGraphName) (quad_graph_name q).

Definition node_next (kind : QuadIteratorKind) (n : QuadListNode) : option nat :=
  match kind with None => node_previous n | Some k => node_previous_by n k end.

(** [Iterator::next]: [Some (Some (quad, rest))] for an item, [Some None] at the
    end, [None] when the fuel is too small. *)
Fixpoint QuadIterator_next (fuel : nat) (c : Content) (it : QuadIterator)
  : option (option (EncodedQuad * QuadIterator)) :=
  match fuel with
  | O => None
  | S fuel =>
      match it_current it ≫= (nodes c !!.) with
      | None => Some None
      | Some current =>
          let it := mkIterator (it_snapshot_id it) (node_next (it_kind it) current) (it_kind it)
                      (it_expect it) in
          if is_node_in_range (it_snapshot_id it) current && it_matches it (node_quad current)
          then Some (Some (node_quad current, it))
          else QuadIterator_next fuel c it
      end
  end.

(** [iterator.collect::<Vec<_>>()] *)
Fixpoint QuadIterator_collect (fuel : nat) (c : Content) (it : QuadIterator)
  : option (list EncodedQuad) :=
  match fuel with
  | O => None
  | S fuel =>
      match QuadIterator_next (S (length (nodes c))) c it with
      | None => None
      | Some None => Some []
      | Some (Some (q, it)) => (q ::.) <$> QuadIterator_collect fuel c it
      end
  end.

(** *** Namespaces *)

(** The loop of [namespaces]: the visible mappings, and an error on the second
    one of a prefix. *)
Fixpoint collect_namespaces (snapshot_id : Z) (entries : list (NamespaceMapping * VersionRange))
  (prefixes : list bytes) : result StorageError (list NamespaceMapping) :=
  match entries with
  | [] => Ok []
  | (m, r) :: entries =>
      if negb (is_in_range snapshot_id r) then collect_namespaces snapshot_id entries prefixes
      else if bool_decide (ns_prefix m ∈ prefixes)
      then Err (corruption_msg "multiple namespace mappings are visible for one prefix")
      else rest ← collect_namespaces snapshot_id entries (ns_prefix m :: prefixes); Ok (m :: rest)
  end.

(** [sort_unstable_by] on the bytes of the prefixes, which differ. *)
Definition prefix_le (a b : NamespaceMapping) : bool :=
  match str_cmp (ns_prefix a) (ns_prefix b) with Gt => false | _ => true end.
Fixpoint insert_sorted (m : NamespaceMapping) (l : list NamespaceMapping) : list NamespaceMapping :=
  match l with
  | [] => [m]
  | x :: l' => if prefix_le m x then m :: l else x :: insert_sorted m l'
  end.
Definition sort_namespaces (l : list NamespaceMapping) : list NamespaceMapping :=
  foldr insert_sorted [] l.

Definition Reader_namespaces (c : Content) (snapshot_id : Z)
  : result StorageError (list NamespaceMapping) :=
  sort_namespaces <$> collect_namespaces snapshot_id (map_to_list (namespaces c)) [].
Definition Reader_namespace (c : Content) (snapshot_id : Z) (prefix : bytes)
  : result StorageError (option NamespaceMapping) :=
  List.find (fun m => bool_decide (ns_prefix m = prefix)) <$> Reader_namespaces c snapshot_id.

(** ** Writing

    The operations of a transaction take and return the shared content and the
    transaction. *)

Definition tx_state : Type := Content * MemoryStorageTransaction.

(** [node.range.lock().unwrap().add(id)] and [remove], logged when they change
    something. *)
Definition change_node (change : VersionRange -> Z -> VersionRange * bool) (p : nat) (st : tx_state)
  : tx_state * bool :=
  let '(c, t) := st in
  match nodes c !! p with
  | None => (st, false)
  | Some n =>
      let '(r, changed) := change (node_range n) (tx_transaction_id t) in
      ((set_nodes c (<[p := set_range n r]> (nodes c)),
        if changed then push_log t (LogQuadNode p) else t), changed)
  end.
(** The same on a graph name that is in the map; [None] when it is not. *)
Definition change_graph (change : VersionRange -> Z -> VersionRange * bool) (g : EncodedTerm)
  (st : tx_state) : option tx_state :=
  let '(c, t) := st in
  match graphs c !! g with
  | None => None
  | Some r =>
      let '(r, changed) := change r (tx_transaction_id t) in
      Some (set_graphs c (<[g := r]> (graphs c)), if changed then push_log t (LogGraph g) else t)
  end.
Definition change_namespace (change : VersionRange -> Z -> VersionRange * bool)
  (m : NamespaceMapping) (st : tx_state) : option tx_state :=
  let '(c, t) := st in
  match namespaces c !! m with
  | None => None
  | Some r =>
      let '(r, changed) := change r (tx_transaction_id t) in
      Some (set_namespaces c (<[m := r]> (namespaces c)),
            if changed then push_log t (LogNamespace m) else t)
  end.

(** *** Namespaces *)

Definition remove_namespace_mapping (m : NamespaceMapping) (st : tx_state) : tx_state :=
  default st (change_namespace VersionRange_remove m st).
Definition add_namespace_mapping (m : NamespaceMapping) (st : tx_state) : tx_state :=
  match change_namespace VersionRange_add m st with
  | Some st => st
  | None =>
      let '(c, t) := st in
      (set_namespaces c (<[m := RangeStart (tx_transaction_id t)]> (namespaces c)),
       push_log t (LogNamespace m))
  end.
Definition set_namespace (m : NamespaceMapping) (st : tx_state) : result StorageError tx_state :=
  current ← Reader_namespace (fst st) (tx_transaction_id (snd st)) (ns_prefix m);
  match current with
  | Some current =>
      if bool_decide (current = m) then Ok st
      else Ok (add_namespace_mapping m (remove_namespace_mapping current st))
  | None => Ok (add_namespace_mapping m st)
  end.
Definition remove_namespace (prefix : bytes) (st : tx_state) : result StorageError tx_state :=
  current ← Reader_namespace (fst st) (tx_transaction_id (snd st)) prefix;
  Ok match current with Some m => remove_namespace_mapping m st | None => st end.
Definition clear_namespaces (st : tx_state) : result StorageError tx_state :=
  l ← Reader_namespaces (fst st) (tx_transaction_id (snd st));
  Ok (foldl (fun st m => remove_namespace_mapping m st) st l).

(** *** Quads *)

(** [insert_encoded_named_graph], without the dictionary: whether the graph name
    is new to the map. *)
Definition insert_encoded_named_graph (g : EncodedTerm) (st : tx_state) : tx_state :=
  match change_graph VersionRange_add g st with
  | Some st => st
  | None =>
      let '(c, t) := st in
      (set_graphs c (<[g := RangeStart (tx_transaction_id t)]> (graphs c)), push_log t (LogGraph g))
  end.

(** [entry(key).and_modify(..).or_insert_with(..)] on one index. *)
Definition bump (key : EncodedTerm) (node : nat) (m : gmap EncodedTerm (nat * Z))
  : gmap EncodedTerm (nat * Z) :=
  <[key := (node, match m !! key with Some (_, count) => count + 1 | None => 1 end)]> m.

(** The new node, linked at the end of the five chains. *)
Definition link_node (c : Content) (encoded : EncodedQuad) (transaction_id : Z) : Content :=
  let p := length (nodes c) in
  let node := mkNode encoded (RangeStart transaction_id) (last_quad c)
    (fun k => fst <$> last_quad_by c k !! quad_term k encoded) in
  mkContent (nodes c ++ [node]) (<[encoded := p]> (quad_set c)) (Some p)
    (fun k => bump (quad_term k encoded) p (last_quad_by c k)) (graphs c) (namespaces c).

(** [insert] of an encoded quad; [None] is the panic of [get_mut(..).unwrap()]. *)
Definition insert_encoded (encoded : EncodedQuad) (st : tx_state) : option tx_state :=
  let g := quad_graph_name encoded in
  match quad_set (fst st) !! encoded with
  | Some p =>
      let '(st, added) := change_node VersionRange_add p st in
      if added && negb (EncodedTerm_is_default_graph g) then change_graph VersionRange_add g st
      else Some st
  | None =>
      let '(c, t) := st in
      let p := length (nodes c) in
      let st := (link_node c encoded (tx_transaction_id t), t) in
      let '(c, t) := if EncodedTerm_is_default_graph g then st else insert_encoded_named_graph g st in
      Some (c, push_log t (LogQuadNode p))
  end.

Definition remove_encoded (quad : EncodedQuad) (st : tx_state) : tx_state :=
  match quad_set (fst st) !! quad with
  | None => st
  | Some p => fst (change_node VersionRange_remove p st)
  end.

(** The walk along the chain of a graph. *)
Fixpoint clear_chain (fuel : nat) (next : option nat) (st : tx_state) : option tx_state :=
  match fuel with
  | O => None
  | S fuel =>
      match next ≫= (fun p => (p,.) <$> nodes (fst st) !! p) with
      | None => Some st
      | Some (p, current) =>
          clear_chain fuel (node_previous_by current PosGraphName)
            (fst (change_node VersionRange_remove p st))
      end
  end.
(** The model's bound on the walk is never reached ([clear_chain_total]). *)
Definition clear_encoded_graph (g : EncodedTerm) (st : tx_state) : tx_state :=
  default st (clear_chain (S (length (nodes (fst st))))
                (fst <$> last_quad_by (fst st) PosGraphName !! g) st).

Definition clear_all_named_graphs (st : tx_state) : tx_state :=
  foldl (fun st g => clear_encoded_graph g st) st
    (Reader_named_graphs (fst st) (tx_transaction_id (snd st))).
Definition clear_all_graphs (st : tx_state) : tx_state :=
  foldl (fun st '(_, p) => fst (change_node VersionRange_remove p st)) st
    (map_to_list (quad_set (fst st))).
Definition remove_encoded_graph_name (g : EncodedTerm) (st : tx_state) : tx_state :=
  default st (change_graph VersionRange_remove g st).
Definition remove_encoded_named_graph (g : EncodedTerm) (st : tx_state) : tx_state :=
  remove_encoded_graph_name g (clear_encoded_graph g st).
Definition do_remove_graphs (st : tx_state) : tx_state :=
  foldl (fun st '(g, _) => remove_encoded_graph_name g st) st (map_to_list (graphs (fst st))).
Definition remove_all_named_graphs (st : tx_state) : tx_state :=
  do_remove_graphs (clear_all_named_graphs st).
Definition clear (st : tx_state) : tx_state := do_remove_graphs (clear_all_graphs st).

(** ** Ending a transaction *)

(** One iteration of the loops of [publish] and [rollback_changes]: [f] is
    [upgrade_transaction] or [rollback_transaction]. *)
Definition finish_entry (f : VersionRange -> VersionRange) (c : Content) (e : LogEntry) : Content :=
  match e with
  | LogQuadNode p =>
      match nodes c !! p with
      | Some n => set_nodes c (<[p := set_range n (f (node_range n))]> (nodes c))
      | None => c
      end
  | LogGraph g =>
      match graphs c !! g with
      | Some r => set_graphs c (<[g := f r]> (graphs c))
      | None => c
      end
  | LogNamespace m =>
      match namespaces c !! m with
      | Some r => set_namespaces c (<[m := f r]> (namespaces c))
      | None => c
      end
  end.

Definition new_version_id (t : MemoryStorageTransaction) : Z := wrap U64 (tx_snapshot_id t + 1).
Definition upgrade (t : MemoryStorageTransaction) (r : VersionRange) : VersionRange :=
  VersionRange_upgrade_transaction r (tx_transaction_id t) (new_version_id t).
Definition rollback (t : MemoryStorageTransaction) (r : VersionRange) : VersionRange :=
  VersionRange_rollback_transaction r (tx_transaction_id t).

Definition publish (s : MemoryStorage) (t : MemoryStorageTransaction)
  : MemoryStorage * MemoryStorageTransaction :=
  (set_version (set_content s (foldl (finish_entry (upgrade t)) (content s) (tx_log t)))
     (new_version_id t), finish t true).

Definition rollback_changes (s : MemoryStorage) (t : MemoryStorageTransaction)
  : MemoryStorage * MemoryStorageTransaction :=
  (set_content s (foldl (finish_entry (rollback t)) (content s) (tx_log t)),
   finish t (tx_completed t)).

(** [Drop for LockGuard] *)
Definition release (s : MemoryStorage) : MemoryStorage := set_lock s (transaction_counter s) false.

#[global] Instance MemoryTransactionOutcomeState_eq_dec : EqDecision MemoryTransactionOutcomeState.
Proof. solve_decision. Defined.

Definition transition_outcome (s : MemoryStorage) (t : MemoryStorageTransaction)
  (expected_state next : MemoryTransactionOutcomeState) : result StorageError MemoryStorage :=
  match tx_transaction_key t with
  | None => Ok s
  | Some key =>
      match transaction_outcomes s !! key with
      | None => Err (corruption_msg "a keyed memory transaction lost its outcome reservation")
      | Some state =>
          if bool_decide (state <> expected_state)
          then Err (corruption_msg "a keyed memory transaction outcome attempted an invalid transition")
          else Ok (set_outcomes s (<[key := next]> (transaction_outcomes s)))
      end
  end.

Definition transition_to_rolled_back (s : MemoryStorage) (t : MemoryStorageTransaction)
  : result StorageError MemoryStorage :=
  match tx_transaction_key t with
  | None => Ok s
  | Some key =>
      match transaction_outcomes s !! key with
      | None => Err (corruption_msg "a keyed memory transaction lost its outcome reservation")
      | Some state =>
          if bool_decide (state <> Staging)
          then Err (corruption_msg
                      "a keyed memory transaction may roll back only before commit is attempted")
          else Ok (set_outcomes s (<[key := RolledBack]> (transaction_outcomes s)))
      end
  end.

(** [Drop for MemoryStorageTransaction], with that of the guard it owns. *)
Definition drop_transaction (s : MemoryStorage) (t : MemoryStorageTransaction) : MemoryStorage :=
  release (if tx_completed t then s
           else let s := fst (rollback_changes s t) in
                match transition_to_rolled_back s t with Ok s => s | Err _ => s end).

(** The methods that consume the transaction drop it when they return. *)
Definition commit (s : MemoryStorage) (t : MemoryStorageTransaction) : MemoryStorage :=
  let '(s, t) := publish s t in drop_transaction s t.

Definition commit_with_outcome (s : MemoryStorage) (t : MemoryStorageTransaction)
  : MemoryStorage * result StorageError unit :=
  if tx_governed t
  then (drop_transaction s t, Err (StorageOther "a governed transaction must commit its receipt"))
  else match transition_outcome s t Staging CommitAttempted with
       | Err e => (drop_transaction s t, Err e)
       | Ok s =>
           let '(s, t) := publish s t in
           match transition_outcome s t CommitAttempted Committed with
           | Err e => (drop_transaction s t, Err e)
           | Ok s => (drop_transaction s t, Ok tt)
           end
       end.

Definition rollback_with_outcome (s : MemoryStorage) (t : MemoryStorageTransaction)
  : MemoryStorage * result StorageError unit :=
  let '(s, t) := rollback_changes s t in
  let '(s, res) := match transition_to_rolled_back s t with
                   | Ok s => (s, Ok tt)
                   | Err e => (s, Err e)
                   end in
  (drop_transaction s (finish t true), res).

(** ** The public operations on RDF terms *)

Section operations.
Context `{EncoderParams}.

(** [insert_str]: a string that is there is kept, and must be the same one (the
    code's [debug_assert_eq!], "Hash conflict for two strings"). *)
Definition insert_str (key : StrHash) (value : bytes) (dict : gmap StrHash bytes)
  : option (gmap StrHash bytes) :=
  match dict !! key with
  | None => Some (<[key := value]> dict)
  | Some inserted => if bool_decide (inserted = value) then Some dict else None
  end.

(** The terms of a quad that [insert] adds to the dictionary; the graph name is
    added when it is new to the map of the graphs. *)
Definition insert_quad_terms (quad : RdfQuad) (new_graph : bool) (dict : gmap StrHash bytes)
  : option (gmap StrHash bytes) :=
  let encoded := EncodedQuad_from_quad quad in
  dict ← insert_node insert_str (q_subject quad) (quad_subject encoded) dict;
  dict ← insert_named_node insert_str (q_predicate quad) (quad_predicate encoded) dict;
  dict ← insert_term insert_str (q_object quad) (quad_object encoded) dict;
  if new_graph then
    match q_graph_name quad with
    | GraphNamedNode n => insert_named_node insert_str n (quad_graph_name encoded) dict
    | GraphBlankNode n => insert_blank_node insert_str n (quad_graph_name encoded) dict
    | GraphDefault => Some dict
    end
  else Some dict.

Definition Transaction_insert (quad : RdfQuad) (s : MemoryStorage) (t : MemoryStorageTransaction)
  : option (MemoryStorage * MemoryStorageTransaction) :=
  let encoded := EncodedQuad_from_quad quad in
  '(c, t) ← insert_encoded encoded (content s, t);
  dict ← match quad_set (content s) !! encoded with
         | Some _ => Some (id2str s)
         | None =>
             insert_quad_terms quad
               (bool_decide (graphs (content s) !! quad_graph_name encoded = None)) (id2str s)
         end;
  Some (set_id2str (set_content s c) dict, t).

Definition Transaction_insert_named_graph (graph_name : RdfNamedOrBlankNode) (s : MemoryStorage)
  (t : MemoryStorageTransaction) : option (MemoryStorage * MemoryStorageTransaction) :=
  let encoded := EncodedTerm_from_node graph_name in
  let '(c, t) := insert_encoded_named_graph encoded (content s, t) in
  dict ← if bool_decide (graphs (content s) !! encoded = None)
         then insert_node insert_str graph_name encoded (id2str s) else Some (id2str s);
  Some (set_id2str (set_content s c) dict, t).

(** The operations that do not touch the dictionary. *)
Definition on_content (f : tx_state -> tx_state) (s : MemoryStorage) (t : MemoryStorageTransaction)
  : MemoryStorage * MemoryStorageTransaction :=
  let '(c, t) := f (content s, t) in (set_content s c, t).
Definition Transaction_remove (quad : RdfQuad) :=
  on_content (remove_encoded (EncodedQuad_from_quad quad)).
Definition Transaction_clear_graph (g : RdfGraphName) :=
  on_content (clear_encoded_graph (EncodedTerm_from_graph_name g)).
Definition Transaction_remove_named_graph (g : RdfNamedOrBlankNode) :=
  on_content (remove_encoded_named_graph (EncodedTerm_from_node g)).

(** [MemoryStorageBulkLoader]: the quads and graphs of the batches, in order;
    the progress hooks are left out. *)
Fixpoint load_batch (new_quads : list RdfQuad) (st : MemoryStorage * MemoryStorageTransaction)
  : option (MemoryStorage * MemoryStorageTransaction) :=
  match new_quads with
  | [] => Some st
  | quad :: new_quads => st ← Transaction_insert quad st.1 st.2; load_batch new_quads st
  end.
Fixpoint load_named_graphs (graph_names : list RdfNamedOrBlankNode)
  (st : MemoryStorage * MemoryStorageTransaction)
  : option (MemoryStorage * MemoryStorageTransaction) :=
  match graph_names with
  | [] => Some st
  | g :: graph_names => st ← Transaction_insert_named_graph g st.1 st.2; load_named_graphs graph_names st
  end.

(** ** Validation *)

Definition not_in_quad_set : StorageError := corruption_new "Quad in previous chain but not in quad set".

(** [quad_set.get(&current.quad).is_some_and(|e| Arc::ptr_eq(&e, &current))] *)
Definition is_in_quad_set (c : Content) (p : nat) (n : QuadListNode) : bool :=
  bool_decide (quad_set c !! node_quad n = Some p).

(** The walk along [previous] from [next]; the result is the number of nodes.  The
    outer option is a panic of the decoder or the model's bound. *)
Fixpoint validate_all (fuel : nat) (s : MemoryStorage) (next : option nat) (count : Z)
  : fallible Z :=
  match fuel with
  | O => None
  | S fuel =>
      let c := content s in
      match next ≫= (fun p => (p,.) <$> nodes c !! p) with
      | None => returns count
      | Some (p, current) =>
          if negb (is_in_quad_set c p current) then fails not_in_quad_set
          else and_then (decode_quad s (node_quad current)) (fun _ =>
            let g := quad_graph_name (node_quad current) in
            if negb (EncodedTerm_is_default_graph g) && bool_decide (graphs c !! g = None)
            then fails (corruption_new "Quad in named graph that does not exists")
            else validate_all fuel s (node_previous current) (count + 1))
      end
  end.

(** The walk along one chain of an index. *)
Fixpoint validate_chain (fuel : nat) (c : Content) (k : QuadPosition) (key : EncodedTerm)
  (next : option nat) (count : Z) : fallible Z :=
  match fuel with
  | O => None
  | S fuel =>
      match next ≫= (fun p => (p,.) <$> nodes c !! p) with
      | None => returns count
      | Some (p, current) =>
          if negb (bool_decide (quad_term k (node_quad current) = key))
          then fails (corruption_new "Quad in wrong list")
          else if negb (is_in_quad_set c p current) then fails not_in_quad_set
          else validate_chain fuel c k key (node_previous_by current k) (count + 1)
      end
  end.

(** The loop over the entries of one index; the result is the sum of the counts. *)
Fixpoint validate_index (c : Content) (k : QuadPosition) (entries : list (EncodedTerm * (nat * Z)))
  (count : Z) : fallible Z :=
  match entries with
  | [] => returns count
  | (key, (node, expected_count)) :: entries =>
      and_then (validate_chain (S (length (nodes c))) c k key (Some node) 0) (fun element_count =>
        if negb (element_count =? expected_count)
        then fails (corruption_new "Too many quads in a chain")
        else validate_index c k entries (count + element_count))
  end.

Definition check_count (m : fallible Z) (expected_quad_len : Z) : fallible unit :=
  and_then m (fun count =>
    if negb (count =? expected_quad_len) then fails (corruption_new "Too many quads in quad_set")
    else returns tt).

Definition validate (s : MemoryStorage) (snapshot_id : Z) : fallible unit :=
  let c := content s in
  let expected_quad_len := Z.of_nat (size (quad_set c)) in
  let index k := check_count (validate_index c k (map_to_list (last_quad_by c k)) 0) expected_quad_len in
  and_then (Some (Reader_namespaces c snapshot_id)) (fun _ =>
  and_then (check_count (validate_all (S (length (nodes c))) s (last_quad c) 0) expected_quad_len) (fun _ =>
  and_then (index PosSubject) (fun _ =>
  and_then (index PosPredicate) (fun _ =>
  and_then (index PosObject) (fun _ => index PosGraphName))))).
End operations.
