(* ===== verification/NumericEncoderFacts.v ===== *)
(** * Correctness of the numeric encoder

    What the store gives back for a term it encoded: the strings [insert_term]
    adds to the dictionary are those the decoder asks for, and decoding returns
    the term, with the value of a literal of a native datatype in its canonical
    form. *)
From S2P Require Import Prelude MachineInt RustStr XsdDecimal XsdDuration XsdDurationFacts.
From S2P Require Import XsdDateTime XsdDateTimeText EncodedTerm BinaryEncoder.
From S2P Require Import BinaryEncoderFacts RdfModel NumericEncoder VersionRange StoreKeys.
From S2P Require Import MemoryStorage.
#[local] Open Scope Z_scope.

(** ** Terms the types of oxrdf allow

    The constructors of [Literal] and [BlankNode] establish these. *)
Definition literal_valid (l : RdfLiteral) : Prop :=
  match l with
  | TypedLiteral _ d => d <> XSD_STRING /\ d <> RDF_LANG_STRING /\ d <> RDF_DIR_LANG_STRING
  | _ => True
  end.
Definition blank_node_valid (n : RdfBlankNode) : Prop :=
  match n with
  | BlankNamed id => to_integer_id id = None
  | BlankAnonymous id s => MachineInt.in_int U128 id /\ s = IdStr_new id
  end.
Definition node_valid (n : RdfNamedOrBlankNode) : Prop :=
  match n with NodeNamed _ => True | NodeBlank n => blank_node_valid n end.
Fixpoint term_valid (t : RdfTerm) : Prop :=
  match t with
  | TermNamedNode _ => True
  | TermBlankNode n => blank_node_valid n
  | TermLiteral l => literal_valid l
  | TermTriple s _ o => node_valid s /\ term_valid o
  end.
Definition graph_name_valid (g : RdfGraphName) : Prop :=
  match g with GraphBlankNode n => blank_node_valid n | _ => True end.
Definition quad_valid (q : RdfQuad) : Prop :=
  node_valid (q_subject q) /\ term_valid (q_object q) /\ graph_name_valid (q_graph_name q).

(** ** The canonical form of a term *)

Section canonical.
Context `{EncoderParams}.

(** Parse a value and print it. *)
Definition printed {A : Type} (parse : bytes -> option A) (print : A -> option bytes) (name : string)
  (v : bytes) : option RdfLiteral :=
  a ← parse v; text ← print a; Some (TypedLiteral text (XSD name)).
Definition integer_form : bytes -> option RdfLiteral :=
  printed (fun v => ok (Integer_from_str v)) (fun i => Some (Integer_to_string i)) "integer".
Definition date_time_form : bytes -> option RdfLiteral :=
  printed (fun v => ok (DateTime_from_str v)) (fun d => Some (DateTime_to_string d)) "dateTime".

(** The datatypes derived from xsd:integer and xsd:dateTime decode as these. *)
Definition native_forms : list (string * (bytes -> option RdfLiteral)) :=
  [("boolean", printed Boolean_from_str (fun b => Some (Boolean_to_string b)) "boolean");
   ("string", fun v => Some (LiteralString v));
   ("float", printed Float_from_str (fun f => Some (Float_to_string f)) "float");
   ("double", printed Double_from_str (fun f => Some (Double_to_string f)) "double");
   ("integer", integer_form); ("byte", integer_form); ("short", integer_form);
   ("int", integer_form); ("long", integer_form); ("unsignedByte", integer_form);
   ("unsignedShort", integer_form); ("unsignedInt", integer_form); ("unsignedLong", integer_form);
   ("positiveInteger", integer_form); ("negativeInteger", integer_form);
   ("nonPositiveInteger", integer_form); ("nonNegativeInteger", integer_form);
   ("decimal", printed (fun v => ok (Decimal_from_str v)) (fun d => Some (Decimal_to_string d)) "decimal");
   ("dateTime", date_time_form); ("dateTimeStamp", date_time_form);
   ("time", printed (fun v => ok (Time_from_str v)) (fun d => Some (Time_to_string d)) "time");
   ("date", printed (fun v => ok (Date_from_str v)) (fun d => Some (Date_to_string d)) "date");
   ("gYearMonth", printed (fun v => ok (GYearMonth_from_str v)) (fun d => Some (GYearMonth_to_string d)) "gYearMonth");
   ("gYear", printed (fun v => ok (GYear_from_str v)) (fun d => Some (GYear_to_string d)) "gYear");
   ("gMonthDay", printed (fun v => ok (GMonthDay_from_str v)) (fun d => Some (GMonthDay_to_string d)) "gMonthDay");
   ("gDay", printed (fun v => ok (GDay_from_str v)) (fun d => Some (GDay_to_string d)) "gDay");
   ("gMonth", printed (fun v => ok (GMonth_from_str v)) (fun d => Some (GMonth_to_string d)) "gMonth");
   ("duration", printed (fun v => ok (Duration_from_str v)) Duration_fmt "duration");
   ("yearMonthDuration", printed (fun v => ok (YearMonthDuration_from_str v)) YearMonthDuration_fmt "yearMonthDuration");
   ("dayTimeDuration", printed (fun v => ok (DayTimeDuration_from_str v)) DayTimeDuration_fmt "dayTimeDuration")]%string.

Fixpoint find_form (forms : list (string * (bytes -> option RdfLiteral))) (datatype : RdfNamedNode)
  (value : bytes) : option RdfLiteral :=
  match forms with
  | [] => None
  | (name, form) :: forms =>
      if bool_decide (datatype = XSD name) then form value else find_form forms datatype value
  end.

Definition canonical_literal (l : RdfLiteral) : RdfLiteral :=
  match l with
  | TypedLiteral value datatype => default l (find_form native_forms datatype value)
  | _ => l
  end.
Fixpoint canonical_term (t : RdfTerm) : RdfTerm :=
  match t with
  | TermLiteral l => TermLiteral (canonical_literal l)
  | TermTriple s p o => TermTriple s p (canonical_term o)
  | _ => t
  end.
Definition canonical_quad (q : RdfQuad) : RdfQuad :=
  mkQuad (q_subject q) (q_predicate q) (canonical_term (q_object q)) (q_graph_name q).

(** ** Native values *)

(** An encoded native value needs no string, and decodes as a literal. *)
Definition native_ok (e : option EncodedTerm) (l : option RdfLiteral) : Prop :=
  match e, l with
  | None, None => True
  | Some e, Some l =>
      (forall S (ins : StrHash -> bytes -> S -> option S) l0 s, insert_literal ins l0 e s = Some s) /\
      (forall L `(StrLookup L) (lookup : L), decode_term lookup e = Some (Ok (TermLiteral l)))
  | _, _ => False
  end.

Lemma decode_native_printed (text : bytes) (name : string) :
  XSD name <> XSD_STRING -> XSD name <> RDF_LANG_STRING -> XSD name <> RDF_DIR_LANG_STRING ->
  decode_native (Some text) (XSD name) = Some (Ok (TermLiteral (TypedLiteral text (XSD name)))).
Proof.
  intros H1 H2 H3. unfold decode_native, Literal_new_typed_literal, Literal_try_new_typed_literal,
    invalid_typed_literal_datatype, Literal_new_typed_literal_validated.
  by rewrite !bool_decide_eq_false_2.
Qed.

(** Parsing gives [enc a], which decodes as the printed [a]. *)
Lemma native_printed {A : Type} (enc : A -> EncodedTerm) (parse : bytes -> option A)
  (print : A -> option bytes) (name : string) (v : bytes) :
  (forall a, parse v = Some a -> is_Some (print a)) ->
  (forall a S (ins : StrHash -> bytes -> S -> option S) l0 s, insert_literal ins l0 (enc a) s = Some s) ->
  (forall a L `(StrLookup L) (lookup : L), decode_term lookup (enc a) = decode_native (print a) (XSD name)) ->
  XSD name <> XSD_STRING -> XSD name <> RDF_LANG_STRING -> XSD name <> RDF_DIR_LANG_STRING ->
  native_ok (enc <$> parse v) (printed parse print name v).
Proof.
  intros Hp Hi Hd H1 H2 H3. unfold printed. destruct (parse v) as [a|] eqn:E; [|done]. simpl.
  destruct (Hp a eq_refl) as [text Et]. rewrite Et. simpl. split; [apply Hi|].
  intros L HL lookup. by rewrite Hd, Et, decode_native_printed.
Qed.

Ltac native_by enc :=
  match goal with
  | |- native_ok _ (printed ?parse ?print ?name ?v) =>
      apply (native_printed enc parse print name v);
        [|by intros ? ? ? []|done|by vm_compute..]
  end.
Ltac native enc := native_by enc; by eauto.

Lemma integer_native (v : bytes) : native_ok (parse_integer_str v) (integer_form v).
Proof. unfold integer_form. native IntegerLiteral. Qed.
Lemma date_time_native (v : bytes) : native_ok (parse_date_time_str v) (date_time_form v).
Proof. unfold date_time_form. native DateTimeLiteral. Qed.
Lemma duration_native (v : bytes) :
  native_ok (parse_duration_str v)
    (printed (fun v => ok (Duration_from_str v)) Duration_fmt "duration" v).
Proof.
  native_by DurationLiteral. intros d Hd.
  destruct (Duration_from_str v) as [d'|] eqn:E; [|done]. injection Hd as ->.
  destruct (Duration_fmt_parses d) as (text & -> & _); [by eapply Duration_from_str_wf|eauto].
Qed.
Lemma year_month_duration_native (v : bytes) :
  native_ok (parse_year_month_duration_str v)
    (printed (fun v => ok (YearMonthDuration_from_str v)) YearMonthDuration_fmt "yearMonthDuration" v).
Proof.
  native_by YearMonthDurationLiteral. intros d Hd.
  destruct (YearMonthDuration_from_str v) as [d'|] eqn:E; [|done]. injection Hd as ->.
  unfold YearMonthDuration_fmt. destruct (_ =? 0); [by eauto|].
  destruct (Duration_fmt_parses (Duration_from_year_month d)) as (text & -> & _);
    [by eapply YearMonthDuration_from_str_wf|eauto].
Qed.
Lemma day_time_duration_native (v : bytes) :
  native_ok (parse_day_time_duration_str v)
    (printed (fun v => ok (DayTimeDuration_from_str v)) DayTimeDuration_fmt "dayTimeDuration" v).
Proof.
  native_by DayTimeDurationLiteral. intros d Hd.
  destruct (DayTimeDuration_from_str v) as [d'|] eqn:E; [|done]. injection Hd as ->.
  unfold DayTimeDuration_fmt. destruct (Duration_fmt_parses (Duration_from_day_time d)) as (text & -> & _);
    [by eapply DayTimeDuration_from_str_wf|eauto].
Qed.

(** The parsers of the encoder and the canonical forms, side by side. *)
Lemma native_lists :
  Forall2 (fun p f => p.1 = f.1 /\ (p.1 <> "string"%string -> forall v, native_ok (p.2 v) (f.2 v)))
    native_parsers native_forms.
Proof.
  repeat apply Forall2_cons_2; try apply Forall2_nil_2; (split; [done|intros Hs v; cbn [fst snd] in *]);
    try (by apply integer_native); try (by apply date_time_native); try (by apply duration_native);
    try (by apply year_month_duration_native); try (by apply day_time_duration_native).
  - native BooleanLiteral.
  - done.
  - native FloatLiteral.
  - native DoubleLiteral.
  - native DecimalLiteral.
  - native TimeLiteral.
  - native DateLiteral.
  - native GYearMonthLiteral.
  - native GYearLiteral.
  - native GMonthDayLiteral.
  - native GDayLiteral.
  - native GMonthLiteral.
Qed.

Lemma parse_native_form (datatype : RdfNamedNode) (value : bytes) :
  datatype <> XSD_STRING ->
  native_ok (parse_native native_parsers datatype value) (find_form native_forms datatype value).
Proof.
  intros Hd. pose proof native_lists as Hl. induction Hl as [|[n p] [n' f] ps fs [Hn Hok] _ IH]; [done|].
  simpl in Hn, Hok |- *. subst n'. case_bool_decide as E; [|done]. apply Hok. intros ->. by apply Hd.
Qed.
End canonical.

(** ** The dictionary *)

Section dictionary.
Context `{EncoderParams}.

(** Two of the strings, or one of them and a string of the dictionary, have one
    hash. *)
Definition collides (ss : list bytes) (d : gmap StrHash bytes) : Prop :=
  exists a b, a <> b /\ StrHash_new a = StrHash_new b /\ a ∈ ss /\ (b ∈ ss \/ d !! StrHash_new b = Some b).
(** Every string is under its hash. *)
Definition dictionary_ok (d : gmap StrHash bytes) : Prop :=
  forall k v, d !! k = Some v -> k = StrHash_new v.
(** The decoder finds these strings. *)
Definition knows {L : Type} `{StrLookup L} (lookup : L) (ss : list bytes) : Prop :=
  forall s, s ∈ ss -> get_str lookup (StrHash_new s) = Ok (Some s).

Fixpoint insert_all (ss : list bytes) (d : gmap StrHash bytes) : option (gmap StrHash bytes) :=
  match ss with
  | [] => Some d
  | s :: ss => d ← insert_str (StrHash_new s) s d; insert_all ss d
  end.
Lemma insert_all_app (ss ss' : list bytes) (d : gmap StrHash bytes) :
  insert_all (ss ++ ss') d = (d ← insert_all ss d; insert_all ss' d).
Proof. revert d. induction ss as [|s ss IH]; intros d; simpl; [done|]. by destruct (insert_str _ _ _); simpl. Qed.

Lemma insert_str_ok (s : bytes) (d d' : gmap StrHash bytes) :
  insert_str (StrHash_new s) s d = Some d' ->
  (dictionary_ok d -> dictionary_ok d') /\ d ⊆ d' /\ d' !! StrHash_new s = Some s /\
  forall k v, d' !! k = Some v -> d !! k = Some v \/ v = s.
Proof.
  unfold insert_str. destruct (d !! StrHash_new s) as [s'|] eqn:E.
  - case_bool_decide as Es; [|done]. intros [= <-]. subst. split_and!; eauto.
  - intros [= <-]. split_and!; [|by apply insert_subseteq|apply lookup_insert_eq|].
    + intros Hd k v. rewrite lookup_insert. case_decide; [by intros [= <-]|apply Hd].
    + intros k v. rewrite lookup_insert. case_decide; [intros [= <-]; by right|by left].
Qed.
Lemma insert_all_ok (ss : list bytes) (d d' : gmap StrHash bytes) :
  insert_all ss d = Some d' ->
  (dictionary_ok d -> dictionary_ok d') /\ d ⊆ d' /\ (forall s, s ∈ ss -> d' !! StrHash_new s = Some s).
Proof.
  revert d. induction ss as [|s ss IH]; intros d; simpl; [intros [= <-]; set_solver|].
  destruct (insert_str _ s d) as [d1|] eqn:E1; [|done]. simpl. intros Hi.
  destruct (insert_str_ok s d d1 E1) as (Hok & Hsub & Hs & _), (IH d1 Hi) as (Hok' & Hsub' & Hss).
  split_and!; [auto|by etransitivity|]. intros s' [->|Hin]%elem_of_cons; [by eapply lookup_weaken|by apply Hss].
Qed.
(** An insertion fails only on a collision. *)
Lemma insert_all_collides (ss : list bytes) (d : gmap StrHash bytes) :
  dictionary_ok d -> insert_all ss d = None -> collides ss d.
Proof.
  revert d. induction ss as [|s ss IH]; intros d Hd; [done|]. simpl. destruct (insert_str _ s d) as [d1|] eqn:E1.
  - simpl. intros Hi. destruct (insert_str_ok s d d1 E1) as (Hok & _ & _ & Hv).
    destruct (IH d1 (Hok Hd) Hi) as (a & b & Hn & Hh & Ha & Hb). exists a, b. split_and!; [done|done|by right|].
    destruct Hb as [Hb|Hb]; [left; by right|]. destruct (Hv _ _ Hb) as [?| ->]; [by right|left; by left].
  - intros _. unfold insert_str in E1. destruct (d !! StrHash_new s) as [s'|] eqn:E; [|done].
    case_bool_decide as Hn; [done|]. exists s, s'. pose proof (Hd _ _ E) as Hh. split_and!; [congruence|done|by left|].
    right. by rewrite <- Hh.
Qed.

(** The strings of a term. *)
Definition blank_node_strings (n : RdfBlankNode) : list bytes := [BlankNode_as_str n].
Definition node_strings (n : RdfNamedOrBlankNode) : list bytes :=
  match n with NodeNamed n => [NamedNode_as_str n] | NodeBlank n => blank_node_strings n end.
Definition literal_strings (l : RdfLiteral) : list bytes :=
  Literal_value l :: NamedNode_as_str (Literal_datatype l) :: option_list (Literal_language l).
Fixpoint term_strings (t : RdfTerm) : list bytes :=
  match t with
  | TermNamedNode n => [NamedNode_as_str n]
  | TermBlankNode n => blank_node_strings n
  | TermLiteral l => literal_strings l
  | TermTriple s p o => node_strings s ++ NamedNode_as_str p :: term_strings o
  end.
Definition graph_name_strings (g : RdfGraphName) : list bytes :=
  match g with GraphNamedNode n => [NamedNode_as_str n] | GraphBlankNode n => blank_node_strings n | GraphDefault => [] end.
Definition quad_strings (q : RdfQuad) : list bytes :=
  node_strings (q_subject q) ++ NamedNode_as_str (q_predicate q) :: term_strings (q_object q) ++ graph_name_strings (q_graph_name q).

(** An insertion adds some of these strings, each under its hash. *)
Definition inserts (insert : gmap StrHash bytes -> option (gmap StrHash bytes)) (all : list bytes) : Prop :=
  exists ss, ss ⊆ all /\ forall d, insert d = insert_all ss d.
Lemma inserts_collides insert all d : inserts insert all -> dictionary_ok d -> insert d = None -> collides all d.
Proof.
  intros (ss & Hss & Hi) Hd E. rewrite Hi in E. destruct (insert_all_collides ss d Hd E) as (a & b & ? & ? & ? & Hb).
  exists a, b. destruct Hb as [Hb|Hb]; split_and!; eauto.
Qed.
Lemma inserts_ok insert all d d' : inserts insert all -> insert d = Some d' -> dictionary_ok d -> dictionary_ok d' /\ d ⊆ d'.
Proof. intros (ss & _ & Hi) E Hd. rewrite Hi in E. apply insert_all_ok in E as (Hok & ? & _). auto. Qed.
Lemma inserts_none all : inserts Some all.
Proof. exists []. split; [set_solver|done]. Qed.
Lemma inserts_bind f g all all' :
  inserts f all -> inserts g all' -> inserts (fun d => d' ← f d; g d') (all ++ all').
Proof.
  intros (ss & Hss & Hf) (ss' & Hss' & Hg). exists (ss ++ ss'). split; [set_solver|].
  intros d. rewrite insert_all_app, <- Hf. destruct (f d); simpl; auto.
Qed.

(** What a term adds to the dictionary, and that the decoder needs no more. *)
Definition encodes (insert : gmap StrHash bytes -> option (gmap StrHash bytes)) (encoded : EncodedTerm)
  (ss : list bytes) (t : RdfTerm) : Prop :=
  (forall d, insert d = insert_all ss d) /\
  forall L `(StrLookup L) (lookup : L), knows lookup ss -> decode_term lookup encoded = Some (Ok t).

Lemma insert_one (s : bytes) (d : gmap StrHash bytes) :
  insert_str (StrHash_new s) s d = insert_all [s] d.
Proof. simpl. by destruct (insert_str _ _ _). Qed.
Lemma knows_get {L : Type} `{StrLookup L} (lookup : L) (ss : list bytes) (s : bytes) :
  knows lookup ss -> s ∈ ss -> get_required_str lookup (StrHash_new s) = Some (Ok s).
Proof. intros Hk Hs. unfold get_required_str. by rewrite (Hk s Hs). Qed.

Ltac decodes :=
  cbn [decode_term decode_flat_term];
  repeat match goal with
  | H : knows ?lookup ?ss |- context [get_required_str ?lookup (StrHash_new ?s)] =>
      rewrite (knows_get lookup ss s H) by set_solver
  end; cbn [and_then returns].

Lemma named_node_encodes (n : RdfNamedNode) :
  encodes (insert_named_node insert_str n (EncodedTerm_from_named_node n)) (EncodedTerm_from_named_node n)
    [NamedNode_as_str n] (TermNamedNode n).
Proof.
  split; [intros d; apply insert_one|]. intros L HL lookup Hk.
  unfold EncodedTerm_from_named_node. decodes. by destruct n.
Qed.
Lemma blank_node_encodes (n : RdfBlankNode) :
  blank_node_valid n ->
  exists ss, encodes (insert_blank_node insert_str n (EncodedTerm_from_blank_node n))
    (EncodedTerm_from_blank_node n) ss (TermBlankNode n).
Proof.
  intros Hn. unfold EncodedTerm_from_blank_node. destruct n as [id|id s]; simpl in *.
  - assert (BlankNode_new_unchecked id = BlankNamed id) as Hb by (unfold BlankNode_new_unchecked; by rewrite Hn).
    destruct (SmallString_from_str id) as [s|] eqn:E.
    + exists []. split; [done|]. intros L HL lookup _. simpl. by rewrite (SmallString_as_str_from _ _ E), Hb.
    + exists [id]. split; [intros d; apply insert_one|]. intros L HL lookup Hk. decodes.
      by rewrite Hb.
  - destruct Hn as [Hin ->]. exists []. split; [done|]. intros L HL lookup _. simpl.
    unfold BlankNode_new_from_unique_id. rewrite from_to_be_bytes by done. done.
Qed.

(** *** Literals *)

(** The insertion of two strings. *)
Lemma insert_two (a b : bytes) (d : gmap StrHash bytes) :
  (d ← insert_str (StrHash_new a) a d; insert_str (StrHash_new b) b d) = insert_all [a; b] d.
Proof. simpl. destruct (insert_str _ a d) as [d'|]; simpl; [|done]. by destruct (insert_str _ b d'). Qed.

Lemma string_encodes (v : bytes) :
  exists ss, encodes (insert_literal insert_str (LiteralString v) (EncodedTerm_from_literal (LiteralString v)))
    (EncodedTerm_from_literal (LiteralString v)) ss (TermLiteral (LiteralString v)).
Proof.
  assert (EncodedTerm_from_literal (LiteralString v)
    = match SmallString_from_str v with Ok s => SmallStringLiteral s | Err _ => BigStringLiteral (StrHash_new v) end)
    as -> by reflexivity.
  destruct (SmallString_from_str v) as [s|] eqn:E.
  - exists []. split; [done|]. intros L HL lookup _. decodes. by rewrite (SmallString_as_str_from _ _ E).
  - exists [v]. split; [intros d; apply insert_one|]. intros L HL lookup Hk. by decodes.
Qed.

(** The parts of a language-tagged string. *)
Definition stored (s : bytes) (p : SmallString + StrHash) : list bytes :=
  match p with inl _ => [] | inr _ => [s] end.
Definition store_part (s : bytes) : SmallString + StrHash :=
  match SmallString_from_str s with Ok small => inl small | Err _ => inr (StrHash_new s) end.
Lemma part_stored {L : Type} `{StrLookup L} (lookup : L) (s : bytes) (ss : list bytes) :
  knows lookup ss -> (forall x, x ∈ stored s (store_part s) -> x ∈ ss) ->
  part lookup (store_part s) = Some (Ok s).
Proof.
  intros Hk Hs. unfold store_part in *. destruct (SmallString_from_str s) as [small|] eqn:E; simpl in *.
  - unfold returns. by rewrite (SmallString_as_str_from _ _ E).
  - apply (knows_get lookup ss); [done|]. apply Hs. set_solver.
Qed.

(** A tagged string whose encoding is [enc], one of the quadruples of
    constructors, and whose decoding is [dec]. *)
Lemma tagged_encodes (l : RdfLiteral) (v language : bytes) ss bs sb bb
  (dec : forall L, StrLookup L -> L -> SmallString + StrHash -> SmallString + StrHash -> fallible RdfTerm) :
  EncodedTerm_from_literal l = lang_string ss sb bs bb v language ->
  (forall d x y, insert_literal insert_str l (ss x y) d = Some d) ->
  (forall d x, insert_literal insert_str l (sb x (StrHash_new language)) d = insert_all [language] d) ->
  (forall d x, insert_literal insert_str l (bs (StrHash_new v) x) d = insert_all [v] d) ->
  (forall d, insert_literal insert_str l (bb (StrHash_new v) (StrHash_new language)) d = insert_all [v; language] d) ->
  (forall L (HL : StrLookup L) (lookup : L) a b x y,
     decode_term lookup (ss a b) = dec L HL lookup (inl a) (inl b) /\
     decode_term lookup (sb a y) = dec L HL lookup (inl a) (inr y) /\
     decode_term lookup (bs x b) = dec L HL lookup (inr x) (inl b) /\
     decode_term lookup (bb x y) = dec L HL lookup (inr x) (inr y)) ->
  (forall L (HL : StrLookup L) (lookup : L) p q,
     part lookup p = Some (Ok v) -> part lookup q = Some (Ok language) ->
     dec L HL lookup p q = Some (Ok (TermLiteral l))) ->
  exists strings, encodes (insert_literal insert_str l (EncodedTerm_from_literal l)) (EncodedTerm_from_literal l)
    strings (TermLiteral l).
Proof.
  intros -> H1 H2 H3 H4 Hd Hok. exists (stored v (store_part v) ++ stored language (store_part language)).
  split.
  - intros d. unfold lang_string, store_part.
    by destruct (SmallString_from_str v), (SmallString_from_str language).
  - intros L HL lookup Hk.
    assert (decode_term lookup (lang_string ss sb bs bb v language)
      = dec L HL lookup (store_part v) (store_part language)) as ->.
    { pose proof (Hd L HL lookup) as Hd'. unfold lang_string, store_part.
      destruct (SmallString_from_str v), (SmallString_from_str language); by eapply Hd'. }
    apply Hok; apply (part_stored lookup _ _ Hk); set_solver.
  Unshelve. all: exact (StrHash_new v) || exact (mkSmallString []).
Qed.

Ltac tagged enc ss sb bs bb v language dec :=
  apply (tagged_encodes enc v language ss bs sb bb dec);
  [reflexivity|done|by intros; rewrite <- insert_one|by intros; rewrite <- insert_one
  |by intros; rewrite <- insert_two|done|].

Lemma lang_encodes (v language : bytes) :
  let l := LanguageTaggedString v language in
  exists ss, encodes (insert_literal insert_str l (EncodedTerm_from_literal l)) (EncodedTerm_from_literal l)
    ss (TermLiteral l).
Proof.
  intros l. tagged l SmallSmallLangStringLiteral SmallBigLangStringLiteral BigSmallLangStringLiteral
    BigBigLangStringLiteral v language (fun L (HL : StrLookup L) (lookup : L) p q => decode_lang lookup p q).
  intros L HL lookup p q Hp Hq. unfold decode_lang. by rewrite Hp, Hq.
Qed.
Lemma dir_lang_encodes (v language : bytes) (direction : BaseDirection) :
  let l := DirectionalLanguageTaggedString v language direction in
  exists ss, encodes (insert_literal insert_str l (EncodedTerm_from_literal l)) (EncodedTerm_from_literal l)
    ss (TermLiteral l).
Proof.
  intros l. destruct direction.
  - tagged l LtrSmallSmallDirLangStringLiteral LtrSmallBigDirLangStringLiteral LtrBigSmallDirLangStringLiteral
      LtrBigBigDirLangStringLiteral v language
      (fun L (HL : StrLookup L) (lookup : L) p q => decode_dir lookup p q Ltr).
    intros L HL lookup p q Hp Hq. unfold decode_dir. by rewrite Hp, Hq.
  - tagged l RtlSmallSmallDirLangStringLiteral RtlSmallBigDirLangStringLiteral RtlBigSmallDirLangStringLiteral
      RtlBigBigDirLangStringLiteral v language
      (fun L (HL : StrLookup L) (lookup : L) p q => decode_dir lookup p q Rtl).
    intros L HL lookup p q Hp Hq. unfold decode_dir. by rewrite Hp, Hq.
Qed.

Lemma typed_encodes (v : bytes) (datatype : RdfNamedNode) :
  let l := TypedLiteral v datatype in
  literal_valid l ->
  exists ss, encodes (insert_literal insert_str l (EncodedTerm_from_literal l)) (EncodedTerm_from_literal l)
    ss (TermLiteral (canonical_literal l)).
Proof.
  intros l (H1 & H2 & H3). pose proof (parse_native_form datatype v H1) as Hn. unfold EncodedTerm_from_literal.
  assert (native_encoding l = parse_native native_parsers datatype v) as ->.
  { unfold native_encoding, l, Literal_datatype, Literal_value. by rewrite !bool_decide_eq_false_2 by done. }
  unfold canonical_literal. cbn [l].
  destruct (parse_native native_parsers datatype v) as [e|], (find_form native_forms datatype v) as [l'|]; try done.
  - destruct Hn as [Hi Hd]. exists []. split; [intros d; apply Hi|]. intros L HL lookup _. apply Hd.
  - assert (decode_typed v (NamedNode_as_str datatype) = Some (Ok (TermLiteral l))) as Hd.
    { unfold decode_typed, Literal_try_new_typed_literal, invalid_typed_literal_datatype,
        Literal_new_typed_literal_validated. destruct datatype as [iri]. simpl in *.
      by rewrite !bool_decide_eq_false_2. }
    simpl. destruct (SmallString_from_str v) as [s|] eqn:E.
    + exists [NamedNode_as_str datatype]. split; [intros d; apply insert_one|]. intros L HL lookup Hk. decodes.
      by rewrite (SmallString_as_str_from _ _ E).
    + exists [v; NamedNode_as_str datatype]. split; [intros d; apply insert_two|].
      intros L HL lookup Hk. by decodes.
Qed.

Lemma literal_encodes (l : RdfLiteral) :
  literal_valid l ->
  exists ss, encodes (insert_literal insert_str l (EncodedTerm_from_literal l)) (EncodedTerm_from_literal l)
    ss (TermLiteral (canonical_literal l)).
Proof.
  intros Hl. destruct l; [apply string_encodes|apply lang_encodes|apply dir_lang_encodes|by apply typed_encodes].
Qed.

(** *** The strings an insertion adds, of any term *)

Lemma inserts_one x all : x ∈ all -> inserts (insert_str (StrHash_new x) x) all.
Proof. intros Hx. exists [x]. split; [set_solver|]. intros d. apply insert_one. Qed.
Lemma inserts_two x y all :
  x ∈ all -> y ∈ all -> inserts (fun d => d ← insert_str (StrHash_new x) x d; insert_str (StrHash_new y) y d) all.
Proof. intros Hx Hy. exists [x; y]. split; [set_solver|]. intros d. apply insert_two. Qed.
Lemma inserts_weaken f all all' : inserts f all -> all ⊆ all' -> inserts f all'.
Proof. intros (ss & Hss & Hf) Hs. exists ss. split; [set_solver|done]. Qed.
Lemma named_node_inserts (n : RdfNamedNode) :
  inserts (insert_named_node insert_str n (EncodedTerm_from_named_node n)) [NamedNode_as_str n].
Proof. apply inserts_one. set_solver. Qed.
Lemma blank_node_inserts (n : RdfBlankNode) :
  inserts (insert_blank_node insert_str n (EncodedTerm_from_blank_node n)) (blank_node_strings n).
Proof.
  unfold EncodedTerm_from_blank_node. destruct (BlankNode_unique_id n); [apply inserts_none|].
  destruct (SmallString_from_str _); [apply inserts_none|]. apply inserts_one. set_solver.
Qed.
Lemma node_inserts (n : RdfNamedOrBlankNode) :
  inserts (insert_node insert_str n (EncodedTerm_from_node n)) (node_strings n).
Proof. destruct n; [apply named_node_inserts|apply blank_node_inserts]. Qed.
(** A native value needs no string, but for a long xsd:string. *)
Lemma parse_native_inserts (l : RdfLiteral) (datatype : RdfNamedNode) (e : EncodedTerm) :
  parse_native native_parsers datatype (Literal_value l) = Some e -> inserts (insert_literal insert_str l e) (literal_strings l).
Proof.
  assert (Forall (fun p => forall e, p.2 (Literal_value l) = Some e -> inserts (insert_literal insert_str l e) (literal_strings l))
    native_parsers) as Hf.
  { repeat constructor; cbn [fst snd]; intros e'.
    all: try (match goal with |- @parse_float_str _ _ = _ -> _ => unfold parse_float_str
      | |- @parse_double_str _ _ = _ -> _ => unfold parse_double_str | |- ?f _ = _ -> _ => unfold f end;
      match goal with |- ?c <$> ?o = _ -> _ => destruct o as [x|]; [|done] end; intros [= <-];
      destruct l; apply inserts_none).
    intros [= <-]. destruct (SmallString_from_str _); [destruct l; apply inserts_none|].
    destruct l; apply inserts_one; set_solver. }
  induction Hf as [|[name parse] ps Hp _ IH]; simpl; [done|]. case_bool_decide; auto.
Qed.
Lemma literal_inserts (l : RdfLiteral) :
  inserts (insert_literal insert_str l (EncodedTerm_from_literal l)) (literal_strings l).
Proof.
  unfold EncodedTerm_from_literal, native_encoding.
  assert (forall v d, Literal_destruct l = (v, Some d, None, None) -> inserts (insert_literal insert_str l
    match SmallString_from_str (Literal_value l) with
    | Ok value => SmallTypedLiteral value (StrHash_new (NamedNode_as_str (Literal_datatype l)))
    | Err _ => BigTypedLiteral (StrHash_new (Literal_value l)) (StrHash_new (NamedNode_as_str (Literal_datatype l)))
    end) (literal_strings l)) as Ht.
  { intros v d Hl. destruct l; try done. destruct (SmallString_from_str _).
    - apply inserts_one. set_solver.
    - apply inserts_two; set_solver. }
  destruct l as [v|v language|v language direction|v d]; cbn [Literal_datatype Literal_value Literal_language Literal_direction].
  - cbn -[parse_native]. destruct (parse_native _ _ _) as [e|] eqn:E; [by eapply parse_native_inserts|done].
  - cbn -[lang_string]. unfold lang_string. destruct (SmallString_from_str v), (SmallString_from_str language).
    + apply inserts_none.
    + apply inserts_one; set_solver.
    + apply inserts_one; set_solver.
    + apply inserts_two; set_solver.
  - cbn -[lang_string]. destruct direction; unfold lang_string; destruct (SmallString_from_str v), (SmallString_from_str language).
    1,5: apply inserts_none.
    1,2,4,5: apply inserts_one; set_solver.
    all: apply inserts_two; set_solver.
  - case_bool_decide; [by eapply Ht|]. case_bool_decide; [by eapply Ht|].
    destruct (parse_native _ _ _) as [e|] eqn:E; [by eapply (parse_native_inserts (TypedLiteral v d))|by eapply Ht].
Qed.
Lemma term_inserts (t : RdfTerm) : inserts (insert_term insert_str t (EncodedTerm_from_term t)) (term_strings t).
Proof.
  induction t as [n|n|l|s p o IH].
  - apply named_node_inserts.
  - apply blank_node_inserts.
  - apply literal_inserts.
  - apply (inserts_bind _ (fun d => d ← insert_named_node insert_str p (EncodedTerm_from_named_node p) d; insert_term insert_str o (EncodedTerm_from_term o) d));
      [apply node_inserts|]. apply (inserts_bind _ _ [NamedNode_as_str p]); [apply named_node_inserts|done].
Qed.
Lemma quad_inserts (q : RdfQuad) (new : bool) : inserts (insert_quad_terms q new) (quad_strings q).
Proof.
  unfold insert_quad_terms, quad_strings.
  apply (inserts_bind _ (fun d => d ← insert_named_node insert_str (q_predicate q) (quad_predicate (EncodedQuad_from_quad q)) d; _));
    [apply node_inserts|].
  apply (inserts_bind _ (fun d => d ← insert_term insert_str (q_object q) (quad_object (EncodedQuad_from_quad q)) d; _) [NamedNode_as_str _]);
    [apply named_node_inserts|].
  apply (inserts_bind _ (fun d => if new then _ else Some d)); [apply term_inserts|].
  destruct new; [|apply inserts_none]. cbn [quad_graph_name EncodedQuad_from_quad].
  destruct (q_graph_name q); [apply named_node_inserts|apply blank_node_inserts|apply inserts_none].
Qed.

(** *** Terms and quads *)

Lemma node_encodes (n : RdfNamedOrBlankNode) :
  node_valid n ->
  exists ss, encodes (insert_node insert_str n (EncodedTerm_from_node n)) (EncodedTerm_from_node n) ss
    (Term_from_node n).
Proof. destruct n as [n|n]; intros Hn; [eexists; apply named_node_encodes|by apply blank_node_encodes]. Qed.

Lemma knows_app {L : Type} `{StrLookup L} (lookup : L) (ss ss' : list bytes) :
  knows lookup (ss ++ ss') <-> knows lookup ss /\ knows lookup ss'.
Proof. unfold knows. set_solver. Qed.

Lemma decode_node {L : Type} `{StrLookup L} (lookup : L) (n : RdfNamedOrBlankNode) :
  decode_term lookup (EncodedTerm_from_node n) = Some (Ok (Term_from_node n)) ->
  decode_named_or_blank_node lookup (EncodedTerm_from_node n) = Some (Ok n).
Proof. intros E. unfold decode_named_or_blank_node. rewrite E. by destruct n. Qed.
Lemma decode_named {L : Type} `{StrLookup L} (lookup : L) (n : RdfNamedNode) :
  decode_term lookup (EncodedTerm_from_named_node n) = Some (Ok (TermNamedNode n)) ->
  decode_named_node lookup (EncodedTerm_from_named_node n) = Some (Ok n).
Proof. intros E. unfold decode_named_node. by rewrite E. Qed.

Lemma term_encodes (t : RdfTerm) :
  term_valid t ->
  exists ss, encodes (insert_term insert_str t (EncodedTerm_from_term t)) (EncodedTerm_from_term t) ss
    (canonical_term t).
Proof.
  induction t as [n|n|l|s p o IH]; intros Ht.
  - eexists. apply named_node_encodes.
  - by apply blank_node_encodes.
  - by apply literal_encodes.
  - destruct Ht as [Hs Ho]. destruct (node_encodes s Hs) as (ss1 & Hi1 & Hd1), (IH Ho) as (ss3 & Hi3 & Hd3).
    destruct (named_node_encodes p) as [Hi2 Hd2].
    exists (ss1 ++ [NamedNode_as_str p] ++ ss3). split.
    + intros d. cbn [insert_term EncodedTerm_from_term]. rewrite insert_all_app, Hi1.
      destruct (insert_all ss1 d) as [d1|]; [|done]. cbn [mbind option_bind].
      rewrite insert_all_app, Hi2. destruct (insert_all [NamedNode_as_str p] d1) as [d2|]; [|done]. apply Hi3.
    + intros L HL lookup Hk. apply knows_app in Hk as [Hk1 Hk]. apply knows_app in Hk as [Hk2 Hk3].
      cbn [decode_term EncodedTerm_from_term canonical_term].
      rewrite (decode_node lookup s (Hd1 L HL lookup Hk1) : and_then _ as_named_or_blank_node = _).
      rewrite (decode_named lookup p (Hd2 L HL lookup Hk2) : and_then _ as_named_node = _).
      cbn [and_then]. by rewrite (Hd3 L HL lookup Hk3).
Qed.

(** The strings of a quad, and those of its graph name, which are added when the
    graph is new. *)
Definition quad_encodes (q : RdfQuad) (ss gs : list bytes) : Prop :=
  (forall new d, insert_quad_terms q new d = insert_all (ss ++ if (new : bool) then gs else []) d) /\
  forall L `(StrLookup L) (lookup : L), knows lookup (ss ++ gs) ->
    decode_quad lookup (EncodedQuad_from_quad q) = Some (Ok (canonical_quad q)).

Lemma graph_name_encodes (g : RdfGraphName) :
  graph_name_valid g ->
  exists gs,
    (forall d, match g with
               | GraphNamedNode n => insert_named_node insert_str n (EncodedTerm_from_graph_name g) d
               | GraphBlankNode n => insert_blank_node insert_str n (EncodedTerm_from_graph_name g) d
               | GraphDefault => Some d
               end = insert_all gs d) /\
    forall L `(StrLookup L) (lookup : L), knows lookup gs ->
      (if EncodedTerm_eq (EncodedTerm_from_graph_name g) DefaultGraph then returns GraphDefault
       else and_then (decode_term lookup (EncodedTerm_from_graph_name g)) as_graph_name) = Some (Ok g).
Proof.
  destruct g as [n|n|]; intros Hg.
  - destruct (named_node_encodes n) as [Hi Hd]. eexists. split; [exact Hi|]. intros L HL lookup Hk.
    specialize (Hd L HL lookup Hk). cbn [EncodedTerm_from_graph_name]. by rewrite Hd.
  - destruct (blank_node_encodes n Hg) as (gs & Hi & Hd). exists gs. split; [done|]. intros L HL lookup Hk.
    specialize (Hd L HL lookup Hk). cbn [EncodedTerm_from_graph_name]. rewrite Hd.
    unfold EncodedTerm_from_blank_node. destruct (BlankNode_unique_id n); [done|].
    by destruct (SmallString_from_str _).
  - by exists [].
Qed.

Lemma quad_encodes_valid (q : RdfQuad) : quad_valid q -> exists ss gs, quad_encodes q ss gs.
Proof.
  destruct q as [s p o g]. intros (Hs & Ho & Hg). simpl in *.
  destruct (node_encodes s Hs) as (ss1 & Hi1 & Hd1), (term_encodes o Ho) as (ss3 & Hi3 & Hd3),
    (named_node_encodes p) as [Hi2 Hd2], (graph_name_encodes g Hg) as (gs & Hi4 & Hd4).
  exists (ss1 ++ [NamedNode_as_str p] ++ ss3), gs. split.
  - intros new d. unfold insert_quad_terms. cbn [q_subject q_predicate q_object q_graph_name quad_subject
      quad_predicate quad_object quad_graph_name EncodedQuad_from_quad]. rewrite !insert_all_app, Hi1.
    destruct (insert_all ss1 d) as [d1|]; [|done]. cbn [mbind option_bind].
    rewrite insert_all_app, Hi2. destruct (insert_all [NamedNode_as_str p] d1) as [d2|]; [|done]. cbn [mbind option_bind].
    rewrite Hi3. destruct (insert_all ss3 d2) as [d3|]; [|done]. cbn [mbind option_bind].
    destruct new; [apply Hi4|done].
  - intros L HL lookup Hk. apply knows_app in Hk as [Hk Hk4]. apply knows_app in Hk as [Hk1 Hk].
    apply knows_app in Hk as [Hk2 Hk3]. unfold decode_quad, canonical_quad. cbn [q_subject q_predicate q_object
      q_graph_name quad_subject quad_predicate quad_object quad_graph_name EncodedQuad_from_quad].
    rewrite (decode_node lookup s (Hd1 L HL lookup Hk1)). cbn [and_then].
    rewrite (decode_named lookup p (Hd2 L HL lookup Hk2)). cbn [and_then].
    rewrite (Hd3 L HL lookup Hk3). cbn [and_then]. by rewrite (Hd4 L HL lookup Hk4).
Qed.

(** The strings of a dictionary are those the store looks up. *)
Lemma knows_dictionary (s : MemoryStorage) (d : gmap StrHash bytes) (ss : list bytes) :
  d ⊆ id2str s -> (forall x, x ∈ ss -> d !! StrHash_new x = Some x) -> knows s ss.
Proof. intros Hs Hss x Hx. unfold get_str, Reader_get_str. by rewrite (lookup_weaken _ _ _ _ (Hss x Hx) Hs). Qed.

End dictionary.

(** ** Round trip *)

(** C29. Encoding a term, adding its strings to the dictionary and decoding gives
    the canonical form of the term back, for ever: as long as the dictionary only
    grows.  The insertion fails only if a string of the term has the hash of
    another one of its strings or of another string of the dictionary. *)
Theorem decode_encoded_term `{EncoderParams} (term : RdfTerm) (d : gmap StrHash bytes) :
  term_valid term -> dictionary_ok d ->
  match insert_term insert_str term (EncodedTerm_from_term term) d with
  | Some d' =>
      dictionary_ok d' /\ d ⊆ d' /\
      forall s, d' ⊆ id2str s -> decode_term s (EncodedTerm_from_term term) = Some (Ok (canonical_term term))
  | None => collides (term_strings term) d
  end.
Proof.
  intros Ht Hd. destruct (term_encodes term Ht) as (ss & Hi & Hdec).
  destruct (insert_term _ _ _ d) as [d'|] eqn:E; [|by apply (inserts_collides _ _ _ (term_inserts term))].
  rewrite Hi in E. apply insert_all_ok in E as (Hok & Hsub & Hss). split_and!; [auto|done|].
  intros s Hs. apply Hdec. by apply (knows_dictionary s d').
Qed.

(** A hash that keeps the first 16 bytes, and no floats. *)
Definition sample_params : EncoderParams := {|
  StrHash_new s := mkStrHash (take 16 (s ++ replicate 16 Ascii.zero));
  Float_from_str _ := None;
  Float_to_string _ := str "NaN";
  Double_from_str _ := None;
  Double_to_string _ := str "NaN"
|}.
Definition sample_node (s : string) : RdfNamedNode := NamedNode_new_unchecked (str s).
(** A quoted triple with a literal of a derived integer type. *)
Definition sample_term : RdfTerm :=
  TermTriple (NodeBlank (BlankNode_new_unchecked (str "a1f"))) (sample_node "ex:p")
    (TermLiteral (TypedLiteral (str "+007") (XSD "byte"))).
Lemma decode_encoded_term_witness :
  canonical_term (H := sample_params) sample_term =
    TermTriple (NodeBlank (BlankNode_new_from_unique_id 2591)) (sample_node "ex:p")
      (TermLiteral (TypedLiteral (str "7") (XSD "integer"))) /\
  match insert_term insert_str sample_term (EncodedTerm_from_term (H := sample_params) sample_term) ∅ with
  | Some d' =>
      dictionary_ok (H := sample_params) d' /\ ∅ ⊆ d' /\
      forall s, d' ⊆ id2str s ->
        decode_term (H := sample_params) s (EncodedTerm_from_term (H := sample_params) sample_term)
        = Some (Ok (canonical_term (H := sample_params) sample_term))
  | None => collides (H := sample_params) (term_strings sample_term) ∅
  end /\
  match insert_term insert_str sample_term (EncodedTerm_from_term (H := sample_params) sample_term) (∅ : gmap StrHash bytes) with
  | Some _ => true
  | None => false
  end = true.
Proof.
  split; [by vm_compute|]. split; [|vm_compute; reflexivity]. apply decode_encoded_term.
  - by vm_compute.
  - by intros k v.
Defined.
