(* ===== verification/MemoryRangeFacts.v ===== *)
(** * Versions of the in-memory store

    Lemmas on the ranges of the store: what the changes of a transaction, its
    publication and its rollback do to what a reader at a version sees.  An entry
    of the store is named by the log entry that would record a change of it. *)
From S2P Require Import Prelude MachineInt EncodedTerm RdfModel NumericEncoder.
From S2P Require Import VersionRange StoreKeys MemoryStorage.
#[local] Open Scope Z_scope.

#[global] Instance LogEntry_eq_dec : EqDecision LogEntry.
Proof. solve_decision. Defined.

(** ** Entries *)

Definition entry_range (c : Content) (e : LogEntry) : option VersionRange :=
  match e with
  | LogQuadNode p => node_range <$> nodes c !! p
  | LogGraph g => graphs c !! g
  | LogNamespace m => namespaces c !! m
  end.

(** Replace the range of an entry that exists. *)
Definition set_entry (c : Content) (e : LogEntry) (r : VersionRange) : Content :=
  match e with
  | LogQuadNode p => set_nodes c (alter (fun n => set_range n r) p (nodes c))
  | LogGraph g => set_graphs c (<[g := r]> (graphs c))
  | LogNamespace m => set_namespaces c (<[m := r]> (namespaces c))
  end.

(** Whether a reader at version [v] sees the entry. *)
Definition entry_view (c : Content) (v : Z) (e : LogEntry) : bool :=
  match entry_range c e with Some r => VersionRange_contains r v | None => false end.

(** What ranges do not change: the quads, the chains and the keys of the maps. *)
Definition skeleton (c : Content)
  : list (EncodedQuad * option nat * (QuadPosition -> option nat)) :=
  (fun n => (node_quad n, node_previous n, node_previous_by n)) <$> nodes c.
Definition same_shape (c c' : Content) : Prop :=
  skeleton c' = skeleton c /\ quad_set c' = quad_set c /\ last_quad c' = last_quad c /\
  last_quad_by c' = last_quad_by c /\
  (forall g, is_Some (graphs c' !! g) <-> is_Some (graphs c !! g)) /\
  (forall m, is_Some (namespaces c' !! m) <-> is_Some (namespaces c !! m)).

#[global] Instance same_shape_preorder : PreOrder same_shape.
Proof.
  split; [by intros ?|]. intros a b c (?&?&?&?&Hg&Hn) (?&?&?&?&Hg'&Hn').
  split_and!; try congruence; intros; etransitivity; eauto.
Qed.

Lemma entry_range_set (c : Content) (e e' : LogEntry) (r r' : VersionRange) :
  entry_range c e = Some r ->
  entry_range (set_entry c e r') e' = if decide (e = e') then Some r' else entry_range c e'.
Proof.
  intros He. destruct (decide (e = e')) as [<-|Hne].
  - destruct e; simpl in *; try apply lookup_insert_eq.
    rewrite list_lookup_alter_eq. destruct (nodes c !! node); simpl in *; [done|discriminate].
  - destruct e, e'; simpl; try done; try (apply lookup_insert_ne; congruence).
    rewrite list_lookup_alter_ne by congruence. done.
Qed.

Lemma same_shape_set (c : Content) (e : LogEntry) (r r' : VersionRange) :
  entry_range c e = Some r -> same_shape c (set_entry c e r').
Proof.
  intros He. destruct e as [p|g|m]; repeat split; simpl in *; try done.
  - unfold skeleton. simpl. apply list_eq. intros i. rewrite !list_lookup_fmap.
    destruct (decide (p = i)) as [<-|]; [rewrite list_lookup_alter_eq|by rewrite list_lookup_alter_ne].
    by destruct (nodes c !! p).
  - rewrite lookup_insert. destruct (decide (g = g0)) as [<-|]; [|done]. by rewrite He.
  - rewrite lookup_insert. destruct (decide (g = g0)) as [<-|]; [|done]. intros; eauto.
  - rewrite lookup_insert. destruct (decide (m = m0)) as [<-|]; [|done]. by rewrite He.
  - rewrite lookup_insert. destruct (decide (m = m0)) as [<-|]; [|done]. intros; eauto.
Qed.

(** ** The invariant of the ranges

    At version [vc], with transaction [tid] running: a range is committed, or was
    toggled by the transaction and is in its log. *)
Definition range_ok (vc tid : Z) (r0 r : VersionRange) (logged : Prop) : Prop :=
  VersionRange_wf r0 /\ below r0 (vc + 1) /\ (r = r0 \/ (r = toggle r0 tid /\ logged)).
Definition ranges_ok (c : Content) (vc tid : Z) (log : list LogEntry) : Prop :=
  forall e r, entry_range c e = Some r -> exists r0, range_ok vc tid r0 r (e ∈ log).

Lemma range_ok_pending (vc tid : Z) (r0 r : VersionRange) (P : Prop) :
  vc < tid -> range_ok vc tid r0 r P -> VersionRange_wf r0 /\ below r0 tid /\ pending tid r0 r.
Proof.
  intros H (Hw & Hb & Hr). split; [done|]. split; [by apply (below_mono _ (vc + 1)); [lia|]|].
  destruct Hr as [->|[-> _]]; [by left|by right].
Qed.

(** A change of the transaction at versions before it and at the transaction. *)
Lemma pending_contains (vc tid v : Z) (r0 r : VersionRange) :
  v <= vc -> vc < tid -> pending tid r0 r ->
  VersionRange_contains r v = VersionRange_contains r0 v.
Proof. intros ? ? [->| ->]; [done|]. apply contains_toggle_before. lia. Qed.
Lemma pending_present (tid : Z) (r0 r : VersionRange) :
  below r0 tid -> pending tid r0 r -> VersionRange_contains r tid = present r.
Proof.
  intros Hb [->| ->].
  - apply contains_after. by apply (below_mono _ tid); [lia|].
  - apply contains_after. apply below_toggle; [done|lia].
Qed.

(** [add] and [remove] as one operation: make the entry present or absent. *)
Definition change_to (b : bool) : VersionRange -> Z -> VersionRange * bool :=
  if b then VersionRange_add else VersionRange_remove.

Lemma change_to_pending (b : bool) (vc tid : Z) (r0 r : VersionRange) (P Q : Prop) :
  vc < tid -> range_ok vc tid r0 r P -> (P -> Q) ->
  let '(r', changed) := change_to b r tid in
  (changed = true -> Q) -> range_ok vc tid r0 r' Q /\ present r' = b /\ changed = negb (Bool.eqb (present r) b).
Proof.
  intros Hv Hr HPQ. destruct (range_ok_pending _ _ _ _ _ Hv Hr) as (Hw & Hb & Hp).
  destruct Hr as (_ & Hb' & Hr). pose proof (present_toggle r0 tid) as Ht.
  assert (change_to b r tid = (if Bool.eqb (present r0) b then r0 else toggle r0 tid,
                               negb (Bool.eqb (present r) b))) as ->.
  { destruct b; simpl; [rewrite (add_pending tid r0) by done|rewrite (remove_pending tid r0) by done];
      by destruct (present r0), (present r). }
  intros HQ. split; [split; [done|split; [done|]]|split; [|done]].
  - destruct (Bool.eqb (present r0) b) eqn:E; [by left|]. right. split; [done|].
    destruct Hr as [->|[-> HP]]; [apply HQ; by rewrite E|by apply HPQ].
  - destruct (present r0) eqn:E, b; simpl in *; congruence.
Qed.

(** ** One change *)

(** The state after [change_to b] on an entry. *)
Definition change_entry (b : bool) (e : LogEntry) (st : tx_state) : tx_state :=
  match entry_range st.1 e with
  | None => st
  | Some r =>
      let '(r', changed) := change_to b r (tx_transaction_id st.2) in
      (set_entry st.1 e r', if changed then push_log st.2 e else st.2)
  end.

Lemma change_node_entry (b : bool) (p : nat) (st : tx_state) :
  (change_node (change_to b) p st).1 = change_entry b (LogQuadNode p) st.
Proof.
  destruct st as [c t]. unfold change_node, change_entry. simpl. destruct (nodes c !! p) as [n|] eqn:E; [|done].
  simpl. destruct (change_to b (node_range n) (tx_transaction_id t)) as [r' ch]. simpl. f_equal. f_equal.
  rewrite list_insert_alter. apply list_alter_ext; [|done]. intros x. rewrite E. by intros [= <-].
Qed.
Lemma change_graph_entry (b : bool) (g : EncodedTerm) (st : tx_state) :
  change_graph (change_to b) g st =
  match graphs st.1 !! g with Some _ => Some (change_entry b (LogGraph g) st) | None => None end.
Proof.
  destruct st as [c t]. unfold change_graph, change_entry. simpl. destruct (graphs c !! g) as [r|]; [|done].
  by destruct (change_to b r (tx_transaction_id t)).
Qed.
Lemma change_namespace_entry (b : bool) (m : NamespaceMapping) (st : tx_state) :
  change_namespace (change_to b) m st =
  match namespaces st.1 !! m with Some _ => Some (change_entry b (LogNamespace m) st) | None => None end.
Proof.
  destruct st as [c t]. unfold change_namespace, change_entry. simpl.
  destruct (namespaces c !! m) as [r|]; [|done]. by destruct (change_to b r (tx_transaction_id t)).
Qed.

(** The transaction keeps its identity, and its log grows. *)
Definition same_tx (t t' : MemoryStorageTransaction) : Prop :=
  tx_transaction_id t' = tx_transaction_id t /\ tx_snapshot_id t' = tx_snapshot_id t /\
  tx_transaction_key t' = tx_transaction_key t /\ tx_governed t' = tx_governed t /\
  tx_completed t' = tx_completed t.
#[global] Instance same_tx_preorder : PreOrder same_tx.
Proof. split; [by intros ?|]. intros a b c H H'. unfold same_tx in *. destruct_and?. repeat split; congruence. Qed.

(** What a sequence of changes of a running transaction keeps. *)
Record tx_extends (vc : Z) (st st' : tx_state) : Prop := {
  ext_tx : same_tx st.2 st'.2;
  ext_ranges : ranges_ok st.1 vc (tx_transaction_id st.2) (tx_log st.2) ->
    ranges_ok st'.1 vc (tx_transaction_id st.2) (tx_log st'.2);
  ext_views : ranges_ok st.1 vc (tx_transaction_id st.2) (tx_log st.2) ->
    forall v e, v <= vc -> entry_view st'.1 v e = entry_view st.1 v e
}.
#[global] Instance tx_extends_preorder (vc : Z) : PreOrder (tx_extends vc).
Proof.
  split.
  - intros st. by split.
  - intros a b c [Ht Hr Hv] [Ht' Hr' Hv']. assert (Hi := proj1 Ht).
    rewrite Hi in Hr', Hv'. split.
    + etransitivity; [exact Ht|exact Ht'].
    + auto.
    + intros H v e Hle. rewrite Hv', Hv; auto.
Qed.

Lemma push_log_same (t : MemoryStorageTransaction) (e : LogEntry) : same_tx t (push_log t e).
Proof. done. Qed.

Section change.
Context (b : bool) (e : LogEntry) (st : tx_state) (vc : Z).
Context (Hvc : vc < tx_transaction_id st.2).

Lemma change_entry_shape : same_shape st.1 (change_entry b e st).1.
Proof.
  unfold change_entry. destruct (entry_range st.1 e) as [r|] eqn:E; [|done].
  destruct (change_to b r _) as [r' ch]. by apply (same_shape_set _ _ r).
Qed.
Lemma change_entry_tx : same_tx st.2 (change_entry b e st).2.
Proof.
  unfold change_entry. destruct (entry_range st.1 e) as [r|]; [|done].
  by destruct (change_to b r _) as [r' []].
Qed.
Lemma change_entry_log (e' : LogEntry) : e' ∈ tx_log st.2 -> e' ∈ tx_log (change_entry b e st).2.
Proof.
  unfold change_entry. destruct (entry_range st.1 e) as [r|]; [|done].
  destruct (change_to b r _) as [r' []]; simpl; [|done]. intros. rewrite elem_of_app. by left.
Qed.

(** The range of every entry after the change. *)
Lemma change_entry_range (e' : LogEntry) (r' : VersionRange) :
  ranges_ok st.1 vc (tx_transaction_id st.2) (tx_log st.2) ->
  entry_range (change_entry b e st).1 e' = Some r' ->
  exists r r0, entry_range st.1 e' = Some r /\
    range_ok vc (tx_transaction_id st.2) r0 r (e' ∈ tx_log st.2) /\
    range_ok vc (tx_transaction_id st.2) r0 r' (e' ∈ tx_log (change_entry b e st).2) /\
    (e' <> e -> r' = r) /\ (e' = e -> present r' = b).
Proof.
  intros Hok Hr'. pose proof (change_entry_log e') as Hlog. revert Hr' Hlog. unfold change_entry.
  destruct (entry_range st.1 e) as [r|] eqn:E.
  - destruct (Hok _ _ E) as (r0 & Hr0).
    pose proof (change_to_pending b vc _ r0 r (e ∈ tx_log st.2)
      (e ∈ tx_log (if (change_to b r (tx_transaction_id st.2)).2 then push_log st.2 e else st.2)) Hvc Hr0) as Hc.
    destruct (change_to b r (tx_transaction_id st.2)) as [r1 ch] eqn:Ec. simpl in *.
    rewrite (entry_range_set _ _ _ r) by done. destruct (decide (e = e')) as [<-|Hne].
    + intros [= <-] Hlog. destruct Hc as (Hc & Hp & _); [done|destruct ch; simpl; [|done]; set_solver|].
      exists r, r0. by split_and!.
    + intros Hr' Hlog. destruct (Hok _ _ Hr') as (r0' & Hr0'). exists r', r0'.
      destruct Hr0' as (? & ? & Hd). split_and!; [done|by split_and!|split_and!; [done..|]|done|congruence].
      destruct Hd as [?|[? ?]]; [by left|right; split; [done|by apply Hlog]].
  - intros Hr' _. destruct (Hok _ _ Hr') as (r0' & Hr0'). exists r', r0'. repeat split; try apply Hr0'; try done.
    intros ->. congruence.
Qed.

Lemma change_entry_extends : tx_extends vc st (change_entry b e st).
Proof.
  split; [apply change_entry_tx|..].
  - intros Hok e' r' Hr'. destruct (change_entry_range e' r' Hok Hr') as (r & r0 & _ & _ & H & _).
    by exists r0.
  - intros Hok v e' Hv. unfold entry_view.
    destruct (entry_range (change_entry b e st).1 e') as [r'|] eqn:E.
    + destruct (change_entry_range e' r' Hok E) as (r & r0 & Hr & H & H' & _). rewrite Hr.
      destruct (range_ok_pending _ _ _ _ _ Hvc H) as (_ & _ & Hp).
      destruct (range_ok_pending _ _ _ _ _ Hvc H') as (_ & _ & Hp').
      by rewrite (pending_contains vc _ v r0 r Hv Hvc Hp), (pending_contains vc _ v r0 r' Hv Hvc Hp').
    + destruct (entry_range st.1 e') eqn:E'; [|done]. exfalso.
      revert E. unfold change_entry. destruct (entry_range st.1 e) as [r|] eqn:E2; [|congruence].
      destruct (change_to _ _ _). simpl. rewrite (entry_range_set _ _ _ r) by done.
      case_decide; congruence.
Qed.

(** What the transaction itself sees. *)
Lemma change_entry_view (e' : LogEntry) :
  ranges_ok st.1 vc (tx_transaction_id st.2) (tx_log st.2) ->
  entry_view (change_entry b e st).1 (tx_transaction_id st.2) e'
  = if decide (e = e') then b && bool_decide (is_Some (entry_range st.1 e))
    else entry_view st.1 (tx_transaction_id st.2) e'.
Proof.
  intros Hok. unfold entry_view at 1.
  destruct (entry_range (change_entry b e st).1 e') as [r'|] eqn:E.
  - destruct (change_entry_range e' r' Hok E) as (r & r0 & Hr & H & H' & Hne & Heq).
    destruct (decide (e = e')) as [<-|].
    + rewrite Hr, bool_decide_eq_true_2, andb_true_r by eauto. rewrite <- Heq by done.
      destruct (range_ok_pending _ _ _ _ _ Hvc H') as (? & ? & ?). by apply (pending_present _ r0).
    + unfold entry_view. by rewrite Hr, Hne by congruence.
  - revert E. unfold change_entry. destruct (entry_range st.1 e) as [r|] eqn:E2.
    + destruct (change_to _ _ _). simpl. rewrite (entry_range_set _ _ _ r) by done.
      case_decide; [done|]. intros E. unfold entry_view. by rewrite E.
    + intros E. case_decide; [|unfold entry_view; by rewrite E].
      rewrite bool_decide_eq_false_2; [by rewrite andb_false_r|]. by intros [].
Qed.
End change.

(** ** A new entry *)

Section new_entry.
Context (e : LogEntry) (st st' : tx_state) (vc : Z).
Context (Hvc : vc < tx_transaction_id st.2).
Context (Hnone : entry_range st.1 e = None).
Context (Hsome : entry_range st'.1 e = Some (RangeStart (tx_transaction_id st.2))).
Context (Hother : forall e', e' <> e -> entry_range st'.1 e' = entry_range st.1 e').
Context (Htx : same_tx st.2 st'.2).
Context (Hlog : forall e', e' ∈ tx_log st.2 -> e' ∈ tx_log st'.2) (Hlogged : e ∈ tx_log st'.2).

Lemma new_entry_extends : tx_extends vc st st'.
Proof.
  split; [done|..].
  - intros Hok e' r' Hr'. destruct (decide (e' = e)) as [->|Hne].
    + rewrite Hsome in Hr'. injection Hr' as <-. exists RangeEmpty.
      split; [apply RangeEmpty_wf|]. split; [constructor|]. by right.
    + rewrite Hother in Hr' by done. destruct (Hok _ _ Hr') as (r0 & ? & ? & Hd). exists r0.
      split_and!; [done..|]. destruct Hd as [?|[? ?]]; [by left|right; split; [done|by apply Hlog]].
  - intros Hok v e' Hv. unfold entry_view. destruct (decide (e' = e)) as [->|Hne]; [|by rewrite Hother].
    rewrite Hsome, Hnone. simpl. apply Z.leb_gt. lia.
Qed.
Lemma new_entry_view (e' : LogEntry) :
  entry_view st'.1 (tx_transaction_id st.2) e'
  = if decide (e = e') then true else entry_view st.1 (tx_transaction_id st.2) e'.
Proof.
  unfold entry_view. destruct (decide (e = e')) as [<-|].
  - rewrite Hsome. apply Z.leb_refl.
  - by rewrite Hother.
Qed.
End new_entry.

(** Only the entries of the log matter, not their order. *)
Lemma tx_extends_log (vc : Z) (st st1 st2 : tx_state) :
  tx_extends vc st st1 -> st2.1 = st1.1 -> same_tx st.2 st2.2 ->
  (forall e, e ∈ tx_log st1.2 <-> e ∈ tx_log st2.2) -> tx_extends vc st st2.
Proof.
  intros [Ht Hr Hv] Hc Ht2 Hlog. split; [done|..]; rewrite Hc; [|done].
  intros Hok e r He. destruct (Hr Hok e r He) as (r0 & ? & ? & Hd). exists r0. split_and!; [done..|].
  by rewrite <- Hlog.
Qed.

(** ** Finishing *)

Lemma finish_entry_set (f : VersionRange -> VersionRange) (c : Content) (e : LogEntry) :
  finish_entry f c e = match entry_range c e with Some r => set_entry c e (f r) | None => c end.
Proof.
  destruct e as [p|g|m]; simpl.
  - destruct (nodes c !! p) as [n|] eqn:E; [|done]. simpl. f_equal.
    rewrite list_insert_alter. apply list_alter_ext; [|done]. intros x. rewrite E. by intros [= <-].
  - by destruct (graphs c !! g).
  - by destruct (namespaces c !! m).
Qed.
Lemma finish_entry_range (f : VersionRange -> VersionRange) (c : Content) (e e' : LogEntry) :
  entry_range (finish_entry f c e) e'
  = if decide (e = e') then f <$> entry_range c e' else entry_range c e'.
Proof.
  rewrite finish_entry_set. destruct (entry_range c e) as [r|] eqn:E.
  - rewrite (entry_range_set _ _ _ r) by done. case_decide; [subst; by rewrite E|done].
  - case_decide; [subst; by rewrite E|done].
Qed.
Lemma finish_entry_shape (f : VersionRange -> VersionRange) (c : Content) (e : LogEntry) :
  same_shape c (finish_entry f c e).
Proof.
  rewrite finish_entry_set. destruct (entry_range c e) as [r|] eqn:E; [|done].
  by apply (same_shape_set _ _ r).
Qed.
Lemma finish_all_shape (f : VersionRange -> VersionRange) (log : list LogEntry) (c : Content) :
  same_shape c (foldl (finish_entry f) c log).
Proof.
  revert c. induction log as [|e log IH]; intros c; simpl; [done|].
  etransitivity; [apply finish_entry_shape|apply IH].
Qed.

(** Any part of the loop: each range is untouched or finished. *)
Lemma finish_all_range (f : VersionRange -> VersionRange) (log : list LogEntry) (c : Content) (e : LogEntry) :
  (forall r, entry_range c e = Some r -> f (f r) = f r) ->
  entry_range (foldl (finish_entry f) c log) e
  = if decide (e ∈ log) then f <$> entry_range c e else entry_range c e.
Proof.
  revert c. induction log as [|x log IH]; intros c Hidem.
  { destruct (decide (e ∈ [])) as [H|]; [by apply not_elem_of_nil in H|done]. }
  cbn [foldl]. rewrite IH, finish_entry_range.
  - destruct (decide (x = e)) as [->|Hne].
    + rewrite (decide_True (P := e ∈ e :: log)) by set_solver. case_decide; [|done].
      destruct (entry_range c e) as [r|]; simpl; [by rewrite Hidem|done].
    + destruct (decide (e ∈ log)) as [Hin|Hin];
        [rewrite decide_True by set_solver|rewrite decide_False by set_solver]; done.
  - intros r. rewrite finish_entry_range. destruct (decide (x = e)) as [->|]; [|by apply Hidem].
    destruct (entry_range c e) as [r1|]; simpl; [|done]. intros [= <-]. by rewrite !(Hidem r1 eq_refl).
Qed.

(** The finished ranges of a running transaction. *)
Section finish.
Context (c : Content) (vc : Z) (t : MemoryStorageTransaction).
Context (Hvc : vc + 1 < tx_transaction_id t) (Hok : ranges_ok c vc (tx_transaction_id t) (tx_log t)).
Context (Hnew : new_version_id t = vc + 1).

Lemma entry_pending (e : LogEntry) (r : VersionRange) :
  entry_range c e = Some r ->
  exists r0, VersionRange_wf r0 /\ below r0 (vc + 1) /\ below r0 (tx_transaction_id t) /\
    pending (tx_transaction_id t) r0 r /\ (e ∉ tx_log t -> r = r0).
Proof.
  intros He. destruct (Hok e r He) as (r0 & H). exists r0.
  assert (Hlt : vc < tx_transaction_id t) by lia.
  destruct (range_ok_pending _ _ _ _ _ Hlt H) as (? & ? & ?). destruct H as (_ & ? & Hd).
  split_and!; try done. intros Hn. by destruct Hd as [?|[_ ?]].
Qed.

Lemma rollback_range (l : list LogEntry) (e : LogEntry) :
  entry_range (foldl (finish_entry (rollback t)) c l) e
  = if decide (e ∈ l) then rollback t <$> entry_range c e else entry_range c e.
Proof.
  apply finish_all_range. intros r Hr. destruct (entry_pending e r Hr) as (r0 & Hw & ? & Hb & Hp & _).
  unfold rollback. rewrite (rollback_pending _ r0 Hw Hb r Hp). by apply rollback_committed.
Qed.
Lemma upgrade_range (l : list LogEntry) (e : LogEntry) :
  entry_range (foldl (finish_entry (upgrade t)) c l) e
  = if decide (e ∈ l) then upgrade t <$> entry_range c e else entry_range c e.
Proof.
  apply finish_all_range. intros r Hr. destruct (entry_pending e r Hr) as (r0 & Hw & ? & Hb & Hp & _).
  unfold upgrade. rewrite (upgrade_pending _ r0 Hw Hb _ r Hp), Hnew. case_decide.
  - by apply upgrade_committed.
  - apply upgrade_committed; [by apply toggle_wf|apply below_toggle; [done|lia]].
Qed.

(** What a finished range is. *)
Lemma rollback_entry (e : LogEntry) (r : VersionRange) :
  entry_range c e = Some r ->
  exists r0, VersionRange_wf r0 /\ below r0 (vc + 1) /\ pending (tx_transaction_id t) r0 r /\
    entry_range (foldl (finish_entry (rollback t)) c (tx_log t)) e = Some r0.
Proof.
  intros Hr. destruct (entry_pending e r Hr) as (r0 & ? & ? & ? & ? & Hn). exists r0. split_and!; try done.
  rewrite rollback_range, Hr. case_decide; [|by rewrite Hn]. simpl. f_equal. by apply rollback_pending.
Qed.
Lemma upgrade_entry (e : LogEntry) (r : VersionRange) :
  entry_range c e = Some r ->
  exists r0, VersionRange_wf r0 /\ below r0 (vc + 1) /\
    ((r = r0 /\ entry_range (foldl (finish_entry (upgrade t)) c (tx_log t)) e = Some r0) \/
     (r = toggle r0 (tx_transaction_id t) /\
      entry_range (foldl (finish_entry (upgrade t)) c (tx_log t)) e = Some (toggle r0 (vc + 1)))).
Proof.
  intros Hr. destruct (entry_pending e r Hr) as (r0 & ? & ? & ? & Hp & Hn). exists r0. split_and!; try done.
  rewrite upgrade_range, Hr. destruct (decide (e ∈ tx_log t)) as [Hin|Hin].
  - simpl. unfold upgrade. rewrite (upgrade_pending _ r0) by done. rewrite Hnew.
    case_decide; [by left|]. destruct Hp as [?|?]; [done|by right].
  - left. split; [by apply Hn|]. by rewrite Hn.
Qed.

(** Readers at committed versions are not disturbed, wherever the loops stand. *)
Lemma rollback_isolated (l : list LogEntry) (v : Z) (e : LogEntry) :
  v <= vc -> entry_view (foldl (finish_entry (rollback t)) c l) v e = entry_view c v e.
Proof.
  intros Hv. unfold entry_view. rewrite rollback_range. destruct (entry_range c e) as [r|] eqn:Hr;
    [|by case_decide]. case_decide; [|done]. simpl.
  destruct (entry_pending e r Hr) as (r0 & ? & ? & ? & Hp & _). unfold rollback.
  rewrite (rollback_pending _ r0) by done. symmetry. apply (pending_contains vc (tx_transaction_id t)); [lia..|done].
Qed.
Lemma upgrade_isolated (l : list LogEntry) (v : Z) (e : LogEntry) :
  v <= vc -> entry_view (foldl (finish_entry (upgrade t)) c l) v e = entry_view c v e.
Proof.
  intros Hv. unfold entry_view. rewrite upgrade_range. destruct (entry_range c e) as [r|] eqn:Hr;
    [|by case_decide]. case_decide; [|done]. simpl.
  destruct (entry_pending e r Hr) as (r0 & ? & ? & ? & Hp & _). unfold upgrade.
  rewrite (upgrade_pending _ r0) by done. rewrite Hnew.
  rewrite (pending_contains vc (tx_transaction_id t) v r0 r) by (lia || done).
  case_decide; [done|]. apply contains_toggle_before. lia.
Qed.

(** The new version is what the transaction saw. *)
Lemma upgrade_publishes (e : LogEntry) :
  entry_view (foldl (finish_entry (upgrade t)) c (tx_log t)) (vc + 1) e
  = entry_view c (tx_transaction_id t) e.
Proof.
  unfold entry_view. destruct (entry_range c e) as [r|] eqn:Hr.
  - destruct (upgrade_entry e r Hr) as (r0 & ? & Hb & [[-> ->]|[-> ->]]).
    + rewrite !contains_after; [done|apply (below_mono _ (vc + 1)); [lia|done]..].
    + rewrite !contains_toggle_after; [done| |lia|done|lia].
      apply (below_mono _ (vc + 1)); [lia|done].
  - rewrite upgrade_range, Hr. by case_decide.
Qed.

(** The ranges of the store once the transaction is over. *)
Lemma rollback_ranges (tid : Z) :
  ranges_ok (foldl (finish_entry (rollback t)) c (tx_log t)) vc tid [].
Proof.
  intros e r Hr. destruct (entry_range c e) as [r1|] eqn:E.
  - destruct (rollback_entry e r1 E) as (r0 & ? & ? & _ & E'). rewrite E' in Hr. injection Hr as <-.
    exists r0. split_and!; [done..|by left].
  - rewrite rollback_range, E in Hr. by case_decide.
Qed.
Lemma upgrade_ranges (tid : Z) :
  ranges_ok (foldl (finish_entry (upgrade t)) c (tx_log t)) (vc + 1) tid [].
Proof.
  intros e r Hr. destruct (entry_range c e) as [r1|] eqn:E.
  - destruct (upgrade_entry e r1 E) as (r0 & ? & ? & [[_ E']|[_ E']]); rewrite E' in Hr; injection Hr as <-.
    + exists r0. split_and!; [done|by apply (below_mono _ (vc + 1)); [lia|]|by left].
    + exists (toggle r0 (vc + 1)). split_and!; [by apply toggle_wf|apply below_toggle; [done|lia]|by left].
  - rewrite upgrade_range, E in Hr. by case_decide.
Qed.
End finish.
