(* ===== verification/MemoryOpsFacts.v ===== *)
(** * Operations of the in-memory store

    What the iterators return and what each operation of a transaction does, as
    lemmas on the invariants of MemoryRangeFacts and MemoryChainFacts. *)
From S2P Require Import Prelude MachineInt EncodedTerm RdfModel NumericEncoder VersionRange.
From S2P Require Import StoreKeys MemoryStorage MemoryRangeFacts.

(** * Chains of the in-memory store

    The quads of the store are linked in five families of chains: all of them,
    and those with the same subject, predicate, object or graph name.  This file
    states the invariant of the chains and shows that walking one visits exactly
    its quads, from the last to the first. *)

#[local] Open Scope Z_scope.

(** ** Positions *)

(** The positions of the elements that satisfy [P], the last one first. *)
Definition positions {A : Type} (P : A -> bool) (l : list A) : list nat :=
  snd (foldl (fun '(i, acc) x => (S i, if P x then i :: acc else acc)) (O, []) l).

Lemma foldl_positions_fst {A : Type} (P : A -> bool) (l : list A) :
  fst (foldl (fun '(i, acc) x => (S i, if P x then i :: acc else acc)) (O, []) l) = length l.
Proof.
  induction l as [|x l IH] using rev_ind; [done|]. rewrite foldl_app, length_app. simpl.
  destruct (foldl _ _ l). simpl in *. lia.
Qed.
Lemma positions_snoc {A : Type} (P : A -> bool) (l : list A) (x : A) :
  positions P (l ++ [x]) = if P x then length l :: positions P l else positions P l.
Proof.
  unfold positions. rewrite foldl_app. simpl. pose proof (foldl_positions_fst P l) as H.
  destruct (foldl _ _ l) as [i acc]. simpl in *. by subst.
Qed.
Lemma elem_of_positions {A : Type} (P : A -> bool) (l : list A) (i : nat) :
  i ∈ positions P l <-> exists x, l !! i = Some x /\ P x = true.
Proof.
  induction l as [|x l IH] using rev_ind; [set_solver|]. rewrite positions_snoc.
  assert (i ∈ positions P l <-> exists y, (l ++ [x]) !! i = Some y /\ P y = true /\ i <> length l) as IH'.
  { rewrite IH. split.
    - intros (y & Hy & HP). exists y. split_and!; [by apply lookup_app_l_Some|done|].
      apply lookup_lt_Some in Hy. lia.
    - intros (y & Hy & HP & Hi). apply lookup_snoc_Some in Hy as [[_ Hy]|[? _]]; [by exists y|done]. }
  assert ((l ++ [x]) !! length l = Some x) as Hx by by rewrite lookup_app_r, Nat.sub_diag.
  destruct (P x) eqn:E.
  - rewrite elem_of_cons, IH'. split; [intros [->|(y & ? & ? & _)]; eauto|].
    intros (y & ? & ?). destruct (decide (i = length l)); [by left|right; eauto].
  - rewrite IH'. split; [intros (y & ? & ? & _); eauto|]. intros (y & Hy & HP). exists y. split_and!; [done..|].
    intros ->. congruence.
Qed.
Lemma positions_NoDup {A : Type} (P : A -> bool) (l : list A) : NoDup (positions P l).
Proof.
  induction l as [|x l IH] using rev_ind; [constructor|]. rewrite positions_snoc. destruct (P x); [|done].
  constructor; [|done]. rewrite elem_of_positions. intros (y & Hy & _). apply lookup_lt_Some in Hy. lia.
Qed.
Lemma positions_length {A : Type} (P : A -> bool) (l : list A) : (length (positions P l) <= length l)%nat.
Proof.
  induction l as [|x l IH] using rev_ind; [done|]. rewrite positions_snoc, length_app. simpl.
  destruct (P x); simpl; lia.
Qed.
Lemma positions_none {A : Type} (P : A -> bool) (l : list A) :
  (forall x, x ∈ l -> P x = false) -> positions P l = [].
Proof.
  intros H. apply elem_of_nil_inv. intros i. rewrite elem_of_positions. intros (x & Hx & HP).
  apply list_elem_of_lookup_2 in Hx. rewrite H in HP; done.
Qed.

(** ** The invariant *)

(** What a chain links: all the quads, or those with a term at a position. *)
Definition chain_id : Set := option (QuadPosition * EncodedTerm).
Definition in_chain (x : chain_id) (q : EncodedQuad) : bool :=
  match x with None => true | Some (k, key) => bool_decide (quad_term k q = key) end.

Definition quads (c : Content) : list EncodedQuad := node_quad <$> nodes c.
Definition sk_quads (c : Content) : list EncodedQuad := (fun x => x.1.1) <$> skeleton c.

Record chains_ok (c : Content) : Prop := {
  co_set : forall q p, quad_set c !! q = Some p <-> quads c !! p = Some q;
  co_previous : forall i q pr by_, skeleton c !! i = Some (q, pr, by_) ->
    pr = head (positions (in_chain None) (take i (quads c))) /\
    forall k, by_ k = head (positions (in_chain (Some (k, quad_term k q))) (take i (quads c)));
  co_last : last_quad c = head (positions (in_chain None) (quads c));
  co_last_by : forall k key, last_quad_by c k !! key =
    match positions (in_chain (Some (k, key))) (quads c) with
    | [] => None
    | p :: l => Some (p, Z.of_nat (length (p :: l)))
    end;
  co_graphs : forall q, q ∈ quads c -> EncodedTerm_is_default_graph (quad_graph_name q) = false ->
    is_Some (graphs c !! quad_graph_name q)
}.

Lemma quads_skeleton (c : Content) : quads c = sk_quads c.
Proof. unfold quads, sk_quads, skeleton. by rewrite <- list_fmap_compose. Qed.
Lemma same_shape_quads (c c' : Content) : same_shape c c' -> quads c' = quads c.
Proof. intros (H & _). rewrite !quads_skeleton. unfold sk_quads. by rewrite H. Qed.
Lemma same_shape_nodes (c c' : Content) : same_shape c c' -> length (nodes c') = length (nodes c).
Proof. intros H%same_shape_quads%(f_equal length). unfold quads in H. by rewrite !length_fmap in H. Qed.
Lemma same_shape_chains (c c' : Content) : same_shape c c' -> chains_ok c -> chains_ok c'.
Proof.
  intros H [H1 H2 H3 H4 H5]. pose proof (same_shape_quads _ _ H) as Hq.
  destruct H as (Hs & Hqs & Hl & Hlb & Hg & _).
  split; rewrite ?Hq, ?Hqs, ?Hl, ?Hlb, ?Hs; try done.
  intros q Hin Hd. apply Hg. by apply H5.
Qed.

Lemma chains_ok_empty : chains_ok (content MemoryStorage_new).
Proof. split; intros; simpl in *; try done; set_solver. Qed.

Lemma node_skeleton (c : Content) (i : nat) (n : QuadListNode) :
  nodes c !! i = Some n -> skeleton c !! i = Some (node_quad n, node_previous n, node_previous_by n).
Proof. intros H. unfold skeleton. by rewrite list_lookup_fmap, H. Qed.
Lemma node_quads (c : Content) (i : nat) (n : QuadListNode) :
  nodes c !! i = Some n -> quads c !! i = Some (node_quad n).
Proof. intros H. unfold quads. by rewrite list_lookup_fmap, H. Qed.
Lemma quads_node (c : Content) (i : nat) (q : EncodedQuad) :
  quads c !! i = Some q -> exists n, nodes c !! i = Some n /\ node_quad n = q.
Proof. unfold quads. rewrite list_lookup_fmap. intros (n & ? & ?)%fmap_Some. eauto. Qed.

(** ** Walking *)

(** The nodes that following [next] from [start] visits. *)
Inductive chain (c : Content) (next : QuadListNode -> option nat) : option nat -> list nat -> Prop :=
| chain_end : chain c next None []
| chain_node p n l : nodes c !! p = Some n -> chain c next (next n) l -> chain c next (Some p) (p :: l).

(** The pointer a chain follows. *)
Definition chain_next (x : chain_id) : QuadListNode -> option nat := node_next (fst <$> x).
Definition chain_start (c : Content) (x : chain_id) : option nat := head (positions (in_chain x) (quads c)).

Lemma chain_prefix (c : Content) (x : chain_id) (k : nat) :
  chains_ok c -> (k <= length (nodes c))%nat ->
  chain c (chain_next x) (head (positions (in_chain x) (take k (quads c))))
    (positions (in_chain x) (take k (quads c))).
Proof.
  intros Hc. induction k as [|k IH]; intros Hk; [by constructor|].
  destruct (lookup_lt_is_Some_2 (nodes c) k) as [n Hn]; [lia|].
  rewrite (take_S_r _ _ (node_quad n)) by by apply node_quads. rewrite positions_snoc.
  destruct (in_chain x (node_quad n)) eqn:E; [|apply IH; lia].
  rewrite length_take_le by (unfold quads; rewrite length_fmap; lia).
  apply (chain_node _ _ _ n); [done|].
  replace (chain_next x n) with (head (positions (in_chain x) (take k (quads c)))); [apply IH; lia|].
  destruct (co_previous c Hc k _ _ _ (node_skeleton _ _ _ Hn)) as [Hp Hb].
  unfold chain_next. destruct x as [[pos key]|]; simpl in *; [|done].
  apply bool_decide_eq_true in E. subst. by rewrite Hb.
Qed.

(** Walking a chain visits its positions. *)
Lemma chain_walk (c : Content) (x : chain_id) :
  chains_ok c -> chain c (chain_next x) (chain_start c x) (positions (in_chain x) (quads c)).
Proof.
  intros Hc. unfold chain_start. pose proof (chain_prefix c x (length (nodes c)) Hc ltac:(lia)) as H.
  rewrite (take_ge (quads c)) in H; [done|]. unfold quads. rewrite length_fmap. lia.
Qed.

(** ** Linking a new node *)

Lemma link_node_quads (c : Content) (q : EncodedQuad) (tid : Z) :
  quads (link_node c q tid) = quads c ++ [q].
Proof. unfold quads. simpl. by rewrite fmap_app. Qed.

Lemma quads_length (c : Content) : length (quads c) = length (nodes c).
Proof. unfold quads. apply length_fmap. Qed.

Lemma bump_lookup (key key' : EncodedTerm) (p : nat) (m : gmap EncodedTerm (nat * Z)) :
  bump key p m !! key' =
  if decide (key = key') then Some (p, match m !! key with Some (_, n) => n + 1 | None => 1 end)
  else m !! key'.
Proof. unfold bump. rewrite lookup_insert. by case_decide. Qed.

(** The graph of the quad may be missing until it is inserted too. *)
Lemma link_node_chains (c c' : Content) (q : EncodedQuad) (tid : Z) :
  chains_ok c -> quad_set c !! q = None ->
  skeleton c' = skeleton (link_node c q tid) ->
  quad_set c' = quad_set (link_node c q tid) -> last_quad c' = last_quad (link_node c q tid) ->
  last_quad_by c' = last_quad_by (link_node c q tid) ->
  (forall g, is_Some (graphs c !! g) -> is_Some (graphs c' !! g)) ->
  (EncodedTerm_is_default_graph (quad_graph_name q) = false -> is_Some (graphs c' !! quad_graph_name q)) ->
  chains_ok c'.
Proof.
  intros Hc Hq Hsk Hqs Hl Hlb Hg Hgq.
  assert (quads c' = quads c ++ [q]) as Hquads.
  { rewrite quads_skeleton. unfold sk_quads. rewrite Hsk. fold (sk_quads (link_node c q tid)).
    rewrite <- quads_skeleton. apply link_node_quads. }
  destruct Hc as [H1 H2 H3 H4 H5]. split.
  - intros q' p. rewrite Hqs, Hquads. simpl. rewrite lookup_insert, lookup_snoc_Some, quads_length.
    case_decide as E.
    + subst q'. split.
      * intros [= <-]. by right.
      * intros [[_ Hp]|[-> _]]; [|done]. apply H1 in Hp. congruence.
    + rewrite H1. split.
      * intros Hp. left. split; [|done]. apply lookup_lt_Some in Hp. by rewrite quads_length in Hp.
      * intros [[_ ?]|[_ ?]]; [done|congruence].
  - intros i q' pr by_. rewrite Hsk, Hquads. unfold skeleton. simpl. rewrite fmap_app. simpl.
    intros [[Hi Hlk]|[Hi Hlk]]%lookup_snoc_Some.
    + rewrite length_fmap in Hi. rewrite take_app_le by (rewrite quads_length; lia).
      by apply (H2 i).
    + rewrite length_fmap in Hi. subst i. injection Hlk as <- <- <-.
      rewrite take_app_length' by (symmetry; apply quads_length). split; [done|]. intros k. rewrite H4.
      set (l := positions (in_chain (Some (k, quad_term k q))) (quads c)). by destruct l.
  - rewrite Hl, Hquads. simpl. rewrite positions_snoc. simpl. by rewrite quads_length.
  - intros k key. rewrite Hlb, Hquads. simpl. rewrite bump_lookup, positions_snoc. simpl in_chain.
    case_decide as E.
    + subst key. rewrite bool_decide_eq_true_2 by done. rewrite H4, quads_length.
      set (l := positions (in_chain (Some (k, quad_term k q))) (quads c)).
      destruct l as [|p l]; [done|]. simpl. do 2 f_equal. lia.
    + rewrite bool_decide_eq_false_2 by done. apply H4.
  - intros q'. rewrite Hquads, elem_of_app, list_elem_of_singleton. intros [Hin| ->] Hd; [|by apply Hgq].
    apply Hg. by apply H5.
Qed.

#[local] Open Scope Z_scope.

(** ** Iterators *)

(** The quads an iterator yields at the nodes it visits. *)
Definition yields (c : Content) (it : QuadIterator) (p : nat) : option EncodedQuad :=
  n ← nodes c !! p;
  if is_node_in_range (it_snapshot_id it) n && it_matches it (node_quad n)
  then Some (node_quad n) else None.

Definition set_current (it : QuadIterator) (p : option nat) : QuadIterator :=
  mkIterator (it_snapshot_id it) p (it_kind it) (it_expect it).

Lemma next_step (fuel : nat) (c : Content) (it : QuadIterator) (p : nat) (n : QuadListNode) :
  nodes c !! p = Some n ->
  QuadIterator_next (S fuel) c (set_current it (Some p)) =
  if is_node_in_range (it_snapshot_id it) n && it_matches it (node_quad n)
  then Some (Some (node_quad n, set_current it (node_next (it_kind it) n)))
  else QuadIterator_next fuel c (set_current it (node_next (it_kind it) n)).
Proof.
  intros Hn. cbn [QuadIterator_next set_current it_current mbind option_bind]. by rewrite Hn.
Qed.
Lemma yields_cons (c : Content) (it : QuadIterator) (p : nat) (n : QuadListNode) (l : list nat) :
  nodes c !! p = Some n ->
  omap (yields c it) (p :: l) =
  if is_node_in_range (it_snapshot_id it) n && it_matches it (node_quad n)
  then node_quad n :: omap (yields c it) l else omap (yields c it) l.
Proof. intros Hn. simpl. unfold yields at 1. rewrite Hn. simpl. by destruct (_ && _). Qed.

Lemma next_along (c : Content) (it : QuadIterator) (start : option nat) (l : list nat) (fuel : nat) :
  chain c (node_next (it_kind it)) start l -> (length l < fuel)%nat ->
  (QuadIterator_next fuel c (set_current it start) = Some None /\ omap (yields c it) l = []) \/
  (exists q p l', QuadIterator_next fuel c (set_current it start) = Some (Some (q, set_current it p)) /\
     chain c (node_next (it_kind it)) p l' /\ (length l' < length l)%nat /\
     omap (yields c it) l = q :: omap (yields c it) l').
Proof.
  intros Hch. revert fuel. induction Hch as [|p n l Hn Hch IH]; intros [|fuel] Hf; try (simpl in Hf; lia).
  - by left.
  - rewrite (next_step _ _ _ _ n Hn), (yields_cons _ _ _ n _ Hn).
    destruct (is_node_in_range (it_snapshot_id it) n && it_matches it (node_quad n)) eqn:E.
    + right. exists (node_quad n), (node_next (it_kind it) n), l.
      split_and!; [reflexivity|done|simpl; lia|reflexivity].
    + destruct (IH fuel ltac:(simpl in Hf; lia)) as [[H1 H2]|(q & p' & l' & H1 & H2 & H3 & H4)]; [by left|].
      right. exists q, p', l'. split_and!; [exact H1|done|simpl; lia|done].
Qed.

Lemma collect_along (c : Content) (it : QuadIterator) (start : option nat) (l : list nat) (fuel : nat) :
  chain c (node_next (it_kind it)) start l -> (length l < fuel)%nat -> (length l <= length (nodes c))%nat ->
  QuadIterator_collect fuel c (set_current it start) = Some (omap (yields c it) l).
Proof.
  revert start l. induction fuel as [|fuel IH]; intros start l Hch Hf Hl; [lia|].
  cbn [QuadIterator_collect].
  destruct (next_along c it start l (S (length (nodes c))) Hch ltac:(lia))
    as [[-> ->]|(q & p & l' & -> & Hch' & Hlt & ->)]; [done|].
  rewrite (IH p l') by (done || lia). done.
Qed.

(** *** Iterating while the store changes

    An iterator that visits each node in another state of the store, [cs i] for
    the [i]-th one: what it collects. *)
Fixpoint collect_concurrent (fuel : nat) (cs : nat -> Content) (it : QuadIterator)
  : option (list EncodedQuad) :=
  match fuel with
  | O => None
  | S fuel =>
      match it_current it ≫= (nodes (cs O) !!.) with
      | None => Some []
      | Some current =>
          (if is_node_in_range (it_snapshot_id it) current && it_matches it (node_quad current)
           then (node_quad current ::.) else id)
          <$> collect_concurrent fuel (fun i => cs (S i)) (set_current it (node_next (it_kind it) current))
      end
  end.

(** The nodes of [c] are in [c'], where version [v] sees the same of them. *)
Definition same_nodes (v : Z) (c c' : Content) : Prop :=
  forall p n, nodes c !! p = Some n -> exists n', nodes c' !! p = Some n' /\
    node_quad n' = node_quad n /\ node_previous n' = node_previous n /\
    node_previous_by n' = node_previous_by n /\ is_node_in_range v n' = is_node_in_range v n.

Lemma concurrent_step (fuel : nat) (cs : nat -> Content) (it : QuadIterator) (p : nat) (n : QuadListNode) :
  nodes (cs O) !! p = Some n ->
  collect_concurrent (S fuel) cs (set_current it (Some p)) =
  (if is_node_in_range (it_snapshot_id it) n && it_matches it (node_quad n) then (node_quad n ::.) else id)
  <$> collect_concurrent fuel (fun i => cs (S i)) (set_current it (node_next (it_kind it) n)).
Proof. intros Hn. cbn [collect_concurrent set_current it_current mbind option_bind]. by rewrite Hn. Qed.

Lemma collect_concurrent_along (c : Content) (it : QuadIterator) (start : option nat) (l : list nat)
  (fuel : nat) (cs : nat -> Content) :
  chain c (node_next (it_kind it)) start l -> (length l < fuel)%nat ->
  (forall i, same_nodes (it_snapshot_id it) c (cs i)) ->
  collect_concurrent fuel cs (set_current it start) = Some (omap (yields c it) l).
Proof.
  intros Hch. revert fuel cs. induction Hch as [|p n l Hn Hch IH]; intros [|fuel] cs Hf Hcs;
    try (simpl in Hf; lia); [done|].
  destruct (Hcs O p n Hn) as (n' & Hn' & Hq & Hp & Hb & Hr). rewrite (yields_cons _ _ _ n _ Hn).
  rewrite (concurrent_step _ _ _ _ n' Hn').
  assert (node_next (it_kind it) n' = node_next (it_kind it) n) as -> by (destruct (it_kind it); simpl; congruence).
  rewrite IH by (simpl in Hf; lia || done). rewrite Hr, Hq. by destruct (_ && _).
Qed.

(** The pattern an iterator was made for. *)
Definition pattern_matches (p : QuadPattern) (q : EncodedQuad) : bool :=
  expected (pat_subject p) (quad_subject q) && expected (pat_predicate p) (quad_predicate q)
  && expected (pat_object p) (quad_object q) && expected (pat_graph_name p) (quad_graph_name q).

Lemma start_of_index (c : Content) (p : QuadPattern) (k : QuadPosition) (key : EncodedTerm) :
  chains_ok c -> pat_term p k = Some key ->
  fst (get_start_and_count c p k) = chain_start c (Some (k, key)).
Proof.
  intros Hc Hk. unfold get_start_and_count, chain_start. rewrite Hk, (co_last_by c Hc).
  by destruct (positions (in_chain (Some (k, key))) (quads c)).
Qed.

(** The chosen chain is one the pattern asks for, or that of all the quads. *)
Lemma choose_chain_spec (c : Content) (p : QuadPattern) :
  chains_ok c ->
  exists x : chain_id, choose_chain c p = (chain_start c x, fst <$> x) /\
    match x with Some (k, key) => pat_term p k = Some key | None => True end.
Proof.
  intros Hc. unfold choose_chain.
  destruct (get_start_and_count c p PosSubject) as [s1 c1] eqn:E1, (get_start_and_count c p PosPredicate) as [s2 c2] eqn:E2,
    (get_start_and_count c p PosObject) as [s3 c3] eqn:E3, (get_start_and_count c p PosGraphName) as [s4 c4] eqn:E4.
  assert (forall k s n, get_start_and_count c p k = (s, n) -> is_Some (pat_term p k) ->
    exists x : chain_id, (s, Some k) = (chain_start c x, fst <$> x) /\
    match x with Some (k, key) => pat_term p k = Some key | None => True end) as Hpick.
  { intros k s n E [key Hk]. exists (Some (k, key)). split; [|done]. simpl. f_equal.
    rewrite <- (start_of_index c p k key) by done. by rewrite E. }
  repeat (case_if_bool; [eapply Hpick; [eassumption|by eapply bool_decide_eq_true_1]|]).
  exists None. split; [|done]. by rewrite (co_last c Hc).
Qed.

Lemma it_matches_chain (it : QuadIterator) (p : QuadPattern) (x : chain_id) (q : EncodedQuad) :
  (forall k, it_expect it k = if bool_decide (fst <$> x = Some k) then None else pat_term p k) ->
  match x with Some (k, key) => pat_term p k = Some key | None => True end ->
  in_chain x q && it_matches it q = pattern_matches p q.
Proof.
  intros He Hx. unfold it_matches, pattern_matches. rewrite !He.
  destruct x as [[[] key]|]; simpl in *; rewrite ?Hx; simpl; try done;
    destruct (bool_decide _); simpl; rewrite ?andb_true_r, ?andb_false_r; done.
Qed.

(** The reader's [contains] through the entry of the quad's node. *)
Lemma contains_entry (c : Content) (v : Z) (q : EncodedQuad) :
  Reader_contains c v q =
  match quad_set c !! q with Some p => entry_view c v (LogQuadNode p) | None => false end.
Proof.
  unfold Reader_contains, entry_view. destruct (quad_set c !! q) as [p|]; [|done]. simpl.
  by destruct (nodes c !! p).
Qed.
Lemma contains_graph_entry (c : Content) (v : Z) (g : EncodedTerm) :
  Reader_contains_named_graph c v g = entry_view c v (LogGraph g).
Proof. done. Qed.

(** A quad is seen exactly when its node is in range. *)
Lemma contains_node (c : Content) (v : Z) (q : EncodedQuad) :
  chains_ok c ->
  Reader_contains c v q = true <->
  exists p n, nodes c !! p = Some n /\ node_quad n = q /\ is_node_in_range v n = true.
Proof.
  intros Hc. unfold Reader_contains. split.
  - destruct (quad_set c !! q) as [p|] eqn:E; [|done]. simpl. destruct (nodes c !! p) as [n|] eqn:En; [|done].
    intros Hv. exists p, n. split_and!; try done. apply (co_set c Hc) in E.
    apply quads_node in E as (n' & ? & ?). congruence.
  - intros (p & n & Hn & Hq & Hv). assert (quad_set c !! q = Some p) as ->.
    { apply (co_set c Hc). rewrite <- Hq. by apply node_quads. }
    simpl. by rewrite Hn.
Qed.

(** What the iteration of a pattern collects. *)
Lemma collect_pattern (c : Content) (v : Z) (pat : QuadPattern) :
  chains_ok c ->
  exists l, QuadIterator_collect (S (length (nodes c))) c (quads_for_pattern c v pat) = Some l /\
    NoDup l /\
    (forall q, q ∈ l <-> Reader_contains c v q = true /\ pattern_matches pat q = true) /\
    forall cs, (forall i, same_nodes v c (cs i)) ->
      collect_concurrent (S (length (nodes c))) cs (quads_for_pattern c v pat) = Some l.
Proof.
  intros Hc. unfold quads_for_pattern. destruct (choose_chain_spec c pat Hc) as (x & -> & Hx).
  set (it := mkIterator v (chain_start c x) (fst <$> x) _).
  pose proof (chain_walk c x Hc) as Hw. exists (omap (yields c it) (positions (in_chain x) (quads c))).
  assert (forall q, in_chain x q && it_matches it q = pattern_matches pat q) as Hm.
  { intros q. by apply it_matches_chain. }
  pose proof (positions_length (in_chain x) (quads c)) as Hlen. rewrite quads_length in Hlen.
  split_and!; [| | |intros cs Hcs; apply (collect_concurrent_along c it (chain_start c x)); [done|lia|done]].
  - apply (collect_along c it (chain_start c x)); [done|lia..].
  - pose proof (positions_NoDup (in_chain x) (quads c)) as Hnd. revert Hnd.
    generalize (positions (in_chain x) (quads c)). induction l as [|p l IH]; intros Hnd; [constructor|].
    inversion Hnd as [|? ? Hp Hl]; subst. destruct (nodes c !! p) as [n|] eqn:En;
      [|simpl; unfold yields at 1; rewrite En; by apply IH].
    rewrite (yields_cons _ _ _ n _ En). destruct (_ && _); [|by apply IH].
    constructor; [|by apply IH]. rewrite list_elem_of_omap. intros (p' & Hp' & Hy). revert Hy. unfold yields.
    destruct (nodes c !! p') as [n'|] eqn:En'; simpl; [|done]. destruct (_ && _); [|done]. intros [= Hq].
    apply Hp. replace p with p'; [done|]. apply node_quads, (co_set c Hc) in En, En'. congruence.
  - intros q. rewrite list_elem_of_omap, (contains_node c v q Hc). split.
    + intros (p & Hp & Hy). apply elem_of_positions in Hp as (q' & Hq' & Hin). revert Hy. unfold yields.
      apply quads_node in Hq' as (n & Hn & <-). rewrite Hn. simpl.
      destruct (is_node_in_range v n && it_matches it (node_quad n)) eqn:E; [|done]. apply andb_true_iff in E as [E1 E2]. intros [= <-].
      split; [by exists p, n|]. by rewrite <- Hm, Hin, E2.
    + intros [(p & n & Hn & <- & Hv) Hp]. rewrite <- Hm in Hp. apply andb_true_iff in Hp as [Hin Hit].
      exists p. split; [apply elem_of_positions; exists (node_quad n); split; [by apply node_quads|done]|].
      unfold yields. rewrite Hn. simpl. replace (is_node_in_range v n) with true by done. by rewrite Hit.
Qed.

(** ** Removals *)

(** The state after making some entries absent, one after the other. *)
Definition removes (st : tx_state) (es : list LogEntry) : tx_state := foldl (fun st e => change_entry false e st) st es.

Lemma removes_shape (es : list LogEntry) (st : tx_state) : same_shape st.1 (removes st es).1.
Proof.
  revert st. induction es as [|e es IH]; intros st; [done|].
  etransitivity; [apply (change_entry_shape false e)|apply IH].
Qed.
Lemma removes_tx (es : list LogEntry) (st : tx_state) : same_tx st.2 (removes st es).2.
Proof.
  revert st. induction es as [|e es IH]; intros st; [done|].
  etransitivity; [apply (change_entry_tx false e)|apply IH].
Qed.
Lemma removes_extends (es : list LogEntry) (st : tx_state) (vc : Z) :
  vc < tx_transaction_id st.2 -> tx_extends vc st (removes st es).
Proof.
  revert st. induction es as [|e es IH]; intros st Hvc; [done|].
  etransitivity; [by apply (change_entry_extends false e)|]. apply IH.
  by rewrite (proj1 (change_entry_tx false e st)).
Qed.
Lemma removes_view (es : list LogEntry) (st : tx_state) (vc : Z) (e : LogEntry) :
  vc < tx_transaction_id st.2 -> ranges_ok st.1 vc (tx_transaction_id st.2) (tx_log st.2) ->
  entry_view (removes st es).1 (tx_transaction_id st.2) e
  = negb (bool_decide (e ∈ es)) && entry_view st.1 (tx_transaction_id st.2) e.
Proof.
  revert st. induction es as [|x es IH]; intros st Hvc Hok; [done|].
  pose proof (proj1 (change_entry_tx false x st)) as Hid.
  change (removes st (x :: es)) with (removes (change_entry false x st) es). rewrite <- Hid.
  rewrite IH; [|by rewrite Hid|].
  - rewrite Hid, (change_entry_view false x st vc Hvc e Hok).
    destruct (decide (x = e)) as [->|Hne].
    + rewrite (bool_decide_eq_true_2 (e ∈ e :: es)) by set_solver. by rewrite andb_false_r.
    + do 2 f_equal. apply bool_decide_ext. set_solver.
  - rewrite Hid. by apply (ext_ranges _ _ _ (change_entry_extends false x st vc Hvc)).
Qed.

(** The removal operations are removals of entries. *)
Lemma remove_encoded_removes (q : EncodedQuad) (st : tx_state) :
  remove_encoded q st = removes st (match quad_set st.1 !! q with Some p => [LogQuadNode p] | None => [] end).
Proof.
  unfold remove_encoded. destruct (quad_set st.1 !! q); [|done].
  apply (change_node_entry false).
Qed.

Lemma clear_chain_removes (c : Content) (start : option nat) (l : list nat) (fuel : nat) (st : tx_state) :
  chain c (fun n => node_previous_by n PosGraphName) start l -> (length l < fuel)%nat ->
  same_shape c st.1 ->
  clear_chain fuel start st = Some (removes st (LogQuadNode <$> l)).
Proof.
  intros Hch. revert fuel st. induction Hch as [|p n l Hn Hch IH]; intros [|fuel] st Hf Hs; try (simpl in Hf; lia).
  - done.
  - assert (exists n', nodes st.1 !! p = Some n' /\ node_previous_by n' = node_previous_by n) as (n' & Hn' & Hp).
    { pose proof (node_skeleton _ _ _ Hn) as Hsk. rewrite <- (proj1 Hs) in Hsk. unfold skeleton in Hsk.
      rewrite list_lookup_fmap in Hsk. apply fmap_Some in Hsk as (n' & ? & ?). exists n'. split; congruence. }
    simpl. rewrite Hn'. simpl. rewrite (change_node_entry false), Hp. apply IH; [simpl in Hf; lia|].
    etransitivity; [done|]. apply change_entry_shape.
Qed.

(** The entries of the quads of a graph. *)
Definition graph_entries (c : Content) (g : EncodedTerm) : list LogEntry :=
  LogQuadNode <$> positions (in_chain (Some (PosGraphName, g))) (quads c).

Lemma clear_encoded_graph_removes (g : EncodedTerm) (st : tx_state) :
  chains_ok st.1 -> clear_encoded_graph g st = removes st (graph_entries st.1 g).
Proof.
  intros Hc. unfold clear_encoded_graph. pose proof (chain_walk st.1 (Some (PosGraphName, g)) Hc) as Hw.
  replace (fst <$> last_quad_by st.1 PosGraphName !! g) with (chain_start st.1 (Some (PosGraphName, g))).
  - rewrite (clear_chain_removes st.1 _ _ _ _ Hw); [done| |done].
    pose proof (positions_length (in_chain (Some (PosGraphName, g))) (quads st.1)). rewrite quads_length in *. lia.
  - unfold chain_start. rewrite (co_last_by _ Hc).
    by destruct (positions (in_chain (Some (PosGraphName, g))) (quads st.1)).
Qed.
Lemma clear_all_graphs_removes (st : tx_state) :
  clear_all_graphs st = removes st ((fun x => LogQuadNode x.2) <$> map_to_list (quad_set st.1)).
Proof.
  unfold clear_all_graphs, removes. rewrite foldl_fmap. generalize (map_to_list (quad_set st.1)) as l.
  intros l. revert st. induction l as [|[q p] l IH]; intros st; [done|]. simpl.
  by rewrite (change_node_entry false), IH.
Qed.
Lemma remove_graph_name_removes (g : EncodedTerm) (st : tx_state) :
  remove_encoded_graph_name g st = removes st [LogGraph g].
Proof.
  unfold remove_encoded_graph_name. rewrite (change_graph_entry false). simpl. unfold change_entry. simpl.
  by destruct (graphs st.1 !! g).
Qed.
Lemma do_remove_graphs_removes (st : tx_state) :
  do_remove_graphs st = removes st ((fun x => LogGraph x.1) <$> map_to_list (graphs st.1)).
Proof.
  unfold do_remove_graphs, removes. rewrite foldl_fmap. generalize (map_to_list (graphs st.1)) as l.
  intros l. revert st. induction l as [|[g r] l IH]; intros st; [done|]. simpl.
  by rewrite remove_graph_name_removes, IH.
Qed.
Lemma removes_app (st : tx_state) (l k : list LogEntry) : removes (removes st l) k = removes st (l ++ k).
Proof. unfold removes. by rewrite foldl_app. Qed.
