(* ===== verification/MemorySpec.v ===== *)
(** * Specification of the in-memory store

    The promise of the store: every version is a dataset, a set of quads with the
    graph names and the namespace mappings that exist; a transaction works on its
    own copy of the latest dataset, and committing it makes that copy the next
    version.  The datasets are given by their characteristic functions. *)
From S2P Require Import Prelude MachineInt EncodedTerm RdfModel NumericEncoder VersionRange.
From S2P Require Import StoreKeys MemoryStorage MemoryRangeFacts MemoryOpsFacts.

#[local] Open Scope Z_scope.

Record dataset : Type := mkDataset {
  ds_quad : EncodedQuad -> bool;
  ds_graph : EncodedTerm -> bool;
  ds_namespace : NamespaceMapping -> bool
}.

(** Two datasets with the same content. *)
#[global] Instance dataset_equiv : Equiv dataset := fun a b =>
  (forall q, ds_quad a q = ds_quad b q) /\ (forall g, ds_graph a g = ds_graph b g) /\
  (forall m, ds_namespace a m = ds_namespace b m).
#[global] Instance dataset_equivalence : Equivalence (≡@{dataset}).
Proof.
  split; [by intros ?|intros a b (H1 & H2 & H3); by split_and!|].
  intros a b c (H1 & H2 & H3) (H4 & H5 & H6). split_and!; intros; congruence.
Qed.

Definition ds_empty : dataset := mkDataset (fun _ => false) (fun _ => false) (fun _ => false).
Definition is_named (g : EncodedTerm) : bool := negb (EncodedTerm_is_default_graph g).

(** ** The operations on a dataset *)

Definition ds_insert (q : EncodedQuad) (d : dataset) : dataset :=
  mkDataset (fun q' => bool_decide (q' = q) || ds_quad d q')
    (fun g => (bool_decide (g = quad_graph_name q) && is_named g) || ds_graph d g) (ds_namespace d).
Definition ds_insert_graph (g : EncodedTerm) (d : dataset) : dataset :=
  mkDataset (ds_quad d) (fun g' => bool_decide (g' = g) || ds_graph d g') (ds_namespace d).
Definition ds_remove (q : EncodedQuad) (d : dataset) : dataset :=
  mkDataset (fun q' => negb (bool_decide (q' = q)) && ds_quad d q') (ds_graph d) (ds_namespace d).
Definition ds_clear_graph (g : EncodedTerm) (d : dataset) : dataset :=
  mkDataset (fun q => negb (bool_decide (quad_graph_name q = g)) && ds_quad d q) (ds_graph d)
    (ds_namespace d).
Definition ds_remove_graph (g : EncodedTerm) (d : dataset) : dataset :=
  mkDataset (fun q => negb (bool_decide (quad_graph_name q = g)) && ds_quad d q)
    (fun g' => negb (bool_decide (g' = g)) && ds_graph d g') (ds_namespace d).
Definition ds_clear_named_graphs (d : dataset) : dataset :=
  mkDataset (fun q => negb (is_named (quad_graph_name q)) && ds_quad d q) (ds_graph d) (ds_namespace d).
Definition ds_remove_named_graphs (d : dataset) : dataset :=
  mkDataset (fun q => negb (is_named (quad_graph_name q)) && ds_quad d q) (fun _ => false)
    (ds_namespace d).
Definition ds_clear_quads (d : dataset) : dataset :=
  mkDataset (fun _ => false) (ds_graph d) (ds_namespace d).
Definition ds_clear (d : dataset) : dataset :=
  mkDataset (fun _ => false) (fun _ => false) (ds_namespace d).
Definition ds_add_namespace (m : NamespaceMapping) (d : dataset) : dataset :=
  mkDataset (ds_quad d) (ds_graph d) (fun m' => bool_decide (m' = m) || ds_namespace d m').
Definition ds_set_namespace (m : NamespaceMapping) (d : dataset) : dataset :=
  mkDataset (ds_quad d) (ds_graph d)
    (fun m' => bool_decide (m' = m) || (negb (bool_decide (ns_prefix m' = ns_prefix m)) && ds_namespace d m')).
Definition ds_remove_namespace (prefix : bytes) (d : dataset) : dataset :=
  mkDataset (ds_quad d) (ds_graph d)
    (fun m => negb (bool_decide (ns_prefix m = prefix)) && ds_namespace d m).
Definition ds_clear_namespaces (d : dataset) : dataset :=
  mkDataset (ds_quad d) (ds_graph d) (fun _ => false).

(** What every dataset of the store satisfies: the graph of a quad exists, only
    named graphs are listed, and a prefix has one namespace. *)
Record dataset_ok (d : dataset) : Prop := {
  ok_graph : forall q, ds_quad d q = true -> is_named (quad_graph_name q) = true ->
    ds_graph d (quad_graph_name q) = true;
  ok_named : forall g, ds_graph d g = true -> is_named g = true;
  ok_prefix : forall m m', ds_namespace d m = true -> ds_namespace d m' = true ->
    ns_prefix m = ns_prefix m' -> m = m'
}.
#[global] Instance dataset_ok_proper : Proper ((≡) ==> iff) dataset_ok.
Proof.
  assert (forall a b : dataset, a ≡ b -> dataset_ok a -> dataset_ok b) as H.
  { intros a b (Hq & Hg & Hn) [H1 H2 H3]. split; intros *; rewrite <- ?Hq, <- ?Hg, <- ?Hn; eauto. }
  intros a b E. split; apply H; [done|by symmetry].
Qed.

(** ** The datasets of the implementation *)

(** What a reader at version [v] sees. *)
Definition view (c : Content) (v : Z) : dataset :=
  mkDataset (Reader_contains c v) (Reader_contains_named_graph c v)
    (fun m => entry_view c v (LogNamespace m)).

(** Equal views of the entries are equal datasets, when no quad is added. *)
Lemma view_entries (c c' : Content) (v v' : Z) :
  quad_set c' = quad_set c -> (forall e, entry_view c' v' e = entry_view c v e) -> view c' v' ≡ view c v.
Proof.
  intros Hq He. split_and!; intros; simpl; [|apply (He (LogGraph g))|apply He].
  rewrite !contains_entry, Hq. by destruct (quad_set c !! q).
Qed.

(** The view after removing entries. *)
Lemma view_removes (st : tx_state) (es : list LogEntry) (vc : Z) (d : dataset) :
  vc < tx_transaction_id st.2 -> ranges_ok st.1 vc (tx_transaction_id st.2) (tx_log st.2) ->
  chains_ok st.1 ->
  (forall p q, quads st.1 !! p = Some q ->
     ds_quad d q = negb (bool_decide (LogQuadNode p ∈ es)) && Reader_contains st.1 (tx_transaction_id st.2) q) ->
  (forall q, quad_set st.1 !! q = None -> ds_quad d q = false) ->
  (forall g, ds_graph d g = negb (bool_decide (LogGraph g ∈ es)) && entry_view st.1 (tx_transaction_id st.2) (LogGraph g)) ->
  (forall m, ds_namespace d m = negb (bool_decide (LogNamespace m ∈ es)) && entry_view st.1 (tx_transaction_id st.2) (LogNamespace m)) ->
  view (removes st es).1 (tx_transaction_id st.2) ≡ d.
Proof.
  intros Hvc Hok Hc Hq Hq0 Hg Hn. split_and!; intros; simpl.
  - rewrite contains_entry. destruct (removes_shape es st) as (_ & -> & _).
    destruct (quad_set st.1 !! q) as [p|] eqn:E; [|symmetry; by apply Hq0].
    rewrite (removes_view es st vc) by done. rewrite (Hq p); [by rewrite contains_entry, E|].
    by apply (co_set _ Hc).
  - by rewrite Hg, contains_graph_entry, (removes_view es st vc).
  - by rewrite Hn, (removes_view es st vc).
Qed.

(** ** Refinement of one operation *)

(** A running transaction, on top of version [vc]. *)
Record tx_inv (vc : Z) (st : tx_state) : Prop := {
  ti_lt : vc + 1 < tx_transaction_id st.2;
  ti_ranges : ranges_ok st.1 vc (tx_transaction_id st.2) (tx_log st.2);
  ti_chains : chains_ok st.1;
  ti_ok : dataset_ok (view st.1 (tx_transaction_id st.2))
}.

(** The operation does [f] to the dataset of the transaction and nothing to the
    committed versions. *)
Record refines (vc : Z) (st st' : tx_state) (f : dataset -> dataset) : Prop := {
  re_tx : same_tx st.2 st'.2;
  re_ranges : ranges_ok st'.1 vc (tx_transaction_id st.2) (tx_log st'.2);
  re_chains : chains_ok st'.1;
  re_grows : skeleton st.1 `prefix_of` skeleton st'.1;
  re_old : forall v, v <= vc -> view st'.1 v ≡ view st.1 v;
  re_new : view st'.1 (tx_transaction_id st.2) ≡ f (view st.1 (tx_transaction_id st.2))
}.

Lemma refines_inv (vc : Z) (st st' : tx_state) (f : dataset -> dataset) :
  tx_inv vc st -> refines vc st st' f ->
  dataset_ok (f (view st.1 (tx_transaction_id st.2))) -> tx_inv vc st'.
Proof.
  intros [H1 H2 H3 H4] [Ht Hr Hc _ _ Hv] Hok. destruct Ht as [Hid _].
  split; rewrite ?Hid; [done..|]. by rewrite Hv.
Qed.

(** Removing entries of the transaction's view. *)
Lemma refines_removes (vc : Z) (st : tx_state) (es : list LogEntry) (f : dataset -> dataset) :
  tx_inv vc st ->
  view (removes st es).1 (tx_transaction_id st.2) ≡ f (view st.1 (tx_transaction_id st.2)) ->
  refines vc st (removes st es) f.
Proof.
  intros [H1 H2 H3 H4] Hv.
  assert (vc < tx_transaction_id st.2) as Hlt by lia. pose proof (removes_extends es st vc Hlt) as [Ht Hr Ho].
  split; [done|auto|by apply (same_shape_chains _ _ (removes_shape es st))|by rewrite (proj1 (removes_shape es st))| |done].
  intros v Hle. apply view_entries; [by apply removes_shape|]. intros e. by apply Ho.
Qed.

Section removals.
Context (vc : Z) (st : tx_state) (Hinv : tx_inv vc st).
Abbreviation tid := (tx_transaction_id st.2).

(** The premises of [view_removes] on the quads that are not in the store. *)
Lemma view_absent (q : EncodedQuad) (v : Z) : quad_set st.1 !! q = None -> Reader_contains st.1 v q = false.
Proof. intros E. by rewrite contains_entry, E. Qed.

Lemma remove_encoded_refines (q : EncodedQuad) : refines vc st (remove_encoded q st) (ds_remove q).
Proof.
  rewrite remove_encoded_removes. apply refines_removes; [done|]. destruct Hinv as [H1 H2 H3 H4].
  apply (view_removes _ _ vc); [lia|done..| | | |]; simpl.
  - intros p q' Hp. f_equal. f_equal. apply bool_decide_ext. apply (co_set _ H3) in Hp. split.
    + intros ->. rewrite Hp. set_solver.
    + destruct (quad_set st.1 !! q) as [p'|] eqn:E; [|set_solver].
      intros Heq%list_elem_of_singleton. injection Heq as ->. apply (co_set _ H3) in E, Hp. congruence.
  - intros q' E. rewrite view_absent by done. apply andb_false_r.
  - intros g. rewrite bool_decide_eq_false_2; [done|]. destruct (quad_set _ !! _); set_solver.
  - intros m. rewrite bool_decide_eq_false_2; [done|]. destruct (quad_set _ !! _); set_solver.
Qed.

Lemma elem_of_graph_entries (g : EncodedTerm) (p : nat) (q : EncodedQuad) :
  quads st.1 !! p = Some q -> LogQuadNode p ∈ graph_entries st.1 g <-> quad_graph_name q = g.
Proof.
  intros Hp. unfold graph_entries. rewrite list_elem_of_fmap. split.
  - intros (p' & [= <-] & Hp'). apply elem_of_positions in Hp' as (q' & Hq' & Hin).
    apply bool_decide_eq_true in Hin. simpl in Hin. congruence.
  - intros <-. exists p. split; [done|]. apply elem_of_positions. exists q. split; [done|].
    by apply bool_decide_eq_true.
Qed.
Lemma graph_entries_nodes (c : Content) (g : EncodedTerm) (e : LogEntry) :
  e ∈ graph_entries c g -> exists p, e = LogQuadNode p.
Proof. unfold graph_entries. rewrite list_elem_of_fmap. intros (p & -> & _). eauto. Qed.

Lemma clear_graph_refines (g : EncodedTerm) : refines vc st (clear_encoded_graph g st) (ds_clear_graph g).
Proof.
  rewrite clear_encoded_graph_removes by apply Hinv. apply refines_removes; [done|].
  destruct Hinv as [H1 H2 H3 H4]. apply (view_removes _ _ vc); [lia|done..| | | |]; simpl.
  - intros p q Hp. f_equal. f_equal. apply bool_decide_ext. by rewrite (elem_of_graph_entries g p q).
  - intros q E. rewrite view_absent by done. apply andb_false_r.
  - intros g'. rewrite bool_decide_eq_false_2; [done|]. by intros [p ?]%graph_entries_nodes.
  - intros m. rewrite bool_decide_eq_false_2; [done|]. by intros [p ?]%graph_entries_nodes.
Qed.

Lemma remove_named_graph_refines (g : EncodedTerm) :
  refines vc st (remove_encoded_named_graph g st) (ds_remove_graph g).
Proof.
  unfold remove_encoded_named_graph. rewrite clear_encoded_graph_removes by apply Hinv.
  rewrite remove_graph_name_removes, removes_app. apply refines_removes; [done|].
  destruct Hinv as [H1 H2 H3 H4]. apply (view_removes _ _ vc); [lia|done..| | | |]; simpl.
  - intros p q Hp. f_equal. f_equal. apply bool_decide_ext.
    rewrite elem_of_app, (elem_of_graph_entries g p q) by done. set_solver.
  - intros q E. rewrite view_absent by done. apply andb_false_r.
  - intros g'. rewrite contains_graph_entry. f_equal. f_equal. apply bool_decide_ext.
    rewrite elem_of_app, list_elem_of_singleton. split; [intros ->; by right|].
    intros [[p ?]%graph_entries_nodes|?]; [done|congruence].
  - intros m. rewrite bool_decide_eq_false_2; [done|]. rewrite elem_of_app, list_elem_of_singleton.
    by intros [[p ?]%graph_entries_nodes|?].
Qed.
(** Clearing several graphs. *)
Lemma clear_graphs_removes (gs : list EncodedTerm) (st' : tx_state) :
  chains_ok st'.1 -> quads st'.1 = quads st.1 ->
  foldl (fun st g => clear_encoded_graph g st) st' gs = removes st' (gs ≫= graph_entries st.1).
Proof.
  revert st'. induction gs as [|g gs IH]; intros st' Hc Hq; [done|]. simpl.
  rewrite clear_encoded_graph_removes, <- removes_app by done.
  assert (graph_entries st'.1 g = graph_entries st.1 g) as -> by (unfold graph_entries; by rewrite Hq).
  pose proof (removes_shape (graph_entries st.1 g) st') as Hs. apply IH.
  - by apply (same_shape_chains _ _ Hs).
  - by rewrite (same_shape_quads _ _ Hs).
Qed.
Lemma clear_all_named_removes :
  clear_all_named_graphs st = removes st (Reader_named_graphs st.1 tid ≫= graph_entries st.1).
Proof. apply clear_graphs_removes; [apply Hinv|done]. Qed.

Lemma elem_of_named_graphs (c : Content) (v : Z) (g : EncodedTerm) :
  g ∈ Reader_named_graphs c v <-> Reader_contains_named_graph c v g = true.
Proof.
  unfold Reader_named_graphs, Reader_contains_named_graph. rewrite list_elem_of_fmap. split.
  - intros ([g' r] & -> & Hin). apply list_elem_of_In, filter_In in Hin as [Hin Hr].
    apply list_elem_of_In, elem_of_map_to_list in Hin. simpl. by rewrite Hin.
  - destruct (graphs c !! g) as [r|] eqn:E; [|done]. intros Hr. exists (g, r). split; [done|].
    apply list_elem_of_In, filter_In. split; [|done]. by apply list_elem_of_In, elem_of_map_to_list.
Qed.
Lemma elem_of_named_entries (e : LogEntry) :
  e ∈ Reader_named_graphs st.1 tid ≫= graph_entries st.1 <->
  exists g, Reader_contains_named_graph st.1 tid g = true /\ e ∈ graph_entries st.1 g.
Proof.
  rewrite list_elem_of_bind. split; intros (g & H1 & H2); exists g; [|split; [done|]];
    rewrite ?elem_of_named_graphs in *; done.
Qed.

(** The quads of the listed graphs are those of the named graphs. *)
Lemma named_quads (p : nat) (q : EncodedQuad) :
  quads st.1 !! p = Some q ->
  negb (bool_decide (LogQuadNode p ∈ Reader_named_graphs st.1 tid ≫= graph_entries st.1))
    && Reader_contains st.1 tid q
  = negb (is_named (quad_graph_name q)) && Reader_contains st.1 tid q.
Proof.
  intros Hp. destruct Hinv as [_ _ _ [Hg Hn _]]. simpl in *.
  destruct (Reader_contains st.1 tid q) eqn:E; [|by rewrite !andb_false_r]. f_equal. f_equal.
  destruct (is_named (quad_graph_name q)) eqn:En.
  - apply bool_decide_eq_true. rewrite elem_of_named_entries. exists (quad_graph_name q).
    split; [by apply Hg|]. by apply (elem_of_graph_entries _ p q).
  - apply bool_decide_eq_false. rewrite elem_of_named_entries. intros (g & Hv & Hin).
    apply (elem_of_graph_entries g p q) in Hin; [|done]. subst. apply Hn in Hv. congruence.
Qed.
Lemma named_entries_nodes (e : LogEntry) :
  e ∈ Reader_named_graphs st.1 tid ≫= graph_entries st.1 -> exists p, e = LogQuadNode p.
Proof. rewrite elem_of_named_entries. intros (g & _ & H). by eapply graph_entries_nodes. Qed.

Lemma clear_all_named_refines : refines vc st (clear_all_named_graphs st) ds_clear_named_graphs.
Proof.
  rewrite clear_all_named_removes. apply refines_removes; [done|]. pose proof Hinv as [H1 H2 H3 H4].
  apply (view_removes _ _ vc); [lia|done..| | | |]; simpl.
  - intros p q Hp. symmetry. by apply named_quads.
  - intros q E. rewrite view_absent by done. apply andb_false_r.
  - intros g. rewrite bool_decide_eq_false_2; [done|]. by intros [p ?]%named_entries_nodes.
  - intros m. rewrite bool_decide_eq_false_2; [done|]. by intros [p ?]%named_entries_nodes.
Qed.

(** All the graph names. *)
Lemma elem_of_all_graphs (c : Content) (e : LogEntry) :
  e ∈ (fun x => LogGraph x.1) <$> map_to_list (graphs c) <-> exists g, e = LogGraph g /\ is_Some (graphs c !! g).
Proof.
  rewrite list_elem_of_fmap. split.
  - intros ([g r] & -> & Hin%elem_of_map_to_list). eauto.
  - intros (g & -> & [r Hr]). exists (g, r). split; [done|]. by apply elem_of_map_to_list.
Qed.
Lemma all_graphs_absent (c : Content) (g : EncodedTerm) (es : list LogEntry) :
  same_shape st.1 c ->
  negb (bool_decide (LogGraph g ∈ es ++ ((fun x => LogGraph x.1) <$> map_to_list (graphs c))))
    && entry_view st.1 tid (LogGraph g) = false.
Proof.
  intros (_ & _ & _ & _ & Hg & _). unfold entry_view. simpl.
  destruct (graphs st.1 !! g) as [r|] eqn:E; [|apply andb_false_r].
  rewrite bool_decide_eq_true_2; [done|]. rewrite elem_of_app, elem_of_all_graphs.
  right. exists g. split; [done|]. apply Hg. eauto.
Qed.
Lemma all_graphs_only (c : Content) (e : LogEntry) (es : list LogEntry) :
  (forall g, e <> LogGraph g) ->
  bool_decide (e ∈ es ++ ((fun x => LogGraph x.1) <$> map_to_list (graphs c))) = bool_decide (e ∈ es).
Proof.
  intros He. apply bool_decide_ext. rewrite elem_of_app, elem_of_all_graphs. split; [|by left].
  intros [?|(g & ? & _)]; [done|]. by destruct (He g).
Qed.

Lemma remove_all_named_refines : refines vc st (remove_all_named_graphs st) ds_remove_named_graphs.
Proof.
  unfold remove_all_named_graphs. rewrite do_remove_graphs_removes, clear_all_named_removes, removes_app.
  apply refines_removes; [done|]. pose proof Hinv as [H1 H2 H3 H4].
  apply (view_removes _ _ vc); [lia|done..| | | |]; simpl.
  - intros p q Hp. rewrite all_graphs_only by done. symmetry. by apply named_quads.
  - intros q E. rewrite view_absent by done. apply andb_false_r.
  - intros g. symmetry. apply all_graphs_absent, removes_shape.
  - intros m. rewrite all_graphs_only by done. rewrite bool_decide_eq_false_2; [done|].
    by intros [p ?]%named_entries_nodes.
Qed.

(** All the quads. *)
Lemma elem_of_all_quads (p : nat) :
  chains_ok st.1 ->
  LogQuadNode p ∈ (fun x => LogQuadNode x.2) <$> map_to_list (quad_set st.1) <-> (p < length (nodes st.1))%nat.
Proof.
  intros Hc. rewrite list_elem_of_fmap. split.
  - intros ([q p'] & [= ->] & Hin%elem_of_map_to_list). apply (co_set _ Hc), lookup_lt_Some in Hin.
    by rewrite quads_length in Hin.
  - intros Hp. rewrite <- quads_length in Hp. apply lookup_lt_is_Some_2 in Hp as [q Hq].
    exists (q, p). split; [done|]. by apply elem_of_map_to_list, (co_set _ Hc).
Qed.
Lemma all_quads_absent (p : nat) (q : EncodedQuad) :
  quads st.1 !! p = Some q ->
  bool_decide (LogQuadNode p ∈ ((fun x => LogQuadNode x.2) <$> map_to_list (quad_set st.1))) = true.
Proof.
  intros Hp. apply bool_decide_eq_true. rewrite elem_of_all_quads by apply Hinv.
  apply lookup_lt_Some in Hp. by rewrite quads_length in Hp.
Qed.
Lemma all_quads_only (e : LogEntry) :
  (forall p, e <> LogQuadNode p) ->
  bool_decide (e ∈ ((fun x => LogQuadNode x.2) <$> map_to_list (quad_set st.1))) = false.
Proof.
  intros He. apply bool_decide_eq_false. rewrite list_elem_of_fmap. intros ([q p] & ? & _). by destruct (He p).
Qed.

Lemma clear_all_graphs_refines : refines vc st (clear_all_graphs st) ds_clear_quads.
Proof.
  rewrite clear_all_graphs_removes. apply refines_removes; [done|]. pose proof Hinv as [H1 H2 H3 H4].
  apply (view_removes _ _ vc); [lia|done..| | | |]; simpl; try done.
  - intros p q Hp. by rewrite (all_quads_absent p q).
  - intros g. by rewrite all_quads_only.
  - intros m. by rewrite all_quads_only.
Qed.
Lemma clear_refines : refines vc st (clear st) ds_clear.
Proof.
  unfold clear. rewrite do_remove_graphs_removes, clear_all_graphs_removes, removes_app.
  apply refines_removes; [done|]. pose proof Hinv as [H1 H2 H3 H4].
  apply (view_removes _ _ vc); [lia|done..| | | |]; simpl; try done.
  - intros p q Hp. by rewrite all_graphs_only, (all_quads_absent p q).
  - intros g. symmetry. apply all_graphs_absent, removes_shape.
  - intros m. by rewrite all_graphs_only, all_quads_only.
Qed.
End removals.

(** ** Additions *)

Lemma insert_named_graph_new (g : EncodedTerm) (st : tx_state) :
  graphs st.1 !! g = None ->
  insert_encoded_named_graph g st =
  (set_graphs st.1 (<[g := RangeStart (tx_transaction_id st.2)]> (graphs st.1)), push_log st.2 (LogGraph g)).
Proof. destruct st as [c t]. simpl. intros E. unfold insert_encoded_named_graph. simpl. by rewrite E. Qed.
Lemma insert_named_graph_old (g : EncodedTerm) (st : tx_state) :
  is_Some (graphs st.1 !! g) -> insert_encoded_named_graph g st = change_entry true (LogGraph g) st.
Proof.
  intros [r E]. unfold insert_encoded_named_graph. rewrite (change_graph_entry true). by rewrite E.
Qed.
Lemma add_namespace_new (m : NamespaceMapping) (st : tx_state) :
  namespaces st.1 !! m = None ->
  add_namespace_mapping m st =
  (set_namespaces st.1 (<[m := RangeStart (tx_transaction_id st.2)]> (namespaces st.1)),
   push_log st.2 (LogNamespace m)).
Proof. destruct st as [c t]. simpl. intros E. unfold add_namespace_mapping. simpl. by rewrite E. Qed.
Lemma add_namespace_old (m : NamespaceMapping) (st : tx_state) :
  is_Some (namespaces st.1 !! m) -> add_namespace_mapping m st = change_entry true (LogNamespace m) st.
Proof. intros [r E]. unfold add_namespace_mapping. rewrite (change_namespace_entry true). by rewrite E. Qed.
Lemma remove_namespace_removes (m : NamespaceMapping) (st : tx_state) :
  remove_namespace_mapping m st = removes st [LogNamespace m].
Proof.
  unfold remove_namespace_mapping. rewrite (change_namespace_entry false). simpl. unfold change_entry. simpl.
  by destruct (namespaces st.1 !! m).
Qed.
Lemma elem_of_push (t : MemoryStorageTransaction) (e e' : LogEntry) :
  e' ∈ tx_log (push_log t e) <-> e' ∈ tx_log t \/ e' = e.
Proof. simpl. by rewrite elem_of_app, list_elem_of_singleton. Qed.

Section additions.
Context (vc : Z) (st : tx_state) (Hinv : tx_inv vc st).
Abbreviation tid := (tx_transaction_id st.2).

Lemma ti_lt' : vc < tid.
Proof. destruct Hinv. lia. Qed.

(** Making an entry of the store present. *)
Lemma change_entry_adds (e e' : LogEntry) :
  is_Some (entry_range st.1 e) ->
  entry_view (change_entry true e st).1 tid e' = bool_decide (e' = e) || entry_view st.1 tid e'.
Proof.
  intros He. rewrite (change_entry_view true e st vc ti_lt' e' (ti_ranges _ _ Hinv)).
  destruct (decide (e = e')) as [<-|]; [by rewrite !bool_decide_eq_true_2|].
  by rewrite bool_decide_eq_false_2 by congruence.
Qed.

(** Changes of an entry, with the dataset they lead to. *)
Lemma refines_change (b : bool) (e : LogEntry) (f : dataset -> dataset) :
  view (change_entry b e st).1 tid ≡ f (view st.1 tid) -> refines vc st (change_entry b e st) f.
Proof.
  intros Hv. pose proof (change_entry_extends b e st vc ti_lt') as [Ht Hr Ho]. destruct Hinv as [H1 H2 H3 H4].
  pose proof (change_entry_shape b e st) as Hs.
  split; [done|auto|by apply (same_shape_chains _ _ Hs)|by rewrite (proj1 Hs)| |done].
  intros v Hle. apply view_entries; [by apply Hs|]. intros e'. by apply Ho.
Qed.
Lemma refines_extends (st' : tx_state) (f : dataset -> dataset) :
  tx_extends vc st st' -> chains_ok st'.1 -> skeleton st'.1 = skeleton st.1 ->
  quad_set st'.1 = quad_set st.1 -> view st'.1 tid ≡ f (view st.1 tid) -> refines vc st st' f.
Proof.
  intros [Ht Hr Ho] Hc Hsk Hq Hv. destruct Hinv as [H1 H2 H3 H4].
  split; [done|auto|done|by rewrite Hsk| |done].
  intros v Hle. apply view_entries; [done|]. intros e. by apply Ho.
Qed.

Lemma graphs_insert_chains (c : Content) (g : EncodedTerm) (r : VersionRange) :
  chains_ok c -> chains_ok (set_graphs c (<[g := r]> (graphs c))).
Proof.
  intros [H1 H2 H3 H4 H5]. split; try done. intros q Hq Hd. simpl. rewrite lookup_insert.
  case_decide; [by eauto|]. by apply H5.
Qed.

(** A view with one more entry that is not a quad. *)
Lemma view_adds (c' : Content) (e : LogEntry) (f : dataset -> dataset) :
  quad_set c' = quad_set st.1 ->
  (forall e', entry_view c' tid e' = bool_decide (e' = e) || entry_view st.1 tid e') ->
  match e with
  | LogQuadNode _ => False
  | LogGraph g => f = ds_insert_graph g
  | LogNamespace m => f = ds_add_namespace m
  end -> view c' tid ≡ f (view st.1 tid).
Proof.
  intros Hq He Hf. destruct e as [p|g|m]; [done|..]; subst f; split_and!; intros; simpl;
    rewrite ?contains_entry, ?contains_graph_entry, ?Hq, ?He;
    try (rewrite (bool_decide_eq_false_2 (_ = _)) by done; done).
  - destruct (quad_set st.1 !! q); [|done]. rewrite He. by rewrite bool_decide_eq_false_2.
  - f_equal. apply bool_decide_ext. split; congruence.
  - destruct (quad_set st.1 !! q); [|done]. rewrite He. by rewrite bool_decide_eq_false_2.
  - f_equal. apply bool_decide_ext. split; congruence.
Qed.

(** A new entry. *)
Lemma refines_new (e : LogEntry) (st' : tx_state) (f : dataset -> dataset) :
  entry_range st.1 e = None -> entry_range st'.1 e = Some (RangeStart tid) ->
  (forall e', e' <> e -> entry_range st'.1 e' = entry_range st.1 e') ->
  st'.2 = push_log st.2 e -> chains_ok st'.1 -> skeleton st'.1 = skeleton st.1 ->
  quad_set st'.1 = quad_set st.1 ->
  match e with
  | LogQuadNode _ => False
  | LogGraph g => f = ds_insert_graph g
  | LogNamespace m => f = ds_add_namespace m
  end -> refines vc st st' f.
Proof.
  intros Hn Hs Ho Ht Hc Hsk Hq Hf. apply refines_extends; [|done|done|done|].
  - eapply (new_entry_extends e); [apply ti_lt'|done|done|done|by rewrite Ht|..]; rewrite Ht; intros;
      rewrite elem_of_push; tauto.
  - apply (view_adds st'.1 e); [done| |done]. intros e'.
    rewrite (new_entry_view e st st' Hs Ho e'). destruct (decide (e = e')) as [<-|].
    + by rewrite bool_decide_eq_true_2.
    + by rewrite bool_decide_eq_false_2 by congruence.
Qed.

Lemma insert_named_graph_refines (g : EncodedTerm) :
  refines vc st (insert_encoded_named_graph g st) (ds_insert_graph g).
Proof.
  destruct (graphs st.1 !! g) as [r|] eqn:E.
  - rewrite insert_named_graph_old by eauto. apply refines_change.
    apply (view_adds _ (LogGraph g)); [by apply change_entry_shape| |done].
    intros e'. apply change_entry_adds. simpl. eauto.
  - rewrite insert_named_graph_new by done. apply (refines_new (LogGraph g)); simpl; try done.
    + apply lookup_insert_eq.
    + intros [p|g'|m] Hne; [done| |done]. simpl. apply lookup_insert_ne. congruence.
    + apply graphs_insert_chains, Hinv.
Qed.
Lemma add_namespace_refines (m : NamespaceMapping) :
  refines vc st (add_namespace_mapping m st) (ds_add_namespace m).
Proof.
  destruct (namespaces st.1 !! m) as [r|] eqn:E.
  - rewrite add_namespace_old by eauto. apply refines_change.
    apply (view_adds _ (LogNamespace m)); [by apply change_entry_shape| |done].
    intros e'. apply change_entry_adds. simpl. eauto.
  - rewrite add_namespace_new by done. apply (refines_new (LogNamespace m)); simpl; try done.
    + apply lookup_insert_eq.
    + intros [p|g'|m'] Hne; [done|done|]. simpl. apply lookup_insert_ne. congruence.
    + pose proof (ti_chains _ _ Hinv) as [? ? ? ? ?]. by split.
Qed.

(** *** Inserting a quad *)

(** The quad is in the store: whether [add] changes its range. *)
Lemma change_node_added (p : nat) (q : EncodedQuad) :
  quad_set st.1 !! q = Some p ->
  change_node VersionRange_add p st
  = (change_entry true (LogQuadNode p) st, negb (Reader_contains st.1 tid q)).
Proof.
  intros Hq. rewrite contains_entry, Hq. rewrite <- (change_node_entry true). simpl.
  unfold change_node, entry_view. simpl. pose proof Hinv as [H1 H2 H3 H4].
  apply (co_set _ H3) in Hq. apply quads_node in Hq as (n & Hn & _).
  destruct (H2 (LogQuadNode p) (node_range n)) as (r0 & Hr0); [simpl; by rewrite Hn|].
  destruct (range_ok_pending _ _ _ _ _ ti_lt' Hr0) as (Hw & Hb & Hp).
  destruct st as [c t]. simpl in *. rewrite Hn. simpl.
  rewrite (pending_present _ r0) by done. by rewrite (add_pending _ r0).
Qed.

(** The entries of the quad and of its graph are added to the view. *)
Lemma view_insert (c' : Content) (p : nat) (q : EncodedQuad) :
  chains_ok st.1 -> quad_set st.1 !! q = Some p -> quad_set c' = quad_set st.1 ->
  (forall e, entry_view c' tid e =
     bool_decide (e = LogQuadNode p)
     || (is_named (quad_graph_name q) && bool_decide (e = LogGraph (quad_graph_name q)))
     || entry_view st.1 tid e) ->
  view c' tid ≡ ds_insert q (view st.1 tid).
Proof.
  intros Hc Hp Hq He. split_and!; intros; simpl.
  - rewrite !contains_entry, Hq. destruct (quad_set st.1 !! q0) as [p0|] eqn:E.
    + rewrite He. rewrite (bool_decide_eq_false_2 (LogQuadNode p0 = LogGraph _)) by done.
      rewrite andb_false_r, orb_false_r. f_equal. apply bool_decide_ext. split; [|congruence].
      intros [= ->]. apply (co_set _ Hc) in Hp, E. congruence.
    + rewrite bool_decide_eq_false_2; [done|]. congruence.
  - rewrite !contains_graph_entry, He. f_equal. rewrite bool_decide_eq_false_2 by done. simpl.
    destruct (decide (g = quad_graph_name q)) as [->|].
    + rewrite !bool_decide_eq_true_2 by done. by rewrite andb_true_r.
    + rewrite !bool_decide_eq_false_2 by congruence. by rewrite andb_false_r.
  - rewrite He. rewrite !bool_decide_eq_false_2 by done. by rewrite andb_false_r.
Qed.

(** In the store already: the graph is added too, or only the quad. *)
Section present.
Context (p : nat) (q : EncodedQuad) (Hq : quad_set st.1 !! q = Some p).
Abbreviation st1 := (change_entry true (LogQuadNode p) st).

Lemma node_added_view (e : LogEntry) :
  entry_view st1.1 tid e = bool_decide (e = LogQuadNode p) || entry_view st.1 tid e.
Proof.
  apply change_entry_adds. apply (co_set _ (ti_chains _ _ Hinv)), quads_node in Hq as (n & Hn & _).
  simpl. rewrite Hn. simpl. eauto.
Qed.

Lemma insert_node_only :
  Reader_contains st.1 tid q = true \/ is_named (quad_graph_name q) = false ->
  refines vc st st1 (ds_insert q).
Proof.
  intros Hor. pose proof (change_entry_shape true (LogQuadNode p) st) as Hs. apply refines_change.
  apply (view_insert _ p); [apply Hinv|done|apply Hs|]. intros e. rewrite node_added_view.
  destruct (is_named (quad_graph_name q)) eqn:En; [|by rewrite orb_false_r].
  destruct Hor as [E|?]; [|done]. destruct (decide (e = LogGraph (quad_graph_name q))) as [->|Hne].
  - rewrite (bool_decide_eq_false_2 (_ = LogQuadNode _)) by done. simpl.
    pose proof (ok_graph _ (ti_ok _ _ Hinv) q E En) as Hg. simpl in Hg.
    rewrite contains_graph_entry in Hg. by rewrite Hg, orb_true_r.
  - rewrite (bool_decide_eq_false_2 (e = LogGraph _)) by done. by rewrite andb_false_r, orb_false_r.
Qed.

Lemma insert_node_and_graph :
  is_named (quad_graph_name q) = true ->
  exists st', change_graph VersionRange_add (quad_graph_name q) st1 = Some st' /\
    refines vc st st' (ds_insert q).
Proof.
  intros En. pose proof Hinv as [H1 H2 H3 H4]. rewrite (change_graph_entry true).
  pose proof (change_entry_shape true (LogQuadNode p) st) as Hs1.
  pose proof (change_entry_extends true (LogQuadNode p) st vc ti_lt') as He1.
  assert (is_Some (graphs st1.1 !! quad_graph_name q)) as [r Er].
  { destruct Hs1 as (_ & _ & _ & _ & Hg & _). apply Hg, (co_graphs _ H3); [|by apply negb_true_iff].
    by apply (co_set _ H3), list_elem_of_lookup_2 in Hq. }
  rewrite Er. eexists. split; [done|]. destruct (ext_tx _ _ _ He1) as [Hid _].
  pose proof (change_entry_shape true (LogGraph (quad_graph_name q)) st1) as Hs2.
  assert (vc < tx_transaction_id st1.2) as Hlt by (rewrite Hid; apply ti_lt').
  pose proof (ext_ranges _ _ _ He1 H2) as Hr1. rewrite <- Hid in Hr1.
  assert (same_shape st.1 (change_entry true (LogGraph (quad_graph_name q)) st1).1) as Hs by by etransitivity.
  apply refines_extends; [|by apply (same_shape_chains _ _ Hs)|apply Hs|apply Hs|].
  - etransitivity; [exact He1|]. by apply change_entry_extends.
  - apply (view_insert _ p); [done|done|apply Hs|].
    intros e. rewrite <- Hid at 1. rewrite (change_entry_view true _ st1 vc Hlt e Hr1), Hid, node_added_view, En.
    simpl. destruct (decide (LogGraph (quad_graph_name q) = e)) as [<-|Hne].
    + rewrite (bool_decide_eq_true_2 (is_Some _)) by (simpl; rewrite Er; eauto).
      rewrite (bool_decide_eq_true_2 (LogGraph _ = LogGraph _)) by done. by rewrite orb_true_r.
    + rewrite (bool_decide_eq_false_2 (e = LogGraph _)) by congruence. by rewrite orb_false_r.
Qed.

Lemma insert_old_refines : exists st', insert_encoded q st = Some st' /\ refines vc st st' (ds_insert q).
Proof.
  unfold insert_encoded. rewrite Hq, (change_node_added p q Hq).
  change (negb (EncodedTerm_is_default_graph (quad_graph_name q))) with (is_named (quad_graph_name q)).
  destruct (is_named (quad_graph_name q)) eqn:En; [destruct (Reader_contains st.1 tid q) eqn:E|].
  - eexists. split; [done|]. apply insert_node_only. by left.
  - by apply insert_node_and_graph.
  - rewrite andb_false_r. eexists. split; [done|]. apply insert_node_only. by right.
Qed.
End present.
End additions.

(** A graph name is added without changing anything else. *)
Lemma insert_named_graph_extends (vc : Z) (g : EncodedTerm) (st : tx_state) :
  vc < tx_transaction_id st.2 ->
  ranges_ok st.1 vc (tx_transaction_id st.2) (tx_log st.2) ->
  tx_extends vc st (insert_encoded_named_graph g st) /\
  forall e, entry_view (insert_encoded_named_graph g st).1 (tx_transaction_id st.2) e
  = bool_decide (e = LogGraph g) || entry_view st.1 (tx_transaction_id st.2) e.
Proof.
  intros Hlt Hok. destruct (graphs st.1 !! g) as [r|] eqn:E.
  - rewrite insert_named_graph_old by eauto. split; [by apply change_entry_extends|]. intros e.
    rewrite (change_entry_view true (LogGraph g) st vc Hlt e Hok).
    destruct (decide (LogGraph g = e)) as [<-|]; [rewrite !bool_decide_eq_true_2; simpl; eauto|].
    by rewrite bool_decide_eq_false_2 by congruence.
  - rewrite insert_named_graph_new by done. set (st' := (_, _)).
    assert (entry_range st'.1 (LogGraph g) = Some (RangeStart (tx_transaction_id st.2))) as Hs by apply lookup_insert_eq.
    assert (forall e, e <> LogGraph g -> entry_range st'.1 e = entry_range st.1 e) as Ho.
    { intros [p|g'|m] Hne; [done| |done]. simpl. apply lookup_insert_ne. congruence. }
    split; [apply (new_entry_extends (LogGraph g)); try done;
            change (st'.2) with (push_log st.2 (LogGraph g)); intros; rewrite elem_of_push; tauto|].
    intros e. rewrite (new_entry_view (LogGraph g) st st' Hs Ho e).
    destruct (decide (LogGraph g = e)) as [<-|]; [by rewrite bool_decide_eq_true_2|].
    by rewrite bool_decide_eq_false_2 by congruence.
Qed.
Lemma insert_named_graph_shape (g : EncodedTerm) (st : tx_state) :
  let c' := (insert_encoded_named_graph g st).1 in
  skeleton c' = skeleton st.1 /\ quad_set c' = quad_set st.1 /\ last_quad c' = last_quad st.1 /\
  last_quad_by c' = last_quad_by st.1 /\
  (forall g', is_Some (graphs st.1 !! g') -> is_Some (graphs c' !! g')) /\ is_Some (graphs c' !! g).
Proof.
  destruct (graphs st.1 !! g) as [r|] eqn:E.
  - rewrite insert_named_graph_old by eauto.
    destruct (change_entry_shape true (LogGraph g) st) as (? & ? & ? & ? & Hg & _).
    split_and!; try done; [intros g' ?; by apply Hg|apply Hg; eauto].
  - rewrite insert_named_graph_new by done. simpl. split_and!; try done.
    + intros g' Hg'. rewrite lookup_insert. case_decide; [eauto|done].
    + rewrite lookup_insert_eq. eauto.
Qed.
Lemma insert_named_graph_tx (g : EncodedTerm) (st : tx_state) :
  same_tx st.2 (insert_encoded_named_graph g st).2.
Proof.
  destruct (graphs st.1 !! g) as [r|] eqn:E.
  - rewrite insert_named_graph_old by eauto. apply change_entry_tx.
  - by rewrite insert_named_graph_new.
Qed.
(** The order of the two log entries does not matter. *)
Lemma insert_named_graph_log (g : EncodedTerm) (c : Content) (t : MemoryStorageTransaction) (x : LogEntry) :
  let st1 := insert_encoded_named_graph g (c, push_log t x) in
  let st2 := insert_encoded_named_graph g (c, t) in
  st1.1 = st2.1 /\ forall e, e ∈ tx_log st1.2 <-> e ∈ tx_log (push_log st2.2 x).
Proof.
  destruct (graphs c !! g) as [r|] eqn:E.
  - rewrite !insert_named_graph_old by (simpl; eauto). unfold change_entry. simpl. rewrite E.
    destruct (VersionRange_add r (tx_transaction_id t)) as [r' []]; simpl; split; try done.
    intros e. rewrite !elem_of_app, !list_elem_of_singleton. tauto.
  - rewrite !insert_named_graph_new by done. simpl. split; [done|].
    intros e. rewrite !elem_of_app, !list_elem_of_singleton. tauto.
Qed.

Section insert_new.
Context (vc : Z) (c : Content) (t : MemoryStorageTransaction) (Hinv : tx_inv vc (c, t)).
Context (q : EncodedQuad) (Hq : quad_set c !! q = None).
Abbreviation tid := (tx_transaction_id t).
Abbreviation p := (length (nodes c)).
Abbreviation linked := (link_node c q tid, push_log t (LogQuadNode p)).

Lemma link_node_range (e : LogEntry) :
  e <> LogQuadNode p -> entry_range (link_node c q tid) e = entry_range c e.
Proof.
  intros He. destruct e as [i|g|m]; [|done|done]. simpl. f_equal.
  destruct (decide (i < length (nodes c))%nat); [by rewrite lookup_app_l|].
  rewrite lookup_app_r by lia. destruct (i - length (nodes c))%nat eqn:E; [|by rewrite (lookup_ge_None_2 (nodes c)) by lia].
  destruct He. f_equal. lia.
Qed.
Lemma link_node_new : entry_range c (LogQuadNode p) = None /\
  entry_range (link_node c q tid) (LogQuadNode p) = Some (RangeStart tid).
Proof.
  simpl. rewrite (lookup_ge_None_2 (nodes c)) by lia. split; [done|]. by rewrite lookup_app_r, Nat.sub_diag.
Qed.
Lemma linked_extends : tx_extends vc (c, t) linked.
Proof.
  destruct link_node_new as [Hn Hs]. destruct Hinv. simpl in *.
  apply (new_entry_extends (LogQuadNode p)); simpl; try done; try lia.
  - apply link_node_range.
  - intros. rewrite elem_of_app. by left.
  - rewrite elem_of_app. right. by apply list_elem_of_singleton.
Qed.
Lemma linked_view (e : LogEntry) :
  entry_view (link_node c q tid) tid e = bool_decide (e = LogQuadNode p) || entry_view c tid e.
Proof.
  destruct link_node_new as [Hn Hs].
  pose proof (new_entry_view (LogQuadNode p) (c, t) linked Hs link_node_range e) as Hv.
  simpl in Hv. rewrite Hv. destruct (decide (LogQuadNode p = e)) as [<-|]; [by rewrite bool_decide_eq_true_2|].
  by rewrite bool_decide_eq_false_2 by congruence.
Qed.

(** The state with the new node, its log entry, and its graph. *)
Definition inserted : tx_state :=
  if EncodedTerm_is_default_graph (quad_graph_name q) then linked
  else insert_encoded_named_graph (quad_graph_name q) linked.

Lemma inserted_extends : tx_extends vc (c, t) inserted /\
  forall e, entry_view inserted.1 tid e =
    bool_decide (e = LogQuadNode p)
    || (is_named (quad_graph_name q) && bool_decide (e = LogGraph (quad_graph_name q)))
    || entry_view c tid e.
Proof.
  unfold inserted, is_named. destruct (EncodedTerm_is_default_graph (quad_graph_name q)); simpl.
  - split; [apply linked_extends|]. intros e. rewrite linked_view. by rewrite orb_false_r.
  - pose proof linked_extends as He. destruct Hinv as [H1 H2 _ _]. simpl in *.
    destruct (insert_named_graph_extends vc (quad_graph_name q) linked) as [Hx Hv]; simpl; [lia|by apply He|].
    split; [by etransitivity|]. intros e. simpl in Hv. rewrite Hv, linked_view.
    by destruct (bool_decide (e = LogQuadNode p)), (bool_decide (e = LogGraph _)).
Qed.

Lemma inserted_chains : chains_ok inserted.1 /\ quad_set inserted.1 = <[q := p]> (quad_set c) /\
  skeleton c `prefix_of` skeleton inserted.1.
Proof.
  destruct Hinv as [_ _ Hc _]. simpl in Hc. unfold inserted.
  assert (skeleton c `prefix_of` skeleton (link_node c q tid)) as Hsk.
  { unfold skeleton. simpl. rewrite fmap_app. by apply prefix_app_r. }
  destruct (EncodedTerm_is_default_graph (quad_graph_name q)) eqn:E.
  - split; [|done]. apply (link_node_chains c _ q tid); simpl; try done. congruence.
  - destruct (insert_named_graph_shape (quad_graph_name q) linked) as (H1 & H2 & H3 & H4 & H5 & H6).
    split; [|by rewrite H2, H1]. by apply (link_node_chains c _ q tid).
Qed.

(** Inserting the quad leads to that state, up to the order of the log. *)
Lemma insert_new_inserted :
  exists st', insert_encoded q (c, t) = Some st' /\ st'.1 = inserted.1 /\ same_tx t st'.2 /\
    forall e, e ∈ tx_log inserted.2 <-> e ∈ tx_log st'.2.
Proof.
  unfold insert_encoded, inserted. simpl. rewrite Hq.
  destruct (EncodedTerm_is_default_graph (quad_graph_name q)); [by eexists|].
  destruct (insert_named_graph_log (quad_graph_name q) (link_node c q tid) t (LogQuadNode p)) as [Hc Hl].
  simpl in Hc, Hl. destruct (insert_encoded_named_graph _ (link_node c q tid, t)) as [c2 t2] eqn:E2.
  eexists. split; [done|]. split; [by rewrite Hc|]. split; [|done].
  pose proof (insert_named_graph_tx (quad_graph_name q) (link_node c q tid, t)) as Ht.
  by rewrite E2 in Ht.
Qed.

Lemma insert_new_refines :
  exists st', insert_encoded q (c, t) = Some st' /\ refines vc (c, t) st' (ds_insert q).
Proof.
  destruct insert_new_inserted as (st' & Hi & Hc & Ht & Hl). exists st'. split; [done|].
  destruct inserted_extends as [He Hv], inserted_chains as (Hch & Hqs & Hsk).
  pose proof (tx_extends_log vc (c, t) inserted st' He Hc Ht Hl) as [_ Hr Ho].
  pose proof Hinv as [H1 H2 [Hset _ _ _ _] H4]. simpl in *. rewrite <- Hc in *. specialize (Ho H2).
  assert (forall v q', Reader_contains st'.1 v q' = if decide (q = q') then entry_view st'.1 v (LogQuadNode p)
    else match quad_set c !! q' with Some i => entry_view st'.1 v (LogQuadNode i) | None => false end) as Hcont.
  { intros v q'. rewrite contains_entry, Hqs, lookup_insert. by case_decide. }
  assert (forall q' i, quad_set c !! q' = Some i -> i <> p) as Hi'.
  { intros q' i Hq'. apply Hset, lookup_lt_Some in Hq'. rewrite quads_length in Hq'. lia. }
  split; [done|auto|done|done|..].
  - intros v Hle. split_and!; intros; simpl; [|by rewrite !contains_graph_entry, Ho|by apply Ho].
    rewrite Hcont, contains_entry. destruct (decide (q = q0)) as [<-|].
    + rewrite Hq, Ho by done. unfold entry_view. by rewrite (proj1 link_node_new).
    + destruct (quad_set c !! q0); [by rewrite Ho|done].
  - simpl. split_and!; intros; simpl.
    + rewrite Hcont, contains_entry. destruct (decide (q = q0)) as [<-|].
      * by rewrite Hv, (bool_decide_eq_true_2 (LogQuadNode p = _)), (bool_decide_eq_true_2 (q = q)).
      * rewrite (bool_decide_eq_false_2 (q0 = q)) by congruence. destruct (quad_set c !! q0) as [i|] eqn:E; [|done].
        rewrite Hv, !bool_decide_eq_false_2; [by rewrite andb_false_r|done|].
        intros [= ->]. by apply (Hi' _ _ E).
    + rewrite !contains_graph_entry, Hv, (bool_decide_eq_false_2 (_ = LogQuadNode _)) by done. simpl. f_equal.
      destruct (decide (g = quad_graph_name q)) as [->|].
      * rewrite !bool_decide_eq_true_2 by done. by rewrite andb_true_r.
      * rewrite !bool_decide_eq_false_2 by congruence. by rewrite andb_false_r.
    + rewrite Hv, !bool_decide_eq_false_2 by done. by rewrite andb_false_r.
Qed.
End insert_new.

(** ** All the operations *)

Lemma insert_refines (vc : Z) (st : tx_state) (q : EncodedQuad) :
  tx_inv vc st -> exists st', insert_encoded q st = Some st' /\ refines vc st st' (ds_insert q).
Proof.
  intros Hinv. destruct (quad_set st.1 !! q) as [p|] eqn:E; [by eapply insert_old_refines|].
  destruct st as [c t]. by apply insert_new_refines.
Qed.

(** The operations keep the datasets well-formed. *)
Lemma ds_insert_ok (q : EncodedQuad) (d : dataset) : dataset_ok d -> dataset_ok (ds_insert q d).
Proof.
  intros [H1 H2 H3]. split; simpl; [| |done].
  - intros q' [->%bool_decide_eq_true|Hq]%orb_true_iff Hn.
    + by rewrite bool_decide_eq_true_2, Hn.
    + by rewrite H1, orb_true_r.
  - intros g [[_ ?]%andb_true_iff|?]%orb_true_iff; auto.
Qed.
Lemma ds_insert_graph_ok (g : EncodedTerm) (d : dataset) :
  is_named g = true -> dataset_ok d -> dataset_ok (ds_insert_graph g d).
Proof.
  intros Hg [H1 H2 H3]. split; simpl; [| |done].
  - intros q Hq Hn. by rewrite H1, orb_true_r.
  - intros g' [->%bool_decide_eq_true|?]%orb_true_iff; auto.
Qed.
(** Operations that only take quads, or graphs without quads, away. *)
Lemma dataset_ok_remove (d d' : dataset) :
  dataset_ok d -> (forall q, ds_quad d' q = true -> ds_quad d q = true) ->
  (forall g, ds_graph d' g = true -> ds_graph d g = true) ->
  (forall m, ds_namespace d' m = true -> ds_namespace d m = true) ->
  (forall q, ds_quad d' q = true -> is_named (quad_graph_name q) = true ->
     ds_graph d (quad_graph_name q) = true -> ds_graph d' (quad_graph_name q) = true) ->
  dataset_ok d'.
Proof. intros [H1 H2 H3] Hq Hg Hn Hd. split; eauto. Qed.

Ltac bools :=
  repeat match goal with
  | H : _ && _ = true |- _ => apply andb_true_iff in H as [? ?]
  | H : negb _ = true |- _ => apply negb_true_iff in H
  | H : bool_decide _ = true |- _ => apply bool_decide_eq_true in H
  | H : bool_decide _ = false |- _ => apply bool_decide_eq_false in H
  end.

Lemma ds_remove_ok (q : EncodedQuad) (d : dataset) : dataset_ok d -> dataset_ok (ds_remove q d).
Proof. intros H. apply (dataset_ok_remove d); simpl; intros; bools; done. Qed.
Lemma ds_clear_graph_ok (g : EncodedTerm) (d : dataset) : dataset_ok d -> dataset_ok (ds_clear_graph g d).
Proof. intros H. apply (dataset_ok_remove d); simpl; intros; bools; done. Qed.
Lemma ds_remove_graph_ok (g : EncodedTerm) (d : dataset) : dataset_ok d -> dataset_ok (ds_remove_graph g d).
Proof.
  intros H. apply (dataset_ok_remove d); simpl; intros; bools; try done.
  apply andb_true_iff. split; [|done]. by apply negb_true_iff, bool_decide_eq_false.
Qed.
Lemma ds_clear_named_ok (d : dataset) : dataset_ok d -> dataset_ok (ds_clear_named_graphs d).
Proof. intros H. apply (dataset_ok_remove d); simpl; intros; bools; done. Qed.
Lemma ds_remove_named_ok (d : dataset) : dataset_ok d -> dataset_ok (ds_remove_named_graphs d).
Proof. intros H. apply (dataset_ok_remove d); simpl; intros; bools; congruence. Qed.
Lemma ds_clear_quads_ok (d : dataset) : dataset_ok d -> dataset_ok (ds_clear_quads d).
Proof. intros H. by apply (dataset_ok_remove d). Qed.
Lemma ds_clear_ok (d : dataset) : dataset_ok d -> dataset_ok (ds_clear d).
Proof. intros H. by apply (dataset_ok_remove d). Qed.
Lemma ds_remove_namespace_ok (prefix : bytes) (d : dataset) :
  dataset_ok d -> dataset_ok (ds_remove_namespace prefix d).
Proof. intros H. apply (dataset_ok_remove d); simpl; intros; bools; done. Qed.
Lemma ds_clear_namespaces_ok (d : dataset) : dataset_ok d -> dataset_ok (ds_clear_namespaces d).
Proof. intros H. by apply (dataset_ok_remove d). Qed.
Lemma ds_set_namespace_ok (m : NamespaceMapping) (d : dataset) :
  dataset_ok d -> dataset_ok (ds_set_namespace m d).
Proof.
  intros [H1 H2 H3]. split; simpl; [done..|].
  intros a b Ha Hb Hab. apply orb_true_iff in Ha as [->%bool_decide_eq_true|Ha], Hb as [->%bool_decide_eq_true|Hb];
    bools; try done; try congruence. by apply H3.
Qed.
#[export] Hint Resolve ds_insert_ok ds_insert_graph_ok ds_remove_ok ds_clear_graph_ok ds_remove_graph_ok
  ds_clear_named_ok ds_remove_named_ok ds_clear_quads_ok ds_clear_ok ds_remove_namespace_ok
  ds_clear_namespaces_ok ds_set_namespace_ok : oxi.

(** *** Namespaces *)

Lemma collect_namespaces_ok (v : Z) (entries : list (NamespaceMapping * VersionRange)) (prefixes : list bytes) :
  NoDup entries.*1 ->
  (forall m r, (m, r) ∈ entries -> is_in_range v r = true -> ns_prefix m ∉ prefixes) ->
  (forall m r m' r', (m, r) ∈ entries -> (m', r') ∈ entries -> is_in_range v r = true ->
     is_in_range v r' = true -> ns_prefix m = ns_prefix m' -> m = m') ->
  exists l, collect_namespaces v entries prefixes = Ok l /\
    forall m, m ∈ l <-> exists r, (m, r) ∈ entries /\ is_in_range v r = true.
Proof.
  revert prefixes. induction entries as [|[m r] entries IH]; intros prefixes Hnd Hp Hu.
  { exists []. split; [done|]. set_solver. }
  inversion Hnd as [|? ? Hm Hnd']; subst. simpl.
  destruct (is_in_range v r) eqn:E; simpl.
  - rewrite bool_decide_eq_false_2 by (apply (Hp m r); set_solver).
    destruct (IH (ns_prefix m :: prefixes) Hnd') as (l & -> & Hl).
    + intros m' r' Hin Hv [Heq|Hin']%elem_of_cons.
      * apply Hm. replace m with m'; [by apply list_elem_of_fmap; exists (m', r')|].
        apply (Hu m' r' m r); try done; set_solver.
      * revert Hin'. apply (Hp m' r'); [set_solver|done].
    + intros m1 r1 m2 r2 H1 H2. apply (Hu m1 r1 m2 r2); set_solver.
    + exists (m :: l). split; [done|]. intros m'. rewrite elem_of_cons, Hl. split.
      * intros [->|(r' & ? & ?)]; [exists r; set_solver|exists r'; set_solver].
      * intros (r' & [[= -> ->]|Hin]%elem_of_cons & ?); [by left|right; eauto].
  - destruct (IH prefixes Hnd') as (l & -> & Hl).
    + intros m' r' Hin. apply (Hp m' r'). set_solver.
    + intros m1 r1 m2 r2 H1 H2. apply (Hu m1 r1 m2 r2); set_solver.
    + exists l. split; [done|]. intros m'. rewrite Hl. split; intros (r' & Hin & Hv); exists r'; [set_solver|].
      apply elem_of_cons in Hin as [[= -> ->]|?]; [congruence|done].
Qed.
Lemma elem_of_insert_sorted (m x : NamespaceMapping) (l : list NamespaceMapping) :
  x ∈ insert_sorted m l <-> x = m \/ x ∈ l.
Proof. induction l as [|y l IH]; simpl; [set_solver|]. destruct (prefix_le m y); set_solver. Qed.
Lemma elem_of_sort (x : NamespaceMapping) (l : list NamespaceMapping) : x ∈ sort_namespaces l <-> x ∈ l.
Proof.
  induction l as [|y l IH]; [done|]. change (sort_namespaces (y :: l)) with (insert_sorted y (sort_namespaces l)).
  rewrite elem_of_insert_sorted, IH, elem_of_cons. done.
Qed.

(** [namespaces] returns the visible mappings. *)
Lemma Reader_namespaces_ok (c : Content) (v : Z) :
  dataset_ok (view c v) ->
  exists l, Reader_namespaces c v = Ok l /\ forall m, m ∈ l <-> ds_namespace (view c v) m = true.
Proof.
  intros [_ _ Hu]. unfold Reader_namespaces.
  assert (forall m r, (m, r) ∈ map_to_list (namespaces c) -> is_in_range v r = true ->
    ds_namespace (view c v) m = true) as Hv.
  { intros m r Hin%elem_of_map_to_list Hr. simpl. unfold entry_view. simpl. by rewrite Hin. }
  destruct (collect_namespaces_ok v (map_to_list (namespaces c)) []) as (l & -> & Hl).
  - apply NoDup_fst_map_to_list.
  - set_solver.
  - intros m r m' r' H1 H2 H3 H4. apply Hu; eauto.
  - exists (sort_namespaces l). split; [done|]. intros m. rewrite elem_of_sort, Hl. split.
    + intros (r & ? & ?). eauto.
    + simpl. unfold entry_view. simpl. destruct (namespaces c !! m) as [r|] eqn:E; [|done].
      intros. exists r. by rewrite elem_of_map_to_list.
Qed.
Lemma Reader_namespace_ok (c : Content) (v : Z) (prefix : bytes) :
  dataset_ok (view c v) ->
  exists o, Reader_namespace c v prefix = Ok o /\
    match o with
    | Some m => ds_namespace (view c v) m = true /\ ns_prefix m = prefix
    | None => forall m, ds_namespace (view c v) m = true -> ns_prefix m <> prefix
    end.
Proof.
  intros Hok. destruct (Reader_namespaces_ok c v Hok) as (l & E & Hl). unfold Reader_namespace. rewrite E.
  eexists. split; [done|]. destruct (List.find _ l) as [m|] eqn:Ef.
  - apply find_some in Ef as [Hin Hp%bool_decide_eq_true]. split; [|done]. by apply Hl, list_elem_of_In.
  - intros m Hm%Hl%list_elem_of_In Hp. apply (find_none _ _ Ef) in Hm.
    by apply bool_decide_eq_false in Hm.
Qed.

(** * The store as a state machine

    The life of a store: transactions start, work and end, one at a time, while
    readers look at the versions.  [impl_run] runs a sequence of events on the
    definitions of MemoryStorage; [spec_run] runs it on the specification, a list
    of committed datasets and the dataset of the running transaction. *)

#[local] Open Scope Z_scope.

(** The writing methods of [MemoryStorageTransaction]. *)
Inductive tx_op : Set :=
| OpInsert (quad : RdfQuad)
| OpInsertNamedGraph (graph_name : RdfNamedOrBlankNode)
| OpRemove (quad : RdfQuad)
| OpClearGraph (graph_name : RdfGraphName)
| OpClearAllNamedGraphs
| OpClearAllGraphs
| OpRemoveNamedGraph (graph_name : RdfNamedOrBlankNode)
| OpRemoveAllNamedGraphs
| OpClear
| OpSetNamespace (namespace : NamespaceMapping)
| OpRemoveNamespace (prefix : bytes)
| OpClearNamespaces.

Inductive event : Set :=
| EvStart
| EvStartKeyed (key : bytes)
| EvOp (op : tx_op)
| EvCommit
| EvCommitWithOutcome
| EvRollback
| EvDrop.

Section machine.
Context `{EncoderParams}.

(** ** The implementation *)

Definition on_content_result (f : tx_state -> result StorageError tx_state) (s : MemoryStorage)
  (t : MemoryStorageTransaction) : fallible (MemoryStorage * MemoryStorageTransaction) :=
  Some ('(c, t) ← f (content s, t); Ok (set_content s c, t)).

Definition run_op (op : tx_op) (s : MemoryStorage) (t : MemoryStorageTransaction)
  : fallible (MemoryStorage * MemoryStorageTransaction) :=
  match op with
  | OpInsert quad => Ok <$> Transaction_insert quad s t
  | OpInsertNamedGraph g => Ok <$> Transaction_insert_named_graph g s t
  | OpRemove quad => returns (Transaction_remove quad s t)
  | OpClearGraph g => returns (Transaction_clear_graph g s t)
  | OpClearAllNamedGraphs => returns (on_content clear_all_named_graphs s t)
  | OpClearAllGraphs => returns (on_content clear_all_graphs s t)
  | OpRemoveNamedGraph g => returns (Transaction_remove_named_graph g s t)
  | OpRemoveAllNamedGraphs => returns (on_content remove_all_named_graphs s t)
  | OpClear => returns (on_content clear s t)
  | OpSetNamespace m => on_content_result (set_namespace m) s t
  | OpRemoveNamespace prefix => on_content_result (remove_namespace prefix) s t
  | OpClearNamespaces => on_content_result clear_namespaces s t
  end.

(** The store, and the transaction that holds its lock. *)
Definition world : Type := MemoryStorage * option MemoryStorageTransaction.
Definition world_new : world := (MemoryStorage_new, None).

(** [None]: the event cannot happen (no transaction runs, or the starter waits for
    the lock), or the operation panics or fails.  A key that is refused leaves the
    store as it is. *)
Definition impl_step (e : event) (w : world) : option world :=
  let '(s, running) := w in
  match e, running with
  | EvStart, _ => '(s, t) ← MemoryStorage_start_transaction s; Some (s, Some t)
  | EvStartKeyed key, _ =>
      match start_keyed_readable_transaction s key with
      | Some (Ok (s, t)) => Some (s, Some t)
      | Some (Err _) => Some (s, running)
      | None => None
      end
  | EvOp op, Some t =>
      match run_op op s t with Some (Ok (s, t)) => Some (s, Some t) | _ => None end
  | EvCommit, Some t => Some (commit s t, None)
  | EvCommitWithOutcome, Some t => Some (fst (commit_with_outcome s t), None)
  | EvRollback, Some t => Some (fst (rollback_with_outcome s t), None)
  | EvDrop, Some t => Some (drop_transaction s t, None)
  | _, None => None
  end.

Fixpoint impl_run (evs : list event) (w : world) : option world :=
  match evs with
  | [] => Some w
  | e :: evs => w ← impl_step e w; impl_run evs w
  end.

(** ** The specification *)

Definition spec_op (op : tx_op) : dataset -> dataset :=
  match op with
  | OpInsert quad => ds_insert (EncodedQuad_from_quad quad)
  | OpInsertNamedGraph g => ds_insert_graph (EncodedTerm_from_node g)
  | OpRemove quad => ds_remove (EncodedQuad_from_quad quad)
  | OpClearGraph g => ds_clear_graph (EncodedTerm_from_graph_name g)
  | OpClearAllNamedGraphs => ds_clear_named_graphs
  | OpClearAllGraphs => ds_clear_quads
  | OpRemoveNamedGraph g => ds_remove_graph (EncodedTerm_from_node g)
  | OpRemoveAllNamedGraphs => ds_remove_named_graphs
  | OpClear => ds_clear
  | OpSetNamespace m => ds_set_namespace m
  | OpRemoveNamespace prefix => ds_remove_namespace prefix
  | OpClearNamespaces => ds_clear_namespaces
  end.

#[export] Instance spec_op_proper (op : tx_op) : Proper ((≡) ==> (≡)) (spec_op op).
Proof.
  intros a b (Hq & Hg & Hn). destruct op; split_and!; intros; simpl; rewrite ?Hq, ?Hg, ?Hn; done.
Qed.

(** The versions from the first one, the dataset and the key of the running
    transaction, and what is known of the keyed transactions. *)
Record spec_state : Type := mkSpec {
  sp_versions : list dataset;
  sp_working : option (dataset * option bytes);
  sp_outcomes : gmap bytes StorageTransactionOutcome
}.
Definition spec_new : spec_state := mkSpec [ds_empty] None ∅.

Definition settle (key : option bytes) (o : StorageTransactionOutcome)
  (m : gmap bytes StorageTransactionOutcome) : gmap bytes StorageTransactionOutcome :=
  match key with Some key => <[key := o]> m | None => m end.

Definition spec_step (e : event) (sp : spec_state) : option spec_state :=
  let '(mkSpec vs working outcomes) := sp in
  match e, working with
  | EvStart, None => d ← list.last vs; Some (mkSpec vs (Some (d, None)) outcomes)
  | EvStartKeyed key, None =>
      match outcomes !! key with
      | Some _ => Some sp
      | None =>
          d ← list.last vs;
          Some (mkSpec vs (Some (d, Some key)) (<[key := OutcomeIndeterminate]> outcomes))
      end
  | EvOp op, Some (d, key) => Some (mkSpec vs (Some (spec_op op d, key)) outcomes)
  | EvCommit, Some (d, _) => Some (mkSpec (vs ++ [d]) None outcomes)
  | EvCommitWithOutcome, Some (d, key) =>
      Some (mkSpec (vs ++ [d]) None (settle key OutcomeCommitted outcomes))
  | (EvRollback | EvDrop), Some (_, key) =>
      Some (mkSpec vs None (settle key OutcomeRolledBack outcomes))
  | _, _ => None
  end.

Fixpoint spec_run (evs : list event) (sp : spec_state) : option spec_state :=
  match evs with
  | [] => Some sp
  | e :: evs => sp ← spec_step e sp; spec_run evs sp
  end.
End machine.

(** ** The relation between the two *)

(** What [lookup_transaction_outcome] reports of a reserved key. *)
Definition outcome_of (o : MemoryTransactionOutcomeState) : StorageTransactionOutcome :=
  match o with
  | Staging | CommitAttempted => OutcomeIndeterminate
  | Committed => OutcomeCommitted
  | RolledBack => OutcomeRolledBack
  end.

(** The readers of the store see the versions of the specification, the running
    transaction sees its dataset, and the outcomes agree. *)
Record simulates (w : world) (sp : spec_state) : Prop := {
  sim_versions : Z.of_nat (length (sp_versions sp)) = version_counter w.1 + 1;
  sim_views : forall i d, sp_versions sp !! i = Some d -> view (content w.1) (Z.of_nat i) ≡ d;
  sim_working : match w.2, sp_working sp with
                | None, None => True
                | Some t, Some (d, key) =>
                    view (content w.1) (tx_transaction_id t) ≡ d /\ tx_transaction_key t = key
                | _, _ => False
                end;
  sim_outcomes : sp_outcomes sp = outcome_of <$> transaction_outcomes w.1
}.

(** The number of transactions that tried to start. *)
Definition starts_of (e : event) : Z :=
  match e with EvStart | EvStartKeyed _ => 1 | _ => 0 end.
Definition starts (evs : list event) : Z := foldr (fun e n => starts_of e + n) 0 evs.
