(* ===== verification/MemoryStorageFacts.v ===== *)
(** * Correctness of the in-memory store

    The store as a transition system: transactions start, work, and end by a
    commit, a rollback or a drop.  Every reachable store implements the
    specification of MemorySpec: its versions are well-formed datasets that never
    change, a transaction works on its own dataset, and a commit appends it. *)
From S2P Require Import Prelude MachineInt EncodedTerm RdfModel NumericEncoder.
From S2P Require Import VersionRange StoreKeys MemoryStorage NumericEncoderFacts MemoryRangeFacts.
From S2P Require Import MemoryOpsFacts MemorySpec.
#[local] Open Scope Z_scope.

(** ** Namespaces *)

Section namespaces.
Context (vc : Z) (st : tx_state) (Hinv : tx_inv vc st).
Abbreviation tid := (tx_transaction_id st.2).

(** Only the entries of some mappings are removed. *)
Lemma removes_namespaces_refines (l : list NamespaceMapping) (f : dataset -> dataset) :
  (forall d, ds_quad (f d) = ds_quad d /\ ds_graph (f d) = ds_graph d) ->
  (forall m, ds_namespace (f (view st.1 tid)) m
     = negb (bool_decide (m ∈ l)) && ds_namespace (view st.1 tid) m) ->
  refines vc st (removes st (LogNamespace <$> l)) f.
Proof.
  intros Hf Hm. apply refines_removes; [done|]. pose proof Hinv as [H1 H2 H3 H4].
  destruct (Hf (view st.1 tid)) as [Hq Hg]. apply (view_removes _ _ vc); [lia|done..| | | |].
  - intros p q Hp. rewrite Hq. rewrite bool_decide_eq_false_2; [done|].
    rewrite list_elem_of_fmap. by intros (? & ? & _).
  - intros q E. rewrite Hq. simpl. by rewrite contains_entry, E.
  - intros g. rewrite Hg. rewrite bool_decide_eq_false_2; [done|].
    rewrite list_elem_of_fmap. by intros (? & ? & _).
  - intros m. rewrite Hm. simpl. f_equal. f_equal. apply bool_decide_ext. rewrite list_elem_of_fmap.
    split; [intros; by exists m|]. by intros (? & [= ->] & ?).
Qed.

Lemma remove_mapping_refines (m : NamespaceMapping) :
  ds_namespace (view st.1 tid) m = true ->
  refines vc st (remove_namespace_mapping m st) (ds_remove_namespace (ns_prefix m)).
Proof.
  intros Hm. rewrite remove_namespace_removes. apply (removes_namespaces_refines [m]); [done|].
  intros m'. cbn [ds_remove_namespace ds_namespace].
  destruct (ds_namespace (view st.1 tid) m') eqn:E; [|by rewrite !andb_false_r].
  f_equal. f_equal. apply bool_decide_ext. rewrite list_elem_of_singleton. split; [|congruence].
  intros Hp. destruct Hinv as [_ _ _ [_ _ Hu]]. by apply Hu.
Qed.

Lemma remove_namespace_refines (prefix : bytes) :
  exists st', remove_namespace prefix st = Ok st' /\ refines vc st st' (ds_remove_namespace prefix).
Proof.
  unfold remove_namespace. destruct (Reader_namespace_ok st.1 tid prefix (ti_ok _ _ Hinv)) as (o & -> & Ho).
  eexists. split; [done|]. destruct o as [m|].
  - destruct Ho as [Hm <-]. by apply remove_mapping_refines.
  - apply (removes_namespaces_refines []); [done|]. intros m. cbn [ds_remove_namespace ds_namespace].
    destruct (ds_namespace (view st.1 tid) m) eqn:E; [|by rewrite !andb_false_r].
    by rewrite bool_decide_eq_false_2 by by apply Ho.
Qed.

Lemma clear_namespaces_refines :
  exists st', clear_namespaces st = Ok st' /\ refines vc st st' ds_clear_namespaces.
Proof.
  unfold clear_namespaces. destruct (Reader_namespaces_ok st.1 tid (ti_ok _ _ Hinv)) as (l & -> & Hl).
  eexists. split; [done|].
  assert (foldl (fun st m => remove_namespace_mapping m st) st l = removes st (LogNamespace <$> l)) as ->.
  { clear. revert st. induction l as [|m l IH]; intros st; [done|]. simpl.
    by rewrite remove_namespace_removes, IH. }
  apply removes_namespaces_refines; [done|]. intros m. cbn [ds_clear_namespaces ds_namespace].
  destruct (ds_namespace (view st.1 tid) m) eqn:E; [|by rewrite andb_false_r].
  rewrite bool_decide_eq_true_2; [done|]. by apply Hl.
Qed.
End namespaces.

(** One operation after another. *)
Lemma refines_trans (vc : Z) (st st1 st2 : tx_state) (f g h : dataset -> dataset) :
  refines vc st st1 f -> refines vc st1 st2 g ->
  g (view st1.1 (tx_transaction_id st.2)) ≡ h (view st.1 (tx_transaction_id st.2)) ->
  refines vc st st2 h.
Proof.
  intros [Ht Hr Hc Hg Ho Hn] [Ht' Hr' Hc' Hg' Ho' Hn'] Hh. rewrite (proj1 Ht) in *. split.
  - by etransitivity.
  - done.
  - done.
  - by etransitivity.
  - intros v Hv. rewrite Ho', Ho by done. done.
  - by rewrite Hn'.
Qed.
Lemma refines_ext (vc : Z) (st st' : tx_state) (f g : dataset -> dataset) :
  refines vc st st' f -> f (view st.1 (tx_transaction_id st.2)) ≡ g (view st.1 (tx_transaction_id st.2)) ->
  refines vc st st' g.
Proof. intros [? ? ? ? ? Hn] E. split; try done. by rewrite Hn. Qed.
Lemma refines_refl (vc : Z) (st : tx_state) (f : dataset -> dataset) :
  tx_inv vc st -> f (view st.1 (tx_transaction_id st.2)) ≡ view st.1 (tx_transaction_id st.2) ->
  refines vc st st f.
Proof. intros [? ? ? ?] E. split; try done. Qed.

Lemma set_namespace_refines (vc : Z) (st : tx_state) (m : NamespaceMapping) :
  tx_inv vc st ->
  exists st', set_namespace m st = Ok st' /\ refines vc st st' (ds_set_namespace m).
Proof.
  intros Hinv. pose proof (ti_ok _ _ Hinv) as Hok. unfold set_namespace.
  destruct (Reader_namespace_ok st.1 (tx_transaction_id st.2) (ns_prefix m) Hok) as (o & -> & Ho).
  cbn [mbind result_bind]. destruct o as [cur|].
  - destruct Ho as [Hcur Hp]. pose proof Hok as [_ _ Hu]. case_bool_decide as E.
    + subst cur. eexists. split; [done|]. apply refines_refl; [done|]. split_and!; try done. intros m'.
      cbn [ds_set_namespace ds_namespace]. destruct (ds_namespace (view st.1 (tx_transaction_id st.2)) m') eqn:Em.
      * destruct (decide (m' = m)) as [->|]; [by rewrite (bool_decide_eq_true_2 (m = m))|].
        rewrite !bool_decide_eq_false_2; [done| |done]. intros Heq. by destruct (Hu m' m Em Hcur Heq).
      * rewrite andb_false_r, orb_false_r. apply bool_decide_eq_false. congruence.
    + eexists. split; [done|]. pose proof (remove_mapping_refines vc st Hinv cur Hcur) as Hr.
      eapply (refines_trans vc st _ _ _ _ _ Hr).
      * apply add_namespace_refines. eapply refines_inv; [done|exact Hr|]. auto with oxi.
      * destruct (re_new _ _ _ _ Hr) as (Hq & Hg & Hn). split_and!; intros; simpl in *; [by rewrite Hq|by rewrite Hg|].
        by rewrite Hn, Hp.
  - eexists. split; [done|]. eapply refines_ext; [by apply add_namespace_refines|].
    split_and!; try done. intros m'. cbn [ds_set_namespace ds_add_namespace ds_namespace].
    destruct (ds_namespace (view st.1 (tx_transaction_id st.2)) m') eqn:Em; [|by rewrite andb_false_r].
    by rewrite (bool_decide_eq_false_2 (ns_prefix m' = ns_prefix m)) by by apply Ho.
Qed.

(** ** The operations of a transaction *)

Section operations.
Context `{EncoderParams}.

(** The dictionary after an operation: only an insertion changes it, and it fails
    on two strings with one hash. *)
Definition op_dictionary (op : tx_op) (s : MemoryStorage) : option (gmap StrHash bytes) :=
  match op with
  | OpInsert quad =>
      let encoded := EncodedQuad_from_quad quad in
      match quad_set (content s) !! encoded with
      | Some _ => Some (id2str s)
      | None =>
          insert_quad_terms quad
            (bool_decide (graphs (content s) !! quad_graph_name encoded = None)) (id2str s)
      end
  | OpInsertNamedGraph g =>
      if bool_decide (graphs (content s) !! EncodedTerm_from_node g = None)
      then insert_node insert_str g (EncodedTerm_from_node g) (id2str s) else Some (id2str s)
  | _ => Some (id2str s)
  end.

Lemma node_is_named (g : RdfNamedOrBlankNode) : is_named (EncodedTerm_from_node g) = true.
Proof.
  destruct g as [n|n]; [done|]. simpl. unfold EncodedTerm_from_blank_node.
  destruct (BlankNode_unique_id n); [done|]. by destruct (SmallString_from_str _).
Qed.

Lemma spec_op_ok (op : tx_op) (d : dataset) : dataset_ok d -> dataset_ok (spec_op op d).
Proof. pose proof node_is_named. destruct op; simpl; auto with oxi. Qed.

Lemma set_id2str_same (s : MemoryStorage) (c : Content) :
  set_id2str (set_content s c) (id2str s) = set_content s c.
Proof. done. Qed.

(** The lifted operations. *)
Lemma on_content_refines (vc : Z) (s : MemoryStorage) (t : MemoryStorageTransaction)
  (f : tx_state -> tx_state) (g : dataset -> dataset) :
  refines vc (content s, t) (f (content s, t)) g ->
  exists c' t', returns (on_content f s t) = Some (Ok (set_id2str (set_content s c') (id2str s), t'))
    /\ refines vc (content s, t) (c', t') g.
Proof. unfold on_content. destruct (f (content s, t)) as [c' t']. intros Hr. by exists c', t'. Qed.
Lemma on_content_result_refines (vc : Z) (s : MemoryStorage) (t : MemoryStorageTransaction)
  (f : tx_state -> result StorageError tx_state) (g : dataset -> dataset) :
  (exists st', f (content s, t) = Ok st' /\ refines vc (content s, t) st' g) ->
  exists c' t', on_content_result f s t = Some (Ok (set_id2str (set_content s c') (id2str s), t'))
    /\ refines vc (content s, t) (c', t') g.
Proof. unfold on_content_result. intros ([c' t'] & -> & Hr). by exists c', t'. Qed.

Lemma run_op_refines (vc : Z) (op : tx_op) (s : MemoryStorage) (t : MemoryStorageTransaction)
  (dict : gmap StrHash bytes) :
  tx_inv vc (content s, t) -> op_dictionary op s = Some dict ->
  exists c' t', run_op op s t = Some (Ok (set_id2str (set_content s c') dict, t')) /\
    refines vc (content s, t) (c', t') (spec_op op).
Proof.
  intros Hinv Hd.
  destruct op; cbn [op_dictionary] in Hd; cbn [run_op spec_op];
    try (injection Hd as <-);
    try (apply on_content_result_refines); try (apply on_content_refines).
  - destruct (insert_refines vc (content s, t) (EncodedQuad_from_quad quad) Hinv) as ([c' t'] & Hi & Hr).
    exists c', t'. split; [|done]. unfold Transaction_insert. rewrite Hi.
    cbn [mbind option_bind]. by rewrite Hd.
  - pose proof (insert_named_graph_refines vc _ Hinv (EncodedTerm_from_node graph_name)) as Hr.
    destruct (insert_encoded_named_graph _ _) as [c' t'] eqn:Hi. exists c', t'. split; [|done].
    unfold Transaction_insert_named_graph. by rewrite Hi, Hd.
  - by apply remove_encoded_refines.
  - by apply clear_graph_refines.
  - by apply clear_all_named_refines.
  - by apply clear_all_graphs_refines.
  - by apply remove_named_graph_refines.
  - by apply remove_all_named_refines.
  - by apply clear_refines.
  - by apply set_namespace_refines.
  - by apply remove_namespace_refines.
  - by apply clear_namespaces_refines.
Qed.

(** An operation that returns did not meet a conflict. *)
Lemma run_op_dictionary (op : tx_op) (s : MemoryStorage) (t : MemoryStorageTransaction)
  (r : result StorageError (MemoryStorage * MemoryStorageTransaction)) :
  run_op op s t = Some r -> is_Some (op_dictionary op s).
Proof.
  destruct op; simpl; intros Hr; eauto.
  - unfold Transaction_insert in Hr. destruct (insert_encoded _ _) as [[c' t']|]; [|done]. simpl in Hr.
    destruct (quad_set (content s) !! EncodedQuad_from_quad quad); [by eauto|].
    by destruct (insert_quad_terms _ _ _).
  - unfold Transaction_insert_named_graph in Hr. destruct (insert_encoded_named_graph _ _) as [c' t'].
    destruct (bool_decide _); [|by eauto]. by destruct (insert_node _ _ _ _).
Qed.

(** The strings of the terms an operation inserts. *)
Definition op_strings (op : tx_op) : list bytes :=
  match op with OpInsert quad => quad_strings quad | OpInsertNamedGraph g => node_strings g | _ => [] end.
Lemma op_dictionary_ok (op : tx_op) (s : MemoryStorage) :
  dictionary_ok (id2str s) ->
  match op_dictionary op s with
  | Some dict => dictionary_ok dict /\ id2str s ⊆ dict
  | None => collides (op_strings op) (id2str s)
  end.
Proof.
  intros Hd. destruct op; simpl; try done.
  - destruct (quad_set (content s) !! _); [done|]. pose proof (quad_inserts quad) as Hi.
    destruct (insert_quad_terms _ _ _) eqn:E; [by eapply inserts_ok|by eapply inserts_collides].
  - case_bool_decide; [|done]. pose proof (node_inserts graph_name) as Hi.
    destruct (insert_node _ _ _ _) eqn:E; [by eapply inserts_ok|by eapply inserts_collides].
Qed.

(** ** The invariant of the store *)

(** Transaction numbers start here. *)
Definition half : Z := Z.shiftr (int_max U64) 1.

Record tx_running (s : MemoryStorage) (t : MemoryStorageTransaction) : Prop := {
  run_inv : tx_inv (version_counter s) (content s, t);
  run_id : half + version_counter s <= tx_transaction_id t;
  run_counter : transaction_counter s = tx_transaction_id t + 1;
  run_snapshot : tx_snapshot_id t = version_counter s;
  run_key : match tx_transaction_key t with
            | Some key => transaction_outcomes s !! key = Some Staging
            | None => True
            end;
  run_open : tx_governed t = false /\ tx_completed t = false
}.
Record tx_idle (s : MemoryStorage) : Prop := {
  idle_counter : half + version_counter s <= transaction_counter s;
  idle_ranges : forall tid, ranges_ok (content s) (version_counter s) tid []
}.
Record store_inv (n : Z) (w : world) : Prop := {
  inv_version : 0 <= version_counter w.1;
  inv_counter : transaction_counter w.1 <= half + n;
  inv_lock : transaction_lock w.1 = bool_decide (is_Some w.2);
  inv_chains : chains_ok (content w.1);
  inv_ok : forall v, 0 <= v <= version_counter w.1 -> dataset_ok (view (content w.1) v);
  inv_running : match w.2 with Some t => tx_running w.1 t | None => tx_idle w.1 end
}.

(** Between transactions nothing changes after the last version. *)
Lemma idle_view (s : MemoryStorage) (v : Z) :
  tx_idle s -> version_counter s <= v -> view (content s) v ≡ view (content s) (version_counter s).
Proof.
  intros [_ Hr] Hv. apply view_entries; [done|]. intros e. unfold entry_view.
  destruct (entry_range (content s) e) as [r|] eqn:E; [|done].
  destruct (Hr 0 e r E) as (r0 & _ & Hb & [->|[_ []%not_elem_of_nil]]).
  rewrite !contains_after; [done|done|]. apply (below_mono _ (version_counter s + 1)); [lia|done].
Qed.

(** *** The end of a transaction *)

Section ending.
Context (s : MemoryStorage) (t : MemoryStorageTransaction) (n : Z).
Context (Hinv : store_inv n (s, Some t)) (Hn : n <= 2 ^ 63).
Abbreviation vc := (version_counter s).
Abbreviation published := (foldl (finish_entry (upgrade t)) (content s) (tx_log t)).
Abbreviation restored := (foldl (finish_entry (rollback t)) (content s) (tx_log t)).

Lemma ending_running : tx_running s t.
Proof. apply Hinv. Qed.

(** No version number overflows. *)
Lemma next_version : new_version_id t = vc + 1.
Proof.
  destruct ending_running as [_ Hid Hc Hs _ _]. unfold new_version_id. rewrite Hs.
  destruct Hinv as [H0 H1 _ _ _ _]. simpl in *. apply wrap_id. change (0 <= vc + 1 <= 2 ^ 64 - 1).
    assert (half = 2 ^ 63 - 1) by done. lia.
Qed.
Lemma ending_ranges : vc + 1 < tx_transaction_id t /\
  ranges_ok (content s) vc (tx_transaction_id t) (tx_log t).
Proof. destruct ending_running as [[H1 H2 _ _] _ _ _ _ _]. done. Qed.

(** The store after a commit and after a rollback, whatever the outcomes. *)
Definition ended (c : Content) (v : Z) (outcomes : gmap bytes MemoryTransactionOutcomeState) : MemoryStorage :=
  mkStorage c (id2str s) outcomes v (transaction_counter s) false.

Lemma published_old (l : list LogEntry) (v : Z) :
  v <= vc -> view (foldl (finish_entry (upgrade t)) (content s) l) v ≡ view (content s) v.
Proof.
  intros Hv. destruct ending_ranges as [H1 H2]. apply view_entries; [by apply finish_all_shape|].
  intros e. apply (upgrade_isolated _ vc); [done|done|apply next_version|done].
Qed.
Lemma restored_old (l : list LogEntry) (v : Z) :
  v <= vc -> view (foldl (finish_entry (rollback t)) (content s) l) v ≡ view (content s) v.
Proof.
  intros Hv. destruct ending_ranges as [H1 H2]. apply view_entries; [by apply finish_all_shape|].
  intros e. by apply (rollback_isolated _ vc).
Qed.
Lemma published_new : view published (vc + 1) ≡ view (content s) (tx_transaction_id t).
Proof.
  destruct ending_ranges as [H1 H2]. apply view_entries; [by apply finish_all_shape|].
  intros e. apply (upgrade_publishes _ vc); [done|done|apply next_version].
Qed.

Lemma published_inv (outcomes : gmap bytes MemoryTransactionOutcomeState) :
  store_inv n (ended published (vc + 1) outcomes, None).
Proof.
  destruct ending_ranges as [H1 H2], ending_running as [Ht Hid Hc _ _ _], Hinv as [H0 Hb _ Hch Hok _].
  split; simpl in *; [lia|done|done| | |].
  - by apply (same_shape_chains (content s)); [apply finish_all_shape|].
  - intros v Hv. destruct (decide (v = vc + 1)) as [->|].
    + rewrite published_new. apply Ht.
    + rewrite published_old by lia. apply Hok. lia.
  - split; simpl; [lia|]. intros tid. apply upgrade_ranges; [done|done|apply next_version].
Qed.
Lemma restored_inv (outcomes : gmap bytes MemoryTransactionOutcomeState) :
  store_inv n (ended restored vc outcomes, None).
Proof.
  destruct ending_ranges as [H1 H2], ending_running as [Ht Hid Hc _ _ _], Hinv as [H0 Hb _ Hch Hok _].
  split; simpl in *; [done|done|done| | |].
  - by apply (same_shape_chains (content s)); [apply finish_all_shape|].
  - intros v Hv. rewrite restored_old by lia. by apply Hok.
  - split; simpl; [lia|]. intros tid. by apply rollback_ranges.
Qed.

(** What the ending methods compute. *)
Definition record_outcome (o : MemoryTransactionOutcomeState) : gmap bytes MemoryTransactionOutcomeState :=
  match tx_transaction_key t with
  | Some key => <[key := o]> (transaction_outcomes s)
  | None => transaction_outcomes s
  end.

Lemma commit_ended : commit s t = ended published (vc + 1) (transaction_outcomes s).
Proof. unfold commit, publish. by rewrite next_version. Qed.
Lemma commit_with_outcome_ended :
  commit_with_outcome s t = (ended published (vc + 1) (record_outcome Committed), Ok tt).
Proof.
  destruct ending_running as [_ _ _ _ Hk [Hg _]]. unfold commit_with_outcome, record_outcome.
  rewrite Hg. unfold transition_outcome. destruct (tx_transaction_key t) as [key|] eqn:E.
  - rewrite Hk, bool_decide_eq_false_2 by congruence. unfold publish. cbn. rewrite E.
    rewrite lookup_insert_eq, bool_decide_eq_false_2 by congruence. rewrite insert_insert_eq.
    by rewrite next_version.
  - unfold publish. cbn. rewrite E. by rewrite next_version.
Qed.
Lemma rollback_with_outcome_ended :
  rollback_with_outcome s t = (ended restored vc (record_outcome RolledBack), Ok tt).
Proof.
  destruct ending_running as [_ _ _ _ Hk _]. unfold rollback_with_outcome, record_outcome, rollback_changes,
    transition_to_rolled_back. cbn. destruct (tx_transaction_key t) as [key|] eqn:E; [|done].
  by rewrite Hk, bool_decide_eq_false_2 by congruence.
Qed.
Lemma drop_ended : drop_transaction s t = ended restored vc (record_outcome RolledBack).
Proof.
  destruct ending_running as [_ _ _ _ Hk [_ Hc]]. unfold drop_transaction, record_outcome, rollback_changes,
    transition_to_rolled_back. rewrite Hc. cbn. destruct (tx_transaction_key t) as [key|] eqn:E; [|done].
  by rewrite Hk, bool_decide_eq_false_2 by congruence.
Qed.
End ending.

(** *** The start of a transaction *)

Lemma start_running (s : MemoryStorage) (n : Z) (key : option bytes)
  (outcomes : gmap bytes MemoryTransactionOutcomeState) :
  store_inv n (s, None) -> n + 1 <= 2 ^ 63 ->
  match key with Some key => outcomes !! key = Some Staging | None => True end ->
  let '(s', t) := start_transaction_with_guard_and_key (set_outcomes s outcomes) key in
  store_inv (n + 1) (s', Some t) /\
  view (content s') (tx_transaction_id t) ≡ view (content s) (version_counter s).
Proof.
  intros [H0 H1 _ Hch Hok Hidle] Hn Hk. cbn [fst snd] in *. pose proof Hidle as [Hc Hr].
  assert (half = 2 ^ 63 - 1) as Eh by done.
  assert (wrap U64 (transaction_counter s + 1) = transaction_counter s + 1) as Ew.
  { apply wrap_id. change (0 <= transaction_counter s + 1 <= 2 ^ 64 - 1). lia. }
  assert (view (content s) (transaction_counter s) ≡ view (content s) (version_counter s)) as Hv.
  { apply idle_view; [done|]. lia. }
  split; [|done]. split; cbn; [done|lia|done|done|done|]. split; cbn; [|lia|done..].
  split; cbn; [lia|apply Hr|done|]. rewrite Hv. apply Hok. lia.
Qed.

(** ** Simulation *)

Lemma sim_last (w : world) (sp : spec_state) :
  simulates w sp -> 0 <= version_counter w.1 ->
  exists d, list.last (sp_versions sp) = Some d /\ view (content w.1) (version_counter w.1) ≡ d.
Proof.
  intros [Hl Hv _ _] H0. destruct (list.last (sp_versions sp)) as [d|] eqn:E.
  - exists d. split; [done|]. rewrite last_lookup in E. apply Hv in E.
    by replace (Z.of_nat (pred (length (sp_versions sp)))) with (version_counter w.1) in E by lia.
  - apply last_None in E. rewrite E in Hl. simpl in Hl. lia.
Qed.

(** A transaction that ends leaves the old versions alone. *)
Lemma sim_restored (s : MemoryStorage) (t : MemoryStorageTransaction) (n : Z) (sp : spec_state) :
  store_inv n (s, Some t) -> simulates (s, Some t) sp -> n <= 2 ^ 63 ->
  exists sp', spec_step EvDrop sp = Some sp' /\ spec_step EvRollback sp = Some sp' /\
  simulates (ended s (foldl (finish_entry (rollback t)) (content s) (tx_log t)) (version_counter s)
               (record_outcome s t RolledBack), None) sp'.
Proof.
  intros Hinv [Hl Hv Hw Ho] Hn. destruct sp as [vs [[d key]|] outcomes]; [|done]. destruct Hw as [_ Hk].
  cbn [fst snd sp_versions sp_working sp_outcomes] in *. eexists. split; [done|]. split; [done|].
  split; cbn; [done| |done|].
  - intros i d' Hi. rewrite (restored_old s t n Hinv); [by apply Hv|].
    apply lookup_lt_Some in Hi. lia.
  - unfold record_outcome, settle. subst. destruct (tx_transaction_key t) as [k|]; [|done].
    by rewrite fmap_insert.
Qed.
Lemma sim_published (s : MemoryStorage) (t : MemoryStorageTransaction) (n : Z) (sp : spec_state) (d : dataset)
  (o : gmap bytes MemoryTransactionOutcomeState) :
  store_inv n (s, Some t) -> simulates (s, Some t) sp -> n <= 2 ^ 63 ->
  view (content s) (tx_transaction_id t) ≡ d ->
  simulates (ended s (foldl (finish_entry (upgrade t)) (content s) (tx_log t)) (version_counter s + 1) o, None)
    (mkSpec (sp_versions sp ++ [d]) None (outcome_of <$> o)).
Proof.
  intros Hinv [Hl Hv _ _] Hn Hd. cbn [fst snd] in *. split; cbn; [rewrite length_app; simpl; lia| |done|done].
  intros i d' [Hi|[Hi Hd']]%lookup_app_Some.
  - rewrite (published_old s t n Hinv Hn); [by apply Hv|]. apply lookup_lt_Some in Hi. lia.
  - apply list_lookup_singleton_Some in Hd' as [Hz <-].
    replace (Z.of_nat i) with (version_counter s + 1) by lia.
    by rewrite (published_new s t n Hinv Hn).
Qed.

(** One event. *)
Section step.
Context (n : Z) (s : MemoryStorage) (sp : spec_state).
Abbreviation simulated w' n' e := (exists sp', spec_step e sp = Some sp' /\ store_inv n' w' /\ simulates w' sp').

Lemma start_simulates (key : option bytes) (outcomes : gmap bytes MemoryTransactionOutcomeState) :
  store_inv n (s, None) -> simulates (s, None) sp -> n + 1 <= 2 ^ 63 ->
  match key with Some key => outcomes !! key = Some Staging | None => True end ->
  let '(s', t) := start_transaction_with_guard_and_key (set_outcomes s outcomes) key in
  store_inv (n + 1) (s', Some t) /\
  exists d, list.last (sp_versions sp) = Some d /\
    simulates (s', Some t) (mkSpec (sp_versions sp) (Some (d, key)) (outcome_of <$> outcomes)).
Proof.
  intros Hinv Hsim Hn Hk. pose proof (start_running s n key outcomes Hinv Hn Hk) as [Hi Hv].
  split; [done|]. destruct (sim_last _ _ Hsim) as (d & Hd & Hl); [apply Hinv|]. exists d. split; [done|].
  destruct Hsim as [H1 H2 _ _]. split; cbn in *; [done|done| |done]. split; [by etransitivity|done].
Qed.

Lemma op_simulates (op : tx_op) (t : MemoryStorageTransaction) (s' : MemoryStorage) (t' : MemoryStorageTransaction) :
  store_inv n (s, Some t) -> simulates (s, Some t) sp -> run_op op s t = Some (Ok (s', t')) ->
  simulated (s', Some t') n (EvOp op).
Proof.
  intros [H0 H1 H2 H3 H4 [Ht Hid Hc Hs Hk Hop]] [Hl Hv Hw Ho] Hrun. cbn [fst snd] in *.
  destruct (run_op_dictionary op s t _ Hrun) as [dict Hd].
  destruct (run_op_refines _ op s t dict Ht Hd) as (c1 & t1 & Hrun' & Hr). rewrite Hrun in Hrun'.
  injection Hrun' as -> ->. pose proof (refines_inv _ _ _ _ Ht Hr (spec_op_ok op _ (ti_ok _ _ Ht))) as Ht1.
  destruct Hr as [(Ei & Es & Ek & Eg & Ec) _ Hch _ Hold Hnew]. cbn [fst snd] in *.
  destruct sp as [vs [[d key]|] outcomes]; [|done]. destruct Hw as [Hw Hkey].
  eexists. split; [done|]. split.
  - split; cbn; [done|done|done|done|intros v Hv'; rewrite Hold by lia; by apply H4|].
    split; cbn; rewrite ?Ei, ?Es, ?Ek, ?Eg, ?Ec; done.
  - split; cbn in *; [done| |rewrite Ei, Ek; split; [|done]|done].
    + intros i d' Hi. rewrite Hold; [by apply Hv|]. apply lookup_lt_Some in Hi. lia.
    + rewrite Hnew. by apply spec_op_proper.
Qed.
End step.

Lemma start_step_simulates (n : Z) (w w' : world) (sp : spec_state) :
  store_inv n w -> simulates w sp -> n + 1 <= 2 ^ 63 -> impl_step EvStart w = Some w' ->
  exists sp', spec_step EvStart sp = Some sp' /\ store_inv (n + 1) w' /\ simulates w' sp'.
Proof.
  destruct w as [s running]. intros Hinv Hsim Hn Hstep. pose proof (inv_lock _ _ Hinv) as Hlock.
  cbn [impl_step fst snd] in *. unfold MemoryStorage_start_transaction in Hstep. rewrite Hlock in Hstep.
  destruct running as [t|]; [done|]. cbn in Hstep. injection Hstep as <-.
  destruct (start_simulates n s sp None (transaction_outcomes s) Hinv Hsim Hn I) as (Hi & d & Hd & Hs).
  pose proof (sim_outcomes _ _ Hsim) as Ho. pose proof (sim_working _ _ Hsim) as Hw.
  destruct sp as [vs [?|] outcomes]; [done|]. cbn in *. rewrite Hd. eexists. split; [done|].
  split; [done|]. by rewrite Ho.
Qed.
Lemma start_keyed_simulates (n : Z) (w w' : world) (sp : spec_state) (key : bytes) :
  store_inv n w -> simulates w sp -> n + 1 <= 2 ^ 63 -> impl_step (EvStartKeyed key) w = Some w' ->
  exists sp', spec_step (EvStartKeyed key) sp = Some sp' /\ store_inv (n + 1) w' /\ simulates w' sp'.
Proof.
  destruct w as [s running]. intros Hinv Hsim Hn Hstep. pose proof (inv_lock _ _ Hinv) as Hlock.
  cbn [impl_step fst snd] in *. unfold start_keyed_readable_transaction in Hstep. rewrite Hlock in Hstep.
  destruct running as [t|]; [done|]. cbn in Hstep.
  pose proof (sim_outcomes _ _ Hsim) as Ho. pose proof (sim_working _ _ Hsim) as Hw.
  destruct sp as [vs [?|] outcomes]; [done|]. cbn in Ho, Hw |- *. rewrite Ho, lookup_fmap.
  destruct (transaction_outcomes s !! key) as [o|] eqn:E; cbn.
  - injection Hstep as <-. eexists. split; [done|]. subst. split; [|done].
    destruct Hinv as [? ? ? ? ? ?]. split; try done. lia.
  - injection Hstep as <-.
    destruct (start_simulates n s _ (Some key) (<[key := Staging]> (transaction_outcomes s)) Hinv Hsim Hn)
      as (Hi & d & Hd & Hs); [apply lookup_insert_eq|].
    cbn in Hd. rewrite Hd. eexists. split; [done|]. split; [done|]. by rewrite fmap_insert in Hs.
Qed.

Lemma step_simulates (n : Z) (e : event) (w w' : world) (sp : spec_state) :
  store_inv n w -> simulates w sp -> n + starts_of e <= 2 ^ 63 -> impl_step e w = Some w' ->
  exists sp', spec_step e sp = Some sp' /\ store_inv (n + starts_of e) w' /\ simulates w' sp'.
Proof.
  intros Hinv Hsim Hn Hstep. destruct e; cbn [starts_of] in *.
  1: by eapply start_step_simulates.
  1: by eapply start_keyed_simulates.
  all: rewrite Z.add_0_r in *; destruct w as [s [t|]]; [|done]; cbn [impl_step] in Hstep.
  1: { destruct (run_op op s t) as [[[s' t']|]|] eqn:E; [|done..]. injection Hstep as <-.
       by eapply op_simulates. }
  all: injection Hstep as <-.
  all: pose proof (sim_working _ _ Hsim) as Hw; pose proof (sim_outcomes _ _ Hsim) as Ho.
  - rewrite (commit_ended s t n Hinv Hn). destruct sp as [vs [[d key]|] outcomes]; [|done]. destruct Hw as [Hd _].
    eexists. split; [done|]. split; [by apply published_inv|].
    pose proof (sim_published s t n _ d (transaction_outcomes s) Hinv Hsim Hn Hd) as Hs. cbn in *. by subst.
  - rewrite (commit_with_outcome_ended s t n Hinv Hn). destruct sp as [vs [[d key]|] outcomes]; [|done].
    destruct Hw as [Hd Hk]. eexists. split; [done|]. split; [by apply published_inv|].
    pose proof (sim_published s t n _ d (record_outcome s t Committed) Hinv Hsim Hn Hd) as Hs.
    unfold record_outcome, settle in *. cbn in *. subst. destruct (tx_transaction_key t); [|done].
    by rewrite fmap_insert in Hs.
  - rewrite (rollback_with_outcome_ended s t n Hinv). destruct (sim_restored s t n sp Hinv Hsim Hn) as (sp' & _ & ? & ?).
    exists sp'. split; [done|]. split; [|done]. by apply restored_inv.
  - rewrite (drop_ended s t n Hinv). destruct (sim_restored s t n sp Hinv Hsim Hn) as (sp' & ? & _ & ?).
    exists sp'. split; [done|]. split; [|done]. by apply restored_inv.
Qed.

Lemma starts_nonneg (evs : list event) : 0 <= starts evs.
Proof.
  induction evs as [|e evs IH]; [done|]. change (starts (e :: evs)) with (starts_of e + starts evs).
  destruct e; simpl starts_of; lia.
Qed.

Lemma run_simulates (evs : list event) (n : Z) (w w' : world) (sp : spec_state) :
  store_inv n w -> simulates w sp -> n + starts evs <= 2 ^ 63 -> impl_run evs w = Some w' ->
  exists sp', spec_run evs sp = Some sp' /\ store_inv (n + starts evs) w' /\ simulates w' sp'.
Proof.
  revert n w sp. induction evs as [|e evs IH]; intros n w sp Hinv Hsim Hn Hrun.
  { injection Hrun as <-. exists sp. cbn. by rewrite Z.add_0_r. }
  cbn [starts foldr] in *. fold (starts evs) in *. cbn [impl_run] in Hrun.
  destruct (impl_step e w) as [w1|] eqn:E; [|done].
  pose proof (starts_nonneg evs).
  destruct (step_simulates n e w w1 sp Hinv Hsim) as (sp1 & Hs1 & Hi1 & Hm1); [lia|done|].
  destruct (IH (n + starts_of e) w1 sp1 Hi1 Hm1) as (sp' & ? & ? & ?); [lia|done|].
  exists sp'. cbn [spec_run]. rewrite Hs1. by replace (n + (starts_of e + starts evs)) with (n + starts_of e + starts evs) by lia.
Qed.

(** ** Reachable stores *)

Lemma world_new_ok : store_inv 0 world_new /\ simulates world_new spec_new.
Proof.
  assert (view (content MemoryStorage_new) 0 ≡ ds_empty) as Hv.
  { split_and!; intros; cbn; unfold Reader_contains, Reader_contains_named_graph, entry_view; cbn;
      by rewrite lookup_empty. }
  assert (dataset_ok ds_empty) as Hok by done.
  split.
  - split; cbn; [done|done|done|apply chains_ok_empty| |].
    + intros v Hv0. replace v with 0 by lia. by rewrite Hv.
    + split; cbn; [done|]. intros tid [p|g|m] r; cbn; [done|by rewrite lookup_empty..].
  - split; cbn; [done| |done|by rewrite fmap_empty].
    intros i d. intros Hi%list_lookup_singleton_Some. destruct Hi as [-> <-]. done.
Qed.

Lemma reachable_ok (evs : list event) (w : world) :
  starts evs <= 2 ^ 63 -> impl_run evs world_new = Some w ->
  exists sp, spec_run evs spec_new = Some sp /\ store_inv (starts evs) w /\ simulates w sp.
Proof. intros Hs Hr. destruct world_new_ok as [Hi Hm]. by apply (run_simulates evs 0 world_new). Qed.

Lemma impl_run_app (evs evs' : list event) (w : world) :
  impl_run (evs ++ evs') w = (w1 ← impl_run evs w; impl_run evs' w1).
Proof.
  revert w. induction evs as [|e evs IH]; intros w; [done|]. cbn. destruct (impl_step e w); [|done]. apply IH.
Qed.
Lemma spec_run_app (evs evs' : list event) (sp : spec_state) :
  spec_run (evs ++ evs') sp = (sp1 ← spec_run evs sp; spec_run evs' sp1).
Proof.
  revert sp. induction evs as [|e evs IH]; intros sp; [done|]. cbn. destruct (spec_step e sp); [|done]. apply IH.
Qed.
Lemma starts_app (evs evs' : list event) : starts (evs ++ evs') = starts evs + starts evs'.
Proof. unfold starts. induction evs as [|e evs IH]; cbn; [done|]. rewrite IH. lia. Qed.

(** The specification only appends versions. *)
Lemma spec_run_versions (evs : list event) (sp sp' : spec_state) :
  spec_run evs sp = Some sp' -> sp_versions sp `prefix_of` sp_versions sp'.
Proof.
  revert sp. induction evs as [|e evs IH]; intros sp; cbn; [by intros [= ->]|].
  destruct (spec_step e sp) as [sp1|] eqn:E; [|done]. intros Hr. etransitivity; [|by apply IH].
  clear IH Hr. destruct sp as [vs working outcomes].
  destruct e as [|k| | | | |], working as [[d k']|]; cbn in E; simplify_eq; cbn; try done;
    try (by apply prefix_app_r); [|destruct (outcomes !! k); [by simplify_eq|]];
    destruct (list.last vs); cbn in E; by simplify_eq.
Qed.

(** Nodes are never removed, nor moved. *)
Lemma step_grows (n : Z) (e : event) (w w' : world) :
  store_inv n w -> n <= 2 ^ 63 -> impl_step e w = Some w' ->
  skeleton (content w.1) `prefix_of` skeleton (content w'.1).
Proof.
  intros Hinv Hn Hstep. destruct w as [s running]. pose proof (inv_running _ _ Hinv) as Hr.
  assert (forall f log c, skeleton c `prefix_of` skeleton (foldl (finish_entry f) c log)) as Hf.
  { intros f log c. by rewrite (proj1 (finish_all_shape f log c)). }
  destruct e, running as [t|]; cbn [impl_step] in Hstep; try done; cbn [fst snd] in *.
  1, 2: unfold MemoryStorage_start_transaction in Hstep; destruct (transaction_lock s); [done|];
        by injection Hstep as <-.
  1, 2: unfold start_keyed_readable_transaction in Hstep; destruct (transaction_lock s); [done|];
        destruct (transaction_outcomes s !! _); by injection Hstep as <-.
  1: { destruct (run_op op s t) as [[[s' t']|]|] eqn:E; [|done..]. injection Hstep as <-.
       destruct (run_op_dictionary op s t _ E) as [dict Hd].
       destruct (run_op_refines _ op s t dict (run_inv _ _ Hr) Hd) as (c1 & t1 & E' & Hre).
       rewrite E in E'. injection E' as -> ->. apply Hre. }
  all: injection Hstep as <-.
  - rewrite (commit_ended s t n) by done. apply Hf.
  - rewrite (commit_with_outcome_ended s t n) by done. apply Hf.
  - rewrite (rollback_with_outcome_ended s t n) by done. apply Hf.
  - rewrite (drop_ended s t n) by done. apply Hf.
Qed.
Lemma run_grows (evs : list event) (n : Z) (w w' : world) (sp : spec_state) :
  store_inv n w -> simulates w sp -> n + starts evs <= 2 ^ 63 -> impl_run evs w = Some w' ->
  skeleton (content w.1) `prefix_of` skeleton (content w'.1).
Proof.
  revert n w sp. induction evs as [|e evs IH]; intros n w sp Hinv Hsim Hn Hrun; [by injection Hrun as <-|].
  cbn [starts foldr] in Hn. fold (starts evs) in Hn. cbn [impl_run] in Hrun.
  destruct (impl_step e w) as [w1|] eqn:E; [|done]. pose proof (starts_nonneg evs).
  assert (0 <= starts_of e) by (by destruct e).
  destruct (step_simulates n e w w1 sp Hinv Hsim) as (sp1 & _ & Hi & Hs); [lia|done|].
  etransitivity; [eapply step_grows; [done| |done]; lia|]. apply (IH (n + starts_of e) w1 sp1); [done|done|lia|done].
Qed.

(** The dictionary of a reachable store has every string under its hash. *)
Lemma step_dictionary (n : Z) (e : event) (w w' : world) :
  store_inv n w -> n <= 2 ^ 63 -> impl_step e w = Some w' -> dictionary_ok (id2str w.1) -> dictionary_ok (id2str w'.1).
Proof.
  intros Hinv Hn Hstep Hd. destruct w as [s running]. pose proof (inv_running _ _ Hinv) as Hr.
  destruct e, running as [t|]; cbn [impl_step] in Hstep; try done; cbn [fst snd] in *.
  1, 2: unfold MemoryStorage_start_transaction in Hstep; destruct (transaction_lock s); [done|];
        by injection Hstep as <-.
  1, 2: unfold start_keyed_readable_transaction in Hstep; destruct (transaction_lock s); [done|];
        destruct (transaction_outcomes s !! _); by injection Hstep as <-.
  1: { destruct (run_op op s t) as [[[s' t']|]|] eqn:E; [|done..]. injection Hstep as <-.
       destruct (run_op_dictionary op s t _ E) as [dict Hdict].
       destruct (run_op_refines _ op s t dict (run_inv _ _ Hr) Hdict) as (c1 & t1 & E' & _).
       rewrite E in E'. injection E' as -> ->. pose proof (op_dictionary_ok op s Hd) as Ho. rewrite Hdict in Ho. apply Ho. }
  all: injection Hstep as <-.
  - by rewrite (commit_ended s t n).
  - by rewrite (commit_with_outcome_ended s t n).
  - by rewrite (rollback_with_outcome_ended s t n).
  - by rewrite (drop_ended s t n).
Qed.
Lemma reachable_dictionary (evs : list event) (w : world) :
  starts evs <= 2 ^ 63 -> impl_run evs world_new = Some w -> dictionary_ok (id2str w.1).
Proof.
  assert (forall n w0 sp, store_inv n w0 -> simulates w0 sp -> n + starts evs <= 2 ^ 63 -> impl_run evs w0 = Some w ->
    dictionary_ok (id2str w0.1) -> dictionary_ok (id2str w.1)) as H'.
  { induction evs as [|e evs IH]; intros n w0 sp Hinv Hsim Hn Hrun Hd; [by injection Hrun as <-|].
    cbn [starts foldr] in Hn. fold (starts evs) in Hn. cbn [impl_run] in Hrun.
    destruct (impl_step e w0) as [w1|] eqn:E; [|done]. pose proof (starts_nonneg evs).
    assert (0 <= starts_of e) by (by destruct e).
    destruct (step_simulates n e w0 w1 sp Hinv Hsim) as (sp1 & _ & Hi & Hs); [lia|done|].
    apply (IH (n + starts_of e) w1 sp1); [done|done|lia|done|]. apply (step_dictionary n e w0 w1); [done|lia|done|done]. }
  intros Hs Hr. destruct world_new_ok as [Hi Hm]. apply (H' 0 world_new spec_new); [done|done|lia|done|]. by intros k v.
Qed.

(** ** What the store promises *)

(** Equal views of a version are equal nodes. *)
Lemma same_nodes_view (v : Z) (c c' : Content) :
  chains_ok c -> chains_ok c' -> skeleton c `prefix_of` skeleton c' -> view c' v ≡ view c v ->
  same_nodes v c c'.
Proof.
  intros Hc Hc' Hsk (Hv & _) p n Hn. pose proof (node_skeleton _ _ _ Hn) as Hs.
  apply (prefix_lookup_Some _ (skeleton c')) in Hs; [|done]. unfold skeleton in Hs.
  rewrite list_lookup_fmap in Hs. apply fmap_Some in Hs as (n' & Hn' & [= Hq Hp Hb]).
  exists n'. split_and!; try done. specialize (Hv (node_quad n)). cbn in Hv. unfold Reader_contains in Hv.
  rewrite (proj2 (co_set c Hc _ p) (node_quads _ _ _ Hn)) in Hv.
  rewrite Hq in Hv at 1. rewrite (proj2 (co_set c' Hc' _ p) (node_quads _ _ _ Hn')) in Hv. cbn in Hv.
  by rewrite Hn, Hn' in Hv.
Qed.

(** The committed versions of a reachable store, later. *)
Lemma later_view (evs later : list event) (w w' : world) (v : Z) :
  starts evs + starts later <= 2 ^ 63 -> impl_run evs world_new = Some w -> impl_run later w = Some w' ->
  0 <= v <= version_counter w.1 ->
  view (content w'.1) v ≡ view (content w.1) v /\ chains_ok (content w'.1) /\
  skeleton (content w.1) `prefix_of` skeleton (content w'.1).
Proof.
  intros Hs Hr Hl Hv. pose proof (starts_nonneg later).
  destruct (reachable_ok evs w) as (sp & _ & Hi & Hm); [lia|done|].
  destruct (run_simulates later _ w w' sp Hi Hm) as (sp' & Hsp & Hi' & Hm'); [done|done|].
  split; [|split; [apply Hi'|by eapply run_grows]].
  destruct (lookup_lt_is_Some_2 (sp_versions sp) (Z.to_nat v)) as [d Hd].
  { pose proof (sim_versions _ _ Hm). lia. }
  pose proof (prefix_lookup_Some _ _ _ _ Hd (spec_run_versions _ _ _ Hsp)) as Hd'.
  apply (sim_views _ _ Hm) in Hd. apply (sim_views _ _ Hm') in Hd'. rewrite Z2Nat.id in Hd, Hd' by lia.
  by rewrite Hd, Hd'.
Qed.

(** C1. Refinement: whatever transactions run, one after the other, the store
    implements the specification.  Its versions are the committed datasets in
    order, the running transaction sees the latest one with its own operations
    applied, a commit appends that dataset, a rollback or a drop forgets it, and
    the outcomes of the keyed transactions are the reported ones.  The bound is
    the number of transactions the 64-bit counters can number. *)
Theorem store_refines_spec (evs : list event) (w : world) :
  starts evs <= 2 ^ 63 -> impl_run evs world_new = Some w ->
  exists sp, spec_run evs spec_new = Some sp /\ simulates w sp.
Proof. intros Hs Hr. destruct (reachable_ok evs w Hs Hr) as (sp & ? & _ & ?). eauto. Qed.

(** C5. Invariant of the store: in every reachable state the quad set and the
    five chains of nodes describe the same quads, every committed version and the
    dataset of the running transaction are well-formed (the graph of a quad of a
    named graph exists, only named graphs are listed, a prefix has one
    namespace), and the lock is held exactly while a transaction runs. *)
Theorem store_invariant (evs : list event) (w : world) :
  starts evs <= 2 ^ 63 -> impl_run evs world_new = Some w ->
  chains_ok (content w.1) /\
  (forall v, 0 <= v <= version_counter w.1 -> dataset_ok (view (content w.1) v)) /\
  match w.2 with
  | Some t => transaction_lock w.1 = true /\ dataset_ok (view (content w.1) (tx_transaction_id t))
  | None => transaction_lock w.1 = false
  end.
Proof.
  intros Hs Hr. destruct (reachable_ok evs w Hs Hr) as (_ & _ & [_ _ Hl Hc Hok Hrun] & _).
  split_and!; [done|done|]. destruct w as [s [t|]]; [|done]. split; [done|apply Hrun].
Qed.

(** C2. Snapshot isolation: a reader pinned to a committed version sees the same
    dataset for ever, whatever happens to the store afterwards, and also in the
    middle of a publication or of a rollback, after any number of steps of their
    loops. *)
Theorem snapshot_isolation (evs later : list event) (w w' : world) (v : Z) :
  starts evs + starts later <= 2 ^ 63 -> impl_run evs world_new = Some w ->
  impl_run later w = Some w' -> 0 <= v <= MemoryStorage_snapshot w.1 ->
  view (content w'.1) v ≡ view (content w.1) v /\
  forall t k, w'.2 = Some t ->
    view (foldl (finish_entry (upgrade t)) (content w'.1) (take k (tx_log t))) v ≡ view (content w.1) v /\
    view (foldl (finish_entry (rollback t)) (content w'.1) (take k (tx_log t))) v ≡ view (content w.1) v.
Proof.
  intros Hs Hr Hl Hv. destruct (later_view evs later w w' v Hs Hr Hl Hv) as (Hview & _ & _).
  split; [done|]. intros t k Ht.
  destruct (reachable_ok (evs ++ later) w') as (sp & _ & Hinv & Hsim).
  { by rewrite starts_app. } { by rewrite impl_run_app, Hr. }
  rewrite starts_app in Hinv. destruct w' as [s' running]. cbn in Ht. subst running.
  assert (v <= version_counter s') as Hv'.
  { pose proof (starts_nonneg later). destruct (reachable_ok evs w) as (sp0 & Hsp0 & Hi0 & Hm0); [lia|done|].
    destruct (run_simulates later _ w _ sp0 Hi0 Hm0 Hs Hl) as (sp1 & Hsp1 & _ & Hm1).
    apply spec_run_versions, prefix_length in Hsp1.
    pose proof (sim_versions _ _ Hm0). pose proof (sim_versions _ _ Hm1). unfold MemoryStorage_snapshot in *.
    cbn [fst] in *. lia. }
  cbn [fst] in *. by rewrite (published_old s' t _ Hinv Hs _ v Hv'), (restored_old s' t _ Hinv _ v Hv').
Qed.

(** C4. Operations of a transaction: in every reachable state, an operation of the
    running transaction does to the dataset it sees what the specification says,
    and nothing to the committed versions; the dictionary only grows.  It never
    returns an error, and it fails (panics) only if a string of the terms it inserts
    has the hash of another one of them or of another string of the dictionary. *)
Theorem transaction_operation (evs : list event) (s : MemoryStorage) (t : MemoryStorageTransaction) (op : tx_op) :
  starts evs <= 2 ^ 63 -> impl_run evs world_new = Some (s, Some t) ->
  match run_op op s t with
  | Some (Ok (s', t')) =>
      tx_transaction_id t' = tx_transaction_id t /\ op_dictionary op s = Some (id2str s') /\ id2str s ⊆ id2str s' /\
      view (content s') (tx_transaction_id t) ≡ spec_op op (view (content s) (tx_transaction_id t)) /\
      forall v, v <= version_counter s -> view (content s') v ≡ view (content s) v
  | Some (Err _) => False
  | None => collides (op_strings op) (id2str s)
  end.
Proof.
  intros Hs Hr. destruct (reachable_ok evs _ Hs Hr) as (_ & _ & [_ _ _ _ _ Hrun] & _). cbn in Hrun.
  pose proof (op_dictionary_ok op s (reachable_dictionary evs _ Hs Hr)) as Hd.
  destruct (op_dictionary op s) as [dict|] eqn:E.
  - destruct (run_op_refines _ op s t dict (run_inv _ _ Hrun) E) as (c' & t' & -> & [(Hid & _) _ _ _ Ho Hn]).
    by split_and!; try apply Hd.
  - destruct (run_op op s t) as [r|] eqn:Er; [|done]. destruct (run_op_dictionary op s t r Er). congruence.
Qed.

(** C3. Reading a pattern: the iteration of [quads_for_pattern] ends, and yields
    the quads of the version that match the pattern, each once, whichever of the
    five chains it follows.  At a committed version it yields the same quads when
    every step of the iteration happens in another, later state of the store. *)
Theorem quads_for_pattern_spec (evs : list event) (w : world) (v : Z) (pat : QuadPattern) :
  starts evs <= 2 ^ 63 -> impl_run evs world_new = Some w ->
  let c := content w.1 in
  exists l, QuadIterator_collect (S (length (nodes c))) c (quads_for_pattern c v pat) = Some l /\
    NoDup l /\
    (forall q, q ∈ l <-> ds_quad (view c v) q = true /\ pattern_matches pat q = true) /\
    (0 <= v <= version_counter w.1 -> forall (later : nat -> list event) (ws : nat -> world),
       (forall i, starts evs + starts (later i) <= 2 ^ 63 /\ impl_run (later i) w = Some (ws i)) ->
       collect_concurrent (S (length (nodes c))) (fun i => content (ws i).1) (quads_for_pattern c v pat) = Some l).
Proof.
  intros Hs Hr c. destruct (reachable_ok evs w Hs Hr) as (_ & _ & [_ _ _ Hc _ _] & _).
  destruct (collect_pattern c v pat Hc) as (l & H1 & H2 & H3 & H4). exists l. split_and!; [done..|].
  intros Hv later ws Hl. apply H4. intros i. destruct (Hl i) as [Hn Hw].
  destruct (later_view evs (later i) w (ws i) v Hn Hr Hw Hv) as (? & ? & ?). by apply same_nodes_view.
Qed.

(** C6. Ending a transaction: [commit] and [commit_with_outcome] make the dataset
    of the transaction the next version, [rollback_with_outcome] and dropping the
    transaction leave no version behind; the methods that report a result succeed,
    the lock is free again, and the key of the transaction has its outcome. *)
Theorem transaction_end (evs : list event) (s : MemoryStorage) (t : MemoryStorageTransaction) :
  starts evs <= 2 ^ 63 -> impl_run evs world_new = Some (s, Some t) ->
  let committed s' :=
    version_counter s' = version_counter s + 1 /\ transaction_lock s' = false /\
    view (content s') (version_counter s') ≡ view (content s) (tx_transaction_id t) in
  let undone s' :=
    version_counter s' = version_counter s /\ transaction_lock s' = false /\
    view (content s') (version_counter s') ≡ view (content s) (version_counter s) in
  let outcome s' o := forall key, tx_transaction_key t = Some key -> lookup_transaction_outcome s' key = o in
  committed (commit s t) /\
  (exists s', commit_with_outcome s t = (s', Ok tt) /\ committed s' /\ outcome s' OutcomeCommitted) /\
  (exists s', rollback_with_outcome s t = (s', Ok tt) /\ undone s' /\ outcome s' OutcomeRolledBack) /\
  undone (drop_transaction s t) /\ outcome (drop_transaction s t) OutcomeRolledBack.
Proof.
  intros Hs Hr. destruct (reachable_ok evs _ Hs Hr) as (_ & _ & Hinv & _). cbv zeta.
  assert (forall o c v key, tx_transaction_key t = Some key ->
    lookup_transaction_outcome (ended s c v (record_outcome s t o)) key = outcome_of o) as Hout.
  { intros o c v key Hk. unfold lookup_transaction_outcome, ended, record_outcome. rewrite Hk. cbn.
    rewrite lookup_insert_eq. by destruct o. }
  rewrite (commit_ended s t _ Hinv Hs), (commit_with_outcome_ended s t _ Hinv Hs),
    (rollback_with_outcome_ended s t _ Hinv), (drop_ended s t _ Hinv).
  pose proof (published_new s t _ Hinv Hs) as Hnew. pose proof (restored_old s t _ Hinv (tx_log t) (version_counter s)) as Hold.
  split_and!; try done; try (eexists; split; [done|]; split_and!; try done); try (by apply Hold);
    intros key Hk; by rewrite (Hout _ _ _ key Hk).
Qed.

(** A terminal outcome is recorded for a key that no running transaction has. *)
Lemma record_outcome_final (s : MemoryStorage) (t : MemoryStorageTransaction) (key : bytes)
  (o o' : MemoryTransactionOutcomeState) :
  tx_running s t -> transaction_outcomes s !! key = Some o -> o <> Staging ->
  record_outcome s t o' !! key = Some o.
Proof.
  intros [_ _ _ _ Hk _] Ho Hne. unfold record_outcome. destruct (tx_transaction_key t) as [k|]; [|done].
  rewrite lookup_insert_ne; [done|]. congruence.
Qed.
Lemma step_outcomes (n : Z) (e : event) (w w' : world) (key : bytes) (o : MemoryTransactionOutcomeState) :
  store_inv n w -> n <= 2 ^ 63 -> impl_step e w = Some w' ->
  transaction_outcomes w.1 !! key = Some o -> o <> Staging -> transaction_outcomes w'.1 !! key = Some o.
Proof.
  intros Hinv Hn Hstep Ho Hne. destruct w as [s running]. pose proof (inv_running _ _ Hinv) as Hr.
  destruct e as [|k| | | | |], running as [t|]; cbn [impl_step] in Hstep; try done; cbn [fst snd] in *.
  1, 2: unfold MemoryStorage_start_transaction in Hstep; destruct (transaction_lock s); [done|];
        by injection Hstep as <-.
  1, 2: unfold start_keyed_readable_transaction in Hstep; destruct (transaction_lock s); [done|];
        destruct (transaction_outcomes s !! k) eqn:E; injection Hstep as <-; cbn; [done|];
        rewrite lookup_insert_ne; congruence.
  1: { destruct (run_op op s t) as [[[s' t']|]|] eqn:E; [|done..]. injection Hstep as <-.
       destruct (run_op_dictionary op s t _ E) as [dict Hd].
       destruct (run_op_refines _ op s t dict (run_inv _ _ Hr) Hd) as (c1 & t1 & E' & _).
       rewrite E in E'. by injection E' as -> ->. }
  all: injection Hstep as <-.
  - by rewrite (commit_ended s t n).
  - rewrite (commit_with_outcome_ended s t n) by done. by apply record_outcome_final.
  - rewrite (rollback_with_outcome_ended s t n) by done. by apply record_outcome_final.
  - rewrite (drop_ended s t n) by done. by apply record_outcome_final.
Qed.
Lemma run_outcomes (evs : list event) (n : Z) (w w' : world) (sp : spec_state) (key : bytes)
  (o : MemoryTransactionOutcomeState) :
  store_inv n w -> simulates w sp -> n + starts evs <= 2 ^ 63 -> impl_run evs w = Some w' ->
  transaction_outcomes w.1 !! key = Some o -> o <> Staging -> transaction_outcomes w'.1 !! key = Some o.
Proof.
  revert n w sp. induction evs as [|e evs IH]; intros n w sp Hinv Hsim Hn Hrun Ho Hne; [by injection Hrun as <-|].
  cbn [starts foldr] in Hn. fold (starts evs) in Hn. cbn [impl_run] in Hrun.
  destruct (impl_step e w) as [w1|] eqn:E; [|done]. pose proof (starts_nonneg evs).
  assert (0 <= starts_of e) by (by destruct e).
  destruct (step_simulates n e w w1 sp Hinv Hsim) as (sp1 & _ & Hi & Hs); [lia|done|].
  apply (IH (n + starts_of e) w1 sp1); [done|done|lia|done| |done]. apply (step_outcomes n e w w1); [done|lia|done..].
Qed.

(** C7. Outcomes are final: once the store reports a keyed transaction as
    committed or rolled back, it reports that for ever. *)
Theorem outcomes_final (evs later : list event) (w w' : world) (key : bytes) :
  starts evs + starts later <= 2 ^ 63 -> impl_run evs world_new = Some w -> impl_run later w = Some w' ->
  lookup_transaction_outcome w.1 key <> OutcomeIndeterminate ->
  lookup_transaction_outcome w'.1 key = lookup_transaction_outcome w.1 key.
Proof.
  intros Hs Hr Hl Ho. pose proof (starts_nonneg later).
  destruct (reachable_ok evs w) as (sp & _ & Hi & Hm); [lia|done|].
  unfold lookup_transaction_outcome in *. destruct (transaction_outcomes w.1 !! key) as [o|] eqn:E; [|done].
  by rewrite (run_outcomes later _ w w' sp key o Hi Hm Hs Hl E) by (intros ->; done).
Qed.
End operations.

(** ** Witnesses *)

Definition sample_quad : RdfQuad :=
  mkQuad (NodeNamed (sample_node "ex:s")) (sample_node "ex:p") (TermLiteral (LiteralString (str "o")))
    (GraphNamedNode (sample_node "ex:g")).
(** A keyed transaction that inserts a quad and commits, then a running one. *)
Definition sample_committed : list event :=
  [EvStartKeyed (str "k"); EvOp (OpInsert sample_quad); EvCommitWithOutcome].
Definition sample_running : list event :=
  [EvStart; EvOp (OpRemove sample_quad); EvOp (OpInsertNamedGraph (NodeNamed (sample_node "ex:h")))].
Definition sample_events : list event := sample_committed ++ sample_running.
#[local] Existing Instance sample_params.
Definition sample_world (evs : list event) : world := default world_new (impl_run evs world_new).
Definition sample_tx : MemoryStorageTransaction :=
  default (mkTransaction [] 0 0 None false false) (sample_world sample_events).2.

Lemma sample_runs (evs : list event) :
  bool_decide (is_Some (impl_run evs world_new)) = true -> impl_run evs world_new = Some (sample_world evs).
Proof. intros [w E]%bool_decide_eq_true. unfold sample_world. by rewrite E. Qed.
Lemma sample_continues :
  impl_run sample_running (sample_world sample_committed) = Some (sample_world sample_events).
Proof.
  rewrite <- (sample_runs sample_events) by by vm_compute. unfold sample_events.
  rewrite impl_run_app, (sample_runs sample_committed) by by vm_compute. cbn [mbind option_bind]. reflexivity.
Qed.
Lemma sample_tx_runs :
  impl_run sample_events world_new = Some ((sample_world sample_events).1, Some sample_tx).
Proof.
  rewrite sample_runs by by vm_compute. rewrite (surjective_pairing (sample_world sample_events)) at 1.
  assert ((sample_world sample_events).2 = Some sample_tx) as -> by by vm_compute. reflexivity.
Qed.

Lemma store_refines_spec_witness :
  starts sample_events <= 2 ^ 63 /\
  exists sp, spec_run sample_events spec_new = Some sp /\ simulates (sample_world sample_events) sp.
Proof. split; [done|]. apply store_refines_spec; [done|apply sample_runs; by vm_compute]. Defined.
Lemma store_invariant_witness :
  chains_ok (content (sample_world sample_events).1) /\
  dataset_ok (view (content (sample_world sample_events).1) 1).
Proof.
  destruct (store_invariant sample_events (sample_world sample_events)) as (H1 & H2 & _);
    [done|apply sample_runs; by vm_compute|]. split; [done|]. apply H2. by vm_compute.
Defined.
Lemma snapshot_isolation_witness :
  view (content (sample_world sample_events).1) 1 ≡ view (content (sample_world sample_committed).1) 1.
Proof.
  destruct (snapshot_isolation sample_committed sample_running (sample_world sample_committed)
              (sample_world sample_events) 1) as [H _]; [done| |exact sample_continues|by vm_compute|exact H].
  apply sample_runs. by vm_compute.
Defined.
Lemma transaction_operation_witness :
  match run_op (OpInsert sample_quad) (sample_world sample_events).1 sample_tx with
  | Some (Ok (s', t')) =>
      view (content s') (tx_transaction_id sample_tx)
      ≡ ds_insert (EncodedQuad_from_quad sample_quad)
          (view (content (sample_world sample_events).1) (tx_transaction_id sample_tx))
  | _ => False
  end.
Proof.
  pose proof (transaction_operation sample_events (sample_world sample_events).1 sample_tx (OpInsert sample_quad)
    ltac:(done) sample_tx_runs) as Ho.
  assert (match run_op (OpInsert sample_quad) (sample_world sample_events).1 sample_tx with None => false | _ => true end = true)
    as E by (vm_compute; reflexivity).
  destruct (run_op _ _ _) as [[[s' t']|e]|]; [apply Ho|done|discriminate E].
Defined.
Lemma quads_for_pattern_spec_witness :
  let c := content (sample_world sample_events).1 in
  let pat := mkPattern None (Some (EncodedTerm_from_named_node (sample_node "ex:p"))) None None in
  exists l, QuadIterator_collect (S (length (nodes c))) c (quads_for_pattern c 1 pat) = Some l /\
    EncodedQuad_from_quad sample_quad ∈ l.
Proof.
  intros c pat.
  destruct (quads_for_pattern_spec sample_events (sample_world sample_events) 1 pat)
    as (l & H1 & _ & H2 & _); [done|apply sample_runs; by vm_compute|].
  exists l. refine (conj H1 (proj2 (H2 _) _)). split; vm_compute; reflexivity.
Defined.
Lemma transaction_end_witness :
  exists s', commit_with_outcome (sample_world sample_events).1 sample_tx = (s', Ok tt) /\
    version_counter s' = 2.
Proof.
  destruct (transaction_end sample_events (sample_world sample_events).1 sample_tx)
    as (_ & (s' & H1 & (H2 & _) & _) & _); [done|exact sample_tx_runs|].
  exists s'. refine (conj H1 _). rewrite H2. vm_compute. reflexivity.
Defined.
Lemma outcomes_final_witness :
  lookup_transaction_outcome (sample_world sample_events).1 (str "k") = OutcomeCommitted.
Proof.
  rewrite (outcomes_final sample_committed sample_running (sample_world sample_committed)
             (sample_world sample_events) (str "k"));
    [by vm_compute|done|apply sample_runs; by vm_compute|apply sample_continues|by vm_compute].
Defined.
