(* ===== verification/BTree.v ===== *)
(** * Ordered collections

    Rust's [Ord] on the types the Datalog engine orders (byte strings, vectors,
    pairs), the stable [sort_by_key] of slices, and the [BTreeMap]/[BTreeSet]
    of the standard library: a finite map or set whose iteration is in key
    order. *)
From stdpp Require Import gmap sorting.
From Stdlib Require Import Sorted.
From S2P Require Import Prelude MachineInt.

(** ** Ord *)

Class RustOrd (A : Type) := cmp : A -> A -> comparison.

(** What the collections need of [Ord]: a total order that agrees with [Eq]. *)
Class RustOrdLaws (A : Type) `{RustOrd A} := {
  cmp_eq : forall a b : A, cmp a b = Eq <-> a = b;
  cmp_antisym : forall a b : A, cmp b a = CompOpp (cmp a b);
  cmp_trans : forall a b c : A, cmp a b = Lt -> cmp b c = Lt -> cmp a c = Lt
}.

Definition leb {A : Type} `{RustOrd A} (a b : A) : bool :=
  match cmp a b with Gt => false | _ => true end.
Definition ltb {A : Type} `{RustOrd A} (a b : A) : bool :=
  match cmp a b with Lt => true | _ => false end.

#[global] Instance Z_ord : RustOrd Z := Z.compare.
#[global] Instance ascii_ord : RustOrd ascii := fun a b => Z_of_byte a ?= Z_of_byte b.

(** Slices and strings compare lexicographically. *)
Fixpoint list_cmp {A : Type} `{RustOrd A} (a b : list A) : comparison :=
  match a, b with
  | [], [] => Eq
  | [], _ :: _ => Lt
  | _ :: _, [] => Gt
  | x :: a, y :: b => match cmp x y with Eq => list_cmp a b | c => c end
  end.
#[global] Instance list_ord {A : Type} `{RustOrd A} : RustOrd (list A) := list_cmp.

Definition pair_cmp {A B : Type} `{RustOrd A} `{RustOrd B} (a b : A * B) : comparison :=
  match cmp a.1 b.1 with Eq => cmp a.2 b.2 | c => c end.
#[global] Instance pair_ord {A B : Type} `{RustOrd A} `{RustOrd B} : RustOrd (A * B) := pair_cmp.

(** ** Sorting *)

Section sort.
  Context {A K : Type} `{RustOrd K} (key : A -> K).

(** Insertion before the first element whose key is not smaller: the sort is
    stable. *)
Fixpoint insert_by (x : A) (l : list A) : list A :=
  match l with
  | [] => [x]
  | y :: l' => if leb (key x) (key y) then x :: l else y :: insert_by x l'
  end.

(** [sort_by_key] *)
Fixpoint sort_by (l : list A) : list A :=
  match l with
  | [] => []
  | x :: l => insert_by x (sort_by l)
  end.

End sort.

(** [Vec::dedup]: the first of each run of equal elements. *)
Fixpoint dedup {A : Type} `{EqDecision A} (l : list A) : list A :=
  match l with
  | [] => []
  | x :: l' =>
      match l' with
      | [] => [x]
      | y :: _ => if decide (x = y) then dedup l' else x :: dedup l'
      end
  end.

(** ** BTreeMap and BTreeSet *)

Definition btree_entries {K V : Type} `{Countable K} `{RustOrd K} (m : gmap K V) : list (K * V) :=
  sort_by fst (map_to_list m).
Definition btree_keys {K V : Type} `{Countable K} `{RustOrd K} (m : gmap K V) : list K :=
  fst <$> btree_entries m.
Definition btree_elements {K : Type} `{Countable K} `{RustOrd K} (s : gset K) : list K :=
  sort_by (fun x => x) (elements s).

(** ** Lemmas *)

#[global] Instance Z_ord_laws : RustOrdLaws Z.
Proof.
  split; intros; unfold cmp, Z_ord in *; [apply Z.compare_eq_iff|apply Z.compare_antisym|].
  rewrite Z.compare_lt_iff in *. lia.
Qed.

#[global] Instance ascii_ord_laws : RustOrdLaws ascii.
Proof.
  split; intros; unfold cmp, ascii_ord in *.
  - rewrite Z.compare_eq_iff. split; [|congruence]. intros E.
    by rewrite <- (byte_of_Z_of_byte a), <- (byte_of_Z_of_byte b), E.
  - apply Z.compare_antisym.
  - rewrite Z.compare_lt_iff in *. lia.
Qed.

Section laws.
  Context {A : Type} `{RustOrdLaws A}.

Lemma cmp_refl (a : A) : cmp a a = Eq.
Proof. by apply cmp_eq. Qed.

Lemma cmp_gt (a b : A) : cmp a b = Gt <-> cmp b a = Lt.
Proof. rewrite (cmp_antisym a b). destruct (cmp a b); simpl; split; congruence. Qed.

Lemma leb_total (a b : A) : leb a b = false -> leb b a = true.
Proof. unfold leb. rewrite (cmp_antisym a b). by destruct (cmp a b). Qed.

Lemma leb_antisym (a b : A) : leb a b = true -> leb b a = true -> a = b.
Proof.
  unfold leb. rewrite (cmp_antisym a b). destruct (cmp a b) eqn:E; try done. by apply cmp_eq in E.
Qed.

Lemma leb_refl (a : A) : leb a a = true.
Proof. unfold leb. by rewrite cmp_refl. Qed.

Lemma leb_lt_or_eq (a b : A) : leb a b = true <-> cmp a b = Lt \/ a = b.
Proof.
  unfold leb. destruct (cmp a b) eqn:E.
  - apply cmp_eq in E. naive_solver.
  - naive_solver.
  - split; [done|]. intros [?| ->]; [done|]. by rewrite cmp_refl in E.
Qed.

Lemma leb_trans (a b c : A) : leb a b = true -> leb b c = true -> leb a c = true.
Proof.
  rewrite !leb_lt_or_eq. intros [?| ->] [?| ->]; eauto using cmp_trans.
Qed.
End laws.

Lemma list_cmp_trans {A : Type} `{RustOrdLaws A} (a b c : list A) :
  list_cmp a b = Lt -> list_cmp b c = Lt -> list_cmp a c = Lt.
Proof.
  revert b c. induction a as [|x a IH]; intros [|y b] [|z c]; simpl; try done.
  destruct (cmp x y) eqn:E1; try done; destruct (cmp y z) eqn:E2; try done; intros H1 H2.
  - apply cmp_eq in E1 as ->, E2 as ->. rewrite cmp_refl. eauto.
  - apply cmp_eq in E1 as ->. by rewrite E2.
  - apply cmp_eq in E2 as <-. by rewrite E1.
  - by rewrite (cmp_trans x y z).
Qed.

#[global] Instance list_ord_laws {A : Type} `{RustOrdLaws A} : RustOrdLaws (list A).
Proof.
  split; unfold cmp, list_ord.
  - intros a. induction a as [|x a IH]; intros [|y b]; simpl; try done.
    destruct (cmp x y) eqn:E.
    + apply cmp_eq in E as ->. rewrite IH. naive_solver.
    + split; [done|]. intros [= -> ->]. by rewrite cmp_refl in E.
    + split; [done|]. intros [= -> ->]. by rewrite cmp_refl in E.
  - intros a. induction a as [|x a IH]; intros [|y b]; simpl; try done.
    rewrite (cmp_antisym x y). destruct (cmp x y); simpl; auto.
  - apply list_cmp_trans.
Qed.

#[global] Instance pair_ord_laws {A B : Type} `{RustOrdLaws A} `{RustOrdLaws B} : RustOrdLaws (A * B).
Proof.
  split; unfold cmp, pair_ord, pair_cmp; intros.
  - destruct a as [a1 a2], b as [b1 b2]; simpl. destruct (cmp a1 b1) eqn:E.
    + apply cmp_eq in E as ->. rewrite cmp_eq. naive_solver.
    + split; [done|]. intros [= -> ->]. by rewrite cmp_refl in E.
    + split; [done|]. intros [= -> ->]. by rewrite cmp_refl in E.
  - rewrite (cmp_antisym a.1 b.1). destruct (cmp a.1 b.1); simpl; auto. apply cmp_antisym.
  - destruct a as [a1 a2], b as [b1 b2], c as [c1 c2]; simpl in *.
    destruct (cmp a1 b1) eqn:E1; try done; destruct (cmp b1 c1) eqn:E2; try done.
    + apply cmp_eq in E1 as ->, E2 as ->. rewrite cmp_refl. eauto using cmp_trans.
    + apply cmp_eq in E1 as ->. by rewrite E2.
    + apply cmp_eq in E2 as <-. by rewrite E1.
    + by rewrite (cmp_trans a1 b1 c1).
Qed.

Section sort_facts.
  Context {A K : Type} `{RustOrdLaws K} (key : A -> K).

Lemma insert_by_perm (x : A) (l : list A) : insert_by key x l ≡ₚ x :: l.
Proof.
  induction l as [|y l IH]; simpl; [done|]. destruct (leb _ _); [done|]. rewrite IH. constructor.
Qed.

Lemma sort_by_perm (l : list A) : sort_by key l ≡ₚ l.
Proof. induction l as [|x l IH]; simpl; [done|]. by rewrite insert_by_perm, IH. Qed.

Lemma elem_of_sort_by (x : A) (l : list A) : x ∈ sort_by key l <-> x ∈ l.
Proof. by rewrite sort_by_perm. Qed.

Lemma length_sort_by (l : list A) : length (sort_by key l) = length l.
Proof. by rewrite sort_by_perm. Qed.

Lemma insert_by_sorted (x : A) (l : list A) :
  StronglySorted (fun a b => leb (key a) (key b) = true) l ->
  StronglySorted (fun a b => leb (key a) (key b) = true) (insert_by key x l).
Proof.
  induction 1 as [|y l Hl IH Hy]; simpl; [by repeat constructor|].
  destruct (leb (key x) (key y)) eqn:E.
  - constructor; [by constructor|]. constructor; [done|].
    eapply List.Forall_impl; [|exact Hy]. intros z Hz. by eapply leb_trans.
  - constructor; [done|]. rewrite insert_by_perm. constructor; [by apply leb_total|done].
Qed.

Lemma sort_by_sorted (l : list A) :
  StronglySorted (fun a b => leb (key a) (key b) = true) (sort_by key l).
Proof. induction l; simpl; [constructor|by apply insert_by_sorted]. Qed.

Lemma NoDup_sort_by (l : list A) : NoDup l -> NoDup (sort_by key l).
Proof. by rewrite sort_by_perm. Qed.

(** Two sorted lists with the same elements are one list, when the key
    tells the elements apart. *)
Lemma sorted_unique (l k : list A) :
  (forall a b, a ∈ l -> b ∈ l -> key a = key b -> a = b) ->
  StronglySorted (fun a b => leb (key a) (key b) = true) l ->
  StronglySorted (fun a b => leb (key a) (key b) = true) k ->
  l ≡ₚ k -> l = k.
Proof.
  intros Hinj Hl. revert k. induction Hl as [|x l Hl IH Hx]; intros k Hk Hp.
  - by apply Permutation_nil_l in Hp.
  - destruct Hk as [|y k Hk Hy]; [by apply Permutation_nil_r in Hp|].
    assert (Hyx : y ∈ x :: l) by (rewrite Hp; set_solver).
    assert (Hxy : x ∈ y :: k) by (rewrite <- Hp; set_solver).
    assert (x = y) as ->.
    { apply elem_of_cons in Hyx as [->|Hyl]; [done|].
      apply elem_of_cons in Hxy as [->|Hxk]; [done|].
      rewrite Forall_forall in Hx, Hy. apply Hinj; [set_solver..|].
      apply leb_antisym; [by apply Hx, list_elem_of_In|by apply Hy, list_elem_of_In]. }
    f_equal. apply IH; [set_solver|done|]. by eapply Permutation_cons_inv.
Qed.
End sort_facts.

Lemma elem_of_dedup {A : Type} `{EqDecision A} (l : list A) (x : A) : x ∈ dedup l <-> x ∈ l.
Proof.
  induction l as [|y l IH]; [done|]. cbn [dedup]. destruct l as [|z l]; [done|].
  destruct (decide (y = z)) as [->|]; [rewrite IH; set_solver|].
  rewrite !(elem_of_cons _ x y), IH. done.
Qed.

Section btree_facts.
  Context {K V : Type} `{Countable K} `{RustOrdLaws K}.
  Implicit Types (m : gmap K V) (s : gset K).

Lemma elem_of_btree_entries m k v : (k, v) ∈ btree_entries m <-> m !! k = Some v.
Proof. unfold btree_entries. by rewrite elem_of_sort_by, elem_of_map_to_list. Qed.

Lemma elem_of_btree_keys m k : k ∈ btree_keys m <-> is_Some (m !! k).
Proof.
  unfold btree_keys. rewrite list_elem_of_fmap. split.
  - intros ([k' v] & -> & Hk). apply elem_of_btree_entries in Hk. by exists v.
  - intros [v Hv]. exists (k, v). split; [done|]. by apply elem_of_btree_entries.
Qed.

Lemma NoDup_btree_keys m : NoDup (btree_keys m).
Proof.
  unfold btree_keys, btree_entries. rewrite sort_by_perm. apply NoDup_fst_map_to_list.
Qed.

Lemma length_btree_entries m : length (btree_entries m) = size m.
Proof. unfold btree_entries. rewrite length_sort_by. apply length_map_to_list. Qed.

Lemma length_btree_keys m : length (btree_keys m) = size m.
Proof. unfold btree_keys. by rewrite length_fmap, length_btree_entries. Qed.

Lemma elem_of_btree_elements s k : k ∈ btree_elements s <-> k ∈ s.
Proof. unfold btree_elements. by rewrite elem_of_sort_by, elem_of_elements. Qed.

Lemma NoDup_btree_elements s : NoDup (btree_elements s).
Proof. unfold btree_elements. rewrite sort_by_perm. apply NoDup_elements. Qed.

Lemma length_btree_elements s : length (btree_elements s) = size s.
Proof. unfold btree_elements. by rewrite length_sort_by. Qed.
End btree_facts.
