(* ===== verification/RdfDisplay.v ===== *)
(** * The text of RDF terms

    The [Display] implementations of lib/oxrdf/src (named_node.rs,
    blank_node.rs, literal.rs, triple.rs): the N-Quads text the Datalog engine
    measures, sorts and hashes.  Decidable equality of the terms is here too. *)
From stdpp Require Import gmap.
From S2P Require Import Prelude MachineInt RustStr BTree RdfModel.

(** ** Literals *)

(** [write!(f, "\\u{:04X}", u32::from(c))] for a code point below [0x10000]. *)
Definition upper_hex_digit (d : Z) : ascii := if d <? 10 then digit_char d else byte_of_Z (55 + d).
Definition unicode_escape (c : Z) : bytes :=
  str "\u" ++ [upper_hex_digit (c / 4096); upper_hex_digit (c / 256 mod 16);
               upper_hex_digit (c / 16 mod 16); upper_hex_digit (c mod 16)].

(** One byte that is a character of its own, or a byte of a longer one. *)
Definition escape_byte (c : ascii) : bytes :=
  let b := Z_of_byte c in
  if b =? 8 then str "\b"
  else if b =? 9 then str "\t"
  else if b =? 10 then str "\n"
  else if b =? 12 then str "\f"
  else if b =? 13 then str "\r"
  else if b =? 34 then [byte_of_Z 92; byte_of_Z 34]
  else if b =? 92 then str "\\"
  else if (b <=? 31) || (b =? 127) then unicode_escape b
  else [c].

(** The characters U+FFFE and U+FFFF are the bytes EF BF BE and EF BF BF; in
    UTF-8 the byte EF only starts a character. *)
Fixpoint escape_chars (s : bytes) : bytes :=
  match s with
  | [] => []
  | a :: s1 =>
      match s1 with
      | b :: c :: s3 =>
          if (Z_of_byte a =? 239) && (Z_of_byte b =? 191) && (Z_of_byte c >=? 190)
          then unicode_escape (65344 + Z_of_byte c) ++ escape_chars s3
          else escape_byte a ++ escape_chars s1
      | _ => escape_byte a ++ escape_chars s1
      end
  end.

Definition quote : ascii := byte_of_Z 34.
Definition print_quoted_str (s : bytes) : bytes := quote :: escape_chars s ++ [quote].

Definition NamedNode_to_string (n : RdfNamedNode) : bytes := str "<" ++ nn_iri n ++ str ">".
Definition BlankNode_to_string (n : RdfBlankNode) : bytes := str "_:" ++ BlankNode_as_str n.
Definition BaseDirection_to_string (d : BaseDirection) : bytes :=
  match d with Ltr => str "ltr" | Rtl => str "rtl" end.
Definition Literal_to_string (l : RdfLiteral) : bytes :=
  match l with
  | LiteralString value => print_quoted_str value
  | LanguageTaggedString value language => print_quoted_str value ++ str "@" ++ language
  | DirectionalLanguageTaggedString value language direction =>
      print_quoted_str value ++ str "@" ++ language ++ str "--" ++ BaseDirection_to_string direction
  | TypedLiteral value datatype =>
      print_quoted_str value ++ str "^^" ++ NamedNode_to_string datatype
  end.

(** ** Terms, triples and quads *)

Definition NamedOrBlankNode_to_string (n : RdfNamedOrBlankNode) : bytes :=
  match n with
  | NodeNamed n => NamedNode_to_string n
  | NodeBlank n => BlankNode_to_string n
  end.
Fixpoint Term_to_string (t : RdfTerm) : bytes :=
  match t with
  | TermNamedNode n => NamedNode_to_string n
  | TermBlankNode n => BlankNode_to_string n
  | TermLiteral l => Literal_to_string l
  | TermTriple s p o =>
      str "<<( " ++ (NamedOrBlankNode_to_string s ++ str " " ++ NamedNode_to_string p ++ str " "
                     ++ Term_to_string o) ++ str " )>>"
  end.
Definition Triple_to_string (t : RdfTriple) : bytes :=
  NamedOrBlankNode_to_string (t_subject t) ++ str " " ++ NamedNode_to_string (t_predicate t)
  ++ str " " ++ Term_to_string (t_object t).
Definition GraphName_to_string (g : RdfGraphName) : bytes :=
  match g with
  | GraphNamedNode n => NamedNode_to_string n
  | GraphBlankNode n => BlankNode_to_string n
  | GraphDefault => str "DEFAULT"
  end.
Definition Quad_to_string (q : RdfQuad) : bytes :=
  let spo := NamedOrBlankNode_to_string (q_subject q) ++ str " " ++ NamedNode_to_string (q_predicate q)
             ++ str " " ++ Term_to_string (q_object q) in
  if GraphName_is_default_graph (q_graph_name q) then spo
  else spo ++ str " " ++ GraphName_to_string (q_graph_name q).

(** ** Equality *)

#[global] Instance RdfBlankNode_eq_dec : EqDecision RdfBlankNode.
Proof. solve_decision. Defined.
#[global] Instance BaseDirection_eq_dec : EqDecision BaseDirection.
Proof. solve_decision. Defined.
#[global] Instance RdfLiteral_eq_dec : EqDecision RdfLiteral.
Proof. solve_decision. Defined.
#[global] Instance RdfNamedOrBlankNode_eq_dec : EqDecision RdfNamedOrBlankNode.
Proof. solve_decision. Defined.
#[global] Instance RdfTerm_eq_dec : EqDecision RdfTerm.
Proof. solve_decision. Defined.
#[global] Instance RdfTriple_eq_dec : EqDecision RdfTriple.
Proof. solve_decision. Defined.
#[global] Instance RdfGraphName_eq_dec : EqDecision RdfGraphName.
Proof. solve_decision. Defined.
#[global] Instance RdfQuad_eq_dec : EqDecision RdfQuad.
Proof. solve_decision. Defined.

#[global] Instance RdfNamedNode_countable : Countable RdfNamedNode.
Proof. by apply (inj_countable' nn_iri mkNamedNode); intros []. Defined.

#[global] Instance RdfBlankNode_countable : Countable RdfBlankNode.
Proof.
  apply (inj_countable' (fun n => match n with BlankNamed i => inl i | BlankAnonymous i s => inr (i, s) end)
    (fun x => match x with inl i => BlankNamed i | inr (i, s) => BlankAnonymous i s end)).
  by intros [].
Defined.

#[global] Instance BaseDirection_countable : Countable BaseDirection.
Proof.
  apply (inj_countable' (fun d => match d with Ltr => true | Rtl => false end)
    (fun b : bool => if b then Ltr else Rtl)). by intros [].
Defined.

#[global] Instance RdfLiteral_countable : Countable RdfLiteral.
Proof.
  apply (inj_countable'
    (fun l => match l with
      | LiteralString v => inl (inl v)
      | LanguageTaggedString v l => inl (inr (v, l))
      | DirectionalLanguageTaggedString v l d => inr (inl (v, l, d))
      | TypedLiteral v d => inr (inr (v, d)) end)
    (fun x => match x with
      | inl (inl v) => LiteralString v
      | inl (inr (v, l)) => LanguageTaggedString v l
      | inr (inl (v, l, d)) => DirectionalLanguageTaggedString v l d
      | inr (inr (v, d)) => TypedLiteral v d end)).
  by intros [].
Defined.

#[global] Instance RdfNamedOrBlankNode_countable : Countable RdfNamedOrBlankNode.
Proof.
  apply (inj_countable' (fun n => match n with NodeNamed n => inl n | NodeBlank n => inr n end)
    (fun x => match x with inl n => NodeNamed n | inr n => NodeBlank n end)).
  by intros [].
Defined.

(** A term is a list of subjects and predicates around a term that is not a triple. *)
Fixpoint flatten_term (t : RdfTerm)
  : list (RdfNamedOrBlankNode * RdfNamedNode) * (RdfNamedNode + RdfBlankNode + RdfLiteral) :=
  match t with
  | TermNamedNode n => ([], inl (inl n))
  | TermBlankNode n => ([], inl (inr n))
  | TermLiteral l => ([], inr l)
  | TermTriple s p o => let '(around, core) := flatten_term o in ((s, p) :: around, core)
  end.
Definition unflatten_term
  (x : list (RdfNamedOrBlankNode * RdfNamedNode) * (RdfNamedNode + RdfBlankNode + RdfLiteral)) : RdfTerm :=
  foldr (fun sp o => TermTriple sp.1 sp.2 o)
    match x.2 with
    | inl (inl n) => TermNamedNode n
    | inl (inr n) => TermBlankNode n
    | inr l => TermLiteral l
    end x.1.

Lemma unflatten_flatten (t : RdfTerm) : unflatten_term (flatten_term t) = t.
Proof.
  induction t as [| | |s p o IH]; simpl; try done.
  destruct (flatten_term o) as [around core] eqn:E. unfold unflatten_term in *. simpl in *. by rewrite IH.
Qed.

#[global] Instance RdfTerm_countable : Countable RdfTerm.
Proof. exact (inj_countable' flatten_term unflatten_term unflatten_flatten). Defined.

(** * Identifiers of blank nodes

    A blank node built from a text keeps the text, also when the text is the
    hexadecimal form of a number. *)

Lemma hex_digit_value (c : ascii) (d : Z) : hex_value c = Some d -> hex_digit d = c /\ 0 <= d < 16.
Proof.
  unfold hex_value, hex_digit, digit_char. pose proof (Z_of_byte_range c).
  destruct ((48 <=? Z_of_byte c) && (Z_of_byte c <=? 57)) eqn:E1; [|destruct ((97 <=? Z_of_byte c) && (Z_of_byte c <=? 102)) eqn:E2]; intros [=<-]; bool_to_prop.
  - rewrite (proj2 (Z.ltb_lt (Z_of_byte c - 48) 10)) by lia. replace (48 + (Z_of_byte c - 48)) with (Z_of_byte c) by lia.
    split; [apply byte_of_Z_of_byte|lia].
  - rewrite (proj2 (Z.ltb_ge (Z_of_byte c - 97 + 10) 10)) by lia. replace (87 + (Z_of_byte c - 97 + 10)) with (Z_of_byte c) by lia.
    split; [apply byte_of_Z_of_byte|lia].
Qed.

Lemma hex_digits_fuel (f : nat) (n : Z) : 0 <= n < 16 ^ Z.of_nat f -> hex_digits (S f) n = hex_digits f n.
Proof.
  revert n. induction f as [|f IH]; intros n Hn.
  - replace n with 0 by (simpl in Hn; lia). done.
  - rewrite Nat2Z.inj_succ, Z.pow_succ_r in Hn by lia. change (hex_digits (S (S f)) n) with
      (if n =? 0 then [] else hex_digits (S f) (n / 16) ++ [hex_digit (n mod 16)]).
    rewrite IH by (split; [apply Z.div_pos; lia|apply Z.div_lt_upper_bound; lia]). done.
Qed.

Lemma to_integer_id_loop_digits (digits : bytes) (f : nat) (v n : Z) :
  to_integer_id_loop v digits = Some n -> 0 < v -> n < 16 ^ Z.of_nat f -> v <= n /\ hex_digits f n = hex_digits f v ++ digits.
Proof.
  revert v. induction digits as [|c digits IH]; intros v Hl Hv Hn; simpl in Hl.
  - injection Hl as <-. by rewrite app_nil_r.
  - apply bind_Some in Hl as (d & Hd & Hl). apply bind_Some in Hl as (m & Hm & Hl). apply bind_Some in Hl as (w & Hw & Hl).
    apply checked_mul_Some in Hm as [-> _]. apply checked_add_Some in Hw as [-> _]. apply hex_digit_value in Hd as [Hc Hd].
    destruct (IH _ Hl) as [H1 H2]; [lia|done|]. split; [lia|]. rewrite H2.
    destruct f as [|f]; [simpl in Hn; lia|]. rewrite Nat2Z.inj_succ, Z.pow_succ_r in Hn by lia.
    cbn [hex_digits]. rewrite (proj2 (Z.eqb_neq (v * 16 + d) 0)) by lia.
    replace ((v * 16 + d) / 16) with v by (rewrite Z.div_add_l by lia; rewrite (Z.div_small d) by lia; lia).
    replace ((v * 16 + d) mod 16) with d by (rewrite Z.add_comm, Z_mod_plus_full; by rewrite Z.mod_small by lia).
    rewrite Hc, <- app_assoc. f_equal. change (hex_digits f v = hex_digits (S f) v). symmetry. apply hex_digits_fuel. lia.
Qed.

Lemma to_integer_id_range (digits : bytes) (v n : Z) :
  in_int U128 v -> to_integer_id_loop v digits = Some n -> in_int U128 n.
Proof.
  revert v. induction digits as [|c digits IH]; intros v Hv Hl; simpl in Hl; [by injection Hl as <-|].
  apply bind_Some in Hl as (d & Hd & Hl). apply bind_Some in Hl as (m & Hm & Hl). apply bind_Some in Hl as (w & Hw & Hl).
  apply (IH w); [|done]. by apply checked_add_Some in Hw as [-> Hw].
Qed.

Lemma IdStr_of_integer_id (s : bytes) (n : Z) : to_integer_id s = Some n -> IdStr_new n = s.
Proof.
  unfold to_integer_id. destruct s as [|c s]; [done|]. destruct (Ascii.eqb_spec c "0"%char) as [->|Hc]; [done|]. intros Hl.
  assert (in_int U128 n) as Hn by (apply (to_integer_id_range (c :: s) 0); done).
  cbn [to_integer_id_loop] in Hl. apply bind_Some in Hl as (d & Hd & Hl). apply bind_Some in Hl as (m & Hm & Hl).
  apply bind_Some in Hl as (w & Hw & Hl). apply checked_mul_Some in Hm as [-> _]. apply checked_add_Some in Hw as [-> _].
  apply hex_digit_value in Hd as [Hc' Hd]. assert (d <> 0) as Hd0 by (intros ->; apply Hc; by rewrite <- Hc').
  destruct (to_integer_id_loop_digits s 32 _ n Hl) as [H1 H2]; [lia|unfold in_int in Hn; simpl in *; lia|].
  unfold IdStr_new. rewrite (proj2 (Z.eqb_neq n 0)) by lia. rewrite H2. replace (0 * 16 + d) with d by lia.
  change (hex_digits 32 d) with (if d =? 0 then [] else hex_digits 31 (d / 16) ++ [hex_digit (d mod 16)]).
  rewrite (proj2 (Z.eqb_neq d 0)), (Z.div_small d 16), (Z.mod_small d 16), Hc' by lia. done.
Qed.

Lemma new_unchecked_as_str (s : bytes) : BlankNode_as_str (BlankNode_new_unchecked s) = s.
Proof. unfold BlankNode_new_unchecked. destruct (to_integer_id s) eqn:E; [|done]. by apply IdStr_of_integer_id. Qed.
#[global] Instance new_unchecked_inj : Inj (=) (=) BlankNode_new_unchecked.
Proof. intros a b E. by rewrite <- (new_unchecked_as_str a), E, new_unchecked_as_str. Qed.
