(* ===== verification/RustChars.v ===== *)
(** * Characters

    [char] and the iteration of a [str] by characters: a character is its Unicode
    scalar value, a [str] the characters its UTF-8 bytes encode.  Decoding and
    encoding are inverse on valid UTF-8. *)
From S2P Require Import Prelude MachineInt RustStr XsdDecimal XsdDuration XsdDateTime EncodedTerm.

(** A Unicode scalar value, as [char::from_u32] checks. *)
Definition is_scalar (c : Z) : bool := ((0 <=? c) && (c <=? 55295)) || ((57344 <=? c) && (c <=? 1114111)).

Definition scalars (l : list Z) : Prop := Forall (fun c => is_scalar c = true) l.

(** [char::encode_utf8] *)
Definition encode_char (c : Z) : bytes :=
  if c <=? 127 then [byte_of_Z c]
  else if c <=? 2047 then [byte_of_Z (192 + c / 64); byte_of_Z (128 + c mod 64)]
  else if c <=? 65535 then [byte_of_Z (224 + c / 4096); byte_of_Z (128 + c / 64 mod 64); byte_of_Z (128 + c mod 64)]
  else [byte_of_Z (240 + c / 262144); byte_of_Z (128 + c / 4096 mod 64); byte_of_Z (128 + c / 64 mod 64); byte_of_Z (128 + c mod 64)].
(** [String::from_iter] *)
Definition encode (cs : list Z) : bytes := cs ≫= encode_char.

(** [str::chars], by the first byte of each character; an incomplete character
    does not occur in a [str]. *)
Fixpoint chars (s : bytes) : list Z :=
  match s with
  | [] => []
  | b0 :: s =>
      if Z_of_byte b0 <=? 127 then Z_of_byte b0 :: chars s
      else match s with
      | [] => []
      | b1 :: s =>
          if Z_of_byte b0 <=? 223 then ((Z_of_byte b0 - 192) * 64 + (Z_of_byte b1 - 128)) :: chars s
          else match s with
          | [] => []
          | b2 :: s =>
              if Z_of_byte b0 <=? 239
              then ((Z_of_byte b0 - 224) * 4096 + (Z_of_byte b1 - 128) * 64 + (Z_of_byte b2 - 128)) :: chars s
              else match s with
              | [] => []
              | b3 :: s =>
                  ((Z_of_byte b0 - 240) * 262144 + (Z_of_byte b1 - 128) * 4096 + (Z_of_byte b2 - 128) * 64 + (Z_of_byte b3 - 128)) :: chars s
              end
          end
      end
  end.

(** Text made of ASCII characters, as characters. *)
Definition cs (s : string) : list Z := Z_of_byte <$> str s.
Arguments cs !s.
(** One of them. *)
Definition chr (s : string) : Z := Z_of_byte (ch s).
Arguments chr !s.

(** [char::is_whitespace]: the property White_Space. *)
Definition is_whitespace (c : Z) : bool :=
  ((9 <=? c) && (c <=? 13)) || (c =? 32) || (c =? 133) || (c =? 160) || (c =? 5760)
  || ((8192 <=? c) && (c <=? 8202)) || (c =? 8232) || (c =? 8233) || (c =? 8239) || (c =? 8287) || (c =? 12288).

(** [str::trim_start], [str::trim] *)
Fixpoint trim_start (s : list Z) : list Z :=
  match s with [] => [] | c :: s' => if is_whitespace c then trim_start s' else s end.
Definition trim_end (s : list Z) : list Z := rev (trim_start (rev s)).
Definition trim (s : list Z) : list Z := trim_end (trim_start s).

(** [str::strip_prefix] *)
Fixpoint strip_chars (prefix s : list Z) : option (list Z) :=
  match prefix, s with
  | [], _ => Some s
  | p :: prefix, c :: s => if p =? c then strip_chars prefix s else None
  | _ :: _, [] => None
  end.
Definition starts_with (prefix s : list Z) : bool := match strip_chars prefix s with Some _ => true | None => false end.
(** [str::find] of a character that satisfies [f], and the split there. *)
Fixpoint split_at_char (f : Z -> bool) (s : list Z) : list Z * list Z :=
  match s with
  | [] => ([], [])
  | c :: s' => if f c then ([], s) else let '(a, b) := split_at_char f s' in (c :: a, b)
  end.
(** [str::find] of a text: the index in characters. *)
Fixpoint find_chars (needle s : list Z) : option nat :=
  if starts_with needle s then Some 0%nat
  else match s with [] => None | _ :: s => S <$> find_chars needle s end.

(** ** UTF-8 *)

Lemma byte_value (n : Z) : 0 <= n < 256 -> Z_of_byte (byte_of_Z n) = n.
Proof. intros H. rewrite Z_of_byte_of_Z. apply Z.mod_small. lia. Qed.

(** The values of the bytes of a character, by its length. *)
Lemma encode_cases (c : Z) :
  is_scalar c = true ->
  (0 <= c <= 127 /\ encode_char c = [byte_of_Z c])
  \/ (exists a b, c = (a - 192) * 64 + (b - 128) /\ encode_char c = [byte_of_Z a; byte_of_Z b] /\ 194 <= a <= 223 /\ 128 <= b <= 191)
  \/ (exists a b d, c = (a - 224) * 4096 + (b - 128) * 64 + (d - 128) /\ encode_char c = [byte_of_Z a; byte_of_Z b; byte_of_Z d]
       /\ 224 <= a <= 239 /\ 128 <= b <= 191 /\ 128 <= d <= 191 /\ 2048 <= c)
  \/ (exists a b d e, c = (a - 240) * 262144 + (b - 128) * 4096 + (d - 128) * 64 + (e - 128)
       /\ encode_char c = [byte_of_Z a; byte_of_Z b; byte_of_Z d; byte_of_Z e]
       /\ 240 <= a <= 244 /\ 128 <= b <= 191 /\ 128 <= d <= 191 /\ 128 <= e <= 191 /\ 65536 <= c).
Proof.
  unfold is_scalar, encode_char. intros Hc. assert (0 <= c <= 1114111) as Hr by lia.
  destruct (Z.leb_spec c 127); [left; split; [lia|done]|right].
  destruct (Z.leb_spec c 2047); [left|right; destruct (Z.leb_spec c 65535); [left|right]].
  - exists (192 + c / 64), (128 + c mod 64). split; [|split; [done|]]; Z.div_mod_to_equations; lia.
  - exists (224 + c / 4096), (128 + c / 64 mod 64), (128 + c mod 64). split; [|split; [done|]]; Z.div_mod_to_equations; lia.
  - exists (240 + c / 262144), (128 + c / 4096 mod 64), (128 + c / 64 mod 64), (128 + c mod 64).
    split; [|split; [done|]]; Z.div_mod_to_equations; lia.
Qed.

Lemma chars_encode_char (c : Z) (s : bytes) : is_scalar c = true -> chars (encode_char c ++ s) = c :: chars s.
Proof.
  intros Hc. destruct (encode_cases c Hc) as [[H1 ->]|[(a & b & -> & -> & Ha & Hb)|[(a & b & d & -> & -> & Ha & Hb & Hd)|(a & b & d & e & -> & -> & Ha & Hb & Hd & He)]]];
    cbn [app chars]; rewrite !byte_value by lia.
  - by rewrite (proj2 (Z.leb_le c 127)) by lia.
  - by rewrite (proj2 (Z.leb_gt a 127)), (proj2 (Z.leb_le a 223)) by lia.
  - by rewrite (proj2 (Z.leb_gt a 127)), (proj2 (Z.leb_gt a 223)), (proj2 (Z.leb_le a 239)) by lia.
  - by rewrite (proj2 (Z.leb_gt a 127)), (proj2 (Z.leb_gt a 223)), (proj2 (Z.leb_gt a 239)) by lia.
Qed.

Lemma chars_encode_app (l : list Z) (s : bytes) : scalars l -> chars (encode l ++ s) = l ++ chars s.
Proof.
  induction 1 as [|c l Hc _ IH]; [done|]. unfold encode in *. cbn [mbind list_bind app]. rewrite <- app_assoc, chars_encode_char by done. by rewrite IH.
Qed.
Lemma chars_encode (l : list Z) : scalars l -> chars (encode l) = l.
Proof. intros H. rewrite <- (app_nil_r (encode l)), chars_encode_app by done. apply app_nil_r. Qed.

(** A character from the bytes that [utf8_valid] accepts. *)
Lemma byte_in_range (lo hi : Z) (b : ascii) : byte_in lo hi b = true -> lo <= Z_of_byte b <= hi.
Proof. unfold byte_in. lia. Qed.

Lemma utf8_step (b0 : ascii) (bs : bytes) :
  utf8_valid (b0 :: bs) = true -> exists c s, is_scalar c = true /\ b0 :: bs = encode_char c ++ s /\ utf8_valid s = true.
Proof.
  cbn [utf8_valid]. pose proof (byte_of_Z_of_byte b0) as E0.
  destruct (byte_in 0 127 b0) eqn:H0.
  { intros Hv. apply byte_in_range in H0. exists (Z_of_byte b0), bs. split; [unfold is_scalar; lia|]. split; [|done].
    unfold encode_char. rewrite (proj2 (Z.leb_le _ 127)) by lia. by rewrite E0. }
  destruct bs as [|b1 bs]; [done|]. pose proof (byte_of_Z_of_byte b1) as E1.
  destruct (byte_in 194 223 b0) eqn:H1.
  { intros [Hb1 Hv]%andb_prop. apply byte_in_range in H1, Hb1. set (a := Z_of_byte b0) in *. set (b := Z_of_byte b1) in *. clearbody a b.
    exists ((a - 192) * 64 + (b - 128)), bs. split; [unfold is_scalar; lia|]. split; [|done]. unfold encode_char.
    rewrite (proj2 (Z.leb_gt _ 127)), (proj2 (Z.leb_le _ 2047)) by lia. cbn [app]. rewrite <- E0, <- E1. f_equal; [f_equal; Z.div_mod_to_equations; lia|].
    do 2 f_equal. Z.div_mod_to_equations; lia. }
  destruct bs as [|b2 bs]; [done|]. pose proof (byte_of_Z_of_byte b2) as E2.
  destruct (byte_in 224 239 b0) eqn:H2.
  { intros [[Hb1 Hb2]%andb_prop Hv]%andb_prop.
    assert (byte_in 224 224 b0 = (Z_of_byte b0 =? 224)) as F1 by (unfold byte_in; lia).
    assert (byte_in 237 237 b0 = (Z_of_byte b0 =? 237)) as F2 by (unfold byte_in; lia). rewrite F1, F2 in Hb1.
    apply byte_in_range in H2, Hb1, Hb2. set (a := Z_of_byte b0) in *. set (b := Z_of_byte b1) in *. set (d := Z_of_byte b2) in *. clearbody a b d.
    assert (128 <= b <= 191 /\ (a = 224 -> 160 <= b) /\ (a = 237 -> b <= 159)) as (G1 & G2 & G3).
    { destruct (Z.eqb_spec a 224), (Z.eqb_spec a 237); lia. }
    exists ((a - 224) * 4096 + (b - 128) * 64 + (d - 128)), bs. split; [|split; [|done]].
    - unfold is_scalar. destruct (Z.lt_trichotomy a 237) as [L|[->|L]]; lia.
    - unfold encode_char. rewrite (proj2 (Z.leb_gt _ 127)), (proj2 (Z.leb_gt _ 2047)), (proj2 (Z.leb_le _ 65535)) by lia. cbn [app].
      rewrite <- E0, <- E1, <- E2. f_equal; [f_equal; Z.div_mod_to_equations; lia|]. f_equal; [f_equal; Z.div_mod_to_equations; lia|].
      do 2 f_equal. Z.div_mod_to_equations; lia. }
  destruct bs as [|b3 bs]; [done|]. pose proof (byte_of_Z_of_byte b3) as E3.
  intros [[[[H3 Hb1]%andb_prop Hb2]%andb_prop Hb3]%andb_prop Hv]%andb_prop.
  assert (byte_in 240 240 b0 = (Z_of_byte b0 =? 240)) as F1 by (unfold byte_in; lia).
  assert (byte_in 244 244 b0 = (Z_of_byte b0 =? 244)) as F2 by (unfold byte_in; lia). rewrite F1, F2 in Hb1.
  apply byte_in_range in H3, Hb1, Hb2, Hb3. set (a := Z_of_byte b0) in *. set (b := Z_of_byte b1) in *. set (d := Z_of_byte b2) in *. set (e := Z_of_byte b3) in *. clearbody a b d e.
  assert (128 <= b <= 191 /\ (a = 240 -> 144 <= b) /\ (a = 244 -> b <= 143)) as (G1 & G2 & G3).
  { destruct (Z.eqb_spec a 240), (Z.eqb_spec a 244); lia. }
  exists ((a - 240) * 262144 + (b - 128) * 4096 + (d - 128) * 64 + (e - 128)), bs. split; [|split; [|done]].
  - unfold is_scalar. lia.
  - unfold encode_char. rewrite (proj2 (Z.leb_gt _ 127)), (proj2 (Z.leb_gt _ 2047)), (proj2 (Z.leb_gt _ 65535)) by lia. cbn [app].
    rewrite <- E0, <- E1, <- E2, <- E3. f_equal; [f_equal; Z.div_mod_to_equations; lia|]. f_equal; [f_equal; Z.div_mod_to_equations; lia|].
    f_equal; [f_equal; Z.div_mod_to_equations; lia|]. do 2 f_equal. Z.div_mod_to_equations; lia.
Qed.

(** Valid UTF-8 is the encoding of characters. *)
Lemma utf8_encode (s : bytes) : utf8_valid s = true -> exists l, scalars l /\ s = encode l.
Proof.
  induction s as [s IH] using (induction_ltof1 _ length). unfold ltof in IH. destruct s as [|b0 bs]; [exists []; split; [constructor|done]|].
  intros (c & s & Hc & E & Hv)%utf8_step. destruct (IH s) as (l & Hl & ->); [|done|].
  - rewrite E, length_app. assert (0 < length (encode_char c))%nat; [|lia]. unfold encode_char. repeat destruct (_ <=? _); simpl; lia.
  - exists (c :: l). split; [by constructor|done].
Qed.
Lemma encode_chars (s : bytes) : utf8_valid s = true -> encode (chars s) = s /\ scalars (chars s).
Proof. intros (l & Hl & ->)%utf8_encode. by rewrite chars_encode. Qed.

(** ** Text: bytes that encode characters *)

Definition is_text (s : bytes) : Prop := exists l, scalars l /\ s = encode l.

Lemma encode_app (l k : list Z) : encode (l ++ k) = encode l ++ encode k.
Proof. apply bind_app. Qed.
Lemma utf8_is_text (s : bytes) : utf8_valid s = true -> is_text s.
Proof. apply utf8_encode. Qed.
Lemma is_text_app (s t : bytes) : is_text s -> is_text t -> is_text (s ++ t).
Proof. intros (l & Hl & ->) (k & Hk & ->). exists (l ++ k). split; [by apply Forall_app|by rewrite encode_app]. Qed.
Lemma chars_app (s t : bytes) : is_text s -> chars (s ++ t) = chars s ++ chars t.
Proof. intros (l & Hl & ->). by rewrite chars_encode_app, chars_encode. Qed.
Lemma is_text_encode (s : bytes) : is_text s -> encode (chars s) = s /\ scalars (chars s).
Proof. intros (l & Hl & ->). by rewrite chars_encode. Qed.
Lemma encode_is_text (l : list Z) : scalars l -> is_text (encode l).
Proof. by exists l. Qed.

(** Some character encodings concatenated are valid UTF-8. *)
Lemma byte_in_eq (lo hi n : Z) : 0 <= n < 256 -> byte_in lo hi (byte_of_Z n) = (lo <=? n) && (n <=? hi).
Proof. intros H. unfold byte_in. by rewrite byte_value. Qed.
Lemma utf8_encode_char (c : Z) (s : bytes) : is_scalar c = true -> utf8_valid (encode_char c ++ s) = utf8_valid s.
Proof.
  intros Hc. pose proof Hc as Hs. unfold is_scalar in Hs.
  destruct (encode_cases c Hc) as [[H1 ->]|[(a & b & E & -> & Ha & Hb)|[(a & b & d & E & -> & Ha & Hb & Hd)|(a & b & d & e & E & -> & Ha & Hb & Hd & He)]]];
    cbn [app utf8_valid]; rewrite !byte_in_eq by lia.
  - by replace ((0 <=? c) && (c <=? 127)) with true by lia.
  - replace ((0 <=? a) && (a <=? 127)) with false by lia. replace ((194 <=? a) && (a <=? 223)) with true by lia.
    by replace ((128 <=? b) && (b <=? 191)) with true by lia.
  - replace ((0 <=? a) && (a <=? 127)) with false by lia. replace ((194 <=? a) && (a <=? 223)) with false by lia.
    replace ((224 <=? a) && (a <=? 239)) with true by lia. replace ((128 <=? d) && (d <=? 191)) with true by lia.
    replace ((224 <=? a) && (a <=? 224)) with (a =? 224) by lia. replace ((237 <=? a) && (a <=? 237)) with (a =? 237) by lia.
    assert (((if a =? 224 then 160 else 128) <=? b) && (b <=? if a =? 237 then 159 else 191) = true) as ->; [|done].
    destruct (Z.eqb_spec a 224), (Z.eqb_spec a 237); lia.
  - replace ((0 <=? a) && (a <=? 127)) with false by lia. replace ((194 <=? a) && (a <=? 223)) with false by lia.
    replace ((224 <=? a) && (a <=? 239)) with false by lia. replace ((128 <=? d) && (d <=? 191)) with true by lia.
    replace ((240 <=? a) && (a <=? 244)) with true by lia. replace ((128 <=? e) && (e <=? 191)) with true by lia.
    replace ((240 <=? a) && (a <=? 240)) with (a =? 240) by lia. replace ((244 <=? a) && (a <=? 244)) with (a =? 244) by lia.
    assert (((if a =? 240 then 144 else 128) <=? b) && (b <=? if a =? 244 then 143 else 191) = true) as ->; [|done].
    destruct (Z.eqb_spec a 240), (Z.eqb_spec a 244); lia.
Qed.
Lemma utf8_encode_scalars (l : list Z) : scalars l -> utf8_valid (encode l) = true.
Proof. induction 1 as [|c l Hc _ IH]; [done|]. unfold encode in *. cbn [mbind list_bind]. by rewrite utf8_encode_char. Qed.
Lemma is_text_utf8 (s : bytes) : is_text s -> utf8_valid s = true.
Proof. intros (l & Hl & ->). by apply utf8_encode_scalars. Qed.

(** ** Trimming *)

(** Text without space at its end. *)
Definition solid_end (s : list Z) : Prop := from_option (fun c => is_whitespace c = false) True (list.last s).

Lemma trim_start_solid (c : Z) (s : list Z) : is_whitespace c = false -> trim_start (c :: s) = c :: s.
Proof. intros H. simpl. by rewrite H. Qed.
Lemma trim_start_idem (s : list Z) : trim_start (trim_start s) = trim_start s.
Proof. induction s as [|c s IH]; [done|]. simpl. destruct (is_whitespace c) eqn:E; [done|]. simpl. by rewrite E. Qed.
Lemma last_rev (s : list Z) : list.last s = head (rev s).
Proof. rewrite <- (rev_involutive s) at 1. destruct (rev s) as [|c r]; [done|]. simpl. by rewrite last_snoc. Qed.
Lemma trim_end_solid (s : list Z) : solid_end s -> trim_end s = s.
Proof.
  unfold solid_end, trim_end. rewrite last_rev. destruct (rev s) as [|c r] eqn:E; intros H.
  - by rewrite <- (rev_involutive s), E.
  - simpl in H. rewrite trim_start_solid, <- E by done. apply rev_involutive.
Qed.
Lemma solid_trim_end (s : list Z) : solid_end (trim_end s).
Proof.
  unfold solid_end, trim_end. rewrite last_rev, rev_involutive.
  destruct (trim_start (rev s)) as [|c r] eqn:E; [done|]. simpl.
  pose proof (trim_start_idem (rev s)) as H. rewrite E in H. simpl in H. destruct (is_whitespace c) eqn:W; [|done].
  assert (forall k, (length (trim_start k) <= length k)%nat) as L; [|pose proof (L r) as Hl; rewrite H in Hl; simpl in Hl; lia].
  induction k as [|d k IH]; [done|]. simpl. destruct (is_whitespace d); simpl; lia.
Qed.
Lemma solid_end_app (s t : list Z) : solid_end t -> (t = [] -> solid_end s) -> solid_end (s ++ t).
Proof.
  intros H H0. destruct t as [|c t] using rev_ind; [rewrite app_nil_r; by apply H0|]. clear IHt.
  unfold solid_end in *. rewrite app_assoc. by rewrite last_snoc in *.
Qed.
Lemma solid_end_suffix (s t : list Z) : solid_end (s ++ t) -> solid_end t.
Proof.
  destruct t as [|c t] using rev_ind; [done|]. clear IHt. unfold solid_end. by rewrite app_assoc, !last_snoc.
Qed.
Lemma solid_end_cons (c : Z) (s : list Z) : solid_end (c :: s) -> solid_end s.
Proof. apply (solid_end_suffix [c]). Qed.
Lemma trim_solid (s : list Z) : solid_end s -> trim s = trim_start s.
Proof.
  intros H. apply trim_end_solid. induction s as [|c s IH]; [done|]. simpl.
  destruct (is_whitespace c); [|done]. apply IH. by eapply solid_end_cons.
Qed.
Lemma trim_spaces (s : list Z) : solid_end s -> trim (32 :: s) = trim s.
Proof. intros H. unfold trim. done. Qed.
Lemma solid_trim_start (s : list Z) : solid_end s -> solid_end (trim_start s).
Proof. intros H. rewrite <- trim_solid by done. apply solid_trim_end. Qed.
Lemma trim_start_snoc (c : Z) (l : list Z) :
  is_whitespace c = false -> exists l', trim_start (l ++ [c]) = l' ++ [c].
Proof.
  intros Hc. induction l as [|d l [l' IH]]; simpl; [rewrite Hc; by exists []|].
  destruct (is_whitespace d); [by exists l'|by exists (d :: l)].
Qed.
Lemma trim_idem (s : list Z) : trim (trim s) = trim s.
Proof.
  rewrite trim_solid by apply solid_trim_end. unfold trim. pose proof (trim_start_idem s) as E.
  destruct (trim_start s) as [|c r]; [done|]. cbn [trim_start] in E. unfold trim_end. cbn [rev].
  destruct (is_whitespace c) eqn:Hc.
  - apply (f_equal length) in E. assert (forall k, (length (trim_start k) <= length k)%nat) as L; [|specialize (L r); simpl in E; lia].
    clear. induction k as [|d k IH]; [done|]. simpl. destruct (is_whitespace d); simpl; lia.
  - destruct (trim_start_snoc c (rev r) Hc) as [l' ->]. rewrite rev_app_distr. cbn [rev app]. by apply trim_start_solid.
Qed.
(** What remains after a reader that may have trimmed it. *)
Lemma trim_maybe (r s : list Z) : r = s \/ r = trim s -> trim r = trim s.
Proof. intros [-> | ->]; [done|apply trim_idem]. Qed.
Lemma trim_space_head (c : Z) (s : list Z) : is_whitespace c = false -> solid_end (c :: s) -> trim (32 :: c :: s) = c :: s.
Proof. intros Hc Hs. change (trim (32 :: c :: s)) with (trim (c :: s)). rewrite trim_solid by done. by apply trim_start_solid. Qed.
