(* ===== verification/OxParser.v ===== *)
(** * The parser of RDF terms

    The [FromStr] implementations of lib/oxrdf/src/parser.rs, with the
    validations of blank_node.rs, variable.rs, literal.rs and named_node.rs they
    call.  The parser walks the characters of its [str]; a term holds bytes.

    The validation of an IRI and of a language tag is the one of the crates
    oxiri and oxilangtag: a parameter.  The loops that read an escape take a
    bound on their rounds, and so does the recursion through nested triple
    terms: [OutOfFuel] is the bound being reached, which no entry point returns
    (OxParserFacts). *)
From stdpp Require Import gmap.
From S2P Require Import Prelude MachineInt RustStr BTree RdfModel RdfDisplay RustChars.

(** What the parser calls in other crates: [None] is a valid text. *)
Class TermSyntax : Type := {
  IriParseError : Type;
  LanguageTagParseError : Type;
  Iri_parse : bytes -> option IriParseError;
  LanguageTag_parse : bytes -> option LanguageTagParseError
}.

(** [TermParseErrorKind] *)
Inductive TermParseError `{TermSyntax} : Type :=
| ErrorIri (error : IriParseError) (value : bytes)
| ErrorBlankNode (value : bytes)
| ErrorLanguageTag (error : LanguageTagParseError) (value : bytes)
| ErrorVariable (value : bytes)
| ErrorMsg (msg : bytes)
| OutOfFuel.

Definition MAX_NUMBER_OF_NESTED_TRIPLES : Z := 128.

(** ** Identifiers *)

Definition in_range (lo hi c : Z) : bool := (lo <=? c) && (c <=? hi).
(** [char::is_ascii_alphanumeric] *)
Definition is_ascii_alphanumeric (c : Z) : bool := in_range 48 57 c || in_range 65 90 c || in_range 97 122 c.
(** The ranges that the identifiers of blank nodes and variables have in common. *)
Definition is_name_char (c : Z) : bool :=
  in_range 65 90 c || in_range 97 122 c || in_range 192 214 c || in_range 216 246 c || in_range 248 767 c
  || in_range 880 893 c || in_range 895 8191 c || in_range 8204 8205 c || in_range 8304 8591 c
  || in_range 11264 12271 c || in_range 12289 55295 c || in_range 63744 64975 c || in_range 65008 65533 c
  || in_range 65536 983039 c.
Definition is_id_front (c : Z) : bool := in_range 48 57 c || (c =? 95) || (c =? 58) || is_name_char c.
Definition is_variable_char (c : Z) : bool :=
  in_range 48 57 c || (c =? 183) || in_range 768 879 c || in_range 8255 8256 c || (c =? 95) || is_name_char c.
Definition is_blank_node_char (c : Z) : bool :=
  (c =? 46) || (c =? 45) || in_range 48 57 c || (c =? 183) || in_range 768 879 c || in_range 8255 8256 c
  || (c =? 95) || (c =? 58) || is_name_char c.

(** Whether a text ends with the character [c]. *)
Definition ends_with_char (c : Z) (s : list Z) : bool :=
  match rev s with d :: _ => d =? c | [] => false end.

Definition validate_blank_node_identifier (id : list Z) : bool :=
  match id with
  | [] => false
  | front :: chars => is_id_front front && forallb is_blank_node_char chars && negb (ends_with_char 46 id)
  end.
Definition validate_variable_identifier (id : list Z) : bool :=
  match id with
  | [] => false
  | front :: chars => is_id_front front && forallb is_variable_char chars
  end.

(** ** The reader *)

Section Parser.
Context `{TermSyntax}.

Definition msg (m : string) : TermParseError := ErrorMsg (str m).

(** [NamedNode::new], [BlankNode::new] *)
Definition NamedNode_new (iri : bytes) : result IriParseError RdfNamedNode :=
  match Iri_parse iri with Some error => Err error | None => Ok (NamedNode_new_unchecked iri) end.
Definition BlankNode_new (id : bytes) : option RdfBlankNode :=
  if validate_blank_node_identifier (chars id) then Some (BlankNode_new_unchecked id) else None.

(** [make_ascii_lowercase] *)
Definition ascii_lowercase (s : bytes) : bytes :=
  (fun b => if in_range 65 90 (Z_of_byte b) then byte_of_Z (Z_of_byte b + 32) else b) <$> s.
Definition Literal_new_language_tagged_literal (value language : bytes) : result LanguageTagParseError RdfLiteral :=
  let language := ascii_lowercase language in
  match LanguageTag_parse language with
  | Some error => Err error
  | None => Ok (LanguageTaggedString value language)
  end.
Definition Literal_new_directional_language_tagged_literal (value language : bytes) (direction : BaseDirection)
  : result LanguageTagParseError RdfLiteral :=
  let language := ascii_lowercase language in
  match LanguageTag_parse language with
  | Some error => Err error
  | None => Ok (DirectionalLanguageTaggedString value language direction)
  end.

Definition InvalidLiteralDatatypeError_to_string (e : InvalidLiteralDatatypeError) : bytes :=
  match e with
  | InvalidLangString => str "rdf:langString requires a non-empty language tag"
  | InvalidDirLangString => str "rdf:dirLangString requires a non-empty language tag and a base direction"
  end.

(** The value of a hexadecimal digit of either case. *)
Definition hexa_value (c : Z) : option Z :=
  if in_range 48 57 c then Some (c - 48)
  else if in_range 97 102 c then Some (c - 97 + 10)
  else if in_range 65 70 c then Some (c - 65 + 10)
  else None.
(** Eight digits are at most [u32::MAX]: the arithmetic does not overflow. *)
Fixpoint read_hexa_digits (len : nat) (value : Z) (input : list Z) : result TermParseError (Z * list Z) :=
  match len with
  | O => Ok (value, input)
  | S len =>
      match input with
      | c :: input =>
          match hexa_value c with
          | Some d => read_hexa_digits len (value * 16 + d) input
          | None => Err (ErrorMsg (str "Unexpected character in a unicode escape: " ++ encode_char c))
          end
      | [] => Err (msg "Unexpected literal string end")
      end
  end.
Definition read_hexa_char (len : nat) (input : list Z) : result TermParseError (Z * list Z) :=
  '(value, input) ← read_hexa_digits len 0 input;
  if is_scalar value then Ok (value, input) else Err (msg "Invalid encoded unicode code point").

(** The loop of [read_named_node] over the characters of an IRI with escapes. *)
Fixpoint unescape_iri (fuel : nat) (escaped chars : list Z) : result TermParseError (list Z) :=
  match fuel with
  | O => Err OutOfFuel
  | S fuel =>
      match chars with
      | [] => Ok escaped
      | c :: chars =>
          if c =? chr "\" then
            match chars with
            | [] => Ok (escaped ++ [chr "\"])
            | c :: chars =>
                if c =? chr "u" then
                  '(c, chars) ← read_hexa_char 4 chars; unescape_iri fuel (escaped ++ [c]) chars
                else if c =? chr "U" then
                  '(c, chars) ← read_hexa_char 8 chars; unescape_iri fuel (escaped ++ [c]) chars
                else unescape_iri fuel (escaped ++ [chr "\"; c]) chars
            end
          else unescape_iri fuel (escaped ++ [c]) chars
      end
  end.

Definition read_named_node (s : list Z) : result TermParseError (RdfNamedNode * list Z) :=
  let s := trim s in
  match strip_chars (cs "<") s with
  | Some remain =>
      match split_at_char (fun c => c =? chr ">") remain with
      | (value, _ :: remain) =>
          value ← (if existsb (fun c => c =? chr "\") value
                   then unescape_iri (S (length value)) [] value
                   else Ok value);
          term ← map_err (fun error => ErrorIri error (encode value)) (NamedNode_new (encode value));
          Ok (term, remain)
      | (_, []) => Err (msg "Named node serialization should end with a >")
      end
  | None => Err (msg "Named node serialization should start with a <")
  end.

Definition is_blank_node_end (v : Z) : bool :=
  is_whitespace v || existsb (fun c => v =? c)
    (cs "<?$" ++ [34; 39] ++ cs ">@^:(){}[]").
(** The length of the identifier at the start of [remain]. *)
Definition blank_node_end (remain : list Z) : nat :=
  let e := length (split_at_char is_blank_node_end remain).1 in
  let e := match find_chars (cs "..") (take e remain) with Some pos => pos | None => e end in
  if ends_with_char 46 (take e remain) then (e - 1)%nat else e.
Definition read_blank_node (s : list Z) : result TermParseError (RdfBlankNode * list Z) :=
  let s := trim s in
  match strip_chars (cs "_:") s with
  | Some remain =>
      let e := blank_node_end remain in
      let value := encode (take e remain) in
      term ← ok_or (ErrorBlankNode value) (BlankNode_new value);
      Ok (term, drop e remain)
  | None => Err (msg "Blank node serialization should start with '_:'")
  end.

(** ** Literals *)

(** What follows the closing quote of the text [value]. *)
Definition read_literal_suffix (value : bytes) (chars : list Z) : result TermParseError (RdfLiteral * list Z) :=
  let remain := trim chars in
  match strip_chars (cs "@") remain with
  | Some remain =>
      let '(language, remain) := split_at_char (fun v => negb (is_ascii_alphanumeric v) && negb (v =? chr "-")) remain in
      match find_chars (cs "--") language with
      | Some pos =>
          let direction := drop (pos + 2) language in
          let language := encode (take pos language) in
          direction ← (if bool_decide (direction = cs "ltr") then Ok Ltr
                       else if bool_decide (direction = cs "rtl") then Ok Rtl
                       else Err (ErrorMsg (str "The only two possible base directions are 'rtl' and 'ltr', found '"
                                           ++ encode direction ++ str "'")));
          literal ← map_err (fun error => ErrorLanguageTag error language)
                      (Literal_new_directional_language_tagged_literal value language direction);
          Ok (literal, remain)
      | None =>
          let language := encode language in
          literal ← map_err (fun error => ErrorLanguageTag error language)
                      (Literal_new_language_tagged_literal value language);
          Ok (literal, remain)
      end
  | None =>
      match strip_chars (cs "^^") remain with
      | Some remain =>
          '(datatype, remain) ← read_named_node remain;
          literal ← map_err (fun error => ErrorMsg (InvalidLiteralDatatypeError_to_string error))
                      (Literal_try_new_typed_literal value datatype);
          Ok (literal, remain)
      | None => Ok (LiteralString value, remain)
      end
  end.

(** The character an escape of one letter stands for. *)
Definition unescape_char (c : Z) : option Z :=
  if c =? chr "t" then Some 9
  else if c =? chr "b" then Some 8
  else if c =? chr "n" then Some 10
  else if c =? chr "r" then Some 13
  else if c =? chr "f" then Some 12
  else if (c =? 34) || (c =? 39) || (c =? 92) then Some c
  else None.

(** The loop of [read_literal] after the opening quote: the text and what
    follows the closing quote. *)
Fixpoint read_quoted (fuel : nat) (value chars : list Z) : result TermParseError (list Z * list Z) :=
  match fuel with
  | O => Err OutOfFuel
  | S fuel =>
      match chars with
      | [] => Err (msg "Unexpected literal end")
      | c :: chars =>
          if c =? 34 then Ok (value, chars)
          else if c =? 92 then
            match chars with
            | [] => Err (msg "Unexpected literal end")
            | c :: chars =>
                match unescape_char c with
                | Some c => read_quoted fuel (value ++ [c]) chars
                | None =>
                    if c =? chr "u" then
                      '(c, chars) ← read_hexa_char 4 chars; read_quoted fuel (value ++ [c]) chars
                    else if c =? chr "U" then
                      '(c, chars) ← read_hexa_char 8 chars; read_quoted fuel (value ++ [c]) chars
                    else Err (msg "Unexpected escaped char")
                end
            end
          else read_quoted fuel (value ++ [c]) chars
      end
  end.

Definition is_digit (c : Z) : bool := in_range 48 57 c.
(** An optional sign and what follows it. *)
Definition take_sign (s : list Z) : list Z * list Z :=
  match s with
  | c :: s' => if (c =? 43) || (c =? 45) then ([c], s') else ([], s)
  | [] => ([], [])
  end.
Definition take_digits : list Z -> list Z * list Z := split_at_char (fun c => negb (is_digit c)).

(** The number at the start of [s]; the bytes before the cursor are the parts
    read so far.  The assertion of [new_typed_literal] holds of the three
    datatypes. *)
Definition read_number (s : list Z) : result TermParseError (RdfLiteral * list Z) :=
  match s with
  | [] => Err (msg "Empty term serialization")
  | _ =>
      let typed text datatype := Literal_new_typed_literal_validated (encode text) (XSD datatype) in
      let '(sign, s) := take_sign s in
      let '(before, s) := take_digits s in
      let '(with_dot, after, s) :=
        match s with
        | c :: s' => if c =? 46 then let '(after, s) := take_digits s' in (true, after, s) else (false, [], s)
        | [] => (false, [], [])
        end in
      let text := sign ++ before ++ (if with_dot then [46] else []) ++ after in
      let plain :=
        if with_dot then
          if (0 <? length after)%nat then Ok (typed text "decimal", s)
          else Err (msg "Decimal serialization without floating part")
        else if (0 <? length before)%nat then Ok (typed text "integer", s)
        else Err (msg "Empty integer serialization") in
      match s with
      | e :: s' =>
          if (e =? 101) || (e =? 69) then
            let '(exponent_sign, s) := take_sign s' in
            let '(exponent, s) := take_digits s in
            if (0 <? length exponent)%nat
            then Ok (typed (text ++ [e] ++ exponent_sign ++ exponent) "double", s)
            else Err (msg "Double serialization with an invalid exponent")
          else plain
      | [] => plain
      end
  end.

Definition read_literal (s : list Z) : result TermParseError (RdfLiteral * list Z) :=
  let s := trim s in
  match strip_chars [34] s with
  | Some s => '(value, chars) ← read_quoted (S (length s)) [] s; read_literal_suffix (encode value) chars
  | None =>
      match strip_chars (cs "true") s with
      | Some remain => Ok (Literal_new_typed_literal_validated (str "true") (XSD "boolean"), remain)
      | None =>
          match strip_chars (cs "false") s with
          | Some remain => Ok (Literal_new_typed_literal_validated (str "false") (XSD "boolean"), remain)
          | None => read_number s
          end
      end
  end.

(** ** Terms, triples and quads *)

(** [read_triple], given the reader of a term. *)
Definition read_triple_with (read_term : list Z -> Z -> result TermParseError (RdfTerm * list Z))
  (s : list Z) (number_of_recursive_calls : Z) : result TermParseError (RdfTriple * list Z) :=
  let s := trim s in
  '(subject, remain) ← read_term s (number_of_recursive_calls + 1);
  '(predicate, remain) ← read_named_node remain;
  '(object, remain) ← read_term remain (number_of_recursive_calls + 1);
  subject ← match subject with
            | TermNamedNode s => Ok (NodeNamed s)
            | TermBlankNode s => Ok (NodeBlank s)
            | TermLiteral _ => Err (msg "Literals are not allowed in subject position")
            | TermTriple _ _ _ => Err (msg "Triple terms are not allowed in subject position")
            end;
  Ok (mkTriple subject predicate object, remain).

Fixpoint read_term (fuel : nat) (s : list Z) (number_of_recursive_calls : Z)
  : result TermParseError (RdfTerm * list Z) :=
  match fuel with
  | O => Err OutOfFuel
  | S fuel =>
      if number_of_recursive_calls =? MAX_NUMBER_OF_NESTED_TRIPLES
      then Err (msg "Too many nested triples. The parser fails here to avoid a stack overflow.")
      else
        let s := trim s in
        match strip_chars (cs "<<(") s with
        | Some remain =>
            '(triple, remain) ← read_triple_with (read_term fuel) remain (number_of_recursive_calls + 1);
            match strip_chars (cs ")>>") (trim_start remain) with
            | Some remain =>
                Ok (TermTriple (t_subject triple) (t_predicate triple) (t_object triple), remain)
            | None => Err (msg "Triple term serialization must be enclosed between <<( and )>>")
            end
        | None =>
            if starts_with (cs "<") s then '(term, remain) ← read_named_node s; Ok (TermNamedNode term, remain)
            else if starts_with (cs "_") s then '(term, remain) ← read_blank_node s; Ok (TermBlankNode term, remain)
            else '(term, remain) ← read_literal s; Ok (TermLiteral term, remain)
        end
  end.
(** The bound of the entry points on the nested calls. *)
Definition read_whole_term (s : list Z) : Z -> result TermParseError (RdfTerm * list Z) := read_term (S (length s)) s.
Definition read_triple (s : list Z) : Z -> result TermParseError (RdfTriple * list Z) :=
  read_triple_with (read_term (S (length s))) s.

(** ** [FromStr] *)

Definition NamedNode_from_str (s : bytes) : result TermParseError RdfNamedNode :=
  '(term, remain) ← read_named_node (chars s);
  if negb (length remain =? 0)%nat then Err (msg "Named node serialization should end with a >") else Ok term.
Definition BlankNode_from_str (s : bytes) : result TermParseError RdfBlankNode :=
  '(term, remain) ← read_blank_node (chars s);
  if negb (length remain =? 0)%nat then Err (msg "Blank node serialization should not contain whitespaces") else Ok term.
Definition Literal_from_str (s : bytes) : result TermParseError RdfLiteral :=
  '(term, remain) ← read_literal (chars s);
  if negb (length remain =? 0)%nat then Err (msg "Invalid literal serialization") else Ok term.
Definition Term_from_str (s : bytes) : result TermParseError RdfTerm :=
  '(term, remain) ← read_whole_term (chars s) 0;
  if negb (length remain =? 0)%nat then Err (msg "Invalid term serialization") else Ok term.

(** Nothing, or the final dot, in spaces. *)
Definition is_statement_end (remain : list Z) : bool :=
  let remain := trim remain in bool_decide (remain = []) || bool_decide (remain = cs ".").
Definition Triple_from_str (s : bytes) : result TermParseError RdfTriple :=
  '(triple, remain) ← read_triple (chars s) 0;
  if negb (is_statement_end remain) then Err (msg "Invalid triple serialization") else Ok triple.
Definition in_graph (t : RdfTriple) (g : RdfGraphName) : RdfQuad :=
  mkQuad (t_subject t) (t_predicate t) (t_object t) g.
Definition Quad_from_str (s : bytes) : result TermParseError RdfQuad :=
  '(triple, remain) ← read_triple (chars s) 0;
  if is_statement_end remain then Ok (in_graph triple GraphDefault)
  else
    '(graph_name, remain) ← read_whole_term remain 0;
    if negb (is_statement_end remain) then Err (msg "Invalid triple serialization")
    else
      graph_name ← match graph_name with
                   | TermNamedNode g => Ok (GraphNamedNode g)
                   | TermBlankNode g => Ok (GraphBlankNode g)
                   | TermLiteral _ => Err (msg "Literals are not allowed in graph name position")
                   | TermTriple _ _ _ => Err (msg "Triple terms are not allowed in graph name position")
                   end;
      Ok (in_graph triple graph_name).

(** [Variable::new] and its parser: a variable is its name. *)
Definition Variable_new (name : bytes) : option bytes :=
  if validate_variable_identifier (chars name) then Some name else None.
Definition Variable_to_string (name : bytes) : bytes := str "?" ++ name.
Definition Variable_from_str (s : bytes) : result TermParseError bytes :=
  match chars s with
  | c :: cs' =>
      if (c =? 63) || (c =? 36) then ok_or (ErrorVariable s) (Variable_new (encode cs'))
      else Err (msg "Variable serialization should start with ? or $")
  | [] => Err (msg "Variable serialization should start with ? or $")
  end.
End Parser.
