(* ===== verification/OxParserFacts.v ===== *)
(** * Correctness of the parser of RDF terms

    What [Display] writes, the parser reads back: for the pieces of a term here,
    for terms, triples and quads in OxParserRoundTrip. *)
From stdpp Require Import gmap.
From S2P Require Import Prelude MachineInt RustStr BTree EncodedTerm RdfModel RdfDisplay.
From S2P Require Import RustChars OxParser.

(** The grammars of the two external validations: an IRI of RFC 3987 has
    neither angle brackets nor the backslash, and a language tag of RFC 5646 is made of non-empty subtags of
    letters and digits joined by hyphens. *)
Class TermSyntaxLaws `{TermSyntax} : Prop := {
  Iri_parse_chars : forall iri c, Iri_parse iri = None -> In c (chars iri) -> c <> chr ">" /\ c <> chr "\" /\ c <> chr "<";
  LanguageTag_parse_chars : forall language c,
    LanguageTag_parse language = None -> In c (chars language) -> is_ascii_alphanumeric c || (c =? chr "-") = true;
  LanguageTag_parse_subtags : forall language,
    LanguageTag_parse language = None ->
    find_chars (cs "--") (chars language) = None /\ ends_with_char (chr "-") (chars language) = false
}.

(** The terms that the constructors with validation build and whose blank nodes
    have an identifier of the grammar of the parser. *)
Section printable.
Context `{TermSyntax}.

Definition printable_named_node (n : RdfNamedNode) : Prop :=
  Iri_parse (nn_iri n) = None /\ utf8_valid (nn_iri n) = true.
Definition printable_id (id : list Z) : bool :=
  validate_blank_node_identifier id && negb (existsb is_blank_node_end id)
  && bool_decide (find_chars (cs "..") id = None).
Definition printable_blank_node (n : RdfBlankNode) : Prop :=
  n = BlankNode_new_unchecked (BlankNode_as_str n) /\ utf8_valid (BlankNode_as_str n) = true
  /\ printable_id (chars (BlankNode_as_str n)) = true.
Definition printable_language (language : bytes) : Prop :=
  LanguageTag_parse language = None /\ utf8_valid language = true /\ ascii_lowercase language = language.
Definition printable_literal (l : RdfLiteral) : Prop :=
  utf8_valid (Literal_value l) = true /\
  match l with
  | LiteralString _ => True
  | LanguageTaggedString _ language | DirectionalLanguageTaggedString _ language _ => printable_language language
  | TypedLiteral _ datatype =>
      printable_named_node datatype /\ datatype <> XSD_STRING /\ invalid_typed_literal_datatype datatype = None
  end.
Definition printable_node (n : RdfNamedOrBlankNode) : Prop :=
  match n with NodeNamed n => printable_named_node n | NodeBlank n => printable_blank_node n end.
Fixpoint printable (t : RdfTerm) : Prop :=
  match t with
  | TermNamedNode n => printable_named_node n
  | TermBlankNode n => printable_blank_node n
  | TermLiteral l => printable_literal l
  | TermTriple s p o => printable_node s /\ printable_named_node p /\ printable o
  end.
Definition printable_graph (g : RdfGraphName) : Prop :=
  match g with
  | GraphNamedNode n => printable_named_node n
  | GraphBlankNode n => printable_blank_node n
  | GraphDefault => True
  end.
Definition printable_triple (t : RdfTriple) : Prop :=
  printable_node (t_subject t) /\ printable_named_node (t_predicate t) /\ printable (t_object t).
Definition printable_quad (q : RdfQuad) : Prop :=
  printable_triple (mkTriple (q_subject q) (q_predicate q) (q_object q)) /\ printable_graph (q_graph_name q).
End printable.

(** How deep triple terms are nested. *)
Fixpoint nesting (t : RdfTerm) : Z := match t with TermTriple _ _ o => 1 + nesting o | _ => 0 end.

(** ** Escapes *)

(** [print_quoted_str] by characters. *)
Definition escape (c : Z) : list Z :=
  if c =? 8 then cs "\b"
  else if c =? 9 then cs "\t"
  else if c =? 10 then cs "\n"
  else if c =? 12 then cs "\f"
  else if c =? 13 then cs "\r"
  else if c =? 34 then [92; 34]
  else if c =? 92 then [92; 92]
  else if (c <=? 31) || (c =? 127) || (c =? 65534) || (c =? 65535) then chars (unicode_escape c)
  else [c].
Definition special : list Z := seqZ 0 32 ++ [34; 92; 127; 65534; 65535].

Lemma escape_cases (c : Z) : is_scalar c = true -> c ∈ special \/ (c ∉ special /\ escape c = [c]).
Proof.
  intros Hc. destruct (decide (c ∈ special)) as [H|H]; [by left|right]. split; [done|].
  assert (~ (0 <= c < 32) /\ c <> 34 /\ c <> 92 /\ c <> 127 /\ c <> 65534 /\ c <> 65535) as (H1 & H2 & H3 & H4 & H5 & H6).
  { unfold special in H. rewrite elem_of_app, elem_of_seqZ, !elem_of_cons, elem_of_nil in H. lia. }
  unfold is_scalar in Hc. unfold escape. repeat (case_match; bool_to_prop; try lia). done.
Qed.

Lemma escape_step (a : ascii) (s : bytes) : Z_of_byte a <> 239 -> escape_chars (a :: s) = escape_byte a ++ escape_chars s.
Proof. intros Ha. destruct s as [|b [|c s]]; [done..|]. cbn [escape_chars]. by rewrite (proj2 (Z.eqb_neq _ _) Ha). Qed.
Lemma escape_step3 (a b c : ascii) (s : bytes) :
  escape_chars (a :: b :: c :: s) =
  if (Z_of_byte a =? 239) && (Z_of_byte b =? 191) && (Z_of_byte c >=? 190)
  then unicode_escape (65344 + Z_of_byte c) ++ escape_chars s
  else escape_byte a ++ escape_chars (b :: c :: s).
Proof. done. Qed.
Lemma escape_byte_high (n : Z) : 128 <= n < 256 -> escape_byte (byte_of_Z n) = [byte_of_Z n].
Proof. intros H. unfold escape_byte. rewrite byte_value by lia. repeat (case_match; bool_to_prop; try lia). done. Qed.
Lemma forallb_elem {A : Type} (f : A -> bool) (l : list A) (x : A) : forallb f l = true -> x ∈ l -> f x = true.
Proof. rewrite forallb_forall. intros H Hx. apply H. by apply list_elem_of_In. Qed.
Lemma escape_byte_low (c : Z) : 0 <= c <= 127 -> escape_byte (byte_of_Z c) = encode (escape c).
Proof.
  intros H. assert (forallb (fun c => bool_decide (escape_byte (byte_of_Z c) = encode (escape c))) (seqZ 0 128) = true) as E
    by (vm_compute; reflexivity).
  apply (forallb_elem _ _ c) in E; [by apply bool_decide_eq_true in E|apply elem_of_seqZ; lia].
Qed.
Lemma escape_high (c : Z) : is_scalar c = true -> 128 <= c -> c <> 65534 -> c <> 65535 -> escape c = [c].
Proof. intros Hc H1 H2 H3. unfold escape. repeat (case_match; bool_to_prop; try lia). done. Qed.
Lemma unicode_escape_text (c : Z) : c ∈ special -> is_text (unicode_escape c).
Proof.
  assert (forallb (fun c => utf8_valid (unicode_escape c)) special = true) as E by (vm_compute; reflexivity).
  intros Hc. by apply utf8_is_text, (forallb_elem _ _ c E).
Qed.

Lemma escape_encode (c : Z) (s : bytes) :
  is_scalar c = true -> escape_chars (encode_char c ++ s) = encode (escape c) ++ escape_chars s.
Proof.
  intros Hc. pose proof Hc as Hs. unfold is_scalar in Hs.
  assert (encode [c] = encode_char c) as E1 by (unfold encode; cbn [mbind list_bind]; by rewrite app_nil_r).
  destruct (encode_cases c Hc) as [[H1 ->]|[(a & b & E & E2 & Ha & Hb)|[(a & b & d & E & E2 & Ha & Hb & Hd)|(a & b & d & e & E & E2 & Ha & Hb & Hd & He)]]].
  - cbn [app]. rewrite escape_step, escape_byte_low; [done|lia|rewrite byte_value; lia].
  - rewrite escape_high, E1, E2 by (done || lia). cbn [app].
    by rewrite !escape_step, !escape_byte_high by (rewrite ?byte_value; lia).
  - destruct (decide (65534 <= c <= 65535)) as [L|L].
    + assert (a = 239 /\ b = 191 /\ d = c - 65344) as (-> & -> & ->) by lia. rewrite E2. cbn [app].
      rewrite escape_step3, !byte_value by lia. replace (c - 65344 >=? 190) with true by lia. cbn [Z.eqb Pos.eqb andb].
      replace (65344 + (c - 65344)) with c by lia. f_equal.
      assert (c ∈ special) as Hi by (unfold special; rewrite elem_of_app, !elem_of_cons; lia).
      rewrite <- (proj1 (is_text_encode _ (unicode_escape_text c Hi))).
      assert (c = 65534 \/ c = 65535) as [-> | ->] by lia; reflexivity.
    + rewrite escape_high, E1, E2 by (done || lia). cbn [app]. rewrite escape_step3, !byte_value by lia.
      replace ((a =? 239) && (b =? 191) && (d >=? 190)) with false by lia.
      by rewrite !escape_step, !escape_byte_high by (rewrite ?byte_value; lia).
  - rewrite escape_high, E1, E2 by (done || lia). cbn [app].
    by rewrite !escape_step, !escape_byte_high by (rewrite ?byte_value; lia).
Qed.
Lemma escape_chars_encode (l : list Z) : scalars l -> escape_chars (encode l) = encode (l ≫= escape).
Proof.
  induction 1 as [|c l Hc _ IH]; [done|]. change (encode (c :: l)) with (encode_char c ++ encode l).
  cbn [mbind list_bind]. by rewrite encode_app, escape_encode, IH.
Qed.
Lemma escape_scalars (c : Z) : is_scalar c = true -> scalars (escape c).
Proof.
  intros Hc. destruct (escape_cases c Hc) as [Hs|[_ ->]]; [|by constructor].
  assert (forallb (fun c => forallb is_scalar (escape c)) special = true) as E by (vm_compute; reflexivity).
  apply (forallb_elem _ _ c E) in Hs. apply list.Forall_forall. intros x Hx. by eapply forallb_elem in Hs.
Qed.

(** The text of a quoted string. *)
Lemma quoted_text (s : bytes) :
  utf8_valid s = true ->
  is_text (print_quoted_str s) /\ chars (print_quoted_str s) = 34 :: (chars s ≫= escape) ++ [34].
Proof.
  intros (l & Hl & ->)%utf8_encode. unfold print_quoted_str. rewrite escape_chars_encode, chars_encode by done.
  assert (scalars (l ≫= escape)) as Hs.
  { induction Hl as [|c l Hc _ IH]; [constructor|]. apply Forall_app. split; [by apply escape_scalars|done]. }
  assert (quote :: encode (l ≫= escape) ++ [quote] = encode (34 :: (l ≫= escape) ++ [34])) as ->.
  { change (34 :: (l ≫= escape) ++ [34]) with ([34] ++ (l ≫= escape) ++ [34]). by rewrite !encode_app. }
  assert (scalars (34 :: (l ≫= escape) ++ [34])) as Hs2.
  { constructor; [done|]. apply Forall_app. split; [done|by repeat constructor]. }
  split; [by apply encode_is_text|by apply chars_encode].
Qed.

(** ** Reading what was escaped *)

Section reading.
Context `{TermSyntax}.

Lemma read_quoted_escape (c : Z) (fuel : nat) (value s : list Z) :
  is_scalar c = true -> read_quoted (S fuel) value (escape c ++ s) = read_quoted fuel (value ++ [c]) s.
Proof.
  intros Hc. destruct (escape_cases c Hc) as [Hs|[Hn ->]].
  - clear Hc. unfold special in Hs. rewrite elem_of_app in Hs.
    assert (c ∈ seqZ 0 32 ++ [34; 92; 127; 65534; 65535]) as Hi by by rewrite elem_of_app.
    clear Hs. change (seqZ 0 32) with [0;1;2;3;4;5;6;7;8;9;10;11;12;13;14;15;16;17;18;19;20;21;22;23;24;25;26;27;28;29;30;31] in Hi.
    cbn [app] in Hi. repeat (apply elem_of_cons in Hi as [-> | Hi]; [reflexivity|]). by apply elem_of_nil in Hi.
  - assert (c <> 34 /\ c <> 92) as [H1 H2].
    { split; intros ->; apply Hn; unfold special; rewrite elem_of_app, !elem_of_cons; lia. }
    cbn [app read_quoted]. by rewrite (proj2 (Z.eqb_neq c 34)), (proj2 (Z.eqb_neq c 92)).
Qed.
Lemma read_quoted_print (l : list Z) (fuel : nat) (value s : list Z) :
  scalars l -> (length l < fuel)%nat -> read_quoted fuel value ((l ≫= escape) ++ 34 :: s) = Ok (value ++ l, s).
Proof.
  intros Hl. revert fuel value. induction Hl as [|c l Hc _ IH]; intros fuel value Hf; (destruct fuel as [|fuel]; [simpl in Hf; lia|]).
  - cbn. by rewrite app_nil_r.
  - cbn [mbind list_bind]. rewrite <- app_assoc, read_quoted_escape, IH by (done || (simpl in Hf; lia)). by rewrite <- app_assoc.
Qed.
Lemma escape_length (l : list Z) : scalars l -> (length l <= length (l ≫= escape))%nat.
Proof.
  induction 1 as [|c l Hc _ IH]; [done|]. cbn [mbind list_bind length]. rewrite length_app.
  apply (Nat.add_le_mono 1 _ (length l)); [|exact IH].
  destruct (escape_cases c Hc) as [Hs|[_ ->]]; [|simpl; lia].
  assert (forallb (fun c => (0 <? length (escape c))%nat) special = true) as E by (vm_compute; reflexivity).
  apply (forallb_elem _ _ c E) in Hs. apply Nat.ltb_lt in Hs. lia.
Qed.
End reading.

(** ** The pieces of a term *)

Definition stops (f : Z -> bool) (rest : list Z) : Prop := match rest with [] => True | c :: _ => f c = true end.
(** What follows a term in a printed line. *)
Definition follows (rest : list Z) : Prop :=
  solid_end rest
  /\ (rest = [] \/ exists c r, rest = 32 :: c :: r /\ (c = chr "<" \/ c = chr "_" \/ c = chr ")" \/ c = chr ".")).

Lemma split_at_stop (f : Z -> bool) (l rest : list Z) :
  Forall (fun c => f c = false) l -> stops f rest -> split_at_char f (l ++ rest) = (l, rest).
Proof.
  intros Hl Hr. induction Hl as [|c l Hc _ IH]; simpl.
  - destruct rest as [|c rest]; [done|]. simpl in *. by rewrite Hr.
  - by rewrite Hc, IH.
Qed.
Lemma find_chars_app (d : Z) (l k : list Z) :
  find_chars [d; d] l = None -> ends_with_char d l = false -> find_chars [d; d] (l ++ d :: d :: k) = Some (length l).
Proof.
  unfold ends_with_char. induction l as [|x l IH]; intros Hf He.
  - cbn [app find_chars length]. unfold starts_with. cbn [strip_chars]. by rewrite !Z.eqb_refl.
  - cbn [app find_chars] in *. destruct (starts_with [d; d] (x :: l)) eqn:S1; [done|].
    assert (find_chars [d; d] l = None) as Hl by (by destruct (find_chars [d; d] l)).
    assert (starts_with [d; d] (x :: l ++ d :: d :: k) = false /\ (match rev l with e :: _ => e =? d | [] => false end) = false) as [-> H2].
    { destruct l as [|y l].
      - cbn [rev app] in He. split; [|done]. unfold starts_with. cbn [strip_chars app]. rewrite Z.eqb_sym in He. by rewrite He.
      - split.
        + unfold starts_with in *. cbn [strip_chars app] in *. destruct (d =? x); [|done]. by destruct (d =? y).
        + cbn [rev] in He |- *. destruct (rev l ++ [y]) as [|z w] eqn:E; [by destruct (rev l)|]. exact He. }
    cbn [length]. by rewrite IH.
Qed.

Section pieces.
Context `{TermSyntaxLaws}.

Lemma named_node_text (n : RdfNamedNode) :
  printable_named_node n ->
  is_text (NamedNode_to_string n) /\ chars (NamedNode_to_string n) = chr "<" :: chars (nn_iri n) ++ [chr ">"].
Proof.
  intros [_ Hu%utf8_is_text]. unfold NamedNode_to_string. split.
  - repeat apply is_text_app; try done; by apply utf8_is_text.
  - rewrite !chars_app; [done|done|by apply utf8_is_text].
Qed.
Lemma read_named_node_print (n : RdfNamedNode) (s rest : list Z) :
  printable_named_node n -> trim s = chars (NamedNode_to_string n) ++ rest -> read_named_node s = Ok (n, rest).
Proof.
  intros Hn Hs. unfold read_named_node. rewrite Hs, (proj2 (named_node_text n Hn)).
  destruct Hn as [Hi Hu%utf8_is_text]. cbn [app]. rewrite <- app_assoc.
  replace (strip_chars (cs "<") (chr "<" :: chars (nn_iri n) ++ [chr ">"] ++ rest)) with (Some (chars (nn_iri n) ++ [chr ">"] ++ rest)) by done.
  rewrite split_at_stop; [|apply list.Forall_forall; intros c Hc%list_elem_of_In; apply Z.eqb_neq, (Iri_parse_chars _ c Hi Hc)|done].
  cbn [app]. replace (existsb (fun c => c =? chr "\") (chars (nn_iri n))) with false.
  - monad. unfold NamedNode_new. rewrite (proj1 (is_text_encode _ Hu)), Hi. by destruct n.
  - symmetry. apply not_true_is_false. intros (c & Hc & E%Z.eqb_eq)%existsb_exists.
    by apply (Iri_parse_chars _ c Hi) in Hc as (_ & ? & _).
Qed.

Lemma blank_node_text (n : RdfBlankNode) :
  printable_blank_node n ->
  is_text (BlankNode_to_string n) /\ chars (BlankNode_to_string n) = cs "_:" ++ chars (BlankNode_as_str n).
Proof.
  intros (_ & Hu%utf8_is_text & _). unfold BlankNode_to_string. split.
  - apply is_text_app; [by apply utf8_is_text|done].
  - rewrite chars_app; [done|by apply utf8_is_text].
Qed.
Lemma blank_node_end_print (id rest : list Z) :
  printable_id id = true -> stops is_blank_node_end rest -> blank_node_end (id ++ rest) = length id.
Proof.
  unfold printable_id. intros [[Hv He]%andb_prop Hd]%andb_prop Hr. apply bool_decide_eq_true in Hd.
  unfold blank_node_end. rewrite split_at_stop; [|apply list.Forall_forall; intros c Hc%list_elem_of_In|done].
  - cbn [fst]. rewrite take_app_length, Hd, take_app_length.
    destruct id as [|c id]; [done|]. cbn [validate_blank_node_identifier] in Hv.
    apply andb_prop in Hv as [_ Hv]. by destruct (ends_with_char 46 (c :: id)).
  - apply negb_true_iff in He. apply not_true_is_false. intros Hb.
    assert (existsb is_blank_node_end id = true) by (apply existsb_exists; eauto). congruence.
Qed.
Lemma read_blank_node_print (n : RdfBlankNode) (s rest : list Z) :
  printable_blank_node n -> stops is_blank_node_end rest ->
  trim s = chars (BlankNode_to_string n) ++ rest -> read_blank_node s = Ok (n, rest).
Proof.
  intros Hn Hr Hs. unfold read_blank_node. rewrite Hs, (proj2 (blank_node_text n Hn)).
  destruct Hn as (Hn & Hu%utf8_is_text & Hi). rewrite <- app_assoc.
  replace (strip_chars (cs "_:") (cs "_:" ++ chars (BlankNode_as_str n) ++ rest)) with (Some (chars (BlankNode_as_str n) ++ rest)) by done.
  rewrite blank_node_end_print, take_app_length, drop_app_length, (proj1 (is_text_encode _ Hu)) by done.
  unfold BlankNode_new. unfold printable_id in Hi. apply andb_prop in Hi as [[-> _]%andb_prop _].
  monad. by rewrite <- Hn.
Qed.

(** Every piece ends with a character that is not a space. *)
Lemma solid_snoc (s : list Z) (c : Z) : is_whitespace c = false -> solid_end (s ++ [c]).
Proof. intros Hc. apply solid_end_app; done. Qed.
Lemma solid_forall (s : list Z) : (forall c, c ∈ s -> is_whitespace c = false) -> solid_end s.
Proof. destruct s as [|c s] using rev_ind; [done|]. intros Hs. apply solid_snoc, Hs. set_solver. Qed.
Lemma named_node_solid (n : RdfNamedNode) : printable_named_node n -> solid_end (chars (NamedNode_to_string n)).
Proof. intros [_ ->]%named_node_text. by apply (solid_snoc (chr "<" :: _)). Qed.
Lemma blank_node_solid (n : RdfBlankNode) : printable_blank_node n -> solid_end (chars (BlankNode_to_string n)).
Proof.
  intros Hn. rewrite (proj2 (blank_node_text n Hn)). destruct Hn as (_ & _ & Hi). unfold printable_id in Hi.
  apply andb_prop in Hi as [[_ He%negb_true_iff]%andb_prop _].
  apply solid_end_app; [|done]. apply solid_forall. intros c Hc. apply not_true_is_false. intros Hw.
  assert (existsb is_blank_node_end (chars (BlankNode_as_str n)) = true); [|congruence].
  apply existsb_exists. exists c. split; [by apply list_elem_of_In|]. unfold is_blank_node_end. by rewrite Hw.
Qed.
Lemma language_chars (language : bytes) (c : Z) :
  printable_language language -> c ∈ chars language -> negb (is_ascii_alphanumeric c) && negb (c =? chr "-") = false /\ is_whitespace c = false.
Proof.
  intros (Hp & _ & _) Hc%list_elem_of_In. apply (LanguageTag_parse_chars _ _ Hp) in Hc.
  unfold is_whitespace, is_ascii_alphanumeric, in_range in *. change (chr "-") with 45 in *. split; lia.
Qed.

(** The text of a literal after its closing quote. *)
Definition literal_suffix (l : RdfLiteral) : list Z :=
  match l with
  | LiteralString _ => []
  | LanguageTaggedString _ language => cs "@" ++ chars language
  | DirectionalLanguageTaggedString _ language direction =>
      cs "@" ++ chars language ++ cs "--" ++ chars (BaseDirection_to_string direction)
  | TypedLiteral _ datatype => cs "^^" ++ chars (NamedNode_to_string datatype)
  end.
Lemma literal_text (l : RdfLiteral) :
  printable_literal l ->
  is_text (Literal_to_string l)
  /\ chars (Literal_to_string l) = 34 :: (chars (Literal_value l) ≫= escape) ++ 34 :: literal_suffix l.
Proof.
  intros [Hv Hl].
  destruct (quoted_text _ Hv) as [Ht Hc].
  assert (forall suffix, is_text suffix -> is_text (print_quoted_str (Literal_value l) ++ suffix)
            /\ chars (print_quoted_str (Literal_value l) ++ suffix)
               = 34 :: (chars (Literal_value l) ≫= escape) ++ 34 :: chars suffix) as K.
  { intros suffix Hs. split; [by apply is_text_app|]. rewrite chars_app, Hc by done. cbn [app]. by rewrite <- app_assoc. }
  destruct l as [v|v language|v language direction|v d]; cbn [Literal_value Literal_to_string literal_suffix] in *.
  - split; [done|by rewrite Hc].
  - destruct Hl as (_ & Hu%utf8_is_text & _).
    destruct (K (str "@" ++ language)) as [K1 ->]; [apply is_text_app; [by apply utf8_is_text|done]|]. split; [done|].
    by rewrite chars_app by by apply utf8_is_text.
  - destruct Hl as (_ & Hu%utf8_is_text & _).
    assert (is_text (BaseDirection_to_string direction)) as Hd by (apply utf8_is_text; by destruct direction).
    destruct (K (str "@" ++ language ++ str "--" ++ BaseDirection_to_string direction)) as [K1 ->].
    { repeat apply is_text_app; try done; by apply utf8_is_text. }
    split; [done|]. by rewrite !chars_app by (done || by apply utf8_is_text).
  - destruct Hl as (Hd & _). destruct (named_node_text _ Hd) as [Hdt _].
    destruct (K (str "^^" ++ NamedNode_to_string d)) as [K1 ->]; [apply is_text_app; [by apply utf8_is_text|done]|]. split; [done|].
    by rewrite chars_app by by apply utf8_is_text.
Qed.
Lemma suffix_solid (l : RdfLiteral) : printable_literal l -> solid_end (literal_suffix l).
Proof.
  intros [_ Hl]. destruct l as [v|v language|v language direction|v d]; cbn [literal_suffix]; [done|..].
  - apply solid_end_app; [|done]. apply solid_forall. intros c Hc. by apply (language_chars language).
  - rewrite !app_assoc. apply solid_end_app; destruct direction; done.
  - destruct Hl as (Hd & _). apply solid_end_app; [by apply named_node_solid|done].
Qed.
Lemma literal_solid (l : RdfLiteral) : printable_literal l -> solid_end (chars (Literal_to_string l)).
Proof.
  intros Hl. rewrite (proj2 (literal_text l Hl)). apply (solid_end_app (34 :: _)); [|done].
  apply (solid_end_app [34]); [by apply suffix_solid|done].
Qed.

(** A trimmed text that does not start with a space. *)
Lemma trim_head (c : Z) (s : list Z) : is_whitespace c = false -> solid_end (c :: s) -> trim (c :: s) = c :: s.
Proof. intros Hc Hs. rewrite trim_solid by done. by apply trim_start_solid. Qed.
Lemma follows_trim (rest : list Z) :
  follows rest -> strip_chars (cs "@") (trim rest) = None /\ strip_chars (cs "^^") (trim rest) = None.
Proof.
  intros [Hs [->|(c & r & -> & Hc)]]; [done|]. assert (is_whitespace c = false) as Hw by (by repeat destruct Hc as [-> | Hc]; subst).
  rewrite trim_solid by done. change (trim_start (32 :: c :: r)) with (trim_start (c :: r)). rewrite trim_start_solid by done.
  by repeat destruct Hc as [-> | Hc]; subst.
Qed.
Lemma language_stop (language : bytes) (tail rest : list Z) :
  printable_language language -> Forall (fun c => negb (is_ascii_alphanumeric c) && negb (c =? chr "-") = false) tail ->
  follows rest ->
  split_at_char (fun v => negb (is_ascii_alphanumeric v) && negb (v =? chr "-")) (chars language ++ tail ++ rest)
  = (chars language ++ tail, rest).
Proof.
  intros Hl Ht [_ Hr]. rewrite app_assoc. apply split_at_stop.
  - apply Forall_app. split; [|done]. apply list.Forall_forall. intros c Hc. by apply (language_chars language).
  - by destruct Hr as [->|(c & r & -> & _)].
Qed.

Lemma read_suffix_print (l : RdfLiteral) (rest : list Z) :
  printable_literal l -> follows rest ->
  exists r, read_literal_suffix (Literal_value l) (literal_suffix l ++ rest) = Ok (l, r) /\ (r = rest \/ r = trim rest).
Proof.
  intros Hl Hr. assert (solid_end (literal_suffix l ++ rest)) as Hs.
  { apply solid_end_app; [apply Hr|]. intros _. by apply suffix_solid. }
  destruct Hl as [_ Hl]. unfold read_literal_suffix.
  destruct l as [v|v language|v language direction|v d]; cbn [literal_suffix Literal_value app] in *.
  - destruct (follows_trim _ Hr) as [-> ->]. eauto.
  - change (cs "@" ++ chars language) with (64 :: chars language) in *. cbn [app] in *.
    rewrite trim_head by done. cbn [strip_chars cs]. exists rest. split; [|by left].
    replace (strip_chars (cs "@") (64 :: chars language ++ rest)) with (Some (chars language ++ rest)) by done.
    change (chars language ++ rest) with (chars language ++ [] ++ rest).
    rewrite (language_stop language [] rest) by done. rewrite app_nil_r.
    destruct Hl as (Hp & Hu%utf8_is_text & Hlow). rewrite (proj1 (LanguageTag_parse_subtags _ Hp)).
    rewrite (proj1 (is_text_encode _ Hu)). unfold Literal_new_language_tagged_literal. by rewrite Hlow, Hp.
  - set (tail := cs "--" ++ chars (BaseDirection_to_string direction)) in *.
    replace ((cs "@" ++ chars language ++ tail) ++ rest) with (64 :: chars language ++ tail ++ rest) in *
      by (by rewrite <- !app_assoc).
    rewrite trim_head by done. exists rest. split; [|by left].
    replace (strip_chars (cs "@") (64 :: chars language ++ tail ++ rest)) with (Some (chars language ++ tail ++ rest)) by done.
    rewrite language_stop; [|done|by destruct direction; repeat constructor|done].
    destruct Hl as (Hp & Hu%utf8_is_text & Hlow). destruct (LanguageTag_parse_subtags _ Hp) as [Hf He].
    change (chars language ++ tail) with (chars language ++ 45 :: 45 :: chars (BaseDirection_to_string direction)).
    rewrite (find_chars_app 45) by done. rewrite take_app_length.
    replace (drop (length (chars language) + 2) (chars language ++ 45 :: 45 :: chars (BaseDirection_to_string direction)))
      with (chars (BaseDirection_to_string direction)) by (by rewrite drop_app_add).
    rewrite (proj1 (is_text_encode _ Hu)). unfold Literal_new_directional_language_tagged_literal. rewrite Hlow, Hp.
    by destruct direction.
  - destruct Hl as (Hd & Hx & Hi). change (cs "^^" ++ chars (NamedNode_to_string d)) with (94 :: 94 :: chars (NamedNode_to_string d)) in *.
    cbn [app] in *. rewrite trim_head by done. exists rest. split; [|by left].
    replace (strip_chars (cs "@") (94 :: 94 :: chars (NamedNode_to_string d) ++ rest)) with (@None (list Z)) by done.
    replace (strip_chars (cs "^^") (94 :: 94 :: chars (NamedNode_to_string d) ++ rest)) with (Some (chars (NamedNode_to_string d) ++ rest)) by done.
    rewrite (read_named_node_print d _ rest) by (done || (apply solid_end_cons, solid_end_cons in Hs;
      rewrite (proj2 (named_node_text d Hd)) in *; by apply trim_head)).
    monad. unfold Literal_try_new_typed_literal, Literal_new_typed_literal_validated. rewrite Hi.
    by rewrite bool_decide_eq_false_2.
Qed.

Lemma read_literal_print (l : RdfLiteral) (s rest : list Z) :
  printable_literal l -> follows rest -> trim s = chars (Literal_to_string l) ++ rest ->
  exists r, read_literal s = Ok (l, r) /\ (r = rest \/ r = trim rest).
Proof.
  intros Hl Hr Hs. destruct (read_suffix_print l rest Hl Hr) as (r & Hsuf & Hrr). exists r. split; [|done].
  unfold read_literal. rewrite Hs, (proj2 (literal_text l Hl)). cbn [app]. rewrite <- app_assoc. cbn [app].
  set (body := (chars (Literal_value l) ≫= escape) ++ 34 :: literal_suffix l ++ rest).
  replace (strip_chars [34] (34 :: body)) with (Some body) by done.
  destruct Hl as [Hv%utf8_is_text _]. destruct (is_text_encode _ Hv) as [He Hsc]. unfold body.
  rewrite read_quoted_print; [|done|pose proof (escape_length _ Hsc); rewrite length_app; simpl; lia].
  monad. cbn [app]. by rewrite He.
Qed.
End pieces.
