(* ===== verification/OxParserRoundTrip.v ===== *)
(** * Round trips of terms, triples and quads

    The parser reads what [Display] writes, up to its limit on nested triple
    terms, and what it reads is printable: text that parses has a canonical form. *)
From stdpp Require Import gmap.
From S2P Require Import Prelude MachineInt RustStr BTree EncodedTerm RdfModel RdfDisplay.
From S2P Require Import RustChars OxParser OxParserFacts.

(** A concatenation of texts and constants is a text. *)
Ltac solve_text :=
  solve [assumption
        | lazymatch goal with
          | |- is_text (_ ++ _) => apply is_text_app; solve_text
          | |- is_text (str _) => by apply utf8_is_text
          end].

Section round_trip.
Context `{TermSyntaxLaws}.

(** The error of the limit, and whether a term read at the call number [n] runs
    into it: the number grows by two for each level. *)
Definition too_many_nested_triples : TermParseError :=
  msg "Too many nested triples. The parser fails here to avoid a stack overflow.".
Definition too_deep (n : Z) (t : RdfTerm) : bool := Z.even n && (n <=? 128) && (128 <=? n + 2 * nesting t).
(** The outcome of a reader on a printed [t] that [rest] follows. *)
Definition reads {A : Type} (r : result TermParseError (A * list Z)) (deep : bool) (t : A) (rest : list Z) : Prop :=
  if deep then r = Err too_many_nested_triples
  else exists remain, r = Ok (t, remain) /\ (remain = rest \/ remain = trim rest).

Lemma nesting_nonneg (t : RdfTerm) : 0 <= nesting t.
Proof. induction t; simpl; lia. Qed.

Lemma too_deep_triple (n : Z) (s : RdfNamedOrBlankNode) (p : RdfNamedNode) (o : RdfTerm) :
  n <> 128 -> too_deep (n + 1 + 1) o = too_deep n (TermTriple s p o).
Proof.
  intros Hn. unfold too_deep. cbn [nesting]. replace (n + 1 + 1) with (n + 2 * 1) at 1 by lia. rewrite Z.even_add_mul_2.
  destruct (Z.even n) eqn:E; [|done]. apply Z.even_spec in E as [m ->]. lia.
Qed.

(** *** Texts *)

Lemma node_text (n : RdfNamedOrBlankNode) : printable_node n -> is_text (NamedOrBlankNode_to_string n).
Proof. destruct n; [apply named_node_text|apply blank_node_text]. Qed.
Lemma term_text (t : RdfTerm) : printable t -> is_text (Term_to_string t).
Proof.
  induction t as [n|n|l|s p o IH]; cbn [printable Term_to_string]; [apply named_node_text|apply blank_node_text|apply literal_text|].
  intros (Hs%node_text & [Hp _]%named_node_text & Ho%IH). solve_text.
Qed.
Lemma triple_chars (t : RdfTriple) :
  printable_triple t ->
  is_text (Triple_to_string t)
  /\ chars (Triple_to_string t)
     = chars (NamedOrBlankNode_to_string (t_subject t)) ++ 32 :: chars (NamedNode_to_string (t_predicate t))
       ++ 32 :: chars (Term_to_string (t_object t)).
Proof.
  intros (Hs & Hp & Ho). apply node_text in Hs. apply named_node_text in Hp as [Hp _]. apply term_text in Ho.
  unfold Triple_to_string. split; [solve_text|].
  by rewrite !chars_app by solve_text.
Qed.
Lemma term_solid (t : RdfTerm) : printable t -> solid_end (chars (Term_to_string t)).
Proof.
  intros Ht. destruct t as [n|n|l|s p o]; [by apply named_node_solid|by apply blank_node_solid|by apply literal_solid|].
  cbn [Term_to_string]. destruct (triple_chars (mkTriple s p o) Ht) as [Htx _]. unfold Triple_to_string in Htx. cbn [t_subject t_predicate t_object] in Htx.
  rewrite chars_app by solve_text. rewrite (chars_app _ (str " )>>")) by solve_text. rewrite app_assoc.
  by apply solid_end_app.
Qed.

(** *** Terms *)

(** Inside a triple term. *)
Lemma read_term_triple (fuel : nat) (s remain : list Z) (n : Z) :
  n <> 128 -> strip_chars (cs "<<(") (trim s) = Some remain ->
  read_term (S fuel) s n =
    ('(triple, remain) ← read_triple_with (read_term fuel) remain (n + 1);
     match strip_chars (cs ")>>") (trim_start remain) with
     | Some remain => Ok (TermTriple (t_subject triple) (t_predicate triple) (t_object triple), remain)
     | None => Err (msg "Triple term serialization must be enclosed between <<( and )>>")
     end).
Proof. intros Hn Hs. cbn [read_term]. unfold MAX_NUMBER_OF_NESTED_TRIPLES. by rewrite (proj2 (Z.eqb_neq n 128)), Hs. Qed.
Lemma read_term_limit (fuel : nat) (s : list Z) : read_term (S fuel) s 128 = Err too_many_nested_triples.
Proof. done. Qed.

Lemma follows_stop (rest : list Z) : follows rest -> stops is_blank_node_end rest.
Proof. by intros [_ [->|(c & r & -> & _)]]. Qed.
(** The first character of a printed term that is not a triple, and the readers. *)
Lemma read_leaf_print (t : RdfTerm) (fuel : nat) (s : list Z) (n : Z) (rest : list Z) :
  (forall s p o, t <> TermTriple s p o) ->
  printable t -> follows rest -> trim s = chars (Term_to_string t) ++ rest ->
  reads (read_term (S fuel) s n) (n =? 128) t rest.
Proof.
  intros Ht Hp Hr Hs. unfold reads. cbn [read_term]. unfold MAX_NUMBER_OF_NESTED_TRIPLES.
  destruct (Z.eqb_spec n 128); [done|]. destruct t as [i|b|l|s1 p1 o1]; [..|by destruct (Ht s1 p1 o1)].
  - cbn [Term_to_string] in Hs. destruct (named_node_text i Hp) as [_ Ec].
    replace (strip_chars (cs "<<(") (trim s)) with (@None (list Z)); [replace (starts_with (cs "<") (trim s)) with true|].
    + rewrite (read_named_node_print i (trim s) rest Hp) by (by rewrite trim_idem). monad. eauto.
    + by rewrite Hs, Ec.
    + rewrite Hs, Ec. destruct (chars (nn_iri i)) as [|c l] eqn:E; [done|].
      destruct (Iri_parse_chars _ c (proj1 Hp)) as (_ & _ & Hc); [rewrite E; by left|].
      change (None = if 60 =? c then strip_chars [40] ((l ++ [chr ">"]) ++ rest) else None).
      by rewrite (proj2 (Z.eqb_neq 60 c)) by (by intros <-).
  - cbn [Term_to_string] in Hs. destruct (blank_node_text b Hp) as [_ Ec].
    replace (strip_chars (cs "<<(") (trim s)) with (@None (list Z)) by (by rewrite Hs, Ec).
    replace (starts_with (cs "<") (trim s)) with false by (by rewrite Hs, Ec).
    replace (starts_with (cs "_") (trim s)) with true by (by rewrite Hs, Ec).
    rewrite (read_blank_node_print b (trim s) rest Hp (follows_stop _ Hr)) by (by rewrite trim_idem). monad. eauto.
  - cbn [Term_to_string] in Hs. destruct (literal_text l Hp) as [_ Ec].
    replace (strip_chars (cs "<<(") (trim s)) with (@None (list Z)) by (by rewrite Hs, Ec).
    replace (starts_with (cs "<") (trim s)) with false by (by rewrite Hs, Ec).
    replace (starts_with (cs "_") (trim s)) with false by (by rewrite Hs, Ec).
    destruct (read_literal_print l (trim s) rest Hp Hr) as (r & -> & Hrr); [by rewrite trim_idem|]. monad. eauto.
Qed.

Lemma Term_from_node_text (n : RdfNamedOrBlankNode) : Term_to_string (Term_from_node n) = NamedOrBlankNode_to_string n.
Proof. by destruct n. Qed.
Lemma printable_from_node (n : RdfNamedOrBlankNode) : printable (Term_from_node n) <-> printable_node n.
Proof. by destruct n. Qed.
Lemma follows_named (n : RdfNamedNode) (rest : list Z) :
  printable_named_node n -> solid_end rest -> follows (32 :: chars (NamedNode_to_string n) ++ rest).
Proof.
  intros Hn Hr. split.
  - apply (solid_end_app [32]); [|done]. apply solid_end_app; [done|]. intros _. by apply named_node_solid.
  - right. rewrite (proj2 (named_node_text n Hn)). exists (chr "<"). eauto.
Qed.
Lemma named_head (n : RdfNamedNode) (rest : list Z) :
  printable_named_node n -> solid_end rest ->
  trim (32 :: chars (NamedNode_to_string n) ++ rest) = chars (NamedNode_to_string n) ++ rest.
Proof.
  intros Hn Hr. assert (solid_end (chars (NamedNode_to_string n) ++ rest)) as Hs.
  { apply solid_end_app; [done|]. intros _. by apply named_node_solid. }
  rewrite (proj2 (named_node_text n Hn)) in *. by apply trim_space_head.
Qed.
(** A printed term starts with a character that is not a space. *)
Lemma term_head (t : RdfTerm) : printable t -> exists c r, chars (Term_to_string t) = c :: r /\ is_whitespace c = false.
Proof.
  intros Hp. destruct t as [n|n|l|s p o].
  - cbn [Term_to_string]. rewrite (proj2 (named_node_text n Hp)). eauto.
  - cbn [Term_to_string]. rewrite (proj2 (blank_node_text n Hp)). eauto.
  - cbn [Term_to_string]. rewrite (proj2 (literal_text l Hp)). eauto.
  - exists 60, (chars (drop 1 (Term_to_string (TermTriple s p o)))). done.
Qed.
Lemma term_space_head (t : RdfTerm) (rest : list Z) :
  printable t -> solid_end rest -> trim (32 :: chars (Term_to_string t) ++ rest) = chars (Term_to_string t) ++ rest.
Proof.
  intros Hp Hr. assert (solid_end (chars (Term_to_string t) ++ rest)) as Hs.
  { apply solid_end_app; [done|]. intros _. by apply term_solid. }
  destruct (term_head t Hp) as (c & r & E & Hc). rewrite E in *. by apply trim_space_head.
Qed.

Lemma triple_solid (t : RdfTriple) : printable_triple t -> solid_end (chars (Triple_to_string t)).
Proof.
  intros Ht. rewrite (proj2 (triple_chars t Ht)). destruct Ht as (_ & _ & Ho). rewrite app_comm_cons, app_assoc.
  destruct (term_head _ Ho) as (c & k & E & _). apply solid_end_app; [|done].
  apply (solid_end_app [32]); [by apply term_solid|by rewrite E].
Qed.
Lemma triple_space_head (t : RdfTriple) (rest : list Z) :
  printable_triple t -> solid_end rest -> trim (32 :: chars (Triple_to_string t) ++ rest) = chars (Triple_to_string t) ++ rest.
Proof.
  intros Ht Hr. assert (solid_end (chars (Triple_to_string t) ++ rest)) as Hs.
  { apply solid_end_app; [done|]. intros _. by apply triple_solid. }
  rewrite (proj2 (triple_chars t Ht)) in *. destruct Ht as (Hsub%printable_from_node & _).
  rewrite <- Term_from_node_text in *. destruct (term_head _ Hsub) as (c & k & E & Hc). rewrite E in *. by apply trim_space_head.
Qed.

(** A triple, given the reading of its object. *)
Lemma read_triple_print (t : RdfTriple) (fuel : nat) (s : list Z) (n : Z) (rest : list Z) :
  (forall s rest, follows rest -> trim s = chars (Term_to_string (t_object t)) ++ rest ->
     reads (read_term (S fuel) s (n + 1)) (too_deep (n + 1) (t_object t)) (t_object t) rest) ->
  printable_triple t -> follows rest -> trim s = chars (Triple_to_string t) ++ rest ->
  reads (read_triple_with (read_term (S fuel)) s n) (too_deep (n + 1) (t_object t)) t rest.
Proof.
  intros Hobj Ht Hr Hs. rewrite (proj2 (triple_chars t Ht)) in Hs. destruct Ht as (Hsub & Hp & Ho).
  assert (forall rest, solid_end rest -> solid_end (32 :: chars (Term_to_string (t_object t)) ++ rest)) as Hso.
  { intros r Hr0. apply (solid_end_app [32]).
    - apply solid_end_app; [done|]. intros _. by apply term_solid.
    - by destruct (term_head _ Ho) as (c & k & -> & _). }
  set (rest2 := 32 :: chars (Term_to_string (t_object t)) ++ rest) in *.
  assert (solid_end rest2) as Hr2 by (apply Hso, Hr).
  set (rest1 := 32 :: chars (NamedNode_to_string (t_predicate t)) ++ rest2) in *.
  pose proof (follows_named _ rest2 Hp Hr2 : follows rest1) as Hr1.
  assert (trim s = chars (Term_to_string (Term_from_node (t_subject t))) ++ rest1) as Hs1.
  { rewrite Hs, Term_from_node_text. unfold rest1, rest2. rewrite <- app_assoc. cbn [app]. rewrite <- app_assoc. done. }
  unfold read_triple_with, reads in *.
  pose proof (read_leaf_print (Term_from_node (t_subject t)) fuel (trim s) (n + 1) rest1) as Hl. unfold reads in Hl.
  destruct (Z.eqb_spec (n + 1) 128) as [E|E].
  { rewrite Hl; [|by destruct (t_subject t)|by apply printable_from_node|done|by rewrite trim_idem]. monad.
    replace (too_deep (n + 1) (t_object t)) with true; [done|].
    unfold too_deep. rewrite E. pose proof (nesting_nonneg (t_object t)). symmetry. simpl. lia. }
  destruct Hl as (r1 & -> & Hr1'%trim_maybe); [by destruct (t_subject t)|by apply printable_from_node|done|by rewrite trim_idem|].
  monad. rewrite (read_named_node_print _ r1 rest2 Hp) by (rewrite Hr1'; by apply named_head). monad.
  pose proof (Hobj rest2 rest Hr (term_space_head _ _ Ho (proj1 Hr))) as Ho2.
  destruct (too_deep (n + 1) (t_object t)); [by rewrite Ho2|].
  destruct Ho2 as (r2 & -> & Hr2'). exists r2. split; [|done]. destruct t as [[sub|sub] p o]; done.
Qed.

(** A term, with enough fuel for its nesting. *)
Lemma read_term_print (t : RdfTerm) (fuel : nat) (s : list Z) (n : Z) (rest : list Z) :
  printable t -> follows rest -> trim s = chars (Term_to_string t) ++ rest -> nesting t < Z.of_nat fuel ->
  reads (read_term fuel s n) (too_deep n t) t rest.
Proof.
  assert (forall t fuel s n rest, (forall s p o, t <> TermTriple s p o) ->
    printable t -> follows rest -> trim s = chars (Term_to_string t) ++ rest -> nesting t < Z.of_nat fuel ->
    reads (read_term fuel s n) (too_deep n t) t rest) as Leaf.
  { clear t fuel s n rest. intros t fuel s n rest Ht Hp Hr Hs Hf. destruct fuel as [|fuel]; [pose proof (nesting_nonneg t); lia|].
    replace (too_deep n t) with (n =? 128); [by apply read_leaf_print|].
    unfold too_deep. replace (nesting t) with 0 by (destruct t as [| | |s1 p1 o1]; [done..|by destruct (Ht s1 p1 o1)]).
    destruct (Z.eqb_spec n 128) as [->|]; [done|]. lia. }
  revert fuel s n rest. induction t as [i|i|i|sub p o IH]; intros fuel s n rest Hp Hr Hs Hf; [by apply Leaf..|].
  clear Leaf. cbn [nesting] in Hf. pose proof (nesting_nonneg o) as Hno.
  destruct fuel as [|[|fuel]]; [lia..|].
  pose proof (triple_chars (mkTriple sub p o) Hp) as [Htx _].
  set (text := chars (Triple_to_string (mkTriple sub p o))).
  assert (chars (Term_to_string (TermTriple sub p o)) = cs "<<( " ++ text ++ cs " )>>") as Ec.
  { change (Term_to_string (TermTriple sub p o)) with (str "<<( " ++ Triple_to_string (mkTriple sub p o) ++ str " )>>").
    by rewrite !chars_app by solve_text. }
  unfold reads. destruct (Z.eqb_spec n 128) as [->|Hn].
  { replace (too_deep 128 (TermTriple sub p o)) with true; [apply read_term_limit|]. unfold too_deep. cbn [nesting Z.even]. lia. }
  rewrite (read_term_triple _ s (32 :: text ++ cs " )>>" ++ rest)) by (done || by rewrite Hs, Ec, <- app_assoc, <- app_assoc).
  assert (follows (cs " )>>" ++ rest)) as Hr2.
  { split; [by apply solid_end_app; [apply Hr|]|]. right. exists (chr ")"). eexists. split; [done|]. auto. }
  pose proof (read_triple_print (mkTriple sub p o) fuel (32 :: text ++ cs " )>>" ++ rest) (n + 1) (cs " )>>" ++ rest)) as K.
  cbn [t_object] in K. unfold reads in K.
  replace (too_deep n (TermTriple sub p o)) with (too_deep (n + 1 + 1) o)
    by by apply too_deep_triple.
  destruct (too_deep (n + 1 + 1) o) eqn:D.
  - rewrite K; [done|..|done|done|].
    + intros s' rest' Hr' Hs'. pose proof (IH (S fuel) s' (n + 1 + 1) rest' (proj2 (proj2 Hp)) Hr' Hs' ltac:(lia)) as IH'.
      unfold reads in IH'. by rewrite D in IH'.
    + apply (triple_space_head (mkTriple sub p o)); [done|apply Hr2].
  - destruct K as (r & -> & Hrr); [|done|done| |].
    + intros s' rest' Hr' Hs'. pose proof (IH (S fuel) s' (n + 1 + 1) rest' (proj2 (proj2 Hp)) Hr' Hs' ltac:(lia)) as IH'.
      unfold reads in IH'. by rewrite D in IH'.
    + apply (triple_space_head (mkTriple sub p o)); [done|apply Hr2].
    + monad. cbn [t_subject t_predicate t_object].
      replace (strip_chars (cs ")>>") (trim_start r)) with (Some rest); [eauto|].
      destruct Hrr as [-> | ->]; [done|]. change (cs " )>>" ++ rest) with (32 :: 41 :: cs ">>" ++ rest).
      rewrite trim_space_head by (done || by apply (solid_end_cons 32), Hr2). done.
Qed.

(** *** Entry points *)

Lemma nesting_length (t : RdfTerm) : printable t -> nesting t <= Z.of_nat (length (chars (Term_to_string t))).
Proof.
  induction t as [i|i|i|sub p o IH]; intros Hp; cbn [nesting]; [lia..|].
  pose proof (triple_chars (mkTriple sub p o) Hp) as [Htx Etx]. specialize (IH (proj2 (proj2 Hp))).
  change (Term_to_string (TermTriple sub p o)) with (str "<<( " ++ Triple_to_string (mkTriple sub p o) ++ str " )>>").
  rewrite !chars_app, !length_app, Etx by solve_text. cbn [t_object]. rewrite !length_app. cbn [length]. rewrite length_app.
  cbn [length]. change (length (chars (str "<<( "))) with 4%nat. lia.
Qed.
Lemma follows_nil : follows [].
Proof. split; [done|by left]. Qed.
Lemma follows_dot : follows (cs " .").
Proof. split; [done|]. right. exists (chr "."), []. auto. Qed.

(** A printed text is not changed by trimming. *)
Lemma term_trim (t : RdfTerm) (rest : list Z) :
  printable t -> solid_end rest -> trim (chars (Term_to_string t) ++ rest) = chars (Term_to_string t) ++ rest.
Proof.
  intros Hp Hr. rewrite <- (term_space_head t rest Hp Hr) at 2. done.
Qed.
Lemma triple_trim (t : RdfTriple) (rest : list Z) :
  printable_triple t -> solid_end rest -> trim (chars (Triple_to_string t) ++ rest) = chars (Triple_to_string t) ++ rest.
Proof. intros Hp Hr. by rewrite <- (triple_space_head t rest Hp Hr) at 2. Qed.
(** At an odd call number the limit is never reached. *)
Lemma odd_not_deep (n : Z) (t : RdfTerm) : Z.even n = false -> too_deep n t = false.
Proof. intros E. unfold too_deep. by rewrite E. Qed.

Lemma read_triple_total (t : RdfTriple) (rest : list Z) :
  printable_triple t -> follows rest ->
  exists remain, read_triple (chars (Triple_to_string t) ++ rest) 0 = Ok (t, remain) /\ (remain = rest \/ remain = trim rest).
Proof.
  intros Ht Hr. unfold read_triple.
  pose proof (read_triple_print t (length (chars (Triple_to_string t) ++ rest)) (chars (Triple_to_string t) ++ rest) 0 rest) as K.
  rewrite odd_not_deep in K by done. apply K; [|done|done|by apply triple_trim; [|apply Hr]].
  intros s' rest' Hr' Hs'. rewrite <- (odd_not_deep (0 + 1) (t_object t)) by done.
  apply read_term_print; [apply Ht|done|done|]. pose proof (nesting_length _ (proj2 (proj2 Ht))).
  rewrite (proj2 (triple_chars t Ht)), !length_app. cbn [length]. rewrite !length_app. cbn [length]. lia.
Qed.

Lemma Term_from_to (t : RdfTerm) :
  printable t -> Term_from_str (Term_to_string t) = if nesting t <? 64 then Ok t else Err too_many_nested_triples.
Proof.
  intros Ht. unfold Term_from_str, read_whole_term.
  pose proof (read_term_print t (S (length (chars (Term_to_string t)))) (chars (Term_to_string t)) 0 [] Ht follows_nil) as K.
  rewrite app_nil_r in K. unfold reads in K.
  replace (too_deep 0 t) with (negb (nesting t <? 64)) in K by (unfold too_deep; cbn [Z.even]; lia).
  pose proof (nesting_length t Ht). pose proof (term_trim t [] Ht I) as E. rewrite app_nil_r in E. specialize (K E ltac:(lia)).
  destruct (nesting t <? 64); cbn [negb] in K; [|by rewrite K].
  destruct K as (r & -> & Hr). monad. by destruct Hr as [-> | ->].
Qed.
Lemma statement_end (remain tail : list Z) :
  tail = [] \/ tail = cs " ." -> remain = tail \/ remain = trim tail -> is_statement_end remain = true.
Proof. by intros [-> | ->] [-> | ->]. Qed.
Lemma tail_follows (tail : list Z) : tail = [] \/ tail = cs " ." -> follows tail.
Proof. intros [-> | ->]; [apply follows_nil|apply follows_dot]. Qed.

Lemma Triple_from_to (t : RdfTriple) (tail : bytes) :
  printable_triple t -> tail = [] \/ tail = str " ." -> Triple_from_str (Triple_to_string t ++ tail) = Ok t.
Proof.
  intros Ht Htail. unfold Triple_from_str. rewrite chars_app by apply (triple_chars t Ht).
  assert (chars tail = [] \/ chars tail = cs " .") as Hc by (destruct Htail as [-> | ->]; auto).
  destruct (read_triple_total t (chars tail) Ht (tail_follows _ Hc)) as (r & -> & Hr). monad.
  by rewrite (statement_end r (chars tail)).
Qed.
(** The name of a graph as a term. *)
Lemma graph_name_term (g : RdfGraphName) :
  printable_graph g -> g <> GraphDefault ->
  exists n, g = GraphName_from_node n /\ printable_node n /\ GraphName_to_string g = Term_to_string (Term_from_node n).
Proof. destruct g as [n|n|]; [by exists (NodeNamed n)|by exists (NodeBlank n)|done]. Qed.
Lemma node_head (n : RdfNamedOrBlankNode) :
  printable_node n -> exists c k, chars (Term_to_string (Term_from_node n)) = c :: k /\ (c = chr "<" \/ c = chr "_").
Proof.
  intros Hn. destruct n as [n|n]; cbn [Term_from_node Term_to_string].
  - rewrite (proj2 (named_node_text n Hn)). eauto.
  - rewrite (proj2 (blank_node_text n Hn)). change (cs "_:" ++ ?x) with (95 :: 58 :: x). eauto.
Qed.
Lemma Quad_from_to (q : RdfQuad) (tail : bytes) :
  printable_quad q -> tail = [] \/ tail = str " ." -> Quad_from_str (Quad_to_string q ++ tail) = Ok q.
Proof.
  intros [Ht Hg] Htail. unfold Quad_from_str, Quad_to_string.
  set (t := mkTriple (q_subject q) (q_predicate q) (q_object q)) in *.
  assert (chars tail = [] \/ chars tail = cs " .") as Hc by (destruct Htail as [-> | ->]; auto). clear Htail.
  change (NamedOrBlankNode_to_string (q_subject q) ++ _) with (Triple_to_string t).
  pose proof (proj1 (triple_chars t Ht)) as Htx. pose proof (tail_follows _ Hc) as Hf.
  destruct (decide (q_graph_name q = GraphDefault)) as [Eg|Eg].
  - rewrite Eg. cbn [GraphName_is_default_graph]. rewrite chars_app by done.
    destruct (read_triple_total t (chars tail) Ht Hf) as (r & -> & Hr). monad.
    rewrite (statement_end r (chars tail)) by done. destruct q as [s p o g]. simpl in *. by subst g.
  - replace (GraphName_is_default_graph (q_graph_name q)) with false by (by destruct (q_graph_name q)).
    destruct (graph_name_term _ Hg Eg) as (n & En & Hn%printable_from_node & ->). clear Hg.
    set (g := Term_from_node n) in *. pose proof (term_text g Hn) as Hgt.
    rewrite <- !app_assoc, !chars_app by solve_text. change (chars (str " ") ++ ?x) with (32 :: x).
    assert (follows (32 :: chars (Term_to_string g) ++ chars tail)) as Hf2.
    { destruct (node_head n) as (c & k & Ek & Hck); [by apply printable_from_node|]. unfold g. rewrite Ek. split; [|right; exists c; eexists; split; [done|]; by destruct Hck; auto].
      rewrite app_comm_cons, <- Ek. apply (solid_end_app [32]); [|by rewrite Ek].
      apply solid_end_app; [apply Hf|]. intros _. by apply term_solid. }
    destruct (read_triple_total t _ Ht Hf2) as (r & -> & Hr%trim_maybe). monad.
    rewrite term_space_head in Hr by (done || apply Hf).
    destruct (node_head n) as (c & k & Ek & Hck); [by apply printable_from_node|].
    assert (is_statement_end r = false) as ->.
    { unfold is_statement_end. rewrite Hr. unfold g. rewrite Ek. cbn [app].
      rewrite (bool_decide_eq_false_2 (c :: _ = [])) by done. rewrite bool_decide_eq_false_2; [done|]. intros [= E _]. rewrite E in Hck. by destruct Hck. }
    pose proof (read_term_print g (S (length r)) r 0 (chars tail) Hn Hf Hr) as K. unfold reads in K.
    replace (too_deep 0 g) with false in K by by destruct n. destruct K as (r2 & E2 & Hr2); [destruct n; simpl; lia|].
    unfold read_whole_term. rewrite E2. monad. rewrite (statement_end r2 (chars tail)) by done. cbn [negb].
    destruct q as [s p o gr]. cbn [q_graph_name] in En. subst gr. by destruct n.
Qed.

(** *** Named nodes, blank nodes, literals and variables *)

Lemma NamedNode_from_to (n : RdfNamedNode) : printable_named_node n -> NamedNode_from_str (NamedNode_to_string n) = Ok n.
Proof.
  intros Hn. unfold NamedNode_from_str. pose proof (term_trim (TermNamedNode n) [] Hn I) as E.
  cbn [Term_to_string] in E. rewrite app_nil_r in E at 1. by rewrite (read_named_node_print n _ [] Hn E).
Qed.
Lemma BlankNode_from_to (n : RdfBlankNode) : printable_blank_node n -> BlankNode_from_str (BlankNode_to_string n) = Ok n.
Proof.
  intros Hn. unfold BlankNode_from_str. pose proof (term_trim (TermBlankNode n) [] Hn I) as E.
  cbn [Term_to_string] in E. rewrite app_nil_r in E at 1. by rewrite (read_blank_node_print n _ [] Hn I E).
Qed.
Lemma Literal_from_to (l : RdfLiteral) : printable_literal l -> Literal_from_str (Literal_to_string l) = Ok l.
Proof.
  intros Hl. unfold Literal_from_str. pose proof (term_trim (TermLiteral l) [] Hl I) as E.
  cbn [Term_to_string] in E. rewrite app_nil_r in E at 1.
  destruct (read_literal_print l _ [] Hl follows_nil E) as (r & Hr & Hr'). cbn [Term_to_string] in Hr.
  rewrite Hr. by destruct Hr' as [-> | ->].
Qed.
Lemma Variable_from_to (name v : bytes) :
  utf8_valid name = true -> Variable_new name = Some v -> Variable_from_str (Variable_to_string v) = Ok v.
Proof.
  intros Hu%utf8_is_text. unfold Variable_new. destruct (validate_variable_identifier (chars name)) eqn:E; [|done]. intros [= <-].
  unfold Variable_from_str, Variable_to_string. change (chars (str "?" ++ name)) with (63 :: chars name). cbn [Z.eqb Pos.eqb orb].
  rewrite (proj1 (is_text_encode _ Hu)). unfold Variable_new. by rewrite E.
Qed.
End round_trip.
