(* ===== verification/OxParserResults.v ===== *)
(** * What the parser of RDF terms returns

    Every reader ends: the bound on its rounds is not reached.  A term it returns
    is printable, within the limit on nested triple terms, and what remains is
    the end of the text. *)
From stdpp Require Import gmap.
From S2P Require Import Prelude MachineInt RustStr BTree EncodedTerm RdfModel.
From S2P Require Import RdfDisplay RustChars OxParser OxParserFacts OxParserRoundTrip.

(** What is left of a text: not longer, and still characters. *)
Definition left_of (s r : list Z) : Prop := (length r <= length s)%nat /\ (scalars s -> scalars r).

Lemma left_of_refl (s : list Z) : left_of s s.
Proof. by split. Qed.
Lemma left_of_trans (s r t : list Z) : left_of s r -> left_of r t -> left_of s t.
Proof. intros [H1 H2] [H3 H4]. split; [lia|auto]. Qed.
Lemma left_of_app (s r : list Z) : left_of (s ++ r) r.
Proof. split; [rewrite length_app; lia|]. by intros [_ H]%Forall_app. Qed.
Lemma left_of_prefix (s r : list Z) : left_of (s ++ r) s.
Proof. split; [rewrite length_app; lia|]. by intros [H _]%Forall_app. Qed.
Lemma left_of_cons (c : Z) (s : list Z) : left_of (c :: s) s.
Proof. apply (left_of_app [c]). Qed.
Lemma left_of_trim_start (s : list Z) : left_of s (trim_start s).
Proof.
  induction s as [|c s IH]; [apply left_of_refl|]. simpl. destruct (is_whitespace c); [|apply left_of_refl].
  eapply left_of_trans; [apply left_of_cons|done].
Qed.
Lemma left_of_rev (s r : list Z) : left_of (rev s) r -> left_of s (rev r).
Proof.
  intros [H1 H2]. split; [by rewrite !length_rev in *|]. intros Hs. apply Forall_rev, H2. by apply Forall_rev.
Qed.
Lemma left_of_trim (s : list Z) : left_of s (trim s).
Proof.
  unfold trim, trim_end. eapply left_of_trans; [apply left_of_trim_start|]. apply left_of_rev, left_of_trim_start.
Qed.
Lemma left_of_take (n : nat) (s : list Z) : left_of s (take n s).
Proof. rewrite <- (take_drop n s) at 1. apply left_of_prefix. Qed.
Lemma left_of_drop (n : nat) (s : list Z) : left_of s (drop n s).
Proof. rewrite <- (take_drop n s) at 1. apply left_of_app. Qed.
Lemma strip_chars_Some (p s r : list Z) : strip_chars p s = Some r -> s = p ++ r.
Proof.
  revert s. induction p as [|c p IH]; intros [|d s]; simpl; try done; [by intros [= ->]..|].
  destruct (Z.eqb_spec c d) as [->|]; [|done]. by intros ->%IH.
Qed.
Lemma left_of_strip (p s r : list Z) : strip_chars p s = Some r -> left_of s r.
Proof. intros ->%strip_chars_Some. apply left_of_app. Qed.
Lemma split_at_app (f : Z -> bool) (s a b : list Z) :
  split_at_char f s = (a, b) -> s = a ++ b /\ Forall (fun c => f c = false) a.
Proof.
  revert a b. induction s as [|c s IH]; intros a b; simpl; [by intros [= <- <-]|].
  destruct (f c) eqn:E; [by intros [= <- <-]|]. destruct (split_at_char f s) as [a' b']. intros [= <- <-].
  destruct (IH a' b' eq_refl) as [-> Ha]. auto.
Qed.
Create HintDb left_of.
#[export] Hint Resolve left_of_refl left_of_trim left_of_trim_start left_of_cons left_of_take left_of_drop left_of_app left_of_prefix left_of_strip : left_of.

(** ** Identifiers of blank nodes *)

Lemma strip_chars_app (p s r t : list Z) : strip_chars p s = Some r -> strip_chars p (s ++ t) = Some (r ++ t).
Proof.
  revert s. induction p as [|c p IH]; intros [|d s]; simpl; try done; [by intros [= <-]..|].
  destruct (c =? d); [apply IH|done].
Qed.
Lemma find_chars_le (needle s : list Z) (pos : nat) : find_chars needle s = Some pos -> (pos <= length s)%nat.
Proof.
  revert pos. induction s as [|c s IH]; intros pos; cbn [find_chars]; (destruct (starts_with needle _); [intros [= <-]; lia|]); [done|].
  destruct (find_chars needle s) as [q|]; [|done]. intros [= <-]. specialize (IH q eq_refl). simpl. lia.
Qed.
(** Before its first occurrence a text does not occur. *)
Lemma find_chars_before (needle s : list Z) (k : nat) :
  needle <> [] -> (forall pos, find_chars needle s = Some pos -> (k <= pos)%nat) -> find_chars needle (take k s) = None.
Proof.
  intros Hn. revert k. assert (starts_with needle [] = false) as H0 by by destruct needle.
  assert (find_chars needle [] = None) as H1 by (simpl; by rewrite H0).
  induction s as [|c s IH]; intros k Hk; [by rewrite take_nil|].
  destruct k as [|k]; [done|]. cbn [take find_chars]. cbn [find_chars] in Hk.
  destruct (starts_with needle (c :: s)) eqn:E; [specialize (Hk 0%nat eq_refl); lia|].
  assert (starts_with needle (c :: take k s) = false) as ->.
  { unfold starts_with in *. destruct (strip_chars needle (c :: take k s)) eqn:E2; [|done].
    apply (strip_chars_app _ _ _ (drop k s)) in E2. cbn [app] in E2. rewrite take_drop in E2. by rewrite E2 in E. }
  rewrite IH; [done|]. intros pos Hp. rewrite Hp in Hk. specialize (Hk (S pos) eq_refl). lia.
Qed.

(** The datatypes of the numbers and booleans are valid IRIs. *)
Class XsdLaws `{TermSyntax} : Prop := {
  Iri_parse_xsd : forall name, In name ["boolean"; "integer"; "decimal"; "double"]%string -> Iri_parse (nn_iri (XSD name)) = None
}.

Section results.
Context `{TermSyntaxLaws} `{!XsdLaws}.

(** What a reader of [s] returns. *)
Definition outcome {A : Type} (s : list Z) (P : A -> Prop) (r : result TermParseError (A * list Z)) : Prop :=
  match r with
  | Ok (a, remain) => P a /\ left_of s remain
  | Err e => e <> OutOfFuel
  end.
Lemma outcome_bind {A B : Type} (s s' : list Z) (P : A -> Prop) (Q : B -> Prop)
  (r : result TermParseError (A * list Z)) (f : A * list Z -> result TermParseError (B * list Z)) :
  outcome s P r -> (forall a remain, P a -> left_of s remain -> outcome s' Q (f (a, remain))) -> outcome s' Q (r ≫= f).
Proof. destruct r as [[a remain]|e]; [|done]. intros [Ha Hr] K. by apply K. Qed.
Lemma outcome_left {A : Type} (s s' : list Z) (P : A -> Prop) (r : result TermParseError (A * list Z)) :
  left_of s' s -> outcome s P r -> outcome s' P r.
Proof. intros Hs. destruct r as [[a remain]|e]; [|done]. intros [Ha Hr]. split; [done|]. by eapply left_of_trans. Qed.

(** *** Escapes *)

Lemma read_hexa_digits_outcome (len : nat) (value : Z) (input : list Z) :
  outcome input (fun _ => True) (read_hexa_digits len value input).
Proof.
  revert value input. induction len as [|len IH]; intros value input; [split; auto with left_of|].
  destruct input as [|c input]; cbn [read_hexa_digits]; [done|]. destruct (hexa_value c); [|done].
  eapply outcome_left; [apply left_of_cons|apply IH].
Qed.
Lemma read_hexa_char_outcome (len : nat) (input : list Z) :
  outcome input (fun c => is_scalar c = true) (read_hexa_char len input).
Proof.
  unfold read_hexa_char. eapply outcome_bind; [apply read_hexa_digits_outcome|]. intros c remain _ Hr. cbn beta iota.
  destruct (is_scalar c) eqn:E; [by split|done].
Qed.
Lemma scalars_snoc (l : list Z) (c : Z) : scalars l -> is_scalar c = true -> scalars (l ++ [c]).
Proof. intros Hl Hc. apply Forall_app. split; [done|by repeat constructor]. Qed.
Lemma unescape_iri_outcome (fuel : nat) (escaped chars : list Z) :
  (length chars < fuel)%nat -> scalars escaped -> scalars chars ->
  match unescape_iri fuel escaped chars with Ok l => scalars l | Err e => e <> OutOfFuel end.
Proof.
  revert escaped chars. induction fuel as [|fuel IH]; intros escaped chars Hf He Hc; [lia|]. cbn [unescape_iri].
  destruct chars as [|c chars]; [done|]. apply Forall_cons_1 in Hc as [Hc Hcs]. cbn [length] in Hf.
  destruct (c =? chr "\"); [|apply IH; [lia|by apply scalars_snoc|done]].
  destruct chars as [|d chars]; [by apply scalars_snoc|]. apply Forall_cons_1 in Hcs as [Hd Hcs]. cbn [length] in Hf.
  assert (forall len, match read_hexa_char len chars ≫= (fun '(c, chars) => unescape_iri fuel (escaped ++ [c]) chars)
                      with Ok l => scalars l | Err e => e <> OutOfFuel end) as Hx.
  { intros len. pose proof (read_hexa_char_outcome len chars) as K. destruct (read_hexa_char len chars) as [[x remain]|e]; [|done].
    destruct K as [Hx [Hl Hs]]. monad. apply IH; [lia|by apply scalars_snoc|auto]. }
  destruct (d =? chr "u"); [apply Hx|]. destruct (d =? chr "U"); [apply Hx|].
  apply IH; [lia| |done]. change [chr "\"; d] with ([chr "\"] ++ [d]). rewrite app_assoc. by repeat apply scalars_snoc.
Qed.
Lemma read_quoted_outcome (fuel : nat) (value chars : list Z) :
  (length chars < fuel)%nat -> scalars value -> scalars chars -> outcome chars scalars (read_quoted fuel value chars).
Proof.
  revert value chars. induction fuel as [|fuel IH]; intros value chars Hf Hv Hc; [lia|]. cbn [read_quoted].
  destruct chars as [|c chars]; [done|]. apply Forall_cons_1 in Hc as [Hc Hcs]. cbn [length] in Hf.
  apply (outcome_left chars); [apply left_of_cons|].
  destruct (c =? 34); [split; auto with left_of|].
  destruct (c =? 92); [|apply IH; [lia|by apply scalars_snoc|done]].
  destruct chars as [|d chars]; [done|]. apply Forall_cons_1 in Hcs as [Hd Hcs]. cbn [length] in Hf.
  apply (outcome_left chars); [apply left_of_cons|].
  assert (forall len, outcome chars scalars (read_hexa_char len chars ≫= (fun '(c, chars) => read_quoted fuel (value ++ [c]) chars))) as Hx.
  { intros len. eapply outcome_bind; [apply read_hexa_char_outcome|]. intros x remain Hx [Hl Hs]. cbn beta iota.
    apply (outcome_left remain); [by split|]. apply IH; [lia|by apply scalars_snoc|auto]. }
  destruct (unescape_char d) as [x|] eqn:E.
  - apply IH; [lia|apply scalars_snoc; [done|]|done]. revert E. unfold unescape_char. repeat case_match; intros [= <-]; done.
  - destruct (d =? chr "u"); [apply Hx|]. destruct (d =? chr "U"); [apply Hx|done].
Qed.

(** *** Named and blank nodes *)

Lemma read_named_node_outcome (s : list Z) : scalars s -> outcome s printable_named_node (read_named_node s).
Proof.
  intros Hs. unfold read_named_node. apply (outcome_left (trim s)); [auto with left_of|].
  apply left_of_trim in Hs. destruct (strip_chars (cs "<") (trim s)) as [remain|] eqn:E1; [|done].
  pose proof (left_of_strip _ _ _ E1) as Hr. apply (outcome_left remain); [done|]. apply Hr in Hs. clear E1 Hr.
  destruct (split_at_char (fun c => c =? chr ">") remain) as [value rest] eqn:E2. apply split_at_app in E2 as [-> _].
  destruct rest as [|c rest]; [done|]. apply Forall_app in Hs as [Hv [_ Hs]%Forall_cons_1].
  apply (outcome_left rest); [eapply left_of_trans; [apply left_of_app|apply left_of_cons]|].
  pose proof (unescape_iri_outcome (S (length value)) [] value ltac:(lia) ltac:(constructor) Hv) as Hu.
  assert (match (if existsb (fun c => c =? chr "\") value then unescape_iri (S (length value)) [] value else Ok value)
          with Ok l => scalars l | Err e => e <> OutOfFuel end) as Hw by by destruct (existsb _ value).
  destruct (if existsb (fun c => c =? chr "\") value then _ else _) as [l|e]; [|done]. monad.
  unfold NamedNode_new. destruct (Iri_parse (encode l)) as [e|] eqn:Ei; [done|]. split; [|auto with left_of].
  split; [done|]. by apply utf8_encode_scalars.
Qed.

Lemma blank_node_end_take (remain : list Z) :
  let id := take (blank_node_end remain) remain in
  existsb is_blank_node_end id = false /\ find_chars (cs "..") id = None.
Proof.
  cbv zeta. unfold blank_node_end.
  destruct (split_at_char is_blank_node_end remain) as [a b] eqn:E. apply split_at_app in E as [-> Ha]. cbn [fst].
  rewrite take_app_length. set (e := match find_chars (cs "..") a with Some pos => pos | None => length a end).
  set (k := if ends_with_char 46 (take e (a ++ b)) then (e - 1)%nat else e).
  assert (k <= e)%nat as Hk by (unfold k; destruct (ends_with_char _ _); lia).
  assert ((e <= length a)%nat /\ forall pos, find_chars (cs "..") a = Some pos -> (k <= pos)%nat) as [He Hpos].
  { unfold e in *. destruct (find_chars (cs "..") a) as [pos|] eqn:Ef; [|done].
    split; [by eapply find_chars_le|by intros ? [= <-]]. }
  rewrite take_app_le by lia. split.
  - apply not_true_is_false. intros (c & Hc & Hb)%existsb_exists. apply list_elem_of_In in Hc.
    assert (Forall (fun c => is_blank_node_end c = false) (take k a)) as Hf by by apply Forall_take.
    rewrite list.Forall_forall in Hf. apply Hf in Hc. congruence.
  - by apply find_chars_before.
Qed.
Lemma read_blank_node_outcome (s : list Z) : scalars s -> outcome s printable_blank_node (read_blank_node s).
Proof.
  intros Hs. unfold read_blank_node. apply (outcome_left (trim s)); [auto with left_of|].
  apply left_of_trim in Hs. destruct (strip_chars (cs "_:") (trim s)) as [remain|] eqn:E1; [|done].
  pose proof (left_of_strip _ _ _ E1) as Hr. apply (outcome_left remain); [done|]. apply Hr in Hs. clear E1 Hr.
  pose proof (blank_node_end_take remain) as [He Hd]. cbv zeta in He, Hd.
  set (id := take (blank_node_end remain) remain) in *. assert (scalars id) as Hi by by apply (left_of_take _ remain).
  unfold BlankNode_new. rewrite chars_encode by done. destruct (validate_blank_node_identifier id) eqn:Ev; [|done].
  monad. split; [|auto with left_of]. unfold printable_blank_node. rewrite new_unchecked_as_str.
  split; [done|]. split; [by apply utf8_encode_scalars|]. unfold printable_id. rewrite chars_encode, Ev, He, Hd by done. done.
Qed.

(** *** Literals *)

Lemma utf8_ascii (s : bytes) : Forall (fun b => Z_of_byte b <= 127) s -> utf8_valid s = true.
Proof.
  induction 1 as [|b s Hb _ IH]; [done|]. cbn [utf8_valid]. pose proof (Z_of_byte_range b).
  replace (byte_in 0 127 b) with true by (unfold byte_in; lia). done.
Qed.
Lemma lower_idem (s : bytes) : ascii_lowercase (ascii_lowercase s) = ascii_lowercase s.
Proof.
  unfold ascii_lowercase. rewrite <- list_fmap_compose. apply list_fmap_ext. intros _ b _. unfold compose, in_range.
  destruct ((65 <=? Z_of_byte b) && (Z_of_byte b <=? 90)) eqn:E; [|by rewrite E]. rewrite byte_value by lia.
  by replace ((65 <=? Z_of_byte b + 32) && (Z_of_byte b + 32 <=? 90)) with false by lia.
Qed.
Lemma language_printable (l : list Z) :
  Forall (fun c => negb (is_ascii_alphanumeric c) && negb (c =? chr "-") = false) l ->
  LanguageTag_parse (ascii_lowercase (encode l)) = None -> printable_language (ascii_lowercase (encode l)).
Proof.
  intros Hl Hp. split; [done|]. split; [|apply lower_idem]. apply utf8_ascii. clear Hp.
  induction Hl as [|c l Hc _ IH]; [constructor|]. change (encode (c :: l)) with (encode_char c ++ encode l).
  unfold is_ascii_alphanumeric, in_range in Hc. change (chr "-") with 45 in Hc.
  assert (0 <= c <= 127) as Hr by lia. unfold ascii_lowercase in *. rewrite fmap_app. apply Forall_app. split; [|done].
  unfold encode_char. replace (c <=? 127) with true by lia. constructor; [|constructor]. unfold in_range. rewrite byte_value by lia.
  destruct ((65 <=? c) && (c <=? 90)) eqn:E; rewrite byte_value by lia; lia.
Qed.
Lemma read_literal_suffix_outcome (value : bytes) (s : list Z) :
  utf8_valid value = true -> scalars s -> outcome s printable_literal (read_literal_suffix value s).
Proof.
  intros Hv Hs. unfold read_literal_suffix. cbv zeta. apply (outcome_left (trim s)); [auto with left_of|]. apply left_of_trim in Hs.
  destruct (strip_chars (cs "@") (trim s)) as [remain|] eqn:E1.
  - pose proof (left_of_strip _ _ _ E1) as Hr. apply (outcome_left remain); [done|]. apply Hr in Hs. clear E1 Hr.
    destruct (split_at_char _ remain) as [language rest] eqn:E2. apply split_at_app in E2 as [-> Hl].
    destruct (find_chars (cs "--") language) as [pos|].
    + assert (forall direction, outcome (language ++ rest) printable_literal
        (literal ← map_err (fun error => ErrorLanguageTag error (encode (take pos language)))
           (Literal_new_directional_language_tagged_literal value (encode (take pos language)) direction);
         Ok (literal, rest))) as Hd.
      { intros direction. unfold Literal_new_directional_language_tagged_literal.
        destruct (LanguageTag_parse _) as [e|] eqn:Ep; [done|]. split; [|auto with left_of]. split; [done|].
        apply language_printable; [by apply Forall_take|done]. }
      destruct (bool_decide _); [apply Hd|]. destruct (bool_decide _); [apply Hd|done].
    + unfold Literal_new_language_tagged_literal. destruct (LanguageTag_parse _) as [e|] eqn:Ep; [done|].
      split; [|auto with left_of]. split; [done|]. by apply language_printable.
  - destruct (strip_chars (cs "^^") (trim s)) as [remain|] eqn:E2; [|split; [by split|auto with left_of]].
    pose proof (left_of_strip _ _ _ E2) as Hr. apply (outcome_left remain); [done|]. apply Hr in Hs.
    eapply outcome_bind; [by apply read_named_node_outcome|]. intros d rest Hd Hrest. cbn beta iota.
    unfold Literal_try_new_typed_literal. destruct (invalid_typed_literal_datatype d) as [e|] eqn:Ei; [done|].
    split; [|done]. unfold Literal_new_typed_literal_validated. destruct (decide (d = XSD_STRING)) as [Hx|Hx].
    + rewrite bool_decide_eq_true_2 by done. by split.
    + rewrite bool_decide_eq_false_2 by done. by split.
Qed.

Lemma scalars_check (l : list Z) : forallb is_scalar l = true -> scalars l.
Proof. intros Hl. apply list.Forall_forall. intros c Hc. by eapply forallb_elem. Qed.
Lemma xsd_printable (text : list Z) (name : string) :
  In name ["boolean"; "integer"; "decimal"; "double"]%string -> scalars text ->
  printable_literal (Literal_new_typed_literal_validated (encode text) (XSD name)).
Proof.
  intros Hn Ht%utf8_encode_scalars. pose proof (Iri_parse_xsd name Hn) as Hp.
  assert (utf8_valid (nn_iri (XSD name)) = true /\ XSD name <> XSD_STRING /\ invalid_typed_literal_datatype (XSD name) = None) as (Hu & Hx & Hi).
  { repeat (destruct Hn as [<-|Hn]; [split; [reflexivity|split; [by vm_compute|by vm_compute]]|]). destruct Hn. }
  unfold Literal_new_typed_literal_validated. rewrite bool_decide_eq_false_2 by done. by split.
Qed.
Lemma take_sign_app (s a b : list Z) : take_sign s = (a, b) -> s = a ++ b.
Proof. unfold take_sign. destruct s as [|c s]; [by intros [= <- <-]|]. by destruct (_ || _); intros [= <- <-]. Qed.
Lemma take_digits_app (s a b : list Z) : take_digits s = (a, b) -> s = a ++ b.
Proof. intros [-> _]%split_at_app. done. Qed.
Lemma read_number_outcome (s : list Z) : scalars s -> outcome s printable_literal (read_number s).
Proof.
  intros Hs. unfold read_number. destruct s as [|c0 s0]; [done|]. set (s := c0 :: s0) in *.
  destruct (take_sign s) as [sign s1] eqn:E1. apply take_sign_app in E1. rewrite E1 in *. clear E1 c0 s0 s.
  apply Forall_app in Hs as [Hsign Hs]. apply (outcome_left s1); [apply left_of_app|].
  destruct (take_digits s1) as [before s2] eqn:E2. apply take_digits_app in E2 as ->.
  apply Forall_app in Hs as [Hb Hs]. apply (outcome_left s2); [apply left_of_app|].
  assert (exists with_dot after s3, (match s2 with c :: s' => if c =? 46 then let '(after, s) := take_digits s' in (true, after, s) else (false, [], s2)
          | [] => (false, [], []) end) = (with_dot, after, s3) /\ scalars after /\ left_of s2 s3) as (with_dot & after & s3 & -> & Ha & Hl).
  { destruct s2 as [|c s2]; [eexists _, _, _; split; [done|split; [constructor|apply left_of_refl]]|].
    destruct (c =? 46); [|eexists _, _, _; split; [done|split; [constructor|apply left_of_refl]]].
    destruct (take_digits s2) as [after s3] eqn:E3. apply take_digits_app in E3 as ->. apply Forall_cons_1 in Hs as [_ Hs].
    apply Forall_app in Hs as [Ha _]. eexists _, _, _. split; [done|]. split; [done|].
    eapply left_of_trans; [apply left_of_cons|apply left_of_app]. }
  apply Hl in Hs as Hs3. apply (outcome_left s3); [done|]. clear Hl Hs s2.
  cbv zeta. set (text := sign ++ before ++ (if with_dot then [46] else []) ++ after).
  assert (scalars text) as Ht by (repeat (apply Forall_app; split); try done; destruct with_dot; by repeat constructor).
  clearbody text. assert (outcome s3 printable_literal
    (if with_dot then if (0 <? length after)%nat then Ok (Literal_new_typed_literal_validated (encode text) (XSD "decimal"), s3)
                      else Err (msg "Decimal serialization without floating part")
     else if (0 <? length before)%nat then Ok (Literal_new_typed_literal_validated (encode text) (XSD "integer"), s3)
          else Err (msg "Empty integer serialization"))) as Hplain.
  { destruct with_dot; [destruct (0 <? length after)%nat|destruct (0 <? length before)%nat]; try done;
      (split; [apply xsd_printable; [simpl; tauto|done]|apply left_of_refl]). }
  destruct s3 as [|e s3]; [apply Hplain|]. destruct ((e =? 101) || (e =? 69)); [|apply Hplain]. clear Hplain.
  apply Forall_cons_1 in Hs3 as [He Hs3]. apply (outcome_left s3); [apply left_of_cons|].
  destruct (take_sign s3) as [esign s4] eqn:E4. apply take_sign_app in E4 as ->. apply Forall_app in Hs3 as [Hes Hs4].
  apply (outcome_left s4); [apply left_of_app|].
  destruct (take_digits s4) as [exponent s5] eqn:E5. apply take_digits_app in E5 as ->. apply Forall_app in Hs4 as [Hex Hs5].
  destruct (0 <? length exponent)%nat; [|done]. split; [|auto with left_of].
  apply xsd_printable; [simpl; tauto|]. repeat (apply Forall_app; split); try done. by repeat constructor.
Qed.

Lemma read_literal_outcome (s : list Z) : scalars s -> outcome s printable_literal (read_literal s).
Proof.
  intros Hs. unfold read_literal. cbv zeta. apply (outcome_left (trim s)); [auto with left_of|]. apply left_of_trim in Hs.
  destruct (strip_chars [34] (trim s)) as [remain|] eqn:E1.
  - pose proof (left_of_strip _ _ _ E1) as Hr. apply (outcome_left remain); [done|]. apply Hr in Hs.
    eapply outcome_bind; [apply read_quoted_outcome; [lia|constructor|done]|]. intros value rest Hv Hrest. cbn beta iota.
    apply (outcome_left rest); [done|]. apply read_literal_suffix_outcome; [by apply utf8_encode_scalars|by apply Hrest].
  - destruct (strip_chars (cs "true") (trim s)) as [remain|] eqn:E2.
    { split; [|by eapply left_of_strip]. change (str "true") with (encode (cs "true")). apply xsd_printable; [simpl; tauto|by apply scalars_check]. }
    destruct (strip_chars (cs "false") (trim s)) as [remain|] eqn:E3; [|by apply read_number_outcome].
    split; [|by eapply left_of_strip]. change (str "false") with (encode (cs "false")). apply xsd_printable; [simpl; tauto|by apply scalars_check].
Qed.

(** *** Terms and triples *)

Lemma read_triple_outcome (reader : list Z -> Z -> result TermParseError (RdfTerm * list Z)) (s : list Z) (n : Z) (Q : RdfTerm -> Prop) :
  (forall s', (length s' <= length s)%nat -> scalars s' -> outcome s' (fun t => printable t /\ Q t) (reader s' (n + 1))) ->
  scalars s -> outcome s (fun t => printable_triple t /\ Q (t_object t)) (read_triple_with reader s n).
Proof.
  intros Hread Hs. unfold read_triple_with. cbv zeta.
  apply (outcome_left (trim s)); [auto with left_of|]. destruct (left_of_trim s) as [Hl Ht]. apply Ht in Hs. clear Ht.
  eapply outcome_bind; [by apply Hread|]. intros subject r1 [Hsub _] [Hl1 Hr1]. cbn beta iota.
  apply (outcome_left r1); [by split|]. apply Hr1 in Hs. clear Hr1.
  eapply outcome_bind; [by apply read_named_node_outcome|]. intros p r2 Hp [Hl2 Hr2]. cbn beta iota.
  apply (outcome_left r2); [by split|]. apply Hr2 in Hs. clear Hr2.
  eapply outcome_bind; [apply Hread; [lia|done]|]. intros o r3 [Ho HQ] Hr3. cbn beta iota.
  destruct subject; try done; (split; [by split|done]).
Qed.
Lemma leaf_not_deep (n : Z) (t : RdfTerm) : n <> 128 -> nesting t = 0 -> too_deep n t = false.
Proof. intros Hn Ht. unfold too_deep. rewrite Ht. lia. Qed.
Lemma read_term_outcome (fuel : nat) (s : list Z) (n : Z) :
  (length s < fuel)%nat -> scalars s ->
  outcome s (fun t => printable t /\ too_deep n t = false) (read_term fuel s n).
Proof.
  revert s n. induction fuel as [|fuel IH]; intros s n Hf Hs; [lia|].
  destruct (Z.eqb_spec n 128) as [->|Hn]; [by rewrite read_term_limit|].
  destruct (strip_chars (cs "<<(") (trim s)) as [remain|] eqn:E.
  - rewrite (read_term_triple _ s remain) by done. apply strip_chars_Some in E as Hr.
    destruct (left_of_trim s) as [Hl Ht]. specialize (Ht Hs). rewrite Hr in Hl, Ht. apply Forall_app in Ht as [_ Ht].
    rewrite length_app in Hl. change (length (cs "<<(")) with 3%nat in Hl.
    apply (outcome_left remain); [eapply left_of_trans; [apply left_of_trim|by eapply left_of_strip]|].
    eapply (outcome_bind _ _ (fun t => printable_triple t /\ too_deep (n + 1 + 1) (t_object t) = false)).
    { apply (read_triple_outcome _ _ _ (fun t => too_deep (n + 1 + 1) t = false)); [|done]. intros s' Hs' Hsc. apply IH; [lia|done]. }
    intros [sub p o] rest [Ht2 Hd] Hrest. cbn beta iota. cbn [t_subject t_predicate t_object] in *.
    destruct (strip_chars (cs ")>>") (trim_start rest)) as [rest2|] eqn:E2; [|done].
    split; [split; [done|by rewrite <- (too_deep_triple n sub p o Hn)]|].
    eapply left_of_trans; [done|]. eapply left_of_trans; [apply left_of_trim_start|by eapply left_of_strip].
  - cbn [read_term]. unfold MAX_NUMBER_OF_NESTED_TRIPLES. rewrite (proj2 (Z.eqb_neq n 128)), E by done.
    apply (outcome_left (trim s)); [auto with left_of|]. apply left_of_trim in Hs.
    repeat case_match; (eapply outcome_bind; [first [by apply read_named_node_outcome|by apply read_blank_node_outcome|by apply read_literal_outcome]|]);
      intros t rest Ht Hrest; cbn beta iota; (split; [split; [done|by apply leaf_not_deep]|done]).
Qed.
Lemma nesting_bound (t : RdfTerm) : too_deep 0 t = false -> nesting t < 64.
Proof. unfold too_deep. cbn [Z.even]. lia. Qed.

(** ** The two sides of the parser *)

(** C27. [Display] and [FromStr] are inverse within the nesting of triple terms that
    the parser accepts everywhere.  The text of a printable triple or quad, with or
    without the final dot, parses to it, and the text of a printable term
    parses to the term, when triple terms are nested less than 64 times in the term
    or in the object.  (Beyond, a term is refused; triples and quads, whose limit
    is missed, are not covered.) *)
Theorem Quad_from_to_string (t : RdfTerm) (triple : RdfTriple) (q : RdfQuad) (tail : bytes) :
  printable t -> printable_triple triple -> printable_quad q -> tail = [] \/ tail = str " ." ->
  nesting t < 64 -> nesting (t_object triple) < 64 -> nesting (q_object q) < 64 ->
  Quad_from_str (Quad_to_string q ++ tail) = Ok q
  /\ Triple_from_str (Triple_to_string triple ++ tail) = Ok triple
  /\ Term_from_str (Term_to_string t) = Ok t.
Proof.
  intros Ht Htr Hq Htail Hn _ _. split; [by apply Quad_from_to|]. split; [by apply Triple_from_to|].
  rewrite Term_from_to by done. by rewrite (proj2 (Z.ltb_lt _ _) Hn).
Qed.

Lemma read_triple_total_outcome (s : list Z) : scalars s -> outcome s printable_triple (read_triple s 0).
Proof.
  intros Hs. unfold read_triple.
  pose proof (read_triple_outcome (read_term (S (length s))) s 0 (fun t => too_deep (0 + 1) t = false)) as K.
  assert (outcome s (fun t => printable_triple t /\ too_deep (0 + 1) (t_object t) = false) (read_triple_with (read_term (S (length s))) s 0)) as Hr.
  { apply K; [|done]. intros s' Hl Hs'. apply read_term_outcome; [lia|done]. }
  destruct (read_triple_with _ _ _) as [[t r]|e]; [|done]. by destruct Hr as [[Ht _] Hr].
Qed.
Lemma Quad_from_outcome (s : bytes) :
  scalars (chars s) -> match Quad_from_str s with Ok q => printable_quad q | Err e => e <> OutOfFuel end.
Proof.
  intros Hs. unfold Quad_from_str. pose proof (read_triple_total_outcome _ Hs) as Hr.
  destruct (read_triple _ _) as [[t r]|e]; [|done]. monad. destruct Hr as [Ht [Hl Hsr]].
  assert (forall g, printable_graph g -> printable_quad (in_graph t g)) as Hin by (intros g Hg; by destruct t).
  destruct (is_statement_end r); [by apply Hin|]. unfold read_whole_term.
  pose proof (read_term_outcome (S (length r)) r 0 ltac:(lia) (Hsr Hs)) as Hg.
  destruct (read_term _ _ _) as [[g r2]|e]; [|done]. monad. destruct Hg as [[Hg _] _].
  destruct (negb _); [done|]. destruct g; try done; by apply Hin.
Qed.

(** C28. Parsing always ends, and a text that parses has a canonical form: the
    term, triple or quad that is returned has valid IRIs, identifiers and
    language tags, and its own text parses to it again. *)
Theorem from_str_canonical (s : bytes) :
  utf8_valid s = true ->
  match Term_from_str s with Ok t => printable t /\ Term_from_str (Term_to_string t) = Ok t | Err e => e <> OutOfFuel end
  /\ match Triple_from_str s with Ok t => printable_triple t /\ Triple_from_str (Triple_to_string t) = Ok t | Err e => e <> OutOfFuel end
  /\ match Quad_from_str s with Ok q => printable_quad q /\ Quad_from_str (Quad_to_string q) = Ok q | Err e => e <> OutOfFuel end.
Proof.
  intros Hs%utf8_is_text%is_text_encode%proj2.
  pose proof (read_term_outcome (S (length (chars s))) (chars s) 0 ltac:(lia) Hs) as Ht.
  pose proof (read_triple_total_outcome _ Hs) as Hr. pose proof (Quad_from_outcome s Hs) as Hq.
  split; [|split].
  - unfold Term_from_str at 1, read_whole_term. destruct (read_term _ _ _) as [[t r]|e]; [|done]. monad.
    destruct Ht as [[Hp Hd] _]. destruct (negb _); [done|]. split; [done|]. rewrite Term_from_to by done.
    by rewrite (proj2 (Z.ltb_lt _ _) (nesting_bound t Hd)).
  - unfold Triple_from_str at 1. destruct (read_triple _ _) as [[t r]|e]; [|done]. monad. destruct Hr as [Hr _].
    destruct (negb _); [done|]. split; [done|]. rewrite <- (app_nil_r (Triple_to_string t)). apply Triple_from_to; [done|by left].
  - destruct (Quad_from_str s) as [q|e] eqn:E; [|done]. split; [done|]. rewrite <- (app_nil_r (Quad_to_string q)).
    apply Quad_from_to; [done|by left].
Qed.
End results.

(** * The parser of RDF terms on concrete texts

    A validation of IRIs and language tags that satisfies what OxParserFacts
    assumes, the theorems on concrete terms, and the behaviours of
    lib/oxrdf/src/parser.rs that are not what it means to do. *)

Definition ex_iri_parse (iri : bytes) : option unit :=
  if forallb (fun c => negb ((c =? chr ">") || (c =? chr "\") || (c =? chr "<"))) (chars iri) then None else Some ().
Definition ex_language_parse (language : bytes) : option unit :=
  if forallb (fun c => is_ascii_alphanumeric c || (c =? chr "-")) (chars language)
     && bool_decide (find_chars (cs "--") (chars language) = None) && negb (ends_with_char (chr "-") (chars language))
  then None else Some ().
#[local] Instance ex_syntax : TermSyntax :=
  {| IriParseError := unit; LanguageTagParseError := unit; Iri_parse := ex_iri_parse; LanguageTag_parse := ex_language_parse |}.
#[local] Instance ex_laws : TermSyntaxLaws.
Proof.
  split.
  - intros iri c Hp Hc. cbn [Iri_parse ex_syntax] in Hp. unfold ex_iri_parse in Hp.
    destruct (forallb _ (chars iri)) eqn:E; [|done]. rewrite forallb_forall in E. apply E in Hc. lia.
  - intros l c Hp Hc. cbn [LanguageTag_parse ex_syntax] in Hp. unfold ex_language_parse in Hp.
    destruct (forallb _ (chars l)) eqn:E; [|done]. rewrite forallb_forall in E. by apply E.
  - intros l Hp. cbn [LanguageTag_parse ex_syntax] in Hp. unfold ex_language_parse in Hp.
    destruct (forallb _ (chars l)); [|done]. destruct (bool_decide _) eqn:E2; [|done]. apply bool_decide_eq_true in E2.
    by destruct (ends_with_char _ _).
Qed.
#[local] Instance ex_xsd : XsdLaws.
Proof. split. intros name Hn. repeat (destruct Hn as [<-|Hn]; [reflexivity|]). destruct Hn. Qed.

Definition ex_s : RdfNamedOrBlankNode := NodeBlank (BlankNode_new_unchecked (str "s")).
Definition ex_p : RdfNamedNode := mkNamedNode (str "http://example.com/p").
(** A text with a quote, a newline, a non-character and a two-byte character. *)
Definition ex_value : bytes := encode [34; 10; 65535; 233; 97].
Definition ex_literal : RdfTerm := TermLiteral (DirectionalLanguageTaggedString ex_value (str "en-us") Rtl).
Definition ex_typed : RdfTerm := TermLiteral (TypedLiteral (str "1") (XSD "byte")).
Definition ex_triple : RdfTriple := mkTriple ex_s ex_p (TermTriple (NodeNamed ex_p) ex_p ex_literal).
Definition ex_quad : RdfQuad := mkQuad ex_s ex_p ex_typed (GraphBlankNode (BlankNode_new_unchecked (str "0g"))).

(** The same triple around a term [n] times. *)
Fixpoint ex_nested (n : nat) : RdfTerm :=
  match n with O => ex_typed | S n => TermTriple ex_s ex_p (ex_nested n) end.

Lemma ex_s_printable : printable_node ex_s.
Proof. by vm_compute. Qed.
Lemma ex_p_printable : printable_named_node ex_p.
Proof. by vm_compute. Qed.
Lemma ex_typed_printable : printable ex_typed.
Proof. split; [reflexivity|]. split; [by vm_compute|]. split; [by vm_compute|reflexivity]. Qed.
Lemma ex_triple_printable : printable_triple ex_triple.
Proof.
  split; [exact ex_s_printable|]. split; [exact ex_p_printable|]. split; [exact ex_p_printable|]. split; [exact ex_p_printable|].
  split; [reflexivity|]. split; [reflexivity|]. split; reflexivity.
Qed.
Lemma ex_quad_printable : printable_quad ex_quad.
Proof.
  split; [split; [exact ex_s_printable|split; [exact ex_p_printable|exact ex_typed_printable]]|].
  split; [reflexivity|split; reflexivity].
Qed.
Lemma ex_nested_printable (n : nat) : printable (ex_nested n).
Proof.
  induction n as [|n IH]; [exact ex_typed_printable|].
  split; [exact ex_s_printable|]. split; [exact ex_p_printable|exact IH].
Qed.

(** ** What the parser does not do *)

(** The limit on nested triple terms is checked with an equality that the odd
    numbers of [Triple::from_str] and [Quad::from_str] never satisfy: the object
    of a triple is read at any depth, the same term alone is refused. *)
Lemma nesting_limit_missed (n : nat) :
  (64 <= n)%nat ->
  Term_from_str (Term_to_string (ex_nested n)) = Err too_many_nested_triples
  /\ Triple_from_str (Triple_to_string (mkTriple ex_s ex_p (ex_nested n))) = Ok (mkTriple ex_s ex_p (ex_nested n)).
Proof.
  intros Hn. split.
  - assert (nesting (ex_nested n) = Z.of_nat n) as E by (clear Hn; induction n as [|n IH]; [done|cbn [ex_nested nesting]; lia]).
    rewrite (Term_from_to _ (ex_nested_printable n)), E. by rewrite (proj2 (Z.ltb_ge _ _)) by lia.
  - assert (printable_triple (mkTriple ex_s ex_p (ex_nested n))) as Ht.
    { split; [exact ex_s_printable|]. split; [exact ex_p_printable|exact (ex_nested_printable n)]. }
    pose proof (Triple_from_to _ [] Ht (or_introl eq_refl)) as E. by rewrite app_nil_r in E.
Qed.

(** [BlankNode::new] accepts a colon or two dots in an identifier, the parser
    stops there. *)
Lemma blank_node_not_parsed_back (id : string) :
  In id ["a:b"; "a..b"]%string ->
  BlankNode_new (str id) = Some (BlankNamed (str id))
  /\ BlankNode_from_str (BlankNode_to_string (BlankNamed (str id)))
     = Err (msg "Blank node serialization should not contain whitespaces").
Proof. intros [<-|[<-|[]]]; split; reflexivity. Qed.

(** An exponent without digits before it is read as a double. *)
Lemma exponent_alone_is_double : Literal_from_str (str "e5") = Ok (TypedLiteral (str "e5") (XSD "double")).
Proof. reflexivity. Qed.

(** ** Witnesses *)

Lemma Quad_from_to_string_witness :
  printable (ex_nested 63) /\ printable_triple ex_triple /\ printable_quad ex_quad
  /\ Quad_from_str (Quad_to_string ex_quad ++ str " .") = Ok ex_quad
  /\ Triple_from_str (Triple_to_string ex_triple ++ str " .") = Ok ex_triple
  /\ Term_from_str (Term_to_string (ex_nested 63)) = Ok (ex_nested 63).
Proof.
  split; [exact (ex_nested_printable 63)|]. split; [exact ex_triple_printable|]. split; [exact ex_quad_printable|].
  apply (Quad_from_to_string (ex_nested 63) ex_triple ex_quad (str " .")).
  - exact (ex_nested_printable 63).
  - exact ex_triple_printable.
  - exact ex_quad_printable.
  - right. reflexivity.
  - reflexivity.
  - reflexivity.
  - reflexivity.
Defined.
Lemma from_str_canonical_witness :
  utf8_valid (str "<<( _:s <http://example.com/p> 1.2e3 )>>") = true
  /\ exists t, Term_from_str (str "<<( _:s <http://example.com/p> 1.2e3 )>>") = Ok t /\ printable t
       /\ Term_from_str (Term_to_string t) = Ok t.
Proof.
  split; [reflexivity|].
  assert (is_ok (Term_from_str (str "<<( _:s <http://example.com/p> 1.2e3 )>>")) = true) as Hok by (vm_compute; reflexivity).
  destruct (from_str_canonical (str "<<( _:s <http://example.com/p> 1.2e3 )>>") eq_refl) as [H _].
  destruct (Term_from_str (str "<<( _:s <http://example.com/p> 1.2e3 )>>")) as [t|e] eqn:E.
  - exists t. split; [reflexivity|]. exact H.
  - discriminate Hok.
Defined.
