(* ===== verification/DatalogIr.v ===== *)
(** * Datalog programs

    lib/oxdatalog/src/ir.rs: identifiers, ground values, patterns, atoms, facts,
    rules and programs.  The four identifier types are wrappers of a string;
    here they are its bytes ([VarName] is the type [Variable]). *)
From stdpp Require Import gmap.
From S2P Require Import Prelude MachineInt RustStr BTree RdfModel RdfDisplay.

(** ** Machine arithmetic of [usize] *)

Definition usize_max : Z := int_max U64.
Definition saturating_add (a b : Z) : Z := Z.min (a + b) usize_max.
Definition saturating_sub (a b : Z) : Z := Z.max (a - b) 0.
Definition saturating_mul (a b : Z) : Z := Z.min (a * b) usize_max.
Definition len {A : Type} (l : list A) : Z := Z.of_nat (length l).
(** [.map(f).fold(init, usize::saturating_add)] *)
Definition saturating_sum {A : Type} (f : A -> Z) (init : Z) (l : list A) : Z :=
  fold_left (fun acc x => saturating_add acc (f x)) l init.

(** ** Identifiers *)

Abbreviation RelationId := bytes (only parsing).
Abbreviation RuleId := bytes (only parsing).
Abbreviation VarName := bytes (only parsing).
Abbreviation BlankNodeGenerator := bytes (only parsing).

(** The second argument of the constructors is the kind of identifier. *)
Inductive IdentifierError : Set :=
| IdentifierEmpty (kind : bytes)
| IdentifierContainsNul (kind : bytes).

Definition identifier (value kind : bytes) : result IdentifierError bytes :=
  match value with
  | [] => Err (IdentifierEmpty kind)
  | _ =>
      if str_contains (byte_of_Z 0) value then Err (IdentifierContainsNul kind)
      else Ok value
  end.

Definition RelationId_new (value : bytes) : result IdentifierError RelationId :=
  identifier value (str "relation").
Definition RuleId_new (value : bytes) : result IdentifierError RuleId :=
  identifier value (str "rule").
Definition Variable_new (value : bytes) : result IdentifierError VarName :=
  identifier value (str "variable").
Definition BlankNodeGenerator_new (value : bytes) : result IdentifierError BlankNodeGenerator :=
  identifier value (str "blank-node generator").

(** ** Values *)

Inductive Value : Set :=
| VTerm (term : RdfTerm)
| VDefaultGraph.

#[global] Instance Value_eq_dec : EqDecision Value.
Proof. solve_decision. Defined.
#[global] Instance Value_countable : Countable Value.
Proof.
  apply (inj_countable' (fun v => match v with VTerm t => Some t | VDefaultGraph => None end)
    (fun o => match o with Some t => VTerm t | None => VDefaultGraph end)).
  by intros [].
Defined.

Definition as_term (v : Value) : option RdfTerm :=
  match v with VTerm t => Some t | VDefaultGraph => None end.
Definition Value_estimated_bytes (v : Value) : Z :=
  match v with VTerm t => len (Term_to_string t) | VDefaultGraph => 1 end.
Definition sort_key (v : Value) : bytes :=
  match v with
  | VTerm t => str "T" ++ print_nat (len (Term_to_string t)) ++ str ":" ++ Term_to_string t
  | VDefaultGraph => str "G"
  end.
Definition Value_to_string (v : Value) : bytes :=
  match v with VTerm t => Term_to_string t | VDefaultGraph => str "DEFAULT" end.

(** ** Patterns and atoms *)

Inductive PatternTerm : Set :=
| PVariable (variable : VarName)
| PConstant (value : Value)
| PGeneratedBlankNode (generator : BlankNodeGenerator).

#[global] Instance PatternTerm_eq_dec : EqDecision PatternTerm.
Proof. solve_decision. Defined.

Definition PatternTerm_variable (value : bytes) : result IdentifierError PatternTerm :=
  v ← Variable_new value; mret (PVariable v).
Definition PatternTerm_constant (value : Value) : PatternTerm := PConstant value.
Definition PatternTerm_generated_blank_node (value : bytes) : result IdentifierError PatternTerm :=
  g ← BlankNodeGenerator_new value; mret (PGeneratedBlankNode g).

Record Atom : Set := mkAtom {
  a_relation : RelationId;
  a_terms : list PatternTerm
}.
Definition Atom_arity (a : Atom) : Z := len (a_terms a).

#[global] Instance Atom_eq_dec : EqDecision Atom.
Proof. solve_decision. Defined.

(** ** Facts *)

Record Fact : Set := mkFact {
  f_relation : RelationId;
  f_values : list Value
}.
Definition Fact_arity (f : Fact) : Z := len (f_values f).

#[global] Instance Fact_eq_dec : EqDecision Fact.
Proof. solve_decision. Defined.
#[global] Instance Fact_countable : Countable Fact.
Proof.
  apply (inj_countable' (fun f => (f_relation f, f_values f)) (fun p => mkFact p.1 p.2)). by intros [].
Defined.

(** The loop of [Fact::canonical_key]: each value with its length. *)
Fixpoint delimited_values (values : list Value) : bytes :=
  match values with
  | [] => []
  | value :: values =>
      let key := sort_key value in
      print_nat (len key) ++ str ":" ++ key ++ str "|" ++ delimited_values values
  end.
Definition Fact_canonical_key (f : Fact) : bytes :=
  print_nat (len (f_relation f)) ++ str ":" ++ f_relation f ++ str "|" ++ delimited_values (f_values f).

(** ** Rules and programs *)

Record Rule : Set := mkRule {
  r_id : RuleId;
  r_source : option bytes;
  r_head : Atom;
  r_positive_body : list Atom;
  r_negative_body : list Atom;
  r_run_once : bool
}.

Definition Rule_new (id : RuleId) (head : Atom) (body : list Atom) : Rule :=
  mkRule id None head body [] false.
Definition Rule_new_stratified (id : RuleId) (head : Atom) (positive_body negative_body : list Atom) : Rule :=
  mkRule id None head positive_body negative_body false.
Definition with_source (r : Rule) (source : bytes) : Rule :=
  mkRule (r_id r) (Some source) (r_head r) (r_positive_body r) (r_negative_body r) (r_run_once r).
Definition run_once (r : Rule) : Rule :=
  mkRule (r_id r) (r_source r) (r_head r) (r_positive_body r) (r_negative_body r) true.
Definition is_positive (r : Rule) : bool :=
  match r_negative_body r with [] => true | _ => false end.

Record Program : Set := mkProgram { p_rules : list Rule }.

(** The head, the positive and the negated atoms: [once(head).chain(body).chain(negative_body)]. *)
Definition rule_atoms (r : Rule) : list Atom := r_head r :: r_positive_body r ++ r_negative_body r.

(** The variables of an atom. *)
Definition term_variables (t : PatternTerm) : list VarName :=
  match t with PVariable v => [v] | _ => [] end.
Definition atom_variables (a : Atom) : list VarName := a_terms a ≫= term_variables.
Definition term_constants (t : PatternTerm) : list Value :=
  match t with PConstant v => [v] | _ => [] end.
Definition atom_constants (a : Atom) : list Value := a_terms a ≫= term_constants.
Definition is_generated (t : PatternTerm) : bool :=
  match t with PGeneratedBlankNode _ => true | _ => false end.
Definition atom_generates (a : Atom) : bool := existsb is_generated (a_terms a).

(** ** Lemmas *)

Lemma len_nonneg {A : Type} (l : list A) : 0 <= len l.
Proof. unfold len. lia. Qed.

#[global] Instance len_perm {A : Type} : Proper (Permutation ==> eq) (@len A).
Proof. intros l k H. unfold len. by rewrite H. Qed.

Lemma elem_of_atom_variables (a : Atom) (v : VarName) :
  v ∈ atom_variables a <-> PVariable v ∈ a_terms a.
Proof.
  unfold atom_variables. rewrite list_elem_of_bind. split.
  - intros ([w| |] & Hv & Ht); simpl in Hv; [|set_solver..]. apply list_elem_of_singleton in Hv as ->. done.
  - intros H. exists (PVariable v). split; [set_solver|done].
Qed.

Lemma elem_of_atom_constants (a : Atom) (v : Value) :
  v ∈ atom_constants a <-> PConstant v ∈ a_terms a.
Proof.
  unfold atom_constants. rewrite list_elem_of_bind. split.
  - intros ([|w|] & Hv & Ht); simpl in Hv; [set_solver| |set_solver].
    apply list_elem_of_singleton in Hv as ->. done.
  - intros H. exists (PConstant v). split; [set_solver|done].
Qed.

Lemma atom_generates_false (a : Atom) :
  atom_generates a = false <-> forall g, PGeneratedBlankNode g ∉ a_terms a.
Proof.
  unfold atom_generates. rewrite <- not_true_iff_false, existsb_exists. split.
  - intros H g Hg. apply H. exists (PGeneratedBlankNode g). by rewrite <- list_elem_of_In.
  - intros H (t & Ht & Hg). destruct t as [| |g]; try done. apply (H g). by apply list_elem_of_In.
Qed.
