(* ===== verification/StateResult.v ===== *)
(** * Fallible stateful computations

    The monad of the code that threads mutable state through [?]: a function from
    a state to an error or to a value with the next state.  [for_each] is a [for]
    loop that carries an accumulator; [holds] is the Hoare triple the proofs use:
    from every state that satisfies the invariant the computation ends in a
    state that satisfies it and in a value of the postcondition, or in an error
    of the error condition. *)
From S2P Require Import Prelude.

Definition ST (S E A : Type) : Type := S -> result E (A * S).

#[global] Instance ST_ret {S E : Type} : MRet (ST S E) := fun A a s => Ok (a, s).
#[global] Instance ST_bind {S E : Type} : MBind (ST S E) :=
  fun A B f m s => match m s with Ok (a, s') => f a s' | Err e => Err e end.

Section operations.
  Context {S E : Type}.

Definition throw {A : Type} (e : E) : ST S E A := fun _ => Err e.
Definition get : ST S E S := fun s => Ok (s, s).
Definition modify (f : S -> S) : ST S E unit := fun s => Ok (tt, f s).
(** A [Result] without effects. *)
Definition lift {A : Type} (r : result E A) : ST S E A :=
  fun s => match r with Ok a => Ok (a, s) | Err e => Err e end.

Fixpoint for_each {A X : Type} (f : A -> X -> ST S E A) (a : A) (xs : list X) : ST S E A :=
  match xs with
  | [] => mret a
  | x :: xs => a' ← f a x; for_each f a' xs
  end.

(** A [while] loop whose body continues with a new state or ends: at most
    [2 ^ depth] rounds. *)
Fixpoint while_loop {A R : Type} (depth : nat) (body : A -> ST S E (A + R)) (a : A) : ST S E (A + R) :=
  match depth with
  | O => body a
  | Datatypes.S depth =>
      r ← while_loop depth body a;
      match r with
      | inl a' => while_loop depth body a'
      | inr r => mret (inr r)
      end
  end.

Definition holds (I : S -> Prop) (F : E -> Prop) {A : Type} (m : ST S E A) (Q : A -> Prop) : Prop :=
  forall s, I s -> match m s with Ok (a, s') => I s' /\ Q a | Err e => F e end.

(** ** Rules *)

  Context (I : S -> Prop) (F : E -> Prop).

Lemma holds_ret {A : Type} (a : A) (Q : A -> Prop) : Q a -> holds I F (mret a) Q.
Proof. intros H s Hs. done. Qed.

Lemma holds_bind {A B : Type} (m : ST S E A) (f : A -> ST S E B) (P : A -> Prop) (Q : B -> Prop) :
  holds I F m P -> (forall a, P a -> holds I F (f a) Q) -> holds I F (m ≫= f) Q.
Proof.
  intros Hm Hf s Hs. unfold mbind, ST_bind. specialize (Hm s Hs).
  destruct (m s) as [[a s']|e]; [|done]. destruct Hm as [Hs' Ha]. by apply Hf.
Qed.

Lemma holds_conseq {A : Type} (m : ST S E A) (P Q : A -> Prop) :
  holds I F m P -> (forall a, P a -> Q a) -> holds I F m Q.
Proof.
  intros Hm HQ s Hs. specialize (Hm s Hs). destruct (m s) as [[a s']|e]; [|done]. destruct Hm. auto.
Qed.

Lemma holds_throw {A : Type} (e : E) (Q : A -> Prop) : F e -> holds I F (throw e) Q.
Proof. by intros H s Hs. Qed.

Lemma holds_modify (f : S -> S) (Q : unit -> Prop) :
  (forall s, I s -> I (f s)) -> Q tt -> holds I F (modify f) Q.
Proof. intros Hf HQ s Hs. split; [by apply Hf|done]. Qed.

Lemma holds_get (Q : S -> Prop) : (forall s, I s -> Q s) -> holds I F get Q.
Proof. intros HQ s Hs. split; [done|by apply HQ]. Qed.

Lemma holds_lift {A : Type} (r : result E A) (Q : A -> Prop) :
  match r with Ok a => Q a | Err e => F e end -> holds I F (lift r) Q.
Proof. intros HQ s Hs. unfold lift. by destruct r. Qed.

(** A loop: the invariant speaks of the elements done. *)
Lemma holds_for_each_from {A X : Type} (f : A -> X -> ST S E A) (Inv : list X -> A -> Prop)
  (pre xs : list X) (a : A) :
  (forall pre' x rest b, pre ++ xs = pre' ++ x :: rest -> Inv pre' b ->
     holds I F (f b x) (Inv (pre' ++ [x]))) ->
  Inv pre a -> holds I F (for_each f a xs) (Inv (pre ++ xs)).
Proof.
  revert pre a. induction xs as [|x xs IH]; intros pre a Hf Ha; simpl.
  - rewrite app_nil_r. by apply holds_ret.
  - eapply holds_bind; [by apply (Hf pre x xs)|]. intros b Hb.
    replace (pre ++ x :: xs) with ((pre ++ [x]) ++ xs) by by rewrite <- app_assoc.
    apply IH; [|exact Hb]. by rewrite <- app_assoc.
Qed.

Lemma holds_for_each {A X : Type} (f : A -> X -> ST S E A) (Inv : list X -> A -> Prop) (xs : list X) (a : A) :
  (forall pre x rest b, xs = pre ++ x :: rest -> Inv pre b -> holds I F (f b x) (Inv (pre ++ [x]))) ->
  Inv [] a -> holds I F (for_each f a xs) (Inv xs).
Proof. intros Hf Ha. by apply (holds_for_each_from f Inv [] xs a). Qed.

(** An invariant that does not mention the position. *)
Lemma holds_for_each_inv {A X : Type} (f : A -> X -> ST S E A) (Inv : A -> Prop) (xs : list X) (a : A) :
  (forall x b, x ∈ xs -> Inv b -> holds I F (f b x) Inv) -> Inv a -> holds I F (for_each f a xs) Inv.
Proof.
  intros Hf Ha. apply (holds_for_each f (fun _ => Inv)); [|done].
  intros pre x rest b -> Hb. apply Hf; [apply elem_of_app; right; constructor|done].
Qed.

(** A loop whose body decreases a measure ends before its bound. *)
Lemma holds_while_from {A R : Type} (depth : nat) (body : A -> ST S E (A + R)) (Inv : A -> Prop) (m : A -> Z)
  (Q : R -> Prop) (a : A) :
  (forall a, Inv a -> holds I F (body a)
     (fun r => match r with inl a' => Inv a' /\ 0 <= m a' < m a | inr r => Q r end)) ->
  Inv a ->
  holds I F (while_loop depth body a)
    (fun r => match r with
              | inl a' => Inv a' /\ m a' <= m a - 2 ^ Z.of_nat depth /\ 0 <= m a'
              | inr r => Q r
              end).
Proof.
  intros Hb. revert a. induction depth as [|depth IH]; intros a Ha; cbn [while_loop].
  - eapply holds_conseq; [by apply Hb|]. intros [a'|r]; [|done]. intros [H1 H2]. simpl. split; [done|lia].
  - eapply holds_bind; [by apply IH|]. intros [a1|r]; [|intros Hr; by apply holds_ret].
    intros (H1 & H2 & H3). eapply holds_conseq; [by apply IH|]. intros [a2|r]; [|done].
    intros (H4 & H5 & H6). rewrite Nat2Z.inj_succ, Z.pow_succ_r by lia. split; [done|lia].
Qed.

Lemma holds_while {A R : Type} (depth : nat) (body : A -> ST S E (A + R)) (Inv : A -> Prop) (m : A -> Z)
  (Q : R -> Prop) (a : A) :
  (forall a, Inv a -> holds I F (body a)
     (fun r => match r with inl a' => Inv a' /\ 0 <= m a' < m a | inr r => Q r end)) ->
  Inv a -> m a < 2 ^ Z.of_nat depth ->
  holds I F (while_loop depth body a) (fun r => match r with inl _ => False | inr r => Q r end).
Proof.
  intros Hb Ha Hm. eapply holds_conseq; [by apply (holds_while_from depth body Inv m Q a)|].
  intros [a'|r]; [|done]. lia.
Qed.

End operations.

Lemma for_each_cons {S E A X : Type} (f : A -> X -> ST S E A) (a : A) (x : X) (xs : list X) :
  for_each f a (x :: xs) = (f a x ≫= fun a' => for_each f a' xs).
Proof. done. Qed.

Lemma ST_bind_Ok {S E A B : Type} (m : ST S E A) (f : A -> ST S E B) (s s' : S) (b : B) :
  (m ≫= f) s = Ok (b, s') <-> exists a s1, m s = Ok (a, s1) /\ f a s1 = Ok (b, s').
Proof.
  unfold mbind, ST_bind. destruct (m s) as [[a s1]|e]; split; [intros; by exists a, s1| |done|];
    intros (a' & s1' & Hm & Hf); congruence.
Qed.
