(* ===== verification/DatalogValidate.v ===== *)
(** * Validation of Datalog programs

    lib/oxdatalog/src/validate.rs and validate/strata.rs: the structural limits,
    the dependency graph, variable safety, and the assignment of strata.  The
    closure [check_control] of [validate_with_control] is a stateful check that
    may fail. *)
From stdpp Require Import gmap.
From S2P Require Import Prelude MachineInt RustStr BTree RdfModel RdfDisplay DatalogIr.
From S2P Require Import StateResult.

Record ValidationLimits : Set := mkValidationLimits {
  vl_max_rules : Z;
  vl_max_atoms_per_rule : Z;
  vl_max_arity : Z;
  vl_max_identifier_bytes : Z;
  vl_max_source_bytes : Z;
  vl_max_term_bytes : Z
}.
Definition ValidationLimits_default : ValidationLimits :=
  mkValidationLimits 10000 256 64 1024 8192 (1024 * 1024).

Inductive ValidationError : Set :=
| RuleLimit (actual limit : Z)
| AtomLimit (rule : RuleId) (actual limit : Z)
| DuplicateRuleId (rule : RuleId)
| ArityMismatch (relation : RelationId) (expected actual : Z) (rule : RuleId)
| ArityLimit (relation : RelationId) (actual limit : Z)
| UnsafeHeadVariable (rule : RuleId) (variable : VarName)
| UnsafeNegativeVariable (rule : RuleId) (variable : VarName)
| UnstratifiableNegation (relation : RelationId)
| UnstratifiableClosedDependency (relation : RelationId)
| GeneratedTermOutsideHead (rule : RuleId) (generator : BlankNodeGenerator)
| GeneratedTermRequiresRunOnce (rule : RuleId) (generator : BlankNodeGenerator)
| IdentifierLimit (kind : bytes) (rule : RuleId) (actual limit : Z)
| SourceLimit (rule : RuleId) (actual limit : Z)
| TermLimit (rule : RuleId) (actual limit : Z).

#[global] Instance ValidationError_eq_dec : EqDecision ValidationError.
Proof. solve_decision. Defined.

(** ** The dependency graph *)

Record DependencyGraph : Set := mkDependencyGraph {
  positive_edges : gmap RelationId (gset RelationId);
  negative_edges : gmap RelationId (gset RelationId);
  closed_edges : gmap RelationId (gset RelationId)
}.
Definition DependencyGraph_default : DependencyGraph := mkDependencyGraph ∅ ∅ ∅.

(** [edges.get(relation).into_iter().flatten()] *)
Definition edge_targets (edges : gmap RelationId (gset RelationId)) (relation : RelationId)
  : list RelationId :=
  match edges !! relation with Some s => btree_elements s | None => [] end.
Definition positive_dependencies (g : DependencyGraph) := edge_targets (positive_edges g).
Definition negative_dependencies (g : DependencyGraph) := edge_targets (negative_edges g).
Definition closed_dependencies (g : DependencyGraph) := edge_targets (closed_edges g).
Definition relations (g : DependencyGraph) : list RelationId := btree_keys (positive_edges g).

(** [edges.entry(relation).or_default()] and the insertion of a target there. *)
Definition or_default (edges : gmap RelationId (gset RelationId)) (relation : RelationId)
  : gmap RelationId (gset RelationId) :=
  match edges !! relation with Some _ => edges | None => <[relation := ∅]> edges end.
Definition add_edge (edges : gmap RelationId (gset RelationId)) (head body : RelationId)
  : gmap RelationId (gset RelationId) :=
  <[head := {[body]} ∪ default ∅ (edges !! head)]> edges.

Definition ensure_relation (g : DependencyGraph) (relation : RelationId) : DependencyGraph :=
  mkDependencyGraph (or_default (positive_edges g) relation)
    (or_default (negative_edges g) relation) (or_default (closed_edges g) relation).
Definition add_positive (g : DependencyGraph) (head body : RelationId) : DependencyGraph :=
  let g := ensure_relation g body in
  mkDependencyGraph (add_edge (positive_edges g) head body) (negative_edges g) (closed_edges g).
Definition add_negative (g : DependencyGraph) (head body : RelationId) : DependencyGraph :=
  let g := ensure_relation g body in
  mkDependencyGraph (positive_edges g) (add_edge (negative_edges g) head body) (closed_edges g).
Definition add_closed (g : DependencyGraph) (head body : RelationId) : DependencyGraph :=
  let g := ensure_relation g body in
  mkDependencyGraph (positive_edges g) (negative_edges g) (add_edge (closed_edges g) head body).

(** ** Strata *)

Definition stratum_of (strata : gmap RelationId Z) (relation : RelationId) : Z :=
  default 0 (strata !! relation).
Definition closed_stratum (strata : gmap RelationId Z) (relation : RelationId) : Z :=
  saturating_add (stratum_of strata relation) 1.

(** The stratum the dependencies of one relation ask for. *)
Definition required_stratum (g : DependencyGraph) (strata : gmap RelationId Z) (relation : RelationId) : Z :=
  let required := fold_left (fun r d => Z.max r (stratum_of strata d)) (positive_dependencies g relation) 0 in
  let required := fold_left (fun r d => Z.max r (closed_stratum strata d)) (negative_dependencies g relation) required in
  fold_left (fun r d => Z.max r (closed_stratum strata d)) (closed_dependencies g relation) required.

Definition raise_stratum (g : DependencyGraph) (st : gmap RelationId Z * bool) (relation : RelationId)
  : gmap RelationId Z * bool :=
  let '(strata, changed) := st in
  let required := required_stratum g strata relation in
  if required >? stratum_of strata relation then (<[relation := required]> strata, true)
  else (strata, changed).
Definition strata_round (g : DependencyGraph) (strata : gmap RelationId Z) : gmap RelationId Z * bool :=
  fold_left (raise_stratum g) (relations g) (strata, false).

(** At most [rounds] rounds; [Some] when a round changed nothing. *)
Fixpoint strata_rounds (rounds : nat) (g : DependencyGraph) (strata : gmap RelationId Z)
  : option (gmap RelationId Z) :=
  match rounds with
  | O => None
  | S rounds =>
      let '(strata, changed) := strata_round g strata in
      if changed then strata_rounds rounds g strata else Some strata
  end.

Definition unstratifiable (g : DependencyGraph) (relation : RelationId) : ValidationError :=
  match closed_dependencies g relation with
  | _ :: _ => UnstratifiableClosedDependency relation
  | [] => UnstratifiableNegation relation
  end.

(** Every relation starts in stratum 0. *)
Definition initial_strata (g : DependencyGraph) : gmap RelationId Z := (fun _ => 0) <$> positive_edges g.

Definition compute_strata (g : DependencyGraph) : result ValidationError (gmap RelationId Z) :=
  let strata := initial_strata g in
  match strata_rounds (S (size strata)) g strata with
  | Some strata => Ok strata
  | None =>
      let relation :=
        match relations g with r :: _ => r | [] => str "urn:oxigraph:datalog:unknown" end in
      Err (unstratifiable g relation)
  end.

(** ** Validated programs *)

Record ValidatedProgram : Set := mkValidatedProgram {
  vp_rules : list Rule;
  vp_arities : gmap RelationId Z;
  vp_dependencies : DependencyGraph;
  vp_strata : gmap RelationId Z
}.
Definition vp_arity (p : ValidatedProgram) (relation : RelationId) : option Z := vp_arities p !! relation.
Definition stratum (p : ValidatedProgram) (relation : RelationId) : option Z := vp_strata p !! relation.
Definition max_stratum (p : ValidatedProgram) : Z := map_fold (fun _ s m => Z.max s m) 0 (vp_strata p).

(** ** The checks *)

Definition check_identifier (kind : bytes) (actual : Z) (rule : RuleId) (limit : Z)
  : result ValidationError unit :=
  if actual >? limit then Err (IdentifierLimit kind rule actual limit) else Ok tt.

Inductive ControlledValidationError (E : Type) : Type :=
| CVValidation (e : ValidationError)
| CVControl (e : E).
Arguments CVValidation {E} _.
Arguments CVControl {E} _.

(** The state of the loop over the rules. *)
Record ValidationState : Set := mkValidationState {
  vs_ids : gset RuleId;
  vs_arities : gmap RelationId Z;
  vs_dependencies : DependencyGraph
}.

Section validate.
  Context {S E : Type} (check_control : S -> result E S) (limits : ValidationLimits).

Abbreviation V := (ST S (ControlledValidationError E)).

Definition control : V unit :=
  fun s => match check_control s with Ok s' => Ok (tt, s') | Err e => Err (CVControl e) end.
Definition validation {A : Type} (r : result ValidationError A) : V A := lift (map_err CVValidation r).
Definition reject {A : Type} (e : ValidationError) : V A := throw (CVValidation e).

Definition check_term (rule : RuleId) (allow_generated : bool) (variables : gset VarName) (term : PatternTerm)
  : V (gset VarName) :=
  control;;
  match term with
  | PVariable variable =>
      validation (check_identifier (str "variable") (len variable) rule (vl_max_identifier_bytes limits));;
      mret ({[variable]} ∪ variables)
  | PConstant value =>
      let actual := Value_estimated_bytes value in
      if actual >? vl_max_term_bytes limits
      then reject (TermLimit rule actual (vl_max_term_bytes limits))
      else mret variables
  | PGeneratedBlankNode generator =>
      validation (check_identifier (str "blank-node generator") (len generator) rule
                    (vl_max_identifier_bytes limits));;
      if allow_generated then mret variables else reject (GeneratedTermOutsideHead rule generator)
  end.

(** Returns the arities and the variables it updates. *)
Definition check_atom (atom : Atom) (rule : RuleId) (arities : gmap RelationId Z) (variables : gset VarName)
  (allow_generated : bool) : V (gmap RelationId Z * gset VarName) :=
  control;;
  validation (check_identifier (str "relation") (len (a_relation atom)) rule (vl_max_identifier_bytes limits));;
  if Atom_arity atom >? vl_max_arity limits
  then reject (ArityLimit (a_relation atom) (Atom_arity atom) (vl_max_arity limits))
  else
    let previous := arities !! a_relation atom in
    let arities := <[a_relation atom := Atom_arity atom]> arities in
    match previous with
    | Some expected =>
        if expected =? Atom_arity atom then mret tt
        else reject (ArityMismatch (a_relation atom) expected (Atom_arity atom) rule)
    | None => mret tt
    end;;
    variables ← for_each (check_term rule allow_generated) variables (a_terms atom);
    mret (arities, variables).

(** The loop over the positive body: the state and the variables it binds. *)
Definition check_body_atom (rule : Rule) (st : gmap RelationId Z * DependencyGraph * gset VarName) (atom : Atom)
  : V (gmap RelationId Z * DependencyGraph * gset VarName) :=
  let '(arities, dependencies, body_variables) := st in
  checked ← check_atom atom (r_id rule) arities body_variables false;
  let '(arities, body_variables) := checked in
  let head := a_relation (r_head rule) in
  let dependencies := add_positive dependencies head (a_relation atom) in
  let dependencies := if r_run_once rule then add_closed dependencies head (a_relation atom) else dependencies in
  mret (arities, dependencies, body_variables).

(** The variables of [set], in order, that are not bound: the first is rejected. *)
Definition check_safe (set bound : gset VarName) (error : VarName -> ValidationError) : V unit :=
  for_each (fun (_ : unit) v => if decide (v ∈ bound) then mret tt else reject (error v)) tt (btree_elements set).

Definition check_negative_atom (rule : Rule) (body_variables : gset VarName)
  (st : gmap RelationId Z * DependencyGraph) (atom : Atom) : V (gmap RelationId Z * DependencyGraph) :=
  let '(arities, dependencies) := st in
  checked ← check_atom atom (r_id rule) arities ∅ false;
  let '(arities, negative_variables) := checked in
  check_safe negative_variables body_variables (UnsafeNegativeVariable (r_id rule));;
  mret (arities, add_negative dependencies (a_relation (r_head rule)) (a_relation atom)).

Definition check_head_term (rule : Rule) (u : unit) (term : PatternTerm) : V unit :=
  match term with
  | PGeneratedBlankNode generator =>
      if r_run_once rule then mret tt else reject (GeneratedTermRequiresRunOnce (r_id rule) generator)
  | _ => mret tt
  end.

Definition check_rule_limits (rule : Rule) (ids : gset RuleId) : V (gset RuleId) :=
  let atom_count :=
    saturating_add (saturating_add (len (r_positive_body rule)) (len (r_negative_body rule))) 1 in
  if atom_count >? vl_max_atoms_per_rule limits
  then reject (AtomLimit (r_id rule) atom_count (vl_max_atoms_per_rule limits))
  else if decide (r_id rule ∈ ids) then reject (DuplicateRuleId (r_id rule))
  else
    validation (check_identifier (str "rule") (len (r_id rule)) (r_id rule) (vl_max_identifier_bytes limits));;
    match r_source rule with
    | Some source =>
        if len source >? vl_max_source_bytes limits
        then reject (SourceLimit (r_id rule) (len source) (vl_max_source_bytes limits))
        else mret tt
    | None => mret tt
    end;;
    mret ({[r_id rule]} ∪ ids).

(** One round of the loop over the rules. *)
Definition check_rule (st : ValidationState) (rule : Rule) : V ValidationState :=
  control;;
  ids ← check_rule_limits rule (vs_ids st);
  body ← for_each (check_body_atom rule) (vs_arities st, vs_dependencies st, ∅) (r_positive_body rule);
  let '(arities, dependencies, body_variables) := body in
  negative ← for_each (check_negative_atom rule body_variables) (arities, dependencies) (r_negative_body rule);
  let '(arities, dependencies) := negative in
  let dependencies := ensure_relation dependencies (a_relation (r_head rule)) in
  head ← check_atom (r_head rule) (r_id rule) arities ∅ true;
  let '(arities, head_variables) := head in
  for_each (check_head_term rule) tt (a_terms (r_head rule));;
  check_safe head_variables body_variables (UnsafeHeadVariable (r_id rule));;
  mret (mkValidationState ids arities dependencies).

Definition validate_with_control (program : Program) : V ValidatedProgram :=
  control;;
  if len (p_rules program) >? vl_max_rules limits
  then reject (RuleLimit (len (p_rules program)) (vl_max_rules limits))
  else
    let rules := sort_by r_id (p_rules program) in
    control;;
    st ← for_each check_rule (mkValidationState ∅ ∅ DependencyGraph_default) rules;
    strata ← validation (compute_strata (vs_dependencies st));
    control;;
    mret (mkValidatedProgram rules (vs_arities st) (vs_dependencies st) strata).

End validate.

(** The check of [validate] never fails. *)
Definition validate (program : Program) (limits : ValidationLimits) : result ValidationError ValidatedProgram :=
  match validate_with_control (fun u : unit => @Ok Empty_set unit u) limits program tt with
  | Ok (validated, _) => Ok validated
  | Err (CVValidation error) => Err error
  | Err (CVControl never) => match never with end
  end.
