(* ===== verification/DatalogStrataFacts.v ===== *)
(** * The assignment of strata

    [compute_strata] finds the least stratification of a dependency graph
    whenever there is one, within its bound on the number of rounds: every round
    that does not settle a further relation would leave room for a smaller
    stratification. *)
From stdpp Require Import gmap.
From S2P Require Import Prelude MachineInt RustStr BTree RdfModel RdfDisplay DatalogIr.
From S2P Require Import StateResult DatalogValidate.

(** An assignment of [usize] strata that respects the edges of the graph. *)
Record stratifies (g : DependencyGraph) (S : RelationId -> Z) : Prop := {
  st_range : forall r, 0 <= S r <= usize_max;
  st_positive : forall r d, r ∈ relations g -> d ∈ positive_dependencies g r -> S d <= S r;
  st_negative : forall r d, r ∈ relations g -> d ∈ negative_dependencies g r -> S d < S r;
  st_closed : forall r d, r ∈ relations g -> d ∈ closed_dependencies g r -> S d < S r
}.

Definition below (strata strata' : gmap RelationId Z) : Prop :=
  forall r, stratum_of strata r <= stratum_of strata' r.

Lemma fold_max_le {A : Type} (f : A -> Z) (l : list A) (init v : Z) :
  fold_left (fun r d => Z.max r (f d)) l init <= v <-> init <= v /\ forall d, d ∈ l -> f d <= v.
Proof.
  revert init. induction l as [|x l IH]; intros init; simpl.
  - split; [intros; split; [done|]; intros d Hd; by apply elem_of_nil in Hd|by intros [? _]].
  - rewrite IH. split.
    + intros [H Hl]. split; [lia|]. intros d [->|Hd]%elem_of_cons; [lia|auto].
    + intros [H Hl]. split; [|intros; apply Hl; by right]. pose proof (Hl x ltac:(constructor)). lia.
Qed.

Lemma required_le (g : DependencyGraph) (strata : gmap RelationId Z) (r : RelationId) (v : Z) :
  required_stratum g strata r <= v <->
  0 <= v /\ (forall d, d ∈ positive_dependencies g r -> stratum_of strata d <= v) /\
  (forall d, d ∈ negative_dependencies g r -> closed_stratum strata d <= v) /\
  (forall d, d ∈ closed_dependencies g r -> closed_stratum strata d <= v).
Proof. unfold required_stratum. rewrite !fold_max_le. tauto. Qed.

Lemma closed_stratum_mono (s s' : gmap RelationId Z) (r : RelationId) :
  below s s' -> closed_stratum s r <= closed_stratum s' r.
Proof. intros H. unfold closed_stratum, saturating_add. specialize (H r). lia. Qed.

Lemma required_mono (g : DependencyGraph) (s s' : gmap RelationId Z) (r : RelationId) :
  below s s' -> required_stratum g s r <= required_stratum g s' r.
Proof.
  intros H. pose proof (proj1 (required_le g s' r _) (Z.le_refl _)) as (H0 & H1 & H2 & H3).
  apply required_le. split_and!; [done|..]; intros d Hd.
  - etrans; [apply H|auto].
  - etrans; [by apply closed_stratum_mono|auto].
  - etrans; [by apply closed_stratum_mono|auto].
Qed.

Lemma stratum_of_insert (s : gmap RelationId Z) (r q : RelationId) (v : Z) :
  stratum_of (<[r := v]> s) q = if decide (r = q) then v else stratum_of s q.
Proof.
  unfold stratum_of. destruct (decide (r = q)) as [->|]; [by rewrite lookup_insert_eq|by rewrite lookup_insert_ne].
Qed.

(** What one pass over a list of relations does. *)
Record pass (g : DependencyGraph) (l : list RelationId) (s s' : gmap RelationId Z) (c c' : bool) : Prop := {
  pass_below : below s s';
  pass_required : forall r, r ∈ l -> required_stratum g s r <= stratum_of s' r;
  pass_quiet : c' = false -> c = false /\ s' = s;
  pass_changed : c' = true -> c = true \/ exists r, r ∈ l /\ stratum_of s r < stratum_of s' r;
  pass_dom : (forall r, r ∈ l -> is_Some (s !! r)) -> forall r, is_Some (s' !! r) <-> is_Some (s !! r);
  pass_bound : forall b, 0 <= b -> (forall r, stratum_of s r <= b) -> forall r, stratum_of s' r <= b + len l;
  pass_least : forall S, stratifies g S -> (forall r, r ∈ l -> r ∈ relations g) ->
    (forall r, stratum_of s r <= S r) -> forall r, stratum_of s' r <= S r
}.

Lemma below_refl (s : gmap RelationId Z) : below s s.
Proof. intros r. lia. Qed.
Lemma below_trans (s1 s2 s3 : gmap RelationId Z) : below s1 s2 -> below s2 s3 -> below s1 s3.
Proof. intros H1 H2 r. specialize (H1 r). specialize (H2 r). lia. Qed.

Lemma required_least (g : DependencyGraph) (s : gmap RelationId Z) (S : RelationId -> Z) (r : RelationId) :
  stratifies g S -> r ∈ relations g -> (forall r, stratum_of s r <= S r) -> required_stratum g s r <= S r.
Proof.
  intros HS Hr Hs. apply required_le. split_and!; [apply (st_range g S HS)|..]; intros d Hd.
  - etrans; [apply Hs|]. by apply (st_positive g S HS).
  - unfold closed_stratum, saturating_add. pose proof (Hs d).
    pose proof (st_negative g S HS r d Hr Hd). lia.
  - unfold closed_stratum, saturating_add. pose proof (Hs d).
    pose proof (st_closed g S HS r d Hr Hd). lia.
Qed.

Lemma required_bound (g : DependencyGraph) (s : gmap RelationId Z) (r : RelationId) (b : Z) :
  0 <= b -> (forall r, stratum_of s r <= b) -> required_stratum g s r <= b + 1.
Proof.
  intros Hb Hs. apply required_le. split_and!; [lia|..]; intros d Hd; specialize (Hs d);
    unfold closed_stratum, saturating_add; lia.
Qed.

Lemma raise_pass (g : DependencyGraph) (s : gmap RelationId Z) (c : bool) (r : RelationId) :
  let '(s', c') := raise_stratum g (s, c) r in pass g [r] s s' c c'.
Proof.
  unfold raise_stratum. destruct (_ >? _) eqn:E; bool_to_prop.
  - assert (Hb : below s (<[r := required_stratum g s r]> s)).
    { intros q. rewrite stratum_of_insert. case_decide; subst; lia. }
    split; [done|..].
    + intros q ->%list_elem_of_singleton. rewrite stratum_of_insert, decide_True by done. lia.
    + done.
    + intros _. right. exists r. split; [by constructor|]. rewrite stratum_of_insert, decide_True by done. lia.
    + intros Hl q. rewrite lookup_insert_is_Some'. split; [|by right].
      intros [<-|?]; [apply Hl; by constructor|done].
    + intros b Hb0 Hs q. rewrite stratum_of_insert. pose proof (required_bound g s r b Hb0 Hs).
      specialize (Hs q). unfold len. simpl. case_decide; lia.
    + intros S HS Hl Hs q. rewrite stratum_of_insert. case_decide; [subst|done].
      apply required_least; [done|apply Hl; by constructor|done].
  - split; try done; [apply below_refl|..].
    + intros q ->%list_elem_of_singleton. lia.
    + by left.
    + intros b Hb Hs q. specialize (Hs q). pose proof (len_nonneg [r]). lia.
Qed.

Lemma pass_app (g : DependencyGraph) (l1 l2 : list RelationId) (s1 s2 s3 : gmap RelationId Z) (c1 c2 c3 : bool) :
  pass g l1 s1 s2 c1 c2 -> pass g l2 s2 s3 c2 c3 -> pass g (l1 ++ l2) s1 s3 c1 c3.
Proof.
  intros P1 P2. split.
  - eapply below_trans; [apply P1|apply P2].
  - intros r [Hr|Hr]%elem_of_app.
    + etrans; [apply (pass_required _ _ _ _ _ _ P1 r Hr)|]. apply P2.
    + etrans; [|apply (pass_required _ _ _ _ _ _ P2 r Hr)]. apply required_mono, P1.
  - intros H. apply P2 in H as [H ->]. apply P1 in H as [-> ->]. done.
  - intros H. apply (pass_changed _ _ _ _ _ _ P2) in H as [H|(r & Hr & Hlt)].
    + apply (pass_changed _ _ _ _ _ _ P1) in H as [->|(r & Hr & Hlt)]; [by left|]. right. exists r.
      pose proof (pass_below _ _ _ _ _ _ P2 r). split; [apply elem_of_app; by left|lia].
    + right. exists r. pose proof (pass_below _ _ _ _ _ _ P1 r). split; [apply elem_of_app; by right|lia].
  - intros Hl r. pose proof (pass_dom _ _ _ _ _ _ P1) as D1. pose proof (pass_dom _ _ _ _ _ _ P2) as D2.
    rewrite D2, D1; [done|..]; intros q Hq.
    + apply Hl, elem_of_app. by left.
    + apply D1; [|apply Hl, elem_of_app; by right]. intros. apply Hl, elem_of_app. by left.
  - intros b Hb Hs r. unfold len in *. rewrite length_app.
    pose proof (pass_bound _ _ _ _ _ _ P2 (b + len l1)) as H. unfold len in H.
    pose proof (H ltac:(lia) (pass_bound _ _ _ _ _ _ P1 b Hb Hs) r). lia.
  - intros S HS Hl Hs. apply (pass_least _ _ _ _ _ _ P2 S HS).
    + intros. apply Hl, elem_of_app. by right.
    + apply (pass_least _ _ _ _ _ _ P1 S HS); [|done]. intros. apply Hl, elem_of_app. by left.
Qed.

Lemma fold_pass (g : DependencyGraph) (l : list RelationId) (s : gmap RelationId Z) (c : bool) :
  let '(s', c') := fold_left (raise_stratum g) l (s, c) in pass g l s s' c c'.
Proof.
  revert s c. induction l as [|r l IH]; intros s c; cbn [fold_left].
  - split; try done; [apply below_refl|by intros r ?%elem_of_nil|by left|].
    intros b Hb Hs r. specialize (Hs r). unfold len. simpl. lia.
  - pose proof (raise_pass g s c r) as P1. destruct (raise_stratum g (s, c) r) as [s1 c1].
    specialize (IH s1 c1). destruct (fold_left _ l _) as [s2 c2]. change (r :: l) with ([r] ++ l).
    by eapply pass_app.
Qed.

Lemma round_pass (g : DependencyGraph) (s : gmap RelationId Z) :
  let '(s', c) := strata_round g s in pass g (relations g) s s' false c.
Proof. apply fold_pass. Qed.

(** ** A round that changes nothing has found a stratification *)

Definition fixed (g : DependencyGraph) (s : gmap RelationId Z) : Prop :=
  forall r, r ∈ relations g -> required_stratum g s r <= stratum_of s r.

(** What the rounds keep of the initial strata. *)
Record rising (g : DependencyGraph) (s : gmap RelationId Z) : Prop := {
  rising_nonneg : forall r, 0 <= stratum_of s r;
  rising_dom : forall r, is_Some (s !! r) <-> r ∈ relations g
}.

Lemma initial_rising (g : DependencyGraph) : rising g (initial_strata g).
Proof.
  unfold initial_strata. split.
  - intros r. unfold stratum_of. rewrite lookup_fmap. by destruct (_ !! r).
  - intros r. unfold relations. rewrite elem_of_btree_keys, lookup_fmap, fmap_is_Some. done.
Qed.

Lemma pass_rising (g : DependencyGraph) (s s' : gmap RelationId Z) (c : bool) :
  rising g s -> pass g (relations g) s s' false c -> rising g s'.
Proof.
  intros Hs P. pose proof (rising_nonneg _ _ Hs) as Hn. split.
  - intros r. pose proof (pass_below _ _ _ _ _ _ P r). specialize (Hn r). lia.
  - intros r. rewrite (pass_dom _ _ _ _ _ _ P); [apply Hs|]. intros q Hq. by apply Hs.
Qed.

Lemma quiet_fixed (g : DependencyGraph) (s s' : gmap RelationId Z) :
  pass g (relations g) s s' false false -> s' = s /\ fixed g s.
Proof.
  intros P. destruct (pass_quiet _ _ _ _ _ _ P eq_refl) as [_ ->]. split; [done|].
  intros r Hr. by apply P.
Qed.

Lemma stratum_outside (g : DependencyGraph) (s : gmap RelationId Z) (r : RelationId) :
  rising g s -> r ∉ relations g -> stratum_of s r = 0.
Proof.
  intros Hs Hr. unfold stratum_of. destruct (s !! r) eqn:E; [|done].
  exfalso. apply Hr, (rising_dom _ _ Hs). by rewrite E.
Qed.

(** A fixed assignment below the last [usize] is a stratification. *)
Lemma fixed_stratifies (g : DependencyGraph) (s : gmap RelationId Z) :
  rising g s -> fixed g s -> (forall r, stratum_of s r < usize_max) -> stratifies g (stratum_of s).
Proof.
  intros Hs Hf Hm. assert (Hc : forall d, closed_stratum s d = stratum_of s d + 1).
  { intros d. unfold closed_stratum, saturating_add. specialize (Hm d). lia. }
  split.
  - intros r. pose proof (rising_nonneg _ _ Hs r). specialize (Hm r). lia.
  - intros r d Hr Hd. by apply (proj1 (required_le g s r _) (Hf r Hr)).
  - intros r d Hr Hd. pose proof (proj1 (required_le g s r _) (Hf r Hr)) as (_ & _ & H & _).
    specialize (H d Hd). rewrite Hc in H. lia.
  - intros r d Hr Hd. pose proof (proj1 (required_le g s r _) (Hf r Hr)) as (_ & _ & _ & H).
    specialize (H d Hd). rewrite Hc in H. lia.
Qed.

(** So is one below a stratification. *)
Lemma fixed_below_stratifies (g : DependencyGraph) (s : gmap RelationId Z) (S : RelationId -> Z) :
  rising g s -> fixed g s -> stratifies g S -> (forall r, stratum_of s r <= S r) -> stratifies g (stratum_of s).
Proof.
  intros Hs Hf HS Hle. assert (Hc : forall r d, r ∈ relations g -> S d < S r ->
    closed_stratum s d <= stratum_of s r -> stratum_of s d < stratum_of s r).
  { intros r d Hr Hlt. unfold closed_stratum, saturating_add. pose proof (Hle d). pose proof (st_range g S HS r). lia. }
  split.
  - intros r. pose proof (rising_nonneg _ _ Hs r). pose proof (Hle r). pose proof (st_range g S HS r). lia.
  - intros r d Hr Hd. by apply (proj1 (required_le g s r _) (Hf r Hr)).
  - intros r d Hr Hd. apply Hc; [done|by apply (st_negative g S HS)|].
    destruct (proj1 (required_le g s r _) (Hf r Hr)) as (_ & _ & H & _). auto.
  - intros r d Hr Hd. apply Hc; [done|by apply (st_closed g S HS)|].
    destruct (proj1 (required_le g s r _) (Hf r Hr)) as (_ & _ & _ & H). auto.
Qed.

(** What the rounds return is fixed, above the start and below every
    stratification, and grows by at most one per relation and round. *)
Lemma strata_rounds_spec (g : DependencyGraph) (n : nat) (s s' : gmap RelationId Z) :
  rising g s -> strata_rounds n g s = Some s' ->
  rising g s' /\ fixed g s' /\
  (forall S, stratifies g S -> (forall r, stratum_of s r <= S r) -> forall r, stratum_of s' r <= S r) /\
  (forall b, 0 <= b -> (forall r, stratum_of s r <= b) ->
     forall r, stratum_of s' r <= b + Z.of_nat n * len (relations g)).
Proof.
  revert s. induction n as [|n IH]; intros s Hs; [done|]. cbn [strata_rounds].
  pose proof (round_pass g s) as P. destruct (strata_round g s) as [s1 []].
  - intros H. apply IH in H as (H1 & H2 & H3 & H4); [|by eapply pass_rising]. split_and!; [done..| |].
    + intros S HS Hb. apply (H3 S HS). by apply (pass_least _ _ _ _ _ _ P S HS).
    + intros b Hb Hl r. pose proof (len_nonneg (relations g)).
      pose proof (H4 (b + len (relations g)) ltac:(lia) (pass_bound _ _ _ _ _ _ P b Hb Hl) r). lia.
  - intros [= <-]. destruct (quiet_fixed _ _ _ P) as [-> Hf]. split_and!; [done..|].
    intros b Hb Hl r. specialize (Hl r). pose proof (len_nonneg (relations g)). lia.
Qed.

(** ** The rounds end when there is a stratification *)

Definition slack (g : DependencyGraph) (S : RelationId -> Z) (s : gmap RelationId Z) : Z :=
  foldr (fun r acc => S r - stratum_of s r + acc) 0 (relations g).

Lemma sum_lt {A : Type} (f f' : A -> Z) (l : list A) (x : A) :
  (forall y, f' y <= f y) -> x ∈ l -> f' x < f x ->
  foldr (fun y acc => f' y + acc) 0 l < foldr (fun y acc => f y + acc) 0 l.
Proof.
  intros Hle Hx Hlt. assert (Hm : forall l, foldr (fun y acc => f' y + acc) 0 l <= foldr (fun y acc => f y + acc) 0 l).
  { induction l0 as [|y l0 IH]; simpl; [lia|]. specialize (Hle y). lia. }
  induction Hx as [x l|x y l Hx IH]; simpl.
  - specialize (Hm l). lia.
  - specialize (IH Hlt). specialize (Hle y). lia.
Qed.

Lemma sum_nonneg {A : Type} (f : A -> Z) (l : list A) :
  (forall y, 0 <= f y) -> 0 <= foldr (fun y acc => f y + acc) 0 l.
Proof. intros H. induction l as [|y l IH]; simpl; [lia|]. specialize (H y). lia. Qed.

Lemma rounds_end (g : DependencyGraph) (S : RelationId -> Z) (s : gmap RelationId Z) :
  stratifies g S -> (forall r, stratum_of s r <= S r) ->
  exists n s', strata_rounds n g s = Some s'.
Proof.
  intros HS. remember (Z.to_nat (slack g S s)) as m eqn:Hm. revert s Hm.
  induction m as [m IH] using lt_wf_ind. intros s Hm Hs.
  pose proof (round_pass g s) as P. destruct (strata_round g s) as [s1 c] eqn:E.
  destruct c; [|exists 1%nat, s1; cbn [strata_rounds]; by rewrite E].
  assert (Hs1 : forall r, stratum_of s1 r <= S r) by by apply (pass_least _ _ _ _ _ _ P S HS).
  destruct (pass_changed _ _ _ _ _ _ P eq_refl) as [?|(r & Hr & Hlt)]; [done|].
  destruct (IH (Z.to_nat (slack g S s1)) ltac:(subst m; assert (0 <= slack g S s1 < slack g S s); [|lia];
    split; [apply sum_nonneg; intros y; specialize (Hs1 y); lia|];
    apply (sum_lt _ _ _ r); [intros y; pose proof (pass_below _ _ _ _ _ _ P y); lia|done|lia])
    s1 eq_refl Hs1) as (n & s' & H).
  exists (Datatypes.S n), s'. cbn [strata_rounds]. by rewrite E.
Qed.

(** ** The bound on the rounds *)

Section least.
  Context (g : DependencyGraph) (L : gmap RelationId Z).
  Hypothesis L_rising : rising g L.
  Hypothesis L_ok : stratifies g (stratum_of L).
  Hypothesis L_least : forall S, stratifies g S -> forall r, stratum_of L r <= S r.

Definition unsettled (s : gmap RelationId Z) : list RelationId :=
  filter (fun r => stratum_of s r < stratum_of L r) (relations g).

Lemma elem_of_unsettled (s : gmap RelationId Z) (r : RelationId) :
  rising g s -> r ∈ unsettled s <-> stratum_of s r < stratum_of L r.
Proof.
  intros Hs. unfold unsettled. rewrite list_elem_of_filter. split; [by intros [? _]|].
  intros H. split; [done|]. destruct (decide (r ∈ relations g)) as [|Hr]; [done|].
  rewrite (stratum_outside g s r), (stratum_outside g L r) in H by done. lia.
Qed.

(** Lowering the unsettled relations gives a stratification if no relation got
    settled. *)
Lemma lowered_stratifies (s s' : gmap RelationId Z) (c : bool) :
  rising g s -> pass g (relations g) s s' false c ->
  (forall r, r ∈ unsettled s -> r ∈ unsettled s') ->
  stratifies g (fun r => if decide (r ∈ unsettled s) then stratum_of L r - 1 else stratum_of L r).
Proof.
  intros Hs P Hkeep. pose proof (pass_rising _ _ _ _ Hs P) as Hs'.
  assert (Hset : forall d, d ∉ unsettled s -> stratum_of L d <= stratum_of s d).
  { intros d Hd. rewrite elem_of_unsettled in Hd by done. lia. }
  assert (Hreq : forall r, r ∈ relations g -> r ∈ unsettled s -> required_stratum g s r < stratum_of L r).
  { intros r Hr Hu. pose proof (pass_required _ _ _ _ _ _ P r Hr).
    apply Hkeep, elem_of_unsettled in Hu; [lia|done]. }
  assert (Hclosed : forall d v, d ∉ unsettled s -> v <= usize_max -> closed_stratum s d < v -> stratum_of L d + 1 < v).
  { intros d v Hd Hv. specialize (Hset d Hd). unfold closed_stratum, saturating_add. lia. }
  split.
  - intros r. pose proof (st_range g _ L_ok r). case_decide as Hu; [|done].
    apply elem_of_unsettled in Hu; [|done]. pose proof (rising_nonneg _ _ Hs r). lia.
  - intros r d Hr Hd. pose proof (st_positive g _ L_ok r d Hr Hd).
    destruct (decide (r ∈ unsettled s)) as [Hu|]; case_decide as Hdu; [lia| |lia|lia].
    pose proof (proj1 (required_le g s r _) (Z.le_refl _)) as (_ & H1 & _).
    specialize (H1 d Hd). specialize (Hset d Hdu). specialize (Hreq r Hr Hu). lia.
  - intros r d Hr Hd. pose proof (st_negative g _ L_ok r d Hr Hd). pose proof (st_range g _ L_ok r).
    destruct (decide (r ∈ unsettled s)) as [Hu|]; case_decide as Hdu; [lia| |lia|lia].
    pose proof (proj1 (required_le g s r _) (Z.le_refl _)) as (_ & _ & H1 & _).
    specialize (H1 d Hd). specialize (Hreq r Hr Hu).
    pose proof (Hclosed d (stratum_of L r) Hdu ltac:(lia) ltac:(lia)). lia.
  - intros r d Hr Hd. pose proof (st_closed g _ L_ok r d Hr Hd). pose proof (st_range g _ L_ok r).
    destruct (decide (r ∈ unsettled s)) as [Hu|]; case_decide as Hdu; [lia| |lia|lia].
    pose proof (proj1 (required_le g s r _) (Z.le_refl _)) as (_ & _ & _ & H1).
    specialize (H1 d Hd). specialize (Hreq r Hr Hu).
    pose proof (Hclosed d (stratum_of L r) Hdu ltac:(lia) ltac:(lia)). lia.
Qed.

Lemma round_settles (s s' : gmap RelationId Z) (c : bool) :
  rising g s -> pass g (relations g) s s' false c ->
  unsettled s <> [] -> (length (unsettled s') < length (unsettled s))%nat.
Proof.
  intros Hs P Hne. pose proof (pass_rising _ _ _ _ Hs P) as Hs'.
  assert (Hsub : forall r, r ∈ unsettled s' -> r ∈ unsettled s).
  { intros r. rewrite !elem_of_unsettled by done. pose proof (pass_below _ _ _ _ _ _ P r). lia. }
  assert (Hnd : forall s, NoDup (unsettled s)) by (intros; apply list.NoDup_filter, NoDup_btree_keys).
  destruct (decide (Forall (fun r => r ∈ unsettled s') (unsettled s))) as [Hall|Hnot].
  - rewrite Forall_forall in Hall. pose proof (lowered_stratifies s s' c Hs P) as Hlow.
    destruct (unsettled s) as [|r u] eqn:Eu; [done|]. exfalso.
    pose proof (L_least _ (Hlow ltac:(intros; by apply Hall, list_elem_of_In)) r) as H.
    cbv beta in H. rewrite decide_True in H by (by constructor). lia.
  - apply not_Forall_Exists in Hnot; [|intros; apply _]. apply Exists_exists in Hnot as (r & Hr & Hn).
    apply list_elem_of_In in Hr. change (length (r :: unsettled s') <= length (unsettled s))%nat.
    apply NoDup_incl_length.
    + rewrite <- NoDup_ListNoDup. by constructor.
    + intros q Hq. rewrite <- list_elem_of_In in Hq |- *. apply elem_of_cons in Hq as [->|Hq]; auto.
Qed.

Lemma settled_quiet (s : gmap RelationId Z) :
  rising g s -> (forall r, stratum_of s r <= stratum_of L r) -> unsettled s = [] ->
  (strata_round g s).2 = false.
Proof.
  intros Hs Hle Hu. pose proof (round_pass g s) as P. destruct (strata_round g s) as [s' []]; [|done].
  destruct (pass_changed _ _ _ _ _ _ P eq_refl) as [?|(r & Hr & Hlt)]; [done|].
  pose proof (pass_least _ _ _ _ _ _ P _ L_ok ltac:(done) Hle r).
  assert (r ∈ unsettled s) as Hr' by (apply elem_of_unsettled; [done|lia]). rewrite Hu in Hr'. by apply elem_of_nil in Hr'.
Qed.

Lemma enough_rounds (n : nat) (s : gmap RelationId Z) :
  rising g s -> (forall r, stratum_of s r <= stratum_of L r) -> (length (unsettled s) < n)%nat ->
  is_Some (strata_rounds n g s).
Proof.
  revert s. induction n as [|n IH]; intros s Hs Hle Hn; [lia|]. cbn [strata_rounds].
  pose proof (round_pass g s) as P. pose proof (settled_quiet s Hs Hle) as Hq.
  destruct (strata_round g s) as [s' []]; [|done]. destruct (unsettled s) eqn:Eu; [by specialize (Hq eq_refl)|].
  rewrite <- Eu in *. apply IH; [by eapply pass_rising| |].
  - by apply (pass_least _ _ _ _ _ _ P _ L_ok).
  - pose proof (round_settles s s' true Hs P). rewrite Eu in *.
    specialize (H ltac:(done)). lia.
Qed.
End least.

(** ** compute_strata *)

Lemma initial_zero (g : DependencyGraph) (r : RelationId) : stratum_of (initial_strata g) r = 0.
Proof. unfold stratum_of, initial_strata. rewrite lookup_fmap. by destruct (_ !! r). Qed.

Lemma size_initial (g : DependencyGraph) : size (initial_strata g) = length (relations g).
Proof. unfold initial_strata, relations. by rewrite length_btree_keys, map_size_fmap. Qed.

Lemma compute_strata_rounds (g : DependencyGraph) (strata : gmap RelationId Z) :
  compute_strata g = Ok strata <->
  strata_rounds (S (length (relations g))) g (initial_strata g) = Some strata.
Proof.
  unfold compute_strata. rewrite size_initial. destruct (strata_rounds _ _ _); split; congruence.
Qed.

(** When there is a stratification the bound on the rounds is enough. *)
Lemma compute_strata_complete (g : DependencyGraph) (S : RelationId -> Z) :
  stratifies g S -> exists strata, compute_strata g = Ok strata.
Proof.
  intros HS. assert (H0 : forall S, stratifies g S -> forall r, stratum_of (initial_strata g) r <= S r).
  { intros S' HS' r. rewrite initial_zero. apply (st_range g S' HS' r). }
  destruct (rounds_end g S (initial_strata g) HS (H0 S HS)) as (n & L & HL).
  destruct (strata_rounds_spec g n _ L (initial_rising g) HL) as (Hrise & Hfix & Hleast & _).
  pose proof (Hleast S HS (H0 S HS)) as HLS.
  assert (HLok : stratifies g (stratum_of L)) by by apply (fixed_below_stratifies g L S).
  assert (HLl : forall S, stratifies g S -> forall r, stratum_of L r <= S r) by eauto.
  destruct (enough_rounds g L Hrise HLok HLl (Datatypes.S (length (relations g))) (initial_strata g))
    as [strata Hs]; [apply initial_rising|by apply H0| |].
  - unfold unsettled. pose proof (length_filter (fun r => stratum_of (initial_strata g) r < stratum_of L r) (relations g)).
    lia.
  - exists strata. by apply compute_strata_rounds.
Qed.

(** The result is the least stratification. *)
Lemma compute_strata_least (g : DependencyGraph) (strata : gmap RelationId Z) :
  len (relations g) < 2 ^ 31 -> compute_strata g = Ok strata ->
  rising g strata /\ stratifies g (stratum_of strata) /\
  (forall S, stratifies g S -> forall r, stratum_of strata r <= S r).
Proof.
  intros Hn H. apply compute_strata_rounds in H.
  destruct (strata_rounds_spec g _ _ strata (initial_rising g) H) as (Hrise & Hfix & Hleast & Hbound).
  split_and!; [done| |].
  - apply fixed_stratifies; [done..|]. intros r.
    pose proof (Hbound 0 ltac:(lia) ltac:(intros q; rewrite initial_zero; lia) r).
    unfold usize_max, int_max. unfold len in *. nia.
  - intros S HS. apply (Hleast S HS). intros r. rewrite initial_zero. apply (st_range g S HS r).
Qed.

(** A path of the graph: [strict] when one of its edges is negative or closed. *)
Inductive depends (g : DependencyGraph) : bool -> RelationId -> RelationId -> Prop :=
| depends_positive r d : r ∈ relations g -> d ∈ positive_dependencies g r -> depends g false r d
| depends_negative r d : r ∈ relations g -> d ∈ negative_dependencies g r -> depends g true r d
| depends_closed r d : r ∈ relations g -> d ∈ closed_dependencies g r -> depends g true r d
| depends_trans b c r d e : depends g b r d -> depends g c d e -> depends g (b || c) r e.

Lemma depends_stratum (g : DependencyGraph) (S : RelationId -> Z) (b : bool) (r d : RelationId) :
  stratifies g S -> depends g b r d -> if b then S d < S r else S d <= S r.
Proof.
  intros HS. induction 1 as [r d Hr Hd|r d Hr Hd|r d Hr Hd|b c r d e _ IH1 _ IH2].
  - by apply (st_positive g S HS).
  - by apply (st_negative g S HS).
  - by apply (st_closed g S HS).
  - destruct b, c; simpl; lia.
Qed.

(** ** Without a stratification there is a cycle through a negative or closed edge *)

Section cycles.
  Context (g : DependencyGraph).

Fixpoint strict_chain (r : RelationId) (l : list RelationId) : Prop :=
  match l with
  | [] => True
  | d :: l => depends g true r d /\ strict_chain d l
  end.

(** A relation in stratum [v] heads a chain of [v] strict dependencies. *)
Definition chained (s : gmap RelationId Z) : Prop :=
  forall r, exists l, strict_chain r l /\ stratum_of s r <= len l.

Lemma depends_head (b : bool) (r d : RelationId) : depends g b r d -> r ∈ relations g.
Proof. by induction 1. Qed.

Lemma strict_chain_positive (r d : RelationId) (l : list RelationId) :
  depends g false r d -> strict_chain d l -> strict_chain r l.
Proof.
  destruct l as [|e l]; [done|]. intros Hr [He Hl]. split; [|done].
  exact (depends_trans g false true r d e Hr He).
Qed.

Lemma strict_chain_elem (r d : RelationId) (l : list RelationId) :
  strict_chain r l -> d ∈ l -> depends g true r d.
Proof.
  revert r. induction l as [|e l IH]; intros r; [by intros _ ?%elem_of_nil|].
  intros [He Hl] [->|Hd]%elem_of_cons; [done|].
  exact (depends_trans g true true r e d He (IH e Hl Hd)).
Qed.

Lemma strict_chain_repeats (r : RelationId) (l : list RelationId) :
  strict_chain r l -> ~ NoDup (r :: l) -> exists x, depends g true x x.
Proof.
  revert r. induction l as [|d l IH]; intros r Hc Hnd.
  - exfalso. apply Hnd, NoDup_singleton.
  - destruct (decide (r ∈ d :: l)) as [Hr|Hr]; [exists r; by apply (strict_chain_elem r r (d :: l))|].
    apply (IH d); [apply Hc|]. intros Hnd'. apply Hnd. by constructor.
Qed.

Lemma strict_chain_app (r : RelationId) (l k : list RelationId) : strict_chain r (l ++ k) -> strict_chain r l.
Proof. revert r. induction l as [|d l IH]; intros r; simpl; [done|]. intros [Hd Hl]. eauto. Qed.

Lemma strict_chain_relations (r z : RelationId) (l : list RelationId) :
  strict_chain r (l ++ [z]) -> Forall (fun x => x ∈ relations g) (r :: l).
Proof.
  revert r. induction l as [|d l IH]; intros r; simpl.
  - intros [Hz _]. repeat constructor. by eapply depends_head.
  - intros [Hd Hl]. constructor; [by eapply depends_head|by apply IH].
Qed.

Lemma long_chain_cycle (r : RelationId) (l : list RelationId) :
  strict_chain r l -> len (relations g) < len l -> exists x, depends g true x x.
Proof.
  intros Hc Hl. destruct l as [|z l _] using rev_ind; [unfold len in Hl; simpl in Hl; lia|].
  apply (strict_chain_repeats r l); [by eapply strict_chain_app|]. intros Hnd.
  pose proof (strict_chain_relations r z l Hc) as Hin. rewrite Forall_forall in Hin.
  unfold len in Hl. rewrite length_app in Hl. simpl in Hl.
  assert (length (r :: l) <= length (relations g))%nat; [|simpl in *; lia].
  apply NoDup_incl_length; [by apply NoDup_ListNoDup|]. intros x Hx. apply list_elem_of_In. by apply Hin.
Qed.

Lemma fold_max_attained {A : Type} (f : A -> Z) (l : list A) (init : Z) :
  let m := fold_left (fun r d => Z.max r (f d)) l init in m = init \/ exists d, d ∈ l /\ m = f d.
Proof.
  revert init. induction l as [|x l IH]; intros init; simpl; [by left|].
  destruct (IH (Z.max init (f x))) as [->|(d & Hd & ->)].
  - destruct (Z.max_spec init (f x)) as [[_ ->]|[_ ->]]; [right; exists x; split; [constructor|done]|by left].
  - right. exists d. split; [by right|done].
Qed.

Lemma raise_chained (s : gmap RelationId Z) (c : bool) (r : RelationId) :
  r ∈ relations g -> chained s -> chained (raise_stratum g (s, c) r).1.
Proof.
  intros Hr Hs. unfold raise_stratum. destruct (_ >? _); [|done]. cbn [fst].
  intros q. rewrite stratum_of_insert. case_decide as Hq; [subst q|apply Hs].
  assert (Hstrict : forall d, depends g true r d ->
    exists l, strict_chain r l /\ closed_stratum s d <= len l).
  { intros d Hd. destruct (Hs d) as (l & Hl & Hle). exists (d :: l). split; [done|].
    unfold closed_stratum, saturating_add, len in *. simpl. lia. }
  unfold required_stratum.
  set (positive := fold_left (fun r0 d => Z.max r0 (stratum_of s d)) (positive_dependencies g r) 0).
  set (negative := fold_left (fun r0 d => Z.max r0 (closed_stratum s d)) (negative_dependencies g r) positive).
  destruct (fold_max_attained (closed_stratum s) (closed_dependencies g r) negative) as [->|(d & Hd & ->)];
    [|by apply Hstrict, depends_closed].
  destruct (fold_max_attained (closed_stratum s) (negative_dependencies g r) positive) as [Hneg|(d & Hd & Hneg)];
    fold negative in Hneg; rewrite Hneg; [|by apply Hstrict, depends_negative].
  destruct (fold_max_attained (stratum_of s) (positive_dependencies g r) 0) as [Hpos|(d & Hd & Hpos)];
    fold positive in Hpos; rewrite Hpos.
  - by exists [].
  - destruct (Hs d) as (l & Hl & Hle). exists l. split; [|done].
    by apply (strict_chain_positive r d l); [apply depends_positive|].
Qed.

Lemma round_chained (s : gmap RelationId Z) : chained s -> chained (strata_round g s).1.
Proof.
  unfold strata_round. intros Hs. generalize false as c. revert s Hs.
  assert (Hin : forall r, r ∈ relations g -> r ∈ relations g) by done. revert Hin.
  generalize (relations g) at 1 3 as l.
  induction l as [|r l IH]; intros Hin s Hs c; cbn [fold_left]; [done|].
  pose proof (raise_chained s c r (Hin r ltac:(constructor)) Hs) as H.
  destruct (raise_stratum g (s, c) r) as [s' c']. apply IH; [|done]. intros q Hq. apply Hin. by right.
Qed.

Lemma bounded_or_cycle (s : gmap RelationId Z) :
  rising g s -> chained s ->
  (forall r, stratum_of s r <= len (relations g)) \/ exists x, depends g true x x.
Proof.
  intros Hs Hc.
  destruct (decide (Forall (fun r => stratum_of s r <= len (relations g)) (relations g))) as [Hall|Hnot].
  - left. intros r. rewrite Forall_forall in Hall. destruct (decide (r ∈ relations g)) as [Hr|Hr].
    + by apply Hall, list_elem_of_In.
    + rewrite (stratum_outside g s r) by done. apply len_nonneg.
  - right. apply not_Forall_Exists in Hnot; [|intros; apply _]. apply Exists_exists in Hnot as (r & _ & Hr).
    destruct (Hc r) as (l & Hl & Hle). apply (long_chain_cycle r l Hl). simpl in Hr. lia.
Qed.

(** Either the strata stay bounded and the rounds end, or a chain repeats. *)
Lemma rounds_end_or_cycle (s : gmap RelationId Z) :
  rising g s -> chained s ->
  (exists n s', strata_rounds n g s = Some s' /\ forall r, stratum_of s' r <= len (relations g)) \/
  (exists x, depends g true x x).
Proof.
  remember (Z.to_nat (slack g (fun _ => len (relations g)) s)) as m eqn:Hm. revert s Hm.
  induction m as [m IH] using lt_wf_ind. intros s Hm Hs Hc.
  pose proof (round_pass g s) as P. pose proof (round_chained s Hc) as Hc1.
  destruct (strata_round g s) as [s1 c] eqn:E. cbn [fst] in Hc1.
  pose proof (pass_rising _ _ _ _ Hs P) as Hs1.
  destruct (bounded_or_cycle s1 Hs1 Hc1) as [Hb|]; [|by right].
  destruct c; [|left; exists 1%nat, s1; cbn [strata_rounds]; by rewrite E].
  destruct (pass_changed _ _ _ _ _ _ P eq_refl) as [?|(r & Hr & Hlt)]; [done|].
  destruct (IH (Z.to_nat (slack g (fun _ => len (relations g)) s1))) with (s := s1) as [(n & s' & H & Hb')|]; try done.
  - subst m. assert (0 <= slack g (fun _ => len (relations g)) s1 < slack g (fun _ => len (relations g)) s); [|lia].
    unfold slack. split; [apply (sum_nonneg (fun y => len (relations g) - stratum_of s1 y)); intros y; specialize (Hb y); lia|].
    apply (sum_lt (fun y => len (relations g) - stratum_of s y) (fun y => len (relations g) - stratum_of s1 y) _ r);
      [intros y; pose proof (pass_below _ _ _ _ _ _ P y); lia|done|lia].
  - left. exists (Datatypes.S n), s'. split; [|done]. cbn [strata_rounds]. by rewrite E.
  - by right.
Qed.

Lemma compute_strata_cycle (e : ValidationError) :
  len (relations g) < 2 ^ 31 -> compute_strata g = Err e -> exists x, depends g true x x.
Proof.
  intros Hn He. destruct (rounds_end_or_cycle (initial_strata g) (initial_rising g)) as [(n & s & Hs & Hb)|]; [| |done].
  - intros r. exists []. split; [done|]. rewrite initial_zero. done.
  - destruct (strata_rounds_spec g n _ s (initial_rising g) Hs) as (Hrise & Hfix & _).
    destruct (compute_strata_complete g (stratum_of s)) as [strata H]; [|congruence].
    apply fixed_stratifies; [done..|]. intros r. specialize (Hb r). unfold usize_max, int_max. lia.
Qed.
End cycles.
