(* ===== verification/DatalogValidateFacts.v ===== *)
(** * What validation guarantees

    A declarative description of the programs [validate] accepts
    ([acceptable]), of the artifact it returns ([validated_ok]), and the proof
    that the checks decide it. *)
From stdpp Require Import gmap.
From S2P Require Import Prelude MachineInt RustStr BTree RdfModel RdfDisplay DatalogIr.
From S2P Require Import StateResult DatalogValidate DatalogStrataFacts.

(** ** The specification *)

Definition bound (r : Rule) (v : VarName) : Prop := exists a, a ∈ r_positive_body r /\ v ∈ atom_variables a.

(** Safe variables, and generated terms only in the head of a run-once rule. *)
Record rule_safe (r : Rule) : Prop := {
  safe_ground : forall a, a ∈ r_positive_body r ++ r_negative_body r -> atom_generates a = false;
  safe_generates : atom_generates (r_head r) = true -> r_run_once r = true;
  safe_negative : forall a v, a ∈ r_negative_body r -> v ∈ atom_variables a -> bound r v;
  safe_head : forall v, v ∈ atom_variables (r_head r) -> bound r v
}.

Definition term_within (l : ValidationLimits) (t : PatternTerm) : Prop :=
  match t with
  | PVariable v => len v <= vl_max_identifier_bytes l
  | PConstant v => Value_estimated_bytes v <= vl_max_term_bytes l
  | PGeneratedBlankNode g => len g <= vl_max_identifier_bytes l
  end.
Record atom_within (l : ValidationLimits) (a : Atom) : Prop := {
  within_relation : len (a_relation a) <= vl_max_identifier_bytes l;
  within_arity : Atom_arity a <= vl_max_arity l;
  within_terms : forall t, t ∈ a_terms a -> term_within l t
}.
Record rule_within (l : ValidationLimits) (r : Rule) : Prop := {
  within_atoms : saturating_add (saturating_add (len (r_positive_body r)) (len (r_negative_body r))) 1
                 <= vl_max_atoms_per_rule l;
  within_id : len (r_id r) <= vl_max_identifier_bytes l;
  within_source : forall s, r_source r = Some s -> len s <= vl_max_source_bytes l;
  within_each : forall a, a ∈ rule_atoms r -> atom_within l a
}.

(** The strata a rule asks for. *)
Definition rule_stratified (S : RelationId -> Z) (r : Rule) : Prop :=
  (forall a, a ∈ r_positive_body r ->
     S (a_relation a) <= S (a_relation (r_head r)) /\
     (r_run_once r = true -> S (a_relation a) < S (a_relation (r_head r)))) /\
  (forall a, a ∈ r_negative_body r -> S (a_relation a) < S (a_relation (r_head r))).

Definition program_atoms (rules : list Rule) : list Atom := rules ≫= rule_atoms.
Definition consistent_arities (atoms : list Atom) : Prop :=
  forall a b, a ∈ atoms -> b ∈ atoms -> a_relation a = a_relation b -> Atom_arity a = Atom_arity b.

Record acceptable (l : ValidationLimits) (rules : list Rule) : Prop := {
  acc_count : len rules <= vl_max_rules l;
  acc_ids : NoDup (r_id <$> rules);
  acc_within : forall r, r ∈ rules -> rule_within l r;
  acc_safe : forall r, r ∈ rules -> rule_safe r;
  acc_arities : consistent_arities (program_atoms rules);
  acc_stratified : exists S, (forall r, 0 <= S r <= usize_max) /\ forall r, r ∈ rules -> rule_stratified S r
}.

(** What the engine relies on. *)
Record validated_ok (p : ValidatedProgram) : Prop := {
  vo_ids : NoDup (r_id <$> vp_rules p);
  vo_safe : forall r, r ∈ vp_rules p -> rule_safe r;
  vo_arities : forall r a, r ∈ vp_rules p -> a ∈ rule_atoms r ->
    vp_arities p !! a_relation a = Some (Atom_arity a);
  vo_arity_used : forall rel k, vp_arities p !! rel = Some k ->
    exists r a, r ∈ vp_rules p /\ a ∈ rule_atoms r /\ a_relation a = rel /\ Atom_arity a = k;
  vo_relations : forall rel, rel ∈ relations (vp_dependencies p) <-> is_Some (vp_strata p !! rel);
  vo_assigned : forall r a, r ∈ vp_rules p -> a ∈ rule_atoms r -> is_Some (vp_strata p !! a_relation a);
  vo_stratified : forall r, r ∈ vp_rules p -> rule_stratified (stratum_of (vp_strata p)) r;
  vo_nonneg : forall rel, 0 <= stratum_of (vp_strata p) rel
}.

(** ** The dependency graph *)

Lemma elem_of_edge_targets (edges : gmap RelationId (gset RelationId)) (r d : RelationId) :
  d ∈ edge_targets edges r <-> d ∈ default ∅ (edges !! r).
Proof.
  unfold edge_targets. destruct (edges !! r); simpl; [apply elem_of_btree_elements|set_solver].
Qed.

Lemma default_or_default (edges : gmap RelationId (gset RelationId)) (x r : RelationId) :
  default ∅ (or_default edges x !! r) = default ∅ (edges !! r).
Proof.
  unfold or_default. destruct (edges !! x) eqn:E; [done|].
  destruct (decide (x = r)) as [->|]; [by rewrite lookup_insert_eq, E|by rewrite lookup_insert_ne].
Qed.

Lemma or_default_is_Some (edges : gmap RelationId (gset RelationId)) (x r : RelationId) :
  is_Some (or_default edges x !! r) <-> r = x \/ is_Some (edges !! r).
Proof.
  unfold or_default. destruct (edges !! x) eqn:E.
  - split; [by right|]. intros [->|?]; [by rewrite E|done].
  - rewrite lookup_insert_is_Some'. naive_solver.
Qed.

Lemma default_add_edge (edges : gmap RelationId (gset RelationId)) (h b r d : RelationId) :
  d ∈ default ∅ (add_edge edges h b !! r) <-> (r = h /\ d = b) \/ d ∈ default ∅ (edges !! r).
Proof.
  unfold add_edge. destruct (decide (h = r)) as [->|].
  - rewrite lookup_insert_eq. set_solver.
  - rewrite lookup_insert_ne by done. naive_solver.
Qed.

(** The edges and the relations of a graph, as predicates. *)
Record graph_is (g : DependencyGraph) (pos neg clo : RelationId -> RelationId -> Prop)
  (rel : RelationId -> Prop) : Prop := {
  gi_pos : forall r d, d ∈ positive_dependencies g r <-> pos r d;
  gi_neg : forall r d, d ∈ negative_dependencies g r <-> neg r d;
  gi_clo : forall r d, d ∈ closed_dependencies g r <-> clo r d;
  gi_rel : forall r, r ∈ relations g <-> rel r
}.

Ltac graph_edges :=
  repeat rewrite elem_of_edge_targets; cbn [positive_edges negative_edges closed_edges ensure_relation];
  repeat rewrite default_add_edge; repeat rewrite default_or_default; repeat rewrite <- elem_of_edge_targets.

Lemma graph_is_default :
  graph_is DependencyGraph_default (fun _ _ => False) (fun _ _ => False) (fun _ _ => False) (fun _ => False).
Proof.
  split; intros; unfold positive_dependencies, negative_dependencies, closed_dependencies, relations.
  1-3: rewrite elem_of_edge_targets; simpl; rewrite lookup_empty; set_solver.
  rewrite elem_of_btree_keys. simpl. rewrite lookup_empty. split; [by intros [? ?]|done].
Qed.

Section graph.
  Context {g : DependencyGraph} {pos neg clo : RelationId -> RelationId -> Prop} {rel : RelationId -> Prop}.
  Hypothesis G : graph_is g pos neg clo rel.

Lemma ensure_relation_is (x : RelationId) :
  graph_is (ensure_relation g x) pos neg clo (fun r => r = x \/ rel r).
Proof.
  destruct G as [G1 G2 G3 G4]. unfold positive_dependencies, negative_dependencies, closed_dependencies, relations in *.
  split; intros; unfold positive_dependencies, negative_dependencies, closed_dependencies, relations;
    [graph_edges; auto..|].
  cbn [positive_edges ensure_relation]. rewrite elem_of_btree_keys, or_default_is_Some, <- elem_of_btree_keys, G4. done.
Qed.

Lemma add_positive_is (h b : RelationId) :
  graph_is (add_positive g h b) (fun r d => (r = h /\ d = b) \/ pos r d) neg clo
    (fun r => r = h \/ r = b \/ rel r).
Proof.
  destruct (ensure_relation_is b) as [G1 G2 G3 G4].
  unfold positive_dependencies, negative_dependencies, closed_dependencies, relations, add_positive in *.
  split; intros; cbn [positive_edges negative_edges closed_edges positive_dependencies negative_dependencies closed_dependencies].
  - unfold positive_dependencies. cbn [positive_edges]. rewrite elem_of_edge_targets, default_add_edge, <- elem_of_edge_targets, G1. done.
  - apply G2.
  - apply G3.
  - unfold relations. cbn [positive_edges]. rewrite elem_of_btree_keys. unfold add_edge.
    rewrite lookup_insert_is_Some', <- elem_of_btree_keys, G4. naive_solver.
Qed.

Lemma add_negative_is (h b : RelationId) :
  graph_is (add_negative g h b) pos (fun r d => (r = h /\ d = b) \/ neg r d) clo (fun r => r = b \/ rel r).
Proof.
  destruct (ensure_relation_is b) as [G1 G2 G3 G4]. unfold add_negative. split; intros; [apply G1| |apply G3|apply G4].
  unfold negative_dependencies in *. cbn [negative_edges]. rewrite elem_of_edge_targets, default_add_edge, <- elem_of_edge_targets, G2. done.
Qed.

Lemma add_closed_is (h b : RelationId) :
  graph_is (add_closed g h b) pos neg (fun r d => (r = h /\ d = b) \/ clo r d) (fun r => r = b \/ rel r).
Proof.
  destruct (ensure_relation_is b) as [G1 G2 G3 G4]. unfold add_closed. split; intros; [apply G1|apply G2| |apply G4].
  unfold closed_dependencies in *. cbn [closed_edges]. rewrite elem_of_edge_targets, default_add_edge, <- elem_of_edge_targets, G3. done.
Qed.
End graph.

(** The graph of a list of rules. *)
Definition positive_edge (rules : list Rule) (r d : RelationId) : Prop :=
  exists q a, q ∈ rules /\ a_relation (r_head q) = r /\ a ∈ r_positive_body q /\ a_relation a = d.
Definition negative_edge (rules : list Rule) (r d : RelationId) : Prop :=
  exists q a, q ∈ rules /\ a_relation (r_head q) = r /\ a ∈ r_negative_body q /\ a_relation a = d.
Definition closed_edge (rules : list Rule) (r d : RelationId) : Prop :=
  exists q a, q ∈ rules /\ r_run_once q = true /\ a_relation (r_head q) = r /\ a ∈ r_positive_body q /\ a_relation a = d.
Definition mentions (rules : list Rule) (r : RelationId) : Prop :=
  exists a, a ∈ program_atoms rules /\ a_relation a = r.
Definition graph_of (rules : list Rule) (g : DependencyGraph) : Prop :=
  graph_is g (positive_edge rules) (negative_edge rules) (closed_edge rules) (mentions rules).

Lemma graph_is_ext (g : DependencyGraph) (pos neg clo pos' neg' clo' : RelationId -> RelationId -> Prop)
  (rel rel' : RelationId -> Prop) :
  graph_is g pos neg clo rel ->
  (forall r d, pos r d <-> pos' r d) -> (forall r d, neg r d <-> neg' r d) ->
  (forall r d, clo r d <-> clo' r d) -> (forall r, rel r <-> rel' r) -> graph_is g pos' neg' clo' rel'.
Proof. intros [G1 G2 G3 G4] H1 H2 H3 H4. split; intros; [rewrite G1|rewrite G2|rewrite G3|rewrite G4]; auto. Qed.

Lemma elem_of_program_atoms (rules : list Rule) (a : Atom) :
  a ∈ program_atoms rules <-> exists r, r ∈ rules /\ a ∈ rule_atoms r.
Proof. unfold program_atoms. rewrite list_elem_of_bind. naive_solver. Qed.

(** The map of arities of a list of atoms. *)
Definition arities_of (atoms : list Atom) (arities : gmap RelationId Z) : Prop :=
  forall r k, arities !! r = Some k <-> exists a, a ∈ atoms /\ a_relation a = r /\ Atom_arity a = k.

Lemma arities_of_nil : arities_of [] ∅.
Proof. intros r k. rewrite lookup_empty. split; [done|]. by intros (a & ?%elem_of_nil & _). Qed.

Lemma arities_of_snoc (atoms : list Atom) (arities : gmap RelationId Z) (a : Atom) :
  arities_of atoms arities ->
  arities !! a_relation a = None \/ arities !! a_relation a = Some (Atom_arity a) ->
  arities_of (atoms ++ [a]) (<[a_relation a := Atom_arity a]> arities).
Proof.
  unfold arities_of. intros H Hc r k. setoid_rewrite elem_of_app. setoid_rewrite list_elem_of_singleton.
  rewrite lookup_insert_Some, H. split.
  - intros [[<- <-]|[Hne (b & Hb & <- & <-)]]; [exists a; auto|exists b; auto].
  - intros (b & [Hb| ->] & <- & <-); [|by left].
    destruct (decide (a_relation a = a_relation b)) as [E|]; [left|right; eauto].
    split; [done|]. assert (Hb' : arities !! a_relation b = Some (Atom_arity b)) by (apply H; eauto).
    rewrite E in Hc. destruct Hc; congruence.
Qed.

Lemma arities_of_ext (atoms atoms' : list Atom) (arities : gmap RelationId Z) :
  arities_of atoms arities -> (forall a, a ∈ atoms <-> a ∈ atoms') -> arities_of atoms' arities.
Proof. unfold arities_of. intros H Hext r k. rewrite H. by setoid_rewrite Hext. Qed.

(** The variables of a list of atoms. *)
Definition body_variables (atoms : list Atom) : gset VarName := list_to_set (atoms ≫= atom_variables).

Lemma body_variables_snoc (pre : list Atom) (a : Atom) :
  body_variables (pre ++ [a]) = list_to_set (atom_variables a) ∪ body_variables pre.
Proof. unfold body_variables. rewrite bind_app. simpl. rewrite app_nil_r, list_to_set_app_L. set_solver. Qed.

Lemma ex_snoc (P : Atom -> Prop) (pre : list Atom) (a : Atom) :
  (exists b, b ∈ pre ++ [a] /\ P b) <-> (exists b, b ∈ pre /\ P b) \/ P a.
Proof.
  setoid_rewrite elem_of_app. setoid_rewrite list_elem_of_singleton. naive_solver.
Qed.

Lemma elem_of_body_variables (rule : Rule) (v : VarName) : v ∈ body_variables (r_positive_body rule) <-> bound rule v.
Proof.
  unfold body_variables, bound. rewrite elem_of_list_to_set, list_elem_of_bind. naive_solver.
Qed.

(** ** The checks decide the specification *)

Section checks.
  Context {S E : Type} (check_control : S -> result E S) (limits : ValidationLimits) (all : list Rule).

(** A validation error refutes the specification; a control error comes from the control. *)
Definition refuted (e : ControlledValidationError E) : Prop :=
  match e with
  | CVValidation _ => ~ acceptable limits all
  | CVControl c => exists s, check_control s = Err c
  end.
Abbreviation checks := (holds (fun _ : S => True) refuted).

Lemma control_checks (Q : unit -> Prop) : Q tt -> checks (control check_control) Q.
Proof.
  intros HQ s _. unfold control. destruct (check_control s) as [s'|e] eqn:Es; [done|]. by exists s.
Qed.

Lemma identifier_checks (kind : bytes) (n : Z) (rule : RuleId) (Q : unit -> Prop) :
  (n <= vl_max_identifier_bytes limits -> Q tt) ->
  (vl_max_identifier_bytes limits < n -> ~ acceptable limits all) ->
  checks (validation (check_identifier kind n rule (vl_max_identifier_bytes limits))) Q.
Proof.
  intros H1 H2. apply holds_lift. unfold check_identifier. destruct (_ >? _) eqn:E1; bool_to_prop; simpl; auto.
Qed.

Lemma reject_checks {A : Type} (e : ValidationError) (Q : A -> Prop) :
  ~ acceptable limits all -> checks (reject e) Q.
Proof. intros H. by apply holds_throw. Qed.

(** *** Safety of variables *)

Lemma check_safe_checks (set vars : gset VarName) (error : VarName -> ValidationError) :
  (forall v, v ∈ set -> v ∉ vars -> ~ acceptable limits all) ->
  checks (check_safe set vars error) (fun _ => set ⊆ vars).
Proof.
  intros Hbad. unfold check_safe. eapply holds_conseq.
  - apply (holds_for_each _ _ _ (fun pre (_ : unit) => forall v, v ∈ pre -> v ∈ vars)); [|by intros v ?%elem_of_nil].
    intros pre v rest [] Hl Hpre.
    assert (Hv : v ∈ set) by (apply elem_of_btree_elements; rewrite Hl; set_solver).
    case_decide as Hin; [|by apply reject_checks, (Hbad v)]. apply holds_ret. set_solver.
  - intros u H v Hv. by apply H, elem_of_btree_elements.
Qed.

Context (rule : Rule) (rule_in : rule ∈ all).

Lemma atom_refuted (a : Atom) : a ∈ rule_atoms rule -> ~ atom_within limits a -> ~ acceptable limits all.
Proof. intros Ha Hn H. apply Hn. by apply (within_each limits rule (acc_within _ _ H rule rule_in)). Qed.

Lemma term_refuted (a : Atom) (t : PatternTerm) :
  a ∈ rule_atoms rule -> t ∈ a_terms a -> ~ term_within limits t -> ~ acceptable limits all.
Proof. intros Ha Ht Hn. apply (atom_refuted a Ha). intros H. by apply Hn, (within_terms limits a H). Qed.

Lemma check_term_checks (a : Atom) (allow : bool) (variables : gset VarName) (t : PatternTerm) :
  a ∈ rule_atoms rule -> t ∈ a_terms a -> (allow = false -> a ∈ r_positive_body rule ++ r_negative_body rule) ->
  checks (check_term check_control limits (r_id rule) allow variables t)
    (fun variables' => term_within limits t /\ (allow = false -> is_generated t = false) /\
       variables' = list_to_set (term_variables t) ∪ variables).
Proof.
  intros Ha Ht Hg. unfold check_term. eapply holds_bind; [by apply (control_checks (fun _ => True))|]. intros [] _.
  pose proof (term_refuted a t Ha Ht) as Hbad. destruct t as [v|v|g]; simpl in Hbad.
  - eapply holds_bind; [apply (identifier_checks _ _ _ (fun _ => len v <= vl_max_identifier_bytes limits)); [done|intros; apply Hbad; lia]|].
    intros [] Hv. apply holds_ret. simpl. split_and!; [done..|]. set_solver.
  - destruct (_ >? _) eqn:E1; bool_to_prop; [apply reject_checks, Hbad; lia|]. apply holds_ret. simpl.
    split_and!; [lia|done|set_solver].
  - eapply holds_bind; [apply (identifier_checks _ _ _ (fun _ => len g <= vl_max_identifier_bytes limits)); [done|intros; apply Hbad; lia]|].
    intros [] Hv. destruct allow; [apply holds_ret; simpl; split_and!; [done..|set_solver]|].
    apply reject_checks. intros H. pose proof (safe_ground rule (acc_safe _ _ H rule rule_in) a (Hg eq_refl)) as Hgen.
    by apply (proj1 (atom_generates_false a) Hgen g).
Qed.

Lemma check_atom_checks (a : Atom) (atoms : list Atom) (arities : gmap RelationId Z) (variables : gset VarName) (allow : bool) :
  a ∈ rule_atoms rule -> (allow = false -> a ∈ r_positive_body rule ++ r_negative_body rule) ->
  arities_of atoms arities -> (forall b, b ∈ atoms -> b ∈ program_atoms all) ->
  checks (check_atom check_control limits a (r_id rule) arities variables allow)
    (fun '(arities', variables') => atom_within limits a /\ (allow = false -> atom_generates a = false) /\
       arities_of (atoms ++ [a]) arities' /\ variables' = list_to_set (atom_variables a) ∪ variables).
Proof.
  intros Ha Hg Har Hin. unfold check_atom. pose proof (atom_refuted a Ha) as Hbad.
  eapply holds_bind; [by apply (control_checks (fun _ => True))|]. intros [] _.
  eapply holds_bind.
  { apply (identifier_checks _ _ _ (fun _ => len (a_relation a) <= vl_max_identifier_bytes limits)); [done|].
    intros. apply Hbad. intros []. lia. }
  intros [] Hrel. destruct (_ >? _) eqn:E1; bool_to_prop; [apply reject_checks, Hbad; intros []; lia|].
  eapply holds_bind.
  { apply (holds_conseq _ _ _ (fun _ => arities !! a_relation a = None \/ arities !! a_relation a = Some (Atom_arity a))); [|intros ? H; exact H].
    destruct (arities !! a_relation a) as [k|] eqn:Ek; [|apply holds_ret; by left].
    destruct (k =? Atom_arity a) eqn:E2; bool_to_prop; [apply holds_ret; subst; by right|].
    apply reject_checks. intros H. apply Har in Ek as (b & Hb & Hbr & Hbk). apply E2. rewrite <- Hbk.
    apply (acc_arities _ _ H); [by apply Hin| |done]. apply elem_of_program_atoms. eauto. }
  intros [] Hold. eapply holds_bind.
  { apply (holds_for_each _ _ _ (fun pre vars => Forall (term_within limits) pre /\
      (allow = false -> existsb is_generated pre = false) /\
      vars = list_to_set (pre ≫= term_variables) ∪ variables)).
    - intros pre t rest vars Ht (H1 & H2 & H3).
      eapply holds_conseq; [apply (check_term_checks a); [done|rewrite Ht; set_solver|done]|].
      intros vars' (H4 & H5 & ->). split_and!.
      + apply Forall_app. split; [done|by constructor].
      + intros Hf. rewrite existsb_app, (H2 Hf). simpl. by rewrite (H5 Hf).
      + rewrite H3, bind_app. simpl. rewrite app_nil_r, list_to_set_app_L. set_solver.
    - split_and!; [constructor|done|simpl; set_solver]. }
  intros vars (H1 & H2 & ->). apply holds_ret. split_and!; [|done|by apply arities_of_snoc|done].
  split; [done|lia|]. intros t Ht. rewrite Forall_forall in H1. by apply H1, list_elem_of_In.
Qed.

(** *** The head of a rule *)

Lemma head_terms_checks :
  checks (for_each (check_head_term rule) tt (a_terms (r_head rule)))
    (fun _ => atom_generates (r_head rule) = true -> r_run_once rule = true).
Proof.
  eapply holds_conseq.
  - apply (holds_for_each _ _ _ (fun pre (_ : unit) => existsb is_generated pre = true -> r_run_once rule = true)); [|done].
    intros pre t rest [] Ht Hpre. rewrite existsb_app. simpl. unfold check_head_term. destruct t as [| |g]; simpl;
      [apply holds_ret; by rewrite orb_false_r..|].
    destruct (r_run_once rule) eqn:Eo; [by apply holds_ret|]. apply reject_checks. intros Hacc.
    pose proof (safe_generates rule (acc_safe _ _ Hacc rule rule_in)) as Hs. rewrite Eo in Hs.
    discriminate Hs. destruct (atom_generates (r_head rule)) eqn:Eg; [done|].
    rewrite atom_generates_false in Eg. exfalso. apply (Eg g). rewrite Ht. set_solver.
  - done.
Qed.
(** *** The bodies of a rule

    [done] are the rules before this one, [before] the atoms before this rule. *)
  Context (done : list Rule) (before : list Atom).
  Hypothesis before_in : forall b, b ∈ before -> b ∈ program_atoms all.

Record body_checked (pre : list Atom) (st : gmap RelationId Z * DependencyGraph * gset VarName) : Prop := {
  bc_arities : arities_of (before ++ pre) st.1.1;
  bc_within : forall a, a ∈ pre -> atom_within limits a /\ atom_generates a = false;
  bc_variables : st.2 = body_variables pre;
  bc_graph : graph_is st.1.2
    (fun r d => positive_edge done r d \/ (a_relation (r_head rule) = r /\ exists a, a ∈ pre /\ a_relation a = d))
    (negative_edge done)
    (fun r d => closed_edge done r d \/
       (r_run_once rule = true /\ a_relation (r_head rule) = r /\ exists a, a ∈ pre /\ a_relation a = d))
    (fun r => mentions done r \/ exists a, a ∈ pre /\ (r = a_relation a \/ r = a_relation (r_head rule)))
}.

Lemma body_atom_checks (pre rest : list Atom) (a : Atom) (st : gmap RelationId Z * DependencyGraph * gset VarName) :
  r_positive_body rule = pre ++ a :: rest -> body_checked pre st ->
  checks (check_body_atom check_control limits rule st a) (body_checked (pre ++ [a])).
Proof.
  intros Hbody H. destruct st as [[arities g] vars]. unfold check_body_atom.
  assert (Ha : a ∈ r_positive_body rule) by (rewrite Hbody; set_solver).
  eapply holds_bind.
  { apply (check_atom_checks a (before ++ pre)); [unfold rule_atoms; set_solver|set_solver|apply H|].
    intros b [Hb|Hb]%elem_of_app; [by apply before_in|]. apply elem_of_program_atoms. exists rule.
    split; [done|]. unfold rule_atoms. rewrite Hbody. set_solver. }
  intros [arities' vars'] (Hw & Hgen & Har & Hvars). apply holds_ret.
  pose proof (bc_graph _ _ H) as G. cbn [fst snd] in G.
  split; cbn [fst snd].
  - by rewrite app_assoc.
  - intros b [Hb|Hb%list_elem_of_singleton]%elem_of_app; [by apply (bc_within _ _ H)|subst; auto].
  - pose proof (bc_variables _ _ H) as Hv. cbn [snd] in Hv. by rewrite Hvars, body_variables_snoc, Hv.
  - pose proof (add_positive_is G (a_relation (r_head rule)) (a_relation a)) as G1.
    destruct (r_run_once rule).
    + pose proof (add_closed_is G1 (a_relation (r_head rule)) (a_relation a)) as G2.
      eapply graph_is_ext; [exact G2|..]; intros; rewrite ?ex_snoc; naive_solver.
    + eapply graph_is_ext; [exact G1|..]; intros; rewrite ?ex_snoc; naive_solver.
Qed.

(** *** The negated atoms *)

Record negative_checked (pre : list Atom) (st : gmap RelationId Z * DependencyGraph) : Prop := {
  nc_arities : arities_of (before ++ r_positive_body rule ++ pre) st.1;
  nc_within : forall a, a ∈ pre -> atom_within limits a /\ atom_generates a = false /\
    forall v, v ∈ atom_variables a -> bound rule v;
  nc_graph : graph_is st.2
    (fun r d => positive_edge done r d \/
       (a_relation (r_head rule) = r /\ exists a, a ∈ r_positive_body rule /\ a_relation a = d))
    (fun r d => negative_edge done r d \/ (a_relation (r_head rule) = r /\ exists a, a ∈ pre /\ a_relation a = d))
    (fun r d => closed_edge done r d \/
       (r_run_once rule = true /\ a_relation (r_head rule) = r /\ exists a, a ∈ r_positive_body rule /\ a_relation a = d))
    (fun r => (mentions done r \/ exists a, a ∈ r_positive_body rule /\ (r = a_relation a \/ r = a_relation (r_head rule)))
       \/ exists a, a ∈ pre /\ r = a_relation a)
}.

Lemma negative_atom_checks (pre rest : list Atom) (a : Atom) (st : gmap RelationId Z * DependencyGraph) :
  r_negative_body rule = pre ++ a :: rest -> negative_checked pre st ->
  checks (check_negative_atom check_control limits rule (body_variables (r_positive_body rule)) st a)
    (negative_checked (pre ++ [a])).
Proof.
  intros Hbody H. destruct st as [arities g]. unfold check_negative_atom.
  assert (Ha : a ∈ r_negative_body rule) by (rewrite Hbody; set_solver).
  eapply holds_bind.
  { apply (check_atom_checks a (before ++ r_positive_body rule ++ pre));
      [unfold rule_atoms; set_solver|set_solver|apply H|].
    intros b [Hb|Hb]%elem_of_app; [by apply before_in|]. apply elem_of_program_atoms. exists rule.
    split; [done|]. unfold rule_atoms. rewrite Hbody. set_solver. }
  intros [arities' vars'] (Hw & Hgen & Har & Hvars). eapply holds_bind.
  { apply check_safe_checks. intros v Hv Hn Hacc. apply Hn, elem_of_body_variables.
    apply (safe_negative rule (acc_safe _ _ Hacc rule rule_in) a v Ha). set_solver. }
  intros u Hsub. apply holds_ret. split; cbn [fst snd].
  - by rewrite !app_assoc, <- (app_assoc before).
  - intros b [Hb|Hb%list_elem_of_singleton]%elem_of_app; [by apply (nc_within _ _ H)|subst b].
    split_and!; [done|auto|]. intros v Hv. apply elem_of_body_variables. set_solver.
  - eapply graph_is_ext; [exact (add_negative_is (nc_graph _ _ H) (a_relation (r_head rule)) (a_relation a))|..];
      intros; rewrite ?ex_snoc; naive_solver.
Qed.
End checks.

Lemma acceptable_perm_1 (limits : ValidationLimits) (rules rules' : list Rule) :
  rules ≡ₚ rules' -> acceptable limits rules -> acceptable limits rules'.
Proof.
  intros Hp [H1 H2 H3 H4 H5 (T & H6 & H7)]. split; [by rewrite <- Hp|by rewrite <- Hp|..].
  - intros r Hr. apply H3. by rewrite Hp.
  - intros r Hr. apply H4. by rewrite Hp.
  - intros a b Ha Hb. apply H5; unfold program_atoms in *; by rewrite Hp.
  - exists T. split; [done|]. intros r Hr. apply H7. by rewrite Hp.
Qed.

#[global] Instance acceptable_perm (limits : ValidationLimits) :
  Proper (Permutation ==> iff) (acceptable limits).
Proof. intros l k H. split; apply acceptable_perm_1; [done|by symmetry]. Qed.

(** *** The program *)

Section program.
  Context {S E : Type} (check_control : S -> result E S) (limits : ValidationLimits) (all : list Rule).
Abbreviation checks := (holds (fun _ : S => True) (refuted check_control limits all)).

Record rules_checked (pre : list Rule) (st : ValidationState) : Prop := {
  rc_ids : vs_ids st = list_to_set (r_id <$> pre);
  rc_nodup : NoDup (r_id <$> pre);
  rc_arities : arities_of (program_atoms pre) (vs_arities st);
  rc_graph : graph_of pre (vs_dependencies st);
  rc_ok : forall r, r ∈ pre -> rule_within limits r /\ rule_safe r
}.

Lemma rules_checked_nil : rules_checked [] (mkValidationState ∅ ∅ DependencyGraph_default).
Proof.
  split; cbn [vs_ids vs_arities vs_dependencies]; [done|constructor|apply arities_of_nil| |by intros r ?%elem_of_nil].
  eapply graph_is_ext; [exact graph_is_default|..]; intros; split; try done.
  - by intros (q & a & ?%elem_of_nil & _).
  - by intros (q & a & ?%elem_of_nil & _).
  - by intros (q & a & ?%elem_of_nil & _).
  - by intros (a & ?%elem_of_nil & _).
Qed.

Lemma rule_limits_checks (pre rest : list Rule) (rule : Rule) (ids : gset RuleId) :
  pre ++ rule :: rest ≡ₚ all -> ids = list_to_set (r_id <$> pre) ->
  checks (check_rule_limits limits rule ids)
    (fun ids' => ids' = {[r_id rule]} ∪ ids /\ r_id rule ∉ r_id <$> pre /\
       saturating_add (saturating_add (len (r_positive_body rule)) (len (r_negative_body rule))) 1
         <= vl_max_atoms_per_rule limits /\
       len (r_id rule) <= vl_max_identifier_bytes limits /\
       forall s, r_source rule = Some s -> len s <= vl_max_source_bytes limits).
Proof.
  intros Hall Hids. unfold check_rule_limits.
  assert (Hbad : ~ rule_within limits rule -> ~ acceptable limits all).
  { intros Hn Hacc. apply Hn, (acc_within _ _ Hacc). rewrite <- Hall. set_solver. }
  destruct (_ >? _) eqn:E1; bool_to_prop; [apply reject_checks, Hbad; intros []; lia|].
  case_decide as Hd.
  { apply reject_checks. intros Hacc. pose proof (acc_ids _ _ Hacc) as Hnd. rewrite <- Hall in Hnd.
    rewrite fmap_app, fmap_cons in Hnd. apply list.NoDup_app in Hnd as (_ & Hnd & _).
    apply (Hnd (r_id rule)); [|constructor]. subst ids. by apply elem_of_list_to_set in Hd. }
  eapply holds_bind.
  { apply (identifier_checks _ _ _ _ _ _ (fun _ => len (r_id rule) <= vl_max_identifier_bytes limits)); [done|].
    intros. apply Hbad. intros []. lia. }
  intros [] Hid. eapply holds_bind.
  { apply (holds_conseq _ _ _ (fun _ => forall s, r_source rule = Some s -> len s <= vl_max_source_bytes limits)); [|intros ? H; exact H].
    destruct (r_source rule) as [s|] eqn:Es; [|by apply holds_ret].
    destruct (_ >? _) eqn:E2; bool_to_prop; [|apply holds_ret; by intros ? [= <-]].
    apply reject_checks, Hbad. intros [_ _ Hs _]. specialize (Hs s Es). lia. }
  intros [] Hs. apply holds_ret. split_and!; [done| |lia|done..].
  intros Hin. apply Hd. subst ids. by apply elem_of_list_to_set.
Qed.

Lemma elem_of_program_atoms_snoc (pre : list Rule) (rule : Rule) (a : Atom) :
  a ∈ program_atoms (pre ++ [rule]) <-> a ∈ program_atoms pre \/ a ∈ rule_atoms rule.
Proof. unfold program_atoms. rewrite bind_app, elem_of_app. simpl. by rewrite app_nil_r. Qed.

Lemma ex_rule_snoc (P : Rule -> Atom -> Prop) (pre : list Rule) (rule : Rule) :
  (exists q a, q ∈ pre ++ [rule] /\ P q a) <-> (exists q a, q ∈ pre /\ P q a) \/ exists a, P rule a.
Proof.
  setoid_rewrite elem_of_app. setoid_rewrite list_elem_of_singleton. naive_solver.
Qed.

(** The loops over the two bodies. *)
Section rule.
  Context (pre rest : list Rule) (rule : Rule) (st : ValidationState).
  Hypothesis split_all : pre ++ rule :: rest ≡ₚ all.
  Hypothesis pre_checked : rules_checked pre st.

Lemma rule_in_all : rule ∈ all.
Proof. rewrite <- split_all. set_solver. Qed.

Lemma before_in_all (b : Atom) : b ∈ program_atoms pre -> b ∈ program_atoms all.
Proof.
  rewrite !elem_of_program_atoms. intros (q & Hq & Hb). exists q. split; [|done].
  rewrite <- split_all. set_solver.
Qed.

Lemma body_checks :
  checks (for_each (check_body_atom check_control limits rule) (vs_arities st, vs_dependencies st, ∅) (r_positive_body rule))
    (body_checked limits rule pre (program_atoms pre) (r_positive_body rule)).
Proof.
  apply (holds_for_each _ _ _ (body_checked limits rule pre (program_atoms pre))).
  - intros p a r b Hbody Hb. by apply (body_atom_checks _ _ _ _ rule_in_all _ _ before_in_all p r).
  - split; cbn [fst snd].
    + rewrite app_nil_r. apply pre_checked.
    + by intros a ?%elem_of_nil.
    + done.
    + eapply graph_is_ext; [exact (rc_graph _ _ pre_checked)|..]; intros; split; auto.
      * intros [?|(_ & a & ?%elem_of_nil & _)]; done.
      * intros [?|(_ & _ & a & ?%elem_of_nil & _)]; done.
      * intros [?|(a & ?%elem_of_nil & _)]; done.
Qed.

Lemma negative_checks (arities : gmap RelationId Z) (g : DependencyGraph) (vars : gset VarName) :
  body_checked limits rule pre (program_atoms pre) (r_positive_body rule) (arities, g, vars) ->
  checks (for_each (check_negative_atom check_control limits rule vars) (arities, g) (r_negative_body rule))
    (negative_checked limits rule pre (program_atoms pre) (r_negative_body rule)).
Proof.
  intros Hbody. pose proof (bc_variables _ _ _ _ _ _ Hbody) as Hvars. cbn [snd] in Hvars. subst vars.
  apply (holds_for_each _ _ _ (negative_checked limits rule pre (program_atoms pre))).
  - intros p a r b Hneg Hb. by apply (negative_atom_checks _ _ _ _ rule_in_all _ _ before_in_all p r).
  - split; cbn [fst snd].
    + rewrite app_nil_r. apply Hbody.
    + by intros a ?%elem_of_nil.
    + eapply graph_is_ext; [exact (bc_graph _ _ _ _ _ _ Hbody)|..]; intros; split; auto.
      * intros [?|(_ & a & ?%elem_of_nil & _)]; done.
      * intros [?|(a & ?%elem_of_nil & _)]; done.
Qed.

(** The graph with a further rule. *)
Lemma graph_snoc (arities : gmap RelationId Z) (g : DependencyGraph) :
  negative_checked limits rule pre (program_atoms pre) (r_negative_body rule) (arities, g) ->
  graph_of (pre ++ [rule]) (ensure_relation g (a_relation (r_head rule))).
Proof.
  intros Hneg.
  eapply graph_is_ext; [exact (ensure_relation_is (nc_graph _ _ _ _ _ _ Hneg) (a_relation (r_head rule)))|..].
  - intros r d. unfold positive_edge. rewrite ex_rule_snoc. naive_solver.
  - intros r d. unfold negative_edge. rewrite ex_rule_snoc. naive_solver.
  - intros r d. unfold closed_edge. rewrite ex_rule_snoc. naive_solver.
  - intros r. unfold mentions. setoid_rewrite elem_of_program_atoms_snoc. unfold rule_atoms.
    setoid_rewrite elem_of_cons. setoid_rewrite elem_of_app. naive_solver.
Qed.

Lemma check_rule_checks : checks (check_rule check_control limits st rule) (rules_checked (pre ++ [rule])).
Proof.
  unfold check_rule. eapply holds_bind; [by apply (control_checks _ _ _ (fun _ => True))|]. intros [] _.
  eapply holds_bind; [apply (rule_limits_checks pre rest); [done|apply pre_checked]|].
  intros ids (Hids & Hnew & Hatoms & Hid & Hsrc). eapply holds_bind; [exact body_checks|].
  intros [[arities g] vars] Hbody. cbn beta iota. pose proof (bc_variables _ _ _ _ _ _ Hbody) as Hvars.
  eapply holds_bind; [exact (negative_checks arities g vars Hbody)|]. cbn [snd] in Hvars. subst vars.
  intros [arities' g'] Hneg. cbn beta iota. eapply holds_bind.
  { apply (check_atom_checks _ _ _ _ rule_in_all (r_head rule) (program_atoms pre ++ r_positive_body rule ++ r_negative_body rule));
      [unfold rule_atoms; set_solver|done|apply Hneg|].
    intros b [Hb|Hb]%elem_of_app; [by apply before_in_all|]. apply elem_of_program_atoms. exists rule.
    split; [exact rule_in_all|]. unfold rule_atoms. set_solver. }
  intros [arities'' head_vars] (Hhw & _ & Har & Hhv). cbn beta iota.
  eapply holds_bind; [apply head_terms_checks, rule_in_all|]. intros u Hgen. eapply holds_bind.
  { apply check_safe_checks. intros v Hv Hn Hacc. apply Hn, elem_of_body_variables.
    apply (safe_head rule (acc_safe _ _ Hacc rule rule_in_all)). subst head_vars. set_solver. }
  intros u' Hsafe. apply holds_ret. split; cbn [vs_ids vs_arities vs_dependencies].
  - rewrite Hids, fmap_app, list_to_set_app_L, (rc_ids _ _ pre_checked). simpl. set_solver.
  - rewrite fmap_app. apply list.NoDup_app. split_and!; [apply pre_checked| |apply NoDup_singleton].
    intros x Hx ->%list_elem_of_singleton. done.
  - eapply arities_of_ext; [exact Har|]. intros a. rewrite elem_of_program_atoms_snoc. unfold rule_atoms. set_solver.
  - by eapply graph_snoc.
  - intros q [Hq|Hq%list_elem_of_singleton]%elem_of_app; [by apply pre_checked|subst q]. split; split; try done.
    + intros a. unfold rule_atoms. rewrite elem_of_cons, elem_of_app. intros [->|[Ha|Ha]]; [done|..].
      * by apply (bc_within _ _ _ _ _ _ Hbody).
      * by apply (nc_within _ _ _ _ _ _ Hneg).
    + intros a [Ha|Ha]%elem_of_app; [by apply (bc_within _ _ _ _ _ _ Hbody)|by apply (nc_within _ _ _ _ _ _ Hneg)].
    + intros a v Ha Hv. by apply (nc_within _ _ _ _ _ _ Hneg a Ha).
    + intros v Hv. apply elem_of_body_variables. apply Hsafe. subst head_vars. set_solver.
Qed.
End rule.

(** The stratification of the rules is one of their graph. *)
Lemma stratified_graph (rules : list Rule) (g : DependencyGraph) (T : RelationId -> Z) :
  graph_of rules g ->
  stratifies g T <-> (forall r, 0 <= T r <= usize_max) /\ forall r, r ∈ rules -> rule_stratified T r.
Proof.
  intros G. split.
  - intros H. split; [apply H|]. intros q Hq.
    assert (Hh : a_relation (r_head q) ∈ relations g).
    { apply (gi_rel _ _ _ _ _ G). exists (r_head q). split; [|done]. apply elem_of_program_atoms.
      exists q. split; [done|constructor]. }
    split; intros a Ha; [split|].
    + apply (st_positive _ _ H); [done|]. apply (gi_pos _ _ _ _ _ G). by exists q, a.
    + intros Ho. apply (st_closed _ _ H); [done|]. apply (gi_clo _ _ _ _ _ G). by exists q, a.
    + apply (st_negative _ _ H); [done|]. apply (gi_neg _ _ _ _ _ G). by exists q, a.
  - intros [Hr H]. split; [done|..]; intros r d _ Hd.
    + apply (gi_pos _ _ _ _ _ G) in Hd as (q & a & Hq & <- & Ha & <-). destruct (H q Hq) as [Hp _]. by apply Hp.
    + apply (gi_neg _ _ _ _ _ G) in Hd as (q & a & Hq & <- & Ha & <-). destruct (H q Hq) as [_ Hn]. by apply Hn.
    + apply (gi_clo _ _ _ _ _ G) in Hd as (q & a & Hq & Ho & <- & Ha & <-). destruct (H q Hq) as [Hp _]. by apply Hp.
Qed.

Lemma relations_bound (rules : list Rule) (g : DependencyGraph) :
  graph_of rules g -> len (relations g) <= len (program_atoms rules).
Proof.
  intros G. unfold len. apply Nat2Z.inj_le. rewrite <- (length_fmap a_relation (program_atoms rules)).
  apply NoDup_incl_length; [apply NoDup_ListNoDup, NoDup_btree_keys|]. intros r Hr.
  apply list_elem_of_In in Hr. apply list_elem_of_In. apply (gi_rel _ _ _ _ _ G) in Hr as (a & Ha & <-).
  apply list_elem_of_fmap. eauto.
Qed.

Lemma checked_validated (rules : list Rule) (st : ValidationState) (strata : gmap RelationId Z) :
  rules_checked rules st -> rising (vs_dependencies st) strata ->
  stratifies (vs_dependencies st) (stratum_of strata) ->
  validated_ok (mkValidatedProgram rules (vs_arities st) (vs_dependencies st) strata).
Proof.
  intros H Hrise Hstrat. pose proof (rc_graph _ _ H) as G.
  split; cbn [vp_rules vp_arities vp_dependencies vp_strata].
  - apply H.
  - intros r Hr. by apply (rc_ok _ _ H).
  - intros r a Hr Ha. apply (rc_arities _ _ H). exists a. split_and!; [|done..]. apply elem_of_program_atoms. eauto.
  - intros rel k Hk. apply (rc_arities _ _ H) in Hk as (a & Ha & <- & <-).
    apply elem_of_program_atoms in Ha as (r & Hr & Ha). eauto 10.
  - intros rel. symmetry. apply Hrise.
  - intros r a Hr Ha. apply Hrise, (gi_rel _ _ _ _ _ G). exists a. split; [|done]. apply elem_of_program_atoms. eauto.
  - intros r Hr. by apply (stratified_graph rules _ _ G).
  - apply Hrise.
Qed.

Lemma validate_with_control_checks :
  len (program_atoms all) < 2 ^ 31 ->
  checks (validate_with_control check_control limits (mkProgram all))
    (fun p => vp_rules p = sort_by r_id all /\ validated_ok p /\ acceptable limits all).
Proof.
  intros Hsize. unfold validate_with_control. cbn [p_rules].
  eapply holds_bind; [by apply (control_checks _ _ _ (fun _ => True))|]. intros [] _.
  destruct (_ >? _) eqn:E1; bool_to_prop; [apply reject_checks; intros []; lia|].
  eapply holds_bind; [by apply (control_checks _ _ _ (fun _ => True))|]. intros [] _.
  pose proof (sort_by_perm r_id all) as Hperm. eapply holds_bind.
  { apply (holds_for_each _ _ _ rules_checked); [|apply rules_checked_nil].
    intros pre r rest st Hs Hst. apply (check_rule_checks pre rest); [by rewrite <- Hs|done]. }
  intros st Hst. pose proof (rc_graph _ _ Hst) as G. eapply holds_bind.
  { apply (holds_lift _ _ _ (fun strata => compute_strata (vs_dependencies st) = Ok strata)).
    destruct (compute_strata (vs_dependencies st)) as [strata|e] eqn:Es; simpl; [done|].
    intros Hacc. rewrite <- Hperm in Hacc. destruct Hacc as [_ _ _ _ _ (T & HT)].
    destruct (compute_strata_complete (vs_dependencies st) T) as [strata H]; [|congruence].
    by apply (stratified_graph _ _ _ G). }
  intros strata Hstrata. eapply holds_bind; [by apply (control_checks _ _ _ (fun _ => True))|]. intros [] _.
  apply compute_strata_least in Hstrata as (Hrise & Hstrat & _).
  2:{ apply Z.le_lt_trans with (1 := relations_bound _ _ G). unfold program_atoms in *. by rewrite Hperm. }
  apply holds_ret. cbn [vp_rules]. split_and!; [done|by apply checked_validated|].
  rewrite <- Hperm. split.
  - by rewrite Hperm.
  - apply Hst.
  - intros r Hr. by apply (rc_ok _ _ Hst).
  - intros r Hr. by apply (rc_ok _ _ Hst).
  - intros a b Ha Hb Hab.
    assert (vs_arities st !! a_relation a = Some (Atom_arity a)) as Hka by (apply (rc_arities _ _ Hst); eauto).
    assert (vs_arities st !! a_relation a = Some (Atom_arity b)) as Hkb by (apply (rc_arities _ _ Hst); rewrite Hab; eauto).
    congruence.
  - exists (stratum_of strata). by apply (stratified_graph _ _ _ G).
Qed.
End program.

(** ** Properties *)

(** C11. [compute_strata] returns the least stratification of the dependency
    graph, over exactly its relations, when the graph has one; it fails exactly when a cycle of
    dependencies goes through a negated or a run-once (closed) dependency.  The
    bound of one round more than there are relations is always enough. *)
Theorem compute_strata_spec (g : DependencyGraph) :
  len (relations g) < 2 ^ 31 ->
  match compute_strata g with
  | Ok strata =>
      (forall r, is_Some (strata !! r) <-> r ∈ relations g) /\ stratifies g (stratum_of strata) /\
      (forall S, stratifies g S -> forall r, stratum_of strata r <= S r) /\
      (forall r, ~ depends g true r r)
  | Err _ => (forall S, ~ stratifies g S) /\ exists r, depends g true r r
  end.
Proof.
  intros Hn. destruct (compute_strata g) as [strata|e] eqn:E.
  - destruct (compute_strata_least g strata Hn E) as ([_ Hdom] & Hs & Hl). split_and!; [done..|].
    intros r Hr. pose proof (depends_stratum g _ true r r Hs Hr). simpl in *. lia.
  - split; [|by apply (compute_strata_cycle g e)].
    intros S HS. destruct (compute_strata_complete g S HS) as [strata H]. congruence.
Qed.

(** C12. [validate] accepts exactly the programs that respect the limits, use rule
    identifiers once and relations with one arity, bind every head and negated
    variable in the positive body, generate blank nodes only in heads of run-once
    rules, and can be stratified; the artifact has the rules in identifier order,
    the arities, and strata that respect every rule. *)
Theorem validate_spec (limits : ValidationLimits) (program : Program) :
  len (program_atoms (p_rules program)) < 2 ^ 31 ->
  match validate program limits with
  | Ok p => acceptable limits (p_rules program) /\ vp_rules p = sort_by r_id (p_rules program) /\ validated_ok p
  | Err _ => ~ acceptable limits (p_rules program)
  end.
Proof.
  intros Hsize. destruct program as [rules]. cbn [p_rules] in *. unfold validate.
  pose proof (validate_with_control_checks (fun u : unit => @Ok Empty_set unit u) limits rules Hsize tt I) as H.
  destruct (validate_with_control _ limits (mkProgram rules) tt) as [[p []]|[e|[]]]; [|done].
  destruct H as [_ (H1 & H2 & H3)]. done.
Qed.

(** ** Samples *)

Definition var (s : string) : PatternTerm := PVariable (str s).
Definition node (s : string) : Value := VTerm (TermNamedNode (mkNamedNode (str s))).
Definition atom (relation : string) (terms : list PatternTerm) : Atom := mkAtom (str relation) terms.
Definition fact (relation : string) (values : list Value) : Fact := mkFact (str relation) values.

(** Reachability, the unreachable pairs, and a blank node per unreachable pair. *)
Definition sample_program : Program := mkProgram
  [ Rule_new (str "step") (atom "path" [var "x"; var "y"]) [atom "edge" [var "x"; var "y"]];
    Rule_new (str "closure") (atom "path" [var "x"; var "z"])
      [atom "path" [var "x"; var "y"]; atom "edge" [var "y"; var "z"]];
    Rule_new_stratified (str "apart") (atom "apart" [var "x"; var "y"])
      [atom "node" [var "x"]; atom "node" [var "y"]] [atom "path" [var "x"; var "y"]];
    run_once (Rule_new (str "witness") (atom "gap" [var "x"; PGeneratedBlankNode (str "g")])
      [atom "apart" [var "x"; var "y"]]) ].

(** [p] depends on its own absence; [a] depends on nothing. *)
Definition blame_graph : DependencyGraph :=
  add_negative (ensure_relation (ensure_relation DependencyGraph_default (str "a")) (str "p")) (str "p") (str "p").

(** The error of an unstratifiable program names the first relation in order, whatever the cycle. *)
Lemma unstratifiable_blames_first :
  compute_strata blame_graph = Err (UnstratifiableNegation (str "a")) /\
  (forall b d, ~ depends blame_graph b (str "a") d) /\ depends blame_graph true (str "p") (str "p").
Proof.
  split_and!.
  - vm_compute. reflexivity.
  - intros b d H. remember (str "a") as r eqn:Hr.
    induction H as [r d _ Hd|r d _ Hd|r d _ Hd|b c r d e H1 IH1 H2 IH2]; subst; [..|by apply IH1];
      vm_compute in Hd; by apply elem_of_nil in Hd.
  - apply depends_negative; apply list_elem_of_In; vm_compute; tauto.
Qed.

Lemma compute_strata_spec_witness :
  len (relations blame_graph) < 2 ^ 31 /\ exists r, depends blame_graph true r r.
Proof.
  assert (H : len (relations blame_graph) < 2 ^ 31) by (vm_compute; reflexivity).
  split; [exact H|]. pose proof (compute_strata_spec blame_graph H) as Hs.
  destruct (compute_strata blame_graph) eqn:E; [|exact (proj2 Hs)].
  exfalso. pose proof (proj1 unstratifiable_blames_first) as He. congruence.
Defined.

Lemma validate_spec_witness :
  len (program_atoms (p_rules sample_program)) < 2 ^ 31 /\
  acceptable ValidationLimits_default (p_rules sample_program).
Proof.
  assert (H : len (program_atoms (p_rules sample_program)) < 2 ^ 31) by (vm_compute; reflexivity).
  split; [exact H|]. pose proof (validate_spec ValidationLimits_default sample_program H) as Hs.
  assert (He : is_ok (validate sample_program ValidationLimits_default) = true) by (vm_compute; reflexivity).
  destruct (validate sample_program ValidationLimits_default) as [p|e]; [exact (proj1 Hs)|discriminate He].
Defined.
