(* ===== verification/DatalogControl.v ===== *)
(** * Limits, cancellation and accounting of the Datalog engine

    lib/oxdatalog/src/engine.rs (options, errors, cancellation token) and
    engine/control.rs.  The engine's mutable context is the state [Exec]: the
    execution guard and the memory estimates.  Time and the other holders of the
    cancellation token are the environment: what the check number [n] sees. *)
From stdpp Require Import gmap.
From S2P Require Import Prelude MachineInt RustStr BTree RdfModel RdfDisplay DatalogIr.
From S2P Require Import StateResult DatalogValidate.

(** ** Parameters

    The memory layout of the types whose size the engine adds up, and the
    hexadecimal SHA-256 digest of the crates [sha2] and [hex]. *)

Inductive SizedType : Set :=
| SizeOfValue | SizeOfVecValue | SizeOfHashMapValueTermId | SizeOfHashMapStringTermId
| SizeOfRelationData | SizeOfIndex | SizeOfRelationMap | SizeOfCandidateMap
| SizeOfVecJoinState | SizeOfVecFact | SizeOfBinding | SizeOfVecFactKey | SizeOfDerivation.

Class DatalogParams := {
  size_of : SizedType -> Z;
  hex_sha256 : bytes -> bytes
}.

(** ** Options *)

Record EvaluationLimits : Set := mkEvaluationLimits {
  el_max_facts : Z;
  el_max_intermediate_rows : Z;
  el_max_iterations : Z;
  el_max_memory_bytes : Z;
  el_max_term_bytes : Z;
  el_timeout : option Z    (* nanoseconds *)
}.
Definition EvaluationLimits_default : EvaluationLimits :=
  mkEvaluationLimits 1000000 1000000 1000 (256 * 1024 * 1024) (1024 * 1024) (Some (30 * 10 ^ 9)).

(** The flag is shared by the clones of the token; the callback is asked at a
    given check. *)
Record CancellationToken : Set := mkCancellationToken {
  ct_cancelled : bool;
  ct_check : option (nat -> bool)
}.
Definition CancellationToken_new : CancellationToken := mkCancellationToken false None.
Definition with_cancellation_check (t : CancellationToken) (check : nat -> bool) : CancellationToken :=
  mkCancellationToken (ct_cancelled t)
    (Some (fun n => match ct_check t with Some previous => previous n | None => false end || check n)).
Definition cancel (t : CancellationToken) : CancellationToken := mkCancellationToken true (ct_check t).

Record EvaluationOptions : Set := mkEvaluationOptions {
  eo_limits : EvaluationLimits;
  eo_track_provenance : bool;
  eo_cancellation_token : CancellationToken
}.
Definition EvaluationOptions_default : EvaluationOptions :=
  mkEvaluationOptions EvaluationLimits_default false CancellationToken_new.

Inductive LimitKind : Set :=
| LimitFacts | LimitIntermediateRows | LimitIterations | LimitMemory | LimitTerms | LimitTime.

Inductive EvaluationError : Set :=
| EEValidation (e : ValidationError)
| InputArity (relation : RelationId) (expected actual : Z)
| InputTermLimit (actual limit : Z)
| GeneratedTermLimit (actual limit : Z)
| GeneratedBlankNodeSpaceExhausted
| Cancelled
| LimitExceeded (kind : LimitKind) (limit : Z).

(** ** The state of an execution *)

(** Estimated bytes of the parts of the working set. *)
Record RuntimeMemory : Set := mkRuntimeMemory {
  m_input : Z;
  m_interner : Z;
  m_base_keys : Z;
  m_all : Z;
  m_delta : Z;
  m_next_delta : Z;
  m_candidates : Z;
  m_provenance : Z;
  m_join_states : Z;
  m_output : Z
}.
Definition RuntimeMemory_default : RuntimeMemory := mkRuntimeMemory 0 0 0 0 0 0 0 0 0 0.
Definition total (m : RuntimeMemory) : Z :=
  saturating_sum (fun x => x) 0
    [m_input m; m_interner m; m_base_keys m; m_all m; m_delta m; m_next_delta m; m_candidates m;
     m_provenance m; m_join_states m; m_output m].

(** The execution guard (its options are a parameter, its start is time 0) and
    the memory estimates; [x_now] counts the checks made. *)
Record Exec : Set := mkExec {
  x_token : CancellationToken;
  x_now : nat;
  x_peak : Z;
  x_memory : RuntimeMemory
}.
Definition Exec_new (options : EvaluationOptions) : Exec :=
  mkExec (eo_cancellation_token options) 0 0 RuntimeMemory_default.

(** What check number [n] sees: whether another clone of the token has
    cancelled before the first or before the second load, and the time since the
    start in nanoseconds. *)
Record Moment : Set := mkMoment { mo_cancel : bool; mo_cancel_late : bool; mo_elapsed : Z }.
Abbreviation Environment := (nat -> Moment) (only parsing).

(** An error of the engine, or a Rust panic. *)
Inductive failure : Set :=
| Raised (e : EvaluationError)
| Panicked.

Abbreviation M := (ST Exec failure).

Definition raise {A : Type} (e : EvaluationError) : M A := throw (Raised e).
(** Indexing and [HashMap] indexing panic when there is nothing at the index. *)
Definition unwrap {A : Type} (o : option A) : M A :=
  match o with Some a => mret a | None => throw Panicked end.

Definition set_memory (f : RuntimeMemory -> RuntimeMemory) : M unit :=
  modify (fun s => mkExec (x_token s) (x_now s) (x_peak s) (f (x_memory s))).
Definition set_input (v : Z) : M unit :=
  set_memory (fun m => mkRuntimeMemory v (m_interner m) (m_base_keys m) (m_all m) (m_delta m)
    (m_next_delta m) (m_candidates m) (m_provenance m) (m_join_states m) (m_output m)).
Definition set_interner (v : Z) : M unit :=
  set_memory (fun m => mkRuntimeMemory (m_input m) v (m_base_keys m) (m_all m) (m_delta m)
    (m_next_delta m) (m_candidates m) (m_provenance m) (m_join_states m) (m_output m)).
Definition set_base_keys (v : Z) : M unit :=
  set_memory (fun m => mkRuntimeMemory (m_input m) (m_interner m) v (m_all m) (m_delta m)
    (m_next_delta m) (m_candidates m) (m_provenance m) (m_join_states m) (m_output m)).
Definition set_all (v : Z) : M unit :=
  set_memory (fun m => mkRuntimeMemory (m_input m) (m_interner m) (m_base_keys m) v (m_delta m)
    (m_next_delta m) (m_candidates m) (m_provenance m) (m_join_states m) (m_output m)).
Definition set_delta (v : Z) : M unit :=
  set_memory (fun m => mkRuntimeMemory (m_input m) (m_interner m) (m_base_keys m) (m_all m) v
    (m_next_delta m) (m_candidates m) (m_provenance m) (m_join_states m) (m_output m)).
Definition set_next_delta (v : Z) : M unit :=
  set_memory (fun m => mkRuntimeMemory (m_input m) (m_interner m) (m_base_keys m) (m_all m) (m_delta m)
    v (m_candidates m) (m_provenance m) (m_join_states m) (m_output m)).
Definition set_candidates (v : Z) : M unit :=
  set_memory (fun m => mkRuntimeMemory (m_input m) (m_interner m) (m_base_keys m) (m_all m) (m_delta m)
    (m_next_delta m) v (m_provenance m) (m_join_states m) (m_output m)).
Definition set_provenance (v : Z) : M unit :=
  set_memory (fun m => mkRuntimeMemory (m_input m) (m_interner m) (m_base_keys m) (m_all m) (m_delta m)
    (m_next_delta m) (m_candidates m) v (m_join_states m) (m_output m)).
Definition set_join_states (v : Z) : M unit :=
  set_memory (fun m => mkRuntimeMemory (m_input m) (m_interner m) (m_base_keys m) (m_all m) (m_delta m)
    (m_next_delta m) (m_candidates m) (m_provenance m) v (m_output m)).
Definition set_output (v : Z) : M unit :=
  set_memory (fun m => mkRuntimeMemory (m_input m) (m_interner m) (m_base_keys m) (m_all m) (m_delta m)
    (m_next_delta m) (m_candidates m) (m_provenance m) (m_join_states m) v).
Definition get_memory : M RuntimeMemory := s ← get; mret (x_memory s).

(** ** The guard *)

Section guard.
  Context {P : DatalogParams} (env : Environment) (options : EvaluationOptions).

Definition is_cancelled (n : nat) (t : CancellationToken) : bool * CancellationToken :=
  let t := if mo_cancel (env n) then cancel t else t in
  if ct_cancelled t then (true, t)
  else if match ct_check t with Some check => check n | None => false end then (true, cancel t)
  else
    let t := if mo_cancel_late (env n) then cancel t else t in
    (ct_cancelled t, t).

Definition timed_out (elapsed timeout : Z) : bool := elapsed >=? timeout.

(** [timeout.as_millis().try_into().unwrap_or(usize::MAX)] *)
Definition timeout_millis (timeout : Z) : Z := default usize_max (checked U64 (timeout / 10 ^ 6)).

Definition check : M unit := fun s =>
  let '(cancelled, token) := is_cancelled (x_now s) (x_token s) in
  if cancelled then Err (Raised Cancelled)
  else
    let ok := Ok (tt, mkExec token (S (x_now s)) (x_peak s) (x_memory s)) in
    match el_timeout (eo_limits options) with
    | Some timeout =>
        if timed_out (mo_elapsed (env (x_now s))) timeout
        then Err (Raised (LimitExceeded LimitTime (timeout_millis timeout)))
        else ok
    | None => ok
    end.

Definition observe : M unit :=
  check;;
  memory ← get_memory;
  let estimated_bytes := total memory in
  modify (fun s => mkExec (x_token s) (x_now s) (Z.max (x_peak s) estimated_bytes) (x_memory s));;
  if estimated_bytes >? el_max_memory_bytes (eo_limits options)
  then raise (LimitExceeded LimitMemory (el_max_memory_bytes (eo_limits options)))
  else mret tt.

Definition elapsed : M Z := s ← get; mret (mo_elapsed (env (x_now s))).
Definition peak_estimated_bytes : M Z := s ← get; mret (x_peak s).

Definition estimate_fact (f : Fact) : Z :=
  saturating_add
    (saturating_add (saturating_add 64 (len (f_relation f))) (saturating_mul (len (f_values f)) (size_of SizeOfValue)))
    (saturating_sum Value_estimated_bytes 0 (f_values f)).

End guard.
