(* ===== verification/DatalogStorage.v ===== *)
(** * The term interner and the relation stores of the Datalog engine

    lib/oxdatalog/src/engine/storage.rs.  Ground values are interned as 32-bit
    identifiers; a relation is a set of tuples of identifiers with an index per
    position.  [None] is a Rust panic (an index or a key that is not there). *)
From stdpp Require Import gmap.
From S2P Require Import Prelude MachineInt RustStr BTree RdfModel RdfDisplay DatalogIr.
From S2P Require Import StateResult DatalogValidate DatalogControl.

Abbreviation TermId := Z (only parsing).
Abbreviation Tuple := (list Z) (only parsing).
Abbreviation FactKey := (bytes * list Z)%type (only parsing).
Abbreviation Binding := (gmap VarName Z) (only parsing).
Definition size_of_TermId : Z := 4.

(** ** The interner *)

Record Interner : Set := mkInterner {
  it_values : list Value;
  it_ids : gmap Value TermId;
  it_generated : gmap bytes TermId;
  it_bytes : Z
}.

Section estimates.
  Context {P : DatalogParams}.
Definition estimate_value_slot (v : Value) : Z :=
  saturating_add (saturating_add (size_of SizeOfValue) (Value_estimated_bytes v)) 16.
Definition estimate_id_entry (v : Value) : Z :=
  saturating_add (saturating_add (estimate_value_slot v) size_of_TermId) 48.
Definition estimate_values (values : list Value) : Z :=
  saturating_sum estimate_value_slot (size_of SizeOfVecValue) values.
End estimates.

Definition Interner_id (it : Interner) (v : Value) : option TermId := it_ids it !! v.
Definition value_at (it : Interner) (id : TermId) : option Value := it_values it !! Z.to_nat id.
Definition encode_fact (it : Interner) (f : Fact) : option FactKey :=
  tuple ← mapM (Interner_id it) (f_values f); mret (f_relation f, tuple).
Definition decode_fact (it : Interner) (key : FactKey) : option Fact :=
  values ← mapM (value_at it) key.2; mret (mkFact key.1 values).

(** One entry of the binding in [generation_key]. *)
Definition generation_entry (it : Interner) (entry : VarName * TermId) : option bytes :=
  value ← value_at it entry.2;
  let value := sort_key value in
  mret (str "|" ++ print_nat (len entry.1) ++ str ":" ++ entry.1 ++ str "=" ++ print_nat (len value) ++ str ":" ++ value).
Definition generation_key (it : Interner) (rule : RuleId) (generator : BlankNodeGenerator) (binding : Binding)
  : option bytes :=
  entries ← mapM (generation_entry it) (btree_entries binding);
  mret ((print_nat (len rule) ++ str ":" ++ rule ++ str "|" ++ print_nat (len generator) ++ str ":" ++ generator)
        ++ mjoin entries).

Section interner.
  Context {P : DatalogParams} (env : Environment) (options : EvaluationOptions).

Definition push_value (st : list Value * Z) (value : Value) : M (list Value * Z) :=
  let '(values, values_bytes) := st in
  let projected := saturating_add values_bytes (estimate_value_slot value) in
  set_interner projected;;
  observe env options;;
  mret (values ++ [value], projected).

(** The values of the facts, then the constants of the rules. *)
Definition interner_values (p : ValidatedProgram) (facts : list Fact) : list Value :=
  (facts ≫= f_values) ++ (vp_rules p ≫= fun r => rule_atoms r ≫= atom_constants).

Definition Interner_new (p : ValidatedProgram) (facts : list Fact) : M Interner :=
  pushed ← for_each push_value ([], size_of SizeOfVecValue) (interner_values p facts);
  check env options;;
  let values := sort_by sort_key pushed.1 in
  check env options;;
  let values := dedup values in
  if len values >? int_max U32 then raise (LimitExceeded LimitTerms (int_max U32))
  else
    let ids_bytes := saturating_sum estimate_id_entry (size_of SizeOfHashMapValueTermId) values in
    let interner_bytes :=
      saturating_add (saturating_add (estimate_values values) ids_bytes) (size_of SizeOfHashMapStringTermId) in
    set_interner interner_bytes;;
    observe env options;;
    ids ← for_each (fun (st : gmap Value TermId * Z) value =>
            check env options;;
            mret (<[value := st.2]> st.1, st.2 + 1)) (∅, 0) values;
    mret (mkInterner values ids.1 ∅ interner_bytes).

(** The first label from [suffix] on that no value has, of [count] labels. *)
Definition generated_label (base : bytes) (suffix : Z) : Value :=
  VTerm (TermBlankNode (BlankNode_new_unchecked
    (if suffix =? 0 then base else base ++ str "-" ++ print_nat suffix))).
Fixpoint find_label (it : Interner) (base : bytes) (suffix : Z) (count : nat) : M (option Value) :=
  match count with
  | O => mret None
  | S count =>
      check env options;;
      let candidate := generated_label base suffix in
      match it_ids it !! candidate with
      | None => mret (Some candidate)
      | Some _ => find_label it base (suffix + 1) count
      end
  end.

Definition generate_blank_node (it : Interner) (rule : RuleId) (generator : BlankNodeGenerator) (binding : Binding)
  : M (TermId * Interner) :=
  key ← unwrap (generation_key it rule generator binding);
  match it_generated it !! key with
  | Some id => mret (id, it)
  | None =>
      if len (it_values it) >? int_max U32 then raise (LimitExceeded LimitTerms (int_max U32))
      else
        let id := len (it_values it) in
        let base := str "oxdatalog-" ++ hex_sha256 key in
        value ← find_label it base 0 (S (size (it_ids it)));
        match value with
        | None => raise GeneratedBlankNodeSpaceExhausted
        | Some value =>
            let actual := Value_estimated_bytes value in
            if actual >? el_max_term_bytes (eo_limits options)
            then raise (GeneratedTermLimit actual (el_max_term_bytes (eo_limits options)))
            else
              let projected :=
                saturating_add (saturating_add (saturating_add (saturating_add (it_bytes it)
                  (estimate_value_slot value)) (estimate_id_entry value)) (len key)) 64 in
              set_interner projected;;
              observe env options;;
              mret (id, mkInterner (it_values it ++ [value]) (<[value := id]> (it_ids it))
                          (<[key := id]> (it_generated it)) projected)
        end
  end.
End interner.

(** ** Relations *)

Record RelationData : Set := mkRelationData {
  rd_tuples : gset Tuple;
  rd_indexes : list (gmap TermId (gset Tuple))
}.
Definition RelationData_new (arity : Z) : RelationData := mkRelationData ∅ (replicate (Z.to_nat arity) ∅).
Definition RelationData_is_empty (d : RelationData) : bool := bool_decide (rd_tuples d = ∅).

(** The loop over the positions of the tuple, from [position] on. *)
Fixpoint index_tuple (tuple : Tuple) (position : nat) (values : Tuple) (indexes : list (gmap TermId (gset Tuple)))
  : option (list (gmap TermId (gset Tuple))) :=
  match values with
  | [] => Some indexes
  | value :: values =>
      index ← indexes !! position;
      index_tuple tuple (S position) values
        (<[position := <[value := {[tuple]} ∪ default ∅ (index !! value)]> index]> indexes)
  end.
Definition RelationData_insert (d : RelationData) (tuple : Tuple) : option (RelationData * bool) :=
  if decide (tuple ∈ rd_tuples d) then Some (d, false)
  else
    indexes ← index_tuple tuple 0 tuple (rd_indexes d);
    mret (mkRelationData ({[tuple]} ∪ rd_tuples d) indexes, true).

(** The positions a pattern fixes, with the identifier it fixes there. *)
Fixpoint constraints_from (position : nat) (terms : list PatternTerm) (binding : Binding) (it : Interner)
  : option (list (nat * TermId)) :=
  match terms with
  | [] => Some []
  | term :: terms =>
      value ← match term with
              | PConstant value => id ← Interner_id it value; mret (Some id)
              | PVariable variable => mret (binding !! variable)
              | PGeneratedBlankNode _ => mret None
              end;
      rest ← constraints_from (S position) terms binding it;
      mret match value with Some v => (position, v) :: rest | None => rest end
  end.

(** [self.indexes\[position\].get(value)] *)
Definition index_entry (d : RelationData) (c : nat * TermId) : option (option (gset Tuple)) :=
  index ← rd_indexes d !! c.1; mret (index !! c.2).
Definition index_size (d : RelationData) (c : nat * TermId) : option nat :=
  entry ← index_entry d c; mret (match entry with Some s => size s | None => O end).

(** [min_by_key]: the first constraint whose index entry is smallest. *)
Fixpoint min_constraint (d : RelationData) (best : (nat * TermId) * nat) (cs : list (nat * TermId))
  : option (nat * TermId) :=
  match cs with
  | [] => Some best.1
  | c :: cs =>
      n ← index_size d c;
      min_constraint d (if (n <? best.2)%nat then (c, n) else best) cs
  end.
Definition select_index (d : RelationData) (cs : list (nat * TermId)) : option (option (gset Tuple)) :=
  match cs with
  | [] => Some None
  | c :: cs => n ← index_size d c; best ← min_constraint d (c, n) cs; index_entry d best
  end.

(** [constraints.iter().all(|(position, value)| tuple\[position\] == value)] *)
Fixpoint satisfies (tuple : Tuple) (cs : list (nat * TermId)) : option bool :=
  match cs with
  | [] => Some true
  | (position, value) :: cs =>
      v ← tuple !! position;
      if v =? value then satisfies tuple cs else Some false
  end.
Fixpoint filter_tuples (cs : list (nat * TermId)) (tuples : list Tuple) : option (list Tuple) :=
  match tuples with
  | [] => Some []
  | tuple :: tuples =>
      b ← satisfies tuple cs;
      rest ← filter_tuples cs tuples;
      mret (if (b : bool) then tuple :: rest else rest)
  end.

Definition matching (d : RelationData) (atom : Atom) (binding : Binding) (it : Interner) : option (list Tuple) :=
  constraints ← constraints_from 0 (a_terms atom) binding it;
  selected ← select_index d constraints;
  filter_tuples constraints (btree_elements (default (rd_tuples d) selected)).

(** ** Stores *)

Record RelationStore : Set := mkRelationStore {
  rs_relations : gmap RelationId RelationData;
  rs_bytes : Z
}.

Section store_estimates.
  Context {P : DatalogParams}.
Definition base_estimated_bytes (arity : Z) : Z :=
  saturating_add (size_of SizeOfRelationData) (saturating_mul arity (size_of SizeOfIndex)).
(** [arity + 1] is the length of a vector plus one. *)
Definition tuple_estimated_bytes (arity : Z) : Z :=
  saturating_mul (arity + 1) (saturating_add (saturating_mul arity size_of_TermId) 48).
Definition relation_estimated_bytes (relation : RelationId) (arity : Z) : Z :=
  saturating_add (saturating_add (len relation) (base_estimated_bytes arity)) 48.
Definition fact_key_estimated_bytes (key : FactKey) : Z :=
  saturating_add (saturating_add (len key.1) (saturating_mul (len key.2) size_of_TermId)) 64.

Definition RelationStore_new (arities : gmap RelationId Z) : RelationStore :=
  mkRelationStore (RelationData_new <$> arities)
    (saturating_sum (fun e => relation_estimated_bytes e.1 e.2) (size_of SizeOfRelationMap) (btree_entries arities)).

Definition insert_key (s : RelationStore) (key : FactKey) : option (RelationStore * bool) :=
  let '(relation, tuple) := key in
  let arity := len tuple in
  let present := rs_relations s !! relation in
  let relation_bytes :=
    match present with Some _ => 0 | None => relation_estimated_bytes relation arity end in
  let data := default (RelationData_new arity) present in
  r ← RelationData_insert data tuple;
  let '(data, inserted) := r in
  let relations := <[relation := data]> (rs_relations s) in
  if (inserted : bool)
  then mret (mkRelationStore relations
               (saturating_add (saturating_add (rs_bytes s) relation_bytes) (tuple_estimated_bytes arity)), true)
  else mret (mkRelationStore relations (rs_bytes s), false).

Definition contains_key (s : RelationStore) (key : FactKey) : bool :=
  match rs_relations s !! key.1 with
  | Some data => bool_decide (key.2 ∈ rd_tuples data)
  | None => false
  end.

Definition projected_insert_bytes (s : RelationStore) (key : FactKey) : Z :=
  if contains_key s key then rs_bytes s
  else
    saturating_add
      (saturating_add (rs_bytes s)
         match rs_relations s !! key.1 with
         | Some _ => 0
         | None => relation_estimated_bytes key.1 (len key.2)
         end)
      (tuple_estimated_bytes (len key.2)).
End store_estimates.

Definition relation (s : RelationStore) (r : RelationId) : option RelationData := rs_relations s !! r.
Definition RelationStore_is_empty (s : RelationStore) : bool :=
  forallb (fun e => RelationData_is_empty e.2) (btree_entries (rs_relations s)).
Definition relation_keys (r : RelationId) (d : RelationData) : list FactKey :=
  (fun tuple => (r, tuple)) <$> btree_elements (rd_tuples d).
Definition keys (s : RelationStore) : list FactKey :=
  btree_entries (rs_relations s) ≫= fun e => relation_keys e.1 e.2.
Definition keys_for_relation (s : RelationStore) (r : RelationId) : list FactKey :=
  match rs_relations s !! r with Some d => relation_keys r d | None => [] end.
Definition RelationStore_len (s : RelationStore) : Z :=
  foldr (fun e n => Z.of_nat (size (rd_tuples e.2)) + n) 0 (btree_entries (rs_relations s)).
