(* ===== verification/DatalogRules.v ===== *)
(** * Rule evaluation in the Datalog engine

    lib/oxdatalog/src/provenance.rs (derivations) and engine/rules.rs: joins,
    negation as absence, heads, candidates and their commitment. *)
From stdpp Require Import gmap.
From S2P Require Import Prelude MachineInt RustStr BTree RdfModel RdfDisplay DatalogIr.
From S2P Require Import StateResult DatalogValidate DatalogControl DatalogStorage.

(** ** Provenance *)

Record Derivation : Set := mkDerivation {
  dv_rule_id : RuleId;
  dv_rule_source : option bytes;
  dv_premises : list Fact;
  dv_absent_premises : list Fact
}.
Definition Derivation_new_with_absence (rule_id : RuleId) (rule_source : option bytes)
  (premises absent_premises : list Fact) : Derivation :=
  mkDerivation rule_id rule_source (sort_by Fact_canonical_key premises)
    (sort_by Fact_canonical_key absent_premises).
Definition Derivation_canonical_key (d : Derivation) : bytes :=
  dv_rule_id d ++ str "|" ++ default [] (dv_rule_source d)
  ++ mjoin ((fun f => str "|" ++ Fact_canonical_key f) <$> dv_premises d)
  ++ mjoin ((fun f => str "|!" ++ Fact_canonical_key f) <$> dv_absent_premises d).

Record Provenance : Set := mkProvenance {
  pv_derivations : gmap Fact Derivation;
  pv_bytes : Z
}.
Definition Provenance_default : Provenance := mkProvenance ∅ 0.
Definition derivation (p : Provenance) (f : Fact) : option Derivation := pv_derivations p !! f.

Section estimates.
  Context {P : DatalogParams}.

(** [estimate_fact] of provenance.rs *)
Definition provenance_estimate_fact (f : Fact) : Z :=
  saturating_add (saturating_add 64 (len (f_relation f)))
    (saturating_sum (fun v => saturating_add (Value_estimated_bytes v) (size_of SizeOfValue)) 0 (f_values f)).
Definition Derivation_estimated_bytes (d : Derivation) : Z :=
  saturating_add
    (saturating_add
       (saturating_add (saturating_add (size_of SizeOfDerivation) (len (dv_rule_id d)))
          (match dv_rule_source d with Some s => len s | None => 0 end))
       (saturating_sum provenance_estimate_fact 0 (dv_premises d)))
    (saturating_sum provenance_estimate_fact 0 (dv_absent_premises d)).
Definition provenance_entry_bytes (f : Fact) (d : Derivation) : Z :=
  saturating_add (saturating_add (provenance_estimate_fact f) (Derivation_estimated_bytes d)) 64.
Definition Provenance_projected_insert_bytes (p : Provenance) (f : Fact) (d : Derivation) : Z :=
  let old := match pv_derivations p !! f with Some old => provenance_entry_bytes f old | None => 0 end in
  saturating_add (saturating_sub (pv_bytes p) old) (provenance_entry_bytes f d).
Definition Provenance_insert (p : Provenance) (f : Fact) (d : Derivation) : Provenance :=
  mkProvenance (<[f := d]> (pv_derivations p)) (Provenance_projected_insert_bytes p f d).

Definition candidate_bytes (key : FactKey) (d : Derivation) : Z :=
  saturating_add (saturating_add (fact_key_estimated_bytes key) (Derivation_estimated_bytes d)) 64.

(** A join state: the binding and the premises matched so far. *)
Definition estimate_state (binding : Binding) (premises : list FactKey) : Z :=
  saturating_add
    (saturating_sum (fun v => saturating_add (len v) 64) (size_of SizeOfBinding) (btree_keys binding))
    (saturating_sum fact_key_estimated_bytes (size_of SizeOfVecFactKey) premises).
Definition estimate_states (states : list (Binding * list FactKey)) : Z :=
  saturating_sum (fun s => estimate_state s.1 s.2) (size_of SizeOfVecJoinState) states.
End estimates.

(** ** Candidates *)

Record CandidateSet : Set := mkCandidateSet {
  cs_entries : gmap FactKey Derivation;
  cs_bytes : Z
}.

(** ** Binding and instantiation *)

(** The loop of [bind]; [None] is a panic, [Some None] a mismatch.  [zip] stops
    with the shorter list. *)
Fixpoint bind_terms (terms : list PatternTerm) (tuple : Tuple) (binding : Binding) (it : Interner)
  : option (option Binding) :=
  match terms, tuple with
  | pattern :: terms, value :: tuple =>
      match pattern with
      | PConstant constant =>
          id ← Interner_id it constant;
          if id =? value then bind_terms terms tuple binding it else mret None
      | PVariable variable =>
          match binding !! variable with
          | Some bound =>
              if bound =? value then bind_terms terms tuple (<[variable := value]> binding) it else mret None
          | None => bind_terms terms tuple (<[variable := value]> binding) it
          end
      | PGeneratedBlankNode _ => mret None
      end
  | _, _ => mret (Some binding)
  end.
Definition bind (atom : Atom) (tuple : Tuple) (binding : Binding) (it : Interner) : option (option Binding) :=
  bind_terms (a_terms atom) tuple binding it.

(** [None] is a panic, [Some None] a term that is not ground. *)
Fixpoint ground_terms (terms : list PatternTerm) (binding : Binding) (it : Interner) : option (option Tuple) :=
  match terms with
  | [] => mret (Some [])
  | term :: terms =>
      id ← match term with
           | PConstant value => id ← Interner_id it value; mret (Some id)
           | PVariable variable => mret (binding !! variable)
           | PGeneratedBlankNode _ => mret None
           end;
      match id with
      | None => mret None
      | Some id =>
          rest ← ground_terms terms binding it;
          mret match rest with Some rest => Some (id :: rest) | None => None end
      end
  end.
Definition instantiate_ground (atom : Atom) (binding : Binding) (it : Interner) : option (option Tuple) :=
  ground_terms (a_terms atom) binding it.

Section rules.
  Context {P : DatalogParams} (env : Environment) (options : EvaluationOptions).

Definition CandidateSet_new : CandidateSet := mkCandidateSet ∅ (size_of SizeOfCandidateMap).

Definition CandidateSet_insert (c : CandidateSet) (key : FactKey) (d : Derivation) : M CandidateSet :=
  match cs_entries c !! key with
  | None =>
      if Z.of_nat (size (cs_entries c)) >=? el_max_facts (eo_limits options)
      then raise (LimitExceeded LimitFacts (el_max_facts (eo_limits options)))
      else
        let projected := saturating_add (cs_bytes c) (candidate_bytes key d) in
        set_candidates projected;;
        observe env options;;
        mret (mkCandidateSet (<[key := d]> (cs_entries c)) projected)
  | Some old =>
      if ltb (Derivation_canonical_key d) (Derivation_canonical_key old) then
        let projected :=
          saturating_add (saturating_sub (cs_bytes c) (candidate_bytes key old)) (candidate_bytes key d) in
        set_candidates projected;;
        observe env options;;
        mret (mkCandidateSet (<[key := d]> (cs_entries c)) projected)
      else mret c
  end.

Definition retain_new (c : CandidateSet) (all : RelationStore) : M CandidateSet :=
  check env options;;
  let entries := filter (fun e => contains_key all e.1 = false) (cs_entries c) in
  let bytes := saturating_sum (fun e => candidate_bytes e.1 e.2) (size_of SizeOfCandidateMap) (btree_entries entries) in
  set_candidates bytes;;
  observe env options;;
  mret (mkCandidateSet entries bytes).

(** ** Joins *)

Abbreviation JoinState := (gmap VarName Z * list (bytes * list Z))%type.

(** One matching tuple: [next] and its bytes grow when the tuple binds. *)
Definition join_tuple (atom : Atom) (it : Interner) (states_bytes : Z) (state : JoinState)
  (acc : list JoinState * Z) (tuple : Tuple) : M (list JoinState * Z) :=
  let '(next, next_bytes) := acc in
  check env options;;
  bound ← unwrap (bind atom tuple state.1 it);
  match bound with
  | None => mret acc
  | Some next_binding =>
      let next_premises := state.2 ++ [(a_relation atom, tuple)] in
      let projected := saturating_add next_bytes (estimate_state next_binding next_premises) in
      set_join_states (saturating_add states_bytes projected);;
      observe env options;;
      let next := next ++ [(next_binding, next_premises)] in
      if len next >? el_max_intermediate_rows (eo_limits options)
      then raise (LimitExceeded LimitIntermediateRows (el_max_intermediate_rows (eo_limits options)))
      else mret (next, projected)
  end.
Definition join_state (relation : RelationData) (atom : Atom) (it : Interner) (states_bytes : Z)
  (acc : list JoinState * Z) (state : JoinState) : M (list JoinState * Z) :=
  check env options;;
  tuples ← unwrap (matching relation atom state.1 it);
  for_each (join_tuple atom it states_bytes state) acc tuples.

(** The loop over the body from [position] on; [None] when the rule has no
    match (the early [return Ok(())]). *)
Fixpoint join_body (delta_position : option nat) (all delta : RelationStore) (it : Interner) (position : nat)
  (body : list Atom) (states : list JoinState) (states_bytes : Z) : M (option (list JoinState * Z)) :=
  match body with
  | [] => mret (Some (states, states_bytes))
  | atom :: body =>
      let store := if decide (Some position = delta_position) then delta else all in
      match relation store (a_relation atom) with
      | None => set_join_states 0;; observe env options;; mret None
      | Some relation =>
          joined ← for_each (join_state relation atom it states_bytes) ([], size_of SizeOfVecJoinState) states;
          let '(next, next_bytes) := joined in
          set_join_states next_bytes;;
          observe env options;;
          match next with
          | [] => set_join_states 0;; observe env options;; mret None
          | _ => join_body delta_position all delta it (S position) body next next_bytes
          end
      end
  end.

(** ** Heads *)

(** [Some] of the absent facts, [None] when a negated atom holds. *)
Fixpoint ground_absent_premises (negative : list Atom) (binding : Binding) (all : RelationStore) (it : Interner)
  (absent : list Fact) : M (option (list Fact)) :=
  match negative with
  | [] => mret (Some absent)
  | atom :: negative =>
      check env options;;
      ground ← unwrap (instantiate_ground atom binding it);
      match ground with
      | None => mret None
      | Some tuple =>
          let key := (a_relation atom, tuple) in
          if contains_key all key then mret None
          else
            fact ← unwrap (decode_fact it key);
            ground_absent_premises negative binding all it (absent ++ [fact])
      end
  end.

(** The closure of [instantiate_head]: the identifier of one term of the head. *)
Definition instantiate_term (rule : RuleId) (binding : Binding) (it : Interner) (term : PatternTerm)
  : M (option TermId * Interner) :=
  match term with
  | PConstant value => id ← unwrap (Interner_id it value); mret (Some id, it)
  | PVariable variable => mret (binding !! variable, it)
  | PGeneratedBlankNode generator =>
      r ← generate_blank_node env options it rule generator binding; mret (Some r.1, r.2)
  end.
(** The terms of the head in order; the first that is not bound ends it. *)
Fixpoint instantiate_head (rule : RuleId) (terms : list PatternTerm) (binding : Binding) (it : Interner)
  : M (option Tuple * Interner) :=
  match terms with
  | [] => mret (Some [], it)
  | term :: terms =>
      first ← instantiate_term rule binding it term;
      let '(id, it) := first in
      match id with
      | None => mret (None, it)
      | Some id =>
          r ← instantiate_head rule terms binding it;
          mret (match r.1 with Some rest => Some (id :: rest) | None => None end, r.2)
      end
  end.

Definition decode_premise (it : Interner) (states_bytes : Z) (acc : list Fact * Z) (premise : FactKey)
  : M (list Fact * Z) :=
  let '(decoded, decoded_bytes) := acc in
  check env options;;
  fact ← unwrap (decode_fact it premise);
  let decoded_bytes := saturating_add decoded_bytes (estimate_fact fact) in
  set_join_states (saturating_add states_bytes decoded_bytes);;
  observe env options;;
  mret (decoded ++ [fact], decoded_bytes).

(** The head of one join state. *)
Definition derive_state (rule : Rule) (all : RelationStore) (states_bytes : Z)
  (acc : Interner * CandidateSet) (state : JoinState) : M (Interner * CandidateSet) :=
  let '(it, candidates) := acc in
  check env options;;
  absent ← ground_absent_premises (r_negative_body rule) state.1 all it [];
  match absent with
  | None => mret acc
  | Some absent_premises =>
      head ← instantiate_head (r_id rule) (a_terms (r_head rule)) state.1 it;
      let '(tuple, it) := head in
      match tuple with
      | None => mret (it, candidates)
      | Some tuple =>
          decoded ← for_each (decode_premise it states_bytes) ([], size_of SizeOfVecFact) state.2;
          check env options;;
          let derivation := Derivation_new_with_absence (r_id rule) (r_source rule) decoded.1 absent_premises in
          check env options;;
          candidates ← CandidateSet_insert candidates (a_relation (r_head rule), tuple) derivation;
          mret (it, candidates)
      end
  end.

Definition evaluate_rule_join (rule : Rule) (delta_position : option nat) (all delta : RelationStore)
  (it : Interner) (candidates : CandidateSet) : M (Interner * CandidateSet) :=
  let states : list JoinState := [(∅, [])] in
  let states_bytes := estimate_states states in
  set_join_states states_bytes;;
  observe env options;;
  joined ← join_body delta_position all delta it 0 (r_positive_body rule) states states_bytes;
  match joined with
  | None => mret (it, candidates)
  | Some (states, states_bytes) =>
      r ← for_each (derive_state rule all states_bytes) (it, candidates) states;
      set_join_states 0;;
      observe env options;;
      mret r
  end.

Definition evaluate_rule (rule : Rule) (delta_position : nat) (all delta : RelationStore)
  (it : Interner) (candidates : CandidateSet) : M (Interner * CandidateSet) :=
  evaluate_rule_join rule (Some delta_position) all delta it candidates.
Definition evaluate_rule_once (rule : Rule) (all : RelationStore) (it : Interner) (candidates : CandidateSet)
  : M (Interner * CandidateSet) :=
  evaluate_rule_join rule None all all it candidates.

(** ** Commitment *)

Inductive DeltaTarget : Set := DeltaCurrent | DeltaNext.

Definition set_delta_target (target : DeltaTarget) (v : Z) : M unit :=
  match target with DeltaCurrent => set_delta v | DeltaNext => set_next_delta v end.

(** The provenance part of the loop: the projected size, and the insertion. *)
Definition project_provenance (provenance : option Provenance) (it : Interner) (key : FactKey) (d : Derivation)
  : M (option Fact) :=
  match provenance with
  | None => mret None
  | Some p =>
      fact ← unwrap (decode_fact it key);
      set_provenance (Provenance_projected_insert_bytes p fact d);;
      mret (Some fact)
  end.
Definition insert_provenance (provenance : option Provenance) (decoded : option Fact) (d : Derivation)
  : M (option Provenance) :=
  match provenance, decoded with
  | Some p, Some fact =>
      let p := Provenance_insert p fact d in
      set_provenance (pv_bytes p);;
      mret (Some p)
  | _, _ => mret provenance
  end.

Definition commit_candidate (target : DeltaTarget) (it : Interner)
  (acc : RelationStore * RelationStore * option Provenance) (entry : FactKey * Derivation)
  : M (RelationStore * RelationStore * option Provenance) :=
  let '(all, delta, provenance) := acc in
  let '(key, d) := entry in
  check env options;;
  if contains_key all key then mret acc
  else if RelationStore_len all >=? el_max_facts (eo_limits options)
  then raise (LimitExceeded LimitFacts (el_max_facts (eo_limits options)))
  else
    set_all (projected_insert_bytes all key);;
    set_delta_target target (projected_insert_bytes delta key);;
    decoded ← project_provenance provenance it key d;
    observe env options;;
    all' ← unwrap (insert_key all key);
    delta' ← unwrap (insert_key delta key);
    provenance ← insert_provenance provenance decoded d;
    mret (all'.1, delta'.1, provenance).

Definition commit_candidates (candidates : CandidateSet) (all delta : RelationStore) (target : DeltaTarget)
  (it : Interner) (provenance : option Provenance) : M (RelationStore * RelationStore * option Provenance) :=
  committed ← for_each (commit_candidate target it) (all, delta, provenance) (btree_entries (cs_entries candidates));
  set_candidates 0;;
  observe env options;;
  mret committed.

End rules.
