(* ===== verification/DatalogEngine.v ===== *)
(** * The Datalog engine

    lib/oxdatalog/src/engine/strata.rs and the entry points of engine.rs:
    semi-naive evaluation of each stratum to a fixpoint, input checks and
    materialization of the result. *)
From stdpp Require Import gmap.
From S2P Require Import Prelude MachineInt RustStr BTree RdfModel RdfDisplay DatalogIr.
From S2P Require Import StateResult DatalogValidate DatalogControl DatalogStorage DatalogRules.

Record EvaluationResult : Set := mkEvaluationResult {
  er_facts : list Fact;
  er_derived_facts : list Fact;
  er_provenance : option Provenance;
  er_iterations : Z;
  er_elapsed : Z;
  er_peak_estimated_working_set_bytes : Z
}.
Definition estimated_memory_bytes (r : EvaluationResult) : Z := er_peak_estimated_working_set_bytes r.

Section engine.
  Context {P : DatalogParams} (env : Environment) (options : EvaluationOptions).

(** ** Strata *)

Definition in_stratum (p : ValidatedProgram) (s : Z) (r : RelationId) : bool :=
  bool_decide (stratum p r = Some s).
Definition stratum_rules (p : ValidatedProgram) (s : Z) : list Rule :=
  filter (fun r => in_stratum p s (a_relation (r_head r)) = true) (vp_rules p).
Definition nonrecursive_rules (p : ValidatedProgram) (s : Z) : list Rule :=
  filter (fun r => forallb (fun a => negb (in_stratum p s (a_relation a))) (r_positive_body r) = true)
    (stratum_rules p s).

Definition insert_delta (delta : RelationStore) (key : FactKey) : M RelationStore :=
  check env options;;
  set_delta (projected_insert_bytes delta key);;
  observe env options;;
  r ← unwrap (insert_key delta key);
  mret r.1.

(** The facts of the relations of the stratum. *)
Definition initial_delta (p : ValidatedProgram) (s : Z) (all : RelationStore) : M RelationStore :=
  let delta := RelationStore_new (vp_arities p) in
  set_delta (rs_bytes delta);;
  observe env options;;
  delta ← for_each (fun delta r => for_each insert_delta delta (keys_for_relation all r)) delta
            (filter (fun r => in_stratum p s r = true) (relations (vp_dependencies p)));
  set_delta (rs_bytes delta);;
  observe env options;;
  mret delta.

(** The engine's data: the interner, all the facts, and the provenance. *)
Record Engine_state : Set := mkState {
  es_interner : Interner;
  es_all : RelationStore;
  es_provenance : option Provenance
}.

Definition evaluate_nonrecursive_rules (p : ValidatedProgram) (s : Z) (st : Engine_state) (delta : RelationStore)
  : M (Engine_state * RelationStore) :=
  let candidates := CandidateSet_new in
  set_candidates (cs_bytes candidates);;
  observe env options;;
  r ← for_each (fun acc rule => evaluate_rule_once env options rule (es_all st) acc.1 acc.2)
        (es_interner st, candidates) (nonrecursive_rules p s);
  let '(it, candidates) := r in
  candidates ← retain_new env options candidates (es_all st);
  committed ← commit_candidates env options candidates (es_all st) delta DeltaCurrent it (es_provenance st);
  let '(all, delta, provenance) := committed in
  set_all (rs_bytes all);;
  set_delta (rs_bytes delta);;
  observe env options;;
  mret (mkState it all provenance, delta).

(** One rule at one position of its body, when that position is recursive and has new facts. *)
Definition evaluate_position (p : ValidatedProgram) (s : Z) (rule : Rule) (all delta : RelationStore)
  (acc : Interner * CandidateSet) (position : nat * Atom) : M (Interner * CandidateSet) :=
  let '(delta_position, atom) := position in
  if negb (in_stratum p s (a_relation atom)) then mret acc
  else if match relation delta (a_relation atom) with Some d => RelationData_is_empty d | None => true end then mret acc
  else evaluate_rule env options rule delta_position all delta acc.1 acc.2.
Definition enumerate {A : Type} (l : list A) : list (nat * A) := imap pair l.
Definition evaluate_recursive_rule (p : ValidatedProgram) (s : Z) (all delta : RelationStore)
  (acc : Interner * CandidateSet) (rule : Rule) : M (Interner * CandidateSet) :=
  for_each (evaluate_position p s rule all delta) acc (enumerate (r_positive_body rule)).

(** One round of the [while] loop of a stratum; [inr] when the delta is empty. *)
Definition stratum_round (p : ValidatedProgram) (s : Z) (st : Engine_state * RelationStore * Z)
  : M (Engine_state * RelationStore * Z + Engine_state * Z) :=
  let '(st, delta, iterations) := st in
  if RelationStore_is_empty delta then mret (inr (st, iterations))
  else
    check env options;;
    if iterations >=? el_max_iterations (eo_limits options)
    then raise (LimitExceeded LimitIterations (el_max_iterations (eo_limits options)))
    else
      let candidates := CandidateSet_new in
      set_candidates (cs_bytes candidates);;
      observe env options;;
      r ← for_each (evaluate_recursive_rule p s (es_all st) delta) (es_interner st, candidates) (stratum_rules p s);
      let '(it, candidates) := r in
      let next_delta := RelationStore_new (vp_arities p) in
      set_next_delta (rs_bytes next_delta);;
      observe env options;;
      candidates ← retain_new env options candidates (es_all st);
      committed ← commit_candidates env options candidates (es_all st) next_delta DeltaNext it (es_provenance st);
      let '(all, delta, provenance) := committed in
      set_delta (rs_bytes delta);;
      set_next_delta 0;;
      set_all (rs_bytes all);;
      observe env options;;
      mret (inl (mkState it all provenance, delta, iterations + 1)).

(** The counter of the iterations is a [usize] below the limit: the loop ends
    within [2 ^ 64] rounds. *)
Definition evaluate_stratum (p : ValidatedProgram) (st : Engine_state * Z) (s : Z) : M (Engine_state * Z) :=
  let '(st, iterations) := st in
  check env options;;
  delta ← initial_delta p s (es_all st);
  r ← evaluate_nonrecursive_rules p s st delta;
  r ← while_loop 64 (stratum_round p s) (r.1, r.2, iterations);
  match r with
  | inl _ => throw Panicked
  | inr r => set_delta 0;; observe env options;; mret r
  end.

Definition evaluate_strata (p : ValidatedProgram) (st : Engine_state) : M (Engine_state * Z) :=
  for_each (evaluate_stratum p) (st, 0) (seqZ 0 (max_stratum p + 1)).

(** ** Entry points *)

Definition validate_value (u : unit) (value : Value) : M unit :=
  check env options;;
  let actual := Value_estimated_bytes value in
  if actual >? el_max_term_bytes (eo_limits options)
  then raise (InputTermLimit actual (el_max_term_bytes (eo_limits options)))
  else mret tt.
Definition validate_fact (arities : gmap RelationId Z) (fact : Fact) : M (gmap RelationId Z) :=
  check env options;;
  match arities !! f_relation fact with
  | Some expected =>
      if expected =? Fact_arity fact then mret tt
      else raise (InputArity (f_relation fact) expected (Fact_arity fact))
  | None => mret tt
  end;;
  for_each validate_value tt (f_values fact);;
  mret (<[f_relation fact := Fact_arity fact]> arities).
Definition validate_input (p : ValidatedProgram) (input : list Fact) : M unit :=
  for_each validate_fact (vp_arities p) input;;
  mret tt.

Definition accept_fact (input : list Fact) (fact : Fact) : M (list Fact) :=
  check env options;;
  if len input >=? el_max_facts (eo_limits options)
  then raise (LimitExceeded LimitFacts (el_max_facts (eo_limits options)))
  else
    memory ← get_memory;
    set_input (saturating_add (m_input memory) (estimate_fact fact));;
    observe env options;;
    mret (input ++ [fact]).

Definition load_fact (it : Interner) (acc : RelationStore * gset FactKey) (fact : Fact)
  : M (RelationStore * gset FactKey) :=
  let '(all, base) := acc in
  check env options;;
  key ← unwrap (encode_fact it fact);
  (if decide (key ∈ base) then mret tt
   else
     memory ← get_memory;
     set_base_keys (saturating_add (m_base_keys memory) (fact_key_estimated_bytes key));;
     set_all (projected_insert_bytes all key);;
     observe env options);;
  all ← unwrap (insert_key all key);
  mret (all.1, {[key]} ∪ base).

(** Decode one key of the result. *)
Definition output_fact (it : Interner) (facts : list Fact) (key : FactKey) : M (list Fact) :=
  check env options;;
  fact ← unwrap (decode_fact it key);
  memory ← get_memory;
  set_output (saturating_add (m_output memory) (estimate_fact fact));;
  observe env options;;
  mret (facts ++ [fact]).

Definition evaluate_validated_with_guard (p : ValidatedProgram) (facts : list Fact) : M EvaluationResult :=
  observe env options;;
  input ← for_each accept_fact [] facts;
  check env options;;
  validate_input p input;;
  it ← Interner_new env options p input;
  set_interner (it_bytes it);;
  let all := RelationStore_new (vp_arities p) in
  set_all (rs_bytes all);;
  observe env options;;
  loaded ← for_each (load_fact it) (all, ∅) input;
  let '(all, base) := loaded in
  set_all (rs_bytes all);;
  observe env options;;
  let provenance := if eo_track_provenance options then Some Provenance_default else None in
  evaluated ← evaluate_strata p (mkState it all provenance);
  let '(st, iterations) := evaluated in
  set_delta 0;;
  observe env options;;
  facts ← for_each (output_fact (es_interner st)) [] (keys (es_all st));
  check env options;;
  let facts := sort_by Fact_canonical_key facts in
  check env options;;
  derived_facts ← for_each (output_fact (es_interner st)) []
                    (filter (fun key => key ∉ base) (keys (es_all st)));
  check env options;;
  let derived_facts := sort_by Fact_canonical_key derived_facts in
  check env options;;
  elapsed ← elapsed env;
  peak ← peak_estimated_bytes;
  mret (mkEvaluationResult facts derived_facts (es_provenance st) iterations elapsed peak).

(** A fresh guard starts at time 0 with no checks made. *)
Definition evaluate_validated (p : ValidatedProgram) (facts : list Fact) : result failure EvaluationResult :=
  fst <$> (check env options;; evaluate_validated_with_guard p facts) (Exec_new options).

(** The guard's check as the control of [validate_with_control]. *)
Definition check_state (s : Exec) : result failure Exec := snd <$> check env options s.
Definition validate_program (limits : ValidationLimits) (program : Program) : M ValidatedProgram := fun s =>
  match validate_with_control check_state limits program s with
  | Ok r => Ok r
  | Err (CVValidation e) => Err (Raised (EEValidation e))
  | Err (CVControl e) => Err e
  end.
Definition Engine_evaluate (limits : ValidationLimits) (program : Program) (facts : list Fact)
  : result failure EvaluationResult :=
  fst <$> (check env options;;
           validated ← validate_program limits program;
           check env options;;
           evaluate_validated_with_guard validated facts) (Exec_new options).

End engine.
