(* ===== verification/DatalogControlFacts.v ===== *)
(** * The guard of the Datalog engine

    The Hoare triples of the guard's operations, over the invariant of the
    execution state: the token is cancelled only when somebody asked for it, and
    the peak of the memory estimate is within its limit.  The error condition is
    a parameter: every raised error has to be allowed. *)
From stdpp Require Import gmap.
From S2P Require Import Prelude MachineInt RustStr BTree RdfModel RdfDisplay DatalogIr.
From S2P Require Import StateResult DatalogValidate DatalogControl.

Lemma saturating_sum_bound {A : Type} (f : A -> Z) (init : Z) (l : list A) :
  init <= usize_max -> saturating_sum f init l <= usize_max.
Proof.
  unfold saturating_sum. revert init. induction l as [|x l IH]; intros init Hi; simpl; [done|].
  apply IH. unfold saturating_add. lia.
Qed.

Lemma total_bound (m : RuntimeMemory) : total m <= usize_max.
Proof. apply saturating_sum_bound. unfold usize_max, int_max. lia. Qed.

Section guard.
  Context (env : Environment) (options : EvaluationOptions).

(** Somebody cancels: the options' token, another clone at some check, or the callback. *)
Definition cancel_requested : Prop :=
  ct_cancelled (eo_cancellation_token options) = true \/
  exists n, mo_cancel (env n) = true \/ mo_cancel_late (env n) = true \/
            match ct_check (eo_cancellation_token options) with Some c => c n | None => false end = true.

Record exec_ok (s : Exec) : Prop := {
  xo_token : ct_cancelled (x_token s) = true -> cancel_requested;
  xo_check : ct_check (x_token s) = ct_check (eo_cancellation_token options);
  xo_peak : x_peak s <= Z.max 0 (el_max_memory_bytes (eo_limits options))
}.

Lemma Exec_new_ok : exec_ok (Exec_new options).
Proof. split; simpl; [by left|done|lia]. Qed.

(** The errors of the guard are allowed. *)
Record guard_errors (F : failure -> Prop) : Prop := {
  ge_cancelled : cancel_requested -> F (Raised Cancelled);
  ge_time : forall timeout, el_timeout (eo_limits options) = Some timeout ->
    (exists n, timeout <= mo_elapsed (env n)) ->
    F (Raised (LimitExceeded LimitTime (timeout_millis timeout)));
  ge_memory : el_max_memory_bytes (eo_limits options) < usize_max ->
    F (Raised (LimitExceeded LimitMemory (el_max_memory_bytes (eo_limits options))))
}.

Lemma is_cancelled_spec (n : nat) (t : CancellationToken) :
  (ct_cancelled t = true -> cancel_requested) ->
  ct_check t = ct_check (eo_cancellation_token options) ->
  let '(b, t') := is_cancelled env n t in
  (b = true -> cancel_requested) /\ (ct_cancelled t' = true -> cancel_requested) /\
  ct_check t' = ct_check (eo_cancellation_token options).
Proof.
  intros H1 H2. assert (Hn : mo_cancel (env n) = true \/ mo_cancel_late (env n) = true \/
    match ct_check (eo_cancellation_token options) with Some c => c n | None => false end = true -> cancel_requested).
  { intros H. right. by exists n. }
  unfold is_cancelled. rewrite <- H2 in Hn |- *. destruct t as [c k]. cbn [ct_cancelled ct_check cancel] in *.
  destruct (mo_cancel (env n)); cbn [ct_cancelled ct_check cancel]; [naive_solver|].
  destruct c; [naive_solver|]. destruct (match k with Some c => c n | None => false end); cbn [ct_cancelled ct_check cancel]; [naive_solver|].
  destruct (mo_cancel_late (env n)); cbn [ct_cancelled ct_check cancel]; naive_solver.
Qed.

Context (F : failure -> Prop) (HF : guard_errors F).

Lemma check_holds (Q : unit -> Prop) : Q tt -> holds exec_ok F (check env options) Q.
Proof.
  intros HQ s [H1 H2 H3]. unfold check.
  pose proof (is_cancelled_spec (x_now s) (x_token s) H1 H2) as Hc.
  destruct (is_cancelled env (x_now s) (x_token s)) as [[] t']; destruct Hc as (Hb & Ht & Hk).
  - by apply HF, Hb.
  - destruct (el_timeout (eo_limits options)) as [timeout|] eqn:Et; [|done].
    destruct (timed_out _ _) eqn:E; [|done]. unfold timed_out in E. bool_to_prop.
    apply (ge_time F HF timeout Et). exists (x_now s). lia.
Qed.

Lemma set_memory_holds (f : RuntimeMemory -> RuntimeMemory) (Q : unit -> Prop) :
  Q tt -> holds exec_ok F (set_memory f) Q.
Proof. intros HQ. apply holds_modify; [|done]. intros s [H1 H2 H3]. by split. Qed.

Lemma get_memory_holds (Q : RuntimeMemory -> Prop) : (forall m, Q m) -> holds exec_ok F get_memory Q.
Proof. intros HQ s Hs. done. Qed.

Lemma observe_holds (Q : unit -> Prop) : Q tt -> holds exec_ok F (observe env options) Q.
Proof.
  intros HQ. unfold observe. eapply holds_bind; [by apply (check_holds (fun _ => True))|]. intros _ _.
  eapply holds_bind; [apply (get_memory_holds (fun m => total m <= usize_max)), total_bound|].
  intros m Hm s [H1 H2 H3]. cbv beta in Hm. destruct (total m >? el_max_memory_bytes (eo_limits options)) eqn:E; bool_to_prop.
  - apply (ge_memory F HF). lia.
  - split; [|done]. split; cbn [x_token x_peak]; [done..|]. lia.
Qed.

Lemma unwrap_holds {A : Type} (o : option A) (a : A) (Q : A -> Prop) :
  o = Some a -> Q a -> holds exec_ok F (unwrap o) Q.
Proof. intros -> HQ. by apply holds_ret. Qed.

Lemma raise_holds {A : Type} (e : EvaluationError) (Q : A -> Prop) :
  F (Raised e) -> holds exec_ok F (raise e) Q.
Proof. intros H. by apply holds_throw. Qed.
End guard.

(** Step over the guard's operations at the head of a computation. *)
Ltac guard_step HF :=
  match goal with
  | |- holds _ _ (check _ _ ≫= _) _ => eapply holds_bind; [apply (check_holds _ _ _ HF (fun _ => True) I)|intros _ _]
  | |- holds _ _ (observe _ _ ≫= _) _ => eapply holds_bind; [apply (observe_holds _ _ _ HF (fun _ => True) I)|intros _ _]
  | |- holds _ _ (?f _ ≫= _) _ =>
      eapply holds_bind; [apply (set_memory_holds _ _ _ _ (fun _ => True) I)|intros _ _]
  end.

(** * Validation under the control of a guard

    [validate_with_control] interleaves the checks of the program with a control
    that can interrupt it.  When it is not interrupted the answer is the one of
    [validate], whatever the control does to its state. *)

Section control.
  Context {S E : Type} (check_control : S -> result E S) (limits : ValidationLimits).
  Context (I : S -> Prop) (F : E -> Prop).
  Hypothesis control_ok : forall s, I s -> match check_control s with Ok s' => I s' | Err e => F e end.
Abbreviation never := (fun u : unit => @Ok Empty_set unit u).

(** The controlled computation agrees with the one that is never interrupted. *)
Definition agrees {A : Type} (m : ST S (ControlledValidationError E) A)
  (n : ST unit (ControlledValidationError Empty_set) A) : Prop :=
  forall s, I s -> match m s with
    | Ok (a, s') => I s' /\ n tt = Ok (a, tt)
    | Err (CVValidation e) => n tt = Err (CVValidation e)
    | Err (CVControl e) => F e
    end.

Lemma agrees_ret {A : Type} (a : A) : agrees (mret a) (mret a).
Proof. by intros s Hs. Qed.
Lemma agrees_reject {A : Type} (e : ValidationError) : agrees (A := A) (reject e) (reject e).
Proof. by intros s Hs. Qed.
Lemma agrees_control : agrees (control check_control) (control never).
Proof. intros s Hs. unfold control. specialize (control_ok s Hs). by destruct (check_control s). Qed.
Lemma agrees_validation {A : Type} (r : result ValidationError A) : agrees (validation r) (validation r).
Proof. intros s Hs. unfold validation, lift. by destruct r. Qed.

Lemma agrees_bind {A B : Type} (m : ST S (ControlledValidationError E) A) n
  (f : A -> ST S (ControlledValidationError E) B) (g : A -> ST unit (ControlledValidationError Empty_set) B) :
  agrees m n -> (forall a, agrees (f a) (g a)) -> agrees (m ≫= f) (n ≫= g).
Proof.
  intros Hm Hf s Hs. specialize (Hm s Hs). unfold mbind, ST_bind. destruct (m s) as [[a s']|[e|e]]; [|by rewrite Hm|done].
  destruct Hm as [Hs' ->]. by apply Hf.
Qed.

Lemma agrees_for_each {A X : Type} (f : A -> X -> ST S (ControlledValidationError E) A) g (a : A) (xs : list X) :
  (forall a x, agrees (f a x) (g a x)) -> agrees (for_each f a xs) (for_each g a xs).
Proof.
  intros Hf. revert a. induction xs as [|x xs IH]; intros a; cbn [for_each]; [apply agrees_ret|].
  by apply agrees_bind.
Qed.

(** Follow the shape of the code. *)
Ltac agree :=
  repeat match goal with
    | |- agrees (mret _) _ => apply agrees_ret
    | |- agrees (reject _) _ => apply agrees_reject
    | |- agrees (control _) _ => apply agrees_control
    | |- agrees (validation _) _ => apply agrees_validation
    | |- agrees (for_each _ _ _) _ => apply agrees_for_each; intros ? ?
    | |- agrees (mbind _ _) _ => apply agrees_bind; [|intros ?]
    | |- agrees (let '(_, _) := ?x in _) _ => destruct x
    | |- agrees (match ?x with _ => _ end) _ => destruct x
    | |- agrees (let x := _ in _) _ => cbv zeta
    end.

Lemma check_term_agrees (rule : RuleId) (allow : bool) (vars : gset VarName) (t : PatternTerm) :
  agrees (check_term check_control limits rule allow vars t) (check_term never limits rule allow vars t).
Proof. unfold check_term. agree. Qed.

Lemma check_atom_agrees (a : Atom) (rule : RuleId) (arities : gmap RelationId Z) (vars : gset VarName) (allow : bool) :
  agrees (check_atom check_control limits a rule arities vars allow) (check_atom never limits a rule arities vars allow).
Proof. unfold check_atom. agree. apply check_term_agrees. Qed.

Lemma check_safe_agrees (set bound : gset VarName) (error : VarName -> ValidationError) :
  agrees (check_safe set bound error) (check_safe set bound error).
Proof. unfold check_safe. agree. Qed.

Lemma check_rule_agrees (st : ValidationState) (rule : Rule) :
  agrees (check_rule check_control limits st rule) (check_rule never limits st rule).
Proof.
  unfold check_rule, check_rule_limits, check_body_atom, check_negative_atom, check_head_term.
  agree; first [apply check_atom_agrees|apply check_safe_agrees].
Qed.

Lemma validate_with_control_agrees (program : Program) (s : S) :
  I s -> match validate_with_control check_control limits program s with
    | Ok (p, s') => I s' /\ validate program limits = Ok p
    | Err (CVValidation e) => validate program limits = Err e
    | Err (CVControl e) => F e
    end.
Proof.
  intros Hs. assert (H : agrees (validate_with_control check_control limits program) (validate_with_control never limits program)).
  { unfold validate_with_control. agree. apply check_rule_agrees. }
  specialize (H s Hs). unfold validate.
  destruct (validate_with_control check_control limits program s) as [[p s']|[e|e]]; [|by rewrite H|done].
  destruct H as [H ->]. done.
Qed.
End control.

(** * The memory limit

    The same computation with the memory limit and without it: until the estimate
    exceeds the limit they make the same steps, and then the one without the
    limit has, if it ends, a peak above the limit. *)

Definition without_memory_limit (o : EvaluationOptions) : EvaluationOptions :=
  let l := eo_limits o in
  mkEvaluationOptions
    (mkEvaluationLimits (el_max_facts l) (el_max_intermediate_rows l) (el_max_iterations l) usize_max
       (el_max_term_bytes l) (el_timeout l))
    (eo_track_provenance o) (eo_cancellation_token o).

Section memory_limit.
  Context (env : Environment) (options : EvaluationOptions).
Abbreviation limit := (el_max_memory_bytes (eo_limits options)).

Definition memory_failure : failure := Raised (LimitExceeded LimitMemory limit).

(** [m] runs with the limit and [n] without it, from the same state. *)
Record follows {A : Type} (s : Exec) (r u : result failure (A * Exec)) : Prop := {
  fo_peak : forall a s', u = Ok (a, s') -> x_peak s <= x_peak s';
  fo_limit : r = u \/ r = Err memory_failure /\ forall a s', u = Ok (a, s') -> limit < x_peak s'
}.
Definition simulates {A : Type} (m n : M A) : Prop := forall s, follows s (m s) (n s).

Lemma simulates_same {A : Type} (m : M A) : (forall s a s', m s = Ok (a, s') -> x_peak s <= x_peak s') -> simulates m m.
Proof. intros H s. split; [apply H|by left]. Qed.

Lemma simulates_ret {A : Type} (a : A) : simulates (mret a) (mret a).
Proof. apply simulates_same. intros s b s' E. by injection E as <- <-. Qed.
Lemma simulates_raise {A : Type} (e : EvaluationError) : simulates (A := A) (raise e) (raise e).
Proof. by apply simulates_same. Qed.
Lemma simulates_throw {A : Type} (e : failure) : simulates (A := A) (throw e) (throw e).
Proof. by apply simulates_same. Qed.
Lemma simulates_unwrap {A : Type} (o : option A) : simulates (unwrap o) (unwrap o).
Proof. destruct o; [apply simulates_ret|apply simulates_throw]. Qed.
Lemma simulates_set_memory (f : RuntimeMemory -> RuntimeMemory) : simulates (set_memory f) (set_memory f).
Proof. apply simulates_same. intros s a s' E. by injection E as _ <-. Qed.
Lemma simulates_get_memory : simulates get_memory get_memory.
Proof. apply simulates_same. intros s a s' E. by injection E as _ <-. Qed.
Lemma simulates_elapsed : simulates (elapsed env) (elapsed env).
Proof. apply simulates_same. intros s a s' E. by injection E as _ <-. Qed.

Lemma simulates_bind {A B : Type} (m n : M A) (f g : A -> M B) :
  simulates m n -> (forall a, simulates (f a) (g a)) -> simulates (m ≫= f) (n ≫= g).
Proof.
  intros Hm Hf s. unfold mbind, ST_bind. destruct (Hm s) as [P1 L1]. destruct (n s) as [[a s1]|e].
  - specialize (P1 _ _ eq_refl). destruct (Hf a s1) as [P2 L2]. destruct L1 as [->|[-> L1]].
    + split; [|exact L2]. intros b s' E. etrans; [exact P1|by eapply P2].
    + specialize (L1 _ _ eq_refl). split; [|right; split; [done|]]; intros b s' E; apply P2 in E; lia.
  - destruct L1 as [->|[-> _]]; (split; [done|]); [by left|by right].
Qed.

Lemma simulates_for_each {A X : Type} (f g : A -> X -> M A) (a : A) (xs : list X) :
  (forall a x, simulates (f a x) (g a x)) -> simulates (for_each f a xs) (for_each g a xs).
Proof.
  intros Hf. revert a. induction xs as [|x xs IH]; intros a; cbn [for_each]; [apply simulates_ret|].
  by apply simulates_bind.
Qed.

Lemma simulates_while {A R : Type} (depth : nat) (f g : A -> M (A + R)) (a : A) :
  (forall a, simulates (f a) (g a)) -> simulates (while_loop depth f a) (while_loop depth g a).
Proof.
  intros Hf. revert a. induction depth as [|depth IH]; intros a; cbn [while_loop]; [done|].
  apply simulates_bind; [done|]. intros [a'|r]; [done|apply simulates_ret].
Qed.

Lemma simulates_check : simulates (check env options) (check env (without_memory_limit options)).
Proof.
  apply (simulates_same (check env options)). intros s a s'. unfold check.
  destruct (is_cancelled env (x_now s) (x_token s)) as [[] t']; [done|].
  destruct (el_timeout (eo_limits options)); [destruct (timed_out _ _); [done|]|]; intros E; by injection E as _ <-.
Qed.

Lemma simulates_observe : simulates (observe env options) (observe env (without_memory_limit options)).
Proof.
  unfold observe. apply simulates_bind; [apply simulates_check|]. intros _. apply simulates_bind; [apply simulates_get_memory|].
  intros m s. pose proof (total_bound m) as Hm. unfold mbind, ST_bind, modify, raise, throw, mret, ST_ret. cbn [x_peak].
  change (el_max_memory_bytes (eo_limits (without_memory_limit options))) with usize_max.
  destruct (total m >? usize_max) eqn:E; bool_to_prop; [lia|].
  split; [intros a s' E'; injection E' as _ <-; cbn; lia|].
  destruct (total m >? limit) eqn:E1; bool_to_prop; [right|by left]. split; [done|].
  intros a s' E'. injection E' as _ <-. cbn [x_peak]. lia.
Qed.
End memory_limit.

(** The lemmas on the parts of the evaluation. *)
Create HintDb memory_limit discriminated.
(** Follow the shape of the code; the limits of the two runs other than the one of
    memory are convertible. *)
Ltac simulate :=
  repeat first
    [ progress cbv zeta
    | match goal with
      | |- simulates _ (check _ _) _ => apply simulates_check
      | |- simulates _ (observe _ _) _ => apply simulates_observe
      | |- simulates _ (mret _) _ => apply simulates_ret
      | |- simulates _ (raise _) _ => apply simulates_raise
      | |- simulates _ (throw _) _ => apply simulates_throw
      | |- simulates _ (unwrap _) _ => apply simulates_unwrap
      | |- simulates _ get_memory _ => apply simulates_get_memory
      | |- simulates _ (elapsed _) _ => apply simulates_elapsed
      | |- simulates _ (for_each _ _ _) _ => apply simulates_for_each; intros ? ?
      | |- simulates _ (while_loop _ _ _) _ => apply simulates_while; intros ?
      | |- simulates _ (mbind _ _) _ => apply simulates_bind; [|intros ?]
      | |- simulates _ (match ?x with _ => _ end) (match ?y with _ => _ end) => change y with x; destruct x
      | |- simulates _ (set_memory _) _ => apply simulates_set_memory
      end
    | solve [auto with memory_limit nocore]
    | apply simulates_set_memory ].
