(* ===== verification/DatalogStorageFacts.v ===== *)
(** * The relation stores of the Datalog engine

    The invariant of a relation (tuples of its arity, an exact index per
    position), the equivalence of the indexed lookup with a scan, and the store
    as a finite set of keys. *)
From stdpp Require Import gmap.
From Stdlib Require Import Sorted.
From S2P Require Import Prelude MachineInt RustStr BTree RdfModel RdfDisplay DatalogIr.
From S2P Require Import StateResult DatalogValidate DatalogControl DatalogStorage.

(** ** Relations *)

Record data_wf (k : Z) (d : RelationData) : Prop := {
  dw_indexes : len (rd_indexes d) = k;
  dw_tuples : forall t, t ∈ rd_tuples d -> len t = k;
  dw_index : forall pos index i t, rd_indexes d !! pos = Some index ->
    t ∈ default ∅ (index !! i) <-> t ∈ rd_tuples d /\ t !! pos = Some i
}.

Lemma RelationData_new_wf (k : Z) : 0 <= k -> data_wf k (RelationData_new k).
Proof.
  intros Hk. unfold RelationData_new. split; cbn [rd_tuples rd_indexes].
  - unfold len. rewrite length_replicate. lia.
  - set_solver.
  - intros pos index i t H. apply lookup_replicate in H as [-> _]. rewrite lookup_empty. set_solver.
Qed.

(** What indexing the values of a tuple from a position on adds. *)
Lemma index_tuple_spec (tuple : Tuple) (values : Tuple) (position : nat) (indexes : list (gmap TermId (gset Tuple))) :
  drop position tuple = values -> (length tuple <= length indexes)%nat ->
  exists indexes', index_tuple tuple position values indexes = Some indexes' /\
    length indexes' = length indexes /\
    forall pos index', indexes' !! pos = Some index' -> exists index, indexes !! pos = Some index /\
      forall i t, t ∈ default ∅ (index' !! i) <->
        t ∈ default ∅ (index !! i) \/ (t = tuple /\ (position <= pos)%nat /\ tuple !! pos = Some i).
Proof.
  revert position indexes. induction values as [|v values IH]; intros position indexes Hd Hl; cbn [index_tuple].
  - exists indexes. split_and!; [done..|]. intros pos index Hp. exists index. split; [done|]. intros i t.
    split; [by left|]. intros [?|(-> & Hle & Ht)]; [done|]. exfalso.
    apply lookup_lt_Some in Ht. assert (length (drop position tuple) = 0%nat) by by rewrite Hd.
    rewrite length_drop in *. lia.
  - assert (Hv : tuple !! position = Some v).
    { rewrite <- (Nat.add_0_r position), <- lookup_drop, Hd. done. }
    destruct (indexes !! position) as [index|] eqn:Ei.
    2:{ apply lookup_ge_None in Ei. apply lookup_lt_Some in Hv. lia. }
    cbn [mbind option_bind].
    destruct (IH (S position) (<[position := <[v := {[tuple]} ∪ default ∅ (index !! v)]> index]> indexes))
      as (indexes' & He & Hlen & Hspec).
    { pose proof (drop_S _ _ _ Hv) as Hs. congruence. }
    { by rewrite length_insert. }
    exists indexes'. rewrite length_insert in Hlen. split_and!; [done..|]. intros pos index' Hp.
    destruct (Hspec pos index' Hp) as (index0 & H0 & Hiff).
    destruct (decide (pos = position)) as [->|Hne].
    + rewrite list_lookup_insert_eq in H0 by (apply lookup_lt_Some in Ei; lia). injection H0 as <-.
      exists index. split; [done|]. intros i t. rewrite Hiff. destruct (decide (i = v)) as [->|Hiv].
      * rewrite lookup_insert_eq. cbn [from_option id]. rewrite elem_of_union, elem_of_singleton.
        split; [|naive_solver lia]. intros [[->|?]|(-> & Hle & _)]; [right; auto|by left|lia].
      * rewrite lookup_insert_ne by done. split; [|naive_solver lia].
        intros [?|(-> & Hle & Ht)]; [by left|]. rewrite Hv in Ht. congruence.
    + rewrite list_lookup_insert_ne in H0 by done. exists index0. split; [done|]. intros i t. rewrite Hiff.
      split; [naive_solver lia|]. intros [?|(-> & Hle & Ht)]; [by left|]. right. split_and!; [done|lia|done].
Qed.

Lemma RelationData_insert_spec (k : Z) (d : RelationData) (tuple : Tuple) :
  data_wf k d -> len tuple = k ->
  exists d', RelationData_insert d tuple = Some (d', negb (bool_decide (tuple ∈ rd_tuples d))) /\
    data_wf k d' /\ rd_tuples d' = {[tuple]} ∪ rd_tuples d.
Proof.
  intros H Hk. unfold RelationData_insert. case_decide as Hin.
  - rewrite bool_decide_true by done. exists d. split_and!; [done..|]. set_solver.
  - rewrite bool_decide_false by done.
    destruct (index_tuple_spec tuple tuple 0 (rd_indexes d)) as (indexes' & -> & Hlen & Hspec); [done| |].
    { pose proof (dw_indexes _ _ H). unfold len in *. lia. }
    exists (mkRelationData ({[tuple]} ∪ rd_tuples d) indexes'). split_and!; [done| |done].
    split; cbn [rd_indexes rd_tuples].
    + unfold len in *. rewrite Hlen. apply (dw_indexes _ _ H).
    + intros t [->%elem_of_singleton|Ht]%elem_of_union; [done|by apply (dw_tuples _ _ H)].
    + intros pos index' i t Hp. destruct (Hspec pos index' Hp) as (index & Hi & ->).
      rewrite (dw_index _ _ H pos index i t Hi), elem_of_union, elem_of_singleton. split.
      * intros [[H1 H2]|(-> & _ & H2)]; auto.
      * intros [[->|H1] H2]; [right; split_and!; [done|lia|done]|left; done].
Qed.

(** ** The indexed lookup *)

Definition satisfied (cs : list (nat * TermId)) (t : Tuple) : Prop := Forall (fun c => t !! c.1 = Some c.2) cs.
#[global] Instance satisfied_dec (cs : list (nat * TermId)) (t : Tuple) : Decision (satisfied cs t).
Proof. unfold satisfied. apply _. Defined.

Lemma satisfies_spec (k : nat) (t : Tuple) (cs : list (nat * TermId)) :
  length t = k -> Forall (fun c => (c.1 < k)%nat) cs -> satisfies t cs = Some (bool_decide (satisfied cs t)).
Proof.
  intros Hk. induction 1 as [|[pos v] cs Hpos Hcs IH]; cbn [satisfies].
  - rewrite bool_decide_true; [done|]. constructor.
  - cbn [fst] in Hpos. destruct (t !! pos) as [w|] eqn:E; [|apply lookup_ge_None in E; lia].
    cbn [mbind option_bind]. destruct (w =? v) eqn:Ew; bool_to_prop.
    + subst w. rewrite IH. f_equal. apply bool_decide_ext. unfold satisfied. rewrite list.Forall_cons. naive_solver.
    + rewrite bool_decide_false; [done|]. intros [Hc _]%list.Forall_cons. cbn in Hc. congruence.
Qed.

Lemma filter_tuples_spec (k : nat) (cs : list (nat * TermId)) (l : list Tuple) :
  Forall (fun t => length t = k) l -> Forall (fun c => (c.1 < k)%nat) cs ->
  filter_tuples cs l = Some (filter (satisfied cs) l).
Proof.
  intros Hl Hcs. induction Hl as [|t l Ht Hl IH]; cbn [filter_tuples]; [done|].
  rewrite (satisfies_spec k) by done. cbn [mbind option_bind]. rewrite IH. cbn [mbind option_bind mret option_ret].
  f_equal. rewrite filter_cons. by case_bool_decide; case_decide.
Qed.

Lemma index_size_some (k : Z) (d : RelationData) (c : nat * TermId) :
  data_wf k d -> Z.of_nat c.1 < k ->
  exists index, rd_indexes d !! c.1 = Some index /\ index_entry d c = Some (index !! c.2) /\
    index_size d c = Some (match index !! c.2 with Some s => size s | None => O end).
Proof.
  intros H Hc. destruct (rd_indexes d !! c.1) as [index|] eqn:E.
  - exists index. unfold index_size, index_entry. rewrite E. done.
  - apply lookup_ge_None in E. pose proof (dw_indexes _ _ H). unfold len in *. lia.
Qed.

(** The selected constraint is one of the constraints, and its entry is smallest. *)
Lemma min_constraint_spec (k : Z) (d : RelationData) (best : (nat * TermId) * nat) (cs : list (nat * TermId)) :
  data_wf k d -> Forall (fun c => Z.of_nat c.1 < k) cs -> index_size d best.1 = Some best.2 ->
  exists c n, min_constraint d best cs = Some c /\ c ∈ best.1 :: cs /\ index_size d c = Some n /\
    (n <= best.2)%nat /\ forall c' n', c' ∈ cs -> index_size d c' = Some n' -> (n <= n')%nat.
Proof.
  intros H Hcs. revert best. induction Hcs as [|c cs Hc Hcs IH]; intros [b nb] Hb; cbn [min_constraint].
  - exists b, nb. split_and!; [done|constructor|done|done|]. by intros c' n' ?%elem_of_nil.
  - destruct (index_size_some k d c H Hc) as (index & _ & _ & Hn). rewrite Hn. cbn [mbind option_bind].
    set (n := match index !! c.2 with Some s => size s | None => O end) in *. cbn [snd].
    destruct (n <? nb)%nat eqn:E.
    + apply Nat.ltb_lt in E. destruct (IH (c, n) Hn) as (c' & n' & -> & Hin & Hn' & Hle & Hmin).
      exists c', n'. cbn [fst snd] in *. split_and!; [done|set_solver|done|lia|].
      intros c2 n2 [->|Hc2]%elem_of_cons Hn2; [|by apply (Hmin c2)]. rewrite Hn in Hn2. injection Hn2 as <-. lia.
    + apply Nat.ltb_ge in E. destruct (IH (b, nb) Hb) as (c' & n' & -> & Hin & Hn' & Hle & Hmin).
      exists c', n'. cbn [fst snd] in *. split_and!; [done|set_solver|done|lia|].
      intros c2 n2 [->|Hc2]%elem_of_cons Hn2; [|by apply (Hmin c2)]. rewrite Hn in Hn2. injection Hn2 as <-. lia.
Qed.

(** The selected set is the whole relation, or the index entry of a constraint. *)
Lemma select_index_spec (k : Z) (d : RelationData) (cs : list (nat * TermId)) :
  data_wf k d -> Forall (fun c => Z.of_nat c.1 < k) cs ->
  exists selected, select_index d cs = Some selected /\
    (default (rd_tuples d) selected) ⊆ rd_tuples d /\
    forall t, t ∈ rd_tuples d -> satisfied cs t -> t ∈ default (rd_tuples d) selected.
Proof.
  intros H Hcs. destruct cs as [|c cs]; cbn [select_index]; [by exists None|].
  pose proof Hcs as [Hc Hcs']%list.Forall_cons. destruct (index_size_some k d c H Hc) as (index & _ & _ & Hn).
  rewrite Hn. cbn [mbind option_bind].
  destruct (min_constraint_spec k d (c, _) cs H Hcs' Hn) as (c' & n' & -> & Hin & _ & _ & _).
  cbn [mbind option_bind fst] in *.
  assert (Hc' : Z.of_nat c'.1 < k) by (rewrite Forall_forall in Hcs; by apply Hcs, list_elem_of_In).
  destruct (index_size_some k d c' H Hc') as (index' & Hi & -> & _).
  exists (index' !! c'.2). split; [done|]. pose proof (dw_index _ _ H c'.1 index' c'.2) as Hidx.
  destruct (index' !! c'.2) as [s|]; cbn [from_option id] in *; [|done]. split.
  - intros t Ht. by apply (Hidx t Hi) in Ht as [? _].
  - intros t Ht Hs. apply Hidx; [done|]. split; [done|]. unfold satisfied in Hs. rewrite Forall_forall in Hs.
    by apply Hs, list_elem_of_In.
Qed.

(** The identifier a term of a pattern fixes. *)
Definition fixed_id (b : Binding) (it : Interner) (term : PatternTerm) : option TermId :=
  match term with
  | PConstant value => it_ids it !! value
  | PVariable variable => b !! variable
  | PGeneratedBlankNode _ => None
  end.
Definition known_constants (it : Interner) (terms : list PatternTerm) : Prop :=
  forall value, PConstant value ∈ terms -> is_Some (it_ids it !! value).

Lemma constraints_from_spec (b : Binding) (it : Interner) (terms : list PatternTerm) (position : nat) :
  known_constants it terms ->
  exists cs, constraints_from position terms b it = Some cs /\
    forall pos v, (pos, v) ∈ cs <->
      exists i term, pos = (position + i)%nat /\ terms !! i = Some term /\ fixed_id b it term = Some v.
Proof.
  revert position. induction terms as [|term terms IH]; intros position Hk; cbn [constraints_from].
  - exists []. split; [done|]. intros pos v. split; [by intros ?%elem_of_nil|].
    intros (i & t & _ & Hi & _). by rewrite lookup_nil in Hi.
  - destruct (IH (S position)) as (cs & -> & Hcs); [intros v Hv; apply Hk; by right|].
    assert (exists o, match term with
              | PConstant value => id ← Interner_id it value; mret (Some id)
              | PVariable variable => mret (b !! variable)
              | PGeneratedBlankNode _ => mret None
              end = Some o /\ o = fixed_id b it term) as (o & -> & Ho).
    { destruct term as [x|c|g]; cbn [fixed_id]; [by eexists| |by eexists].
      destruct (Hk c ltac:(constructor)) as [i Hi]. unfold Interner_id. rewrite Hi. by eexists. }
    cbn [mbind option_bind mret option_ret]. eexists. split; [done|]. intros pos v.
    assert (Htail : (exists i t, pos = (position + S i)%nat /\ terms !! i = Some t /\ fixed_id b it t = Some v) <-> (pos, v) ∈ cs).
    { rewrite Hcs. by setoid_rewrite Nat.add_succ_r. }
    transitivity ((pos = position /\ o = Some v) \/ (pos, v) ∈ cs).
    + destruct o as [w|]; [rewrite elem_of_cons|]; naive_solver.
    + rewrite <- Htail. split.
      * intros [[-> Hv]|(i & t & -> & Hi & Hv)]; [exists 0%nat, term; split_and!; [lia|done|congruence]|].
        by exists (S i), t.
      * intros ([|i] & t & -> & Hi & Hv); [left; cbn in Hi; split; [lia|congruence]|right; by exists i, t].
Qed.

Lemma constraints_satisfied (b : Binding) (it : Interner) (terms : list PatternTerm) (cs : list (nat * TermId)) (t : Tuple) :
  known_constants it terms -> constraints_from 0 terms b it = Some cs ->
  satisfied cs t <-> forall i term v, terms !! i = Some term -> fixed_id b it term = Some v -> t !! i = Some v.
Proof.
  intros Hk Hc. destruct (constraints_from_spec b it terms 0 Hk) as (cs' & Hc' & Hcs).
  assert (cs' = cs) as -> by congruence. unfold satisfied. rewrite Forall_forall. split.
  - intros H i term v Hi Hv. apply (H (i, v)), list_elem_of_In, Hcs. eauto.
  - intros H [pos v] Hin. apply list_elem_of_In, Hcs in Hin as (i & term & -> & Hi & Hv). cbn [fst snd]. eauto.
Qed.

Lemma StronglySorted_filter {A : Type} (R : A -> A -> Prop) (Q : A -> Prop) `{!forall x, Decision (Q x)} (l : list A) :
  StronglySorted R l -> StronglySorted R (filter Q l).
Proof.
  induction 1 as [|x l Hl IH Hx]; [constructor|]. rewrite filter_cons. case_decide; [|done]. constructor; [done|].
  rewrite Forall_forall in Hx |- *. intros y Hy. apply Hx. apply list_elem_of_In in Hy.
  apply list_elem_of_filter in Hy as [_ Hy]. by apply list_elem_of_In.
Qed.

(** Filtering a subset of a set that holds everything the filter keeps. *)
Lemma filter_elements_subset (Q : Tuple -> Prop) `{!forall x, Decision (Q x)} (s s' : gset Tuple) :
  s' ⊆ s -> (forall t, t ∈ s -> Q t -> t ∈ s') -> filter Q (btree_elements s') = filter Q (btree_elements s).
Proof.
  intros Hsub Hall. apply (sorted_unique (fun t : Tuple => t)); [done|apply StronglySorted_filter, sort_by_sorted..|].
  apply NoDup_Permutation; [apply list.NoDup_filter, NoDup_btree_elements..|]. intros t.
  rewrite !list_elem_of_filter, !elem_of_btree_elements. naive_solver.
Qed.

(** The indexed lookup returns, in order, the tuples a scan would return. *)
Lemma matching_scan (k : Z) (d : RelationData) (atom : Atom) (b : Binding) (it : Interner) :
  data_wf k d -> Atom_arity atom = k -> known_constants it (a_terms atom) ->
  exists cs, constraints_from 0 (a_terms atom) b it = Some cs /\
    matching d atom b it = Some (filter (satisfied cs) (btree_elements (rd_tuples d))).
Proof.
  intros H Ha Hk. destruct (constraints_from_spec b it (a_terms atom) 0 Hk) as (cs & Hc & Hcs).
  exists cs. split; [done|]. unfold matching. rewrite Hc. cbn [mbind option_bind].
  assert (Hpos : Forall (fun c => Z.of_nat c.1 < k) cs).
  { apply Forall_forall. intros [pos v] Hin. apply list_elem_of_In, Hcs in Hin as (i & term & -> & Hi & _).
    apply lookup_lt_Some in Hi. unfold Atom_arity, len in Ha. cbn [fst]. lia. }
  destruct (select_index_spec k d cs H Hpos) as (selected & -> & Hsub & Hsat). cbn [mbind option_bind].
  rewrite (filter_tuples_spec (Z.to_nat k)).
  - f_equal. by apply filter_elements_subset.
  - apply Forall_forall. intros t Ht. apply list_elem_of_In, elem_of_btree_elements, Hsub in Ht.
    pose proof (dw_tuples _ _ H t Ht). unfold len in *. lia.
  - eapply List.Forall_impl; [|exact Hpos]. intros c Hc'. cbv beta in *. lia.
Qed.

(** ** Stores *)

(** The arity of a relation: the program's, or the one of the input facts. *)
Definition store_wf (arities : gmap RelationId Z) (s : RelationStore) : Prop :=
  forall r d, rs_relations s !! r = Some d -> exists k, arities !! r = Some k /\ 0 <= k /\ data_wf k d.
Definition key_ok (arities : gmap RelationId Z) (key : FactKey) : Prop := arities !! key.1 = Some (len key.2).

Section store.
  Context {P : DatalogParams} (arities : gmap RelationId Z).

Lemma contains_key_true (s : RelationStore) (key : FactKey) :
  contains_key s key = true <-> exists d, rs_relations s !! key.1 = Some d /\ key.2 ∈ rd_tuples d.
Proof.
  unfold contains_key. destruct (rs_relations s !! key.1) as [d|]; [rewrite bool_decide_eq_true|]; naive_solver.
Qed.

Lemma RelationStore_new_wf (program_arities : gmap RelationId Z) :
  program_arities ⊆ arities -> (forall r k, program_arities !! r = Some k -> 0 <= k) ->
  store_wf arities (RelationStore_new program_arities).
Proof.
  intros Hsub Hk r d. cbn [RelationStore_new rs_relations]. rewrite lookup_fmap, fmap_Some.
  intros (k & Hr & ->). exists k. split_and!; [by eapply lookup_weaken|by eapply Hk|]. apply RelationData_new_wf. eauto.
Qed.

Lemma RelationStore_new_empty (program_arities : gmap RelationId Z) (key : FactKey) :
  contains_key (RelationStore_new program_arities) key = false.
Proof.
  unfold contains_key. cbn [RelationStore_new rs_relations]. rewrite lookup_fmap.
  destruct (program_arities !! key.1); cbn; [|done]. by apply bool_decide_false.
Qed.

Lemma store_key_ok (s : RelationStore) (key : FactKey) :
  store_wf arities s -> contains_key s key = true -> key_ok arities key.
Proof.
  intros H Hc. apply contains_key_true in Hc as (d & Hd & Ht). destruct (H _ _ Hd) as (k & Hk & _ & Hw).
  unfold key_ok. by rewrite Hk, (dw_tuples _ _ Hw _ Ht).
Qed.

(** Inserting a key of the right arity: no panic, and the projected estimate is
    the new one. *)
Lemma insert_key_spec (s : RelationStore) (key : FactKey) :
  store_wf arities s -> key_ok arities key ->
  exists s', insert_key s key = Some (s', negb (contains_key s key)) /\ store_wf arities s' /\
    (forall key', contains_key s' key' = true <-> key' = key \/ contains_key s key' = true) /\
    rs_bytes s' = projected_insert_bytes s key /\
    (forall r, is_Some (rs_relations s !! r) -> is_Some (rs_relations s' !! r)).
Proof.
  intros H Hk. destruct key as [r t]. unfold key_ok in Hk. cbn [fst snd] in Hk. unfold insert_key.
  set (d := default (RelationData_new (len t)) (rs_relations s !! r)).
  assert (Hd : data_wf (len t) d).
  { subst d. destruct (rs_relations s !! r) as [d|] eqn:E; cbn [from_option id].
    - destruct (H r d E) as (k & Hk' & _ & Hw). congruence.
    - apply RelationData_new_wf, len_nonneg. }
  assert (Hc : contains_key s (r, t) = bool_decide (t ∈ rd_tuples d)).
  { subst d. unfold contains_key. cbn [fst snd]. destruct (rs_relations s !! r); cbn [from_option id]; [done|].
    by rewrite bool_decide_false. }
  destruct (RelationData_insert_spec (len t) d t Hd eq_refl) as (d' & -> & Hw' & Ht').
  cbn [mbind option_bind]. rewrite Hc.
  assert (Hstore : forall b, store_wf arities (mkRelationStore (<[r := d']> (rs_relations s)) b)).
  { intros b q dq. cbn [rs_relations]. rewrite lookup_insert_Some. intros [[<- <-]|[_ Hq]]; [|by apply H].
    exists (len t). split_and!; [done|apply len_nonneg|done]. }
  assert (Hcont : forall b key', contains_key (mkRelationStore (<[r := d']> (rs_relations s)) b) key' = true <->
    key' = (r, t) \/ contains_key s key' = true).
  { intros b [q u]. rewrite !contains_key_true. cbn [rs_relations fst snd]. destruct (decide (r = q)) as [<-|Hne].
    - setoid_rewrite lookup_insert_eq. split.
      + intros (? & [= <-] & Hu). rewrite Ht' in Hu. apply elem_of_union in Hu as [->%elem_of_singleton|Hu]; [by left|].
        right. subst d. destruct (rs_relations s !! r) as [d|]; cbn [from_option id] in Hu; [eauto|]. cbn in Hu. set_solver.
      + intros [[= ->]|(d0 & Hd0 & Hu)]; exists d'; (split; [done|]); rewrite Ht'; [set_solver|].
        subst d. rewrite Hd0. cbn [from_option id]. set_solver.
    - setoid_rewrite lookup_insert_ne; [|done]. naive_solver. }
  destruct (negb (bool_decide (t ∈ rd_tuples d))) eqn:En.
  - eexists. split; [done|]. split_and!; [apply Hstore|apply Hcont| |].
    + cbn [rs_bytes]. unfold projected_insert_bytes. rewrite Hc. apply negb_true_iff in En. rewrite En. done.
    + intros q Hq. cbn [rs_relations]. rewrite lookup_insert_is_Some'. auto.
  - eexists. split; [done|]. split_and!; [apply Hstore|apply Hcont| |].
    + cbn [rs_bytes]. unfold projected_insert_bytes. rewrite Hc. apply negb_false_iff in En. by rewrite En.
    + intros q Hq. cbn [rs_relations]. rewrite lookup_insert_is_Some'. auto.
Qed.
End store.

(** The keys of a store. *)
Lemma elem_of_relation_keys (r : RelationId) (d : RelationData) (key : FactKey) :
  key ∈ relation_keys r d <-> key.1 = r /\ key.2 ∈ rd_tuples d.
Proof.
  unfold relation_keys. rewrite list_elem_of_fmap. setoid_rewrite elem_of_btree_elements.
  destruct key as [q t]. cbn [fst snd]. naive_solver.
Qed.

Lemma elem_of_keys (s : RelationStore) (key : FactKey) : key ∈ keys s <-> contains_key s key = true.
Proof.
  unfold keys. rewrite contains_key_true, list_elem_of_bind. split.
  - intros ([r d] & Hk & Hd). cbn [fst snd] in Hk. apply elem_of_relation_keys in Hk as [<- Ht].
    apply elem_of_btree_entries in Hd. eauto.
  - intros (d & Hd & Ht). exists (key.1, d). split; [by apply elem_of_relation_keys|by apply elem_of_btree_entries].
Qed.

Lemma elem_of_keys_for_relation (s : RelationStore) (r : RelationId) (key : FactKey) :
  key ∈ keys_for_relation s r <-> contains_key s key = true /\ key.1 = r.
Proof.
  unfold keys_for_relation. rewrite contains_key_true. destruct (rs_relations s !! r) as [d|] eqn:E.
  - rewrite elem_of_relation_keys. naive_solver.
  - split; [by intros ?%elem_of_nil|]. naive_solver.
Qed.

Lemma NoDup_relation_keys (r : RelationId) (d : RelationData) : NoDup (relation_keys r d).
Proof. unfold relation_keys. apply NoDup_fmap_2; [by intros ? ? [= ->]|apply NoDup_btree_elements]. Qed.

Lemma NoDup_keys (s : RelationStore) : NoDup (keys s).
Proof.
  unfold keys. assert (Hnd : NoDup (fst <$> btree_entries (rs_relations s))) by apply NoDup_btree_keys.
  revert Hnd. generalize (btree_entries (rs_relations s)) as l.
  induction l as [|[r d] l IH]; intros Hnd; [constructor|]. cbn. rewrite fmap_cons in Hnd.
  apply list.NoDup_cons in Hnd as [Hr Hnd]. apply list.NoDup_app. split_and!; [apply NoDup_relation_keys| |by apply IH].
  intros key Hk Hl. apply elem_of_relation_keys in Hk as [Hkr _]. apply list_elem_of_bind in Hl as ([q e] & Hk & Hq).
  apply elem_of_relation_keys in Hk as [Hkq _]. apply Hr. apply list_elem_of_fmap. exists (q, e).
  split; [cbn in *; congruence|done].
Qed.

Lemma length_keys (s : RelationStore) : len (keys s) = RelationStore_len s.
Proof.
  unfold keys, RelationStore_len, len. induction (btree_entries (rs_relations s)) as [|[r d] l IH]; [done|].
  cbn. rewrite length_app. unfold relation_keys at 1. rewrite length_fmap, length_btree_elements. lia.
Qed.

Lemma is_empty_spec (s : RelationStore) :
  RelationStore_is_empty s = true <-> forall key, contains_key s key = false.
Proof.
  unfold RelationStore_is_empty. rewrite forallb_forall. split.
  - intros H key. apply not_true_is_false. rewrite contains_key_true. intros (d & Hd & Ht).
    specialize (H (key.1, d)). unfold RelationData_is_empty in H. cbn [snd] in H.
    rewrite bool_decide_eq_true in H. rewrite H in Ht; [set_solver|]. by apply list_elem_of_In, elem_of_btree_entries.
  - intros H [r d] Hd. apply list_elem_of_In, elem_of_btree_entries in Hd. unfold RelationData_is_empty. cbn [snd].
    apply bool_decide_eq_true, set_eq. intros t. split; [|set_solver]. intros Ht.
    specialize (H (r, t)). apply not_true_iff_false in H. exfalso. apply H, contains_key_true. eauto.
Qed.
