(* ===== verification/DatalogInternerFacts.v ===== *)
(** * The interner of the Datalog engine

    Interned identifiers and known values correspond one to one; the interner
    only grows; a generated blank node is a value no interned value equals, and
    there is always one: of [n + 1] labels one is free among [n] values. *)
From stdpp Require Import gmap.
From Stdlib Require Import Sorted.
From S2P Require Import Prelude MachineInt RustStr BTree RdfModel RdfDisplay DatalogIr.
From S2P Require Import StateResult DatalogValidate DatalogControl DatalogStorage.
From S2P Require Import DatalogControlFacts DatalogStorageFacts.

(** ** The invariant

    [base] are the values of the input and of the program. *)

Definition is_blank (v : Value) : Prop := exists n, v = VTerm (TermBlankNode n).

Record interner_ok (base : Value -> Prop) (it : Interner) : Prop := {
  io_ids : forall v i, it_ids it !! v = Some i -> 0 <= i /\ value_at it i = Some v;
  io_base : forall v, base v -> is_Some (it_ids it !! v);
  io_known : forall v i, it_ids it !! v = Some i -> base v \/ exists key, it_generated it !! key = Some i;
  io_generated : forall key i, it_generated it !! key = Some i ->
    exists v, it_ids it !! v = Some i /\ is_blank v /\ ~ base v;
  io_injective : forall key key' i,
    it_generated it !! key = Some i -> it_generated it !! key' = Some i -> key = key'
}.

Definition canon (it : Interner) (i : TermId) : Prop := exists v, it_ids it !! v = Some i.

(** The interner grows. *)
Record extends (it it' : Interner) : Prop := {
  ex_values : it_values it `prefix_of` it_values it';
  ex_ids : it_ids it ⊆ it_ids it';
  ex_generated : it_generated it ⊆ it_generated it'
}.

Lemma extends_refl (it : Interner) : extends it it.
Proof. by split. Qed.
Lemma extends_trans (it1 it2 it3 : Interner) : extends it1 it2 -> extends it2 it3 -> extends it1 it3.
Proof. intros [H1 H2 H3] [H4 H5 H6]. split; by etrans. Qed.

Lemma extends_id (it it' : Interner) (v : Value) (i : TermId) :
  extends it it' -> it_ids it !! v = Some i -> it_ids it' !! v = Some i.
Proof. intros H Hi. by apply (lookup_weaken _ _ _ _ Hi), H. Qed.

Lemma extends_value_at (it it' : Interner) (v : Value) (i : TermId) :
  extends it it' -> value_at it i = Some v -> value_at it' i = Some v.
Proof. intros H Hi. unfold value_at in *. by eapply prefix_lookup_Some, H. Qed.

Lemma extends_canon (it it' : Interner) (i : TermId) : extends it it' -> canon it i -> canon it' i.
Proof. intros H [v Hv]. exists v. by eapply extends_id. Qed.

Lemma extends_known (it it' : Interner) (terms : list PatternTerm) :
  extends it it' -> known_constants it terms -> known_constants it' terms.
Proof. intros H Hk v Hv. destruct (Hk v Hv) as [i Hi]. exists i. by eapply extends_id. Qed.

Section facts.
  Context {base : Value -> Prop} {it : Interner}.
  Hypothesis ok : interner_ok base it.

Lemma ids_injective (v w : Value) (i : TermId) : it_ids it !! v = Some i -> it_ids it !! w = Some i -> v = w.
Proof. intros Hv Hw. apply (io_ids _ _ ok) in Hv as [_ Hv], Hw as [_ Hw]. congruence. Qed.

Lemma canon_value (i : TermId) : canon it i -> exists v, value_at it i = Some v /\ it_ids it !! v = Some i.
Proof. intros [v Hv]. exists v. split; [|done]. by apply (io_ids _ _ ok). Qed.

Lemma value_at_id (i : TermId) (v : Value) : canon it i -> value_at it i = Some v -> it_ids it !! v = Some i.
Proof. intros Hc Hv. destruct (canon_value i Hc) as (w & Hw & Hi). congruence. Qed.

Lemma ids_decode (vs : list Value) (t : Tuple) :
  mapM (Interner_id it) vs = Some t <-> Forall (canon it) t /\ mapM (value_at it) t = Some vs.
Proof.
  rewrite !mapM_Some. split.
  - intros H. split.
    + induction H as [|v i vs t Hv H IH]; [constructor|]. constructor; [by exists v|done].
    + induction H as [|v i vs t Hv H IH]; [constructor|]. constructor; [by apply (io_ids _ _ ok)|done].
  - intros [Hc H]. induction H as [|i v t vs Hv H IH]; [constructor|].
    apply list.Forall_cons in Hc as [Hi Hc]. constructor; [by apply value_at_id|by apply IH].
Qed.

Lemma encode_decode (f : Fact) (key : FactKey) :
  encode_fact it f = Some key <-> Forall (canon it) key.2 /\ decode_fact it key = Some f.
Proof.
  destruct f as [r vs], key as [q t]. unfold encode_fact, decode_fact. cbn [f_values f_relation fst snd]. split.
  - intros (x & Hs & [= <- <-])%bind_Some. apply ids_decode in Hs as [Hc Hd]. split; [done|]. by rewrite Hd.
  - intros [Hc (x & Hs & [= <- <-])%bind_Some]. by rewrite (proj2 (ids_decode _ _) (conj Hc Hs)).
Qed.

Lemma decode_canon (key : FactKey) : Forall (canon it) key.2 -> exists f, decode_fact it key = Some f.
Proof.
  intros H. unfold decode_fact. destruct (mapM (value_at it) key.2) as [vs|] eqn:E; [by eexists|].
  exfalso. apply mapM_None, Exists_exists in E as (i & Hi & Hn). rewrite Forall_forall in H.
  destruct (canon_value i) as (v & Hv & _); [by apply H|]. congruence.
Qed.
End facts.

Lemma extends_decode (it it' : Interner) (key : FactKey) (f : Fact) :
  extends it it' -> decode_fact it key = Some f -> decode_fact it' key = Some f.
Proof.
  intros H. unfold decode_fact. intros (x & Hs & Hd)%bind_Some. apply mapM_Some in Hs.
  assert (mapM (value_at it') key.2 = Some x) as ->; [|done]. apply mapM_Some.
  clear Hd. induction Hs as [|i v l vs Hv _ IH]; [constructor|]. constructor; [by eapply extends_value_at|done].
Qed.

Lemma extends_encode (it it' : Interner) (key : FactKey) (f : Fact) :
  extends it it' -> encode_fact it f = Some key -> encode_fact it' f = Some key.
Proof.
  intros H. unfold encode_fact. intros (x & Hs & Hd)%bind_Some. apply mapM_Some in Hs.
  assert (mapM (Interner_id it') (f_values f) = Some x) as ->; [|done]. apply mapM_Some.
  clear Hd. induction Hs as [|i v l vs Hv _ IH]; [constructor|]. constructor; [by eapply extends_id|done].
Qed.

(** ** Construction *)

Lemma dedup_length {A : Type} `{EqDecision A} (l : list A) : (length (dedup l) <= length l)%nat.
Proof.
  induction l as [|x l IH]; [done|]. cbn [dedup]. destruct l as [|y l]; [done|]. case_decide; simpl in *; lia.
Qed.

Section construct.
  Context {P : DatalogParams} (env : Environment) (options : EvaluationOptions).
  Context (F : failure -> Prop) (HF : guard_errors env options F).

Lemma push_values_holds (vs : list Value) :
  holds (exec_ok env options) F (for_each (push_value env options) ([], size_of SizeOfVecValue) vs)
    (fun st => st.1 = vs).
Proof.
  apply (holds_for_each _ _ _ (fun pre (st : list Value * Z) => st.1 = pre)); [|done].
  intros pre v rest [values bytes] _ Hst. cbn [fst] in Hst. subst. unfold push_value.
  guard_step HF. guard_step HF. by apply holds_ret.
Qed.

(** The identifiers are the positions in the list of values. *)
Record numbered (values : list Value) (st : gmap Value TermId * Z) : Prop := {
  nb_next : st.2 = len values;
  nb_id : forall v i, st.1 !! v = Some i -> 0 <= i /\ values !! Z.to_nat i = Some v;
  nb_known : forall v, v ∈ values -> is_Some (st.1 !! v)
}.

Lemma number_holds (values : list Value) :
  holds (exec_ok env options) F
    (for_each (fun (st : gmap Value TermId * Z) value =>
        check env options;; mret (<[value := st.2]> st.1, st.2 + 1)) (∅, 0) values)
    (numbered values).
Proof.
  apply (holds_for_each _ _ _ numbered).
  - intros pre v rest [ids n] _ [H1 H2 H3]. cbn [fst snd] in *. guard_step HF. apply holds_ret. split; cbn [fst snd].
    + rewrite H1. unfold len. rewrite length_app. simpl. lia.
    + intros w i. rewrite lookup_insert_Some. intros [[<- <-]|[_ Hw]].
      * rewrite H1. split; [apply len_nonneg|]. unfold len. rewrite Nat2Z.id. by apply list_lookup_middle.
      * apply H2 in Hw as [Hi Hw]. split; [done|]. by apply lookup_app_l_Some.
    + intros w [Hw| ->%list_elem_of_singleton]%elem_of_app; apply lookup_insert_is_Some'; auto.
  - split; cbn [fst snd]; [done|intros v i; by rewrite lookup_empty|by intros v ?%elem_of_nil].
Qed.

Lemma Interner_new_holds (p : ValidatedProgram) (facts : list Fact) :
  (int_max U32 < len (interner_values p facts) -> F (Raised (LimitExceeded LimitTerms (int_max U32)))) ->
  holds (exec_ok env options) F (Interner_new env options p facts)
    (fun it => interner_ok (fun v => v ∈ interner_values p facts) it /\ it_generated it = ∅).
Proof.
  intros HT. unfold Interner_new. eapply holds_bind; [apply push_values_holds|]. intros [vs bytes] Hvs.
  cbn [fst] in Hvs |- *. subst vs. guard_step HF. guard_step HF.
  set (values := dedup (sort_by sort_key (interner_values p facts))).
  assert (Hin : forall v, v ∈ values <-> v ∈ interner_values p facts).
  { intros v. subst values. by rewrite elem_of_dedup, elem_of_sort_by. }
  destruct (_ >? _) eqn:E; bool_to_prop.
  { apply raise_holds, HT. subst values. unfold len in *.
    pose proof (dedup_length (sort_by sort_key (interner_values p facts))). rewrite length_sort_by in *. lia. }
  guard_step HF. guard_step HF. eapply holds_bind; [apply number_holds|]. intros [ids n] [H1 H2 H3].
  cbn [fst snd] in *. apply holds_ret. split; [|done]. split; cbn [it_ids it_generated].
  - intros v i Hv. unfold value_at. cbn [it_values]. by apply H2.
  - intros v Hv. by apply H3, Hin.
  - intros v i Hv. left. apply Hin. apply H2 in Hv as [_ Hv]. by eapply list_elem_of_lookup_2.
  - intros key i. by rewrite lookup_empty.
  - intros key key' i. by rewrite lookup_empty.
Qed.
End construct.

(** ** Generated blank nodes *)

(** The values of a binding. *)
Definition decode_id (it : Interner) (i : TermId) : Value := default VDefaultGraph (value_at it i).
Definition decode_binding (it : Interner) (b : Binding) : gmap VarName Value := decode_id it <$> b.
Definition binding_canon (it : Interner) (b : Binding) : Prop := forall x i, b !! x = Some i -> canon it i.

(** The generation key in terms of values. *)
Definition value_entry (entry : VarName * Value) : bytes :=
  let value := sort_key entry.2 in
  str "|" ++ print_nat (len entry.1) ++ str ":" ++ entry.1 ++ str "=" ++ print_nat (len value) ++ str ":" ++ value.
Definition value_generation_key (rule : RuleId) (generator : BlankNodeGenerator) (b : gmap VarName Value) : bytes :=
  (print_nat (len rule) ++ str ":" ++ rule ++ str "|" ++ print_nat (len generator) ++ str ":" ++ generator)
  ++ mjoin (value_entry <$> btree_entries b).

Lemma btree_entries_fmap {A B : Type} (f : A -> B) (m : gmap VarName A) :
  btree_entries (f <$> m) = prod_map (fun x => x) f <$> btree_entries m.
Proof.
  apply (sorted_unique fst).
  - intros [x a] [y b] Hx Hy E. cbn in E. subst. apply elem_of_btree_entries in Hx, Hy. congruence.
  - apply sort_by_sorted.
  - pose proof (sort_by_sorted fst (map_to_list m)) as H. unfold btree_entries. revert H.
    generalize (sort_by fst (map_to_list m)) as l.
    induction 1 as [|x l Hl IH Hx]; [constructor|]. rewrite fmap_cons. constructor; [done|].
    rewrite Forall_forall in Hx |- *. intros y Hy. apply list_elem_of_In in Hy. apply list_elem_of_fmap in Hy as (z & -> & Hz).
    destruct x, z. cbn. apply (Hx _ (proj1 (list_elem_of_In _ _) Hz)).
  - unfold btree_entries. rewrite !sort_by_perm, map_to_list_fmap. done.
Qed.

Lemma generation_key_value (base : Value -> Prop) (it : Interner) (rule : RuleId) (g : BlankNodeGenerator) (b : Binding) :
  interner_ok base it -> binding_canon it b ->
  generation_key it rule g b = Some (value_generation_key rule g (decode_binding it b)).
Proof.
  intros ok Hb. unfold generation_key, value_generation_key, decode_binding. rewrite btree_entries_fmap.
  assert (mapM (generation_entry it) (btree_entries b)
    = Some (value_entry <$> (prod_map (fun x => x) (decode_id it) <$> btree_entries b))) as ->; [|done].
  apply mapM_Some. assert (Hc : forall x i, (x, i) ∈ btree_entries b -> canon it i).
  { intros x i Hx. apply elem_of_btree_entries in Hx. eauto. }
  revert Hc. generalize (btree_entries b) as l. induction l as [|[x i] l IH]; intros Hc; [constructor|].
  cbn. constructor; [|apply IH; intros; eapply Hc; by right].
  destruct (canon_value ok i (Hc x i ltac:(constructor))) as (v & Hv & _).
  unfold generation_entry, value_entry, decode_id. cbn [fst snd]. by rewrite Hv.
Qed.

(** The key tells apart instances with different rules, generators, or texts of
    the bound values: every part is preceded by its length. *)
Lemma app_delimited {A : Type} (d : A) (a b x y : list A) :
  d ∉ a -> d ∉ b -> a ++ d :: x = b ++ d :: y -> a = b /\ x = y.
Proof.
  revert b. induction a as [|c a IH]; intros [|e b] Ha Hb E; simplify_list_eq; [done|set_solver..|].
  destruct (IH b) as [-> ->]; set_solver.
Qed.

Lemma colon_not_in_nat (n : Z) : 0 <= n -> ":"%char ∉ print_nat n.
Proof.
  intros Hn Hin. pose proof (print_nat_digits n Hn) as H. unfold all_digits in H. 
  rewrite Forall_forall in H. by specialize (H _ (proj1 (list_elem_of_In _ _) Hin)).
Qed.

Lemma chunk_inj (a b x y : bytes) :
  print_nat (len a) ++ ":"%char :: a ++ x = print_nat (len b) ++ ":"%char :: b ++ y -> a = b /\ x = y.
Proof.
  intros E. apply app_delimited in E as [E1 E2]; [|apply colon_not_in_nat, len_nonneg..].
  apply (f_equal (digits_value 0)) in E1. rewrite !print_nat_value in E1 by apply len_nonneg. unfold len in E1.
  apply app_inj_1 in E2; [done|lia].
Qed.

Lemma value_entries_inj (l k : list (VarName * Value)) :
  mjoin (value_entry <$> l) = mjoin (value_entry <$> k) ->
  prod_map (fun x => x) sort_key <$> l = prod_map (fun x => x) sort_key <$> k.
Proof.
  revert k. induction l as [|[x v] l IH]; intros [|[y w] k] E; [done..|].
  csimpl in E. csimpl. injection E as E. simplify_list_eq.
  apply chunk_inj in E as [-> E]. injection E as E. simplify_list_eq.
  apply chunk_inj in E as [Ev E]. by rewrite Ev, (IH k E).
Qed.

Lemma value_generation_key_inj (rule rule' : RuleId) (g g' : BlankNodeGenerator) (b b' : gmap VarName Value) :
  value_generation_key rule g b = value_generation_key rule' g' b' ->
  rule = rule' /\ g = g' /\ sort_key <$> b = sort_key <$> b'.
Proof.
  intros E. unfold value_generation_key in E. simplify_list_eq.
  apply chunk_inj in E as [-> E]. injection E as E. apply chunk_inj in E as [-> E].
  split_and!; [done..|]. apply value_entries_inj in E. rewrite <- !btree_entries_fmap in E.
  apply map_eq. intros x. apply option_eq. intros v. rewrite <- !elem_of_btree_entries. by rewrite E.
Qed.

(** The labels that are tried are all different. *)
Lemma print_nat_inj (n m : Z) : 0 <= n -> 0 <= m -> print_nat n = print_nat m -> n = m.
Proof. intros Hn Hm H. rewrite <- (print_nat_value n), <- (print_nat_value m) by done. by rewrite H. Qed.

Lemma generated_label_named (s : bytes) (suffix : Z) :
  generated_label (str "oxdatalog-" ++ s) suffix =
  VTerm (TermBlankNode (BlankNamed
    (if suffix =? 0 then str "oxdatalog-" ++ s else (str "oxdatalog-" ++ s) ++ str "-" ++ print_nat suffix))).
Proof. unfold generated_label. by destruct (suffix =? 0). Qed.

Lemma generated_label_inj (s : bytes) (n m : Z) :
  0 <= n -> 0 <= m ->
  generated_label (str "oxdatalog-" ++ s) n = generated_label (str "oxdatalog-" ++ s) m -> n = m.
Proof.
  intros Hn Hm. rewrite !generated_label_named. generalize (str "oxdatalog-" ++ s) as b. intros b.
  destruct (n =? 0) eqn:E1, (m =? 0) eqn:E2; bool_to_prop; subst; intros H; try done; injection H as H.
  - rewrite <- (app_nil_r b) in H at 1. by apply app_inv_head in H.
  - rewrite <- (app_nil_r b) in H at 2. by apply app_inv_head in H.
  - apply app_inv_head in H. injection H as H. by apply print_nat_inj.
Qed.

(** One of [size ids + 1] labels is free. *)
Lemma free_label (ids : gmap Value TermId) (s : bytes) :
  ~ forall j, 0 <= j < Z.of_nat (S (size ids)) -> is_Some (ids !! generated_label (str "oxdatalog-" ++ s) j).
Proof.
  intros H. set (labels := (fun j : nat => generated_label (str "oxdatalog-" ++ s) (Z.of_nat j)) <$> seq 0 (S (size ids))).
  assert (Hnd : NoDup labels).
  { apply NoDup_fmap_2; [|apply NoDup_seq]. intros j k E. apply generated_label_inj in E; lia. }
  assert (Hin : forall v, v ∈ labels -> v ∈ (map_to_list ids).*1).
  { intros v (j & -> & Hj)%list_elem_of_fmap. apply elem_of_seq in Hj.
    destruct (H (Z.of_nat j)) as [i Hi]; [lia|]. apply list_elem_of_fmap. exists (generated_label (str "oxdatalog-" ++ s) (Z.of_nat j), i).
    split; [done|by apply elem_of_map_to_list]. }
  assert (length labels <= length (map_to_list ids).*1)%nat as Hl.
  { apply NoDup_incl_length; [by apply NoDup_ListNoDup|]. intros v Hv. apply list_elem_of_In. by apply Hin, list_elem_of_In. }
  subst labels. rewrite !length_fmap, length_seq, length_map_to_list in Hl. lia.
Qed.

Section generate.
  Context {P : DatalogParams} (env : Environment) (options : EvaluationOptions).
  Context (F : failure -> Prop) (HF : guard_errors env options F) (base : Value -> Prop).

(** What the generation of a blank node can raise: the identifiers run out, or
    the label of a new node is a term above the limit. *)
Definition generation_errors : Prop :=
  F (Raised (LimitExceeded LimitTerms (int_max U32))) /\
  forall key j, let actual := Value_estimated_bytes (generated_label (str "oxdatalog-" ++ hex_sha256 key) j) in
    el_max_term_bytes (eo_limits options) < actual ->
    F (Raised (GeneratedTermLimit actual (el_max_term_bytes (eo_limits options)))).

Lemma find_label_holds (it : Interner) (s : bytes) (suffix : Z) (count : nat) :
  holds (exec_ok env options) F (find_label env options it (str "oxdatalog-" ++ s) suffix count)
    (fun r => match r with
              | Some v => it_ids it !! v = None /\ exists j, v = generated_label (str "oxdatalog-" ++ s) j
              | None => forall j, suffix <= j < suffix + Z.of_nat count ->
                  is_Some (it_ids it !! generated_label (str "oxdatalog-" ++ s) j)
              end).
Proof.
  revert suffix. induction count as [|count IH]; intros suffix; cbn [find_label].
  - apply holds_ret. lia.
  - guard_step HF. destruct (it_ids it !! generated_label (str "oxdatalog-" ++ s) suffix) as [i|] eqn:E.
    + eapply holds_conseq; [apply IH|]. intros [v|]; [done|]. intros H j Hj.
      destruct (decide (j = suffix)) as [->|]; [by rewrite E|]. apply H. lia.
    + apply holds_ret. split; [done|]. by exists suffix.
Qed.

Lemma value_at_snoc (it : Interner) (v : Value) (ids : gmap Value TermId) (gen : gmap bytes TermId) (n : Z) :
  value_at (mkInterner (it_values it ++ [v]) ids gen n) (len (it_values it)) = Some v.
Proof. unfold value_at, len. cbn [it_values]. rewrite Nat2Z.id. by apply list_lookup_middle. Qed.

(** Recording a new value under a new key. *)
Lemma generate_ok (it : Interner) (key : bytes) (v : Value) (n : Z) :
  interner_ok base it -> it_generated it !! key = None -> it_ids it !! v = None -> is_blank v ->
  let it' := mkInterner (it_values it ++ [v]) (<[v := len (it_values it)]> (it_ids it))
               (<[key := len (it_values it)]> (it_generated it)) n in
  interner_ok base it' /\ extends it it'.
Proof.
  intros ok Hkey Hv Hblank it'.
  assert (Hext : extends it it').
  { split; cbn; [by apply prefix_app_r|by apply insert_subseteq|by apply insert_subseteq]. }
  assert (Hlt : forall w i, it_ids it !! w = Some i -> i <> len (it_values it)).
  { intros w i Hw ->. apply (io_ids _ _ ok) in Hw as [_ Hw]. unfold value_at, len in Hw.
    apply lookup_lt_Some in Hw. rewrite Nat2Z.id in Hw. lia. }
  assert (Hgen : forall k i, it_generated it !! k = Some i -> i <> len (it_values it)).
  { intros k i Hk. apply (io_generated _ _ ok) in Hk as (w & Hw & _). by eapply Hlt. }
  split; [|done]. split; cbn [it_ids it_generated].
  - intros w i. subst it'. cbn [it_ids]. rewrite lookup_insert_Some. intros [[<- <-]|[_ Hw]].
    + split; [apply len_nonneg|apply value_at_snoc].
    + apply (io_ids _ _ ok) in Hw as [Hi Hw]. split; [done|]. by apply (extends_value_at it).
  - intros w Hw. subst it'. cbn [it_ids]. apply lookup_insert_is_Some'. right. by apply (io_base _ _ ok).
  - intros w i. subst it'. cbn [it_ids it_generated]. rewrite lookup_insert_Some. intros [[<- <-]|[_ Hw]].
    + right. exists key. by rewrite lookup_insert_eq.
    + apply (io_known _ _ ok) in Hw as [?|[k Hk]]; [by left|]. right. exists k.
      rewrite lookup_insert_ne; [done|]. congruence.
  - intros k i. subst it'. cbn [it_ids it_generated]. rewrite lookup_insert_Some. intros [[<- <-]|[_ Hk]].
    + exists v. rewrite lookup_insert_eq. split_and!; [done..|]. intros Hb.
      apply (io_base _ _ ok) in Hb as [i Hi]. congruence.
    + apply (io_generated _ _ ok) in Hk as (w & Hw & H1 & H2). exists w. split_and!; [|done..].
      rewrite lookup_insert_ne; [done|]. congruence.
  - intros k k' i. subst it'. cbn [it_generated]. rewrite !lookup_insert_Some.
    intros [[<- <-]|[_ Hk]] [[<- Hi]|[_ Hk']]; [done|by apply Hgen in Hk'|subst; by apply Hgen in Hk|].
    by eapply (io_injective _ _ ok).
Qed.

Lemma generate_blank_node_holds (it : Interner) (rule : RuleId) (g : BlankNodeGenerator) (b : Binding) :
  interner_ok base it -> binding_canon it b ->
  generation_errors ->
  holds (exec_ok env options) F (generate_blank_node env options it rule g b)
    (fun '(id, it') => interner_ok base it' /\ extends it it' /\
       it_generated it' !! value_generation_key rule g (decode_binding it b) = Some id).
Proof.
  intros ok Hb [HT HG]. unfold generate_blank_node.
  eapply holds_bind; [apply (unwrap_holds _ _ _ _ _ (fun key => key = value_generation_key rule g (decode_binding it b))
    (generation_key_value base it rule g b ok Hb)); done|].
  intros key ->. set (key := value_generation_key rule g (decode_binding it b)).
  destruct (it_generated it !! key) as [i|] eqn:Ek; [apply holds_ret; split_and!; [done|apply extends_refl|done]|].
  destruct (_ >? _); [by apply raise_holds|].
  eapply holds_bind; [apply find_label_holds|]. intros [v|] Hv.
  - destruct Hv as (Hv & j & ->). destruct (_ >? _) eqn:E; bool_to_prop; [apply raise_holds, HG; lia|].
    set (v := generated_label _ j) in *. assert (Hblank : is_blank v) by (subst v; rewrite generated_label_named; by eexists).
    guard_step HF. guard_step HF. apply holds_ret.
    match goal with |- interner_ok _ (mkInterner _ _ _ ?n) /\ _ =>
      destruct (generate_ok it key v n ok Ek Hv Hblank) as [H1 H2] end.
    split_and!; [done|done|]. cbn [it_generated]. by rewrite lookup_insert_eq.
  - exfalso. apply (free_label (it_ids it) (hex_sha256 key)). intros j Hj. apply Hv. lia.
Qed.
End generate.
