(* ===== verification/DatalogJoinFacts.v ===== *)
(** * Joins

    The join of a rule body finds exactly the bindings of its variables under
    which every positive atom is a tuple of its store, with those tuples as
    premises. *)
From stdpp Require Import gmap.
From S2P Require Import Prelude MachineInt RustStr BTree RdfModel RdfDisplay DatalogIr.
From S2P Require Import StateResult DatalogValidate DatalogValidateFacts DatalogControl.
From S2P Require Import DatalogStorage DatalogRules DatalogControlFacts DatalogStorageFacts.
From S2P Require Import DatalogInternerFacts.

(** ** Instantiation *)

(** The tuple of an atom under a binding. *)
Definition ids_of (b : Binding) (it : Interner) (terms : list PatternTerm) : option Tuple :=
  mapM (fixed_id b it) terms.

Lemma fixed_id_mono (b c : Binding) (it : Interner) (t : PatternTerm) (v : TermId) :
  b ⊆ c -> fixed_id b it t = Some v -> fixed_id c it t = Some v.
Proof. intros Hbc. destruct t; cbn [fixed_id]; [intros H; by eapply lookup_weaken|done..]. Qed.

Lemma ids_of_mono (b c : Binding) (it : Interner) (terms : list PatternTerm) (t : Tuple) :
  b ⊆ c -> ids_of b it terms = Some t -> ids_of c it terms = Some t.
Proof.
  unfold ids_of. rewrite !mapM_Some. intros Hbc H. induction H; [constructor|].
  constructor; [by eapply fixed_id_mono|done].
Qed.

Lemma ids_of_extends (b : Binding) (it it' : Interner) (terms : list PatternTerm) (t : Tuple) :
  extends it it' -> ids_of b it terms = Some t -> ids_of b it' terms = Some t.
Proof.
  unfold ids_of. rewrite !mapM_Some. intros He H. induction H as [|p v terms t Hp H IH]; [constructor|].
  constructor; [|done]. destruct p; cbn [fixed_id] in *; [done|by eapply extends_id|done].
Qed.

Lemma known_constants_cons (it : Interner) (t : PatternTerm) (terms : list PatternTerm) :
  known_constants it (t :: terms) ->
  (forall v, t = PConstant v -> is_Some (it_ids it !! v)) /\ known_constants it terms.
Proof. intros H. split; [intros v ->; apply H; constructor|intros v Hv; apply H; by right]. Qed.

Lemma ground_terms_spec (b : Binding) (it : Interner) (terms : list PatternTerm) :
  known_constants it terms -> ground_terms terms b it = Some (ids_of b it terms).
Proof.
  induction terms as [|t terms IH]; intros Hk; [done|]. apply known_constants_cons in Hk as [Ht Hk].
  unfold ids_of in *. cbn [ground_terms mapM]. destruct t as [x|c|g]; cbn [fixed_id].
  - cbn [mbind option_bind mret option_ret]. destruct (b !! x); [|done]. rewrite (IH Hk).
    cbn [mbind option_bind mret option_ret]. by destruct (mapM _ terms).
  - unfold Interner_id. destruct (Ht c eq_refl) as [i Hi]. rewrite Hi. cbn [mbind option_bind mret option_ret].
    rewrite (IH Hk). cbn [mbind option_bind mret option_ret]. by destruct (mapM _ terms).
  - done.
Qed.

(** ** Binding a tuple *)

Definition all_ground (terms : list PatternTerm) : Prop := forall g, PGeneratedBlankNode g ∉ terms.

(** The binding grows as little as the tuple asks for, or nothing that extends
    it fits the tuple. *)
Definition bind_result (it : Interner) (terms : list PatternTerm) (tuple : Tuple) (b : Binding) (r : option Binding)
  : Prop :=
  match r with
  | Some b' => b ⊆ b' /\ dom b' = list_to_set (terms ≫= term_variables) ∪ dom b /\
      ids_of b' it terms = Some tuple /\
      (forall c, b ⊆ c -> ids_of c it terms = Some tuple -> b' ⊆ c) /\
      (forall x i, b' !! x = Some i -> b !! x = Some i \/ i ∈ tuple)
  | None => forall c, b ⊆ c -> ids_of c it terms <> Some tuple
  end.

Lemma ids_of_cons (c : Binding) (it : Interner) (t : PatternTerm) (terms : list PatternTerm) (v : TermId) (tuple : Tuple) :
  ids_of c it (t :: terms) = Some (v :: tuple) <-> fixed_id c it t = Some v /\ ids_of c it terms = Some tuple.
Proof.
  unfold ids_of. cbn [mapM]. split.
  - intros (w & Hw & (rest & Hr & [= -> ->])%bind_Some)%bind_Some. done.
  - intros [Hw Hr]. by rewrite Hw, Hr.
Qed.

Lemma bind_result_variable (it : Interner) (x : VarName) (terms : list PatternTerm) (v : TermId) (tuple : Tuple)
  (b : Binding) (r : option Binding) :
  b !! x = None \/ b !! x = Some v -> bind_result it terms tuple (<[x := v]> b) r ->
  bind_result it (PVariable x :: terms) (v :: tuple) b r.
Proof.
  intros Hx Hspec. assert (Hsub : b ⊆ <[x := v]> b).
  { destruct Hx as [Hx|Hx]; [by apply insert_subseteq|]. by rewrite insert_id. }
  assert (Hup : forall c, b ⊆ c -> c !! x = Some v -> <[x := v]> b ⊆ c).
  { intros c Hb Hcx. apply map_subseteq_spec. intros y i. rewrite lookup_insert_Some.
    intros [[<- <-]|[_ Hy]]; [done|]. by eapply lookup_weaken. }
  destruct r as [b'|].
  - destruct Hspec as (H1 & H2 & H3 & H4 & H5). split_and!.
    + by etrans.
    + rewrite H2, dom_insert_L. cbn. set_solver.
    + apply ids_of_cons. split; [|done]. eapply lookup_weaken; [|exact H1]. apply lookup_insert_eq.
    + intros c Hb [Hcx Hc']%ids_of_cons. apply H4; [by apply Hup|done].
    + intros y i Hy. apply H5 in Hy as [Hy|Hy]; [|right; by right].
      apply lookup_insert_Some in Hy as [[<- <-]|[_ Hy]]; [right; constructor|by left].
  - intros c Hb [Hcx Hc']%ids_of_cons. by eapply (Hspec c (Hup c Hb Hcx)).
Qed.

Lemma bind_result_constant (it : Interner) (value : Value) (terms : list PatternTerm) (v : TermId) (tuple : Tuple)
  (b : Binding) (r : option Binding) :
  it_ids it !! value = Some v -> bind_result it terms tuple b r ->
  bind_result it (PConstant value :: terms) (v :: tuple) b r.
Proof.
  intros Hv. destruct r as [b'|].
  - intros (H1 & H2 & H3 & H4 & H5). split_and!; [done|done|by apply ids_of_cons| |].
    + intros c Hb [_ Hc']%ids_of_cons. by apply H4.
    + intros y j Hy. apply H5 in Hy as [Hy|Hy]; [by left|right; by right].
  - intros Hspec c Hb [_ Hc']%ids_of_cons. by eapply Hspec.
Qed.

Lemma bind_terms_spec (it : Interner) (terms : list PatternTerm) (tuple : Tuple) (b : Binding) :
  known_constants it terms -> all_ground terms -> length terms = length tuple ->
  exists r, bind_terms terms tuple b it = Some r /\ bind_result it terms tuple b r.
Proof.
  revert tuple b. induction terms as [|t terms IH]; intros [|v tuple] b Hk Hg Hl; try done.
  { exists (Some b). cbn. split_and!; [done|done|set_solver|done|done|]. auto. }
  apply known_constants_cons in Hk as [Hc Hk].
  assert (Hg' : all_ground terms) by (intros g Hin; apply (Hg g); by right).
  injection Hl as Hl. cbn [bind_terms]. destruct t as [x|c0|g].
  - destruct (IH tuple (<[x := v]> b) Hk Hg' Hl) as (r & Hr & Hspec). destruct (b !! x) as [w|] eqn:Ex.
    + destruct (w =? v) eqn:Ew; bool_to_prop.
      * subst w. exists r. split; [done|]. apply bind_result_variable; auto.
      * exists None. split; [done|]. intros c Hb [Hcx _]%ids_of_cons. cbn [fixed_id] in Hcx.
        pose proof (lookup_weaken _ _ _ _ Ex Hb). congruence.
    + exists r. split; [done|]. apply bind_result_variable; auto.
  - destruct (Hc c0 eq_refl) as [i Hi]. unfold Interner_id. rewrite Hi. cbn [mbind option_bind].
    destruct (i =? v) eqn:Ei; bool_to_prop.
    + subst i. destruct (IH tuple b Hk Hg' Hl) as (r & Hr & Hspec). exists r. split; [done|].
      by apply bind_result_constant.
    + exists None. split; [done|]. intros c Hb [Hcx _]%ids_of_cons. cbn [fixed_id] in Hcx. congruence.
  - exfalso. apply (Hg g). constructor.
Qed.

(** ** The join of a body *)

Definition store_canon (it : Interner) (s : RelationStore) : Prop :=
  forall key, contains_key s key = true -> Forall (canon it) key.2.

(** What validation guarantees of an atom of a body. *)
Record atom_ok (arities : gmap RelationId Z) (it : Interner) (a : Atom) : Prop := {
  ao_known : known_constants it (a_terms a);
  ao_ground : all_ground (a_terms a);
  ao_arity : arities !! a_relation a = Some (Atom_arity a)
}.

Definition store_at (dp : option nat) (all delta : RelationStore) (i : nat) : RelationStore :=
  if decide (Some i = dp) then delta else all.

Section join.
  Context {P : DatalogParams} (env : Environment) (options : EvaluationOptions).
  Context (F : failure -> Prop) (HF : guard_errors env options F).
  Context (arities : gmap RelationId Z) (it : Interner) (dp : option nat) (all delta : RelationStore) (N : Z).
  Hypothesis all_wf : store_wf arities all.
  Hypothesis delta_wf : store_wf arities delta.
  Hypothesis all_canon : store_canon it all.
  Hypothesis delta_canon : store_canon it delta.
  Hypothesis sizes : forall i r d, rs_relations (store_at dp all delta i) !! r = Some d -> Z.of_nat (size (rd_tuples d)) <= N.
Abbreviation runs := (holds (exec_ok env options) F).
Abbreviation JoinState := (gmap VarName Z * list (bytes * list Z))%type.
Abbreviation store := (store_at dp all delta).

(** A join state after the atoms [pre]. *)
Record state_ok (pre : list Atom) (st : JoinState) : Prop := {
  so_dom : dom st.1 = body_variables pre;
  so_canon : binding_canon it st.1;
  so_length : length st.2 = length pre;
  so_premises : forall i a key, pre !! i = Some a -> st.2 !! i = Some key ->
    key.1 = a_relation a /\ ids_of st.1 it (a_terms a) = Some key.2 /\ contains_key (store i) key = true
}.

(** A binding under which every atom of [pre] is a tuple of its store. *)
Definition fits (c : Binding) (pre : list Atom) : Prop :=
  forall i a, pre !! i = Some a -> exists t, ids_of c it (a_terms a) = Some t /\
    contains_key (store i) (a_relation a, t) = true.
Definition found (c : Binding) (states : list JoinState) : Prop :=
  exists st, st ∈ states /\ st.1 ⊆ c.

Lemma store_at_wf (i : nat) : store_wf arities (store i).
Proof. unfold store_at. by case_decide. Qed.
Lemma store_at_canon (i : nat) : store_canon it (store i).
Proof. unfold store_at. by case_decide. Qed.

Lemma state_ok_snoc (pre : list Atom) (a : Atom) (st : JoinState) (b' : Binding) (t : Tuple) :
  state_ok pre st -> st.1 ⊆ b' -> dom b' = list_to_set (a_terms a ≫= term_variables) ∪ dom st.1 ->
  ids_of b' it (a_terms a) = Some t -> (forall x i, b' !! x = Some i -> st.1 !! x = Some i \/ i ∈ t) ->
  contains_key (store (length pre)) (a_relation a, t) = true ->
  state_ok (pre ++ [a]) (b', st.2 ++ [(a_relation a, t)]).
Proof.
  intros [H1 H2 H3 H4] Hsub Hdom Hids Hnew Hc. split; cbn [fst snd].
  - rewrite body_variables_snoc, Hdom, H1. done.
  - intros x i Hx. apply Hnew in Hx as [Hx|Hi]; [by eapply H2|].
    apply store_at_canon in Hc. cbn [snd] in Hc. rewrite Forall_forall in Hc. by apply Hc, list_elem_of_In.
  - rewrite !length_app. simpl. lia.
  - intros i a' key. rewrite !lookup_app_Some. intros [Ha|[Hi Ha]] [Hk|[Hi' Hk]].
    + destruct (H4 i a' key Ha Hk) as (Hr & Hid & Hin). split_and!; [done|by eapply ids_of_mono|done].
    + apply lookup_lt_Some in Ha. lia.
    + apply lookup_lt_Some in Hk. lia.
    + rewrite H3 in Hk. apply list_lookup_singleton_Some in Ha as [Hi0 <-], Hk as [_ <-].
      replace i with (length pre) by lia. done.
Qed.

(** What the inner loop adds to the rows [next]. *)
Record extended (pre : list Atom) (a : Atom) (next next' : list JoinState) (n : Z) : Prop := {
  en_old : forall st, st ∈ next -> st ∈ next';
  en_new : forall st, st ∈ next' -> st ∈ next \/ state_ok (pre ++ [a]) st;
  en_length : len next' <= len next + n
}.

Lemma extended_trans (pre : list Atom) (a : Atom) (l1 l2 l3 : list JoinState) (n m : Z) :
  extended pre a l1 l2 n -> extended pre a l2 l3 m -> extended pre a l1 l3 (n + m).
Proof. intros [H1 H2 H3] [H4 H5 H6]. split; [auto|naive_solver|lia]. Qed.


Lemma join_tuple_holds (pre : list Atom) (a : Atom) (st : JoinState) (bytes : Z) (acc : list JoinState * Z) (t : Tuple) :
  atom_ok arities it a -> state_ok pre st -> contains_key (store (length pre)) (a_relation a, t) = true ->
  (el_max_intermediate_rows (eo_limits options) < len acc.1 + 1 ->
     F (Raised (LimitExceeded LimitIntermediateRows (el_max_intermediate_rows (eo_limits options))))) ->
  runs (join_tuple env options a it bytes st acc t)
    (fun acc' => extended pre a acc.1 acc'.1 1 /\
       forall c, st.1 ⊆ c -> ids_of c it (a_terms a) = Some t -> found c acc'.1).
Proof.
  intros Ha Hst Hc HR. destruct acc as [next bytes']. unfold join_tuple. guard_step HF.
  assert (Hlen : length (a_terms a) = length t).
  { pose proof (store_key_ok arities _ _ (store_at_wf _) Hc) as Hk. unfold key_ok in Hk. cbn [fst snd] in Hk.
    rewrite (ao_arity _ _ _ Ha) in Hk. injection Hk as Hk. unfold Atom_arity, len in Hk. lia. }
  destruct (bind_terms_spec it (a_terms a) t st.1 (ao_known _ _ _ Ha) (ao_ground _ _ _ Ha) Hlen) as (r & Hr & Hspec).
  eapply holds_bind; [apply (unwrap_holds _ _ _ _ r (fun r' => r' = r) Hr eq_refl)|]. intros r' ->.
  destruct r as [b'|].
  - destruct Hspec as (H1 & H2 & H3 & H4 & H5). guard_step HF. guard_step HF. cbn [fst] in HR |- *.
    assert (Hl : len (next ++ [(b', st.2 ++ [(a_relation a, t)])]) = len next + 1).
    { unfold len. rewrite length_app. simpl. lia. }
    destruct (_ >? _) eqn:E; bool_to_prop; [apply raise_holds, HR; lia|]. apply holds_ret. cbn [fst]. split.
    + split; [set_solver| |lia]. intros st' [Hin|Hin]%elem_of_app; [by left|]. right.
      apply list_elem_of_singleton in Hin as ->. by apply state_ok_snoc.
    + intros c Hsub Hids. eexists. split; [apply elem_of_app; right; by constructor|]. by apply H4.
  - apply holds_ret. cbn [fst]. split; [split; [done|by left|lia]|].
    intros c Hsub Hids. exfalso. by eapply (Hspec c).
Qed.

Lemma join_state_holds (pre : list Atom) (a : Atom) (d : RelationData) (bytes : Z) (acc : list JoinState * Z) (st : JoinState) :
  atom_ok arities it a -> state_ok pre st -> rs_relations (store (length pre)) !! a_relation a = Some d ->
  (forall n, 0 <= n <= N -> 1 <= N -> el_max_intermediate_rows (eo_limits options) < len acc.1 + n ->
     F (Raised (LimitExceeded LimitIntermediateRows (el_max_intermediate_rows (eo_limits options))))) ->
  runs (join_state env options d a it bytes acc st)
    (fun acc' => extended pre a acc.1 acc'.1 N /\
       forall c t, st.1 ⊆ c -> ids_of c it (a_terms a) = Some t ->
         contains_key (store (length pre)) (a_relation a, t) = true -> found c acc'.1).
Proof.
  intros Ha Hst Hd HR. unfold join_state. guard_step HF.
  destruct (store_at_wf _ _ _ Hd) as (k & Hk & _ & Hw). pose proof (ao_arity _ _ _ Ha) as Har.
  assert (Atom_arity a = k) as <- by congruence.
  destruct (matching_scan _ d a st.1 it Hw eq_refl (ao_known _ _ _ Ha)) as (cs & Hcs & Hm).
  eapply holds_bind; [apply (unwrap_holds _ _ _ _ _ (fun ts => ts = filter (satisfied cs) (btree_elements (rd_tuples d))) Hm eq_refl)|].
  intros ts ->. set (ts := filter (satisfied cs) (btree_elements (rd_tuples d))).
  assert (Hts : forall t, t ∈ ts -> contains_key (store (length pre)) (a_relation a, t) = true).
  { intros t [_ Ht]%list_elem_of_filter. apply elem_of_btree_elements in Ht. apply contains_key_true. eauto. }
  assert (Hlen : len ts <= N).
  { pose proof (sizes _ _ _ Hd). pose proof (length_filter (satisfied cs) (btree_elements (rd_tuples d))).
    rewrite length_btree_elements in *. unfold len, ts. lia. }
  eapply holds_conseq.
  - apply (holds_for_each _ _ _ (fun done (acc' : list JoinState * Z) => extended pre a acc.1 acc'.1 (len done) /\
      forall c t, t ∈ done -> st.1 ⊆ c -> ids_of c it (a_terms a) = Some t -> found c acc'.1)).
    + intros done t rest acc' Hsplit [He Hf]. rewrite Hsplit in Hlen, Hts.
      assert (Hl1 : len (done ++ [t]) = len done + 1) by (unfold len; rewrite length_app; simpl; lia).
      assert (Hl2 : len done + 1 <= N) by (unfold len in *; rewrite length_app in *; simpl in *; lia).
      eapply holds_conseq; [apply (join_tuple_holds pre a st bytes acc' t Ha Hst); [apply Hts; set_solver|]|].
      * intros Hlim. pose proof (en_length _ _ _ _ _ He). pose proof (len_nonneg done).
        apply (HR (len done + 1)); lia.
      * intros acc'' [He' Hf']. rewrite Hl1. split; [by eapply extended_trans|].
        intros c u [Hu|Hu%list_elem_of_singleton]%elem_of_app Hsub Hids; [|subst; auto].
        destruct (Hf c u Hu Hsub Hids) as (s & Hs & Hsc). exists s. split; [by apply (en_old _ _ _ _ _ He')|done].
    + split; [split; [done|by left|unfold len; simpl; lia]|]. by intros c t ?%elem_of_nil.
  - intros acc' [[H1 H2 H3] Hf]. split; [split; [done|done|lia]|].
    intros c t Hsub Hids Hc. apply (Hf c t); [|done..]. apply list_elem_of_filter. split.
    + apply (constraints_satisfied st.1 it (a_terms a) cs t (ao_known _ _ _ Ha) Hcs). intros i term v Hi Hv.
      unfold ids_of in Hids. apply mapM_Some in Hids. destruct (Forall2_lookup_l _ _ _ _ _ Hids Hi) as (w & Hw' & Hfix).
      apply (fixed_id_mono _ c) in Hv; [|done]. congruence.
    + apply elem_of_btree_elements. apply contains_key_true in Hc as (d' & Hd' & Ht). cbn [fst snd] in *. congruence.
Qed.

(** The rows after the atoms [pre]. *)
Record rows_ok (pre : list Atom) (states : list JoinState) : Prop := {
  ro_ok : forall st, st ∈ states -> state_ok pre st;
  ro_found : forall c, fits c pre -> found c states;
  ro_length : len states <= N ^ Z.of_nat (length pre)
}.

Lemma fits_snoc (c : Binding) (pre : list Atom) (a : Atom) :
  fits c (pre ++ [a]) <-> fits c pre /\ exists t, ids_of c it (a_terms a) = Some t /\
    contains_key (store (length pre)) (a_relation a, t) = true.
Proof.
  unfold fits. split.
  - intros H. split; [intros i b Hi; apply H; by apply lookup_app_l_Some|].
    apply (H (length pre) a). by apply list_lookup_middle.
  - intros [H Ha] i b [Hi|[Hle Hi]]%lookup_app_Some; [by apply H|].
    apply list_lookup_singleton_Some in Hi as [Hi <-]. replace i with (length pre) by lia. done.
Qed.

Lemma fits_app (c : Binding) (pre rest : list Atom) : fits c (pre ++ rest) -> fits c pre.
Proof. intros H i a Hi. apply H. by apply lookup_app_l_Some. Qed.

(** One atom of the body. *)
Lemma join_atom_holds (pre : list Atom) (a : Atom) (d : RelationData) (bytes bytes' : Z) (states : list JoinState) :
  0 <= N -> atom_ok arities it a -> rows_ok pre states ->
  rs_relations (store (length pre)) !! a_relation a = Some d ->
  (el_max_intermediate_rows (eo_limits options) < N ^ Z.of_nat (length (pre ++ [a])) -> 1 <= N ->
     F (Raised (LimitExceeded LimitIntermediateRows (el_max_intermediate_rows (eo_limits options))))) ->
  runs (for_each (join_state env options d a it bytes) ([], bytes') states)
    (fun acc => rows_ok (pre ++ [a]) acc.1).
Proof.
  intros HN Ha [H1 H2 H3] Hd HR.
  assert (Hpow : N ^ Z.of_nat (length (pre ++ [a])) = N ^ Z.of_nat (length pre) * N).
  { rewrite length_app, Nat2Z.inj_add, Z.pow_add_r by lia. simpl (length [a]). lia. }
  eapply holds_conseq.
  - apply (holds_for_each _ _ _ (fun done (acc : list JoinState * Z) =>
      (forall st, st ∈ acc.1 -> state_ok (pre ++ [a]) st) /\ len acc.1 <= len done * N /\
      forall st c t, st ∈ done -> st.1 ⊆ c -> ids_of c it (a_terms a) = Some t ->
        contains_key (store (length pre)) (a_relation a, t) = true -> found c acc.1)).
    + intros done st rest acc Hsplit (Hok & Hlen & Hf). rewrite Hsplit in H1, H3.
      assert (Hl : len (done ++ [st]) = len done + 1) by (unfold len; rewrite length_app; simpl; lia).
      assert (Hl2 : len done + 1 <= N ^ Z.of_nat (length pre)).
      { unfold len in *. rewrite length_app in H3. simpl in H3. lia. }
      eapply holds_conseq; [apply (join_state_holds pre a d bytes acc st Ha); [apply H1; set_solver|done|]|].
      * intros n Hn HN1 Hlim. apply HR; [rewrite Hpow; nia|done].
      * intros acc' [[He1 He2 He3] Hf']. split_and!.
        -- intros s Hs. apply He2 in Hs as [Hs|Hs]; auto.
        -- rewrite Hl. lia.
        -- intros s c t [Hs|Hs%list_elem_of_singleton]%elem_of_app Hsub Hids Hc; [|subst; eauto].
           destruct (Hf s c t Hs Hsub Hids Hc) as (s' & Hs' & Hsc). exists s'. split; [by apply He1|done].
    + cbn [fst]. split_and!; [by intros st ?%elem_of_nil|unfold len; simpl; lia|by intros st c t ?%elem_of_nil].
  - intros acc (Hok & Hlen & Hf). split; [done| |].
    + intros c Hc. apply fits_snoc in Hc as [Hc (t & Ht & Hin)]. destruct (H2 c Hc) as (st & Hst & Hsub). eauto.
    + rewrite Hpow. nia.
Qed.

Lemma join_body_holds (body pre : list Atom) (states : list JoinState) (bytes : Z) :
  0 <= N -> (forall a, a ∈ body -> atom_ok arities it a) -> rows_ok pre states ->
  (el_max_intermediate_rows (eo_limits options) < N ^ Z.of_nat (length (pre ++ body)) ->
     F (Raised (LimitExceeded LimitIntermediateRows (el_max_intermediate_rows (eo_limits options))))) ->
  runs (join_body env options dp all delta it (length pre) body states bytes)
    (fun r => match r with
              | Some (states', _) => rows_ok (pre ++ body) states'
              | None => forall c, ~ fits c (pre ++ body)
              end).
Proof.
  intros HN. revert pre states bytes. induction body as [|a body IH]; intros pre states bytes Ha Hrows HR; cbn [join_body].
  { apply holds_ret. by rewrite app_nil_r. }
  change (if decide (Some (length pre) = dp) then delta else all) with (store (length pre)).
  replace (pre ++ a :: body) with ((pre ++ [a]) ++ body) in HR |- * by by rewrite <- app_assoc.
  unfold relation. destruct (rs_relations (store (length pre)) !! a_relation a) as [d|] eqn:Ed.
  - eapply holds_bind.
    { apply (join_atom_holds pre a d); [done|apply Ha; constructor|done|done|].
      intros Hlim HN1. apply HR. eapply Z.lt_le_trans; [exact Hlim|]. apply Z.pow_le_mono_r; [lia|].
      rewrite (length_app (pre ++ [a])). lia. }
    intros [next next_bytes] Hnext. cbn [fst] in Hnext. guard_step HF. guard_step HF.
    destruct next as [|st next].
    + guard_step HF. guard_step HF. apply holds_ret. intros c Hc. apply fits_app in Hc.
      destruct (ro_found _ _ Hnext c Hc) as (s & Hs & _). by apply elem_of_nil in Hs.
    + replace (S (length pre)) with (length (pre ++ [a])) by (rewrite length_app; simpl; lia).
      apply IH; [intros b Hb; apply Ha; by right|done|done].
  - guard_step HF. guard_step HF. apply holds_ret. intros c Hc. apply fits_app in Hc.
    apply fits_snoc in Hc as [_ (t & _ & Hin)]. apply contains_key_true in Hin as (d & Hd & _). cbn [fst] in Hd. congruence.
Qed.

Lemma rows_initial : rows_ok [] [(∅, [])].
Proof.
  split.
  - intros st ->%list_elem_of_singleton. split; [done|intros x i Hx; cbn [fst] in Hx; by rewrite lookup_empty in Hx|done|].
    intros i a key Hi. by rewrite lookup_nil in Hi.
  - intros c _. eexists. split; [by constructor|]. apply map_empty_subseteq.
  - done.
Qed.
End join.
