(* ===== verification/DatalogSpec.v ===== *)
(** * What a Datalog program means

    The reference semantics: ground instances of rules over values, the facts a
    stratum derives from the facts below it, and the model as the iteration over
    the strata.  Generated blank nodes are the values of a function of the rule,
    the generator and the binding of the body's variables. *)
From stdpp Require Import gmap.
From S2P Require Import Prelude MachineInt RustStr BTree RdfModel RdfDisplay DatalogIr.
From S2P Require Import StateResult DatalogValidate DatalogStrataFacts DatalogValidateFacts.
From S2P Require Import DatalogControl DatalogStorage DatalogRules DatalogEngine.

Abbreviation Substitution := (gmap VarName Value) (only parsing).
Abbreviation Skolem := (RuleId -> BlankNodeGenerator -> gmap VarName Value -> Value) (only parsing).

Definition ground_term (σ : Substitution) (t : PatternTerm) : option Value :=
  match t with
  | PVariable x => σ !! x
  | PConstant v => Some v
  | PGeneratedBlankNode _ => None
  end.
Definition ground_atom (σ : Substitution) (a : Atom) : option Fact :=
  mkFact (a_relation a) <$> mapM (ground_term σ) (a_terms a).

Definition head_term (sk : Skolem) (rule : RuleId) (σ : Substitution) (t : PatternTerm) : option Value :=
  match t with
  | PGeneratedBlankNode g => Some (sk rule g σ)
  | _ => ground_term σ t
  end.
Definition head_fact (sk : Skolem) (r : Rule) (σ : Substitution) : option Fact :=
  mkFact (a_relation (r_head r)) <$> mapM (head_term sk (r_id r) σ) (a_terms (r_head r)).

(** The body of a rule holds in [M] and its negated atoms are outside [A]. *)
Record fires (M A : Fact -> Prop) (r : Rule) (σ : Substitution) : Prop := {
  fires_dom : dom σ = body_variables (r_positive_body r);
  fires_body : forall a, a ∈ r_positive_body r -> exists g, ground_atom σ a = Some g /\ M g;
  fires_negative : forall a, a ∈ r_negative_body r -> exists g, ground_atom σ a = Some g /\ ~ A g
}.

(** The facts stratum [s] adds to the facts [lower]. *)
Inductive derives (p : ValidatedProgram) (sk : Skolem) (s : Z) (lower : Fact -> Prop) : Fact -> Prop :=
| derives_lower f : lower f -> derives p sk s lower f
| derives_rule r σ f :
    r ∈ stratum_rules p s ->
    dom σ = body_variables (r_positive_body r) ->
    (forall a, a ∈ r_positive_body r -> is_Some (ground_atom σ a)) ->
    (forall a g, a ∈ r_positive_body r -> ground_atom σ a = Some g -> derives p sk s lower g) ->
    (forall a, a ∈ r_negative_body r -> exists g, ground_atom σ a = Some g /\ ~ lower g) ->
    head_fact sk r σ = Some f ->
    derives p sk s lower f.

(** The facts after the strata below [n]. *)
Fixpoint model_below (p : ValidatedProgram) (sk : Skolem) (input : list Fact) (n : nat) : Fact -> Prop :=
  match n with
  | O => fun f => f ∈ input
  | S n => derives p sk (Z.of_nat n) (model_below p sk input n)
  end.
Definition model (p : ValidatedProgram) (sk : Skolem) (input : list Fact) : Fact -> Prop :=
  model_below p sk input (Z.to_nat (max_stratum p + 1)).

(** A derivation is an instance of a rule: its premises hold, its absent premises do not. *)
Definition justified (sk : Skolem) (rules : list Rule) (M : Fact -> Prop) (f : Fact) (d : Derivation) : Prop :=
  exists r σ premises absent, r ∈ rules /\ dom σ = body_variables (r_positive_body r) /\
    mapM (ground_atom σ) (r_positive_body r) = Some premises /\ Forall M premises /\
    mapM (ground_atom σ) (r_negative_body r) = Some absent /\ Forall (fun g => ~ M g) absent /\
    head_fact sk r σ = Some f /\
    d = Derivation_new_with_absence (r_id r) (r_source r) premises absent.

(** ** Lemmas *)

Lemma fires_derives (p : ValidatedProgram) (sk : Skolem) (s : Z) (lower : Fact -> Prop) (r : Rule) (σ : Substitution) (f : Fact) :
  r ∈ stratum_rules p s -> fires (derives p sk s lower) lower r σ -> head_fact sk r σ = Some f ->
  derives p sk s lower f.
Proof.
  intros Hr [H1 H2 H3] Hf. eapply (derives_rule _ _ _ _ r σ); [done..| | |done|done].
  - intros a Ha. destruct (H2 a Ha) as (g & -> & _). done.
  - intros a g Ha Hg. destruct (H2 a Ha) as (g' & Hg' & Hd). congruence.
Qed.

Lemma justified_fires (sk : Skolem) (rules : list Rule) (M : Fact -> Prop) (f : Fact) (d : Derivation) :
  justified sk rules M f d -> exists r σ, r ∈ rules /\ fires M M r σ /\ head_fact sk r σ = Some f.
Proof.
  intros (r & σ & premises & absent & Hr & Hdom & Hp & HM & Ha & HA & Hf & _). exists r, σ. split_and!; [done| |done].
  apply mapM_Some in Hp, Ha. split; [done|..].
  - intros a Hin. apply list_elem_of_lookup in Hin as [i Hi].
    destruct (Forall2_lookup_l _ _ _ _ _ Hp Hi) as (g & Hg & E). exists g. split; [done|].
    rewrite Forall_forall in HM. apply HM, list_elem_of_In. by eapply list_elem_of_lookup_2.
  - intros a Hin. apply list_elem_of_lookup in Hin as [i Hi].
    destruct (Forall2_lookup_l _ _ _ _ _ Ha Hi) as (g & Hg & E). exists g. split; [done|].
    rewrite Forall_forall in HA. apply HA, list_elem_of_In. by eapply list_elem_of_lookup_2.
Qed.

Lemma ground_atom_relation (σ : Substitution) (a : Atom) (g : Fact) :
  ground_atom σ a = Some g -> f_relation g = a_relation a.
Proof. unfold ground_atom. by intros (vs & _ & ->)%fmap_Some. Qed.

Lemma head_fact_relation (sk : Skolem) (r : Rule) (σ : Substitution) (f : Fact) :
  head_fact sk r σ = Some f -> f_relation f = a_relation (r_head r).
Proof. unfold head_fact. by intros (vs & _ & ->)%fmap_Some. Qed.
