(* ===== verification/DatalogDeriveFacts.v ===== *)
(** * Evaluating one rule

    From the rows of the join to candidates: a rule evaluation adds a candidate
    for every instance of the rule, and every candidate comes with a derivation
    that justifies it. *)
From stdpp Require Import gmap.
From S2P Require Import Prelude MachineInt RustStr BTree RdfModel RdfDisplay DatalogIr.
From S2P Require Import StateResult DatalogValidate DatalogStrataFacts DatalogValidateFacts.
From S2P Require Import DatalogControl DatalogStorage DatalogRules DatalogEngine.
From S2P Require Import DatalogControlFacts DatalogStorageFacts DatalogInternerFacts.
From S2P Require Import DatalogJoinFacts DatalogSpec.

(** ** Identifiers and values *)

(** The generated blank nodes of an interner. *)
Definition sk_of (it : Interner) : Skolem := fun rule g σ =>
  default VDefaultGraph (id ← it_generated it !! value_generation_key rule g σ; value_at it id).

(** A fact is stored. *)
Definition holds_in (it : Interner) (s : RelationStore) (f : Fact) : Prop :=
  exists key, encode_fact it f = Some key /\ contains_key s key = true.

Section values.
  Context {base : Value -> Prop} {it : Interner}.
  Hypothesis ok : interner_ok base it.

Lemma decode_id_canon (v : Value) (i : TermId) : it_ids it !! v = Some i -> decode_id it i = v.
Proof. intros Hi. apply (io_ids _ _ ok) in Hi as [_ Hi]. unfold decode_id. by rewrite Hi. Qed.

Lemma ground_term_id (b : Binding) (t : PatternTerm) (i : TermId) :
  binding_canon it b -> fixed_id b it t = Some i ->
  exists v, ground_term (decode_binding it b) t = Some v /\ it_ids it !! v = Some i.
Proof.
  intros Hb. destruct t as [x|c|g]; cbn [fixed_id ground_term]; [|by exists c|done].
  intros Hx. destruct (Hb x i Hx) as [v Hv]. exists v. split; [|done].
  unfold decode_binding. rewrite lookup_fmap, Hx. cbn. by rewrite (decode_id_canon v i Hv).
Qed.

Lemma ground_term_known (b : Binding) (t : PatternTerm) (v : Value) :
  binding_canon it b -> (forall c, t = PConstant c -> is_Some (it_ids it !! c)) ->
  ground_term (decode_binding it b) t = Some v ->
  exists i, fixed_id b it t = Some i /\ it_ids it !! v = Some i.
Proof.
  intros Hb Hk. destruct t as [x|c|g]; cbn [fixed_id ground_term]; [| |done].
  - unfold decode_binding. rewrite lookup_fmap, fmap_Some. intros (i & Hx & ->).
    destruct (Hb x i Hx) as [v Hv]. exists i. split; [done|]. by rewrite (decode_id_canon v i Hv).
  - intros [= <-]. destruct (Hk c eq_refl) as [i Hi]. eauto.
Qed.

(** The tuple of an atom is the tuple of its ground fact. *)
Lemma ids_of_ground (b : Binding) (terms : list PatternTerm) (t : Tuple) :
  binding_canon it b -> known_constants it terms ->
  ids_of b it terms = Some t <->
  exists vs, mapM (ground_term (decode_binding it b)) terms = Some vs /\ mapM (Interner_id it) vs = Some t.
Proof.
  intros Hb Hk. unfold ids_of. setoid_rewrite mapM_Some. split.
  - intros H. induction H as [|p i terms t Hp H IH]; [by exists []|].
    apply known_constants_cons in Hk as [Hc Hk]. destruct (IH Hk) as (vs & H1 & H2).
    destruct (ground_term_id b p i Hb Hp) as (v & Hv & Hi). exists (v :: vs). split; by constructor.
  - intros (vs & H1 & H2). revert t H2. induction H1 as [|p v terms vs Hp H IH]; intros t H2; inversion H2; subst; [constructor|].
    apply known_constants_cons in Hk as [Hc Hk]. destruct (ground_term_known b p v Hb Hc Hp) as (i & Hi & Hv).
    constructor; [|by apply IH]. unfold Interner_id in *. congruence.
Qed.

Lemma atom_holds (b : Binding) (a : Atom) (s : RelationStore) :
  binding_canon it b -> known_constants it (a_terms a) ->
  (exists t, ids_of b it (a_terms a) = Some t /\ contains_key s (a_relation a, t) = true) <->
  exists g, ground_atom (decode_binding it b) a = Some g /\ holds_in it s g.
Proof.
  intros Hb Hk. unfold ground_atom, holds_in, encode_fact. split.
  - intros (t & Hids & Hc). apply ids_of_ground in Hids as (vs & H1 & H2); [|done..]. rewrite H1.
    eexists. split; [reflexivity|].
    exists (a_relation a, t). cbn [f_values f_relation]. by rewrite H2.
  - intros (g & (vs & H1 & ->)%fmap_Some & key & (t & H2 & [= <-])%bind_Some & Hc). cbn [f_values f_relation] in *.
    exists t. split; [|done]. apply ids_of_ground; eauto.
Qed.

(** The stored binding of a substitution whose values are known. *)
Definition encode_binding (σ : Substitution) : Binding := omap (fun v => it_ids it !! v) σ.

Lemma encode_binding_spec (σ : Substitution) :
  (forall x v, σ !! x = Some v -> is_Some (it_ids it !! v)) ->
  binding_canon it (encode_binding σ) /\ decode_binding it (encode_binding σ) = σ /\
  dom (encode_binding σ) = dom σ.
Proof.
  intros Hk. assert (Hl : forall x, encode_binding σ !! x = σ !! x ≫= fun v => it_ids it !! v).
  { intros x. apply lookup_omap. }
  split_and!.
  - intros x i. rewrite Hl. intros (v & _ & Hv)%bind_Some. by exists v.
  - apply map_eq. intros x. unfold decode_binding. rewrite lookup_fmap, Hl.
    destruct (σ !! x) as [v|] eqn:E; [|done]. cbn. destruct (Hk x v E) as [i Hi]. rewrite Hi. cbn.
    by rewrite (decode_id_canon v i Hi).
  - apply set_eq. intros x. rewrite !elem_of_dom, Hl. destruct (σ !! x) as [v|] eqn:E; [|split; intros [? Hn]; discriminate Hn]. cbn.
    destruct (Hk x v E) as [i Hi]. by rewrite Hi.
Qed.
End values.

Section growth.
  Context {base : Value -> Prop} {it it' : Interner}.
  Hypothesis ok : interner_ok base it.
  Hypothesis ok' : interner_ok base it'.
  Hypothesis grows : extends it it'.

Lemma decode_binding_grows (b : Binding) : binding_canon it b -> decode_binding it' b = decode_binding it b.
Proof.
  intros Hb. unfold decode_binding. apply map_fmap_ext. intros x i Hx. destruct (Hb x i Hx) as [v Hv].
  rewrite (decode_id_canon ok v i Hv). apply (decode_id_canon ok'). by eapply extends_id.
Qed.

Lemma binding_canon_grows (b : Binding) : binding_canon it b -> binding_canon it' b.
Proof. intros Hb x i Hx. eapply extends_canon; eauto. Qed.

Lemma store_canon_grows (s : RelationStore) : store_canon it s -> store_canon it' s.
Proof.
  intros Hs key Hk. eapply List.Forall_impl; [|exact (Hs key Hk)]. intros i. by eapply extends_canon.
Qed.

Lemma holds_in_grows (s : RelationStore) (f : Fact) : store_canon it s -> holds_in it' s f <-> holds_in it s f.
Proof.
  intros Hs. split; intros (key & He & Hc); exists key; (split; [|done]).
  - apply (encode_decode ok). split; [by apply Hs|]. destruct (decode_canon ok key (Hs key Hc)) as [g Hg].
    pose proof (extends_decode it it' key g grows Hg) as Hg'. apply (encode_decode ok') in He as [_ He]. congruence.
  - by eapply extends_encode.
Qed.

(** A generated value stays what it is. *)
Lemma sk_of_grows (rule : RuleId) (g : BlankNodeGenerator) (σ : Substitution) (i : TermId) :
  it_generated it !! value_generation_key rule g σ = Some i ->
  value_at it' i = Some (sk_of it' rule g σ) /\ canon it' i.
Proof.
  intros Hi. assert (Hi' : it_generated it' !! value_generation_key rule g σ = Some i).
  { eapply lookup_weaken; [done|apply grows]. }
  unfold sk_of. rewrite Hi'. cbn. destruct (io_generated _ _ ok' _ _ Hi') as (v & Hv & _).
  pose proof (io_ids _ _ ok' v i Hv) as [_ Hval]. rewrite Hval. split; [done|by exists v].
Qed.
End growth.

(** ** The conditions of a rule *)

Record rule_ready (arities : gmap RelationId Z) (it : Interner) (r : Rule) : Prop := {
  rr_atoms : forall a, a ∈ r_positive_body r ++ r_negative_body r -> atom_ok arities it a;
  rr_head : known_constants it (a_terms (r_head r));
  rr_arity : arities !! a_relation (r_head r) = Some (Atom_arity (r_head r));
  rr_safe : rule_safe r
}.

Lemma rule_ready_grows (arities : gmap RelationId Z) (it it' : Interner) (r : Rule) :
  extends it it' -> rule_ready arities it r -> rule_ready arities it' r.
Proof.
  intros He [H1 H2 H3 H4]. split; [|by eapply extends_known|done|done]. intros a Ha.
  destruct (H1 a Ha). split; [by eapply extends_known|done|done].
Qed.

Lemma bound_ground (b : Binding) (it : Interner) (terms : list PatternTerm) :
  known_constants it terms -> all_ground terms -> (forall x, PVariable x ∈ terms -> x ∈ dom b) ->
  is_Some (ids_of b it terms).
Proof.
  intros Hk Hg Hv. unfold ids_of. apply mapM_is_Some. apply Forall_forall. intros t Ht.
  apply list_elem_of_In in Ht. destruct t as [x|c|g]; cbn [fixed_id].
  - by apply elem_of_dom, Hv.
  - by apply Hk.
  - by destruct (Hg g).
Qed.

(** A binding below another with the same variables is that binding. *)
Lemma binding_eq (b c : Binding) : b ⊆ c -> dom b = dom c -> b = c.
Proof.
  intros Hsub Hdom. apply map_eq. intros x. destruct (b !! x) as [i|] eqn:Eb.
  - symmetry. by eapply lookup_weaken.
  - symmetry. apply not_elem_of_dom. rewrite <- Hdom. by apply not_elem_of_dom.
Qed.

Section derive.
  Context {P : DatalogParams} (env : Environment) (options : EvaluationOptions).
  Context (F : failure -> Prop) (HF : guard_errors env options F).
  Context (base : Value -> Prop) (arities : gmap RelationId Z).
Abbreviation runs := (holds (exec_ok env options) F).

(** ** Absent premises *)

Lemma ground_atom_ids (it : Interner) (b : Binding) (a : Atom) (t : Tuple) :
  interner_ok base it -> binding_canon it b -> known_constants it (a_terms a) ->
  ids_of b it (a_terms a) = Some t ->
  exists g, ground_atom (decode_binding it b) a = Some g /\ encode_fact it g = Some (a_relation a, t) /\
    decode_fact it (a_relation a, t) = Some g.
Proof.
  intros ok Hb Hk Ht. apply (ids_of_ground ok) in Ht as (vs & H1 & H2); [|done..].
  exists (mkFact (a_relation a) vs). assert (He : encode_fact it (mkFact (a_relation a) vs) = Some (a_relation a, t)).
  { unfold encode_fact. cbn [f_values f_relation]. by rewrite H2. }
  split_and!; [|done|by apply (encode_decode ok) in He as [_ He]]. unfold ground_atom. by rewrite H1.
Qed.

Lemma ground_absent_holds (it : Interner) (b : Binding) (all : RelationStore) (negative : list Atom) (absent : list Fact) :
  interner_ok base it -> binding_canon it b ->
  (forall a, a ∈ negative -> atom_ok arities it a /\ forall x, x ∈ atom_variables a -> x ∈ dom b) ->
  runs (ground_absent_premises env options negative b all it absent)
    (fun r => match r with
              | Some absent' => exists gs, mapM (ground_atom (decode_binding it b)) negative = Some gs /\
                  absent' = absent ++ gs /\ Forall (fun g => ~ holds_in it all g) gs
              | None => exists a g, a ∈ negative /\ ground_atom (decode_binding it b) a = Some g /\ holds_in it all g
              end).
Proof.
  intros ok Hb. revert absent. induction negative as [|a negative IH]; intros absent Hn; cbn [ground_absent_premises].
  { apply holds_ret. exists []. split_and!; [done|by rewrite app_nil_r|constructor]. }
  guard_step HF. destruct (Hn a ltac:(constructor)) as [Ha Hvars].
  destruct (bound_ground b it (a_terms a) (ao_known _ _ _ Ha) (ao_ground _ _ _ Ha)) as [t Ht].
  { intros x Hx. by apply Hvars, elem_of_atom_variables. }
  eapply holds_bind; [apply (unwrap_holds _ _ _ _ (Some t) (fun r => r = Some t)); [|done]|].
  { unfold instantiate_ground. by rewrite (ground_terms_spec b it _ (ao_known _ _ _ Ha)), Ht. }
  intros r ->. destruct (ground_atom_ids it b a t ok Hb (ao_known _ _ _ Ha) Ht) as (g & Hg & Henc & Hdec).
  destruct (contains_key all (a_relation a, t)) eqn:Ec.
  { apply holds_ret. exists a, g. split_and!; [by constructor|done|]. by exists (a_relation a, t). }
  eapply holds_bind; [apply (unwrap_holds _ _ _ _ g (fun f => f = g) Hdec eq_refl)|]. intros f ->.
  eapply holds_conseq; [apply IH; intros a' Ha'; apply Hn; by right|]. intros [absent'|].
  - intros (gs & H1 & -> & H2). exists (g :: gs). split_and!.
    + cbn [mapM]. by rewrite Hg, H1.
    + by rewrite <- app_assoc.
    + constructor; [|done]. intros (key & He & Hc). congruence.
  - intros (a' & g' & H1 & H2 & H3). exists a', g'. split_and!; [by right|done..].
Qed.

(** ** The head *)

(** What one term or a list of terms of the head becomes. *)
Lemma instantiate_term_holds (rule : RuleId) (p : PatternTerm) (b : Binding) (it : Interner) :
  interner_ok base it -> binding_canon it b -> (forall c, p = PConstant c -> is_Some (it_ids it !! c)) ->
  (forall x, p = PVariable x -> x ∈ dom b) ->
  (is_generated p = true ->
     generation_errors options F) ->
  runs (instantiate_term env options rule b it p)
    (fun '(r, it') => interner_ok base it' /\ extends it it' /\ (is_generated p = false -> it' = it) /\
       exists i, r = Some i /\ canon it' i /\ forall itF, interner_ok base itF -> extends it' itF ->
         head_term (sk_of itF) rule (decode_binding it b) p = value_at itF i).
Proof.
  intros ok Hb Hc Hv HG.
  assert (Hground : forall i, fixed_id b it p = Some i -> is_generated p = false -> canon it i /\
    forall itF, interner_ok base itF -> extends it itF -> head_term (sk_of itF) rule (decode_binding it b) p = value_at itF i).
  { intros i Hi Hp. destruct (ground_term_id ok b p i Hb Hi) as (v & Hg & Hid). split; [by exists v|].
    intros itF okF He. replace (head_term (sk_of itF) rule (decode_binding it b) p) with (ground_term (decode_binding it b) p) by by destruct p.
    rewrite Hg. symmetry. apply (io_ids _ _ okF). by eapply extends_id. }
  destruct p as [x|c|g]; cbn [instantiate_term].
  - destruct (proj1 (elem_of_dom b x) (Hv x eq_refl)) as [i Hi]. rewrite Hi. apply holds_ret.
    destruct (Hground i Hi eq_refl). split_and!; [done|apply extends_refl|done|]. eauto.
  - destruct (Hc c eq_refl) as [i Hi]. unfold Interner_id. rewrite Hi.
    eapply holds_bind; [apply (unwrap_holds _ _ _ _ i (fun j => j = i) eq_refl eq_refl)|]. intros j ->.
    apply holds_ret. destruct (Hground i Hi eq_refl). split_and!; [done|apply extends_refl|done|]. eauto.
  - specialize (HG eq_refl). eapply holds_bind; [by apply (generate_blank_node_holds env options F HF base)|].
    intros [i it1] (ok1 & He & Hi). apply holds_ret. cbn [fst snd]. split_and!; [done..|]. exists i. split_and!; [done| |].
    + by apply (sk_of_grows (it := it1) ok1 (extends_refl it1) rule g (decode_binding it b)).
    + intros itF okF HeF. cbn [head_term]. symmetry. by apply (sk_of_grows okF HeF).
Qed.

Lemma instantiate_head_holds (rule : RuleId) (terms : list PatternTerm) (b : Binding) (it : Interner) :
  interner_ok base it -> binding_canon it b -> known_constants it terms ->
  (forall x, PVariable x ∈ terms -> x ∈ dom b) ->
  (existsb is_generated terms = true ->
     generation_errors options F) ->
  runs (instantiate_head env options rule terms b it)
    (fun '(r, it') => interner_ok base it' /\ extends it it' /\ (existsb is_generated terms = false -> it' = it) /\
       exists t, r = Some t /\ length t = length terms /\ Forall (canon it') t /\
         forall itF, interner_ok base itF -> extends it' itF ->
           mapM (head_term (sk_of itF) rule (decode_binding it b)) terms = mapM (value_at itF) t).
Proof.
  revert it. induction terms as [|p terms IH]; intros it ok Hb Hk Hv HG; cbn [instantiate_head].
  { apply holds_ret. split_and!; [done|apply extends_refl|done|]. by exists []. }
  apply known_constants_cons in Hk as [Hc Hk]. eapply holds_bind.
  { apply (instantiate_term_holds rule p b it ok Hb Hc).
    - intros x ->. apply Hv. constructor.
    - intros Hgen. apply HG. simpl. by rewrite Hgen. }
  intros [r it1] (ok1 & He1 & Hsame & i & -> & Hi & Hval). cbn beta iota. eapply holds_bind.
  { apply (IH it1 ok1).
    - by eapply binding_canon_grows.
    - by eapply extends_known.
    - intros x Hx. apply Hv. by right.
    - intros Hgen. apply HG. simpl. by rewrite Hgen, orb_true_r. }
  intros [r it2] (ok2 & He2 & Hsame2 & t & -> & Hlen & Ht & Hvals). apply holds_ret. cbn [fst snd].
  split_and!; [done|by eapply extends_trans| |].
  - simpl. intros [H1 H2]%orb_false_elim. rewrite (Hsame2 H2). by apply Hsame.
  - exists (i :: t). split_and!; [done|by simpl; f_equal|constructor; [by eapply extends_canon|done]|].
    intros itF okF HeF. cbn [mapM]. rewrite (Hval itF okF) by by eapply extends_trans.
    rewrite <- (decode_binding_grows ok ok1 He1 b Hb), (Hvals itF okF HeF). done.
Qed.

(** ** Premises *)

Lemma decode_premises_holds (it : Interner) (bytes bytes' : Z) (keys : list FactKey) (fs : list Fact) :
  mapM (decode_fact it) keys = Some fs ->
  runs (for_each (decode_premise env options it bytes) ([], bytes') keys) (fun acc => acc.1 = fs).
Proof.
  intros Hfs. apply mapM_Some in Hfs. eapply holds_conseq.
  - apply (holds_for_each _ _ _ (fun done (acc : list Fact * Z) => acc.1 = take (length done) fs)); [|done].
    intros done key rest [decoded n] Hsplit Hacc. cbn [fst] in Hacc. subst decoded.
    assert (Hk : keys !! length done = Some key) by (rewrite Hsplit; by apply list_lookup_middle).
    destruct (Forall2_lookup_l _ _ _ _ _ Hfs Hk) as (f & Hf & Hdec).
    unfold decode_premise. guard_step HF.
    eapply holds_bind; [apply (unwrap_holds _ _ _ _ f (fun g => g = f) Hdec eq_refl)|]. intros g ->.
    guard_step HF. guard_step HF. apply holds_ret. cbn [fst]. rewrite length_app. simpl.
    rewrite Nat.add_1_r. symmetry. by apply take_S_r.
  - intros acc ->. rewrite (Forall2_length Hfs). by rewrite firstn_all.
Qed.

(** The premises of a row are the ground atoms of the body. *)
Lemma row_premises (it : Interner) (dp : option nat) (all delta : RelationStore) (body : list Atom)
  (b : Binding) (keys : list FactKey) :
  interner_ok base it -> (forall a, a ∈ body -> atom_ok arities it a) ->
  state_ok it dp all delta body (b, keys) ->
  exists fs, mapM (decode_fact it) keys = Some fs /\ mapM (ground_atom (decode_binding it b)) body = Some fs /\
    forall i g, fs !! i = Some g -> holds_in it (store_at dp all delta i) g.
Proof.
  intros ok Ha [Hdom Hb Hlen Hprem]. cbn [fst snd] in *.
  assert (Hrow : forall i a key, body !! i = Some a -> keys !! i = Some key -> exists g,
    ground_atom (decode_binding it b) a = Some g /\ decode_fact it key = Some g /\ holds_in it (store_at dp all delta i) g).
  { intros i a [r t] Hi Hk. destruct (Hprem i a _ Hi Hk) as (Hr & Hids & Hc). cbn [fst snd] in *. subst r.
    assert (Hao : atom_ok arities it a) by (apply Ha; by eapply list_elem_of_lookup_2).
    destruct (ground_atom_ids it b a t ok Hb (ao_known _ _ _ Hao) Hids) as (g & Hg & He & Hd).
    exists g. split_and!; [done..|]. by exists (a_relation a, t). }
  clear Hprem Hdom. revert keys Hlen Hrow. set (st := store_at dp all delta). clearbody st. revert st.
  induction body as [|a body IH]; intros st [|key keys] Hlen Hrow; try done; [by exists []|].
  destruct (Hrow 0%nat a key eq_refl eq_refl) as (g & Hg & Hd & Hh). injection Hlen as Hlen.
  destruct (IH ltac:(intros; apply Ha; by right) (fun i => st (S i)) keys Hlen) as (fs & H1 & H2 & H3).
  { intros i a' key' Hi Hk. by apply (Hrow (S i)). }
  exists (g :: fs). cbn [mapM]. rewrite Hd, H1, Hg, H2. split_and!; [done..|].
  intros [|i] g' Hi; [by injection Hi as <-|by apply H3].
Qed.

(** ** Candidates *)

Lemma NoDup_decode (it : Interner) (keys : list FactKey) :
  interner_ok base it -> NoDup keys -> (forall key, key ∈ keys -> Forall (canon it) key.2) ->
  exists fs, mapM (decode_fact it) keys = Some fs /\ NoDup fs /\ length fs = length keys /\
    forall f, f ∈ fs <-> exists key, key ∈ keys /\ decode_fact it key = Some f.
Proof.
  intros ok. induction 1 as [|key keys Hk Hnd IH]; intros Hc.
  { exists []. split_and!; [done|constructor|done|]. intros f. split; [by intros ?%elem_of_nil|].
    by intros (k & ?%elem_of_nil & _). }
  destruct IH as (fs & H1 & H2 & H3 & H4); [intros; apply Hc; by right|].
  destruct (decode_canon ok key (Hc key ltac:(constructor))) as [f Hf].
  exists (f :: fs). split_and!.
  - cbn [mapM]. by rewrite Hf, H1.
  - constructor; [|done]. intros Hin. apply H4 in Hin as (key' & Hk' & Hf').
    assert (encode_fact it f = Some key) by (apply (encode_decode ok); split; [apply Hc; constructor|done]).
    assert (encode_fact it f = Some key') by (apply (encode_decode ok); split; [apply Hc; by right|done]).
    congruence.
  - simpl. by f_equal.
  - intros g. rewrite elem_of_cons, H4. setoid_rewrite elem_of_cons. naive_solver.
Qed.

Context (rules : list Rule) (A : Fact -> Prop) (it0 : Interner).

Record entry_ok (it : Interner) (key : FactKey) (d : Derivation) : Prop := {
  eo_key : key_ok arities key;
  eo_canon : Forall (canon it) key.2;
  eo_justified : forall itF f, interner_ok base itF -> extends it itF -> decode_fact itF key = Some f ->
    justified (sk_of itF) rules A f d
}.
Definition cands_ok (it : Interner) (c : CandidateSet) : Prop :=
  forall key d, cs_entries c !! key = Some d -> entry_ok it key d.

Lemma cands_ok_grows (it it' : Interner) (c : CandidateSet) : extends it it' -> cands_ok it c -> cands_ok it' c.
Proof.
  intros He Hc key d Hk. destruct (Hc key d Hk) as [H1 H2 H3]. split; [done| |].
  - eapply List.Forall_impl; [|exact H2]. intros i. by eapply extends_canon.
  - intros itF f okF HeF. apply H3; [done|by eapply extends_trans].
Qed.

(** More justified facts than the limit allow the error of the limit. *)
Definition facts_limit_allowed : Prop := forall it fs, interner_ok base it -> extends it0 it -> NoDup fs ->
  (forall f, f ∈ fs -> exists d, justified (sk_of it) rules A f d) ->
  el_max_facts (eo_limits options) < len fs ->
  F (Raised (LimitExceeded LimitFacts (el_max_facts (eo_limits options)))).
Hypothesis HFacts : facts_limit_allowed.

Lemma CandidateSet_insert_holds (it : Interner) (c : CandidateSet) (key : FactKey) (d : Derivation) :
  interner_ok base it -> extends it0 it -> cands_ok it c -> entry_ok it key d ->
  runs (CandidateSet_insert env options c key d)
    (fun c' => cands_ok it c' /\ forall k, is_Some (cs_entries c' !! k) <-> k = key \/ is_Some (cs_entries c !! k)).
Proof.
  intros ok He Hc Hd. unfold CandidateSet_insert.
  assert (Hins : forall n, cands_ok it (mkCandidateSet (<[key := d]> (cs_entries c)) n) /\
    forall k, is_Some (cs_entries (mkCandidateSet (<[key := d]> (cs_entries c)) n) !! k) <->
      k = key \/ is_Some (cs_entries c !! k)).
  { intros n. split; cbn [cs_entries].
    - intros k d'. cbn [cs_entries]. rewrite lookup_insert_Some. intros [[<- <-]|[_ Hk]]; [done|by apply Hc].
    - intros k. rewrite lookup_insert_is_Some'. naive_solver. }
  destruct (cs_entries c !! key) as [old|] eqn:Ek.
  - destruct (ltb _ _); [guard_step HF; guard_step HF; by apply holds_ret|]. apply holds_ret. split; [done|].
    intros k. split; [by right|]. intros [->|?]; [by rewrite Ek|done].
  - destruct (_ >=? _) eqn:E; bool_to_prop; [|guard_step HF; guard_step HF; by apply holds_ret].
    apply raise_holds.
    destruct (NoDup_decode it (key :: (map_to_list (cs_entries c)).*1) ok) as (fs & H1 & H2 & H3 & H4).
    { constructor; [|apply NoDup_fst_map_to_list]. intros ([k d'] & E1 & Hin)%list_elem_of_fmap. cbn in E1. subst k.
      apply elem_of_map_to_list in Hin. congruence. }
    { intros k [->|([k' d'] & -> & Hin)%list_elem_of_fmap]%elem_of_cons; [apply Hd|].
      apply elem_of_map_to_list in Hin. by apply (Hc k' d'). }
    apply (HFacts it fs ok He H2).
    + intros f (k & Hk & Hf)%H4. apply elem_of_cons in Hk as [->|([k' d'] & -> & Hin)%list_elem_of_fmap].
      * exists d. by apply (eo_justified _ _ _ Hd); [|apply extends_refl|].
      * apply elem_of_map_to_list in Hin. exists d'. by apply (eo_justified _ _ _ (Hc k' d' Hin)); [|apply extends_refl|].
    + unfold len. rewrite H3. simpl. rewrite length_fmap, length_map_to_list. lia.
Qed.

(** ** One row, one rule *)

Lemma state_ok_grows (it it' : Interner) (dp : option nat) (all delta : RelationStore) (body : list Atom)
  (st : Binding * list FactKey) :
  extends it it' -> state_ok it dp all delta body st -> state_ok it' dp all delta body st.
Proof.
  intros He [H1 H2 H3 H4]. split; [done|by eapply binding_canon_grows|done|].
  intros i a key Hi Hk. destruct (H4 i a key Hi Hk) as (Hr & Hids & Hc). split_and!; [done|by eapply ids_of_extends|done].
Qed.

(** The head of an instance is among the candidates. *)
Definition derived_by (it : Interner) (c : CandidateSet) (r : Rule) (σ : Substitution) : Prop :=
  exists key, is_Some (cs_entries c !! key) /\ Forall (canon it) key.2 /\
    forall itF, interner_ok base itF -> extends it itF -> head_fact (sk_of itF) r σ = decode_fact itF key.

Lemma derived_by_grows (it it' : Interner) (c c' : CandidateSet) (r : Rule) (σ : Substitution) :
  extends it it' -> (forall k, is_Some (cs_entries c !! k) -> is_Some (cs_entries c' !! k)) ->
  derived_by it c r σ -> derived_by it' c' r σ.
Proof.
  intros He Hc (key & H1 & H2 & H3). exists key. split_and!; [by apply Hc| |].
  - eapply List.Forall_impl; [|exact H2]. intros i. by eapply extends_canon.
  - intros itF okF HeF. apply H3; [done|by eapply extends_trans].
Qed.

Context (dp : option nat) (all delta : RelationStore).
Hypothesis ok0 : interner_ok base it0.
Hypothesis all_wf : store_wf arities all.
Hypothesis delta_wf : store_wf arities delta.
Hypothesis all_canon : store_canon it0 all.
Hypothesis A_all : forall f, A f <-> holds_in it0 all f.
Hypothesis delta_sub : forall key, contains_key delta key = true -> contains_key all key = true.

Lemma store_at_sub (i : nat) (key : FactKey) :
  contains_key (store_at dp all delta i) key = true -> contains_key all key = true.
Proof. unfold store_at. case_decide; auto. Qed.

Lemma holds_all (it : Interner) (f : Fact) :
  interner_ok base it -> extends it0 it -> holds_in it all f <-> A f.
Proof. intros ok He. rewrite A_all. by apply (holds_in_grows ok0 ok He). Qed.

(** What a rule evaluation keeps and adds. *)
Record evaluated (it : Interner) (c : CandidateSet) (r : Rule) (out : Interner * CandidateSet) : Prop := {
  ev_ok : interner_ok base out.1;
  ev_extends : extends it out.1;
  ev_cands : cands_ok out.1 out.2;
  ev_keeps : forall k, is_Some (cs_entries c !! k) -> is_Some (cs_entries out.2 !! k);
  ev_same : atom_generates (r_head r) = false -> out.1 = it
}.

(** The entry of an instance: its row's premises hold, its negated atoms do not. *)
Lemma instance_entry (r : Rule) (it : Interner) (b : Binding) (keys : list FactKey) (gs fs : list Fact) (t : Tuple) :
  r ∈ rules -> rule_ready arities it r -> interner_ok base it -> extends it0 it ->
  state_ok it dp all delta (r_positive_body r) (b, keys) -> length t = length (a_terms (r_head r)) ->
  Forall (canon it) t ->
  mapM (ground_atom (decode_binding it b)) (r_positive_body r) = Some fs ->
  (forall i g, fs !! i = Some g -> holds_in it (store_at dp all delta i) g) ->
  mapM (ground_atom (decode_binding it b)) (r_negative_body r) = Some gs ->
  Forall (fun g => ~ A g) gs ->
  (forall itF, interner_ok base itF -> extends it itF ->
     head_fact (sk_of itF) r (decode_binding it b) = decode_fact itF (a_relation (r_head r), t)) ->
  entry_ok it (a_relation (r_head r), t) (Derivation_new_with_absence (r_id r) (r_source r) fs gs).
Proof.
  intros Hr Hready ok He Hst Hlen Ht Hfs Hheld Hgs Hnot Hhead. split; cbn [snd]; [|done|].
  - unfold key_ok. cbn [fst snd]. rewrite (rr_arity _ _ _ Hready). f_equal. unfold Atom_arity, len. by rewrite Hlen.
  - intros itF f okF HeF Hf. exists r, (decode_binding it b), fs, gs. split_and!; [done| |done| |done|done| |done].
    + unfold decode_binding. rewrite dom_fmap_L. apply (so_dom _ _ _ _ _ _ Hst).
    + apply Forall_forall. intros g Hg. apply list_elem_of_In, list_elem_of_lookup in Hg as [i Hi].
      apply (holds_all it); [done..|]. destruct (Hheld i g Hi) as (key & Hk & Hin).
      exists key. split; [done|by eapply store_at_sub].
    + by rewrite Hhead.
Qed.

Lemma derive_state_holds (r : Rule) (itr it : Interner) (c : CandidateSet) (bytes : Z) (st : Binding * list FactKey) :
  r ∈ rules -> rule_ready arities itr r -> interner_ok base itr -> extends it0 itr ->
  state_ok itr dp all delta (r_positive_body r) st ->
  (atom_generates (r_head r) = true ->
     generation_errors options F) ->
  interner_ok base it -> extends itr it -> cands_ok it c ->
  runs (derive_state env options r all bytes (it, c) st)
    (fun out => evaluated it c r out /\
       ((forall a g, a ∈ r_negative_body r -> ground_atom (decode_binding itr st.1) a = Some g -> ~ A g) ->
        derived_by out.1 out.2 r (decode_binding itr st.1))).
Proof.
  intros Hr Hready okr He0 Hst HG ok He Hc. unfold derive_state. guard_step HF.
  pose proof (extends_trans _ _ _ He0 He) as He0'. pose proof (rule_ready_grows _ _ _ _ He Hready) as Hready'.
  pose proof (state_ok_grows _ _ _ _ _ _ _ He Hst) as Hst'. destruct st as [b keys]. cbn [fst snd] in *.
  pose proof (so_canon _ _ _ _ _ _ Hst') as Hb. pose proof (so_canon _ _ _ _ _ _ Hst) as Hbr. cbn [fst] in Hb, Hbr.
  rewrite <- (decode_binding_grows okr ok He b Hbr). set (σ := decode_binding it b).
  assert (Hdom : forall x, bound r x -> x ∈ dom b).
  { intros x Hx. pose proof (so_dom _ _ _ _ _ _ Hst) as Hd. cbn [fst] in Hd. rewrite Hd. by apply elem_of_body_variables. }
  assert (Hkeep : evaluated it c r (it, c)) by (split; cbn [fst snd]; [done|apply extends_refl|done..]).
  eapply holds_bind.
  { apply (ground_absent_holds it b all); [done|done|]. intros a Ha. split; [apply (rr_atoms _ _ _ Hready'); set_solver|].
    intros x Hx. apply Hdom. by apply (safe_negative r (rr_safe _ _ _ Hready) a). }
  intros [absent|].
  2:{ intros (a & g & Ha & Hg & Hin). apply holds_ret. split; [done|]. intros Habs. exfalso.
      apply (Habs a g Ha Hg). by apply (holds_all it). }
  intros (gs & Hgs & -> & Hnot). eapply holds_bind.
  { apply (instantiate_head_holds (r_id r) (a_terms (r_head r)) b it ok Hb (rr_head _ _ _ Hready')); [|done].
    intros x Hx. apply Hdom, (safe_head r (rr_safe _ _ _ Hready)), elem_of_atom_variables, Hx. }
  intros [tuple it1] (ok1 & He1 & Hsame & t & -> & Hlen & Ht & Hvals). cbn beta iota.
  pose proof (state_ok_grows _ _ _ _ _ _ _ He1 Hst') as Hst1.
  destruct (row_premises it1 dp all delta (r_positive_body r) b keys ok1) as (fs & Hfs & Hground & Hheld); [|done|].
  { intros a Ha. apply (rr_atoms _ _ _ (rule_ready_grows _ _ _ _ He1 Hready')). set_solver. }
  eapply holds_bind; [by apply decode_premises_holds|]. intros [decoded n] Hd. cbn [fst] in Hd |- *. subst decoded.
  guard_step HF. guard_step HF. subst σ.
  pose proof (extends_trans _ _ _ He0' He1) as He01. rewrite <- (decode_binding_grows ok ok1 He1 b Hb) in Hgs, Hvals |- *.
  assert (Hhead : forall itF, interner_ok base itF -> extends it1 itF ->
    head_fact (sk_of itF) r (decode_binding it1 b) = decode_fact itF (a_relation (r_head r), t)).
  { intros itF okF HeF. unfold head_fact, decode_fact. cbn [fst snd]. rewrite (Hvals itF okF HeF). by destruct (mapM _ t). }
  eapply holds_bind.
  { apply (CandidateSet_insert_holds it1); [done..|exact (cands_ok_grows it it1 c He1 Hc)|].
    apply (instance_entry r it1 b keys gs fs t Hr (rule_ready_grows _ _ _ _ He1 Hready') ok1 He01 Hst1 Hlen Ht Hground Hheld Hgs);
      [|done].
    eapply List.Forall_impl; [|exact Hnot]. intros g Hn HA. apply Hn. by apply (holds_all it). }
  intros c' [Hc' Hkeys]. apply holds_ret. split.
  - split; cbn [fst snd]; [done..| |]; [intros k Hk; apply Hkeys; by right|done].
  - intros _. cbn [fst snd]. exists (a_relation (r_head r), t). split_and!; [apply Hkeys; by left|done|done].
Qed.

Lemma evaluated_trans (r : Rule) (it : Interner) (c : CandidateSet) (out1 out2 : Interner * CandidateSet) :
  evaluated it c r out1 -> evaluated out1.1 out1.2 r out2 -> evaluated it c r out2.
Proof.
  intros [H1 H2 H3 H4 H5] [G1 G2 G3 G4 G5]. split; [done|by eapply extends_trans|done|auto|].
  intros Hg. rewrite (G5 Hg). by apply H5.
Qed.

(** The values of an instance's substitution are known: each is in a stored fact. *)
Lemma substitution_known (it : Interner) (r : Rule) (σ : Substitution) :
  dom σ = body_variables (r_positive_body r) ->
  (forall i a, r_positive_body r !! i = Some a -> exists g, ground_atom σ a = Some g /\ holds_in it (store_at dp all delta i) g) ->
  forall x v, σ !! x = Some v -> is_Some (it_ids it !! v).
Proof.
  intros Hdom Hbody x v Hx. assert (Hb : bound r x).
  { apply elem_of_body_variables. rewrite <- Hdom. by apply elem_of_dom. }
  destruct Hb as (a & Ha & Hv). apply list_elem_of_lookup in Ha as [i Hi].
  destruct (Hbody i a Hi) as (g & Hg & key & Henc & _). apply elem_of_atom_variables, list_elem_of_lookup in Hv as [j Hj].
  apply fmap_Some in Hg as (vs & Hvs & ->). apply mapM_Some in Hvs.
  destruct (Forall2_lookup_l _ _ _ _ _ Hvs Hj) as (w & Hw & E). cbn [ground_term] in E.
  apply bind_Some in Henc as (t & Ht & _). cbn [f_values] in Ht. apply mapM_Some in Ht.
  destruct (Forall2_lookup_l _ _ _ _ _ Ht Hw) as (k & _ & Hk). assert (v = w) as -> by congruence. by exists k.
Qed.

Lemma store_sizes (i : nat) (r : RelationId) (d : RelationData) :
  rs_relations (store_at dp all delta i) !! r = Some d -> Z.of_nat (size (rd_tuples d)) <= len (keys all).
Proof.
  intros Hd. rewrite <- length_btree_elements. unfold len. apply Nat2Z.inj_le.
  rewrite <- (length_fmap (fun t => (r, t)) (btree_elements (rd_tuples d))).
  apply NoDup_incl_length.
  - apply NoDup_ListNoDup. apply (NoDup_relation_keys r d).
  - intros key Hk. apply list_elem_of_In. apply list_elem_of_In in Hk. apply elem_of_keys, (store_at_sub i).
    apply (elem_of_relation_keys r d) in Hk as [Hr Ht]. apply contains_key_true. exists d. by rewrite Hr.
Qed.

(** The stored binding of an instance. *)
Lemma instance_fits (r : Rule) (it : Interner) (σ : Substitution) :
  interner_ok base it -> rule_ready arities it r -> dom σ = body_variables (r_positive_body r) ->
  (forall i a, r_positive_body r !! i = Some a -> exists g, ground_atom σ a = Some g /\ holds_in it (store_at dp all delta i) g) ->
  exists b, dom b = dom σ /\ decode_binding it b = σ /\ fits it dp all delta b (r_positive_body r).
Proof.
  intros ok Hready Hdom Hbody. destruct (encode_binding_spec ok σ (substitution_known it r σ Hdom Hbody)) as (Hbc & Hdec & Hd).
  exists (encode_binding (it := it) σ). split_and!; [done..|]. intros i a Hi.
  apply (atom_holds ok); [done| |rewrite Hdec; by apply Hbody].
  apply (rr_atoms _ _ _ Hready), elem_of_app. left. by eapply list_elem_of_lookup_2.
Qed.

Lemma evaluate_rule_join_holds (r : Rule) (it : Interner) (c : CandidateSet) :
  r ∈ rules -> rule_ready arities it r -> interner_ok base it -> extends it0 it ->
  cands_ok it c ->
  (atom_generates (r_head r) = true ->
     generation_errors options F) ->
  (el_max_intermediate_rows (eo_limits options) < len (keys all) ^ Z.of_nat (length (r_positive_body r)) ->
     F (Raised (LimitExceeded LimitIntermediateRows (el_max_intermediate_rows (eo_limits options))))) ->
  runs (evaluate_rule_join env options r dp all delta it c)
    (fun out => evaluated it c r out /\
       forall σ, dom σ = body_variables (r_positive_body r) ->
         (forall i a, r_positive_body r !! i = Some a ->
            exists g, ground_atom σ a = Some g /\ holds_in it (store_at dp all delta i) g) ->
         (forall a g, a ∈ r_negative_body r -> ground_atom σ a = Some g -> ~ A g) ->
         derived_by out.1 out.2 r σ).
Proof.
  intros Hr Hready ok He0 Hc HG HR. unfold evaluate_rule_join. guard_step HF. guard_step HF.
  assert (Hkeep : evaluated it c r (it, c)) by (split; cbn [fst snd]; [done|apply extends_refl|done..]).
  assert (Hcanon : store_canon it all) by by eapply store_canon_grows.
  assert (Hdcanon : store_canon it delta) by (intros key Hk; by apply Hcanon, delta_sub).
  eapply holds_bind.
  { apply (join_body_holds env options F HF arities it dp all delta (len (keys all)) all_wf delta_wf Hcanon Hdcanon store_sizes
      (r_positive_body r) []); [apply len_nonneg| |apply rows_initial|done].
    intros a Ha. apply (rr_atoms _ _ _ Hready). set_solver. }
  intros [[states bytes]|] Hjoin.
  2:{ apply holds_ret. split; [done|]. intros σ Hdom Hbody _. exfalso.
      destruct (instance_fits r it σ ok Hready Hdom Hbody) as (b & _ & _ & Hb). by apply (Hjoin b). }
  destruct Hjoin as [Hok Hfound _]. cbn [app] in *. eapply holds_bind.
  { apply (holds_for_each _ _ _ (fun done out => evaluated it c r out /\
      forall st, st ∈ done ->
        (forall a g, a ∈ r_negative_body r -> ground_atom (decode_binding it st.1) a = Some g -> ~ A g) ->
        derived_by out.1 out.2 r (decode_binding it st.1))).
    - intros done st rest [it1 c1] Hsplit [Hev Hder]. eapply holds_conseq.
      + apply (derive_state_holds r it it1 c1 bytes st); try done; [apply Hok; rewrite Hsplit; set_solver|apply Hev..].
      + intros out [Hev' Hnew]. split; [by eapply evaluated_trans|].
        intros st' [Hst|Hst%list_elem_of_singleton]%elem_of_app Habs; [|subst; auto].
        eapply derived_by_grows; [apply Hev'|apply Hev'|]. by apply Hder.
    - split; [done|]. by intros st ?%elem_of_nil. }
  intros out [Hev Hder]. guard_step HF. guard_step HF. apply holds_ret. split; [done|].
  intros σ Hdom Hbody Habs. destruct (instance_fits r it σ ok Hready Hdom Hbody) as (b & Hd & Hdec & Hb).
  destruct (Hfound b Hb) as ([b' keys] & Hin & Hsub). cbn [fst] in Hsub.
  assert (b' = b) as ->.
  { apply binding_eq; [done|]. pose proof (so_dom _ _ _ _ _ _ (Hok _ Hin)) as Hd'. cbn [fst] in Hd'. congruence. }
  specialize (Hder (b, keys) Hin). cbn [fst] in Hder. rewrite Hdec in Hder. by apply Hder.
Qed.
End derive.
