(* ===== verification/DatalogCommitFacts.v ===== *)
(** * Committing candidates

    [retain_new] drops the candidates that are already stored and
    [commit_candidates] stores the others, records them in the delta, and keeps
    their derivation. *)
From stdpp Require Import gmap.
From S2P Require Import Prelude MachineInt RustStr BTree RdfModel RdfDisplay DatalogIr.
From S2P Require Import StateResult DatalogValidate DatalogStrataFacts DatalogValidateFacts.
From S2P Require Import DatalogControl DatalogStorage DatalogRules DatalogEngine.
From S2P Require Import DatalogControlFacts DatalogStorageFacts DatalogInternerFacts.
From S2P Require Import DatalogJoinFacts DatalogSpec DatalogDeriveFacts.

(** One key more is one fact more at most. *)
Lemma len_insert_key `{DatalogParams} (s s' : RelationStore) (key : FactKey) :
  (forall key', contains_key s' key' = true <-> key' = key \/ contains_key s key' = true) ->
  RelationStore_len s' <= RelationStore_len s + 1.
Proof.
  intros Hk. rewrite <- !length_keys. unfold len.
  assert (Hle : (length (keys s') <= length (key :: keys s))%nat); [|simpl in Hle; lia].
  apply NoDup_incl_length; [rewrite <- NoDup_ListNoDup; apply NoDup_keys|]. intros k Hin%list_elem_of_In. apply list_elem_of_In.
  apply elem_of_keys, Hk in Hin as [->|Hin]; [left|right; by apply elem_of_keys].
Qed.

Section commit.
  Context {P : DatalogParams} (env : Environment) (options : EvaluationOptions).
  Context (F : failure -> Prop) (HF : guard_errors env options F).
  Context (base : Value -> Prop) (arities : gmap RelationId Z).
Abbreviation runs := (holds (exec_ok env options) F).

Lemma retain_new_holds (c : CandidateSet) (all : RelationStore) :
  runs (retain_new env options c all)
    (fun c' => forall key d, cs_entries c' !! key = Some d <-> cs_entries c !! key = Some d /\ contains_key all key = false).
Proof.
  unfold retain_new. guard_step HF. guard_step HF. guard_step HF. apply holds_ret. intros key d. cbn [cs_entries].
  by rewrite map_lookup_filter_Some.
Qed.

(** What has been committed after the entries [done]. *)
Definition committed_provenance (it : Interner) (done : list (FactKey * Derivation)) (before : gmap Fact Derivation)
  (after : gmap Fact Derivation) : Prop :=
  forall f d, after !! f = Some d <->
    (exists key, (key, d) ∈ done /\ decode_fact it key = Some f) \/
    ((forall key d', (key, d') ∈ done -> decode_fact it key <> Some f) /\ before !! f = Some d).

Record committed (it : Interner) (all delta : RelationStore) (prov : option Provenance)
  (done : list (FactKey * Derivation)) (out : RelationStore * RelationStore * option Provenance) : Prop := {
  cm_all_wf : store_wf arities out.1.1;
  cm_delta_wf : store_wf arities out.1.2;
  cm_all : forall k, contains_key out.1.1 k = true <-> contains_key all k = true \/ exists d, (k, d) ∈ done;
  cm_delta : forall k, contains_key out.1.2 k = true <-> contains_key delta k = true \/ exists d, (k, d) ∈ done;
  cm_provenance : match prov, out.2 with
                  | None, None => True
                  | Some p, Some p' => committed_provenance it done (pv_derivations p) (pv_derivations p')
                  | _, _ => False
                  end;
  cm_limit : RelationStore_len out.1.1 <= Z.max (RelationStore_len all) (el_max_facts (eo_limits options))
}.

Context (it : Interner) (ok : interner_ok base it).

Lemma committed_provenance_snoc (done : list (FactKey * Derivation)) (key : FactKey) (d : Derivation)
  (before after : gmap Fact Derivation) (f : Fact) :
  decode_fact it key = Some f -> Forall (canon it) key.2 ->
  (forall k d', (k, d') ∈ done -> k <> key /\ Forall (canon it) k.2) ->
  committed_provenance it done before after -> committed_provenance it (done ++ [(key, d)]) before (<[f := d]> after).
Proof.
  unfold committed_provenance. intros Hf Hk Hdone H g e. assert (Hinj : forall k d', (k, d') ∈ done -> decode_fact it k <> Some f).
  { intros k d' Hin Hkf. destruct (Hdone k d' Hin) as [Hne Hc]. apply Hne.
    assert (encode_fact it f = Some k) by (by apply (encode_decode ok)).
    assert (encode_fact it f = Some key) by (by apply (encode_decode ok)). congruence. }
  setoid_rewrite elem_of_app. setoid_rewrite list_elem_of_singleton. rewrite lookup_insert_Some, H. split.
  - intros [[<- <-]|[Hne [(k & Hin & Hd)|[Hn Hb]]]]; [left; exists key; auto|left; exists k; auto|right].
    split; [|done]. intros k d' [Hin|[= -> ->]]; [by eapply Hn|]. congruence.
  - intros [(k & [Hin|[= -> ->]] & Hd)|[Hn Hb]].
    + right. split; [|left; eauto]. intros ->. by eapply Hinj.
    + left. split; congruence.
    + right. split; [|right; split; [|done]; intros k d' Hin; apply (Hn k d'); by left].
      intros ->. apply (Hn key d); [by right|done].
Qed.

(** One candidate that is not stored yet. *)
Lemma commit_candidate_holds (target : DeltaTarget) (all delta : RelationStore) (prov : option Provenance)
  (done : list (FactKey * Derivation)) (out : RelationStore * RelationStore * option Provenance)
  (key : FactKey) (d : Derivation) :
  committed it all delta prov done out -> key_ok arities key -> Forall (canon it) key.2 ->
  contains_key all key = false -> (forall k d', (k, d') ∈ done -> k <> key /\ Forall (canon it) k.2) ->
  (el_max_facts (eo_limits options) <= RelationStore_len out.1.1 ->
     F (Raised (LimitExceeded LimitFacts (el_max_facts (eo_limits options))))) ->
  runs (commit_candidate env options target it out (key, d)) (committed it all delta prov (done ++ [(key, d)])).
Proof.
  intros [H1 H2 H3 H4 H5 H6] Hk Hc Hnew Hdone HL. destruct out as [[cur dlt] pr]. cbn [fst snd] in *.
  unfold commit_candidate. guard_step HF. destruct (contains_key cur key) eqn:Ec.
  { exfalso. apply H3 in Ec as [Ec|[d' Hin]]; [congruence|]. by apply Hdone in Hin as [? _]. }
  destruct (_ >=? _) eqn:El; bool_to_prop; [by apply raise_holds, HL|].
  guard_step HF. eapply holds_bind; [instantiate (1 := fun _ => True); destruct target; by apply set_memory_holds|]. intros _ _.
  destruct (decode_canon ok key Hc) as [f Hf].
  eapply holds_bind.
  { instantiate (1 := fun r => r = match pr with Some _ => Some f | None => None end). unfold project_provenance.
    destruct pr as [p|]; [|by apply holds_ret].
    eapply holds_bind; [apply (unwrap_holds _ _ _ _ f (fun g => g = f) Hf eq_refl)|]. intros g ->.
    guard_step HF. by apply holds_ret. }
  intros decoded ->. guard_step HF.
  destruct (insert_key_spec arities cur key H1 Hk) as (cur' & I1 & W1 & C1 & _).
  destruct (insert_key_spec arities dlt key H2 Hk) as (dlt' & I2 & W2 & C2 & _).
  eapply holds_bind; [apply (unwrap_holds _ _ _ _ _ (fun r => r.1 = cur') I1 eq_refl)|]. intros [cur1 b1] E1. cbn in E1. subst cur1.
  eapply holds_bind; [apply (unwrap_holds _ _ _ _ _ (fun r => r.1 = dlt') I2 eq_refl)|]. intros [dlt1 b2] E2. cbn in E2. subst dlt1.
  eapply holds_bind.
  { instantiate (1 := fun pr' => match prov, pr' with
      | None, None => True
      | Some p, Some p' => committed_provenance it (done ++ [(key, d)]) (pv_derivations p) (pv_derivations p')
      | _, _ => False end).
    destruct prov as [p|], pr as [p'|]; try done. cbn [insert_provenance].
    guard_step HF. apply holds_ret. cbn [Provenance_insert pv_derivations]. by apply committed_provenance_snoc. }
  intros pr' Hpr. apply holds_ret. split; cbn [fst snd]; [done|done| | |done|].
  - intros k. rewrite C1, H3. setoid_rewrite elem_of_app. setoid_rewrite list_elem_of_singleton. naive_solver.
  - intros k. rewrite C2, H4. setoid_rewrite elem_of_app. setoid_rewrite list_elem_of_singleton. naive_solver.
  - pose proof (len_insert_key _ _ _ C1). lia.
Qed.

(** All candidates, none of them stored yet. *)
Lemma commit_candidates_holds (target : DeltaTarget) (c : CandidateSet) (all delta : RelationStore) (prov : option Provenance) :
  store_wf arities all -> store_wf arities delta ->
  (forall key d, cs_entries c !! key = Some d ->
     key_ok arities key /\ Forall (canon it) key.2 /\ contains_key all key = false) ->
  (forall ks, NoDup ks -> (forall k, k ∈ ks -> contains_key all k = true \/ is_Some (cs_entries c !! k)) ->
     el_max_facts (eo_limits options) < len ks ->
     F (Raised (LimitExceeded LimitFacts (el_max_facts (eo_limits options))))) ->
  runs (commit_candidates env options c all delta target it prov)
    (committed it all delta prov (btree_entries (cs_entries c))).
Proof.
  intros W1 W2 Hc HL. unfold commit_candidates.
  pose proof (NoDup_btree_keys (cs_entries c)) as Hnd. unfold btree_keys in Hnd.
  eapply holds_bind.
  - apply (holds_for_each _ _ _ (fun done out => committed it all delta prov done out)).
    + intros done [key d] rest out Hsplit Hout. rewrite Hsplit in Hnd.
      assert (Hentry : forall k d', (k, d') ∈ btree_entries (cs_entries c) ->
        key_ok arities k /\ Forall (canon it) k.2 /\ contains_key all k = false).
      { intros k d' Hin. by apply (Hc k d'), elem_of_btree_entries. }
      destruct (Hentry key d) as (H1 & H2 & H3); [rewrite Hsplit; set_solver|].
      assert (Hdone : forall k d', (k, d') ∈ done -> k <> key).
      { intros k d' Hin ->. rewrite fmap_app, fmap_cons in Hnd. apply list.NoDup_app in Hnd as (_ & Hnd & _).
        apply (Hnd key); [|cbn; constructor]. apply list_elem_of_fmap. by exists (key, d'). }
      apply commit_candidate_holds; [done..| |].
      * intros k d' Hin. split; [by eapply Hdone|]. apply (Hentry k d'). rewrite Hsplit. set_solver.
      * intros Hlim. apply (HL (key :: keys out.1.1)).
        -- constructor; [|apply NoDup_keys]. rewrite elem_of_keys. intros Hin. apply (cm_all _ _ _ _ _ _ Hout) in Hin as [Hin|[d' Hin]];
             [congruence|by apply Hdone in Hin].
        -- intros k [->|Hk]%elem_of_cons; [right; apply elem_of_btree_keys|].
           { unfold btree_keys. rewrite Hsplit, fmap_app, fmap_cons. set_solver. }
           apply elem_of_keys, (cm_all _ _ _ _ _ _ Hout) in Hk as [Hk|[d' Hk]]; [by left|]. right. exists d'.
           apply elem_of_btree_entries. rewrite Hsplit. set_solver.
        -- pose proof (length_keys out.1.1). unfold len in *. simpl. lia.
    + split; cbn [fst snd]; [done|done|..].
      * intros k. split; [by left|]. intros [?|[d ?%elem_of_nil]]; done.
      * intros k. split; [by left|]. intros [?|[d ?%elem_of_nil]]; done.
      * destruct prov as [p|]; [|done]. intros f d. split.
        -- intros Hf. right. split; [by intros k d' ?%elem_of_nil|done].
        -- intros [(k & ?%elem_of_nil & _)|[_ ?]]; done.
      * lia.
  - intros out Hout. guard_step HF. guard_step HF. by apply holds_ret.
Qed.
End commit.
