(* ===== verification/DatalogStratumFacts.v ===== *)
(** * Semi-naive evaluation of a stratum

    The invariant of the loop of a stratum: everything stored is derivable, and
    every instance of a rule whose recursive premises are all old has its head
    stored.  When the delta is empty the stored facts are the least fixpoint. *)
From stdpp Require Import gmap.
From S2P Require Import Prelude MachineInt RustStr BTree RdfModel RdfDisplay DatalogIr.
From S2P Require Import StateResult DatalogValidate DatalogStrataFacts DatalogValidateFacts.
From S2P Require Import DatalogControl DatalogStorage DatalogRules DatalogEngine.
From S2P Require Import DatalogControlFacts DatalogStorageFacts DatalogInternerFacts.
From S2P Require Import DatalogJoinFacts DatalogSpec DatalogDeriveFacts DatalogCommitFacts.

(** ** The reference semantics *)

Lemma derives_ext (p : ValidatedProgram) (sk : Skolem) (s : Z) (L L' : Fact -> Prop) (f : Fact) :
  (forall g, L g <-> L' g) -> derives p sk s L f -> derives p sk s L' f.
Proof.
  intros HL. induction 1 as [f Hf|r σ f Hr Hdom Hsome _ IH Hneg Hhead]; [by apply derives_lower, HL|].
  eapply (derives_rule _ _ _ _ r σ); [done|done|done|done| |done].
  intros a Ha. destruct (Hneg a Ha) as (g & Hg & Hn). exists g. split; [done|]. by rewrite <- HL.
Qed.

Lemma model_below_mono (p : ValidatedProgram) (sk : Skolem) (input : list Fact) (n m : nat) (f : Fact) :
  (n <= m)%nat -> model_below p sk input n f -> model_below p sk input m f.
Proof. induction 1 as [|m _ IH]; [done|]. intros H. by apply derives_lower, IH. Qed.

(** A stratum adds facts of its own relations only. *)
Lemma derives_stratum (p : ValidatedProgram) (sk : Skolem) (s : Z) (L : Fact -> Prop) (f : Fact) :
  derives p sk s L f -> L f \/ in_stratum p s (f_relation f) = true.
Proof.
  induction 1 as [f Hf|r σ f Hr Hdom Hsome _ IH Hneg Hhead]; [by left|right].
  apply head_fact_relation in Hhead as ->. by apply list_elem_of_filter in Hr as [Hr _].
Qed.

#[global] Instance holds_in_decision (it : Interner) (store : RelationStore) (f : Fact) : Decision (holds_in it store f).
Proof.
  unfold Decision, holds_in. destruct (encode_fact it f) as [key|]; [|by right; intros (? & ? & ?)].
  destruct (contains_key store key) eqn:E; [left; by exists key|right; intros (? & [= <-] & ?); congruence].
Qed.

Section engine.
  Context {P : DatalogParams} (env : Environment) (options : EvaluationOptions).
  Context (F : failure -> Prop) (HF : guard_errors env options F).
  Context (base : Value -> Prop) (arities : gmap RelationId Z) (p : ValidatedProgram) (input : list Fact).
  Context (Hp : validated_ok p).
  Hypothesis arities_sub : vp_arities p ⊆ arities.
  Hypothesis base_constants : forall r a v, r ∈ vp_rules p -> a ∈ rule_atoms r -> v ∈ atom_constants a -> base v.
Abbreviation runs := (holds (exec_ok env options) F).

(** The errors of the limits are allowed when the model is as large as they say. *)
Record limit_errors : Prop := {
  le_facts : forall it fs, interner_ok base it -> NoDup fs -> (forall f, f ∈ fs -> model p (sk_of it) input f) ->
    el_max_facts (eo_limits options) < len fs ->
    F (Raised (LimitExceeded LimitFacts (el_max_facts (eo_limits options))));
  le_rows : forall it fs r, interner_ok base it -> NoDup fs -> (forall f, f ∈ fs -> model p (sk_of it) input f) ->
    r ∈ vp_rules p ->
    el_max_intermediate_rows (eo_limits options) < len fs ^ Z.of_nat (length (r_positive_body r)) ->
    F (Raised (LimitExceeded LimitIntermediateRows (el_max_intermediate_rows (eo_limits options))));
  le_iterations : forall it fs, interner_ok base it -> NoDup fs -> (forall f, f ∈ fs -> model p (sk_of it) input f) ->
    el_max_iterations (eo_limits options) <= len fs + max_stratum p ->
    F (Raised (LimitExceeded LimitIterations (el_max_iterations (eo_limits options))));
  le_generated : forall r, r ∈ vp_rules p -> atom_generates (r_head r) = true ->
    generation_errors options F
}.
Context (HL : limit_errors).

Lemma program_rule_ready (it : Interner) (r : Rule) :
  interner_ok base it -> r ∈ vp_rules p -> rule_ready arities it r.
Proof.
  intros ok Hr. pose proof (vo_safe _ Hp r Hr) as Hsafe.
  assert (Hk : forall a, a ∈ rule_atoms r -> known_constants it (a_terms a)).
  { intros a Ha v Hv. apply (io_base _ _ ok), (base_constants r a v Hr Ha), elem_of_atom_constants, Hv. }
  assert (Har : forall a, a ∈ rule_atoms r -> arities !! a_relation a = Some (Atom_arity a)).
  { intros a Ha. eapply lookup_weaken; [by apply (vo_arities _ Hp r a Hr Ha)|done]. }
  split; [|apply Hk; constructor|apply Har; constructor|done].
  intros a Ha. assert (Ha' : a ∈ rule_atoms r) by (by right).
  split; [by apply Hk| |by apply Har]. intros g. apply atom_generates_false. by apply (safe_ground r Hsafe).
Qed.

(** ** The state of the engine *)

Definition Facts (st : Engine_state) (f : Fact) : Prop := holds_in (es_interner st) (es_all st) f.

Record data_ok (it : Interner) (all : RelationStore) : Prop := {
  do_interner : interner_ok base it;
  do_wf : store_wf arities all;
  do_canon : store_canon it all
}.

(** The stored facts as a list. *)
Lemma facts_listed (it : Interner) (all : RelationStore) :
  data_ok it all -> exists fs, mapM (decode_fact it) (keys all) = Some fs /\ NoDup fs /\ len fs = RelationStore_len all /\
    forall f, f ∈ fs <-> holds_in it all f.
Proof.
  intros [ok Hw Hc]. destruct (NoDup_decode base it (keys all) ok) as (fs & H1 & H2 & H3 & H4);
    [apply NoDup_keys|intros key Hk; by apply Hc, elem_of_keys|].
  exists fs. split_and!; [done..| |].
  - rewrite <- length_keys. unfold len. by rewrite H3.
  - intros f. rewrite H4. unfold holds_in. split; intros (key & Hk & Hf); exists key.
    + rewrite elem_of_keys in Hk. split; [|done]. apply (encode_decode ok). split; [by apply Hc|done].
    + rewrite elem_of_keys. split; [done|]. by apply (encode_decode ok) in Hk as [_ Hk].
Qed.

Section stratum.
  Context (n : nat) (Hn : Z.of_nat n <= max_stratum p) (L : Fact -> Prop) (it_start : Interner).
Abbreviation s := (Z.of_nat n).
  Hypothesis L_model : forall itF, interner_ok base itF -> extends it_start itF ->
    forall f, L f <-> model_below p (sk_of itF) input n f.

Lemma derives_model (itF : Interner) (f : Fact) :
  interner_ok base itF -> extends it_start itF -> derives p (sk_of itF) s L f -> model p (sk_of itF) input f.
Proof.
  intros okF He Hd. unfold model. apply (model_below_mono p _ input (S n)); [lia|]. cbn [model_below].
  eapply derives_ext; [|exact Hd]. by apply L_model.
Qed.

(** Everything stored is derivable in the stratum. *)
Record stored_ok (it : Interner) (all : RelationStore) : Prop := {
  so_data : data_ok it all;
  so_start : extends it_start it;
  so_lower : forall f, L f -> holds_in it all f;
  so_sound : forall itF f, interner_ok base itF -> extends it itF -> holds_in it all f -> derives p (sk_of itF) s L f
}.

Lemma stored_new (it : Interner) (all : RelationStore) (f : Fact) :
  stored_ok it all -> holds_in it all f -> L f \/ in_stratum p s (f_relation f) = true.
Proof.
  intros H Hf. eapply derives_stratum, (so_sound _ _ H); [apply H|apply extends_refl|done].
Qed.

(** A candidate of the stratum is derivable. *)
Lemma candidate_derives (it it1 itF : Interner) (all : RelationStore) (key : FactKey) (d : Derivation) (f : Fact) :
  stored_ok it all -> extends it it1 -> entry_ok base arities (stratum_rules p s) (holds_in it all) it1 key d ->
  interner_ok base itF -> extends it1 itF -> decode_fact itF key = Some f -> derives p (sk_of itF) s L f.
Proof.
  intros H He Hd okF HeF Hf.
  destruct (justified_fires _ _ _ _ _ (eo_justified _ _ _ _ _ _ _ Hd itF f okF HeF Hf)) as (r & σ & Hr & [F1 F2 F3] & Hh).
  eapply fires_derives; [exact Hr| |exact Hh]. split; [done|..].
  - intros a Ha. destruct (F2 a Ha) as (g & Hg & HM). exists g. split; [done|].
    eapply (so_sound _ _ H); [done|by eapply extends_trans|done].
  - intros a Ha. destruct (F3 a Ha) as (g & Hg & HM). exists g. split; [done|]. intros HLg. by apply HM, (so_lower _ _ H).
Qed.

(** More keys than the limit, stored or candidates, are more facts of the model. *)
Lemma keys_limit (it it1 : Interner) (all : RelationStore) (c : CandidateSet) (ks : list FactKey) :
  stored_ok it all -> extends it it1 -> interner_ok base it1 ->
  cands_ok base arities (stratum_rules p s) (holds_in it all) it1 c ->
  NoDup ks -> (forall k, k ∈ ks -> contains_key all k = true \/ is_Some (cs_entries c !! k)) ->
  el_max_facts (eo_limits options) < len ks ->
  F (Raised (LimitExceeded LimitFacts (el_max_facts (eo_limits options)))).
Proof.
  intros H He ok1 Hc Hnd Hks Hlim. pose proof (store_canon_grows He all (do_canon _ _ (so_data _ _ H))) as Hcan.
  destruct (NoDup_decode base it1 ks ok1 Hnd) as (fs & H1 & H2 & H3 & H4).
  { intros k Hk. destruct (Hks k Hk) as [Hk'|[d Hd]]; [by apply Hcan|by apply (Hc k d)]. }
  apply (le_facts HL it1 fs ok1 H2); [|unfold len in *; by rewrite H3].
  intros f (k & Hk & Hf)%H4. apply derives_model; [done|by eapply extends_trans, He; apply H|].
  destruct (Hks k Hk) as [Hk'|[d Hd]].
  - eapply (so_sound _ _ H); [done|done|]. apply (holds_in_grows (do_interner _ _ (so_data _ _ H)) ok1 He); [apply H|].
    exists k. split; [|done]. apply (encode_decode ok1). split; [by apply Hcan|done].
  - eapply candidate_derives; [done|exact He|exact (Hc k d Hd)|done|apply extends_refl|done].
Qed.

(** ** Evaluating the rules of the stratum *)

(** An instance whose premises are in the stores of a join. *)
Record fired (it : Interner) (all delta : RelationStore) (dp : option nat) (r : Rule) (σ : Substitution) : Prop := {
  fd_dom : dom σ = body_variables (r_positive_body r);
  fd_body : forall i a, r_positive_body r !! i = Some a ->
    exists g, ground_atom σ a = Some g /\ holds_in it (store_at dp all delta i) g;
  fd_negative : forall a g, a ∈ r_negative_body r -> ground_atom σ a = Some g -> ~ holds_in it all g
}.

(** The candidates after evaluating the rules and positions of [Q]. *)
Record gathered (it : Interner) (all delta : RelationStore) (Q : option nat -> Rule -> Prop)
  (acc : Interner * CandidateSet) : Prop := {
  ga_ok : interner_ok base acc.1;
  ga_extends : extends it acc.1;
  ga_cands : cands_ok base arities (stratum_rules p s) (holds_in it all) acc.1 acc.2;
  ga_derived : forall dp r σ, Q dp r -> fired it all delta dp r σ -> derived_by base acc.1 acc.2 r σ
}.

Lemma gathered_none (it : Interner) (all delta : RelationStore) :
  interner_ok base it -> gathered it all delta (fun _ _ => False) (it, CandidateSet_new).
Proof.
  intros ok. split; cbn [fst snd]; [done|apply extends_refl| |done]. intros key d. cbn. by rewrite lookup_empty.
Qed.

Lemma gathered_ext (it : Interner) (all delta : RelationStore) (Q Q' : option nat -> Rule -> Prop)
  (acc : Interner * CandidateSet) :
  (forall dp r, Q' dp r -> Q dp r) -> gathered it all delta Q acc -> gathered it all delta Q' acc.
Proof. intros HQ [H1 H2 H3 H4]. split; [done..|]. eauto. Qed.

Lemma stratum_rules_program (r : Rule) (k : Z) : r ∈ stratum_rules p k -> r ∈ vp_rules p.
Proof. unfold stratum_rules. by intros [_ H]%list_elem_of_filter. Qed.

Section round.
  Context (it : Interner) (all delta : RelationStore).
  Hypothesis H : stored_ok it all.
  Hypothesis delta_wf : store_wf arities delta.
  Hypothesis delta_sub : forall key, contains_key delta key = true -> contains_key all key = true.

Lemma rule_facts_limit : facts_limit_allowed options F base (stratum_rules p s) (holds_in it all) it.
Proof.
  intros it1 fs ok1 He Hnd Hj. apply (le_facts HL it1 fs ok1 Hnd). intros f Hf. destruct (Hj f Hf) as [d Hd].
  apply derives_model; [done|by eapply extends_trans, He; apply H|].
  destruct (justified_fires _ _ _ _ _ Hd) as (r & σ & Hr & [F1 F2 F3] & Hh).
  eapply fires_derives; [exact Hr| |exact Hh]. split; [done|..].
  - intros a Ha. destruct (F2 a Ha) as (g & Hg & HM). exists g. split; [done|]. by eapply (so_sound _ _ H).
  - intros a Ha. destruct (F3 a Ha) as (g & Hg & HM). exists g. split; [done|]. intros HLg. by apply HM, (so_lower _ _ H).
Qed.

Lemma rule_rows_limit (r : Rule) :
  r ∈ vp_rules p ->
  el_max_intermediate_rows (eo_limits options) < len (keys all) ^ Z.of_nat (length (r_positive_body r)) ->
  F (Raised (LimitExceeded LimitIntermediateRows (el_max_intermediate_rows (eo_limits options)))).
Proof.
  intros Hr Hlim. destruct (facts_listed it all (so_data _ _ H)) as (fs & _ & Hnd & Hlen & Hin).
  apply (le_rows HL it fs r); [apply H|done| |done|by rewrite Hlen, <- length_keys].
  intros f Hf. apply derives_model; [apply H|apply H|]. apply (so_sound _ _ H); [apply H|apply extends_refl|by apply Hin].
Qed.

Lemma gather_rule_holds (Q : option nat -> Rule -> Prop) (acc : Interner * CandidateSet) (dp : option nat) (r : Rule) :
  r ∈ stratum_rules p s -> gathered it all delta Q acc ->
  runs (evaluate_rule_join env options r dp all delta acc.1 acc.2)
    (gathered it all delta (fun dp' r' => Q dp' r' \/ (dp' = dp /\ r' = r))).
Proof.
  intros Hr G. pose proof (stratum_rules_program r _ Hr) as Hr'. pose proof (so_data _ _ H) as [ok Hw Hcan].
  eapply holds_conseq.
  - apply (evaluate_rule_join_holds env options F HF base arities (stratum_rules p s) (holds_in it all) it
      rule_facts_limit dp all delta ok Hw delta_wf Hcan ltac:(done) delta_sub r acc.1 acc.2 Hr);
      [by apply program_rule_ready; [apply G|]|apply G|apply G|apply G| |].
    + intros Hg. by apply (le_generated HL r).
    + by apply rule_rows_limit.
  - intros out [[E1 E2 E3 E4 E5] Hder]. split; [done|eapply extends_trans; [apply G|done]|done|].
    intros dp' r' σ [HQ|[-> ->]] Hf.
    + eapply derived_by_grows; [exact E2|exact E4|]. by apply (ga_derived _ _ _ _ _ G dp').
    + apply Hder; [apply Hf| |apply Hf]. intros i a Hi. destruct (fd_body _ _ _ _ _ _ Hf i a Hi) as (g & Hg & Hh).
      exists g. split; [done|]. apply (holds_in_grows ok (ga_ok _ _ _ _ _ G) (ga_extends _ _ _ _ _ G)); [|done].
      intros key Hk. apply Hcan. unfold store_at in Hk. case_decide; auto.
Qed.

Definition has_delta (r : RelationId) : Prop := exists key, contains_key delta key = true /\ key.1 = r.

Lemma nonempty_relation (r : RelationId) :
  match relation delta r with Some d => RelationData_is_empty d | None => true end = false <-> has_delta r.
Proof.
  unfold relation, has_delta, RelationData_is_empty. split.
  - destruct (rs_relations delta !! r) as [d|] eqn:E; [|done]. intros Hd. apply bool_decide_eq_false in Hd.
    apply set_choose_L in Hd as [t Ht]. exists (r, t). split; [|done]. apply contains_key_true. eauto.
  - intros ([q t] & Hc & <-). apply contains_key_true in Hc as (d & Hd & Ht). cbn [fst snd] in *. rewrite Hd.
    apply bool_decide_eq_false. intros E. rewrite E in Ht. set_solver.
Qed.

(** The rounds' rules at the positions with new facts. *)
Definition recursive_position (dp : option nat) (r : Rule) : Prop :=
  exists i a, dp = Some i /\ r_positive_body r !! i = Some a /\ in_stratum p s (a_relation a) = true /\ has_delta (a_relation a).

Lemma position_holds (Q : option nat -> Rule -> Prop) (r : Rule) (acc : Interner * CandidateSet) (i : nat) (a : Atom) :
  r ∈ stratum_rules p s -> r_positive_body r !! i = Some a -> gathered it all delta Q acc ->
  runs (evaluate_position env options p s r all delta acc (i, a))
    (gathered it all delta (fun dp r' => Q dp r' \/
       (r' = r /\ dp = Some i /\ in_stratum p s (a_relation a) = true /\ has_delta (a_relation a)))).
Proof.
  intros Hr Hi G. unfold evaluate_position. destruct (in_stratum p s (a_relation a)) eqn:Es; cbn [negb].
  2:{ apply holds_ret. eapply gathered_ext; [|exact G]. intros dp r' [?|(_ & _ & ? & _)]; done. }
  destruct (match relation delta (a_relation a) with Some d => RelationData_is_empty d | None => true end) eqn:Ee.
  - apply holds_ret. eapply gathered_ext; [|exact G]. intros dp r' [?|(_ & _ & _ & Hd)]; [done|].
    apply nonempty_relation in Hd. congruence.
  - eapply holds_conseq; [by apply (gather_rule_holds Q acc (Some i) r Hr G)|]. intros out. apply gathered_ext.
    naive_solver.
Qed.

Lemma gather_recursive_holds :
  runs (for_each (evaluate_recursive_rule env options p s all delta) (it, CandidateSet_new) (stratum_rules p s))
    (gathered it all delta (fun dp r => r ∈ stratum_rules p s /\ recursive_position dp r)).
Proof.
  eapply holds_conseq.
  - apply (holds_for_each _ _ _ (fun done => gathered it all delta (fun dp r => r ∈ done /\ recursive_position dp r))).
    + intros done r rest acc Hsplit G. unfold evaluate_recursive_rule.
      assert (Hr : r ∈ stratum_rules p s) by (rewrite Hsplit; set_solver).
      eapply holds_conseq.
      * apply (holds_for_each _ _ _ (fun pos => gathered it all delta (fun dp r' => (r' ∈ done /\ recursive_position dp r') \/
          (r' = r /\ exists i a, (i, a) ∈ pos /\ dp = Some i /\ in_stratum p s (a_relation a) = true /\ has_delta (a_relation a))))).
        -- intros pos [i a] rest' acc' Hsplit' G'. assert (Hi : r_positive_body r !! i = Some a).
           { assert (Hin : (i, a) ∈ enumerate (r_positive_body r)) by (rewrite Hsplit'; set_solver).
             apply elem_of_lookup_imap in Hin as (j & x & [= -> ->] & Hx). done. }
           eapply holds_conseq; [by apply (position_holds _ r acc' i a Hr Hi G')|]. intros out. apply gathered_ext.
           intros dp r'. setoid_rewrite elem_of_app. setoid_rewrite list_elem_of_singleton. naive_solver.
        -- eapply gathered_ext; [|exact G]. intros dp r' [?|(_ & i & a & ?%elem_of_nil & _)]; done.
      * intros out. apply gathered_ext. intros dp r' [[Hr'|Hr'%list_elem_of_singleton]%elem_of_app Hrec]; [by left|right].
        subst r'. split; [done|]. destruct Hrec as (i & a & -> & Hi & Hs & Hd). exists i, a. split_and!; [|done..].
        apply elem_of_lookup_imap. eauto.
    + eapply gathered_ext; [|apply gathered_none, H]. intros dp r [?%elem_of_nil _]. done.
  - done.
Qed.
End round.

Lemma gather_nonrecursive_holds (it : Interner) (all : RelationStore) :
  stored_ok it all ->
  runs (for_each (fun acc rule => evaluate_rule_once env options rule all acc.1 acc.2)
          (it, CandidateSet_new) (nonrecursive_rules p s))
    (gathered it all all (fun dp r => dp = None /\ r ∈ nonrecursive_rules p s)).
Proof.
  intros H. apply (holds_for_each _ _ _ (fun done => gathered it all all (fun dp r => dp = None /\ r ∈ done))).
  - intros done r rest acc Hsplit G. unfold evaluate_rule_once.
    assert (Hr : r ∈ stratum_rules p s).
    { assert (Hin : r ∈ nonrecursive_rules p s) by (rewrite Hsplit; set_solver).
      by apply list_elem_of_filter in Hin as [_ Hin]. }
    eapply holds_conseq; [apply (gather_rule_holds it all all H (do_wf _ _ (so_data _ _ H)) ltac:(done) _ acc None r Hr G)|].
    intros out. apply gathered_ext. intros dp r' [-> [?|?%list_elem_of_singleton]%elem_of_app]; auto.
  - eapply gathered_ext; [|apply gathered_none, H]. intros dp r [_ ?%elem_of_nil]. done.
Qed.

(** ** Storing the candidates *)

Record stored_step (it1 : Interner) (all delta : RelationStore) (c : CandidateSet) (prov : option Provenance)
  (out : RelationStore * RelationStore * option Provenance) : Prop := {
  ss_all_wf : store_wf arities out.1.1;
  ss_delta_wf : store_wf arities out.1.2;
  ss_all : forall k, contains_key out.1.1 k = true <-> contains_key all k = true \/ is_Some (cs_entries c !! k);
  ss_delta : forall k, contains_key out.1.2 k = true <->
    contains_key delta k = true \/ (is_Some (cs_entries c !! k) /\ contains_key all k = false);
  ss_provenance : exists new, (forall k d, (k, d) ∈ new <-> cs_entries c !! k = Some d /\ contains_key all k = false) /\
    match prov, out.2 with
    | None, None => True
    | Some pv, Some pv' => committed_provenance it1 new (pv_derivations pv) (pv_derivations pv')
    | _, _ => False
    end;
  ss_limit : RelationStore_len out.1.1 <= Z.max (RelationStore_len all) (el_max_facts (eo_limits options))
}.

Lemma store_candidates_holds (it it1 : Interner) (all delta : RelationStore) (c : CandidateSet) (target : DeltaTarget)
  (prov : option Provenance) {A : Type} (k : RelationStore * RelationStore * option Provenance -> M A) (R : A -> Prop) :
  stored_ok it all -> extends it it1 -> interner_ok base it1 -> store_wf arities delta ->
  cands_ok base arities (stratum_rules p s) (holds_in it all) it1 c ->
  (forall out, stored_step it1 all delta c prov out -> runs (k out) R) ->
  runs (candidates ← retain_new env options c all;
        committed ← commit_candidates env options candidates all delta target it1 prov; k committed) R.
Proof.
  intros H He ok1 Hdw Hc Hk. eapply holds_bind; [apply (retain_new_holds env options F HF c all)|]. intros c' Hc'.
  eapply holds_bind.
  - apply (commit_candidates_holds env options F HF base arities it1 ok1 target c' all delta prov); [apply H|done|..].
    + intros key d Hd. apply Hc' in Hd as [Hd Hnc]. destruct (Hc key d Hd). done.
    + intros ks Hnd Hks. apply (keys_limit it it1 all c ks H He ok1 Hc Hnd). intros x Hx.
      destruct (Hks x Hx) as [?|[d Hd]]; [by left|]. right. exists d. by apply Hc'.
  - intros out [C1 C2 C3 C4 C5 C6]. apply Hk.
    assert (Hnew : forall x d, (x, d) ∈ btree_entries (cs_entries c') <-> cs_entries c !! x = Some d /\ contains_key all x = false).
    { intros x d. rewrite elem_of_btree_entries. apply Hc'. }
    split; [done|done|..].
    + intros x. rewrite C3. setoid_rewrite Hnew. unfold is_Some. destruct (contains_key all x); naive_solver.
    + intros x. rewrite C4. setoid_rewrite Hnew. unfold is_Some. naive_solver.
    + by exists (btree_entries (cs_entries c')).
    + done.
Qed.

(** What is stored after a step: the old facts and the heads. *)
Section step.
  Context (it it1 : Interner) (all delta : RelationStore) (c : CandidateSet) (prov : option Provenance)
    (out : RelationStore * RelationStore * option Provenance).
  Hypothesis H : stored_ok it all.
  Hypothesis He : extends it it1.
  Hypothesis ok1 : interner_ok base it1.
  Hypothesis Hc : cands_ok base arities (stratum_rules p s) (holds_in it all) it1 c.
  Hypothesis Hout : stored_step it1 all delta c prov out.

Lemma step_canon : store_canon it1 out.1.1.
Proof.
  intros key Hk. apply (ss_all _ _ _ _ _ _ Hout) in Hk as [Hk|[d Hd]]; [|by apply (Hc key d)].
  exact (store_canon_grows He all (do_canon _ _ (so_data _ _ H)) key Hk).
Qed.

Lemma step_facts (f : Fact) :
  holds_in it1 out.1.1 f <-> holds_in it all f \/ exists key, is_Some (cs_entries c !! key) /\ encode_fact it1 f = Some key.
Proof.
  rewrite <- (holds_in_grows (do_interner _ _ (so_data _ _ H)) ok1 He all f (do_canon _ _ (so_data _ _ H))).
  unfold holds_in. setoid_rewrite (ss_all _ _ _ _ _ _ Hout). naive_solver.
Qed.

Lemma step_stored : stored_ok it1 out.1.1.
Proof.
  split.
  - split; [done|apply Hout|apply step_canon].
  - eapply extends_trans; [apply H|done].
  - intros f Hf. apply step_facts. left. by apply (so_lower _ _ H).
  - intros itF f okF HeF [Hf|(key & [d Hd] & Hk)]%step_facts.
    + eapply (so_sound _ _ H); [done|by eapply extends_trans|done].
    + eapply (candidate_derives it it1 itF all key d); [done|done|by apply Hc|done|done|].
      eapply extends_decode; [done|]. by apply (encode_decode ok1) in Hk as [_ Hk].
Qed.

Lemma candidate_stratum (key : FactKey) (d : Derivation) :
  cs_entries c !! key = Some d -> in_stratum p s key.1 = true.
Proof.
  intros Hd. pose proof (Hc key d Hd) as [_ Hcan Hj]. destruct (decode_canon ok1 key Hcan) as [f Hf].
  destruct (justified_fires _ _ _ _ _ (Hj it1 f ok1 (extends_refl it1) Hf)) as (r & σ & Hr & _ & Hh).
  apply head_fact_relation in Hh. apply bind_Some in Hf as (vs & _ & [= <-]). cbn [f_relation] in Hh. rewrite Hh.
  by apply list_elem_of_filter in Hr as [Hr _].
Qed.

Lemma derived_stored (r : Rule) (σ : Substitution) (itF : Interner) :
  interner_ok base itF -> extends it1 itF -> derived_by base it1 c r σ ->
  exists f, head_fact (sk_of itF) r σ = Some f /\ holds_in it1 out.1.1 f.
Proof.
  intros okF HeF (key & Hk & Hcan & Hh). destruct (decode_canon ok1 key Hcan) as [f Hf]. exists f. split.
  - rewrite (Hh itF okF HeF). by eapply extends_decode.
  - apply step_facts. right. exists key. split; [done|]. by apply (encode_decode ok1).
Qed.

Lemma delta_facts_new (f : Fact) :
  (forall k, contains_key delta k = false) -> holds_in it1 out.1.2 f -> ~ holds_in it all f.
Proof.
  intros Hd (key & Hk & Hin) Hf. apply (holds_in_grows (do_interner _ _ (so_data _ _ H)) ok1 He all f (do_canon _ _ (so_data _ _ H))) in Hf.
  destruct Hf as (key' & Hk' & Hin'). assert (key' = key) as -> by congruence.
  apply (ss_delta _ _ _ _ _ _ Hout) in Hin as [Hin|[_ Hin]]; [rewrite Hd in Hin|]; congruence.
Qed.
End step.

(** ** The loop invariant *)

Record stratum_inv (st : Engine_state) (delta : RelationStore) : Prop := {
  si_stored : stored_ok (es_interner st) (es_all st);
  si_delta_wf : store_wf arities delta;
  si_delta_sub : forall k, contains_key delta k = true -> contains_key (es_all st) k = true;
  si_delta_stratum : forall k, contains_key delta k = true -> in_stratum p s k.1 = true;
  si_closed : forall itF r σ, interner_ok base itF -> extends (es_interner st) itF -> r ∈ stratum_rules p s ->
    fires (Facts st) L r σ ->
    (forall a g, a ∈ r_positive_body r -> in_stratum p s (a_relation a) = true -> ground_atom σ a = Some g ->
       ~ holds_in (es_interner st) delta g) ->
    exists f, head_fact (sk_of itF) r σ = Some f /\ Facts st f
}.

(** The stratum of a negated atom is below. *)
Lemma negated_below (r : Rule) (a : Atom) :
  r ∈ stratum_rules p s -> a ∈ r_negative_body r -> in_stratum p s (a_relation a) = false.
Proof.
  intros Hr Ha. pose proof (stratum_rules_program r _ Hr) as Hr'.
  destruct (vo_stratified _ Hp r Hr') as [_ Hneg]. specialize (Hneg a Ha).
  apply list_elem_of_filter in Hr as [Hr _]. unfold in_stratum, stratum, stratum_of in *.
  apply bool_decide_eq_true in Hr. apply bool_decide_eq_false. intros E. rewrite Hr, E in Hneg. simpl in Hneg. lia.
Qed.

(** What is not of the stratum has not changed. *)
Lemma other_stratum (it : Interner) (all : RelationStore) (a : Atom) (σ : Substitution) (g : Fact) :
  stored_ok it all -> in_stratum p s (a_relation a) = false -> ground_atom σ a = Some g -> holds_in it all g -> L g.
Proof.
  intros H Ha Hg Hh. apply (stored_new it all g H) in Hh as [?|Hh]; [done|].
  rewrite (ground_atom_relation _ _ _ Hg) in Hh. congruence.
Qed.

(** An instance that fires is found by the join. *)
Lemma fires_fired (st : Engine_state) (delta : RelationStore) (dp : option nat) (r : Rule) (σ : Substitution) :
  stored_ok (es_interner st) (es_all st) -> r ∈ stratum_rules p s -> fires (Facts st) L r σ ->
  (forall i a g, dp = Some i -> r_positive_body r !! i = Some a -> ground_atom σ a = Some g -> holds_in (es_interner st) delta g) ->
  fired (es_interner st) (es_all st) delta dp r σ.
Proof.
  intros H Hr [F1 F2 F3] Hd. split; [done|..].
  - intros i a Hi. destruct (F2 a) as (g & Hg & HM); [by eapply list_elem_of_lookup_2|]. exists g. split; [done|].
    unfold store_at. case_decide as E; [|done]. by eapply Hd.
  - intros a g Ha Hg Hh. destruct (F3 a Ha) as (g' & Hg' & Hn'). assert (g' = g) as -> by congruence.
    apply Hn'. eapply (other_stratum _ _ a); [done|by eapply negated_below|done|done].
Qed.

(** The stored step keeps the shape of the delta. *)
Lemma step_delta (it it1 : Interner) (all delta : RelationStore) (c : CandidateSet) (prov : option Provenance)
  (out : RelationStore * RelationStore * option Provenance) :
  stored_ok it all -> extends it it1 -> interner_ok base it1 ->
  cands_ok base arities (stratum_rules p s) (holds_in it all) it1 c -> stored_step it1 all delta c prov out ->
  (forall k, contains_key delta k = true -> contains_key all k = true /\ in_stratum p s k.1 = true) ->
  forall k, contains_key out.1.2 k = true -> contains_key out.1.1 k = true /\ in_stratum p s k.1 = true.
Proof.
  intros H He ok1 Hc Hout Hd k Hk. rewrite (ss_all _ _ _ _ _ _ Hout).
  apply (ss_delta _ _ _ _ _ _ Hout) in Hk as [Hk|[[d Hk] _]]; [split; [left|]; by apply Hd|].
  split; [by right; exists d|]. by eapply candidate_stratum.
Qed.

Lemma rule_recursive (r : Rule) :
  (forall a, a ∈ r_positive_body r -> in_stratum p s (a_relation a) = false) \/
  (exists a, a ∈ r_positive_body r /\ in_stratum p s (a_relation a) = true).
Proof.
  destruct (decide (Exists (fun a => in_stratum p s (a_relation a) = true) (r_positive_body r))) as [Hx|Hx].
  - right. by apply list.Exists_exists in Hx.
  - left. intros a Ha. apply not_true_is_false. intros Hs. apply Hx, list.Exists_exists. eauto.
Qed.

Lemma elem_of_nonrecursive (r : Rule) :
  r ∈ nonrecursive_rules p s <->
  r ∈ stratum_rules p s /\ forall a, a ∈ r_positive_body r -> in_stratum p s (a_relation a) = false.
Proof.
  unfold nonrecursive_rules. rewrite list_elem_of_filter, forallb_forall. setoid_rewrite <- list_elem_of_In.
  setoid_rewrite negb_true_iff. tauto.
Qed.

(** A premise of an instance is new, or none of the stratum is. *)
Lemma new_premise (it : Interner) (delta : RelationStore) (r : Rule) (σ : Substitution) :
  (exists i a g, r_positive_body r !! i = Some a /\ in_stratum p s (a_relation a) = true /\
     ground_atom σ a = Some g /\ holds_in it delta g) \/
  (forall a g, a ∈ r_positive_body r -> in_stratum p s (a_relation a) = true -> ground_atom σ a = Some g ->
     ~ holds_in it delta g).
Proof.
  destruct (decide (Exists (fun a => in_stratum p s (a_relation a) = true /\
    from_option (fun g => bool_decide (holds_in it delta g)) false (ground_atom σ a) = true) (r_positive_body r))) as [Hx|Hx].
  - left. apply list.Exists_exists in Hx as (a & [i Hi]%list_elem_of_lookup & Hs & Hg).
    destruct (ground_atom σ a) as [g|] eqn:Eg; [|done]. apply bool_decide_eq_true in Hg. by exists i, a, g.
  - right. intros a g Ha Hs Hg Hh. apply Hx, list.Exists_exists. exists a. split_and!; [done..|]. rewrite Hg. by apply bool_decide_eq_true.
Qed.

(** After the rules without recursive premises, the delta holds every fact of the stratum. *)
Lemma initial_inv (it it1 : Interner) (all delta : RelationStore) (c : CandidateSet) (prov : option Provenance)
  (out : RelationStore * RelationStore * option Provenance) :
  stored_ok it all -> (forall f, holds_in it all f -> L f) ->
  (forall k, contains_key delta k = true <-> contains_key all k = true /\ in_stratum p s k.1 = true) ->
  gathered it all all (fun dp r => dp = None /\ r ∈ nonrecursive_rules p s) (it1, c) ->
  stored_step it1 all delta c prov out ->
  stratum_inv (mkState it1 out.1.1 out.2) out.1.2.
Proof.
  intros H HLf Hd G Hout. pose proof (ga_ok _ _ _ _ _ G) as ok1. pose proof (ga_extends _ _ _ _ _ G) as He.
  pose proof (ga_cands _ _ _ _ _ G) as Hc. cbn [fst snd] in ok1, He, Hc.
  assert (Hstored : stored_ok it1 out.1.1) by by eapply step_stored.
  assert (Hdelta := step_delta it it1 all delta c prov out H He ok1 Hc Hout (fun k Hk => proj1 (Hd k) Hk)).
  split; cbn [es_interner es_all]; [done|apply Hout|by apply Hdelta|by apply Hdelta|].
  intros itF r σ okF HeF Hr Hf Hold. destruct (rule_recursive r) as [Hnr|(a & Ha & Hs)].
  - apply (derived_stored it it1 all delta c prov out H He ok1 Hout r σ itF okF HeF).
    apply (ga_derived _ _ _ _ _ G None r σ); [split; [done|]; by apply elem_of_nonrecursive|]. destruct Hf as [F1 F2 F3].
    apply (fires_fired (mkState it all prov)); [done|done| |done]. split; [done| |done].
    intros a Ha. destruct (F2 a Ha) as (g & Hg & HM). exists g. split; [done|].
    apply (so_lower _ _ H). eapply (other_stratum _ _ a); [exact Hstored|by apply Hnr|done|done].
  - exfalso. destruct (fires_body _ _ _ _ Hf a Ha) as (g & Hg & key & Hk & Hin).
    apply (Hold a g Ha Hs Hg). exists key. split; [done|]. cbn [es_interner es_all] in *.
    assert (Hkr : key.1 = a_relation a).
    { rewrite <- (ground_atom_relation _ _ _ Hg). by apply bind_Some in Hk as (t & _ & [= <-]). }
    apply (ss_delta _ _ _ _ _ _ Hout). rewrite Hd, Hkr.
    destruct (contains_key all key) eqn:E; [left; auto|right]. split; [|done].
    apply (ss_all _ _ _ _ _ _ Hout) in Hin as [?|?]; [congruence|done].
Qed.

(** A round keeps the invariant. *)
Lemma round_inv (st : Engine_state) (it1 : Interner) (delta next : RelationStore) (c : CandidateSet)
  (out : RelationStore * RelationStore * option Provenance) :
  stratum_inv st delta -> (forall k, contains_key next k = false) ->
  gathered (es_interner st) (es_all st) delta
    (fun dp r => r ∈ stratum_rules p s /\ recursive_position delta dp r) (it1, c) ->
  stored_step it1 (es_all st) next c (es_provenance st) out ->
  stratum_inv (mkState it1 out.1.1 out.2) out.1.2.
Proof.
  intros [H Hdw Hds Hdr Hclosed] Hnext G Hout. set (it := es_interner st) in *. set (all := es_all st) in *.
  pose proof (ga_ok _ _ _ _ _ G) as ok1. pose proof (ga_extends _ _ _ _ _ G) as He.
  pose proof (ga_cands _ _ _ _ _ G) as Hc. cbn [fst snd] in ok1, He, Hc.
  assert (Hstored : stored_ok it1 out.1.1) by by eapply step_stored.
  assert (Hdelta := step_delta it it1 all next c _ out H He ok1 Hc Hout ltac:(intros k Hk; rewrite Hnext in Hk; done)).
  split; cbn [es_interner es_all]; [done|apply Hout|by apply Hdelta|by apply Hdelta|].
  intros itF r σ okF HeF Hr Hf Hold. pose proof (do_canon _ _ (so_data _ _ H)) as Hcan.
  assert (Hf' : fires (Facts st) L r σ).
  { destruct Hf as [F1 F2 F3]. split; [done| |done]. intros a Ha. destruct (F2 a Ha) as (g & Hg & HM). exists g. split; [done|].
    destruct (in_stratum p s (a_relation a)) eqn:Es.
    - apply (step_facts it it1 all next c _ out H He ok1 Hout) in HM as [HM|(key & Hk & Henc)]; [done|].
      specialize (Hold a g Ha Es Hg). destruct (contains_key all key) eqn:Ek.
      + apply (holds_in_grows (do_interner _ _ (so_data _ _ H)) ok1 He all g Hcan). by exists key.
      + exfalso. apply Hold. exists key. split; [done|]. apply (ss_delta _ _ _ _ _ _ Hout). by right.
    - apply (so_lower _ _ H). by eapply (other_stratum _ _ a); [exact Hstored|..]. }
  destruct (new_premise it delta r σ) as [(i & a & g & Hi & Hs & Hg & Hh)|Hno].
  - apply (derived_stored it it1 all next c _ out H He ok1 Hout r σ itF okF HeF). apply (ga_derived _ _ _ _ _ G (Some i) r σ).
    + split; [done|]. exists i, a. split_and!; [done..|]. destruct Hh as (key & Hk & Hin). exists key. split; [done|].
      rewrite <- (ground_atom_relation _ _ _ Hg). by apply bind_Some in Hk as (t & _ & [= <-]).
    + apply fires_fired; [done..|]. intros j b g' [= <-] Hj Hg'. by simplify_eq.
  - destruct (Hclosed itF r σ okF) as (f & Hhead & HF'); [by eapply extends_trans|done..|].
    exists f. split; [done|].
    apply (step_facts it it1 all next c _ out H He ok1 Hout). by left.
Qed.

(** With an empty delta the stratum is complete. *)
Lemma complete_inv (st : Engine_state) (delta : RelationStore) (itF : Interner) (f : Fact) :
  stratum_inv st delta -> (forall k, contains_key delta k = false) ->
  interner_ok base itF -> extends (es_interner st) itF ->
  Facts st f <-> derives p (sk_of itF) s L f.
Proof.
  intros [H _ _ _ Hclosed] Hd okF HeF. split; [by apply (so_sound _ _ H)|].
  induction 1 as [f Hf|r σ f Hr Hdom Hsome _ IH Hneg Hhead]; [by apply (so_lower _ _ H)|].
  destruct (Hclosed itF r σ okF HeF Hr) as (f' & Hf' & HM).
  - split; [done| |done]. intros a Ha. destruct (Hsome a Ha) as [g Hg]. exists g. split; [done|by apply (IH a)].
  - intros a g _ _ _ (k & _ & Hk). by rewrite Hd in Hk.
  - by simplify_eq.
Qed.
End stratum.
End engine.
