(* ===== verification/DatalogFixpointFacts.v ===== *)
(** * Evaluation of the strata

    The triples of the operations of engine/strata.rs: each stratum ends in the
    least set of facts its rules derive from the strata below, with the
    iterations within their limit and bounded by the facts derived. *)
From stdpp Require Import gmap.
From S2P Require Import Prelude MachineInt RustStr BTree RdfModel RdfDisplay DatalogIr.
From S2P Require Import StateResult DatalogValidate DatalogStrataFacts DatalogValidateFacts.
From S2P Require Import DatalogControl DatalogStorage DatalogRules DatalogEngine.
From S2P Require Import DatalogControlFacts DatalogStorageFacts DatalogInternerFacts.
From S2P Require Import DatalogJoinFacts DatalogSpec DatalogDeriveFacts DatalogCommitFacts.
From S2P Require Import DatalogStratumFacts.

(** * Provenance

    What the recorded derivations promise: each is an instance of a rule whose
    premises are stored and whose absent premises are not and never will be, and
    the derivations of the premises lead back to the input. *)

(** The derivations of a fact and of its premises end in the input. *)
Inductive explained (input : list Fact) (derivations : gmap Fact Derivation) : Fact -> Prop :=
| explained_input f : f ∈ input -> explained input derivations f
| explained_rule f d :
    derivations !! f = Some d ->
    (forall g, g ∈ dv_premises d -> explained input derivations g) ->
    explained input derivations f.

Lemma explained_mono (input : list Fact) (derivations derivations' : gmap Fact Derivation) (f : Fact) :
  derivations ⊆ derivations' -> explained input derivations f -> explained input derivations' f.
Proof.
  intros Hsub. induction 1 as [f Hf|f d Hd _ IH]; [by constructor|].
  by eapply explained_rule; [eapply lookup_weaken|].
Qed.

(** The relation of the fact is of a stratum below [k]. *)
Definition settled (p : ValidatedProgram) (k : Z) (g : Fact) : Prop :=
  forall s, k <= s -> in_stratum p s (f_relation g) = false.

Definition supported (p : ValidatedProgram) (sk : Skolem) (k : Z) (M : Fact -> Prop) (f : Fact) (d : Derivation) : Prop :=
  exists r σ premises absent, r ∈ vp_rules p /\ dom σ = body_variables (r_positive_body r) /\
    mapM (ground_atom σ) (r_positive_body r) = Some premises /\ Forall M premises /\
    mapM (ground_atom σ) (r_negative_body r) = Some absent /\ Forall (fun g => ~ M g /\ settled p k g) absent /\
    head_fact sk r σ = Some f /\
    d = Derivation_new_with_absence (r_id r) (r_source r) premises absent.

(** A supported derivation stays so when only facts of stratum [k] and above are added. *)
Lemma supported_grows (p : ValidatedProgram) (sk : Skolem) (k k' : Z) (M M' : Fact -> Prop) (f : Fact) (d : Derivation) :
  k <= k' -> (forall g, M g -> M' g) -> (forall g, M' g -> M g \/ exists s, k <= s /\ in_stratum p s (f_relation g) = true) ->
  supported p sk k M f d -> supported p sk k' M' f d.
Proof.
  intros Hk HM HM' (r & σ & ps & gs & H1 & H2 & H3 & H4 & H5 & H6 & H7 & H8).
  exists r, σ, ps, gs. split_and!; [done|done|done| |done| |done|done].
  - eapply List.Forall_impl; [|exact H4]. done.
  - eapply List.Forall_impl; [|exact H6]. cbv beta. intros g [Hn Hs]. split; [|intros s Hle; apply Hs; lia].
    intros [?|(s & Hle & Hin)]%HM'; [done|]. rewrite (Hs s Hle) in Hin. done.
Qed.

Lemma supported_justified (p : ValidatedProgram) (sk : Skolem) (k : Z) (M : Fact -> Prop) (f : Fact) (d : Derivation) :
  supported p sk k M f d -> justified sk (vp_rules p) M f d.
Proof.
  intros (r & σ & ps & gs & H1 & H2 & H3 & H4 & H5 & H6 & H7 & H8).
  exists r, σ, ps, gs. split_and!; try done. eapply List.Forall_impl; [|exact H6]. by intros g [? _].
Qed.

(** The relations negated by a rule of stratum [k] are of strata below. *)
Lemma negated_settled (p : ValidatedProgram) (k : Z) (r : Rule) (a : Atom) (σ : Substitution) (g : Fact) :
  validated_ok p -> r ∈ stratum_rules p k -> a ∈ r_negative_body r -> ground_atom σ a = Some g -> settled p k g.
Proof.
  intros Hp Hr Ha Hg s Hs. apply list_elem_of_filter in Hr as [Hk Hr].
  destruct (vo_stratified _ Hp r Hr) as [_ Hneg]. specialize (Hneg a Ha).
  rewrite (ground_atom_relation _ _ _ Hg). unfold in_stratum, stratum, stratum_of in *.
  apply bool_decide_eq_true in Hk. apply bool_decide_eq_false. intros E. rewrite Hk, E in Hneg. simpl in Hneg. lia.
Qed.

Lemma justified_supported (p : ValidatedProgram) (sk : Skolem) (k : Z) (M : Fact -> Prop) (f : Fact) (d : Derivation) :
  validated_ok p -> justified sk (stratum_rules p k) M f d -> supported p sk k M f d.
Proof.
  intros Hp (r & σ & ps & gs & H1 & H2 & H3 & H4 & H5 & H6 & H7 & H8).
  exists r, σ, ps, gs. split_and!; try done; [by apply list_elem_of_filter in H1 as [_ H1]|].
  apply mapM_Some in H5. apply list.Forall_forall. intros g Hg. split; [by rewrite list.Forall_forall in H6; apply H6|].
  apply list_elem_of_lookup in Hg as [i Hi]. destruct (Forall2_lookup_r _ _ _ _ _ H5 Hi) as (a & Ha & E).
  eapply negated_settled; [done|done|by eapply list_elem_of_lookup_2|done].
Qed.

Section provenance.
  Context (base : Value -> Prop) (p : ValidatedProgram) (input : list Fact) (track : bool).

Record provenance_ok (k : Z) (st : Engine_state) (pv : Provenance) : Prop := {
  po_explained : forall f, Facts st f -> explained input (pv_derivations pv) f;
  po_fact : forall f d, pv_derivations pv !! f = Some d -> Facts st f /\ f ∉ input;
  po_supported : forall f d itF, pv_derivations pv !! f = Some d -> interner_ok base itF -> extends (es_interner st) itF ->
    supported p (sk_of itF) k (Facts st) f d
}.
Definition tracked (k : Z) (st : Engine_state) : Prop :=
  match es_provenance st with Some pv => track = true /\ provenance_ok k st pv | None => track = false end.

Lemma tracked_next (k : Z) (st : Engine_state) : tracked k st -> tracked (k + 1) st.
Proof.
  unfold tracked. destruct (es_provenance st) as [pv|]; [|done]. intros [Ht [H1 H2 H3]]. split; [done|]. split; [done|done|].
  intros f d itF Hd okF HeF. eapply supported_grows; [|done|by left|by apply (H3 f d itF)]. lia.
Qed.

Context (Hp : validated_ok p) (options : EvaluationOptions) (arities : gmap RelationId Z).
Context (n : nat) (L : Fact -> Prop) (it_start : Interner).
  Hypothesis L_model : forall itF, interner_ok base itF -> extends it_start itF ->
    forall f, L f <-> model_below p (sk_of itF) input n f.

(** Storing candidates records their derivations. *)
Section step.
  Context (it it1 : Interner) (all delta : RelationStore) (c : CandidateSet) (pv pv' : Provenance)
    (out : RelationStore * RelationStore * option Provenance).
  Hypothesis H : stored_ok base arities p n L it_start it all.
  Hypothesis He : extends it it1.
  Hypothesis ok1 : interner_ok base it1.
  Hypothesis Hc : cands_ok base arities (stratum_rules p (Z.of_nat n)) (holds_in it all) it1 c.
  Hypothesis Hout : stored_step options arities it1 all delta c (Some pv) out.
  Hypothesis Hpv' : out.2 = Some pv'.
  Hypothesis Hpv : provenance_ok (Z.of_nat n) (mkState it all (Some pv)) pv.

Lemma stored_input (f : Fact) : f ∈ input -> holds_in it all f.
Proof.
  intros Hf. apply (so_lower _ _ _ _ _ _ _ _ H), (L_model it); [apply H|apply H|].
  by apply (model_below_mono p _ input 0); [lia|].
Qed.

(** The entries: the new candidates, and the old ones. *)
Lemma step_entry (f : Fact) (d : Derivation) :
  pv_derivations pv' !! f = Some d <->
  (exists key, cs_entries c !! key = Some d /\ decode_fact it1 key = Some f /\ ~ holds_in it all f) \/
  pv_derivations pv !! f = Some d.
Proof.
  destruct (ss_provenance _ _ _ _ _ _ _ _ Hout) as (new & Hnew & Hcom). rewrite Hpv' in Hcom. rewrite (Hcom f d).
  assert (Hfresh : forall key d', (key, d') ∈ new -> decode_fact it1 key = Some f -> ~ holds_in it all f).
  { intros key d' [Hd' Hk]%Hnew Hf Hh. pose proof (so_data _ _ _ _ _ _ _ _ H) as [ok _ Hcan].
    apply (holds_in_grows ok ok1 He all f Hcan) in Hh as (key' & Hk' & Hin).
    assert (encode_fact it1 f = Some key) by (apply (encode_decode ok1); split; [by apply (Hc key d')|done]). congruence. }
  split.
  - intros [(key & Hin & Hf)|[_ Hd]]; [left|by right]. exists key. split_and!; [by apply Hnew|done|by eapply Hfresh].
  - intros [(key & Hd & Hf & Hn)|Hd].
    + left. exists key. split; [|done]. apply Hnew. split; [done|]. apply not_true_is_false. intros Hin. apply Hn.
      apply (holds_in_grows (do_interner _ _ _ _ (so_data _ _ _ _ _ _ _ _ H)) ok1 He); [apply H|].
      exists key. split; [|done]. apply (encode_decode ok1). split; [by apply (Hc key d)|done].
    + right. split; [|done]. intros key d' Hin Hf. eapply Hfresh; [done..|]. by apply (po_fact _ _ _ Hpv f d).
Qed.

Lemma step_provenance : provenance_ok (Z.of_nat n) (mkState it1 out.1.1 out.2) pv'.
Proof.
  pose proof (fun f => step_facts options base arities p input n L it_start L_model it it1 all delta c _ out H He ok1 Hout f) as Hf.
  assert (Hgrow : forall f, holds_in it all f -> holds_in it1 out.1.1 f) by (intros f Hh; apply Hf; by left).
  assert (Hsub : pv_derivations pv ⊆ pv_derivations pv').
  { apply map_subseteq_spec. intros f d Hd. apply step_entry. by right. }
  split; unfold Facts in *; cbn [es_interner es_all].
  - intros f [Hh|(key & [d Hd] & Hk)]%Hf; [by eapply explained_mono, (po_explained _ _ _ Hpv)|].
    destruct (decide (holds_in it all f)) as [Hh|Hh]; [by eapply explained_mono, (po_explained _ _ _ Hpv)|].
    apply (encode_decode ok1) in Hk as [Hcan Hdec].
    apply (explained_rule _ _ _ d); [apply step_entry; left; by exists key|]. intros g Hg.
    destruct (eo_justified _ _ _ _ _ _ _ (Hc key d Hd) it1 f ok1 (extends_refl _) Hdec) as (r & σ & ps & gs & _ & _ & _ & HM & _ & _ & _ & ->).
    eapply explained_mono, (po_explained _ _ _ Hpv); [done|]. cbn [Derivation_new_with_absence dv_premises] in Hg.
    rewrite elem_of_sort_by in Hg. rewrite list.Forall_forall in HM. by apply HM.
  - intros f d [(key & Hd & Hdec & Hn)|Hd]%step_entry.
    + split; [|by intros Hin%stored_input]. apply Hf. right. exists key. split; [done|]. apply (encode_decode ok1).
      split; [by apply (Hc key d)|done].
    + destruct (po_fact _ _ _ Hpv f d Hd) as [H1 H2]. split; [by apply Hgrow|done].
  - intros f d itF Hd okF HeF. apply (supported_grows _ _ (Z.of_nat n) _ (holds_in it all)); [lia|done| |].
    + intros g [Hg|(key & [d' Hd'] & Hk)]%Hf; [by left|right]. exists (Z.of_nat n). split; [lia|].
      apply bind_Some in Hk as (t & _ & [= <-]). by apply (candidate_stratum base arities p n it it1 all c ok1 Hc _ d' Hd').
    + apply step_entry in Hd as [(key & Hd & Hdec & Hn)|Hd].
      * apply justified_supported; [done|]. eapply (eo_justified _ _ _ _ _ _ _ (Hc key d Hd)); [done|done|]. by eapply extends_decode.
      * by apply (po_supported _ _ _ Hpv); [..|eapply extends_trans].
Qed.
End step.

Lemma tracked_step (it it1 : Interner) (all delta : RelationStore) (c : CandidateSet) (prov : option Provenance)
  (out : RelationStore * RelationStore * option Provenance) :
  stored_ok base arities p n L it_start it all -> extends it it1 -> interner_ok base it1 ->
  cands_ok base arities (stratum_rules p (Z.of_nat n)) (holds_in it all) it1 c ->
  stored_step options arities it1 all delta c prov out ->
  tracked (Z.of_nat n) (mkState it all prov) -> tracked (Z.of_nat n) (mkState it1 out.1.1 out.2).
Proof.
  intros H He ok1 Hc Hout Ht. pose proof (ss_provenance _ _ _ _ _ _ _ _ Hout) as (new & _ & Hcom). unfold tracked in *. cbn [es_provenance] in *.
  destruct prov as [pv|], out.2 as [pv'|] eqn:E; try done. destruct Ht as [Ht Hpv]. split; [done|].
  rewrite <- E. by eapply step_provenance.
Qed.
End provenance.

Lemma len_grows (s s' : RelationStore) :
  (forall k, contains_key s k = true -> contains_key s' k = true) -> RelationStore_len s <= RelationStore_len s'.
Proof.
  intros H. rewrite <- !length_keys. unfold len. apply inj_le, NoDup_incl_length;
    [rewrite <- NoDup_ListNoDup; apply NoDup_keys|].
  intros k Hk%list_elem_of_In%elem_of_keys. by apply list_elem_of_In, elem_of_keys, H.
Qed.

Lemma len_grows_new (s s' : RelationStore) (k : FactKey) :
  (forall k, contains_key s k = true -> contains_key s' k = true) ->
  contains_key s k = false -> contains_key s' k = true -> RelationStore_len s + 1 <= RelationStore_len s'.
Proof.
  intros H Hk Hk'. rewrite <- !length_keys. unfold len.
  assert (Hle : (length (k :: keys s) <= length (keys s'))%nat); [|simpl in Hle; lia].
  apply NoDup_incl_length.
  - rewrite <- NoDup_ListNoDup. constructor; [|apply NoDup_keys]. rewrite elem_of_keys. congruence.
  - intros x [->|Hx%elem_of_keys]%list_elem_of_In%elem_of_cons; apply list_elem_of_In, elem_of_keys; auto.
Qed.

Lemma not_empty_spec (s : RelationStore) : RelationStore_is_empty s = false -> exists k, contains_key s k = true.
Proof.
  intros H. destruct (keys s) as [|k ks] eqn:E; [|exists k; apply elem_of_keys; rewrite E; by left].
  apply not_true_iff_false in H. destruct H. apply is_empty_spec. intros k. apply not_true_is_false. rewrite <- elem_of_keys, E.
  apply not_elem_of_nil.
Qed.

Section engine.
  Context {P : DatalogParams} (env : Environment) (options : EvaluationOptions).
  Context (F : failure -> Prop) (HF : guard_errors env options F).
  Context (base : Value -> Prop) (arities : gmap RelationId Z) (p : ValidatedProgram) (input : list Fact).
  Context (Hp : validated_ok p).
  Hypothesis arities_sub : vp_arities p ⊆ arities.
  Hypothesis base_constants : forall r a v, r ∈ vp_rules p -> a ∈ rule_atoms r -> v ∈ atom_constants a -> base v.
  Context (HL : limit_errors options F base p input).
Abbreviation runs := (holds (exec_ok env options) F).
Abbreviation max_facts := (el_max_facts (eo_limits options)).
Abbreviation max_iterations := (el_max_iterations (eo_limits options)).

(** ** The delta a stratum starts with *)

Lemma empty_store_wf : store_wf arities (RelationStore_new (vp_arities p)).
Proof.
  apply RelationStore_new_wf; [done|]. intros r k Hk. destruct (vo_arity_used _ Hp _ _ Hk) as (q & a & _ & _ & _ & <-).
  apply len_nonneg.
Qed.

(** A store with the keys of [Q]. *)
Definition holds_keys (Q : FactKey -> Prop) (s : RelationStore) : Prop :=
  store_wf arities s /\ forall k, contains_key s k = true <-> Q k.

Lemma insert_delta_holds (Q : FactKey -> Prop) (delta : RelationStore) (key : FactKey) :
  holds_keys Q delta -> key_ok arities key ->
  runs (insert_delta env options delta key) (holds_keys (fun k => k = key \/ Q k)).
Proof.
  intros [Hw Hk] Hok. unfold insert_delta. do 3 guard_step HF.
  destruct (insert_key_spec arities delta key Hw Hok) as (d' & I1 & W1 & C1 & _).
  eapply holds_bind; [apply (unwrap_holds _ _ _ _ _ (fun r => r.1 = d') I1 eq_refl)|]. intros [d b] E. cbn in E. subst d.
  apply holds_ret. split; [done|]. intros k. rewrite C1. by rewrite Hk.
Qed.

Lemma holds_keys_ext (Q Q' : FactKey -> Prop) (s : RelationStore) : (forall k, Q k <-> Q' k) -> holds_keys Q s -> holds_keys Q' s.
Proof. intros H [Hw Hk]. split; [done|]. intros k. by rewrite Hk. Qed.

Lemma insert_keys_holds (Q : FactKey -> Prop) (delta : RelationStore) (ks : list FactKey) :
  holds_keys Q delta -> (forall k, k ∈ ks -> key_ok arities k) ->
  runs (for_each (insert_delta env options) delta ks) (holds_keys (fun k => k ∈ ks \/ Q k)).
Proof.
  intros H Hks. apply (holds_for_each _ _ _ (fun pre => holds_keys (fun k => k ∈ pre \/ Q k))).
  - intros pre k rest d Hsplit Hd. eapply holds_conseq; [apply (insert_delta_holds _ d k Hd)|].
    + apply Hks. rewrite Hsplit. set_solver.
    + intros d'. apply holds_keys_ext. intros x. rewrite elem_of_app, list_elem_of_singleton. tauto.
  - eapply holds_keys_ext; [|exact H]. intros x. rewrite elem_of_nil. tauto.
Qed.

Lemma initial_delta_holds (s : Z) (all : RelationStore) :
  store_wf arities all ->
  runs (initial_delta env options p s all)
    (holds_keys (fun k => contains_key all k = true /\ in_stratum p s k.1 = true)).
Proof.
  intros Hw. unfold initial_delta. do 2 guard_step HF. eapply holds_bind.
  - apply (holds_for_each _ _ _ (fun pre => holds_keys (fun k => contains_key all k = true /\ k.1 ∈ pre))).
    + intros pre r rest d Hsplit Hd. eapply holds_conseq; [apply (insert_keys_holds _ d _ Hd)|].
      * intros k [Hk _]%elem_of_keys_for_relation. by eapply store_key_ok.
      * intros d'. apply holds_keys_ext. intros k.
        rewrite elem_of_keys_for_relation, elem_of_app, list_elem_of_singleton. tauto.
    + split; [apply empty_store_wf|]. intros k. rewrite RelationStore_new_empty, elem_of_nil. naive_solver.
  - intros d Hd. do 2 guard_step HF. apply holds_ret. eapply holds_keys_ext; [|exact Hd]. intros k. cbv beta.
    rewrite list_elem_of_filter, (vo_relations _ Hp). split; [naive_solver|]. intros [H1 H2]. split_and!; [done..|].
    unfold in_stratum, stratum in H2. apply bool_decide_eq_true in H2. by eexists.
Qed.

(** ** The loop of a stratum *)

  Context (it0 : Interner).

Record strata_inv (n : nat) (acc : Engine_state * Z) : Prop := {
  ti_extends : extends it0 (es_interner acc.1);
  ti_data : data_ok base arities (es_interner acc.1) (es_all acc.1);
  ti_model : forall itF, interner_ok base itF -> extends (es_interner acc.1) itF ->
    forall f, Facts acc.1 f <-> model_below p (sk_of itF) input n f;
  ti_tracked : tracked base p input (eo_track_provenance options) (Z.of_nat n) acc.1;
  ti_facts : RelationStore_len (es_all acc.1) <= Z.max 0 max_facts;
  ti_iterations : 0 <= acc.2 <= Z.max 0 max_iterations;
  ti_bound : acc.2 <= RelationStore_len (es_all acc.1) + Z.of_nat n
}.

Section stratum.
  Context (n : nat) (Hn : Z.of_nat n <= max_stratum p) (start : Engine_state) (iterations0 : Z).
  Hypothesis Hstart : strata_inv n (start, iterations0).
Abbreviation s := (Z.of_nat n).
Abbreviation L := (Facts start).
Abbreviation it_start := (es_interner start).

Record loop_inv (acc : Engine_state * RelationStore * Z) : Prop := {
  li_inv : stratum_inv base arities p n L it_start acc.1.1 acc.1.2;
  li_tracked : tracked base p input (eo_track_provenance options) s acc.1.1;
  li_facts : RelationStore_len (es_all acc.1.1) <= Z.max 0 max_facts;
  li_iterations : 0 <= acc.2 <= Z.max 0 max_iterations;
  li_bound : acc.2 <= RelationStore_len (es_all acc.1.1) + s + (if RelationStore_is_empty acc.1.2 then 1 else 0)
}.

Lemma start_stored : stored_ok base arities p n L it_start it_start (es_all start).
Proof. split; [apply Hstart|apply extends_refl|done|]. intros itF f _ _ Hf. by apply derives_lower. Qed.

Lemma start_model (itF : Interner) :
  interner_ok base itF -> extends it_start itF -> forall f, L f <-> model_below p (sk_of itF) input n f.
Proof. apply Hstart. Qed.

Lemma step_limit (it1 : Interner) (all delta : RelationStore) (c : CandidateSet) (prov : option Provenance)
  (out : RelationStore * RelationStore * option Provenance) :
  stored_step options arities it1 all delta c prov out -> RelationStore_len all <= Z.max 0 max_facts ->
  RelationStore_len all <= RelationStore_len out.1.1 <= Z.max 0 max_facts.
Proof.
  intros Hout Hl. pose proof (ss_limit _ _ _ _ _ _ _ _ Hout). split; [|lia]. apply len_grows. intros k Hk.
  apply (ss_all _ _ _ _ _ _ _ _ Hout). by left.
Qed.

Lemma evaluate_nonrecursive_rules_holds (delta : RelationStore) :
  holds_keys (fun k => contains_key (es_all start) k = true /\ in_stratum p s k.1 = true) delta ->
  runs (evaluate_nonrecursive_rules env options p s start delta) (fun r => loop_inv (r.1, r.2, iterations0)).
Proof.
  intros [Hdw Hd]. unfold evaluate_nonrecursive_rules. do 2 guard_step HF.
  eapply holds_bind; [by eapply (gather_nonrecursive_holds env options F HF base arities p input); try done; [apply start_model|apply start_stored]|].
  intros [it1 c] G. pose proof G as [ok1 He Hc _]. cbn [fst snd] in ok1, He, Hc.
  eapply (store_candidates_holds env options F HF base arities p input HL n Hn L it_start start_model);
    [apply start_stored|done|done|done|done|].
  intros [[all1 d1] pr1] Hout. do 3 guard_step HF. apply holds_ret.
  pose proof (step_limit _ _ _ _ _ _ Hout (ti_facts _ _ Hstart)) as Hlim. cbn [fst snd] in Hlim |- *.
  split; cbn [fst snd es_all]; [| |lia|apply Hstart|].
  - by apply (initial_inv options base arities p input Hp n L it_start start_model _ it1 _ delta c (es_provenance start) (all1, d1, pr1) start_stored).
  - eapply (tracked_step base p input _ Hp options arities n L it_start start_model _ it1 _ delta c _ (all1, d1, pr1) start_stored He ok1 Hc Hout).
    destruct start; apply Hstart.
  - pose proof (ti_bound _ _ Hstart). cbn [fst snd es_all] in *. destruct (RelationStore_is_empty d1); lia.
Qed.

Lemma limit_iterations (acc : Engine_state * RelationStore * Z) :
  loop_inv acc -> RelationStore_is_empty acc.1.2 = false -> max_iterations <= acc.2 ->
  F (Raised (LimitExceeded LimitIterations max_iterations)).
Proof.
  intros [Hinv _ _ _ Hb] He Hlim. rewrite He in Hb. pose proof (si_stored _ _ _ _ _ _ _ _ Hinv) as Hst.
  destruct (facts_listed base arities _ _ (so_data _ _ _ _ _ _ _ _ Hst)) as (fs & _ & Hnd & Hlen & Hin).
  apply (le_iterations _ _ _ _ _ HL (es_interner acc.1.1) fs); [apply Hst|done| |lia].
  intros f Hf%Hin. eapply (derives_model base p input n Hn L it_start start_model); [apply Hst|apply Hst|].
  apply (so_sound _ _ _ _ _ _ _ _ Hst); [apply Hst|apply extends_refl|done].
Qed.

Lemma stratum_round_holds (acc : Engine_state * RelationStore * Z) :
  loop_inv acc ->
  runs (stratum_round env options p s acc)
    (fun r => match r with
              | inl acc' => loop_inv acc' /\ 0 <= max_iterations - acc'.2 < max_iterations - acc.2
              | inr r => strata_inv (S n) r
              end).
Proof.
  intros Hinv. destruct acc as [[st delta] it]. unfold stratum_round. destruct (RelationStore_is_empty delta) eqn:Ee.
  - apply holds_ret. destruct Hinv as [H1 H2 H3 H4 H5]. cbn [fst snd] in *. rewrite Ee in H5. rewrite is_empty_spec in Ee.
    split; cbn [fst snd]; [|apply H1| | |done|done|rewrite Nat2Z.inj_succ; lia].
    + eapply extends_trans; [apply Hstart|apply H1].
    + intros itF okF HeF f. rewrite (complete_inv _ _ _ _ _ _ st delta itF f H1 Ee okF HeF). cbn [model_below].
      split; apply derives_ext; intros g; [|symmetry]; apply start_model; try done;
        (eapply extends_trans; [apply H1|done]).
    + rewrite Nat2Z.inj_succ. by apply tracked_next.
  - guard_step HF. destruct (it >=? max_iterations) eqn:El; bool_to_prop;
      [by apply raise_holds, (limit_iterations (st, delta, it) Hinv Ee)|].
    pose proof Hinv as [H1 H2 H3 H4 H5]. cbn [fst snd] in *. do 2 guard_step HF.
    eapply holds_bind.
    { apply (gather_recursive_holds env options F HF base arities p input Hp arities_sub base_constants HL n Hn L it_start start_model);
        apply H1. }
    intros [it1 c] G. pose proof G as [ok1 He Hc _]. cbn [fst snd] in ok1, He, Hc. do 2 guard_step HF.
    eapply (store_candidates_holds env options F HF base arities p input HL n Hn L it_start start_model);
      [apply H1|done|done|apply empty_store_wf|done|].
    intros [[all1 d1] pr1] Hout. do 4 guard_step HF. apply holds_ret.
    pose proof (step_limit _ _ _ _ _ _ Hout H3) as Hlim. cbn [fst snd] in Hlim. split; [|cbn; lia].
    split; cbn [fst snd es_all]; [| |lia|lia|].
    + by apply (round_inv options base arities p input Hp n L it_start start_model st it1 delta _ c (all1, d1, pr1) H1 (RelationStore_new_empty (vp_arities p))).
    + eapply (tracked_step base p input _ Hp options arities n L it_start start_model _ it1 _ _ c _ (all1, d1, pr1));
        [apply H1|done..|]. by destruct st.
    + rewrite Ee in H5. destruct (RelationStore_is_empty d1) eqn:Ed; [lia|].
      destruct (not_empty_spec d1 Ed) as [k Hk]. apply (ss_delta _ _ _ _ _ _ _ _ Hout) in Hk as [Hk|[Hk Hold]]; [by rewrite RelationStore_new_empty in Hk|].
      enough (RelationStore_len (es_all st) + 1 <= RelationStore_len all1) by lia.
      apply (len_grows_new _ _ k); [|done|].
      * intros x Hx. apply (ss_all _ _ _ _ _ _ _ _ Hout). by left.
      * apply (ss_all _ _ _ _ _ _ _ _ Hout). by right.
Qed.

Context (Hmax : max_iterations <= usize_max).

Lemma evaluate_stratum_holds :
  runs (evaluate_stratum env options p (start, iterations0) s) (strata_inv (S n)).
Proof.
  unfold evaluate_stratum. guard_step HF.
  eapply holds_bind; [apply initial_delta_holds, Hstart|]. intros delta Hd.
  eapply holds_bind; [by apply evaluate_nonrecursive_rules_holds|]. intros [st d] Hinv.
  eapply holds_bind.
  - apply (holds_while _ _ 64 _ loop_inv (fun acc => max_iterations - acc.2) (strata_inv (S n)));
      [by apply stratum_round_holds|done|].
    pose proof (ti_iterations _ _ Hstart). cbn [fst snd] in *. unfold usize_max, int_max in Hmax. simpl. lia.
  - intros [acc|r]; [done|]. intros Hr. do 2 guard_step HF. by apply holds_ret.
Qed.
End stratum.

Lemma evaluate_strata_holds (st : Engine_state) :
  0 <= max_stratum p -> max_iterations <= usize_max -> strata_inv 0 (st, 0) ->
  runs (evaluate_strata env options p st) (strata_inv (Z.to_nat (max_stratum p + 1))).
Proof.
  intros H0 Hmax Hst. unfold evaluate_strata. eapply holds_conseq.
  - apply (holds_for_each _ _ _ (fun pre acc => strata_inv (length pre) acc)); [|done].
    intros pre s rest [st' i] Hsplit Hinv. assert (Hs : s = Z.of_nat (length pre)).
    { assert (Hl : seqZ 0 (max_stratum p + 1) !! length pre = Some s) by (rewrite Hsplit; by apply list_lookup_middle).
      apply lookup_seqZ in Hl. lia. }
    assert (Hle : s <= max_stratum p).
    { assert (Hin : s ∈ seqZ 0 (max_stratum p + 1)) by (rewrite Hsplit; set_solver). apply elem_of_seqZ in Hin. lia. }
    subst s. rewrite length_app, Nat.add_comm. cbn [length Nat.add]. by apply evaluate_stratum_holds.
  - intros acc. cbv beta. by rewrite length_seqZ.
Qed.
End engine.
