(* ===== verification/DatalogEngineFacts.v ===== *)
(** * The Datalog engine computes the stratified model

    The entry points of lib/oxdatalog/src/engine.rs: checking and loading the
    input, evaluating the strata, and materializing the result.  One triple
    describes both outcomes: the result of a success, and the reason of every
    failure. *)
From stdpp Require Import gmap.
From Stdlib Require Import Sorted.
From S2P Require Import Prelude MachineInt RustStr BTree RdfModel RdfDisplay DatalogIr.
From S2P Require Import StateResult DatalogValidate DatalogStrataFacts DatalogValidateFacts.
From S2P Require Import DatalogControl DatalogStorage DatalogRules DatalogEngine DatalogSpec.
From S2P Require Import DatalogStratumFacts DatalogControlFacts DatalogStorageFacts.
From S2P Require Import DatalogInternerFacts DatalogJoinFacts DatalogDeriveFacts.
From S2P Require Import DatalogCommitFacts DatalogFixpointFacts.

(** * The stratified model

    The reference semantics is what it should be: the model contains the input,
    is closed under the rules, has no fact without a reason, and is the least
    such set when no rule negates. *)

Lemma max_stratum_spec (p : ValidatedProgram) :
  0 <= max_stratum p /\ forall r s, stratum p r = Some s -> s <= max_stratum p.
Proof.
  unfold stratum, max_stratum.
  apply (map_fold_weak_ind (fun m (strata : gmap RelationId Z) => 0 <= m /\ forall r s, strata !! r = Some s -> s <= m)).
  - split; [lia|]. intros r s. by rewrite lookup_empty.
  - intros i x m z Hi [H0 IH]. split; [lia|]. intros r s [[<- <-]|[Hne Hr]]%lookup_insert_Some; [lia|].
    specialize (IH r s Hr). lia.
Qed.

Section model.
  Context (p : ValidatedProgram) (sk : Skolem) (input : list Fact) (Hp : validated_ok p).

Lemma model_input (f : Fact) : f ∈ input -> model p sk input f.
Proof. intros Hf. unfold model. by apply (model_below_mono p sk input 0); [lia|]. Qed.

(** The facts of a relation are complete after its stratum. *)
Lemma model_stratum (n : nat) (f : Fact) (s : Z) :
  stratum p (f_relation f) = Some s -> model_below p sk input n f -> model_below p sk input (Z.to_nat (s + 1)) f.
Proof.
  intros Hs. assert (H0 : 0 <= s).
  { pose proof (vo_nonneg _ Hp (f_relation f)) as H. unfold stratum, stratum_of in *. by rewrite Hs in H. }
  destruct (decide (n <= Z.to_nat (s + 1))%nat) as [Hle|Hgt]; [by apply model_below_mono|].
  assert (Hge : (Z.to_nat (s + 1) <= n)%nat) by lia. clear Hgt. induction Hge as [|m Hm IH]; [done|].
  intros Hd. destruct (derives_stratum _ _ _ _ _ Hd) as [Hl|Hin]; [by apply IH|].
  unfold in_stratum in Hin. apply bool_decide_eq_true in Hin. rewrite Hs in Hin. simplify_eq. lia.
Qed.

Lemma rule_stratum (r : Rule) :
  r ∈ vp_rules p -> exists n, stratum p (a_relation (r_head r)) = Some (Z.of_nat n) /\ Z.of_nat n <= max_stratum p.
Proof.
  intros Hr. destruct (vo_assigned _ Hp r (r_head r) Hr) as [s Hs]; [by left|].
  pose proof (vo_nonneg _ Hp (a_relation (r_head r))) as H0. unfold stratum_of in H0. rewrite Hs in H0. cbn in H0.
  exists (Z.to_nat s). rewrite Z2Nat.id by done. split; [done|]. by eapply max_stratum_spec.
Qed.

(** A premise of a rule is complete when the rule's stratum is. *)
Lemma premise_below (r : Rule) (a : Atom) (n : nat) (σ : Substitution) (g : Fact) :
  r ∈ vp_rules p -> stratum p (a_relation (r_head r)) = Some (Z.of_nat n) -> a ∈ r_positive_body r ->
  ground_atom σ a = Some g -> model p sk input g -> model_below p sk input (S n) g.
Proof.
  intros Hr Hs Ha Hg HM. destruct (vo_stratified _ Hp r Hr) as [Hpos _]. specialize (Hpos a Ha).
  destruct (vo_assigned _ Hp r a Hr) as [k Hk]; [right; apply elem_of_app; by left|].
  unfold stratum, stratum_of in *. rewrite Hs, Hk in Hpos. cbn in Hpos.
  apply (model_below_mono p sk input (Z.to_nat (k + 1))); [lia|].
  eapply model_stratum; [|exact HM]. by rewrite (ground_atom_relation _ _ _ Hg).
Qed.

(** The model is closed under the rules. *)
Lemma model_closed (r : Rule) (σ : Substitution) (f : Fact) :
  r ∈ vp_rules p -> fires (model p sk input) (model p sk input) r σ -> head_fact sk r σ = Some f -> model p sk input f.
Proof.
  intros Hr [H1 H2 H3] Hf. destruct (rule_stratum r Hr) as (n & Hs & Hle).
  unfold model. apply (model_below_mono p sk input (S n)); [lia|]. cbn [model_below].
  eapply fires_derives; [|split; [done|..]|done].
  - apply list_elem_of_filter. split; [|done]. unfold in_stratum. by apply bool_decide_eq_true.
  - intros a Ha. destruct (H2 a Ha) as (g & Hg & HM). exists g. split; [done|]. by eapply premise_below.
  - intros a Ha. destruct (H3 a Ha) as (g & Hg & HM). exists g. split; [done|]. intros Hb. apply HM.
    eapply model_below_mono; [|exact Hb]. lia.
Qed.

(** A negated atom has the same answer in the model as in the strata below. *)
Lemma negated_model (r : Rule) (a : Atom) (n : nat) (σ : Substitution) (g : Fact) :
  r ∈ stratum_rules p (Z.of_nat n) -> a ∈ r_negative_body r -> ground_atom σ a = Some g -> model p sk input g ->
  model_below p sk input n g.
Proof.
  intros Hr Ha Hg HM. apply list_elem_of_filter in Hr as [Hs Hr]. destruct (vo_stratified _ Hp r Hr) as [_ Hneg].
  specialize (Hneg a Ha). destruct (vo_assigned _ Hp r a Hr) as [k Hk]; [right; apply elem_of_app; by right|].
  unfold in_stratum in Hs. apply bool_decide_eq_true in Hs. unfold stratum, stratum_of in *. rewrite Hs, Hk in Hneg. cbn in Hneg.
  apply (model_below_mono p sk input (Z.to_nat (k + 1))); [lia|].
  eapply model_stratum; [|exact HM]. by rewrite (ground_atom_relation _ _ _ Hg).
Qed.

(** Every fact of the model is given or is the head of an instance that fires. *)
Lemma model_supported (f : Fact) :
  model p sk input f ->
  f ∈ input \/ exists r σ, r ∈ vp_rules p /\ fires (model p sk input) (model p sk input) r σ /\ head_fact sk r σ = Some f.
Proof.
  assert (Hgen : forall n f, Z.of_nat n <= max_stratum p + 1 -> model_below p sk input n f ->
    f ∈ input \/ exists r σ, r ∈ vp_rules p /\ fires (model p sk input) (model p sk input) r σ /\ head_fact sk r σ = Some f).
  { clear f. induction n as [|n IH]; intros f Hn Hf; [by left|]. cbn [model_below] in Hf. destruct Hf as [f Hf|r σ f Hr H1 H2 H3 H4 H5].
    - apply IH; [lia|done].
    - right. exists r, σ. split_and!; [by apply list_elem_of_filter in Hr as [_ Hr]| |done]. split; [done|..].
      + intros a Ha. destruct (H2 a Ha) as [g Hg]. exists g. split; [done|].
        apply (model_below_mono p sk input (S n)); [lia|]. by apply (H3 a).
      + intros a Ha. destruct (H4 a Ha) as (g & Hg & Hn'). exists g. split; [done|]. intros HM. apply Hn'. by eapply negated_model. }
  apply Hgen. pose proof (max_stratum_spec p). lia.
Qed.

(** Without negation it is the least set that contains the input and is closed under the rules. *)
Lemma model_least (M : Fact -> Prop) :
  (forall r, r ∈ vp_rules p -> r_negative_body r = []) ->
  (forall f, f ∈ input -> M f) ->
  (forall r σ f, r ∈ vp_rules p -> fires M M r σ -> head_fact sk r σ = Some f -> M f) ->
  forall f, model p sk input f -> M f.
Proof.
  intros Hneg Hin Hcl. unfold model. induction (Z.to_nat (max_stratum p + 1)) as [|n IH]; [done|].
  cbn [model_below]. intros f. induction 1 as [f Hf|r σ f Hr H1 H2 _ IH3 _ H5]; [by apply IH|].
  apply list_elem_of_filter in Hr as [_ Hr]. eapply Hcl; [done| |done]. split; [done|..].
  - intros a Ha. destruct (H2 a Ha) as [g Hg]. exists g. split; [done|by apply (IH3 a)].
  - intros a. rewrite (Hneg r Hr). by intros ?%elem_of_nil.
Qed.
End model.

(** The model does not depend on the generated blank nodes when no rule generates any. *)
Lemma head_fact_ground (sk sk' : Skolem) (r : Rule) (σ : Substitution) :
  (forall g, PGeneratedBlankNode g ∉ a_terms (r_head r)) -> head_fact sk r σ = head_fact sk' r σ.
Proof.
  unfold head_fact. intros Hg. f_equal. induction (a_terms (r_head r)) as [|t ts IH]; [done|]. cbn [mapM].
  rewrite IH by (intros g Hin; apply (Hg g); by right).
  destruct t; try done. exfalso. eapply Hg. by left.
Qed.

Lemma model_ground (p : ValidatedProgram) (sk sk' : Skolem) (input : list Fact) (f : Fact) :
  (forall r g, r ∈ vp_rules p -> PGeneratedBlankNode g ∉ a_terms (r_head r)) ->
  model p sk input f -> model p sk' input f.
Proof.
  intros Hg. assert (Hone : forall s sk sk' L L', (forall f, L f <-> L' f) -> forall f, derives p sk s L f -> derives p sk' s L' f).
  { clear sk sk' f. intros s sk sk' L L' HL f. induction 1 as [f Hf|r σ f Hr H1 H2 _ IH3 H4 H5]; [by apply derives_lower, HL|].
    eapply (derives_rule _ _ _ _ r σ); [done..|by intros a Ha; setoid_rewrite <- HL; apply H4|].
    rewrite (head_fact_ground sk' sk); [done|]. intros g. apply Hg. by apply list_elem_of_filter in Hr as [_ Hr]. }
  assert (H : forall n f, model_below p sk input n f <-> model_below p sk' input n f); [|apply H].
  induction n as [|n IH]; [done|]. intros g. cbn [model_below]. split; apply Hone; [done|]. intros x. by rewrite IH.
Qed.

(** ** The contract *)

Section contract.
  Context {P : DatalogParams} (env : Environment) (options : EvaluationOptions) (p : ValidatedProgram) (input : list Fact).

Definition generates : Prop := exists r, r ∈ vp_rules p /\ atom_generates (r_head r) = true.

(** Different facts of the model, for some choice of the generated blank nodes. *)
Definition model_facts (fs : list Fact) : Prop := exists sk, NoDup fs /\ forall f, f ∈ fs -> model p sk input f.

(** Why a limit is exceeded. *)
Definition limit_reason (kind : LimitKind) (limit : Z) : Prop :=
  match kind with
  | LimitFacts => limit = el_max_facts (eo_limits options) /\
      (limit < len input \/ exists fs, model_facts fs /\ limit < len fs)
  | LimitIntermediateRows => limit = el_max_intermediate_rows (eo_limits options) /\
      exists fs r, model_facts fs /\ r ∈ vp_rules p /\ limit < len fs ^ Z.of_nat (length (r_positive_body r))
  | LimitIterations => limit = el_max_iterations (eo_limits options) /\
      exists fs, model_facts fs /\ limit <= len fs + max_stratum p
  | LimitMemory => limit = el_max_memory_bytes (eo_limits options) /\ limit < usize_max
  | LimitTerms => limit = int_max U32 /\ (limit < len (interner_values p input) \/ generates)
  | LimitTime => exists timeout n, el_timeout (eo_limits options) = Some timeout /\ timeout <= mo_elapsed (env n) /\
      limit = timeout_millis timeout
  end.

(** Why an evaluation fails; it does not panic and does not run out of labels. *)
Definition failure_reason (e : failure) : Prop :=
  match e with
  | Raised Cancelled => cancel_requested env options
  | Raised (LimitExceeded kind limit) => limit_reason kind limit
  | Raised (InputArity relation expected actual) =>
      expected <> actual /\ (exists f, f ∈ input /\ f_relation f = relation /\ Fact_arity f = actual) /\
      (vp_arities p !! relation = Some expected \/ exists f, f ∈ input /\ f_relation f = relation /\ Fact_arity f = expected)
  | Raised (InputTermLimit actual limit) =>
      limit = el_max_term_bytes (eo_limits options) /\ limit < actual /\
      exists f v, f ∈ input /\ v ∈ f_values f /\ Value_estimated_bytes v = actual
  | Raised (GeneratedTermLimit actual limit) =>
      limit = el_max_term_bytes (eo_limits options) /\ limit < actual /\ generates /\
      exists key j, actual = Value_estimated_bytes (generated_label (str "oxdatalog-" ++ hex_sha256 key) j)
  | Raised GeneratedBlankNodeSpaceExhausted | Raised (EEValidation _) | Panicked => False
  end.

(** The blank nodes the rules that fire generate are new and are told apart by their generation key. *)
Definition generated_by (sk : Skolem) (v : Value) (key : bytes) : Prop :=
  exists r σ g, r ∈ vp_rules p /\ fires (model p sk input) (model p sk input) r σ /\
    PGeneratedBlankNode g ∈ a_terms (r_head r) /\
    v = sk (r_id r) g σ /\ key = value_generation_key (r_id r) g σ.
Record skolem_ok (sk : Skolem) : Prop := {
  sk_fresh : forall v key, generated_by sk v key -> is_blank v /\ v ∉ interner_values p input;
  sk_injective : forall v key key', generated_by sk v key -> generated_by sk v key' -> key = key'
}.

Definition sorted_facts (fs : list Fact) : Prop :=
  StronglySorted (fun f g => leb (Fact_canonical_key f) (Fact_canonical_key g) = true) fs.

Definition provenance_reason (sk : Skolem) (pv : option Provenance) : Prop :=
  match pv with
  | None => eo_track_provenance options = false
  | Some pv => eo_track_provenance options = true /\
      (forall f, is_Some (derivation pv f) <-> model p sk input f /\ f ∉ input) /\
      (forall f d, derivation pv f = Some d -> justified sk (vp_rules p) (model p sk input) f d) /\
      (forall f, model p sk input f -> explained input (pv_derivations pv) f)
  end.

(** The result for the choice [sk] of the generated blank nodes. *)
Record result_ok (sk : Skolem) (r : EvaluationResult) : Prop := {
  ro_skolem : skolem_ok sk;
  ro_facts : forall f, f ∈ er_facts r <-> model p sk input f;
  ro_derived : forall f, f ∈ er_derived_facts r <-> model p sk input f /\ f ∉ input;
  ro_nodup : NoDup (er_facts r) /\ NoDup (er_derived_facts r);
  ro_sorted : sorted_facts (er_facts r) /\ sorted_facts (er_derived_facts r);
  ro_provenance : provenance_reason sk (er_provenance r);
  ro_limits : len (er_facts r) <= Z.max 0 (el_max_facts (eo_limits options)) /\
    0 <= er_iterations r <= Z.max 0 (el_max_iterations (eo_limits options)) /\
    er_peak_estimated_working_set_bytes r <= Z.max 0 (el_max_memory_bytes (eo_limits options));
  ro_iterations : er_iterations r <= len (er_facts r) + max_stratum p + 1
}.
End contract.

Section engine.
  Context {P : DatalogParams} (env : Environment) (options : EvaluationOptions) (p : ValidatedProgram) (input : list Fact).
  Context (Hp : validated_ok p).
Abbreviation F := (failure_reason env options p input).
Abbreviation runs := (holds (exec_ok env options) F).
Abbreviation base := (fun v => v ∈ interner_values p input).

Lemma failure_guard_errors : guard_errors env options F.
Proof. split; simpl; [done| |done]. intros timeout Ht [n Hn]. by exists timeout, n. Qed.

Lemma failure_limit_errors : limit_errors options F base p input.
Proof.
  split.
  - intros it fs _ Hnd Hfs Hlim. split; [done|]. right. exists fs. split; [|done]. by exists (sk_of it).
  - intros it fs r _ Hnd Hfs Hr Hlim. split; [done|]. exists fs, r. split; [|done]. by exists (sk_of it).
  - intros it fs _ Hnd Hfs Hlim. split; [done|]. exists fs. split; [|done]. by exists (sk_of it).
  - intros r Hr Hg. split; [split; [done|right; by exists r]|]. intros key j actual Ha. split_and!; [done|done|by exists r|by exists key, j].
Qed.

Let HF := failure_guard_errors.

(** ** The input *)

Lemma accept_facts_holds :
  runs (for_each (accept_fact env options) [] input)
    (fun fs => fs = input /\ len input <= Z.max 0 (el_max_facts (eo_limits options))).
Proof.
  apply (holds_for_each _ _ _ (fun pre fs => fs = pre /\ len pre <= Z.max 0 (el_max_facts (eo_limits options)))).
  - intros pre f rest fs Hsplit [-> Hlen]. unfold accept_fact. guard_step HF. destruct (_ >=? _) eqn:E; bool_to_prop.
    + apply raise_holds. split; [done|]. left. rewrite Hsplit. unfold len in *. rewrite length_app. cbn. lia.
    + eapply holds_bind; [by apply (get_memory_holds _ _ _ (fun _ => True))|]. intros m _. do 2 guard_step HF. apply holds_ret.
      split; [done|]. unfold len in *. rewrite length_app. cbn. lia.
  - split; [done|]. unfold len. simpl. lia.
Qed.

(** The arities of the program and of the facts seen. *)
Record input_arities (fs : list Fact) (arities : gmap RelationId Z) : Prop := {
  ao_program : vp_arities p ⊆ arities;
  ao_fact : forall f, f ∈ fs -> arities !! f_relation f = Some (Fact_arity f);
  ao_known : forall r k, arities !! r = Some k ->
    vp_arities p !! r = Some k \/ exists f, f ∈ fs /\ f_relation f = r /\ Fact_arity f = k
}.

Lemma input_arities_snoc (fs : list Fact) (arities : gmap RelationId Z) (f : Fact) :
  input_arities fs arities -> (forall k, arities !! f_relation f = Some k -> k = Fact_arity f) ->
  input_arities (fs ++ [f]) (<[f_relation f := Fact_arity f]> arities).
Proof.
  intros [H1 H2 H3] Hf. split.
  - apply map_subseteq_spec. intros r k Hk. apply lookup_insert_Some.
    destruct (decide (f_relation f = r)) as [<-|Hne]; [left|right; split; [done|by eapply lookup_weaken]].
    split; [done|]. symmetry. apply Hf. by eapply lookup_weaken.
  - intros g [Hg| ->%list_elem_of_singleton]%elem_of_app; [|apply lookup_insert_eq].
    apply lookup_insert_Some. destruct (decide (f_relation f = f_relation g)) as [E|Hne]; [left|right; auto].
    split; [done|]. symmetry. apply Hf. rewrite E. auto.
  - intros r k [[<- <-]|[Hne [Hk|(g & Hg & Hr & Ha)]%H3]]%lookup_insert_Some; [right|by left|right].
    + exists f. set_solver.
    + exists g. set_solver.
Qed.

Lemma validate_value_holds (f : Fact) :
  f ∈ input -> runs (for_each (validate_value env options) tt (f_values f)) (fun _ => True).
Proof.
  intros Hf. apply (holds_for_each_inv _ _ _ (fun _ => True)); [|done]. intros v [] Hv _. unfold validate_value.
  guard_step HF. destruct (_ >? _) eqn:E; bool_to_prop; [|by apply holds_ret].
  apply raise_holds. split_and!; [done|lia|]. by exists f, v.
Qed.

Lemma validate_input_holds :
  runs (validate_input env options p input) (fun _ => exists arities, input_arities input arities).
Proof.
  unfold validate_input. eapply holds_bind.
  - apply (holds_for_each _ _ _ input_arities).
    + intros pre f rest ar Hsplit Har. assert (Hf : f ∈ input) by (rewrite Hsplit; set_solver). unfold validate_fact. guard_step HF.
      eapply holds_bind; [instantiate (1 := fun _ => forall k, ar !! f_relation f = Some k -> k = Fact_arity f)|].
      { destruct (ar !! f_relation f) as [k|] eqn:E; [|by apply holds_ret]. destruct (k =? Fact_arity f) eqn:Ek; bool_to_prop;
          [apply holds_ret; naive_solver|]. apply raise_holds. split_and!; [done|by exists f|].
        destruct (ao_known _ _ Har _ _ E) as [?|(g & Hg & ?)]; [by left|right]. exists g. rewrite Hsplit. set_solver. }
      intros u Hk. eapply holds_bind; [by apply validate_value_holds|]. intros _ _. apply holds_ret. by apply input_arities_snoc.
    + split; [done|by intros f ?%elem_of_nil|by left].
  - intros ar Har. apply holds_ret. eauto.
Qed.

(** ** Loading *)

Record loaded (it : Interner) (arities : gmap RelationId Z) (fs : list Fact) (acc : RelationStore * gset FactKey) : Prop := {
  lo_wf : store_wf arities acc.1;
  lo_facts : forall f, holds_in it acc.1 f <-> f ∈ fs;
  lo_canon : store_canon it acc.1;
  lo_base : forall k, k ∈ acc.2 <-> contains_key acc.1 k = true;
  lo_len : RelationStore_len acc.1 <= len fs
}.

Lemma holds_in_key (it : Interner) (store : RelationStore) (f : Fact) (key : FactKey) :
  encode_fact it f = Some key -> holds_in it store f <-> contains_key store key = true.
Proof. intros E. unfold holds_in. split; [intros (k & Hk & Hc); congruence|eauto]. Qed.

Lemma load_fact_holds (it : Interner) (arities : gmap RelationId Z) (pre : list Fact) (f : Fact) (acc : RelationStore * gset FactKey) :
  interner_ok base it -> input_arities input arities -> f ∈ input -> loaded it arities pre acc ->
  runs (load_fact env options it acc f) (loaded it arities (pre ++ [f])).
Proof.
  intros ok Har Hf [H1 H2 H3 H4 H5]. destruct acc as [all ks]. cbn [fst snd] in *. unfold load_fact. guard_step HF.
  assert (Hkey : exists key, encode_fact it f = Some key).
  { unfold encode_fact. destruct (mapM (Interner_id it) (f_values f)) as [t|] eqn:E; [by eexists|].
    apply mapM_None, list.Exists_exists in E as (v & Hv & Hn). destruct (io_base _ _ ok v) as [i Hi]; [|unfold Interner_id in Hn; congruence].
    apply elem_of_app. left. apply list_elem_of_bind. eauto. }
  destruct Hkey as [key Hkey]. eapply holds_bind; [apply (unwrap_holds _ _ _ _ key (fun k => k = key) Hkey eq_refl)|]. intros k ->.
  eapply holds_bind; [instantiate (1 := fun _ => True); case_decide; [by apply holds_ret|]|].
  { eapply holds_bind; [by apply (get_memory_holds _ _ _ (fun _ => True))|]. intros m _. do 2 guard_step HF. by apply observe_holds. }
  intros _ _. pose proof (proj1 (encode_decode ok f key) Hkey) as [Hcan _].
  assert (Hko : key_ok arities key).
  { unfold key_ok. apply bind_Some in Hkey as (t & Ht & [= <-]). cbn [fst snd]. rewrite (ao_fact _ _ Har f Hf).
    unfold Fact_arity, len. by rewrite (length_mapM _ _ _ Ht). }
  destruct (insert_key_spec arities all key H1 Hko) as (all' & I1 & W1 & C1 & _).
  eapply holds_bind; [apply (unwrap_holds _ _ _ _ _ (fun r => r.1 = all') I1 eq_refl)|]. intros [d b] E. cbn in E. subst d.
  apply holds_ret. split; cbn [fst snd]; [done|..].
  - intros g. rewrite elem_of_app, list_elem_of_singleton, <- H2. unfold holds_in. setoid_rewrite C1. split.
    + intros (k & Hk & [->|Hc]); [right|left; eauto]. apply (encode_decode ok) in Hk as [_ Hk], Hkey as [_ Hkey]. congruence.
    + intros [(k & Hk & Hc)| ->]; eauto.
  - intros k [->|Hk]%C1; [done|by apply H3].
  - intros k. rewrite C1, elem_of_union, elem_of_singleton, H4. done.
  - pose proof (len_insert_key _ _ _ C1). unfold len in *. rewrite length_app. cbn. lia.
Qed.

Lemma load_facts_holds (it : Interner) (arities : gmap RelationId Z) :
  interner_ok base it -> input_arities input arities ->
  runs (for_each (load_fact env options it) (RelationStore_new (vp_arities p), ∅) input) (loaded it arities input).
Proof.
  intros ok Har. apply (holds_for_each _ _ _ (loaded it arities)).
  - intros pre f rest acc Hsplit Hl. apply load_fact_holds; [done|done|rewrite Hsplit; set_solver|done].
  - split; cbn [fst snd].
    + apply empty_store_wf; [done|apply Har].
    + intros f. unfold holds_in. setoid_rewrite RelationStore_new_empty. rewrite elem_of_nil. naive_solver.
    + intros k. by rewrite RelationStore_new_empty.
    + intros k. rewrite RelationStore_new_empty. set_solver.
    + rewrite <- length_keys. destruct (keys _) as [|k l] eqn:E; [done|].
      assert (Hk : k ∈ keys (RelationStore_new (vp_arities p))) by (rewrite E; by left).
      apply elem_of_keys in Hk. by rewrite RelationStore_new_empty in Hk.
Qed.

(** The strata start from the input. *)
Lemma loaded_inv (it : Interner) (arities : gmap RelationId Z) (acc : RelationStore * gset FactKey) :
  interner_ok base it -> input_arities input arities -> loaded it arities input acc ->
  len input <= Z.max 0 (el_max_facts (eo_limits options)) ->
  strata_inv options base arities p input it 0
    (mkState it acc.1 (if eo_track_provenance options then Some Provenance_default else None), 0).
Proof.
  intros ok Har [H1 H2 H3 H4 H5] Hlen. split; cbn [fst snd es_interner es_all].
  - apply extends_refl.
  - by split.
  - intros itF _ _ f. apply H2.
  - unfold tracked. destruct (eo_track_provenance options); cbn [es_provenance]; [|done]. split; [done|]. split; cbn [Provenance_default pv_derivations].
    + intros f Hf. apply explained_input. by apply H2.
    + intros f d. by rewrite lookup_empty.
    + intros f d itF. by rewrite lookup_empty.
  - lia.
  - lia.
  - pose proof (len_nonneg (keys acc.1)) as Hk. rewrite length_keys in Hk. lia.
Qed.

(** ** Generated blank nodes *)

Lemma new_label (ids : gmap Value TermId) : exists v, is_blank v /\ ids !! v = None.
Proof.
  set (label := fun j => generated_label (str "oxdatalog-" ++ []) j).
  destruct (decide (Exists (fun j => ids !! label j = None) (seqZ 0 (Z.of_nat (S (size ids)))))) as [Hx|Hx].
  - apply list.Exists_exists in Hx as (j & _ & Hj). exists (label j). split; [|done]. subst label. cbv beta.
    rewrite generated_label_named. by eexists.
  - exfalso. apply (free_label ids []). intros j Hj. apply not_eq_None_Some. intros E. apply Hx, list.Exists_exists. exists j.
    split; [|done]. apply elem_of_seqZ. lia.
Qed.

(** The head of an instance that fires is a fact. *)
Lemma head_fact_defined (sk : Skolem) (r : Rule) (σ : Substitution) :
  r ∈ vp_rules p -> dom σ = body_variables (r_positive_body r) -> is_Some (head_fact sk r σ).
Proof.
  intros Hr Hdom. unfold head_fact. apply fmap_is_Some, mapM_is_Some_2, list.Forall_forall. intros t Ht.
  destruct t as [x|v|g]; cbn [head_term ground_term]; [|by eexists..].
  apply elem_of_dom. rewrite Hdom. apply elem_of_body_variables, (safe_head r (vo_safe _ Hp r Hr)), elem_of_atom_variables, Ht.
Qed.

Section generated.
  Context (st : Engine_state) (ok : interner_ok base (es_interner st)).
  Hypothesis st_model : forall itF, interner_ok base itF -> extends (es_interner st) itF ->
    forall f, Facts st f <-> model p (sk_of itF) input f.
Abbreviation it := (es_interner st).

Lemma fires_model (itF : Interner) (r : Rule) (σ : Substitution) :
  interner_ok base itF -> extends it itF -> fires (model p (sk_of it) input) (model p (sk_of it) input) r σ ->
  fires (model p (sk_of itF) input) (model p (sk_of itF) input) r σ.
Proof.
  intros okF HeF [H1 H2 H3]. pose proof (extends_refl it) as Hr. split; [done|..].
  - intros a Ha. destruct (H2 a Ha) as (g & Hg & HM). exists g. split; [done|]. apply (st_model itF okF HeF). by apply (st_model it ok Hr).
  - intros a Ha. destruct (H3 a Ha) as (g & Hg & HM). exists g. split; [done|]. intros HF'. apply HM.
    apply (st_model it ok Hr). by apply (st_model itF okF HeF).
Qed.

(** Every blank node of an instance that fires has been generated. *)
Lemma generated_known (r : Rule) (σ : Substitution) (g : BlankNodeGenerator) :
  r ∈ vp_rules p -> fires (model p (sk_of it) input) (model p (sk_of it) input) r σ ->
  PGeneratedBlankNode g ∈ a_terms (r_head r) ->
  is_Some (it_generated it !! value_generation_key (r_id r) g σ).
Proof.
  intros Hr Hf Hg. apply not_eq_None_Some. intros Hnone. destruct (new_label (it_ids it)) as (v & Hblank & Hv).
  destruct (generate_ok base it _ v 0 ok Hnone Hv Hblank) as [okF HeF].
  match type of okF with interner_ok _ ?x => set (itF := x) in * end.
  destruct (head_fact_defined (sk_of itF) r σ Hr (fires_dom _ _ _ _ Hf)) as [f Hhead].
  assert (HM : Facts st f).
  { apply (st_model itF okF HeF). eapply model_closed; [done|exact Hr|by apply fires_model|done]. }
  assert (Hin : v ∈ f_values f).
  { unfold head_fact in Hhead. apply fmap_Some in Hhead as (vs & Hvs & ->). cbn [f_values]. apply mapM_Some in Hvs.
    apply list_elem_of_lookup in Hg as [i Hi]. destruct (Forall2_lookup_l _ _ _ _ _ Hvs Hi) as (w & Hw & Ew).
    cbn [head_term] in Ew. unfold sk_of in Ew. subst itF. cbn [it_generated] in Ew.
    rewrite lookup_insert_eq in Ew. cbn [mbind option_bind] in Ew. rewrite value_at_snoc in Ew. simplify_eq. by eapply list_elem_of_lookup_2. }
  destruct HM as (key & Hkey & _). apply bind_Some in Hkey as (t & Ht & _). apply mapM_Some in Ht.
  apply list_elem_of_lookup in Hin as [i Hi]. destruct (Forall2_lookup_l _ _ _ _ _ Ht Hi) as (x & _ & Ex).
  unfold Interner_id in Ex. congruence.
Qed.

Lemma generated_value (v : Value) (key : bytes) :
  generated_by p input (sk_of it) v key ->
  exists i, it_generated it !! key = Some i /\ it_ids it !! v = Some i /\ is_blank v /\ ~ base v.
Proof.
  intros (r & σ & g & Hr & Hf & Hg & -> & ->). destruct (generated_known r σ g Hr Hf Hg) as [i Hi]. exists i. split; [done|].
  destruct (io_generated _ _ ok _ _ Hi) as (v & Hv & Hb & Hn).
  assert (sk_of it (r_id r) g σ = v) as ->; [|done]. unfold sk_of. rewrite Hi. cbn [mbind option_bind].
  by rewrite (proj2 (io_ids _ _ ok _ _ Hv)).
Qed.

Lemma generated_skolem_ok : skolem_ok p input (sk_of it).
Proof.
  split.
  - intros v key (i & _ & _ & Hb & Hn)%generated_value. done.
  - intros v key key' (i & Hi & Hv & _)%generated_value (j & Hj & Hv' & _)%generated_value.
    assert (j = i) as -> by congruence. by eapply (io_injective _ _ ok).
Qed.
End generated.

(** ** The result *)

Lemma output_facts_holds (it : Interner) (ks : list FactKey) (fs : list Fact) :
  mapM (decode_fact it) ks = Some fs ->
  runs (for_each (output_fact env options it) [] ks) (fun out => out = fs).
Proof.
  intros Hfs. eapply holds_conseq.
  - apply (holds_for_each _ _ _ (fun pre out => mapM (decode_fact it) pre = Some out)); [|done].
    intros pre k rest out Hsplit Hout. unfold output_fact. guard_step HF.
    assert (Hk : exists f, decode_fact it k = Some f).
    { apply mapM_Some in Hfs. assert (Hi : ks !! length pre = Some k) by (rewrite Hsplit; by apply list_lookup_middle).
      destruct (Forall2_lookup_l _ _ _ _ _ Hfs Hi) as (f & _ & Hf). eauto. }
    destruct Hk as [f Hf]. eapply holds_bind; [apply (unwrap_holds _ _ _ _ f (fun g => g = f) Hf eq_refl)|]. intros g ->.
    eapply holds_bind; [by apply (get_memory_holds _ _ _ (fun _ => True))|]. intros m _. do 2 guard_step HF. apply holds_ret.
    apply mapM_Some in Hout. apply mapM_Some, Forall2_app; [done|]. by constructor.
  - intros out Hout. cbv beta in Hout. congruence.
Qed.

(** The keys that were not loaded are the facts that are not given. *)
Lemma derived_keys (it0 it : Interner) (arities : gmap RelationId Z) (acc : RelationStore * gset FactKey) (all : RelationStore) :
  interner_ok base it0 -> interner_ok base it -> extends it0 it -> loaded it0 arities input acc -> store_canon it all ->
  exists fs, mapM (decode_fact it) (filter (fun k => k ∉ acc.2) (keys all)) = Some fs /\ NoDup fs /\
    forall f, f ∈ fs <-> holds_in it all f /\ f ∉ input.
Proof.
  intros ok0 ok He Hl Hcan. destruct (NoDup_decode base it (filter (fun k => k ∉ acc.2) (keys all)) ok) as (fs & H1 & H2 & _ & H4).
  { apply list.NoDup_filter, NoDup_keys. }
  { intros k [_ Hk]%list_elem_of_filter. by apply Hcan, elem_of_keys. }
  exists fs. split_and!; [done|done|]. intros f. rewrite H4.
  assert (Hkey : forall k, Forall (canon it) k.2 -> decode_fact it k = Some f -> k ∈ acc.2 <-> f ∈ input).
  { intros k Hk Hf. rewrite (lo_base _ _ _ _ Hl), <- (lo_facts _ _ _ _ Hl). split.
    - intros Hc. destruct (decode_canon ok0 k) as [f0 Hf0]; [by apply (lo_canon _ _ _ _ Hl)|].
      pose proof (extends_decode _ _ _ _ He Hf0) as E. assert (f0 = f) as -> by congruence.
      exists k. split; [|done]. apply (encode_decode ok0). split; [by apply (lo_canon _ _ _ _ Hl)|done].
    - intros (k' & Hk' & Hc). pose proof (extends_encode _ _ _ _ He Hk') as E.
      assert (encode_fact it f = Some k) by (by apply (encode_decode ok)). congruence. }
  split.
  - intros (k & [Hn Hk%elem_of_keys]%list_elem_of_filter & Hf). split.
    + exists k. split; [|done]. apply (encode_decode ok). split; [by apply Hcan|done].
    + rewrite <- (Hkey k); [done|by apply Hcan|done].
  - intros [(k & Hk & Hc) Hn]. apply (encode_decode ok) in Hk as [Hk Hf]. exists k. split; [|done].
    apply list_elem_of_filter. split; [by rewrite (Hkey k)|by apply elem_of_keys].
Qed.

Lemma tracked_reason (N : Z) (st : Engine_state) :
  interner_ok base (es_interner st) -> (forall f, Facts st f <-> model p (sk_of (es_interner st)) input f) ->
  tracked base p input (eo_track_provenance options) N st ->
  provenance_reason options p input (sk_of (es_interner st)) (es_provenance st).
Proof.
  intros ok HM. unfold tracked, provenance_reason. destruct (es_provenance st) as [pv|]; [|done].
  intros [Ht [H1 H2 H3]]. split_and!; [done|..].
  - intros f. rewrite <- HM. split; [intros [d Hd]; by apply (H2 f d)|]. intros [Hf Hn].
    destruct (H1 f Hf) as [f Hin|f d Hd _]; [done|by exists d].
  - intros f d Hd. pose proof (supported_justified _ _ _ _ _ _ (H3 f d _ Hd ok (extends_refl _))) as (r & σ & ps & gs & J).
    exists r, σ, ps, gs. destruct J as (J1 & J2 & J3 & J4 & J5 & J6 & J7 & J8). split_and!; try done;
      (eapply List.Forall_impl; [|eassumption]); intros g; rewrite <- HM; done.
  - intros f Hf. by apply H1, HM.
Qed.

Lemma peak_holds : runs peak_estimated_bytes (fun peak => peak <= Z.max 0 (el_max_memory_bytes (eo_limits options))).
Proof. intros s Hs. split; [done|apply Hs]. Qed.

Lemma elapsed_holds : runs (elapsed env) (fun _ => True).
Proof. by intros s Hs. Qed.

Lemma evaluate_validated_with_guard_holds :
  el_max_iterations (eo_limits options) <= usize_max ->
  runs (evaluate_validated_with_guard env options p input) (fun r => exists sk, result_ok options p input sk r).
Proof.
  intros Hmax. unfold evaluate_validated_with_guard. guard_step HF.
  eapply holds_bind; [apply accept_facts_holds|]. intros fs [-> Hlen]. guard_step HF.
  eapply holds_bind; [apply validate_input_holds|]. intros u [arities Har].
  eapply holds_bind; [apply (Interner_new_holds env options F HF p input); intros Hl; split; [done|by left]|].
  intros it0 [ok0 _]. do 3 guard_step HF.
  eapply holds_bind; [by apply load_facts_holds|]. intros [all0 keys0] Hl. do 2 guard_step HF.
  eapply holds_bind.
  { apply (evaluate_strata_holds env options F HF base arities p input Hp (ao_program _ _ Har)) with (it0 := it0);
      [|apply failure_limit_errors|apply max_stratum_spec|done|by apply (loaded_inv it0 arities (all0, keys0))].
    intros r a v Hr Ha Hv. apply elem_of_app. right. apply list_elem_of_bind. exists r. split; [|done].
    apply list_elem_of_bind. eauto. }
  intros [st iterations] [He Hd HM Htr Hfacts Hit Hbound]. cbn [fst snd] in *. do 2 guard_step HF.
  pose proof Hd as [ok Hw Hcan]. pose proof (HM _ ok (extends_refl _)) as HM1.
  destruct (facts_listed base arities _ _ Hd) as (fs & Hfs & Hnd & Hlen' & Hin).
  destruct (derived_keys it0 _ arities (all0, keys0) (es_all st) ok0 ok He Hl Hcan) as (ds & Hds & Hndd & Hdin).
  eapply holds_bind; [by apply output_facts_holds|]. intros out ->. do 2 guard_step HF.
  eapply holds_bind; [by apply output_facts_holds|]. intros out ->. do 2 guard_step HF.
  eapply holds_bind; [apply elapsed_holds|]. intros el _.
  eapply holds_bind; [apply peak_holds|]. intros peak Hpeak. apply holds_ret.
  exists (sk_of (es_interner st)). split; cbn [er_facts er_derived_facts er_provenance er_iterations er_peak_estimated_working_set_bytes].
  - by apply generated_skolem_ok.
  - intros f. rewrite elem_of_sort_by, Hin. apply HM1.
  - intros f. rewrite elem_of_sort_by, Hdin. pose proof (HM1 f) as E. unfold Facts in E. by rewrite E.
  - split; by apply NoDup_sort_by.
  - split; apply sort_by_sorted.
  - eapply tracked_reason; [done|done|exact Htr].
  - unfold len in *. rewrite length_sort_by. split_and!; [lia|lia|lia|done].
  - unfold len in *. rewrite length_sort_by. pose proof (proj1 (max_stratum_spec p)). lia.
Qed.
End engine.
