(* ===== verification/DatalogCorrectness.v ===== *)
(** * Correctness of the Datalog engine

    The properties of the entry points [Engine::evaluate] and
    [Engine::evaluate_validated] of lib/oxdatalog/src/engine.rs, from the triple
    of the evaluation and the agreement of the controlled validation. *)
From stdpp Require Import gmap.
From S2P Require Import Prelude MachineInt RustStr BTree RdfModel RdfDisplay DatalogIr.
From S2P Require Import StateResult DatalogValidate DatalogStrataFacts DatalogValidateFacts.
From S2P Require Import DatalogControl DatalogStorage DatalogRules DatalogEngine.
From S2P Require Import DatalogControlFacts DatalogStorageFacts DatalogInternerFacts.
From S2P Require Import DatalogJoinFacts DatalogSpec DatalogDeriveFacts DatalogCommitFacts.
From S2P Require Import DatalogStratumFacts DatalogFixpointFacts.
From S2P Require Import DatalogEngineFacts.

Lemma validate_ok (program : Program) (limits : ValidationLimits) (p : ValidatedProgram) :
  len (program_atoms (p_rules program)) < 2 ^ 31 -> validate program limits = Ok p ->
  vp_rules p = sort_by r_id (p_rules program) /\ validated_ok p.
Proof.
  intros Hsize Hp. destruct program as [rules]. cbn [p_rules] in *. unfold validate in Hp.
  pose proof (validate_with_control_checks (fun u : unit => @Ok Empty_set unit u) limits rules Hsize tt I) as Hv.
  destruct (validate_with_control _ limits (mkProgram rules) tt) as [[q []]|[e|[]]]; simplify_eq. by destruct Hv as [_ (H1 & H2 & _)].
Qed.

Lemma fires_ext (M M' : Fact -> Prop) (r : Rule) (σ : Substitution) :
  (forall f, M f <-> M' f) -> fires M M r σ -> fires M' M' r σ.
Proof.
  intros H [H1 H2 H3]. split; [done|..].
  - intros a Ha. destruct (H2 a Ha) as (g & Hg & HM). exists g. split; [done|]. by apply H.
  - intros a Ha. destruct (H3 a Ha) as (g & Hg & HM). exists g. split; [done|]. by rewrite <- H.
Qed.

(** ** The memory limit

    Every part of the evaluation follows the one without the memory limit. *)

Section memory_limit.
  Context {P : DatalogParams} (env : Environment) (options : EvaluationOptions).
Abbreviation unlimited := (without_memory_limit options).
Abbreviation sim := (simulates options).

Lemma simulates_Interner_new (p : ValidatedProgram) (facts : list Fact) :
  sim (Interner_new env options p facts) (Interner_new env unlimited p facts).
Proof. unfold Interner_new, push_value. simulate. Qed.

Lemma simulates_find_label (it : Interner) (base : bytes) (suffix : Z) (count : nat) :
  sim (find_label env options it base suffix count) (find_label env unlimited it base suffix count).
Proof. revert suffix. induction count as [|count IH]; intros suffix; cbn [find_label]; simulate. Qed.
#[local] Hint Resolve simulates_Interner_new simulates_find_label : memory_limit.

Lemma simulates_generate_blank_node (it : Interner) (rule : RuleId) (g : BlankNodeGenerator) (b : Binding) :
  sim (generate_blank_node env options it rule g b) (generate_blank_node env unlimited it rule g b).
Proof. unfold generate_blank_node. simulate. Qed.
#[local] Hint Resolve simulates_generate_blank_node : memory_limit.

Lemma simulates_CandidateSet_insert (c : CandidateSet) (key : FactKey) (d : Derivation) :
  sim (CandidateSet_insert env options c key d) (CandidateSet_insert env unlimited c key d).
Proof. unfold CandidateSet_insert. simulate. Qed.
Lemma simulates_retain_new (c : CandidateSet) (all : RelationStore) :
  sim (retain_new env options c all) (retain_new env unlimited c all).
Proof. unfold retain_new. simulate. Qed.
Lemma simulates_join_body (dp : option nat) (all delta : RelationStore) (it : Interner) (position : nat)
  (body : list Atom) (states : list (gmap VarName Z * list FactKey)) (bytes : Z) :
  sim (join_body env options dp all delta it position body states bytes)
    (join_body env unlimited dp all delta it position body states bytes).
Proof.
  revert position states bytes. induction body as [|a body IH]; intros position states bytes; cbn [join_body];
    unfold join_state, join_tuple; simulate.
Qed.
Lemma simulates_absent (negative : list Atom) (b : Binding) (all : RelationStore) (it : Interner) (absent : list Fact) :
  sim (ground_absent_premises env options negative b all it absent)
    (ground_absent_premises env unlimited negative b all it absent).
Proof. revert absent. induction negative as [|a negative IH]; intros absent; cbn [ground_absent_premises]; simulate. Qed.
Lemma simulates_instantiate_head (rule : RuleId) (terms : list PatternTerm) (b : Binding) (it : Interner) :
  sim (instantiate_head env options rule terms b it) (instantiate_head env unlimited rule terms b it).
Proof.
  revert it. induction terms as [|t terms IH]; intros it; cbn [instantiate_head]; unfold instantiate_term; simulate.
Qed.
#[local] Hint Resolve simulates_CandidateSet_insert simulates_retain_new simulates_join_body simulates_absent
  simulates_instantiate_head : memory_limit.

Lemma simulates_evaluate_rule_join (r : Rule) (dp : option nat) (all delta : RelationStore) (it : Interner) (c : CandidateSet) :
  sim (evaluate_rule_join env options r dp all delta it c) (evaluate_rule_join env unlimited r dp all delta it c).
Proof. unfold evaluate_rule_join, derive_state, decode_premise. simulate. Qed.
Lemma simulates_commit_candidates (c : CandidateSet) (all delta : RelationStore) (target : DeltaTarget)
  (it : Interner) (pv : option Provenance) :
  sim (commit_candidates env options c all delta target it pv) (commit_candidates env unlimited c all delta target it pv).
Proof.
  unfold commit_candidates, commit_candidate, set_delta_target, project_provenance, insert_provenance. simulate.
Qed.
#[local] Hint Resolve simulates_evaluate_rule_join simulates_commit_candidates : memory_limit.

Lemma simulates_stratum_round (p : ValidatedProgram) (s : Z) (st : Engine_state * RelationStore * Z) :
  sim (stratum_round env options p s st) (stratum_round env unlimited p s st).
Proof. unfold stratum_round, evaluate_recursive_rule, evaluate_position, evaluate_rule. simulate. Qed.
#[local] Hint Resolve simulates_stratum_round : memory_limit.

Lemma simulates_evaluate_strata (p : ValidatedProgram) (st : Engine_state) :
  sim (evaluate_strata env options p st) (evaluate_strata env unlimited p st).
Proof.
  unfold evaluate_strata, evaluate_stratum, initial_delta, insert_delta, evaluate_nonrecursive_rules, evaluate_rule_once.
  simulate.
Qed.
#[local] Hint Resolve simulates_evaluate_strata : memory_limit.

(** The result reports the peak of the guard. *)
Definition reports_peak (m : M EvaluationResult) : Prop :=
  forall s r s', m s = Ok (r, s') -> er_peak_estimated_working_set_bytes r = x_peak s'.

Lemma reports_peak_bind {A : Type} (m : M A) (f : A -> M EvaluationResult) :
  (forall a, reports_peak (f a)) -> reports_peak (m ≫= f).
Proof. intros Hf s r s' (a & s1 & _ & H)%ST_bind_Ok. by eapply Hf. Qed.

Lemma guard_reports_peak (o : EvaluationOptions) (p : ValidatedProgram) (facts : list Fact) :
  reports_peak (evaluate_validated_with_guard env o p facts).
Proof.
  unfold evaluate_validated_with_guard. cbv zeta.
  repeat lazymatch goal with
    | |- reports_peak (peak_estimated_bytes ≫= _) => fail
    | |- reports_peak (_ ≫= _) => apply reports_peak_bind; intros ?
    | _ => case_match
    end.
  intros s res s' (peak & s1 & E & E')%ST_bind_Ok. injection E as <- <-. by injection E' as <- <-.
Qed.

Lemma simulates_guard (p : ValidatedProgram) (facts : list Fact) :
  sim (evaluate_validated_with_guard env options p facts) (evaluate_validated_with_guard env unlimited p facts).
Proof.
  assert (Hpeak : sim peak_estimated_bytes peak_estimated_bytes).
  { apply simulates_same. intros s a s' E. by injection E as _ <-. }
  unfold evaluate_validated_with_guard, accept_fact, DatalogEngine.validate_input, validate_fact, validate_value,
    load_fact, output_fact. simulate.
Qed.

(** The validation only asks the guard to check. *)
Lemma simulates_validate_program (limits : ValidationLimits) (program : Program) :
  sim (validate_program env options limits program) (validate_program env unlimited limits program).
Proof.
  apply (simulates_same _ (validate_program env options limits program)). intros s p s'. unfold validate_program.
  pose proof (validate_with_control_agrees (check_state env options) limits (fun s' => x_peak s <= x_peak s') (fun _ => True)) as H.
  assert (Hc : forall s1, x_peak s <= x_peak s1 ->
    match check_state env options s1 with Ok s2 => x_peak s <= x_peak s2 | Err _ => True end).
  { intros s1 Hs1. unfold check_state. pose proof (fo_peak _ _ _ _ (simulates_check env options s1)) as Hp.
    change (check env unlimited s1) with (check env options s1) in Hp.
    destruct (check env options s1) as [[[] s2]|]; [|done]. specialize (Hp _ _ eq_refl). exact (Z.le_trans _ _ _ Hs1 Hp). }
  specialize (H Hc program s (Z.le_refl _)).
  destruct (validate_with_control (check_state env options) limits program s) as [[q s1]|[]]; intros E; [|done..].
  injection E as _ <-. apply H.
Qed.

(** A run that the memory limit does not end is the run without it; otherwise the
    run without it does not end within the limit. *)
Lemma Engine_evaluate_unlimited (limits : ValidationLimits) (program : Program) (facts : list Fact) :
  let limited := Engine_evaluate env options limits program facts in
  let run := Engine_evaluate env unlimited limits program facts in
  limited = run \/
  limited = Err (memory_failure options) /\
  forall r, run = Ok r -> el_max_memory_bytes (eo_limits options) < estimated_memory_bytes r.
Proof.
  cbv zeta. unfold Engine_evaluate. change (Exec_new unlimited) with (Exec_new options).
  set (m := check env options;; _). set (n := check env unlimited;; _).
  assert (Hpeak : reports_peak n).
  { subst n. do 3 (apply reports_peak_bind; intros ?). apply guard_reports_peak. }
  assert (Hsim : sim m n).
  { pose proof simulates_guard. pose proof simulates_validate_program. subst m n. simulate. }
  destruct (Hsim (Exec_new options)) as [_ [->|[-> H]]]; [by left|right]. split; [done|].
  intros r Hr. destruct (n (Exec_new options)) as [[r' s']|e] eqn:E; [|done]. injection Hr as <-.
  unfold estimated_memory_bytes. rewrite (Hpeak _ _ _ E). by eapply H.
Qed.
End memory_limit.

Section engine.
  Context {P : DatalogParams} (env : Environment) (options : EvaluationOptions).

(** The guard interrupts: a cancellation was asked for, or the time is over. *)
Definition interrupted (e : failure) : Prop :=
  match e with
  | Raised Cancelled => cancel_requested env options
  | Raised (LimitExceeded LimitTime limit) =>
      exists timeout n, el_timeout (eo_limits options) = Some timeout /\ timeout <= mo_elapsed (env n) /\
        limit = timeout_millis timeout
  | _ => False
  end.

(** Why [Engine::evaluate] fails. *)
Definition engine_failure (limits : ValidationLimits) (program : Program) (facts : list Fact) (e : failure) : Prop :=
  match e with
  | Raised (EEValidation error) => validate program limits = Err error
  | _ => interrupted e \/ exists p, validate program limits = Ok p /\ failure_reason env options p facts e
  end.

Lemma interrupted_failure (limits : ValidationLimits) (program : Program) (facts : list Fact) (e : failure) :
  interrupted e -> engine_failure limits program facts e.
Proof. destruct e as [[]|]; try done; by left. Qed.

Lemma check_interrupts (s : Exec) :
  exec_ok env options s ->
  match check_state env options s with Ok s' => exec_ok env options s' | Err e => interrupted e end.
Proof.
  intros Hs. unfold check_state, check.
  pose proof (is_cancelled_spec env options (x_now s) (x_token s) (xo_token _ _ _ Hs) (xo_check _ _ _ Hs)) as Hc.
  destruct (is_cancelled env (x_now s) (x_token s)) as [[] t']; destruct Hc as (Hb & Ht & Hk); [by apply Hb|].
  pose proof (xo_peak _ _ _ Hs) as Hpk.
  destruct (el_timeout (eo_limits options)) as [timeout|] eqn:Et; [|by split].
  destruct (timed_out _ _) eqn:E; [|by split]. unfold timed_out in E. bool_to_prop. exists timeout, (x_now s). split_and!; [done|lia|done].
Qed.

Lemma check_runs (F : failure -> Prop) (Q : unit -> Prop) :
  (forall e, interrupted e -> F e) -> Q tt -> holds (exec_ok env options) F (check env options) Q.
Proof.
  intros HF HQ s Hs. pose proof (check_interrupts s Hs) as H. unfold check_state in H.
  destruct (check env options s) as [[[] s']|e]; [by split|by apply HF].
Qed.

(** ** Both entry points *)

Lemma evaluate_validated_outcome (p : ValidatedProgram) (facts : list Fact) :
  validated_ok p -> el_max_iterations (eo_limits options) <= usize_max ->
  match evaluate_validated env options p facts with
  | Ok r => exists sk, result_ok options p facts sk r
  | Err e => failure_reason env options p facts e
  end.
Proof.
  intros Hp Hmax. unfold evaluate_validated.
  assert (H : holds (exec_ok env options) (failure_reason env options p facts)
    (check env options;; evaluate_validated_with_guard env options p facts) (fun r => exists sk, result_ok options p facts sk r)).
  { eapply holds_bind; [apply (check_runs _ (fun _ => True)); [|done]|intros _ _; by apply evaluate_validated_with_guard_holds].
    intros [[| | | | | |[]]|]; done. }
  specialize (H _ (Exec_new_ok env options)). revert H. generalize (check env options;; evaluate_validated_with_guard env options p facts) as m.
  intros m. destruct (m (Exec_new options)) as [[r s]|e]; [|done]. by intros [_ H].
Qed.

Lemma Engine_evaluate_outcome (limits : ValidationLimits) (program : Program) (facts : list Fact) :
  len (program_atoms (p_rules program)) < 2 ^ 31 -> el_max_iterations (eo_limits options) <= usize_max ->
  match Engine_evaluate env options limits program facts with
  | Ok r => exists p sk, validate program limits = Ok p /\ validated_ok p /\ result_ok options p facts sk r
  | Err e => engine_failure limits program facts e
  end.
Proof.
  intros Hsize Hmax. unfold Engine_evaluate.
  match goal with |- match fst <$> ?c (Exec_new options) with _ => _ end => set (m := c) end.
  assert (H : holds (exec_ok env options) (engine_failure limits program facts) m
    (fun r => exists p sk, validate program limits = Ok p /\ validated_ok p /\ result_ok options p facts sk r)).
  { pose proof (interrupted_failure limits program facts) as Hint. subst m.
    eapply holds_bind; [by apply (check_runs _ (fun _ => True))|]. intros _ _.
    eapply holds_bind; [instantiate (1 := fun p => validate program limits = Ok p)|].
    { intros s Hs. unfold validate_program.
      pose proof (validate_with_control_agrees (check_state env options) limits _ interrupted check_interrupts program s Hs) as Hv.
      destruct (validate_with_control (check_state env options) limits program s) as [[p s']|[e|e]]; auto. }
    intros p Hp. cbv beta in Hp. eapply holds_bind; [by apply (check_runs _ (fun _ => True))|]. intros _ _.
    destruct (validate_ok program limits p Hsize Hp) as [_ Hok].
    intros s Hs. pose proof (evaluate_validated_with_guard_holds env options p facts Hok Hmax s Hs) as He.
    destruct (evaluate_validated_with_guard env options p facts s) as [[r s']|e].
    - destruct He as [Hs' [sk Hr]]. split; [done|]. by exists p, sk.
    - destruct e as [[]|]; try done; right; by exists p. }
  specialize (H _ (Exec_new_ok env options)). destruct (m (Exec_new options)) as [[r s]|e]; [|done]. by destruct H.
Qed.
End engine.

(** ** Properties *)

Section properties.
  Context {P : DatalogParams} (env : Environment) (options : EvaluationOptions).

(** The artifact has the rules of the program. *)
Lemma validated_rule (limits : ValidationLimits) (program : Program) (p : ValidatedProgram) (q : Rule) :
  len (program_atoms (p_rules program)) < 2 ^ 31 -> validate program limits = Ok p ->
  q ∈ p_rules program -> q ∈ vp_rules p.
Proof. intros Hsize Hp Hq. rewrite (proj1 (validate_ok program limits p Hsize Hp)). by apply elem_of_sort_by. Qed.

(** C8. When [Engine::evaluate] succeeds the program is valid, the facts of the
    result are exactly the stratified model of the program over the input, the derived facts
    are those that were not given, both without repetition in the order of their
    canonical key; the blank nodes that rules generate occur nowhere in the
    input or the program, and two of them are the same only for the same rule,
    generator and texts of the bound values. *)
Theorem Engine_evaluate_model (limits : ValidationLimits) (program : Program) (facts : list Fact) (r : EvaluationResult) :
  len (program_atoms (p_rules program)) < 2 ^ 31 -> el_max_iterations (eo_limits options) <= usize_max ->
  Engine_evaluate env options limits program facts = Ok r ->
  exists p sk, validate program limits = Ok p /\ skolem_ok p facts sk /\
    (forall q g σ q' g' σ', let M := model p sk facts in
       q ∈ p_rules program -> fires M M q σ -> PGeneratedBlankNode g ∈ a_terms (r_head q) ->
       q' ∈ p_rules program -> fires M M q' σ' -> PGeneratedBlankNode g' ∈ a_terms (r_head q') ->
       sk (r_id q) g σ = sk (r_id q') g' σ' ->
       r_id q = r_id q' /\ g = g' /\ sort_key <$> σ = sort_key <$> σ') /\
    (forall f, f ∈ er_facts r <-> model p sk facts f) /\
    (forall f, f ∈ er_derived_facts r <-> model p sk facts f /\ f ∉ facts) /\
    NoDup (er_facts r) /\ NoDup (er_derived_facts r) /\
    sorted_facts (er_facts r) /\ sorted_facts (er_derived_facts r).
Proof.
  intros Hsize Hmax Hr. pose proof (Engine_evaluate_outcome env options limits program facts Hsize Hmax) as H. rewrite Hr in H.
  destruct H as (p & sk & Hp & _ & [H1 H2 H3 [H4 H5] [H6 H7] _ _]). exists p, sk.
  split_and!; [done..| |done|done|done|done|done|done]. cbv zeta. intros q g σ q' g' σ' Hq Hf Hg Hq' Hf' Hg' E.
  apply value_generation_key_inj, (sk_injective _ _ _ H1 (sk (r_id q) g σ)).
  - exists q, σ, g. split_and!; [|done..]. by eapply validated_rule.
  - exists q', σ', g'. split_and!; [|done..]. by eapply validated_rule.
Qed.


(** The input the engine accepts. *)
Record input_ok (p : ValidatedProgram) (facts : list Fact) : Prop := {
  io_count : len facts <= el_max_facts (eo_limits options);
  io_arities : forall f g, f ∈ facts -> g ∈ facts -> f_relation f = f_relation g -> Fact_arity f = Fact_arity g;
  io_program : forall f k, f ∈ facts -> vp_arities p !! f_relation f = Some k -> k = Fact_arity f;
  io_terms : forall f v, f ∈ facts -> v ∈ f_values f -> Value_estimated_bytes v <= el_max_term_bytes (eo_limits options);
  io_values : len (interner_values p facts) <= int_max U32
}.

(** The limits leave room for a model of [n] facts. *)
Record room_for (p : ValidatedProgram) (n : Z) : Prop := {
  rf_facts : n <= el_max_facts (eo_limits options);
  rf_rows : forall r, r ∈ vp_rules p -> n ^ Z.of_nat (length (r_positive_body r)) <= el_max_intermediate_rows (eo_limits options);
  rf_iterations : n + max_stratum p < el_max_iterations (eo_limits options);
  rf_memory : 0 <= el_max_memory_bytes (eo_limits options);
  rf_time : forall timeout n, el_timeout (eo_limits options) = Some timeout -> mo_elapsed (env n) < timeout
}.

Lemma no_limit_reason (p : ValidatedProgram) (facts : list Fact) (n : Z) (sk : Skolem) (kind : LimitKind) (limit : Z) :
  input_ok p facts -> room_for p n -> ~ generates p ->
  (forall fs, NoDup fs -> (forall f, f ∈ fs -> model p sk facts f) -> len fs <= n) ->
  ~ limit_reason env (without_memory_limit options) p facts kind limit.
Proof.
  intros [I1 _ _ _ I5] [R1 R2 R3 R4 R5] Hgen Hn.
  assert (Hfs : forall fs, model_facts p facts fs -> 0 <= len fs <= n).
  { intros fs (sk' & Hnd & Hfs). split; [apply len_nonneg|]. apply Hn; [done|]. intros f Hf. eapply model_ground; [|by apply Hfs].
    intros r g Hr. apply atom_generates_false, not_true_is_false. intros Hg. apply Hgen. by exists r. }
  destruct kind; simpl.
  - intros [-> [H|(fs & Hm & H)]]; [|apply Hfs in Hm]; lia.
  - intros [-> (fs & r & Hm%Hfs & Hr & H)]. specialize (R2 r Hr).
    pose proof (Z.pow_le_mono_l (len fs) n (Z.of_nat (length (r_positive_body r))) Hm). lia.
  - intros [-> (fs & Hm%Hfs & H)]. lia.
  - intros [-> H]. by apply Z.lt_irrefl in H.
  - intros [-> [H|H]]; [|done]. apply (Z.lt_irrefl (int_max U32)), (Z.lt_le_trans _ _ _ H I5).
  - intros (timeout & k & Ht & H & _). specialize (R5 timeout k Ht). lia.
Qed.

(** Without the limit of memory the evaluation has no reason to fail. *)
Lemma Engine_evaluate_within (limits : ValidationLimits) (program : Program) (facts : list Fact)
  (p : ValidatedProgram) (sk : Skolem) (n : Z) :
  len (program_atoms (p_rules program)) < 2 ^ 31 -> el_max_iterations (eo_limits options) <= usize_max ->
  validate program limits = Ok p -> ~ generates p -> input_ok p facts -> room_for p n ->
  ~ cancel_requested env options ->
  (forall fs, NoDup fs -> (forall f, f ∈ fs -> model p sk facts f) -> len fs <= n) ->
  exists r, Engine_evaluate env (without_memory_limit options) limits program facts = Ok r.
Proof.
  intros Hsize Hmax Hp Hgen Hin Hroom Hcan Hn. set (o := without_memory_limit options).
  pose proof (Engine_evaluate_outcome env o limits program facts Hsize Hmax) as H.
  destruct (Engine_evaluate env o limits program facts) as [r|e]; [by exists r|exfalso].
  assert (Hlim : forall kind limit, ~ limit_reason env o p facts kind limit) by (intros kind limit; by eapply no_limit_reason).
  assert (Hreason : ~ failure_reason env o p facts e).
  { destruct Hin as [_ I2 I3 I4 _]. destruct e as [[v|rel x y|a l|a l| | |kind l]|]; simpl; try done; try (by intros []); try by intros (_ & _ & ? & _).
    - intros (Hne & (f & Hf & <- & <-) & [Hk|(g & Hg & Hr & <-)]); apply Hne; [by apply I3|by apply I2].
    - intros (-> & Hl & f & v & Hf & Hv & <-). specialize (I4 f v Hf Hv). apply (Z.lt_irrefl (Value_estimated_bytes v)). by eapply Z.le_lt_trans. }
  assert (Hint : ~ interrupted env o e) by (destruct e as [[| | | | | |[]]|]; try done; try (by intros []); apply (Hlim LimitTime)).
  assert (Hout : interrupted env o e \/ exists q, validate program limits = Ok q /\ failure_reason env o q facts e).
  { destruct e as [[]|]; try exact H. simpl in H. congruence. }
  destruct Hout as [Hi|(q & Hq & Hf)]; [by apply Hint|]. apply Hreason. by assert (q = p) as -> by congruence.
Qed.

(** C10. [Engine::evaluate] succeeds: a valid program that generates no blank
    nodes, over an input that fits, with nobody cancelling and limits that
    leave room for its model, is evaluated to a result without a limit of memory;
    and with any limit of memory to the same result, exactly when the estimate the
    result reports is within the limit. *)
Theorem Engine_evaluate_completes (limits : ValidationLimits) (program : Program) (facts : list Fact)
  (p : ValidatedProgram) (sk : Skolem) (n : Z) :
  len (program_atoms (p_rules program)) < 2 ^ 31 -> el_max_iterations (eo_limits options) <= usize_max ->
  validate program limits = Ok p -> ~ generates p -> input_ok p facts -> room_for p n ->
  ~ cancel_requested env options ->
  (forall fs, NoDup fs -> (forall f, f ∈ fs -> model p sk facts f) -> len fs <= n) ->
  exists r, Engine_evaluate env (without_memory_limit options) limits program facts = Ok r /\
    Engine_evaluate env options limits program facts =
      if estimated_memory_bytes r <=? el_max_memory_bytes (eo_limits options) then Ok r
      else Err (Raised (LimitExceeded LimitMemory (el_max_memory_bytes (eo_limits options)))).
Proof.
  intros Hsize Hmax Hp Hgen Hin Hroom Hcan Hn.
  destruct (Engine_evaluate_within limits program facts p sk n) as [r Hr]; [done..|].
  exists r. split; [done|]. pose proof (Engine_evaluate_unlimited env options limits program facts) as Hm. cbv zeta in Hm.
  rewrite Hr in Hm. destruct Hm as [Hm|[Hm Hlt]].
  - pose proof (Engine_evaluate_outcome env options limits program facts Hsize Hmax) as Ho. rewrite Hm in Ho |- *.
    destruct Ho as (q & sk' & _ & _ & Hro). pose proof (ro_limits _ _ _ _ _ Hro) as (_ & _ & Hpeak).
    pose proof (rf_memory _ _ Hroom). unfold estimated_memory_bytes. destruct (Z.leb_spec (er_peak_estimated_working_set_bytes r) (el_max_memory_bytes (eo_limits options))); [done|lia].
  - specialize (Hlt r eq_refl). rewrite Hm. destruct (Z.leb_spec (estimated_memory_bytes r) (el_max_memory_bytes (eo_limits options))); [lia|done].
Qed.

(** C13. The provenance of a successful evaluation explains its facts: exactly the
    derived facts have a derivation, each is an instance of a rule whose
    premises are in the model and whose absent premises are not, and following the
    premises always ends in the input. *)
Theorem Engine_evaluate_provenance (limits : ValidationLimits) (program : Program) (facts : list Fact) (r : EvaluationResult) :
  len (program_atoms (p_rules program)) < 2 ^ 31 -> el_max_iterations (eo_limits options) <= usize_max ->
  Engine_evaluate env options limits program facts = Ok r ->
  match er_provenance r with
  | None => eo_track_provenance options = false
  | Some pv => eo_track_provenance options = true /\
      (forall f, is_Some (derivation pv f) <-> f ∈ er_derived_facts r) /\
      (exists sk, forall f d, derivation pv f = Some d ->
         justified sk (sort_by r_id (p_rules program)) (fun g => g ∈ er_facts r) f d) /\
      (forall f, f ∈ er_facts r -> explained facts (pv_derivations pv) f)
  end.
Proof.
  intros Hsize Hmax Hr. pose proof (Engine_evaluate_outcome env options limits program facts Hsize Hmax) as H. rewrite Hr in H.
  destruct H as (p & sk & Hp & _ & [_ H2 H3 _ _ H6 _]). unfold provenance_reason in H6.
  assert (Hrules : vp_rules p = sort_by r_id (p_rules program)) by (by eapply validate_ok).
  destruct (er_provenance r) as [pv|]; [|done]. destruct H6 as (Ht & J1 & J2 & J3). split_and!; [done|..].
  - intros f. by rewrite J1, H3.
  - exists sk. intros f d Hd. destruct (J2 f d Hd) as (q & σ & ps & gs & K1 & K2 & K3 & K4 & K5 & K6 & K7 & K8).
    rewrite <- Hrules. exists q, σ, ps, gs. split_and!; try done; (eapply List.Forall_impl; [|eassumption]); intros g; cbv beta; by rewrite H2.
  - intros f. rewrite H2. apply J3.
Qed.

(** C15. A successful evaluation is within its limits: the facts, the iterations
    and the peak of the memory estimate; the iterations are also bounded by the
    number of facts and of strata. *)
Theorem Engine_evaluate_limits (limits : ValidationLimits) (program : Program) (facts : list Fact) (r : EvaluationResult) :
  len (program_atoms (p_rules program)) < 2 ^ 31 -> el_max_iterations (eo_limits options) <= usize_max ->
  Engine_evaluate env options limits program facts = Ok r ->
  len (er_facts r) <= Z.max 0 (el_max_facts (eo_limits options)) /\
  0 <= er_iterations r <= Z.max 0 (el_max_iterations (eo_limits options)) /\
  estimated_memory_bytes r <= Z.max 0 (el_max_memory_bytes (eo_limits options)) /\
  exists p, validate program limits = Ok p /\ er_iterations r <= len (er_facts r) + max_stratum p + 1.
Proof.
  intros Hsize Hmax Hr. pose proof (Engine_evaluate_outcome env options limits program facts Hsize Hmax) as H. rewrite Hr in H.
  destruct H as (p & sk & Hp & _ & [_ _ _ _ _ _ (H1 & H2 & H3) H4]). split_and!; [lia..|done|]. by exists p.
Qed.

(** C14. The result is closed under the rules and contains nothing without a
    reason; without negation it is the least set of facts that contains the
    input and is closed under the rules. *)
Theorem Engine_evaluate_fixpoint (limits : ValidationLimits) (program : Program) (facts : list Fact) (r : EvaluationResult) :
  len (program_atoms (p_rules program)) < 2 ^ 31 -> el_max_iterations (eo_limits options) <= usize_max ->
  Engine_evaluate env options limits program facts = Ok r ->
  exists sk, let M f := f ∈ er_facts r in
    (forall f, f ∈ facts -> M f) /\
    (forall rule σ f, rule ∈ p_rules program -> fires M M rule σ -> head_fact sk rule σ = Some f -> M f) /\
    (forall f, M f -> f ∈ facts \/
       exists rule σ, rule ∈ p_rules program /\ fires M M rule σ /\ head_fact sk rule σ = Some f) /\
    ((forall rule, rule ∈ p_rules program -> is_positive rule = true) ->
     forall M' : Fact -> Prop, (forall f, f ∈ facts -> M' f) ->
       (forall rule σ f, rule ∈ p_rules program -> fires M' M' rule σ -> head_fact sk rule σ = Some f -> M' f) ->
       forall f, M f -> M' f).
Proof.
  intros Hsize Hmax Hr. pose proof (Engine_evaluate_outcome env options limits program facts Hsize Hmax) as H. rewrite Hr in H.
  destruct H as (p & sk & Hp & Hok & [_ H2 _ _ _ _ _]). exists sk. cbv zeta.
  assert (Hrules : forall q, q ∈ vp_rules p <-> q ∈ p_rules program).
  { intros q. rewrite (proj1 (validate_ok program limits p Hsize Hp)). apply elem_of_sort_by. }
  split_and!.
  - intros f Hf. apply H2. by apply model_input.
  - intros q σ f Hq Hf Hh. apply H2. eapply model_closed; [done|by apply Hrules| |done]. by eapply fires_ext; [|exact Hf].
  - intros f Hf. apply H2, (model_supported p sk facts Hok) in Hf as [Hf|(q & σ & Hq & Hf & Hh)]; [by left|right].
    exists q, σ. split_and!; [by apply Hrules| |done]. eapply fires_ext; [|exact Hf]. intros g. by rewrite H2.
  - intros Hpos M' HM1 HM2 f Hf. apply (model_least p sk facts M'); [|done| |by apply H2].
    + intros q Hq%Hrules. specialize (Hpos q Hq). unfold is_positive in Hpos. by destruct (r_negative_body q).
    + intros q σ g Hq%Hrules. by apply HM2.
Qed.

(** C16. [Engine::evaluate_validated] on the artifact of a validation: the
    stratified model with its provenance within the limits, or an error with its
    reason. *)
Theorem evaluate_validated_spec (limits : ValidationLimits) (program : Program) (p : ValidatedProgram) (facts : list Fact) :
  len (program_atoms (p_rules program)) < 2 ^ 31 -> el_max_iterations (eo_limits options) <= usize_max ->
  validate program limits = Ok p ->
  match evaluate_validated env options p facts with
  | Ok r => exists sk, result_ok options p facts sk r
  | Err e => failure_reason env options p facts e
  end.
Proof.
  intros Hsize Hmax Hp. apply evaluate_validated_outcome; [|done]. by eapply validate_ok.
Qed.
End properties.

(** ** Samples *)

(** Parameters, an environment in which nothing happens, and two options. *)
#[local] Instance sample_params : DatalogParams := {| size_of := fun _ => 24; hex_sha256 := fun _ => str "digest" |}.
Definition calm : Environment := fun _ => mkMoment false false 0.
Definition sample_options (max_facts : Z) : EvaluationOptions :=
  mkEvaluationOptions (mkEvaluationLimits max_facts 1000 1000 usize_max 1000 None) true CancellationToken_new.
Definition sample_facts : list Fact :=
  [ fact "edge" [node "a"; node "b"]; fact "edge" [node "b"; node "c"];
    fact "node" [node "a"]; fact "node" [node "b"]; fact "node" [node "c"] ].

Abbreviation sample_outcome max_facts :=
  (Engine_evaluate calm (sample_options max_facts) ValidationLimits_default sample_program sample_facts) (only parsing).

Lemma sample_size : len (program_atoms (p_rules sample_program)) < 2 ^ 31.
Proof. vm_compute. reflexivity. Qed.
Lemma sample_iterations (max_facts : Z) : el_max_iterations (eo_limits (sample_options max_facts)) <= usize_max.
Proof. vm_compute. discriminate. Qed.

(** Five facts in; three paths, six pairs apart and a gap for each of them out. *)
Lemma sample_evaluates :
  match sample_outcome 1000 with
  | Ok r => (len (er_facts r), len (er_derived_facts r), er_iterations r) = (20, 15, 5)
  | Err _ => False
  end.
Proof. vm_compute. reflexivity. Qed.

Lemma sample_result : exists r, sample_outcome 1000 = Ok r.
Proof. pose proof sample_evaluates as H. destruct (sample_outcome 1000) as [r|e]; [by exists r|destruct H]. Qed.

Lemma Engine_evaluate_model_witness :
  exists r, sample_outcome 1000 = Ok r /\
    exists p sk, validate sample_program ValidationLimits_default = Ok p /\ skolem_ok p sample_facts sk /\
      forall f, f ∈ er_facts r <-> model p sk sample_facts f.
Proof.
  destruct sample_result as [r E].
  exists r. split; [exact E|].
  destruct (Engine_evaluate_model calm (sample_options 1000) ValidationLimits_default sample_program sample_facts r sample_size (sample_iterations _) E) as (p & sk & H1 & H2 & _ & H3 & _).
  exists p, sk. split; [exact H1|]. split; [exact H2|exact H3].
Defined.



Lemma Engine_evaluate_provenance_witness :
  exists r pv, sample_outcome 1000 = Ok r /\ er_provenance r = Some pv /\
    forall f, is_Some (derivation pv f) <-> f ∈ er_derived_facts r.
Proof.
  destruct sample_result as [r E].
  pose proof (Engine_evaluate_provenance calm (sample_options 1000) ValidationLimits_default sample_program sample_facts r sample_size (sample_iterations _) E) as Hp.
  destruct (er_provenance r) as [pv|] eqn:Epv; [|discriminate Hp]. exists r, pv. split; [exact E|]. split; [exact Epv|]. exact (proj1 (proj2 Hp)).
Defined.

Lemma Engine_evaluate_limits_witness :
  exists r, sample_outcome 1000 = Ok r /\ len (er_facts r) <= 1000 /\ 0 <= er_iterations r <= 1000.
Proof.
  destruct sample_result as [r E].
  destruct (Engine_evaluate_limits calm (sample_options 1000) ValidationLimits_default sample_program sample_facts r sample_size (sample_iterations _) E) as (H1 & H2 & _).
  exists r. split; [exact E|]. split; [exact H1|exact H2].
Defined.

Lemma Engine_evaluate_fixpoint_witness :
  exists r sk, sample_outcome 1000 = Ok r /\
    forall rule σ f, rule ∈ p_rules sample_program -> fires (fun g => g ∈ er_facts r) (fun g => g ∈ er_facts r) rule σ ->
      head_fact sk rule σ = Some f -> f ∈ er_facts r.
Proof.
  destruct sample_result as [r E].
  destruct (Engine_evaluate_fixpoint calm (sample_options 1000) ValidationLimits_default sample_program sample_facts r sample_size (sample_iterations _) E) as (sk & _ & H2 & _).
  exists r, sk. split; [exact E|exact H2].
Defined.

Lemma sample_validated : exists p r, validate sample_program ValidationLimits_default = Ok p /\
  evaluate_validated calm (sample_options 1000) p sample_facts = Ok r.
Proof.
  assert (H : match validate sample_program ValidationLimits_default with
    | Ok p => is_ok (evaluate_validated calm (sample_options 1000) p sample_facts) = true | Err _ => False end) by (vm_compute; reflexivity).
  destruct (validate sample_program ValidationLimits_default) as [p|e]; [|destruct H]. exists p.
  destruct (evaluate_validated calm (sample_options 1000) p sample_facts) as [r|e]; [|discriminate H]. by exists r.
Qed.

Lemma evaluate_validated_spec_witness :
  exists p r sk, validate sample_program ValidationLimits_default = Ok p /\
    evaluate_validated calm (sample_options 1000) p sample_facts = Ok r /\ result_ok (sample_options 1000) p sample_facts sk r.
Proof.
  destruct sample_validated as (p & r & Hp & E).
  pose proof (evaluate_validated_spec calm (sample_options 1000) ValidationLimits_default sample_program p sample_facts
    sample_size (sample_iterations _) Hp) as Hs.
  rewrite E in Hs. destruct Hs as [sk Hs]. exists p, r, sk. split; [exact Hp|]. split; [exact E|exact Hs].
Defined.

(** The rules of the sample for paths, over its edges. *)
Definition path_program : Program := mkProgram (take 2 (p_rules sample_program)).
Definition path_facts : list Fact := take 2 sample_facts.

Lemma path_size : len (program_atoms (p_rules path_program)) < 2 ^ 31.
Proof. vm_compute. reflexivity. Qed.

Definition path_checks (p : ValidatedProgram) : bool :=
  forallb (fun r => negb (atom_generates (r_head r)) && (5 ^ Z.of_nat (length (r_positive_body r)) <=? 1000)) (vp_rules p)
  && forallb (fun f => bool_decide (vp_arities p !! f_relation f = Some (Fact_arity f)) &&
                       forallb (fun v => Value_estimated_bytes v <=? 1000) (f_values f)) path_facts
  && (len (interner_values p path_facts) <=? int_max U32) && (max_stratum p <=? 10).

Lemma path_accepted :
  match validate path_program ValidationLimits_default with Ok p => path_checks p = true | Err _ => False end.
Proof. vm_compute. reflexivity. Qed.

(** A limit of memory that is enough. *)
Definition memory_options (memory : Z) : EvaluationOptions :=
  mkEvaluationOptions (mkEvaluationLimits 1000 1000 1000 memory 1000 None) true CancellationToken_new.
Abbreviation path_outcome memory :=
  (Engine_evaluate calm (memory_options memory) ValidationLimits_default path_program path_facts) (only parsing).

Lemma path_fits : match path_outcome usize_max with Ok r => estimated_memory_bytes r <=? 100000 = true | Err _ => False end.
Proof. vm_compute. reflexivity. Qed.

Lemma path_ok (p : ValidatedProgram) :
  path_checks p = true -> ~ generates p /\ input_ok (memory_options 100000) p path_facts /\ room_for calm (memory_options 100000) p 5.
Proof.
  unfold path_checks. rewrite !andb_true_iff, !forallb_forall, !Z.leb_le. intros [[[Hr Hf] Hv] Hm].
  setoid_rewrite <- list_elem_of_In in Hr. setoid_rewrite <- list_elem_of_In in Hf. split_and!.
  - intros (r & Hin & Hg). specialize (Hr r Hin). rewrite Hg in Hr. done.
  - assert (Har : forall f, f ∈ path_facts -> vp_arities p !! f_relation f = Some (Fact_arity f)).
    { intros f Hin. specialize (Hf f Hin). apply andb_true_iff in Hf as [Hf _]. by apply bool_decide_eq_true in Hf. }
    split; [by vm_compute| | | |done].
    + intros f g Hin Hin' E. apply Har in Hin, Hin'. congruence.
    + intros f k Hin E. apply Har in Hin. congruence.
    + intros f v Hin Hv'. specialize (Hf f Hin). apply andb_true_iff in Hf as [_ Hf]. rewrite forallb_forall in Hf.
      apply Z.leb_le, Hf. by apply list_elem_of_In.
  - split; [by vm_compute| | |by vm_compute|done].
    + intros r Hin. specialize (Hr r Hin). apply andb_true_iff in Hr as [_ Hr]. by apply Z.leb_le.
    + cbn [memory_options eo_limits el_max_iterations]. lia.
Qed.

Lemma path_runs : exists p sk r,
  validate path_program ValidationLimits_default = Ok p /\ path_checks p = true /\
  len (er_facts r) = 5 /\ result_ok (sample_options 1000) p path_facts sk r.
Proof.
  assert (Hrun : match Engine_evaluate calm (sample_options 1000) ValidationLimits_default path_program path_facts with
    | Ok r => len (er_facts r) = 5 | Err _ => False end) by (vm_compute; reflexivity).
  pose proof (Engine_evaluate_outcome calm (sample_options 1000) ValidationLimits_default path_program path_facts path_size (sample_iterations _)) as Ho.
  pose proof path_accepted as Hacc.
  destruct (Engine_evaluate calm (sample_options 1000) ValidationLimits_default path_program path_facts) as [r|e]; [|destruct Hrun].
  destruct Ho as (p & sk & Hp & _ & Hr). rewrite Hp in Hacc. exists p, sk, r.
  split; [exact Hp|]. split; [exact Hacc|]. split; [exact Hrun|exact Hr].
Qed.

Lemma Engine_evaluate_completes_witness :
  exists r, path_outcome usize_max = Ok r /\ path_outcome 100000 = Ok r.
Proof.
  destruct path_runs as (p & sk & r & Hp & Hacc & Hlen & Hr). destruct (path_ok p Hacc) as (H1 & H2 & H3).
  destruct (Engine_evaluate_completes calm (memory_options 100000) ValidationLimits_default path_program path_facts p sk 5
    path_size (sample_iterations 1000) Hp H1 H2 H3) as (r' & Hu & Hm).
  - intros [H|(n & [H|[H|H]])]; discriminate H.
  - intros fs Hnd Hfs. rewrite <- Hlen. unfold len. apply inj_le, NoDup_incl_length; [by apply NoDup_ListNoDup|].
    intros f Hf. apply list_elem_of_In. apply (ro_facts _ _ _ _ _ Hr). by apply Hfs, list_elem_of_In.
  - exists r'. split; [exact Hu|]. pose proof path_fits as Hfit. change (path_outcome usize_max = Ok r') in Hu.
    rewrite Hu in Hfit. etrans; [exact Hm|]. change (el_max_memory_bytes (eo_limits (memory_options 100000))) with 100000.
    rewrite Hfit. reflexivity.
Defined.
