(* ===== verification/OxInterning.v ===== *)
(** * Interned terms of in-memory datasets

    lib/oxrdf/src/interning.rs: the strings of a dataset are kept once, under
    their hash; terms are trees of such keys with the derived order.  [Key] and
    [InternedNamedNode] are newtypes of [u64]; here they are the number.  A
    [HashMap] that is indexed panics when the key is missing: [None].  The hash
    function of [RandomState] is a parameter. *)
From stdpp Require Import gmap.
From S2P Require Import Prelude MachineInt RustStr BTree RdfModel RdfDisplay.

Definition u64_max : Z := int_max U64.

Class InternerParams := { hash_one : bytes -> Z }.

(** ** Interned terms *)

Abbreviation Key := Z (only parsing).
Definition Key_first : Key := 0.
Definition Key_next (k : Key) : Key := Z.min (k + 1) u64_max.
Definition Key_impossible : Key := u64_max.

Abbreviation InternedNamedNode := Z (only parsing).

Inductive InternedBlankNode : Set :=
| IBNumber (id : Z)
| IBOther (id : Key).
Definition IB_next (n : InternedBlankNode) : InternedBlankNode :=
  match n with
  | IBNumber id => IBNumber (Z.min (id + 1) (int_max U128))
  | IBOther id => IBOther (Key_next id)
  end.

Inductive InternedLiteral : Set :=
| ILString (value_id : Key)
| ILLanguageTaggedString (value_id language_id : Key)
| ILDirectionalLanguageTaggedString (value_id language_id : Key) (is_ltr : bool)
| ILTypedLiteral (value_id : Key) (datatype : InternedNamedNode).
Definition IL_next (l : InternedLiteral) : InternedLiteral :=
  match l with
  | ILString v => ILString (Key_next v)
  | ILLanguageTaggedString v l => ILLanguageTaggedString v (Key_next l)
  | ILDirectionalLanguageTaggedString v l is_ltr =>
      ILDirectionalLanguageTaggedString v (if is_ltr then Key_next l else l) (negb is_ltr)
  | ILTypedLiteral v d => ILTypedLiteral v (Key_next d)
  end.

Inductive InternedNamedOrBlankNode : Set :=
| INNamedNode (node : InternedNamedNode)
| INBlankNode (node : InternedBlankNode).
Definition IN_first : InternedNamedOrBlankNode := INNamedNode Key_first.
Definition IN_next (n : InternedNamedOrBlankNode) : InternedNamedOrBlankNode :=
  match n with
  | INNamedNode n => INNamedNode (Key_next n)
  | INBlankNode n => INBlankNode (IB_next n)
  end.
Definition IN_impossible : InternedNamedOrBlankNode := INNamedNode Key_impossible.

Inductive InternedGraphName : Set :=
| IGDefaultGraph
| IGNamedNode (node : InternedNamedNode)
| IGBlankNode (node : InternedBlankNode).
Definition IG_first : InternedGraphName := IGDefaultGraph.
Definition IG_next (g : InternedGraphName) : InternedGraphName :=
  match g with
  | IGDefaultGraph => IGNamedNode Key_first
  | IGNamedNode n => IGNamedNode (Key_next n)
  | IGBlankNode n => IGBlankNode (IB_next n)
  end.
Definition IG_impossible : InternedGraphName := IGNamedNode Key_impossible.

(** [InternedTerm], with the boxed [InternedTriple] written in place. *)
Inductive InternedTerm : Set :=
| ITNamedNode (node : InternedNamedNode)
| ITBlankNode (node : InternedBlankNode)
| ITLiteral (literal : InternedLiteral)
| ITTriple (subject : InternedNamedOrBlankNode) (predicate : InternedNamedNode) (object : InternedTerm).
Definition IT_first : InternedTerm := ITNamedNode Key_first.
Fixpoint IT_next (t : InternedTerm) : InternedTerm :=
  match t with
  | ITNamedNode n => ITNamedNode (Key_next n)
  | ITBlankNode n => ITBlankNode (IB_next n)
  | ITLiteral l => ITLiteral (IL_next l)
  | ITTriple s p o => ITTriple s p (IT_next o)
  end.
Definition IT_impossible : InternedTerm := ITNamedNode Key_impossible.

(** ** The derived order

    Variants in declaration order, then the fields from left to right: the
    lexicographic order of the list of variant numbers and fields. *)

Definition IB_code (n : InternedBlankNode) : list Z :=
  match n with IBNumber id => [0; id] | IBOther id => [1; id] end.
Definition IL_code (l : InternedLiteral) : list Z :=
  match l with
  | ILString v => [0; v]
  | ILLanguageTaggedString v l => [1; v; l]
  | ILDirectionalLanguageTaggedString v l b => [2; v; l; if b then 1 else 0]
  | ILTypedLiteral v d => [3; v; d]
  end.
Definition IN_code (n : InternedNamedOrBlankNode) : list Z :=
  match n with INNamedNode n => [0; n] | INBlankNode n => 1 :: IB_code n end.
Definition IG_code (g : InternedGraphName) : list Z :=
  match g with IGDefaultGraph => [0] | IGNamedNode n => [1; n] | IGBlankNode n => 2 :: IB_code n end.
Fixpoint IT_code (t : InternedTerm) : list Z :=
  match t with
  | ITNamedNode n => [0; n]
  | ITBlankNode n => 1 :: IB_code n
  | ITLiteral l => 2 :: IL_code l
  | ITTriple s p o => 3 :: IN_code s ++ p :: IT_code o
  end.

#[global] Instance IN_ord : RustOrd InternedNamedOrBlankNode := fun a b => cmp (IN_code a) (IN_code b).
#[global] Instance IG_ord : RustOrd InternedGraphName := fun a b => cmp (IG_code a) (IG_code b).
#[global] Instance IT_ord : RustOrd InternedTerm := fun a b => cmp (IT_code a) (IT_code b).

#[global] Instance InternedBlankNode_eq_dec : EqDecision InternedBlankNode.
Proof. solve_decision. Defined.
#[global] Instance InternedLiteral_eq_dec : EqDecision InternedLiteral.
Proof. solve_decision. Defined.
#[global] Instance InternedNamedOrBlankNode_eq_dec : EqDecision InternedNamedOrBlankNode.
Proof. solve_decision. Defined.
#[global] Instance InternedGraphName_eq_dec : EqDecision InternedGraphName.
Proof. solve_decision. Defined.
#[global] Instance InternedTerm_eq_dec : EqDecision InternedTerm.
Proof. solve_decision. Defined.

#[global] Instance InternedBlankNode_countable : Countable InternedBlankNode.
Proof.
  apply (inj_countable' (fun n => match n with IBNumber i => inl i | IBOther i => inr i end)
    (fun n => match n with inl i => IBNumber i | inr i => IBOther i end)). by intros [].
Defined.
#[global] Instance InternedLiteral_countable : Countable InternedLiteral.
Proof.
  apply (inj_countable' (fun l => match l with
      | ILString v => inl v
      | ILLanguageTaggedString v l => inr (inl (v, l))
      | ILDirectionalLanguageTaggedString v l b => inr (inr (inl (v, l, b)))
      | ILTypedLiteral v d => inr (inr (inr (v, d)))
      end)
    (fun l => match l with
      | inl v => ILString v
      | inr (inl (v, l)) => ILLanguageTaggedString v l
      | inr (inr (inl (v, l, b))) => ILDirectionalLanguageTaggedString v l b
      | inr (inr (inr (v, d))) => ILTypedLiteral v d
      end)). by intros [].
Defined.
#[global] Instance InternedNamedOrBlankNode_countable : Countable InternedNamedOrBlankNode.
Proof.
  apply (inj_countable' (fun n => match n with INNamedNode i => inl i | INBlankNode i => inr i end)
    (fun n => match n with inl i => INNamedNode i | inr i => INBlankNode i end)). by intros [].
Defined.
#[global] Instance InternedGraphName_countable : Countable InternedGraphName.
Proof.
  apply (inj_countable' (fun n => match n with IGDefaultGraph => None | IGNamedNode i => Some (inl i) | IGBlankNode i => Some (inr i) end)
    (fun n => match n with None => IGDefaultGraph | Some (inl i) => IGNamedNode i | Some (inr i) => IGBlankNode i end)). by intros [].
Defined.

(** A term is a path of triples to a term that is not one. *)
Fixpoint split_term (t : InternedTerm)
  : list (InternedNamedOrBlankNode * Z) * (Z + (InternedBlankNode + InternedLiteral)) :=
  match t with
  | ITNamedNode n => ([], inl n)
  | ITBlankNode n => ([], inr (inl n))
  | ITLiteral l => ([], inr (inr l))
  | ITTriple s p o => let r := split_term o in ((s, p) :: r.1, r.2)
  end.
Fixpoint join_term (path : list (InternedNamedOrBlankNode * Z)) (leaf : Z + (InternedBlankNode + InternedLiteral))
  : InternedTerm :=
  match path with
  | [] => match leaf with inl n => ITNamedNode n | inr (inl n) => ITBlankNode n | inr (inr l) => ITLiteral l end
  | (s, p) :: path => ITTriple s p (join_term path leaf)
  end.
#[global] Instance InternedTerm_countable : Countable InternedTerm.
Proof.
  apply (inj_countable' split_term (fun r => join_term r.1 r.2)).
  intros t. induction t as [| | |s p o IH]; simpl; [done..|]. by rewrite IH.
Defined.

(** ** The interner *)

Record Interner : Set := mkInterner {
  string_for_hash : gmap Z bytes;
  string_for_blank_node_id : gmap Z bytes;
  triples : gmap InternedTerm (RdfNamedOrBlankNode * RdfNamedNode * RdfTerm)
}.
Definition Interner_default : Interner := mkInterner ∅ ∅ ∅.

Definition set_string (it : Interner) (h : Z) (s : bytes) : Interner :=
  mkInterner (<[h := s]> (string_for_hash it)) (string_for_blank_node_id it) (triples it).

Section interner.
  Context {P : InternerParams}.

Definition hash (value : bytes) : Z := let h := hash_one value in if h =? u64_max then 0 else h.
Definition next_hash (h : Z) : Z := if h =? u64_max - 1 then 0 else h + 1.

(** The inner loop of [get_or_intern] on an occupied entry: the entry is never
    looked up again.  [None]: [fuel] rounds have not returned. *)
Fixpoint occupied_loop (fuel : nat) (entry value : bytes) (h : Z) : option Key :=
  match fuel with
  | O => None
  | S fuel => if decide (entry = value) then Some h else occupied_loop fuel entry value (next_hash h)
  end.
(** One round is enough to return, when the loop returns ([occupied_loop_spec]). *)
Definition get_or_intern (value : bytes) (it : Interner) : option (Key * Interner) :=
  let h := hash value in
  match string_for_hash it !! h with
  | None => Some (h, set_string it h value)
  | Some entry => k ← occupied_loop 1 entry value h; Some (k, it)
  end.

(** The probes of [get]: at most one more than there are strings. *)
Fixpoint get_loop (fuel : nat) (it : Interner) (value : bytes) (h : Z) : option Key :=
  match fuel with
  | O => None
  | S fuel =>
      v ← string_for_hash it !! h;
      if decide (v = value) then Some h else get_loop fuel it value (next_hash h)
  end.
Definition get (value : bytes) (it : Interner) : option Key :=
  get_loop (S (size (string_for_hash it))) it value (hash value).

Definition resolve (it : Interner) (k : Key) : option bytes := string_for_hash it !! k.

(** ** Named nodes and blank nodes *)

Definition NamedNode_encoded_into (n : RdfNamedNode) (it : Interner) : option (InternedNamedNode * Interner) :=
  get_or_intern (nn_iri n) it.
Definition NamedNode_encoded_from (n : RdfNamedNode) (it : Interner) : option InternedNamedNode :=
  get (nn_iri n) it.
Definition NamedNode_decode_from (n : InternedNamedNode) (it : Interner) : option RdfNamedNode :=
  s ← resolve it n; Some (NamedNode_new_unchecked s).

Definition BlankNode_encoded_into (n : RdfBlankNode) (it : Interner) : option (InternedBlankNode * Interner) :=
  match BlankNode_unique_id n with
  | Some id =>
      let ids := string_for_blank_node_id it in
      let ids := match ids !! id with Some _ => ids | None => <[id := BlankNode_as_str n]> ids end in
      Some (IBNumber id, mkInterner (string_for_hash it) ids (triples it))
  | None => r ← get_or_intern (BlankNode_as_str n) it; Some (IBOther r.1, r.2)
  end.
Definition BlankNode_encoded_from (n : RdfBlankNode) (it : Interner) : option InternedBlankNode :=
  match BlankNode_unique_id n with
  | Some id => match string_for_blank_node_id it !! id with Some _ => Some (IBNumber id) | None => None end
  | None => k ← get (BlankNode_as_str n) it; Some (IBOther k)
  end.
Definition BlankNode_decode_from (n : InternedBlankNode) (it : Interner) : option RdfBlankNode :=
  s ← match n with IBNumber id => string_for_blank_node_id it !! id | IBOther k => resolve it k end;
  Some (BlankNode_new_unchecked s).

(** ** Literals *)

Definition Literal_encoded_into (l : RdfLiteral) (it : Interner) : option (InternedLiteral * Interner) :=
  let '(value, datatype, language, direction) := Literal_destruct l in
  v ← get_or_intern value it;
  let '(value_id, it) := v in
  match language with
  | Some language =>
      r ← get_or_intern language it;
      let '(language_id, it) := r in
      Some (match direction with
            | Some direction =>
                ILDirectionalLanguageTaggedString value_id language_id (match direction with Ltr => true | Rtl => false end)
            | None => ILLanguageTaggedString value_id language_id
            end, it)
  | None =>
      match datatype with
      | Some datatype => r ← NamedNode_encoded_into datatype it; Some (ILTypedLiteral value_id r.1, r.2)
      | None => Some (ILString value_id, it)
      end
  end.
Definition Literal_encoded_from (l : RdfLiteral) (it : Interner) : option InternedLiteral :=
  value_id ← get (Literal_value l) it;
  match Literal_language l with
  | Some language =>
      language_id ← get language it;
      Some (match Literal_direction l with
            | Some direction =>
                ILDirectionalLanguageTaggedString value_id language_id (match direction with Ltr => true | Rtl => false end)
            | None => ILLanguageTaggedString value_id language_id
            end)
  | None =>
      if decide (Literal_datatype l = XSD_STRING) then Some (ILString value_id)
      else datatype ← NamedNode_encoded_from (Literal_datatype l) it; Some (ILTypedLiteral value_id datatype)
  end.
Definition Literal_decode_from (l : InternedLiteral) (it : Interner) : option RdfLiteral :=
  match l with
  | ILString v => value ← resolve it v; Some (LiteralString value)
  | ILLanguageTaggedString v l =>
      value ← resolve it v; language ← resolve it l; Some (LanguageTaggedString value language)
  | ILDirectionalLanguageTaggedString v l is_ltr =>
      value ← resolve it v; language ← resolve it l;
      Some (DirectionalLanguageTaggedString value language (if is_ltr then Ltr else Rtl))
  | ILTypedLiteral v d =>
      value ← resolve it v; datatype ← NamedNode_decode_from d it; Literal_new_typed_literal value datatype
  end.

(** ** Subjects, graph names and terms *)

Definition Node_encoded_into (n : RdfNamedOrBlankNode) (it : Interner) : option (InternedNamedOrBlankNode * Interner) :=
  match n with
  | NodeNamed n => r ← NamedNode_encoded_into n it; Some (INNamedNode r.1, r.2)
  | NodeBlank n => r ← BlankNode_encoded_into n it; Some (INBlankNode r.1, r.2)
  end.
Definition Node_encoded_from (n : RdfNamedOrBlankNode) (it : Interner) : option InternedNamedOrBlankNode :=
  match n with
  | NodeNamed n => INNamedNode <$> NamedNode_encoded_from n it
  | NodeBlank n => INBlankNode <$> BlankNode_encoded_from n it
  end.
Definition Node_decode_from (n : InternedNamedOrBlankNode) (it : Interner) : option RdfNamedOrBlankNode :=
  match n with
  | INNamedNode n => NodeNamed <$> NamedNode_decode_from n it
  | INBlankNode n => NodeBlank <$> BlankNode_decode_from n it
  end.

Definition GraphName_encoded_into (g : RdfGraphName) (it : Interner) : option (InternedGraphName * Interner) :=
  match g with
  | GraphDefault => Some (IGDefaultGraph, it)
  | GraphNamedNode n => r ← NamedNode_encoded_into n it; Some (IGNamedNode r.1, r.2)
  | GraphBlankNode n => r ← BlankNode_encoded_into n it; Some (IGBlankNode r.1, r.2)
  end.
Definition GraphName_encoded_from (g : RdfGraphName) (it : Interner) : option InternedGraphName :=
  match g with
  | GraphDefault => Some IGDefaultGraph
  | GraphNamedNode n => IGNamedNode <$> NamedNode_encoded_from n it
  | GraphBlankNode n => IGBlankNode <$> BlankNode_encoded_from n it
  end.
Definition GraphName_decode_from (g : InternedGraphName) (it : Interner) : option RdfGraphName :=
  match g with
  | IGDefaultGraph => Some GraphDefault
  | IGNamedNode n => GraphNamedNode <$> NamedNode_decode_from n it
  | IGBlankNode n => GraphBlankNode <$> BlankNode_decode_from n it
  end.

(** A triple is also recorded whole. *)
Fixpoint Term_encoded_into (t : RdfTerm) (it : Interner) : option (InternedTerm * Interner) :=
  match t with
  | TermNamedNode n => r ← NamedNode_encoded_into n it; Some (ITNamedNode r.1, r.2)
  | TermBlankNode n => r ← BlankNode_encoded_into n it; Some (ITBlankNode r.1, r.2)
  | TermLiteral l => r ← Literal_encoded_into l it; Some (ITLiteral r.1, r.2)
  | TermTriple s p o =>
      r ← Node_encoded_into s it; let '(subject, it) := r in
      r ← NamedNode_encoded_into p it; let '(predicate, it) := r in
      r ← Term_encoded_into o it; let '(object, it) := r in
      let interned := ITTriple subject predicate object in
      Some (interned, mkInterner (string_for_hash it) (string_for_blank_node_id it) (<[interned := (s, p, o)]> (triples it)))
  end.
Fixpoint Term_encoded_from (t : RdfTerm) (it : Interner) : option InternedTerm :=
  match t with
  | TermNamedNode n => ITNamedNode <$> NamedNode_encoded_from n it
  | TermBlankNode n => ITBlankNode <$> BlankNode_encoded_from n it
  | TermLiteral l => ITLiteral <$> Literal_encoded_from l it
  | TermTriple s p o =>
      subject ← Node_encoded_from s it;
      predicate ← NamedNode_encoded_from p it;
      object ← Term_encoded_from o it;
      let interned := ITTriple subject predicate object in
      match triples it !! interned with Some _ => Some interned | None => None end
  end.
Definition Term_decode_from (t : InternedTerm) (it : Interner) : option RdfTerm :=
  match t with
  | ITNamedNode n => TermNamedNode <$> NamedNode_decode_from n it
  | ITBlankNode n => TermBlankNode <$> BlankNode_decode_from n it
  | ITLiteral l => TermLiteral <$> Literal_decode_from l it
  | ITTriple _ _ _ => r ← triples it !! t; let '(s, p, o) := r in Some (TermTriple s p o)
  end.

End interner.
