(* ===== verification/OxDataset.v ===== *)
(** * In-memory datasets

    lib/oxrdf/src/dataset.rs: a set of quads, interned and kept in six orders,
    with the names of the named graphs.  A Rust tuple is a pair nested to the
    right, ordered lexicographically; [BTreeSet::range] is the elements between
    two bounds in order.  An operation that interns does not return when two
    strings have one hash, and one that decodes panics on a missing key: [None]. *)
From stdpp Require Import gmap.
From S2P Require Import Prelude MachineInt RustStr BTree RdfModel RdfDisplay OxInterning.

Abbreviation IN := InternedNamedOrBlankNode (only parsing).
Abbreviation IG := InternedGraphName (only parsing).
Abbreviation IT := InternedTerm (only parsing).

(** An interned quad in the order subject, predicate, object, graph name. *)
Abbreviation InternedQuad := (IN * (Z * (IT * IG)))%type.

Record Dataset : Set := mkDataset {
  interner : Interner;
  named_graphs : gset IG;
  gspo : gset (IG * (IN * (Z * IT)));
  gpos : gset (IG * (Z * (IT * IN)));
  gosp : gset (IG * (IT * (IN * Z)));
  spog : gset (IN * (Z * (IT * IG)));
  posg : gset (Z * (IT * (IN * IG)));
  ospg : gset (IT * (IN * (Z * IG)))
}.
Definition Dataset_new : Dataset := mkDataset Interner_default ∅ ∅ ∅ ∅ ∅ ∅ ∅.

(** [BTreeSet::range(low..high)] *)
Definition btree_range {K : Type} `{Countable K} `{RustOrd K} (low high : K) (s : gset K) : list K :=
  filter (fun x => leb low x && ltb x high = true) (btree_elements s).

Definition set_interner (d : Dataset) (it : Interner) : Dataset :=
  mkDataset it (named_graphs d) (gspo d) (gpos d) (gosp d) (spog d) (posg d) (ospg d).
Definition set_named_graphs (d : Dataset) (gs : gset IG) : Dataset :=
  mkDataset (interner d) gs (gspo d) (gpos d) (gosp d) (spog d) (posg d) (ospg d).

Section dataset.
  Context {P : InternerParams}.

(** ** Encoding and decoding of quads *)

Definition encode_quad (q : RdfQuad) (it : Interner) : option (InternedQuad * Interner) :=
  r ← Node_encoded_into (q_subject q) it; let '(s, it) := r in
  r ← NamedNode_encoded_into (q_predicate q) it; let '(p, it) := r in
  r ← Term_encoded_into (q_object q) it; let '(o, it) := r in
  r ← GraphName_encoded_into (q_graph_name q) it; let '(g, it) := r in
  Some ((s, (p, (o, g))), it).
Definition encoded_quad (q : RdfQuad) (it : Interner) : option InternedQuad :=
  s ← Node_encoded_from (q_subject q) it;
  p ← NamedNode_encoded_from (q_predicate q) it;
  o ← Term_encoded_from (q_object q) it;
  g ← GraphName_encoded_from (q_graph_name q) it;
  Some (s, (p, (o, g))).
Definition decode_spog (it : Interner) (quad : InternedQuad) : option RdfQuad :=
  let '(s, (p, (o, g))) := quad in
  subject ← Node_decode_from s it;
  predicate ← NamedNode_decode_from p it;
  object ← Term_decode_from o it;
  graph_name ← GraphName_decode_from g it;
  Some (mkQuad subject predicate object graph_name).

Definition node_graph_name (n : IN) : IG :=
  match n with INNamedNode n => IGNamedNode n | INBlankNode n => IGBlankNode n end.
Definition encode_named_graph_name (n : RdfNamedOrBlankNode) (it : Interner) : option (IG * Interner) :=
  r ← Node_encoded_into n it; Some (node_graph_name r.1, r.2).
Definition encoded_named_graph_name (n : RdfNamedOrBlankNode) (it : Interner) : option IG :=
  node_graph_name <$> Node_encoded_from n it.
Definition decode_named_graph_name (it : Interner) (g : IG) : option RdfNamedOrBlankNode :=
  match g with
  | IGNamedNode n => NodeNamed <$> NamedNode_decode_from n it
  | IGBlankNode n => NodeBlank <$> BlankNode_decode_from n it
  | IGDefaultGraph => None
  end.

(** ** Changes *)

Definition insert_encoded (d : Dataset) (quad : InternedQuad) : Dataset * bool :=
  let '(s, (p, (o, g))) := quad in
  (mkDataset (interner d)
     (match g with IGDefaultGraph => named_graphs d | _ => {[g]} ∪ named_graphs d end)
     ({[(g, (s, (p, o)))]} ∪ gspo d) ({[(g, (p, (o, s)))]} ∪ gpos d) ({[(g, (o, (s, p)))]} ∪ gosp d)
     ({[(s, (p, (o, g)))]} ∪ spog d) ({[(p, (o, (s, g)))]} ∪ posg d) ({[(o, (s, (p, g)))]} ∪ ospg d),
   negb (bool_decide ((o, (s, (p, g))) ∈ ospg d))).
Definition Dataset_insert (d : Dataset) (q : RdfQuad) : option (Dataset * bool) :=
  r ← encode_quad q (interner d);
  Some (insert_encoded (set_interner d r.2) r.1).

Definition remove_encoded (d : Dataset) (quad : InternedQuad) : Dataset * bool :=
  let '(s, (p, (o, g))) := quad in
  (mkDataset (interner d) (named_graphs d)
     (gspo d ∖ {[(g, (s, (p, o)))]}) (gpos d ∖ {[(g, (p, (o, s)))]}) (gosp d ∖ {[(g, (o, (s, p)))]})
     (spog d ∖ {[(s, (p, (o, g)))]}) (posg d ∖ {[(p, (o, (s, g)))]}) (ospg d ∖ {[(o, (s, (p, g)))]}),
   bool_decide ((o, (s, (p, g))) ∈ ospg d)).
Definition Dataset_remove (d : Dataset) (q : RdfQuad) : Dataset * bool :=
  match encoded_quad q (interner d) with
  | Some quad => remove_encoded d quad
  | None => (d, false)
  end.

Definition Dataset_clear (d : Dataset) : Dataset := mkDataset (interner d) ∅ ∅ ∅ ∅ ∅ ∅ ∅.

(** ** Lookups *)

Definition interned_quads_for_subject (d : Dataset) (s : IN) : list InternedQuad :=
  btree_range (s, (Key_first, (IT_first, IG_first))) (IN_next s, (Key_first, (IT_first, IG_first))) (spog d).
Definition interned_quads_for_predicate (d : Dataset) (p : Z) : list InternedQuad :=
  (fun '(p, (o, (s, g))) => (s, (p, (o, g)))) <$>
    btree_range (p, (IT_first, (IN_first, IG_first))) (Key_next p, (IT_first, (IN_first, IG_first))) (posg d).
Definition interned_quads_for_object (d : Dataset) (o : IT) : list InternedQuad :=
  (fun '(o, (s, (p, g))) => (s, (p, (o, g)))) <$>
    btree_range (o, (IN_first, (Key_first, IG_first))) (IT_next o, (IN_first, (Key_first, IG_first))) (ospg d).
Definition interned_quads_for_graph_name (d : Dataset) (g : IG) : list InternedQuad :=
  (fun '(g, (s, (p, o))) => (s, (p, (o, g)))) <$>
    btree_range (g, (IN_first, (Key_first, IT_first))) (IG_next g, (IN_first, (Key_first, IT_first))) (gspo d).

(** The items of the iterators, collected. *)
Definition decode_quads (d : Dataset) (quads : list InternedQuad) : option (list RdfQuad) :=
  mapM (decode_spog (interner d)) quads.
Definition Dataset_iter (d : Dataset) : option (list RdfQuad) := decode_quads d (btree_elements (spog d)).
Definition quads_for_subject (d : Dataset) (s : RdfNamedOrBlankNode) : option (list RdfQuad) :=
  decode_quads d (interned_quads_for_subject d (default IN_impossible (Node_encoded_from s (interner d)))).
Definition quads_for_predicate (d : Dataset) (p : RdfNamedNode) : option (list RdfQuad) :=
  decode_quads d (interned_quads_for_predicate d (default Key_impossible (NamedNode_encoded_from p (interner d)))).
Definition quads_for_object (d : Dataset) (o : RdfTerm) : option (list RdfQuad) :=
  decode_quads d (interned_quads_for_object d (default IT_impossible (Term_encoded_from o (interner d)))).
Definition quads_for_graph_name (d : Dataset) (g : RdfGraphName) : option (list RdfQuad) :=
  decode_quads d (interned_quads_for_graph_name d (default IG_impossible (GraphName_encoded_from g (interner d)))).

Definition opt_matches {A : Type} `{EqDecision A} (pattern : option A) (a : A) : bool :=
  match pattern with None => true | Some x => bool_decide (x = a) end.
Definition quads_for_pattern (d : Dataset) (subject : option RdfNamedOrBlankNode) (predicate : option RdfNamedNode)
  (object : option RdfTerm) (graph_name : option RdfGraphName) : option (list RdfQuad) :=
  match subject, object, predicate, graph_name with
  | Some s, _, _, _ =>
      filter (fun q => opt_matches predicate (q_predicate q) && opt_matches object (q_object q)
                       && opt_matches graph_name (q_graph_name q) = true) <$> quads_for_subject d s
  | None, Some o, _, _ =>
      filter (fun q => opt_matches predicate (q_predicate q) && opt_matches graph_name (q_graph_name q) = true)
        <$> quads_for_object d o
  | None, None, Some p, _ =>
      filter (fun q => opt_matches graph_name (q_graph_name q) = true) <$> quads_for_predicate d p
  | None, None, None, Some g => quads_for_graph_name d g
  | None, None, None, None => Dataset_iter d
  end.

Definition Dataset_contains (d : Dataset) (q : RdfQuad) : bool :=
  match encoded_quad q (interner d) with
  | Some quad => bool_decide (quad ∈ spog d)
  | None => false
  end.
Definition Dataset_len (d : Dataset) : Z := Z.of_nat (size (gspo d)).
Definition Dataset_is_empty (d : Dataset) : bool := bool_decide (gspo d = ∅).

(** ** Graphs *)

Definition clear_encoded_graph (d : Dataset) (g : IG) : Dataset :=
  foldl (fun d quad => (remove_encoded d quad).1) d (interned_quads_for_graph_name d g).
Definition Dataset_named_graphs (d : Dataset) : option (list RdfNamedOrBlankNode) :=
  mapM (decode_named_graph_name (interner d)) (btree_elements (named_graphs d)).
Definition contains_named_graph (d : Dataset) (n : RdfNamedOrBlankNode) : bool :=
  match encoded_named_graph_name n (interner d) with
  | Some g => bool_decide (g ∈ named_graphs d)
  | None => false
  end.
Definition insert_named_graph (d : Dataset) (n : RdfNamedOrBlankNode) : option (Dataset * bool) :=
  r ← encode_named_graph_name n (interner d);
  let '(g, it) := r in
  let d := set_interner d it in
  Some (set_named_graphs d ({[g]} ∪ named_graphs d), negb (bool_decide (g ∈ named_graphs d))).
Definition clear_graph (d : Dataset) (g : RdfGraphName) : Dataset :=
  match GraphName_encoded_from g (interner d) with
  | Some g => clear_encoded_graph d g
  | None => d
  end.
Definition remove_named_graph (d : Dataset) (n : RdfNamedOrBlankNode) : Dataset * bool :=
  match encoded_named_graph_name n (interner d) with
  | Some g =>
      (clear_encoded_graph (set_named_graphs d (named_graphs d ∖ {[g]})) g, bool_decide (g ∈ named_graphs d))
  | None => (d, false)
  end.

(** [Extend] and [FromIterator] *)
Fixpoint Dataset_extend (d : Dataset) (quads : list RdfQuad) : option Dataset :=
  match quads with
  | [] => Some d
  | q :: quads => r ← Dataset_insert d q; Dataset_extend r.1 quads
  end.
Definition Dataset_from_iter (quads : list RdfQuad) : option Dataset := Dataset_extend Dataset_new quads.

(** [Display] *)
Definition Dataset_to_string (d : Dataset) : option bytes :=
  quads ← Dataset_iter d;
  Some (quads ≫= fun q => Quad_to_string q ++ str " ." ++ [byte_of_Z 10]).

End dataset.

(** [PartialEq]: the same numbers, and everything here is there.  The other
    dataset has a hash function [P'] of its own. *)
Definition Dataset_eq {P' : InternerParams} (d other : Dataset) : option bool :=
  if negb (Dataset_len d =? Dataset_len other)
     || negb (Z.of_nat (size (named_graphs d)) =? Z.of_nat (size (named_graphs other)))
  then Some false
  else
    graphs ← Dataset_named_graphs d;
    if forallb (contains_named_graph other) graphs
    then quads ← Dataset_iter d; Some (forallb (Dataset_contains other) quads)
    else Some false.
