(* ===== verification/OxGraphView.v ===== *)
(** * Graph views and graphs

    lib/oxrdf/src/dataset.rs, [GraphView] and [GraphViewMut]: one graph of a
    dataset, seen as a set of triples, and lib/oxrdf/src/graph.rs: a graph is
    the default graph of a dataset.  A mutable view is the dataset it changes
    with the name of the graph. *)
From stdpp Require Import gmap.
From S2P Require Import Prelude MachineInt RustStr BTree RdfModel RdfDisplay OxInterning.
From S2P Require Import OxDataset.

Record GraphView : Set := mkGraphView { gv_dataset : Dataset; gv_graph_name : InternedGraphName }.

Section views.
  Context {P : InternerParams}.

Definition Dataset_graph (d : Dataset) (g : RdfGraphName) : GraphView :=
  mkGraphView d (default IG_impossible (GraphName_encoded_from g (interner d))).
Definition Dataset_graph_mut (d : Dataset) (g : RdfGraphName) : option GraphView :=
  r ← GraphName_encoded_into g (interner d);
  let '(g, it) := r in
  let d := set_interner d it in
  Some (mkGraphView (match g with IGDefaultGraph => d | _ => set_named_graphs d ({[g]} ∪ named_graphs d) end) g).

Definition decode_spo (it : Interner) (s : InternedNamedOrBlankNode) (p : Z) (o : InternedTerm) : option RdfTriple :=
  subject ← Node_decode_from s it;
  predicate ← NamedNode_decode_from p it;
  object ← Term_decode_from o it;
  Some (mkTriple subject predicate object).

(** ** Reading *)

Definition GraphView_is_present (v : GraphView) : bool :=
  match gv_graph_name v with
  | IGDefaultGraph => true
  | g => bool_decide (g ∈ named_graphs (gv_dataset v))
  end.

Definition GraphView_iter (v : GraphView) : option (list RdfTriple) :=
  let d := gv_dataset v in let g := gv_graph_name v in
  mapM (fun '(_, (s, (p, o))) => decode_spo (interner d) s p o)
    (btree_range (g, (IN_first, (Key_first, IT_first))) (IG_next g, (IN_first, (Key_first, IT_first))) (gspo d)).

Definition triples_for_interned_subject (v : GraphView) (subject : option InternedNamedOrBlankNode) : option (list RdfTriple) :=
  let s := default IN_impossible subject in
  let d := gv_dataset v in let g := gv_graph_name v in
  mapM (fun '(_, (s, (p, o))) => decode_spo (interner d) s p o)
    (btree_range (g, (s, (Key_first, IT_first))) (g, (IN_next s, (Key_first, IT_first))) (gspo d)).
Definition objects_for_interned_subject_predicate (v : GraphView) (subject : option InternedNamedOrBlankNode)
  (predicate : option Z) : option (list RdfTerm) :=
  let s := default IN_impossible subject in
  let p := default Key_impossible predicate in
  let d := gv_dataset v in let g := gv_graph_name v in
  mapM (fun '(_, (_, (_, o))) => Term_decode_from o (interner d))
    (btree_range (g, (s, (p, IT_first))) (g, (s, (Key_next p, IT_first))) (gspo d)).
Definition predicates_for_interned_subject_object (v : GraphView) (subject : option InternedNamedOrBlankNode)
  (object : option InternedTerm) : option (list RdfNamedNode) :=
  let s := default IN_impossible subject in
  let o := default IT_impossible object in
  let d := gv_dataset v in let g := gv_graph_name v in
  mapM (fun '(_, (_, (_, p))) => NamedNode_decode_from p (interner d))
    (btree_range (g, (o, (s, Key_first))) (g, (o, (IN_next s, Key_first))) (gosp d)).
Definition triples_for_interned_predicate (v : GraphView) (predicate : option Z) : option (list RdfTriple) :=
  let p := default Key_impossible predicate in
  let d := gv_dataset v in let g := gv_graph_name v in
  mapM (fun '(_, (p, (o, s))) => decode_spo (interner d) s p o)
    (btree_range (g, (p, (IT_first, IN_first))) (g, (Key_next p, (IT_first, IN_first))) (gpos d)).
Definition subjects_for_interned_predicate_object (v : GraphView) (predicate : option Z) (object : option InternedTerm)
  : option (list RdfNamedOrBlankNode) :=
  let p := default Key_impossible predicate in
  let o := default IT_impossible object in
  let d := gv_dataset v in let g := gv_graph_name v in
  mapM (fun '(_, (_, (_, s))) => Node_decode_from s (interner d))
    (btree_range (g, (p, (o, IN_first))) (g, (p, (IT_next o, IN_first))) (gpos d)).
Definition triples_for_interned_object (v : GraphView) (object : option InternedTerm) : option (list RdfTriple) :=
  let o := default IT_impossible object in
  let d := gv_dataset v in let g := gv_graph_name v in
  mapM (fun '(_, (o, (s, p))) => decode_spo (interner d) s p o)
    (btree_range (g, (o, (IN_first, Key_first))) (g, (IT_next o, (IN_first, Key_first))) (gosp d)).

Definition triples_for_subject (v : GraphView) (s : RdfNamedOrBlankNode) : option (list RdfTriple) :=
  triples_for_interned_subject v (Node_encoded_from s (interner (gv_dataset v))).
Definition objects_for_subject_predicate (v : GraphView) (s : RdfNamedOrBlankNode) (p : RdfNamedNode) : option (list RdfTerm) :=
  objects_for_interned_subject_predicate v (Node_encoded_from s (interner (gv_dataset v)))
    (NamedNode_encoded_from p (interner (gv_dataset v))).
Definition object_for_subject_predicate (v : GraphView) (s : RdfNamedOrBlankNode) (p : RdfNamedNode) : option (option RdfTerm) :=
  head <$> objects_for_subject_predicate v s p.
Definition predicates_for_subject_object (v : GraphView) (s : RdfNamedOrBlankNode) (o : RdfTerm) : option (list RdfNamedNode) :=
  predicates_for_interned_subject_object v (Node_encoded_from s (interner (gv_dataset v)))
    (Term_encoded_from o (interner (gv_dataset v))).
Definition triples_for_predicate (v : GraphView) (p : RdfNamedNode) : option (list RdfTriple) :=
  triples_for_interned_predicate v (NamedNode_encoded_from p (interner (gv_dataset v))).
Definition subjects_for_predicate_object (v : GraphView) (p : RdfNamedNode) (o : RdfTerm) : option (list RdfNamedOrBlankNode) :=
  subjects_for_interned_predicate_object v (NamedNode_encoded_from p (interner (gv_dataset v)))
    (Term_encoded_from o (interner (gv_dataset v))).
Definition subject_for_predicate_object (v : GraphView) (p : RdfNamedNode) (o : RdfTerm) : option (option RdfNamedOrBlankNode) :=
  head <$> subjects_for_predicate_object v p o.
Definition triples_for_object (v : GraphView) (o : RdfTerm) : option (list RdfTriple) :=
  triples_for_interned_object v (Term_encoded_from o (interner (gv_dataset v))).

Definition encoded_triple (v : GraphView) (t : RdfTriple) : option (InternedNamedOrBlankNode * (Z * InternedTerm)) :=
  let it := interner (gv_dataset v) in
  s ← Node_encoded_from (t_subject t) it;
  p ← NamedNode_encoded_from (t_predicate t) it;
  o ← Term_encoded_from (t_object t) it;
  Some (s, (p, o)).
Definition GraphView_contains (v : GraphView) (t : RdfTriple) : bool :=
  match encoded_triple v t with
  | Some spo => bool_decide ((gv_graph_name v, spo) ∈ gspo (gv_dataset v))
  | None => false
  end.
Definition GraphView_len (v : GraphView) : option Z := (fun l => Z.of_nat (length l)) <$> GraphView_iter v.
Definition GraphView_is_empty (v : GraphView) : option bool :=
  (fun l => match l with [] => true | _ => false end) <$> GraphView_iter v.

Definition triples_for_pattern (v : GraphView) (subject : option RdfNamedOrBlankNode) (predicate : option RdfNamedNode)
  (object : option RdfTerm) : option (list RdfTriple) :=
  match subject, predicate, object with
  | Some s, Some p, Some o =>
      let t := mkTriple s p o in Some (if GraphView_contains v t then [t] else [])
  | Some s, Some p, None => map (fun o => mkTriple s p o) <$> objects_for_subject_predicate v s p
  | Some s, None, Some o => map (fun p => mkTriple s p o) <$> predicates_for_subject_object v s o
  | Some s, None, None => triples_for_subject v s
  | None, Some p, Some o => map (fun s => mkTriple s p o) <$> subjects_for_predicate_object v p o
  | None, Some p, None => triples_for_predicate v p
  | None, None, Some o => triples_for_object v o
  | None, None, None => GraphView_iter v
  end.

(** [Display] of a view, and of a mutable one. *)
Definition GraphView_to_string (v : GraphView) : option bytes :=
  triples ← GraphView_iter v; Some (triples ≫= fun t => Triple_to_string t ++ str " ." ++ [byte_of_Z 10]).
Definition GraphViewMut_to_string (v : GraphView) : option bytes :=
  triples ← GraphView_iter v; Some (triples ≫= fun t => Triple_to_string t ++ [byte_of_Z 10]).

(** ** Writing *)

Definition encode_triple (t : RdfTriple) (it : Interner)
  : option (InternedNamedOrBlankNode * (Z * InternedTerm) * Interner) :=
  r ← Node_encoded_into (t_subject t) it; let '(s, it) := r in
  r ← NamedNode_encoded_into (t_predicate t) it; let '(p, it) := r in
  r ← Term_encoded_into (t_object t) it; let '(o, it) := r in
  Some ((s, (p, o)), it).
Definition GraphViewMut_insert (v : GraphView) (t : RdfTriple) : option (GraphView * bool) :=
  r ← encode_triple t (interner (gv_dataset v));
  let '((s, (p, o)), it) := r in
  let '(d, new) := insert_encoded (set_interner (gv_dataset v) it) (s, (p, (o, gv_graph_name v))) in
  Some (mkGraphView d (gv_graph_name v), new).
Definition GraphViewMut_remove (v : GraphView) (t : RdfTriple) : GraphView * bool :=
  match encoded_triple v t with
  | Some (s, (p, o)) =>
      let '(d, found) := remove_encoded (gv_dataset v) (s, (p, (o, gv_graph_name v))) in
      (mkGraphView d (gv_graph_name v), found)
  | None => (v, false)
  end.
Definition GraphViewMut_clear (v : GraphView) : GraphView :=
  mkGraphView (clear_encoded_graph (gv_dataset v) (gv_graph_name v)) (gv_graph_name v).
Fixpoint GraphViewMut_extend (v : GraphView) (ts : list RdfTriple) : option GraphView :=
  match ts with
  | [] => Some v
  | t :: ts => r ← GraphViewMut_insert v t; GraphViewMut_extend r.1 ts
  end.

(** ** Graphs *)

Definition Graph_new : Dataset := Dataset_new.
Definition Graph_graph (d : Dataset) : GraphView := Dataset_graph d GraphDefault.
Definition Graph_graph_mut (d : Dataset) : option GraphView := Dataset_graph_mut d GraphDefault.
Definition Graph_iter (d : Dataset) : option (list RdfTriple) := GraphView_iter (Graph_graph d).
Definition Graph_contains (d : Dataset) (t : RdfTriple) : bool := GraphView_contains (Graph_graph d) t.
Definition Graph_len (d : Dataset) : Z := Dataset_len d.
Definition Graph_is_empty (d : Dataset) : bool := Dataset_is_empty d.
Definition Graph_insert (d : Dataset) (t : RdfTriple) : option (Dataset * bool) :=
  v ← Graph_graph_mut d; r ← GraphViewMut_insert v t; Some (gv_dataset r.1, r.2).
Definition Graph_remove (d : Dataset) (t : RdfTriple) : option (Dataset * bool) :=
  v ← Graph_graph_mut d; let r := GraphViewMut_remove v t in Some (gv_dataset r.1, r.2).
Definition Graph_clear (d : Dataset) : Dataset := Dataset_clear d.
Definition Graph_extend (d : Dataset) (ts : list RdfTriple) : option Dataset :=
  v ← Graph_graph_mut d; gv_dataset <$> GraphViewMut_extend v ts.
Definition Graph_from_iter (ts : list RdfTriple) : option Dataset := Graph_extend Graph_new ts.
Definition Graph_to_string (d : Dataset) : option bytes := GraphView_to_string (Graph_graph d).

End views.
