(* ===== verification/OxOrderFacts.v ===== *)
(** * The orders of interned terms

    The derived orders are total orders, and the interval from a term to its
    [next] holds the term alone, unless the term ends in the blank node whose
    number is the largest of its width. *)
From stdpp Require Import gmap.
From S2P Require Import Prelude MachineInt RustStr BTree RdfModel RdfDisplay OxInterning.

(** ** Codes are prefix-free *)

Lemma IB_code_app (a b : InternedBlankNode) (x y : list Z) : IB_code a ++ x = IB_code b ++ y -> a = b /\ x = y.
Proof. destruct a, b; simpl; naive_solver. Qed.
Lemma IL_code_app (a b : InternedLiteral) (x y : list Z) : IL_code a ++ x = IL_code b ++ y -> a = b /\ x = y.
Proof. destruct a as [| |? ? []|], b as [| |? ? []|]; simpl; naive_solver. Qed.
Lemma IN_code_app (a b : InternedNamedOrBlankNode) (x y : list Z) : IN_code a ++ x = IN_code b ++ y -> a = b /\ x = y.
Proof. destruct a, b; simpl; intros H; simplify_eq; [done|]. apply IB_code_app in H as [-> ->]. done. Qed.
Lemma IG_code_app (a b : InternedGraphName) (x y : list Z) : IG_code a ++ x = IG_code b ++ y -> a = b /\ x = y.
Proof. destruct a, b; simpl; intros H; simplify_eq; [done..|]. apply IB_code_app in H as [-> ->]. done. Qed.
Lemma IT_code_app (a b : InternedTerm) (x y : list Z) : IT_code a ++ x = IT_code b ++ y -> a = b /\ x = y.
Proof.
  revert b. induction a as [n|n|l|s p o IH]; intros [n'|n'|l'|s' p' o']; cbn [IT_code]; intros H; try discriminate H.
  - by simplify_list_eq.
  - simplify_list_eq. apply IB_code_app in H as [-> ->]. done.
  - simplify_list_eq. apply IL_code_app in H as [-> ->]. done.
  - cbn [app] in H. injection H as H. rewrite <- !app_assoc in H. apply IN_code_app in H as [-> H]. cbn [app] in H.
    injection H as -> H. apply IH in H as [-> ->]. done.
Qed.

(** An order by a prefix-free code is an order. *)
Lemma code_laws {A : Type} (code : A -> list Z) :
  (forall a b x y, code a ++ x = code b ++ y -> a = b /\ x = y) ->
  @RustOrdLaws A (fun a b => cmp (code a) (code b)).
Proof.
  intros Hinj. split; unfold cmp at 1.
  - intros a b. rewrite (cmp_eq (code a) (code b)). split; [|by intros ->]. intros E.
    by destruct (Hinj a b [] []) as [-> _]; [rewrite E|].
  - intros a b. apply (cmp_antisym (code a) (code b)).
  - intros a b c. apply (cmp_trans (code a) (code b) (code c)).
Qed.
#[global] Instance IN_ord_laws : RustOrdLaws InternedNamedOrBlankNode.
Proof. apply (code_laws IN_code), IN_code_app. Qed.
#[global] Instance IG_ord_laws : RustOrdLaws InternedGraphName.
Proof. apply (code_laws IG_code), IG_code_app. Qed.
#[global] Instance IT_ord_laws : RustOrdLaws InternedTerm.
Proof. apply (code_laws IT_code), IT_code_app. Qed.

(** ** Intervals *)

(** Lists between two lists with a common prefix have that prefix. *)
Lemma between_prefix (p a b l : list Z) :
  leb (p ++ a) l = true -> ltb l (p ++ b) = true -> exists c, l = p ++ c /\ leb a c = true /\ ltb c b = true.
Proof.
  revert l. induction p as [|x p IH]; intros l Ha Hb; [by exists l|].
  destruct l as [|y l]; [done|]. unfold leb, ltb, cmp, list_ord in Ha, Hb. cbn [app list_cmp] in Ha, Hb.
  destruct (cmp x y) eqn:E1; [|..]; [apply cmp_eq in E1 as <-|..].
  - rewrite cmp_refl in Hb. destruct (IH l) as (c & -> & H1 & H2); [done..|]. by exists c.
  - rewrite (cmp_antisym x y), E1 in Hb. done.
  - done.
Qed.

Lemma between_key (k : Z) (c : list Z) : leb [k] c = true -> ltb c [k + 1] = true -> exists rest, c = k :: rest.
Proof.
  destruct c as [|x c]; [done|]. unfold leb, ltb, cmp, list_ord. cbn. unfold cmp, Z_ord. intros H1 H2.
  exists c. f_equal. destruct (Z.compare_spec k x), (Z.compare_spec x (k + 1)); try done; try lia. by destruct c.
Qed.

Lemma ltb_prefix (p a b : list Z) : ltb a b = true -> ltb (p ++ a) (p ++ b) = true.
Proof. intros H. induction p as [|x p IH]; [done|]. unfold ltb, cmp, list_ord. cbn [app list_cmp]. by rewrite cmp_refl. Qed.

Lemma ltb_key (k : Z) : ltb [k] [k + 1] = true.
Proof. unfold ltb, cmp, list_ord. cbn. unfold cmp, Z_ord. destruct (Z.compare_spec k (k + 1)); try done; lia. Qed.

(** Keys of strings, numbers of blank nodes. *)
Definition key_ok (k : Z) : Prop := 0 <= k < u64_max.
Definition IB_ok (n : InternedBlankNode) : Prop :=
  match n with IBNumber id => 0 <= id <= int_max U128 | IBOther k => key_ok k end.
Definition IL_ok (l : InternedLiteral) : Prop :=
  match l with
  | ILString v => key_ok v
  | ILLanguageTaggedString v l | ILDirectionalLanguageTaggedString v l _ | ILTypedLiteral v l => key_ok v /\ key_ok l
  end.
Definition IN_ok (n : InternedNamedOrBlankNode) : Prop :=
  match n with INNamedNode k => key_ok k | INBlankNode n => IB_ok n end.
Definition IG_ok (g : InternedGraphName) : Prop :=
  match g with IGDefaultGraph => True | IGNamedNode k => key_ok k | IGBlankNode n => IB_ok n end.
Fixpoint IT_ok (t : InternedTerm) : Prop :=
  match t with
  | ITNamedNode k => key_ok k
  | ITBlankNode n => IB_ok n
  | ITLiteral l => IL_ok l
  | ITTriple s p o => IN_ok s /\ key_ok p /\ IT_ok o
  end.

(** The blank node whose number is the largest [u128] has no next one. *)
Definition IB_last (n : InternedBlankNode) : bool :=
  match n with IBNumber id => id =? int_max U128 | IBOther _ => false end.
Definition IN_last (n : InternedNamedOrBlankNode) : bool :=
  match n with INBlankNode n => IB_last n | _ => false end.
Definition IG_last (g : InternedGraphName) : bool :=
  match g with IGBlankNode n => IB_last n | _ => false end.
Fixpoint IT_last (t : InternedTerm) : bool :=
  match t with ITBlankNode n => IB_last n | ITTriple _ _ o => IT_last o | _ => false end.

Lemma Key_next_ok (k : Z) : key_ok k -> Key_next k = k + 1.
Proof. unfold key_ok, Key_next. lia. Qed.

(** [y] is in the interval from [x] to its [next] exactly when it is [x]. *)
Definition alone {A : Type} (ok : A -> Prop) (code : A -> list Z) (next : A -> A) (x : A) : Prop :=
  ltb (code x) (code (next x)) = true /\
  forall y, ok y -> leb (code x) (code y) = true -> ltb (code y) (code (next x)) = true -> exists rest, code y = code x ++ rest.

Lemma alone_prefix {A B : Type} (ok : A -> Prop) (ok' : B -> Prop) (code : A -> list Z) (code' : B -> list Z) (next : A -> A) (next' : B -> B) (x : A) (z : B) (p : list Z) :
  alone ok' code' next' z -> code x = p ++ code' z -> code (next x) = p ++ code' (next' z) ->
  (forall y c, ok y -> code y = p ++ c -> exists w, ok' w /\ c = code' w) -> alone ok code next x.
Proof.
  intros [H1 H2] E1 E2 Hy. split; rewrite E1, E2; [by apply ltb_prefix|]. intros y Hok Ha Hb.
  destruct (between_prefix p _ _ _ Ha Hb) as (c & Hc & Hc1 & Hc2). destruct (Hy y c Hok Hc) as (w & Hw & ->).
  destruct (H2 w Hw Hc1 Hc2) as [rest Hr]. exists rest. by rewrite Hc, Hr, app_assoc.
Qed.

Lemma alone_key {A : Type} (ok : A -> Prop) (code : A -> list Z) (next : A -> A) (x : A) (p : list Z) (k : Z) :
  code x = p ++ [k] -> code (next x) = p ++ [k + 1] -> alone ok code next x.
Proof.
  intros E1 E2. split; rewrite E1, E2; [apply ltb_prefix, ltb_key|]. intros y _ Ha Hb.
  destruct (between_prefix p _ _ _ Ha Hb) as (c & Hc & Hc1 & Hc2). destruct (between_key k c Hc1 Hc2) as [rest ->].
  exists rest. by rewrite Hc, <- app_assoc.
Qed.

Lemma IB_alone (n : InternedBlankNode) : IB_ok n -> IB_last n = false -> alone IB_ok IB_code IB_next n.
Proof.
  destruct n as [id|k]; simpl; intros H1 H2.
  - apply (alone_key _ _ _ _ [0] id); [done|]. simpl. bool_to_prop. do 2 f_equal. lia.
  - apply (alone_key _ _ _ _ [1] k); [done|]. simpl. by rewrite Key_next_ok.
Qed.

Lemma IL_alone (l : InternedLiteral) : IL_ok l -> alone IL_ok IL_code IL_next l.
Proof.
  destruct l as [v|v l|v l []|v d]; simpl; [intros Hv|intros [Hv Hl]..].
  - apply (alone_key _ _ _ _ [0] v); [done|]. simpl. by rewrite Key_next_ok.
  - apply (alone_key _ _ _ _ [1; v] l); [done|]. simpl. by rewrite Key_next_ok.
  - split.
    + cbn [IL_code IL_next negb]. rewrite Key_next_ok by done. apply (ltb_prefix [2; v] [l; 1] [l + 1; 0]).
      unfold ltb, cmp, list_ord. cbn. unfold cmp, Z_ord. destruct (Z.compare_spec l (l + 1)); try done; lia.
    + intros y _. cbn [IL_code IL_next negb]. rewrite Key_next_ok by done. intros Ha Hb.
      destruct (between_prefix [2; v] [l; 1] [l + 1; 0] _ Ha Hb) as (c & Hc & Hc1 & Hc2).
      destruct y as [| |v' l' b|]; simplify_eq/=. exists []. unfold leb, ltb, cmp, list_ord in Hc1, Hc2. cbn in Hc1, Hc2.
      unfold cmp, Z_ord in Hc1, Hc2. destruct b; [|destruct (Z.compare_spec l l'), (Z.compare_spec l' (l + 1)); try done; lia].
      destruct (Z.compare_spec l l'), (Z.compare_spec l' (l + 1)); try done; try lia. by subst.
  - apply (alone_key _ _ _ _ [2; v; l] 0); done.
  - apply (alone_key _ _ _ _ [3; v] d); [done|]. simpl. by rewrite Key_next_ok.
Qed.

Lemma IN_alone (n : InternedNamedOrBlankNode) : IN_ok n -> IN_last n = false -> alone IN_ok IN_code IN_next n.
Proof.
  destruct n as [k|n]; intros H1 H2.
  - apply (alone_key _ _ _ _ [0] k); [done|]. simpl. by rewrite Key_next_ok.
  - eapply (alone_prefix _ _ _ _ _ _ _ n [1]); [by apply IB_alone|done|done|].
    intros [k|m] c Hok E; simplify_eq/=. by exists m.
Qed.

Lemma IG_alone (g : InternedGraphName) : IG_ok g -> IG_last g = false -> alone IG_ok IG_code IG_next g.
Proof.
  destruct g as [|k|n]; intros H1 H2.
  - split; [done|]. intros [|k|n] Hok _; [by exists []|..]; unfold ltb, cmp, list_ord, Key_first; cbn; unfold cmp, Z_ord, Key_first; [|done].
    destruct (Z.compare_spec k 0) as [E|E|E]; try done. cbn in Hok. unfold key_ok in Hok. lia.
  - apply (alone_key _ _ _ _ [1] k); [done|]. simpl. by rewrite Key_next_ok.
  - eapply (alone_prefix _ _ _ _ _ _ _ n [2]); [by apply IB_alone|done|done|].
    intros [|k|m] c Hok E; simplify_eq/=. by exists m.
Qed.

Lemma IT_alone (t : InternedTerm) : IT_ok t -> IT_last t = false -> alone IT_ok IT_code IT_next t.
Proof.
  induction t as [k|n|l|s p o IH]; intros H1 H2.
  - apply (alone_key _ _ _ _ [0] k); [done|]. simpl. by rewrite Key_next_ok.
  - eapply (alone_prefix _ _ _ _ _ _ _ n [1]); [by apply IB_alone|done|done|].
    intros [k|m|l|s p o] c Hok E; simplify_eq/=. by exists m.
  - eapply (alone_prefix _ _ _ _ _ _ _ l [2]); [by apply IL_alone|done|done|].
    intros [k|m|l'|s p o] c Hok E; simplify_eq/=. by exists l'.
  - destruct H1 as (Hs & Hp & Ho).
    eapply (alone_prefix _ _ _ _ _ _ _ o (3 :: IN_code s ++ [p])); [by apply IH|simpl; by rewrite <- app_assoc..|].
    intros [k|m|l|s' p' o'] c Hok E; try discriminate E. cbn [IT_code app] in E. rewrite <- app_assoc in E. injection E as E.
    apply IN_code_app in E as [-> E]. simplify_eq/=. exists o'. by destruct Hok as (_ & _ & Hok).
Qed.

(** ** Ranges over the first component *)

(** The class of interned terms with [first] and [next]. *)
Class Stepped (A : Type) `{RustOrd A} := {
  st_ok : A -> Prop;
  st_first : A;
  st_next : A -> A;
  st_last : A -> bool;
  st_first_least : forall y, st_ok y -> leb st_first y = true;
  st_alone : forall x y, st_ok x -> st_ok y -> leb x y && ltb y (st_next x) = true <-> y = x /\ st_last x = false
}.

Lemma code_stepped {A : Type} (ok : A -> Prop) (code : A -> list Z) (next : A -> A) (last : A -> bool) (x y : A) :
  (forall a b x y, code a ++ x = code b ++ y -> a = b /\ x = y) ->
  (last x = false -> alone ok code next x) -> (last x = true -> next x = x) -> ok y ->
  leb (code x) (code y) && ltb (code y) (code (next x)) = true <-> y = x /\ last x = false.
Proof.
  intros Hinj Hal Hlast Hy. destruct (last x) eqn:E.
  - rewrite (Hlast eq_refl). split; [|naive_solver]. intros [H1 H2]%andb_prop. exfalso.
    unfold leb, ltb in *. rewrite (cmp_antisym (code x) (code y)) in H2. by destruct (cmp (code x) (code y)).
  - destruct (Hal eq_refl) as [H1 H2]. split.
    + intros [Ha Hb]%andb_prop. split; [|done]. destruct (H2 y Hy Ha Hb) as [rest Hr].
      by destruct (Hinj y x [] rest) as [-> _]; [rewrite app_nil_r|].
    + intros [-> _]. by rewrite leb_refl, H1.
Qed.

Lemma interval_empty {A : Type} `{RustOrdLaws A} (x y : A) : leb x y && ltb y x = false.
Proof. unfold leb, ltb. rewrite (cmp_antisym x y). by destruct (cmp x y). Qed.

Lemma first_key (k : Z) (rest : list Z) (p : list Z) : 0 <= k -> leb (p ++ [0]) (p ++ k :: rest) = true.
Proof.
  intros Hk. unfold leb, cmp, list_ord. induction p as [|x p IH]; cbn [app list_cmp].
  - unfold cmp, Z_ord. destruct (Z.compare_spec 0 k); try done; [by destruct rest|lia].
  - rewrite cmp_refl. exact IH.
Qed.

Lemma first_later (k : Z) (a rest : list Z) : 0 < k -> leb (0 :: a) (k :: rest) = true.
Proof. intros Hk. unfold leb, cmp, list_ord. cbn [list_cmp]. unfold cmp, Z_ord. by rewrite (proj2 (Z.compare_lt_iff 0 k)). Qed.

#[global, program] Instance Z_stepped : Stepped Z :=
  {| st_ok := key_ok; st_first := Key_first; st_next := Key_next; st_last := fun _ => false |}.
Next Obligation. intros y Hy. unfold key_ok, leb, cmp, Z_ord, Key_first in *. destruct (Z.compare_spec 0 y); try done; lia. Qed.
Next Obligation.
  intros x y Hx Hy. rewrite Key_next_ok by done. unfold key_ok, leb, ltb, cmp, Z_ord in *.
  destruct (Z.compare_spec x y), (Z.compare_spec y (x + 1)); simpl; split; intros Hi; try discriminate Hi; try (destruct Hi; lia); try (split; [lia|done]); try reflexivity; lia.
Qed.

#[global, program] Instance IN_stepped : Stepped InternedNamedOrBlankNode :=
  {| st_ok := IN_ok; st_first := IN_first; st_next := IN_next; st_last := IN_last |}.
Next Obligation.
  intros [k|n] Hy; unfold leb, cmp, IN_ord; [apply (first_key k [] [0]); by destruct Hy|by apply first_later].
Qed.
Next Obligation.
  intros x y Hx Hy. apply (code_stepped IN_ok IN_code IN_next IN_last); [apply IN_code_app|by intros; apply IN_alone| |done].
  destruct x as [k|[id|k]]; try done. simpl. intros H. bool_to_prop. subst. done.
Qed.

#[global, program] Instance IG_stepped : Stepped InternedGraphName :=
  {| st_ok := IG_ok; st_first := IG_first; st_next := IG_next; st_last := IG_last |}.
Next Obligation. by intros [|k|n] Hy. Qed.
Next Obligation.
  intros x y Hx Hy. apply (code_stepped IG_ok IG_code IG_next IG_last); [apply IG_code_app|by intros; apply IG_alone| |done].
  destruct x as [|k|[id|k]]; try done. simpl. intros H. bool_to_prop. subst. done.
Qed.

Lemma IT_last_next (t : InternedTerm) : IT_last t = true -> IT_next t = t.
Proof.
  induction t as [k|[id|k]|l|s p o IH]; simpl; intros H; try done; [|by rewrite IH].
  bool_to_prop. subst. done.
Qed.

#[global, program] Instance IT_stepped : Stepped InternedTerm :=
  {| st_ok := IT_ok; st_first := IT_first; st_next := IT_next; st_last := IT_last |}.
Next Obligation.
  intros [k|n|l|s p o] Hy; unfold leb, cmp, IT_ord; [apply (first_key k [] [0]); by destruct Hy|by apply first_later..].
Qed.
Next Obligation.
  intros x y Hx Hy. apply (code_stepped IT_ok IT_code IT_next IT_last); [apply IT_code_app|by intros; apply IT_alone|apply IT_last_next|done].
Qed.

(** Nothing is below the [first] of its type. *)
Create HintDb interning.
Lemma Key_first_least (k : Z) : key_ok k -> leb Key_first k = true.
Proof. exact (@st_first_least _ _ Z_stepped k). Qed.
Lemma IN_first_least (n : InternedNamedOrBlankNode) : IN_ok n -> leb IN_first n = true.
Proof. exact (@st_first_least _ _ IN_stepped n). Qed.
Lemma IG_first_least (g : InternedGraphName) : IG_ok g -> leb IG_first g = true.
Proof. exact (@st_first_least _ _ IG_stepped g). Qed.
Lemma IT_first_least (t : InternedTerm) : IT_ok t -> leb IT_first t = true.
Proof. exact (@st_first_least _ _ IT_stepped t). Qed.
#[export] Hint Resolve Key_first_least IN_first_least IG_first_least IT_first_least : interning.
