(* ===== verification/OxInterningFacts.v ===== *)
(** * Interned terms: the round trip

    When the strings at hand have distinct hashes, interning a term returns,
    keeps every term interned before, and gives the term's own key; the key is
    found again exactly for the terms interned before, and decodes to the term. *)
From stdpp Require Import gmap.
From S2P Require Import Prelude MachineInt RustStr BTree RdfModel RdfDisplay OxInterning.
From S2P Require Import OxOrderFacts.

(** ** Terms the constructors build *)

(** A blank node is the one its text denotes; the largest number is left out. *)
Definition Blank_wf (n : RdfBlankNode) : bool :=
  bool_decide (BlankNode_new_unchecked (BlankNode_as_str n) = n)
  && match BlankNode_unique_id n with Some id => (0 <=? id) && (id <? int_max U128) | None => true end.
Definition Lit_wf (l : RdfLiteral) : bool :=
  match l with TypedLiteral v d => bool_decide (Literal_new_typed_literal v d = Some l) | _ => true end.
Definition Node_wf (n : RdfNamedOrBlankNode) : bool :=
  match n with NodeNamed _ => true | NodeBlank n => Blank_wf n end.
Definition Graph_wf (g : RdfGraphName) : bool :=
  match g with GraphBlankNode n => Blank_wf n | _ => true end.
Fixpoint Term_wf (t : RdfTerm) : bool :=
  match t with
  | TermNamedNode _ => true
  | TermBlankNode n => Blank_wf n
  | TermLiteral l => Lit_wf l
  | TermTriple s _ o => Node_wf s && Term_wf o
  end.

(** The strings a term is made of. *)
Definition Blank_strings (n : RdfBlankNode) : list bytes :=
  match BlankNode_unique_id n with Some _ => [] | None => [BlankNode_as_str n] end.
Definition Lit_strings (l : RdfLiteral) : list bytes :=
  match l with
  | LiteralString v => [v]
  | LanguageTaggedString v l | DirectionalLanguageTaggedString v l _ => [v; l]
  | TypedLiteral v d => [v; nn_iri d]
  end.
Definition Node_strings (n : RdfNamedOrBlankNode) : list bytes :=
  match n with NodeNamed n => [nn_iri n] | NodeBlank n => Blank_strings n end.
Definition Graph_strings (g : RdfGraphName) : list bytes :=
  match g with GraphDefault => [] | GraphNamedNode n => [nn_iri n] | GraphBlankNode n => Blank_strings n end.
Fixpoint Term_strings (t : RdfTerm) : list bytes :=
  match t with
  | TermNamedNode n => [nn_iri n]
  | TermBlankNode n => Blank_strings n
  | TermLiteral l => Lit_strings l
  | TermTriple s p o => Node_strings s ++ nn_iri p :: Term_strings o
  end.

Section interning.
  Context {P : InternerParams}.

(** ** Keys *)

Definition Blank_key (n : RdfBlankNode) : InternedBlankNode :=
  match BlankNode_unique_id n with Some id => IBNumber id | None => IBOther (hash (BlankNode_as_str n)) end.
Definition Lit_key (l : RdfLiteral) : InternedLiteral :=
  match l with
  | LiteralString v => ILString (hash v)
  | LanguageTaggedString v l => ILLanguageTaggedString (hash v) (hash l)
  | DirectionalLanguageTaggedString v l d =>
      ILDirectionalLanguageTaggedString (hash v) (hash l) (match d with Ltr => true | Rtl => false end)
  | TypedLiteral v d => ILTypedLiteral (hash v) (hash (nn_iri d))
  end.
Definition Node_key (n : RdfNamedOrBlankNode) : InternedNamedOrBlankNode :=
  match n with NodeNamed n => INNamedNode (hash (nn_iri n)) | NodeBlank n => INBlankNode (Blank_key n) end.
Definition Graph_key (g : RdfGraphName) : InternedGraphName :=
  match g with
  | GraphDefault => IGDefaultGraph
  | GraphNamedNode n => IGNamedNode (hash (nn_iri n))
  | GraphBlankNode n => IGBlankNode (Blank_key n)
  end.
Fixpoint Term_key (t : RdfTerm) : InternedTerm :=
  match t with
  | TermNamedNode n => ITNamedNode (hash (nn_iri n))
  | TermBlankNode n => ITBlankNode (Blank_key n)
  | TermLiteral l => ITLiteral (Lit_key l)
  | TermTriple s p o => ITTriple (Node_key s) (hash (nn_iri p)) (Term_key o)
  end.

(** ** Known terms *)

Definition str_known (it : Interner) (s : bytes) : Prop := string_for_hash it !! hash s = Some s.
Definition Blank_known (it : Interner) (n : RdfBlankNode) : Prop :=
  match BlankNode_unique_id n with
  | Some id => string_for_blank_node_id it !! id = Some (BlankNode_as_str n)
  | None => str_known it (BlankNode_as_str n)
  end.
Definition Lit_known (it : Interner) (l : RdfLiteral) : Prop := Forall (str_known it) (Lit_strings l).
Definition Node_known (it : Interner) (n : RdfNamedOrBlankNode) : Prop :=
  match n with NodeNamed n => str_known it (nn_iri n) | NodeBlank n => Blank_known it n end.
Definition Graph_known (it : Interner) (g : RdfGraphName) : Prop :=
  match g with
  | GraphDefault => True
  | GraphNamedNode n => str_known it (nn_iri n)
  | GraphBlankNode n => Blank_known it n
  end.
Fixpoint Term_known (it : Interner) (t : RdfTerm) : Prop :=
  match t with
  | TermNamedNode n => str_known it (nn_iri n)
  | TermBlankNode n => Blank_known it n
  | TermLiteral l => Lit_known it l
  | TermTriple s p o =>
      Node_known it s /\ str_known it (nn_iri p) /\ Term_known it o /\ triples it !! Term_key t = Some (s, p, o)
  end.

(** ** The interner's invariant *)

(** Hashes are 64 bits wide, and those of the strings of [S] are distinct. *)
Class GoodHash (S : bytes -> Prop) : Prop := {
  hash_one_range : forall s, S s -> 0 <= hash_one s <= u64_max;
  hash_distinct : forall a b, S a -> S b -> hash a = hash b -> a = b
}.

Context (S : bytes -> Prop) {HS : GoodHash S}.

Record Interner_ok (it : Interner) : Prop := {
  ok_string : forall h s, string_for_hash it !! h = Some s -> h = hash s /\ S s;
  ok_blank : forall id s, string_for_blank_node_id it !! id = Some s -> BlankNode_new_unchecked s = BlankAnonymous id s;
  ok_triple : forall t s p o, triples it !! t = Some (s, p, o) ->
    t = Term_key (TermTriple s p o) /\ Term_known it (TermTriple s p o) /\ Term_wf (TermTriple s p o) = true
}.

Record extends (it it' : Interner) : Prop := {
  extends_string : string_for_hash it ⊆ string_for_hash it';
  extends_blank : string_for_blank_node_id it ⊆ string_for_blank_node_id it';
  extends_triple : triples it ⊆ triples it'
}.
#[global] Instance extends_preorder : PreOrder extends.
Proof. split; [by split|]. intros a b c [] []. split; by etrans. Qed.

Lemma Interner_default_ok : Interner_ok Interner_default.
Proof. split; simpl; intros *; by rewrite lookup_empty. Qed.

Lemma hash_key_ok (s : bytes) : S s -> key_ok (hash s).
Proof.
  intros Hs. pose proof (hash_one_range s Hs). unfold hash, key_ok. assert (0 < u64_max) by done.
  destruct (Z.eqb_spec (hash_one s) u64_max); lia.
Qed.

(** *** What is known stays known *)

Lemma str_known_mono it it' s : extends it it' -> str_known it s -> str_known it' s.
Proof. intros [H _ _] Hk. by apply (lookup_weaken _ _ _ _ Hk). Qed.
Lemma Blank_known_mono it it' n : extends it it' -> Blank_known it n -> Blank_known it' n.
Proof.
  intros H. unfold Blank_known. destruct (BlankNode_unique_id n); [|by apply str_known_mono].
  intros. eapply lookup_weaken; [done|apply H].
Qed.
Lemma Lit_known_mono it it' l : extends it it' -> Lit_known it l -> Lit_known it' l.
Proof. intros H. apply Forall_impl. intros s. by apply str_known_mono. Qed.
Lemma Node_known_mono it it' n : extends it it' -> Node_known it n -> Node_known it' n.
Proof. destruct n; [apply str_known_mono|apply Blank_known_mono]. Qed.
Lemma Graph_known_mono it it' g : extends it it' -> Graph_known it g -> Graph_known it' g.
Proof. destruct g; [apply str_known_mono|apply Blank_known_mono|done]. Qed.
Lemma Term_known_mono it it' t : extends it it' -> Term_known it t -> Term_known it' t.
Proof.
  intros H. induction t as [n|n|l|s p o IH]; simpl; [by apply str_known_mono|by apply Blank_known_mono|by apply Lit_known_mono|].
  intros (Hs & Hp & Ho & Ht). repeat split; [by eapply Node_known_mono|by eapply str_known_mono|by apply IH|].
  eapply lookup_weaken; [done|apply H].
Qed.

(** ** Strings *)

Lemma set_string_extends it s : string_for_hash it !! hash s = None -> extends it (set_string it (hash s) s).
Proof. intros H. split; simpl; [by apply insert_subseteq|done..]. Qed.

Lemma stored_at_hash it s v : Interner_ok it -> S s -> string_for_hash it !! hash s = Some v -> v = s.
Proof. intros Hok Hs Hv. destruct (ok_string it Hok _ _ Hv) as [Hh Hv']. symmetry. by apply hash_distinct. Qed.

Lemma set_string_ok it s :
  Interner_ok it -> S s -> string_for_hash it !! hash s = None -> Interner_ok (set_string it (hash s) s).
Proof.
  intros Hok Hs Hn. split; cbn [set_string string_for_hash string_for_blank_node_id triples].
  - intros h v. destruct (decide (h = hash s)) as [->|Hne]; [rewrite lookup_insert_eq; naive_solver|].
    rewrite lookup_insert_ne by done. apply (ok_string it Hok).
  - apply (ok_blank it Hok).
  - intros t x p o Ht. destruct (ok_triple it Hok t x p o Ht) as (H1 & H2 & H3). split; [done|split; [|done]].
    eapply Term_known_mono; [by apply set_string_extends|done].
Qed.

Lemma get_or_intern_spec it s :
  Interner_ok it -> S s ->
  exists it', get_or_intern s it = Some (hash s, it') /\ Interner_ok it' /\ extends it it' /\ str_known it' s.
Proof.
  intros Hok Hs. unfold get_or_intern. destruct (string_for_hash it !! hash s) as [e|] eqn:E.
  - assert (e = s) as -> by (by eapply stored_at_hash). exists it. simpl. by rewrite decide_True.
  - exists (set_string it (hash s) s). split; [done|]. split; [by apply set_string_ok|].
    split; [by apply set_string_extends|]. apply lookup_insert_eq.
Qed.

Lemma get_spec it s k : Interner_ok it -> S s -> get s it = Some k <-> k = hash s /\ str_known it s.
Proof.
  intros Hok Hs. unfold get, str_known. simpl. destruct (string_for_hash it !! hash s) as [v|] eqn:E; simpl; [|naive_solver].
  assert (v = s) as -> by (by eapply stored_at_hash). rewrite decide_True by done. naive_solver.
Qed.

(** ** Terms *)

(** What interning promises to its clients: for a type of terms, the key of a
    term, and how [encoded_into], [encoded_from] and [decode_from] act on it. *)
Class InternedAs (A B : Type) := {
  ia_wf : A -> bool;
  ia_strings : A -> list bytes;
  ia_key : A -> B;
  ia_known : Interner -> A -> Prop;
  ia_into : A -> Interner -> option (B * Interner);
  ia_from : A -> Interner -> option B;
  ia_decode : B -> Interner -> option A;
  ia_mono : forall it it' a, extends it it' -> ia_known it a -> ia_known it' a;
  ia_into_spec : forall it a, Interner_ok it -> ia_wf a = true -> Forall S (ia_strings a) ->
    exists it', ia_into a it = Some (ia_key a, it') /\ Interner_ok it' /\ extends it it' /\ ia_known it' a;
  ia_from_spec : forall it a k, Interner_ok it -> ia_wf a = true -> Forall S (ia_strings a) ->
    ia_from a it = Some k <-> k = ia_key a /\ ia_known it a;
  ia_decode_spec : forall it a, ia_wf a = true -> ia_known it a -> ia_decode (ia_key a) it = Some a
}.

#[global] Instance NamedNode_interned : InternedAs RdfNamedNode Z.
Proof.
  refine {| ia_wf := fun _ => true; ia_strings := fun n => [nn_iri n]; ia_key := fun n => hash (nn_iri n);
    ia_known := fun it n => str_known it (nn_iri n); ia_into := NamedNode_encoded_into;
    ia_from := NamedNode_encoded_from; ia_decode := NamedNode_decode_from |}.
  - intros it it' a. apply str_known_mono.
  - intros it a Hok _ [Ha _]%Forall_cons_iff. by apply get_or_intern_spec.
  - intros it a k Hok _ [Ha _]%Forall_cons_iff. by apply get_spec.
  - intros it [s] _ Hk. unfold NamedNode_decode_from, resolve. by rewrite Hk.
Defined.

Lemma Blank_wf_anonymous id s : Blank_wf (BlankAnonymous id s) = true -> BlankNode_new_unchecked s = BlankAnonymous id s.
Proof. unfold Blank_wf. intros [H _]%andb_prop. by apply bool_decide_eq_true in H. Qed.

Lemma new_unchecked_anonymous s s' id t t' :
  BlankNode_new_unchecked s = BlankAnonymous id t -> BlankNode_new_unchecked s' = BlankAnonymous id t' -> t = t'.
Proof.
  unfold BlankNode_new_unchecked. destruct (to_integer_id s), (to_integer_id s'); try done.
  unfold BlankNode_new_from_unique_id. naive_solver.
Qed.

Lemma add_blank_ok it id s :
  Interner_ok it -> BlankNode_new_unchecked s = BlankAnonymous id s -> string_for_blank_node_id it !! id = None ->
  let it' := mkInterner (string_for_hash it) (<[id := s]> (string_for_blank_node_id it)) (triples it) in
  Interner_ok it' /\ extends it it'.
Proof.
  intros Hok Hb Hn. assert (extends it (mkInterner (string_for_hash it) (<[id := s]> (string_for_blank_node_id it)) (triples it))) as He.
  { split; simpl; [done|by apply insert_subseteq|done]. }
  split; [|done]. split; cbn [string_for_hash string_for_blank_node_id triples].
  - apply (ok_string it Hok).
  - intros id' s'. destruct (decide (id' = id)) as [->|Hne]; [rewrite lookup_insert_eq; naive_solver|].
    rewrite lookup_insert_ne by done. apply (ok_blank it Hok).
  - intros t x p o Ht. destruct (ok_triple it Hok t x p o Ht) as (H1 & H2 & H3). split; [done|split; [|done]].
    by eapply Term_known_mono.
Qed.

#[global] Instance BlankNode_interned : InternedAs RdfBlankNode InternedBlankNode.
Proof.
  refine {| ia_wf := Blank_wf; ia_strings := Blank_strings; ia_key := Blank_key;
    ia_known := Blank_known; ia_into := BlankNode_encoded_into;
    ia_from := BlankNode_encoded_from; ia_decode := BlankNode_decode_from |}.
  - apply Blank_known_mono.
  - intros it [s|id s] Hok Hwf HS'; unfold BlankNode_encoded_into, Blank_known; cbn [BlankNode_unique_id BlankNode_as_str].
    + apply Forall_cons_iff in HS' as [Ha _]. destruct (get_or_intern_spec it s Hok Ha) as (it' & -> & H). by exists it'.
    + apply Blank_wf_anonymous in Hwf. destruct (string_for_blank_node_id it !! id) as [s'|] eqn:E.
      * exists it. destruct it; simpl in *. split; [done|]. split; [done|]. split; [done|]. rewrite E. f_equal.
        by eapply new_unchecked_anonymous; [apply (ok_blank _ Hok _ _ E)|].
      * eexists. split; [done|]. destruct (add_blank_ok it id s Hok Hwf E) as [H1 H2]. split; [done|]. split; [done|]. apply lookup_insert_eq.
  - intros it [s|id s] k Hok Hwf HS'; unfold BlankNode_encoded_from, Blank_known, Blank_key; cbn [BlankNode_unique_id BlankNode_as_str].
    + apply Forall_cons_iff in HS' as [Ha _]. rewrite bind_Some. setoid_rewrite (get_spec it s _ Hok Ha). naive_solver.
    + apply Blank_wf_anonymous in Hwf. destruct (string_for_blank_node_id it !! id) as [s'|] eqn:E; [|naive_solver].
      assert (s' = s) as -> by (by eapply new_unchecked_anonymous; [apply (ok_blank _ Hok _ _ E)|]). naive_solver.
  - intros it n Hwf Hk. unfold BlankNode_decode_from, Blank_key, Blank_known in *.
    assert (BlankNode_new_unchecked (BlankNode_as_str n) = n) as Hn by (apply andb_prop in Hwf as [Hwf _]; by apply bool_decide_eq_true in Hwf).
    destruct (BlankNode_unique_id n); unfold resolve; rewrite Hk; simpl; by rewrite Hn.
Defined.

(** Two strings, one after the other. *)
Lemma get_or_intern_two it a b :
  Interner_ok it -> S a -> S b ->
  exists it1 it2, get_or_intern a it = Some (hash a, it1) /\ get_or_intern b it1 = Some (hash b, it2)
    /\ Interner_ok it2 /\ extends it it2 /\ str_known it2 a /\ str_known it2 b.
Proof.
  intros Hok Ha Hb. destruct (get_or_intern_spec it a Hok Ha) as (it1 & E1 & Hok1 & He1 & Hk1).
  destruct (get_or_intern_spec it1 b Hok1 Hb) as (it2 & E2 & Hok2 & He2 & Hk2). exists it1, it2.
  split_and!; [done..|by etrans|by eapply str_known_mono|done].
Qed.

Lemma Literal_into_spec it l :
  Interner_ok it -> Lit_wf l = true -> Forall S (Lit_strings l) ->
  exists it', Literal_encoded_into l it = Some (Lit_key l, it') /\ Interner_ok it' /\ extends it it' /\ Lit_known it' l.
Proof.
  intros Hok _ HS'. destruct l as [v|v l|v l d|v [d]]; unfold Literal_encoded_into, Lit_known; cbn [Literal_destruct Lit_strings] in *.
  1: { apply Forall_cons_iff in HS' as [Hv _]. destruct (get_or_intern_spec it v Hok Hv) as (it' & -> & ? & ? & ?). exists it'. by rewrite Forall_singleton. }
  all: apply Forall_cons_iff in HS' as [Hv HS']; apply Forall_cons_iff in HS' as [Hl _].
  all: destruct (get_or_intern_two it v _ Hok Hv Hl) as (it1 & it2 & E1 & E2 & Hok2 & He2 & Hk1 & Hk2).
  all: rewrite E1; cbn [mbind option_bind]; unfold NamedNode_encoded_into; rewrite E2; exists it2.
  all: split; [done|split; [done|split; [done|repeat constructor; done]]].
Qed.

Lemma Literal_from_spec it l k :
  Interner_ok it -> Lit_wf l = true -> Forall S (Lit_strings l) ->
  Literal_encoded_from l it = Some k <-> k = Lit_key l /\ Lit_known it l.
Proof.
  intros Hok Hwf HS'. unfold Literal_encoded_from, Lit_known, NamedNode_encoded_from.
  destruct l as [v|v l|v l d|v [d]]; cbn [Literal_value Literal_language Literal_direction Literal_datatype Lit_strings nn_iri] in *.
  all: apply Forall_cons_iff in HS' as [Hv HS']; rewrite bind_Some; setoid_rewrite (get_spec it v _ Hok Hv).
  1: { destruct (decide (XSD_STRING = XSD_STRING)); [|done]. rewrite Forall_singleton. naive_solver. }
  all: apply Forall_cons_iff in HS' as [Hl _]; rewrite Forall_cons_iff, Forall_singleton.
  3: { destruct (decide (mkNamedNode d = XSD_STRING)) as [E|_];
         [unfold Lit_wf in Hwf; rewrite E in Hwf; apply bool_decide_eq_true in Hwf; discriminate Hwf|].
       setoid_rewrite bind_Some. setoid_rewrite (get_spec it d _ Hok Hl). naive_solver. }
  all: setoid_rewrite bind_Some; setoid_rewrite (get_spec it l _ Hok Hl); naive_solver.
Qed.

Lemma Literal_decode_spec it l : Lit_wf l = true -> Lit_known it l -> Literal_decode_from (Lit_key l) it = Some l.
Proof.
  intros Hwf Hk. destruct l as [v|v l|v l d|v [d]]; unfold Lit_known, NamedNode_decode_from in *; cbn [Lit_strings nn_iri] in *.
  all: apply Forall_cons_iff in Hk as [Hv Hk]; unfold str_known in Hv; cbn [Literal_decode_from Lit_key nn_iri]; unfold resolve, NamedNode_decode_from; rewrite Hv.
  1: done.
  all: apply Forall_cons_iff in Hk as [Hl _]; unfold str_known in Hl; cbn [mbind option_bind]; unfold resolve; rewrite Hl.
  1: done. 1: by destruct d.
  by apply bool_decide_eq_true in Hwf.
Qed.

#[global] Instance Literal_interned : InternedAs RdfLiteral InternedLiteral := {|
  ia_wf := Lit_wf; ia_strings := Lit_strings; ia_key := Lit_key; ia_known := Lit_known;
  ia_into := Literal_encoded_into; ia_from := Literal_encoded_from; ia_decode := Literal_decode_from;
  ia_mono := Lit_known_mono; ia_into_spec := Literal_into_spec; ia_from_spec := Literal_from_spec;
  ia_decode_spec := Literal_decode_spec |}.

(** A constructor of terms over an interned type. *)
Lemma lift_into {A B C : Type} `{InternedAs A B} (c : B -> C) it a :
  Interner_ok it -> ia_wf a = true -> Forall S (ia_strings a) ->
  exists it', (r ← ia_into a it; Some (c r.1, r.2)) = Some (c (ia_key a), it') /\ Interner_ok it' /\ extends it it' /\ ia_known it' a.
Proof. intros Hok Hwf HS'. destruct (ia_into_spec it a Hok Hwf HS') as (it' & -> & ?). by exists it'. Qed.
Lemma lift_from {A B C : Type} `{InternedAs A B} (c : B -> C) it a k :
  Interner_ok it -> ia_wf a = true -> Forall S (ia_strings a) -> c <$> ia_from a it = Some k <-> k = c (ia_key a) /\ ia_known it a.
Proof. intros Hok Hwf HS'. rewrite fmap_Some. setoid_rewrite ia_from_spec; [|done..]. naive_solver. Qed.
Lemma lift_decode {A B C : Type} `{InternedAs A B} (c : A -> C) it a :
  ia_wf a = true -> ia_known it a -> c <$> ia_decode (ia_key a) it = Some (c a).
Proof. intros Hwf Hk. by rewrite ia_decode_spec. Qed.

#[global] Instance Node_interned : InternedAs RdfNamedOrBlankNode InternedNamedOrBlankNode.
Proof.
  refine {| ia_wf := Node_wf; ia_strings := Node_strings; ia_key := Node_key; ia_known := Node_known;
    ia_into := Node_encoded_into; ia_from := Node_encoded_from; ia_decode := Node_decode_from; ia_mono := Node_known_mono |}.
  - intros it [n|n]; [exact (lift_into INNamedNode it n)|exact (lift_into INBlankNode it n)].
  - intros it [n|n] k; [exact (lift_from INNamedNode it n k)|exact (lift_from INBlankNode it n k)].
  - intros it [n|n]; [exact (lift_decode NodeNamed it n)|exact (lift_decode NodeBlank it n)].
Defined.

#[global] Instance GraphName_interned : InternedAs RdfGraphName InternedGraphName.
Proof.
  refine {| ia_wf := Graph_wf; ia_strings := Graph_strings; ia_key := Graph_key; ia_known := Graph_known;
    ia_into := GraphName_encoded_into; ia_from := GraphName_encoded_from; ia_decode := GraphName_decode_from;
    ia_mono := Graph_known_mono |}.
  - intros it [n|n|]; [exact (lift_into IGNamedNode it n)|exact (lift_into IGBlankNode it n)|]. intros Hok _ _. by exists it.
  - intros it [n|n|] k; [exact (lift_from IGNamedNode it n k)|exact (lift_from IGBlankNode it n k)|]. simpl. naive_solver.
  - intros it [n|n|]; [exact (lift_decode GraphNamedNode it n)|exact (lift_decode GraphBlankNode it n)|done].
Defined.

Lemma Term_decode_spec it t : Term_wf t = true -> Term_known it t -> Term_decode_from (Term_key t) it = Some t.
Proof.
  destruct t as [n|n|l|s p o]; [exact (lift_decode TermNamedNode it n)|exact (lift_decode TermBlankNode it n)|exact (lift_decode TermLiteral it l)|].
  intros _ (_ & _ & _ & Ht). unfold Term_decode_from. cbn [Term_key] in *. by rewrite Ht.
Qed.

(** The triple kept under a key is the only known one with this key. *)
Lemma triple_unique it s p o x :
  Interner_ok it -> Node_wf s && Term_wf o = true -> Node_known it s -> str_known it (nn_iri p) -> Term_known it o ->
  triples it !! ITTriple (Node_key s) (hash (nn_iri p)) (Term_key o) = Some x -> x = (s, p, o).
Proof.
  intros Hok [Hs Ho]%andb_prop Ks Kp Ko Hx. destruct x as [[s' p'] o'].
  destruct (ok_triple it Hok _ _ _ _ Hx) as (Hk & (Ks' & Kp' & Ko' & _) & [Hs' Ho']%andb_prop). cbn [Term_key] in Hk.
  injection Hk as E1 E2 E3.
  pose proof (@ia_decode_spec _ _ Node_interned it s Hs Ks) as D1. pose proof (@ia_decode_spec _ _ Node_interned it s' Hs' Ks') as D1'.
  pose proof (@ia_decode_spec _ _ NamedNode_interned it p eq_refl Kp) as D2. pose proof (@ia_decode_spec _ _ NamedNode_interned it p' eq_refl Kp') as D2'.
  pose proof (Term_decode_spec it o Ho Ko) as D3. pose proof (Term_decode_spec it o' Ho' Ko') as D3'.
  simpl in *. congruence.
Qed.

Lemma add_triple_ok it s p o :
  let t := TermTriple s p o in
  let it' := mkInterner (string_for_hash it) (string_for_blank_node_id it) (<[Term_key t := (s, p, o)]> (triples it)) in
  Interner_ok it -> Term_wf t = true -> Node_known it s -> str_known it (nn_iri p) -> Term_known it o ->
  Interner_ok it' /\ extends it it' /\ Term_known it' t.
Proof.
  intros t it' Hok Hwf Ks Kp Ko. assert (extends it it') as He.
  { split; [done..|]. subst it'. cbn [triples]. destruct (triples it !! Term_key t) as [x|] eqn:E; [|by apply insert_subseteq].
    rewrite insert_id; [done|]. rewrite E. f_equal. by apply (triple_unique it). }
  assert (Term_known it' t) as Kt.
  { split_and!; [by eapply Node_known_mono|by eapply str_known_mono|by eapply Term_known_mono|apply lookup_insert_eq]. }
  split; [|done]. split; [apply (ok_string it Hok)|apply (ok_blank it Hok)|].
  intros u x q z. subst it'. cbn [triples]. destruct (decide (u = Term_key t)) as [->|Hne].
  - rewrite lookup_insert_eq. intros [=<- <- <-]. done.
  - rewrite lookup_insert_ne by done. intros Hu. destruct (ok_triple it Hok _ _ _ _ Hu) as (H1 & H2 & H3).
    split; [done|split; [|done]]. by eapply Term_known_mono.
Qed.

Lemma Term_into_spec it t :
  Interner_ok it -> Term_wf t = true -> Forall S (Term_strings t) ->
  exists it', Term_encoded_into t it = Some (Term_key t, it') /\ Interner_ok it' /\ extends it it' /\ Term_known it' t.
Proof.
  revert it. induction t as [n|n|l|s p o IH]; intros it;
    [exact (lift_into ITNamedNode it n)|exact (lift_into ITBlankNode it n)|exact (lift_into ITLiteral it l)|].
  intros Hok Hwf HS'. pose proof Hwf as Hwf'. cbn [Term_wf Term_strings] in Hwf', HS'.
  apply andb_prop in Hwf' as [Hs Ho]. apply Forall_app in HS' as [Ss HS'].
  apply Forall_cons_iff in HS' as [Sp So]. cbn [Term_encoded_into].
  destruct (@ia_into_spec _ _ Node_interned it s Hok Hs Ss) as (it1 & E1 & Hok1 & He1 & K1). simpl in E1. rewrite E1. cbn [mbind option_bind].
  destruct (get_or_intern_spec it1 (nn_iri p) Hok1 Sp) as (it2 & E2 & Hok2 & He2 & K2).
  unfold NamedNode_encoded_into. rewrite E2. cbn [mbind option_bind].
  destruct (IH it2 Hok2 Ho So) as (it3 & E3 & Hok3 & He3 & K3). rewrite E3. cbn [mbind option_bind].
  destruct (add_triple_ok it3 s p o) as (Hok4 & He4 & K4); [done..| | |done|].
  - eapply Node_known_mono; [|done]. by etrans.
  - by eapply str_known_mono.
  - eexists. split; [done|]. split; [done|]. split; [|done]. by do 3 (etrans; [done|]).
Qed.

Lemma Term_from_spec it t k :
  Interner_ok it -> Term_wf t = true -> Forall S (Term_strings t) ->
  Term_encoded_from t it = Some k <-> k = Term_key t /\ Term_known it t.
Proof.
  intros Hok. revert k. induction t as [n|n|l|s p o IH]; intros k;
    [exact (lift_from ITNamedNode it n k Hok)|exact (lift_from ITBlankNode it n k Hok)|exact (lift_from ITLiteral it l k Hok)|].
  intros Hwf HS'. pose proof Hwf as Hwf'. cbn [Term_wf Term_strings] in Hwf', HS'.
  apply andb_prop in Hwf' as [Hs Ho]. apply Forall_app in HS' as [Ss HS'].
  apply Forall_cons_iff in HS' as [Sp So]. cbn [Term_encoded_from Term_known]. unfold NamedNode_encoded_from. split.
  - intros (s' & (-> & Ks)%(@ia_from_spec _ _ Node_interned it s _ Hok Hs Ss) & H)%bind_Some.
    apply bind_Some in H as (p' & (-> & Kp)%(get_spec it _ _ Hok Sp) & H).
    apply bind_Some in H as (o' & (-> & Ko)%(IH _ Ho So) & H).
    destruct (triples it !! _) as [x|] eqn:E; [|done]. injection H as <-. split; [done|]. split_and!; [done..|].
    f_equal. exact (triple_unique it s p o x Hok Hwf Ks Kp Ko E).
  - intros (-> & Ks & Kp & Ko & Ht). rewrite (proj2 (@ia_from_spec _ _ Node_interned it s _ Hok Hs Ss) (conj eq_refl Ks) : Node_encoded_from s it = _).
    cbn [mbind option_bind]. rewrite (proj2 (get_spec it _ _ Hok Sp) (conj eq_refl Kp)). cbn [mbind option_bind].
    rewrite (proj2 (IH _ Ho So) (conj eq_refl Ko)). cbn [mbind option_bind]. cbn [Term_key] in Ht. simpl ia_key. by rewrite Ht.
Qed.

#[global] Instance Term_interned : InternedAs RdfTerm InternedTerm := {|
  ia_wf := Term_wf; ia_strings := Term_strings; ia_key := Term_key; ia_known := Term_known;
  ia_into := Term_encoded_into; ia_from := Term_encoded_from; ia_decode := Term_decode_from;
  ia_mono := Term_known_mono; ia_into_spec := Term_into_spec; ia_from_spec := Term_from_spec;
  ia_decode_spec := Term_decode_spec |}.

(** *** Keys are good and tell terms apart *)

Lemma ia_key_inj {A B : Type} `{InternedAs A B} it a b :
  ia_wf a = true -> ia_wf b = true -> ia_known it a -> ia_known it b -> ia_key a = ia_key b -> a = b.
Proof.
  intros Ha Hb Ka Kb E. pose proof (ia_decode_spec it a Ha Ka) as Da. pose proof (ia_decode_spec it b Hb Kb) as Db. congruence.
Qed.

Lemma Blank_key_ok n : Blank_wf n = true -> Forall S (Blank_strings n) -> IB_ok (Blank_key n) /\ IB_last (Blank_key n) = false.
Proof.
  unfold Blank_wf, Blank_key, Blank_strings. destruct n as [s|id s]; simpl.
  - intros _ [Hs _]%Forall_cons_iff. split; [by apply hash_key_ok|done].
  - intros H _. bool_to_prop. split; lia.
Qed.
Lemma Lit_key_ok l : Forall S (Lit_strings l) -> IL_ok (Lit_key l).
Proof.
  destruct l as [v|v l|v l d|v [d]]; simpl; intros [Hv H]%Forall_cons_iff; [by apply hash_key_ok|..];
    apply Forall_cons_iff in H as [Hl _]; split; by apply hash_key_ok.
Qed.
Lemma Node_key_ok n : Node_wf n = true -> Forall S (Node_strings n) -> IN_ok (Node_key n) /\ IN_last (Node_key n) = false.
Proof. destruct n as [n|n]; [|by apply Blank_key_ok]. intros _ [Hn _]%Forall_cons_iff. split; [by apply hash_key_ok|done]. Qed.
Lemma Graph_key_ok g : Graph_wf g = true -> Forall S (Graph_strings g) -> IG_ok (Graph_key g) /\ IG_last (Graph_key g) = false.
Proof. destruct g as [n|n|]; [|by apply Blank_key_ok|done]. intros _ [Hn _]%Forall_cons_iff. split; [by apply hash_key_ok|done]. Qed.
Lemma Term_key_ok t : Term_wf t = true -> Forall S (Term_strings t) -> IT_ok (Term_key t) /\ IT_last (Term_key t) = false.
Proof.
  induction t as [n|n|l|s p o IH]; cbn [Term_wf Term_strings].
  - intros _ [Hn _]%Forall_cons_iff. split; [by apply hash_key_ok|done].
  - apply Blank_key_ok.
  - intros _ Hl. split; [by apply Lit_key_ok|done].
  - intros [Hs Ho]%andb_prop [Ss [Sp So]%Forall_cons_iff]%Forall_app. destruct (IH Ho So) as [H1 H2].
    destruct (Node_key_ok s Hs Ss) as [H3 _]. split; [|done]. split_and!; [done|by apply hash_key_ok|done].
Qed.

End interning.
