(* ===== verification/OxDatasetFacts.v ===== *)
(** * In-memory datasets are sets of quads

    A dataset represents a finite set of quads and a finite set of named graphs;
    every operation acts on them as its documentation says, whatever the index
    that answers it. *)
From stdpp Require Import gmap.
From S2P Require Import Prelude MachineInt RustStr BTree RdfModel RdfDisplay OxInterning.
From S2P Require Import OxDataset OxOrderFacts OxInterningFacts.

(** ** Ranges *)

Lemma leb_pair {A B : Type} `{RustOrdLaws A} `{RustOrdLaws B} (a x : A) (b y : B) :
  leb a x = true -> leb b y = true -> leb (a, b) (x, y) = true.
Proof. unfold leb, cmp at 3, pair_ord, pair_cmp. simpl. by destruct (cmp a x). Qed.

Section ranges.
  Context {A B : Type} `{Countable A} `{Countable B} `{RustOrdLaws A} `{RustOrdLaws B} `{!Stepped A}.

Lemma btree_range_NoDup {K : Type} `{Countable K} `{RustOrd K} (low high : K) (s : gset K) :
  NoDup (btree_range low high s).
Proof. apply list.NoDup_filter, NoDup_btree_elements. Qed.

Lemma in_range_first (x : A) (low : B) (y : A * B) :
  leb low y.2 = true -> leb (x, low) y && ltb y (st_next x, low) = leb x y.1 && ltb y.1 (st_next x).
Proof.
  destruct y as [a b]. simpl. intros Hb. unfold leb, ltb in *. unfold cmp at 1 2, pair_ord, pair_cmp. simpl.
  rewrite (cmp_antisym low b) in *. destruct (cmp x a), (cmp a (st_next x)), (cmp low b); done.
Qed.

(** The range of a term, over an index that begins with it. *)
Lemma range_first (x : A) (low : B) (s : gset (A * B)) (y : A * B) :
  (forall y, y ∈ s -> st_ok y.1 /\ leb low y.2 = true) -> st_ok x -> st_last x = false ->
  y ∈ btree_range (x, low) (st_next x, low) s <-> y ∈ s /\ y.1 = x.
Proof.
  intros Hs Hx Hl. unfold btree_range. rewrite list_elem_of_filter, elem_of_btree_elements.
  split; intros [Hi Hy]; (destruct (Hs y) as [Ho Hle]; [done|]).
  - rewrite in_range_first in Hi by done. apply (st_alone x y.1 Hx Ho) in Hi as [Hi _]. done.
  - rewrite in_range_first by done. split; [|done]. by apply (st_alone x y.1 Hx Ho).
Qed.

Lemma range_none (x : A) (low : B) (s : gset (A * B)) : st_next x = x -> btree_range (x, low) (st_next x, low) s = [].
Proof.
  intros ->. unfold btree_range. apply elem_of_nil_inv. intros y [Hi _]%list_elem_of_filter. by rewrite interval_empty in Hi.
Qed.
End ranges.

(** ** The abstract dataset *)

#[global] Instance RdfGraphName_countable : Countable RdfGraphName.
Proof.
  apply (inj_countable' (fun g => match g with GraphNamedNode n => Some (inl n) | GraphBlankNode n => Some (inr n) | GraphDefault => None end)
    (fun g => match g with Some (inl n) => GraphNamedNode n | Some (inr n) => GraphBlankNode n | None => GraphDefault end)). by intros [].
Defined.
#[global] Instance RdfQuad_countable : Countable RdfQuad.
Proof.
  apply (inj_countable' (fun q => (q_subject q, q_predicate q, q_object q, q_graph_name q))
    (fun '(s, p, o, g) => mkQuad s p o g)). by intros [].
Defined.

(** A set of quads and the names of the named graphs, empty ones too. *)
Record QuadSet : Set := mkQuadSet { qs_quads : gset RdfQuad; qs_graphs : gset RdfNamedOrBlankNode }.

(** The graph a quad is in, when it is a named one. *)
Definition graph_node (g : RdfGraphName) : option RdfNamedOrBlankNode :=
  match g with
  | GraphNamedNode n => Some (NodeNamed n)
  | GraphBlankNode n => Some (NodeBlank n)
  | GraphDefault => None
  end.
Definition add_graph (g : RdfGraphName) (gs : gset RdfNamedOrBlankNode) : gset RdfNamedOrBlankNode :=
  match graph_node g with Some n => {[n]} ∪ gs | None => gs end.

(** [l] lists the set [X] of its elements once each. *)
Definition enumerates {A : Type} (l : list A) (X : A -> Prop) : Prop := NoDup l /\ forall x, x ∈ l <-> X x.

Definition Quad_wf (q : RdfQuad) : bool :=
  Node_wf (q_subject q) && Term_wf (q_object q) && Graph_wf (q_graph_name q).
Definition Quad_strings (q : RdfQuad) : list bytes :=
  Node_strings (q_subject q) ++ nn_iri (q_predicate q) :: Term_strings (q_object q) ++ Graph_strings (q_graph_name q).

(** The orders of the indexes. *)
Definition to_gspo (k : InternedQuad) : InternedGraphName * (InternedNamedOrBlankNode * (Z * InternedTerm)) :=
  let '(s, (p, (o, g))) := k in (g, (s, (p, o))).
Definition to_gpos (k : InternedQuad) : InternedGraphName * (Z * (InternedTerm * InternedNamedOrBlankNode)) :=
  let '(s, (p, (o, g))) := k in (g, (p, (o, s))).
Definition to_gosp (k : InternedQuad) : InternedGraphName * (InternedTerm * (InternedNamedOrBlankNode * Z)) :=
  let '(s, (p, (o, g))) := k in (g, (o, (s, p))).
Definition to_posg (k : InternedQuad) : Z * (InternedTerm * (InternedNamedOrBlankNode * InternedGraphName)) :=
  let '(s, (p, (o, g))) := k in (p, (o, (s, g))).
Definition to_ospg (k : InternedQuad) : InternedTerm * (InternedNamedOrBlankNode * (Z * InternedGraphName)) :=
  let '(s, (p, (o, g))) := k in (o, (s, (p, g))).
#[global] Instance to_gspo_inj : Inj (=) (=) to_gspo.
Proof. intros (?&?&?&?) (?&?&?&?) E. by injection E as -> -> -> ->. Qed.
#[global] Instance to_gpos_inj : Inj (=) (=) to_gpos.
Proof. intros (?&?&?&?) (?&?&?&?) E. by injection E as -> -> -> ->. Qed.
#[global] Instance to_gosp_inj : Inj (=) (=) to_gosp.
Proof. intros (?&?&?&?) (?&?&?&?) E. by injection E as -> -> -> ->. Qed.
#[global] Instance to_posg_inj : Inj (=) (=) to_posg.
Proof. intros (?&?&?&?) (?&?&?&?) E. by injection E as -> -> -> ->. Qed.
#[global] Instance to_ospg_inj : Inj (=) (=) to_ospg.
Proof. intros (?&?&?&?) (?&?&?&?) E. by injection E as -> -> -> ->. Qed.

(** Images of sets under a function that is injective where it matters. *)
Lemma set_map_delete {A B : Type} `{Countable A} `{Countable B} (f : A -> B) (X : gset A) (a : A) :
  (forall b, b ∈ X -> f b = f a -> b = a) -> set_map (C := gset A) (D := gset B) f X ∖ {[f a]} = set_map f (X ∖ {[a]}).
Proof.
  intros Hinj. apply set_eq. intros y. rewrite elem_of_difference, elem_of_singleton, !elem_of_map. split.
  - intros ((b & -> & Hb) & Hne). exists b. split; [done|]. apply elem_of_difference. rewrite elem_of_singleton. naive_solver.
  - intros (b & -> & [Hb Hne]%elem_of_difference). rewrite elem_of_singleton in Hne. split; [by exists b|]. intros E. by apply Hne, Hinj.
Qed.
Lemma set_map_insert {A B : Type} `{Countable A} `{Countable B} (f : A -> B) (X : gset A) (a : A) :
  {[f a]} ∪ set_map (C := gset A) (D := gset B) f X = set_map f ({[a]} ∪ X).
Proof. by rewrite set_map_union_L, set_map_singleton_L. Qed.
Lemma elem_of_set_map_inj {A B : Type} `{Countable A} `{Countable B} (f : A -> B) (X : gset A) (a : A) :
  (forall b, b ∈ X -> f b = f a -> b = a) -> f a ∈ set_map (C := gset A) (D := gset B) f X <-> a ∈ X.
Proof. intros Hinj. rewrite elem_of_map. split; [|naive_solver]. intros (b & E & Hb). by rewrite <- (Hinj b Hb (eq_sym E)). Qed.

Lemma set_map_size {A B : Type} `{Countable A} `{Countable B} (f : A -> B) (X : gset A) :
  (forall a b, a ∈ X -> b ∈ X -> f a = f b -> a = b) -> size (set_map (C := gset A) (D := gset B) f X) = size X.
Proof.
  induction X as [|a X Ha IH] using set_ind_L; intros Hinj; [by rewrite set_map_empty|].
  assert (f a ∉ set_map (C := gset A) (D := gset B) f X) as Hf.
  { intros (b & E & Hb)%elem_of_map. rewrite (Hinj a b) in Ha; [done|set_solver..|done]. }
  rewrite <- set_map_insert, (size_union {[f a]}), (size_union {[a]}), !size_singleton, IH by set_solver. done.
Qed.

Lemma elem_of_back {A B : Type} (to : B -> A) (back : A -> B) (k : B) (l : list A) :
  (forall k, back (to k) = k) -> (forall y, to (back y) = y) -> k ∈ back <$> l <-> to k ∈ l.
Proof.
  intros H1 H2. rewrite list_elem_of_fmap. split; [by intros (y & -> & Hy); rewrite H2|].
  intros Hk. exists (to k). by rewrite H1.
Qed.

Lemma filter_enumerates {A : Type} (l : list A) (f : A -> bool) (X Y : A -> Prop) :
  enumerates l X -> (forall a, X a /\ f a = true <-> Y a) -> enumerates (filter (fun a => f a = true) l) Y.
Proof.
  intros [H1 H2] HY. split; [by apply list.NoDup_filter|]. intros a. rewrite list_elem_of_filter, H2, <- HY. naive_solver.
Qed.

Section dataset_facts.
  Context {P : InternerParams} (S : bytes -> Prop) {HS : GoodHash S}.

(** ** Quads are interned component by component *)

Definition Quad_key (q : RdfQuad) : InternedQuad :=
  (Node_key (q_subject q), (hash (nn_iri (q_predicate q)), (Term_key (q_object q), Graph_key (q_graph_name q)))).
Definition Quad_known (it : Interner) (q : RdfQuad) : Prop :=
  Node_known it (q_subject q) /\ str_known it (nn_iri (q_predicate q)) /\ Term_known it (q_object q)
  /\ Graph_known it (q_graph_name q).

Lemma Quad_parts (q : RdfQuad) :
  Quad_wf q = true -> Forall S (Quad_strings q) ->
  (Node_wf (q_subject q) = true /\ Term_wf (q_object q) = true /\ Graph_wf (q_graph_name q) = true)
  /\ Forall S (Node_strings (q_subject q)) /\ S (nn_iri (q_predicate q)) /\ Forall S (Term_strings (q_object q))
  /\ Forall S (Graph_strings (q_graph_name q)).
Proof.
  intros [[H1 H2]%andb_prop H3]%andb_prop (S1 & [S2 (S3 & S4)%Forall_app]%Forall_cons_iff)%Forall_app. done.
Qed.

Lemma encode_quad_spec it q :
  Interner_ok S it -> Quad_wf q = true -> Forall S (Quad_strings q) ->
  exists it', encode_quad q it = Some (Quad_key q, it') /\ Interner_ok S it' /\ extends it it' /\ Quad_known it' q.
Proof.
  intros Hok Hwf HS'. destruct (Quad_parts q Hwf HS') as ((W1 & W2 & W3) & S1 & S2 & S3 & S4). unfold encode_quad.
  destruct (@ia_into_spec _ S _ _ (Node_interned S) it _ Hok W1 S1) as (it1 & E1 & Hok1 & He1 & K1).
  simpl in E1. rewrite E1. cbn [mbind option_bind].
  destruct (get_or_intern_spec S it1 _ Hok1 S2) as (it2 & E2 & Hok2 & He2 & K2).
  unfold NamedNode_encoded_into. rewrite E2. cbn [mbind option_bind].
  destruct (Term_into_spec S it2 _ Hok2 W2 S3) as (it3 & E3 & Hok3 & He3 & K3). rewrite E3. cbn [mbind option_bind].
  destruct (@ia_into_spec _ S _ _ (GraphName_interned S) it3 _ Hok3 W3 S4) as (it4 & E4 & Hok4 & He4 & K4).
  simpl in E4. rewrite E4. cbn [mbind option_bind]. exists it4.
  assert (extends it2 it4) as He24 by (by etrans). assert (extends it1 it4) as He14 by (by etrans).
  split; [done|]. split; [done|]. split; [by etrans|].
  split_and!; [by apply (Node_known_mono it1)|by apply (str_known_mono it2)|by apply (Term_known_mono it3)|done].
Qed.

Lemma encoded_quad_spec it q k :
  Interner_ok S it -> Quad_wf q = true -> Forall S (Quad_strings q) ->
  encoded_quad q it = Some k <-> k = Quad_key q /\ Quad_known it q.
Proof.
  intros Hok Hwf HS'. destruct (Quad_parts q Hwf HS') as ((W1 & W2 & W3) & S1 & S2 & S3 & S4). unfold encoded_quad, NamedNode_encoded_from.
  pose proof (fun k => @ia_from_spec _ S _ _ (Node_interned S) it (q_subject q) k Hok W1 S1) as F1.
  pose proof (fun k => get_spec S it (nn_iri (q_predicate q)) k Hok S2) as F2.
  pose proof (fun k => Term_from_spec S it (q_object q) k Hok W2 S3) as F3.
  pose proof (fun k => @ia_from_spec _ S _ _ (GraphName_interned S) it (q_graph_name q) k Hok W3 S4) as F4.
  simpl in F1, F4. split.
  - intros (s & (-> & Ks)%F1 & H)%bind_Some. apply bind_Some in H as (p & (-> & Kp)%F2 & H).
    apply bind_Some in H as (o & (-> & Ko)%F3 & H). apply bind_Some in H as (g & (-> & Kg)%F4 & H). by injection H as <-.
  - intros (-> & K1 & K2 & K3 & K4). rewrite (proj2 (F1 _) (conj eq_refl K1)). cbn [mbind option_bind].
    rewrite (proj2 (F2 _) (conj eq_refl K2)). cbn [mbind option_bind]. rewrite (proj2 (F3 _) (conj eq_refl K3)). cbn [mbind option_bind].
    by rewrite (proj2 (F4 _) (conj eq_refl K4)).
Qed.

Lemma decode_spog_spec it q : Quad_wf q = true -> Quad_known it q -> decode_spog it (Quad_key q) = Some q.
Proof.
  intros [[W1 W2]%andb_prop W3]%andb_prop (K1 & K2 & K3 & K4). unfold decode_spog, Quad_key.
  pose proof (@ia_decode_spec _ S _ _ (Node_interned S) it _ W1 K1) as D1.
  pose proof (@ia_decode_spec _ S _ _ (NamedNode_interned S) it _ eq_refl K2) as D2.
  pose proof (Term_decode_spec S it _ W2 K3) as D3.
  pose proof (@ia_decode_spec _ S _ _ (GraphName_interned S) it _ W3 K4) as D4. simpl in D1, D2, D4.
  rewrite D1. cbn [mbind option_bind]. rewrite D2. cbn [mbind option_bind]. rewrite D3. cbn [mbind option_bind]. rewrite D4.
  by destruct q.
Qed.

Lemma Quad_known_mono it it' q : extends it it' -> Quad_known it q -> Quad_known it' q.
Proof.
  intros He (K1 & K2 & K3 & K4).
  split_and!; [by eapply Node_known_mono|by eapply str_known_mono|by eapply Term_known_mono|by eapply Graph_known_mono].
Qed.

#[global] Instance Quad_interned : InternedAs S RdfQuad InternedQuad := {|
  ia_wf := Quad_wf; ia_strings := Quad_strings; ia_key := Quad_key; ia_known := Quad_known;
  ia_into := encode_quad; ia_from := encoded_quad; ia_decode k it := decode_spog it k;
  ia_mono := Quad_known_mono; ia_into_spec := encode_quad_spec; ia_from_spec := encoded_quad_spec;
  ia_decode_spec := decode_spog_spec |}.

(** ** Representation *)

Definition Graph_node_key (n : RdfNamedOrBlankNode) : InternedGraphName := node_graph_name (Node_key n).

Record represents (d : Dataset) (x : QuadSet) : Prop := {
  rp_interner : Interner_ok S (interner d);
  rp_quads : forall q, q ∈ qs_quads x -> Quad_wf q = true /\ Forall S (Quad_strings q) /\ Quad_known (interner d) q;
  rp_graphs : forall n, n ∈ qs_graphs x -> Node_wf n = true /\ Forall S (Node_strings n) /\ Node_known (interner d) n;
  rp_quad_graph : forall q n, q ∈ qs_quads x -> graph_node (q_graph_name q) = Some n -> n ∈ qs_graphs x;
  rp_spog : spog d = set_map Quad_key (qs_quads x);
  rp_gspo : gspo d = set_map to_gspo (spog d);
  rp_gpos : gpos d = set_map to_gpos (spog d);
  rp_gosp : gosp d = set_map to_gosp (spog d);
  rp_posg : posg d = set_map to_posg (spog d);
  rp_ospg : ospg d = set_map to_ospg (spog d);
  rp_named : named_graphs d = set_map Graph_node_key (qs_graphs x)
}.

Lemma represents_new : represents Dataset_new (mkQuadSet ∅ ∅).
Proof. split; simpl; try (by rewrite set_map_empty); try set_solver. apply Interner_default_ok. Qed.

Lemma represents_interner d x it :
  represents d x -> Interner_ok S it -> extends (interner d) it -> represents (set_interner d it) x.
Proof.
  intros Hd Hok He. destruct Hd. split; simpl; try done.
  - intros q Hq. destruct (rp_quads0 q Hq) as (? & ? & ?). split_and!; [done..|]. by eapply Quad_known_mono.
  - intros n Hn. destruct (rp_graphs0 n Hn) as (? & ? & ?). split_and!; [done..|]. by eapply Node_known_mono.
Qed.

Lemma Quad_key_inj it a b :
  Quad_wf a = true -> Quad_wf b = true -> Quad_known it a -> Quad_known it b -> Quad_key a = Quad_key b -> a = b.
Proof. exact (@ia_key_inj _ S _ _ Quad_interned it a b). Qed.
Lemma Graph_node_key_inj it a b :
  Node_wf a = true -> Node_wf b = true -> Node_known it a -> Node_known it b -> Graph_node_key a = Graph_node_key b -> a = b.
Proof.
  intros Wa Wb Ka Kb E. apply (@ia_key_inj _ S _ _ (Node_interned S) it a b Wa Wb Ka Kb). unfold Graph_node_key in E.
  simpl. destruct (Node_key a), (Node_key b); simplify_eq/=; done.
Qed.

(** A known quad is in the indexes when it is in the set. *)
Lemma known_inj d x q :
  represents d x -> Quad_wf q = true -> Quad_known (interner d) q ->
  forall b, b ∈ qs_quads x -> Quad_key b = Quad_key q -> b = q.
Proof. intros Hd Wq Kq b Hb. destruct (rp_quads d x Hd b Hb) as (Wb & _ & Kb). by apply (Quad_key_inj (interner d)). Qed.
Lemma in_spog d x q :
  represents d x -> Quad_wf q = true -> Quad_known (interner d) q -> Quad_key q ∈ spog d <-> q ∈ qs_quads x.
Proof. intros Hd Wq Kq. rewrite (rp_spog d x Hd). apply elem_of_set_map_inj. by eapply known_inj. Qed.
Lemma in_named d x n :
  represents d x -> Node_wf n = true -> Node_known (interner d) n -> Graph_node_key n ∈ named_graphs d <-> n ∈ qs_graphs x.
Proof.
  intros Hd Wn Kn. rewrite (rp_named d x Hd). apply elem_of_set_map_inj. intros b Hb.
  destruct (rp_graphs d x Hd b Hb) as (Wb & _ & Kb). by apply (Graph_node_key_inj (interner d)).
Qed.

Lemma in_ospg d x k : represents d x -> to_ospg k ∈ ospg d <-> k ∈ spog d.
Proof. intros Hd. rewrite (rp_ospg d x Hd). apply elem_of_set_map_inj. intros b _ E. by apply to_ospg_inj. Qed.

(** *** Insertion *)

Lemma Graph_key_node g n : graph_node g = Some n -> Graph_key g = Graph_node_key n.
Proof. destruct g; simpl; intros [=<-]; done. Qed.
Lemma graph_node_known it g n : graph_node g = Some n -> Graph_known it g -> Node_known it n.
Proof. destruct g; simpl; intros [=<-]; done. Qed.
Lemma graph_node_wf g n : graph_node g = Some n -> Graph_wf g = true -> Node_wf n = true.
Proof. destruct g; simpl; intros [=<-]; done. Qed.
Lemma graph_node_strings g n : graph_node g = Some n -> Graph_strings g = Node_strings n.
Proof. destruct g; simpl; intros [=<-]; done. Qed.

Lemma named_after g gs :
  match Graph_key g with IGDefaultGraph => set_map Graph_node_key gs | _ => {[Graph_key g]} ∪ set_map Graph_node_key gs end
  = set_map (D := gset InternedGraphName) Graph_node_key (add_graph g gs).
Proof. unfold add_graph. destruct g as [n|n|]; simpl; [exact (set_map_insert Graph_node_key gs (NodeNamed n))|exact (set_map_insert Graph_node_key gs (NodeBlank n))|done]. Qed.

Lemma insert_encoded_spec d x q :
  represents d x -> Quad_wf q = true -> Forall S (Quad_strings q) -> Quad_known (interner d) q ->
  represents (insert_encoded d (Quad_key q)).1 (mkQuadSet ({[q]} ∪ qs_quads x) (add_graph (q_graph_name q) (qs_graphs x)))
  /\ (insert_encoded d (Quad_key q)).2 = negb (bool_decide (q ∈ qs_quads x)).
Proof.
  intros Hd Wq Sq Kq. split.
  2: { simpl. f_equal. apply bool_decide_ext. rewrite <- (in_spog d x q Hd Wq Kq). apply (in_ospg d x (Quad_key q) Hd). }
  pose proof Hd as []. destruct (Quad_parts q Wq Sq) as ((_ & _ & Wg) & _ & _ & _ & Sg). split; simpl.
  - done.
  - intros b [->%elem_of_singleton|Hb]%elem_of_union; [done|by apply rp_quads0].
  - intros n. unfold add_graph. destruct (graph_node (q_graph_name q)) as [m|] eqn:E; [|apply rp_graphs0].
    intros [->%elem_of_singleton|Hn]%elem_of_union; [|by apply rp_graphs0]. destruct Kq as (_ & _ & _ & Kg).
    split; [by eapply graph_node_wf|]. split; [by rewrite <- (graph_node_strings _ _ E)|by eapply graph_node_known].
  - intros b n [->%elem_of_singleton|Hb]%elem_of_union E; unfold add_graph; [rewrite E; set_solver|].
    destruct (graph_node (q_graph_name q)); [apply elem_of_union_r|]; by eapply rp_quad_graph0.
  - rewrite rp_spog0. apply (set_map_insert Quad_key).
  - rewrite rp_gspo0. apply (set_map_insert to_gspo _ (Quad_key q)).
  - rewrite rp_gpos0. apply (set_map_insert to_gpos _ (Quad_key q)).
  - rewrite rp_gosp0. apply (set_map_insert to_gosp _ (Quad_key q)).
  - rewrite rp_posg0. apply (set_map_insert to_posg _ (Quad_key q)).
  - rewrite rp_ospg0. apply (set_map_insert to_ospg _ (Quad_key q)).
  - rewrite rp_named0. apply named_after.
Qed.

Lemma Dataset_insert_spec d x q :
  represents d x -> Quad_wf q = true -> Forall S (Quad_strings q) ->
  exists d', Dataset_insert d q = Some (d', negb (bool_decide (q ∈ qs_quads x)))
    /\ represents d' (mkQuadSet ({[q]} ∪ qs_quads x) (add_graph (q_graph_name q) (qs_graphs x))).
Proof.
  intros Hd Wq Sq. destruct (encode_quad_spec (interner d) q (rp_interner d x Hd) Wq Sq) as (it & E & Hok & He & Kq).
  unfold Dataset_insert. rewrite E. cbn [mbind option_bind fst snd].
  destruct (insert_encoded_spec (set_interner d it) x q) as [H1 H2]; [by apply represents_interner|done..|].
  eexists. split; [|exact H1]. rewrite <- H2. by destruct (insert_encoded _ _).
Qed.

(** *** Removal *)

Lemma remove_encoded_spec d x q :
  represents d x -> Quad_wf q = true -> Quad_known (interner d) q ->
  represents (remove_encoded d (Quad_key q)).1 (mkQuadSet (qs_quads x ∖ {[q]}) (qs_graphs x))
  /\ (remove_encoded d (Quad_key q)).2 = bool_decide (q ∈ qs_quads x).
Proof.
  intros Hd Wq Kq. split.
  2: { simpl. apply bool_decide_ext. rewrite <- (in_spog d x q Hd Wq Kq). apply (in_ospg d x (Quad_key q) Hd). }
  pose proof Hd as []. split; simpl; try done.
  - intros b [Hb _]%elem_of_difference. by apply rp_quads0.
  - intros b n [Hb _]%elem_of_difference. by apply rp_quad_graph0.
  - rewrite rp_spog0. apply (set_map_delete Quad_key). by eapply known_inj.
  - rewrite rp_gspo0. apply (set_map_delete to_gspo _ (Quad_key q)). intros b _. apply to_gspo_inj.
  - rewrite rp_gpos0. apply (set_map_delete to_gpos _ (Quad_key q)). intros b _. apply to_gpos_inj.
  - rewrite rp_gosp0. apply (set_map_delete to_gosp _ (Quad_key q)). intros b _. apply to_gosp_inj.
  - rewrite rp_posg0. apply (set_map_delete to_posg _ (Quad_key q)). intros b _. apply to_posg_inj.
  - rewrite rp_ospg0. apply (set_map_delete to_ospg _ (Quad_key q)). intros b _. apply to_ospg_inj.
Qed.

Lemma unknown_not_in d x q :
  represents d x -> Quad_wf q = true -> Forall S (Quad_strings q) -> encoded_quad q (interner d) = None -> q ∉ qs_quads x.
Proof.
  intros Hd Wq Sq E Hq. destruct (rp_quads d x Hd q Hq) as (_ & _ & Kq).
  by rewrite (proj2 (encoded_quad_spec (interner d) q _ (rp_interner d x Hd) Wq Sq) (conj eq_refl Kq)) in E.
Qed.

(** What [encoded_quad] finds. *)
Lemma encoded_quad_cases d x q :
  represents d x -> Quad_wf q = true -> Forall S (Quad_strings q) ->
  (encoded_quad q (interner d) = Some (Quad_key q) /\ Quad_known (interner d) q)
  \/ (encoded_quad q (interner d) = None /\ q ∉ qs_quads x).
Proof.
  intros Hd Wq Sq. destruct (encoded_quad q (interner d)) as [k|] eqn:E; [left|right].
  - by apply (encoded_quad_spec (interner d) q k (rp_interner d x Hd) Wq Sq) in E as [-> Kq].
  - split; [done|]. by eapply unknown_not_in.
Qed.

Lemma Dataset_remove_spec d x q :
  represents d x -> Quad_wf q = true -> Forall S (Quad_strings q) ->
  represents (Dataset_remove d q).1 (mkQuadSet (qs_quads x ∖ {[q]}) (qs_graphs x))
  /\ (Dataset_remove d q).2 = bool_decide (q ∈ qs_quads x).
Proof.
  intros Hd Wq Sq. unfold Dataset_remove. destruct (encoded_quad_cases d x q Hd Wq Sq) as [[-> Kq]|[-> Hn]].
  - by apply remove_encoded_spec.
  - rewrite bool_decide_false by done. split; [|done]. simpl.
    assert (qs_quads x ∖ {[q]} = qs_quads x) as -> by set_solver. by destruct x.
Qed.

Lemma Dataset_contains_spec d x q :
  represents d x -> Quad_wf q = true -> Forall S (Quad_strings q) ->
  Dataset_contains d q = bool_decide (q ∈ qs_quads x).
Proof.
  intros Hd Wq Sq. unfold Dataset_contains. destruct (encoded_quad_cases d x q Hd Wq Sq) as [[-> Kq]|[-> Hn]].
  - apply bool_decide_ext. by apply in_spog.
  - by rewrite bool_decide_false.
Qed.

Lemma Dataset_clear_spec d x : represents d x -> represents (Dataset_clear d) (mkQuadSet ∅ ∅).
Proof.
  intros Hd. split; simpl; try (by rewrite set_map_empty); try set_solver. apply (rp_interner d x Hd).
Qed.

Lemma Dataset_len_spec d x : represents d x -> Dataset_len d = Z.of_nat (size (qs_quads x)).
Proof.
  intros Hd. unfold Dataset_len. rewrite (rp_gspo d x Hd), (rp_spog d x Hd), !set_map_size; [done| |].
  - intros a b Ha Hb. destruct (rp_quads d x Hd a Ha) as (Wa & _ & Ka). by apply (known_inj d x b Hd);
      destruct (rp_quads d x Hd b Hb) as (Wb & _ & Kb).
  - intros a b _ _. apply to_gspo_inj.
Qed.

Lemma Dataset_is_empty_spec d x : represents d x -> Dataset_is_empty d = bool_decide (qs_quads x = ∅).
Proof.
  intros Hd. unfold Dataset_is_empty. apply bool_decide_ext. rewrite (rp_gspo d x Hd), (rp_spog d x Hd).
  split; [|intros ->; by rewrite !set_map_empty]. intros E. apply set_eq. intros q. split; [|set_solver]. intros Hq.
  assert (to_gspo (Quad_key q) ∈ (∅ : gset _)) as Hi by (rewrite <- E; by apply elem_of_map_2, elem_of_map_2).
  by apply elem_of_empty in Hi.
Qed.

(** ** Lookups *)

Lemma decode_quads_known d x ks :
  represents d x -> (forall k, k ∈ ks -> k ∈ spog d) ->
  exists l, decode_quads d ks = Some l /\ ks = Quad_key <$> l /\ forall q, q ∈ l -> q ∈ qs_quads x.
Proof.
  intros Hd. induction ks as [|k ks IH]; intros Hks; [exists []; split_and!; [done..|set_solver]|].
  destruct IH as (l & El & -> & Hl); [set_solver|].
  assert (k ∈ spog d) as Hk by set_solver. rewrite (rp_spog d x Hd) in Hk. apply elem_of_map in Hk as (q & -> & Hq).
  destruct (rp_quads d x Hd q Hq) as (Wq & _ & Kq). exists (q :: l). unfold decode_quads in *. cbn [mapM].
  rewrite decode_spog_spec by done. cbn [mbind option_bind]. rewrite El. split_and!; [done..|set_solver].
Qed.

Lemma decode_enumerates d x ks (Φ : InternedQuad -> Prop) (X : RdfQuad -> Prop) :
  represents d x -> NoDup ks -> (forall k, k ∈ ks <-> k ∈ spog d /\ Φ k) ->
  (forall q, q ∈ qs_quads x -> Φ (Quad_key q) <-> X q) ->
  exists l, decode_quads d ks = Some l /\ enumerates l (fun q => q ∈ qs_quads x /\ X q).
Proof.
  intros Hd Hnd Hks HX. destruct (decode_quads_known d x ks Hd) as (l & El & -> & Hl); [naive_solver|].
  exists l. split; [done|]. split; [by apply NoDup_fmap_1 in Hnd|]. intros q. split.
  - intros Hq. split; [by apply Hl|]. apply HX; [by apply Hl|]. apply Hks. by apply list_elem_of_fmap_2.
  - intros [Hq Hx]. assert (Quad_key q ∈ Quad_key <$> l) as (b & E & Hb)%list_elem_of_fmap.
    { apply Hks. destruct (rp_quads d x Hd q Hq) as (Wq & _ & Kq). split; [by apply (in_spog d x)|by apply HX]. }
    destruct (rp_quads d x Hd b (Hl b Hb)) as (Wb & _ & Kb). by rewrite (known_inj d x b Hd Wb Kb q Hq E).
Qed.

Lemma Dataset_iter_spec d x :
  represents d x -> exists l, Dataset_iter d = Some l /\ enumerates l (fun q => q ∈ qs_quads x).
Proof.
  intros Hd. destruct (decode_enumerates d x (btree_elements (spog d)) (fun _ => True) (fun _ => True)) as (l & E & H1 & H2);
    [done|apply NoDup_btree_elements|intros k; rewrite elem_of_btree_elements; naive_solver|done|].
  exists l. split; [done|]. split; [done|]. intros q. rewrite H2. naive_solver.
Qed.

Lemma Quad_key_ok q :
  Quad_wf q = true -> Forall S (Quad_strings q) ->
  IN_ok (Node_key (q_subject q)) /\ key_ok (hash (nn_iri (q_predicate q))) /\ IT_ok (Term_key (q_object q))
  /\ IG_ok (Graph_key (q_graph_name q)).
Proof.
  intros Wq Sq. destruct (Quad_parts q Wq Sq) as ((W1 & W2 & W3) & S1 & S2 & S3 & S4).
  split_and!; [by apply (Node_key_ok S)|by apply (hash_key_ok S)|by apply (Term_key_ok S)|by apply (Graph_key_ok S)].
Qed.

(** The quads with a given component, from an index that begins with it. *)
Lemma quads_for_component {C A B : Type} `{Countable A} `{Countable B} `{RustOrdLaws A} `{RustOrdLaws B} `{!Stepped A}
  (IC : InternedAs S C A) (to : InternedQuad -> A * B) (back : A * B -> InternedQuad) (comp : RdfQuad -> C)
  (low : B) (impossible : A) (index : gset (A * B)) (c : C) d x :
  represents d x -> index = set_map to (spog d) -> (forall k, back (to k) = k) -> (forall y, to (back y) = y) ->
  (forall q, (to (Quad_key q)).1 = ia_key S (comp q)) ->
  (forall q, Quad_wf q = true -> Forall S (Quad_strings q) -> st_ok (to (Quad_key q)).1 /\ leb low (to (Quad_key q)).2 = true) ->
  (forall q it, Quad_wf q = true -> Quad_known it q -> ia_wf S (comp q) = true /\ ia_known S it (comp q)) ->
  ia_wf S c = true -> Forall S (ia_strings S c) -> st_ok (ia_key S c) /\ st_last (ia_key S c) = false -> st_next impossible = impossible ->
  exists l, decode_quads d (back <$> btree_range (default impossible (ia_from S c (interner d)), low)
      (st_next (default impossible (ia_from S c (interner d))), low) index) = Some l
    /\ enumerates l (fun q => q ∈ qs_quads x /\ comp q = c).
Proof.
  intros Hd -> Hbt Htb Hto Hok Hkn Wc Sc [Okc Lc] Himp.
  assert (forall q, q ∈ qs_quads x -> Quad_wf q = true /\ Forall S (Quad_strings q) /\ Quad_known (interner d) q) as HQ
    by apply (rp_quads d x Hd).
  destruct (ia_from S c (interner d)) as [k|] eqn:E; cbn [default].
  - apply (ia_from_spec S (interner d) c k (rp_interner d x Hd) Wc Sc) in E as [-> Kc].
    apply (decode_enumerates d x _ (fun k => (to k).1 = ia_key S c) _ Hd).
    + apply NoDup_fmap; [|apply btree_range_NoDup]. intros a b Eab. by rewrite <- (Htb a), Eab, Htb.
    + intros k. rewrite (elem_of_back to back k _ Hbt Htb), range_first; [|  |done..].
      * apply and_iff_compat_r, elem_of_set_map_inj. intros b _ Eb. by rewrite <- (Hbt b), Eb, Hbt.
      * intros y (k' & -> & Hk')%elem_of_map. rewrite (rp_spog d x Hd) in Hk'. apply elem_of_map in Hk' as (q & -> & Hq).
        destruct (HQ q Hq) as (Wq & Sq & _). by apply Hok.
    + intros q Hq. destruct (HQ q Hq) as (Wq & _ & Kq). destruct (Hkn q _ Wq Kq) as [Wcq Kcq]. rewrite Hto.
      split; [|by intros ->]. by apply (ia_key_inj S (interner d)).
  - rewrite range_none by done. exists []. split; [done|]. split; [constructor|]. intros q. split; [set_solver|].
    intros [Hq <-]. destruct (HQ q Hq) as (Wq & _ & Kq). destruct (Hkn q _ Wq Kq) as [_ Kcq].
    by rewrite (proj2 (ia_from_spec S (interner d) (comp q) _ (rp_interner d x Hd) Wc Sc) (conj eq_refl Kcq)) in E.
Qed.

(** The bounds of a range are below every entry. *)
Local Ltac least :=
  cbv [id Quad_key to_gspo to_posg to_ospg fst snd]; repeat apply leb_pair; auto with interning.

Lemma quads_for_subject_spec d x s :
  represents d x -> Node_wf s = true -> Forall S (Node_strings s) ->
  exists l, quads_for_subject d s = Some l /\ enumerates l (fun q => q ∈ qs_quads x /\ q_subject q = s).
Proof.
  intros Hd Ws Ss. unfold quads_for_subject, interned_quads_for_subject. rewrite <- (list_fmap_id (btree_range _ _ _)).
  refine (quads_for_component (Node_interned S) id id q_subject _ IN_impossible (spog d) s d x Hd _ _ _ _ _ _ Ws Ss (Node_key_ok S s Ws Ss) _); try done.
  - apply set_eq. intros k. rewrite elem_of_map. unfold id. naive_solver.
  - intros q Wq Sq. destruct (Quad_key_ok q Wq Sq) as (H1 & H2 & H3 & H4). split; [done|least].
  - intros q it [[Wq _]%andb_prop _]%andb_prop (Kq & _). done.
Qed.

Lemma quads_for_predicate_spec d x p :
  represents d x -> S (nn_iri p) ->
  exists l, quads_for_predicate d p = Some l /\ enumerates l (fun q => q ∈ qs_quads x /\ q_predicate q = p).
Proof.
  intros Hd Sp. unfold quads_for_predicate, interned_quads_for_predicate.
  refine (quads_for_component (NamedNode_interned S) to_posg _ q_predicate _ Key_impossible (posg d) p d x Hd (rp_posg d x Hd) _ _ _ _ _ eq_refl _ _ _); try done.
  - by intros (?&?&?&?).
  - by intros (?&?&?&?).
  - intros q Wq Sq. destruct (Quad_key_ok q Wq Sq) as (H1 & H2 & H3 & H4). split; [done|least].
  - intros q it _ (_ & Kq & _). done.
  - by constructor.
  - split; [by apply (hash_key_ok S)|done].
Qed.

Lemma quads_for_object_spec d x o :
  represents d x -> Term_wf o = true -> Forall S (Term_strings o) ->
  exists l, quads_for_object d o = Some l /\ enumerates l (fun q => q ∈ qs_quads x /\ q_object q = o).
Proof.
  intros Hd Wo So. unfold quads_for_object, interned_quads_for_object.
  refine (quads_for_component (Term_interned S) to_ospg _ q_object _ IT_impossible (ospg d) o d x Hd (rp_ospg d x Hd) _ _ _ _ _ Wo So (Term_key_ok S o Wo So) _); try done.
  - by intros (?&?&?&?).
  - by intros (?&?&?&?).
  - intros q Wq Sq. destruct (Quad_key_ok q Wq Sq) as (H1 & H2 & H3 & H4). split; [done|least].
  - intros q it [[_ Wq]%andb_prop _]%andb_prop (_ & _ & Kq & _). done.
Qed.

Lemma quads_for_graph_name_spec d x g :
  represents d x -> Graph_wf g = true -> Forall S (Graph_strings g) ->
  exists l, quads_for_graph_name d g = Some l /\ enumerates l (fun q => q ∈ qs_quads x /\ q_graph_name q = g).
Proof.
  intros Hd Wg Sg. unfold quads_for_graph_name, interned_quads_for_graph_name.
  refine (quads_for_component (GraphName_interned S) to_gspo _ q_graph_name _ IG_impossible (gspo d) g d x Hd (rp_gspo d x Hd) _ _ _ _ _ Wg Sg (Graph_key_ok S g Wg Sg) _); try done.
  - by intros (?&?&?&?).
  - by intros (?&?&?&?).
  - intros q Wq Sq. destruct (Quad_key_ok q Wq Sq) as (H1 & H2 & H3 & H4). split; [done|least].
  - intros q it [[_ _]%andb_prop Wq]%andb_prop (_ & _ & _ & Kq). done.
Qed.

(** *** Patterns *)

(** What a pattern asks of a quad. *)
Definition quad_matches (s : option RdfNamedOrBlankNode) (p : option RdfNamedNode) (o : option RdfTerm)
  (g : option RdfGraphName) (q : RdfQuad) : Prop :=
  opt_matches s (q_subject q) && opt_matches p (q_predicate q) && opt_matches o (q_object q) && opt_matches g (q_graph_name q) = true.

Definition opt_valid {A B : Type} (I : InternedAs S A B) (a : option A) : Prop :=
  forall y, a = Some y -> ia_wf S y = true /\ Forall S (ia_strings S y).
Definition pattern_valid (s : option RdfNamedOrBlankNode) (p : option RdfNamedNode) (o : option RdfTerm)
  (g : option RdfGraphName) : Prop :=
  opt_valid (Node_interned S) s /\ opt_valid (NamedNode_interned S) p /\ opt_valid (Term_interned S) o
  /\ opt_valid (GraphName_interned S) g.

Lemma opt_matches_some {A : Type} `{EqDecision A} (a b : A) : opt_matches (Some a) b = true <-> b = a.
Proof. simpl. rewrite bool_decide_eq_true. naive_solver. Qed.

Lemma quads_for_pattern_set d x s p o g :
  represents d x -> pattern_valid s p o g ->
  exists l, quads_for_pattern d s p o g = Some l /\ enumerates l (fun q => q ∈ qs_quads x /\ quad_matches s p o g q).
Proof.
  intros Hd (Vs & Vp & Vo & Vg). unfold quads_for_pattern, quad_matches.
  destruct s as [s|]; [|destruct o as [o|]; [|destruct p as [p|]; [|destruct g as [g|]]]].
  - destruct (Vs s eq_refl) as [W F]. destruct (quads_for_subject_spec d x s Hd W F) as (l & -> & Hl). eexists. split; [done|].
    apply (filter_enumerates _ _ _ _ Hl). intros q. rewrite !andb_true_iff, opt_matches_some. naive_solver.
  - destruct (Vo o eq_refl) as [W F]. destruct (quads_for_object_spec d x o Hd W F) as (l & -> & Hl). eexists. split; [done|].
    apply (filter_enumerates _ _ _ _ Hl). intros q. rewrite !andb_true_iff, (opt_matches_some o). cbn. naive_solver.
  - destruct (Vp p eq_refl) as [W F]. apply Forall_cons_iff in F as [F _].
    destruct (quads_for_predicate_spec d x p Hd F) as (l & -> & Hl). eexists. split; [done|].
    apply (filter_enumerates _ _ _ _ Hl). intros q. rewrite !andb_true_iff, (opt_matches_some p). cbn. naive_solver.
  - destruct (Vg g eq_refl) as [W F]. destruct (quads_for_graph_name_spec d x g Hd W F) as (l & -> & H1 & H2). exists l. split; [done|].
    split; [done|]. intros q. rewrite H2, !andb_true_iff, opt_matches_some. cbn. naive_solver.
  - destruct (Dataset_iter_spec d x Hd) as (l & -> & H1 & H2). exists l. split; [done|]. split; [done|]. intros q. rewrite H2. cbn. naive_solver.
Qed.

(** ** Named graphs *)

Lemma encoded_graph_cases d x n :
  represents d x -> Node_wf n = true -> Forall S (Node_strings n) ->
  (encoded_named_graph_name n (interner d) = Some (Graph_node_key n) /\ Node_known (interner d) n)
  \/ (encoded_named_graph_name n (interner d) = None /\ n ∉ qs_graphs x).
Proof.
  intros Hd Wn Sn. unfold encoded_named_graph_name.
  pose proof (fun k => @ia_from_spec _ S _ _ (Node_interned S) (interner d) n k (rp_interner d x Hd) Wn Sn) as F. simpl in F.
  destruct (Node_encoded_from n (interner d)) as [k|]; [left|right].
  - by destruct (proj1 (F k) eq_refl) as [-> Kn].
  - split; [done|]. intros Hn. destruct (rp_graphs d x Hd n Hn) as (_ & _ & Kn). by pose proof (proj2 (F (Node_key n)) (conj eq_refl Kn)).
Qed.

Lemma contains_named_graph_spec d x n :
  represents d x -> Node_wf n = true -> Forall S (Node_strings n) ->
  contains_named_graph d n = bool_decide (n ∈ qs_graphs x).
Proof.
  intros Hd Wn Sn. unfold contains_named_graph. destruct (encoded_graph_cases d x n Hd Wn Sn) as [[-> Kn]|[-> Hn]].
  - apply bool_decide_ext. by apply in_named.
  - by rewrite bool_decide_false.
Qed.

Lemma decode_graph_spec it n :
  Node_wf n = true -> Node_known it n -> decode_named_graph_name it (Graph_node_key n) = Some n.
Proof.
  intros Wn Kn. pose proof (@ia_decode_spec _ S _ _ (Node_interned S) it n Wn Kn) as D. simpl in D.
  unfold Graph_node_key. by destruct n.
Qed.

Lemma Dataset_named_graphs_spec d x :
  represents d x -> exists l, Dataset_named_graphs d = Some l /\ enumerates l (fun n => n ∈ qs_graphs x).
Proof.
  intros Hd. unfold Dataset_named_graphs.
  assert (forall ks, (forall k, k ∈ ks -> k ∈ named_graphs d) ->
    exists l, mapM (decode_named_graph_name (interner d)) ks = Some l /\ ks = Graph_node_key <$> l /\ forall n, n ∈ l -> n ∈ qs_graphs x) as Hdec.
  { induction ks as [|k ks IH]; intros Hks; [exists []; split_and!; [done..|set_solver]|].
    destruct IH as (l & El & -> & Hl); [set_solver|]. assert (k ∈ named_graphs d) as Hk by set_solver.
    rewrite (rp_named d x Hd) in Hk. apply elem_of_map in Hk as (n & -> & Hn).
    destruct (rp_graphs d x Hd n Hn) as (Wn & _ & Kn). exists (n :: l). cbn [mapM].
    rewrite decode_graph_spec by done. cbn [mbind option_bind]. rewrite El. split_and!; [done..|set_solver]. }
  destruct (Hdec (btree_elements (named_graphs d))) as (l & -> & El & Hl); [by intros k ?%elem_of_btree_elements|].
  exists l. split; [done|]. split; [apply (NoDup_fmap_1 Graph_node_key); rewrite <- El; apply NoDup_btree_elements|].
  intros n. split; [apply Hl|]. intros Hn. destruct (rp_graphs d x Hd n Hn) as (Wn & _ & Kn).
  assert (Graph_node_key n ∈ Graph_node_key <$> l) as (b & E & Hb)%list_elem_of_fmap.
  { rewrite <- El, elem_of_btree_elements. by apply (in_named d x). }
  destruct (rp_graphs d x Hd b (Hl b Hb)) as (Wb & _ & Kb). by rewrite (Graph_node_key_inj (interner d) n b).
Qed.

Lemma insert_named_graph_spec d x n :
  represents d x -> Node_wf n = true -> Forall S (Node_strings n) ->
  exists d', insert_named_graph d n = Some (d', negb (bool_decide (n ∈ qs_graphs x)))
    /\ represents d' (mkQuadSet (qs_quads x) ({[n]} ∪ qs_graphs x)).
Proof.
  intros Hd Wn Sn. unfold insert_named_graph, encode_named_graph_name.
  destruct (@ia_into_spec _ S _ _ (Node_interned S) (interner d) n (rp_interner d x Hd) Wn Sn) as (it & E & Hok & He & Kn).
  simpl in E, Kn. rewrite E. cbn [mbind option_bind fst snd]. pose proof (represents_interner d x it Hd Hok He) as Hi.
  eexists. split; [do 2 f_equal; f_equal; apply bool_decide_ext; by apply (in_named (set_interner d it) x)|].
  pose proof Hi as []. split; simpl in *; try done.
  - intros m [->%elem_of_singleton|Hm]%elem_of_union; [done|by apply rp_graphs0].
  - intros q m Hq Em. apply elem_of_union_r. by eapply rp_quad_graph0.
  - rewrite rp_named0. apply (set_map_insert Graph_node_key).
Qed.

(** *** Clearing a graph *)

Definition remove_all (d : Dataset) (ks : list InternedQuad) : Dataset :=
  foldl (fun d quad => (remove_encoded d quad).1) d ks.

Lemma remove_all_spec l d x :
  represents d x -> (forall q, q ∈ l -> Quad_wf q = true /\ Quad_known (interner d) q) ->
  represents (remove_all d (Quad_key <$> l)) (mkQuadSet (qs_quads x ∖ list_to_set l) (qs_graphs x)).
Proof.
  revert d x. induction l as [|q l IH]; intros d x Hd Hl.
  - assert (qs_quads x ∖ list_to_set [] = qs_quads x) as -> by set_solver. by destruct x.
  - destruct (Hl q) as [Wq Kq]; [set_solver|]. destruct (remove_encoded_spec d x q Hd Wq Kq) as [H1 _].
    specialize (IH _ _ H1). cbn [qs_quads qs_graphs] in IH.
    assert (qs_quads x ∖ list_to_set (q :: l) = qs_quads x ∖ {[q]} ∖ list_to_set l) as -> by set_solver.
    apply IH. intros b Hb. apply Hl. set_solver.
Qed.

Lemma remove_all_named d gs ks : remove_all (set_named_graphs d gs) ks = set_named_graphs (remove_all d ks) gs.
Proof.
  revert d. induction ks as [|[s [p [o g]]] ks IH]; intros d; [done|]. exact (IH (remove_encoded d (s, (p, (o, g)))).1).
Qed.

(** The keys a graph's range gives. *)
Lemma graph_range d x g :
  represents d x -> Graph_wf g = true -> Forall S (Graph_strings g) -> Graph_known (interner d) g ->
  exists l, interned_quads_for_graph_name d (Graph_key g) = Quad_key <$> l
    /\ enumerates l (fun q => q ∈ qs_quads x /\ q_graph_name q = g).
Proof.
  intros Hd Wg Sg Kg. destruct (quads_for_graph_name_spec d x g Hd Wg Sg) as (l & E & Hl). exists l. split; [|done].
  pose proof (proj2 (@ia_from_spec _ S _ _ (GraphName_interned S) (interner d) g _ (rp_interner d x Hd) Wg Sg) (conj eq_refl Kg)) as F.
  simpl in F. unfold quads_for_graph_name in E. rewrite F in E.
  destruct (decode_quads_known d x (interned_quads_for_graph_name d (Graph_key g)) Hd) as (l' & E' & Ek & _).
  2: { rewrite Ek. do 2 f_equal. apply (inj Some). rewrite <- E'. exact E. }
  intros k. unfold interned_quads_for_graph_name. rewrite (elem_of_back to_gspo) by (by intros (?&?&?&?)).
  intros [_ Hk]%list_elem_of_filter. rewrite elem_of_btree_elements, (rp_gspo d x Hd) in Hk.
  apply elem_of_map in Hk as (k' & Ek' & Hk'). apply to_gspo_inj in Ek'. by subst.
Qed.

Definition without_graph (g : RdfGraphName) (qs : gset RdfQuad) : gset RdfQuad := filter (fun q => q_graph_name q <> g) qs.

Lemma clear_encoded_graph_spec d x g :
  represents d x -> Graph_wf g = true -> Forall S (Graph_strings g) -> Graph_known (interner d) g ->
  represents (clear_encoded_graph d (Graph_key g)) (mkQuadSet (without_graph g (qs_quads x)) (qs_graphs x)).
Proof.
  intros Hd Wg Sg Kg. destruct (graph_range d x g Hd Wg Sg Kg) as (l & E & _ & Hl). unfold clear_encoded_graph.
  rewrite E. change (foldl _ d ?ks) with (remove_all d ks).
  assert (without_graph g (qs_quads x) = qs_quads x ∖ list_to_set l) as ->.
  { apply set_eq. intros q. unfold without_graph. rewrite elem_of_filter, elem_of_difference, elem_of_list_to_set, Hl. naive_solver. }
  apply remove_all_spec; [done|]. intros q [Hq _]%Hl. by destruct (rp_quads d x Hd q Hq) as (? & _ & ?).
Qed.

Lemma clear_graph_spec d x g :
  represents d x -> Graph_wf g = true -> Forall S (Graph_strings g) ->
  represents (clear_graph d g) (mkQuadSet (without_graph g (qs_quads x)) (qs_graphs x)).
Proof.
  intros Hd Wg Sg. unfold clear_graph.
  pose proof (fun k => @ia_from_spec _ S _ _ (GraphName_interned S) (interner d) g k (rp_interner d x Hd) Wg Sg) as F. simpl in F.
  destruct (GraphName_encoded_from g (interner d)) as [k|].
  - destruct (proj1 (F k) eq_refl) as [-> Kg]. by apply clear_encoded_graph_spec.
  - assert (without_graph g (qs_quads x) = qs_quads x) as ->; [|by destruct x]. apply set_eq. intros q.
    unfold without_graph. rewrite elem_of_filter. split; [naive_solver|]. intros Hq. split; [|done]. intros Eg.
    destruct (rp_quads d x Hd q Hq) as (_ & _ & _ & _ & _ & Kg). rewrite Eg in Kg.
    by pose proof (proj2 (F (Graph_key g)) (conj eq_refl Kg)).
Qed.

Lemma without_graph_node x n (d : Dataset) :
  represents d x -> forall q m, q ∈ without_graph (GraphName_from_node n) (qs_quads x) -> graph_node (q_graph_name q) = Some m ->
  m ∈ qs_graphs x ∖ {[n]}.
Proof.
  intros Hd q m [Hne Hq]%elem_of_filter Em. apply elem_of_difference. split; [by eapply (rp_quad_graph d x Hd)|].
  rewrite elem_of_singleton. intros ->. apply Hne. destruct (q_graph_name q); simplify_eq/=; done.
Qed.

Lemma remove_named_graph_spec d x n :
  represents d x -> Node_wf n = true -> Forall S (Node_strings n) ->
  represents (remove_named_graph d n).1 (mkQuadSet (without_graph (GraphName_from_node n) (qs_quads x)) (qs_graphs x ∖ {[n]}))
  /\ (remove_named_graph d n).2 = bool_decide (n ∈ qs_graphs x).
Proof.
  intros Hd Wn Sn. unfold remove_named_graph. destruct (encoded_graph_cases d x n Hd Wn Sn) as [[-> Kn]|[-> Hn]]; cbn [fst snd].
  - split; [|apply bool_decide_ext; by apply in_named].
    assert (Graph_node_key n = Graph_key (GraphName_from_node n)) as EG by (by destruct n).
    assert (represents (clear_encoded_graph d (Graph_node_key n)) (mkQuadSet (without_graph (GraphName_from_node n) (qs_quads x)) (qs_graphs x))) as Hc.
    { rewrite EG. apply clear_encoded_graph_spec; [done|by destruct n..]. }
    assert (clear_encoded_graph (set_named_graphs d (named_graphs d ∖ {[Graph_node_key n]})) (Graph_node_key n)
      = set_named_graphs (clear_encoded_graph d (Graph_node_key n)) (named_graphs d ∖ {[Graph_node_key n]})) as ->
      by exact (remove_all_named d _ (interned_quads_for_graph_name d (Graph_node_key n))).
    pose proof Hc as []. split; simpl in *; try done.
    + intros m [Hm _]%elem_of_difference. by apply rp_graphs0.
    + by apply (without_graph_node x n d).
    + rewrite (rp_named d x Hd). apply (set_map_delete Graph_node_key). intros b Hb.
      destruct (rp_graphs d x Hd b Hb) as (Wb & _ & Kb). by apply (Graph_node_key_inj (interner d)).
  - rewrite bool_decide_false by done. split; [|done].
    assert (qs_graphs x ∖ {[n]} = qs_graphs x) as Eg by set_solver.
    assert (without_graph (GraphName_from_node n) (qs_quads x) = qs_quads x) as ->.
    { apply set_eq. intros q. unfold without_graph. rewrite elem_of_filter. split; [naive_solver|]. intros Hq. split; [|done].
      intros Eq. apply Hn, (rp_quad_graph d x Hd q); [done|]. rewrite Eq. by destruct n. }
    rewrite Eg. by destruct x.
Qed.

End dataset_facts.
