(* ===== verification/OxGraphViewFacts.v ===== *)
(** * Graph views are sets of triples

    A view of a graph of a dataset answers every lookup with the triples the
    graph has, and a mutable view changes this graph only. *)
From stdpp Require Import gmap.
From S2P Require Import Prelude MachineInt RustStr BTree RdfModel RdfDisplay OxInterning.
From S2P Require Import OxDataset OxGraphView OxOrderFacts OxInterningFacts OxDatasetFacts.

(** ** Ranges inside a graph *)

Lemma in_range_prefix {G R : Type} `{RustOrdLaws G} `{RustOrdLaws R} (g : G) (lo hi : R) (y : G * R) :
  leb (g, lo) y && ltb y (g, hi) = true <-> y.1 = g /\ leb lo y.2 && ltb y.2 hi = true.
Proof.
  destruct y as [a b]. simpl. unfold leb, ltb. unfold cmp at 1 2, pair_ord, pair_cmp. simpl. rewrite (cmp_antisym g a).
  destruct (cmp g a) eqn:E; simpl.
  - apply cmp_eq in E as ->. naive_solver.
  - split; [done|]. intros [-> _]. by rewrite cmp_refl in E.
  - split; [done|]. intros [-> _]. by rewrite cmp_refl in E.
Qed.

Lemma range_prefix {G R : Type} `{Countable G} `{Countable R} `{RustOrdLaws G} `{RustOrdLaws R} (g : G) (lo hi : R)
  (s : gset (G * R)) (y : G * R) :
  y ∈ btree_range (g, lo) (g, hi) s <-> y ∈ s /\ y.1 = g /\ leb lo y.2 && ltb y.2 hi = true.
Proof. unfold btree_range. rewrite list_elem_of_filter, elem_of_btree_elements, in_range_prefix. naive_solver. Qed.

Definition triple_of (q : RdfQuad) : RdfTriple := mkTriple (q_subject q) (q_predicate q) (q_object q).
Definition in_graph (g : RdfGraphName) (t : RdfTriple) : RdfQuad := mkQuad (t_subject t) (t_predicate t) (t_object t) g.
Definition Triple_wf (t : RdfTriple) : bool := Node_wf (t_subject t) && Term_wf (t_object t).
Definition Triple_strings (t : RdfTriple) : list bytes :=
  Node_strings (t_subject t) ++ nn_iri (t_predicate t) :: Term_strings (t_object t).
Definition triple_matches (s : option RdfNamedOrBlankNode) (p : option RdfNamedNode) (o : option RdfTerm) (t : RdfTriple) : Prop :=
  opt_matches s (t_subject t) && opt_matches p (t_predicate t) && opt_matches o (t_object t) = true.

Lemma map_enumerates {A B : Type} (f : A -> B) (l : list A) (X : A -> Prop) (Y : B -> Prop) :
  (forall a b, f a = f b -> a = b) -> enumerates l X -> (forall b, Y b <-> exists a, X a /\ b = f a) -> enumerates (map f l) Y.
Proof.
  intros Hf [H1 H2] HY. split; [by apply NoDup_fmap_2|]. intros b. rewrite HY. setoid_rewrite <- H2.
  rewrite (list_elem_of_fmap f l b). naive_solver.
Qed.

Lemma enumerates_ext {A : Type} (l : list A) (X Y : A -> Prop) : enumerates l X -> (forall a, X a <-> Y a) -> enumerates l Y.
Proof. intros [H1 H2] HY. split; [done|]. intros a. by rewrite H2. Qed.

Section view_facts.
  Context {P : InternerParams} (S : bytes -> Prop) {HS : GoodHash S}.

(** ** The key a lookup uses *)

(** A term that is not interned is looked up under an impossible key. *)
Class Impossible {A : Type} `{Stepped A} (i : A) : Prop := { imp_next : st_next i = i; imp_not_ok : ~ st_ok i }.
#[global] Instance Key_imp : Impossible Key_impossible.
Proof. split; [done|]. simpl. unfold key_ok, Key_impossible. lia. Qed.
#[global] Instance IN_imp : Impossible IN_impossible.
Proof. split; [done|]. simpl. unfold key_ok, Key_impossible. lia. Qed.
#[global] Instance IT_imp : Impossible IT_impossible.
Proof. split; [done|]. simpl. unfold key_ok, Key_impossible. lia. Qed.
#[global] Instance IG_imp : Impossible IG_impossible.
Proof. split; [done|]. simpl. unfold key_ok, Key_impossible. lia. Qed.

Section lookup.
  Context {C A : Type} `{RustOrdLaws A} `{!Stepped A} (IC : InternedAs S C A) (i : A) `{!Impossible i}.
  Context (it : Interner) (c : C).
  Hypothesis (Hok : Interner_ok S it) (Wc : ia_wf S c = true) (Sc : Forall S (ia_strings S c)).
  Hypothesis (Okc : st_ok (ia_key S c) /\ st_last (ia_key S c) = false).

Lemma lookup_interval (y : A) :
  st_ok y -> leb (default i (ia_from S c it)) y && ltb y (st_next (default i (ia_from S c it))) = true
             <-> y = default i (ia_from S c it).
Proof.
  intros Hy. destruct (ia_from S c it) as [k|] eqn:E.
  - apply (ia_from_spec S it c k Hok Wc Sc) in E as [-> _]. destruct Okc as [H1 H2].
    change (default i (Some (ia_key S c))) with (ia_key S c). rewrite st_alone by done. naive_solver.
  - change (default i None) with i. rewrite imp_next, interval_empty. split; [done|]. intros ->. by destruct (imp_not_ok Hy).
Qed.

Lemma lookup_key (b : C) :
  ia_wf S b = true -> ia_known S it b -> st_ok (ia_key S b) -> ia_key S b = default i (ia_from S c it) <-> b = c.
Proof.
  intros Wb Kb Okb. destruct (ia_from S c it) as [k|] eqn:E.
  - apply (ia_from_spec S it c k Hok Wc Sc) in E as [-> Kc]. change (default i (Some (ia_key S c))) with (ia_key S c).
    split; [by apply (ia_key_inj S it)|by intros ->].
  - change (default i None) with i. split.
    + intros Ei. rewrite Ei in Okb. by destruct (imp_not_ok Okb).
    + intros ->. by rewrite (proj2 (ia_from_spec S it c _ Hok Wc Sc) (conj eq_refl Kb)) in E.
Qed.
End lookup.

(** ** What an index range lists *)

Section listing.
  Context (d : Dataset) (x : QuadSet) (Hd : represents S d x).

Lemma mapM_enumerates {K T : Type} (ks : list K) (f : K -> option T) (out : RdfQuad -> T) (to : InternedQuad -> K)
  (X : RdfQuad -> Prop) (Y : T -> Prop) :
  NoDup ks -> (forall k, k ∈ ks <-> exists q, k = to (Quad_key q) /\ q ∈ qs_quads x /\ X q) ->
  (forall q, q ∈ qs_quads x -> f (to (Quad_key q)) = Some (out q)) ->
  (forall q q', X q -> X q' -> out q = out q' -> q = q') ->
  (forall t, Y t <-> exists q, q ∈ qs_quads x /\ X q /\ out q = t) ->
  exists l, mapM f ks = Some l /\ enumerates l Y.
Proof.
  intros Hnd Hks Hf Hout HY.
  assert (exists qs, ks = (fun q => to (Quad_key q)) <$> qs /\ forall q, q ∈ qs -> q ∈ qs_quads x /\ X q) as (qs & -> & Hqs).
  { clear Hnd. assert (forall k, k ∈ ks -> exists q, k = to (Quad_key q) /\ q ∈ qs_quads x /\ X q) as Hk by (intros; by apply Hks).
    clear Hks. induction ks as [|k ks IH]; [by exists []; split; [|set_solver]|]. destruct (Hk k) as (q & -> & Hq); [set_solver|].
    destruct IH as (qs & -> & Hqs); [set_solver|]. exists (q :: qs). split; [done|set_solver]. }
  exists (out <$> qs). split.
  - clear Hnd Hks. induction qs as [|q qs IH]; [done|]. cbn [fmap list_fmap mapM]. rewrite Hf by (apply Hqs; set_solver).
    cbn [mbind option_bind]. by rewrite IH by set_solver.
  - split.
    + apply NoDup_fmap_2_strong; [|by eapply NoDup_fmap_1]. intros q q' Hq Hq'. apply Hout; by apply Hqs.
    + intros t. rewrite HY, list_elem_of_fmap. split; [intros (q & -> & Hq); destruct (Hqs q Hq) as [Hin HX]; by exists q|]. intros (q & Hq & HX & <-).
      assert (to (Quad_key q) ∈ (fun q => to (Quad_key q)) <$> qs) as (q' & E & Hq')%list_elem_of_fmap by (apply Hks; by exists q).
      exists q'. split; [|done]. specialize (Hf q Hq) as F. rewrite E in F. destruct (Hqs q' Hq') as [Hin _]. rewrite (Hf q' Hin) in F.
      by injection F.
Qed.

(** Entries of the indexes are the quads of the set. *)
Lemma elem_of_index {K : Type} `{Countable K} (to : InternedQuad -> K) (index : gset K) (k : K) :
  index = set_map to (spog d) -> k ∈ index <-> exists q, k = to (Quad_key q) /\ q ∈ qs_quads x.
Proof.
  intros ->. rewrite (rp_spog S d x Hd), elem_of_map. split.
  - intros (y & -> & (q & -> & Hq)%elem_of_map). by exists q.
  - intros (q & -> & Hq). exists (Quad_key q). split; [done|]. by apply elem_of_map_2.
Qed.

Lemma quad_facts q :
  q ∈ qs_quads x ->
  (Node_wf (q_subject q) = true /\ Term_wf (q_object q) = true /\ Graph_wf (q_graph_name q) = true)
  /\ Quad_known (interner d) q
  /\ IN_ok (Node_key (q_subject q)) /\ key_ok (hash (nn_iri (q_predicate q))) /\ IT_ok (Term_key (q_object q))
  /\ IG_ok (Graph_key (q_graph_name q)).
Proof.
  intros Hq. destruct (rp_quads S d x Hd q Hq) as (Wq & Sq & Kq). destruct (Quad_parts S q Wq Sq) as (W & _).
  pose proof (Quad_key_ok S q Wq Sq). naive_solver.
Qed.

(** *** The graph of the view *)

Context (g : RdfGraphName) (Wg : Graph_wf g = true) (Sg : Forall S (Graph_strings g)).
Let v := Dataset_graph d g.
Let it := interner d.
Let Hok : Interner_ok S it := rp_interner S d x Hd.

Lemma view_graph_key q : q ∈ qs_quads x -> Graph_key (q_graph_name q) = gv_graph_name v <-> q_graph_name q = g.
Proof.
  intros Hq. destruct (quad_facts q Hq) as ((_ & _ & W) & (_ & _ & _ & K) & _ & _ & _ & O).
  exact (lookup_key (GraphName_interned S) IG_impossible it g Hok Wg Sg (q_graph_name q) W K O).
Qed.

Lemma one_level {A B : Type} `{Countable A} `{Countable B} `{RustOrdLaws A} `{RustOrdLaws B} `{!Stepped A}
  (to : InternedQuad -> InternedGraphName * (A * B)) (index : gset (InternedGraphName * (A * B))) (kx : A) (low : B) (X : RdfQuad -> Prop) :
  index = set_map to (spog d) -> (forall q, (to (Quad_key q)).1 = Graph_key (q_graph_name q)) ->
  (forall q, q ∈ qs_quads x -> leb low (to (Quad_key q)).2.2 = true) ->
  (forall q, q ∈ qs_quads x -> leb kx (to (Quad_key q)).2.1 && ltb (to (Quad_key q)).2.1 (st_next kx) = true <-> X q) ->
  forall k, k ∈ btree_range (gv_graph_name v, (kx, low)) (gv_graph_name v, (st_next kx, low)) index
    <-> exists q, k = to (Quad_key q) /\ q ∈ qs_quads x /\ q_graph_name q = g /\ X q.
Proof.
  intros Hi Hg Hlow HX k. rewrite range_prefix, (elem_of_index to index k Hi). split.
  - intros ((q & -> & Hq) & Ek & Er). exists q. split; [done|]. split; [done|]. rewrite Hg in Ek.
    split; [by apply view_graph_key|]. apply HX; [done|]. by rewrite in_range_first in Er by (by apply Hlow).
  - intros (q & -> & Hq & Eg & Hx). split; [by exists q|]. split; [rewrite Hg; by apply view_graph_key|].
    rewrite in_range_first by (by apply Hlow). by apply HX.
Qed.

Lemma two_levels {A B C : Type} `{Countable A} `{Countable B} `{Countable C} `{RustOrdLaws A} `{RustOrdLaws B} `{RustOrdLaws C} `{!Stepped B}
  (to : InternedQuad -> InternedGraphName * (A * (B * C))) (index : gset (InternedGraphName * (A * (B * C)))) (kx : A) (ky : B) (low : C)
  (X Y : RdfQuad -> Prop) :
  index = set_map to (spog d) -> (forall q, (to (Quad_key q)).1 = Graph_key (q_graph_name q)) ->
  (forall q, q ∈ qs_quads x -> leb low (to (Quad_key q)).2.2.2 = true) ->
  (forall q, q ∈ qs_quads x -> (to (Quad_key q)).2.1 = kx <-> X q) ->
  (forall q, q ∈ qs_quads x -> leb ky (to (Quad_key q)).2.2.1 && ltb (to (Quad_key q)).2.2.1 (st_next ky) = true <-> Y q) ->
  forall k, k ∈ btree_range (gv_graph_name v, (kx, (ky, low))) (gv_graph_name v, (kx, (st_next ky, low))) index
    <-> exists q, k = to (Quad_key q) /\ q ∈ qs_quads x /\ q_graph_name q = g /\ X q /\ Y q.
Proof.
  intros Hi Hg Hlow HX HY k. rewrite range_prefix, (elem_of_index to index k Hi), in_range_prefix. split.
  - intros ((q & -> & Hq) & Ek & Ex & Er). exists q. split; [done|]. split; [done|]. rewrite Hg in Ek.
    split; [by apply view_graph_key|]. split; [by apply HX|]. apply HY; [done|]. by rewrite in_range_first in Er by (by apply Hlow).
  - intros (q & -> & Hq & Eg & Hx & Hy). split; [by exists q|]. split; [rewrite Hg; by apply view_graph_key|].
    split; [by apply HX|]. rewrite in_range_first by (by apply Hlow). by apply HY.
Qed.

(** *** The other components *)

Lemma subject_key s q :
  Node_wf s = true -> Forall S (Node_strings s) -> q ∈ qs_quads x ->
  Node_key (q_subject q) = default IN_impossible (Node_encoded_from s it) <-> q_subject q = s.
Proof.
  intros Ws Ss Hq. destruct (quad_facts q Hq) as ((W & _) & (K & _) & O & _).
  exact (lookup_key (Node_interned S) IN_impossible it s Hok Ws Ss (q_subject q) W K O).
Qed.
Lemma subject_interval s q :
  Node_wf s = true -> Forall S (Node_strings s) -> q ∈ qs_quads x ->
  let k := default IN_impossible (Node_encoded_from s it) in
  leb k (Node_key (q_subject q)) && ltb (Node_key (q_subject q)) (IN_next k) = true <-> q_subject q = s.
Proof.
  intros Ws Ss Hq k. rewrite <- (subject_key s q Ws Ss Hq). destruct (quad_facts q Hq) as (_ & _ & O & _).
  exact (lookup_interval (Node_interned S) IN_impossible it s Hok Ws Ss (Node_key_ok S s Ws Ss) (Node_key (q_subject q)) O).
Qed.
Lemma predicate_key p q :
  S (nn_iri p) -> q ∈ qs_quads x ->
  hash (nn_iri (q_predicate q)) = default Key_impossible (NamedNode_encoded_from p it) <-> q_predicate q = p.
Proof.
  intros Sp Hq. destruct (quad_facts q Hq) as (_ & (_ & K & _) & _ & O & _).
  exact (lookup_key (NamedNode_interned S) Key_impossible it p Hok eq_refl (Forall_cons _ _ _ Sp (Forall_nil _)) (q_predicate q) eq_refl K O).
Qed.
Lemma predicate_interval p q :
  S (nn_iri p) -> q ∈ qs_quads x ->
  let k := default Key_impossible (NamedNode_encoded_from p it) in
  leb k (hash (nn_iri (q_predicate q))) && ltb (hash (nn_iri (q_predicate q))) (Key_next k) = true <-> q_predicate q = p.
Proof.
  intros Sp Hq k. rewrite <- (predicate_key p q Sp Hq). destruct (quad_facts q Hq) as (_ & _ & _ & O & _).
  exact (lookup_interval (NamedNode_interned S) Key_impossible it p Hok eq_refl (Forall_cons _ _ _ Sp (Forall_nil _))
    (conj (hash_key_ok S _ Sp) eq_refl) (hash (nn_iri (q_predicate q))) O).
Qed.
Lemma object_key o q :
  Term_wf o = true -> Forall S (Term_strings o) -> q ∈ qs_quads x ->
  Term_key (q_object q) = default IT_impossible (Term_encoded_from o it) <-> q_object q = o.
Proof.
  intros Wo So Hq. destruct (quad_facts q Hq) as ((_ & W & _) & (_ & _ & K & _) & _ & _ & O & _).
  exact (lookup_key (Term_interned S) IT_impossible it o Hok Wo So (q_object q) W K O).
Qed.
Lemma object_interval o q :
  Term_wf o = true -> Forall S (Term_strings o) -> q ∈ qs_quads x ->
  let k := default IT_impossible (Term_encoded_from o it) in
  leb k (Term_key (q_object q)) && ltb (Term_key (q_object q)) (IT_next k) = true <-> q_object q = o.
Proof.
  intros Wo So Hq k. rewrite <- (object_key o q Wo So Hq). destruct (quad_facts q Hq) as (_ & _ & _ & _ & O & _).
  exact (lookup_interval (Term_interned S) IT_impossible it o Hok Wo So (Term_key_ok S o Wo So) (Term_key (q_object q)) O).
Qed.
Lemma graph_interval q :
  q ∈ qs_quads x ->
  leb (gv_graph_name v) (Graph_key (q_graph_name q)) && ltb (Graph_key (q_graph_name q)) (IG_next (gv_graph_name v)) = true
  <-> q_graph_name q = g.
Proof.
  intros Hq. rewrite <- (view_graph_key q Hq). destruct (quad_facts q Hq) as (_ & _ & _ & _ & _ & O).
  exact (lookup_interval (GraphName_interned S) IG_impossible it g Hok Wg Sg (Graph_key_ok S g Wg Sg) (Graph_key (q_graph_name q)) O).
Qed.

Lemma decode_subject_key q : q ∈ qs_quads x -> Node_decode_from (Node_key (q_subject q)) it = Some (q_subject q).
Proof. intros Hq. destruct (quad_facts q Hq) as ((W & _) & (K & _) & _). exact (@ia_decode_spec _ S _ _ (Node_interned S) it _ W K). Qed.
Lemma decode_predicate_key q : q ∈ qs_quads x -> NamedNode_decode_from (hash (nn_iri (q_predicate q))) it = Some (q_predicate q).
Proof. intros Hq. destruct (quad_facts q Hq) as (_ & (_ & K & _) & _). exact (@ia_decode_spec _ S _ _ (NamedNode_interned S) it _ eq_refl K). Qed.
Lemma decode_object_key q : q ∈ qs_quads x -> Term_decode_from (Term_key (q_object q)) it = Some (q_object q).
Proof. intros Hq. destruct (quad_facts q Hq) as ((_ & W & _) & (_ & _ & K & _) & _). by apply (Term_decode_spec S). Qed.
Lemma decode_triple q :
  q ∈ qs_quads x ->
  decode_spo it (Node_key (q_subject q)) (hash (nn_iri (q_predicate q))) (Term_key (q_object q)) = Some (triple_of q).
Proof. intros Hq. unfold decode_spo. by rewrite decode_subject_key, decode_predicate_key, decode_object_key. Qed.

(** ** Lookups *)

Lemma triples_list {K : Type} (ks : list K) (f : K -> option RdfTriple) (to : InternedQuad -> K) (X : RdfQuad -> Prop) :
  NoDup ks -> (forall k, k ∈ ks <-> exists q, k = to (Quad_key q) /\ q ∈ qs_quads x /\ q_graph_name q = g /\ X q) ->
  (forall q, q ∈ qs_quads x -> f (to (Quad_key q)) = Some (triple_of q)) ->
  exists l, mapM f ks = Some l /\ enumerates l (fun t => in_graph g t ∈ qs_quads x /\ X (in_graph g t)).
Proof.
  intros Hnd Hks Hf. apply (mapM_enumerates ks f triple_of to (fun q => q_graph_name q = g /\ X q)); [done..| |].
  - intros [s p o c] [s' p' o' c'] [E _] [E' _]. simpl in *. subst. by intros [=-> -> ->].
  - intros [s p o]. unfold in_graph. simpl. split.
    + intros [H1 H2]. by exists (mkQuad s p o g).
    + intros ([s' p' o' c] & Hq & [Ec HX] & [=-> -> ->]). simpl in *. by subst.
Qed.

Lemma GraphView_iter_spec :
  exists l, GraphView_iter v = Some l /\ enumerates l (fun t => in_graph g t ∈ qs_quads x).
Proof.
  destruct (triples_list
    (btree_range (gv_graph_name v, (IN_first, (Key_first, IT_first))) (IG_next (gv_graph_name v), (IN_first, (Key_first, IT_first))) (gspo d))
    (fun '(_, (s, (p, o))) => decode_spo it s p o) to_gspo (fun _ => True)) as (l & E & H1 & H2).
  - apply btree_range_NoDup.
  - intros k. unfold btree_range. rewrite list_elem_of_filter, elem_of_btree_elements, (elem_of_index to_gspo _ k (rp_gspo S d x Hd)). split.
    + intros (Hr & q & -> & Hq). exists q. split; [done|]. split; [done|]. split; [|done]. apply (graph_interval q Hq).
      destruct (quad_facts q Hq) as (_ & _ & O1 & O2 & O3 & _).
      refine (eq_trans (eq_sym (in_range_first (A := InternedGraphName) (gv_graph_name v) _ (to_gspo (Quad_key q)) _)) Hr).
      simpl. repeat apply leb_pair; auto with interning.
    + intros (q & -> & Hq & Eg & _). split; [|by exists q]. destruct (quad_facts q Hq) as (_ & _ & O1 & O2 & O3 & _).
      refine (eq_trans (in_range_first (A := InternedGraphName) (gv_graph_name v) _ (to_gspo (Quad_key q)) _) (proj2 (graph_interval q Hq) Eg)).
      simpl. repeat apply leb_pair; auto with interning.
  - apply decode_triple.
  - exists l. split; [done|]. split; [done|]. intros t. rewrite H2. naive_solver.
Qed.

Lemma triples_for_subject_spec s :
  Node_wf s = true -> Forall S (Node_strings s) ->
  exists l, triples_for_subject v s = Some l /\ enumerates l (fun t => in_graph g t ∈ qs_quads x /\ t_subject t = s).
Proof.
  intros Ws Ss. apply (triples_list _ _ to_gspo (fun q => q_subject q = s)); [apply btree_range_NoDup| |apply decode_triple].
  refine (one_level to_gspo (gspo d) (default IN_impossible (Node_encoded_from s it)) (Key_first, IT_first) _ (rp_gspo S d x Hd) _ _ _); [done| |].
  - intros q Hq. destruct (quad_facts q Hq) as (_ & _ & O1 & O2 & O3 & _). simpl. apply leb_pair; auto with interning.
  - intros q Hq. by apply subject_interval.
Qed.

Lemma triples_for_predicate_spec p :
  S (nn_iri p) ->
  exists l, triples_for_predicate v p = Some l /\ enumerates l (fun t => in_graph g t ∈ qs_quads x /\ t_predicate t = p).
Proof.
  intros Sp. apply (triples_list _ _ to_gpos (fun q => q_predicate q = p)); [apply btree_range_NoDup| |apply decode_triple].
  refine (one_level to_gpos (gpos d) (default Key_impossible (NamedNode_encoded_from p it)) (IT_first, IN_first) _ (rp_gpos S d x Hd) _ _ _); [done| |].
  - intros q Hq. destruct (quad_facts q Hq) as (_ & _ & O1 & O2 & O3 & _). simpl. apply leb_pair; auto with interning.
  - intros q Hq. by apply predicate_interval.
Qed.

Lemma triples_for_object_spec o :
  Term_wf o = true -> Forall S (Term_strings o) ->
  exists l, triples_for_object v o = Some l /\ enumerates l (fun t => in_graph g t ∈ qs_quads x /\ t_object t = o).
Proof.
  intros Wo So. apply (triples_list _ _ to_gosp (fun q => q_object q = o)); [apply btree_range_NoDup| |apply decode_triple].
  refine (one_level to_gosp (gosp d) (default IT_impossible (Term_encoded_from o it)) (IN_first, Key_first) _ (rp_gosp S d x Hd) _ _ _); [done| |].
  - intros q Hq. destruct (quad_facts q Hq) as (_ & _ & O1 & O2 & O3 & _). simpl. apply leb_pair; auto with interning.
  - intros q Hq. by apply object_interval.
Qed.

Lemma objects_for_subject_predicate_spec s p :
  Node_wf s = true -> Forall S (Node_strings s) -> S (nn_iri p) ->
  exists l, objects_for_subject_predicate v s p = Some l /\ enumerates l (fun o => mkQuad s p o g ∈ qs_quads x).
Proof.
  intros Ws Ss Sp. apply (mapM_enumerates _ _ q_object to_gspo (fun q => q_graph_name q = g /\ q_subject q = s /\ q_predicate q = p)).
  - apply btree_range_NoDup.
  - refine (two_levels to_gspo (gspo d) (default IN_impossible (Node_encoded_from s it)) (default Key_impossible (NamedNode_encoded_from p it)) IT_first _ _ (rp_gspo S d x Hd) _ _ _ _); [done| | |].
    + intros q Hq. destruct (quad_facts q Hq) as (_ & _ & O1 & O2 & O3 & _). simpl. auto with interning.
    + intros q Hq. by apply subject_key.
    + intros q Hq. by apply predicate_interval.
  - apply decode_object_key.
  - intros [] []; simpl. naive_solver.
  - intros o. split; [intros Hq; by exists (mkQuad s p o g)|]. intros ([] & Hq & (<- & <- & <-) & <-). done.
Qed.

Lemma predicates_for_subject_object_spec s o :
  Node_wf s = true -> Forall S (Node_strings s) -> Term_wf o = true -> Forall S (Term_strings o) ->
  exists l, predicates_for_subject_object v s o = Some l /\ enumerates l (fun p => mkQuad s p o g ∈ qs_quads x).
Proof.
  intros Ws Ss Wo So. apply (mapM_enumerates _ _ q_predicate to_gosp (fun q => q_graph_name q = g /\ q_object q = o /\ q_subject q = s)).
  - apply btree_range_NoDup.
  - refine (two_levels to_gosp (gosp d) (default IT_impossible (Term_encoded_from o it)) (default IN_impossible (Node_encoded_from s it)) Key_first _ _ (rp_gosp S d x Hd) _ _ _ _); [done| | |].
    + intros q Hq. destruct (quad_facts q Hq) as (_ & _ & O1 & O2 & O3 & _). simpl. auto with interning.
    + intros q Hq. by apply object_key.
    + intros q Hq. by apply subject_interval.
  - apply decode_predicate_key.
  - intros [] []; simpl. naive_solver.
  - intros p. split; [intros Hq; by exists (mkQuad s p o g)|]. intros ([] & Hq & (<- & <- & <-) & <-). done.
Qed.

Lemma subjects_for_predicate_object_spec p o :
  S (nn_iri p) -> Term_wf o = true -> Forall S (Term_strings o) ->
  exists l, subjects_for_predicate_object v p o = Some l /\ enumerates l (fun s => mkQuad s p o g ∈ qs_quads x).
Proof.
  intros Sp Wo So. apply (mapM_enumerates _ _ q_subject to_gpos (fun q => q_graph_name q = g /\ q_predicate q = p /\ q_object q = o)).
  - apply btree_range_NoDup.
  - refine (two_levels to_gpos (gpos d) (default Key_impossible (NamedNode_encoded_from p it)) (default IT_impossible (Term_encoded_from o it)) IN_first _ _ (rp_gpos S d x Hd) _ _ _ _); [done| | |].
    + intros q Hq. destruct (quad_facts q Hq) as (_ & _ & O1 & O2 & O3 & _). simpl. auto with interning.
    + intros q Hq. by apply predicate_key.
    + intros q Hq. by apply object_interval.
  - apply decode_subject_key.
  - intros [] []; simpl. naive_solver.
  - intros s. split; [intros Hq; by exists (mkQuad s p o g)|]. intros ([] & Hq & (<- & <- & <-) & <-). done.
Qed.

Lemma encoded_triple_spec t k :
  Triple_wf t = true -> Forall S (Triple_strings t) ->
  encoded_triple v t = Some k <->
  k = (Node_key (t_subject t), (hash (nn_iri (t_predicate t)), Term_key (t_object t)))
  /\ Node_known it (t_subject t) /\ str_known it (nn_iri (t_predicate t)) /\ Term_known it (t_object t).
Proof.
  intros [W1 W2]%andb_prop (S1 & [S2 S3]%Forall_cons_iff)%Forall_app. unfold encoded_triple. change (interner (gv_dataset v)) with it.
  pose proof (fun k => @ia_from_spec _ S _ _ (Node_interned S) it (t_subject t) k Hok W1 S1) as F1.
  pose proof (fun k => get_spec S it (nn_iri (t_predicate t)) k Hok S2) as F2.
  pose proof (fun k => Term_from_spec S it (t_object t) k Hok W2 S3) as F3. simpl in F1. unfold NamedNode_encoded_from. split.
  - intros (s & (-> & Ks)%F1 & H)%bind_Some. apply bind_Some in H as (p & (-> & Kp)%F2 & H).
    apply bind_Some in H as (o & (-> & Ko)%F3 & H). by injection H as <-.
  - intros (-> & K1 & K2 & K3). rewrite (proj2 (F1 _) (conj eq_refl K1)). cbn [mbind option_bind].
    rewrite (proj2 (F2 _) (conj eq_refl K2)). cbn [mbind option_bind]. by rewrite (proj2 (F3 _) (conj eq_refl K3)).
Qed.

Lemma GraphView_contains_spec t :
  Triple_wf t = true -> Forall S (Triple_strings t) -> GraphView_contains v t = bool_decide (in_graph g t ∈ qs_quads x).
Proof.
  intros Wt St. unfold GraphView_contains. pose proof (fun k => encoded_triple_spec t k Wt St) as F.
  destruct (encoded_triple v t) as [k|] eqn:E.
  - destruct (proj1 (F k) eq_refl) as (-> & K1 & K2 & K3). apply bool_decide_ext. apply andb_prop in Wt as [W1 W2].
    change (gspo (gv_dataset v)) with (gspo d). rewrite (elem_of_index to_gspo _ _ (rp_gspo S d x Hd)). split.
    + intros (q & Eq & Hq). injection Eq as Eg Es Ep Eo. destruct (quad_facts q Hq) as ((Ws & Wo & _) & (Ks & Kp & Ko & _) & _).
      replace (in_graph g t) with q; [done|]. destruct q as [s p o c], t as [s' p' o']. unfold in_graph. simpl in *. f_equal.
      * by apply (@ia_key_inj _ S _ _ (Node_interned S) it s s').
      * by apply (@ia_key_inj _ S _ _ (NamedNode_interned S) it p p').
      * by apply (@ia_key_inj _ S _ _ (Term_interned S) it o o').
      * by apply (view_graph_key (mkQuad s p o c) Hq).
    + intros Hq. exists (in_graph g t). split; [|done]. unfold to_gspo, Quad_key, in_graph at 1. f_equal. symmetry. by apply (view_graph_key (in_graph g t)).
  - rewrite bool_decide_false; [done|]. intros Hq. destruct (quad_facts _ Hq) as (_ & (Ks & Kp & Ko & _) & _).
    by pose proof (proj2 (F _) (conj eq_refl (conj Ks (conj Kp Ko)))).
Qed.

Definition triple_pattern_valid (s : option RdfNamedOrBlankNode) (p : option RdfNamedNode) (o : option RdfTerm) : Prop :=
  opt_valid S (Node_interned S) s /\ opt_valid S (NamedNode_interned S) p /\ opt_valid S (Term_interned S) o.

Lemma triples_for_pattern_set s p o :
  triple_pattern_valid s p o ->
  exists l, triples_for_pattern v s p o = Some l
    /\ enumerates l (fun t => in_graph g t ∈ qs_quads x /\ triple_matches s p o t).
Proof.
  intros (Vs & Vp & Vo). unfold triples_for_pattern, triple_matches.
  assert (forall p', p = Some p' -> S (nn_iri p')) as Vp' by (intros p' E; destruct (Vp p' E) as [_ [H _]%Forall_cons_iff]; done).
  destruct s as [s|]; [destruct (Vs s eq_refl) as [Ws Ss]|]; (destruct p as [p|]; [pose proof (Vp' p eq_refl) as Sp|]);
    (destruct o as [o|]; [destruct (Vo o eq_refl) as [Wo So]|]).
  - eexists. split; [done|]. rewrite GraphView_contains_spec.
    + case_bool_decide as Hq.
      * split; [apply NoDup_singleton|]. intros t. rewrite list_elem_of_singleton, !andb_true_iff, !opt_matches_some. destruct t; naive_solver.
      * split; [constructor|]. intros t. rewrite !andb_true_iff, !opt_matches_some. destruct t; split; [set_solver|naive_solver].
    + apply andb_true_intro. split; [exact Ws|exact Wo].
    + apply Forall_app. split; [done|]. by apply Forall_cons_iff.
  - destruct (objects_for_subject_predicate_spec s p Ws Ss Sp) as (l & -> & Hl). eexists. split; [done|].
    refine (map_enumerates _ _ _ _ _ Hl _); [by intros a b [=]|]. intros [s' p' o']. rewrite !andb_true_iff, !opt_matches_some. naive_solver.
  - destruct (predicates_for_subject_object_spec s o Ws Ss Wo So) as (l & -> & Hl). eexists. split; [done|].
    refine (map_enumerates _ _ _ _ _ Hl _); [by intros a b [=]|]. intros [s' p' o']. rewrite !andb_true_iff, !opt_matches_some. cbn. naive_solver.
  - destruct (triples_for_subject_spec s Ws Ss) as (l & -> & Hl). eexists. split; [done|].
    apply (enumerates_ext _ _ _ Hl). intros t. rewrite !andb_true_iff, opt_matches_some. cbn. naive_solver.
  - destruct (subjects_for_predicate_object_spec p o Sp Wo So) as (l & -> & Hl). eexists. split; [done|].
    refine (map_enumerates _ _ _ _ _ Hl _); [by intros a b [=]|]. intros [s' p' o']. rewrite !andb_true_iff, !opt_matches_some. cbn. naive_solver.
  - destruct (triples_for_predicate_spec p Sp) as (l & -> & Hl). eexists. split; [done|].
    apply (enumerates_ext _ _ _ Hl). intros t. rewrite !andb_true_iff, opt_matches_some. cbn. naive_solver.
  - destruct (triples_for_object_spec o Wo So) as (l & -> & Hl). eexists. split; [done|].
    apply (enumerates_ext _ _ _ Hl). intros t. rewrite !andb_true_iff, opt_matches_some. cbn. naive_solver.
  - destruct GraphView_iter_spec as (l & -> & Hl). eexists. split; [done|].
    apply (enumerates_ext _ _ _ Hl). intros t. cbn. naive_solver.
Qed.
End listing.

(** ** Mutable views *)

(** A mutable view of the graph [g] of a dataset that represents [x]. *)
Record view_of (v : GraphView) (g : RdfGraphName) (x : QuadSet) : Prop := {
  vo_dataset : represents S (gv_dataset v) x;
  vo_graph : gv_graph_name v = Graph_key g;
  vo_wf : Graph_wf g = true;
  vo_strings : Forall S (Graph_strings g);
  vo_known : Graph_known (interner (gv_dataset v)) g
}.

Lemma view_of_graph v g x : view_of v g x -> v = Dataset_graph (gv_dataset v) g.
Proof.
  intros []. unfold Dataset_graph.
  rewrite (proj2 (@ia_from_spec _ S _ _ (GraphName_interned S) _ g _ (rp_interner S _ x vo_dataset0) vo_wf0 vo_strings0) (conj eq_refl vo_known0) : GraphName_encoded_from g _ = _).
  destruct v. simpl in *. by subst.
Qed.

Lemma Dataset_graph_mut_spec d x g :
  represents S d x -> Graph_wf g = true -> Forall S (Graph_strings g) ->
  exists v, Dataset_graph_mut d g = Some v /\ view_of v g (mkQuadSet (qs_quads x) (add_graph g (qs_graphs x))).
Proof.
  intros Hd Wg Sg. unfold Dataset_graph_mut.
  destruct (@ia_into_spec _ S _ _ (GraphName_interned S) (interner d) g (rp_interner S d x Hd) Wg Sg) as (it & E & Hok & He & Kg).
  simpl in E, Kg. rewrite E. cbn [mbind option_bind]. pose proof (represents_interner S d x it Hd Hok He) as Hi.
  eexists. split; [done|]. split; [|done|done|done|by destruct (Graph_key g)]. cbn [gv_dataset].
  assert (forall gs, (match Graph_key g with IGDefaultGraph => set_interner d it | _ => set_named_graphs (set_interner d it) ({[Graph_key g]} ∪ gs) end)
    = set_named_graphs (set_interner d it) (match Graph_key g with IGDefaultGraph => named_graphs d | _ => {[Graph_key g]} ∪ gs end)) as Em.
  { intros gs. by destruct (Graph_key g), d. }
  rewrite Em. pose proof Hi as []. split; simpl in *; try done.
  - intros n. unfold add_graph. destruct (graph_node g) as [m|] eqn:En; [|apply rp_graphs].
    intros [->%elem_of_singleton|Hn]%elem_of_union; [|by apply rp_graphs].
    split; [by eapply graph_node_wf|]. split; [by rewrite <- (graph_node_strings _ _ En)|by eapply graph_node_known].
  - intros q n Hq Eq. unfold add_graph. destruct (graph_node g); [apply elem_of_union_r|]; by eapply rp_quad_graph.
  - rewrite rp_named. apply named_after.
Qed.

Lemma encode_triple_spec it t :
  Interner_ok S it -> Triple_wf t = true -> Forall S (Triple_strings t) ->
  exists it', encode_triple t it = Some ((Node_key (t_subject t), (hash (nn_iri (t_predicate t)), Term_key (t_object t))), it')
    /\ Interner_ok S it' /\ extends it it'
    /\ Node_known it' (t_subject t) /\ str_known it' (nn_iri (t_predicate t)) /\ Term_known it' (t_object t).
Proof.
  intros Hok [W1 W2]%andb_prop (S1 & [S2 S3]%Forall_cons_iff)%Forall_app. unfold encode_triple.
  destruct (@ia_into_spec _ S _ _ (Node_interned S) it _ Hok W1 S1) as (it1 & E1 & Hok1 & He1 & K1).
  simpl in E1. rewrite E1. cbn [mbind option_bind].
  destruct (get_or_intern_spec S it1 _ Hok1 S2) as (it2 & E2 & Hok2 & He2 & K2).
  unfold NamedNode_encoded_into. rewrite E2. cbn [mbind option_bind].
  destruct (Term_into_spec S it2 _ Hok2 W2 S3) as (it3 & E3 & Hok3 & He3 & K3). rewrite E3. cbn [mbind option_bind].
  exists it3. assert (extends it1 it3) as He13 by (by etrans). split; [done|]. split; [done|]. split; [by etrans|].
  split_and!; [by apply (Node_known_mono it1)|by apply (str_known_mono it2)|done].
Qed.

Lemma in_graph_wf g t : Triple_wf t = true -> Graph_wf g = true -> Quad_wf (in_graph g t) = true.
Proof. unfold Triple_wf, Quad_wf. simpl. by intros -> ->. Qed.
Lemma in_graph_strings g t : Forall S (Triple_strings t) -> Forall S (Graph_strings g) -> Forall S (Quad_strings (in_graph g t)).
Proof.
  intros (S1 & [S2 S3]%Forall_cons_iff)%Forall_app Sg. apply Forall_app. split; [done|]. apply Forall_cons_iff.
  split; [done|]. by apply Forall_app.
Qed.

Lemma GraphViewMut_insert_spec v g x t :
  view_of v g x -> Triple_wf t = true -> Forall S (Triple_strings t) ->
  exists v', GraphViewMut_insert v t = Some (v', negb (bool_decide (in_graph g t ∈ qs_quads x)))
    /\ view_of v' g (mkQuadSet ({[in_graph g t]} ∪ qs_quads x) (add_graph g (qs_graphs x))).
Proof.
  intros [] Wt St. unfold GraphViewMut_insert.
  destruct (encode_triple_spec (interner (gv_dataset v)) t (rp_interner S _ x vo_dataset0) Wt St) as (it & E & Hok & He & K1 & K2 & K3).
  rewrite E. cbn [mbind option_bind]. assert (Graph_known it g) as Kg by (by eapply Graph_known_mono).
  destruct (insert_encoded_spec S (set_interner (gv_dataset v) it) x (in_graph g t)) as [H1 H2];
    [by apply represents_interner|by apply in_graph_wf|by apply in_graph_strings|done|].
  rewrite vo_graph0. unfold Quad_key in H1, H2. cbn [in_graph q_subject q_predicate q_object q_graph_name] in H1, H2.
  destruct (insert_encoded _ _) as [d' b] eqn:Ei. simpl in H1, H2. subst b. eexists. split; [done|]. split; [done..|].
  simpl. unfold insert_encoded in Ei. injection Ei as <- _. done.
Qed.

Lemma GraphViewMut_remove_spec v g x t :
  view_of v g x -> Triple_wf t = true -> Forall S (Triple_strings t) ->
  view_of (GraphViewMut_remove v t).1 g (mkQuadSet (qs_quads x ∖ {[in_graph g t]}) (qs_graphs x))
  /\ (GraphViewMut_remove v t).2 = bool_decide (in_graph g t ∈ qs_quads x).
Proof.
  intros Hv Wt St. pose proof Hv as []. unfold GraphViewMut_remove.
  pose proof (fun k => encoded_triple_spec (gv_dataset v) x vo_dataset0 g t k Wt St) as F.
  rewrite <- (view_of_graph v g x Hv) in F. destruct (encoded_triple v t) as [k|] eqn:E.
  - destruct (proj1 (F k) eq_refl) as (-> & K1 & K2 & K3). rewrite vo_graph0.
    destruct (remove_encoded_spec S (gv_dataset v) x (in_graph g t)) as [H1 H2]; [done|by apply in_graph_wf|done|].
    unfold Quad_key in H1, H2. cbn [in_graph q_subject q_predicate q_object q_graph_name] in H1, H2.
    destruct (remove_encoded _ _) as [d' b] eqn:Er. simpl in H1, H2. split; [|done]. split; [done..|].
    simpl. unfold remove_encoded in Er. injection Er as <- _. done.
  - assert (in_graph g t ∉ qs_quads x) as Hn.
    { intros Hq. destruct (rp_quads S _ x vo_dataset0 _ Hq) as (_ & _ & Ks & Kp & Ko & _).
      by pose proof (proj2 (F _) (conj eq_refl (conj Ks (conj Kp Ko)))). }
    rewrite bool_decide_false by done. split; [|done]. simpl.
    assert (qs_quads x ∖ {[in_graph g t]} = qs_quads x) as -> by set_solver. by destruct x.
Qed.

Lemma remove_all_interner d ks : interner (remove_all d ks) = interner d.
Proof. revert d. induction ks as [|[s [p [o c]]] ks IH]; intros d; [done|]. exact (IH (remove_encoded d (s, (p, (o, c)))).1). Qed.

Lemma GraphViewMut_clear_spec v g x :
  view_of v g x -> view_of (GraphViewMut_clear v) g (mkQuadSet (without_graph g (qs_quads x)) (qs_graphs x)).
Proof.
  intros []. unfold GraphViewMut_clear. split; cbn [gv_dataset gv_graph_name]; [|done..|].
  - rewrite vo_graph0. by apply clear_encoded_graph_spec.
  - unfold clear_encoded_graph. change (foldl _ (gv_dataset v) ?ks) with (remove_all (gv_dataset v) ks). by rewrite remove_all_interner.
Qed.

End view_facts.
