(* ===== verification/OxDatasetRefinement.v ===== *)
(** * Datasets implement sets of quads

    Sequences of changes on a dataset, through the dataset and through mutable
    graph views, against the same changes on a set of quads and a set of graph
    names; and every question a dataset answers, against the set. *)
From stdpp Require Import gmap.
From S2P Require Import Prelude MachineInt RustStr BTree RdfModel RdfDisplay OxInterning.
From S2P Require Import OxDataset OxGraphView OxOrderFacts OxInterningFacts OxDatasetFacts.
From S2P Require Import OxGraphViewFacts.

(** ** Changes *)

Inductive dataset_op : Set :=
| OpInsert (q : RdfQuad)
| OpExtend (qs : list RdfQuad)
| OpRemove (q : RdfQuad)
| OpClear
| OpInsertGraph (n : RdfNamedOrBlankNode)
| OpClearGraph (g : RdfGraphName)
| OpRemoveGraph (n : RdfNamedOrBlankNode)
| OpViewInsert (g : RdfGraphName) (t : RdfTriple)
| OpViewRemove (g : RdfGraphName) (t : RdfTriple)
| OpViewClear (g : RdfGraphName).

(** The methods, with the boolean they return when they return one. *)
Definition run_op {P : InternerParams} (d : Dataset) (op : dataset_op) : option (Dataset * option bool) :=
  match op with
  | OpInsert q => r ← Dataset_insert d q; Some (r.1, Some r.2)
  | OpExtend qs => d ← Dataset_extend d qs; Some (d, None)
  | OpRemove q => let r := Dataset_remove d q in Some (r.1, Some r.2)
  | OpClear => Some (Dataset_clear d, None)
  | OpInsertGraph n => r ← insert_named_graph d n; Some (r.1, Some r.2)
  | OpClearGraph g => Some (clear_graph d g, None)
  | OpRemoveGraph n => let r := remove_named_graph d n in Some (r.1, Some r.2)
  | OpViewInsert g t => v ← Dataset_graph_mut d g; r ← GraphViewMut_insert v t; Some (gv_dataset r.1, Some r.2)
  | OpViewRemove g t => v ← Dataset_graph_mut d g; let r := GraphViewMut_remove v t in Some (gv_dataset r.1, Some r.2)
  | OpViewClear g => v ← Dataset_graph_mut d g; Some (gv_dataset (GraphViewMut_clear v), None)
  end.
Fixpoint run_ops {P : InternerParams} (d : Dataset) (ops : list dataset_op) : option (Dataset * list (option bool)) :=
  match ops with
  | [] => Some (d, [])
  | op :: ops => r ← run_op d op; rs ← run_ops r.1 ops; Some (rs.1, r.2 :: rs.2)
  end.

(** The same changes on sets. *)
Definition qs_insert (q : RdfQuad) (x : QuadSet) : QuadSet :=
  mkQuadSet ({[q]} ∪ qs_quads x) (add_graph (q_graph_name q) (qs_graphs x)).
Definition spec_op (x : QuadSet) (op : dataset_op) : QuadSet * option bool :=
  match op with
  | OpInsert q => (qs_insert q x, Some (negb (bool_decide (q ∈ qs_quads x))))
  | OpExtend qs => (foldl (fun x q => qs_insert q x) x qs, None)
  | OpRemove q => (mkQuadSet (qs_quads x ∖ {[q]}) (qs_graphs x), Some (bool_decide (q ∈ qs_quads x)))
  | OpClear => (mkQuadSet ∅ ∅, None)
  | OpInsertGraph n => (mkQuadSet (qs_quads x) ({[n]} ∪ qs_graphs x), Some (negb (bool_decide (n ∈ qs_graphs x))))
  | OpClearGraph g => (mkQuadSet (without_graph g (qs_quads x)) (qs_graphs x), None)
  | OpRemoveGraph n =>
      (mkQuadSet (without_graph (GraphName_from_node n) (qs_quads x)) (qs_graphs x ∖ {[n]}), Some (bool_decide (n ∈ qs_graphs x)))
  | OpViewInsert g t => (qs_insert (in_graph g t) x, Some (negb (bool_decide (in_graph g t ∈ qs_quads x))))
  | OpViewRemove g t =>
      (mkQuadSet (qs_quads x ∖ {[in_graph g t]}) (add_graph g (qs_graphs x)), Some (bool_decide (in_graph g t ∈ qs_quads x)))
  | OpViewClear g => (mkQuadSet (without_graph g (qs_quads x)) (add_graph g (qs_graphs x)), None)
  end.
Fixpoint spec_ops (x : QuadSet) (ops : list dataset_op) : QuadSet * list (option bool) :=
  match ops with
  | [] => (x, [])
  | op :: ops => let r := spec_op x op in let rs := spec_ops r.1 ops in (rs.1, r.2 :: rs.2)
  end.

Section refinement.
  Context {P : InternerParams} (S : bytes -> Prop) {HS : GoodHash S}.

(** Terms the constructors build, with strings whose hashes are distinct. *)
Definition op_valid (op : dataset_op) : Prop :=
  match op with
  | OpInsert q | OpRemove q => Quad_wf q = true /\ Forall S (Quad_strings q)
  | OpExtend qs => forall q, q ∈ qs -> Quad_wf q = true /\ Forall S (Quad_strings q)
  | OpClear => True
  | OpInsertGraph n | OpRemoveGraph n => Node_wf n = true /\ Forall S (Node_strings n)
  | OpClearGraph g | OpViewClear g => Graph_wf g = true /\ Forall S (Graph_strings g)
  | OpViewInsert g t | OpViewRemove g t =>
      (Graph_wf g = true /\ Forall S (Graph_strings g)) /\ Triple_wf t = true /\ Forall S (Triple_strings t)
  end.

Lemma add_graph_idem g gs : add_graph g (add_graph g gs) = add_graph g gs.
Proof. unfold add_graph. destruct (graph_node g); [|done]. set_solver. Qed.

Lemma Dataset_extend_spec qs d x :
  represents S d x -> (forall q, q ∈ qs -> Quad_wf q = true /\ Forall S (Quad_strings q)) ->
  exists d', Dataset_extend d qs = Some d' /\ represents S d' (foldl (fun x q => qs_insert q x) x qs).
Proof.
  revert d x. induction qs as [|q qs IH]; intros d x Hd Hq; [by exists d|].
  destruct (Hq q) as [Wq Sq]; [set_solver|]. destruct (Dataset_insert_spec S d x q Hd Wq Sq) as (d1 & E & H1).
  cbn [Dataset_extend]. rewrite E. cbn [mbind option_bind fst]. destruct (IH d1 _ H1) as (d2 & E2 & H2); [set_solver|].
  by exists d2.
Qed.

Lemma run_op_spec d x op :
  represents S d x -> op_valid op ->
  exists d', run_op d op = Some (d', (spec_op x op).2) /\ represents S d' (spec_op x op).1.
Proof.
  intros Hd Hv. destruct op as [q|qs|q| |n|g|n|g t|g t|g]; cbn [op_valid] in Hv; cbn [run_op spec_op fst snd].
  - destruct Hv as [W F]. destruct (Dataset_insert_spec S d x q Hd W F) as (d' & -> & H). by exists d'.
  - destruct (Dataset_extend_spec qs d x Hd Hv) as (d' & -> & H). by exists d'.
  - destruct Hv as [W F]. destruct (Dataset_remove_spec S d x q Hd W F) as [H ->]. by eexists.
  - eexists. split; [done|]. by eapply Dataset_clear_spec.
  - destruct Hv as [W F]. destruct (insert_named_graph_spec S d x n Hd W F) as (d' & -> & H). by exists d'.
  - destruct Hv as [W F]. eexists. split; [done|]. by apply clear_graph_spec.
  - destruct Hv as [W F]. destruct (remove_named_graph_spec S d x n Hd W F) as [H ->]. by eexists.
  - destruct Hv as [[Wg Sg] [Wt St]]. destruct (Dataset_graph_mut_spec S d x g Hd Wg Sg) as (v & -> & Hvw). cbn [mbind option_bind].
    destruct (GraphViewMut_insert_spec S v g _ t Hvw Wt St) as (v' & -> & Hv'). cbn [mbind option_bind fst snd qs_quads].
    eexists. split; [done|]. cbn [qs_graphs] in Hv'. rewrite add_graph_idem in Hv'. apply (vo_dataset S _ _ _ Hv').
  - destruct Hv as [[Wg Sg] [Wt St]]. destruct (Dataset_graph_mut_spec S d x g Hd Wg Sg) as (v & -> & Hvw). cbn [mbind option_bind].
    destruct (GraphViewMut_remove_spec S v g _ t Hvw Wt St) as [Hv' ->]. eexists. split; [done|]. apply (vo_dataset S _ _ _ Hv').
  - destruct Hv as [Wg Sg]. destruct (Dataset_graph_mut_spec S d x g Hd Wg Sg) as (v & -> & Hvw). cbn [mbind option_bind].
    eexists. split; [done|]. apply (vo_dataset S _ _ _ (GraphViewMut_clear_spec S v g _ Hvw)).
Qed.

Lemma run_ops_spec ops d x :
  represents S d x -> Forall op_valid ops ->
  exists d', run_ops d ops = Some (d', (spec_ops x ops).2) /\ represents S d' (spec_ops x ops).1.
Proof.
  revert d x. induction ops as [|op ops IH]; intros d x Hd Hv; [by exists d|]. apply Forall_cons_iff in Hv as [Ho Hv].
  destruct (run_op_spec d x op Hd Ho) as (d1 & E1 & H1). cbn [run_ops spec_ops fst snd]. rewrite E1. cbn [mbind option_bind fst snd].
  destruct (IH d1 _ H1 Hv) as (d2 & E2 & H2). rewrite E2. by exists d2.
Qed.

(** ** Questions *)

Definition graph_present (g : RdfGraphName) (x : QuadSet) : bool :=
  match graph_node g with Some n => bool_decide (n ∈ qs_graphs x) | None => true end.

(** A dataset answers every question as the set does. *)
Record answers (d : Dataset) (x : QuadSet) : Prop := {
  an_pattern : forall s p o g, pattern_valid S s p o g ->
    exists l, quads_for_pattern d s p o g = Some l /\ enumerates l (fun q => q ∈ qs_quads x /\ quad_matches s p o g q);
  an_contains : forall q, Quad_wf q = true -> Forall S (Quad_strings q) -> Dataset_contains d q = bool_decide (q ∈ qs_quads x);
  an_len : Dataset_len d = Z.of_nat (size (qs_quads x));
  an_is_empty : Dataset_is_empty d = bool_decide (qs_quads x = ∅);
  an_named_graphs : exists l, Dataset_named_graphs d = Some l /\ enumerates l (fun n => n ∈ qs_graphs x);
  an_contains_named_graph : forall n, Node_wf n = true -> Forall S (Node_strings n) ->
    contains_named_graph d n = bool_decide (n ∈ qs_graphs x);
  an_view_pattern : forall g s p o, Graph_wf g = true -> Forall S (Graph_strings g) -> triple_pattern_valid S s p o ->
    exists l, triples_for_pattern (Dataset_graph d g) s p o = Some l
      /\ enumerates l (fun t => in_graph g t ∈ qs_quads x /\ triple_matches s p o t);
  an_view_contains : forall g t, Graph_wf g = true -> Forall S (Graph_strings g) -> Triple_wf t = true -> Forall S (Triple_strings t) ->
    GraphView_contains (Dataset_graph d g) t = bool_decide (in_graph g t ∈ qs_quads x);
  an_view_present : forall g, Graph_wf g = true -> Forall S (Graph_strings g) ->
    GraphView_is_present (Dataset_graph d g) = graph_present g x
}.

Lemma GraphView_is_present_spec d x g :
  represents S d x -> Graph_wf g = true -> Forall S (Graph_strings g) ->
  GraphView_is_present (Dataset_graph d g) = graph_present g x.
Proof.
  intros Hd Wg Sg. unfold graph_present. destruct (graph_node g) as [n|] eqn:En; [|by destruct g].
  rewrite <- (contains_named_graph_spec S d x n Hd (graph_node_wf _ _ En Wg)) by (by rewrite <- (graph_node_strings _ _ En)).
  assert (IG_impossible ∉ named_graphs d) as Hi.
  { rewrite (rp_named S d x Hd). intros (m & E & Hm)%elem_of_map. destruct (rp_graphs S d x Hd m Hm) as (Wm & Sm & _).
    destruct m as [m|m]; [|done]. injection E as E. destruct (Node_key_ok S _ Wm Sm) as [O _]. simpl in O. unfold key_ok in O.
    unfold Key_impossible in E. lia. }
  unfold GraphView_is_present, Dataset_graph, contains_named_graph, encoded_named_graph_name.
  destruct g as [m|m|]; simplify_eq/=; [destruct (NamedNode_encoded_from m _)|destruct (BlankNode_encoded_from m _)]; simpl; try done; by rewrite bool_decide_false.
Qed.

Lemma represents_answers d x : represents S d x -> answers d x.
Proof.
  intros Hd. split.
  - intros. by eapply (quads_for_pattern_set S).
  - intros. by eapply (Dataset_contains_spec S).
  - by eapply (Dataset_len_spec S).
  - by eapply (Dataset_is_empty_spec S).
  - by eapply (Dataset_named_graphs_spec S).
  - intros. by eapply (contains_named_graph_spec S).
  - intros. by eapply (triples_for_pattern_set S).
  - intros. by eapply (GraphView_contains_spec S).
  - intros. by apply GraphView_is_present_spec.
Qed.

(** C24. After any sequence of changes of terms that the constructors build, whose
    strings have distinct hashes and whose blank nodes do not have the numeric
    ids 0 and u128::MAX (see [zero_blank_node_changes], [last_blank_node_missed]), through the dataset or through mutable views of its graphs, the
    dataset exists (every call returns), each change has answered whether it
    changed anything as on a set of quads, and every lookup by a pattern, in the
    dataset or in one graph, lists exactly the quads of the set that match,
    each once; membership, length, emptiness, the named graphs and their
    presence, empty graphs included, are those of the set. *)
Theorem Dataset_refines_sets (ops : list dataset_op) :
  Forall op_valid ops ->
  exists d, run_ops Dataset_new ops = Some (d, (spec_ops (mkQuadSet ∅ ∅) ops).2)
    /\ answers d (spec_ops (mkQuadSet ∅ ∅) ops).1.
Proof.
  intros Hv. destruct (run_ops_spec ops Dataset_new (mkQuadSet ∅ ∅) (represents_new S) Hv) as (d & E & Hd).
  exists d. split; [done|]. by apply represents_answers.
Qed.

End refinement.

(** ** Equality *)

#[global] Instance QuadSet_eq_dec : EqDecision QuadSet.
Proof. intros [a b] [c d]. refine (cast_if_and (decide (a = c)) (decide (b = d))); abstract congruence. Defined.

Lemma forallb_subset {A : Type} `{Countable A} (l : list A) (X Y : gset A) (f : A -> bool) :
  enumerates l (fun a => a ∈ X) -> (forall a, a ∈ X -> f a = bool_decide (a ∈ Y)) -> forallb f l = bool_decide (X ⊆ Y).
Proof.
  intros [_ Hl] Hf. apply eq_bool_prop_intro. rewrite Is_true_true, Is_true_true, forallb_forall, bool_decide_eq_true. split.
  - intros H1 a Ha. specialize (H1 a). rewrite Hf in H1 by done. apply (bool_decide_eq_true_1 _), H1, list_elem_of_In, Hl, Ha.
  - intros H1 a Ha%list_elem_of_In%Hl. rewrite Hf by done. by apply bool_decide_eq_true, H1.
Qed.

Section equality.
  Context {P1 P2 : InternerParams} (S : bytes -> Prop) {HS1 : @GoodHash P1 S} {HS2 : @GoodHash P2 S}.

Lemma named_graphs_size {P : InternerParams} {HS : GoodHash S} d x : represents S d x -> size (named_graphs d) = size (qs_graphs x).
Proof.
  intros Hd. rewrite (rp_named S d x Hd). apply set_map_size. intros a b Ha Hb.
  destruct (rp_graphs S d x Hd a Ha) as (Wa & _ & Ka), (rp_graphs S d x Hd b Hb) as (Wb & _ & Kb).
  by apply (Graph_node_key_inj S (interner d)).
Qed.

Lemma Dataset_eq_spec d x e y :
  represents (P := P1) S d x -> represents (P := P2) S e y -> Dataset_eq (P' := P2) d e = Some (bool_decide (x = y)).
Proof.
  intros Hd He. unfold Dataset_eq. rewrite (Dataset_len_spec S d x Hd), (Dataset_len_spec S e y He), (named_graphs_size d x Hd), (named_graphs_size e y He).
  destruct (Z.eqb_spec (Z.of_nat (size (qs_quads x))) (Z.of_nat (size (qs_quads y)))) as [E1|E1]; cbn [negb orb].
  2: { by rewrite bool_decide_false by (by intros ->). }
  destruct (Z.eqb_spec (Z.of_nat (size (qs_graphs x))) (Z.of_nat (size (qs_graphs y)))) as [E2|E2]; cbn [negb].
  2: { by rewrite bool_decide_false by (by intros ->). }
  destruct (Dataset_named_graphs_spec S d x Hd) as (gs & -> & Hg). destruct (Dataset_iter_spec S d x Hd) as (qs & -> & Hq).
  cbn [mbind option_bind].
  rewrite (forallb_subset gs (qs_graphs x) (qs_graphs y) _ Hg), (forallb_subset qs (qs_quads x) (qs_quads y) _ Hq).
  - destruct (bool_decide_reflect (qs_graphs x ⊆ qs_graphs y)) as [Hs|Hs]; cbn [bool_decide].
    + f_equal. apply bool_decide_ext. split; [|by intros ->]. intros Hs'. destruct x as [a b], y as [a' b']; simpl in *. f_equal; apply set_subseteq_size_eq; [done|lia|done|lia].
    + f_equal. symmetry. apply bool_decide_false. by intros ->.
  - intros q Hin. destruct (rp_quads S d x Hd q Hin) as (W & F & _). by apply (Dataset_contains_spec S).
  - intros n Hin. destruct (rp_graphs S d x Hd n Hin) as (W & F & _). by apply (contains_named_graph_spec S).
Qed.
End equality.

(** * Datasets on concrete terms

    The witnesses of the theorems on datasets, and the inputs on which the code
    departs from sets: two strings with one hash, and the blank node with the
    largest number. *)

(** A polynomial hash. *)
Definition sample_hash (s : bytes) : Z := foldl (fun h c => (h * 31 + Z_of_byte c) mod 2 ^ 40) 7 s.
#[global] Instance sample_params : InternerParams := {| hash_one := sample_hash |}.

Definition ex_a : RdfNamedNode := mkNamedNode (str "http://example.com/a").
Definition ex_b : RdfNamedNode := mkNamedNode (str "http://example.com/b").
Definition ex_blank : RdfBlankNode := BlankNode_new_unchecked (str "ab12").
Definition ex_lit : RdfLiteral := LanguageTaggedString (str "chat") (str "fr").
Definition ex_quad1 : RdfQuad := mkQuad (NodeNamed ex_a) ex_b (TermLiteral ex_lit) GraphDefault.
Definition ex_quad2 : RdfQuad := mkQuad (NodeBlank ex_blank) ex_a (TermNamedNode ex_b) (GraphNamedNode ex_b).
Definition ex_triple : RdfTriple := mkTriple (NodeBlank ex_blank) ex_b (TermTriple (NodeNamed ex_a) ex_b (TermBlankNode ex_blank)).

Definition sample_strings : list bytes := [nn_iri ex_a; nn_iri ex_b; str "chat"; str "fr"].
Definition sample_set (s : bytes) : Prop := s ∈ sample_strings.
#[global] Instance sample_set_dec (s : bytes) : Decision (sample_set s).
Proof. unfold sample_set. apply _. Defined.

#[global] Instance sample_good : GoodHash sample_set.
Proof.
  assert (forall P : bytes -> Prop, P (nn_iri ex_a) -> P (nn_iri ex_b) -> P (str "chat") -> P (str "fr") -> forall s, sample_set s -> P s) as Hall.
  { intros Q H1 H2 H3 H4 s Hs. unfold sample_set, sample_strings in Hs. rewrite !elem_of_cons in Hs.
    destruct Hs as [->|[->|[->|[->|Hs]]]]; try done. by apply elem_of_nil in Hs. }
  split.
  - apply Hall; vm_compute; split; discriminate.
  - intros a b Ha. revert a Ha b. apply (Hall (fun a => forall b, sample_set b -> hash a = hash b -> a = b)).
    all: match goal with |- forall b, sample_set b -> hash ?a = hash b -> ?a = b => apply (Hall (fun b => hash a = hash b -> a = b)) end.
    all: first [reflexivity | intros H; exfalso; vm_compute in H; discriminate H].
Qed.

Definition sample_ops : list dataset_op :=
  [OpInsert ex_quad1; OpInsert ex_quad1; OpExtend [ex_quad2]; OpInsertGraph (NodeBlank ex_blank);
   OpViewInsert (GraphBlankNode ex_blank) ex_triple; OpRemove ex_quad1; OpViewRemove GraphDefault ex_triple;
   OpClearGraph (GraphNamedNode ex_b); OpRemoveGraph (NodeNamed ex_a)].

Local Ltac concrete := apply (bool_decide_unpack _); vm_compute; exact I.

Lemma sample_valid : Forall (op_valid sample_set) sample_ops.
Proof.
  repeat first [apply Forall_nil_2 | apply Forall_cons_2]; cbn [op_valid].
  all: repeat match goal with |- _ /\ _ => split | |- _ = true => reflexivity | |- Forall _ _ => concrete end.
  intros q Hq. apply list_elem_of_singleton in Hq as ->. split; [reflexivity|concrete].
Qed.

Lemma Dataset_refines_sets_witness :
  (spec_ops (mkQuadSet ∅ ∅) sample_ops).2
    = [Some true; Some false; None; Some true; Some true; Some true; Some false; None; Some false]
  /\ exists d, run_ops Dataset_new sample_ops = Some (d, (spec_ops (mkQuadSet ∅ ∅) sample_ops).2)
    /\ answers sample_set d (spec_ops (mkQuadSet ∅ ∅) sample_ops).1.
Proof. split; [reflexivity|exact (Dataset_refines_sets sample_set sample_ops sample_valid)]. Defined.

(** ** Where the code departs from sets *)

(** Two strings with one hash: interning the second never returns. *)
Lemma get_or_intern_collision {P : InternerParams} (it : Interner) (a b : bytes) :
  string_for_hash it !! hash b = Some a -> a <> b ->
  get_or_intern b it = None /\ forall fuel h, occupied_loop fuel a b h = None.
Proof.
  intros Ha Hab. split.
  - unfold get_or_intern. rewrite Ha. cbn [occupied_loop]. rewrite decide_False by exact Hab. reflexivity.
  - induction fuel as [|fuel IH]; intros h; [reflexivity|]. cbn [occupied_loop]. rewrite decide_False by exact Hab. apply IH.
Qed.

(** The blank node numbered with the largest [u128] is found in its dataset, but
    not by the range of its subject. *)
Definition last_blank : RdfBlankNode := BlankNode_new_from_unique_id (int_max U128).
Definition last_quad : RdfQuad := mkQuad (NodeBlank last_blank) ex_a (TermNamedNode ex_b) GraphDefault.
Lemma last_blank_node_missed :
  match Dataset_insert Dataset_new last_quad with
  | Some (d, new) =>
      new && Dataset_contains d last_quad && bool_decide (quads_for_subject d (NodeBlank last_blank) = Some [])
      && bool_decide (Dataset_iter d = Some [last_quad])
  | None => false
  end = true.
Proof. reflexivity. Qed.

(** The blank node numbered 0 comes back as a named one. *)
Definition zero_quad : RdfQuad :=
  mkQuad (NodeBlank (BlankNode_new_from_unique_id 0)) ex_a (TermNamedNode ex_b) GraphDefault.
Lemma zero_blank_node_changes :
  (r ← Dataset_insert Dataset_new zero_quad; Dataset_iter r.1)
  = Some [mkQuad (NodeBlank (BlankNamed (str "0"))) ex_a (TermNamedNode ex_b) GraphDefault].
Proof. reflexivity. Qed.

(** A mutable view prints its triples without the final dot. *)
Definition shown_view : option GraphView :=
  fst <$> GraphViewMut_insert (mkGraphView Dataset_new IGDefaultGraph) (mkTriple (NodeNamed ex_a) ex_b (TermNamedNode ex_b)).
Definition shown_text : bytes := str "<http://example.com/a> <http://example.com/b> <http://example.com/b>".
Lemma mutable_view_display :
  (v ← shown_view; s ← GraphView_to_string v; t ← GraphViewMut_to_string v; Some (s, t))
  = Some (shown_text ++ str " ." ++ [byte_of_Z 10], shown_text ++ [byte_of_Z 10]).
Proof. reflexivity. Qed.
