(* ===== verification/OxCanonicalization.v ===== *)
(** * Canonicalization of datasets

    lib/oxrdf/src/dataset.rs, from [Dataset::canonicalize] on: the blank nodes of
    a dataset are named after the hashes of the quads around them, by the steps
    of RDFC-1.0.  The calls of Hash N-Degree Quads are counted: the computation
    threads what remains of the budget and ends in [TooManyNDegreeCalls], or in
    [CanonPanic] where the code indexes a map.  The hash functions are parameters,
    like the order in which a [HashMap] lists its keys and the order
    [sort_unstable_by] leaves equal hashes in. *)
From stdpp Require Import gmap.
From S2P Require Import Prelude MachineInt RustStr BTree StateResult RdfModel RdfDisplay.
From S2P Require Import OxInterning OxDataset.

#[global] Instance IB_ord : RustOrd InternedBlankNode := fun a b => cmp (IB_code a) (IB_code b).

(** ** Algorithms, limits and issuers *)

Inductive CanonicalizationHashAlgorithm : Set := Sha256 | Sha384.
Inductive CanonicalizationAlgorithm : Set :=
| Unstable
| UnstableHashedIds
| Rdfc10 (hash_algorithm : CanonicalizationHashAlgorithm).

(** [CanonicalizationError], and the panic of an index. *)
Inductive CanonFailure : Set :=
| TooManyNDegreeCalls (maximum : Z)
| CanonPanic.

Inductive NdegreeCallLimit : Set :=
| LimitDefault
| LimitExact (maximum : Z)
| LimitWorkFactor (factor : Z).
(** [usize::checked_pow] *)
Definition checked_pow (base exponent : Z) : option Z := checked U64 (base ^ exponent).
Definition NdegreeCallLimit_maximum (limit : NdegreeCallLimit) (non_unique_blank_nodes : Z) : Z :=
  match limit with
  | LimitDefault => non_unique_blank_nodes
  | LimitExact maximum => maximum
  | LimitWorkFactor factor =>
      if factor =? 0 then 0 else default (int_max U64) (checked_pow non_unique_blank_nodes factor)
  end.

Record IdentifierIssuer : Set := mkIssuer {
  identifier_prefix : bytes;
  identifier_counter : Z;
  issued_identifier_map : gmap InternedBlankNode RdfBlankNode;
  issued_identifier_order : list InternedBlankNode;
  already_issued_identifiers : gset RdfBlankNode
}.
Definition IdentifierIssuer_new (prefix : bytes) : IdentifierIssuer := mkIssuer prefix 0 ∅ [] ∅.

(** The loop of the identifiers built from a hash: [None] when [fuel] of them
    were taken.  The counter is an [i32] that stays below the number of names. *)
Fixpoint unused_identifier (fuel : nat) (taken : gset RdfBlankNode) (hash : bytes) (i : Z) (identifier : RdfBlankNode)
  : option RdfBlankNode :=
  match fuel with
  | O => None
  | S fuel =>
      if decide (identifier ∈ taken)
      then unused_identifier fuel taken hash (i + 1) (BlankNode_new_unchecked (hash ++ print_int (i + 1)))
      else Some identifier
  end.
Definition issue_identifier (issuer : IdentifierIssuer) (n : InternedBlankNode) (algorithm : CanonicalizationAlgorithm)
  (hash : bytes) : option (IdentifierIssuer * RdfBlankNode) :=
  match issued_identifier_map issuer !! n with
  | Some identifier => Some (issuer, identifier)
  | None =>
      match algorithm with
      | UnstableHashedIds =>
          let taken := already_issued_identifiers issuer in
          identifier ← unused_identifier (S (size taken)) taken hash 0 (BlankNode_new_unchecked hash);
          Some (mkIssuer (identifier_prefix issuer) (identifier_counter issuer)
                  (<[n := identifier]> (issued_identifier_map issuer)) (issued_identifier_order issuer ++ [n])
                  ({[identifier]} ∪ taken), identifier)
      | _ =>
          let identifier := BlankNode_new_unchecked (identifier_prefix issuer ++ print_int (identifier_counter issuer)) in
          Some (mkIssuer (identifier_prefix issuer) (wrap U32 (identifier_counter issuer + 1))
                  (<[n := identifier]> (issued_identifier_map issuer)) (issued_identifier_order issuer ++ [n])
                  (already_issued_identifiers issuer), identifier)
      end
  end.

Record CanonicalizationState : Set := mkCanonState {
  blank_node_to_quads_map : gmap InternedBlankNode (list InternedQuad);
  hash_to_blank_nodes_map : gmap bytes (list InternedBlankNode);
  canonical_issuer : IdentifierIssuer;
  empty_named_graphs : gset InternedBlankNode
}.

Class CanonParams := {
  hex_sha256 : bytes -> bytes;
  hex_sha384 : bytes -> bytes;
  default_hasher : bytes -> Z;
  hash_map_keys : gmap InternedBlankNode (list InternedQuad) -> list InternedBlankNode;
  sort_unstable_by_hash : list (IdentifierIssuer * bytes) -> list (IdentifierIssuer * bytes)
}.

(** ** Permutations *)

Record Permutations (T : Type) : Type := mkPermutations {
  pm_items : list T;
  pm_counters : list nat;
  pm_index : nat;
  pm_first : bool
}.
Arguments mkPermutations {T} _ _ _ _.
Arguments pm_items {T} _.
Arguments pm_counters {T} _.
Arguments pm_index {T} _.
Arguments pm_first {T} _.

Definition Permutations_new {T : Type} (items : list T) : Permutations T :=
  mkPermutations items (replicate (length items) 0%nat) 0 true.

(** [slice::swap]; the indexes are in range. *)
Definition swap {T : Type} (items : list T) (i j : nat) : list T :=
  match items !! i, items !! j with
  | Some x, Some y => <[j := x]> (<[i := y]> items)
  | _, _ => items
  end.

(** The [while] loop; [fuel] is the number of counters left. *)
Fixpoint Permutations_scan {T : Type} (fuel : nat) (s : Permutations T) : Permutations T * option (list T) :=
  match fuel with
  | O => (s, None)
  | S fuel =>
      let index := pm_index s in
      match pm_counters s !! index with
      | None => (s, None)
      | Some counter =>
          if bool_decide (counter < index)%nat then
            let items := if Nat.even index then swap (pm_items s) 0 index else swap (pm_items s) counter index in
            (mkPermutations items (<[index := S counter]> (pm_counters s)) 0 false, Some items)
          else
            Permutations_scan fuel (mkPermutations (pm_items s) (<[index := 0%nat]> (pm_counters s)) (S index) false)
      end
  end.
Definition Permutations_next {T : Type} (s : Permutations T) : Permutations T * option (list T) :=
  if pm_first s then (mkPermutations (pm_items s) (pm_counters s) (pm_index s) false, Some (pm_items s))
  else Permutations_scan (length (pm_items s)) s.

(** The items of the iterator: there are [n!] of them ([permutations_complete]). *)
Fixpoint Permutations_collect {T : Type} (fuel : nat) (s : Permutations T) : list (list T) :=
  match fuel with
  | O => []
  | S fuel =>
      match Permutations_next s with
      | (s, Some p) => p :: Permutations_collect fuel s
      | (_, None) => []
      end
  end.
Definition permutations {T : Type} (items : list T) : list (list T) :=
  Permutations_collect (fact (length items)) (Permutations_new items).

Section canonicalization.
  Context {C : CanonParams}.

Definition hash_function (input : bytes) (hash_algorithm : option CanonicalizationHashAlgorithm) : bytes :=
  match hash_algorithm with
  | Some Sha256 => hex_sha256 input
  | Some Sha384 => hex_sha384 input
  | None => print_int (default_hasher input)
  end.
Definition algorithm_hash (algorithm : CanonicalizationAlgorithm) : option CanonicalizationHashAlgorithm :=
  match algorithm with Rdfc10 h => Some h | _ => None end.

(** ** Quads of a blank node *)

Definition add_quad_to_blank_node_to_quads_map_for_blank_node (bnode : InternedBlankNode) (quad : InternedQuad)
  (m : gmap InternedBlankNode (list InternedQuad)) : gmap InternedBlankNode (list InternedQuad) :=
  let entry := default [] (m !! bnode) in
  <[bnode := if decide (list.last entry = Some quad) then entry else entry ++ [quad]]> m.
Definition add_quad_for_node (n : InternedNamedOrBlankNode) (quad : InternedQuad)
  (m : gmap InternedBlankNode (list InternedQuad)) : gmap InternedBlankNode (list InternedQuad) :=
  match n with
  | INBlankNode b => add_quad_to_blank_node_to_quads_map_for_blank_node b quad m
  | INNamedNode _ => m
  end.
(** The subject and the object of a triple, and of the triples in its object. *)
Fixpoint add_quad_to_blank_node_to_quads_map_based_on_triple (t : InternedTerm) (quad : InternedQuad)
  (m : gmap InternedBlankNode (list InternedQuad)) : gmap InternedBlankNode (list InternedQuad) :=
  match t with
  | ITTriple s p o =>
      let m := add_quad_for_node s quad m in
      match o with
      | ITBlankNode b => add_quad_to_blank_node_to_quads_map_for_blank_node b quad m
      | ITTriple _ _ _ => add_quad_to_blank_node_to_quads_map_based_on_triple o quad m
      | _ => m
      end
  | _ => m
  end.
Definition add_quad (m : gmap InternedBlankNode (list InternedQuad)) (quad : InternedQuad)
  : gmap InternedBlankNode (list InternedQuad) :=
  let '(s, (p, (o, g))) := quad in
  let m := add_quad_for_node s quad m in
  let m := match o with ITBlankNode b => add_quad_to_blank_node_to_quads_map_for_blank_node b quad m | _ => m end in
  let m := add_quad_to_blank_node_to_quads_map_based_on_triple o quad m in
  match g with IGBlankNode b => add_quad_to_blank_node_to_quads_map_for_blank_node b quad m | _ => m end.

(** The empty graphs named by blank nodes. *)
Definition add_empty_graph (d : Dataset) (r : gmap InternedBlankNode (list InternedQuad) * gset InternedBlankNode)
  (g : InternedGraphName) : gmap InternedBlankNode (list InternedQuad) * gset InternedBlankNode :=
  match g with
  | IGBlankNode b =>
      match interned_quads_for_graph_name d g with
      | [] => (<[b := default [] (r.1 !! b)]> r.1, {[b]} ∪ r.2)
      | _ => r
      end
  | _ => r
  end.

(** ** Hash First Degree Quads *)

Definition letter (n reference : InternedBlankNode) : RdfBlankNode :=
  BlankNode_new_unchecked (if decide (n = reference) then str "a" else str "z").
Definition hash_first_degree_quads_decode_named_or_blank_node (it : Interner) (n : InternedNamedOrBlankNode)
  (reference : InternedBlankNode) : option RdfNamedOrBlankNode :=
  match n with
  | INNamedNode n => NodeNamed <$> NamedNode_decode_from n it
  | INBlankNode n => Some (NodeBlank (letter n reference))
  end.
Fixpoint hash_first_degree_quads_decode_term (it : Interner) (t : InternedTerm) (reference : InternedBlankNode) : option RdfTerm :=
  match t with
  | ITNamedNode n => TermNamedNode <$> NamedNode_decode_from n it
  | ITBlankNode n => Some (TermBlankNode (letter n reference))
  | ITLiteral l => TermLiteral <$> Literal_decode_from l it
  | ITTriple s p o =>
      s ← hash_first_degree_quads_decode_named_or_blank_node it s reference;
      p ← NamedNode_decode_from p it;
      o ← hash_first_degree_quads_decode_term it o reference;
      Some (TermTriple s p o)
  end.
Definition hash_first_degree_quads_decode_graph_name (it : Interner) (g : InternedGraphName) (reference : InternedBlankNode)
  : option RdfGraphName :=
  match g with
  | IGNamedNode n => GraphNamedNode <$> NamedNode_decode_from n it
  | IGBlankNode n => Some (GraphBlankNode (letter n reference))
  | IGDefaultGraph => Some GraphDefault
  end.
Definition first_degree_line (it : Interner) (reference : InternedBlankNode) (quad : InternedQuad) : option bytes :=
  let '(s, (p, (o, g))) := quad in
  s ← hash_first_degree_quads_decode_named_or_blank_node it s reference;
  p ← NamedNode_decode_from p it;
  o ← hash_first_degree_quads_decode_term it o reference;
  g ← hash_first_degree_quads_decode_graph_name it g reference;
  Some (Quad_to_string (mkQuad s p o g) ++ str " ." ++ [byte_of_Z 10]).
Definition hash_first_degree_quads (d : Dataset) (cs : CanonicalizationState) (reference : InternedBlankNode)
  (hash_algorithm : option CanonicalizationHashAlgorithm) : option bytes :=
  quads ← blank_node_to_quads_map cs !! reference;
  lines ← mapM (first_degree_line (interner d) reference) quads;
  let nquads := (if decide (reference ∈ empty_named_graphs cs) then [str "@empty-named-graph _:a" ++ [byte_of_Z 10]] else []) ++ lines in
  Some (hash_function (concat (sort_by (fun line => line) nquads)) hash_algorithm).

(** ** Hash N-Degree Quads *)

Definition hash_related_blank_node (d : Dataset) (cs : CanonicalizationState) (related : InternedBlankNode) (quad : InternedQuad)
  (issuer : IdentifierIssuer) (position : bytes) (hash_algorithm : option CanonicalizationHashAlgorithm) : option bytes :=
  let '(s, (p, (o, g))) := quad in
  input ← (if decide (position = str "g") then Some position
           else p ← NamedNode_decode_from p (interner d); Some (position ++ str "<" ++ NamedNode_as_str p ++ str ">"));
  input ← match issued_identifier_map (canonical_issuer cs) !! related with
          | Some id => Some (input ++ str "_:" ++ BlankNode_as_str id)
          | None =>
              match issued_identifier_map issuer !! related with
              | Some id => Some (input ++ str "_:" ++ BlankNode_as_str id)
              | None => h ← hash_first_degree_quads d cs related hash_algorithm; Some (input ++ h)
              end
          end;
  Some (hash_function input hash_algorithm).

Definition hash_related_blank_node_on_possible_component (d : Dataset) (cs : CanonicalizationState)
  (component identifier : InternedBlankNode) (quad : InternedQuad) (issuer : IdentifierIssuer) (position : bytes)
  (hash_algorithm : option CanonicalizationHashAlgorithm) (h_n : gmap bytes (gset InternedBlankNode))
  : option (gmap bytes (gset InternedBlankNode)) :=
  if decide (component = identifier) then Some h_n
  else
    h ← hash_related_blank_node d cs component quad issuer position hash_algorithm;
    Some (<[h := {[component]} ∪ default ∅ (h_n !! h)]> h_n).
Definition related_subject (d : Dataset) (cs : CanonicalizationState) (n : InternedNamedOrBlankNode) (identifier : InternedBlankNode)
  (quad : InternedQuad) (issuer : IdentifierIssuer) (position : bytes) (ha : option CanonicalizationHashAlgorithm)
  (h_n : gmap bytes (gset InternedBlankNode)) : option (gmap bytes (gset InternedBlankNode)) :=
  match n with
  | INBlankNode b => hash_related_blank_node_on_possible_component d cs b identifier quad issuer position ha h_n
  | INNamedNode _ => Some h_n
  end.
Definition related_object (d : Dataset) (cs : CanonicalizationState) (t : InternedTerm) (identifier : InternedBlankNode)
  (quad : InternedQuad) (issuer : IdentifierIssuer) (position : bytes) (ha : option CanonicalizationHashAlgorithm)
  (h_n : gmap bytes (gset InternedBlankNode)) : option (gmap bytes (gset InternedBlankNode)) :=
  match t with
  | ITBlankNode b => hash_related_blank_node_on_possible_component d cs b identifier quad issuer position ha h_n
  | _ => Some h_n
  end.
Definition hash_related_blank_node_on_possible_triple (d : Dataset) (cs : CanonicalizationState) (t : InternedTerm)
  (identifier : InternedBlankNode) (quad : InternedQuad) (issuer : IdentifierIssuer)
  (ha : option CanonicalizationHashAlgorithm) (h_n : gmap bytes (gset InternedBlankNode))
  : option (gmap bytes (gset InternedBlankNode)) :=
  match t with
  | ITTriple s p o =>
      h_n ← related_subject d cs s identifier quad issuer (str "os") ha h_n;
      related_object d cs o identifier quad issuer (str "oo") ha h_n
  | _ => Some h_n
  end.
Definition related_quad (d : Dataset) (cs : CanonicalizationState) (identifier : InternedBlankNode) (issuer : IdentifierIssuer)
  (ha : option CanonicalizationHashAlgorithm) (h_n : gmap bytes (gset InternedBlankNode)) (quad : InternedQuad)
  : option (gmap bytes (gset InternedBlankNode)) :=
  let '(s, (p, (o, g))) := quad in
  h_n ← related_subject d cs s identifier quad issuer (str "s") ha h_n;
  h_n ← related_object d cs o identifier quad issuer (str "o") ha h_n;
  h_n ← hash_related_blank_node_on_possible_triple d cs o identifier quad issuer ha h_n;
  match g with
  | IGBlankNode b => hash_related_blank_node_on_possible_component d cs b identifier quad issuer (str "g") ha h_n
  | _ => Some h_n
  end.

(** A loop of a computation that may panic. *)
Fixpoint fold_option {A X : Type} (f : A -> X -> option A) (a : A) (xs : list X) : option A :=
  match xs with [] => Some a | x :: xs => a ← f a x; fold_option f a xs end.

(** The computation with the remaining calls as its state. *)
Abbreviation Canon := (ST Z CanonFailure) (only parsing).
Definition or_panic {A : Type} (o : option A) : Canon A := lift (ok_or CanonPanic o).
Definition NdegreeCallBudget_consume (maximum : Z) : Canon unit :=
  fun remaining => if remaining =? 0 then Err (TooManyNDegreeCalls maximum) else Ok (tt, remaining - 1).

(** [path] is already longer or later than the chosen one. *)
Definition worse_path (chosen_path path : bytes) : bool :=
  match chosen_path with
  | [] => false
  | _ => bool_decide (length chosen_path <= length path)%nat && ltb chosen_path path
  end.

(** Step 5.4.4: the name of a related node is added to the path. *)
Definition permutation_step (cs : CanonicalizationState) (algorithm : CanonicalizationAlgorithm) (related_hash : bytes)
  (related : InternedBlankNode) (issuer_copy : IdentifierIssuer) (path : bytes) (recursion_list : list InternedBlankNode)
  : option (IdentifierIssuer * bytes * list InternedBlankNode) :=
  match issued_identifier_map (canonical_issuer cs) !! related with
  | Some id => Some (issuer_copy, path ++ str "_:" ++ BlankNode_as_str id, recursion_list)
  | None =>
      let recursion_list :=
        match issued_identifier_map issuer_copy !! related with Some _ => recursion_list | None => recursion_list ++ [related] end in
      r ← issue_identifier issuer_copy related algorithm related_hash;
      Some (r.1, path ++ str "_:" ++ BlankNode_as_str r.2, recursion_list)
  end.
(** The first loop over a permutation; [Some None] is [continue 'perm]. *)
Fixpoint permutation_path (cs : CanonicalizationState) (algorithm : CanonicalizationAlgorithm) (related_hash chosen_path : bytes)
  (p : list InternedBlankNode) (issuer_copy : IdentifierIssuer) (path : bytes) (recursion_list : list InternedBlankNode)
  : option (option (IdentifierIssuer * bytes * list InternedBlankNode)) :=
  match p with
  | [] => Some (Some (issuer_copy, path, recursion_list))
  | related :: p =>
      r ← permutation_step cs algorithm related_hash related issuer_copy path recursion_list;
      let '(issuer_copy, path, recursion_list) := r in
      if worse_path chosen_path path then Some None
      else permutation_path cs algorithm related_hash chosen_path p issuer_copy path recursion_list
  end.

Section recursion.
  Context (d : Dataset) (cs : CanonicalizationState) (algorithm : CanonicalizationAlgorithm).
  (** A recursive call, and the maximum number of calls. *)
  Context (call : InternedBlankNode -> IdentifierIssuer -> Canon (IdentifierIssuer * bytes)).

(** The second loop; [None] is [continue 'perm]. *)
Fixpoint recursion_path (chosen_path : bytes) (recursion_list : list InternedBlankNode) (issuer_copy : IdentifierIssuer)
  (path : bytes) : Canon (option (IdentifierIssuer * bytes)) :=
  match recursion_list with
  | [] => mret (Some (issuer_copy, path))
  | related :: recursion_list =>
      result ← call related issuer_copy;
      let '(result_identifier_issuer, result_hash) := result in
      r ← or_panic (issue_identifier issuer_copy related algorithm result_hash);
      let path := path ++ str "_:" ++ BlankNode_as_str r.2 ++ str "<" ++ result_hash ++ str ">" in
      let issuer_copy := result_identifier_issuer in
      if worse_path chosen_path path then mret None
      else recursion_path chosen_path recursion_list issuer_copy path
  end.
Definition try_permutation (issuer : IdentifierIssuer) (related_hash : bytes) (chosen : bytes * IdentifierIssuer)
  (p : list InternedBlankNode) : Canon (bytes * IdentifierIssuer) :=
  let '(chosen_path, chosen_issuer) := chosen in
  r ← or_panic (permutation_path cs algorithm related_hash chosen_path p issuer [] []);
  match r with
  | None => mret chosen
  | Some (issuer_copy, path, recursion_list) =>
      r ← recursion_path chosen_path recursion_list issuer_copy path;
      match r with
      | None => mret chosen
      | Some (issuer_copy, path) =>
          mret (if bool_decide (chosen_path = []) || ltb path chosen_path then (path, issuer_copy) else chosen)
      end
  end.
(** One entry of [h_n]: the data to hash so far and the issuer. *)
Definition related_group (acc : bytes * IdentifierIssuer) (entry : bytes * gset InternedBlankNode) : Canon (bytes * IdentifierIssuer) :=
  let '(data_to_hash, issuer) := acc in
  let '(related_hash, blank_node_list) := entry in
  chosen ← for_each (try_permutation issuer related_hash) ([], IdentifierIssuer_new []) (permutations (btree_elements blank_node_list));
  mret (data_to_hash ++ related_hash ++ chosen.1, chosen.2).
Definition n_degree_body (identifier : InternedBlankNode) (issuer : IdentifierIssuer) : Canon (IdentifierIssuer * bytes) :=
  let ha := algorithm_hash algorithm in
  quads ← or_panic (blank_node_to_quads_map cs !! identifier);
  h_n ← or_panic (fold_option (related_quad d cs identifier issuer ha) ∅ quads);
  r ← for_each related_group ([], issuer) (btree_entries h_n);
  mret (r.2, hash_function r.1 ha).
End recursion.

(** Each call consumes the budget first, so the depth of the recursion is
    bounded by it: [fuel] is at least what remains ([n_degree_fuel]). *)
Fixpoint hash_n_degree_quads (fuel : nat) (d : Dataset) (cs : CanonicalizationState) (algorithm : CanonicalizationAlgorithm)
  (maximum : Z) (identifier : InternedBlankNode) (issuer : IdentifierIssuer) : Canon (IdentifierIssuer * bytes) :=
  match fuel with
  | O => throw (TooManyNDegreeCalls maximum)
  | S fuel =>
      _ ← NdegreeCallBudget_consume maximum;
      n_degree_body d cs algorithm (hash_n_degree_quads fuel d cs algorithm maximum) identifier issuer
  end.

(** ** The algorithm *)

(** Step 2: the quads of each blank node. *)
Definition initial_state (d : Dataset) : CanonicalizationState :=
  let m := foldl add_quad ∅ (btree_elements (spog d)) in
  let r := foldl (add_empty_graph d) (m, ∅) (btree_elements (named_graphs d)) in
  mkCanonState r.1 ∅ (IdentifierIssuer_new (str "c14n")) r.2.
(** Step 3: blank nodes by their first hash. *)
Definition add_first_hash (d : Dataset) (cs : CanonicalizationState) (ha : option CanonicalizationHashAlgorithm)
  (m : gmap bytes (list InternedBlankNode)) (n : InternedBlankNode) : option (gmap bytes (list InternedBlankNode)) :=
  h ← hash_first_degree_quads d cs n ha;
  Some (<[h := default [] (m !! h) ++ [n]]> m).
(** Step 4: a hash of one blank node names it, the others are kept. *)
Definition issue_unique (algorithm : CanonicalizationAlgorithm)
  (acc : IdentifierIssuer * list (bytes * list InternedBlankNode)) (entry : bytes * list InternedBlankNode)
  : option (IdentifierIssuer * list (bytes * list InternedBlankNode)) :=
  let '(issuer, kept) := acc in
  let '(hash, identifier_list) := entry in
  match identifier_list with
  | [] => None
  | [n] => r ← issue_identifier issuer n algorithm hash; Some (r.1, kept)
  | _ => Some (issuer, kept ++ [(hash, identifier_list)])
  end.
(** Step 5.2 *)
Definition hash_path (d : Dataset) (algorithm : CanonicalizationAlgorithm) (maximum : Z) (fuel : nat) (hash : bytes)
  (cs : CanonicalizationState) (hash_path_list : list (IdentifierIssuer * bytes)) (n : InternedBlankNode)
  : Canon (list (IdentifierIssuer * bytes)) :=
  match issued_identifier_map (canonical_issuer cs) !! n with
  | Some _ => mret hash_path_list
  | None =>
      r ← or_panic (issue_identifier (IdentifierIssuer_new (str "b")) n algorithm hash);
      r ← hash_n_degree_quads fuel d cs algorithm maximum n r.1;
      mret (hash_path_list ++ [r])
  end.
(** Step 5.3 *)
Definition issue_result (algorithm : CanonicalizationAlgorithm) (hash : bytes) (issuer : IdentifierIssuer)
  (r : IdentifierIssuer * bytes) : option IdentifierIssuer :=
  fold_option (fun issuer n => fst <$> issue_identifier issuer n algorithm hash) issuer (issued_identifier_order r.1).
Definition set_issuer (cs : CanonicalizationState) (issuer : IdentifierIssuer) : CanonicalizationState :=
  mkCanonState (blank_node_to_quads_map cs) (hash_to_blank_nodes_map cs) issuer (empty_named_graphs cs).
Definition name_group (d : Dataset) (algorithm : CanonicalizationAlgorithm) (maximum : Z) (fuel : nat)
  (cs : CanonicalizationState) (entry : bytes * list InternedBlankNode) : Canon CanonicalizationState :=
  let '(hash, identifier_list) := entry in
  hash_path_list ← for_each (hash_path d algorithm maximum fuel hash cs) [] identifier_list;
  issuer ← or_panic (fold_option (issue_result algorithm hash) (canonical_issuer cs) (sort_unstable_by_hash hash_path_list));
  mret (set_issuer cs issuer).

Definition canonicalize_interned_blank_nodes (d : Dataset) (algorithm : CanonicalizationAlgorithm) (limit : NdegreeCallLimit)
  : result CanonFailure (gmap InternedBlankNode RdfBlankNode) :=
  let ha := algorithm_hash algorithm in
  let cs := initial_state d in
  hashes ← ok_or CanonPanic (fold_option (add_first_hash d cs ha) ∅ (hash_map_keys (blank_node_to_quads_map cs)));
  r ← ok_or CanonPanic (fold_option (issue_unique algorithm) (canonical_issuer cs, []) (btree_entries hashes));
  let '(issuer, groups) := r in
  let default_n_degree_call_limit := foldr (fun g n => Z.of_nat (length g.2) + n) 0 groups in
  let maximum := NdegreeCallLimit_maximum limit default_n_degree_call_limit in
  match for_each (name_group d algorithm maximum (Z.to_nat maximum)) (set_issuer cs issuer) groups maximum with
  | Ok (cs, _) => Ok (issued_identifier_map (canonical_issuer cs))
  | Err e => Err e
  end.

(** [canonicalize_blank_nodes] and its variants: the map of the decoded nodes. *)
Definition canonicalize_blank_nodes (d : Dataset) (algorithm : CanonicalizationAlgorithm) (limit : NdegreeCallLimit)
  : result CanonFailure (list (RdfBlankNode * RdfBlankNode)) :=
  m ← canonicalize_interned_blank_nodes d algorithm limit;
  ok_or CanonPanic (mapM (fun e => from ← BlankNode_decode_from e.1 (interner d); Some (from, e.2)) (map_to_list m)).

(** ** Renaming *)

Section renaming.
  Context {P : InternerParams} (bnode_mapping : gmap InternedBlankNode RdfBlankNode).

Definition map_blank_node (n : InternedBlankNode) (it : Interner) : option (InternedBlankNode * Interner) :=
  b ← bnode_mapping !! n; BlankNode_encoded_into b it.
Fixpoint map_named_graph_blank_nodes (gs : list InternedGraphName) (it : Interner) : option (list InternedGraphName * Interner) :=
  match gs with
  | [] => Some ([], it)
  | g :: gs =>
      r ← match g with
          | IGNamedNode _ => Some (g, it)
          | IGBlankNode n => r ← map_blank_node n it; Some (IGBlankNode r.1, r.2)
          | IGDefaultGraph => None
          end;
      rs ← map_named_graph_blank_nodes gs r.2;
      Some (r.1 :: rs.1, rs.2)
  end.
(** A triple with its blank nodes renamed, decoded. *)
Fixpoint map_triple_blank_nodes (t : InternedTerm) (it : Interner) : option RdfTerm :=
  match t with
  | ITTriple s p o =>
      s ← match s with INBlankNode n => NodeBlank <$> bnode_mapping !! n | _ => Node_decode_from s it end;
      p ← NamedNode_decode_from p it;
      o ← match o with
          | ITBlankNode n => TermBlankNode <$> bnode_mapping !! n
          | ITTriple _ _ _ => map_triple_blank_nodes o it
          | _ => Term_decode_from o it
          end;
      Some (TermTriple s p o)
  | _ => None
  end.
Definition map_quad (quad : InternedQuad) (it : Interner) : option (InternedQuad * Interner) :=
  let '(s, (p, (o, g))) := quad in
  r ← match s with
      | INNamedNode _ => Some (s, it)
      | INBlankNode n => r ← map_blank_node n it; Some (INBlankNode r.1, r.2)
      end;
  let '(s, it) := r in
  r ← match o with
      | ITNamedNode _ | ITLiteral _ => Some (o, it)
      | ITBlankNode n => r ← map_blank_node n it; Some (ITBlankNode r.1, r.2)
      | ITTriple _ _ _ => t ← map_triple_blank_nodes o it; Term_encoded_into t it
      end;
  let '(o, it) := r in
  r ← match g with
      | IGNamedNode _ | IGDefaultGraph => Some (g, it)
      | IGBlankNode n => r ← map_blank_node n it; Some (IGBlankNode r.1, r.2)
      end;
  let '(g, it) := r in
  Some ((s, (p, (o, g))), it).
Fixpoint map_blank_nodes (quads : list InternedQuad) (it : Interner) : option (list InternedQuad * Interner) :=
  match quads with
  | [] => Some ([], it)
  | quad :: quads => r ← map_quad quad it; rs ← map_blank_nodes quads r.2; Some (r.1 :: rs.1, rs.2)
  end.
Definition rename_dataset (d : Dataset) : option Dataset :=
  r ← map_named_graph_blank_nodes (btree_elements (named_graphs d)) (interner d);
  let '(new_named_graphs, it) := r in
  r ← map_blank_nodes (btree_elements (spog d)) it;
  let '(new_quads, it) := r in
  let d := Dataset_clear (set_interner d it) in
  let d := set_named_graphs d (list_to_set new_named_graphs ∪ named_graphs d) in
  Some (foldl (fun d quad => (insert_encoded d quad).1) d new_quads).
End renaming.

(** [canonicalize] and its variants. *)
Definition canonicalize {P : InternerParams} (d : Dataset) (algorithm : CanonicalizationAlgorithm) (limit : NdegreeCallLimit)
  : result CanonFailure Dataset :=
  m ← canonicalize_interned_blank_nodes d algorithm limit;
  ok_or CanonPanic (rename_dataset m d).

End canonicalization.

(** The two datasets have a hash function each, and their maps an order. *)
Definition is_isomorphic_to {P P' : InternerParams} {C C' : CanonParams} (d other : Dataset) : result CanonFailure bool :=
  if negb (Dataset_len d =? Dataset_len other)
     || negb (Z.of_nat (size (named_graphs d)) =? Z.of_nat (size (named_graphs other)))
  then Ok false
  else
    left ← canonicalize (P := P) (C := C) d Unstable LimitDefault;
    right ← canonicalize (P := P') (C := C') other Unstable LimitDefault;
    ok_or CanonPanic (Dataset_eq (P' := P') left right).
