(* ===== verification/OxIssuerFacts.v ===== *)
(** * Identifiers of canonicalization

    An issuer names the nodes it is asked for, each once, with distinct names; the
    iterator of permutations lists [n!] permutations and ends. *)
From stdpp Require Import gmap.
From S2P Require Import Prelude MachineInt RustStr BTree RdfModel RdfDisplay.
From S2P Require Import OxInterning.
From S2P Require Import OxDataset OxCanonicalization.

(** ** Identifiers built from a hash *)

Definition candidate (hash : bytes) (i : Z) : RdfBlankNode :=
  BlankNode_new_unchecked (if i =? 0 then hash else hash ++ print_int i).

Lemma print_int_inj (a b : Z) : 0 <= a -> 0 <= b -> print_int a = print_int b -> a = b.
Proof.
  intros Ha Hb. unfold print_int. rewrite (proj2 (Z.ltb_ge a 0)), (proj2 (Z.ltb_ge b 0)), !Z.abs_eq by lia. simpl. intros E.
  by rewrite <- (print_nat_value a), <- (print_nat_value b), E by lia.
Qed.

Lemma candidate_inj (hash : bytes) (i j : Z) : 0 <= i -> 0 <= j -> candidate hash i = candidate hash j -> i = j.
Proof.
  assert (forall k, 0 <= k -> print_int k <> []) as Hne.
  { intros k Hk E. unfold print_int in E. rewrite (proj2 (Z.ltb_ge k 0)) in E by lia. simpl in E.
    destruct (print_nat_cons (Z.abs k)) as (c & s & Hs); [lia|]. by rewrite Hs in E. }
  unfold candidate. intros Hi Hj E%(inj BlankNode_new_unchecked).
  destruct (Z.eqb_spec i 0) as [->|Hi0], (Z.eqb_spec j 0) as [->|Hj0].
  - done.
  - symmetry in E. apply (f_equal length) in E. rewrite length_app in E. destruct (print_int j) eqn:Ej; [by apply Hne in Ej|]. simpl in E. lia.
  - apply (f_equal length) in E. rewrite length_app in E. destruct (print_int i) eqn:Ej; [by apply Hne in Ej|]. simpl in E. lia.
  - apply app_inv_head in E. by apply print_int_inj.
Qed.

(** Finitely many names are taken. *)
Lemma taken_candidates (taken : gset RdfBlankNode) (hash : bytes) (n : nat) :
  (forall j, 0 <= j < Z.of_nat n -> candidate hash j ∈ taken) -> (n <= size taken)%nat.
Proof.
  intros Hj. set (l := (fun j => candidate hash (Z.of_nat j)) <$> seq 0 n).
  assert (NoDup l) as Hnd.
  { apply NoDup_fmap_2_strong; [|apply NoDup_seq]. intros a b _ _ E. apply candidate_inj in E; lia. }
  assert (length l = n) as Hl by (subst l; by rewrite length_fmap, length_seq).
  rewrite <- Hl, <- (size_list_to_set (C := gset RdfBlankNode) l Hnd). apply subseteq_size. intros b Hb.
  apply elem_of_list_to_set, list_elem_of_fmap in Hb as (j & -> & Hj'%elem_of_seq). apply Hj. lia.
Qed.

Lemma unused_identifier_spec (fuel : nat) (taken : gset RdfBlankNode) (hash : bytes) (i : nat) :
  (forall j, 0 <= j < Z.of_nat i -> candidate hash j ∈ taken) -> (size taken < fuel + i)%nat ->
  exists b, unused_identifier fuel taken hash (Z.of_nat i) (candidate hash (Z.of_nat i)) = Some b /\ b ∉ taken.
Proof.
  revert i. induction fuel as [|fuel IH]; intros i Hi Hs.
  - apply taken_candidates in Hi. lia.
  - cbn [unused_identifier]. destruct (decide (candidate hash (Z.of_nat i) ∈ taken)) as [Ht|Ht]; [|by eexists].
    destruct (IH (S i)) as (b & Hb & Hnt); [|lia|].
    + intros j Hj. destruct (decide (j = Z.of_nat i)) as [->|]; [done|]. apply Hi. lia.
    + exists b. split; [|done]. rewrite <- Hb. replace (Z.of_nat (S i)) with (Z.of_nat i + 1) by lia.
      unfold candidate. by rewrite (proj2 (Z.eqb_neq (Z.of_nat i + 1) 0)) by lia.
Qed.

(** ** Issuers *)

Abbreviation named iss := (dom (issued_identifier_map iss)) (only parsing).

(** The order lists the named nodes, which are among [K]. *)
Record issuer_ok (K : gset InternedBlankNode) (iss : IdentifierIssuer) : Prop := {
  io_order : forall n, n ∈ issued_identifier_order iss <-> n ∈ named iss;
  io_known : named iss ⊆ K
}.

Lemma issuer_new_ok K prefix : issuer_ok K (IdentifierIssuer_new prefix).
Proof. split; simpl; [intros n; rewrite dom_empty_L; set_solver|set_solver]. Qed.

Lemma issue_identifier_spec K iss n algorithm hash :
  issuer_ok K iss -> n ∈ K ->
  exists iss' b, issue_identifier iss n algorithm hash = Some (iss', b) /\ issuer_ok K iss' /\ named iss' = {[n]} ∪ named iss.
Proof.
  intros [Ho Hk] Hn. unfold issue_identifier. destruct (issued_identifier_map iss !! n) as [b|] eqn:E.
  - exists iss, b. split; [done|]. split; [done|]. apply elem_of_dom_2 in E. set_solver.
  - assert (forall prefix counter b already,
      let iss' := mkIssuer prefix counter (<[n := b]> (issued_identifier_map iss)) (issued_identifier_order iss ++ [n]) already in
      issuer_ok K iss' /\ named iss' = {[n]} ∪ named iss) as Hnew.
    { intros prefix counter b already. simpl. split; [|by rewrite dom_insert_L]. split; simpl; rewrite dom_insert_L.
      - intros m. rewrite elem_of_app, Ho. set_solver.
      - set_solver. }
    destruct algorithm; try (do 2 eexists; split; [done|]; apply Hnew).
    destruct (unused_identifier_spec (S (size (already_issued_identifiers iss))) (already_issued_identifiers iss) hash 0) as (b & Hb & _);
      [lia|lia|]. change (candidate hash (Z.of_nat 0)) with (BlankNode_new_unchecked hash) in Hb. change (Z.of_nat 0) with 0 in Hb.
    rewrite Hb. cbn [mbind option_bind]. do 2 eexists. split; [done|]. apply Hnew.
Qed.

(** Distinct names. *)
Definition names_ok (algorithm : CanonicalizationAlgorithm) (iss : IdentifierIssuer) : Prop :=
  (forall a b n, issued_identifier_map iss !! a = Some n -> issued_identifier_map iss !! b = Some n -> a = b)
  /\ match algorithm with
     | UnstableHashedIds => forall a n, issued_identifier_map iss !! a = Some n -> n ∈ already_issued_identifiers iss
     | _ =>
         identifier_counter iss = Z.of_nat (size (issued_identifier_map iss))
         /\ forall a n, issued_identifier_map iss !! a = Some n ->
              exists i, 0 <= i < identifier_counter iss /\ n = BlankNode_new_unchecked (identifier_prefix iss ++ print_int i)
     end.

Lemma names_new algorithm prefix : names_ok algorithm (IdentifierIssuer_new prefix).
Proof.
  split; [intros a b n; simpl; by rewrite lookup_empty|]. destruct algorithm; simpl; [split; [done|]| |split; [done|]]; intros a n; by rewrite lookup_empty.
Qed.

Lemma names_insert (m : gmap InternedBlankNode RdfBlankNode) n b :
  (forall x y c, m !! x = Some c -> m !! y = Some c -> x = y) -> (forall x, m !! x <> Some b) ->
  forall x y c, <[n := b]> m !! x = Some c -> <[n := b]> m !! y = Some c -> x = y.
Proof.
  intros Hinj Hb x y c. destruct (decide (x = n)) as [->|Hx], (decide (y = n)) as [->|Hy];
    rewrite ?lookup_insert_eq, ?lookup_insert_ne by done; [done|..|apply Hinj].
  - intros [=<-] H. by apply Hb in H.
  - intros H [=<-]. by apply Hb in H.
Qed.

Lemma issue_names K iss n algorithm hash iss' b :
  issuer_ok K iss -> n ∈ K -> Z.of_nat (size K) < 2 ^ 32 -> names_ok algorithm iss ->
  issue_identifier iss n algorithm hash = Some (iss', b) -> names_ok algorithm iss' /\ identifier_prefix iss' = identifier_prefix iss.
Proof.
  intros [Ho Hk] Hn HK Hok. unfold issue_identifier. destruct (issued_identifier_map iss !! n) as [c|] eqn:E; [by intros [=<- <-]|].
  destruct Hok as [Hinj Hnames].
  assert ((size (issued_identifier_map iss) < size K)%nat) as Hsz.
  { rewrite <- size_dom. apply subset_size. split; [done|]. intros Hc. apply Hc in Hn. by apply not_elem_of_dom in E. }
  assert (algorithm <> UnstableHashedIds -> identifier_counter iss = Z.of_nat (size (issued_identifier_map iss)) ->
    (forall a m, issued_identifier_map iss !! a = Some m ->
       exists i, 0 <= i < identifier_counter iss /\ m = BlankNode_new_unchecked (identifier_prefix iss ++ print_int i)) ->
    let b := BlankNode_new_unchecked (identifier_prefix iss ++ print_int (identifier_counter iss)) in
    names_ok algorithm (mkIssuer (identifier_prefix iss) (wrap U32 (identifier_counter iss + 1)) (<[n := b]> (issued_identifier_map iss))
      (issued_identifier_order iss ++ [n]) (already_issued_identifiers iss))) as Hcount.
  { intros Ha Hc Hi b'. assert (wrap U32 (identifier_counter iss + 1) = identifier_counter iss + 1) as Hw.
    { apply wrap_id. unfold in_int. simpl. rewrite Hc. lia. }
    split; cbn [issued_identifier_map identifier_counter identifier_prefix].
    - apply names_insert; [done|]. intros x Hx. destruct (Hi _ _ Hx) as (i & Hr & Ei). apply (inj BlankNode_new_unchecked) in Ei.
      apply app_inv_head in Ei. apply print_int_inj in Ei; lia.
    - rewrite Hw, map_size_insert_None by done. assert (forall a m, <[n := b']> (issued_identifier_map iss) !! a = Some m ->
        exists i, 0 <= i < identifier_counter iss + 1 /\ m = BlankNode_new_unchecked (identifier_prefix iss ++ print_int i)) as Hex.
      { intros a m. destruct (decide (a = n)) as [->|Hne].
        - rewrite lookup_insert_eq. intros [=<-]. exists (identifier_counter iss). split; [lia|done].
        - rewrite lookup_insert_ne by done. intros Hm. destruct (Hi a m Hm) as (i & Hr & ->). exists i. split; [lia|done]. }
      destruct algorithm; [split; [lia|done]|done|split; [lia|done]]. }
  destruct algorithm.
  - intros [=<- <-]. split; [|done]. by apply Hcount; destruct Hnames.
  - intros H. apply bind_Some in H as (c & Hu & [=<- <-]). split; [|done].
    destruct (unused_identifier_spec (S (size (already_issued_identifiers iss))) (already_issued_identifiers iss) hash 0) as (c' & Hc' & Hnt); [lia|lia|].
    change (candidate hash (Z.of_nat 0)) with (BlankNode_new_unchecked hash) in Hc'. change (Z.of_nat 0) with 0 in Hc'.
    rewrite Hc' in Hu. injection Hu as ->. split; cbn [issued_identifier_map already_issued_identifiers].
    + apply names_insert; [done|]. intros x Hx. by apply Hnt, (Hnames x).
    + intros a m. destruct (decide (a = n)) as [->|Hne]; [rewrite lookup_insert_eq; set_solver|].
      rewrite lookup_insert_ne by done. intros Hm. apply elem_of_union_r. by apply (Hnames a).
  - intros [=<- <-]. split; [|done]. by apply Hcount; destruct Hnames.
Qed.

(** ** The iterator of permutations *)

Lemma swap_Permutation {T : Type} (l : list T) (i j : nat) : swap l i j ≡ₚ l.
Proof.
  unfold swap. destruct (l !! i) as [x|] eqn:Ei, (l !! j) as [y|] eqn:Ej; try done.
  by apply (Permutation_insert_swap l i j x y).
Qed.

(** The counters are the digits of a number in the factorial base. *)
Fixpoint counters_value (k : nat) (counters : list nat) : nat :=
  match counters with [] => 0%nat | c :: counters => (c * fact k + counters_value (S k) counters)%nat end.
Fixpoint counters_ok (k : nat) (counters : list nat) : Prop :=
  match counters with [] => True | c :: counters => (c <= k)%nat /\ counters_ok (S k) counters end.

Lemma counters_value_zeros (n k : nat) (cs : list nat) : counters_value k (replicate n 0%nat ++ cs) = counters_value (n + k) cs.
Proof.
  revert k. induction n as [|n IH]; intros k; [done|]. cbn [replicate app counters_value]. rewrite IH. replace (S n + k)%nat with (n + S k)%nat by lia. lia.
Qed.
Lemma counters_ok_zeros (n k : nat) (cs : list nat) : counters_ok k (replicate n 0%nat ++ cs) <-> counters_ok (n + k) cs.
Proof.
  revert k. induction n as [|n IH]; intros k; [done|]. cbn [replicate app counters_ok]. rewrite IH.
  replace (S n + k)%nat with (n + S k)%nat by lia. split; [by intros []|]. intros H. split; [lia|done].
Qed.

(** A state between two items. *)
Record perm_ok {T : Type} (items : list T) (s : Permutations T) : Prop := {
  po_items : pm_items s ≡ₚ items;
  po_length : length (pm_counters s) = length items;
  po_index : pm_index s = 0%nat;
  po_counters : counters_ok 0 (pm_counters s)
}.

Lemma scan_spec {T : Type} (items0 : list T) (rest : list nat) (i : nat) (items : list T) (b : bool) :
  items ≡ₚ items0 -> (i + length rest = length items0)%nat -> counters_ok i rest ->
  let before := (fact i - 1 + counters_value i rest)%nat in
  match Permutations_scan (length rest) (mkPermutations items (replicate i 0%nat ++ rest) i b) with
  | (s, Some p) => perm_ok items0 s /\ pm_first s = false /\ p = pm_items s /\ counters_value 0 (pm_counters s) = S before
  | (s, None) => S before = fact (length items0)
  end.
Proof.
  revert i b. induction rest as [|c rest IH]; intros i b Hp Hl Hc; pose proof (lt_O_fact i).
  - simpl in *. replace (length items0) with i by lia. lia.
  - cbn [length Permutations_scan pm_index pm_counters pm_items]. destruct Hc as [Hci Hc].
    rewrite lookup_app_r, length_replicate, Nat.sub_diag by (rewrite length_replicate; lia). cbn [lookup list_lookup].
    case_bool_decide as Hlt.
    + split; [|split; [done|split; [done|]]].
      * split; cbn [pm_items pm_counters pm_index]; [by destruct (Nat.even i); rewrite swap_Permutation| |done|].
        -- rewrite length_insert, length_app, length_replicate. simpl in *. lia.
        -- rewrite insert_app_r_alt, length_replicate, Nat.sub_diag by (rewrite length_replicate; lia). cbn [insert list_insert].
           apply counters_ok_zeros. rewrite Nat.add_0_r. split; [lia|done].
      * cbn [pm_counters]. rewrite insert_app_r_alt, length_replicate, Nat.sub_diag by (rewrite length_replicate; lia). cbn [insert list_insert].
        rewrite counters_value_zeros, Nat.add_0_r. cbn [counters_value]. lia.
    + replace c with i in * by lia. rewrite insert_app_r_alt, length_replicate, Nat.sub_diag by (rewrite length_replicate; lia).
      cbn [insert list_insert]. specialize (IH (S i) false Hp).
      replace (replicate i 0%nat ++ 0%nat :: rest) with (replicate (S i) 0%nat ++ rest) by (rewrite replicate_S_end, <- app_assoc; done).
      assert ((fact (S i) - 1 + counters_value (S i) rest = fact i - 1 + counters_value i (i :: rest))%nat) as E.
      { cbn [counters_value]. change (fact (S i)) with (fact i + i * fact i)%nat. lia. }
      rewrite <- E. apply IH; [simpl in Hl; lia|done].
Qed.

Lemma counters_bound (cs : list nat) (k : nat) : counters_ok k cs -> (counters_value k cs + fact k <= fact (k + length cs))%nat.
Proof.
  revert k. induction cs as [|c cs IH]; intros k Hc; cbn [counters_value length]; [by rewrite Nat.add_0_r|].
  destruct Hc as [Hck Hc]. specialize (IH (S k) Hc). replace (k + S (length cs))%nat with (S k + length cs)%nat by lia.
  change (fact (S k)) with (fact k + k * fact k)%nat in IH. assert (c * fact k <= k * fact k)%nat by (by apply Nat.mul_le_mono_r). lia.
Qed.

Lemma next_spec {T : Type} (items : list T) (s : Permutations T) :
  perm_ok items s -> pm_first s = false ->
  match Permutations_next s with
  | (s', Some p) => perm_ok items s' /\ pm_first s' = false /\ p = pm_items s'
      /\ counters_value 0 (pm_counters s') = S (counters_value 0 (pm_counters s))
  | (s', None) => S (counters_value 0 (pm_counters s)) = fact (length items)
  end.
Proof.
  intros [Hi Hl Hx Hc] Hf. unfold Permutations_next. rewrite Hf. destruct s as [its cs ix b].
  cbn [pm_items pm_counters pm_index pm_first] in *. subst ix. pose proof (scan_spec items cs 0 its b Hi Hl Hc) as Hsc.
  rewrite Hl in Hsc. rewrite (Permutation_length Hi). exact Hsc.
Qed.

Lemma collect_spec {T : Type} (items : list T) (fuel : nat) (s : Permutations T) :
  perm_ok items s -> pm_first s = false ->
  Forall (fun p => p ≡ₚ items) (Permutations_collect fuel s)
  /\ length (Permutations_collect fuel s) = Nat.min fuel (fact (length items) - 1 - counters_value 0 (pm_counters s)).
Proof.
  revert s. induction fuel as [|fuel IH]; intros s Hs Hf; [done|]. cbn [Permutations_collect].
  pose proof (next_spec items s Hs Hf) as Hn. destruct (Permutations_next s) as [s' [p|]].
  - destruct Hn as (Hs' & Hf' & -> & Hv). destruct (IH s' Hs' Hf') as [H1 H2]. split; [constructor; [apply Hs'|done]|].
    cbn [length]. rewrite H2, Hv. pose proof (counters_bound _ _ (po_counters _ _ Hs')) as Hb.
    rewrite Hv, (po_length _ _ Hs') in Hb. cbn [fact Nat.add] in Hb. lia.
  - split; [done|]. cbn [length]. lia.
Qed.

Lemma permutations_first {T : Type} (items : list T) (fuel : nat) :
  let s := mkPermutations items (replicate (length items) 0%nat) 0 false in
  Permutations_collect (S fuel) (Permutations_new items) = items :: Permutations_collect fuel s
  /\ perm_ok items s /\ counters_value 0 (pm_counters s) = 0%nat.
Proof.
  intros s. split; [done|]. pose proof (counters_value_zeros (length items) 0 []) as Hv. rewrite app_nil_r in Hv.
  pose proof (proj2 (counters_ok_zeros (length items) 0 []) I) as Hc. rewrite app_nil_r in Hc.
  split; [|exact Hv]. split; cbn [pm_items pm_counters pm_index s]; [done|apply length_replicate|done|exact Hc].
Qed.

(** The iterator lists [n!] permutations of the items, the items first, and then
    ends: more rounds list nothing more. *)
Lemma permutations_complete {T : Type} (items : list T) (fuel : nat) :
  (fact (length items) <= fuel)%nat ->
  length (Permutations_collect fuel (Permutations_new items)) = fact (length items)
  /\ Forall (fun p => p ≡ₚ items) (Permutations_collect fuel (Permutations_new items)).
Proof.
  intros Hf. pose proof (lt_O_fact (length items)). destruct fuel as [|fuel]; [lia|].
  destruct (permutations_first items fuel) as (-> & Hok & Hv).
  destruct (collect_spec items fuel _ Hok eq_refl) as [H1 H2]. split; [|by constructor]. cbn [length]. rewrite H2, Hv. lia.
Qed.

Lemma permutations_cons {T : Type} (items : list T) : exists l, permutations items = items :: l.
Proof.
  unfold permutations. pose proof (lt_O_fact (length items)). destruct (fact (length items)) as [|n]; [lia|].
  eexists. apply (permutations_first items n).
Qed.
