(* ===== verification/OxCanonFacts.v ===== *)
(** * Canonicalization names every blank node once

    On a dataset that represents a set of quads, the canonicalization never
    panics: it names exactly the blank nodes of the dataset, with distinct names,
    or exceeds its budget of calls. *)
From stdpp Require Import gmap.
From S2P Require Import Prelude MachineInt RustStr BTree StateResult RdfModel RdfDisplay.
From S2P Require Import OxInterning OxDataset OxOrderFacts OxInterningFacts OxDatasetFacts.
From S2P Require Import OxCanonicalization OxIssuerFacts.

(** What the code relies on: a map lists its keys once each, a sort keeps the
    elements. *)
Class CanonLaws (C : CanonParams) : Prop := {
  hash_map_keys_perm : forall m, hash_map_keys m ≡ₚ elements (dom m);
  sort_unstable_perm : forall l, sort_unstable_by_hash l ≡ₚ l
}.

#[global] Instance IB_ord_laws : RustOrdLaws InternedBlankNode.
Proof. apply (code_laws IB_code), IB_code_app. Qed.

(** ** Blank nodes of a quad *)

Definition node_blanks (n : InternedNamedOrBlankNode) : gset InternedBlankNode :=
  match n with INBlankNode b => {[b]} | INNamedNode _ => ∅ end.
Fixpoint term_blanks (t : InternedTerm) : gset InternedBlankNode :=
  match t with
  | ITBlankNode b => {[b]}
  | ITTriple s p o => node_blanks s ∪ term_blanks o
  | _ => ∅
  end.
Definition graph_blanks (g : InternedGraphName) : gset InternedBlankNode :=
  match g with IGBlankNode b => {[b]} | _ => ∅ end.
Definition quad_blanks (quad : InternedQuad) : gset InternedBlankNode :=
  let '(s, (p, (o, g))) := quad in node_blanks s ∪ term_blanks o ∪ graph_blanks g.

(** ** The quads of each blank node *)

Definition lists_quads (X : InternedQuad -> Prop) (m : gmap InternedBlankNode (list InternedQuad)) : Prop :=
  forall b l q, m !! b = Some l -> q ∈ l -> X q.

Lemma add_for_blank_node X b quad m :
  X quad -> lists_quads X m ->
  let m' := add_quad_to_blank_node_to_quads_map_for_blank_node b quad m in dom m' = {[b]} ∪ dom m /\ lists_quads X m'.
Proof.
  intros Hq Hm. unfold add_quad_to_blank_node_to_quads_map_for_blank_node. simpl. split; [by rewrite dom_insert_L|].
  assert (forall q, q ∈ default [] (m !! b) -> X q) as Hold.
  { intros q. destruct (m !! b) as [l|] eqn:E; [|set_solver]. by apply (Hm b l q). }
  intros c l q. destruct (decide (c = b)) as [->|Hne]; [|rewrite lookup_insert_ne by done; apply Hm].
  rewrite lookup_insert_eq. intros [=<-]. case_decide; [apply Hold|]. rewrite elem_of_app, list_elem_of_singleton.
  intros [Hin| ->]; [by apply Hold|done].
Qed.

Lemma add_for_node X n quad m :
  X quad -> lists_quads X m ->
  dom (add_quad_for_node n quad m) = node_blanks n ∪ dom m /\ lists_quads X (add_quad_for_node n quad m).
Proof. intros Hq Hm. destruct n as [n|b]; simpl; [split; [set_solver|done]|by apply add_for_blank_node]. Qed.

Lemma add_for_triple X t quad m :
  X quad -> lists_quads X m ->
  let m' := add_quad_to_blank_node_to_quads_map_based_on_triple t quad m in
  match t with ITTriple _ _ _ => dom m' = term_blanks t ∪ dom m | _ => m' = m end /\ lists_quads X m'.
Proof.
  intros Hq. revert m. induction t as [n|n|l|s p o IH]; intros m Hm; try done.
  destruct (add_for_node X s quad m Hq Hm) as [H1 H2]. cbn [add_quad_to_blank_node_to_quads_map_based_on_triple term_blanks].
  destruct o as [n|b|l|s' p' o'].
  - cbn [term_blanks]. split; [rewrite H1; set_solver|done].
  - destruct (add_for_blank_node X b quad (add_quad_for_node s quad m) Hq H2) as [H3 H4]. simpl in H3, H4.
    split; [rewrite H3, H1; cbn [term_blanks]; set_solver|done].
  - cbn [term_blanks]. split; [rewrite H1; set_solver|done].
  - destruct (IH (add_quad_for_node s quad m) H2) as [H3 H4]. split; [|exact H4]. cbv zeta in H3. rewrite H3, H1. set_solver.
Qed.

Lemma add_quad_spec X quad m :
  X quad -> lists_quads X m -> dom (add_quad m quad) = quad_blanks quad ∪ dom m /\ lists_quads X (add_quad m quad).
Proof.
  intros Hq Hm. destruct quad as [s [p [o g]]] eqn:Eq. rewrite <- Eq in Hq. unfold add_quad, quad_blanks. rewrite <- Eq.
  destruct (add_for_node X s quad m Hq Hm) as [H1 H2]. set (m1 := add_quad_for_node s quad m) in *.
  assert (let m3 := add_quad_to_blank_node_to_quads_map_based_on_triple o quad
      (match o with ITBlankNode b => add_quad_to_blank_node_to_quads_map_for_blank_node b quad m1 | _ => m1 end) in
    dom m3 = term_blanks o ∪ dom m1 /\ lists_quads X m3) as [H3 H4].
  { destruct o as [n|b|l|s' p' o']; try (split; [simpl; set_solver|done]).
    - by apply add_for_blank_node.
    - exact (add_for_triple X (ITTriple s' p' o') quad m1 Hq H2). }
  cbv zeta in H3, H4. set (m3 := add_quad_to_blank_node_to_quads_map_based_on_triple _ _ _) in *.
  destruct g as [|n|b]; try (split; [rewrite H3, H1; simpl; set_solver|done]).
  destruct (add_for_blank_node X b quad m3 Hq H4) as [H5 H6]. simpl in H5. split; [rewrite H5, H3, H1; simpl; set_solver|done].
Qed.

Lemma add_quads_spec X quads m :
  (forall q, q ∈ quads -> X q) -> lists_quads X m ->
  (forall b, b ∈ dom (foldl add_quad m quads) <-> b ∈ dom m \/ exists q, q ∈ quads /\ b ∈ quad_blanks q)
  /\ lists_quads X (foldl add_quad m quads).
Proof.
  revert m. induction quads as [|q quads IH]; intros m Hq Hm; [split; [set_solver|done]|]. simpl.
  destruct (add_quad_spec X q m) as [H1 H2]; [apply Hq; set_solver|done|]. destruct (IH (add_quad m q)) as [H3 H4]; [set_solver|done|].
  split; [|done]. intros b. rewrite H3, H1. set_solver.
Qed.

Lemma add_empty_graphs_spec X d gs r :
  lists_quads X r.1 -> r.2 ⊆ dom r.1 ->
  let r' := foldl (add_empty_graph d) r gs in
  (forall b, b ∈ dom r'.1 <-> b ∈ dom r.1 \/ (IGBlankNode b ∈ gs /\ interned_quads_for_graph_name d (IGBlankNode b) = []))
  /\ lists_quads X r'.1 /\ r'.2 ⊆ dom r'.1.
Proof.
  revert r. induction gs as [|g gs IH]; intros r Hm Hr; simpl; [split; [set_solver|done]|].
  assert (lists_quads X (add_empty_graph d r g).1 /\ (add_empty_graph d r g).2 ⊆ dom (add_empty_graph d r g).1
    /\ forall b, b ∈ dom (add_empty_graph d r g).1 <-> b ∈ dom r.1 \/ (g = IGBlankNode b /\ interned_quads_for_graph_name d g = [])) as (H1 & H2 & H3).
  { destruct g as [|n|b]; try (split_and!; [done..|naive_solver]). unfold add_empty_graph.
    destruct (interned_quads_for_graph_name d (IGBlankNode b)) as [|q l] eqn:E; simpl; [|split_and!; [done..|naive_solver]].
    split_and!.
    - intros c l q. destruct (decide (c = b)) as [->|Hne]; [|rewrite lookup_insert_ne by done; apply Hm].
      rewrite lookup_insert_eq. intros [=<-]. destruct (r.1 !! b) eqn:E'; simpl; [by apply (Hm b)|set_solver].
    - rewrite dom_insert_L. set_solver.
    - intros c. rewrite dom_insert_L. set_solver. }
  destruct (IH (add_empty_graph d r g) H1 H2) as (H4 & H5 & H6). split; [|done]. intros b. rewrite H4, H3, elem_of_cons. naive_solver.
Qed.

Section canon_facts.
  Context {P : InternerParams} (S : bytes -> Prop) {HS : GoodHash S}.
  Context {C : CanonParams} {HC : CanonLaws C}.
  Context (d : Dataset) (x : QuadSet) (Hd : represents S d x).

(** The blank nodes of the dataset. *)
Definition dataset_blanks (b : InternedBlankNode) : Prop :=
  (exists q, q ∈ spog d /\ b ∈ quad_blanks q) \/ IGBlankNode b ∈ named_graphs d.

Let m0 := blank_node_to_quads_map (initial_state d).
Let K := dom m0.

Lemma initial_quads : lists_quads (fun q => q ∈ spog d) m0.
Proof.
  destruct (add_quads_spec (fun q => q ∈ spog d) (btree_elements (spog d)) ∅) as [_ H1];
    [by intros q ?%elem_of_btree_elements|intros b l q; by rewrite lookup_empty|].
  destruct (add_empty_graphs_spec _ d (btree_elements (named_graphs d)) (_, ∅) H1) as (_ & H2 & _); [set_solver|]. exact H2.
Qed.

Lemma initial_blanks b : b ∈ K <-> dataset_blanks b.
Proof.
  destruct (add_quads_spec (fun q => q ∈ spog d) (btree_elements (spog d)) ∅) as [H0 H1];
    [by intros q ?%elem_of_btree_elements|intros c l q; by rewrite lookup_empty|].
  destruct (add_empty_graphs_spec _ d (btree_elements (named_graphs d)) (_, ∅) H1) as (H2 & _); [set_solver|].
  subst K m0. unfold initial_state. cbn [blank_node_to_quads_map]. rewrite H2, H0, dom_empty_L, elem_of_btree_elements. clear H0 H1 H2.
  setoid_rewrite elem_of_btree_elements. unfold dataset_blanks. split; [set_solver|]. intros [Hq|Hg]; [set_solver|].
  destruct (interned_quads_for_graph_name d (IGBlankNode b)) as [|k ks] eqn:E; [by right|]. left. right.
  rewrite (rp_named S d x Hd) in Hg. apply elem_of_map in Hg as (n & En & Hn). destruct (rp_graphs S d x Hd n Hn) as (Wn & Sn & Kn).
  assert (Graph_key (GraphName_from_node n) = IGBlankNode b) as EG by (rewrite En; by destruct n).
  destruct (graph_range S d x (GraphName_from_node n) Hd) as (l & El & _ & Hl); [by destruct n..|]. rewrite EG, E in El.
  destruct l as [|q l]; [done|]. destruct (proj1 (Hl q)) as [Hq Egq]; [set_solver|]. exists (Quad_key q). split.
  - destruct (rp_quads S d x Hd q Hq) as (Wq & _ & Kq). by apply (in_spog S d x).
  - unfold quad_blanks, Quad_key. rewrite Egq, EG. set_solver.
Qed.

(** ** Hashes *)

Lemma decode_letters_node ref n : Node_known (interner d) n -> Node_wf n = true ->
  is_Some (hash_first_degree_quads_decode_named_or_blank_node (interner d) (Node_key n) ref).
Proof.
  intros Kn Wn. destruct n as [n|n]; [|by eexists]. simpl. unfold NamedNode_decode_from, resolve. simpl in Kn. unfold str_known in Kn.
  rewrite Kn. by eexists.
Qed.

Lemma decode_letters_term ref t : Term_known (interner d) t -> Term_wf t = true ->
  is_Some (hash_first_degree_quads_decode_term (interner d) (Term_key t) ref).
Proof.
  induction t as [n|n|l|s p o IH]; intros Kt Wt.
  - simpl. unfold NamedNode_decode_from, resolve. simpl in Kt. unfold str_known in Kt. rewrite Kt. by eexists.
  - by eexists.
  - simpl. rewrite (Literal_decode_spec (interner d) l Wt Kt). by eexists.
  - destruct Kt as (Ks & Kp & Ko & _). apply andb_prop in Wt as [Ws Wo]. cbn [Term_key hash_first_degree_quads_decode_term].
    destruct (decode_letters_node ref s Ks Ws) as [s' ->]. cbn [mbind option_bind]. unfold NamedNode_decode_from, resolve.
    unfold str_known in Kp. rewrite Kp. cbn [mbind option_bind]. destruct (IH Ko Wo) as [o' ->]. by eexists.
Qed.

Lemma first_degree_line_some ref q : q ∈ spog d -> is_Some (first_degree_line (interner d) ref q).
Proof.
  intros Hq. rewrite (rp_spog S d x Hd) in Hq. apply elem_of_map in Hq as (q' & -> & Hq').
  destruct (rp_quads S d x Hd q' Hq') as (Wq & Sq & K1 & K2 & K3 & K4). destruct (Quad_parts S q' Wq Sq) as ((W1 & W2 & W3) & _).
  unfold first_degree_line, Quad_key. destruct (decode_letters_node ref _ K1 W1) as [s ->]. cbn [mbind option_bind].
  unfold NamedNode_decode_from, resolve at 1. unfold str_known in K2. rewrite K2. cbn [mbind option_bind].
  destruct (decode_letters_term ref _ K3 W2) as [o ->]. cbn [mbind option_bind].
  assert (is_Some (hash_first_degree_quads_decode_graph_name (interner d) (Graph_key (q_graph_name q')) ref)) as [g ->]; [|by eexists].
  destruct (q_graph_name q') as [n|n|]; [|by eexists..]. simpl. unfold NamedNode_decode_from, resolve. simpl in K4. unfold str_known in K4.
  rewrite K4. by eexists.
Qed.

Lemma mapM_is_Some {A B : Type} (f : A -> option B) (l : list A) : (forall a, a ∈ l -> is_Some (f a)) -> is_Some (mapM f l).
Proof.
  intros Hf. apply mapM_is_Some_2. apply list.Forall_forall. intros a Ha. by apply Hf.
Qed.

(** A state of the algorithm: the quads are those of the start. *)
Definition cs_ok (cs : CanonicalizationState) : Prop := blank_node_to_quads_map cs = m0.

Lemma first_degree_some cs n ha : cs_ok cs -> n ∈ K -> is_Some (hash_first_degree_quads d cs n ha).
Proof.
  intros Hcs Hn. unfold hash_first_degree_quads. rewrite Hcs. apply elem_of_dom in Hn as [l Hl]. rewrite Hl. cbn [mbind option_bind].
  destruct (mapM_is_Some (first_degree_line (interner d) n) l) as [ls ->]; [|by eexists].
  intros q Hq. apply first_degree_line_some. by apply (initial_quads n l).
Qed.

Lemma predicate_some s p o g : (s, (p, (o, g))) ∈ spog d -> is_Some (NamedNode_decode_from p (interner d)).
Proof.
  intros Hq. rewrite (rp_spog S d x Hd) in Hq. apply elem_of_map in Hq as (q & E & Hq). injection E as -> -> -> ->.
  destruct (rp_quads S d x Hd q Hq) as (_ & _ & _ & K2 & _). unfold NamedNode_decode_from, resolve. unfold str_known in K2. rewrite K2. by eexists.
Qed.

Lemma related_some cs n quad iss pos ha :
  cs_ok cs -> n ∈ K -> quad ∈ spog d -> is_Some (hash_related_blank_node d cs n quad iss pos ha).
Proof.
  intros Hcs Hn Hq. destruct quad as [s [p [o g]]]. unfold hash_related_blank_node.
  destruct (predicate_some s p o g Hq) as [p' Hp]. rewrite Hp.
  assert (exists i, (if decide (pos = str "g") then Some pos else p ← Some p'; Some (pos ++ str "<" ++ NamedNode_as_str p ++ str ">")) = Some i) as [i ->]
    by (case_decide; by eexists).
  cbn [mbind option_bind]. destruct (issued_identifier_map (canonical_issuer cs) !! n); [by eexists|].
  destruct (issued_identifier_map iss !! n); [by eexists|]. destruct (first_degree_some cs n ha Hcs Hn) as [h ->]. by eexists.
Qed.

(** Groups of related blank nodes. *)
Definition groups_ok (h_n : gmap bytes (gset InternedBlankNode)) : Prop :=
  forall h s, h_n !! h = Some s -> s ⊆ K /\ s <> ∅.

Lemma component_ok cs c n quad iss pos ha h_n :
  cs_ok cs -> quad ∈ spog d -> c ∈ K -> groups_ok h_n ->
  exists h_n', hash_related_blank_node_on_possible_component d cs c n quad iss pos ha h_n = Some h_n' /\ groups_ok h_n'.
Proof.
  intros Hcs Hq Hc Hg. unfold hash_related_blank_node_on_possible_component. case_decide; [by exists h_n|].
  destruct (related_some cs c quad iss pos ha Hcs Hc Hq) as [h ->]. cbn [mbind option_bind]. eexists. split; [done|].
  intros h' s. destruct (decide (h' = h)) as [->|Hne]; [|rewrite lookup_insert_ne by done; apply Hg].
  rewrite lookup_insert_eq. intros [=<-]. split; [|set_solver]. destruct (h_n !! h) as [s|] eqn:E; simpl; [|set_solver].
  destruct (Hg h s E). set_solver.
Qed.

Lemma related_subject_ok cs s n quad iss pos ha h_n :
  cs_ok cs -> quad ∈ spog d -> node_blanks s ⊆ K -> groups_ok h_n ->
  exists h_n', related_subject d cs s n quad iss pos ha h_n = Some h_n' /\ groups_ok h_n'.
Proof. intros Hcs Hq Hs Hg. destruct s as [s|b]; [by exists h_n|]. apply component_ok; [done..|set_solver|done]. Qed.
Lemma related_object_ok cs o n quad iss pos ha h_n :
  cs_ok cs -> quad ∈ spog d -> term_blanks o ⊆ K -> groups_ok h_n ->
  exists h_n', related_object d cs o n quad iss pos ha h_n = Some h_n' /\ groups_ok h_n'.
Proof. intros Hcs Hq Hs Hg. destruct o as [k|b|l|s p o]; try (by exists h_n). apply component_ok; [done..|set_solver|done]. Qed.

Lemma related_quad_ok cs n iss ha h_n quad :
  cs_ok cs -> quad ∈ spog d -> groups_ok h_n ->
  exists h_n', related_quad d cs n iss ha h_n quad = Some h_n' /\ groups_ok h_n'.
Proof.
  intros Hcs Hq Hg. assert (quad_blanks quad ⊆ K) as HK.
  { intros b Hb. apply initial_blanks. left. by exists quad. }
  destruct quad as [s [p [o g]]] eqn:Eq. rewrite <- Eq in *. unfold related_quad. rewrite Eq. rewrite <- Eq.
  assert (node_blanks s ⊆ K /\ term_blanks o ⊆ K /\ graph_blanks g ⊆ K) as (B1 & B2 & B3) by (rewrite Eq in HK; unfold quad_blanks in HK; set_solver).
  destruct (related_subject_ok cs s n quad iss (str "s") ha h_n Hcs Hq B1 Hg) as (h1 & -> & G1). cbn [mbind option_bind].
  destruct (related_object_ok cs o n quad iss (str "o") ha h1 Hcs Hq B2 G1) as (h2 & -> & G2). cbn [mbind option_bind].
  assert (exists h3, hash_related_blank_node_on_possible_triple d cs o n quad iss ha h2 = Some h3 /\ groups_ok h3) as (h3 & -> & G3).
  { destruct o as [k|b|l|s' p' o']; try (by exists h2). cbn [hash_related_blank_node_on_possible_triple]. cbn [term_blanks] in B2.
    destruct (related_subject_ok cs s' n quad iss (str "os") ha h2 Hcs Hq) as (h & -> & G); [set_solver|done|]. cbn [mbind option_bind].
    apply related_object_ok; [done..|set_solver|done]. }
  cbn [mbind option_bind]. destruct g as [|k|b]; try (by exists h3). apply component_ok; [done..|set_solver|done].
Qed.

Lemma fold_option_inv {A X : Type} (f : A -> X -> option A) (Inv : A -> Prop) (xs : list X) (a : A) :
  (forall a x, x ∈ xs -> Inv a -> exists a', f a x = Some a' /\ Inv a') -> Inv a -> exists a', fold_option f a xs = Some a' /\ Inv a'.
Proof.
  revert a. induction xs as [|y xs IH]; intros a Hf Ha; [by exists a|]. cbn [fold_option].
  destruct (Hf a y) as (a1 & -> & H1); [set_solver|done|]. cbn [mbind option_bind]. apply IH; [|done]. intros b z Hz. apply Hf. set_solver.
Qed.

Lemma related_quads_ok cs n iss ha quads :
  cs_ok cs -> (forall q, q ∈ quads -> q ∈ spog d) -> exists h_n, fold_option (related_quad d cs n iss ha) ∅ quads = Some h_n /\ groups_ok h_n.
Proof.
  intros Hcs Hq. apply (fold_option_inv _ groups_ok); [|intros h s; by rewrite lookup_empty].
  intros h_n q Hin Hg. apply related_quad_ok; [done|by apply Hq|done].
Qed.

(** ** Hash N-Degree Quads *)

Section budget.
  Context (maximum : Z).
Let I (_ : Z) : Prop := True.
Let F (e : CanonFailure) : Prop := e = TooManyNDegreeCalls maximum.

Lemma holds_or_panic {A : Type} (o : option A) (Q : A -> Prop) : (exists a, o = Some a /\ Q a) -> holds I F (or_panic o) Q.
Proof. intros (a & -> & Ha). by apply holds_lift. Qed.

(** An issuer that has named more. *)
Definition grows (iss iss' : IdentifierIssuer) : Prop := issuer_ok K iss' /\ named iss ⊆ named iss'.

Lemma permutation_step_spec cs algorithm rh n iss path rl :
  n ∈ K -> (forall n, n ∈ rl -> n ∈ K) -> issuer_ok K iss ->
  exists iss1 path1 rl1, permutation_step cs algorithm rh n iss path rl = Some (iss1, path1, rl1)
    /\ grows iss iss1 /\ (forall n, n ∈ rl1 -> n ∈ K) /\ path1 <> [].
Proof.
  intros Hn Hrl Hiss. assert (forall (a b : bytes), a ++ str "_:" ++ b <> []) as Hne by (intros a b E; apply app_eq_nil in E as [_ E]; done).
  unfold permutation_step. destruct (issued_identifier_map (canonical_issuer cs) !! n) as [id|].
  - do 3 eexists. split; [done|]. split; [by split|]. done.
  - destruct (issue_identifier_spec K iss n algorithm rh Hiss Hn) as (iss1 & b & E & Hok & Hdom).
    rewrite E. do 3 eexists. split; [done|]. split; [split; [done|simpl; set_solver]|]. split; [|apply Hne].
    destruct (issued_identifier_map iss !! n); [done|]. intros m [Hm|Hm]%elem_of_app; [by apply Hrl|set_solver].
Qed.

Lemma permutation_path_spec cs algorithm rh chosen p iss path rl :
  (forall n, n ∈ p -> n ∈ K) -> (forall n, n ∈ rl -> n ∈ K) -> issuer_ok K iss ->
  exists r, permutation_path cs algorithm rh chosen p iss path rl = Some r
    /\ match r with
       | Some (iss', path', rl') => grows iss iss' /\ (forall n, n ∈ rl' -> n ∈ K) /\ (p <> [] \/ path <> [] -> path' <> [])
       | None => chosen <> []
       end.
Proof.
  revert iss path rl. induction p as [|n p IH]; intros iss path rl Hp Hrl Hiss.
  - eexists. split; [done|]. split; [by split|]. split; [done|naive_solver].
  - cbn [permutation_path].
    destruct (permutation_step_spec cs algorithm rh n iss path rl) as (iss1 & path1 & rl1 & -> & Hg & Hrl1 & Hp1); [apply Hp; set_solver|done..|].
    cbn [mbind option_bind]. destruct (worse_path chosen path1) eqn:Ew; [exists None; split; [done|by intros ->]|].
    destruct (IH iss1 path1 rl1) as (r & -> & Hr); [set_solver|done|apply Hg|]. exists r. split; [done|].
    destruct r as [[[iss2 path2] rl2]|]; [|done]. destruct Hr as ([Hok2 Hd2] & Hrl2 & Hp2). destruct Hg as [Hok1 Hd1].
    split; [split; [done|set_solver]|]. split; [done|]. intros _. apply Hp2. by right.
Qed.

Section with_call.
  Context (cs : CanonicalizationState) (algorithm : CanonicalizationAlgorithm) (Hcs : cs_ok cs).
  Context (call : InternedBlankNode -> IdentifierIssuer -> ST Z CanonFailure (IdentifierIssuer * bytes)).
  Hypothesis call_spec : forall n iss, n ∈ K -> issuer_ok K iss -> holds I F (call n iss) (fun r => grows iss r.1).

Lemma recursion_path_spec chosen rl iss path :
  (forall n, n ∈ rl -> n ∈ K) -> issuer_ok K iss -> path <> [] ->
  holds I F (recursion_path algorithm call chosen rl iss path)
    (fun r => match r with Some (iss', path') => grows iss iss' /\ path' <> [] | None => chosen <> [] end).
Proof.
  revert iss path. induction rl as [|n rl IH]; intros iss path Hrl Hiss Hp; [apply holds_ret; by split|]. cbn [recursion_path].
  eapply holds_bind; [apply call_spec; [apply Hrl; set_solver|done]|]. intros [iss1 h1] [Hok1 Hd1]. cbn [fst] in *.
  eapply holds_bind.
  { apply (holds_or_panic _ (fun _ => True)). destruct (issue_identifier_spec K iss n algorithm h1 Hiss) as (i & b & E & _); [apply Hrl; set_solver|]. by exists (i, b). }
  intros [i b] _. cbn [snd]. destruct (worse_path _ _) eqn:Ew; [apply holds_ret; by intros ->|].
  eapply holds_conseq; [apply IH; [set_solver|done|]|].
  - intros E. apply app_eq_nil in E as [_ E]. done.
  - intros [[iss2 path2]|]; [|done]. intros [[Hok2 Hd2] Hp2]. split; [split; [done|set_solver]|done].
Qed.

(** A chosen path comes with an issuer. *)
Definition chosen_ok (iss : IdentifierIssuer) (chosen : bytes * IdentifierIssuer) : Prop := chosen.1 <> [] -> grows iss chosen.2.

Lemma try_permutation_spec iss rh chosen p :
  issuer_ok K iss -> (forall n, n ∈ p -> n ∈ K) -> p <> [] -> chosen_ok iss chosen ->
  holds I F (try_permutation cs algorithm call iss rh chosen p) (fun c => chosen_ok iss c /\ c.1 <> []).
Proof.
  intros Hiss Hp Hne Hc. destruct chosen as [cp ci]. unfold try_permutation. eapply holds_bind.
  { apply holds_or_panic. destruct (permutation_path_spec cs algorithm rh cp p iss [] [] Hp) as (r & E & Hr); [set_solver|done|].
    exists r. split; [exact E|exact Hr]. }
  intros [[[iss1 path1] rl1]|]; [|intros Hcp; apply holds_ret; done]. intros ([Hok1 Hd1] & Hrl & Hp1).
  eapply holds_bind; [apply recursion_path_spec; [done..|]; apply Hp1; by left|].
  intros [[iss2 path2]|]; [|intros Hcp; apply holds_ret; done]. intros [[Hok2 Hd2] Hp2]. apply holds_ret.
  case_bool_decide as Hcp; cbn [orb].
  - split; [|done]. intros _. split; [done|simpl; set_solver].
  - destruct (ltb path2 cp); [|by split]. split; [|done]. intros _. split; [done|simpl; set_solver].
Qed.

Lemma related_group_spec acc entry :
  issuer_ok K acc.2 -> entry.2 ⊆ K -> entry.2 <> ∅ -> holds I F (related_group cs algorithm call acc entry) (fun r => grows acc.2 r.2).
Proof.
  destruct acc as [data iss], entry as [rh nodes]. cbn [fst snd]. intros Hiss HK Hne. unfold related_group.
  assert (btree_elements nodes <> []) as Hel.
  { intros E. apply Hne. apply set_eq. intros b. rewrite <- (elem_of_btree_elements nodes b), E. set_solver. }
  destruct (permutations_complete (btree_elements nodes) (fact (length (btree_elements nodes)))) as [_ Hperm]; [done|].
  change (Permutations_collect _ _) with (permutations (btree_elements nodes)) in Hperm.
  eapply holds_bind.
  - apply (holds_for_each _ _ _ (fun pre c => chosen_ok iss c /\ (pre <> [] -> c.1 <> []))); [|done].
    intros pre p rest c E [Hc _]. eapply holds_conseq.
    + apply try_permutation_spec; [done| |intros ->|done].
      * intros n Hn. apply HK. rewrite E in Hperm. apply Forall_app in Hperm as [_ Hperm]. apply Forall_cons_iff in Hperm as [Hp _].
        rewrite Hp in Hn. by apply elem_of_btree_elements in Hn.
      * rewrite E in Hperm. apply Forall_app in Hperm as [_ Hperm]. apply Forall_cons_iff in Hperm as [Hp _]. by apply Permutation_nil_l in Hp.
    + intros c' [H1 H2]. done.
  - intros c [Hc Hpre]. apply holds_ret. simpl. apply Hc, Hpre. destruct (permutations_cons (btree_elements nodes)) as [l ->]. done.
Qed.

Lemma n_degree_body_spec n iss :
  n ∈ K -> issuer_ok K iss -> holds I F (n_degree_body d cs algorithm call n iss) (fun r => grows iss r.1).
Proof.
  intros Hn Hiss. unfold n_degree_body. apply elem_of_dom in Hn as [quads Hq].
  eapply holds_bind; [apply (holds_or_panic _ (fun q => q = quads)); exists quads; by rewrite Hcs|]. intros ? ->.
  eapply holds_bind; [apply holds_or_panic, related_quads_ok; [done|]; intros q Hin; by apply (initial_quads n quads)|].
  intros h_n Hg. eapply holds_bind.
  - apply (holds_for_each_inv _ _ _ (fun r => grows iss r.2)); [|by split]. intros [h s] r Hin [Hok Hdom].
    apply elem_of_btree_entries in Hin. destruct (Hg h s Hin) as [H1 H2].
    eapply holds_conseq; [by apply related_group_spec|]. intros r' [Hok' Hdom']. split; [done|set_solver].
  - intros r Hr. apply holds_ret. done.
Qed.
End with_call.

Lemma hash_n_degree_quads_spec fuel cs algorithm n iss :
  cs_ok cs -> n ∈ K -> issuer_ok K iss ->
  holds I F (hash_n_degree_quads fuel d cs algorithm maximum n iss) (fun r => grows iss r.1).
Proof.
  intros Hcs. revert n iss. induction fuel as [|fuel IH]; intros n iss Hn Hiss; cbn [hash_n_degree_quads].
  - by apply holds_throw.
  - eapply (holds_bind _ _ _ _ (fun _ => True)).
    + intros s Hs. unfold NdegreeCallBudget_consume. by destruct (s =? 0).
    + intros _ _. apply n_degree_body_spec; done.
Qed.

(** *** The fuel is enough *)

(** Two computations that agree on every budget up to [r], which they do not
    increase. *)
Definition agree {A : Type} (r : Z) (m1 m2 : ST Z CanonFailure A) : Prop :=
  forall s, 0 <= s <= r -> m1 s = m2 s /\ forall a s', m1 s = Ok (a, s') -> 0 <= s' <= s.

Lemma agree_bind {A B : Type} r (m1 m2 : ST Z CanonFailure A) (f1 f2 : A -> ST Z CanonFailure B) :
  agree r m1 m2 -> (forall a, agree r (f1 a) (f2 a)) -> agree r (m1 ≫= f1) (m2 ≫= f2).
Proof.
  intros Hm Hf s Hs. destruct (Hm s Hs) as [E H]. unfold mbind, ST_bind. rewrite <- E. destruct (m1 s) as [[a s1]|e]; [|done].
  specialize (H a s1 eq_refl). destruct (Hf a s1) as [E' H']; [lia|]. split; [done|]. intros b s' Hb. specialize (H' b s' Hb). lia.
Qed.
Lemma agree_ret {A : Type} r (a : A) : agree r (mret a) (mret a).
Proof. intros s Hs. split; [done|]. intros b s' [= <- <-]. lia. Qed.
Lemma agree_panic {A : Type} r (o : option A) : agree r (or_panic o) (or_panic o).
Proof. intros s Hs. split; [done|]. destruct o; [|done]. intros b s' [= <- <-]. lia. Qed.
Lemma agree_for_each {A X : Type} r (f1 f2 : A -> X -> ST Z CanonFailure A) (xs : list X) a :
  (forall a x, agree r (f1 a x) (f2 a x)) -> agree r (for_each f1 a xs) (for_each f2 a xs).
Proof.
  intros Hf. revert a. induction xs as [|y xs IH]; intros a; [apply agree_ret|]. cbn [for_each]. apply agree_bind; [apply Hf|]. intros b. apply IH.
Qed.

Lemma agree_body r cs algorithm call1 call2 n iss :
  (forall n iss, agree r (call1 n iss) (call2 n iss)) ->
  agree r (n_degree_body d cs algorithm call1 n iss) (n_degree_body d cs algorithm call2 n iss).
Proof.
  intros Hc. unfold n_degree_body. apply agree_bind; [apply agree_panic|]. intros quads. apply agree_bind; [apply agree_panic|].
  intros h_n. apply agree_bind; [|intros; apply agree_ret]. apply agree_for_each. intros [data is0] [rh nodes]. unfold related_group.
  apply agree_bind; [|intros; apply agree_ret]. apply agree_for_each. intros [cp ci] p. unfold try_permutation.
  apply agree_bind; [apply agree_panic|]. intros [[[i1 p1] rl]|]; [|apply agree_ret]. apply agree_bind.
  - revert i1 p1. induction rl as [|m rl IH]; intros i1 p1; [apply agree_ret|]. cbn [recursion_path].
    apply agree_bind; [apply Hc|]. intros [i2 h2]. apply agree_bind; [apply agree_panic|]. intros b.
    destruct (worse_path _ _); [apply agree_ret|apply IH].
  - intros [[i2 p2]|]; apply agree_ret.
Qed.

Lemma n_degree_fuel f1 f2 r cs algorithm n iss :
  r <= Z.of_nat f1 -> r <= Z.of_nat f2 ->
  agree r (hash_n_degree_quads f1 d cs algorithm maximum n iss) (hash_n_degree_quads f2 d cs algorithm maximum n iss).
Proof.
  revert f2 r n iss. induction f1 as [|f1 IH]; intros [|f2] r n iss H1 H2 s Hs; cbn [hash_n_degree_quads].
  - done.
  - replace s with 0 by lia. done.
  - replace s with 0 by lia. done.
  - unfold mbind, ST_bind, NdegreeCallBudget_consume. destruct (Z.eqb_spec s 0) as [->|Hs0]; [done|].
    destruct (agree_body (r - 1) cs algorithm (hash_n_degree_quads f1 d cs algorithm maximum) (hash_n_degree_quads f2 d cs algorithm maximum) n iss) with (s := s - 1) as [E H].
    + intros m is0. apply IH; lia.
    + lia.
    + split; [done|]. intros a s' Ha. specialize (H a s' Ha). lia.
Qed.

End budget.

(** ** The steps of the algorithm *)

Context (Hsize : Z.of_nat (size K) < 2 ^ 32).

(** The canonical issuer. *)
Definition canon_ok (algorithm : CanonicalizationAlgorithm) (iss : IdentifierIssuer) : Prop :=
  issuer_ok K iss /\ names_ok algorithm iss /\ identifier_prefix iss = str "c14n".

Lemma issue_canon algorithm iss n h :
  canon_ok algorithm iss -> n ∈ K ->
  exists iss' b, issue_identifier iss n algorithm h = Some (iss', b) /\ canon_ok algorithm iss' /\ named iss' = {[n]} ∪ named iss.
Proof.
  intros (Hok & Hnm & Hpre) Hn. destruct (issue_identifier_spec K iss n algorithm h Hok Hn) as (iss' & b & E & Hok' & Hdom).
  destruct (issue_names K iss n algorithm h iss' b Hok Hn Hsize Hnm E) as [H1 H2]. exists iss', b.
  split; [done|]. split; [|done]. split; [done|]. split; [done|]. by rewrite H2.
Qed.

(** Step 3 *)
Definition hashes_ok (m : gmap bytes (list InternedBlankNode)) : Prop :=
  forall h l, m !! h = Some l -> l <> [] /\ forall n, n ∈ l -> n ∈ K.

Lemma first_hashes_spec ha keys m :
  (forall n, n ∈ keys -> n ∈ K) -> hashes_ok m ->
  exists m', fold_option (add_first_hash d (initial_state d) ha) m keys = Some m' /\ hashes_ok m'
    /\ forall n, (n ∈ keys \/ exists h l, m !! h = Some l /\ n ∈ l) -> exists h l, m' !! h = Some l /\ n ∈ l.
Proof.
  revert m. induction keys as [|k keys IH]; intros m Hk Hm; [exists m; split; [done|split; [done|set_solver]]|]. cbn [fold_option].
  destruct (first_degree_some (initial_state d) k ha eq_refl) as [h Hh]; [apply Hk; set_solver|].
  replace (add_first_hash d (initial_state d) ha m k) with (Some (<[h := default [] (m !! h) ++ [k]]> m)) by (unfold add_first_hash; by rewrite Hh).
  cbn [mbind option_bind]. destruct (IH (<[h := default [] (m !! h) ++ [k]]> m)) as (m' & -> & Hm' & Hcov); [set_solver| |].
  - intros h' l. destruct (decide (h' = h)) as [->|Hne]; [|rewrite lookup_insert_ne by done; apply Hm].
    rewrite lookup_insert_eq. intros [=<-]. split; [by destruct (default [] (m !! h))|]. intros n [Hn|Hn]%elem_of_app.
    + destruct (m !! h) as [l|] eqn:E; [|set_solver]. by apply (Hm h l E).
    + apply Hk. set_solver.
  - exists m'. split; [done|]. split; [done|]. intros n Hn. apply Hcov.
    destruct Hn as [Hn|(h' & l & Hl & Hn)]; [apply elem_of_cons in Hn as [->|Hn]; [right|by left]|right].
    + exists h, (default [] (m !! h) ++ [k]). rewrite lookup_insert_eq. set_solver.
    + destruct (decide (h' = h)) as [->|Hne].
      * exists h, (l ++ [k]). rewrite lookup_insert_eq, Hl. set_solver.
      * exists h', l. by rewrite lookup_insert_ne.
Qed.

(** Step 4 *)
Lemma issue_unique_spec algorithm entries iss kept :
  (forall e, e ∈ entries -> e.2 <> [] /\ forall n, n ∈ e.2 -> n ∈ K) -> (forall e, e ∈ kept -> forall n, n ∈ e.2 -> n ∈ K) ->
  canon_ok algorithm iss ->
  exists iss' kept', fold_option (issue_unique algorithm) (iss, kept) entries = Some (iss', kept') /\ canon_ok algorithm iss'
    /\ (forall e, e ∈ kept' -> forall n, n ∈ e.2 -> n ∈ K)
    /\ (forall n, n ∈ named iss \/ (exists e, e ∈ kept /\ n ∈ e.2) \/ (exists e, e ∈ entries /\ n ∈ e.2) ->
         n ∈ named iss' \/ exists e, e ∈ kept' /\ n ∈ e.2).
Proof.
  revert iss kept. induction entries as [|[h l] entries IH]; intros iss kept He Hk Hiss.
  - exists iss, kept. split; [done|]. split; [done|]. split; [done|]. set_solver.
  - cbn [fold_option]. destruct (He (h, l)) as [Hl HK]; [set_solver|]. cbn [snd] in *.
    destruct l as [|n [|n' l]]; [done|..]; cbn [issue_unique].
    + destruct (issue_canon algorithm iss n h Hiss) as (iss1 & b & -> & Hok1 & Hd1); [apply HK; set_solver|]. cbn [mbind option_bind fst].
      destruct (IH iss1 kept) as (iss2 & kept2 & -> & H1 & H2 & H3); [set_solver|done..|].
      exists iss2, kept2. split; [done|]. split; [done|]. split; [done|]. intros m Hm. apply H3.
      destruct Hm as [Hm|[Hm|(e & Hin & Hm)]]; [left; set_solver|by right; left|].
      apply elem_of_cons in Hin as [->|Hin]; [|right; right; by exists e]. left. cbn [snd] in Hm. set_solver.
    + cbn [mbind option_bind]. destruct (IH iss (kept ++ [(h, n :: n' :: l)])) as (iss2 & kept2 & -> & H1 & H2 & H3); [set_solver| |done|].
      * intros e [Hin|Hin]%elem_of_app; [by apply Hk|]. apply list_elem_of_singleton in Hin as ->. exact HK.
      * exists iss2, kept2. split; [done|]. split; [done|]. split; [done|]. intros m Hm. apply H3.
        destruct Hm as [Hm|[(e & Hin & Hm)|(e & Hin & Hm)]]; [by left| |apply elem_of_cons in Hin as [->|Hin]].
        -- right. left. exists e. split; [|done]. apply elem_of_app. by left.
        -- right. left. exists (h, n :: n' :: l). split; [|done]. apply elem_of_app. right. by apply list_elem_of_singleton.
        -- right. right. by exists e.
Qed.

(** Step 5 *)
Section groups.
  Context (maximum : Z) (algorithm : CanonicalizationAlgorithm).
Let I (_ : Z) : Prop := True.
Let F (e : CanonFailure) : Prop := e = TooManyNDegreeCalls maximum.

Lemma hash_path_spec fuel h cs hp n :
  cs_ok cs -> n ∈ K -> (forall r, r ∈ hp -> issuer_ok K r.1) ->
  holds I F (hash_path d algorithm maximum fuel h cs hp n)
    (fun hp' => (forall r, r ∈ hp' -> issuer_ok K r.1) /\ hp ⊆ hp'
       /\ (n ∈ named (canonical_issuer cs) \/ exists r, r ∈ hp' /\ n ∈ named r.1)).
Proof.
  intros Hcs Hn Hhp. unfold hash_path. destruct (issued_identifier_map (canonical_issuer cs) !! n) as [b|] eqn:E.
  - apply holds_ret. split; [done|]. split; [done|]. left. by apply elem_of_dom_2 in E.
  - destruct (issue_identifier_spec K (IdentifierIssuer_new (str "b")) n algorithm h (issuer_new_ok K _) Hn) as (iss & b & Ei & Hok & Hdom).
    eapply holds_bind; [apply (holds_or_panic maximum _ (fun r => r = (iss, b))); by exists (iss, b)|]. intros ? ->. cbn [fst].
    eapply holds_bind; [by apply hash_n_degree_quads_spec|]. intros r [Hr Hd1]. apply holds_ret.
    split; [|split; [set_solver|right; exists r; set_solver]].
    intros r' [Hin|Hin]%elem_of_app; [by apply Hhp|]. by apply list_elem_of_singleton in Hin as ->.
Qed.

Lemma hash_paths_spec fuel h cs nodes :
  cs_ok cs -> (forall n, n ∈ nodes -> n ∈ K) ->
  holds I F (for_each (hash_path d algorithm maximum fuel h cs) [] nodes)
    (fun hp => (forall r, r ∈ hp -> issuer_ok K r.1)
       /\ forall n, n ∈ nodes -> n ∈ named (canonical_issuer cs) \/ exists r, r ∈ hp /\ n ∈ named r.1).
Proof.
  intros Hcs Hn. apply (holds_for_each _ _ _ (fun pre hp => (forall r, r ∈ hp -> issuer_ok K r.1)
    /\ forall n, n ∈ pre -> n ∈ named (canonical_issuer cs) \/ exists r, r ∈ hp /\ n ∈ named r.1)); [|set_solver].
  intros pre n rest hp E [H1 H2]. eapply holds_conseq; [apply hash_path_spec; [done|apply Hn; rewrite E; set_solver|done]|].
  intros hp' (H3 & H4 & H5). split; [done|]. intros m [Hm|Hm]%elem_of_app; [|set_solver].
  destruct (H2 m Hm) as [?|(r & Hr & Hmr)]; [by left|]. right. exists r. split; [by apply H4|done].
Qed.

Lemma issue_result_spec h iss r :
  canon_ok algorithm iss -> issuer_ok K r.1 ->
  exists iss', issue_result algorithm h iss r = Some iss' /\ canon_ok algorithm iss' /\ named iss ∪ named r.1 ⊆ named iss'.
Proof.
  intros Hiss [Ho Hk]. unfold issue_result. set (order := issued_identifier_order r.1) in *.
  assert (forall n, n ∈ order -> n ∈ K) as HK by (intros n ?%Ho; by apply Hk).
  assert (exists iss', fold_option (fun issuer n => fst <$> issue_identifier issuer n algorithm h) iss order = Some iss'
    /\ canon_ok algorithm iss' /\ named iss ⊆ named iss' /\ forall n, n ∈ order -> n ∈ named iss') as (iss' & E & H1 & H2 & H3);
    [|exists iss'; split; [done|split; [done|]]; intros n [?|?%Ho]%elem_of_union; [by apply H2|by apply H3]].
  clear Ho. revert iss Hiss. induction order as [|n order IH]; intros iss Hiss; [exists iss; split; [done|set_solver]|]. cbn [fold_option].
  destruct (issue_canon algorithm iss n h Hiss) as (iss1 & b & -> & Hok1 & Hd1); [apply HK; set_solver|]. cbn [fmap option_fmap option_map fst mbind option_bind].
  destruct (IH (fun n Hn => HK n (list_elem_of_further _ _ _ Hn)) iss1 Hok1) as (iss' & E & H1 & H2 & H3). exists iss'.
  split; [exact E|]. split; [done|]. split; [set_solver|]. intros m Hm. apply elem_of_cons in Hm as [->|Hm]; [apply H2; set_solver|by apply H3].
Qed.

Lemma name_group_spec fuel cs entry :
  cs_ok cs -> canon_ok algorithm (canonical_issuer cs) -> (forall n, n ∈ entry.2 -> n ∈ K) ->
  holds I F (name_group d algorithm maximum fuel cs entry)
    (fun cs' => cs_ok cs' /\ canon_ok algorithm (canonical_issuer cs') /\ named (canonical_issuer cs) ⊆ named (canonical_issuer cs')
       /\ forall n, n ∈ entry.2 -> n ∈ named (canonical_issuer cs')).
Proof.
  intros Hcs Hcan Hn. destruct entry as [h nodes]. cbn [snd] in *. unfold name_group.
  eapply holds_bind; [by apply hash_paths_spec|]. intros hp [Hhp Hcov].
  eapply holds_bind.
  { apply (holds_or_panic maximum _ (fun iss => canon_ok algorithm iss /\ named (canonical_issuer cs) ⊆ named iss
      /\ forall r, r ∈ hp -> named r.1 ⊆ named iss)).
    assert (forall r, r ∈ sort_unstable_by_hash hp <-> r ∈ hp) as Hs by (intros r; by rewrite sort_unstable_perm).
    assert (forall r, r ∈ sort_unstable_by_hash hp -> issuer_ok K r.1) as Hok by (intros r ?%Hs; by apply Hhp).
    setoid_rewrite <- Hs. clear Hs. revert Hok Hcan. generalize (sort_unstable_by_hash hp) as l. generalize (canonical_issuer cs) as iss.
    intros iss l. revert iss. induction l as [|r l IH]; intros iss Hok Hiss; [exists iss; set_solver|]. cbn [fold_option].
    destruct (issue_result_spec h iss r Hiss) as (iss1 & -> & H1 & H2); [apply Hok; set_solver|]. cbn [mbind option_bind].
    destruct (IH iss1) as (iss2 & E & H3 & H4 & H5); [intros r' Hr'; apply Hok; set_solver|done|]. exists iss2. split; [exact E|].
    split; [done|]. split; [set_solver|]. intros r' Hr'. apply elem_of_cons in Hr' as [->|Hr']; [set_solver|by apply H5]. }
  intros iss (H1 & H2 & H3). apply holds_ret. split; [exact Hcs|]. split; [exact H1|]. split; [exact H2|].
  intros n Hin. destruct (Hcov n Hin) as [?|(r & Hr & Hnr)]; [by apply H2|]. by apply (H3 r).
Qed.

Lemma name_groups_spec fuel cs groups :
  cs_ok cs -> canon_ok algorithm (canonical_issuer cs) -> (forall e, e ∈ groups -> forall n, n ∈ e.2 -> n ∈ K) ->
  holds I F (for_each (name_group d algorithm maximum fuel) cs groups)
    (fun cs' => canon_ok algorithm (canonical_issuer cs') /\ named (canonical_issuer cs) ⊆ named (canonical_issuer cs')
       /\ forall e n, e ∈ groups -> n ∈ e.2 -> n ∈ named (canonical_issuer cs')).
Proof.
  intros Hcs Hcan Hg. eapply holds_conseq.
  - apply (holds_for_each _ _ _ (fun pre cs' => cs_ok cs' /\ canon_ok algorithm (canonical_issuer cs')
      /\ named (canonical_issuer cs) ⊆ named (canonical_issuer cs')
      /\ forall e n, e ∈ pre -> n ∈ e.2 -> n ∈ named (canonical_issuer cs'))); [|set_solver].
    intros pre e rest cs1 E (H1 & H2 & H3 & H4). eapply holds_conseq; [apply name_group_spec; [done..|apply Hg; rewrite E; set_solver]|].
    intros cs2 (H5 & H6 & H7 & H8). split; [done|]. split; [done|]. split; [set_solver|].
    intros e' n [Hin|Hin]%elem_of_app Hn; [apply H7; by apply (H4 e')|]. apply list_elem_of_singleton in Hin as ->. by apply H8.
  - intros cs' (_ & H1 & H2 & H3). done.
Qed.
End groups.

(** The names of the blank nodes of the dataset. *)
Definition canonical_names (algorithm : CanonicalizationAlgorithm) (m : gmap InternedBlankNode RdfBlankNode) : Prop :=
  (forall b, b ∈ dom m <-> dataset_blanks b)
  /\ (forall a b n, m !! a = Some n -> m !! b = Some n -> a = b)
  /\ (algorithm <> UnstableHashedIds -> forall b n, m !! b = Some n ->
       exists i, 0 <= i < Z.of_nat (size m) /\ n = BlankNode_new_unchecked (str "c14n" ++ print_int i)).

Lemma canonicalize_interned_spec algorithm limit :
  match canonicalize_interned_blank_nodes d algorithm limit with
  | Ok m => canonical_names algorithm m
  | Err e => exists maximum, e = TooManyNDegreeCalls maximum
  end.
Proof.
  unfold canonicalize_interned_blank_nodes.
  assert (forall n, n ∈ hash_map_keys m0 <-> n ∈ K) as Hkeys by (intros n; rewrite hash_map_keys_perm; apply elem_of_elements).
  destruct (first_hashes_spec (algorithm_hash algorithm) (hash_map_keys m0) ∅) as (hashes & E1 & Hh & Hcov1);
    [intros n; apply Hkeys|intros h l; by rewrite lookup_empty|]. change (blank_node_to_quads_map (initial_state d)) with m0. rewrite E1.
  cbn [ok_or mbind result_bind].
  destruct (issue_unique_spec algorithm (btree_entries hashes) (canonical_issuer (initial_state d)) []) as (iss & groups & E2 & Hiss & HgK & Hcov2).
  - intros [h l] Hin%elem_of_btree_entries. by apply (Hh h).
  - set_solver.
  - split; [apply issuer_new_ok|]. split; [apply names_new|done].
  - rewrite E2. cbn [ok_or mbind result_bind]. set (maximum := NdegreeCallLimit_maximum _ _).
    pose proof (name_groups_spec maximum algorithm (Z.to_nat maximum) (set_issuer (initial_state d) iss) groups eq_refl Hiss HgK maximum Logic.I) as Hng.
    destruct (for_each _ _ _ _) as [[cs r]|e]; [|by exists maximum]. destruct Hng as (_ & ([Ho Hk] & [Hinj Hnm] & Hpre) & Hsub & Hall).
    split; [|split; [done|]].
    + intros b. rewrite <- initial_blanks. split; [apply Hk|]. intros Hb. apply Hkeys in Hb.
      destruct (Hcov1 b (or_introl Hb)) as (h & l & Hl & Hbl). destruct (Hcov2 b) as [Hn|(e & He & Hn)].
      * right. right. exists (h, l). split; [by apply elem_of_btree_entries|done].
      * by apply Hsub.
      * by apply (Hall e).
    + intros Ha b n Hn. rewrite Hpre in Hnm. destruct algorithm; [|done|]; destruct Hnm as [Hc Hi]; rewrite <- Hc; by apply (Hi b).
Qed.
End canon_facts.
