(* ===== verification/OxRenameFacts.v ===== *)
(** * Renaming blank nodes, and what canonicalization promises

    A canonicalized dataset represents the quads of the dataset with its blank
    nodes renamed one to one; datasets found isomorphic are. *)
From stdpp Require Import gmap.
From S2P Require Import Prelude MachineInt RustStr BTree RdfModel RdfDisplay OxInterning.
From S2P Require Import OxDataset OxOrderFacts OxInterningFacts OxDatasetFacts.
From S2P Require Import OxDatasetRefinement OxCanonicalization OxIssuerFacts OxCanonFacts.

(** ** Renaming of terms *)

Section rename.
  Context (f : RdfBlankNode -> RdfBlankNode).
Definition Node_rename (n : RdfNamedOrBlankNode) : RdfNamedOrBlankNode :=
  match n with NodeBlank b => NodeBlank (f b) | NodeNamed _ => n end.
Fixpoint Term_rename (t : RdfTerm) : RdfTerm :=
  match t with
  | TermBlankNode b => TermBlankNode (f b)
  | TermTriple s p o => TermTriple (Node_rename s) p (Term_rename o)
  | _ => t
  end.
Definition Graph_rename (g : RdfGraphName) : RdfGraphName :=
  match g with GraphBlankNode b => GraphBlankNode (f b) | _ => g end.
Definition Quad_rename (q : RdfQuad) : RdfQuad :=
  mkQuad (Node_rename (q_subject q)) (q_predicate q) (Term_rename (q_object q)) (Graph_rename (q_graph_name q)).
Definition QuadSet_rename (x : QuadSet) : QuadSet :=
  mkQuadSet (set_map Quad_rename (qs_quads x)) (set_map Node_rename (qs_graphs x)).
End rename.

(** The blank nodes of terms. *)
Definition Node_bnodes (n : RdfNamedOrBlankNode) : gset RdfBlankNode :=
  match n with NodeBlank b => {[b]} | NodeNamed _ => ∅ end.
Fixpoint Term_bnodes (t : RdfTerm) : gset RdfBlankNode :=
  match t with
  | TermBlankNode b => {[b]}
  | TermTriple s _ o => Node_bnodes s ∪ Term_bnodes o
  | _ => ∅
  end.
Definition Graph_bnodes (g : RdfGraphName) : gset RdfBlankNode :=
  match g with GraphBlankNode b => {[b]} | _ => ∅ end.
Definition Quad_bnodes (q : RdfQuad) : gset RdfBlankNode :=
  Node_bnodes (q_subject q) ∪ Term_bnodes (q_object q) ∪ Graph_bnodes (q_graph_name q).
Definition qs_bnodes (x : QuadSet) : gset RdfBlankNode :=
  set_bind Quad_bnodes (qs_quads x) ∪ set_bind Node_bnodes (qs_graphs x).

Lemma elem_of_qs_bnodes x b :
  b ∈ qs_bnodes x <-> (exists q, q ∈ qs_quads x /\ b ∈ Quad_bnodes q) \/ NodeBlank b ∈ qs_graphs x.
Proof.
  unfold qs_bnodes. rewrite elem_of_union, !elem_of_set_bind. apply or_iff_compat_l. split.
  - intros ([n|n] & Hn & Hb); cbn [Node_bnodes] in Hb; [by apply elem_of_empty in Hb|]. by apply elem_of_singleton in Hb as ->.
  - intros Hb. exists (NodeBlank b). split; [done|]. cbn [Node_bnodes]. by apply elem_of_singleton.
Qed.

Lemma image_list {A B : Type} `{Countable A} `{Countable B} (g : A -> B) (X : gset A) (ks : list B) :
  (forall k, k ∈ ks <-> k ∈ set_map (C := gset A) (D := gset B) g X) ->
  (forall a b, a ∈ X -> b ∈ X -> g a = g b -> a = b) -> exists l, ks = g <$> l /\ forall a, a ∈ l <-> a ∈ X.
Proof.
  intros Hks Hinj. assert (exists l, ks = g <$> l /\ forall a, a ∈ l -> a ∈ X) as (l & -> & Hl).
  { assert (forall k, k ∈ ks -> k ∈ set_map (C := gset A) (D := gset B) g X) as Hin by (intros k; apply Hks). clear Hks.
    induction ks as [|k ks IH]; [exists []; split; [done|set_solver]|]. destruct IH as (l & -> & Hl); [set_solver|].
    assert (k ∈ set_map (C := gset A) (D := gset B) g X) as (a & -> & Ha)%elem_of_map by (apply Hin; set_solver).
    exists (a :: l). split; [done|set_solver]. }
  exists l. split; [done|]. intros a. split; [apply Hl|]. intros Ha.
  assert (g a ∈ g <$> l) as (b & E & Hb)%list_elem_of_fmap by (apply Hks, elem_of_map_2, Ha).
  by rewrite (Hinj a b Ha (Hl b Hb) E).
Qed.

Section renaming_facts.
  Context {P : InternerParams} (S : bytes -> Prop) {HS : GoodHash S}.
  Context (m : gmap InternedBlankNode RdfBlankNode) (f : RdfBlankNode -> RdfBlankNode).

(** The map names a blank node by a term that can be interned. *)
Definition good_name (b : RdfBlankNode) : Prop :=
  m !! Blank_key b = Some (f b) /\ Blank_wf (f b) = true /\ Forall S (Blank_strings (f b)).
Definition all_good (bs : gset RdfBlankNode) : Prop := forall b, b ∈ bs -> good_name b.

Lemma Node_rename_valid n : Node_wf n = true -> Forall S (Node_strings n) -> all_good (Node_bnodes n) ->
  Node_wf (Node_rename f n) = true /\ Forall S (Node_strings (Node_rename f n)).
Proof. destruct n as [n|b]; [done|]. intros _ _ Hg. destruct (Hg b) as (_ & W & F); [set_solver|]. done. Qed.
Lemma Graph_rename_valid g : Graph_wf g = true -> Forall S (Graph_strings g) -> all_good (Graph_bnodes g) ->
  Graph_wf (Graph_rename f g) = true /\ Forall S (Graph_strings (Graph_rename f g)).
Proof. destruct g as [n|b|]; [done| |done]. intros _ _ Hg. destruct (Hg b) as (_ & W & F); [set_solver|]. done. Qed.
Lemma Term_rename_valid t : Term_wf t = true -> Forall S (Term_strings t) -> all_good (Term_bnodes t) ->
  Term_wf (Term_rename f t) = true /\ Forall S (Term_strings (Term_rename f t)).
Proof.
  induction t as [n|b|l|s p o IH]; [done| |done|].
  - intros _ _ Hg. destruct (Hg b) as (_ & W & F); [set_solver|]. done.
  - cbn [Term_wf Term_strings Term_rename Term_bnodes]. intros [Ws Wo]%andb_prop [Fs Fo]%Forall_app Hg.
    apply Forall_cons_iff in Fo as [Fp Fo].
    destruct (Node_rename_valid s Ws Fs) as [Ws' Fs']; [intros b Hb; apply Hg; set_solver|].
    destruct (IH Wo Fo) as [Wo' Fo']; [intros b Hb; apply Hg; set_solver|].
    rewrite Ws', Wo', Forall_app, Forall_cons_iff. done.
Qed.

Lemma map_blank_node_spec b it :
  Interner_ok S it -> good_name b ->
  exists it', map_blank_node m (Blank_key b) it = Some (Blank_key (f b), it') /\ Interner_ok S it' /\ extends it it'
    /\ Blank_known it' (f b).
Proof.
  intros Hok (Hm & W & F). unfold map_blank_node. rewrite Hm.
  exact (@ia_into_spec _ S _ _ (BlankNode_interned S) it (f b) Hok W F).
Qed.

(** A triple is decoded with its new names. *)
Lemma map_triple_spec it t :
  match t with TermTriple _ _ _ => True | _ => False end -> Term_wf t = true -> Term_known it t -> all_good (Term_bnodes t) ->
  map_triple_blank_nodes m (Term_key t) it = Some (Term_rename f t).
Proof.
  induction t as [n|b|l|s p o IH]; try done. intros _ Ht (Ks & Kp & Ko & _) Hg. apply andb_prop in Ht as [Ws Wo].
  cbn [Term_key map_triple_blank_nodes Term_rename]. cbn [Term_bnodes] in Hg.
  assert (match Node_key s with INBlankNode n => NodeBlank <$> m !! n | _ => Node_decode_from (Node_key s) it end = Some (Node_rename f s)) as ->.
  { destruct s as [s|b].
    - apply (@ia_decode_spec _ S _ _ (Node_interned S) it (NodeNamed s) Ws Ks).
    - destruct (Hg b) as (Hm & _); [set_solver|]. cbn [Node_key]. by rewrite Hm. }
  cbn [mbind option_bind]. rewrite (@ia_decode_spec _ S _ _ (NamedNode_interned S) it p eq_refl Kp : NamedNode_decode_from (hash (nn_iri p)) it = Some p).
  cbn [mbind option_bind]. destruct o as [n|b|l|s' p' o'].
  - cbn [Term_key Term_rename]. by rewrite (Term_decode_spec S it (TermNamedNode n) Wo Ko : Term_decode_from (ITNamedNode _) it = _).
  - destruct (Hg b) as (Hm & _); [set_solver|]. cbn [Term_key]. by rewrite Hm.
  - cbn [Term_key Term_rename]. by rewrite (Term_decode_spec S it (TermLiteral l) Wo Ko : Term_decode_from (ITLiteral _) it = _).
  - cbn [Term_key] in *. rewrite IH; [done..|]. intros b Hb. apply Hg. set_solver.
Qed.

Lemma map_quad_spec it q :
  Interner_ok S it -> Quad_wf q = true -> Forall S (Quad_strings q) -> Quad_known it q -> all_good (Quad_bnodes q) ->
  exists it', map_quad m (Quad_key q) it = Some (Quad_key (Quad_rename f q), it') /\ Interner_ok S it' /\ extends it it'
    /\ Quad_known it' (Quad_rename f q).
Proof.
  intros Hok Wq Sq (K1 & K2 & K3 & K4) Hg. destruct (Quad_parts S q Wq Sq) as ((W1 & W2 & W3) & S1 & S2 & S3 & S4).
  assert (all_good (Node_bnodes (q_subject q)) /\ all_good (Term_bnodes (q_object q)) /\ all_good (Graph_bnodes (q_graph_name q))) as (G1 & G2 & G3)
    by (split_and!; intros b Hb; apply Hg; unfold Quad_bnodes; set_solver).
  destruct q as [s p o g]. unfold Quad_key, Quad_rename, map_quad. cbn [q_subject q_predicate q_object q_graph_name] in *.
  assert (exists it1, match Node_key s with INNamedNode _ => Some (Node_key s, it) | INBlankNode n => r ← map_blank_node m n it; Some (INBlankNode r.1, r.2) end
    = Some (Node_key (Node_rename f s), it1) /\ Interner_ok S it1 /\ extends it it1 /\ Node_known it1 (Node_rename f s)) as (it1 & -> & Hok1 & He1 & N1).
  { destruct s as [n|b]; [by exists it|]. destruct (map_blank_node_spec b it Hok) as (it1 & E & H); [apply G1; set_solver|].
    cbn [Node_key]. rewrite E. by exists it1. }
  cbn [mbind option_bind].
  assert (exists it2, match Term_key o with
      | ITNamedNode _ | ITLiteral _ => Some (Term_key o, it1)
      | ITBlankNode n => r ← map_blank_node m n it1; Some (ITBlankNode r.1, r.2)
      | ITTriple _ _ _ => t ← map_triple_blank_nodes m (Term_key o) it1; Term_encoded_into t it1
      end = Some (Term_key (Term_rename f o), it2) /\ Interner_ok S it2 /\ extends it1 it2 /\ Term_known it2 (Term_rename f o)) as (it2 & -> & Hok2 & He2 & N2).
  { apply (Term_known_mono it it1 o He1) in K3. destruct o as [n|b|l|s' p' o'].
    - by exists it1.
    - destruct (map_blank_node_spec b it1 Hok1) as (it2 & E & H); [apply G2; set_solver|]. cbn [Term_key]. rewrite E. by exists it2.
    - by exists it1.
    - destruct (Term_rename_valid _ W2 S3 G2) as [W' F'].
      pose proof (map_triple_spec it1 (TermTriple s' p' o') Logic.I W2 K3 G2) as Et.
      change (Term_key (TermTriple s' p' o')) with (ITTriple (Node_key s') (hash (nn_iri p')) (Term_key o')) in *. cbv iota. rewrite Et.
      exact (Term_into_spec S it1 _ Hok1 W' F'). }
  cbn [mbind option_bind].
  assert (exists it3, match Graph_key g with
      | IGNamedNode _ | IGDefaultGraph => Some (Graph_key g, it2)
      | IGBlankNode n => r ← map_blank_node m n it2; Some (IGBlankNode r.1, r.2)
      end = Some (Graph_key (Graph_rename f g), it3) /\ Interner_ok S it3 /\ extends it2 it3 /\ Graph_known it3 (Graph_rename f g)) as (it3 & -> & Hok3 & He3 & N3).
  { apply (Graph_known_mono it it1 g He1), (Graph_known_mono it1 it2 g He2) in K4. destruct g as [n|b|]; [by exists it2| |by exists it2].
    destruct (map_blank_node_spec b it2 Hok2) as (it3 & E & H); [apply G3; set_solver|]. cbn [Graph_key]. rewrite E. by exists it3. }
  cbn [mbind option_bind]. exists it3. split; [done|]. split; [done|]. split; [by do 2 (etrans; [done|])|].
  split_and!; cbn [q_subject q_predicate q_object q_graph_name].
  - by eapply Node_known_mono; [|eapply Node_known_mono].
  - by eapply str_known_mono; [|eapply str_known_mono; [|eapply str_known_mono]].
  - by eapply Term_known_mono.
  - done.
Qed.

Lemma map_blank_nodes_spec qs it :
  Interner_ok S it -> (forall q, q ∈ qs -> Quad_wf q = true /\ Forall S (Quad_strings q) /\ Quad_known it q /\ all_good (Quad_bnodes q)) ->
  exists it', map_blank_nodes m (Quad_key <$> qs) it = Some (Quad_key <$> (Quad_rename f <$> qs), it') /\ Interner_ok S it' /\ extends it it'
    /\ forall q, q ∈ qs -> Quad_known it' (Quad_rename f q).
Proof.
  revert it. induction qs as [|q qs IH]; intros it Hok Hq; [exists it; split; [done|split; [done|split; [done|set_solver]]]|].
  destruct (Hq q) as (W & F & K & G); [set_solver|]. destruct (map_quad_spec it q Hok W F K G) as (it1 & E1 & Hok1 & He1 & N1).
  destruct (IH it1 Hok1) as (it2 & E2 & Hok2 & He2 & N2).
  { intros q' Hq'. destruct (Hq q') as (W' & F' & K' & G'); [set_solver|]. split_and!; [done..|by eapply Quad_known_mono|done]. }
  rewrite !fmap_cons. cbn [map_blank_nodes]. rewrite E1. cbn [mbind option_bind fst snd]. rewrite E2. exists it2.
  split; [done|]. split; [done|]. split; [by etrans|]. intros q' Hq'. apply elem_of_cons in Hq' as [->|Hq']; [|by apply N2].
  by eapply Quad_known_mono.
Qed.

Lemma map_named_graphs_spec ns it :
  Interner_ok S it -> (forall n, n ∈ ns -> Node_known it n /\ all_good (Node_bnodes n)) ->
  exists it', map_named_graph_blank_nodes m (Graph_node_key <$> ns) it = Some (Graph_node_key <$> (Node_rename f <$> ns), it')
    /\ Interner_ok S it' /\ extends it it' /\ forall n, n ∈ ns -> Node_known it' (Node_rename f n).
Proof.
  revert it. induction ns as [|n ns IH]; intros it Hok Hn; [exists it; split; [done|split; [done|split; [done|set_solver]]]|].
  destruct (Hn n) as [K G]; [set_solver|].
  assert (exists it1, match Graph_node_key n with
      | IGNamedNode _ => Some (Graph_node_key n, it)
      | IGBlankNode k => r ← map_blank_node m k it; Some (IGBlankNode r.1, r.2)
      | IGDefaultGraph => None
      end = Some (Graph_node_key (Node_rename f n), it1) /\ Interner_ok S it1 /\ extends it it1 /\ Node_known it1 (Node_rename f n)) as (it1 & E1 & Hok1 & He1 & N1).
  { destruct n as [n|b]; [by exists it|]. destruct (map_blank_node_spec b it Hok) as (it1 & E & H); [apply G; set_solver|].
    unfold Graph_node_key. cbn [Node_key node_graph_name Node_rename]. rewrite E. by exists it1. }
  destruct (IH it1 Hok1) as (it2 & E2 & Hok2 & He2 & N2).
  { intros n' Hn'. destruct (Hn n') as [K' G']; [set_solver|]. split; [by eapply Node_known_mono|done]. }
  rewrite !fmap_cons. cbn [map_named_graph_blank_nodes]. rewrite E1. cbn [mbind option_bind fst snd]. rewrite E2. exists it2.
  split; [done|]. split; [done|]. split; [by etrans|]. intros n' Hn'. apply elem_of_cons in Hn' as [->|Hn']; [|by apply N2].
  by eapply Node_known_mono.
Qed.

(** ** The renamed dataset *)

Lemma set_named_graphs_spec d x ns :
  represents S d x -> (forall n, n ∈ ns -> Node_wf n = true /\ Forall S (Node_strings n) /\ Node_known (interner d) n) ->
  represents S (set_named_graphs d (list_to_set (Graph_node_key <$> ns) ∪ named_graphs d)) (mkQuadSet (qs_quads x) (list_to_set ns ∪ qs_graphs x)).
Proof.
  intros Hd Hn. pose proof Hd as []. split; cbn [set_named_graphs interner spog gspo gpos gosp posg ospg named_graphs qs_quads qs_graphs]; try done.
  - intros n [Hin|Hin]%elem_of_union; [apply Hn; by apply elem_of_list_to_set in Hin|by apply rp_graphs].
  - intros q n Hq E. apply elem_of_union_r. by apply (rp_quad_graph q).
  - rewrite rp_named. apply set_eq. intros g. rewrite elem_of_union, elem_of_list_to_set, list_elem_of_fmap, !elem_of_map.
    setoid_rewrite elem_of_union. setoid_rewrite elem_of_list_to_set. naive_solver.
Qed.

Lemma insert_all_spec l d x :
  represents S d x -> (forall q, q ∈ l -> Quad_wf q = true /\ Forall S (Quad_strings q) /\ Quad_known (interner d) q) ->
  (forall q n, q ∈ l -> graph_node (q_graph_name q) = Some n -> n ∈ qs_graphs x) ->
  represents S (foldl (fun d quad => (insert_encoded d quad).1) d (Quad_key <$> l)) (mkQuadSet (list_to_set l ∪ qs_quads x) (qs_graphs x)).
Proof.
  revert d x. induction l as [|q l IH]; intros d x Hd Hl Hgn.
  - assert (list_to_set [] ∪ qs_quads x = qs_quads x) as -> by set_solver. by destruct x.
  - destruct (Hl q) as (W & F & K); [set_solver|]. destruct (insert_encoded_spec S d x q Hd W F K) as [H1 _].
    assert (add_graph (q_graph_name q) (qs_graphs x) = qs_graphs x) as Eg.
    { unfold add_graph. destruct (graph_node (q_graph_name q)) as [n|] eqn:E; [|done]. specialize (Hgn q n). set_solver. }
    rewrite Eg in H1. specialize (IH _ _ H1). cbn [qs_quads qs_graphs] in IH. rewrite fmap_cons. cbn [foldl].
    assert (list_to_set (q :: l) ∪ qs_quads x = list_to_set l ∪ ({[q]} ∪ qs_quads x)) as -> by set_solver.
    apply IH; [|intros b n Hb; apply Hgn; set_solver]. intros b Hb. apply Hl. set_solver.
Qed.

Lemma rename_dataset_spec d x :
  represents S d x -> all_good (qs_bnodes x) ->
  exists d', rename_dataset m d = Some d' /\ represents S d' (QuadSet_rename f x).
Proof.
  intros Hd Hg. unfold rename_dataset.
  assert (forall q, q ∈ qs_quads x -> all_good (Quad_bnodes q)) as Gq.
  { intros q Hq b Hb. apply Hg, elem_of_qs_bnodes. left. by exists q. }
  assert (forall n, n ∈ qs_graphs x -> all_good (Node_bnodes n)) as Gn.
  { intros n Hn b Hb. apply Hg. unfold qs_bnodes. apply elem_of_union_r, elem_of_set_bind. by exists n. }
  destruct (image_list Graph_node_key (qs_graphs x) (btree_elements (named_graphs d))) as (ns & -> & Hns).
  { intros k. by rewrite elem_of_btree_elements, (rp_named S d x Hd). }
  { intros a b Ha Hb. destruct (rp_graphs S d x Hd a Ha) as (Wa & _ & Ka), (rp_graphs S d x Hd b Hb) as (Wb & _ & Kb).
    by apply (Graph_node_key_inj S (interner d)). }
  destruct (image_list Quad_key (qs_quads x) (btree_elements (spog d))) as (qs & -> & Hqs).
  { intros k. by rewrite elem_of_btree_elements, (rp_spog S d x Hd). }
  { intros a b Ha Hb. destruct (rp_quads S d x Hd a Ha) as (Wa & _ & Ka), (rp_quads S d x Hd b Hb) as (Wb & _ & Kb).
    by apply (Quad_key_inj S (interner d)). }
  destruct (map_named_graphs_spec ns (interner d) (rp_interner S d x Hd)) as (it1 & -> & Hok1 & He1 & K1).
  { intros n Hn%Hns. split; [apply (rp_graphs S d x Hd n Hn)|by apply Gn]. }
  cbn [mbind option_bind]. destruct (map_blank_nodes_spec qs it1 Hok1) as (it2 & -> & Hok2 & He2 & K2).
  { intros q Hq%Hqs. destruct (rp_quads S d x Hd q Hq) as (W & F & K). split_and!; [done..|by eapply Quad_known_mono|by apply Gq]. }
  cbn [mbind option_bind]. eexists. split; [done|].
  assert (represents S (set_interner d it2) x) as Hd2 by (apply (represents_interner S); [done..|by etrans]).
  apply (Dataset_clear_spec S) in Hd2. set (d2 := Dataset_clear (set_interner d it2)) in *.
  assert (represents S (set_named_graphs d2 (list_to_set (Graph_node_key <$> (Node_rename f <$> ns)) ∪ named_graphs d2))
    (mkQuadSet ∅ (list_to_set (Node_rename f <$> ns) ∪ ∅))) as Hd3.
  { apply (set_named_graphs_spec d2 _ _ Hd2). intros n' (n & -> & Hn)%list_elem_of_fmap. pose proof (proj1 (Hns n) Hn) as Hn'.
    destruct (rp_graphs S d x Hd n Hn') as (W & F & _). destruct (Node_rename_valid n W F (Gn n Hn')) as [W' F'].
    split_and!; [done..|]. eapply Node_known_mono; [exact He2|by apply K1]. }
  assert (QuadSet_rename f x = mkQuadSet (list_to_set (Quad_rename f <$> qs) ∪ ∅) (list_to_set (Node_rename f <$> ns) ∪ ∅)) as ->.
  { unfold QuadSet_rename. f_equal; apply set_eq; intros y; rewrite elem_of_map, union_empty_r_L, elem_of_list_to_set, list_elem_of_fmap; naive_solver. }
  apply (insert_all_spec _ _ _ Hd3).
  - intros q' (q & -> & Hq)%list_elem_of_fmap. pose proof (proj1 (Hqs q) Hq) as Hq'. destruct (rp_quads S d x Hd q Hq') as (W & F & _).
    specialize (Gq q Hq'). destruct (Quad_parts S q W F) as ((W1 & W2 & W3) & S1 & S2 & S3 & S4).
    destruct (Node_rename_valid _ W1 S1) as [W1' S1']; [intros b Hb; apply Gq; unfold Quad_bnodes; set_solver|].
    destruct (Term_rename_valid _ W2 S3) as [W2' S2']; [intros b Hb; apply Gq; unfold Quad_bnodes; set_solver|].
    destruct (Graph_rename_valid _ W3 S4) as [W3' S3']; [intros b Hb; apply Gq; unfold Quad_bnodes; set_solver|].
    split_and!; [|unfold Quad_strings; cbn [Quad_rename q_subject q_predicate q_object q_graph_name];
      rewrite Forall_app, Forall_cons_iff, Forall_app; done|by apply K2].
    unfold Quad_wf. cbn [Quad_rename q_subject q_predicate q_object q_graph_name]. by rewrite W1', W2', W3'.
  - intros q' n' (q & -> & Hq)%list_elem_of_fmap E. cbn [qs_graphs]. apply elem_of_union_l, elem_of_list_to_set, list_elem_of_fmap.
    cbn [Quad_rename q_graph_name] in E. assert (exists n, graph_node (q_graph_name q) = Some n /\ n' = Node_rename f n) as (n & En & ->).
    { destruct (q_graph_name q) as [n|b|]; simplify_eq/=; [by exists (NodeNamed n)|by exists (NodeBlank b)]. }
    exists n. split; [done|]. apply Hns. apply (rp_quad_graph S d x Hd q n); [by apply Hqs|done].
Qed.
End renaming_facts.

(** ** Blank nodes and their keys *)

Section canonicalize_facts.
  Context {P : InternerParams} (S : bytes -> Prop) {HS : GoodHash S}.
  Context {C : CanonParams} {HC : CanonLaws C}.

Lemma node_blanks_key n k : k ∈ node_blanks (Node_key n) <-> exists b, k = Blank_key b /\ b ∈ Node_bnodes n.
Proof. destruct n as [n|b]; cbn [Node_key node_blanks Node_bnodes]; set_solver. Qed.
Lemma graph_blanks_key g k : k ∈ graph_blanks (Graph_key g) <-> exists b, k = Blank_key b /\ b ∈ Graph_bnodes g.
Proof. destruct g as [n|b|]; cbn [Graph_key graph_blanks Graph_bnodes]; set_solver. Qed.
Lemma term_blanks_key t k : k ∈ term_blanks (Term_key t) <-> exists b, k = Blank_key b /\ b ∈ Term_bnodes t.
Proof.
  induction t as [n|b|l|s p o IH]; cbn [Term_key term_blanks Term_bnodes]; [set_solver..|].
  rewrite elem_of_union, node_blanks_key, IH. set_solver.
Qed.
Lemma quad_blanks_key q k : k ∈ quad_blanks (Quad_key q) <-> exists b, k = Blank_key b /\ b ∈ Quad_bnodes q.
Proof.
  unfold quad_blanks, Quad_key, Quad_bnodes. rewrite !elem_of_union, node_blanks_key, term_blanks_key, graph_blanks_key. set_solver.
Qed.

Lemma dataset_blanks_key d x k : represents S d x -> dataset_blanks d k <-> exists b, k = Blank_key b /\ b ∈ qs_bnodes x.
Proof.
  intros Hd. unfold dataset_blanks. setoid_rewrite elem_of_qs_bnodes. rewrite (rp_spog S d x Hd), (rp_named S d x Hd). split.
  - intros [(q' & Hq & Hk)|Hk].
    + apply elem_of_map in Hq as (q & -> & Hq). apply quad_blanks_key in Hk as (b & -> & Hb). exists b. split; [done|]. left. by exists q.
    + apply elem_of_map in Hk as ([n|b] & E & Hn); [done|]. injection E as ->. exists b. split; [done|by right].
  - intros (b & -> & [(q & Hq & Hb)|Hb]).
    + left. exists (Quad_key q). split; [by apply elem_of_map_2|]. apply quad_blanks_key. by exists b.
    + right. apply elem_of_map. by exists (NodeBlank b).
Qed.

Lemma Term_bnodes_known it t b : Term_wf t = true -> Term_known it t -> b ∈ Term_bnodes t -> Blank_wf b = true /\ Blank_known it b.
Proof.
  induction t as [n|c|l|s p o IH]; cbn [Term_bnodes]; [set_solver| |set_solver|]; [by intros W K ->%elem_of_singleton|].
  intros [Ws Wo]%andb_prop (Ks & _ & Ko & _) [Hb|Hb]%elem_of_union; [|by apply IH].
  destruct s as [s|c]; cbn [Node_bnodes] in Hb; [set_solver|]. by apply elem_of_singleton in Hb as ->.
Qed.

Lemma bnodes_known d x b : represents S d x -> b ∈ qs_bnodes x -> Blank_wf b = true /\ Blank_known (interner d) b.
Proof.
  intros Hd Hb. apply elem_of_qs_bnodes in Hb as [(q & Hq & Hb)|Hb]; [|apply (rp_graphs S d x Hd) in Hb as (W & _ & K); done].
  destruct (rp_quads S d x Hd q Hq) as (W & F & K1 & _ & K3 & K4). destruct (Quad_parts S q W F) as ((W1 & W2 & W3) & _).
  unfold Quad_bnodes in Hb. apply elem_of_union in Hb as [[Hb|Hb]%elem_of_union|Hb].
  - destruct (q_subject q) as [n|c]; cbn [Node_bnodes] in Hb; [set_solver|]. by apply elem_of_singleton in Hb as ->.
  - by apply (Term_bnodes_known _ (q_object q)).
  - destruct (q_graph_name q) as [n|c|]; cbn [Graph_bnodes] in Hb; [set_solver| |set_solver]. by apply elem_of_singleton in Hb as ->.
Qed.

Lemma bnodes_key_inj d x a b : represents S d x -> a ∈ qs_bnodes x -> b ∈ qs_bnodes x -> Blank_key a = Blank_key b -> a = b.
Proof.
  intros Hd Ha Hb. destruct (bnodes_known d x a Hd Ha) as [Wa Ka], (bnodes_known d x b Hd Hb) as [Wb Kb].
  exact (@ia_key_inj _ S _ _ (BlankNode_interned S) (interner d) a b Wa Wb Ka Kb).
Qed.

(** ** Canonicalization *)

Definition c14n (i : Z) : bytes := str "c14n" ++ print_int i.
Lemma c14n_named i : BlankNode_new_unchecked (c14n i) = BlankNamed (c14n i).
Proof. reflexivity. Qed.
Lemma c14n_wf i : Blank_wf (BlankNamed (c14n i)) = true.
Proof. unfold Blank_wf. cbn [BlankNode_as_str BlankNode_unique_id]. by rewrite c14n_named, bool_decide_true. Qed.

(** A renaming that keeps blank nodes apart. *)
Definition one_to_one (f : RdfBlankNode -> RdfBlankNode) (x : QuadSet) : Prop :=
  forall a b, a ∈ qs_bnodes x -> b ∈ qs_bnodes x -> f a = f b -> a = b.

Lemma dom_blanks_size d x (m : gmap InternedBlankNode RdfBlankNode) :
  represents S d x -> (forall b, b ∈ dom m <-> dataset_blanks d b) -> size m = size (qs_bnodes x).
Proof.
  intros Hd Hm. rewrite <- size_dom.
  assert (dom m = set_map (D := gset InternedBlankNode) Blank_key (qs_bnodes x)) as ->.
  { apply set_eq. intros k. rewrite Hm, (dataset_blanks_key d x k Hd), elem_of_map. naive_solver. }
  apply set_map_size. intros a b Ha Hb. by apply (bnodes_key_inj d x).
Qed.

Lemma keys_size d x : represents S d x -> size (dom (blank_node_to_quads_map (initial_state d))) = size (qs_bnodes x).
Proof.
  intros Hd. transitivity (size (set_map (D := gset InternedBlankNode) Blank_key (qs_bnodes x))).
  - f_equal. apply set_eq. intros k. rewrite (initial_blanks S d x Hd), (dataset_blanks_key d x k Hd), elem_of_map. naive_solver.
  - apply set_map_size. intros a b Ha Hb. by apply (bnodes_key_inj d x).
Qed.

Lemma canonicalize_spec d x algorithm limit :
  represents S d x -> Z.of_nat (size (qs_bnodes x)) < 2 ^ 32 ->
  (forall m k n, canonicalize_interned_blank_nodes d algorithm limit = Ok m -> m !! k = Some n -> Blank_wf n = true /\ Forall S (Blank_strings n)) ->
  match canonicalize d algorithm limit with
  | Ok d' => exists m f, canonicalize_interned_blank_nodes d algorithm limit = Ok m /\ canonical_names d algorithm m
      /\ one_to_one f x /\ (forall b, b ∈ qs_bnodes x -> m !! Blank_key b = Some (f b)) /\ represents S d' (QuadSet_rename f x)
  | Err e => exists maximum, e = TooManyNDegreeCalls maximum
  end.
Proof.
  intros Hd Hsz Hv. unfold canonicalize. rewrite <- (keys_size d x Hd) in Hsz.
  pose proof (canonicalize_interned_spec S d x Hd Hsz algorithm limit) as Hn.
  destruct (canonicalize_interned_blank_nodes d algorithm limit) as [m|e]; [|exact Hn]. cbn [mbind result_bind].
  set (f := fun b => default b (m !! Blank_key b)).
  assert (forall b, b ∈ qs_bnodes x -> m !! Blank_key b = Some (f b)) as Hf.
  { intros b Hb. assert (Blank_key b ∈ dom m) as [n En]%elem_of_dom; [|unfold f; by rewrite En].
    destruct Hn as [Hdom _]. apply Hdom, (dataset_blanks_key d x _ Hd). by exists b. }
  destruct (rename_dataset_spec S m f d x Hd) as (d' & E & Hd').
  { intros b Hb. specialize (Hf b Hb). destruct (Hv m _ _ eq_refl Hf). done. }
  rewrite E. cbn [ok_or]. exists m, f. split; [done|]. split; [done|]. split; [|done].
  intros a b Ha Hb Eab. apply (bnodes_key_inj d x a b Hd Ha Hb). destruct Hn as (_ & Hinj & _).
  apply (Hinj _ _ (f a)); [by apply Hf|]. rewrite Eab. by apply Hf.
Qed.

(** The names of the algorithms but the hashed ids. *)
Lemma c14n_names d x algorithm m k n :
  represents S d x -> algorithm <> UnstableHashedIds -> canonical_names d algorithm m -> m !! k = Some n ->
  exists i, 0 <= i < Z.of_nat (size (qs_bnodes x)) /\ n = BlankNamed (c14n i).
Proof.
  intros Hd Ha (Hdom & _ & Hn) Hk. destruct (Hn Ha k n Hk) as (i & Hi & ->). exists i. rewrite (dom_blanks_size d x m Hd Hdom) in Hi.
  split; [done|apply c14n_named].
Qed.

Lemma canonicalize_c14n d x algorithm limit :
  represents S d x -> algorithm <> UnstableHashedIds -> Z.of_nat (size (qs_bnodes x)) < 2 ^ 32 ->
  (forall i, 0 <= i < Z.of_nat (size (qs_bnodes x)) -> S (c14n i)) ->
  match canonicalize d algorithm limit with
  | Ok d' => exists f, one_to_one f x
      /\ (forall b, b ∈ qs_bnodes x -> exists i, 0 <= i < Z.of_nat (size (qs_bnodes x)) /\ f b = BlankNamed (c14n i))
      /\ represents S d' (QuadSet_rename f x)
  | Err e => exists maximum, e = TooManyNDegreeCalls maximum
  end.
Proof.
  intros Hd Ha Hsz Hnames.
  assert (forall m k n, canonicalize_interned_blank_nodes d algorithm limit = Ok m -> m !! k = Some n -> Blank_wf n = true /\ Forall S (Blank_strings n)) as Hv.
  { intros m k n E Hk. pose proof (canonicalize_interned_spec S d x Hd) as Hi. rewrite (keys_size d x Hd) in Hi.
    specialize (Hi Hsz algorithm limit). rewrite E in Hi. destruct (c14n_names d x algorithm m k n Hd Ha Hi Hk) as (i & Hr & ->).
    split; [apply c14n_wf|]. apply Forall_singleton. by apply Hnames. }
  pose proof (canonicalize_spec d x algorithm limit Hd Hsz Hv) as Hs. destruct (canonicalize d algorithm limit) as [d'|e]; [|exact Hs]. destruct Hs as (m & f & E & Hn & H1 & H2 & H3).
  exists f. split; [done|]. split; [|done]. intros b Hb. by apply (c14n_names d x algorithm m (Blank_key b)), H2.
Qed.

(** C26. Canonicalization with the algorithms that name by [c14n] and a number, of
    a dataset built by any sequence of changes, with less than 2^32 blank nodes
    and distinct hashes of its strings and of the names: the call never panics.
    Either it gives a dataset that answers every question as the set of quads and
    named graphs, empty ones included, with each blank node renamed, also inside
    triple terms, distinct ones to distinct names among [c14n0] ... [c14n(n-1)]
    for [n] blank nodes; or the budget of calls was exceeded. *)
Theorem canonicalize_renames ops d r algorithm limit :
  let x := (spec_ops (mkQuadSet ∅ ∅) ops).1 in
  Forall (op_valid S) ops -> run_ops Dataset_new ops = Some (d, r) ->
  algorithm <> UnstableHashedIds -> Z.of_nat (size (qs_bnodes x)) < 2 ^ 32 ->
  (forall i, 0 <= i < Z.of_nat (size (qs_bnodes x)) -> S (c14n i)) ->
  match canonicalize d algorithm limit with
  | Ok d' => exists f, one_to_one f x
      /\ (forall b, b ∈ qs_bnodes x -> exists i, 0 <= i < Z.of_nat (size (qs_bnodes x)) /\ f b = BlankNamed (c14n i))
      /\ answers S d' (QuadSet_rename f x)
  | Err e => exists maximum, e = TooManyNDegreeCalls maximum
  end.
Proof.
  intros x Hv Hr Ha Hsz Hn. destruct (run_ops_spec S ops Dataset_new (mkQuadSet ∅ ∅) (represents_new S) Hv) as (e & E & Hd).
  rewrite Hr in E. injection E as -> _. pose proof (canonicalize_c14n e x algorithm limit Hd Ha Hsz Hn) as Hc.
  destruct (canonicalize e algorithm limit) as [d'|]; [|exact Hc]. destruct Hc as (f & H1 & H2 & H3). exists f.
  split; [done|]. split; [done|]. by apply (represents_answers S).
Qed.
End canonicalize_facts.

(** ** Isomorphism *)

Lemma Node_rename_compose g f n : Node_rename g (Node_rename f n) = Node_rename (g ∘ f) n.
Proof. by destruct n. Qed.
Lemma Term_rename_compose g f t : Term_rename g (Term_rename f t) = Term_rename (g ∘ f) t.
Proof. induction t as [n|b|l|s p o IH]; try done. cbn [Term_rename]. by rewrite IH, Node_rename_compose. Qed.
Lemma Quad_rename_compose g f q : Quad_rename g (Quad_rename f q) = Quad_rename (g ∘ f) q.
Proof.
  destruct q as [s p o k]. unfold Quad_rename. cbn [q_subject q_predicate q_object q_graph_name].
  rewrite Node_rename_compose, Term_rename_compose. by destruct k.
Qed.
Lemma QuadSet_rename_compose g f x : QuadSet_rename g (QuadSet_rename f x) = QuadSet_rename (g ∘ f) x.
Proof.
  unfold QuadSet_rename. cbn [qs_quads qs_graphs]. f_equal; apply set_eq; intros y; rewrite !elem_of_map; setoid_rewrite elem_of_map; split.
  - intros (? & -> & q & -> & Hq). exists q. by rewrite Quad_rename_compose.
  - intros (q & -> & Hq). eexists. split; [symmetry; apply Quad_rename_compose|]. by exists q.
  - intros (? & -> & n & -> & Hn). exists n. by rewrite Node_rename_compose.
  - intros (n & -> & Hn). eexists. split; [symmetry; apply Node_rename_compose|]. by exists n.
Qed.

Lemma Node_rename_id f n : (forall b, b ∈ Node_bnodes n -> f b = b) -> Node_rename f n = n.
Proof. destruct n as [n|b]; [done|]. intros H. cbn [Node_rename]. by rewrite H by set_solver. Qed.
Lemma Term_rename_id f t : (forall b, b ∈ Term_bnodes t -> f b = b) -> Term_rename f t = t.
Proof.
  induction t as [n|b|l|s p o IH]; try done; cbn [Term_rename Term_bnodes]; intros H; [by rewrite H by set_solver|].
  rewrite IH, Node_rename_id by set_solver. done.
Qed.
Lemma Quad_rename_id f q : (forall b, b ∈ Quad_bnodes q -> f b = b) -> Quad_rename f q = q.
Proof.
  destruct q as [s p o k]. unfold Quad_rename, Quad_bnodes. cbn [q_subject q_predicate q_object q_graph_name]. intros H.
  rewrite Node_rename_id, Term_rename_id by set_solver. destruct k as [n|b|]; try done. cbn [Graph_rename]. by rewrite H by set_solver.
Qed.
Lemma QuadSet_rename_id f x : (forall b, b ∈ qs_bnodes x -> f b = b) -> QuadSet_rename f x = x.
Proof.
  intros H. destruct x as [qs ns]. unfold QuadSet_rename. cbn [qs_quads qs_graphs].
  assert (forall q, q ∈ qs -> Quad_rename f q = q) as Hq.
  { intros q Hin. apply Quad_rename_id. intros b Hb. apply H, elem_of_qs_bnodes. left. by exists q. }
  assert (forall n, n ∈ ns -> Node_rename f n = n) as Hn.
  { intros n Hin. apply Node_rename_id. intros b Hb. apply H. apply elem_of_union_r, elem_of_set_bind. by exists n. }
  f_equal; apply set_eq; intros y; rewrite elem_of_map.
  - split; [intros (q & -> & Hin); by rewrite Hq|]. intros Hin. exists y. by rewrite Hq.
  - split; [intros (n & -> & Hin); by rewrite Hn|]. intros Hin. exists y. by rewrite Hn.
Qed.

Lemma Node_rename_bnodes f n : Node_bnodes (Node_rename f n) = set_map f (Node_bnodes n).
Proof. destruct n as [n|b]; cbn [Node_rename Node_bnodes]; [by rewrite set_map_empty|by rewrite set_map_singleton_L]. Qed.
Lemma Term_rename_bnodes f t : Term_bnodes (Term_rename f t) = set_map f (Term_bnodes t).
Proof.
  induction t as [n|b|l|s p o IH]; cbn [Term_rename Term_bnodes]; [by rewrite set_map_empty|by rewrite set_map_singleton_L|by rewrite set_map_empty|].
  by rewrite IH, Node_rename_bnodes, set_map_union_L.
Qed.
Lemma Quad_rename_bnodes f q : Quad_bnodes (Quad_rename f q) = set_map f (Quad_bnodes q).
Proof.
  unfold Quad_bnodes. cbn [Quad_rename q_subject q_object q_graph_name]. rewrite !set_map_union_L, Node_rename_bnodes, Term_rename_bnodes.
  f_equal. destruct (q_graph_name q); cbn [Graph_rename Graph_bnodes]; [by rewrite set_map_empty|by rewrite set_map_singleton_L|by rewrite set_map_empty].
Qed.
Lemma elem_of_rename_bnodes f x b : b ∈ qs_bnodes x -> f b ∈ qs_bnodes (QuadSet_rename f x).
Proof.
  rewrite !elem_of_qs_bnodes. cbn [QuadSet_rename qs_quads qs_graphs]. intros [(q & Hq & Hb)|Hb].
  - left. exists (Quad_rename f q). split; [by apply elem_of_map_2|]. rewrite Quad_rename_bnodes. by apply elem_of_map_2.
  - right. apply elem_of_map. by exists (NodeBlank b).
Qed.
Lemma elem_of_rename_bnodes_inv f x c : c ∈ qs_bnodes (QuadSet_rename f x) -> exists b, c = f b /\ b ∈ qs_bnodes x.
Proof.
  setoid_rewrite elem_of_qs_bnodes. cbn [QuadSet_rename qs_quads qs_graphs]. intros [(q' & (q & -> & Hq)%elem_of_map & Hc)|Hc].
  - rewrite Quad_rename_bnodes in Hc. apply elem_of_map in Hc as (b & -> & Hb). exists b. split; [done|]. left. by exists q.
  - apply elem_of_map in Hc as ([n|b] & E & Hb); [done|]. injection E as ->. exists b. split; [done|by right].
Qed.

(** A renaming of one onto the other that keeps blank nodes apart. *)
Definition isomorphic (x y : QuadSet) : Prop := exists h, one_to_one h x /\ QuadSet_rename h x = y.

(** The inverse of a renaming, on the blank nodes of a set. *)
Definition rename_back (g : RdfBlankNode -> RdfBlankNode) (y : QuadSet) (c : RdfBlankNode) : RdfBlankNode :=
  default c (head (filter (fun b => g b = c) (elements (qs_bnodes y)))).
Lemma rename_back_spec g y b : one_to_one g y -> b ∈ qs_bnodes y -> rename_back g y (g b) = b.
Proof.
  intros Hg Hb. unfold rename_back. assert (b ∈ filter (fun b' => g b' = g b) (elements (qs_bnodes y))) as Hin.
  { apply list_elem_of_filter. split; [done|by apply elem_of_elements]. }
  destruct (filter _ _) as [|b' l] eqn:E; [by apply elem_of_nil in Hin|]. simpl.
  assert (b' ∈ filter (fun b' => g b' = g b) (elements (qs_bnodes y))) as [Hgb Hb']%list_elem_of_filter by (rewrite E; set_solver).
  apply elem_of_elements in Hb'. by apply Hg.
Qed.

Lemma common_renaming_isomorphic f g x y :
  one_to_one f x -> one_to_one g y -> QuadSet_rename f x = QuadSet_rename g y -> isomorphic x y.
Proof.
  intros Hf Hg E. exists (rename_back g y ∘ f). split.
  - intros a b Ha Hb Eab. apply Hf; [done..|]. apply (elem_of_rename_bnodes f) in Ha, Hb. rewrite E in Ha, Hb.
    apply elem_of_rename_bnodes_inv in Ha as (a' & Ea & Ha'), Hb as (b' & Eb & Hb'). cbn [compose] in Eab.
    rewrite Ea, Eb, !rename_back_spec in Eab by done. congruence.
  - rewrite <- QuadSet_rename_compose, E, QuadSet_rename_compose. apply QuadSet_rename_id. intros b Hb. by apply rename_back_spec.
Qed.

Section isomorphism.
  Context {P1 P2 : InternerParams} (S : bytes -> Prop) {HS1 : @GoodHash P1 S} {HS2 : @GoodHash P2 S}.
  Context {C1 C2 : CanonParams} {HC1 : CanonLaws C1} {HC2 : CanonLaws C2}.

(** C25. [is_isomorphic_to] on datasets built by any sequences of changes, with
    less than 2^32 blank nodes each, whatever the two datasets' hash functions
    and orders of maps: it never panics, and when it answers yes there is a
    one-to-one renaming of the blank nodes of the first that gives exactly the
    quads and the named graphs of the second; its only error is an exceeded
    budget of calls. *)
Theorem is_isomorphic_to_sound ops1 ops2 d1 d2 r1 r2 :
  let x := (spec_ops (mkQuadSet ∅ ∅) ops1).1 in
  let y := (spec_ops (mkQuadSet ∅ ∅) ops2).1 in
  Forall (op_valid S) ops1 -> Forall (op_valid S) ops2 ->
  run_ops (P := P1) Dataset_new ops1 = Some (d1, r1) -> run_ops (P := P2) Dataset_new ops2 = Some (d2, r2) ->
  Z.of_nat (size (qs_bnodes x)) < 2 ^ 32 -> Z.of_nat (size (qs_bnodes y)) < 2 ^ 32 ->
  (forall i, 0 <= i < Z.of_nat (size (qs_bnodes x)) \/ 0 <= i < Z.of_nat (size (qs_bnodes y)) -> S (c14n i)) ->
  match is_isomorphic_to (P := P1) (P' := P2) (C := C1) (C' := C2) d1 d2 with
  | Ok answer => answer = true -> isomorphic x y
  | Err e => exists maximum, e = TooManyNDegreeCalls maximum
  end.
Proof.
  intros x y V1 V2 R1 R2 Z1 Z2 Hn. unfold is_isomorphic_to.
  destruct (run_ops_spec (P := P1) S ops1 Dataset_new (mkQuadSet ∅ ∅) (represents_new S) V1) as (e1 & E1 & H1). rewrite R1 in E1. injection E1 as <- _.
  destruct (run_ops_spec (P := P2) S ops2 Dataset_new (mkQuadSet ∅ ∅) (represents_new S) V2) as (e2 & E2 & H2). rewrite R2 in E2. injection E2 as <- _.
  destruct (_ || _); [done|].
  pose proof (canonicalize_c14n (P := P1) (C := C1) S d1 x Unstable LimitDefault H1 ltac:(done) Z1 (fun i Hi => Hn i (or_introl Hi))) as Hc1.
  destruct (canonicalize (P := P1) (C := C1) d1 Unstable LimitDefault) as [c1|]; [|exact Hc1]. destruct Hc1 as (f & If & _ & Rf). cbn [mbind result_bind].
  pose proof (canonicalize_c14n (P := P2) (C := C2) S d2 y Unstable LimitDefault H2 ltac:(done) Z2 (fun i Hi => Hn i (or_intror Hi))) as Hc2.
  destruct (canonicalize (P := P2) (C := C2) d2 Unstable LimitDefault) as [c2|]; [|exact Hc2]. destruct Hc2 as (g & Ig & _ & Rg). cbn [mbind result_bind].
  rewrite (Dataset_eq_spec S c1 _ c2 _ Rf Rg). cbn [ok_or]. intros He%bool_decide_eq_true. by apply (common_renaming_isomorphic f g).
Qed.
End isomorphism.

(** * Canonicalization on concrete datasets

    The witnesses of the theorems on canonicalization, and the datasets on which
    the answer depends on the order of a hash map: blank nodes related through a
    triple term inside another one. *)

(** ** Parameters *)

(** The keys of a map, one of them moved to the front. *)
Definition keys_with_first (first : option InternedBlankNode) (m : gmap InternedBlankNode (list InternedQuad)) : list InternedBlankNode :=
  let keys := btree_elements (dom m) in
  filter (fun k => Some k = first) keys ++ filter (fun k => Some k <> first) keys.
Definition canon_params (first : option InternedBlankNode) : CanonParams := {|
  hex_sha256 s := print_int (sample_hash s);
  hex_sha384 s := print_int (sample_hash s);
  default_hasher := sample_hash;
  hash_map_keys := keys_with_first first;
  sort_unstable_by_hash := sort_by snd
|}.

Lemma filter_split {A : Type} (Q : A -> Prop) `{!forall a, Decision (Q a)} (l : list A) : filter Q l ++ filter (fun a => ~ Q a) l ≡ₚ l.
Proof.
  induction l as [|a l IH]; [done|]. rewrite !filter_cons. destruct (decide (Q a)) as [Ha|Ha].
  - rewrite (decide_False (P := ~ Q a)) by (by intros []). cbn [app]. by rewrite IH.
  - rewrite decide_True by done. by rewrite <- Permutation_middle, IH.
Qed.
#[global] Instance canon_laws first : CanonLaws (canon_params first).
Proof.
  split; simpl.
  - intros m. unfold keys_with_first. rewrite filter_split. apply sort_by_perm.
  - intros l. apply sort_by_perm.
Qed.

(** ** Data *)

Definition bn (s : string) : RdfBlankNode := BlankNode_new_unchecked (str s).
Definition canon_strings : list bytes := [nn_iri ex_a; nn_iri ex_b; c14n 0; c14n 1; c14n 2; c14n 3].
Definition canon_set (s : bytes) : Prop := s ∈ canon_strings.
#[global] Instance canon_set_dec (s : bytes) : Decision (canon_set s).
Proof. unfold canon_set. apply _. Defined.
#[global] Instance canon_good : GoodHash canon_set.
Proof.
  split.
  - intros s Hs. assert (Forall (fun s => 0 <= hash_one s <= u64_max) canon_strings) as Hall by (apply (bool_decide_unpack _); vm_compute; exact I).
    by apply (proj1 (list.Forall_forall _ _) Hall).
  - intros a b Ha Hb. assert (Forall (fun a => Forall (fun b => hash a = hash b -> a = b) canon_strings) canon_strings) as Hall
      by (apply (bool_decide_unpack _); vm_compute; exact I).
    pose proof (proj1 (list.Forall_forall _ _) Hall a Ha) as Ha'. by apply (proj1 (list.Forall_forall _ _) Ha').
Qed.

(** Two nodes that point at each other, and a graph named by one of them. *)
Definition pair_ops (x y : RdfBlankNode) : list dataset_op :=
  [OpInsert (mkQuad (NodeBlank x) ex_a (TermBlankNode y) GraphDefault);
   OpInsert (mkQuad (NodeBlank y) ex_a (TermBlankNode x) GraphDefault);
   OpInsertGraph (NodeBlank x)].

Definition pair_set (x y : RdfBlankNode) : QuadSet := (spec_ops (mkQuadSet ∅ ∅) (pair_ops x y)).1.

Lemma pair_valid (x y : RdfBlankNode) :
  Blank_wf x = true -> Blank_wf y = true -> Blank_strings x = [] -> Blank_strings y = [] -> Forall (op_valid canon_set) (pair_ops x y).
Proof.
  intros Wx Wy Sx Sy. assert (canon_set (nn_iri ex_a)) by (apply (bool_decide_unpack _); vm_compute; exact I).
  repeat first [apply Forall_nil_2 | apply Forall_cons_2]; cbn [op_valid]; split;
    unfold Quad_wf, Quad_strings; cbn [q_subject q_predicate q_object q_graph_name Node_wf Term_wf Graph_wf Node_strings Term_strings Graph_strings];
    rewrite ?Wx, ?Wy, ?Sx, ?Sy; repeat constructor; done.
Qed.
Lemma pair_size : size (qs_bnodes (pair_set (bn "aa") (bn "ab"))) = 2%nat /\ size (qs_bnodes (pair_set (bn "ff") (bn "ee"))) = 2%nat.
Proof. vm_compute. done. Qed.
Lemma pair_names (i : Z) : 0 <= i < 2 -> canon_set (c14n i).
Proof. intros Hi. assert (i = 0 \/ i = 1) as [-> | ->] by lia; apply (bool_decide_unpack _); vm_compute; exact I. Qed.

Definition pair_dataset (x y : RdfBlankNode) : Dataset := default Dataset_new (fst <$> run_ops Dataset_new (pair_ops x y)).
Lemma pair_run (x y : RdfBlankNode) :
  Forall (op_valid canon_set) (pair_ops x y) -> exists r, run_ops Dataset_new (pair_ops x y) = Some (pair_dataset x y, r).
Proof.
  intros Hv. destruct (run_ops_spec canon_set (pair_ops x y) Dataset_new (mkQuadSet ∅ ∅) (represents_new canon_set) Hv) as (d & E & _).
  eexists. unfold pair_dataset. rewrite E. reflexivity.
Qed.

(** ** Witnesses *)

Lemma canonicalize_renames_witness :
  exists d' f, canonicalize (C := canon_params None) (pair_dataset (bn "aa") (bn "ab")) (Rdfc10 Sha256) (LimitWorkFactor 1) = Ok d'
    /\ one_to_one f (pair_set (bn "aa") (bn "ab")) /\ answers canon_set d' (QuadSet_rename f (pair_set (bn "aa") (bn "ab"))).
Proof.
  pose proof (pair_valid (bn "aa") (bn "ab") eq_refl eq_refl eq_refl eq_refl) as Hv. destruct (pair_run _ _ Hv) as [r Hr].
  destruct pair_size as [Hs _].
  pose proof (canonicalize_renames (C := canon_params None) canon_set (pair_ops (bn "aa") (bn "ab")) _ r (Rdfc10 Sha256) (LimitWorkFactor 1) Hv Hr) as H.
  change ((spec_ops (mkQuadSet ∅ ∅) (pair_ops (bn "aa") (bn "ab"))).1) with (pair_set (bn "aa") (bn "ab")) in H.
  rewrite Hs in H. specialize (H ltac:(discriminate) ltac:(lia) pair_names).
  assert (match canonicalize (C := canon_params None) (pair_dataset (bn "aa") (bn "ab")) (Rdfc10 Sha256) (LimitWorkFactor 1) with Ok _ => true | Err _ => false end = true) as Hok
    by (vm_compute; reflexivity).
  destruct (canonicalize (C := canon_params None) (pair_dataset (bn "aa") (bn "ab")) (Rdfc10 Sha256) (LimitWorkFactor 1)) as [d'|e]; [|discriminate Hok].
  destruct H as (f & H1 & _ & H2). exists d', f. split; [reflexivity|split; [exact H1|exact H2]].
Defined.

Lemma is_isomorphic_to_sound_witness :
  is_isomorphic_to (C := canon_params None) (C' := canon_params None) (pair_dataset (bn "aa") (bn "ab")) (pair_dataset (bn "ff") (bn "ee")) = Ok true
  /\ isomorphic (pair_set (bn "aa") (bn "ab")) (pair_set (bn "ff") (bn "ee")).
Proof.
  pose proof (pair_valid (bn "aa") (bn "ab") eq_refl eq_refl eq_refl eq_refl) as V1. destruct (pair_run _ _ V1) as [r1 R1].
  pose proof (pair_valid (bn "ff") (bn "ee") eq_refl eq_refl eq_refl eq_refl) as V2. destruct (pair_run _ _ V2) as [r2 R2].
  destruct pair_size as [S1 S2].
  pose proof (is_isomorphic_to_sound (C1 := canon_params None) (C2 := canon_params None) canon_set _ _ _ _ r1 r2 V1 V2 R1 R2) as H.
  change ((spec_ops (mkQuadSet ∅ ∅) (pair_ops (bn "aa") (bn "ab"))).1) with (pair_set (bn "aa") (bn "ab")) in H.
  change ((spec_ops (mkQuadSet ∅ ∅) (pair_ops (bn "ff") (bn "ee"))).1) with (pair_set (bn "ff") (bn "ee")) in H.
  rewrite S1, S2 in H. specialize (H ltac:(lia) ltac:(lia) ltac:(intros i [Hi|Hi]; exact (pair_names i Hi))).
  assert (is_isomorphic_to (C := canon_params None) (C' := canon_params None) (pair_dataset (bn "aa") (bn "ab")) (pair_dataset (bn "ff") (bn "ee")) = Ok true) as Hok
    by (vm_compute; reflexivity).
  split; [exact Hok|]. rewrite Hok in H. exact (H eq_refl).
Defined.

(** ** Relations inside nested triple terms *)

(** Short names and small hashes. *)
Definition short_params : InternerParams := {| hash_one s := sample_hash s mod 64 |}.
Definition nn_u : RdfNamedNode := mkNamedNode (str "u:").
Definition inner (x y : RdfBlankNode) : RdfTerm := TermTriple (NodeBlank x) nn_u (TermBlankNode y).
Definition outer (t : RdfTerm) : RdfTerm := TermTriple (NodeNamed nn_u) nn_u t.
Definition two_terms (term : RdfBlankNode -> RdfBlankNode -> RdfTerm) : list dataset_op :=
  (fun b => OpInsert (mkQuad (NodeNamed nn_u) nn_u (term b.1 b.2) GraphDefault)) <$> [(bn "a1", bn "b1"); (bn "a2", bn "b2")].
(** A dataset against itself, with two orders of its hash map. *)
Definition compare_to_itself (ops : list dataset_op) : option (result CanonFailure bool) :=
  r ← run_ops (P := short_params) Dataset_new ops;
  Some (is_isomorphic_to (P := short_params) (P' := short_params) (C := canon_params None)
    (C' := canon_params (Some (Blank_key (P := short_params) (bn "b2")))) r.1 r.1).

(** Two blank nodes related by a triple term that is inside another one: nothing
    relates them for the algorithm, and a dataset may not be isomorphic to
    itself; one level up it is. *)
Lemma nested_terms_not_related :
  compare_to_itself (two_terms (fun x y => outer (inner x y))) = Some (Ok false)
  /\ compare_to_itself (two_terms inner) = Some (Ok true).
Proof. vm_compute. done. Qed.
