(* ===== verification/DatalogRdf.v ===== *)
(** * Datalog over RDF datasets

    lib/oxdatalog/src/rdf.rs: quads as facts of a relation of four columns, the
    compilation of the programs whose quad atoms have fixed predicates to one
    relation for each predicate, and the evaluation of a program over a dataset. *)
From stdpp Require Import gmap.
From S2P Require Import Prelude MachineInt RustStr BTree RdfModel RdfDisplay.
From S2P Require Import DatalogIr StateResult DatalogValidate DatalogControl DatalogStorage.
From S2P Require Import DatalogRules DatalogEngine.
From S2P Require OxInterning OxDataset.

Abbreviation Dataset := OxDataset.Dataset (only parsing).
Abbreviation InternerParams := OxInterning.InternerParams (only parsing).

(** ** Quads and facts *)

Definition QUAD_RELATION_IRI : bytes := str "urn:oxigraph:relation:rdf-quad".
Definition D0_PROFILE : bytes := str "datalog-d0".
Definition D1_PROFILE : bytes := str "datalog-d1".
Definition D2_PROFILE : bytes := str "datalog-d2".

Definition quad_relation : RelationId := QUAD_RELATION_IRI.
Definition quad_atom (subject predicate object graph_name : PatternTerm) : Atom :=
  mkAtom quad_relation [subject; predicate; object; graph_name].

Definition graph_value (g : RdfGraphName) : Value :=
  match g with
  | GraphNamedNode n => VTerm (TermNamedNode n)
  | GraphBlankNode n => VTerm (TermBlankNode n)
  | GraphDefault => VDefaultGraph
  end.
Definition fact_from_quad (q : RdfQuad) : Fact :=
  mkFact quad_relation
    [VTerm (Term_from_node (q_subject q)); VTerm (TermNamedNode (q_predicate q)); VTerm (q_object q); graph_value (q_graph_name q)].

Inductive RdfAdapterError : Set :=
| AdapterRelation (relation : RelationId)
| AdapterArity (arity : Z)
| AdapterSubject
| AdapterPredicate
| AdapterObject
| AdapterGraphName
| PredicateRelationCollision (relation : RelationId) (left right : RdfNamedNode)
| ReservedPredicateRelation (relation : RelationId).

Definition quad_subject_from (v : Value) : result RdfAdapterError RdfNamedOrBlankNode :=
  match v with
  | VTerm (TermNamedNode node) => Ok (NodeNamed node)
  | VTerm (TermBlankNode node) => Ok (NodeBlank node)
  | _ => Err AdapterSubject
  end.
Definition quad_predicate_from (v : Value) : result RdfAdapterError RdfNamedNode :=
  match v with VTerm (TermNamedNode node) => Ok node | _ => Err AdapterPredicate end.
Definition quad_object_from (v : Value) : result RdfAdapterError RdfTerm :=
  match v with VTerm object => Ok object | VDefaultGraph => Err AdapterObject end.
Definition quad_graph_from (v : Value) : result RdfAdapterError RdfGraphName :=
  match v with
  | VDefaultGraph => Ok GraphDefault
  | VTerm (TermNamedNode node) => Ok (GraphNamedNode node)
  | VTerm (TermBlankNode node) => Ok (GraphBlankNode node)
  | VTerm _ => Err AdapterGraphName
  end.
Definition quad_from_fact (f : Fact) : result RdfAdapterError RdfQuad :=
  if negb (bool_decide (f_relation f = QUAD_RELATION_IRI)) then Err (AdapterRelation (f_relation f))
  else
    match f_values f with
    | [subject; predicate; object; graph_name] =>
        subject ← quad_subject_from subject;
        predicate ← quad_predicate_from predicate;
        object ← quad_object_from object;
        graph_name ← quad_graph_from graph_name;
        Ok (mkQuad subject predicate object graph_name)
    | _ => Err (AdapterArity (Fact_arity f))
    end.

(** [RdfEvaluationError], and a call of a dataset that does not return. *)
Inductive RdfFailure : Set :=
| RdfEvaluation (e : failure)
| RdfAdapter (e : RdfAdapterError)
| RdfNoReturn.

Section adapter.
  Context {P : DatalogParams} {I : InternerParams}.

(** ** Programs *)

Definition program_profile (program : Program) : bytes :=
  if existsb r_run_once (p_rules program) then D2_PROFILE
  else if existsb (fun rule => negb (is_positive rule)) (p_rules program) then D1_PROFILE
  else D0_PROFILE.

Definition has_fixed_rdf_predicate (a : Atom) : bool :=
  if negb (bool_decide (a_relation a = QUAD_RELATION_IRI)) then true
  else match a_terms a with [_; PConstant (VTerm (TermNamedNode _)); _; _] => true | _ => false end.

Definition predicate_relation (predicate : RdfNamedNode) : RelationId :=
  str "urn:oxigraph:relation:rdf-predicate:" ++ hex_sha256 (nn_iri predicate).

(** The predicates of the relations, registered so far. *)
Abbreviation Predicates := (gmap RelationId RdfNamedNode) (only parsing).

Definition register_predicate (predicates : Predicates) (relation : RelationId) (predicate : RdfNamedNode)
  : result RdfAdapterError Predicates :=
  match predicates !! relation with
  | None => Ok (<[relation := predicate]> predicates)
  | Some registered =>
      if decide (registered = predicate) then Ok predicates
      else Err (PredicateRelationCollision relation registered predicate)
  end.
Definition compile_atom (a : Atom) (predicates : Predicates) : result RdfAdapterError (Atom * Predicates) :=
  if negb (bool_decide (a_relation a = QUAD_RELATION_IRI)) then Ok (a, predicates)
  else
    match a_terms a with
    | [subject; PConstant (VTerm (TermNamedNode predicate)); object; graph] =>
        let relation := predicate_relation predicate in
        predicates ← register_predicate predicates relation predicate;
        Ok (mkAtom relation [subject; object; graph], predicates)
    | _ => Ok (a, predicates)
    end.
(** [map(..).collect::<Result<Vec<_>, _>>()], the predicates threaded through. *)
Fixpoint collect_results {A B : Type} (f : A -> Predicates -> result RdfAdapterError (B * Predicates)) (xs : list A) (predicates : Predicates)
  : result RdfAdapterError (list B * Predicates) :=
  match xs with
  | [] => Ok ([], predicates)
  | x :: xs =>
      r ← f x predicates;
      rs ← collect_results f xs r.2;
      Ok (r.1 :: rs.1, rs.2)
  end.
Definition compile_rule (rule : Rule) (predicates : Predicates) : result RdfAdapterError (Rule * Predicates) :=
  head ← compile_atom (r_head rule) predicates;
  body ← collect_results compile_atom (r_positive_body rule) head.2;
  negative ← collect_results compile_atom (r_negative_body rule) body.2;
  let compiled := Rule_new_stratified (r_id rule) head.1 body.1 negative.1 in
  let compiled := match r_source rule with Some source => with_source compiled source | None => compiled end in
  Ok (if r_run_once rule then run_once compiled else compiled, negative.2).

Record PreparedRdfProgram : Set := mkPrepared {
  pp_program : Program;
  pp_predicates : gmap RelationId RdfNamedNode;
  pp_specialized : bool
}.

(** The registration of the predicates of the dataset. *)
Fixpoint register_quads (predicates : Predicates) (quads : list RdfQuad) : result RdfAdapterError Predicates :=
  match quads with
  | [] => Ok predicates
  | quad :: quads =>
      predicates ← register_predicate predicates (predicate_relation (q_predicate quad)) (q_predicate quad);
      register_quads predicates quads
  end.
Definition user_relations (program : Program) : gset RelationId :=
  list_to_set (a_relation <$> filter (fun a => a_relation a <> QUAD_RELATION_IRI) (p_rules program ≫= rule_atoms)).
Definition is_specialized (program : Program) : bool :=
  match p_rules program with
  | [] => false
  | rules => forallb (fun rule => forallb has_fixed_rdf_predicate (rule_atoms rule)) rules
  end.
Definition adapt {A : Type} (r : result RdfAdapterError A) : result RdfFailure A := map_err RdfAdapter r.
Definition returns {A : Type} (o : option A) : result RdfFailure A := ok_or RdfNoReturn o.

Definition PreparedRdfProgram_new (program : Program) (base : Dataset) : result RdfFailure PreparedRdfProgram :=
  if negb (is_specialized program) then Ok (mkPrepared program ∅ false)
  else
    compiled ← adapt (collect_results compile_rule (p_rules program) ∅);
    let '(rules, predicates) := compiled in
    quads ← returns (OxDataset.Dataset_iter base);
    predicates ← adapt (register_quads predicates quads);
    match list_find (fun relation => relation ∈ user_relations program) (btree_elements (dom predicates)) with
    | Some (_, relation) => Err (RdfAdapter (ReservedPredicateRelation relation))
    | None => Ok (mkPrepared (mkProgram rules) predicates true)
    end.

Definition prepared_fact_from_quad (prepared : PreparedRdfProgram) (q : RdfQuad) : Fact :=
  if negb (pp_specialized prepared) then fact_from_quad q
  else mkFact (predicate_relation (q_predicate q)) [VTerm (Term_from_node (q_subject q)); VTerm (q_object q); graph_value (q_graph_name q)].
Definition prepared_quad_from_fact (prepared : PreparedRdfProgram) (f : Fact) : result RdfAdapterError (option RdfQuad) :=
  if negb (pp_specialized prepared) then
    if bool_decide (f_relation f = QUAD_RELATION_IRI) then Some <$> quad_from_fact f else Ok None
  else
    match pp_predicates prepared !! f_relation f with
    | None => Ok None
    | Some predicate =>
        match f_values f with
        | [subject; object; graph] =>
            Some <$> quad_from_fact (mkFact quad_relation [subject; VTerm (TermNamedNode predicate); object; graph])
        | _ => Err (AdapterArity (Fact_arity f))
        end
    end.

(** ** Evaluation *)

(** [EntailedDataset] is its union. *)
Record RdfClosure : Set := mkClosure {
  rc_profile : bytes;
  rc_base : Dataset;
  rc_inference : Dataset;
  rc_union : Dataset;
  rc_evaluation : EvaluationResult
}.

Fixpoint insert_derived (prepared : PreparedRdfProgram) (inference : Dataset) (facts : list Fact) : result RdfFailure Dataset :=
  match facts with
  | [] => Ok inference
  | f :: facts =>
      q ← adapt (prepared_quad_from_fact prepared f);
      inference ← match q with
                  | Some q => fst <$> returns (OxDataset.Dataset_insert inference q)
                  | None => Ok inference
                  end;
      insert_derived prepared inference facts
  end.

Definition rdf_evaluate (env : Environment) (program : Program) (base : Dataset) (options : EvaluationOptions)
  : result RdfFailure RdfClosure :=
  prepared ← PreparedRdfProgram_new program base;
  quads ← returns (OxDataset.Dataset_iter base);
  evaluation ← map_err RdfEvaluation (Engine_evaluate env options ValidationLimits_default (pp_program prepared)
                                        (prepared_fact_from_quad prepared <$> quads));
  inference ← insert_derived prepared OxDataset.Dataset_new (er_derived_facts evaluation);
  derived ← returns (OxDataset.Dataset_iter inference);
  union ← returns (OxDataset.Dataset_extend base derived);
  Ok (mkClosure (program_profile program) base inference union evaluation).

(** ** The receipt *)

Record RdfReceipt : Set := mkReceipt {
  rr_profile : bytes;
  rr_base_quads : Z;
  rr_derived_quads : Z;
  rr_iterations : Z;
  rr_estimated_memory_bytes : Z;
  rr_canonical_inference_nquads : bytes
}.

Definition newline : bytes := [byte_of_Z 10].
(** [\[String\]::join] *)
Fixpoint join_lines (lines : list bytes) : bytes :=
  match lines with
  | [] => []
  | [line] => line
  | line :: lines => line ++ newline ++ join_lines lines
  end.
Definition canonical_inference_nquads (c : RdfClosure) : option bytes :=
  quads ← OxDataset.Dataset_iter (rc_inference c);
  let lines := sort_by (fun line => line) (Quad_to_string <$> quads) in
  Some (match lines with [] => [] | _ => join_lines lines ++ newline end).
Definition RdfClosure_receipt (c : RdfClosure) : option RdfReceipt :=
  base ← OxDataset.Dataset_iter (rc_base c);
  derived ← OxDataset.Dataset_iter (rc_inference c);
  text ← canonical_inference_nquads c;
  Some (mkReceipt (rc_profile c) (len base) (len derived) (er_iterations (rc_evaluation c))
          (estimated_memory_bytes (rc_evaluation c)) text).
Definition canonical_text (r : RdfReceipt) : bytes :=
  str "profile=" ++ rr_profile r ++ newline ++ str "base-quads=" ++ print_nat (rr_base_quads r) ++ newline
  ++ str "derived-quads=" ++ print_nat (rr_derived_quads r) ++ newline ++ str "iterations=" ++ print_nat (rr_iterations r) ++ newline
  ++ str "estimated-memory-bytes=" ++ print_nat (rr_estimated_memory_bytes r) ++ newline ++ str "---" ++ newline
  ++ rr_canonical_inference_nquads r.
End adapter.
