(* ===== verification/DatalogRdfFacts.v ===== *)
(** * The closure of a dataset

    Quads round-trip through facts.  The compilation of a program to one
    relation for each predicate translates atoms and facts one to one, so that
    the evaluation of the compiled program is the closure of the dataset under
    the rules of the program itself; the datasets of the result are that closure. *)
From stdpp Require Import gmap.
From S2P Require Import Prelude MachineInt RustStr BTree RdfModel RdfDisplay DatalogIr.
From S2P Require Import StateResult DatalogValidate DatalogValidateFacts DatalogControl.
From S2P Require Import DatalogStorage DatalogRules DatalogEngine.
From S2P Require Import DatalogInternerFacts DatalogSpec DatalogStratumFacts.
From S2P Require Import DatalogEngineFacts DatalogCorrectness.
From S2P Require OxInterning OxDataset.
From S2P Require Import OxInterningFacts OxDatasetFacts OxDatasetRefinement DatalogRdf.

(** ** Quads and facts *)

Lemma quad_from_fact_spec (f : Fact) (q : RdfQuad) : quad_from_fact f = Ok q <-> f = fact_from_quad q.
Proof.
  split.
  - destruct f as [rel vs]. unfold quad_from_fact. cbn [f_relation f_values]. case_bool_decide as Hr; [|done]. cbn [negb].
    destruct vs as [|s [|p [|o [|g [|]]]]]; try done.
    destruct s as [[n|n|l|? ? ?]|]; try done; destruct p as [[m|m|l|? ? ?]|]; try done; destruct o as [o|]; try done;
      destruct g as [[k|k|l|? ? ?]|]; try done; intros [=<-]; unfold fact_from_quad; rewrite Hr; done.
  - intros ->. destruct q as [[n|n] p o [k|k|]]; done.
Qed.

#[global] Instance fact_from_quad_inj : Inj (=) (=) fact_from_quad.
Proof. intros a b E%quad_from_fact_spec. pose proof (proj2 (quad_from_fact_spec (fact_from_quad a) a) eq_refl). congruence. Qed.

(** ** A translation of facts *)

(** Rules whose atoms are translated: a program and its compilation. *)
Section translation.
  Context (T : Fact -> Fact) (okf : Fact -> Prop) (R : Atom -> Atom -> Prop) (sk : Skolem).
  Hypothesis T_inj : forall f g, okf f -> okf g -> T f = T g -> f = g.
  Hypothesis R_ground : forall a a' σ, R a a' -> ground_atom σ a' = T <$> ground_atom σ a.
  Hypothesis R_ok : forall a a' σ g, R a a' -> ground_atom σ a = Some g -> okf g.
  Hypothesis R_variables : forall a a', R a a' -> atom_variables a = atom_variables a'.
  Hypothesis R_head : forall a a' id σ, R a a' ->
    (mkFact (a_relation a') <$> mapM (head_term sk id σ) (a_terms a')) = T <$> (mkFact (a_relation a) <$> mapM (head_term sk id σ) (a_terms a)).
  Hypothesis R_head_ok : forall a a' id σ f, R a a' -> mkFact (a_relation a) <$> mapM (head_term sk id σ) (a_terms a) = Some f -> okf f.

Record rule_translated (r r' : Rule) : Prop := {
  rt_id : r_id r' = r_id r;
  rt_head : R (r_head r) (r_head r');
  rt_body : Forall2 R (r_positive_body r) (r_positive_body r');
  rt_negative : Forall2 R (r_negative_body r) (r_negative_body r')
}.

Lemma translated_variables r r' : rule_translated r r' -> body_variables (r_positive_body r) = body_variables (r_positive_body r').
Proof.
  intros [_ _ H _]. unfold body_variables. f_equal. induction H as [|a a' l l' Ha _ IH]; [done|]. cbn [mbind list_bind].
  by rewrite IH, (R_variables a a' Ha).
Qed.

Lemma translated_head r r' σ : rule_translated r r' -> head_fact sk r' σ = T <$> head_fact sk r σ.
Proof. intros [Hid Hh _ _]. unfold head_fact. rewrite Hid. by apply R_head. Qed.

Lemma Forall2_in_l {A B : Type} (Q : A -> B -> Prop) l k a : Forall2 Q l k -> a ∈ l -> exists b, b ∈ k /\ Q a b.
Proof.
  intros H Ha. apply list_elem_of_lookup in Ha as [i Hi]. destruct (Forall2_lookup_l _ _ _ _ _ H Hi) as (b & Hb & Hq).
  exists b. split; [by eapply list_elem_of_lookup_2|done].
Qed.
Lemma Forall2_in_r {A B : Type} (Q : A -> B -> Prop) l k b : Forall2 Q l k -> b ∈ k -> exists a, a ∈ l /\ Q a b.
Proof.
  intros H Hb. apply list_elem_of_lookup in Hb as [i Hi]. destruct (Forall2_lookup_r _ _ _ _ _ H Hi) as (a & Ha & Hq).
  exists a. split; [by eapply list_elem_of_lookup_2|done].
Qed.

(** An instance of a rule and its translation, over sets that agree. *)
Lemma fires_translated (M E : Fact -> Prop) r r' σ :
  (forall f, okf f -> M f <-> E (T f)) -> rule_translated r r' -> fires M M r σ <-> fires E E r' σ.
Proof.
  intros HM Hr. pose proof (translated_variables r r' Hr) as Hv. destruct Hr as [_ _ Hb Hn].
  assert (forall a a' g, R a a' -> ground_atom σ a = Some g -> (M g <-> E (T g)) /\ ground_atom σ a' = Some (T g)) as Hg.
  { intros a a' g Ha E1. split; [apply HM; by eapply R_ok|]. by rewrite (R_ground a a' σ Ha), E1. }
  assert (forall a a' g', R a a' -> ground_atom σ a' = Some g' -> exists g, ground_atom σ a = Some g /\ g' = T g) as Hg'.
  { intros a a' g' Ha E1. rewrite (R_ground a a' σ Ha) in E1. apply fmap_Some in E1 as (g & E2 & ->). by exists g. }
  split; intros [H1 H2 H3]; split.
  - by rewrite <- Hv.
  - intros a' Ha'. destruct (Forall2_in_r _ _ _ _ Hb Ha') as (a & Ha & HR). destruct (H2 a Ha) as (g & E1 & HMg).
    destruct (Hg a a' g HR E1) as [He E2]. exists (T g). split; [done|by apply He].
  - intros a' Ha'. destruct (Forall2_in_r _ _ _ _ Hn Ha') as (a & Ha & HR). destruct (H3 a Ha) as (g & E1 & HMg).
    destruct (Hg a a' g HR E1) as [He E2]. exists (T g). split; [done|by rewrite <- He].
  - by rewrite Hv.
  - intros a Ha. destruct (Forall2_in_l _ _ _ _ Hb Ha) as (a' & Ha' & HR). destruct (H2 a' Ha') as (g' & E1 & HEg).
    destruct (Hg' a a' g' HR E1) as (g & E2 & ->). exists g. split; [done|]. by apply (Hg a a' g HR E2).
  - intros a Ha. destruct (Forall2_in_l _ _ _ _ Hn Ha) as (a' & Ha' & HR). destruct (H3 a' Ha') as (g' & E1 & HEg).
    destruct (Hg' a a' g' HR E1) as (g & E2 & ->). exists g. split; [done|]. by rewrite (proj1 (Hg a a' g HR E2)).
Qed.

(** Whether a set of facts is what rules make of an input. *)
Record fixpoint_of (rules : list Rule) (input : Fact -> Prop) (M : Fact -> Prop) : Prop := {
  fx_input : forall f, input f -> M f;
  fx_closed : forall r σ f, r ∈ rules -> fires M M r σ -> head_fact sk r σ = Some f -> M f;
  fx_supported : forall f, M f -> input f \/ exists r σ, r ∈ rules /\ fires M M r σ /\ head_fact sk r σ = Some f;
  fx_least : (forall r, r ∈ rules -> is_positive r = true) -> forall M' : Fact -> Prop, (forall f, input f -> M' f) ->
    (forall r σ f, r ∈ rules -> fires M' M' r σ -> head_fact sk r σ = Some f -> M' f) -> forall f, M f -> M' f
}.

Lemma fixpoint_translated rules rules' (input input' E : Fact -> Prop) :
  Forall2 rule_translated rules rules' -> (forall f, input f -> okf f) -> (forall f', input' f' <-> exists f, input f /\ f' = T f) ->
  fixpoint_of rules' input' E -> fixpoint_of rules input (fun f => okf f /\ E (T f)).
Proof.
  intros Hr Hin Hin' [F1 F2 F3 F4]. assert (forall f, okf f -> (okf f /\ E (T f)) <-> E (T f)) as HM by (intros f Hf; tauto).
  assert (forall r σ f, r ∈ rules -> head_fact sk r σ = Some f -> okf f) as Hok.
  { intros r σ f Hr' Hf. destruct (Forall2_in_l _ _ _ _ Hr Hr') as (r' & _ & [_ Hh _ _]). by eapply R_head_ok. }
  split.
  - intros f Hf. split; [by apply Hin|]. apply F1, Hin'. by exists f.
  - intros r σ f Hrr Hf Hh. split; [by eapply Hok|]. destruct (Forall2_in_l _ _ _ _ Hr Hrr) as (r' & Hr' & Ht).
    apply (F2 r' σ); [done|by apply (fires_translated _ E r r' σ HM Ht)|]. by rewrite (translated_head r r' σ Ht), Hh.
  - intros f [Hf He]. destruct (F3 (T f) He) as [Hi|(r' & σ & Hr' & Hfi & Hh)].
    + left. apply Hin' in Hi as (g & Hg & Eg). by rewrite (T_inj f g Hf (Hin g Hg) Eg).
    + right. destruct (Forall2_in_r _ _ _ _ Hr Hr') as (r & Hrr & Ht). exists r, σ.
      rewrite (translated_head r r' σ Ht) in Hh. apply fmap_Some in Hh as (g & Hg & Eg).
      split; [done|]. split; [by apply (fires_translated _ E r r' σ HM Ht)|].
      by rewrite (T_inj f g Hf (Hok r σ g Hrr Hg) Eg).
  - intros Hpos M' H1 H2 f [Hf He].
    assert (forall r' , r' ∈ rules' -> is_positive r' = true) as Hpos'.
    { intros r' Hr'. destruct (Forall2_in_r _ _ _ _ Hr Hr') as (r & Hrr & [_ _ _ Hn]). specialize (Hpos r Hrr).
      unfold is_positive in *. inversion Hn as [E1 E2|? ? ? ? ? ? E1 E2]; [done|]. by rewrite <- E1 in Hpos. }
    set (M2 := fun f' => exists g, okf g /\ T g = f' /\ M' g).
    assert (M2 (T f)) as (g & Hg & Eg & HM'g); [|by rewrite <- (T_inj g f Hg Hf Eg)].
    apply (F4 Hpos' M2); [| |done].
    + intros f' (g & Hg & ->)%Hin'. exists g. split; [by apply Hin|]. split; [done|by apply H1].
    + intros r' σ f' Hr' Hfi Hh. destruct (Forall2_in_r _ _ _ _ Hr Hr') as (r & Hrr & Ht).
      rewrite (translated_head r r' σ Ht) in Hh. apply fmap_Some in Hh as (g & Hg & ->). exists g.
      split; [by eapply Hok|]. split; [done|]. apply (H2 r σ g Hrr); [|done].
      refine (proj2 (fires_translated M' M2 r r' σ _ Ht) Hfi). intros h Hh'. split; [intros HM'h; by exists h|].
      intros (h2 & Hh2 & E2 & HM2). by rewrite <- (T_inj h2 h Hh2 Hh' E2).
Qed.
End translation.

Section adapter_facts.
  Context {P : DatalogParams}.

(** ** Compiled atoms and facts *)

Section compiled.
  Context (predicates : gmap RelationId RdfNamedNode) (sk : Skolem).

Definition specialize (f : Fact) : Fact :=
  if bool_decide (f_relation f = QUAD_RELATION_IRI) then
    match f_values f with
    | [s; VTerm (TermNamedNode p); o; g] => mkFact (predicate_relation p) [s; o; g]
    | _ => f
    end
  else f.
(** A fact of a relation of the user, or a quad whose predicate is registered. *)
Definition registered (f : Fact) : Prop :=
  (f_relation f <> QUAD_RELATION_IRI /\ predicates !! f_relation f = None)
  \/ exists s p o g, f = mkFact quad_relation [s; VTerm (TermNamedNode p); o; g] /\ predicates !! predicate_relation p = Some p.
Definition compiled_atom (a a' : Atom) : Prop :=
  (a_relation a <> QUAD_RELATION_IRI /\ a' = a)
  \/ exists s p o g, a = mkAtom quad_relation [s; PConstant (VTerm (TermNamedNode p)); o; g]
     /\ predicates !! predicate_relation p = Some p /\ a' = mkAtom (predicate_relation p) [s; o; g].
(** ... where the relations of the user are not those of predicates. *)
Definition specialized_atom (a a' : Atom) : Prop :=
  compiled_atom a a' /\ (a_relation a <> QUAD_RELATION_IRI -> predicates !! a_relation a = None).

Lemma specialize_quad s p o g : specialize (mkFact quad_relation [s; VTerm (TermNamedNode p); o; g]) = mkFact (predicate_relation p) [s; o; g].
Proof. unfold specialize. cbn [f_relation f_values]. by rewrite bool_decide_true. Qed.
Lemma specialize_user f : f_relation f <> QUAD_RELATION_IRI -> specialize f = f.
Proof. intros Hf. unfold specialize. by rewrite bool_decide_false. Qed.

Lemma specialize_inj f g : registered f -> registered g -> specialize f = specialize g -> f = g.
Proof.
  intros [[Hf Hf']|(s & p & o & k & -> & Hp)] [[Hg Hg']|(s2 & p2 & o2 & k2 & -> & Hp2)];
    rewrite ?specialize_quad, ?specialize_user by done; intros E.
  - done.
  - subst f. cbn [f_relation] in Hf'. congruence.
  - subst g. cbn [f_relation] in Hg'. congruence.
  - pose proof (f_equal f_relation E) as E1. pose proof (f_equal f_values E) as E2. cbn [f_relation f_values] in E1, E2.
    rewrite E1 in Hp. injection E2 as -> -> ->. by assert (p = p2) as -> by congruence.
Qed.

(** Terms that are ground one by one. *)
Lemma compiled_values (h : PatternTerm -> option Value) a a' :
  (forall v, h (PConstant v) = Some v) -> specialized_atom a a' ->
  (mkFact (a_relation a') <$> mapM h (a_terms a')) = specialize <$> (mkFact (a_relation a) <$> mapM h (a_terms a))
  /\ forall g, mkFact (a_relation a) <$> mapM h (a_terms a) = Some g -> registered g.
Proof.
  intros Hh [[[Ha ->]|(s & p & o & g & -> & Hp & ->)] Hu].
  - assert (forall g, mkFact (a_relation a) <$> mapM h (a_terms a) = Some g -> f_relation g = a_relation a) as Hg by by intros g (vs & _ & ->)%fmap_Some.
    split.
    + destruct (mkFact (a_relation a) <$> mapM h (a_terms a)) as [g|] eqn:E; [|done]. cbn [fmap option_fmap option_map].
      rewrite specialize_user; [done|]. by rewrite (Hg g eq_refl).
    + intros g E. left. rewrite (Hg g E). split; [done|by apply Hu].
  - cbn [a_relation a_terms mapM]. rewrite Hh. destruct (h s) as [vs|]; [|done]. cbn [mbind option_bind].
    destruct (h o) as [vo|]; [|done]. cbn [mbind option_bind]. destruct (h g) as [vg|]; [|done]. cbn [mbind option_bind fmap option_fmap option_map mret option_ret].
    split; [by rewrite specialize_quad|]. intros f [=<-]. right. by exists vs, p, vo, vg.
Qed.

Lemma compiled_variables a a' : specialized_atom a a' -> atom_variables a = atom_variables a'.
Proof. intros [[[_ ->]|(s & p & o & g & -> & _ & ->)] _]; done. Qed.

(** The laws of a translation. *)
Lemma specialized_fixpoint rules rules' (input input' E : Fact -> Prop) :
  Forall2 (rule_translated specialized_atom) rules rules' -> (forall f, input f -> registered f) ->
  (forall f', input' f' <-> exists f, input f /\ f' = specialize f) ->
  fixpoint_of sk rules' input' E -> fixpoint_of sk rules input (fun f => registered f /\ E (specialize f)).
Proof.
  apply (fixpoint_translated specialize registered specialized_atom sk specialize_inj).
  - intros a a' σ Ha. by apply (compiled_values (ground_term σ) a a').
  - intros a a' σ g Ha. by apply (compiled_values (ground_term σ) a a').
  - apply compiled_variables.
  - intros a a' id σ Ha. by apply (compiled_values (head_term sk id σ) a a').
  - intros a a' id σ f Ha. by apply (compiled_values (head_term sk id σ) a a').
Qed.
Lemma specialized_fires (M E : Fact -> Prop) r r' σ :
  (forall f, registered f -> M f <-> E (specialize f)) -> rule_translated specialized_atom r r' -> fires M M r σ <-> fires E E r' σ.
Proof.
  apply (fires_translated specialize registered specialized_atom).
  - intros a a' τ Ha. by apply (compiled_values (ground_term τ) a a').
  - intros a a' τ g Ha. by apply (compiled_values (ground_term τ) a a').
  - apply compiled_variables.
Qed.
End compiled.

(** ** The compilation *)

(** Relations are those of their predicates. *)
Definition predicates_ok (m : gmap RelationId RdfNamedNode) : Prop := forall rel p, m !! rel = Some p -> rel = predicate_relation p.

Lemma register_predicate_spec m p :
  predicates_ok m ->
  match register_predicate m (predicate_relation p) p with
  | Ok m' => predicates_ok m' /\ m ⊆ m' /\ m' !! predicate_relation p = Some p
  | Err e => exists q, e = PredicateRelationCollision (predicate_relation p) q p /\ q <> p /\ predicate_relation q = predicate_relation p
  end.
Proof.
  intros Hm. unfold register_predicate. destruct (m !! predicate_relation p) as [q|] eqn:E.
  - destruct (decide (q = p)) as [->|Hne]; [done|]. exists q. split; [done|]. split; [done|]. symmetry. by apply Hm.
  - split; [|split; [by apply insert_subseteq|by rewrite lookup_insert_eq]]. intros rel r. rewrite lookup_insert_Some.
    intros [[<- <-]|[_ H]]; [done|by apply Hm].
Qed.

(** Why a registration fails. *)
Definition collision_error (e : RdfAdapterError) : Prop :=
  exists p q, e = PredicateRelationCollision (predicate_relation p) q p /\ q <> p /\ predicate_relation q = predicate_relation p.

Lemma compiled_atom_mono m m' a a' : m ⊆ m' -> compiled_atom m a a' -> compiled_atom m' a a'.
Proof.
  intros Hm [H|(s & p & o & g & -> & Hp & ->)]; [by left|right]. exists s, p, o, g. split; [done|]. split; [by eapply lookup_weaken|done].
Qed.

Lemma compile_atom_spec a m :
  has_fixed_rdf_predicate a = true -> predicates_ok m ->
  match compile_atom a m with
  | Ok (a', m') => predicates_ok m' /\ m ⊆ m' /\ compiled_atom m' a a'
  | Err e => collision_error e
  end.
Proof.
  intros Ha Hm. unfold compile_atom, has_fixed_rdf_predicate in *. destruct a as [rel ts]. cbn [a_relation a_terms] in *.
  case_bool_decide as Hr; cbn [negb] in *; [|by repeat split; [done..|left]].
  destruct ts as [|s [|p [|o [|g [|]]]]]; try done; try (destruct p as [?|[[p|?|?|? ? ?]|]|?]; done).
  destruct p as [?|[[p|?|?|? ? ?]|]|?]; try done. pose proof (register_predicate_spec m p Hm) as Hp.
  destruct (register_predicate m (predicate_relation p) p) as [m'|e]; cbn [mbind result_bind].
  - destruct Hp as (H1 & H2 & H3). split; [done|]. split; [done|]. right. exists s, p, o, g. rewrite Hr. done.
  - destruct Hp as (q & H). by exists p, q.
Qed.

Lemma collect_results_spec {A B : Type} (f : A -> gmap RelationId RdfNamedNode -> result RdfAdapterError (B * gmap RelationId RdfNamedNode))
  (R : gmap RelationId RdfNamedNode -> A -> B -> Prop) (xs : list A) m :
  (forall m m' a b, m ⊆ m' -> R m a b -> R m' a b) ->
  (forall x m, x ∈ xs -> predicates_ok m ->
     match f x m with Ok (y, m') => predicates_ok m' /\ m ⊆ m' /\ R m' x y | Err e => collision_error e end) ->
  predicates_ok m ->
  match collect_results f xs m with
  | Ok (ys, m') => predicates_ok m' /\ m ⊆ m' /\ Forall2 (R m') xs ys
  | Err e => collision_error e
  end.
Proof.
  intros Hmono. revert m. induction xs as [|x xs IH]; intros m Hf Hm; [done|]. cbn [collect_results].
  pose proof (Hf x m ltac:(by left) Hm) as Hx. destruct (f x m) as [[y m1]|e]; [|done]. cbn [mbind result_bind fst snd].
  destruct Hx as (H1 & H2 & H3). specialize (IH m1 (fun x' m' Hx' => Hf x' m' (list_elem_of_further _ _ _ Hx')) H1).
  destruct (collect_results f xs m1) as [[ys m2]|e]; [|done]. cbn [mbind result_bind fst snd].
  destruct IH as (H4 & H5 & H6). split; [done|]. split; [by etrans|]. constructor; [by eapply Hmono|done].
Qed.

Definition compiled_rule (m : gmap RelationId RdfNamedNode) (r r' : Rule) : Prop :=
  rule_translated (compiled_atom m) r r' /\ r_source r' = r_source r /\ r_run_once r' = r_run_once r.

Lemma Forall2_compiled_mono m m' l l' : m ⊆ m' -> Forall2 (compiled_atom m) l l' -> Forall2 (compiled_atom m') l l'.
Proof. intros Hm. apply Forall2_impl. intros a a'. by apply compiled_atom_mono. Qed.
Lemma compiled_rule_mono m m' r r' : m ⊆ m' -> compiled_rule m r r' -> compiled_rule m' r r'.
Proof.
  intros Hm [[H1 H2 H3 H4] [H5 H6]]. split; [|done]. split; [done|by eapply compiled_atom_mono|by eapply Forall2_compiled_mono..].
Qed.

Lemma compile_rule_spec r m :
  forallb has_fixed_rdf_predicate (rule_atoms r) = true -> predicates_ok m ->
  match compile_rule r m with
  | Ok (r', m') => predicates_ok m' /\ m ⊆ m' /\ compiled_rule m' r r'
  | Err e => collision_error e
  end.
Proof.
  intros Hfix Hm. unfold rule_atoms in Hfix. cbn [forallb] in Hfix. apply andb_prop in Hfix as [Fh Ft]. rewrite forallb_app in Ft.
  apply andb_prop in Ft as [Fb Fn]. rewrite forallb_forall in Fb, Fn. unfold compile_rule.
  pose proof (compile_atom_spec (r_head r) m Fh Hm) as H1. destruct (compile_atom (r_head r) m) as [[h m1]|e]; [|done].
  cbn [mbind result_bind fst snd]. destruct H1 as (O1 & S1 & C1).
  assert (forall l, (forall a, In a l -> has_fixed_rdf_predicate a = true) -> forall m, predicates_ok m ->
    match collect_results compile_atom l m with Ok (ys, m') => predicates_ok m' /\ m ⊆ m' /\ Forall2 (compiled_atom m') l ys | Err e => collision_error e end) as Hc.
  { intros l Hl m0 Hm0. apply (collect_results_spec compile_atom compiled_atom); [apply compiled_atom_mono| |done].
    intros a m' Ha. apply compile_atom_spec. by apply Hl, list_elem_of_In. }
  pose proof (Hc (r_positive_body r) Fb m1 O1) as H2. destruct (collect_results compile_atom (r_positive_body r) m1) as [[b m2]|e]; [|done].
  cbn [mbind result_bind fst snd]. destruct H2 as (O2 & S2 & C2).
  pose proof (Hc (r_negative_body r) Fn m2 O2) as H3. destruct (collect_results compile_atom (r_negative_body r) m2) as [[n m3]|e]; [|done].
  cbn [mbind result_bind fst snd]. destruct H3 as (O3 & S3 & C3). split; [done|]. split; [by do 2 (etrans; [done|])|].
  destruct r as [id src hd pb nb once]. cbn [r_id r_source r_head r_positive_body r_negative_body r_run_once] in *.
  split; [|by destruct src, once].
  assert (m1 ⊆ m3) as H by by etrans. apply (compiled_atom_mono m1 m3 _ _ H) in C1. apply (Forall2_compiled_mono m2 m3 _ _ S3) in C2. by destruct src, once.
Qed.

Lemma register_quads_spec quads m :
  predicates_ok m ->
  match register_quads m quads with
  | Ok m' => predicates_ok m' /\ m ⊆ m' /\ forall q, q ∈ quads -> m' !! predicate_relation (q_predicate q) = Some (q_predicate q)
  | Err e => collision_error e
  end.
Proof.
  revert m. induction quads as [|q quads IH]; intros m Hm; [split; [done|split; [done|set_solver]]|]. cbn [register_quads].
  pose proof (register_predicate_spec m (q_predicate q) Hm) as H1. destruct (register_predicate m _ _) as [m1|e]; cbn [mbind result_bind].
  - destruct H1 as (O1 & S1 & L1). specialize (IH m1 O1). destruct (register_quads m1 quads) as [m2|e]; [|done].
    destruct IH as (O2 & S2 & L2). split; [done|]. split; [by etrans|]. intros q' Hq'. apply elem_of_cons in Hq' as [->|Hq']; [by eapply lookup_weaken|by apply L2].
  - destruct H1 as (p & H1). by exists (q_predicate q), p.
Qed.

(** ** The prepared program *)

Definition prepared_error (program : Program) (e : RdfAdapterError) : Prop :=
  collision_error e
  \/ exists p, e = ReservedPredicateRelation (predicate_relation p) /\ predicate_relation p ∈ user_relations program.

Record specialized_ok (program : Program) (quads : gset RdfQuad) (prepared : PreparedRdfProgram) : Prop := {
  so_rules : Forall2 (rule_translated (specialized_atom (pp_predicates prepared))) (p_rules program) (p_rules (pp_program prepared));
  so_predicates : predicates_ok (pp_predicates prepared);
  so_quads : forall q, q ∈ quads -> pp_predicates prepared !! predicate_relation (q_predicate q) = Some (q_predicate q);
  so_user : forall rel, rel ∈ user_relations program -> pp_predicates prepared !! rel = None
}.
Definition prepared_ok (program : Program) (quads : gset RdfQuad) (prepared : PreparedRdfProgram) : Prop :=
  if pp_specialized prepared then specialized_ok program quads prepared else pp_program prepared = program.

Lemma elem_of_user_relations program rel :
  rel ∈ user_relations program <-> exists r a, r ∈ p_rules program /\ a ∈ rule_atoms r /\ rel = a_relation a /\ rel <> QUAD_RELATION_IRI.
Proof.
  unfold user_relations. rewrite elem_of_list_to_set, list_elem_of_fmap. setoid_rewrite list_elem_of_filter. setoid_rewrite list_elem_of_bind.
  split; [intros (a & -> & Ha & r & Hr & Hin); by exists r, a|]. intros (r & a & Hr & Ha & -> & Hne). exists a. split; [done|]. split; [done|by exists r].
Qed.

Lemma compiled_specialized_atoms m l l' :
  (forall a, a ∈ l -> a_relation a <> QUAD_RELATION_IRI -> m !! a_relation a = None) -> Forall2 (compiled_atom m) l l' -> Forall2 (specialized_atom m) l l'.
Proof. intros Hu H. induction H as [|a a' l l' Ha _ IH]; constructor; [split; [done|]; apply Hu; by left|]. apply IH. intros b Hb. apply Hu. by right. Qed.

Lemma compiled_specialized program m rules' :
  (forall rel, rel ∈ user_relations program -> m !! rel = None) -> Forall2 (compiled_rule m) (p_rules program) rules' ->
  Forall2 (rule_translated (specialized_atom m)) (p_rules program) rules'.
Proof.
  intros Hu Hr. assert (forall r a, r ∈ p_rules program -> a ∈ rule_atoms r -> a_relation a <> QUAD_RELATION_IRI -> m !! a_relation a = None) as Hatoms.
  { intros r a Hin Ha Hne. apply Hu, elem_of_user_relations. by exists r, a. }
  revert Hatoms. clear Hu. induction Hr as [|r r' rs rs' [[H1 H2 H3 H4] _] _ IH]; intros Ha; constructor.
  - assert (forall a, a ∈ rule_atoms r -> a_relation a <> QUAD_RELATION_IRI -> m !! a_relation a = None) as Har by (intros a; apply Ha; by left).
    unfold rule_atoms in Har. split; [done|split; [done|apply Har; by left]|apply compiled_specialized_atoms; [|done]..];
      intros a Hin; apply Har; right; apply elem_of_app; auto.
  - apply IH. intros r0 a Hr0. apply Ha. by right.
Qed.

Context {I : InternerParams} (S : bytes -> Prop) {HS : GoodHash S}.

Lemma prepare_spec program d x :
  represents S d x ->
  match PreparedRdfProgram_new program d with
  | Ok prepared => prepared_ok program (qs_quads x) prepared
  | Err (RdfAdapter e) => prepared_error program e
  | Err _ => False
  end.
Proof.
  intros Hd. unfold PreparedRdfProgram_new. destruct (is_specialized program) eqn:Esp; cbn [negb]; [|done].
  assert (forall r, r ∈ p_rules program -> forallb has_fixed_rdf_predicate (rule_atoms r) = true) as Hfix.
  { unfold is_specialized in Esp. destruct (p_rules program) as [|r0 rs] eqn:Er; [done|]. intros r Hr. rewrite forallb_forall in Esp. by apply Esp, list_elem_of_In. }
  assert (predicates_ok ∅) as H0 by (intros rel p; by rewrite lookup_empty).
  pose proof (collect_results_spec compile_rule compiled_rule (p_rules program) ∅ compiled_rule_mono) as Hc.
  specialize (Hc (fun r m Hr => compile_rule_spec r m (Hfix r Hr)) H0).
  destruct (collect_results compile_rule (p_rules program) ∅) as [[rules m1]|e]; [|by left]. cbn [adapt map_err mbind result_bind].
  destruct Hc as (O1 & _ & C1). destruct (Dataset_iter_spec S d x Hd) as (quads & -> & _ & Hq). cbn [returns ok_or mbind result_bind].
  pose proof (register_quads_spec quads m1 O1) as Hr. destruct (register_quads m1 quads) as [m2|e]; [|by left]. cbn [adapt map_err mbind result_bind].
  destruct Hr as (O2 & S2 & L2). destruct (list_find _ _) as [[i rel]|] eqn:El.
  - apply list_find_Some in El as (Hrel & Hu & _). apply list_elem_of_lookup_2, elem_of_btree_elements, elem_of_dom in Hrel as [p Hp].
    right. exists p. by rewrite <- (O2 rel p Hp).
  - assert (forall rel, rel ∈ user_relations program -> m2 !! rel = None) as Hu.
    { intros rel Hrel. destruct (m2 !! rel) as [p|] eqn:Ep; [|done]. apply list_find_None in El. rewrite list.Forall_forall in El.
      exfalso. apply (El rel); [|done]. apply elem_of_btree_elements, elem_of_dom. by exists p. }
    split; cbn [pp_program pp_predicates p_rules]; [|done|by intros q Hin%Hq; apply L2|done].
    apply compiled_specialized; [done|]. eapply Forall2_impl; [|exact C1]. intros r r'. by apply compiled_rule_mono.
Qed.

(** *** Facts of the prepared program *)

Definition prepared_translation (prepared : PreparedRdfProgram) (f : Fact) : Fact :=
  if pp_specialized prepared then specialize f else f.
Definition prepared_fact (prepared : PreparedRdfProgram) (f : Fact) : Prop :=
  if pp_specialized prepared then registered (pp_predicates prepared) f else True.

Lemma prepared_fact_spec prepared q : prepared_fact_from_quad prepared q = prepared_translation prepared (fact_from_quad q).
Proof. unfold prepared_fact_from_quad, prepared_translation. destruct (pp_specialized prepared); [|done]. cbn [negb]. by rewrite <- specialize_quad. Qed.

Lemma fixpoint_ext sk rules (input input2 M M2 : Fact -> Prop) :
  (forall f, input f <-> input2 f) -> (forall f, M f <-> M2 f) -> fixpoint_of sk rules input M -> fixpoint_of sk rules input2 M2.
Proof.
  intros Hi HM [H1 H2 H3 H4]. split.
  - intros f Hf. by apply HM, H1, Hi.
  - intros r σ f Hr Hf Hh. apply HM. apply (H2 r σ f); [done| |done]. eapply fires_ext; [|exact Hf]. intros g. by rewrite HM.
  - intros f Hf. apply HM, H3 in Hf as [Hf|(r & σ & Hr & Hf & Hh)]; [left; by apply Hi|right]. exists r, σ. split; [done|]. split; [|done].
    by eapply fires_ext; [|exact Hf].
  - intros Hp M' M1 M3 f Hf. apply (H4 Hp M'); [|done|by apply HM]. intros g Hg. by apply M1, Hi.
Qed.

(** The facts of a set of quads. *)
Definition quad_facts (quads : gset RdfQuad) (f : Fact) : Prop := exists q, q ∈ quads /\ f = fact_from_quad q.

Lemma prepared_fixpoint program quads prepared sk (E : Fact -> Prop) :
  prepared_ok program quads prepared ->
  fixpoint_of sk (p_rules (pp_program prepared)) (fun f => exists q, q ∈ quads /\ f = prepared_fact_from_quad prepared q) E ->
  fixpoint_of sk (p_rules program) (quad_facts quads) (fun f => prepared_fact prepared f /\ E (prepared_translation prepared f)).
Proof.
  intros Hok Hfx. unfold prepared_ok in Hok. assert (forall f', (exists q, q ∈ quads /\ f' = prepared_fact_from_quad prepared q) <->
    exists f, quad_facts quads f /\ f' = prepared_translation prepared f) as Hin.
  { intros f'. unfold quad_facts. setoid_rewrite prepared_fact_spec. naive_solver. }
  unfold prepared_fact, prepared_translation in *. destruct (pp_specialized prepared).
  - destruct Hok as [H1 _ H3 _]. refine (specialized_fixpoint _ sk _ _ _ _ E H1 _ Hin Hfx).
    intros f (q & Hq & ->). right. do 4 eexists. split; [reflexivity|]. by apply H3.
  - rewrite Hok in Hfx. eapply fixpoint_ext; [| |exact Hfx]; [|tauto]. intros f. cbv beta. rewrite Hin. split; [by intros (g & Hg & ->)|]. intros Hf. by exists f.
Qed.

(** ** The datasets of the result *)

(** A set of quads added to a dataset. *)
Definition quads_union (Q : gset RdfQuad) (x : QuadSet) : QuadSet :=
  mkQuadSet (Q ∪ qs_quads x) (list_to_set (omap (fun q => graph_node (q_graph_name q)) (elements Q)) ∪ qs_graphs x).

Lemma add_quads_union l x : foldl (fun x q => qs_insert q x) x l = quads_union (list_to_set l) x.
Proof.
  assert (forall x, qs_quads (foldl (fun x q => qs_insert q x) x l) = list_to_set l ∪ qs_quads x
    /\ forall n, n ∈ qs_graphs (foldl (fun x q => qs_insert q x) x l) <-> n ∈ qs_graphs x \/ exists q, q ∈ l /\ graph_node (q_graph_name q) = Some n) as H.
  { induction l as [|q l IH]; intros y; [split; [set_solver|set_solver]|]. destruct (IH (qs_insert q y)) as [H1 H2]. cbn [foldl]. split.
    - rewrite H1. cbn [qs_insert qs_quads]. set_solver.
    - intros n. rewrite H2. cbn [qs_insert qs_graphs]. unfold add_graph. destruct (graph_node (q_graph_name q)) as [m|] eqn:E; set_solver. }
  destruct (H x) as [H1 H2]. unfold quads_union. destruct (foldl _ x l) as [a b]. cbn [qs_quads qs_graphs] in *. f_equal; [done|].
  apply set_eq. intros n. rewrite H2, elem_of_union, elem_of_list_to_set, list_elem_of_omap. setoid_rewrite elem_of_elements.
  setoid_rewrite elem_of_list_to_set. naive_solver.
Qed.

(** The quads that derived facts denote. *)
Definition denotes (prepared : PreparedRdfProgram) (facts : list Fact) (q : RdfQuad) : Prop :=
  exists f, f ∈ facts /\ prepared_quad_from_fact prepared f = Ok (Some q).

Lemma insert_derived_spec prepared facts d x :
  represents S d x -> (forall q, denotes prepared facts q -> Quad_wf q = true /\ Forall S (Quad_strings q)) ->
  match insert_derived prepared d facts with
  | Ok d' => exists l, (forall q, q ∈ l <-> denotes prepared facts q) /\ represents S d' (foldl (fun x q => qs_insert q x) x l)
      /\ forall f, f ∈ facts -> is_ok (prepared_quad_from_fact prepared f) = true
  | Err (RdfAdapter e) => exists f, f ∈ facts /\ prepared_quad_from_fact prepared f = Err e
  | Err _ => False
  end.
Proof.
  revert d x. induction facts as [|f facts IH]; intros d x Hd Hv.
  - exists []. split; [intros q; unfold denotes; set_solver|]. split; [exact Hd|set_solver].
  - cbn [insert_derived]. destruct (prepared_quad_from_fact prepared f) as [[q|]|e] eqn:Ef; cbn [adapt map_err mbind result_bind].
    + destruct (Hv q) as [W F]; [exists f; split; [by left|done]|]. destruct (Dataset_insert_spec S d x q Hd W F) as (d1 & -> & H1).
      cbn [returns ok_or fmap result_fmap fst mbind result_bind]. specialize (IH d1 _ H1).
      assert (forall q, denotes prepared facts q -> denotes prepared (f :: facts) q) as Hsub by (intros q' (g & Hg & E); exists g; split; [by right|done]).
      specialize (IH (fun q' Hq' => Hv q' (Hsub q' Hq'))). destruct (insert_derived prepared d1 facts) as [d2|[]]; try done.
      * destruct IH as (l & Hl & Hd2 & Hok). exists (q :: l). split; [|split; [exact Hd2|]].
        -- intros q'. rewrite elem_of_cons, Hl. split; [intros [->|Hq']; [exists f; split; [by left|done]|by apply Hsub]|].
           intros (g & [->|Hg]%elem_of_cons & E); [left; congruence|]. right. by exists g.
        -- intros g [->|Hg]%elem_of_cons; [by rewrite Ef|by apply Hok].
      * destruct IH as (g & Hg & E). exists g. split; [by right|done].
    + assert (forall q, denotes prepared facts q <-> denotes prepared (f :: facts) q) as Hsub.
      { intros q'. split; intros (g & Hg & E); exists g; (split; [|done]); [by right|]. apply elem_of_cons in Hg as [->|Hg]; [congruence|done]. }
      specialize (IH d x Hd (fun q' Hq' => Hv q' (proj1 (Hsub q') Hq'))). destruct (insert_derived prepared d facts) as [d2|[]]; try done.
      * destruct IH as (l & Hl & Hd2 & Hok). exists l. split; [intros q'; by rewrite Hl|]. split; [done|].
        intros g [->|Hg]%elem_of_cons; [by rewrite Ef|by apply Hok].
      * destruct IH as (g & Hg & E). exists g. split; [by right|done].
    + exists f. split; [by left|done].
Qed.

(** *** The facts of an evaluation, seen by the program *)

Lemma prepared_quad_sound program quads prepared f q :
  prepared_ok program quads prepared -> prepared_quad_from_fact prepared f = Ok (Some q) ->
  f = prepared_translation prepared (fact_from_quad q) /\ prepared_fact prepared (fact_from_quad q).
Proof.
  unfold prepared_ok, prepared_quad_from_fact, prepared_translation, prepared_fact. intros Hok. destruct (pp_specialized prepared); cbn [negb].
  - destruct (pp_predicates prepared !! f_relation f) as [p|] eqn:Ep; [|done]. destruct f as [rel vs]. cbn [f_relation f_values] in *.
    destruct vs as [|s [|o [|g [|]]]]; try done. intros E.
    assert (quad_from_fact (mkFact quad_relation [s; VTerm (TermNamedNode p); o; g]) = Ok q) as Eq.
    { destruct (quad_from_fact _); [|done]. cbn [fmap result_fmap] in E. congruence. }
    apply quad_from_fact_spec in Eq. rewrite <- Eq, specialize_quad, (so_predicates _ _ _ Hok rel p Ep).
    split; [done|]. right. exists s, p, o, g. split; [done|]. pose proof (so_predicates _ _ _ Hok rel p Ep). congruence.
  - case_bool_decide; [|done]. intros E. split; [|done]. apply quad_from_fact_spec. destruct (quad_from_fact f); [|done].
    cbn [fmap result_fmap] in E. congruence.
Qed.

Lemma prepared_quad_complete prepared f :
  f_relation f = QUAD_RELATION_IRI -> prepared_fact prepared f -> is_ok (prepared_quad_from_fact prepared (prepared_translation prepared f)) = true ->
  exists q, prepared_quad_from_fact prepared (prepared_translation prepared f) = Ok (Some q) /\ f = fact_from_quad q.
Proof.
  unfold prepared_quad_from_fact, prepared_translation, prepared_fact. intros Hr. destruct (pp_specialized prepared); cbn [negb].
  - intros [[Hn _]|(s & p & o & g & -> & Hp)]; [done|]. rewrite specialize_quad. cbn [f_relation f_values]. rewrite Hp.
    destruct (quad_from_fact _) as [q|] eqn:Eq; [|done]. intros _. exists q. split; [done|]. by apply quad_from_fact_spec.
  - intros _. rewrite bool_decide_true by done. destruct (quad_from_fact f) as [q|] eqn:Eq; [|done]. intros _. exists q. split; [done|].
    by apply quad_from_fact_spec.
Qed.

(** The quads of the closure, and the facts of the relations of the program. *)
Definition closure_facts (program : Program) (x : QuadSet) (Q : gset RdfQuad) (facts : list Fact) (f : Fact) : Prop :=
  quad_facts (qs_quads x ∪ Q) f \/ (f ∈ facts /\ f_relation f ∈ user_relations program).

Section view.
  Context (program : Program) (x : QuadSet) (prepared : PreparedRdfProgram) (facts derived : list Fact) (Q : gset RdfQuad) (sk : Skolem).
  Hypothesis Hok : prepared_ok program (qs_quads x) prepared.
Let input (f : Fact) : Prop := exists q, q ∈ qs_quads x /\ f = prepared_fact_from_quad prepared q.
  Hypothesis Hfix : fixpoint_of sk (p_rules (pp_program prepared)) input (fun f => f ∈ facts).
  Hypothesis Hderived : forall f, f ∈ derived <-> f ∈ facts /\ ~ input f.
  Hypothesis Hquads : forall f, f ∈ derived -> is_ok (prepared_quad_from_fact prepared f) = true.
  Hypothesis HQ : forall q, q ∈ Q <-> denotes prepared derived q.

Lemma base_quad_prepared q : q ∈ qs_quads x -> prepared_fact prepared (fact_from_quad q) /\ prepared_translation prepared (fact_from_quad q) ∈ facts.
Proof.
  intros Hq. split.
  - unfold prepared_fact, prepared_ok in *. destruct (pp_specialized prepared); [|done]. right. do 4 eexists. split; [done|]. by apply (so_quads _ _ _ Hok).
  - rewrite <- prepared_fact_spec. apply (fx_input _ _ _ _ Hfix). by exists q.
Qed.

Lemma user_fact_supported f :
  prepared_fact prepared f -> f_relation f <> QUAD_RELATION_IRI -> f ∈ facts -> f_relation f ∈ user_relations program.
Proof.
  intros Hf Hne Hin. apply elem_of_user_relations. unfold prepared_fact, prepared_ok in *.
  destruct (fx_supported _ _ _ _ Hfix f Hin) as [(q & Hq & ->)|(r' & σ & Hr' & _ & Hh)].
  - exfalso. rewrite prepared_fact_spec in *. unfold prepared_translation in *. destruct (pp_specialized prepared); [|done].
    pose proof (so_quads _ _ _ Hok q Hq) as Hp. unfold fact_from_quad in Hf. rewrite specialize_quad in Hf.
    destruct Hf as [[_ Hf]|(s & p & o & g & E & _)]; [cbn [f_relation] in Hf; congruence|]. apply (f_equal f_values) in E. discriminate E.
  - apply head_fact_relation in Hh. destruct (pp_specialized prepared).
    + destruct (Forall2_in_r _ _ _ _ (so_rules _ _ _ Hok) Hr') as (r & Hr & [_ [[[Ha Ea]|(s & p & o & g & _ & Hp & Ea)] _] _ _]).
      * exists r, (r_head r). split; [done|]. split; [by left|]. split; [|done]. by rewrite Hh, Ea.
      * exfalso. rewrite Ea in Hh. cbn [a_relation] in Hh. destruct Hf as [[_ Hf]|(s' & p' & o' & g' & -> & _)]; [|done]. congruence.
    + rewrite Hok in Hr'. exists r', (r_head r'). split; [done|]. split; [by left|done].
Qed.

Lemma closure_facts_spec f :
  prepared_fact prepared f /\ prepared_translation prepared f ∈ facts <-> closure_facts program x Q facts f.
Proof.
  split.
  - intros [Hf Hin]. destruct (decide (f_relation f = QUAD_RELATION_IRI)) as [Hr|Hr].
    + left. destruct (decide (prepared_translation prepared f ∈ derived)) as [Hd|Hd].
      * destruct (prepared_quad_complete prepared f Hr Hf (Hquads _ Hd)) as (q & Eq & ->). exists q. split; [|done].
        apply elem_of_union_r, HQ. by exists (prepared_translation prepared (fact_from_quad q)).
      * assert (input (prepared_translation prepared f)) as (q & Hq & E).
        { apply dec_stable. intros Hn. apply Hd, Hderived. done. }
        exists q. split; [by apply elem_of_union_l|]. rewrite prepared_fact_spec in E. destruct (base_quad_prepared q Hq) as [Hq' _].
        unfold prepared_translation, prepared_fact in *. destruct (pp_specialized prepared); [|done]. by eapply specialize_inj.
    + right. assert (prepared_translation prepared f = f) as E.
      { unfold prepared_translation. destruct (pp_specialized prepared); [by apply specialize_user|done]. }
      rewrite E in Hin. split; [done|]. by apply user_fact_supported.
  - intros [(q & [Hq|Hq]%elem_of_union & ->)|[Hin Hu]].
    + by apply base_quad_prepared.
    + apply HQ in Hq as (f & Hf & E). destruct (prepared_quad_sound program (qs_quads x) prepared f q Hok E) as [-> H]. split; [done|].
      by apply Hderived.
    + pose proof Hu as (r & a & _ & _ & _ & Hne)%elem_of_user_relations.
      unfold prepared_fact, prepared_translation, prepared_ok in *. destruct (pp_specialized prepared); [|done].
      rewrite specialize_user by done. split; [|done]. left. split; [done|]. by apply (so_user _ _ _ Hok).
Qed.

Lemma closure_fixpoint : fixpoint_of sk (p_rules program) (quad_facts (qs_quads x)) (closure_facts program x Q facts).
Proof.
  eapply fixpoint_ext; [done|exact closure_facts_spec|]. by apply (prepared_fixpoint program (qs_quads x) prepared sk (fun f => f ∈ facts) Hok).
Qed.

Lemma derived_disjoint : Q ## qs_quads x.
Proof.
  intros q (f & Hf & E)%HQ Hq. apply Hderived in Hf as [_ Hn]. apply Hn. exists q. split; [done|].
  destruct (prepared_quad_sound program (qs_quads x) prepared f q Hok E) as [-> _]. by rewrite prepared_fact_spec.
Qed.
End view.

(** ** The evaluation *)

(** Blank nodes that the rules generate: not in the dataset, one for each instance. *)
Record fresh_nodes (program : Program) (sk : Skolem) (M : Fact -> Prop) (x : QuadSet) : Prop := {
  fn_fresh : forall r σ g, r ∈ p_rules program -> fires M M r σ -> PGeneratedBlankNode g ∈ a_terms (r_head r) ->
    is_blank (sk (r_id r) g σ) /\ forall q, q ∈ qs_quads x -> sk (r_id r) g σ ∉ f_values (fact_from_quad q);
  fn_injective : forall r σ g r' σ' g',
    r ∈ p_rules program -> fires M M r σ -> PGeneratedBlankNode g ∈ a_terms (r_head r) ->
    r' ∈ p_rules program -> fires M M r' σ' -> PGeneratedBlankNode g' ∈ a_terms (r_head r') ->
    sk (r_id r) g σ = sk (r_id r') g' σ' -> value_generation_key (r_id r) g σ = value_generation_key (r_id r') g' σ'
}.

Lemma blank_in_prepared prepared q v : is_blank v -> v ∈ f_values (fact_from_quad q) -> v ∈ f_values (prepared_fact_from_quad prepared q).
Proof.
  intros [b ->] Hv. unfold prepared_fact_from_quad. destruct (pp_specialized prepared); [|exact Hv]. cbn [negb f_values fact_from_quad] in *.
  rewrite !elem_of_cons in *. destruct Hv as [?|[?|[?|[?|?]]]]; auto. discriminate.
Qed.

Lemma fresh_nodes_prepared program x prepared quads p sk (M : Fact -> Prop) :
  prepared_ok program (qs_quads x) prepared -> (forall q, q ∈ quads <-> q ∈ qs_quads x) ->
  (forall r, r ∈ vp_rules p <-> r ∈ p_rules (pp_program prepared)) ->
  skolem_ok p (prepared_fact_from_quad prepared <$> quads) sk ->
  (forall f, M f <-> prepared_fact prepared f /\ model p sk (prepared_fact_from_quad prepared <$> quads) (prepared_translation prepared f)) ->
  fresh_nodes program sk M x.
Proof.
  intros Hok Hq Hrules [S1 S2] HM. set (input := prepared_fact_from_quad prepared <$> quads) in *.
  assert (forall r σ g, r ∈ p_rules program -> fires M M r σ -> PGeneratedBlankNode g ∈ a_terms (r_head r) ->
    generated_by p input sk (sk (r_id r) g σ) (value_generation_key (r_id r) g σ)) as Hgen.
  { intros r σ g Hr Hf Hg. unfold prepared_ok, prepared_fact, prepared_translation in *. destruct (pp_specialized prepared).
    - destruct (Forall2_in_l _ _ _ _ (so_rules _ _ _ Hok) Hr) as (r' & Hr' & Ht). exists r', σ, g. split; [by apply Hrules|].
      split; [|split; [|by rewrite (rt_id _ _ _ Ht)]].
      + apply (specialized_fires (pp_predicates prepared) M (model p sk input) r r' σ); [|done|done]. intros f Hf'. rewrite HM. tauto.
      + destruct (rt_head _ _ _ Ht) as [[[_ ->]|(s & pr & o & k & E & _ & ->)] _]; [done|]. rewrite E in Hg. cbn [a_terms] in *.
        rewrite !elem_of_cons in *. destruct Hg as [?|[?|[?|[?|?]]]]; auto. discriminate.
    - rewrite Hok in Hrules. exists r, σ, g. split; [by apply Hrules|]. split; [|done]. eapply fires_ext; [|exact Hf]. intros f. rewrite HM. tauto. }
  split.
  - intros r σ g Hr Hf Hg. destruct (S1 _ _ (Hgen r σ g Hr Hf Hg)) as [Hb Hn]. split; [done|]. intros q Hin Hv. apply Hn.
    unfold interner_values. apply elem_of_app. left. apply list_elem_of_bind. exists (prepared_fact_from_quad prepared q).
    split; [by apply blank_in_prepared|]. apply list_elem_of_fmap_2. by apply Hq.
  - intros r σ g r' σ' g' Hr Hf Hg Hr' Hf' Hg' E. pose proof (Hgen r σ g Hr Hf Hg) as G1. rewrite E in G1.
    exact (S2 _ _ _ G1 (Hgen r' σ' g' Hr' Hf' Hg')).
Qed.

(** The closure of a dataset [x]: its inferred quads [Q] are new; together with the
    facts of the program's own relations they are what the rules make of [x]. *)
Definition rdf_closure_ok (program : Program) (x : QuadSet) (c : RdfClosure) : Prop :=
  exists Q sk, let M := closure_facts program x Q (er_facts (rc_evaluation c)) in
    represents S (rc_base c) x /\ represents S (rc_inference c) (quads_union Q (mkQuadSet ∅ ∅))
    /\ represents S (rc_union c) (quads_union Q x) /\ Q ## qs_quads x
    /\ fixpoint_of sk (p_rules program) (quad_facts (qs_quads x)) M /\ fresh_nodes program sk M x
    /\ rc_profile c = program_profile program.

(** Derived quads can be interned. *)
Definition derivations_valid (env : Environment) (options : EvaluationOptions) (program : Program) (d : Dataset) : Prop :=
  forall prepared quads evaluation q,
    PreparedRdfProgram_new program d = Ok prepared -> OxDataset.Dataset_iter d = Some quads ->
    Engine_evaluate env options ValidationLimits_default (pp_program prepared) (prepared_fact_from_quad prepared <$> quads) = Ok evaluation ->
    denotes prepared (er_derived_facts evaluation) q -> Quad_wf q = true /\ Forall S (Quad_strings q).

(** Why an evaluation fails. *)
Definition rdf_failure_ok (env : Environment) (options : EvaluationOptions) (program : Program) (d : Dataset) (e : RdfFailure) : Prop :=
  match e with
  | RdfNoReturn => False
  | RdfAdapter e =>
      prepared_error program e
      \/ exists prepared quads evaluation f, PreparedRdfProgram_new program d = Ok prepared /\ OxDataset.Dataset_iter d = Some quads
         /\ Engine_evaluate env options ValidationLimits_default (pp_program prepared) (prepared_fact_from_quad prepared <$> quads) = Ok evaluation
         /\ f ∈ er_derived_facts evaluation /\ prepared_quad_from_fact prepared f = Err e
  | RdfEvaluation e =>
      exists prepared quads, PreparedRdfProgram_new program d = Ok prepared /\ OxDataset.Dataset_iter d = Some quads
      /\ engine_failure env options ValidationLimits_default (pp_program prepared) (prepared_fact_from_quad prepared <$> quads) e
  end.

Lemma prepared_size program quads prepared :
  prepared_ok program quads prepared -> len (program_atoms (p_rules (pp_program prepared))) = len (program_atoms (p_rules program)).
Proof.
  unfold prepared_ok. destruct (pp_specialized prepared); [|by intros ->]. intros [Hr _ _ _]. unfold program_atoms, len. f_equal.
  induction Hr as [|r r' rs rs' [_ _ Hb Hn] _ IH]; [done|]. cbn [mbind list_bind]. rewrite !length_app. rewrite IH. f_equal.
  unfold rule_atoms. cbn [length]. rewrite !length_app. by rewrite <- (list.Forall2_length _ _ _ Hb), <- (list.Forall2_length _ _ _ Hn).
Qed.

Lemma rdf_evaluate_outcome env options program d x :
  represents S d x -> len (program_atoms (p_rules program)) < 2 ^ 31 -> el_max_iterations (eo_limits options) <= usize_max ->
  derivations_valid env options program d ->
  match rdf_evaluate env program d options with
  | Ok c => rdf_closure_ok program x c
  | Err e => rdf_failure_ok env options program d e
  end.
Proof.
  intros Hd Hsize Hmax Hv. unfold rdf_evaluate. pose proof (prepare_spec program d x Hd) as Hp.
  destruct (PreparedRdfProgram_new program d) as [prepared|[]] eqn:Ep; [|done|by left|done]. cbn [mbind result_bind].
  destruct (Dataset_iter_spec S d x Hd) as (quads & Eq & _ & Hq). rewrite Eq. cbn [returns ok_or mbind result_bind].
  pose proof (Engine_evaluate_outcome env options ValidationLimits_default (pp_program prepared) (prepared_fact_from_quad prepared <$> quads)) as Ho.
  rewrite (prepared_size program _ prepared Hp) in Ho. specialize (Ho Hsize Hmax).
  destruct (Engine_evaluate _ _ _ _ _) as [ev|e] eqn:Ee; cbn [map_err mbind result_bind]; [|by exists prepared, quads].
  destruct Ho as (p & sk & Hval & Hvo & Hro). pose proof (represents_new S) as H0.
  pose proof (insert_derived_spec prepared (er_derived_facts ev) OxDataset.Dataset_new (mkQuadSet ∅ ∅) H0) as Hi.
  specialize (Hi (fun q => Hv prepared quads ev q Ep Eq Ee)).
  destruct (insert_derived prepared OxDataset.Dataset_new (er_derived_facts ev)) as [inference|[]]; [|done| |done].
  2: { destruct Hi as (f & Hf & Ef). right. by exists prepared, quads, ev, f. }
  destruct Hi as (l & Hl & Hinf & Hisok). rewrite add_quads_union in Hinf. cbn [mbind result_bind].
  destruct (Dataset_iter_spec S inference _ Hinf) as (derived & Ed & _ & Hder). rewrite Ed. cbn [returns ok_or mbind result_bind].
  assert (forall q, q ∈ derived -> Quad_wf q = true /\ Forall S (Quad_strings q)) as Hdv.
  { intros q Hq'%Hder. destruct (rp_quads S _ _ Hinf q Hq') as (W & F & _). done. }
  destruct (Dataset_extend_spec S derived d x Hd Hdv) as (union & Eu & Hun). rewrite Eu. cbn [returns ok_or mbind result_bind].
  rewrite add_quads_union in Hun. set (Q := list_to_set l : gset RdfQuad) in *.
  assert (list_to_set derived = Q) as EQ.
  { apply set_eq. intros q. rewrite elem_of_list_to_set, Hder. cbn [quads_union qs_quads]. set_solver. }
  rewrite EQ in Hun. exists Q, sk. cbn [rc_base rc_inference rc_union rc_evaluation rc_profile].
  set (input := prepared_fact_from_quad prepared <$> quads) in *.
  assert (forall f, f ∈ input <-> exists q, q ∈ qs_quads x /\ f = prepared_fact_from_quad prepared q) as Hin.
  { intros f. unfold input. rewrite list_elem_of_fmap. setoid_rewrite Hq. naive_solver. }
  assert (forall r, r ∈ vp_rules p <-> r ∈ p_rules (pp_program prepared)) as Hrules.
  { intros r. rewrite <- (prepared_size program _ prepared Hp) in Hsize. rewrite (proj1 (validate_ok _ _ p Hsize Hval)). apply elem_of_sort_by. }
  assert (forall f, f ∈ er_derived_facts ev <-> f ∈ er_facts ev /\ ~ exists q, q ∈ qs_quads x /\ f = prepared_fact_from_quad prepared q) as Hde.
  { intros f. by rewrite (ro_derived _ _ _ _ _ Hro), (ro_facts _ _ _ _ _ Hro), Hin. }
  assert (forall q, q ∈ Q <-> denotes prepared (er_derived_facts ev) q) as HQ by (intros q; unfold Q; by rewrite elem_of_list_to_set, Hl).
  assert (fixpoint_of sk (p_rules (pp_program prepared)) (fun f => exists q, q ∈ qs_quads x /\ f = prepared_fact_from_quad prepared q) (fun f => f ∈ er_facts ev)) as Hfx.
  { apply (fixpoint_ext sk _ (fun f => f ∈ input) _ (model p sk input)); [exact Hin|intros f; by rewrite (ro_facts _ _ _ _ _ Hro)|]. split.
    - intros f Hf. by apply model_input.
    - intros r σ f Hr. apply model_closed; [done|by apply Hrules].
    - intros f [Hf|(r & σ & Hr & H)]%(model_supported p sk input Hvo); [by left|right]. exists r, σ. split; [by apply Hrules|done].
    - intros Hpos M' M1 M2. apply (model_least p sk input M'); [|done|intros r σ f Hr; apply M2; by apply Hrules].
      intros r Hr%Hrules. specialize (Hpos r Hr). unfold is_positive in Hpos. by destruct (r_negative_body r). }
  split; [done|]. split; [done|]. split; [done|].
  split; [by eapply (derived_disjoint program x prepared (er_facts ev))|].
  split; [by apply (closure_fixpoint program x prepared (er_facts ev) (er_derived_facts ev) Q sk)|]. split; [|done].
  apply (fresh_nodes_prepared program x prepared quads p sk); [done..|apply (ro_skolem _ _ _ _ _ Hro)|].
  intros f. pose proof (ro_facts _ _ _ _ _ Hro (prepared_translation prepared f)) as Hf.
  pose proof (closure_facts_spec program x prepared (er_facts ev) (er_derived_facts ev) Q sk Hp Hfx Hde Hisok HQ f) as Hcf.
  rewrite <- Hcf. split; intros [H1 H2]; (split; [exact H1|by apply Hf]).
Qed.
End adapter_facts.
