(* ===== verification/DatalogRdfCorrectness.v ===== *)
(** * Correctness of Datalog over RDF datasets

    The closure that lib/oxdatalog/src/rdf.rs computes, its errors, and samples:
    a program compiled to one relation for each predicate, and a collision. *)
From stdpp Require Import gmap.
From S2P Require Import Prelude MachineInt RustStr BTree RdfModel RdfDisplay DatalogIr.
From S2P Require Import StateResult DatalogValidate DatalogValidateFacts DatalogControl.
From S2P Require Import DatalogStorage DatalogRules DatalogEngine.
From S2P Require Import DatalogSpec DatalogStratumFacts DatalogCorrectness.
From S2P Require OxInterning OxDataset.
From S2P Require Import OxInterningFacts OxDatasetFacts OxDatasetRefinement DatalogRdf.
From S2P Require Import DatalogRdfFacts.

Section correctness.
  Context {P : DatalogParams} {I : OxInterning.InternerParams} (S : bytes -> Prop) {HS : GoodHash S}.

(** C17. A successful evaluation over a dataset, whether or not the program was
    compiled to one relation for each predicate. The base is the dataset; the
    inferred quads are not in it; the entailed dataset is the union of both, with
    the named graphs. The quads of the union and the facts of the program's own
    relations are closed under the rules of the given program, contain only what
    is in the dataset or is the head of a rule instance whose body holds and
    whose negated atoms do not, and are the least such set when no rule negates;
    generated blank nodes are new and distinct for distinct instances. *)
Theorem rdf_evaluate_closure (env : Environment) (options : EvaluationOptions) (program : Program) (d : Dataset) (x : QuadSet) (c : RdfClosure) :
  represents S d x -> len (program_atoms (p_rules program)) < 2 ^ 31 -> el_max_iterations (eo_limits options) <= usize_max ->
  derivations_valid S env options program d -> rdf_evaluate env program d options = Ok c -> rdf_closure_ok S program x c.
Proof. intros Hd Hs Hm Hv Hc. pose proof (rdf_evaluate_outcome S env options program d x Hd Hs Hm Hv) as H. by rewrite Hc in H. Qed.

(** C18. An evaluation over a dataset fails only for a reason: two predicates
    whose digests are the same, a relation of the program that is the one of a
    predicate, a derived fact that is not a quad, or a reason of the engine on
    the prepared program; it never panics. *)
Theorem rdf_evaluate_failure (env : Environment) (options : EvaluationOptions) (program : Program) (d : Dataset) (x : QuadSet) (e : RdfFailure) :
  represents S d x -> len (program_atoms (p_rules program)) < 2 ^ 31 -> el_max_iterations (eo_limits options) <= usize_max ->
  derivations_valid S env options program d -> rdf_evaluate env program d options = Err e -> rdf_failure_ok env options program d e.
Proof. intros Hd Hs Hm Hv Hc. pose proof (rdf_evaluate_outcome S env options program d x Hd Hs Hm Hv) as H. by rewrite Hc in H. Qed.
End correctness.

(** ** Samples *)

(** Digests are the texts themselves, or all the same. *)
Definition text_digest : DatalogParams := {| size_of := fun _ => 24; hex_sha256 := fun s => s |}.
Definition same_digest : DatalogParams := {| size_of := fun _ => 24; hex_sha256 := fun _ => str "digest" |}.
#[local] Instance rdf_hash : OxInterning.InternerParams :=
  {| OxInterning.hash_one := fun s => foldl (fun h c => (h * 31 + Z_of_byte c) mod 2 ^ 40) 7 s |}.

Definition rdf_node (s : string) : RdfNamedNode := mkNamedNode (str s).
Definition rdf_term (s : string) : PatternTerm := PConstant (VTerm (TermNamedNode (rdf_node s))).
Definition rdf_var (s : string) : PatternTerm := PVariable (str s).
Definition rdf_quad (s p o : string) : RdfQuad := mkQuad (NodeNamed (rdf_node s)) (rdf_node p) (TermNamedNode (rdf_node o)) GraphDefault.
Definition rdf_atom (s p o : string) : Atom := quad_atom (rdf_var s) (rdf_term p) (rdf_var o) (rdf_var "g").
(** Ancestors, and those who are not known to be parents. *)
Definition ancestor_program : Program := mkProgram
  [ Rule_new (str "base") (rdf_atom "x" "u:ancestor" "y") [rdf_atom "x" "u:parent" "y"];
    Rule_new (str "step") (rdf_atom "x" "u:ancestor" "z") [rdf_atom "x" "u:parent" "y"; rdf_atom "y" "u:ancestor" "z"];
    Rule_new_stratified (str "remote") (rdf_atom "x" "u:remote" "y") [rdf_atom "x" "u:ancestor" "y"] [rdf_atom "x" "u:parent" "y"] ].
Definition ancestor_ops : list dataset_op :=
  [OpInsert (rdf_quad "u:a" "u:parent" "u:b"); OpInsert (rdf_quad "u:b" "u:parent" "u:c"); OpInsert (rdf_quad "u:a" "u:name" "u:n")].

Definition rdf_strings : list bytes := str <$> ["u:a"; "u:b"; "u:c"; "u:n"; "u:parent"; "u:ancestor"; "u:remote"; "u:name"]%string.
Definition rdf_set (s : bytes) : Prop := s ∈ rdf_strings.
#[local] Instance rdf_set_dec (s : bytes) : Decision (rdf_set s).
Proof. unfold rdf_set. apply _. Defined.
#[local] Instance rdf_good : GoodHash rdf_set.
Proof.
  split.
  - intros s Hs. assert (Forall (fun s => 0 <= OxInterning.hash_one s <= OxInterning.u64_max) rdf_strings) as Hall by (apply (bool_decide_unpack _); vm_compute; exact I).
    by apply (proj1 (list.Forall_forall _ _) Hall).
  - intros a b Ha Hb. assert (Forall (fun a => Forall (fun b => OxInterning.hash a = OxInterning.hash b -> a = b) rdf_strings) rdf_strings) as Hall
      by (apply (bool_decide_unpack _); vm_compute; exact I).
    pose proof (proj1 (list.Forall_forall _ _) Hall a Ha) as Ha'. by apply (proj1 (list.Forall_forall _ _) Ha').
Qed.

Definition ancestor_dataset : Dataset := default OxDataset.Dataset_new (fst <$> run_ops OxDataset.Dataset_new ancestor_ops).
Definition ancestor_set : QuadSet := (spec_ops (mkQuadSet ∅ ∅) ancestor_ops).1.
Lemma ancestor_represents : represents rdf_set ancestor_dataset ancestor_set.
Proof.
  assert (Forall (op_valid rdf_set) ancestor_ops) as Hv.
  { repeat first [apply Forall_nil_2 | apply Forall_cons_2]; cbn [op_valid]; (split; [reflexivity|apply (bool_decide_unpack _); vm_compute; exact I]). }
  destruct (run_ops_spec rdf_set ancestor_ops OxDataset.Dataset_new (mkQuadSet ∅ ∅) (represents_new rdf_set) Hv) as (d & E & Hd).
  unfold ancestor_dataset. rewrite E. exact Hd.
Qed.

Definition valid_check {P : DatalogParams} : bool :=
  match PreparedRdfProgram_new ancestor_program ancestor_dataset, OxDataset.Dataset_iter ancestor_dataset with
  | Ok prepared, Some quads =>
      match Engine_evaluate calm (sample_options 1000) ValidationLimits_default (pp_program prepared) (prepared_fact_from_quad prepared <$> quads) with
      | Ok ev => forallb (fun f => match prepared_quad_from_fact prepared f with
                                   | Ok (Some q) => Quad_wf q && bool_decide (Forall rdf_set (Quad_strings q)) | _ => true end) (er_derived_facts ev)
      | Err _ => true
      end
  | _, _ => true
  end.
Lemma valid_check_sound {P : DatalogParams} : valid_check = true -> derivations_valid rdf_set calm (sample_options 1000) ancestor_program ancestor_dataset.
Proof.
  unfold valid_check. intros Hc prepared quads ev q Ep Eq Ee (f & Hf & E). rewrite Ep, Eq, Ee, forallb_forall in Hc.
  specialize (Hc f (proj1 (list_elem_of_In _ _) Hf)). rewrite E in Hc. apply andb_prop in Hc as [H1 H2]. apply bool_decide_eq_true in H2. split; [exact H1|exact H2].
Qed.

Lemma ancestor_size : len (program_atoms (p_rules ancestor_program)) < 2 ^ 31.
Proof. vm_compute. reflexivity. Qed.

Lemma rdf_evaluate_closure_witness :
  exists c, rdf_evaluate (P := text_digest) calm ancestor_program ancestor_dataset (sample_options 1000) = Ok c
    /\ OxDataset.Dataset_len (rc_inference c) = 4 /\ rdf_closure_ok rdf_set ancestor_program ancestor_set c.
Proof.
  assert (match rdf_evaluate (P := text_digest) calm ancestor_program ancestor_dataset (sample_options 1000) with
    | Ok c => OxDataset.Dataset_len (rc_inference c) =? 4 | Err _ => false end = true) as Hc by (vm_compute; reflexivity).
  pose proof (rdf_evaluate_closure (P := text_digest) rdf_set calm (sample_options 1000) ancestor_program ancestor_dataset ancestor_set) as H.
  destruct (rdf_evaluate (P := text_digest) calm ancestor_program ancestor_dataset (sample_options 1000)) as [c|e]; [|discriminate Hc].
  exists c. split; [reflexivity|]. split; [apply Z.eqb_eq; exact Hc|].
  apply (H c); [exact ancestor_represents|exact ancestor_size|apply sample_iterations|apply valid_check_sound; vm_compute; reflexivity|reflexivity].
Defined.

Lemma rdf_evaluate_failure_witness :
  exists e, rdf_evaluate (P := same_digest) calm ancestor_program ancestor_dataset (sample_options 1000) = Err e
    /\ e <> RdfNoReturn /\ rdf_failure_ok (P := same_digest) calm (sample_options 1000) ancestor_program ancestor_dataset e.
Proof.
  assert (match rdf_evaluate (P := same_digest) calm ancestor_program ancestor_dataset (sample_options 1000) with
    | Err (RdfAdapter _) => true | _ => false end = true) as Hc by (vm_compute; reflexivity).
  pose proof (rdf_evaluate_failure (P := same_digest) rdf_set calm (sample_options 1000) ancestor_program ancestor_dataset ancestor_set) as H.
  destruct (rdf_evaluate (P := same_digest) calm ancestor_program ancestor_dataset (sample_options 1000)) as [c|e]; [discriminate Hc|].
  exists e. split; [reflexivity|]. split; [intros ->; discriminate Hc|].
  apply (H e); [exact ancestor_represents|exact ancestor_size|apply sample_iterations|apply valid_check_sound; vm_compute; reflexivity|reflexivity].
Defined.
