(* ===== verification/RdfsProfile.v ===== *)
(** * The RDFS profile

    lib/oxrdfs/src/profile.rs: the validation of the input of [rdfs-d0], the
    evaluation of its program, its closure and its receipt.  The validation makes
    the checks of the engine's guard ([check] of DatalogControl) on the options it
    was given; the engine then starts with the time that is left.  The order in
    which a hash map lists its keys is a parameter. *)
From stdpp Require Import gmap.
From S2P Require OxInterning OxDataset.
From S2P Require Import Prelude MachineInt RustStr BTree RdfModel RdfDisplay DatalogIr.
From S2P Require Import DatalogControl DatalogRdf StateResult DatalogValidate DatalogStorage.
From S2P Require Import DatalogRules DatalogEngine OxDatasetFacts.

(** * The rules of the RDFS profile

    lib/oxrdfs/src/rules.rs: the eleven entailment patterns of [rdfs-d0] as a
    Datalog program over the quad relation. *)

(** ** Vocabulary *)

Definition RDFS (name : string) : RdfNamedNode :=
  mkNamedNode (str "http://www.w3.org/2000/01/rdf-schema#" ++ str name).
Definition RDF_TYPE : RdfNamedNode := RDF "type".
Definition RDF_PROPERTY : RdfNamedNode := RDF "Property".
Definition RDFS_DOMAIN : RdfNamedNode := RDFS "domain".
Definition RDFS_RANGE : RdfNamedNode := RDFS "range".
Definition RDFS_SUB_PROPERTY_OF : RdfNamedNode := RDFS "subPropertyOf".
Definition RDFS_SUB_CLASS_OF : RdfNamedNode := RDFS "subClassOf".
Definition RDFS_CLASS : RdfNamedNode := RDFS "Class".
Definition RDFS_RESOURCE : RdfNamedNode := RDFS "Resource".
Definition RDFS_MEMBER : RdfNamedNode := RDFS "member".
Definition RDFS_CONTAINER_MEMBERSHIP_PROPERTY : RdfNamedNode := RDFS "ContainerMembershipProperty".
Definition RDFS_LITERAL : RdfNamedNode := RDFS "Literal".
Definition RDFS_DATATYPE : RdfNamedNode := RDFS "Datatype".

(** ** Metadata *)

Definition W3C_SOURCE : bytes := str "https://www.w3.org/TR/2026/CR-rdf12-semantics-20260407/".
Record RdfsRule : Set := mkRdfsRule { rr_id : bytes; rr_source : bytes }.
Definition metadata (id : string) : RdfsRule := mkRdfsRule (str id) (W3C_SOURCE ++ str "#" ++ str id).
Definition IMPLEMENTED_RULES : list RdfsRule :=
  metadata <$> ["rdfs2"; "rdfs3"; "rdfs5"; "rdfs6"; "rdfs7"; "rdfs8"; "rdfs9"; "rdfs10"; "rdfs11"; "rdfs12"; "rdfs13"]%string.
Definition OMITTED_PATTERNS : list RdfsRule := metadata <$> ["rdfs1"; "rdfs4"; "rdfs14"; "rdfs14a"]%string.

(** ** Rules *)

Definition node (n : RdfNamedNode) : PatternTerm := PConstant (VTerm (TermNamedNode n)).
(** [Variable::new] of a fixed name that is not empty. *)
Definition var (name : string) : PatternTerm := PVariable (str name).
Definition rule (id : string) (head : Atom) (body : list Atom) : Rule :=
  with_source (Rule_new (str id) head body) (W3C_SOURCE ++ str "#" ++ str id).

Definition rdfs2 : Rule :=
  rule "rdfs2" (quad_atom (var "y") (node RDF_TYPE) (var "x") (var "g"))
    [quad_atom (var "a") (node RDFS_DOMAIN) (var "x") (var "g"); quad_atom (var "y") (var "a") (var "z") (var "g")].
Definition rdfs3 : Rule :=
  rule "rdfs3" (quad_atom (var "z") (node RDF_TYPE) (var "x") (var "g"))
    [quad_atom (var "a") (node RDFS_RANGE) (var "x") (var "g"); quad_atom (var "y") (var "a") (var "z") (var "g")].
Definition rdfs5 : Rule :=
  rule "rdfs5" (quad_atom (var "x") (node RDFS_SUB_PROPERTY_OF) (var "z") (var "g"))
    [quad_atom (var "x") (node RDFS_SUB_PROPERTY_OF) (var "y") (var "g");
     quad_atom (var "y") (node RDFS_SUB_PROPERTY_OF) (var "z") (var "g")].
Definition rdfs6 : Rule :=
  rule "rdfs6" (quad_atom (var "x") (node RDFS_SUB_PROPERTY_OF) (var "x") (var "g"))
    [quad_atom (var "x") (node RDF_TYPE) (node RDF_PROPERTY) (var "g")].
Definition rdfs7 : Rule :=
  rule "rdfs7" (quad_atom (var "x") (var "b") (var "y") (var "g"))
    [quad_atom (var "a") (node RDFS_SUB_PROPERTY_OF) (var "b") (var "g"); quad_atom (var "x") (var "a") (var "y") (var "g")].
Definition rdfs8 : Rule :=
  rule "rdfs8" (quad_atom (var "x") (node RDFS_SUB_CLASS_OF) (node RDFS_RESOURCE) (var "g"))
    [quad_atom (var "x") (node RDF_TYPE) (node RDFS_CLASS) (var "g")].
Definition rdfs9 : Rule :=
  rule "rdfs9" (quad_atom (var "z") (node RDF_TYPE) (var "y") (var "g"))
    [quad_atom (var "x") (node RDFS_SUB_CLASS_OF) (var "y") (var "g"); quad_atom (var "z") (node RDF_TYPE) (var "x") (var "g")].
Definition rdfs10 : Rule :=
  rule "rdfs10" (quad_atom (var "x") (node RDFS_SUB_CLASS_OF) (var "x") (var "g"))
    [quad_atom (var "x") (node RDF_TYPE) (node RDFS_CLASS) (var "g")].
Definition rdfs11 : Rule :=
  rule "rdfs11" (quad_atom (var "x") (node RDFS_SUB_CLASS_OF) (var "z") (var "g"))
    [quad_atom (var "x") (node RDFS_SUB_CLASS_OF) (var "y") (var "g");
     quad_atom (var "y") (node RDFS_SUB_CLASS_OF) (var "z") (var "g")].
Definition rdfs12 : Rule :=
  rule "rdfs12" (quad_atom (var "x") (node RDFS_SUB_PROPERTY_OF) (node RDFS_MEMBER) (var "g"))
    [quad_atom (var "x") (node RDF_TYPE) (node RDFS_CONTAINER_MEMBERSHIP_PROPERTY) (var "g")].
Definition rdfs13 : Rule :=
  rule "rdfs13" (quad_atom (var "x") (node RDFS_SUB_CLASS_OF) (node RDFS_LITERAL) (var "g"))
    [quad_atom (var "x") (node RDF_TYPE) (node RDFS_DATATYPE) (var "g")].

Definition rdfs_d0_program : Program :=
  mkProgram [rdfs2; rdfs3; rdfs5; rdfs6; rdfs7; rdfs8; rdfs9; rdfs10; rdfs11; rdfs12; rdfs13].

Definition RDFS_D0_PROFILE : bytes := str "rdfs-d0".
Definition RDFS_12_ENTAILMENT_PROFILE : bytes := str "rdfs-1.2-entailment".

(** ** Errors *)

Record RdfsD0ConformanceError : Set := mkConformanceError {
  ce_requested : bytes;
  ce_available : bytes;
  ce_implemented_rule_count : Z;
  ce_omitted_pattern_count : Z
}.
Inductive RdfsD0InputError : Set :=
| PropertyExpressionMustBeNamed (quad : RdfQuad)
| ClassExpressionMustBeResource (quad : RdfQuad)
| SchemaControlSuperproperty (target : RdfNamedNode) (quad : RdfQuad)
| SchemaControlClass (target : RdfNamedNode) (quad : RdfQuad)
| RangeOnNonResource (range_property : RdfNamedNode) (quad : RdfQuad).
(** [RdfsD0Error]; a call of the dataset that does not return is a failure of the
    evaluation, and [RdfsOutOfRounds] the bound of the loop of
    [close_ranged_properties], which is never reached. *)
Inductive RdfsD0Failure : Set :=
| RdfsInput (e : RdfsD0InputError)
| RdfsEvaluation (e : RdfFailure)
| RdfsOutOfRounds.

(** ** Schema quads *)

Definition is_resource (t : RdfTerm) : bool :=
  match t with TermNamedNode _ | TermBlankNode _ => true | _ => false end.
Definition is_schema_control (n : RdfNamedNode) : bool :=
  bool_decide (n = RDF_TYPE) || bool_decide (n = RDFS_DOMAIN) || bool_decide (n = RDFS_RANGE)
  || bool_decide (n = RDFS_SUB_PROPERTY_OF) || bool_decide (n = RDFS_SUB_CLASS_OF).
Definition subject_named (q : RdfQuad) : result RdfsD0InputError RdfNamedNode :=
  match q_subject q with NodeNamed n => Ok n | NodeBlank _ => Err (PropertyExpressionMustBeNamed q) end.
Definition object_named (q : RdfQuad) : result RdfsD0InputError RdfNamedNode :=
  match q_object q with TermNamedNode n => Ok n | _ => Err (PropertyExpressionMustBeNamed q) end.
Definition require_resource_class (q : RdfQuad) : result RdfsD0InputError unit :=
  if is_resource (q_object q) then Ok tt else Err (ClassExpressionMustBeResource q).
Definition reject_control_class (q : RdfQuad) : result RdfsD0InputError unit :=
  if bool_decide (q_object q = TermNamedNode RDFS_CONTAINER_MEMBERSHIP_PROPERTY)
  then Err (SchemaControlClass RDFS_CONTAINER_MEMBERSHIP_PROPERTY q) else Ok tt.

Definition validate_schema_quad (q : RdfQuad) : result RdfsD0InputError unit :=
  _ ← (if bool_decide (q_predicate q = RDFS_SUB_PROPERTY_OF) then
         _ ← subject_named q;
         target ← object_named q;
         if is_schema_control target then Err (SchemaControlSuperproperty target q) else Ok tt
       else Ok tt);
  _ ← (if bool_decide (q_predicate q = RDFS_DOMAIN) || bool_decide (q_predicate q = RDFS_RANGE) then
         _ ← subject_named q;
         _ ← require_resource_class q;
         reject_control_class q
       else Ok tt);
  _ ← (if bool_decide (q_predicate q = RDFS_SUB_CLASS_OF) then
         _ ← require_resource_class q;
         reject_control_class q
       else Ok tt);
  if bool_decide (q_predicate q = RDF_TYPE)
     && (bool_decide (q_object q = TermNamedNode RDF_PROPERTY)
         || bool_decide (q_object q = TermNamedNode RDFS_CONTAINER_MEMBERSHIP_PROPERTY))
  then _ ← subject_named q; Ok tt
  else Ok tt.

(** ** The schema of a graph *)

Record GraphSchema : Set := mkGraphSchema {
  reverse_subproperties : gmap RdfNamedNode (list RdfNamedNode);
  ranged_properties : gset RdfNamedNode
}.
Definition GraphSchema_default : GraphSchema := mkGraphSchema ∅ ∅.
(** [reverse_subproperties.entry(superproperty).or_default().push(property)] *)
Definition push_subproperty (s : GraphSchema) (superproperty property : RdfNamedNode) : GraphSchema :=
  mkGraphSchema (<[superproperty := default [] (reverse_subproperties s !! superproperty) ++ [property]]> (reverse_subproperties s))
    (ranged_properties s).
Definition insert_ranged (s : GraphSchema) (property : RdfNamedNode) : GraphSchema :=
  mkGraphSchema (reverse_subproperties s) ({[property]} ∪ ranged_properties s).

(** The order of hash maps and sets. *)
Class HashOrder := {
  schema_keys : gmap RdfGraphName GraphSchema -> list RdfGraphName;
  property_list : gset RdfNamedNode -> list RdfNamedNode
}.

Definition estimated_node_bytes (n : RdfNamedNode) : Z := saturating_add 64 (len (nn_iri n)).

Section validation.
  Context {P : DatalogParams} {I : InternerParams} {O : HashOrder} (env : Environment) (options : EvaluationOptions).

Abbreviation R := (ST Exec RdfsD0Failure).

Definition control_error (e : failure) : RdfsD0Failure := RdfsEvaluation (RdfEvaluation e).
Definition check_control : R unit := fun s => map_err control_error (check env options s).
Definition check_schema_memory (estimated_bytes : Z) : R unit :=
  if estimated_bytes >? el_max_memory_bytes (eo_limits options)
  then throw (control_error (Raised (LimitExceeded LimitMemory (el_max_memory_bytes (eo_limits options)))))
  else mret tt.
Definition input {A : Type} (r : result RdfsD0InputError A) : R A := lift (map_err RdfsInput r).

(** The schemas by graph, and their estimated size. *)
Abbreviation Schemas := (gmap RdfGraphName GraphSchema * Z)%type (only parsing).

(** The body of the first loop of [validate_input]. *)
Definition record_schema (acc : Schemas) (quad : RdfQuad) : R Schemas :=
  check_control;;
  input (validate_schema_quad quad);;
  let '(schemas, schema_bytes) := acc in
  let graph_schema := default GraphSchema_default (schemas !! q_graph_name quad) in
  let put (s : GraphSchema) (added_bytes : Z) : R Schemas :=
    check_schema_memory (saturating_add schema_bytes added_bytes);;
    mret (<[q_graph_name quad := s]> schemas, saturating_add schema_bytes added_bytes) in
  if bool_decide (q_predicate quad = RDFS_SUB_PROPERTY_OF) then
    property ← input (subject_named quad);
    superproperty ← input (object_named quad);
    put (push_subproperty graph_schema superproperty property)
      (saturating_add (saturating_add 96 (len (nn_iri property))) (len (nn_iri superproperty)))
  else if bool_decide (q_predicate quad = RDFS_RANGE) then
    property ← input (subject_named quad);
    put (insert_ranged graph_schema property) (saturating_add 64 (len (nn_iri property)))
  else if bool_decide (q_predicate quad = RDF_TYPE)
          && bool_decide (q_object quad = TermNamedNode RDFS_CONTAINER_MEMBERSHIP_PROPERTY) then
    property ← input (subject_named quad);
    put (push_subproperty graph_schema RDFS_MEMBER property) (saturating_add 96 (len (nn_iri property)))
  else mret (<[q_graph_name quad := graph_schema]> schemas, schema_bytes).

(** ** The properties that inherit a range *)

(** The state of the loop; the last element of the [Vec] is the first here. *)
Record Closing : Set := mkClosing {
  cl_pending : list RdfNamedNode;
  cl_ranged : gset RdfNamedNode;
  cl_schema_bytes : Z;
  cl_pending_bytes : Z
}.
Definition close_subproperty (c : Closing) (subproperty : RdfNamedNode) : R Closing :=
  check_control;;
  if bool_decide (subproperty ∈ cl_ranged c) then mret c
  else
    let added_bytes := estimated_node_bytes subproperty in
    let projected_schema := saturating_add (cl_schema_bytes c) added_bytes in
    let projected_pending := saturating_add (cl_pending_bytes c) added_bytes in
    check_schema_memory (saturating_add projected_schema projected_pending);;
    mret (mkClosing (subproperty :: cl_pending c) ({[subproperty]} ∪ cl_ranged c) projected_schema projected_pending).
Definition close_property (reverse : gmap RdfNamedNode (list RdfNamedNode)) (c : Closing) : R (Closing + Closing) :=
  match cl_pending c with
  | [] => mret (inr c)
  | property :: pending =>
      check_control;;
      let pending_bytes := saturating_sub (cl_pending_bytes c) (estimated_node_bytes property) in
      let c := mkClosing pending (cl_ranged c) (cl_schema_bytes c) pending_bytes in
      c ← match reverse !! property with
          | Some subproperties => for_each close_subproperty c subproperties
          | None => mret c
          end;
      mret (inl c)
  end.
(** Every round takes a property, and each property is pushed once. *)
Definition close_rounds (s : GraphSchema) : nat :=
  (size (ranged_properties s) + length (mbind (M := list) snd (map_to_list (reverse_subproperties s))) + 1)%nat.
Definition close_ranged_properties (s : GraphSchema) (schema_bytes : Z) : R (GraphSchema * Z) :=
  check_control;;
  let pending := property_list (ranged_properties s) in
  let pending_bytes := saturating_sum estimated_node_bytes 0 pending in
  check_schema_memory (saturating_add schema_bytes pending_bytes);;
  r ← while_loop (close_rounds s) (close_property (reverse_subproperties s))
        (mkClosing (rev pending) (ranged_properties s) schema_bytes pending_bytes);
  match r with
  | inr c => mret (mkGraphSchema (reverse_subproperties s) (cl_ranged c), cl_schema_bytes c)
  | inl _ => throw RdfsOutOfRounds
  end.
(** One step of the loop over the schemas. *)
Definition close_schema (acc : Schemas) (g : RdfGraphName) : R Schemas :=
  let '(schemas, schema_bytes) := acc in
  match schemas !! g with
  | Some s => r ← close_ranged_properties s schema_bytes; mret (<[g := r.1]> schemas, r.2)
  | None => mret acc
  end.

(** The body of the last loop of [validate_input]. *)
Definition check_range (schemas : gmap RdfGraphName GraphSchema) (u : unit) (quad : RdfQuad) : R unit :=
  check_control;;
  if negb (is_resource (q_object quad))
     && match schemas !! q_graph_name quad with
        | Some s => bool_decide (q_predicate quad ∈ ranged_properties s)
        | None => false
        end
  then throw (RdfsInput (RangeOnNonResource (q_predicate quad) quad))
  else mret tt.

Definition validate_input (dataset : Dataset) : R unit :=
  check_control;;
  (if OxDataset.Dataset_len dataset >? el_max_facts (eo_limits options)
   then throw (control_error (Raised (LimitExceeded LimitFacts (el_max_facts (eo_limits options)))))
   else mret tt);;
  quads ← lift (ok_or (RdfsEvaluation RdfNoReturn) (OxDataset.Dataset_iter dataset));
  acc ← for_each record_schema (∅, 0) quads;
  acc ← for_each close_schema acc (schema_keys acc.1);
  for_each (check_range acc.1) tt quads.
End validation.

(** ** Evaluation *)

(** [EntailedDataset], the base and the inference are those of the closure. *)
Record RdfsD0Closure : Set := mkRdfsD0Closure { inner : RdfClosure }.

Section evaluation.
  Context {P : DatalogParams} {I : InternerParams} {O : HashOrder}.

(** The options with the time that is left.  The token shares its flag and its
    callback with the clone: the checks made so far are counted. *)
Definition remaining_options (options : EvaluationOptions) (elapsed : Z) (s : Exec) : EvaluationOptions :=
  let l := eo_limits options in
  mkEvaluationOptions
    (mkEvaluationLimits (el_max_facts l) (el_max_intermediate_rows l) (el_max_iterations l) (el_max_memory_bytes l) (el_max_term_bytes l)
       ((fun timeout => saturating_sub timeout elapsed) <$> el_timeout l))
    (eo_track_provenance options)
    (mkCancellationToken (ct_cancelled (x_token s)) ((fun ask n => ask (x_now s + n)%nat) <$> ct_check (x_token s))).

(** The checks of the validation see [env], those of the engine, which measures
    its time from its own start, [engine_env]. *)
Definition RdfsD0_evaluate (env engine_env : Environment) (base : Dataset) (options : EvaluationOptions)
  : result RdfsD0Failure RdfsD0Closure :=
  validated ← (validate_input env options base;; check_control env options) (Exec_new options);
  let s := validated.2 in
  let remaining := remaining_options options (mo_elapsed (env (x_now s))) s in
  closure ← map_err RdfsEvaluation (rdf_evaluate engine_env rdfs_d0_program base remaining);
  Ok (mkRdfsD0Closure closure).

Definition require_full_conformance : result RdfsD0ConformanceError unit :=
  Err (mkConformanceError RDFS_12_ENTAILMENT_PROFILE RDFS_D0_PROFILE (len IMPLEMENTED_RULES) (len OMITTED_PATTERNS)).

(** ** The receipt *)

Record RdfsD0Receipt : Set := mkRdfsD0Receipt {
  rrd_profile : bytes;
  rrd_implemented_rule_count : Z;
  rrd_base_quads : Z;
  rrd_derived_quads : Z;
  rrd_iterations : Z;
  rrd_estimated_memory_bytes : Z;
  rrd_canonical_inference_nquads : bytes
}.
Definition RdfsD0Closure_receipt (c : RdfsD0Closure) : option RdfsD0Receipt :=
  text ← canonical_inference_nquads (inner c);
  Some (mkRdfsD0Receipt RDFS_D0_PROFILE (len IMPLEMENTED_RULES) (OxDataset.Dataset_len (rc_base (inner c)))
          (OxDataset.Dataset_len (rc_inference (inner c))) (er_iterations (rc_evaluation (inner c)))
          (estimated_memory_bytes (rc_evaluation (inner c))) text).
Definition RdfsD0Receipt_canonical_text (r : RdfsD0Receipt) : bytes :=
  str "profile=" ++ rrd_profile r ++ newline
  ++ str "implemented-rules=" ++ print_nat (rrd_implemented_rule_count r) ++ newline
  ++ str "base-quads=" ++ print_nat (rrd_base_quads r) ++ newline
  ++ str "derived-quads=" ++ print_nat (rrd_derived_quads r) ++ newline
  ++ str "iterations=" ++ print_nat (rrd_iterations r) ++ newline
  ++ str "estimated-memory-bytes=" ++ print_nat (rrd_estimated_memory_bytes r) ++ newline
  ++ str "---" ++ newline ++ rrd_canonical_inference_nquads r.
End evaluation.
