(* ===== verification/RdfsSpec.v ===== *)
(** * What the RDFS profile means

    The consequences of a set of quads under the eleven patterns, graph by graph,
    and the Datalog program of RdfsProfile as a relation between values: what an
    instance of one of its rules derives. *)
From stdpp Require Import gmap.
From S2P Require Import Prelude MachineInt RustStr BTree RdfModel RdfDisplay DatalogIr.
From S2P Require Import StateResult DatalogValidate DatalogValidateFacts DatalogControl.
From S2P Require Import DatalogStorage DatalogRules DatalogEngine DatalogSpec.
From S2P Require OxInterning OxDataset.
From S2P Require Import OxInterningFacts OxDatasetFacts DatalogRdf DatalogRdfFacts RdfsProfile.

(** ** Consequences of quads *)

Inductive rdfs_entails (X : RdfQuad -> Prop) : RdfQuad -> Prop :=
| entails_base q : X q -> rdfs_entails X q
| entails2 a x y z g :
    rdfs_entails X (mkQuad (NodeNamed a) RDFS_DOMAIN x g) -> rdfs_entails X (mkQuad y a z g) ->
    rdfs_entails X (mkQuad y RDF_TYPE x g)
| entails3 a x y z g :
    rdfs_entails X (mkQuad (NodeNamed a) RDFS_RANGE x g) -> rdfs_entails X (mkQuad y a (Term_from_node z) g) ->
    rdfs_entails X (mkQuad z RDF_TYPE x g)
| entails5 x y z g :
    rdfs_entails X (mkQuad x RDFS_SUB_PROPERTY_OF (Term_from_node y) g) -> rdfs_entails X (mkQuad y RDFS_SUB_PROPERTY_OF z g) ->
    rdfs_entails X (mkQuad x RDFS_SUB_PROPERTY_OF z g)
| entails6 x g :
    rdfs_entails X (mkQuad x RDF_TYPE (TermNamedNode RDF_PROPERTY) g) ->
    rdfs_entails X (mkQuad x RDFS_SUB_PROPERTY_OF (Term_from_node x) g)
| entails7 a b x y g :
    rdfs_entails X (mkQuad (NodeNamed a) RDFS_SUB_PROPERTY_OF (TermNamedNode b) g) -> rdfs_entails X (mkQuad x a y g) ->
    rdfs_entails X (mkQuad x b y g)
| entails8 x g :
    rdfs_entails X (mkQuad x RDF_TYPE (TermNamedNode RDFS_CLASS) g) ->
    rdfs_entails X (mkQuad x RDFS_SUB_CLASS_OF (TermNamedNode RDFS_RESOURCE) g)
| entails9 x y z g :
    rdfs_entails X (mkQuad x RDFS_SUB_CLASS_OF y g) -> rdfs_entails X (mkQuad z RDF_TYPE (Term_from_node x) g) ->
    rdfs_entails X (mkQuad z RDF_TYPE y g)
| entails10 x g :
    rdfs_entails X (mkQuad x RDF_TYPE (TermNamedNode RDFS_CLASS) g) ->
    rdfs_entails X (mkQuad x RDFS_SUB_CLASS_OF (Term_from_node x) g)
| entails11 x y z g :
    rdfs_entails X (mkQuad x RDFS_SUB_CLASS_OF (Term_from_node y) g) -> rdfs_entails X (mkQuad y RDFS_SUB_CLASS_OF z g) ->
    rdfs_entails X (mkQuad x RDFS_SUB_CLASS_OF z g)
| entails12 x g :
    rdfs_entails X (mkQuad x RDF_TYPE (TermNamedNode RDFS_CONTAINER_MEMBERSHIP_PROPERTY) g) ->
    rdfs_entails X (mkQuad x RDFS_SUB_PROPERTY_OF (TermNamedNode RDFS_MEMBER) g)
| entails13 x g :
    rdfs_entails X (mkQuad x RDF_TYPE (TermNamedNode RDFS_DATATYPE) g) ->
    rdfs_entails X (mkQuad x RDFS_SUB_CLASS_OF (TermNamedNode RDFS_LITERAL) g).

(** ** One step of the program, on values *)

Definition nv (n : RdfNamedNode) : Value := VTerm (TermNamedNode n).
Definition quad_fact (s p o g : Value) : Fact := mkFact quad_relation [s; p; o; g].

Section step.
  Context (M : Value -> Value -> Value -> Value -> Prop).

Inductive rdfs_step : Value -> Value -> Value -> Value -> Prop :=
| step2 a x y z g : M a (nv RDFS_DOMAIN) x g -> M y a z g -> rdfs_step y (nv RDF_TYPE) x g
| step3 a x y z g : M a (nv RDFS_RANGE) x g -> M y a z g -> rdfs_step z (nv RDF_TYPE) x g
| step5 x y z g : M x (nv RDFS_SUB_PROPERTY_OF) y g -> M y (nv RDFS_SUB_PROPERTY_OF) z g -> rdfs_step x (nv RDFS_SUB_PROPERTY_OF) z g
| step6 x g : M x (nv RDF_TYPE) (nv RDF_PROPERTY) g -> rdfs_step x (nv RDFS_SUB_PROPERTY_OF) x g
| step7 a b x y g : M a (nv RDFS_SUB_PROPERTY_OF) b g -> M x a y g -> rdfs_step x b y g
| step8 x g : M x (nv RDF_TYPE) (nv RDFS_CLASS) g -> rdfs_step x (nv RDFS_SUB_CLASS_OF) (nv RDFS_RESOURCE) g
| step9 x y z g : M x (nv RDFS_SUB_CLASS_OF) y g -> M z (nv RDF_TYPE) x g -> rdfs_step z (nv RDF_TYPE) y g
| step10 x g : M x (nv RDF_TYPE) (nv RDFS_CLASS) g -> rdfs_step x (nv RDFS_SUB_CLASS_OF) x g
| step11 x y z g : M x (nv RDFS_SUB_CLASS_OF) y g -> M y (nv RDFS_SUB_CLASS_OF) z g -> rdfs_step x (nv RDFS_SUB_CLASS_OF) z g
| step12 x g : M x (nv RDF_TYPE) (nv RDFS_CONTAINER_MEMBERSHIP_PROPERTY) g -> rdfs_step x (nv RDFS_SUB_PROPERTY_OF) (nv RDFS_MEMBER) g
| step13 x g : M x (nv RDF_TYPE) (nv RDFS_DATATYPE) g -> rdfs_step x (nv RDFS_SUB_CLASS_OF) (nv RDFS_LITERAL) g.
End step.

(** An atom of the quad relation under a substitution. *)
Lemma ground_quad (σ : gmap VarName Value) (s p o g : PatternTerm) (f : Fact) :
  ground_atom σ (quad_atom s p o g) = Some f <->
  exists vs vp vo vg, ground_term σ s = Some vs /\ ground_term σ p = Some vp /\ ground_term σ o = Some vo /\ ground_term σ g = Some vg
    /\ f = quad_fact vs vp vo vg.
Proof.
  unfold ground_atom, quad_atom. cbn [a_terms a_relation]. rewrite fmap_Some. setoid_rewrite mapM_Some. split.
  - intros (vs & Hv & ->). repeat (inversion Hv as [|? ? ? ? ? Hv']; subst; clear Hv; rename Hv' into Hv). inversion Hv; subst. do 4 eexists. done.
  - intros (vs & vp & vo & vg & H1 & H2 & H3 & H4 & ->). exists [vs; vp; vo; vg]. split; [|done]. by repeat constructor.
Qed.

(** The facts of the body of an instance. *)
Lemma fires_Forall (M A : Fact -> Prop) (r : Rule) (σ : gmap VarName Value) :
  fires M A r σ -> Forall (fun a => exists f, ground_atom σ a = Some f /\ M f) (r_positive_body r).
Proof. intros [_ H _]. apply list.Forall_forall. exact H. Qed.

(** Open the atoms of an instance: the values of its variables. *)
Ltac open_atom H :=
  let f := fresh "f" in let Hg := fresh "Hg" in let HM := fresh "HM" in
  destruct H as (f & Hg & HM);
  apply ground_quad in Hg as (? & ? & ? & ? & ? & ? & ? & ? & ->).
Ltac open_instance :=
  repeat match goal with
  | H : Forall _ (_ :: _) |- _ => let H1 := fresh "H" in apply Forall_cons_1 in H as [H1 H]; open_atom H1
  | H : Forall _ [] |- _ => clear H
  end;
  cbn [ground_term var node] in *; simplify_eq.

Lemma instance_step (M A : Fact -> Prop) (sk : RuleId -> BlankNodeGenerator -> gmap VarName Value -> Value) (r : Rule)
  (σ : gmap VarName Value) (f : Fact) :
  r ∈ p_rules rdfs_d0_program -> fires M A r σ -> head_fact sk r σ = Some f ->
  exists s p o g, f = quad_fact s p o g /\ rdfs_step (fun s p o g => M (quad_fact s p o g)) s p o g.
Proof.
  intros Hr Hf Hh. apply fires_Forall in Hf.
  assert (ground_atom σ (r_head r) = Some f) as Hg.
  { rewrite <- Hh. revert Hr. clear. cbn [p_rules rdfs_d0_program]. rewrite !elem_of_cons. intros Hr. repeat destruct Hr as [-> |Hr]; [done..|by apply elem_of_nil in Hr]. }
  clear Hh. cbn [p_rules rdfs_d0_program] in Hr. rewrite !elem_of_cons in Hr.
  repeat destruct Hr as [-> |Hr]; [..|by apply elem_of_nil in Hr].
  all: unfold rdfs2, rdfs3, rdfs5, rdfs6, rdfs7, rdfs8, rdfs9, rdfs10, rdfs11, rdfs12, rdfs13, rule in *; cbn [r_head r_positive_body with_source Rule_new] in *.
  all: apply ground_quad in Hg as (? & ? & ? & ? & ? & ? & ? & ? & ->).
  all: open_instance.
  all: do 4 eexists; split; [reflexivity|].
  all: econstructor; eassumption.
Qed.

(** Every step is an instance: the rule [r] with the bindings [l]. *)
Lemma step_fires (M : Fact -> Prop) (sk : RuleId -> BlankNodeGenerator -> gmap VarName Value -> Value) (r : Rule)
  (l : list (VarName * Value)) (f : Fact) :
  r ∈ p_rules rdfs_d0_program -> list_to_set (l.*1) = body_variables (r_positive_body r) -> r_negative_body r = [] ->
  Forall (fun a => exists g, ground_atom (list_to_map l) a = Some g /\ M g) (r_positive_body r) ->
  head_fact sk r (list_to_map l) = Some f ->
  exists r σ, r ∈ p_rules rdfs_d0_program /\ fires M M r σ /\ head_fact sk r σ = Some f.
Proof.
  intros Hr Hd Hn Hb Hh. exists r, (list_to_map l). split; [done|]. split; [|done]. split.
  - by rewrite dom_list_to_map_L.
  - by apply list.Forall_forall.
  - rewrite Hn. intros a Ha. by apply elem_of_nil in Ha.
Qed.
Ltac fire r l :=
  apply (step_fires _ _ r l);
  [apply list_elem_of_In; cbn [p_rules rdfs_d0_program]; repeat (first [left; reflexivity | right])
  |vm_compute; reflexivity
  |reflexivity
  |repeat constructor; (eexists; split; [reflexivity|eassumption])
  |reflexivity].
Lemma step_instance (M : Fact -> Prop) (sk : RuleId -> BlankNodeGenerator -> gmap VarName Value -> Value) (s p o g : Value) :
  rdfs_step (fun s p o g => M (quad_fact s p o g)) s p o g ->
  exists r σ, r ∈ p_rules rdfs_d0_program /\ fires M M r σ /\ head_fact sk r σ = Some (quad_fact s p o g).
Proof.
  intros [a x y z g0 H1 H2|a x y z g0 H1 H2|x y z g0 H1 H2|x g0 H1|a b x y g0 H1 H2|x g0 H1|x y z g0 H1 H2|x g0 H1|x y z g0 H1 H2|x g0 H1|x g0 H1].
  - fire rdfs2 [(str "a", a); (str "x", x); (str "g", g0); (str "y", y); (str "z", z)].
  - fire rdfs3 [(str "a", a); (str "x", x); (str "g", g0); (str "y", y); (str "z", z)].
  - fire rdfs5 [(str "x", x); (str "y", y); (str "g", g0); (str "z", z)].
  - fire rdfs6 [(str "x", x); (str "g", g0)].
  - fire rdfs7 [(str "a", a); (str "b", b); (str "g", g0); (str "x", x); (str "y", y)].
  - fire rdfs8 [(str "x", x); (str "g", g0)].
  - fire rdfs9 [(str "x", x); (str "y", y); (str "g", g0); (str "z", z)].
  - fire rdfs10 [(str "x", x); (str "g", g0)].
  - fire rdfs11 [(str "x", x); (str "y", y); (str "g", g0); (str "z", z)].
  - fire rdfs12 [(str "x", x); (str "g", g0)].
  - fire rdfs13 [(str "x", x); (str "g", g0)].
Qed.

(** ** The closure of a set of quads *)

Lemma fact_from_quad_vals (s : RdfNamedOrBlankNode) (p : RdfNamedNode) (o : RdfTerm) (g : RdfGraphName) :
  fact_from_quad (mkQuad s p o g) = quad_fact (VTerm (Term_from_node s)) (nv p) (VTerm o) (graph_value g).
Proof. done. Qed.

Lemma legal_inv (s p o g : Value) (q : RdfQuad) :
  quad_fact s p o g = fact_from_quad q ->
  s = VTerm (Term_from_node (q_subject q)) /\ p = nv (q_predicate q) /\ o = VTerm (q_object q) /\ g = graph_value (q_graph_name q).
Proof. by intros [= -> -> -> ->]. Qed.
#[global] Instance Term_from_node_inj : Inj (=) (=) Term_from_node.
Proof. intros [a|a] [b|b]; cbn; congruence. Qed.
#[global] Instance graph_value_inj : Inj (=) (=) graph_value.
Proof. intros [a|a|] [b|b|]; cbn; congruence. Qed.

Section closure.
  Context (sk : RuleId -> BlankNodeGenerator -> gmap VarName Value -> Value) (X Y : RdfQuad -> Prop) (M : Fact -> Prop).
  Hypothesis Hfix : fixpoint_of sk (p_rules rdfs_d0_program) (fun f => exists q, X q /\ f = fact_from_quad q) M.
  Hypothesis Hlegal : forall f, M f <-> exists q, Y q /\ f = fact_from_quad q.

(** Legal consequences are in the closure. *)
Lemma closed_step (s : RdfNamedOrBlankNode) (p : RdfNamedNode) (o : RdfTerm) (g : RdfGraphName) :
  rdfs_step (fun s p o g => M (quad_fact s p o g)) (VTerm (Term_from_node s)) (nv p) (VTerm o) (graph_value g) -> Y (mkQuad s p o g).
Proof.
  intros Hs. destruct (step_instance M sk _ _ _ _ Hs) as (r & σ & Hr & Hf & Hh).
  apply (fx_closed _ _ _ _ Hfix r σ _ Hr Hf) in Hh. apply Hlegal in Hh as (q & Hq & E).
  by rewrite (fact_from_quad_inj (mkQuad s p o g) q E).
Qed.
Lemma legal_fact (q : RdfQuad) : Y q -> M (quad_fact (VTerm (Term_from_node (q_subject q))) (nv (q_predicate q)) (VTerm (q_object q)) (graph_value (q_graph_name q))).
Proof. intros Hq. apply Hlegal. by exists q. Qed.
Lemma entails_closure (q : RdfQuad) : rdfs_entails X q -> Y q.
Proof.
  induction 1 as [q Hq|a x y z g _ H1 _ H2|a x y z g _ H1 _ H2|x y z g _ H1 _ H2|x g _ H1|a b x y g _ H1 _ H2|x g _ H1|x y z g _ H1 _ H2|x g _ H1|x y z g _ H1 _ H2|x g _ H1|x g _ H1].
  { assert (M (fact_from_quad q)) as (q' & Hq' & E)%Hlegal by (apply (fx_input _ _ _ _ Hfix); by exists q). by rewrite (fact_from_quad_inj q q' E). }
  all: apply legal_fact in H1; try apply legal_fact in H2; cbn [q_subject q_predicate q_object q_graph_name] in *; apply closed_step.
  - eapply step2; [exact H1|exact H2].
  - eapply step3; [exact H1|exact H2].
  - eapply step5; [exact H1|exact H2].
  - by apply step6.
  - eapply step7; [exact H1|exact H2].
  - by apply step8.
  - eapply step9; [exact H1|exact H2].
  - by apply step10.
  - eapply step11; [exact H1|exact H2].
  - by apply step12.
  - by apply step13.
Qed.

(** The closure has nothing else. *)
Let E (f : Fact) : Prop := M f /\ exists q, rdfs_entails X q /\ f = fact_from_quad q.
Lemma entails_step (s p o g : Value) (q : RdfQuad) :
  rdfs_step (fun s p o g => E (quad_fact s p o g)) s p o g -> quad_fact s p o g = fact_from_quad q -> rdfs_entails X q.
Proof.
  intros Hs Hq. destruct q as [sq pq oq gq].
  apply legal_inv in Hq as (Es & Ep & Eo & Eg). cbn [q_subject q_predicate q_object q_graph_name] in *.
  destruct Hs as [a x y z g H1 H2|a x y z g H1 H2|x y z g H1 H2|x g H1|a b x y g H1 H2|x g H1|x y z g H1 H2|x g H1|x y z g H1 H2|x g H1|x g H1].
  all: destruct H1 as [_ (q1 & X1 & E1)]; apply legal_inv in E1 as (A1 & A2 & A3 & A4); destruct q1 as [s1 p1 o1 g1];
    try (destruct H2 as [_ (q2 & X2 & E2)]; apply legal_inv in E2 as (B1 & B2 & B3 & B4); destruct q2 as [s2 p2 o2 g2]);
    cbn [q_subject q_predicate q_object q_graph_name] in *; unfold nv in *; simplify_eq.
  all: try match goal with H : Term_from_node ?s = TermNamedNode _ |- _ => destruct s; [|discriminate H]; injection H as [= ->] end.
  - eapply entails2; [exact X1|exact X2].
  - eapply entails3; [exact X1|exact X2].
  - eapply entails5; [exact X1|exact X2].
  - by apply entails6.
  - eapply entails7; [exact X1|exact X2].
  - by apply entails8.
  - eapply entails9; [exact X1|exact X2].
  - by apply entails10.
  - eapply entails11; [exact X1|exact X2].
  - by apply entails12.
  - by apply entails13.
Qed.
Lemma rdfs_d0_positive (r : Rule) : r ∈ p_rules rdfs_d0_program -> is_positive r = true.
Proof.
  intros Hr. assert (forallb is_positive (p_rules rdfs_d0_program) = true) as H by reflexivity.
  rewrite forallb_forall in H. apply H. by apply list_elem_of_In.
Qed.
Lemma closure_entails (q : RdfQuad) : Y q -> rdfs_entails X q.
Proof.
  intros Hq. assert (M (fact_from_quad q)) as HM by (apply Hlegal; by exists q).
  assert (E (fact_from_quad q)) as [_ (q' & Hq' & Eq)]; [|by rewrite (fact_from_quad_inj q q' Eq)].
  apply (fx_least _ _ _ _ Hfix rdfs_d0_positive E); [| |done].
  - intros f Hf. split; [by apply (fx_input _ _ _ _ Hfix)|]. destruct Hf as (q' & Hq' & ->). exists q'. split; [by apply entails_base|done].
  - intros r σ f Hr Hf Hh. destruct (instance_step E E sk r σ f Hr Hf Hh) as (s & p & o & g & -> & Hs).
    assert (M (quad_fact s p o g)) as HM'.
    { apply (fx_closed _ _ _ _ Hfix r σ); [done| |done]. destruct Hf as [F1 F2 F3]. split; [done| |].
      - intros a Ha. destruct (F2 a Ha) as (h & Hg & [Hh' _]). by exists h.
      - intros a Ha. destruct (F3 a Ha) as (h & Hg & Hn). pose proof (rdfs_d0_positive r Hr) as Hpos. unfold is_positive in Hpos.
        destruct (r_negative_body r); [by apply elem_of_nil in Ha|done]. }
    split; [done|]. apply Hlegal in HM' as (q' & Hq' & Eq). exists q'. split; [|done]. by apply (entails_step s p o g).
Qed.
End closure.
