(* ===== verification/RdfsSafe.v ===== *)
(** * The input of the RDFS profile

    What the validation of [rdfs-d0] asks of a set of quads, and why: every
    consequence of valid input is a quad again, with the schema statements that
    the rules may use declared in the input. *)
From stdpp Require Import gmap.
From S2P Require Import Prelude MachineInt RustStr BTree RdfModel RdfDisplay DatalogIr.
From S2P Require Import DatalogControl DatalogStorage DatalogRules DatalogEngine DatalogSpec.
From S2P Require OxInterning OxDataset.
From S2P Require Import OxInterningFacts OxDatasetFacts DatalogRdf DatalogRdfFacts.
From S2P Require Import RdfsProfile RdfsSpec.

(** ** Valid input *)

(** What the validation asks of one quad. *)
Record schema_quad_ok (q : RdfQuad) : Prop := {
  so_sub_property : q_predicate q = RDFS_SUB_PROPERTY_OF ->
    exists a b, q_subject q = NodeNamed a /\ q_object q = TermNamedNode b /\ is_schema_control b = false;
  so_class : q_predicate q = RDFS_DOMAIN \/ q_predicate q = RDFS_RANGE \/ q_predicate q = RDFS_SUB_CLASS_OF ->
    is_resource (q_object q) = true /\ q_object q <> TermNamedNode RDFS_CONTAINER_MEMBERSHIP_PROPERTY;
  so_subject : q_predicate q = RDFS_DOMAIN \/ q_predicate q = RDFS_RANGE -> exists a, q_subject q = NodeNamed a;
  so_type : q_predicate q = RDF_TYPE ->
    q_object q = TermNamedNode RDF_PROPERTY \/ q_object q = TermNamedNode RDFS_CONTAINER_MEMBERSHIP_PROPERTY ->
    exists a, q_subject q = NodeNamed a
}.

Section input.
  Context (X : gset RdfQuad).

(** A declared subproperty, also by container membership. *)
Definition declared_sub (g : RdfGraphName) (a b : RdfNamedNode) : Prop :=
  mkQuad (NodeNamed a) RDFS_SUB_PROPERTY_OF (TermNamedNode b) g ∈ X
  \/ (b = RDFS_MEMBER /\ mkQuad (NodeNamed a) RDF_TYPE (TermNamedNode RDFS_CONTAINER_MEMBERSHIP_PROPERTY) g ∈ X).
Definition declared_range (g : RdfGraphName) (p : RdfNamedNode) : Prop := exists c, mkQuad (NodeNamed p) RDFS_RANGE c g ∈ X.
(** A property whose statements fall under a range. *)
Definition ranged (g : RdfGraphName) (p : RdfNamedNode) : Prop := exists r, rtc (declared_sub g) p r /\ declared_range g r.

Record rdfs_input_ok : Prop := {
  io_schema : forall q, q ∈ X -> schema_quad_ok q;
  io_range : forall q, q ∈ X -> ranged (q_graph_name q) (q_predicate q) -> is_resource (q_object q) = true
}.
End input.

(** ** Vocabulary *)

(** The names are different. *)
Ltac differ :=
  exfalso;
  match goal with
  | H : ?a = ?b |- False => revert H; vm_compute; discriminate
  end.

(** ** Safe consequences *)

Section safe.
  Context (S : bytes -> Prop) (X : gset RdfQuad).
  Hypothesis Hin : rdfs_input_ok X.
  Hypothesis Hquads : forall q, q ∈ X -> Quad_wf q = true /\ Forall S (Quad_strings q).
  Hypothesis Hvocabulary : Forall (fun n => S (nn_iri n))
    [RDF_TYPE; RDFS_SUB_PROPERTY_OF; RDFS_SUB_CLASS_OF; RDFS_RESOURCE; RDFS_MEMBER; RDFS_LITERAL].

Definition node_ok (n : RdfNamedOrBlankNode) : Prop := Node_wf n = true /\ Forall S (Node_strings n).
Definition term_ok (t : RdfTerm) : Prop := Term_wf t = true /\ Forall S (Term_strings t).
Definition graph_ok (g : RdfGraphName) : Prop := Graph_wf g = true /\ Forall S (Graph_strings g).
Definition quad_ok (q : RdfQuad) : Prop := Quad_wf q = true /\ Forall S (Quad_strings q).
Lemma quad_ok_spec (s : RdfNamedOrBlankNode) (p : RdfNamedNode) (o : RdfTerm) (g : RdfGraphName) :
  quad_ok (mkQuad s p o g) <-> node_ok s /\ S (nn_iri p) /\ term_ok o /\ graph_ok g.
Proof.
  unfold quad_ok, Quad_wf, Quad_strings, node_ok, term_ok, graph_ok. cbn [q_subject q_predicate q_object q_graph_name].
  rewrite !andb_true_iff, Forall_app, list.Forall_cons, Forall_app. tauto.
Qed.
Lemma term_ok_node (n : RdfNamedOrBlankNode) : term_ok (Term_from_node n) <-> node_ok n.
Proof. by destruct n. Qed.
Lemma term_ok_named (n : RdfNamedNode) : term_ok (TermNamedNode n) <-> S (nn_iri n).
Proof. unfold term_ok. cbn [Term_wf Term_strings]. rewrite list.Forall_singleton. tauto. Qed.
Lemma resource_node (t : RdfTerm) : is_resource t = true -> exists n, t = Term_from_node n.
Proof. destruct t as [n|n|l|? ? ?]; try done; intros _; [by exists (NodeNamed n)|by exists (NodeBlank n)]. Qed.
Lemma node_resource (n : RdfNamedOrBlankNode) : is_resource (Term_from_node n) = true.
Proof. by destruct n. Qed.

Record safe (q : RdfQuad) : Prop := {
  sf_ok : quad_ok q;
  sf_declared : q_predicate q = RDFS_DOMAIN \/ q_predicate q = RDFS_RANGE -> q ∈ X;
  sf_subproperty : q_predicate q = RDFS_SUB_PROPERTY_OF ->
    q_object q = Term_from_node (q_subject q)
    \/ exists a b, q_subject q = NodeNamed a /\ q_object q = TermNamedNode b /\ tc (declared_sub X (q_graph_name q)) a b;
  sf_subclass : q_predicate q = RDFS_SUB_CLASS_OF ->
    is_resource (q_object q) = true
    /\ (q_object q = TermNamedNode RDFS_CONTAINER_MEMBERSHIP_PROPERTY -> q_object q = Term_from_node (q_subject q));
  sf_type : q_predicate q = RDF_TYPE -> q_object q = TermNamedNode RDFS_CONTAINER_MEMBERSHIP_PROPERTY -> q ∈ X;
  sf_range : ranged X (q_graph_name q) (q_predicate q) -> is_resource (q_object q) = true
}.

(** The last property of a chain of declarations is not one of the schema. *)
Lemma declared_target (g : RdfGraphName) (a b : RdfNamedNode) : tc (declared_sub X g) a b -> is_schema_control b = false.
Proof.
  intros H. assert (forall a b, declared_sub X g a b -> is_schema_control b = false) as Hone.
  { clear a b H. intros a b [Hq|[-> _]]; [|by vm_compute].
    apply (io_schema X Hin), so_sub_property in Hq as (a' & b' & Ea & Eb & Hb); [|done]. cbn in Ea, Eb. by simplify_eq. }
  induction H as [a b H|a b c _ _ IH]; [by eapply Hone|done].
Qed.
Lemma control_names (b : RdfNamedNode) :
  is_schema_control b = false ->
  b <> RDF_TYPE /\ b <> RDFS_DOMAIN /\ b <> RDFS_RANGE /\ b <> RDFS_SUB_PROPERTY_OF /\ b <> RDFS_SUB_CLASS_OF.
Proof. unfold is_schema_control. rewrite !orb_false_iff, !bool_decide_eq_false. tauto. Qed.

(** The input is safe. *)
Lemma safe_input (q : RdfQuad) : q ∈ X -> safe q.
Proof.
  intros Hq. pose proof (io_schema X Hin q Hq) as Hs. split.
  - by apply Hquads.
  - done.
  - intros Hp. destruct (so_sub_property q Hs Hp) as (a & b & Ea & Eb & _). right. exists a, b. split; [done|]. split; [done|].
    apply tc_once. left. destruct q as [s p o g]. cbn in *. by subst.
  - intros Hp. destruct (so_class q Hs) as (H1 & H2); [tauto|]. done.
  - done.
  - by apply (io_range X Hin).
Qed.

(** The consequences by the kind of their predicate. *)
Lemma safe_type (s : RdfNamedOrBlankNode) (o : RdfTerm) (g : RdfGraphName) :
  node_ok s -> term_ok o -> graph_ok g -> is_resource o = true ->
  (o = TermNamedNode RDFS_CONTAINER_MEMBERSHIP_PROPERTY -> mkQuad s RDF_TYPE o g ∈ X) -> safe (mkQuad s RDF_TYPE o g).
Proof.
  intros Hs Ho Hg Hr Hc. split; cbn [q_subject q_predicate q_object q_graph_name]; try done; try (intros ?; differ); try (intros [?|?]; differ).
  - apply quad_ok_spec. split_and!; try done. by inversion Hvocabulary.
Qed.
Lemma safe_sub_property (s : RdfNamedOrBlankNode) (o : RdfTerm) (g : RdfGraphName) :
  node_ok s -> term_ok o -> graph_ok g ->
  o = Term_from_node s \/ (exists a b, s = NodeNamed a /\ o = TermNamedNode b /\ tc (declared_sub X g) a b) ->
  safe (mkQuad s RDFS_SUB_PROPERTY_OF o g).
Proof.
  intros Hs Ho Hg Hc. split; cbn [q_subject q_predicate q_object q_graph_name]; try done; try (intros ?; differ); try (intros [?|?]; differ).
  - apply quad_ok_spec. split_and!; try done. inversion Hvocabulary as [|? ? _ Hv]. by inversion Hv.
  - intros _. destruct Hc as [->|(a & b & _ & -> & _)]; [apply node_resource|done].
Qed.
Lemma safe_sub_class (s : RdfNamedOrBlankNode) (o : RdfTerm) (g : RdfGraphName) :
  node_ok s -> term_ok o -> graph_ok g -> is_resource o = true ->
  (o = TermNamedNode RDFS_CONTAINER_MEMBERSHIP_PROPERTY -> o = Term_from_node s) -> safe (mkQuad s RDFS_SUB_CLASS_OF o g).
Proof.
  intros Hs Ho Hg Hr Hc. split; cbn [q_subject q_predicate q_object q_graph_name]; try done; try (intros ?; differ); try (intros [?|?]; differ).
  - apply quad_ok_spec. split_and!; try done. inversion Hvocabulary as [|? ? _ Hv]. inversion Hv as [|? ? _ Hv2]. by inversion Hv2.
Qed.
(** A statement of a property that a declared one inherits. *)
Lemma safe_inherited (s : RdfNamedOrBlankNode) (a b : RdfNamedNode) (o : RdfTerm) (g : RdfGraphName) :
  safe (mkQuad s a o g) -> S (nn_iri b) -> tc (declared_sub X g) a b -> safe (mkQuad s b o g).
Proof.
  intros [Hok _ _ _ _ Hr] Hb Hab. destruct (control_names b (declared_target g a b Hab)) as (H1 & H2 & H3 & H4 & H5).
  split; cbn [q_subject q_predicate q_object q_graph_name] in *; try done.
  - apply quad_ok_spec in Hok. apply quad_ok_spec. tauto.
  - tauto.
  - intros (r & Hbr & Hd). apply Hr. exists r. split; [|done]. apply tc_rtc in Hab. by etrans.
Qed.

(** A fact of a safe quad. *)
Definition safe_fact (f : Fact) : Prop := exists q, f = fact_from_quad q /\ safe q.

Lemma safe_fact_quad (s : RdfNamedOrBlankNode) (p : RdfNamedNode) (o : RdfTerm) (g : RdfGraphName) :
  safe (mkQuad s p o g) -> safe_fact (quad_fact (VTerm (Term_from_node s)) (nv p) (VTerm o) (graph_value g)).
Proof. intros H. by exists (mkQuad s p o g). Qed.

(** The parts of a safe quad. *)
Lemma safe_parts (s : RdfNamedOrBlankNode) (p : RdfNamedNode) (o : RdfTerm) (g : RdfGraphName) :
  safe (mkQuad s p o g) -> node_ok s /\ S (nn_iri p) /\ term_ok o /\ graph_ok g.
Proof. intros H. by apply quad_ok_spec, (sf_ok _ H). Qed.
Lemma safe_domain (s : RdfNamedOrBlankNode) (o : RdfTerm) (g : RdfGraphName) :
  safe (mkQuad s RDFS_DOMAIN o g) ->
  exists a, s = NodeNamed a /\ is_resource o = true /\ o <> TermNamedNode RDFS_CONTAINER_MEMBERSHIP_PROPERTY.
Proof.
  intros H. pose proof (sf_declared _ H (or_introl eq_refl)) as Hq. apply (io_schema X Hin) in Hq.
  destruct (so_class _ Hq) as [H1 H2]; [by left|]. destruct (so_subject _ Hq) as (a & Ha); [by left|]. by exists a.
Qed.
Lemma safe_range_quad (s : RdfNamedOrBlankNode) (o : RdfTerm) (g : RdfGraphName) :
  safe (mkQuad s RDFS_RANGE o g) ->
  exists a, s = NodeNamed a /\ declared_range X g a /\ is_resource o = true /\ o <> TermNamedNode RDFS_CONTAINER_MEMBERSHIP_PROPERTY.
Proof.
  intros H. pose proof (sf_declared _ H (or_intror eq_refl)) as Hq. pose proof (io_schema X Hin _ Hq) as Hs.
  destruct (so_class _ Hs) as [H1 H2]; [by right; left|]. destruct (so_subject _ Hs) as (a & Ha); [by right|]. cbn in Ha. subst s. exists a. split_and!; try done. by exists o.
Qed.

Lemma safe_step (s p o g : Value) :
  rdfs_step (fun s p o g => safe_fact (quad_fact s p o g)) s p o g -> safe_fact (quad_fact s p o g).
Proof.
  intros Hs.
  destruct Hs as [a x y z g H1 H2|a x y z g H1 H2|x y z g H1 H2|x g H1|a b x y g H1 H2|x g H1|x y z g H1 H2|x g H1|x y z g H1 H2|x g H1|x g H1].
  all: destruct H1 as ([s1 p1 o1 g1] & E1 & X1); apply legal_inv in E1 as (A1 & A2 & A3 & A4);
    try (destruct H2 as ([s2 p2 o2 g2] & E2 & X2); apply legal_inv in E2 as (B1 & B2 & B3 & B4));
    cbn [q_subject q_predicate q_object q_graph_name] in *; unfold nv in *; simplify_eq.
  all: pose proof (safe_parts _ _ _ _ X1) as (N1 & P1 & T1 & G1); try pose proof (safe_parts _ _ _ _ X2) as (N2 & P2 & T2 & G2).
  - destruct (safe_domain _ _ _ X1) as (a & -> & Hr & Hc). apply (safe_fact_quad s2 RDF_TYPE o1). by apply safe_type.
  - destruct (safe_range_quad _ _ _ X1) as (a & -> & Hd & Hr & Hc). cbn in B2. injection B2 as [= <-].
    destruct (resource_node o2) as (n & ->). { apply (sf_range _ X2). by exists a. }
    apply (safe_fact_quad n RDF_TYPE o1). apply safe_type; try done. by apply term_ok_node.
  - apply (safe_fact_quad s1 RDFS_SUB_PROPERTY_OF o2). apply safe_sub_property; try done.
    destruct (sf_subproperty _ X2 eq_refl) as [Eo|(a & b & Ea & Eb & Hab)]; cbn [q_subject q_object q_graph_name] in *.
    { rewrite Eo. exact (sf_subproperty _ X1 eq_refl). }
    destruct (sf_subproperty _ X1 eq_refl) as [Es|(c & d & Ec & Ed & Hcd)]; cbn [q_subject q_object q_graph_name] in *.
    { apply Term_from_node_inj in Es as <-. right. by exists a, b. }
    subst. injection Ed as [= <-]. right. exists c, b. split_and!; [done..|]. by etrans.
  - apply (safe_fact_quad s1 RDFS_SUB_PROPERTY_OF (Term_from_node s1)). apply safe_sub_property; [done|by apply term_ok_node|done|by left].
  - destruct (sf_subproperty _ X1 eq_refl) as [Es|(a & b & Ea & Eb & Hab)]; cbn [q_subject q_object q_graph_name] in *; subst.
    { rewrite B2. by apply (safe_fact_quad s2 p2 o2). }
    injection B2 as [= ->]. apply (safe_fact_quad s2 b o2). apply (safe_inherited s2 p2); [done|by apply term_ok_named|done].
  - apply (safe_fact_quad s1 RDFS_SUB_CLASS_OF (TermNamedNode RDFS_RESOURCE)). apply safe_sub_class; try done.
    apply term_ok_named. by do 4 (apply list.Forall_cons in Hvocabulary as [? Hvocabulary]).
  - destruct (sf_subclass _ X1 eq_refl) as (Hr & Hc). cbn [q_subject q_object q_graph_name] in *.
    apply (safe_fact_quad s2 RDF_TYPE o1). apply safe_type; try done. intros Eo. rewrite (Hc Eo). apply (sf_type _ X2); [done|]. cbn. by rewrite <- (Hc Eo).
  - apply (safe_fact_quad s1 RDFS_SUB_CLASS_OF (Term_from_node s1)). apply safe_sub_class; try done; [by apply term_ok_node|apply node_resource].
  - destruct (sf_subclass _ X1 eq_refl) as (_ & Hc1). destruct (sf_subclass _ X2 eq_refl) as (Hr & Hc2). cbn [q_subject q_object q_graph_name] in *.
    apply (safe_fact_quad s1 RDFS_SUB_CLASS_OF o2). apply safe_sub_class; try done. intros Eo. rewrite (Hc2 Eo). apply Hc1. by rewrite <- (Hc2 Eo).
  - pose proof (sf_type _ X1 eq_refl eq_refl) as Hq. destruct (so_type _ (io_schema X Hin _ Hq) eq_refl (or_intror eq_refl)) as (a & Ea). cbn in Ea. subst s1.
    apply (safe_fact_quad (NodeNamed a) RDFS_SUB_PROPERTY_OF (TermNamedNode RDFS_MEMBER)). apply safe_sub_property; try done.
    + apply term_ok_named. by do 5 (apply list.Forall_cons in Hvocabulary as [? Hvocabulary]).
    + right. exists a, RDFS_MEMBER. split_and!; [done..|]. apply tc_once. by right.
  - apply (safe_fact_quad s1 RDFS_SUB_CLASS_OF (TermNamedNode RDFS_LITERAL)). apply safe_sub_class; try done.
    apply term_ok_named. by do 6 (apply list.Forall_cons in Hvocabulary as [? Hvocabulary]).
Qed.
End safe.
