(* ===== verification/RdfsValidation.v ===== *)
(** * The validation of the RDFS profile

    What [validate_input] of lib/oxrdfs/src/profile.rs accepts and why it fails:
    it computes, graph by graph, the properties that inherit a range, and accepts
    exactly the valid input of RdfsSafe, unless a limit of the evaluation, its
    time or a cancellation interrupts it. *)
From stdpp Require Import gmap.
From S2P Require Import Prelude MachineInt RustStr BTree RdfModel RdfDisplay DatalogIr.
From S2P Require Import StateResult DatalogValidate DatalogControl DatalogControlFacts.
From S2P Require Import DatalogStorage DatalogRules DatalogEngine DatalogCorrectness.
From S2P Require OxInterning OxDataset.
From S2P Require Import OxInterningFacts OxDatasetFacts DatalogRdf.
From S2P Require Import RdfsProfile RdfsSpec RdfsSafe.

(** ** One quad *)

(** What is wrong with the input. *)
Definition input_error (X : RdfQuad -> Prop) (ranges : RdfGraphName -> RdfNamedNode -> Prop) (e : RdfsD0InputError) : Prop :=
  match e with
  | PropertyExpressionMustBeNamed q =>
      X q /\ ((exists b, q_subject q = NodeBlank b
               /\ (q_predicate q ∈ [RDFS_SUB_PROPERTY_OF; RDFS_DOMAIN; RDFS_RANGE]
                   \/ q_predicate q = RDF_TYPE
                      /\ (q_object q = TermNamedNode RDF_PROPERTY \/ q_object q = TermNamedNode RDFS_CONTAINER_MEMBERSHIP_PROPERTY)))
              \/ q_predicate q = RDFS_SUB_PROPERTY_OF /\ forall n, q_object q <> TermNamedNode n)
  | ClassExpressionMustBeResource q =>
      X q /\ q_predicate q ∈ [RDFS_DOMAIN; RDFS_RANGE; RDFS_SUB_CLASS_OF] /\ is_resource (q_object q) = false
  | SchemaControlSuperproperty target q =>
      X q /\ q_predicate q = RDFS_SUB_PROPERTY_OF /\ q_object q = TermNamedNode target
      /\ target ∈ [RDF_TYPE; RDFS_DOMAIN; RDFS_RANGE; RDFS_SUB_PROPERTY_OF; RDFS_SUB_CLASS_OF]
  | SchemaControlClass target q =>
      X q /\ q_predicate q ∈ [RDFS_DOMAIN; RDFS_RANGE; RDFS_SUB_CLASS_OF] /\ q_object q = TermNamedNode target
      /\ target = RDFS_CONTAINER_MEMBERSHIP_PROPERTY
  | RangeOnNonResource property q =>
      X q /\ property = q_predicate q /\ ranges (q_graph_name q) property /\ is_resource (q_object q) = false
  end.

Lemma elem_control (n : RdfNamedNode) :
  is_schema_control n = true <-> n ∈ [RDF_TYPE; RDFS_DOMAIN; RDFS_RANGE; RDFS_SUB_PROPERTY_OF; RDFS_SUB_CLASS_OF].
Proof. unfold is_schema_control. rewrite !orb_true_iff, !bool_decide_eq_true, !elem_of_cons, elem_of_nil. tauto. Qed.

Lemma validate_schema_quad_spec (X : RdfQuad -> Prop) (ranges : RdfGraphName -> RdfNamedNode -> Prop) (q : RdfQuad) :
  X q -> match validate_schema_quad q with Ok _ => schema_quad_ok q | Err e => input_error X ranges e end.
Proof.
  intros Hq. destruct q as [s p o g]. unfold input_error, validate_schema_quad, subject_named, object_named, require_resource_class, reject_control_class.
  cbn [q_subject q_predicate q_object q_graph_name].
  destruct (bool_decide (p = RDFS_SUB_PROPERTY_OF)) eqn:E1; [apply bool_decide_eq_true in E1; subst p|apply bool_decide_eq_false in E1].
  { destruct s as [a|a]; cbn [mbind result_bind q_subject q_predicate q_object]; [|split; [done|]; left; exists a; split; [done|]; left; rewrite !elem_of_cons; tauto].
    destruct o as [b|b|b|? ? ?]; try (split; [done|]; right; split; [done|]; intros ?; discriminate).
    cbn [mbind result_bind]. destruct (is_schema_control b) eqn:Eb; [split_and!; try done; by apply elem_control|].
    split; cbn [q_subject q_predicate q_object q_graph_name]; try (intros H; destruct_or? H; differ).
    intros _. by exists a, b. }
  cbn [mbind result_bind]. destruct (bool_decide (p = RDFS_DOMAIN) || bool_decide (p = RDFS_RANGE)) eqn:E2.
  { assert (p = RDFS_DOMAIN \/ p = RDFS_RANGE) as Hp by (apply orb_true_iff in E2; by rewrite !bool_decide_eq_true in E2). clear E2.
    assert (p <> RDFS_SUB_CLASS_OF /\ p <> RDF_TYPE) as [N1 N2] by (destruct Hp as [->| ->]; split; intros ?; differ).
    destruct s as [a|a]; [|split; [done|]; left; exists a; split; [done|]; left; rewrite !elem_of_cons; tauto].
    cbn [mbind result_bind]. destruct (is_resource o) eqn:Eo; [|split_and!; try done; rewrite !elem_of_cons; tauto].
    cbn [mbind result_bind]. destruct (bool_decide (o = TermNamedNode RDFS_CONTAINER_MEMBERSHIP_PROPERTY)) eqn:Ec; [apply bool_decide_eq_true in Ec; split_and!; try done; rewrite !elem_of_cons; tauto|apply bool_decide_eq_false in Ec].
    rewrite (bool_decide_eq_false_2 (p = RDFS_SUB_CLASS_OF)), (bool_decide_eq_false_2 (p = RDF_TYPE)) by done. cbn [mbind result_bind andb].
    split; cbn [q_subject q_predicate q_object q_graph_name]; try done. intros _. by exists a. }
  assert (p <> RDFS_DOMAIN /\ p <> RDFS_RANGE) as [N1 N2] by (apply orb_false_iff in E2; by rewrite !bool_decide_eq_false in E2). clear E2.
  cbn [mbind result_bind]. destruct (bool_decide (p = RDFS_SUB_CLASS_OF)) eqn:E3; [apply bool_decide_eq_true in E3; subst p|apply bool_decide_eq_false in E3].
  { rewrite (bool_decide_eq_false_2 (RDFS_SUB_CLASS_OF = RDF_TYPE)) by (intros ?; differ).
    destruct (is_resource o) eqn:Eo; [|split_and!; try done; rewrite !elem_of_cons; tauto].
    cbn [mbind result_bind]. destruct (bool_decide (o = TermNamedNode RDFS_CONTAINER_MEMBERSHIP_PROPERTY)) eqn:Ec; [apply bool_decide_eq_true in Ec; split_and!; try done; rewrite !elem_of_cons; tauto|apply bool_decide_eq_false in Ec]. cbn [mbind result_bind andb].
    split; cbn [q_subject q_predicate q_object q_graph_name]; try done; try (intros ?; differ); tauto. }
  cbn [mbind result_bind]. destruct (bool_decide (p = RDF_TYPE)) eqn:E4; [apply bool_decide_eq_true in E4; subst p|apply bool_decide_eq_false in E4; split; cbn; tauto]. cbn [andb].
  destruct (bool_decide (o = TermNamedNode RDF_PROPERTY) || bool_decide (o = TermNamedNode RDFS_CONTAINER_MEMBERSHIP_PROPERTY)) eqn:E5.
  - apply orb_true_iff in E5. rewrite !bool_decide_eq_true in E5.
    destruct s as [a|a]; [|split; [done|]; left; exists a; split; [done|]; by right].
    split; cbn [q_subject q_predicate q_object q_graph_name]; try tauto. intros _ _. by exists a.
  - apply orb_false_iff in E5. rewrite !bool_decide_eq_false in E5. split; cbn [q_subject q_predicate q_object q_graph_name]; tauto.
Qed.

(** Input with such an error is not valid. *)
Lemma input_error_invalid (X : gset RdfQuad) (e : RdfsD0InputError) : input_error (fun q => q ∈ X) (ranged X) e -> ~ rdfs_input_ok X.
Proof.
  intros He [H1 H2]. destruct e as [q|q|n q|n q|n q]; destruct He as [Hq He]; pose proof (H1 q Hq) as Hs.
  - destruct He as [(b & Eb & Hp)|[Hp Ho]]; [|destruct (so_sub_property q Hs Hp) as (a & b & _ & Eo & _); by apply (Ho b)].
    rewrite !elem_of_cons, elem_of_nil in Hp. destruct Hp as [[Hp|Hp]|[Hp Ho]].
    + destruct (so_sub_property q Hs Hp) as (a & c & Ea & _). congruence.
    + destruct (so_subject q Hs) as [a Ea]; [tauto|congruence].
    + destruct (so_type q Hs Hp Ho) as [a Ea]. congruence.
  - destruct He as [Hp Ho]. rewrite !elem_of_cons, elem_of_nil in Hp. destruct (so_class q Hs) as [Hr _]; [tauto|congruence].
  - destruct He as (Hp & Ho & Hn). apply elem_control in Hn. destruct (so_sub_property q Hs Hp) as (a & b & _ & Eb & Hb). congruence.
  - destruct He as (Hp & Ho & ->). rewrite !elem_of_cons, elem_of_nil in Hp. destruct (so_class q Hs) as [_ Hr]; [tauto|done].
  - destruct He as (-> & Hr & Ho). rewrite (H2 q Hq Hr) in Ho. discriminate Ho.
Qed.

(** ** The properties that inherit a range *)

(** The order of the hash maps is an order of their keys. *)
Class LawfulHashOrder {O : HashOrder} := {
  schema_keys_spec m : enumerates (schema_keys m) (fun g => g ∈ dom m);
  property_list_spec s : enumerates (property_list s) (fun n => n ∈ s)
}.

(** The errors that are no input errors. *)
Definition stopped (env : Environment) (options : EvaluationOptions) (facts : Z) (e : RdfsD0Failure) : Prop :=
  match e with
  | RdfsEvaluation (RdfEvaluation e) =>
      interrupted env options e
      \/ e = Raised (LimitExceeded LimitFacts (el_max_facts (eo_limits options))) /\ el_max_facts (eo_limits options) < facts
      \/ e = Raised (LimitExceeded LimitMemory (el_max_memory_bytes (eo_limits options))) /\ el_max_memory_bytes (eo_limits options) < usize_max
  | _ => False
  end.

Section validation.
  Context {P : DatalogParams} {I : InternerParams} {O : HashOrder} {HO : LawfulHashOrder}.
  Context (env : Environment) (options : EvaluationOptions) (F : RdfsD0Failure -> Prop) (facts : Z).
  Hypothesis Hstop : forall e, stopped env options facts e -> F e.
Abbreviation triple m Q := (holds (exec_ok env options) F m Q).

Lemma check_control_runs (Q : unit -> Prop) : Q tt -> triple (check_control env options) Q.
Proof.
  intros HQ s Hs. pose proof (check_runs env options (interrupted env options) Q (fun e H => H) HQ s Hs) as H. unfold check_control.
  destruct (check env options s) as [[[] s']|e]; cbn [map_err]; [done|]. apply Hstop. by left.
Qed.
Lemma check_schema_memory_runs (n : Z) (Q : unit -> Prop) : n <= usize_max -> Q tt -> triple (check_schema_memory options n) Q.
Proof.
  intros Hn HQ. unfold check_schema_memory. destruct (n >? _) eqn:E; [|by apply holds_ret]. apply holds_throw, Hstop. right; right. split; [done|].
  apply Z.gtb_lt in E. lia.
Qed.
Lemma saturating_add_max (a b : Z) : saturating_add a b <= usize_max.
Proof. unfold saturating_add. lia. Qed.

Section closing.
  Context (reverse : gmap RdfNamedNode (list RdfNamedNode)) (R0 : gset RdfNamedNode).
Definition inherits (a b : RdfNamedNode) : Prop := a ∈ default [] (reverse !! b).
Definition inherited (a : RdfNamedNode) : Prop := exists b, rtc inherits a b /\ b ∈ R0.
Definition known_properties : gset RdfNamedNode := R0 ∪ list_to_set (mbind (M := list) snd (map_to_list reverse)).
Definition rounds_left (c : Closing) : Z := len (cl_pending c) + Z.of_nat (size (known_properties ∖ cl_ranged c)).

(** The properties found so far: those that are not pending have their
    subproperties, but for the [excused] ones. *)
Record closing_ok (excused : RdfNamedNode -> RdfNamedNode -> Prop) (c : Closing) : Prop := {
  ck_start : R0 ⊆ cl_ranged c;
  ck_sound : forall a, a ∈ cl_ranged c -> inherited a;
  ck_known : cl_ranged c ⊆ known_properties;
  ck_pending : forall a, a ∈ cl_pending c -> a ∈ cl_ranged c;
  ck_closed : forall a b, b ∈ cl_ranged c -> b ∉ cl_pending c -> inherits a b -> a ∈ cl_ranged c \/ excused a b
}.

Lemma inherits_known (a b : RdfNamedNode) : inherits a b -> a ∈ known_properties.
Proof.
  unfold inherits, known_properties. intros H. apply elem_of_union_r, elem_of_list_to_set, list_elem_of_bind.
  destruct (reverse !! b) as [l|] eqn:E; [|by apply elem_of_nil in H]. exists (b, l). split; [done|]. by apply elem_of_map_to_list.
Qed.

Lemma close_subproperty_runs (property : RdfNamedNode) (seen : list RdfNamedNode) (c : Closing) (a : RdfNamedNode) :
  closing_ok (fun a b => b = property /\ a ∉ seen) c -> inherits a property -> inherited property ->
  triple (close_subproperty env options c a)
    (fun c' => closing_ok (fun b d => d = property /\ b ∉ seen ++ [a]) c' /\ rounds_left c' = rounds_left c).
Proof.
  intros [H1 H2 H3 H4 H5] Ha Hp. unfold close_subproperty.
  eapply holds_bind; [by apply (check_control_runs (fun _ => True))|intros _ _]. case_bool_decide as E.
  { apply holds_ret. split; [|done]. split; try done. intros b d Hd Hn Hb. destruct (H5 b d Hd Hn Hb) as [?|[-> Hs]]; [by left|].
    destruct (decide (b = a)) as [->|Hne]; [by left|]. right. split; [done|]. rewrite elem_of_app, list_elem_of_singleton. tauto. }
  eapply holds_bind; [apply (check_schema_memory_runs _ (fun _ => True)); [apply saturating_add_max|done]|intros _ _].
  apply holds_ret. pose proof (inherits_known a property Ha) as Hk. split.
  - split; cbn [cl_ranged cl_pending].
    + set_solver.
    + intros b Hb. apply elem_of_union in Hb as [Hb|Hb]; [|by apply H2]. apply elem_of_singleton in Hb as ->.
      destruct Hp as (r & Hr & Hd). exists r. split; [by eapply rtc_l|done].
    + set_solver.
    + set_solver.
    + intros b d Hd Hn Hb. destruct (decide (b = a)) as [->|Hne]; [left; set_solver|].
      rewrite not_elem_of_cons in Hn. destruct Hn as [Hn1 Hn2].
      destruct (H5 b d) as [?|[-> Hs]]; [set_solver|done|done|left; set_solver|]. right. split; [done|].
      rewrite elem_of_app, list_elem_of_singleton. tauto.
  - unfold rounds_left. cbn [cl_ranged cl_pending].
    rewrite (size_difference_alt known_properties (cl_ranged c)), (size_difference_alt known_properties ({[a]} ∪ cl_ranged c)).
    replace (known_properties ∩ ({[a]} ∪ cl_ranged c)) with ({[a]} ∪ cl_ranged c) by set_solver.
    replace (known_properties ∩ cl_ranged c) with (cl_ranged c) by set_solver.
    rewrite size_union, size_singleton by set_solver.
    assert (size ({[a]} ∪ cl_ranged c) <= size known_properties)%nat as Hs by (apply subseteq_size; set_solver).
    rewrite size_union, size_singleton in Hs by set_solver. unfold len. cbn [length]. lia.
Qed.

Lemma close_property_runs (c : Closing) :
  closing_ok (fun _ _ => False) c ->
  triple (close_property env options reverse c) (fun r =>
    match r with
    | inl c' => closing_ok (fun _ _ => False) c' /\ 0 <= rounds_left c' < rounds_left c
    | inr c' => forall a, a ∈ cl_ranged c' <-> inherited a
    end).
Proof.
  intros [H1 H2 H3 H4 H5]. unfold close_property. destruct (cl_pending c) as [|property pending] eqn:Ep.
  - apply holds_ret. intros a. split; [by apply H2|].
    intros (b & Hab & Hb). induction Hab as [b|a b r Ha _ IH]; [by apply H1|].
    destruct (H5 a b (IH Hb)) as [?|[]]; [apply not_elem_of_nil|done|done].
  - eapply holds_bind; [by apply (check_control_runs (fun _ => True))|intros _ _].
    set (c1 := mkClosing pending _ _ _).
    assert (closing_ok (fun a b => b = property /\ a ∉ []) c1) as Hc1.
    { split; cbn [cl_ranged cl_pending c1]; try done.
      - intros a Ha. apply H4. by right.
      - intros a b Hb Hn Ha. destruct (decide (b = property)) as [->|Hne]; [right; split; [done|apply not_elem_of_nil]|].
        left. destruct (H5 a b Hb) as [?|[]]; [|done|done]. by apply not_elem_of_cons. }
    assert (rounds_left c1 = rounds_left c - 1) as Hl by (unfold rounds_left; rewrite Ep; unfold len; cbn [length cl_pending cl_ranged c1]; lia).
    assert (inherited property) as Hp by (apply H2, H4; by left).
    eapply holds_bind.
    + instantiate (1 := fun c' => closing_ok (fun a b => b = property /\ a ∉ default [] (reverse !! property)) c' /\ rounds_left c' = rounds_left c1).
      destruct (reverse !! property) as [l|] eqn:El; unfold from_option, id; [|by apply holds_ret].
      apply (holds_for_each _ _ _ (fun seen c' => closing_ok (fun a b => b = property /\ a ∉ seen) c' /\ rounds_left c' = rounds_left c1)); [|done].
      intros seen a rest b -> [Hb Hr]. eapply holds_conseq; [apply (close_subproperty_runs property seen b a); try done|].
      * unfold inherits. rewrite El. cbn. rewrite elem_of_app, elem_of_cons. tauto.
      * intros c' [? ?]. split; [done|lia].
    + intros c' [[G1 G2 G3 G4 G5] Hr]. apply holds_ret. split; [|unfold rounds_left in *; rewrite Ep in *; unfold len in *; cbn [length] in *; lia].
      split; try done. intros a b Hb Hn Ha. left. destruct (G5 a b Hb Hn Ha) as [?|[-> Hs]]; [done|by destruct Hs].
Qed.

Lemma rounds_enough (pending : list RdfNamedNode) (schema_bytes pending_bytes : Z) :
  enumerates pending (fun n => n ∈ R0) ->
  rounds_left (mkClosing (rev pending) R0 schema_bytes pending_bytes) < 2 ^ Z.of_nat (close_rounds (mkGraphSchema reverse R0)).
Proof.
  intros [Hn He]. unfold rounds_left, close_rounds. cbn [cl_pending cl_ranged ranged_properties reverse_subproperties].
  assert (size R0 = length pending) as ->.
  { rewrite <- (size_list_to_set (C := gset RdfNamedNode) pending Hn). f_equal. apply set_eq. intros n. by rewrite elem_of_list_to_set, He. }
  set (flat := mbind (M := list) snd (map_to_list reverse)).
  assert (size (known_properties ∖ R0) <= length flat)%nat as Hs.
  { etrans; [apply (subseteq_size _ (list_to_set flat : gset RdfNamedNode)); unfold known_properties, flat; set_solver|].
    clear. generalize flat as l. intros l. induction l as [|x l IH]; cbn [list_to_set length]; [by rewrite size_empty|].
    destruct (decide (x ∈ (list_to_set l : gset RdfNamedNode))) as [Hx|Hx].
    - replace ({[x]} ∪ list_to_set l : gset RdfNamedNode) with (list_to_set l : gset RdfNamedNode) by set_solver. lia.
    - rewrite size_union, size_singleton by set_solver. lia. }
  unfold len. rewrite length_rev.
  assert (Z.of_nat (length pending + length flat + 1) < 2 ^ Z.of_nat (length pending + length flat + 1)) by (apply Z.pow_gt_lin_r; lia). lia.
Qed.
End closing.

Lemma close_ranged_properties_runs (s : GraphSchema) (schema_bytes : Z) :
  triple (close_ranged_properties env options s schema_bytes) (fun r =>
    reverse_subproperties r.1 = reverse_subproperties s
    /\ forall a, a ∈ ranged_properties r.1 <-> inherited (reverse_subproperties s) (ranged_properties s) a).
Proof.
  destruct s as [reverse R0]. unfold close_ranged_properties. cbn [reverse_subproperties ranged_properties].
  eapply holds_bind; [by apply (check_control_runs (fun _ => True))|intros _ _].
  eapply holds_bind; [apply (check_schema_memory_runs _ (fun _ => True)); [apply saturating_add_max|done]|intros _ _].
  pose proof (property_list_spec R0) as [Hn He].
  eapply holds_bind.
  - apply (holds_while _ _ _ _ (closing_ok reverse R0 (fun _ _ => False)) (rounds_left reverse R0)
             (fun c => forall a, a ∈ cl_ranged c <-> inherited reverse R0 a)).
    + intros c Hc. by apply close_property_runs.
    + split; cbn [cl_ranged cl_pending]; try done.
      * intros a Ha. by exists a.
      * unfold known_properties. set_solver.
      * intros a Ha. apply He. by rewrite <- Permutation_rev in Ha.
      * intros a b Hb Hp. destruct Hp. rewrite <- Permutation_rev. by apply He.
    + by apply rounds_enough.
  - intros [c|c] Hc; [done|]. apply holds_ret. by split.
Qed.

(** ** The schemas of the input *)

Definition schema_of (schemas : gmap RdfGraphName GraphSchema) (g : RdfGraphName) : GraphSchema :=
  default GraphSchema_default (schemas !! g).
(** The schemas are those of the quads [X]. *)
Record recorded (X : gset RdfQuad) (schemas : gmap RdfGraphName GraphSchema) : Prop := {
  rc_sub : forall g a b, inherits (reverse_subproperties (schema_of schemas g)) a b <-> declared_sub X g a b;
  rc_range : forall g a, a ∈ ranged_properties (schema_of schemas g) <-> declared_range X g a
}.

Lemma schema_of_insert (schemas : gmap RdfGraphName GraphSchema) (g g' : RdfGraphName) (s : GraphSchema) :
  schema_of (<[g := s]> schemas) g' = if decide (g' = g) then s else schema_of schemas g'.
Proof. unfold schema_of. destruct (decide (g' = g)) as [->|Hg]; [by rewrite lookup_insert_eq|by rewrite lookup_insert_ne]. Qed.
Lemma inherits_push (s : GraphSchema) (b0 a0 a b : RdfNamedNode) :
  inherits (reverse_subproperties (push_subproperty s b0 a0)) a b <-> inherits (reverse_subproperties s) a b \/ (a = a0 /\ b = b0).
Proof.
  unfold inherits, push_subproperty. cbn [reverse_subproperties]. destruct (decide (b = b0)) as [->|Hb].
  - rewrite lookup_insert_eq. unfold from_option at 1, id at 1. rewrite elem_of_app, list_elem_of_singleton. tauto.
  - rewrite lookup_insert_ne by done. tauto.
Qed.
Lemma declared_sub_other (X : gset RdfQuad) (q : RdfQuad) (g : RdfGraphName) (a b : RdfNamedNode) :
  g <> q_graph_name q -> declared_sub ({[q]} ∪ X) g a b <-> declared_sub X g a b.
Proof. intros Hg. unfold declared_sub. rewrite !elem_of_union, !elem_of_singleton. destruct q. cbn in Hg. naive_solver. Qed.
Lemma declared_range_other (X : gset RdfQuad) (q : RdfQuad) (g : RdfGraphName) (a : RdfNamedNode) :
  g <> q_graph_name q -> declared_range ({[q]} ∪ X) g a <-> declared_range X g a.
Proof.
  intros Hg. unfold declared_range. split; intros [c Hc]; exists c; [|by apply elem_of_union_r].
  apply elem_of_union in Hc as [Hc|Hc]; [|done]. apply elem_of_singleton in Hc. by subst.
Qed.
Lemma recorded_insert (X : gset RdfQuad) (schemas : gmap RdfGraphName GraphSchema) (q : RdfQuad) (s : GraphSchema) :
  recorded X schemas ->
  (forall a b, inherits (reverse_subproperties s) a b <-> declared_sub ({[q]} ∪ X) (q_graph_name q) a b) ->
  (forall a, a ∈ ranged_properties s <-> declared_range ({[q]} ∪ X) (q_graph_name q) a) ->
  recorded ({[q]} ∪ X) (<[q_graph_name q := s]> schemas).
Proof.
  intros [H1 H2] Hs Hr. split; intros g; rewrite schema_of_insert; destruct (decide (g = q_graph_name q)) as [->|Hg]; try done.
  - intros a b. by rewrite declared_sub_other.
  - intros a. by rewrite declared_range_other.
Qed.
Lemma record_schema_runs (X : gset RdfQuad) (ranges : RdfGraphName -> RdfNamedNode -> Prop) (Y : RdfQuad -> Prop) (acc : gmap RdfGraphName GraphSchema * Z) (q : RdfQuad) :
  (forall e, input_error Y ranges e -> F (RdfsInput e)) -> Y q -> recorded X acc.1 ->
  triple (record_schema env options acc q) (fun acc' => schema_quad_ok q /\ recorded ({[q]} ∪ X) acc'.1).
Proof.
  intros HF Hq [H1 H2]. destruct acc as [schemas schema_bytes]. destruct q as [s p o g]. cbn [fst] in *. unfold record_schema.
  eapply holds_bind; [by apply (check_control_runs (fun _ => True))|intros _ _].
  eapply holds_bind.
  { instantiate (1 := fun _ => schema_quad_ok (mkQuad s p o g)). unfold input. apply holds_lift.
    pose proof (validate_schema_quad_spec Y ranges _ Hq) as Hv. destruct (validate_schema_quad _); cbn [map_err]; [done|by apply HF]. }
  intros [] Hok. cbv beta in Hok. cbn [q_subject q_predicate q_object q_graph_name] in *.
  assert (forall s' n, n <= usize_max ->
    (forall a b, inherits (reverse_subproperties s') a b <-> declared_sub ({[mkQuad s p o g]} ∪ X) g a b) ->
    (forall a, a ∈ ranged_properties s' <-> declared_range ({[mkQuad s p o g]} ∪ X) g a) ->
    triple (check_schema_memory options n;; mret (<[g := s']> schemas, n))
      (fun acc' : gmap RdfGraphName GraphSchema * Z => schema_quad_ok (mkQuad s p o g) /\ recorded ({[mkQuad s p o g]} ∪ X) acc'.1)) as Hput.
  { intros s' n Hn Ha Hb. eapply holds_bind; [by apply (check_schema_memory_runs _ (fun _ => True))|intros _ _].
    apply holds_ret. split; [done|]. cbn [fst]. by apply (recorded_insert X schemas (mkQuad s p o g)). }
  fold (schema_of schemas g).
  destruct (bool_decide (p = RDFS_SUB_PROPERTY_OF)) eqn:E1.
  { apply bool_decide_eq_true in E1. subst p. destruct (so_sub_property _ Hok eq_refl) as (a0 & b0 & Ea & Eb & _). cbn in Ea, Eb. subst s o.
    apply Hput; [apply saturating_add_max|..].
    - intros a b. rewrite inherits_push, H1. unfold declared_sub. rewrite !elem_of_union, !elem_of_singleton. naive_solver.
    - intros a. cbn [ranged_properties push_subproperty]. rewrite H2. unfold declared_range. setoid_rewrite elem_of_union. setoid_rewrite elem_of_singleton. split; [naive_solver|].
      intros (c & [Hc|Hc]); [|by exists c]. injection Hc as Hc. differ. }
  apply bool_decide_eq_false in E1.
  destruct (bool_decide (p = RDFS_RANGE)) eqn:E2.
  { apply bool_decide_eq_true in E2. subst p. destruct (so_subject _ Hok (or_intror eq_refl)) as (a0 & Ea). cbn in Ea. subst s.
    apply Hput; [apply saturating_add_max|..].
    - intros a b. cbn [reverse_subproperties insert_ranged]. rewrite H1. unfold declared_sub. rewrite !elem_of_union, !elem_of_singleton.
      split; [naive_solver|]. intros [[Hc|Hc]|[Hb [Hc|Hc]]]; [injection Hc as Hc; differ|by left|injection Hc as Hc; differ|by right].
    - intros a. cbn [ranged_properties insert_ranged]. rewrite elem_of_union, elem_of_singleton, H2. unfold declared_range.
      setoid_rewrite elem_of_union. setoid_rewrite elem_of_singleton. naive_solver. }
  apply bool_decide_eq_false in E2.
  destruct (bool_decide (p = RDF_TYPE) && _) eqn:E3.
  { apply andb_prop in E3 as [E3 E4]. apply bool_decide_eq_true in E3, E4. subst p o.
    destruct (so_type _ Hok eq_refl (or_intror eq_refl)) as (a0 & Ea). cbn in Ea. subst s.
    apply Hput; [apply saturating_add_max|..].
    - intros a b. rewrite inherits_push, H1. unfold declared_sub. rewrite !elem_of_union, !elem_of_singleton.
      split; [naive_solver|]. intros [[Hc|Hc]|[Hb [Hc|Hc]]]; [injection Hc as ? Hc; differ|by left; left|naive_solver|by left; right].
    - intros a. cbn [ranged_properties push_subproperty]. rewrite H2. unfold declared_range. setoid_rewrite elem_of_union. setoid_rewrite elem_of_singleton.
      split; [naive_solver|]. intros (c & [Hc|Hc]); [|by exists c]. injection Hc as ? Hc. differ. }
  apply holds_ret. split; [done|]. cbn [fst]. apply (recorded_insert X schemas (mkQuad s p o g)); [done|..]; cbn [q_graph_name].
  - intros a b. rewrite H1. unfold declared_sub. rewrite !elem_of_union, !elem_of_singleton. split; [naive_solver|].
    intros [[Hc|Hc]|[Hb [Hc|Hc]]]; [congruence|by left| |by right]. exfalso. injection Hc as ? ? ?. subst.
    apply andb_false_iff in E3. rewrite !bool_decide_eq_false in E3. naive_solver.
  - intros a. rewrite H2. unfold declared_range. setoid_rewrite elem_of_union. setoid_rewrite elem_of_singleton. split; [naive_solver|].
    intros (c & [Hc|Hc]); [congruence|by exists c].
Qed.

(** The schemas after the second loop, for the graphs [closed]. *)
Record closed_schemas (X : gset RdfQuad) (keys closed : list RdfGraphName) (schemas : gmap RdfGraphName GraphSchema) : Prop := {
  cs_keys : forall g, g ∈ keys <-> g ∈ dom schemas;
  cs_sub : forall g a b, inherits (reverse_subproperties (schema_of schemas g)) a b <-> declared_sub X g a b;
  cs_range : forall g a, g ∉ closed -> a ∈ ranged_properties (schema_of schemas g) <-> declared_range X g a;
  cs_ranged : forall g a, g ∈ closed -> a ∈ ranged_properties (schema_of schemas g) <-> ranged X g a
}.
Lemma inherited_ranged (X : gset RdfQuad) (g : RdfGraphName) (s : GraphSchema) (a : RdfNamedNode) :
  (forall a b, inherits (reverse_subproperties s) a b <-> declared_sub X g a b) ->
  (forall a, a ∈ ranged_properties s <-> declared_range X g a) ->
  inherited (reverse_subproperties s) (ranged_properties s) a <-> ranged X g a.
Proof.
  intros H1 H2. unfold inherited, ranged. split; intros (b & Hab & Hb); exists b; (split; [|by apply H2]).
  - revert Hab. apply rtc_subrel. intros x y. by rewrite H1.
  - revert Hab. apply rtc_subrel. intros x y. by rewrite H1.
Qed.
Lemma close_schema_runs (X : gset RdfQuad) (keys pre : list RdfGraphName) (g : RdfGraphName) (acc : gmap RdfGraphName GraphSchema * Z) :
  g ∈ keys -> g ∉ pre -> closed_schemas X keys pre acc.1 ->
  triple (close_schema env options acc g) (fun acc' => closed_schemas X keys (pre ++ [g]) acc'.1).
Proof.
  intros Hg Hn [H1 H2 H3 H4]. destruct acc as [schemas schema_bytes]. cbn [fst] in *. unfold close_schema.
  assert (exists s, schemas !! g = Some s) as [s Es] by (by apply elem_of_dom, H1). rewrite Es.
  assert (schema_of schemas g = s) as Eg by (unfold schema_of; by rewrite Es).
  eapply holds_bind; [apply close_ranged_properties_runs|]. intros [s' n] [Hr Ha]. cbn [fst snd] in *. apply holds_ret. cbn [fst].
  split.
  - intros g'. rewrite dom_insert_lookup_L by done. apply H1.
  - intros g' a b. rewrite schema_of_insert. destruct (decide (g' = g)) as [->|Hne]; [|done]. by rewrite Hr, <- Eg.
  - intros g' a Hg'. rewrite elem_of_app, list_elem_of_singleton in Hg'. rewrite schema_of_insert, decide_False by tauto. apply H3. tauto.
  - intros g' a Hg'. rewrite schema_of_insert. destruct (decide (g' = g)) as [->|Hne].
    + rewrite Ha, <- Eg. apply inherited_ranged; [done|]. intros b. by apply H3.
    + apply elem_of_app in Hg' as [Hg'|Hg']; [by apply H4|]. by apply list_elem_of_singleton in Hg'.
Qed.

(** ** The input *)

Lemma for_each_record (ranges : RdfGraphName -> RdfNamedNode -> Prop) (quads : list RdfQuad) :
  (forall e, input_error (fun q => q ∈ quads) ranges e -> F (RdfsInput e)) ->
  triple (for_each (record_schema env options) (∅, 0) quads)
    (fun acc => (forall q, q ∈ quads -> schema_quad_ok q) /\ recorded (list_to_set quads) acc.1).
Proof.
  intros HF. apply (holds_for_each _ _ _ (fun pre acc => (forall q, q ∈ pre -> schema_quad_ok q) /\ recorded (list_to_set pre) acc.1)).
  - intros pre q rest acc -> [Hpre Hr]. eapply holds_conseq.
    + eapply (record_schema_runs _ ranges); [exact HF| |exact Hr]. apply elem_of_app. right. by left.
    + intros acc' [Hq Hr']. split.
      * intros q' Hq'. apply elem_of_app in Hq' as [Hq'|Hq']; [by apply Hpre|]. by apply list_elem_of_singleton in Hq' as ->.
      * replace (list_to_set (pre ++ [q])) with ({[q]} ∪ list_to_set pre : gset RdfQuad); [done|]. rewrite list_to_set_app_L. set_solver.
  - split; [intros q Hq; by apply elem_of_nil in Hq|]. cbn [fst list_to_set]. split.
    + intros g a b. unfold schema_of, inherits, declared_sub. rewrite lookup_empty. cbn. rewrite lookup_empty. cbn. set_solver.
    + intros g a. unfold schema_of, declared_range. rewrite lookup_empty. cbn. set_solver.
Qed.
Lemma for_each_close (X : gset RdfQuad) (acc : gmap RdfGraphName GraphSchema * Z) :
  recorded X acc.1 ->
  triple (for_each (close_schema env options) acc (schema_keys acc.1))
    (fun acc' => forall g a, a ∈ ranged_properties (schema_of acc'.1 g) <-> ranged X g a).
Proof.
  intros [H1 H2]. pose proof (schema_keys_spec acc.1) as [Hn Hk].
  eapply holds_conseq; [apply (holds_for_each _ _ _ (fun pre a => closed_schemas X (schema_keys acc.1) pre a.1))|].
  - intros pre g rest b E Hb. apply close_schema_runs; [rewrite E; apply elem_of_app; right; by left| |done].
    rewrite E in Hn. apply list.NoDup_app in Hn as (_ & Hd & _). intros Hg. apply (Hd g Hg). by left.
  - split; try done. intros g a Hg. by apply elem_of_nil in Hg.
  - intros acc' [G1 G2 G3 G4] g a. destruct (decide (g ∈ schema_keys acc.1)) as [Hg|Hg]; [by apply G4|].
    rewrite <- (inherited_ranged X g (schema_of acc'.1 g)); [|done|by intros b; apply G3].
    assert (acc'.1 !! g = None) as E by (apply not_elem_of_dom; by rewrite <- G1). unfold schema_of. rewrite E. cbn.
    split; [intros Ha; by apply elem_of_empty in Ha|]. intros (b & _ & Hb). by apply elem_of_empty in Hb.
Qed.
Lemma for_each_check (X : gset RdfQuad) (schemas : gmap RdfGraphName GraphSchema) (quads : list RdfQuad) :
  (forall e, input_error (fun q => q ∈ quads) (ranged X) e -> F (RdfsInput e)) ->
  (forall g a, a ∈ ranged_properties (schema_of schemas g) <-> ranged X g a) ->
  triple (for_each (check_range env options schemas) tt quads)
    (fun _ => forall q, q ∈ quads -> ranged X (q_graph_name q) (q_predicate q) -> is_resource (q_object q) = true).
Proof.
  intros HF Hs. apply (holds_for_each _ _ _ (fun pre _ => forall q, q ∈ pre -> ranged X (q_graph_name q) (q_predicate q) -> is_resource (q_object q) = true)).
  - intros pre q rest [] -> Hpre. unfold check_range.
    eapply holds_bind; [by apply (check_control_runs (fun _ => True))|intros _ _].
    set (found := match schemas !! q_graph_name q with Some s => _ | None => false end).
    assert (found = true <-> ranged X (q_graph_name q) (q_predicate q)) as Hf.
    { rewrite <- Hs. unfold found, schema_of. destruct (schemas !! q_graph_name q) as [s|]; [by rewrite bool_decide_eq_true|]. cbn. set_solver. }
    destruct (negb (is_resource (q_object q)) && found) eqn:E.
    + apply andb_prop in E as [E1 E2]. apply negb_true_iff in E1. apply holds_throw, HF. split_and!; [|done|by apply Hf|done].
      apply elem_of_app. right. by left.
    + apply holds_ret. intros q' Hq' Hr. apply elem_of_app in Hq' as [Hq'|Hq']; [by apply Hpre|]. apply list_elem_of_singleton in Hq' as ->.
      apply Hf in Hr. rewrite Hr, andb_true_r in E. by apply negb_false_iff.
  - intros q Hq. by apply elem_of_nil in Hq.
Qed.
End validation.

(** [validate_input] accepts valid input and nothing else. *)
Lemma validate_input_runs {P : DatalogParams} {I : InternerParams} {O : HashOrder} {HO : LawfulHashOrder}
  (S : bytes -> Prop) {HS : GoodHash S} (env : Environment) (options : EvaluationOptions) (d : Dataset) (x : QuadSet) :
  represents S d x ->
  holds (exec_ok env options)
    (fun e => match e with
              | RdfsInput e => input_error (fun q => q ∈ qs_quads x) (ranged (qs_quads x)) e
              | _ => stopped env options (Z.of_nat (size (qs_quads x))) e
              end)
    (validate_input env options d) (fun _ => rdfs_input_ok (qs_quads x)).
Proof.
  intros Hd. set (F := fun e : RdfsD0Failure => _). set (X := qs_quads x).
  assert (forall e, stopped env options (Z.of_nat (size X)) e -> F e) as Hstop by (intros [| |]; done).
  unfold validate_input.
  eapply holds_bind; [by apply (check_control_runs _ _ _ _ Hstop (fun _ => True))|intros _ _].
  eapply holds_bind; [instantiate (1 := fun _ => True)|intros _ _].
  { destruct (OxDataset.Dataset_len d >? _) eqn:E; [|by apply holds_ret]. apply holds_throw, Hstop. right; left. split; [done|].
    apply Z.gtb_lt in E. by rewrite (Dataset_len_spec S d x Hd) in E. }
  destruct (Dataset_iter_spec S d x Hd) as (quads & Eq & _ & Hq).
  assert (list_to_set quads = X) as EX by (apply set_eq; intros q; by rewrite elem_of_list_to_set, Hq).
  assert (forall e, input_error (fun q => q ∈ quads) (ranged X) e -> F (RdfsInput e)) as HF.
  { intros e He. unfold F. destruct e; cbn in He |- *; rewrite Hq in He; exact He. }
  eapply holds_bind; [apply (holds_lift _ _ _ (fun l => l = quads)); by rewrite Eq|intros ? ->].
  eapply holds_bind; [by apply (for_each_record _ _ _ _ Hstop (ranged X))|]. rewrite EX. intros acc [Hok Hrec].
  eapply holds_bind; [by apply (for_each_close _ _ _ _ Hstop X)|]. intros acc' Hr.
  eapply holds_conseq; [by apply (for_each_check _ _ _ _ Hstop X)|]. intros [] Hres. split; intros q H; apply Hq in H.
  - by apply Hok.
  - by apply Hres.
Qed.
