(* ===== verification/RdfsCorrectness.v ===== *)
(** * Correctness of the RDFS profile

    What [RdfsD0::evaluate] of lib/oxrdfs/src/profile.rs returns: the consequences
    of the dataset under the eleven patterns, or an error with its reason; and a
    sample. *)
From stdpp Require Import gmap.
From S2P Require Import Prelude MachineInt RustStr BTree RdfModel RdfDisplay DatalogIr.
From S2P Require Import StateResult DatalogValidate DatalogValidateFacts DatalogControl.
From S2P Require Import DatalogControlFacts.
From S2P Require Import DatalogStorage DatalogRules DatalogEngine.
From S2P Require Import DatalogSpec DatalogStratumFacts DatalogEngineFacts.
From S2P Require Import DatalogCorrectness.
From S2P Require OxInterning OxDataset.
From S2P Require Import OxInterningFacts OxDatasetFacts OxDatasetRefinement DatalogRdf.
From S2P Require Import DatalogRdfFacts RdfsProfile RdfsSpec RdfsSafe RdfsValidation.

(** ** The program *)

Lemma rdfs_d0_prepared {P : DatalogParams} {I : InternerParams} (d : Dataset) :
  PreparedRdfProgram_new rdfs_d0_program d = Ok (mkPrepared rdfs_d0_program ∅ false).
Proof. reflexivity. Qed.
Lemma rdfs_d0_size : len (program_atoms (p_rules rdfs_d0_program)) < 2 ^ 31.
Proof. vm_compute. reflexivity. Qed.
Lemma rdfs_d0_valid :
  exists p, validate rdfs_d0_program ValidationLimits_default = Ok p /\ vp_arities p !! quad_relation = Some 4.
Proof.
  assert (match validate rdfs_d0_program ValidationLimits_default with
          | Ok p => bool_decide (vp_arities p !! quad_relation = Some 4) | Err _ => false end = true) as H by (vm_compute; reflexivity).
  destruct (validate rdfs_d0_program ValidationLimits_default) as [p|]; [|discriminate H]. exists p. split; [done|]. by apply bool_decide_eq_true in H.
Qed.
(** What holds of every rule, by evaluation. *)
Lemma rdfs_d0_rules (f : Rule -> bool) (r : Rule) : forallb f (p_rules rdfs_d0_program) = true -> r ∈ p_rules rdfs_d0_program -> f r = true.
Proof. intros H Hr. rewrite forallb_forall in H. by apply H, list_elem_of_In. Qed.
Lemma rdfs_d0_relations : user_relations rdfs_d0_program = ∅.
Proof.
  apply elem_of_equiv_empty_L. intros rel (r & a & Hr & Ha & -> & Hne)%elem_of_user_relations. apply Hne.
  pose proof (rdfs_d0_rules (fun r => forallb (fun a => bool_decide (a_relation a = QUAD_RELATION_IRI)) (rule_atoms r)) r) as H.
  cbv beta in H. rewrite (forallb_forall _ (rule_atoms r)) in H. apply (bool_decide_eq_true (a_relation a = QUAD_RELATION_IRI)), H;
    [vm_compute; reflexivity|done|by apply list_elem_of_In].
Qed.

Section correctness.
  Context {P : DatalogParams} {I : InternerParams} {O : HashOrder} {HO : LawfulHashOrder} (S : bytes -> Prop) {HS : GoodHash S}.
  Hypothesis Hvocabulary : Forall (fun n => S (nn_iri n))
    [RDF_TYPE; RDFS_SUB_PROPERTY_OF; RDFS_SUB_CLASS_OF; RDFS_RESOURCE; RDFS_MEMBER; RDFS_LITERAL].

(** ** The engine on valid input *)

Section evaluation.
  Context (env : Environment) (options : EvaluationOptions) (d : Dataset) (x : QuadSet).
  Hypothesis Hd : represents S d x.
  Hypothesis Hin : rdfs_input_ok (qs_quads x).
  Hypothesis Hmax : el_max_iterations (eo_limits options) <= usize_max.

Lemma input_quads (q : RdfQuad) : q ∈ qs_quads x -> Quad_wf q = true /\ Forall S (Quad_strings q).
Proof. intros Hq. by destruct (rp_quads S d x Hd q Hq) as (? & ? & _). Qed.

(** Every fact of the evaluation is a quad that can be interned. *)
Lemma facts_safe (quads : list RdfQuad) (ev : EvaluationResult) (f : Fact) :
  (forall q, q ∈ quads <-> q ∈ qs_quads x) ->
  Engine_evaluate env options ValidationLimits_default rdfs_d0_program (fact_from_quad <$> quads) = Ok ev ->
  f ∈ er_facts ev -> safe_fact S (qs_quads x) f.
Proof.
  intros Hq He Hf. pose proof (Engine_evaluate_outcome env options ValidationLimits_default rdfs_d0_program (fact_from_quad <$> quads) rdfs_d0_size Hmax) as Ho.
  rewrite He in Ho. destruct Ho as (p & sk & Hp & _ & Hr). apply (ro_facts _ _ _ _ _ Hr) in Hf.
  assert (forall r, r ∈ vp_rules p -> r ∈ p_rules rdfs_d0_program) as Hrules.
  { intros r. rewrite (proj1 (validate_ok _ _ p rdfs_d0_size Hp)). apply elem_of_sort_by. }
  revert f Hf. apply model_least.
  - intros r Hr'. pose proof (rdfs_d0_positive r (Hrules r Hr')) as Hpos. unfold is_positive in Hpos. by destruct (r_negative_body r).
  - intros f Hf. apply list_elem_of_fmap in Hf as (q & -> & Hin'). exists q. split; [done|]. apply (safe_input S (qs_quads x) Hin input_quads). by apply Hq.
  - intros r σ f Hr' Hfi Hh. destruct (instance_step _ _ sk r σ f (Hrules r Hr') Hfi Hh) as (s & p' & o & g & -> & Hs).
    by apply (safe_step S (qs_quads x) Hin).
Qed.
Lemma derived_quad_ok (quads : list RdfQuad) (ev : EvaluationResult) (f : Fact) :
  (forall q, q ∈ quads <-> q ∈ qs_quads x) ->
  Engine_evaluate env options ValidationLimits_default rdfs_d0_program (fact_from_quad <$> quads) = Ok ev ->
  f ∈ er_derived_facts ev ->
  exists q, f = fact_from_quad q /\ Quad_wf q = true /\ Forall S (Quad_strings q).
Proof.
  intros Hq He Hf. assert (f ∈ er_facts ev) as Hf'.
  { pose proof (Engine_evaluate_outcome env options ValidationLimits_default rdfs_d0_program (fact_from_quad <$> quads) rdfs_d0_size Hmax) as Ho.
    rewrite He in Ho. destruct Ho as (p & sk & _ & _ & Hr). apply (ro_facts _ _ _ _ _ Hr). by apply (ro_derived _ _ _ _ _ Hr). }
  destruct (facts_safe quads ev f Hq He Hf') as (q & -> & Hs). exists q. split; [done|]. exact (sf_ok _ _ _ Hs).
Qed.
Lemma rdfs_derivations_valid : derivations_valid S env options rdfs_d0_program d.
Proof.
  intros prepared quads ev q. rewrite rdfs_d0_prepared. intros [= <-] Eq He (f & Hf & E).
  destruct (Dataset_iter_spec S d x Hd) as (quads' & Eq' & _ & Hq). assert (quads' = quads) as -> by congruence.
  destruct (derived_quad_ok quads ev f Hq He Hf) as (q' & -> & Hok).
  unfold prepared_quad_from_fact in E. cbn [pp_specialized negb] in E.
  rewrite bool_decide_true, (proj2 (quad_from_fact_spec _ q') eq_refl) in E by done. injection E as <-. exact Hok.
Qed.

(** The datasets of the result are the consequences of the input. *)
Definition rdfs_closure_ok (c : RdfClosure) : Prop :=
  exists Q : gset RdfQuad,
    represents S (rc_base c) x /\ represents S (rc_inference c) (quads_union Q (mkQuadSet ∅ ∅))
    /\ represents S (rc_union c) (quads_union Q x) /\ Q ## qs_quads x
    /\ forall q, q ∈ qs_quads x ∪ Q <-> rdfs_entails (fun q => q ∈ qs_quads x) q.

Lemma evaluate_closure (c : RdfClosure) : rdf_evaluate env rdfs_d0_program d options = Ok c -> rdfs_closure_ok c.
Proof.
  intros Hc. pose proof (rdf_evaluate_outcome S env options rdfs_d0_program d x Hd rdfs_d0_size Hmax rdfs_derivations_valid) as H. rewrite Hc in H.
  destruct H as (Q & sk & H1 & H2 & H3 & H4 & H5 & _ & _). exists Q. split_and!; [done..|].
  assert (forall f, closure_facts rdfs_d0_program x Q (er_facts (rc_evaluation c)) f <-> exists q, q ∈ qs_quads x ∪ Q /\ f = fact_from_quad q) as HM.
  { intros f. unfold closure_facts. rewrite rdfs_d0_relations. unfold quad_facts. set_solver. }
  intros q. split.
  - by apply (closure_entails sk (fun q => q ∈ qs_quads x) (fun q => q ∈ qs_quads x ∪ Q) _ H5 HM).
  - by apply (entails_closure sk (fun q => q ∈ qs_quads x) (fun q => q ∈ qs_quads x ∪ Q) _ H5 HM).
Qed.

(** Why the engine fails: the guard interrupts, a term of the dataset is too
    large, or a limit is exceeded. *)
Definition rdfs_engine_failure (quads : list RdfQuad) (e : failure) : Prop :=
  match e with
  | Raised Cancelled => cancel_requested env options
  | Raised (LimitExceeded kind limit) =>
      exists p, validate rdfs_d0_program ValidationLimits_default = Ok p /\ limit_reason env options p (fact_from_quad <$> quads) kind limit
  | Raised (InputTermLimit actual limit) =>
      limit = el_max_term_bytes (eo_limits options) /\ limit < actual
      /\ exists q v, q ∈ quads /\ v ∈ f_values (fact_from_quad q) /\ Value_estimated_bytes v = actual
  | _ => False
  end.
Lemma engine_failure_reason (quads : list RdfQuad) (e : failure) :
  engine_failure env options ValidationLimits_default rdfs_d0_program (fact_from_quad <$> quads) e -> rdfs_engine_failure quads e.
Proof.
  destruct rdfs_d0_valid as (p & Hp & Har). intros He.
  assert (~ generates p) as Hg.
  { intros (r & Hr & Hg). rewrite (proj1 (validate_ok _ _ p rdfs_d0_size Hp)), elem_of_sort_by in Hr.
    pose proof (rdfs_d0_rules (fun r => negb (atom_generates (r_head r))) r) as H. cbv beta in H. rewrite Hg in H. discriminate H; [vm_compute; reflexivity|done]. }
  unfold engine_failure, rdfs_engine_failure in *. revert Hp He. generalize (validate rdfs_d0_program ValidationLimits_default) as V. intros V Hp He.
  assert (forall f, f ∈ fact_from_quad <$> quads -> f_relation f = quad_relation /\ Fact_arity f = 4) as Hquad.
  { intros f Hf. apply list_elem_of_fmap in Hf as (q & -> & _). done. }
  assert (forall e, interrupted env options e \/ (exists q, V = Ok q /\ failure_reason env options q (fact_from_quad <$> quads) e) ->
    interrupted env options e \/ failure_reason env options p (fact_from_quad <$> quads) e) as Hone.
  { intros e' [?|(q & Hq & ?)]; [by left|right]. rewrite Hp in Hq. by injection Hq as <-. }
  destruct e as [[v|rel a b|a l|a l| | |kind l]|].
  - rewrite Hp in He. discriminate He.
  - apply Hone in He as [[]|(Hne & (f & Hf & Ef & Ea) & Hex)]. apply Hquad in Hf as [Hr Hf]. rewrite Hr in Ef. subst rel.
    apply Hne. destruct Hex as [Hk|(g & Hg' & _ & Eg)]; [congruence|]. apply Hquad in Hg' as [_ Hg']. congruence.
  - apply Hone in He as [[]|(-> & Hl & f & v & Hf & Hv & Ev)]. apply list_elem_of_fmap in Hf as (q & -> & Hf). split; [done|]. split; [done|]. by exists q, v.
  - apply Hone in He as [[]|(_ & _ & ? & _)]. by destruct Hg.
  - by apply Hone in He as [[]|[]].
  - by apply Hone in He as [?|?].
  - exists p. split; [done|]. apply Hone in He as [Hi|?]; [|done]. by destruct kind.
  - by apply Hone in He as [[]|[]].
Qed.

(** The evaluation of the program on valid input. *)
Lemma evaluate_outcome :
  match rdf_evaluate env rdfs_d0_program d options with
  | Ok c => rdfs_closure_ok c
  | Err e => exists quads reason, enumerates quads (fun q => q ∈ qs_quads x) /\ e = RdfEvaluation reason /\ rdfs_engine_failure quads reason
  end.
Proof.
  destruct (rdf_evaluate env rdfs_d0_program d options) as [c|e] eqn:Ec; [by apply evaluate_closure|].
  pose proof (rdf_evaluate_outcome S env options rdfs_d0_program d x Hd rdfs_d0_size Hmax rdfs_derivations_valid) as H. rewrite Ec in H.
  destruct (Dataset_iter_spec S d x Hd) as (quads & Eq & Hq). exists quads.
  destruct e as [e|e|]; [| |done].
  - exists e. split; [done|]. split; [done|]. destruct H as (prepared & quads' & Hp & Eq' & He). rewrite rdfs_d0_prepared in Hp. injection Hp as <-.
    assert (quads' = quads) as -> by congruence. by apply engine_failure_reason.
  - exfalso. unfold rdf_evaluate in Ec. rewrite rdfs_d0_prepared, Eq in Ec. cbn [returns ok_or mbind result_bind pp_program] in Ec.
    change (prepared_fact_from_quad (mkPrepared rdfs_d0_program ∅ false) <$> quads) with (fact_from_quad <$> quads) in Ec.
    destruct (Engine_evaluate env options ValidationLimits_default rdfs_d0_program (fact_from_quad <$> quads)) as [ev|r] eqn:Ee; cbn [map_err mbind result_bind] in Ec; [|discriminate Ec].
    pose proof (insert_derived_spec S (mkPrepared rdfs_d0_program ∅ false) (er_derived_facts ev) OxDataset.Dataset_new (mkQuadSet ∅ ∅) (represents_new S)) as Hi.
    specialize (Hi (fun q => rdfs_derivations_valid _ quads ev q (rdfs_d0_prepared d) Eq Ee)).
    destruct (insert_derived _ _ _) as [inference|[r|r|]] in Hi, Ec; cbn [mbind result_bind] in Ec; [|done| |done].
    + destruct (OxDataset.Dataset_iter inference) as [derived|]; cbn [returns ok_or mbind result_bind] in Ec; [|discriminate Ec].
      destruct (OxDataset.Dataset_extend d derived) as [u|]; cbn [returns ok_or mbind result_bind] in Ec; discriminate Ec.
    + destruct Hi as (f & Hf & Ef). destruct (derived_quad_ok quads ev f (proj2 Hq) Ee Hf) as (q & -> & _).
      unfold prepared_quad_from_fact in Ef. cbn [pp_specialized negb] in Ef.
      rewrite bool_decide_true, (proj2 (quad_from_fact_spec _ q) eq_refl) in Ef by done. discriminate Ef.
Qed.
End evaluation.

(** Why an evaluation under the profile fails. *)
Definition rdfs_failure_ok (env engine_env : Environment) (options : EvaluationOptions) (x : QuadSet) (e : RdfsD0Failure) : Prop :=
  match e with
  | RdfsInput e => input_error (fun q => q ∈ qs_quads x) (ranged (qs_quads x)) e /\ ~ rdfs_input_ok (qs_quads x)
  | RdfsEvaluation (RdfEvaluation reason) =>
      stopped env options (Z.of_nat (size (qs_quads x))) e
      \/ rdfs_input_ok (qs_quads x)
         /\ exists s quads, exec_ok env options s /\ enumerates quads (fun q => q ∈ qs_quads x)
              /\ rdfs_engine_failure engine_env (remaining_options options (mo_elapsed (env (x_now s))) s) quads reason
  | _ => False
  end.

Lemma RdfsD0_evaluate_outcome (env engine_env : Environment) (options : EvaluationOptions) (d : Dataset) (x : QuadSet) :
  represents S d x -> el_max_iterations (eo_limits options) <= usize_max ->
  match RdfsD0_evaluate env engine_env d options with
  | Ok c => rdfs_input_ok (qs_quads x) /\ rdfs_closure_ok x (inner c)
  | Err e => rdfs_failure_ok env engine_env options x e
  end.
Proof.
  intros Hd Hmax. unfold RdfsD0_evaluate.
  assert (holds (exec_ok env options) (rdfs_failure_ok env engine_env options x) (validate_input env options d;; check_control env options)
    (fun _ => rdfs_input_ok (qs_quads x))) as H.
  { eapply holds_bind.
    - instantiate (1 := fun _ => rdfs_input_ok (qs_quads x)). intros s Hs. pose proof (validate_input_runs S env options d x Hd s Hs) as Hv.
      destruct (validate_input env options d s) as [[[] s']|[e|[e|e|]|]]; try exact Hv; try done; cbn; [split; [exact Hv|by apply (input_error_invalid _ e)]|left; exact Hv].
    - intros [] Hin. apply (check_control_runs env options _ (Z.of_nat (size (qs_quads x)))); [|exact Hin].
      intros [e|[e|e|]|] He; try done. cbn. left. exact He. }
  specialize (H _ (Exec_new_ok env options)).
  destruct ((validate_input env options d;; check_control env options) (Exec_new options)) as [[[] s]|e]; cbn [mbind result_bind]; [|exact H].
  destruct H as [Hs Hin]. cbn [snd].
  pose proof (evaluate_outcome engine_env (remaining_options options (mo_elapsed (env (x_now s))) s) d x Hd Hin Hmax) as Ho.
  destruct (rdf_evaluate _ _ _ _) as [c|e]; cbn [map_err mbind result_bind inner]; [done|].
  destruct Ho as (quads & reason & Hq & -> & Hr). right. split; [done|]. by exists s, quads.
Qed.

(** ** Properties *)

(** C19. A successful evaluation under the profile: the input was valid; the base of
    the closure is the dataset, its inference and its union are datasets of new
    quads and of both, and a quad is in the union exactly when it is a
    consequence of the dataset under the eleven RDFS patterns, each graph on
    its own. *)
Theorem RdfsD0_evaluate_closure (env engine_env : Environment) (options : EvaluationOptions) (d : Dataset) (x : QuadSet) (c : RdfsD0Closure) :
  represents S d x -> el_max_iterations (eo_limits options) <= usize_max ->
  RdfsD0_evaluate env engine_env d options = Ok c ->
  rdfs_input_ok (qs_quads x) /\ rdfs_closure_ok x (inner c).
Proof. intros Hd Hmax Hc. pose proof (RdfsD0_evaluate_outcome env engine_env options d x Hd Hmax) as H. by rewrite Hc in H. Qed.

(** C20. An evaluation under the profile fails only for a reason: a quad of the
    dataset that the profile does not accept (a schema statement about something
    that cannot be a predicate or a class, a schema property as a superproperty, or a
    value that is no resource of a property that inherits a range), a
    cancellation, the time, or a limit.  On valid input no derived fact fails to
    be a quad: there is no adapter error, no panic, and the loop over the
    subproperties ends. *)
Theorem RdfsD0_evaluate_failure (env engine_env : Environment) (options : EvaluationOptions) (d : Dataset) (x : QuadSet) (e : RdfsD0Failure) :
  represents S d x -> el_max_iterations (eo_limits options) <= usize_max ->
  RdfsD0_evaluate env engine_env d options = Err e ->
  rdfs_failure_ok env engine_env options x e.
Proof. intros Hd Hmax Hc. pose proof (RdfsD0_evaluate_outcome env engine_env options d x Hd Hmax) as H. by rewrite Hc in H. Qed.
End correctness.

(** ** Samples *)

#[local] Instance rdfs_digest : DatalogParams := {| size_of := fun _ => 24; hex_sha256 := fun s => s |}.
#[local] Instance rdfs_hash : InternerParams :=
  {| OxInterning.hash_one := fun s => foldl (fun h c => (h * 31 + Z_of_byte c) mod 2 ^ 40) 7 s |}.
#[local] Instance rdfs_order : HashOrder := {| schema_keys := fun m => (map_to_list m).*1; property_list := elements |}.
#[local] Instance rdfs_order_lawful : LawfulHashOrder.
Proof.
  split.
  - intros m. split; [apply NoDup_fst_map_to_list|]. intros g. rewrite elem_of_dom. unfold schema_keys, rdfs_order. split.
    + intros Hg. apply list_elem_of_fmap in Hg as ([g' s] & -> & Hg). apply elem_of_map_to_list in Hg. by exists s.
    + intros [s Hs]. apply list_elem_of_fmap. exists (g, s). split; [done|]. by apply elem_of_map_to_list.
  - intros s. split; [apply NoDup_elements|]. intros n. apply elem_of_elements.
Qed.

Definition rdfs_sample_name (s : string) : RdfNamedNode := mkNamedNode (str s).
Definition rdfs_sample_quad (s : string) (p : RdfNamedNode) (o : RdfTerm) : RdfQuad := mkQuad (NodeNamed (rdfs_sample_name s)) p o GraphDefault.
Definition rdfs_sample_term (s : string) : RdfTerm := TermNamedNode (rdfs_sample_name s).
(** A subproperty of a property with a range, and a statement of it. *)
Definition rdfs_sample_schema : list dataset_op :=
  [OpInsert (rdfs_sample_quad "u:parent" RDFS_RANGE (rdfs_sample_term "u:Person"));
   OpInsert (rdfs_sample_quad "u:mother" RDFS_SUB_PROPERTY_OF (rdfs_sample_term "u:parent"))].
Definition rdfs_sample_ops : list dataset_op := rdfs_sample_schema ++ [OpInsert (rdfs_sample_quad "u:a" (rdfs_sample_name "u:mother") (rdfs_sample_term "u:b"))].
(** The same with a literal. *)
Definition rdfs_sample_bad_quad : RdfQuad := rdfs_sample_quad "u:a" (rdfs_sample_name "u:mother") (TermLiteral (LiteralString (str "b"))).
Definition rdfs_sample_bad_ops : list dataset_op := rdfs_sample_schema ++ [OpInsert rdfs_sample_bad_quad].

Definition rdfs_sample_strings : list bytes :=
  (str <$> ["u:a"; "u:b"; "b"; "u:parent"; "u:mother"; "u:Person"]%string)
  ++ (nn_iri <$> [RDF_TYPE; RDFS_SUB_PROPERTY_OF; RDFS_SUB_CLASS_OF; RDFS_RESOURCE; RDFS_MEMBER; RDFS_LITERAL; RDFS_RANGE]).
Definition rdfs_sample_set (s : bytes) : Prop := s ∈ rdfs_sample_strings.
#[local] Instance rdfs_sample_set_dec (s : bytes) : Decision (rdfs_sample_set s).
Proof. unfold rdfs_sample_set. apply _. Defined.
#[local] Instance rdfs_sample_good : GoodHash rdfs_sample_set.
Proof.
  split.
  - intros s Hs. assert (Forall (fun s => 0 <= OxInterning.hash_one s <= OxInterning.u64_max) rdfs_sample_strings) as Hall by (apply (bool_decide_unpack _); vm_compute; exact Logic.I).
    by apply (proj1 (list.Forall_forall _ _) Hall).
  - intros a b Ha Hb. assert (Forall (fun a => Forall (fun b => OxInterning.hash a = OxInterning.hash b -> a = b) rdfs_sample_strings) rdfs_sample_strings) as Hall
      by (apply (bool_decide_unpack _); vm_compute; exact Logic.I).
    pose proof (proj1 (list.Forall_forall _ _) Hall a Ha) as Ha'. by apply (proj1 (list.Forall_forall _ _) Ha').
Qed.

Definition rdfs_sample (ops : list dataset_op) : Dataset := default OxDataset.Dataset_new (fst <$> run_ops OxDataset.Dataset_new ops).
Lemma rdfs_sample_represents (ops : list dataset_op) :
  Forall (op_valid rdfs_sample_set) ops -> represents rdfs_sample_set (rdfs_sample ops) (spec_ops (mkQuadSet ∅ ∅) ops).1.
Proof.
  intros Hv. destruct (run_ops_spec rdfs_sample_set ops OxDataset.Dataset_new (mkQuadSet ∅ ∅) (represents_new rdfs_sample_set) Hv) as (d & E & Hd).
  unfold rdfs_sample. rewrite E. exact Hd.
Qed.
Ltac valid_ops :=
  repeat first [apply Forall_nil_2 | apply Forall_cons_2]; cbn [op_valid]; (split; [reflexivity|apply (bool_decide_unpack _); vm_compute; exact Logic.I]).
Lemma rdfs_sample_vocabulary :
  Forall (fun n => rdfs_sample_set (nn_iri n)) [RDF_TYPE; RDFS_SUB_PROPERTY_OF; RDFS_SUB_CLASS_OF; RDFS_RESOURCE; RDFS_MEMBER; RDFS_LITERAL].
Proof. apply (bool_decide_unpack _). vm_compute. exact Logic.I. Qed.

Lemma RdfsD0_evaluate_closure_witness :
  exists c, RdfsD0_evaluate calm calm (rdfs_sample rdfs_sample_ops) (sample_options 1000) = Ok c
    /\ OxDataset.Dataset_len (rc_inference (inner c)) = 2
    /\ rdfs_closure_ok rdfs_sample_set (spec_ops (mkQuadSet ∅ ∅) rdfs_sample_ops).1 (inner c).
Proof.
  assert (match RdfsD0_evaluate calm calm (rdfs_sample rdfs_sample_ops) (sample_options 1000) with
    | Ok c => OxDataset.Dataset_len (rc_inference (inner c)) =? 2 | Err _ => false end = true) as Hc by (vm_compute; reflexivity).
  pose proof (RdfsD0_evaluate_closure rdfs_sample_set rdfs_sample_vocabulary calm calm (sample_options 1000) (rdfs_sample rdfs_sample_ops) (spec_ops (mkQuadSet ∅ ∅) rdfs_sample_ops).1) as H.
  destruct (RdfsD0_evaluate calm calm (rdfs_sample rdfs_sample_ops) (sample_options 1000)) as [c|e]; [|discriminate Hc].
  exists c. split; [reflexivity|]. split; [apply Z.eqb_eq; exact Hc|].
  apply (H c); [apply rdfs_sample_represents; valid_ops|apply sample_iterations|reflexivity].
Defined.

Lemma RdfsD0_evaluate_failure_witness :
  exists e, RdfsD0_evaluate calm calm (rdfs_sample rdfs_sample_bad_ops) (sample_options 1000) = Err e
    /\ e = RdfsInput (RangeOnNonResource (rdfs_sample_name "u:mother") rdfs_sample_bad_quad)
    /\ rdfs_failure_ok calm calm (sample_options 1000) (spec_ops (mkQuadSet ∅ ∅) rdfs_sample_bad_ops).1 e.
Proof.
  assert (match RdfsD0_evaluate calm calm (rdfs_sample rdfs_sample_bad_ops) (sample_options 1000) with
    | Err (RdfsInput (RangeOnNonResource n q)) => bool_decide (n = rdfs_sample_name "u:mother" /\ q = rdfs_sample_bad_quad) | _ => false end = true) as Hc by (vm_compute; reflexivity).
  pose proof (RdfsD0_evaluate_failure rdfs_sample_set rdfs_sample_vocabulary calm calm (sample_options 1000) (rdfs_sample rdfs_sample_bad_ops) (spec_ops (mkQuadSet ∅ ∅) rdfs_sample_bad_ops).1) as H.
  destruct (RdfsD0_evaluate calm calm (rdfs_sample rdfs_sample_bad_ops) (sample_options 1000)) as [c|e]; [discriminate Hc|].
  exists e. split; [reflexivity|]. split.
  - destruct e as [[q|q|n q|n q|n q]|e|]; try discriminate Hc. apply bool_decide_eq_true in Hc as [-> ->]. reflexivity.
  - apply (H e); [apply rdfs_sample_represents; valid_ops|apply sample_iterations|reflexivity].
Defined.
