(* ===== verification/SpAlgebra.v ===== *)
(** * The query algebra of the optimizer

    lib/sparopt/src/algebra.rs: expressions and query expressions with the
    constructors that simplify what they build.  The features sparql-12 and
    sep-0006 are on, as the store enables them.  The hash that orders the
    arguments of commutative operators is a parameter. *)
From stdpp Require Import gmap.
From S2P Require Import Prelude MachineInt RustStr BTree RdfModel RdfDisplay.

(** ** Patterns

    lib/spargebra/src/term.rs and algebra.rs. *)

(** A variable is its name. *)
Abbreviation VariableName := bytes (only parsing).

Inductive NamedNodePattern : Set :=
| PatternNamedNode (node : RdfNamedNode)
| PatternVariable (variable : VariableName).
Inductive GroundTerm : Set :=
| GroundNamedNode (node : RdfNamedNode)
| GroundLiteral (literal : RdfLiteral)
| GroundTriple (subject predicate : RdfNamedNode) (object : GroundTerm).
Inductive GroundTermPattern : Set :=
| GPNamedNode (node : RdfNamedNode)
| GPLiteral (literal : RdfLiteral)
| GPVariable (variable : VariableName)
| GPTriple (subject : GroundTermPattern) (predicate : NamedNodePattern) (object : GroundTermPattern).
Inductive PropertyPathExpression : Set :=
| PathLink (node : RdfNamedNode)
| PathInv (path : PropertyPathExpression)
| PathSeq (left right : PropertyPathExpression)
| PathAlt (left right : PropertyPathExpression)
| ZeroOrMorePath (path : PropertyPathExpression)
| OneOrMorePath (path : PropertyPathExpression)
| ZeroOrOnePath (path : PropertyPathExpression)
| PathNps (nodes : list RdfNamedNode).

#[global] Instance NamedNodePattern_eq_dec : EqDecision NamedNodePattern.
Proof. solve_decision. Defined.

(** ** The algebra *)

Inductive JoinAlgorithm : Set := HashBuildLeftProbeRight (keys : list VariableName).
Inductive LeftJoinAlgorithm : Set := LeftHashBuildRightProbeLeft (keys : list VariableName).
Inductive MinusAlgorithm : Set := MinusHashBuildRightProbeLeft (keys : list VariableName).
Inductive OrderExpression : Set := Asc (variable : VariableName) | Desc (variable : VariableName).

Inductive Expression : Set :=
| ENamedNode (node : RdfNamedNode)
| ELiteral (literal : RdfLiteral)
| EVariable (variable : VariableName)
| EOr (inner : list Expression)
| EAnd (inner : list Expression)
| EExists (inner : QueryExpression)
| EBound (variable : VariableName)
| EIf (condition yes no : Expression)
| ECoalesce (inner : list Expression)
| EFunctionCall (name : RdfNamedNode) (args : list Expression)
with QueryExpression : Set :=
| QQuadPattern (subject : GroundTermPattern) (predicate : NamedNodePattern) (object : GroundTermPattern) (graph_name : option NamedNodePattern)
| QPath (subject : GroundTermPattern) (path : PropertyPathExpression) (object : GroundTermPattern)
| QGraph (graph_name : NamedNodePattern) (inner : QueryExpression)
| QJoin (left right : QueryExpression) (algorithm : JoinAlgorithm)
| QLeftJoin (left right : QueryExpression) (expression : Expression) (algorithm : LeftJoinAlgorithm)
| QLateral (left right : QueryExpression)
| QFilter (expression : Expression) (inner : QueryExpression)
| QUnion (inner : list QueryExpression)
| QExtend (inner : QueryExpression) (variable : VariableName) (expression : Expression)
| QMinus (left right : QueryExpression) (algorithm : MinusAlgorithm)
| QValues (variables : list VariableName) (bindings : list (list (option GroundTerm)))
| QOrderBy (inner : QueryExpression) (expression : list OrderExpression)
| QProject (inner : QueryExpression) (variables : list VariableName)
| QDistinct (inner : QueryExpression)
| QReduced (inner : QueryExpression)
| QSlice (inner : QueryExpression) (offset : Z) (limit : option Z)
| QGroup (inner : QueryExpression) (variables : list VariableName) (aggregates : list (VariableName * AggregateExpression))
| QService (name : NamedNodePattern) (inner : QueryExpression) (silent : bool)
with AggregateExpression : Set :=
| CountSolutions (distinct : bool)
| AggregateCall (name : RdfNamedNode) (expr : Expression) (distinct : bool) (scalarvals : list (bytes * bytes)).

(** ** The vocabulary of functions

    lib/spargebra/src/vocab.rs *)

Definition SPARQL (name : string) : RdfNamedNode := mkNamedNode (str "http://www.w3.org/ns/sparql#" ++ str name).
Definition SPARQL_EQUALS : RdfNamedNode := SPARQL "equals".
Definition SPARQL_NOT_EQUALS : RdfNamedNode := SPARQL "not-equals".
Definition SPARQL_LOGICAL_NOT : RdfNamedNode := SPARQL "logical-not".
Definition SPARQL_SAME_TERM : RdfNamedNode := SPARQL "sameTerm".
Definition SPARQL_TRIPLE : RdfNamedNode := SPARQL "triple".

(** ** Parameters *)

(** [DefaultHasher] on expressions, and [sort_unstable_by_key]. *)
Class OrderParams := {
  expression_hash : Expression -> Z;
  order_expressions : list Expression -> list Expression;
  order_queries : list QueryExpression -> list QueryExpression
}.

Section algebra.
  Context {O : OrderParams}.

Definition order_pair (a b : Expression) : Expression * Expression :=
  if expression_hash a <=? expression_hash b then (a, b) else (b, a).

(** ** Expressions *)

(** [Literal::from] of a boolean, and [From<bool> for Expression]. *)
Definition Literal_from_bool (b : bool) : RdfLiteral := TypedLiteral (if b then str "true" else str "false") (XSD "boolean").
Definition Expression_from_bool (b : bool) : Expression := ELiteral (Literal_from_bool b).

Definition literal_boolean_value (l : RdfLiteral) : option bool :=
  if bool_decide (Literal_datatype l = XSD "boolean") then
    if bool_decide (Literal_value l = str "true") || bool_decide (Literal_value l = str "1") then Some true
    else if bool_decide (Literal_value l = str "false") || bool_decide (Literal_value l = str "0") then Some false
    else None
  else if bool_decide (Literal_datatype l = XSD_STRING) then Some (negb (bool_decide (Literal_value l = [])))
  else None.
Definition effective_boolean_value (e : Expression) : option bool :=
  match e with ELiteral l => literal_boolean_value l | _ => None end.

Definition boolean_functions : list RdfNamedNode :=
  (SPARQL <$> ["logical-not"; "equals"; "not-equals"; "sameTerm"; "greater-than"; "greater-than-or-equal"; "less-than";
               "less-than-or-equal"; "isBlank"; "isIRI"; "isURI"; "isLiteral"; "isNumeric"; "isTriple"]%string) ++ [XSD "boolean"].
Fixpoint returns_boolean (e : Expression) : bool :=
  match e with
  | EOr _ | EAnd _ | EExists _ | EBound _ => true
  | EFunctionCall name _ => bool_decide (name ∈ boolean_functions)
  | ELiteral literal => bool_decide (Literal_datatype literal = XSD "boolean")
  | EIf _ a b => returns_boolean a && returns_boolean b
  | _ => false
  end.

(** The loop of [or_all]: [None] when an argument is true. *)
Fixpoint or_args (args : list Expression) (all : list Expression) : option (list Expression) :=
  match args with
  | [] => Some all
  | arg :: args =>
      match effective_boolean_value arg with
      | Some true => None
      | Some false => or_args args all
      | None => match arg with EOr inner => or_args args (all ++ inner) | _ => or_args args (all ++ [arg]) end
      end
  end.
Definition or_all (args : list Expression) : Expression :=
  match or_args args [] with
  | None => Expression_from_bool true
  | Some [] => Expression_from_bool false
  | Some [result] => if returns_boolean result then result else EAnd [result]
  | Some all => EOr (order_expressions all)
  end.
(** The loop of [and_all]: [None] when an argument is false. *)
Fixpoint and_args (args : list Expression) (all : list Expression) : option (list Expression) :=
  match args with
  | [] => Some all
  | arg :: args =>
      match effective_boolean_value arg with
      | Some false => None
      | Some true => and_args args all
      | None => match arg with EAnd inner => and_args args (all ++ inner) | _ => and_args args (all ++ [arg]) end
      end
  end.
Definition and_all (args : list Expression) : Expression :=
  match and_args args [] with
  | None => Expression_from_bool false
  | Some [] => Expression_from_bool true
  | Some [result] => if returns_boolean result then result else EAnd [result]
  | Some all => EAnd (order_expressions all)
  end.
Definition expression_equal (left right : Expression) : Expression :=
  match left, right with
  | ENamedNode l, ENamedNode r => Expression_from_bool (bool_decide (l = r))
  | _, _ => let '(l, r) := order_pair left right in EFunctionCall SPARQL_EQUALS [l; r]
  end.
Definition expression_not_equal (left right : Expression) : Expression :=
  match left, right with
  | ENamedNode l, ENamedNode r => Expression_from_bool (negb (bool_decide (l = r)))
  | _, _ => let '(l, r) := order_pair left right in EFunctionCall SPARQL_NOT_EQUALS [l; r]
  end.
Definition ordered_same_term (left right : Expression) : Expression :=
  let '(l, r) := order_pair left right in EFunctionCall SPARQL_SAME_TERM [l; r].
Definition same_term (left right : Expression) : Expression :=
  match left, right with
  | ENamedNode l, ENamedNode r => Expression_from_bool (bool_decide (l = r))
  | ELiteral l, ELiteral r => if bool_decide (l = r) then Expression_from_bool true else ordered_same_term left right
  | _, _ => ordered_same_term left right
  end.
(** [Not for Expression] *)
Definition expression_not (e : Expression) : Expression :=
  match effective_boolean_value e with
  | Some v => Expression_from_bool (negb v)
  | None => EFunctionCall SPARQL_LOGICAL_NOT [e]
  end.
Definition if_cond (cond yes no : Expression) : Expression :=
  match effective_boolean_value cond with
  | Some true => yes
  | Some false => no
  | None => EIf cond yes no
  end.

(** ** Query expressions *)

Definition query_empty : QueryExpression := QValues [] [].
Definition query_is_empty (e : QueryExpression) : bool :=
  match e with QValues _ [] => true | _ => false end.
Definition query_empty_singleton : QueryExpression := QValues [] [[]].
Definition is_empty_singleton (e : QueryExpression) : bool :=
  match e with
  | QValues _ bindings =>
      (length bindings =? 1)%nat && forallb (forallb (fun t => match t with None => true | Some _ => false end)) bindings
  | _ => false
  end.

(** [Expression::exists] *)
Definition expression_exists (inner : QueryExpression) : Expression :=
  if query_is_empty inner then Expression_from_bool false
  else if is_empty_singleton inner then Expression_from_bool true
  else EExists inner.

Definition query_join (left right : QueryExpression) (algorithm : JoinAlgorithm) : QueryExpression :=
  if query_is_empty left || query_is_empty right then query_empty
  else if is_empty_singleton left then right
  else if is_empty_singleton right then left
  else QJoin left right algorithm.
Definition query_lateral (left right : QueryExpression) : QueryExpression :=
  if query_is_empty left || query_is_empty right then query_empty
  else if is_empty_singleton left then right
  else if is_empty_singleton right then left
  else QLateral left right.
Definition query_left_join (left right : QueryExpression) (expression : Expression) (algorithm : LeftJoinAlgorithm) : QueryExpression :=
  let expression_ebv := effective_boolean_value expression in
  if query_is_empty left || query_is_empty right || is_empty_singleton right || bool_decide (expression_ebv = Some false) then left
  else QLeftJoin left right (if bool_decide (expression_ebv = Some true) then Expression_from_bool true else expression) algorithm.
Definition query_minus (left right : QueryExpression) (algorithm : MinusAlgorithm) : QueryExpression :=
  if query_is_empty left then query_empty
  else if query_is_empty right then left
  else QMinus left right algorithm.
(** The loop of [union_all]. *)
Fixpoint union_args (args : list QueryExpression) (all : list QueryExpression) : list QueryExpression :=
  match args with
  | [] => all
  | arg :: args =>
      if query_is_empty arg then union_args args all
      else match arg with QUnion inner => union_args args (all ++ inner) | _ => union_args args (all ++ [arg]) end
  end.
Definition union_all (args : list QueryExpression) : QueryExpression :=
  match union_args args [] with
  | [] => query_empty
  | all => QUnion (order_queries all)
  end.
Definition query_filter (inner : QueryExpression) (expression : Expression) : QueryExpression :=
  if query_is_empty inner then query_empty
  else
    let expression := match expression with EAnd [e] => e | e => e end in
    match effective_boolean_value expression with
    | Some true => inner
    | Some false => query_empty
    | None =>
        match inner with
        | QFilter e2 nested_inner => QFilter (and_all [expression; e2]) nested_inner
        | _ => QFilter expression inner
        end
    end.
Definition query_extend (inner : QueryExpression) (variable : VariableName) (expression : Expression) : QueryExpression :=
  if query_is_empty inner then query_empty else QExtend inner variable expression.

(** The elements whose position is not in [empty_rows]. *)
Fixpoint keep_rows {A : Type} (empty_rows : list nat) (i : nat) (l : list A) : list A :=
  match l with
  | [] => []
  | x :: l => if decide (i ∈ empty_rows) then keep_rows empty_rows (Datatypes.S i) l else x :: keep_rows empty_rows (Datatypes.S i) l
  end.
(** A column is kept when a row is long enough to have it, bound or not. *)
Definition query_values (variables : list VariableName) (bindings : list (list (option GroundTerm))) : QueryExpression :=
  let empty_rows := filter (fun row => ~ Exists (fun binding => is_Some (binding !! row)) bindings) (seq 0 (length variables)) in
  match empty_rows with
  | [] => QValues variables bindings
  | _ => QValues (keep_rows empty_rows 0 variables) (keep_rows empty_rows 0 <$> bindings)
  end.
Definition query_graph (inner : QueryExpression) (graph_name : NamedNodePattern) : QueryExpression :=
  if query_is_empty inner then query_empty else QGraph graph_name inner.
Definition query_order_by (inner : QueryExpression) (expression : list OrderExpression) : QueryExpression :=
  if query_is_empty inner then query_empty
  else match expression with [] => inner | _ => QOrderBy inner expression end.
Definition query_project (inner : QueryExpression) (variables : list VariableName) : QueryExpression := QProject inner variables.
Definition query_distinct (inner : QueryExpression) : QueryExpression :=
  if query_is_empty inner then query_empty else QDistinct inner.
Definition query_reduced (inner : QueryExpression) : QueryExpression :=
  if query_is_empty inner then query_empty else QReduced inner.
Definition query_slice (inner : QueryExpression) (offset : Z) (limit : option Z) : QueryExpression :=
  if query_is_empty inner then query_empty
  else if (offset =? 0) && match limit with None => true | Some _ => false end then inner
  else QSlice inner offset limit.
Definition query_group (inner : QueryExpression) (variables : list VariableName) (aggregates : list (VariableName * AggregateExpression))
  : QueryExpression :=
  if query_is_empty inner then query_empty else QGroup inner variables aggregates.

(** ** Variables *)

Definition pattern_variable (p : NamedNodePattern) : list VariableName :=
  match p with PatternVariable v => [v] | PatternNamedNode _ => [] end.
Fixpoint term_pattern_variables (p : GroundTermPattern) : list VariableName :=
  match p with
  | GPVariable v => [v]
  | GPTriple s p o => term_pattern_variables s ++ pattern_variable p ++ term_pattern_variables o
  | _ => []
  end.
(** [lookup_used_variables]: the variables in the order of the calls. *)
Fixpoint lookup_used_variables (e : Expression) : list VariableName :=
  match e with
  | ENamedNode _ | ELiteral _ => []
  | EVariable v | EBound v => [v]
  | EOr inner | EAnd inner | ECoalesce inner | EFunctionCall _ inner => concat (map lookup_used_variables inner)
  | EExists e => query_used_variables e
  | EIf a b c => lookup_used_variables a ++ lookup_used_variables b ++ lookup_used_variables c
  end
with query_used_variables (e : QueryExpression) : list VariableName :=
  match e with
  | QValues variables _ | QProject _ variables => variables
  | QQuadPattern subject predicate object graph_name =>
      term_pattern_variables subject ++ pattern_variable predicate ++ term_pattern_variables object
      ++ match graph_name with Some p => pattern_variable p | None => [] end
  | QPath subject _ object => term_pattern_variables subject ++ term_pattern_variables object
  | QGraph graph_name inner => pattern_variable graph_name ++ query_used_variables inner
  | QFilter expression inner => lookup_used_variables expression ++ query_used_variables inner
  | QUnion inner => concat (map query_used_variables inner)
  | QJoin l r _ | QMinus l r _ | QLateral l r => query_used_variables l ++ query_used_variables r
  | QLeftJoin l r expression _ => lookup_used_variables expression ++ query_used_variables l ++ query_used_variables r
  | QExtend inner variable expression => variable :: lookup_used_variables expression ++ query_used_variables inner
  | QOrderBy inner _ | QDistinct inner | QReduced inner | QSlice inner _ _ => query_used_variables inner
  | QService name inner _ => pattern_variable name ++ query_used_variables inner
  | QGroup _ variables aggregates => variables ++ aggregates.*1
  end.
Definition used_variables (e : Expression) : gset VariableName := list_to_set (lookup_used_variables e).
(** [join_order_variables]: the first occurrences. *)
Definition join_order_variables (e : QueryExpression) : list VariableName := rev (remove_dups (rev (query_used_variables e))).
End algebra.

(** ** Induction

    On expressions, whose [EXISTS] are leaves, and on query expressions, whose
    expressions are leaves.  The evaluation of a lateral join looks into an
    optional right part, so its case has the hypotheses of the parts. *)

Section induction.
  Context (PE : Expression -> Prop)
    (HNode : ∀ n, PE (ENamedNode n)) (HLit : ∀ l, PE (ELiteral l)) (HVar : ∀ v, PE (EVariable v))
    (HOr : ∀ l, Forall PE l → PE (EOr l)) (HAnd : ∀ l, Forall PE l → PE (EAnd l))
    (HExists : ∀ q, PE (EExists q)) (HBound : ∀ v, PE (EBound v))
    (HIf : ∀ a b c, PE a → PE b → PE c → PE (EIf a b c))
    (HCoalesce : ∀ l, Forall PE l → PE (ECoalesce l)) (HCall : ∀ n l, Forall PE l → PE (EFunctionCall n l)).

Fixpoint Expression_induction (e : Expression) : PE e :=
  let all := fix all (l : list Expression) : Forall PE l :=
    match l with [] => Forall_nil_2 _ | e :: l => Forall_cons_2 _ _ _ (Expression_induction e) (all l) end in
  match e with
  | ENamedNode n => HNode n
  | ELiteral l => HLit l
  | EVariable v => HVar v
  | EOr l => HOr l (all l)
  | EAnd l => HAnd l (all l)
  | EExists q => HExists q
  | EBound v => HBound v
  | EIf a b c => HIf a b c (Expression_induction a) (Expression_induction b) (Expression_induction c)
  | ECoalesce l => HCoalesce l (all l)
  | EFunctionCall n l => HCall n l (all l)
  end.
End induction.

Section query_induction.
  Context (PQ : QueryExpression -> Prop)
    (HQuad : ∀ s p o g, PQ (QQuadPattern s p o g)) (HPath : ∀ s p o, PQ (QPath s p o))
    (HGraph : ∀ g q, PQ q → PQ (QGraph g q)) (HJoin : ∀ l r a, PQ l → PQ r → PQ (QJoin l r a))
    (HLeftJoin : ∀ l r e a, PQ l → PQ r → PQ (QLeftJoin l r e a)) (HLateral : ∀ l r, PQ l → PQ r → match r with QLeftJoin rl rr _ _ => PQ rl ∧ PQ rr | _ => True end → PQ (QLateral l r))
    (HFilter : ∀ e q, PQ q → PQ (QFilter e q)) (HUnion : ∀ l, Forall PQ l → PQ (QUnion l))
    (HExtend : ∀ q v e, PQ q → PQ (QExtend q v e)) (HMinus : ∀ l r a, PQ l → PQ r → PQ (QMinus l r a))
    (HValues : ∀ v b, PQ (QValues v b)) (HOrder : ∀ q e, PQ q → PQ (QOrderBy q e)) (HProject : ∀ q v, PQ q → PQ (QProject q v))
    (HDistinct : ∀ q, PQ q → PQ (QDistinct q)) (HReduced : ∀ q, PQ q → PQ (QReduced q))
    (HSlice : ∀ q o l, PQ q → PQ (QSlice q o l)) (HGroup : ∀ q v a, PQ q → PQ (QGroup q v a))
    (HService : ∀ n q s, PQ (QService n q s)).

Fixpoint QueryExpression_induction (q : QueryExpression) : PQ q :=
  let all := fix all (l : list QueryExpression) : Forall PQ l :=
    match l with [] => Forall_nil_2 _ | q :: l => Forall_cons_2 _ _ _ (QueryExpression_induction q) (all l) end in
  match q with
  | QQuadPattern s p o g => HQuad s p o g
  | QPath s p o => HPath s p o
  | QGraph g q => HGraph g q (QueryExpression_induction q)
  | QJoin l r a => HJoin l r a (QueryExpression_induction l) (QueryExpression_induction r)
  | QLeftJoin l r e a => HLeftJoin l r e a (QueryExpression_induction l) (QueryExpression_induction r)
  | QLateral l r =>
      HLateral l r (QueryExpression_induction l) (QueryExpression_induction r)
        match r with QLeftJoin rl rr _ _ => conj (QueryExpression_induction rl) (QueryExpression_induction rr) | _ => I end
  | QFilter e q => HFilter e q (QueryExpression_induction q)
  | QUnion l => HUnion l (all l)
  | QExtend q v e => HExtend q v e (QueryExpression_induction q)
  | QMinus l r a => HMinus l r a (QueryExpression_induction l) (QueryExpression_induction r)
  | QValues v b => HValues v b
  | QOrderBy q e => HOrder q e (QueryExpression_induction q)
  | QProject q v => HProject q v (QueryExpression_induction q)
  | QDistinct q => HDistinct q (QueryExpression_induction q)
  | QReduced q => HReduced q (QueryExpression_induction q)
  | QSlice q o l => HSlice q o l (QueryExpression_induction q)
  | QGroup q v a => HGroup q v a (QueryExpression_induction q)
  | QService n q s => HService n q s
  end.
End query_induction.
