(* ===== verification/SpTypes.v ===== *)
(** * Type inference of the optimizer

    lib/sparopt/src/type_inference.rs: which kinds of terms a variable can have,
    and whether it can be unbound. *)
From stdpp Require Import gmap.
From S2P Require Import Prelude MachineInt RustStr BTree RdfModel RdfDisplay SpAlgebra.

Record VariableType : Set := mkVariableType {
  undef : bool;
  named_node : bool;
  blank_node : bool;
  literal : bool;
  triple : bool
}.
Definition TYPE_ANY : VariableType := mkVariableType true true true true true.
Definition TYPE_BLANK_NODE : VariableType := mkVariableType false false true false false.
Definition TYPE_LITERAL : VariableType := mkVariableType false false false true false.
Definition TYPE_NAMED_NODE : VariableType := mkVariableType false true false false false.
Definition TYPE_SUBJECT : VariableType := mkVariableType false true true false true.
Definition TYPE_TERM : VariableType := mkVariableType false true true true true.
Definition TYPE_TRIPLE : VariableType := mkVariableType false false false false true.
Definition TYPE_UNDEF : VariableType := mkVariableType true false false false false.
Definition VariableType_default : VariableType := mkVariableType false false false false false.

#[global] Instance VariableType_eq_dec : EqDecision VariableType.
Proof. solve_decision. Defined.

Definition type_or (a b : VariableType) : VariableType :=
  mkVariableType (undef a || undef b) (named_node a || named_node b) (blank_node a || blank_node b)
    (literal a || literal b) (triple a || triple b).
Definition type_and (a b : VariableType) : VariableType :=
  let both (f : VariableType -> bool) := f a && f b || undef a && f b || f a && undef b in
  mkVariableType (undef a && undef b) (both named_node) (both blank_node) (both literal) (both triple).
Definition set_undef (t : VariableType) : VariableType :=
  mkVariableType true (named_node t) (blank_node t) (literal t) (triple t).

(** ** The types of the variables *)

Abbreviation VariableTypes := (gmap VariableName VariableType) (only parsing).
Definition types_get (types : VariableTypes) (variable : VariableName) : VariableType :=
  default TYPE_UNDEF (types !! variable).
Definition intersect_variable_with (types : VariableTypes) (variable : VariableName) (t : VariableType) : VariableTypes :=
  let t := type_and (types_get types variable) t in
  if bool_decide (t = TYPE_UNDEF) then types else <[variable := t]> types.
(** The loop over the other types does not depend on its order. *)
Definition intersect_with (types other : VariableTypes) : VariableTypes :=
  merge (fun a b =>
    match b with
    | None => a
    | Some t => let t := type_and (default TYPE_UNDEF a) t in if bool_decide (t = TYPE_UNDEF) then a else Some t
    end) types other.
Definition union_with (types other : VariableTypes) : VariableTypes :=
  merge (fun a b =>
    match a, b with
    | Some a, Some b => Some (type_or (if undef b then set_undef a else a) b)
    | Some a, None => Some (set_undef a)
    | None, Some b => Some (set_undef b)
    | None, None => None
    end) types other.

(** ** Expressions *)

Definition named_node_functions : list RdfNamedNode := SPARQL <$> ["datatype"; "iri"; "uri"; "predicate"]%string.
Definition literal_constants : list RdfNamedNode := SPARQL <$> ["rand"; "now"; "uuid"; "struuid"]%string.
Definition literal_functions : list RdfNamedNode :=
  (SPARQL <$> ["logical-not"; "str"; "equals"; "not-equals"; "greater-than"; "greater-than-or-equal"; "less-than"; "less-than-or-equal";
     "add"; "subtract"; "multiply"; "divide"; "unary-plus"; "unary-minus"; "lang"; "langMatches"; "abs"; "ceil"; "floor"; "round";
     "concat"; "substr"; "strlen"; "replace"; "ucase"; "lcase"; "encodeForUri"; "contains"; "strstarts"; "strends"; "strbefore";
     "strafter"; "year"; "month"; "day"; "hours"; "minutes"; "seconds"; "timezone"; "tz"; "md5"; "sha1"; "sha256"; "sha384"; "sha512";
     "strlang"; "strdt"; "isIRI"; "isURI"; "isBlank"; "isLiteral"; "isNumeric"; "regex"; "langdir"; "strlangdir"; "hasLang";
     "hasLangdir"; "isTriple"; "adjust"]%string)
  ++ (XSD <$> ["anyURI"; "base64Binary"; "boolean"; "byte"; "date"; "dayTimeDuration"; "dateTime"; "dateTimeStamp"; "decimal"; "double";
     "duration"; "float"; "gDay"; "gMonth"; "gMonthDay"; "gYear"; "gYearMonth"; "hexBinary"; "int"; "integer"; "language"; "long";
     "Name"; "NCName"; "negativeInteger"; "NMTOKEN"; "nonNegativeInteger"; "nonPositiveInteger"; "normalizedString"; "positiveInteger";
     "time"; "short"; "string"; "token"; "unsignedByte"; "unsignedInt"; "unsignedLong"; "unsignedShort"; "yearMonthDuration"]%string).

(** The type of a call, from the types of its arguments. *)
Definition call_type (name : RdfNamedNode) (args : list VariableType) : VariableType :=
  if bool_decide (name ∈ named_node_functions) then type_or TYPE_NAMED_NODE TYPE_UNDEF
  else if bool_decide (name = SPARQL "bnode") then
    match args with [] => TYPE_BLANK_NODE | _ => type_or TYPE_BLANK_NODE TYPE_UNDEF end
  else if bool_decide (name ∈ literal_constants) then TYPE_LITERAL
  else if bool_decide (name = SPARQL_SAME_TERM) then
    if existsb undef args then type_or TYPE_LITERAL TYPE_UNDEF else TYPE_LITERAL
  else if bool_decide (name ∈ literal_functions) then type_or TYPE_LITERAL TYPE_UNDEF
  else if bool_decide (name = SPARQL_TRIPLE) then type_or TYPE_TRIPLE TYPE_UNDEF
  else if bool_decide (name = SPARQL "subject") then type_or TYPE_SUBJECT TYPE_UNDEF
  else if bool_decide (name = SPARQL "object") then type_or TYPE_TERM TYPE_UNDEF
  else TYPE_ANY.
(** The loop over the arguments of a coalesce. *)
Fixpoint coalesce_type (t : VariableType) (args : list VariableType) : VariableType :=
  match args with
  | [] => t
  | new :: args =>
      let t := type_or t new in
      if negb (undef new) then mkVariableType false (named_node t) (blank_node t) (literal t) (triple t)
      else coalesce_type t args
  end.
Fixpoint infer_expression_type (e : Expression) (types : VariableTypes) : VariableType :=
  match e with
  | ENamedNode _ => TYPE_NAMED_NODE
  | ELiteral _ | EExists _ | EBound _ => TYPE_LITERAL
  | EVariable v => types_get types v
  | EFunctionCall name args => call_type name (map (fun a => infer_expression_type a types) args)
  | EOr _ | EAnd _ => type_or TYPE_LITERAL TYPE_UNDEF
  | EIf condition yes no =>
      let t := type_or (infer_expression_type yes types) (infer_expression_type no types) in
      if undef (infer_expression_type condition types) then set_undef t else t
  | ECoalesce inner => coalesce_type TYPE_UNDEF (map (fun a => infer_expression_type a types) inner)
  end.

(** ** Query expressions *)

Definition add_named_node_pattern_type (p : NamedNodePattern) (types : VariableTypes) : VariableTypes :=
  match p with PatternVariable v => intersect_variable_with types v TYPE_NAMED_NODE | PatternNamedNode _ => types end.
Fixpoint add_ground_term_pattern_types (pattern : GroundTermPattern) (types : VariableTypes) (is_object : bool) : VariableTypes :=
  match pattern with
  | GPVariable v => intersect_variable_with types v (if is_object then TYPE_TERM else TYPE_SUBJECT)
  | GPTriple s p o =>
      add_ground_term_pattern_types o (add_named_node_pattern_type p (add_ground_term_pattern_types s types false)) true
  | _ => types
  end.

(** The type of column [i] of a table; [None] is the panic of a row without it. *)
Definition binding_type (t : VariableType) (i : nat) (binding : list (option GroundTerm)) : option VariableType :=
  match binding !! i with
  | Some (Some (GroundNamedNode _)) => Some (mkVariableType (undef t) true (blank_node t) (literal t) (triple t))
  | Some (Some (GroundLiteral _)) => Some (mkVariableType (undef t) (named_node t) (blank_node t) true (triple t))
  | Some (Some (GroundTriple _ _ _)) => Some (mkVariableType (undef t) (named_node t) (blank_node t) (literal t) true)
  | Some None => Some (set_undef t)
  | None => None
  end.
Fixpoint column_type (t : VariableType) (i : nat) (bindings : list (list (option GroundTerm))) : option VariableType :=
  match bindings with
  | [] => Some t
  | binding :: bindings => t ← binding_type t i binding; column_type t i bindings
  end.
Fixpoint values_types (types : VariableTypes) (i : nat) (variables : list VariableName) (bindings : list (list (option GroundTerm)))
  : option VariableTypes :=
  match variables with
  | [] => Some types
  | v :: variables =>
      t ← column_type VariableType_default i bindings;
      values_types (intersect_variable_with types v t) (Datatypes.S i) variables bindings
  end.
(** The types of the variables a projection or a grouping keeps. *)
Definition keep_types (types : VariableTypes) (variables : list VariableName) : VariableTypes :=
  filter (fun vt => vt.1 ∈ variables) types.

Fixpoint infer_query_expression_types (e : QueryExpression) (types : VariableTypes) : option VariableTypes :=
  match e with
  | QQuadPattern subject predicate object graph_name =>
      let types := add_ground_term_pattern_types subject types false in
      let types := add_named_node_pattern_type predicate types in
      let types := add_ground_term_pattern_types object types true in
      Some (match graph_name with Some p => add_named_node_pattern_type p types | None => types end)
  | QPath subject _ object =>
      Some (add_ground_term_pattern_types object (add_ground_term_pattern_types subject types false) true)
  | QGraph graph_name inner => types ← infer_query_expression_types inner types; Some (add_named_node_pattern_type graph_name types)
  | QJoin l r _ =>
      left_types ← infer_query_expression_types l types;
      right_types ← infer_query_expression_types r types;
      Some (intersect_with left_types right_types)
  | QLateral l r => types ← infer_query_expression_types l types; infer_query_expression_types r types
  | QLeftJoin l r _ _ =>
      right_types ← infer_query_expression_types r types;
      left_types ← infer_query_expression_types l types;
      Some (intersect_with left_types (set_undef <$> right_types))
  | QMinus l _ _ => infer_query_expression_types l types
  | QUnion inner =>
      all ← mapM (fun e => infer_query_expression_types e types) inner;
      Some (match all with [] => ∅ | t :: all => foldl union_with t all end)
  | QExtend inner variable expression =>
      types ← infer_query_expression_types inner types;
      Some (intersect_variable_with types variable (infer_expression_type expression types))
  | QFilter _ inner => infer_query_expression_types inner types
  | QProject inner variables => types ← infer_query_expression_types inner types; Some (keep_types types variables)
  | QDistinct inner | QReduced inner | QOrderBy inner _ | QSlice inner _ _ => infer_query_expression_types inner types
  | QGroup inner variables aggregates =>
      types ← infer_query_expression_types inner types;
      types ← infer_query_expression_types inner types;
      Some (foldl (fun types va => <[va.1 := TYPE_ANY]> types) (keep_types types variables) aggregates)
  | QValues variables bindings => values_types types 0 variables bindings
  | QService name inner silent =>
      inner_types ← infer_query_expression_types inner types;
      Some (if silent then union_with inner_types types else add_named_node_pattern_type name inner_types)
  end.
