(* ===== verification/SpDataset.v ===== *)
(** * The dataset a query is evaluated on

    lib/spareval/src/dataset.rs and the first part of lib/spareval/src/eval.rs:
    the quads of an oxrdf [Dataset], the graphs a dataset specification selects
    from it, and the quads that match a pattern.  Cancellation, the checks of
    older SPARQL versions and the errors of the storage are left out: an
    iterator is the list of what it yields.  Hash sets that only remove
    duplicates keep the first occurrences. *)
From stdpp Require Import gmap.
From S2P Require Import Prelude MachineInt RustStr BTree RdfModel RdfDisplay.

(** ** Iterators *)

(** [hash_deduplicate], with the items already seen. *)
Fixpoint hash_deduplicate {A : Type} `{EqDecision A} (seen : list A) (l : list A) : list A :=
  match l with
  | [] => []
  | x :: l => if decide (x ∈ seen) then hash_deduplicate seen l else x :: hash_deduplicate (x :: seen) l
  end.
Lemma elem_of_hash_deduplicate {A : Type} `{EqDecision A} (seen l : list A) (x : A) :
  x ∈ hash_deduplicate seen l ↔ x ∈ l ∧ x ∉ seen.
Proof.
  revert seen; induction l as [|y l IH]; intros seen; simpl; [set_solver|].
  case_decide; [rewrite IH; set_solver|].
  rewrite list.elem_of_cons, IH; destruct (decide (x = y)) as [->|]; set_solver.
Qed.
Lemma elem_of_concat_map {A B : Type} (f : A -> list B) (l : list A) (x : B) : x ∈ concat (map f l) ↔ ∃ y, y ∈ l ∧ x ∈ f y.
Proof.
  rewrite list_elem_of_In, in_concat; setoid_rewrite in_map_iff; split.
  - intros (? & (y & <- & Hy) & Hx); exists y; split; by apply list_elem_of_In.
  - intros (y & Hy & Hx); exists (f y); split; [exists y; split; [done|]|]; by apply list_elem_of_In.
Qed.

(** ** Quads *)

Record InternalQuad : Set := mkInternalQuad {
  iq_subject : RdfTerm;
  iq_predicate : RdfTerm;
  iq_object : RdfTerm;
  iq_graph_name : option RdfTerm
}.
#[global] Instance InternalQuad_eq_dec : EqDecision InternalQuad.
Proof. solve_decision. Defined.

Definition graph_name_term (g : RdfGraphName) : option RdfTerm :=
  match g with
  | GraphNamedNode n => Some (TermNamedNode n)
  | GraphBlankNode n => Some (TermBlankNode n)
  | GraphDefault => None
  end.
Definition quad_to_result (q : RdfQuad) : InternalQuad :=
  mkInternalQuad (Term_from_node (q_subject q)) (TermNamedNode (q_predicate q)) (q_object q) (graph_name_term (q_graph_name q)).

(** What the evaluator reads of a dataset: its quads, its named graphs, the
    dataset specification of the query, and the blank nodes that the RDF merge
    of the default graphs draws for the ones of each source graph. *)
Record EvalDataset : Type := mkEvalDataset {
  dataset_quads : list RdfQuad;
  dataset_named_graphs : list RdfNamedOrBlankNode;
  spec_default : option (list (option RdfTerm));
  spec_named : option (list RdfTerm);
  default_is_merge : bool;
  merged_blank_node : option RdfTerm -> RdfBlankNode -> RdfBlankNode
}.

Definition is_none_or {A : Type} (P : A -> bool) (o : option A) : bool :=
  match o with None => true | Some x => P x end.
Definition term_is (t : RdfTerm) : option RdfTerm -> bool := is_none_or (fun s => bool_decide (s = t)).
Definition quad_matches (s p o : option RdfTerm) (q : InternalQuad) : bool :=
  term_is (iq_subject q) s && term_is (iq_predicate q) p && term_is (iq_object q) o.

(** [internal_quads_for_pattern] of a [Dataset]: the default graph is
    [Some None], and [None] stands for the named graphs. *)
Definition dataset_quads_for_pattern (D : EvalDataset) (s p o : option RdfTerm) (graph : option (option RdfTerm)) : list InternalQuad :=
  filter (fun q => quad_matches s p o q &&
    match graph with
    | None => bool_decide (is_Some (iq_graph_name q))
    | Some g => bool_decide (iq_graph_name q = g)
    end) (quad_to_result <$> dataset_quads D).

(** [InternalTriple::from], then [internal_triple_to_quad]. *)
Definition without_graph (q : InternalQuad) : InternalQuad := mkInternalQuad (iq_subject q) (iq_predicate q) (iq_object q) None.
Definition dataset_triples_for_pattern (D : EvalDataset) (s p o : option RdfTerm) (graphs : option (list (option RdfTerm))) : list InternalQuad :=
  hash_deduplicate [] (without_graph <$>
    match graphs with
    | Some graphs => concat (map (fun g => dataset_quads_for_pattern D s p o (Some g)) graphs)
    | None => dataset_quads_for_pattern D s p o None
    end).

(** ** The RDF merge of default graphs *)

Fixpoint term_contains_blank_node (t : RdfTerm) : bool :=
  match t with
  | TermBlankNode _ => true
  | TermTriple s _ o => match s with NodeBlank _ => true | NodeNamed _ => false end || term_contains_blank_node o
  | TermNamedNode _ | TermLiteral _ => false
  end.
Definition rewrite_merged_subject (D : EvalDataset) (g : option RdfTerm) (s : RdfNamedOrBlankNode) : RdfNamedOrBlankNode :=
  match s with NodeNamed n => NodeNamed n | NodeBlank n => NodeBlank (merged_blank_node D g n) end.
Fixpoint rewrite_merged_term (D : EvalDataset) (g : option RdfTerm) (t : RdfTerm) : RdfTerm :=
  match t with
  | TermNamedNode n => TermNamedNode n
  | TermBlankNode n => TermBlankNode (merged_blank_node D g n)
  | TermLiteral l => TermLiteral l
  | TermTriple s p o => TermTriple (rewrite_merged_subject D g s) p (rewrite_merged_term D g o)
  end.
Definition standardize_merged_term (D : EvalDataset) (g : option RdfTerm) (t : RdfTerm) : RdfTerm :=
  if term_contains_blank_node t then rewrite_merged_term D g t else t.
(** The filter an index can use: a term without blank nodes. *)
Definition merged_filter (t : option RdfTerm) : option RdfTerm :=
  match t with Some t => if term_contains_blank_node t then None else Some t | None => None end.
Definition standardize_merged_quad (D : EvalDataset) (g : option RdfTerm) (q : InternalQuad) : InternalQuad :=
  mkInternalQuad (standardize_merged_term D g (iq_subject q)) (iq_predicate q) (standardize_merged_term D g (iq_object q)) None.
Definition merged_default_quads_for_pattern (D : EvalDataset) (graphs : list (option RdfTerm)) (s p o : option RdfTerm) : list InternalQuad :=
  hash_deduplicate [] (concat (map (fun g =>
    filter (fun q => term_is (iq_subject q) s && term_is (iq_object q) o)
      (standardize_merged_quad D g <$> dataset_quads_for_pattern D (merged_filter s) p (merged_filter o) (Some g))) graphs)).

(** ** The graphs of the specification *)

Definition internal_quads_for_pattern (D : EvalDataset) (s p o : option RdfTerm) (graph : option (option RdfTerm)) : list InternalQuad :=
  match graph with
  | Some (Some g) =>
      if is_none_or (fun named => bool_decide (g ∈ named)) (spec_named D) then dataset_quads_for_pattern D s p o (Some (Some g)) else []
  | Some None =>
      match spec_default D with
      | Some graphs =>
          if default_is_merge D then merged_default_quads_for_pattern D graphs s p o
          else match graphs with
               | [g] => without_graph <$> dataset_quads_for_pattern D s p o (Some g)
               | _ => dataset_triples_for_pattern D s p o (Some graphs)
               end
      | None => dataset_triples_for_pattern D s p o None
      end
  | None =>
      match spec_named D with
      | Some named => concat (map (fun g => dataset_quads_for_pattern D s p o (Some (Some g))) named)
      | None => filter (fun q => is_Some (iq_graph_name q)) (dataset_quads_for_pattern D s p o None)
      end
  end.
Definition internal_named_graphs (D : EvalDataset) : list RdfTerm :=
  match spec_named D with Some named => named | None => Term_from_node <$> dataset_named_graphs D end.
Definition contains_internal_graph_name (D : EvalDataset) (g : RdfTerm) : bool :=
  match spec_named D with
  | Some named => bool_decide (g ∈ named)
  | None => bool_decide (g ∈ Term_from_node <$> dataset_named_graphs D)
  end.

(** ** What a pattern selects *)

Lemma term_is_spec (t : RdfTerm) (s : option RdfTerm) : term_is t s = true ↔ ∀ x, s = Some x → x = t.
Proof. destruct s; unfold term_is; simpl; rewrite ?bool_decide_eq_true; naive_solver. Qed.
Lemma quad_matches_spec s p o q :
  quad_matches s p o q = true ↔
  (∀ x, s = Some x → x = iq_subject q) ∧ (∀ x, p = Some x → x = iq_predicate q) ∧ (∀ x, o = Some x → x = iq_object q).
Proof. unfold quad_matches; rewrite !andb_true_iff, !term_is_spec; tauto. Qed.
Lemma quad_matches_none q : quad_matches None None None q = true.
Proof. done. Qed.
Lemma quad_matches_without_graph s p o q : quad_matches s p o (without_graph q) = quad_matches s p o q.
Proof. done. Qed.

Lemma elem_of_dataset_quads D s p o g q :
  q ∈ dataset_quads_for_pattern D s p o g ↔ q ∈ dataset_quads_for_pattern D None None None g ∧ quad_matches s p o q = true.
Proof.
  unfold dataset_quads_for_pattern; rewrite !list_elem_of_filter, quad_matches_none.
  destruct (quad_matches s p o q); simpl; intuition discriminate.
Qed.
Lemma elem_of_dataset_triples D s p o g q :
  q ∈ dataset_triples_for_pattern D s p o g ↔ q ∈ dataset_triples_for_pattern D None None None g ∧ quad_matches s p o q = true.
Proof.
  unfold dataset_triples_for_pattern; rewrite !elem_of_hash_deduplicate.
  assert (L : ∀ l l' : list InternalQuad, (∀ x, x ∈ l ↔ x ∈ l' ∧ quad_matches s p o x = true) →
    q ∈ without_graph <$> l ↔ q ∈ without_graph <$> l' ∧ quad_matches s p o q = true).
  { intros l l' E; rewrite !list_elem_of_fmap; split.
    - intros (x & -> & [H1 H2]%E); rewrite quad_matches_without_graph; eauto.
    - intros [(x & -> & H1) H2]; rewrite quad_matches_without_graph in H2; exists x; rewrite E; eauto. }
  rewrite L with (l' := match g with Some graphs => concat (map (fun g => dataset_quads_for_pattern D None None None (Some g)) graphs)
    | None => dataset_quads_for_pattern D None None None None end); [intuition; set_solver|].
  intros x; destruct g as [graphs|]; [|apply elem_of_dataset_quads].
  rewrite !elem_of_concat_map; split.
  - intros (g & Hg & [H1 H2]%elem_of_dataset_quads); eauto.
  - intros [(g & Hg & H1) H2]; exists g; rewrite elem_of_dataset_quads; eauto.
Qed.

Lemma rewrite_merged_term_blank D g t : term_contains_blank_node (rewrite_merged_term D g t) = term_contains_blank_node t.
Proof. induction t as [| | |[] ?? IH]; simpl; congruence. Qed.
Lemma standardize_merged_term_inv D g x t :
  term_contains_blank_node t = false → standardize_merged_term D g x = t → x = t.
Proof.
  unfold standardize_merged_term; intros B E; destruct (term_contains_blank_node x) eqn:Bx; [|done].
  rewrite <- E, rewrite_merged_term_blank in B; congruence.
Qed.
Lemma merged_filter_spec D g t (x : RdfTerm) :
  term_is (standardize_merged_term D g x) t = true → term_is x (merged_filter t) = true.
Proof.
  rewrite !term_is_spec; intros H y; destruct t as [t|]; simpl; [|discriminate].
  destruct (term_contains_blank_node t) eqn:B; [discriminate|intros [= <-]].
  specialize (H t eq_refl); symmetry in H; apply standardize_merged_term_inv in H; congruence.
Qed.
Lemma elem_of_merged_quads D graphs s p o q :
  q ∈ merged_default_quads_for_pattern D graphs s p o ↔
  ∃ g x, g ∈ graphs ∧ x ∈ dataset_quads_for_pattern D None None None (Some g) ∧
    q = standardize_merged_quad D g x ∧ quad_matches s p o q = true.
Proof.
  unfold merged_default_quads_for_pattern; rewrite elem_of_hash_deduplicate, elem_of_concat_map; split.
  - intros [(g & Hg & [Hm Hq]%list_elem_of_filter) _]; apply list_elem_of_fmap in Hq as (x & -> & Hx).
    apply elem_of_dataset_quads in Hx as [Hx Hp]; exists g, x.
    repeat split; try done; unfold quad_matches in *; simpl in *.
    apply Is_true_true, andb_true_iff in Hm as [-> ->]; apply andb_true_iff in Hp as [[_ ->]%andb_true_iff _]; done.
  - intros (g & x & Hg & Hx & -> & Hm); split; [|set_solver]; exists g; split; [done|].
    unfold quad_matches in Hm; simpl in Hm; apply andb_true_iff in Hm as [[Hs Hp]%andb_true_iff Ho].
    apply list_elem_of_filter; split; [simpl; by rewrite Hs, Ho|].
    apply list_elem_of_fmap; exists x; split; [done|]; apply elem_of_dataset_quads; split; [done|].
    unfold quad_matches; rewrite Hp, (merged_filter_spec D g s), (merged_filter_spec D g o) by done; done.
Qed.

(** A pattern selects the quads of the graph that match it. *)
Lemma elem_of_internal_quads D s p o g q :
  q ∈ internal_quads_for_pattern D s p o g ↔
  q ∈ internal_quads_for_pattern D None None None g ∧ quad_matches s p o q = true.
Proof.
  destruct g as [[g|]|]; simpl.
  - destruct (is_none_or _ _); [apply elem_of_dataset_quads|set_solver].
  - destruct (spec_default D) as [graphs|]; [|apply elem_of_dataset_triples].
    destruct (default_is_merge D).
    { rewrite !elem_of_merged_quads; split.
      - intros (g & x & H1 & H2 & H3 & H4); split; [exists g, x|]; eauto.
      - intros [(g & x & H1 & H2 & H3 & _) H4]; exists g, x; eauto. }
    destruct graphs as [|g [|]]; try apply elem_of_dataset_triples.
    rewrite !list_elem_of_fmap; split.
    + intros (x & -> & [H1 H2]%elem_of_dataset_quads); rewrite quad_matches_without_graph; eauto.
    + intros [(x & -> & H1) H2]; rewrite quad_matches_without_graph in H2; exists x; rewrite elem_of_dataset_quads; eauto.
  - destruct (spec_named D) as [named|].
    + rewrite !elem_of_concat_map; split.
      * intros (g & Hg & [H1 H2]%elem_of_dataset_quads); eauto.
      * intros [(g & Hg & H1) H2]; exists g; rewrite elem_of_dataset_quads; eauto.
    + rewrite !list_elem_of_filter, elem_of_dataset_quads; tauto.
Qed.
#[global] Arguments internal_quads_for_pattern : simpl never.
