(* ===== verification/SpPath.v ===== *)
(** * Property paths

    [PathEvaluator] of lib/spareval/src/eval.rs: the four ways to evaluate a
    property path (both ends known, one of them, none), with the transitive
    closures computed from a work list.  The budgets of the work lists are not
    modelled.  The main result is that the four ways agree with the relation
    the path denotes. *)
From stdpp Require Import gmap relations.
From S2P Require Import Prelude MachineInt RustStr BTree RdfModel RdfDisplay SpAlgebra SpDataset.

(** ** Transitive closures *)

Section closure.
  Context {T : Type} `{EqDecision T} (next : T -> list T).

(** The states pushed and inserted by the values that follow a state. *)
Fixpoint visit (values todo all : list T) : list T * list T :=
  match values with
  | [] => (todo, all)
  | e :: values => if decide (e ∈ all) then visit values todo all else visit values (e :: todo) (e :: all)
  end.
(** The work list is a stack whose head is the last element of the vector. *)
Fixpoint transitive_loop (fuel : nat) (todo all : list T) : list T :=
  match fuel with
  | O => all
  | S fuel =>
      match todo with
      | [] => all
      | e :: todo => let '(todo, all) := visit (next e) todo all in transitive_loop fuel todo all
      end
  end.
(** [universe] bounds how many states the search can meet. *)
Definition transitive_closure (universe : nat) (start : list T) : list T :=
  transitive_loop (length start + universe) (rev start) (hash_deduplicate [] start).
Fixpoint look_loop (target : T) (fuel : nat) (todo all : list T) : bool :=
  match fuel with
  | O => false
  | S fuel =>
      match todo with
      | [] => false
      | e :: todo =>
          if decide (e = target) then true
          else let '(todo, all) := visit (next e) todo all in look_loop target fuel todo all
      end
  end.
Definition look_in_transitive_closure (universe : nat) (start : list T) (target : T) : bool :=
  look_loop target (length start + universe) (rev start) (hash_deduplicate [] start).
End closure.

(** ** The evaluator *)

Inductive PropertyPath : Set :=
| Path (p : RdfTerm)
| Reverse (path : PropertyPath)
| Sequence (a b : PropertyPath)
| Alternative (a b : PropertyPath)
| ZeroOrMore (path : PropertyPath)
| OneOrMore (path : PropertyPath)
| ZeroOrOne (path : PropertyPath)
| NegatedPropertySet (ps : list RdfTerm).

Fixpoint encode_property_path (path : PropertyPathExpression) : PropertyPath :=
  match path with
  | PathLink node => Path (TermNamedNode node)
  | PathInv p => Reverse (encode_property_path p)
  | PathSeq a b => Sequence (encode_property_path a) (encode_property_path b)
  | PathAlt a b => Alternative (encode_property_path a) (encode_property_path b)
  | ZeroOrMorePath p => ZeroOrMore (encode_property_path p)
  | OneOrMorePath p => OneOrMore (encode_property_path p)
  | ZeroOrOnePath p => ZeroOrOne (encode_property_path p)
  | PathNps ps => NegatedPropertySet (TermNamedNode <$> ps)
  end.

Section evaluator.
  Context (D : EvalDataset) (graph : option RdfTerm).

Let quads (s p o : option RdfTerm) : list InternalQuad := internal_quads_for_pattern D s p o (Some graph).

Definition get_subject_or_object_identity_pairs : list (RdfTerm * RdfTerm) :=
  concat (map (fun t => [(iq_subject t, iq_subject t); (iq_object t, iq_object t)]) (quads None None None)).
(** The nodes of the graph, which bound the closures. *)
Definition graph_nodes : list RdfTerm := get_subject_or_object_identity_pairs.*1.
Let from_universe : nat := Datatypes.S (length graph_nodes).
Let open_universe : nat := length graph_nodes * length graph_nodes.
Let not_in_set (ps : list RdfTerm) (l : list InternalQuad) : list InternalQuad := filter (fun t => iq_predicate t ∉ ps) l.

Fixpoint eval_from (path : PropertyPath) (start : RdfTerm) : list RdfTerm :=
  match path with
  | Path p => iq_object <$> quads (Some start) (Some p) None
  | Reverse p => eval_to p start
  | Sequence a b => concat (map (fun middle => eval_from b middle) (eval_from a start))
  | Alternative a b => hash_deduplicate [] (eval_from a start ++ eval_from b start)
  | ZeroOrMore p => transitive_closure (fun e => eval_from p e) from_universe [start]
  | OneOrMore p => transitive_closure (fun e => eval_from p e) from_universe (eval_from p start)
  | ZeroOrOne p => hash_deduplicate [] (start :: eval_from p start)
  | NegatedPropertySet ps => iq_object <$> not_in_set ps (quads (Some start) None None)
  end
with eval_to (path : PropertyPath) (end_ : RdfTerm) : list RdfTerm :=
  match path with
  | Path p => iq_subject <$> quads None (Some p) (Some end_)
  | Reverse p => eval_from p end_
  | Sequence a b => concat (map (fun middle => eval_to a middle) (eval_to b end_))
  | Alternative a b => hash_deduplicate [] (eval_to a end_ ++ eval_to b end_)
  | ZeroOrMore p => transitive_closure (fun e => eval_to p e) from_universe [end_]
  | OneOrMore p => transitive_closure (fun e => eval_to p e) from_universe (eval_to p end_)
  | ZeroOrOne p => hash_deduplicate [] (end_ :: eval_to p end_)
  | NegatedPropertySet ps => iq_subject <$> not_in_set ps (quads None None (Some end_))
  end.

Fixpoint eval_closed (path : PropertyPath) (start end_ : RdfTerm) : bool :=
  match path with
  | Path p => match quads (Some start) (Some p) (Some end_) with [] => false | _ => true end
  | Reverse p => eval_closed p end_ start
  | Sequence a b => existsb (fun middle => eval_closed b middle end_) (eval_from a start)
  | Alternative a b => eval_closed a start end_ || eval_closed b start end_
  | ZeroOrMore p =>
      if decide (start = end_) then true
      else look_in_transitive_closure (fun e => eval_from p e) from_universe (eval_from p start) end_
  | OneOrMore p => look_in_transitive_closure (fun e => eval_from p e) from_universe (eval_from p start) end_
  | ZeroOrOne p => if decide (start = end_) then true else eval_closed p start end_
  | NegatedPropertySet ps => existsb (fun t => negb (bool_decide (iq_predicate t ∈ ps))) (quads (Some start) None (Some end_))
  end.
Let follow (p : PropertyPath) (t : RdfTerm * RdfTerm) : list (RdfTerm * RdfTerm) := (fun e => (t.1, e)) <$> eval_from p t.2.
Fixpoint eval_open (path : PropertyPath) : list (RdfTerm * RdfTerm) :=
  match path with
  | Path p => (fun t => (iq_subject t, iq_object t)) <$> quads None (Some p) None
  | Reverse p => (fun t => (t.2, t.1)) <$> eval_open p
  | Sequence a b => concat (map (follow b) (eval_open a))
  | Alternative a b => hash_deduplicate [] (eval_open a ++ eval_open b)
  | ZeroOrMore p => transitive_closure (follow p) open_universe get_subject_or_object_identity_pairs
  | OneOrMore p => transitive_closure (follow p) open_universe (eval_open p)
  | ZeroOrOne p => hash_deduplicate [] (get_subject_or_object_identity_pairs ++ eval_open p)
  | NegatedPropertySet ps => (fun t => (iq_subject t, iq_object t)) <$> not_in_set ps (quads None None None)
  end.

(** ** What a path denotes *)

Fixpoint path_relation (path : PropertyPath) (s o : RdfTerm) : Prop :=
  match path with
  | Path p => ∃ t, t ∈ quads None None None ∧ iq_subject t = s ∧ iq_predicate t = p ∧ iq_object t = o
  | Reverse p => path_relation p o s
  | Sequence a b => ∃ m, path_relation a s m ∧ path_relation b m o
  | Alternative a b => path_relation a s o ∨ path_relation b s o
  | ZeroOrMore p => rtc (path_relation p) s o
  | OneOrMore p => tc (path_relation p) s o
  | ZeroOrOne p => s = o ∨ path_relation p s o
  | NegatedPropertySet ps => ∃ t, t ∈ quads None None None ∧ iq_subject t = s ∧ iq_predicate t ∉ ps ∧ iq_object t = o
  end.
End evaluator.

(** ** The work list computes reachability *)

Section closure_facts.
  Context {T : Type} `{EqDecision T} (next : T -> list T) (start U : list T).
Let step (a b : T) : Prop := b ∈ next a.
Let reach (x : T) : Prop := ∃ s, s ∈ start ∧ rtc step s x.
  Context (start_in : start ⊆ U) (next_in : ∀ x, x ∈ U → next x ⊆ U).

(** Every state is on the work list, or its successors are known. *)
Let search_inv (todo all : list T) : Prop :=
  NoDup all ∧ todo ⊆ all ∧ start ⊆ all ∧ (∀ x, x ∈ all → reach x ∧ x ∈ U) ∧ (∀ x, x ∈ all → x ∈ todo ∨ next x ⊆ all).

Lemma visit_spec (values todo all : list T) :
  ∃ new, visit values todo all = (new ++ todo, new ++ all) ∧ new ⊆ values ∧ values ⊆ new ++ all ∧ (NoDup all → NoDup (new ++ all)).
Proof.
  revert todo all; induction values as [|e values IH]; intros todo all; simpl; [exists []; repeat split; set_solver|].
  case_decide as Hin.
  - destruct (IH todo all) as (new & E & H1 & H2 & H3); exists new; repeat split; [done|set_solver|set_solver|done].
  - destruct (IH (e :: todo) (e :: all)) as (new & E & H1 & H2 & H3); exists (new ++ [e]); rewrite <- !app_assoc; simpl.
    split; [done|]; split; [set_solver|]; split; [set_solver|]; intros N; apply H3; constructor; done.
Qed.
Lemma search_inv_start : search_inv (rev start) (hash_deduplicate [] start).
Proof.
  assert (N : ∀ l seen : list T, NoDup (hash_deduplicate seen l)).
  { induction l as [|x l IH]; intros seen; simpl; [constructor|]; case_decide; [done|].
    constructor; [rewrite elem_of_hash_deduplicate; set_solver|done]. }
  assert (E : ∀ x, x ∈ hash_deduplicate [] start ↔ x ∈ start) by (intros; rewrite elem_of_hash_deduplicate; set_solver).
  repeat split; [apply N|intros x Hx%list_elem_of_In%in_rev; apply E, list_elem_of_In, Hx|intros x; apply E| | |].
  - apply E in H; exists x; split; [done|apply rtc_refl].
  - by apply start_in, E.
  - intros x Hx%E; left; by apply list_elem_of_In; rewrite <- in_rev; apply list_elem_of_In.
Qed.
(** A state is taken from the work list. *)
Lemma search_inv_step (e : T) (todo all : list T) :
  search_inv (e :: todo) all →
  ∃ new, visit (next e) todo all = (new ++ todo, new ++ all) ∧ search_inv (new ++ todo) (new ++ all) ∧ next e ⊆ new ++ all.
Proof.
  intros (N & Ht & Hs & Hr & Hc); destruct (visit_spec (next e) todo all) as (new & E & H1 & H2 & H3).
  assert (He : reach e ∧ e ∈ U) by (apply Hr, Ht; left).
  exists new; split; [done|]; split; [|done]; repeat split; [by apply H3|set_solver|set_solver| | |].
  - apply elem_of_app in H as [Hx%H1|Hx]; [|by apply Hr].
    destruct He as [(s & Hs' & Hrs) _]; exists s; split; [done|]; by eapply rtc_r.
  - apply elem_of_app in H as [Hx%H1|Hx]; [|by apply Hr]; apply (next_in e); tauto.
  - intros x [Hx|Hx]%elem_of_app; [set_solver|].
    destruct (Hc x Hx) as [[->|Hx']%list.elem_of_cons|Hx']; set_solver.
Qed.
Lemma search_inv_size (todo all : list T) : search_inv todo all → (length all ≤ length U)%nat.
Proof. intros (N & _ & _ & Hr & _); apply submseteq_length, NoDup_submseteq; [done|]; intros x Hx; by apply Hr. Qed.
Lemma search_inv_done (all : list T) (x : T) : search_inv [] all → x ∈ all ↔ reach x.
Proof.
  intros (_ & _ & Hs & Hr & Hc); split; [intros Hx; by apply Hr|].
  intros (s & Hx & R); apply Hs in Hx; induction R as [|a b c Hab _ IH]; [done|].
  apply IH; destruct (Hc a Hx) as [?|Hn]; [set_solver|]; by apply Hn.
Qed.
Lemma transitive_loop_spec (fuel : nat) (todo all : list T) (x : T) :
  search_inv todo all → (length todo + length U ≤ fuel + length all)%nat →
  x ∈ transitive_loop next fuel todo all ↔ reach x.
Proof.
  revert todo all; induction fuel as [|fuel IH]; intros todo all I Hf; pose proof (search_inv_size _ _ I) as Hs.
  - destruct todo; simpl in *; [by apply search_inv_done|lia].
  - destruct todo as [|e todo]; simpl in *; [by apply search_inv_done|].
    destruct (search_inv_step e todo all I) as (new & -> & I' & _).
    apply IH; [done|]; rewrite !length_app in *; lia.
Qed.
Lemma transitive_closure_spec (universe : nat) (x : T) :
  (length U ≤ universe)%nat → x ∈ transitive_closure next universe start ↔ reach x.
Proof. intros H; apply transitive_loop_spec; [apply search_inv_start|rewrite length_rev; lia]. Qed.

Lemma look_loop_spec (target : T) (fuel : nat) (todo all : list T) :
  search_inv todo all → (∀ x, x ∈ all → x ∈ todo ∨ x ≠ target) →
  (length todo + length U ≤ fuel + length all)%nat →
  look_loop next target fuel todo all = true ↔ reach target.
Proof.
  assert (E : ∀ all, search_inv [] all → (∀ x, x ∈ all → x ∈ [] ∨ x ≠ target) → false = true ↔ reach target).
  { clear todo all; intros all I Hn; rewrite <- (search_inv_done all target I); split; [done|].
    intros H; destruct (Hn _ H); set_solver. }
  revert todo all; induction fuel as [|fuel IH]; intros todo all I Hn Hf; pose proof (search_inv_size _ _ I) as Hs.
  - destruct todo; simpl in *; [by apply (E all)|lia].
  - destruct todo as [|e todo]; simpl in *; [by apply (E all)|].
    case_decide as Hd; [subst e; split; [|done]; intros _|].
    { destruct I as (_ & Ht & _ & Hr & _); apply Hr, Ht; left. }
    destruct (search_inv_step e todo all I) as (new & -> & I' & _).
    apply IH; [done| |rewrite !length_app in *; lia].
    intros x [Hx|Hx]%elem_of_app; [set_solver|].
    destruct (Hn x Hx) as [[->|?]%list.elem_of_cons|?]; set_solver.
Qed.
Lemma look_in_transitive_closure_spec (universe : nat) (target : T) :
  (length U ≤ universe)%nat → look_in_transitive_closure next universe start target = true ↔ reach target.
Proof.
  intros H; apply look_loop_spec; [apply search_inv_start| |rewrite length_rev; lia].
  intros x Hx; left; apply elem_of_hash_deduplicate in Hx as [Hx _].
  by apply list_elem_of_In; rewrite <- in_rev; apply list_elem_of_In.
Qed.
End closure_facts.

#[local] Arguments hash_deduplicate : simpl never.

(** ** The four ways agree with the relation *)

Section path_facts.
  Context (D : EvalDataset) (graph : option RdfTerm).
  Abbreviation nodes := (graph_nodes D graph).
  Abbreviation quads := (internal_quads_for_pattern D None None None (Some graph)).
  Abbreviation rel := (path_relation D graph).

Lemma elem_of_graph_nodes (x : RdfTerm) : x ∈ nodes ↔ ∃ t, t ∈ quads ∧ (x = iq_subject t ∨ x = iq_object t).
Proof.
  unfold graph_nodes, get_subject_or_object_identity_pairs; rewrite list_elem_of_fmap; split.
  - intros (p & -> & (t & Ht & Hp)%elem_of_concat_map); exists t; set_solver.
  - intros (t & Ht & Hx); exists (x, x); split; [done|]; apply elem_of_concat_map; exists t; split; [done|].
    destruct Hx as [->| ->]; set_solver.
Qed.
Lemma elem_of_identity_pairs (s o : RdfTerm) : (s, o) ∈ get_subject_or_object_identity_pairs D graph ↔ s = o ∧ s ∈ nodes.
Proof.
  rewrite elem_of_graph_nodes; unfold get_subject_or_object_identity_pairs; rewrite elem_of_concat_map; set_solver.
Qed.
(** A path relates a term to itself, or two nodes of the graph. *)
Lemma path_relation_nodes (path : PropertyPath) (s o : RdfTerm) : rel path s o → s = o ∨ s ∈ nodes ∧ o ∈ nodes.
Proof.
  revert s o; induction path as [p|p IH|a IHa b IHb|a IHa b IHb|p IH|p IH|p IH|ps]; intros s o; simpl.
  1,8: intros (t & Ht & <- & _ & <-); right; split; apply elem_of_graph_nodes; eauto.
  - intros H%IH; naive_solver.
  - intros (m & [->|[??]]%IHa & [->|[??]]%IHb); auto.
  - intros [?%IHa|?%IHb]; auto.
  - intros H; induction H as [|x y z [->|[??]]%IH _ [->|[??]]]; auto.
  - intros H; induction H as [x y H|x y z [->|[??]]%IH _ [->|[??]]]; auto.
  - intros [?|?%IH]; auto.
Qed.
Lemma elem_of_matching (s p o : option RdfTerm) (t : InternalQuad) :
  t ∈ internal_quads_for_pattern D s p o (Some graph) ↔
  t ∈ quads ∧ (∀ x, s = Some x → x = iq_subject t) ∧ (∀ x, p = Some x → x = iq_predicate t) ∧ (∀ x, o = Some x → x = iq_object t).
Proof. by rewrite elem_of_internal_quads, quad_matches_spec. Qed.
Lemma rtc_tc_split {A : Type} (R : relation A) (x y : A) : tc R x y ↔ ∃ z, R x z ∧ rtc R z y.
Proof.
  split; [intros H; inversion H; subst; eauto using rtc_refl, tc_rtc|intros (z & H1 & H2)].
  revert x H1; induction H2; intros; eauto using tc.
Qed.
Lemma rtc_equiv {A : Type} (R S : relation A) : (∀ x y, R x y ↔ S x y) → ∀ x y, rtc R x y ↔ rtc S x y.
Proof. intros E x y; split; intros H; induction H; [done|eapply rtc_l; [by apply E|done]|done|eapply rtc_l; [by apply E|done]]. Qed.
Lemma rtc_flip {A : Type} (R : relation A) (x y : A) : rtc (flip R) x y ↔ rtc R y x.
Proof. split; intros H; induction H; try done; by eapply rtc_r. Qed.

(** The closures of the nodes met from one end. *)
Lemma one_end_closure (next : RdfTerm -> list RdfTerm) (R : relation RdfTerm) (start : list RdfTerm) (node x : RdfTerm) :
  (∀ a b, b ∈ next a ↔ R a b) → (∀ a b, R a b → a = b ∨ a ∈ nodes ∧ b ∈ nodes) → start ⊆ node :: nodes →
  (x ∈ transitive_closure next (Datatypes.S (length nodes)) start ↔ ∃ s, s ∈ start ∧ rtc R s x) ∧
  (look_in_transitive_closure next (Datatypes.S (length nodes)) start x = true ↔ ∃ s, s ∈ start ∧ rtc R s x).
Proof.
  intros HR Hn Hs.
  assert (next_in : ∀ y, y ∈ node :: nodes → next y ⊆ node :: nodes).
  { intros y Hy z Hz%HR; destruct (Hn _ _ Hz) as [->|[??]]; [done|by right]. }
  rewrite (transitive_closure_spec _ _ _ Hs next_in) by done.
  rewrite (look_in_transitive_closure_spec _ _ _ Hs next_in) by done.
  pose proof (rtc_equiv _ _ HR) as E; setoid_rewrite E; done.
Qed.

Lemma tc_rtc_split {A : Type} (R : relation A) (x y : A) : tc R x y ↔ ∃ z, R z y ∧ rtc R x z.
Proof.
  split; [|intros (z & H1 & H2); eapply tc_rtc_l; [exact H2|by constructor]].
  intros H; induction H as [x y H|x y z H _ (w & H1 & H2)]; [by exists x|exists w; split; [done|by eapply rtc_l]].
Qed.
Lemma exists_singleton {A : Type} (x : A) (P : A -> Prop) : (∃ s, s ∈ [x] ∧ P s) ↔ P x.
Proof. split; [intros (z & ->%list_elem_of_singleton & H); done|intros H; exists x; split; [by left|done]]. Qed.
Lemma one_end_start (path : PropertyPath) (l : list RdfTerm) (node : RdfTerm) :
  (∀ x, x ∈ l → rel path node x ∨ rel path x node) → l ⊆ node :: nodes.
Proof. intros H x [Hx|Hx]%H; apply path_relation_nodes in Hx as [->|[??]]; (by left) || (by right). Qed.

Lemma eval_one_end (path : PropertyPath) :
  (∀ s o, o ∈ eval_from D graph path s ↔ rel path s o) ∧ (∀ o s, s ∈ eval_to D graph path o ↔ rel path s o).
Proof.
  induction path as [p|p [IH1 IH2]|a [IHa1 IHa2] b [IHb1 IHb2]|a [IHa1 IHa2] b [IHb1 IHb2]|p [IH1 IH2]|p [IH1 IH2]|p [IH1 IH2]|ps]; simpl.
  - split; intros ??; rewrite list_elem_of_fmap; setoid_rewrite elem_of_matching; naive_solver.
  - split; intros ??; [apply IH2|apply IH1].
  - split; intros ??; rewrite elem_of_concat_map; naive_solver.
  - split; intros ??; rewrite elem_of_hash_deduplicate, elem_of_app; set_solver.
  - pose proof (path_relation_nodes p) as Hn; split; intros x y.
    + destruct (one_end_closure (fun e => eval_from D graph p e) (rel p) [x] x y IH1 Hn) as [-> _]; [set_solver|]; apply (exists_singleton x (fun z => rtc (rel p) z y)).
    + destruct (one_end_closure (fun e => eval_to D graph p e) (flip (rel p)) [x] x y IH2) as [-> _].
      * intros a b H; destruct (Hn b a H) as [->|[??]]; auto.
      * set_solver.
      * rewrite (exists_singleton x (fun z => rtc (flip (rel p)) z y)); apply rtc_flip.
  - pose proof (path_relation_nodes p) as Hn; split; intros x y.
    + destruct (one_end_closure (fun e => eval_from D graph p e) (rel p) (eval_from D graph p x) x y IH1 Hn) as [-> _].
      * apply (one_end_start p); intros z Hz%IH1; by left.
      * rewrite rtc_tc_split; by setoid_rewrite IH1.
    + destruct (one_end_closure (fun e => eval_to D graph p e) (flip (rel p)) (eval_to D graph p x) x y IH2) as [-> _].
      * intros a b H; destruct (Hn b a H) as [->|[??]]; auto.
      * apply (one_end_start p); intros z Hz%IH2; by right.
      * rewrite tc_rtc_split; split; intros (z & H1 & H2); exists z; (split; [by apply IH2|by apply rtc_flip]).
  - split; intros ??; rewrite elem_of_hash_deduplicate, list.elem_of_cons, ?IH1, ?IH2; set_solver.
  - split; intros ??; rewrite list_elem_of_fmap; setoid_rewrite list_elem_of_filter; setoid_rewrite elem_of_matching; naive_solver.
Qed.
Lemma eval_from_spec (path : PropertyPath) (s o : RdfTerm) : o ∈ eval_from D graph path s ↔ rel path s o.
Proof. apply eval_one_end. Qed.
Lemma eval_to_spec (path : PropertyPath) (s o : RdfTerm) : s ∈ eval_to D graph path o ↔ rel path s o.
Proof. apply eval_one_end. Qed.

(** Evaluation with both ends known. *)
Lemma existsb_elem {A : Type} (f : A -> bool) (l : list A) : existsb f l = true ↔ ∃ x, x ∈ l ∧ f x = true.
Proof. rewrite existsb_exists; by setoid_rewrite list_elem_of_In. Qed.
Lemma eval_closed_spec (path : PropertyPath) (s o : RdfTerm) : eval_closed D graph path s o = true ↔ rel path s o.
Proof.
  revert s o; induction path as [p|p IH|a IHa b IHb|a IHa b IHb|p IH|p IH|p IH|ps]; intros s o; simpl.
  - transitivity (∃ t, t ∈ internal_quads_for_pattern D (Some s) (Some p) (Some o) (Some graph)).
    { destruct (internal_quads_for_pattern D (Some s) _ _ _) as [|t l]; [split; [discriminate|intros (t & Ht); by apply not_elem_of_nil in Ht]|].
      split; [intros _; exists t; left|done]. }
    setoid_rewrite elem_of_matching; naive_solver.
  - apply IH.
  - rewrite existsb_elem; split; intros (m & H1 & H2); exists m.
    + split; [by apply eval_from_spec|apply IHb, H2].
    + split; [by apply eval_from_spec|apply IHb, H2].
  - rewrite orb_true_iff, IHa, IHb; done.
  - case_decide as Hd; [subst o; split; [intros _; apply rtc_refl|done]|].
    destruct (one_end_closure (fun e => eval_from D graph p e) (rel p) (eval_from D graph p s) s o) as [_ ->];
      [apply eval_from_spec|apply path_relation_nodes|apply (one_end_start p); intros z Hz%eval_from_spec; by left|].
    setoid_rewrite eval_from_spec; rewrite <- rtc_tc_split; split; [apply tc_rtc|].
    intros H; inversion H; subst; [done|]; eapply rtc_tc_split; eauto.
  - destruct (one_end_closure (fun e => eval_from D graph p e) (rel p) (eval_from D graph p s) s o) as [_ ->];
      [apply eval_from_spec|apply path_relation_nodes|apply (one_end_start p); intros z Hz%eval_from_spec; by left|].
    setoid_rewrite eval_from_spec; by rewrite <- rtc_tc_split.
  - case_decide as Hd; [subst o; split; [by left|done]|]; rewrite IH; naive_solver.
  - rewrite existsb_elem; setoid_rewrite elem_of_matching.
    setoid_rewrite negb_true_iff; setoid_rewrite bool_decide_eq_false; naive_solver.
Qed.

(** Evaluation from all the nodes of the graph. *)
Lemma open_closure (next : RdfTerm * RdfTerm -> list (RdfTerm * RdfTerm)) (path : PropertyPath) (start : list (RdfTerm * RdfTerm)) (s o : RdfTerm) :
  (∀ t, next t = (fun e => (t.1, e)) <$> eval_from D graph path t.2) →
  (∀ t, t ∈ start → t.1 ∈ nodes ∧ t.2 ∈ nodes) →
  (s, o) ∈ transitive_closure next (length nodes * length nodes) start ↔ ∃ m, (s, m) ∈ start ∧ rtc (rel path) m o.
Proof.
  intros Hn Hs.
  assert (HU : ∀ t : RdfTerm * RdfTerm, t ∈ list_prod nodes nodes ↔ t.1 ∈ nodes ∧ t.2 ∈ nodes).
  { intros [x y]; rewrite list_elem_of_In, in_prod_iff, <- !list_elem_of_In; done. }
  rewrite (transitive_closure_spec next start (list_prod nodes nodes)); first last.
  - by rewrite length_prod.
  - intros t [H1 H2]%HU t'; rewrite Hn; intros (e & -> & He%eval_from_spec)%list_elem_of_fmap; apply HU; simpl.
    apply path_relation_nodes in He as [<-|[??]]; done.
  - intros t Ht; by apply HU, Hs.
  - split.
    + intros ([s' m] & Hm & R).
      assert (E : ∀ t t', rtc (λ a b, b ∈ next a) t t' → t.1 = t'.1 ∧ rtc (rel path) t.2 t'.2).
      { intros t t' H; induction H as [|x y z H _ [IH1 IH2]]; [done|].
        rewrite Hn in H; apply list_elem_of_fmap in H as (e & -> & He%eval_from_spec); simpl in *.
        split; [done|by eapply rtc_l]. }
      destruct (E _ _ R) as [E1 E2]; simpl in *; subst s'; eauto.
    + intros (m & Hm & R); exists (s, m); split; [done|].
      clear Hm; induction R as [|x y z H _ IH]; [done|]; eapply rtc_l; [|done].
      rewrite Hn; apply list_elem_of_fmap; exists y; split; [done|]; by apply eval_from_spec.
Qed.
Lemma eval_open_spec (path : PropertyPath) (s o : RdfTerm) :
  (s, o) ∈ eval_open D graph path ↔ rel path s o ∧ s ∈ nodes.
Proof.
  revert s o; induction path as [p|p IH|a IHa b IHb|a IHa b IHb|p IH|p IH|p IH|ps]; intros s o; simpl.
  - rewrite list_elem_of_fmap, elem_of_graph_nodes; split.
    + intros (t & [= -> ->] & (Ht & _ & Hp & _)%elem_of_matching).
      pose proof (Hp _ eq_refl) as ->; split; exists t; [repeat split; auto|split; auto].
    + intros [(t & Ht & <- & <- & <-) _]; exists t; rewrite elem_of_matching; naive_solver.
  - rewrite list_elem_of_fmap; split.
    + intros ([o' s'] & [= -> ->] & [H1 H2]%IH); simpl; split; [done|].
      apply path_relation_nodes in H1 as [<-|[??]]; done.
    + intros [H1 H2]; exists (o, s); split; [done|]; apply IH; split; [done|].
      apply path_relation_nodes in H1 as [->|[??]]; done.
  - rewrite elem_of_concat_map; split.
    + intros ([s' m] & [H1 H2]%IHa & (e & [= -> ->] & He%eval_from_spec)%list_elem_of_fmap); simpl in *; eauto.
    + intros [(m & H1 & H2) Hs]; exists (s, m); split; [by apply IHa|].
      apply list_elem_of_fmap; exists o; split; [done|]; by apply eval_from_spec.
  - rewrite elem_of_hash_deduplicate, elem_of_app, IHa, IHb; set_solver.
  - rewrite (open_closure _ p) by (done || intros [x y] [-> Hx]%elem_of_identity_pairs; done).
    setoid_rewrite elem_of_identity_pairs; naive_solver.
  - rewrite (open_closure _ p); [|done|].
    + rewrite rtc_tc_split; split.
      * intros (m & [H1 H2]%IH & H3); eauto.
      * intros [(m & H1 & H2) H3]; exists m; rewrite IH; eauto.
    + intros [x y] [H1 H2]%IH; simpl; split; [done|]; apply path_relation_nodes in H1 as [->|[??]]; done.
  - rewrite elem_of_hash_deduplicate, elem_of_app, IH, elem_of_identity_pairs; set_solver.
  - rewrite list_elem_of_fmap, elem_of_graph_nodes; split.
    + intros (t & [= -> ->] & [Hp Ht]%list_elem_of_filter); split; exists t; [repeat split; auto|split; auto].
    + intros [(t & Ht & <- & Hp & <-) _]; exists t; split; [done|]; by apply list_elem_of_filter.
Qed.
End path_facts.

(** C21.  The four ways to evaluate a property path agree with the relation the
    path denotes, whatever graphs the dataset specification selects: with both
    ends known, from its start, from its end, and, on the nodes of the graph,
    with neither.  Transitive closures end and are complete on cyclic graphs. *)
Theorem PathEvaluator_spec (D : EvalDataset) (graph : option RdfTerm) (path : PropertyPath) (s o : RdfTerm) :
  (eval_closed D graph path s o = true ↔ path_relation D graph path s o) ∧
  (o ∈ eval_from D graph path s ↔ path_relation D graph path s o) ∧
  (s ∈ eval_to D graph path o ↔ path_relation D graph path s o) ∧
  ((s, o) ∈ eval_open D graph path ↔ path_relation D graph path s o ∧ s ∈ graph_nodes D graph).
Proof. auto using eval_closed_spec, eval_from_spec, eval_to_spec, eval_open_spec. Qed.
