(* ===== verification/SpEval.v ===== *)
(** * The evaluation of query expressions

    [SimpleEvaluator] of lib/spareval/src/eval.rs and the evaluation of
    expressions of lib/spareval/src/expression.rs.  A tuple is a map from
    variables to terms with the active graph; an evaluator maps an input tuple
    to the list of its solutions.  Errors (storage, cancellation, budgets,
    unsupported functions) are not modelled: an input that fails has no
    solution.  Terms are taken as they are, without the canonical form the
    typed literals get when an expression computes with them. *)
From stdpp Require Import gmap.
From S2P Require Import Prelude MachineInt RustStr BTree RdfModel RdfDisplay SpAlgebra SpDataset.
From S2P Require Import OxParser SpPath.

(** ** Tuples *)

Record InternalTuple : Type := mkTuple {
  inner : gmap VariableName RdfTerm;
  graph_name : option RdfTerm
}.
#[global] Instance InternalTuple_eq_dec : EqDecision InternalTuple.
Proof. solve_decision. Defined.

Definition tuple_set (t : InternalTuple) (v : VariableName) (value : RdfTerm) : InternalTuple :=
  mkTuple (<[v := value]> (inner t)) (graph_name t).
Definition with_graph (t : InternalTuple) (g : option RdfTerm) : InternalTuple := mkTuple (inner t) g.
Definition compatible (a b : gmap VariableName RdfTerm) : Prop :=
  map_Forall (fun v x => from_option (eq x) True (b !! v)) a.
#[global] Instance compatible_dec (a b : gmap VariableName RdfTerm) : Decision (compatible a b).
Proof. apply map_Forall_dec; intros v x; destruct (b !! v); simpl; apply _. Defined.
Definition combine_with (a b : InternalTuple) : option InternalTuple :=
  if decide (compatible (inner a) (inner b)) then Some (mkTuple (inner a ∪ inner b) (graph_name a)) else None.
Definition are_compatible_and_not_disjointed (a b : InternalTuple) : bool :=
  bool_decide (compatible (inner a) (inner b)) && negb (bool_decide (dom (inner a) ∩ dom (inner b) =@{gset VariableName} ∅)).

(** ** Selectors *)

Inductive TupleSelector : Set :=
| Constant (value : RdfTerm)
| SelectorVariable (v : VariableName)
| TriplePattern (subject predicate object : TupleSelector).

(** [ExpressionTriple::new], back to a term. *)
Definition triple_term (s p o : RdfTerm) : option RdfTerm :=
  match s, p with
  | TermNamedNode s, TermNamedNode p => Some (TermTriple (NodeNamed s) p o)
  | TermBlankNode s, TermNamedNode p => Some (TermTriple (NodeBlank s) p o)
  | _, _ => None
  end.
Definition from_named_node_pattern (p : NamedNodePattern) : TupleSelector :=
  match p with PatternVariable v => SelectorVariable v | PatternNamedNode n => Constant (TermNamedNode n) end.
(** [None] is the error of a triple that is not one. *)
Fixpoint from_ground_term_pattern (p : GroundTermPattern) : option TupleSelector :=
  match p with
  | GPVariable v => Some (SelectorVariable v)
  | GPNamedNode n => Some (Constant (TermNamedNode n))
  | GPLiteral l => Some (Constant (TermLiteral l))
  | GPTriple s p o =>
      s ← from_ground_term_pattern s;
      o ← from_ground_term_pattern o;
      match s, from_named_node_pattern p, o with
      | Constant s, Constant p, Constant o => Constant <$> triple_term s p o
      | s, p, o => Some (TriplePattern s p o)
      end
  end.
(** The outer [None] is the error of a triple that is not one. *)
Fixpoint get_pattern_value (sel : TupleSelector) (t : InternalTuple) : option (option RdfTerm) :=
  match sel with
  | Constant c => Some (Some c)
  | SelectorVariable v => Some (inner t !! v)
  | TriplePattern s p o =>
      s ← get_pattern_value s t;
      match s with
      | None => Some None
      | Some s =>
          p ← get_pattern_value p t;
          match p with
          | None => Some None
          | Some p =>
              o ← get_pattern_value o t;
              match o with None => Some None | Some o => Some <$> triple_term s p o end
          end
      end
  end.
Fixpoint put_pattern_value (sel : TupleSelector) (value : RdfTerm) (t : InternalTuple) : option InternalTuple :=
  match sel with
  | Constant c => if decide (c = value) then Some t else None
  | SelectorVariable v =>
      match inner t !! v with
      | Some old => if decide (value = old) then Some t else None
      | None => Some (tuple_set t v value)
      end
  | TriplePattern s p o =>
      match value with
      | TermTriple vs vp vo =>
          t ← put_pattern_value s (Term_from_node vs) t;
          t ← put_pattern_value p (TermNamedNode vp) t;
          put_pattern_value o vo t
      | _ => None
      end
  end.

(** ** Parameters *)

(** The hash of the join keys; the comparisons of values, the numeric effective
    boolean values and the functions of expression.rs that [find_function] does
    not find; the aggregates, the order of [ORDER BY], and the remote services. *)
Class EvalParams := {
  eval_dataset : EvalDataset;
  tuple_hash : list RdfTerm -> Z;
  term_equals : RdfTerm -> RdfTerm -> option bool;
  term_partial_cmp : RdfTerm -> RdfTerm -> option comparison;
  numeric_boolean_value : RdfLiteral -> option bool;
  call_function : RdfNamedNode -> list (option RdfTerm) -> option RdfTerm;
  aggregate : AggregateExpression -> list InternalTuple -> option RdfTerm;
  sort_tuples : list OrderExpression -> list InternalTuple -> list InternalTuple;
  evaluate_service : NamedNodePattern -> QueryExpression -> bool -> InternalTuple -> list InternalTuple
}.

Section eval.
  Context {P : EvalParams}.

(** ** The evaluators, from those of their operands *)

(** [encode_term] and [encode_triple] of the terms of a table. *)
Fixpoint ground_term_value (t : GroundTerm) : RdfTerm :=
  match t with
  | GroundNamedNode n => TermNamedNode n
  | GroundLiteral l => TermLiteral l
  | GroundTriple s p o => TermTriple (NodeNamed s) p (ground_term_value o)
  end.
Fixpoint encode_row (variables : list VariableName) (row : list (option GroundTerm)) (t : InternalTuple) : InternalTuple :=
  match variables, row with
  | v :: variables, value :: row =>
      encode_row variables row (match value with Some value => tuple_set t v (ground_term_value value) | None => t end)
  | _, _ => t
  end.
Definition values_evaluator (variables : list VariableName) (bindings : list (list (option GroundTerm))) (from : InternalTuple) : list InternalTuple :=
  omap (combine_with from) (map (fun row => encode_row variables row (mkTuple ∅ None)) bindings).

(** The graph a quad pattern reads: [None] for all the named graphs. *)
Definition pattern_graph (graph : option TupleSelector) (from : InternalTuple) : option (option (option RdfTerm)) :=
  match graph with
  | Some sel => option_map Some <$> get_pattern_value sel from
  | None => Some (Some (graph_name from))
  end.
Definition put_quad (s p o : TupleSelector) (graph : option TupleSelector) (from : InternalTuple) (quad : InternalQuad) : option InternalTuple :=
  t ← put_pattern_value s (iq_subject quad) from;
  t ← put_pattern_value p (iq_predicate quad) t;
  t ← put_pattern_value o (iq_object quad) t;
  match graph with
  | Some sel => g ← iq_graph_name quad; put_pattern_value sel g t
  | None => Some t
  end.
Definition quad_pattern_evaluator (subject : GroundTermPattern) (predicate : NamedNodePattern) (object : GroundTermPattern)
    (graph : option NamedNodePattern) (from : InternalTuple) : list InternalTuple :=
  default [] (
    s ← from_ground_term_pattern subject;
    let p := from_named_node_pattern predicate in
    o ← from_ground_term_pattern object;
    let g := from_named_node_pattern <$> graph in
    input_s ← get_pattern_value s from;
    input_p ← get_pattern_value p from;
    input_o ← get_pattern_value o from;
    input_g ← pattern_graph g from;
    Some (omap (put_quad s p o g from) (internal_quads_for_pattern eval_dataset input_s input_p input_o input_g))).

Definition path_evaluator (subject : GroundTermPattern) (path : PropertyPathExpression) (object : GroundTermPattern) (from : InternalTuple) : list InternalTuple :=
  let path := encode_property_path path in
  default [] (
    s ← from_ground_term_pattern subject;
    o ← from_ground_term_pattern object;
    input_s ← get_pattern_value s from;
    input_o ← get_pattern_value o from;
    Some match input_s, input_o with
         | Some start, Some end_ => if eval_closed eval_dataset (graph_name from) path start end_ then [from] else []
         | Some start, None => omap (fun e => put_pattern_value o e from) (eval_from eval_dataset (graph_name from) path start)
         | None, Some end_ => omap (fun e => put_pattern_value s e from) (eval_to eval_dataset (graph_name from) path end_)
         | None, None =>
             omap (fun se => t ← put_pattern_value s se.1 from; put_pattern_value o se.2 t)
               (eval_open eval_dataset (graph_name from) path)
         end).

Definition graph_evaluator (graph : NamedNodePattern) (child : InternalTuple -> list InternalTuple) (from : InternalTuple) : list InternalTuple :=
  let sel := from_named_node_pattern graph in
  match get_pattern_value sel from with
  | None => []
  | Some (Some g) =>
      if contains_internal_graph_name eval_dataset g then (fun t => with_graph t (graph_name from)) <$> child (with_graph from (Some g)) else []
  | Some None =>
      concat (map (fun g => omap (fun t => (fun t => with_graph t (graph_name from)) <$> put_pattern_value sel g t) (child (with_graph from (Some g))))
        (internal_named_graphs eval_dataset))
  end.

(** [InternalTupleSet]: the tuples of the built side with the hash of a tuple. *)
Definition tuple_key (keys : list VariableName) (t : InternalTuple) : Z := tuple_hash (omap (fun v => inner t !! v) keys).
Definition set_get (keys : list VariableName) (built : list InternalTuple) (t : InternalTuple) : list InternalTuple :=
  filter (fun b => tuple_key keys b = tuple_key keys t) built.
(** The cartesian product, and [HashJoinIterator], which yields what a probed
    tuple joins with from its last match. *)
Definition hash_join (keys : list VariableName) (built probed : list InternalTuple) : list InternalTuple :=
  match keys with
  | [] => concat (map (fun t => omap (combine_with t) built) probed)
  | _ => concat (map (fun t => rev (omap (combine_with t) (set_get keys built t))) probed)
  end.
Definition is_variable_service (e : QueryExpression) : bool :=
  match e with QService (PatternVariable _) _ _ => true | _ => false end.
Definition join_evaluator (left_is_service right_is_service : bool) (left right : InternalTuple -> list InternalTuple)
    (algorithm : JoinAlgorithm) (from : InternalTuple) : list InternalTuple :=
  if right_is_service then concat (map right (left from))
  else if left_is_service then concat (map left (right from))
  else match algorithm with HashBuildLeftProbeRight keys => hash_join keys (left from) (right from) end.
Definition lateral_evaluator (left right : InternalTuple -> list InternalTuple) (from : InternalTuple) : list InternalTuple :=
  concat (map right (left from)).
(** [ForLoopLeftJoinIterator]: the optional part, filtered, for each tuple. *)
Definition for_loop_left_join (left right : InternalTuple -> list InternalTuple) (condition_holds : InternalTuple -> bool) (from : InternalTuple) : list InternalTuple :=
  concat (map (fun t => match filter condition_holds (right t) with [] => [t] | l => l end) (left from)).
Definition minus_evaluator (left right : InternalTuple -> list InternalTuple) (algorithm : MinusAlgorithm) (from : InternalTuple) : list InternalTuple :=
  match algorithm with
  | MinusHashBuildRightProbeLeft keys =>
      let candidates := match keys with [] => fun l _ => l | _ => set_get keys end in
      filter (fun t => ~ Exists (fun r => are_compatible_and_not_disjointed t r) (candidates (right from) t)) (left from)
  end.
(** [HashLeftJoinIterator], which also yields the matches from the last. *)
Definition left_join_evaluator (left right : InternalTuple -> list InternalTuple) (condition_holds : InternalTuple -> bool)
    (algorithm : LeftJoinAlgorithm) (from : InternalTuple) : list InternalTuple :=
  match algorithm with
  | LeftHashBuildRightProbeLeft keys =>
      let built := right from in
      concat (map (fun t => match filter condition_holds (omap (combine_with t) (set_get keys built t)) with [] => [t] | l => rev l end) (left from))
  end.
Definition extend_evaluator (child : InternalTuple -> list InternalTuple) (v : VariableName) (value : InternalTuple -> option RdfTerm)
    (from : InternalTuple) : list InternalTuple :=
  (fun t => match value t with Some x => tuple_set t v x | None => t end) <$> child from.
(** [ConsecutiveDeduplication], from the tuple held back. *)
Fixpoint consecutive_deduplication (current : option InternalTuple) (l : list InternalTuple) : list InternalTuple :=
  match l with
  | [] => option_list current
  | next :: l =>
      match current with
      | Some t => if decide (inner t = inner next) then consecutive_deduplication (Some next) l
                  else t :: consecutive_deduplication (Some next) l
      | None => consecutive_deduplication (Some next) l
      end
  end.
(** Tuples are compared without their graph. *)
Fixpoint distinct_tuples (seen : list (gmap VariableName RdfTerm)) (l : list InternalTuple) : list InternalTuple :=
  match l with
  | [] => []
  | t :: l => if decide (inner t ∈ seen) then distinct_tuples seen l else t :: distinct_tuples (inner t :: seen) l
  end.
Definition slice_evaluator (child : InternalTuple -> list InternalTuple) (offset : Z) (limit : option Z) (from : InternalTuple) : list InternalTuple :=
  let l := drop (Z.to_nat offset) (child from) in
  match limit with Some limit => take (Z.to_nat limit) l | None => l end.
(** The projected variables of a solution are added to the input tuple. *)
Definition project_step (t : InternalTuple) (output : option InternalTuple) (v : VariableName) : option InternalTuple :=
  output ← output;
  match inner t !! v with
  | Some value =>
      match inner output !! v with
      | Some existing => if decide (existing = value) then Some output else None
      | None => Some (tuple_set output v value)
      end
  | None => Some output
  end.
Definition project_output (from : InternalTuple) (variables : list VariableName) (t : InternalTuple) : option InternalTuple :=
  foldl (project_step t) (Some from) variables.
Definition project_evaluator (child : InternalTuple -> list InternalTuple) (variables : list VariableName) (from : InternalTuple) : list InternalTuple :=
  let input := mkTuple (filter (fun vx => vx.1 ∈ variables) (inner from)) (graph_name from) in
  omap (project_output from variables) (child input).
(** The groups in the order of their first solutions; the result forgets the
    input tuple and the graph. *)
Definition group_key (variables : list VariableName) (t : InternalTuple) : list (option RdfTerm) := map (fun v => inner t !! v) variables.
Definition group_keys (variables : list VariableName) (l : list InternalTuple) : list (list (option RdfTerm)) :=
  match variables with [] => [[]] | _ => hash_deduplicate [] (map (group_key variables) l) end.
Definition group_result (variables : list VariableName) (aggregates : list (VariableName * AggregateExpression)) (l : list InternalTuple)
    (key : list (option RdfTerm)) : InternalTuple :=
  let group := filter (fun t => group_key variables t = key) l in
  let t := foldl (fun t vx => match vx.2 with Some x => tuple_set t vx.1 x | None => t end) (mkTuple ∅ None) (zip variables key) in
  foldl (fun t va => match aggregate va.2 group with Some x => tuple_set t va.1 x | None => t end) t aggregates.
Definition group_evaluator (child : InternalTuple -> list InternalTuple) (variables : list VariableName)
    (aggregates : list (VariableName * AggregateExpression)) (from : InternalTuple) : list InternalTuple :=
  let l := child from in map (group_result variables aggregates l) (group_keys variables l).

(** ** Expressions *)

(** [effective_boolean_value] of a term. *)
Definition term_boolean_value (t : RdfTerm) : option bool :=
  match t with
  | TermLiteral l =>
      if bool_decide (Literal_datatype l = XSD "boolean") || bool_decide (Literal_datatype l = XSD_STRING) then literal_boolean_value l
      else numeric_boolean_value l
  | _ => None
  end.
Definition boolean_term (b : bool) : RdfTerm := TermLiteral (Literal_from_bool b).
(** The loops of [Or] and of [And], which stop at [stop]. *)
Fixpoint boolean_loop (stop : bool) (error : bool) (children : list (option RdfTerm)) : option RdfTerm :=
  match children with
  | [] => if error then None else Some (boolean_term (negb stop))
  | child :: children =>
      match child ≫= term_boolean_value with
      | Some b => if bool_decide (b = stop) then Some (boolean_term stop) else boolean_loop stop error children
      | None => boolean_loop stop true children
      end
  end.

(** *** Functions

    The functions that only look at the form of terms or at the text of strings. *)

(** [ExpressionTerm::StringLiteral] *)
Definition as_simple_string (t : RdfTerm) : option bytes :=
  match t with
  | TermLiteral (LiteralString s) => Some s
  | TermLiteral (TypedLiteral s d) => if bool_decide (d = XSD_STRING) then Some s else None
  | _ => None
  end.
Definition string_term (s : bytes) : RdfTerm := TermLiteral (LiteralString s).
Definition to_string_and_language (t : RdfTerm) : option (bytes * option (bytes * option BaseDirection)) :=
  match t with
  | TermLiteral (LanguageTaggedString s l) => Some (s, Some (l, None))
  | TermLiteral (DirectionalLanguageTaggedString s l d) => Some (s, Some (l, Some d))
  | _ => s ← as_simple_string t; Some (s, None)
  end.
Definition build_plain_literal (s : bytes) (language : option (bytes * option BaseDirection)) : RdfTerm :=
  TermLiteral match language with
    | Some (l, Some d) => DirectionalLanguageTaggedString s l d
    | Some (l, None) => LanguageTaggedString s l
    | None => LiteralString s
    end.
Definition to_argument_compatible_strings (a b : RdfTerm) : option (bytes * bytes * option (bytes * option BaseDirection)) :=
  a ← to_string_and_language a;
  b ← to_string_and_language b;
  if bool_decide (b.2 = None) || bool_decide (a.2 = b.2) then Some (a.1, b.1, a.2) else None.

(** [starts_with], [ends_with], [find] and [split] of [str] *)
Fixpoint string_starts_with (s prefix : bytes) : bool :=
  match prefix, s with
  | [], _ => true
  | p :: prefix, c :: s => bool_decide (p = c) && string_starts_with s prefix
  | _, [] => false
  end.
Definition string_ends_with (s suffix : bytes) : bool := string_starts_with (rev s) (rev suffix).
Fixpoint find_string (s pattern : bytes) : option nat :=
  if string_starts_with s pattern then Some O else match s with [] => None | _ :: s => Datatypes.S <$> find_string s pattern end.
Fixpoint split_char (d : ascii) (s : bytes) : list bytes :=
  match s with
  | [] => [[]]
  | c :: s => if bool_decide (c = d) then [] :: split_char d s
              else match split_char d s with part :: parts => (c :: part) :: parts | [] => [[c]] end
  end.

(** The loop over the subtags of the range and of the tag, the longest of the two. *)
Fixpoint range_matches (range tag : list bytes) : bool :=
  match range, tag with
  | [], _ => true
  | r :: range, t :: tag => bool_decide (r = t) && range_matches range tag
  | _ :: _, [] => false
  end.
Definition lang_matches (tag range : RdfTerm) : option RdfTerm :=
  tag ← as_simple_string tag;
  range ← as_simple_string range;
  let tag := ascii_lowercase tag in
  let range := ascii_lowercase range in
  Some (boolean_term
    (if bool_decide (range = str "*") then negb (bool_decide (tag = []))
     else range_matches (split_char "-" range) (split_char "-" tag))).

Definition str_function (t : RdfTerm) : option RdfTerm :=
  match t with
  | TermNamedNode n => Some (string_term (nn_iri n))
  | TermLiteral l => Some (string_term (Literal_value l))
  | _ => None
  end.
Definition lang_function (t : RdfTerm) : option RdfTerm :=
  match t with TermLiteral l => Some (string_term (default [] (Literal_language l))) | _ => None end.
Definition langdir_function (t : RdfTerm) : option RdfTerm :=
  match t with
  | TermLiteral l =>
      Some (string_term match Literal_direction l with Some Ltr => str "ltr" | Some Rtl => str "rtl" | None => [] end)
  | _ => None
  end.
(** One byte of [ENCODE_FOR_URI]. *)
Definition encode_for_uri_byte (c : ascii) : bytes :=
  let b := Z_of_byte c in
  if in_range 65 90 b || in_range 97 122 b || in_range 48 57 b || existsb (Ascii.eqb c) (str "-_.~") then [c]
  else
    let hexa d := byte_of_Z (if d <? 10 then 48 + d else 65 + (d - 10)) in
    ["%"%char; hexa (b / 16); hexa (b mod 16)].
Definition encode_for_uri (t : RdfTerm) : option RdfTerm :=
  s ← to_string_and_language t; Some (string_term (mjoin (encode_for_uri_byte <$> s.1))).

(** A test of the form of a term. *)
Definition term_test (f : RdfTerm -> bool) (t : RdfTerm) : option RdfTerm := Some (boolean_term (f t)).
Definition term_is_iri (t : RdfTerm) : bool := match t with TermNamedNode _ => true | _ => false end.
Definition term_is_blank (t : RdfTerm) : bool := match t with TermBlankNode _ => true | _ => false end.
Definition term_is_literal (t : RdfTerm) : bool := match t with TermLiteral _ => true | _ => false end.
Definition term_is_triple (t : RdfTerm) : bool := match t with TermTriple _ _ _ => true | _ => false end.
Definition has_lang (t : RdfTerm) : bool := match t with TermLiteral l => bool_decide (is_Some (Literal_language l)) | _ => false end.
Definition has_langdir (t : RdfTerm) : bool := match t with TermLiteral l => bool_decide (is_Some (Literal_direction l)) | _ => false end.

(** A comparison of values that holds in the given cases. *)
Definition compare_terms (f : comparison -> bool) (a b : RdfTerm) : option RdfTerm := boolean_term ∘ f <$> term_partial_cmp a b.
(** A test of two strings. *)
Definition string_test (f : bytes -> bytes -> bool) (a b : RdfTerm) : option RdfTerm :=
  x ← to_argument_compatible_strings a b; Some (boolean_term (f x.1.1 x.1.2)).
Definition strbefore (a b : RdfTerm) : option RdfTerm :=
  x ← to_argument_compatible_strings a b;
  Some match find_string x.1.1 x.1.2 with
       | Some position => build_plain_literal (take position x.1.1) x.2
       | None => string_term []
       end.
Definition strafter (a b : RdfTerm) : option RdfTerm :=
  x ← to_argument_compatible_strings a b;
  Some match find_string x.1.1 x.1.2 with
       | Some position => build_plain_literal (drop (position + length x.1.2) x.1.1) x.2
       | None => string_term []
       end.
Definition strdt (lexical_form datatype : RdfTerm) : option RdfTerm :=
  value ← as_simple_string lexical_form;
  match datatype with
  | TermNamedNode datatype => TermLiteral <$> Literal_new_typed_literal value datatype
  | _ => None
  end.
(** The loop of [CONCAT]; [language] is that of the arguments so far. *)
Fixpoint concat_loop (args : list (option RdfTerm)) (text : bytes) (language : option (option (bytes * option BaseDirection)))
  : option RdfTerm :=
  match args with
  | [] => Some (build_plain_literal text (mjoin language))
  | arg :: args =>
      arg ← arg;
      s ← to_string_and_language arg;
      concat_loop args (text ++ s.1)
        (Some match language with Some l => if bool_decide (l = s.2) then l else None | None => s.2 end)
  end.

Definition unary_functions : list (RdfNamedNode * (RdfTerm -> option RdfTerm)) :=
  [ (SPARQL "str", str_function);
    (SPARQL "lang", lang_function);
    (SPARQL "langdir", langdir_function);
    (SPARQL "encodeForUri", encode_for_uri);
    (SPARQL "isIRI", term_test term_is_iri);
    (SPARQL "isURI", term_test term_is_iri);
    (SPARQL "isBlank", term_test term_is_blank);
    (SPARQL "isLiteral", term_test term_is_literal);
    (SPARQL "hasLang", term_test has_lang);
    (SPARQL "hasLangdir", term_test has_langdir);
    (SPARQL "isTriple", term_test term_is_triple);
    (SPARQL "subject", fun t => match t with TermTriple s _ _ => Some (Term_from_node s) | _ => None end);
    (SPARQL "predicate", fun t => match t with TermTriple _ p _ => Some (TermNamedNode p) | _ => None end);
    (SPARQL "object", fun t => match t with TermTriple _ _ o => Some o | _ => None end) ].
Definition binary_functions : list (RdfNamedNode * (RdfTerm -> RdfTerm -> option RdfTerm)) :=
  [ (SPARQL "greater-than", compare_terms (fun c => match c with Gt => true | _ => false end));
    (SPARQL "greater-than-or-equal", compare_terms (fun c => match c with Lt => false | _ => true end));
    (SPARQL "less-than", compare_terms (fun c => match c with Lt => true | _ => false end));
    (SPARQL "less-than-or-equal", compare_terms (fun c => match c with Gt => false | _ => true end));
    (SPARQL "langMatches", lang_matches);
    (SPARQL "strstarts", string_test string_starts_with);
    (SPARQL "strends", string_test string_ends_with);
    (SPARQL "contains", string_test (fun s p => bool_decide (is_Some (find_string s p))));
    (SPARQL "strbefore", strbefore);
    (SPARQL "strafter", strafter);
    (SPARQL "strdt", strdt) ].
Fixpoint find_function {A : Type} (name : RdfNamedNode) (table : list (RdfNamedNode * A)) : option A :=
  match table with
  | [] => None
  | (n, f) :: table => if bool_decide (name = n) then Some f else find_function name table
  end.

Definition value_function (name : RdfNamedNode) (args : list (option RdfTerm)) : option RdfTerm :=
  if bool_decide (name = SPARQL "concat") then concat_loop args [] None
  else
    match args with
    | [a] => match find_function name unary_functions with Some f => a ≫= f | None => call_function name args end
    | [a; b] =>
        match find_function name binary_functions with
        | Some f => a ← a; b ← b; f a b
        | None => call_function name args
        end
    | [s; p; o] =>
        if bool_decide (name = SPARQL_TRIPLE) then s ← s; p ← p; o ← o; triple_term s p o else call_function name args
    | _ => call_function name args
    end.
Definition apply_function (name : RdfNamedNode) (args : list (option RdfTerm)) : option RdfTerm :=
  match args with
  | [a] =>
      if bool_decide (name = SPARQL_LOGICAL_NOT) then boolean_term ∘ negb <$> (a ≫= term_boolean_value)
      else value_function name args
  | [a; b] =>
      if bool_decide (name = SPARQL_EQUALS) then a ← a; b ← b; boolean_term <$> term_equals a b
      else if bool_decide (name = SPARQL_NOT_EQUALS) then a ← a; b ← b; boolean_term ∘ negb <$> term_equals a b
      else if bool_decide (name = SPARQL_SAME_TERM) then a ← a; b ← b; Some (boolean_term (bool_decide (a = b)))
      else value_function name args
  | _ => value_function name args
  end.
Definition first_some (l : list (option RdfTerm)) : option RdfTerm := head (omap id l).

(** ** Evaluation *)

Definition condition_holds (value : option RdfTerm) : bool := bool_decide (value ≫= term_boolean_value = Some true).

Fixpoint eval_expression (e : Expression) (t : InternalTuple) : option RdfTerm :=
  match e with
  | ENamedNode n => Some (TermNamedNode n)
  | ELiteral l => Some (TermLiteral l)
  | EVariable v => inner t !! v
  | EBound v => Some (boolean_term (bool_decide (is_Some (inner t !! v))))
  | EExists plan => Some (boolean_term match eval plan t with [] => false | _ => true end)
  | EOr children => boolean_loop true false (map (fun e => eval_expression e t) children)
  | EAnd children => boolean_loop false false (map (fun e => eval_expression e t) children)
  | ECoalesce l => first_some (map (fun e => eval_expression e t) l)
  | EIf a b c =>
      match eval_expression a t ≫= term_boolean_value with
      | Some true => eval_expression b t
      | Some false => eval_expression c t
      | None => None
      end
  | EFunctionCall name args => apply_function name (map (fun e => eval_expression e t) args)
  end
with eval (e : QueryExpression) (from : InternalTuple) : list InternalTuple :=
  match e with
  | QValues variables bindings => values_evaluator variables bindings from
  | QQuadPattern s p o g => quad_pattern_evaluator s p o g from
  | QPath s path o => path_evaluator s path o from
  | QGraph graph inner => graph_evaluator graph (eval inner) from
  | QJoin l r algorithm => join_evaluator (is_variable_service l) (is_variable_service r) (eval l) (eval r) algorithm from
  | QLateral l r =>
      match r with
      | QLeftJoin nested_left nested_right expression _ =>
          if is_empty_singleton nested_left
          then for_loop_left_join (eval l) (eval nested_right) (fun t => condition_holds (eval_expression expression t)) from
          else lateral_evaluator (eval l) (eval r) from
      | _ => lateral_evaluator (eval l) (eval r) from
      end
  | QMinus l r algorithm => minus_evaluator (eval l) (eval r) algorithm from
  | QLeftJoin l r expression algorithm => left_join_evaluator (eval l) (eval r) (fun t => condition_holds (eval_expression expression t)) algorithm from
  | QFilter expression inner => filter (fun t => condition_holds (eval_expression expression t)) (eval inner from)
  | QUnion children => concat (map (fun c => eval c from) children)
  | QExtend inner v expression => extend_evaluator (eval inner) v (eval_expression expression) from
  | QOrderBy inner expression => sort_tuples expression (eval inner from)
  | QProject inner variables => project_evaluator (eval inner) variables from
  | QDistinct inner => distinct_tuples [] (eval inner from)
  | QReduced inner => consecutive_deduplication None (eval inner from)
  | QSlice inner offset limit => slice_evaluator (eval inner) offset limit from
  | QGroup inner variables aggregates => group_evaluator (eval inner) variables aggregates from
  | QService name inner silent => evaluate_service name inner silent from
  end.
End eval.
