(* ===== verification/SpTypeFacts.v ===== *)
(** * Type inference is sound

    Every solution of a query expression has, for each variable, a kind of term
    that the types inferred for the expression allow. *)
From stdpp Require Import gmap.
From S2P Require Import Prelude MachineInt RustStr BTree RdfModel RdfDisplay SpAlgebra SpTypes.
From S2P Require Import SpDataset SpPath SpEval.

(** ** Typed values and solutions *)

Definition typed_value (o : option RdfTerm) (t : VariableType) : Prop :=
  match o with
  | None => undef t = true
  | Some (TermNamedNode _) => named_node t = true
  | Some (TermBlankNode _) => blank_node t = true
  | Some (TermLiteral _) => literal t = true
  | Some (TermTriple _ _ _) => triple t = true
  end.
Definition typed (m : gmap VariableName RdfTerm) (types : VariableTypes) : Prop := ∀ v, typed_value (m !! v) (types_get types v).

Lemma typed_and o a b : typed_value o a → typed_value o b → typed_value o (type_and a b).
Proof. destruct o as [[]|], a, b; simpl; intros -> ->; by rewrite ?orb_true_r. Qed.
Lemma typed_and_l o a b : typed_value o a → undef b = true → typed_value o (type_and a b).
Proof. destruct o as [[]|], a, b; simpl; intros -> ->; by rewrite ?orb_true_r. Qed.
Lemma typed_and_r o a b : undef a = true → typed_value o b → typed_value o (type_and a b).
Proof. destruct o as [[]|], a, b; simpl; intros -> ->; by rewrite ?orb_true_r. Qed.
Lemma typed_or_l o a b : typed_value o a → typed_value o (type_or a b).
Proof. destruct o as [[]|], a, b; simpl; intros ->; done. Qed.
Lemma typed_or_r o a b : typed_value o b → typed_value o (type_or a b).
Proof. destruct o as [[]|], a, b; simpl; intros ->; by rewrite orb_true_r. Qed.
Lemma typed_set_undef o a : typed_value o a → typed_value o (set_undef a).
Proof. by destruct o as [[]|], a. Qed.
Lemma typed_any o : typed_value o TYPE_ANY.
Proof. by destruct o as [[]|]. Qed.
Lemma typed_undef o : typed_value o TYPE_UNDEF → o = None.
Proof. by destruct o as [[]|]. Qed.
Lemma typed_defined o t : typed_value o t → undef t = false → is_Some o.
Proof. destruct o; [eauto|simpl; congruence]. Qed.

(** ** Maps of types *)

Lemma types_get_insert types v t w : types_get (<[v := t]> types) w = if decide (w = v) then t else types_get types w.
Proof. unfold types_get; case_decide; subst; by simplify_map_eq. Qed.
Lemma type_and_undef a b : type_and a b = TYPE_UNDEF → a = TYPE_UNDEF.
Proof. destruct a as [[] [] [] [] []], b as [[] [] [] [] []]; simpl; intros [=]; done. Qed.
Lemma type_and_undef_r a : type_and a TYPE_UNDEF = a.
Proof. by destruct a as [[] [] [] [] []]. Qed.
Lemma types_get_intersect_variable types v t w :
  types_get (intersect_variable_with types v t) w = if decide (w = v) then type_and (types_get types v) t else types_get types w.
Proof.
  unfold intersect_variable_with; case_bool_decide as E; [|apply types_get_insert].
  case_decide; [subst w|done]; rewrite E; by apply type_and_undef in E.
Qed.
Lemma types_get_intersect a b v : types_get (intersect_with a b) v = type_and (types_get a v) (types_get b v).
Proof.
  unfold types_get, intersect_with; rewrite lookup_merge; destruct (a !! v) as [x|] eqn:E, (b !! v) as [y|]; simpl; try case_bool_decide as E2; simpl;
    rewrite ?type_and_undef_r; try done; rewrite ?E2; by apply type_and_undef in E2.
Qed.
Lemma types_get_union a b v : types_get (union_with a b) v = type_or (types_get a v) (types_get b v).
Proof.
  unfold types_get, union_with; rewrite lookup_merge; destruct (a !! v) as [[[] [] [] [] []]|], (b !! v) as [[[] [] [] [] []]|]; done.
Qed.
Lemma types_get_set_undef types v : types_get (set_undef <$> types) v = set_undef (types_get types v).
Proof. unfold types_get; rewrite lookup_fmap; by destruct (types !! v). Qed.
Lemma types_get_keep types vs v : types_get (keep_types types vs) v = if decide (v ∈ vs) then types_get types v else TYPE_UNDEF.
Proof.
  unfold types_get, keep_types; rewrite map_lookup_filter; destruct (types !! v); simpl; by case_decide; simplify_option_eq.
Qed.
Lemma typed_intersect_variable m types v t :
  typed m types → typed_value (m !! v) t → typed m (intersect_variable_with types v t).
Proof. intros H Hv w; rewrite types_get_intersect_variable; case_decide; [subst; by apply typed_and|done]. Qed.
(** A variable that gets its value. *)
Lemma typed_set m types v x t :
  typed m types → m !! v = None → typed_value (Some x) t → typed (<[v := x]> m) (intersect_variable_with types v t).
Proof.
  intros H Hv Hx w; rewrite types_get_intersect_variable; case_decide; [subst|by rewrite lookup_insert_ne].
  rewrite lookup_insert_eq; apply typed_and_r; [|done]; specialize (H v); by rewrite Hv in H.
Qed.
Lemma typed_empty m : typed m ∅ ↔ m = ∅.
Proof.
  split; [intros H; apply map_empty; intros v; apply typed_undef, (H v)|intros -> v; by rewrite lookup_empty].
Qed.

(** ** Patterns *)

Definition is_named_node (x : RdfTerm) : Prop := match x with TermNamedNode _ => True | _ => False end.
Definition is_subject (x : RdfTerm) : Prop := match x with TermLiteral _ => False | _ => True end.
Lemma typed_named_node x : is_named_node x → typed_value (Some x) TYPE_NAMED_NODE.
Proof. by destruct x. Qed.
Lemma typed_subject_or_term (b : bool) x : (b = false → is_subject x) → typed_value (Some x) (if b then TYPE_TERM else TYPE_SUBJECT).
Proof. destruct b, x; simpl; try done; intros H; by destruct H. Qed.

(** What [put_pattern_value] does to a variable. *)
Lemma put_variable v x t t' :
  put_pattern_value (SelectorVariable v) x t = Some t' →
  t' = t ∧ inner t !! v = Some x ∨ t' = tuple_set t v x ∧ inner t !! v = None.
Proof. simpl; destruct (inner t !! v); intros; simplify_option_eq; auto. Qed.
Lemma put_extends sel x t t' : put_pattern_value sel x t = Some t' → inner t ⊆ inner t' ∧ graph_name t' = graph_name t.
Proof.
  revert x t t'; induction sel as [c|v|s IHs p IHp o IHo]; intros x t t'.
  - simpl; intros; by simplify_option_eq.
  - intros [[-> _]|[-> Hv]]%put_variable; [done|]; split; [by apply insert_subseteq|done].
  - simpl; destruct x; intros; simplify_option_eq.
    repeat match goal with
    | IH : ∀ x t t', put_pattern_value ?s x t = Some t' → _, H : put_pattern_value ?s _ _ = Some _ |- _ => apply IH in H as [??]
    end.
    split; [by do 2 (etrans; [done|])|congruence].
Qed.
Lemma put_variable_typed v x t t' types ty :
  put_pattern_value (SelectorVariable v) x t = Some t' → typed_value (Some x) ty → typed (inner t) types →
  typed (inner t') (intersect_variable_with types v ty).
Proof.
  intros [[-> Hv]|[-> Hv]]%put_variable Hx Ht; [|by apply typed_set].
  apply typed_intersect_variable; [done|by rewrite Hv].
Qed.
Lemma put_named_typed p x t t' types :
  put_pattern_value (from_named_node_pattern p) x t = Some t' → is_named_node x → typed (inner t) types →
  typed (inner t') (add_named_node_pattern_type p types).
Proof.
  destruct p as [n|v]; intros H Hx; [simpl in *; intros; by simplify_option_eq|].
  by apply (put_variable_typed v x), typed_named_node.
Qed.
(** A variable in the position of a subject is not a literal. *)
Definition fits (p : GroundTermPattern) (b : bool) (x : RdfTerm) : Prop :=
  match p with GPVariable _ => b = false → is_subject x | _ => True end.
Lemma fits_subject p b x : is_subject x → fits p b x.
Proof. intros H; destruct p; simpl; auto. Qed.
Lemma fits_object p x : fits p true x.
Proof. destruct p; simpl; [done|done|discriminate|done]. Qed.
#[local] Hint Resolve fits_subject fits_object : core.
(** A pattern without variables adds no type. *)
Lemma constant_types p c types b : from_ground_term_pattern p = Some (Constant c) → add_ground_term_pattern_types p types b = types.
Proof.
  revert c types b; induction p as [| |v|s IHs p o IHo]; intros c types b; try done; simpl.
  destruct (from_ground_term_pattern s) as [[cs| |]|], (from_ground_term_pattern o) as [[co| |]|], p; simpl; try done; intros _.
  by rewrite (IHs cs), (IHo co).
Qed.
Lemma triple_selector s p o sel :
  from_ground_term_pattern (GPTriple s p o) = Some sel →
  (∃ c, sel = Constant c) ∨
  ∃ ss os, from_ground_term_pattern s = Some ss ∧ from_ground_term_pattern o = Some os ∧
    sel = TriplePattern ss (from_named_node_pattern p) os.
Proof.
  simpl; destruct (from_ground_term_pattern s) as [ss|], (from_ground_term_pattern o) as [os|]; simpl; try done.
  destruct ss, p, os; simpl; try (intros [= <-]; right; eauto; done).
  destruct (triple_term _ _ _); simpl; intros [= <-]; eauto.
Qed.
Lemma put_ground_typed p sel x t t' types b :
  from_ground_term_pattern p = Some sel → put_pattern_value sel x t = Some t' → fits p b x →
  typed (inner t) types → typed (inner t') (add_ground_term_pattern_types p types b).
Proof.
  revert sel x t t' types b; induction p as [n|l|v|s IHs p o IHo]; intros sel x t t' types b Hsel Hput Hx Ht.
  1,2: simpl in *; by simplify_option_eq.
  - injection Hsel as <-; simpl; eapply put_variable_typed; [done| |done]; by apply typed_subject_or_term.
  - pose proof (triple_selector _ _ _ _ Hsel) as [(c & ->)|(ss & os & Hs & Ho & ->)].
    { rewrite (constant_types _ c) by done; simpl in Hput; by simplify_option_eq. }
    simpl in Hput; destruct x as [| | |xs xp xo]; try done; simplify_option_eq.
    eapply (IHo os); [done|done|auto|].
    eapply put_named_typed; [done|done|].
    eapply (IHs ss); [done|done| |done]; apply fits_subject; by destruct xs.
Qed.
Lemma get_named_typed p t x types :
  get_pattern_value (from_named_node_pattern p) t = Some (Some x) → is_named_node x → typed (inner t) types →
  typed (inner t) (add_named_node_pattern_type p types).
Proof.
  destruct p as [n|v]; simpl; [done|]; intros [= Hv] Hx Ht; apply typed_intersect_variable; [done|].
  rewrite Hv; by apply typed_named_node.
Qed.
Lemma triple_term_inv s p o x : triple_term s p o = Some x → is_subject s ∧ is_named_node p.
Proof. by destruct s, p. Qed.
Lemma get_ground_typed p sel x t types b :
  from_ground_term_pattern p = Some sel → get_pattern_value sel t = Some (Some x) → fits p b x →
  typed (inner t) types → typed (inner t) (add_ground_term_pattern_types p types b).
Proof.
  revert sel x types b; induction p as [n|l|v|s IHs p o IHo]; intros sel x types b Hsel Hget Hx Ht; try done.
  - injection Hsel as <-; injection Hget as Hv; simpl; apply typed_intersect_variable; [done|].
    rewrite Hv; by apply typed_subject_or_term.
  - pose proof (triple_selector _ _ _ _ Hsel) as [(c & ->)|(ss & os & Hs & Ho & ->)].
    { by rewrite (constant_types _ c). }
    simpl in Hget; destruct (get_pattern_value ss t) as [[xs|]|] eqn:Es; try done; simpl in Hget.
    destruct (get_pattern_value (from_named_node_pattern p) t) as [[xp|]|] eqn:Ep; try done; simpl in Hget.
    destruct (get_pattern_value os t) as [[xo|]|] eqn:Eo; try done; simpl in Hget.
    destruct (triple_term xs xp xo) eqn:Et; [|done]; apply triple_term_inv in Et as [??].
    eapply (IHo os); [done|done|auto|].
    eapply get_named_typed; [done|done|].
    eapply (IHs ss); [done|done|auto|done].
Qed.

(** The value of a pattern is the one in an extended tuple. *)
Lemma get_pattern_value_mono sel t t' x :
  inner t ⊆ inner t' → get_pattern_value sel t = Some (Some x) → get_pattern_value sel t' = Some (Some x).
Proof.
  intros Hsub; revert x; induction sel as [c|v|s IHs p IHp o IHo]; simpl; intros x; [done|intros [= H]; by erewrite lookup_weaken|].
  destruct (get_pattern_value s t) as [[xs|]|]; simpl; try done; rewrite (IHs xs) by done; simpl.
  destruct (get_pattern_value p t) as [[xp|]|]; simpl; try done; rewrite (IHp xp) by done; simpl.
  destruct (get_pattern_value o t) as [[xo|]|]; simpl; try done; by rewrite (IHo xo).
Qed.

(** ** The terms of a dataset *)

(** The named graphs are named by IRIs. *)
Definition iri_graphs (D : EvalDataset) : Prop :=
  Forall (fun q => from_option is_named_node True (graph_name_term (q_graph_name q))) (dataset_quads D) ∧
  Forall (fun n => is_named_node (Term_from_node n)) (dataset_named_graphs D) ∧
  from_option (Forall is_named_node) True (spec_named D).
Definition quad_typed (q : InternalQuad) : Prop := is_subject (iq_subject q) ∧ is_named_node (iq_predicate q).

Lemma node_is_subject n : is_subject (Term_from_node n).
Proof. by destruct n. Qed.
Lemma dataset_quads_typed D s p o g q :
  q ∈ dataset_quads_for_pattern D s p o g → quad_typed q ∧ (iri_graphs D → from_option is_named_node True (iq_graph_name q)).
Proof.
  intros [_ (x & -> & Hx)%list_elem_of_fmap]%list_elem_of_filter; split; [split; [apply node_is_subject|done]|].
  intros (H & _); by apply (proj1 (list.Forall_forall _ _) H) in Hx.
Qed.
Lemma dataset_triples_typed D s p o g q : q ∈ dataset_triples_for_pattern D s p o g → quad_typed q ∧ iq_graph_name q = None.
Proof.
  unfold dataset_triples_for_pattern; rewrite elem_of_hash_deduplicate; intros [(x & -> & Hx)%list_elem_of_fmap _].
  split; [|done]; assert (E : ∃ g, x ∈ dataset_quads_for_pattern D s p o g).
  { destruct g; [apply elem_of_concat_map in Hx as (g & _ & Hx)|]; eauto. }
  destruct E as [g' E]; by apply dataset_quads_typed in E as [[??] _].
Qed.
Lemma internal_quads_typed D s p o g q :
  q ∈ internal_quads_for_pattern D s p o g → quad_typed q ∧ (iri_graphs D → from_option is_named_node True (iq_graph_name q)).
Proof.
  unfold internal_quads_for_pattern; destruct g as [[g|]|].
  - destruct (is_none_or _ _); [apply dataset_quads_typed|set_solver].
  - destruct (spec_default D) as [graphs|];
      [|intros [H E]%dataset_triples_typed; split; [done|by rewrite E]].
    destruct (default_is_merge D).
    + intros (g & x & _ & Hx & -> & _)%elem_of_merged_quads; apply dataset_quads_typed in Hx as [[Hs Hp] _].
      split; [split; [|done]|done]; simpl; unfold standardize_merged_term; destruct (iq_subject x); try done.
      by destruct (term_contains_blank_node _).
    + destruct graphs as [|g [|]]; try (intros [H E]%dataset_triples_typed; split; [done|by rewrite E]).
      intros (x & -> & Hx)%list_elem_of_fmap; by apply dataset_quads_typed in Hx as [[??] _].
  - destruct (spec_named D).
    + intros (g & _ & Hx)%elem_of_concat_map; by apply dataset_quads_typed in Hx.
    + intros [_ Hx]%list_elem_of_filter; by apply dataset_quads_typed in Hx.
Qed.
Lemma named_graph_iri D g : iri_graphs D → g ∈ internal_named_graphs D → is_named_node g.
Proof.
  intros (_ & H & Hs); unfold internal_named_graphs; destruct (spec_named D) as [named|]; simpl in *.
  - intros Hg; by apply (proj1 (list.Forall_forall _ _) Hs).
  - intros (n & -> & Hn)%list_elem_of_fmap; by apply (proj1 (list.Forall_forall _ _) H) in Hn.
Qed.
Lemma contains_graph_spec D g : contains_internal_graph_name D g = true ↔ g ∈ internal_named_graphs D.
Proof. unfold contains_internal_graph_name, internal_named_graphs; destruct (spec_named D); by rewrite bool_decide_eq_true. Qed.

(** The paths whose start is the subject of a quad. *)
Fixpoint starts_at_subject (path : PropertyPathExpression) : bool :=
  match path with
  | PathLink _ | PathNps _ => true
  | PathSeq a _ => starts_at_subject a
  | PathAlt a b => starts_at_subject a && starts_at_subject b
  | OneOrMorePath p => starts_at_subject p
  | PathInv _ | ZeroOrMorePath _ | ZeroOrOnePath _ => false
  end.
Lemma path_start_subject D g path s o :
  starts_at_subject path = true → path_relation D g (encode_property_path path) s o → is_subject s.
Proof.
  revert s o; induction path as [n|p IH|a IHa b IHb|a IHa b IHb|p IH|p IH|p IH|ps]; intros s o; simpl; intros Hp; try done.
  1,5: intros (t & Ht & <- & _); by apply internal_quads_typed in Ht as [[??] _].
  - intros (m & H & _); by eapply IHa.
  - apply andb_true_iff in Hp as [??]; intros [Hr|Hr]; [by eapply IHa|by eapply IHb].
  - intros H; inversion H; subst; by eapply IH.
Qed.

(** ** Joins of tuples *)

Lemma combine_with_spec a b t :
  combine_with a b = Some t →
  compatible (inner a) (inner b) ∧ inner t = inner a ∪ inner b ∧ graph_name t = graph_name a ∧
  inner a ⊆ inner t ∧ inner b ⊆ inner t.
Proof.
  unfold combine_with; intros H; case_decide as C; [|done]; injection H as <-; simpl.
  repeat split; try done; [apply map_union_subseteq_l|].
  apply map_subseteq_spec; intros v y Hy; apply lookup_union_Some_raw.
  destruct (inner a !! v) as [x|] eqn:Ha; [left|by right].
  specialize (C v x Ha); simpl in C; rewrite Hy in C; simpl in C; by subst.
Qed.
Lemma combine_with_lookup a b t v :
  combine_with a b = Some t →
  inner t !! v = inner a !! v ∧ (inner b !! v = None ∨ inner b !! v = inner a !! v) ∨ inner a !! v = None ∧ inner t !! v = inner b !! v.
Proof.
  intros (C & E & _)%combine_with_spec; rewrite E, lookup_union.
  destruct (inner a !! v) as [x|] eqn:Ha, (inner b !! v) as [y|] eqn:Hb; simpl; auto.
  specialize (C v x Ha); simpl in C; rewrite Hb in C; simpl in C; subst; auto.
Qed.
Lemma combine_with_typed a b t v A B :
  combine_with a b = Some t → typed_value (inner a !! v) A → typed_value (inner b !! v) B → typed_value (inner t !! v) (type_and A B).
Proof.
  intros H HA HB; destruct (combine_with_lookup a b t v H) as [[E1 [E2|E2]]|[E1 E2]].
  - rewrite E1; rewrite E2 in HB; by apply typed_and_l.
  - rewrite E1; rewrite E2 in HB; by apply typed_and.
  - rewrite E2; rewrite E1 in HA; by apply typed_and_r.
Qed.
Lemma typed_combine a b t types_a types_b :
  combine_with a b = Some t → typed (inner a) types_a → typed (inner b) types_b → typed (inner t) (intersect_with types_a types_b).
Proof. intros H Ha Hb v; rewrite types_get_intersect; by apply (combine_with_typed a b). Qed.
Lemma type_and_comm a b : type_and a b = type_and b a.
Proof. by destruct a as [[] [] [] [] []], b as [[] [] [] [] []]. Qed.
Lemma typed_combine_flip a b t types_a types_b :
  combine_with b a = Some t → typed (inner a) types_a → typed (inner b) types_b → typed (inner t) (intersect_with types_a types_b).
Proof. intros H Ha Hb v; rewrite types_get_intersect, type_and_comm; by apply (combine_with_typed b a). Qed.

(** ** Tables *)

Lemma binding_type_spec t i row t' :
  binding_type t i row = Some t' →
  (∀ o, typed_value o t → typed_value o t') ∧ ∃ o, row !! i = Some o ∧ typed_value (ground_term_value <$> o) t'.
Proof.
  unfold binding_type; destruct (row !! i) as [[[]|]|]; [..|done]; intros [= <-];
    (split; [intros [[]|]; destruct t; simpl; by try intros ->|eexists; by split]).
Qed.
Lemma column_type_spec t i rows t' :
  column_type t i rows = Some t' →
  (∀ o, typed_value o t → typed_value o t') ∧ ∀ row, row ∈ rows → ∃ o, row !! i = Some o ∧ typed_value (ground_term_value <$> o) t'.
Proof.
  revert t; induction rows as [|row rows IH]; simpl; intros t H; [injection H as <-; split; [done|set_solver]|].
  destruct (binding_type t i row) as [t1|] eqn:E; [|done]; apply binding_type_spec in E as (H1 & o & Ho & Hto).
  apply IH in H as [H2 H3]; split; [by intros ? ?%H1%H2|].
  intros r [->|Hr]%list.elem_of_cons; [|by apply H3]; exists o; split; [done|by apply H2].
Qed.
Lemma values_types_spec types i vs rows types' v :
  NoDup vs → values_types types i vs rows = Some types' →
  ((v ∉ vs) ∧ types_get types' v = types_get types v) ∨
  ∃ j ty, vs !! j = Some v ∧ types_get types' v = type_and (types_get types v) ty ∧ column_type VariableType_default (i + j) rows = Some ty.
Proof.
  revert types i; induction vs as [|w vs IH]; simpl; intros types i N H; [injection H as <-; left; split; [set_solver|done]|].
  destruct (column_type _ i rows) as [ty|] eqn:E; [|done]; apply list.NoDup_cons in N as [Hw N].
  destruct (IH _ _ N H) as [[Hv Ht]|(j & ty' & Hj & Ht & Hc)]; rewrite types_get_intersect_variable in Ht; case_decide as D.
  - subst; right; exists 0%nat, ty; by rewrite Nat.add_0_r.
  - left; split; [set_solver|done].
  - subst; by apply list_elem_of_lookup_2 in Hj.
  - right; exists (S j), ty'; split; [done|]; by rewrite Nat.add_succ_r.
Qed.
Lemma encode_row_spec vs row t v :
  NoDup vs → inner t !! v = None →
  (v ∉ vs → inner (encode_row vs row t) !! v = None) ∧
  (∀ j o, vs !! j = Some v → row !! j = Some o → inner (encode_row vs row t) !! v = ground_term_value <$> o).
Proof.
  revert row t; induction vs as [|w vs IH]; intros row t N Hv; [by split|].
  apply list.NoDup_cons in N as [Hw N]; destruct row as [|x row]; simpl; [by split|].
  set (t' := match x with Some value => tuple_set t w (ground_term_value value) | None => t end).
  destruct (decide (v = w)) as [->|Hne].
  - split; [set_solver|]; intros [|j] o Hj Ho; simpl in *; [|by apply list_elem_of_lookup_2 in Hj].
    injection Ho as ->; destruct o as [g|]; simpl in *; [|by apply IH].
    clear - Hw; revert row t t'; generalize (ground_term_value g) as y.
    assert (E : ∀ row t y, inner t !! w = Some y → inner (encode_row vs row t) !! w = Some y).
    { induction vs as [|u vs IH]; intros row t y Ht; [by destruct row|]; destruct row as [|x row]; simpl; [done|].
      apply IH; [set_solver|]; destruct x; simpl; [rewrite lookup_insert_ne; set_solver|done]. }
    intros y row t t'; apply E; simpl; apply lookup_insert_eq.
  - assert (Hv' : inner t' !! v = None) by (unfold t'; destruct x; simpl; [by rewrite lookup_insert_ne|done]).
    destruct (IH row t' N Hv') as [H1 H2]; split; [set_solver|].
    intros [|j] o Hj Ho; simpl in *; [congruence|by apply (H2 j)].
Qed.
Lemma values_sound {P : EvalParams} vs rows from types types' t :
  NoDup vs → values_types types 0 vs rows = Some types' → typed (inner from) types → t ∈ values_evaluator vs rows from →
  inner from ⊆ inner t ∧ graph_name t = graph_name from ∧ typed (inner t) types'.
Proof.
  intros N HT Hfrom (rt & (row & <- & Hrow%list_elem_of_In)%list_elem_of_In%in_map_iff & Hc)%list_elem_of_omap.
  pose proof (combine_with_spec _ _ _ Hc) as (_ & _ & Hg & Hsub & _); split; [done|]; split; [done|]; intros v.
  destruct (encode_row_spec vs row (mkTuple ∅ None) v N (lookup_empty v)) as [H1 H2].
  destruct (values_types_spec _ _ _ _ _ v N HT) as [[Hv ->]|(j & ty & Hj & -> & Hcol)].
  - destruct (combine_with_lookup _ _ _ v Hc) as [[-> _]|[E ->]]; [apply Hfrom|].
    rewrite H1 by done; specialize (Hfrom v); by rewrite E in Hfrom.
  - apply (combine_with_typed _ _ _ v _ _ Hc); [apply Hfrom|].
    apply column_type_spec in Hcol as [_ Hcol]; destruct (Hcol row Hrow) as (o & Ho & Hto).
    by rewrite (H2 j o).
Qed.

(** ** Patterns over the dataset *)

(** What the sort of [ORDER BY] promises. *)
Class EvalLaws (P : EvalParams) : Prop := {
  sort_tuples_perm (by_ : list OrderExpression) (l : list InternalTuple) : sort_tuples by_ l ≡ₚ l
}.

Section sound.
  Context {P : EvalParams} (iris : iri_graphs eval_dataset).

(** A solution extends its input, keeps its graph and has the types. *)
Definition solution (from : InternalTuple) (types : VariableTypes) (t : InternalTuple) : Prop :=
  inner from ⊆ inner t ∧ graph_name t = graph_name from ∧ typed (inner t) types.

Lemma put_extends_trans sel x from t t' :
  inner from ⊆ inner t ∧ graph_name t = graph_name from → put_pattern_value sel x t = Some t' →
  inner from ⊆ inner t' ∧ graph_name t' = graph_name from.
Proof. intros [??] [??]%put_extends; split; [by etrans|congruence]. Qed.

Lemma pattern_graph_quads g from o quad s p oo :
  pattern_graph g from = Some o → quad ∈ internal_quads_for_pattern eval_dataset s p oo o →
  from_option is_named_node True (iq_graph_name quad).
Proof. intros _ H; by apply internal_quads_typed in H as [_ H]; apply H. Qed.

Lemma quad_pattern_sound s p o g from types t :
  typed (inner from) types → t ∈ quad_pattern_evaluator s p o g from →
  solution from
    (let types := add_ground_term_pattern_types o (add_named_node_pattern_type p (add_ground_term_pattern_types s types false)) true in
     match g with Some p => add_named_node_pattern_type p types | None => types end) t.
Proof.
  intros Hfrom; unfold quad_pattern_evaluator.
  destruct (from_ground_term_pattern s) as [ss|] eqn:Es; simpl; [|set_solver].
  destruct (from_ground_term_pattern o) as [os|] eqn:Eo; simpl; [|set_solver].
  destruct (get_pattern_value ss from) as [vs|]; simpl; [|set_solver].
  destruct (get_pattern_value (from_named_node_pattern p) from) as [vp|]; simpl; [|set_solver].
  destruct (get_pattern_value os from) as [vo|]; simpl; [|set_solver].
  destruct (pattern_graph _ from) as [vg|]; simpl; [|set_solver].
  intros (quad & [[Hs Hp] Hg]%internal_quads_typed & Hput)%list_elem_of_omap; unfold put_quad in Hput.
  destruct (put_pattern_value ss _ from) as [t1|] eqn:E1; simpl in Hput; [|done].
  destruct (put_pattern_value _ _ t1) as [t2|] eqn:E2; simpl in Hput; [|done].
  destruct (put_pattern_value _ _ t2) as [t3|] eqn:E3; simpl in Hput; [|done].
  pose proof (put_extends _ _ _ _ E1) as X.
  apply (put_extends_trans _ _ _ _ _ X) in E2 as X2; apply (put_extends_trans _ _ _ _ _ X2) in E3 as X3.
  assert (H3 : typed (inner t3) (add_ground_term_pattern_types o (add_named_node_pattern_type p (add_ground_term_pattern_types s types false)) true)).
  { eapply put_ground_typed; [done|done|auto|]; eapply put_named_typed; [done|done|]; eapply put_ground_typed; eauto. }
  destruct g as [g|]; simpl in Hput; [|injection Hput as <-; by destruct X3].
  destruct (iq_graph_name quad) as [x|]; simpl in Hput; [|done].
  pose proof (put_extends_trans _ _ _ _ _ X3 Hput) as [??]; repeat split; [done|done|].
  eapply put_named_typed; [done| |done]; by apply Hg.
Qed.

Lemma path_sound s path o from types t :
  match s with GPVariable _ => starts_at_subject path | _ => true end = true →
  typed (inner from) types → t ∈ path_evaluator s path o from →
  solution from (add_ground_term_pattern_types o (add_ground_term_pattern_types s types false) true) t.
Proof.
  intros Hpath Hfrom; unfold path_evaluator.
  destruct (from_ground_term_pattern s) as [ss|] eqn:Es; simpl; [|set_solver].
  destruct (from_ground_term_pattern o) as [os|] eqn:Eo; simpl; [|set_solver].
  destruct (get_pattern_value ss from) as [vs|] eqn:Gs; simpl; [|set_solver].
  destruct (get_pattern_value os from) as [vo|] eqn:Go; simpl; [|set_solver].
  set (rel := path_relation eval_dataset (graph_name from) (encode_property_path path)).
  assert (Hfit : ∀ x y, rel x y → fits s false x).
  { intros x y R; destruct s; simpl; try done; intros _; by eapply path_start_subject. }
  destruct vs as [x|], vo as [y|]; simpl.
  - destruct (eval_closed _ _ _ x y) eqn:R; [|set_solver]; apply eval_closed_spec in R; intros ->%list_elem_of_singleton.
    repeat split; try done; eapply get_ground_typed; [done|done|auto|]; eapply get_ground_typed; eauto.
  - intros (y & R%eval_from_spec & Hput)%list_elem_of_omap; pose proof (put_extends _ _ _ _ Hput) as [??].
    repeat split; try done; eapply put_ground_typed; [done|done|auto|]; eapply get_ground_typed; eauto.
  - intros (x & R%eval_to_spec & Hput)%list_elem_of_omap; pose proof (put_extends _ _ _ _ Hput) as [Hsub ?].
    repeat split; try done.
    eapply get_ground_typed; [done|by eapply get_pattern_value_mono|auto|]; eapply put_ground_typed; eauto.
  - intros ([x y] & [R _]%eval_open_spec & Hput)%list_elem_of_omap; simpl in Hput.
    destruct (put_pattern_value ss x from) as [t1|] eqn:E1; simpl in Hput; [|done].
    pose proof (put_extends _ _ _ _ E1) as X; pose proof (put_extends_trans _ _ _ _ _ X Hput) as [??].
    repeat split; try done; eapply put_ground_typed; [done|done|auto|]; eapply put_ground_typed; eauto.
Qed.

End sound.

(** ** Expressions *)

Section expressions.
  Context {P : EvalParams}.

(** The expressions whose value has an effective boolean value when they have
    a value. *)
Definition boolean_valued (e : Expression) : bool :=
  match e with
  | EOr _ | EAnd _ | EExists _ | EBound _ => true
  | EFunctionCall name [_] => bool_decide (name = SPARQL_LOGICAL_NOT)
  | EFunctionCall name [_; _] => bool_decide (name ∈ [SPARQL_EQUALS; SPARQL_NOT_EQUALS; SPARQL_SAME_TERM])
  | _ => false
  end.
(** The functions the inference covers, with as many arguments as they take: those
    of the model, but for [UUID] and the others that compute with values. *)
Definition unary_names : list RdfNamedNode :=
  SPARQL <$> ["str"; "lang"; "langdir"; "encodeForUri"; "isIRI"; "isURI"; "isBlank"; "isLiteral"; "hasLang"; "hasLangdir"; "isTriple";
    "subject"; "predicate"; "object"]%string.
Definition binary_names : list RdfNamedNode :=
  SPARQL <$> ["greater-than"; "greater-than-or-equal"; "less-than"; "less-than-or-equal"; "langMatches"; "strstarts"; "strends";
    "contains"; "strbefore"; "strafter"; "strdt"]%string.
Definition supported_call (name : RdfNamedNode) (args : nat) : bool :=
  bool_decide (name = SPARQL "concat") ||
  match args with
  | 1%nat => bool_decide (name = SPARQL_LOGICAL_NOT) || bool_decide (name ∈ unary_names)
  | 2%nat => bool_decide (name ∈ [SPARQL_EQUALS; SPARQL_NOT_EQUALS; SPARQL_SAME_TERM]) || bool_decide (name ∈ binary_names)
  | 3%nat => bool_decide (name = SPARQL_TRIPLE)
  | _ => false
  end.
(** The expressions the inference covers: conditions are booleans. *)
Fixpoint typable_expression (e : Expression) : bool :=
  match e with
  | ENamedNode _ | ELiteral _ | EVariable _ | EBound _ | EExists _ => true
  | EOr l | EAnd l | ECoalesce l => forallb typable_expression l
  | EIf a b c => typable_expression a && boolean_valued a && typable_expression b && typable_expression c
  | EFunctionCall name args => supported_call name (length args) && forallb typable_expression args
  end.

Lemma boolean_term_value b : term_boolean_value (boolean_term b) = Some b.
Proof. by destruct b. Qed.
Lemma boolean_loop_spec stop error l : boolean_loop stop error l = None ∨ ∃ b, boolean_loop stop error l = Some (boolean_term b).
Proof.
  revert error; induction l as [|o l IH]; intros error; simpl; [destruct error; eauto|].
  destruct (o ≫= term_boolean_value); [case_bool_decide; eauto|apply IH].
Qed.
Lemma boolean_valued_spec e t x : boolean_valued e = true → eval_expression e t = Some x → is_Some (term_boolean_value x).
Proof.
  intros He Hx; assert (∃ b, x = boolean_term b) as [b ->]; [|rewrite boolean_term_value; eauto].
  destruct e as [| | |l|l|q|v| | |name args]; simpl in *; try done; try (injection Hx as <-; eauto).
  1,2: match type of Hx with boolean_loop ?a ?b ?l = _ => destruct (boolean_loop_spec a b l) as [E|[b' E]] end; rewrite E in Hx; naive_solver.
  destruct args as [|a [|b [|]]]; try done; simpl in Hx.
  - apply bool_decide_eq_true in He as ->; rewrite bool_decide_true in Hx by done.
    destruct (_ ≫= _); naive_solver.
  - apply bool_decide_eq_true in He; repeat case_bool_decide; try set_solver;
      repeat match type of Hx with context [?o ≫= _] => destruct o; simpl in Hx; [|done] end; try (injection Hx as <-; eauto; done);
      destruct (term_equals _ _); simpl in Hx; try done; injection Hx as <-; eauto.
Qed.

Lemma coalesce_typed ty l types :
  undef ty = true → Forall2 typed_value l types → typed_value (first_some l) (coalesce_type ty types).
Proof.
  intros Hu H; revert ty Hu; induction H as [|o t l types Ho _ IH]; intros ty Hu; simpl; [done|].
  destruct (undef t) eqn:Et; simpl.
  - destruct o as [x|]; simpl; [|apply IH; destruct ty, t; simpl in *; by rewrite Hu].
    assert (M : ∀ ty types, typed_value (Some x) ty → typed_value (Some x) (coalesce_type ty types)).
    { clear; intros ty types; revert ty; induction types as [|t types IH]; intros ty H; simpl; [done|].
      destruct (undef t); simpl; [by apply IH, typed_or_l|]; apply (typed_or_l _ _ t) in H; by destruct x, ty, t. }
    by apply M, typed_or_r.
  - destruct o as [x|]; [|simpl in Ho; congruence]; apply (typed_or_r _ ty) in Ho; by destruct x, ty, t.
Qed.

Lemma typed_boolean o b : (o = None ∨ ∃ b, o = Some (boolean_term b)) → literal b = true → undef b = true → typed_value o b.
Proof. by intros [->|[c ->]]. Qed.
Lemma call_type_literal name ts :
  name ∈ [SPARQL_LOGICAL_NOT; SPARQL_EQUALS; SPARQL_NOT_EQUALS] → call_type name ts = type_or TYPE_LITERAL TYPE_UNDEF.
Proof. rewrite !list.elem_of_cons; intros [->|[->|[->|H]]]; [vm_compute; reflexivity..|set_solver]. Qed.
Lemma call_type_same_term ts :
  call_type SPARQL_SAME_TERM ts = if existsb undef ts then type_or TYPE_LITERAL TYPE_UNDEF else TYPE_LITERAL.
Proof. vm_compute; reflexivity. Qed.

(** The functions of the tables: the inference gives a call of [name] one type,
    whatever the types of its arguments. *)
Definition result_type (name : RdfNamedNode) : VariableType :=
  if bool_decide (name = SPARQL "subject") then type_or TYPE_SUBJECT TYPE_UNDEF
  else if bool_decide (name = SPARQL "predicate") then type_or TYPE_NAMED_NODE TYPE_UNDEF
  else if bool_decide (name = SPARQL "object") then type_or TYPE_TERM TYPE_UNDEF
  else if bool_decide (name = SPARQL_TRIPLE) then type_or TYPE_TRIPLE TYPE_UNDEF
  else type_or TYPE_LITERAL TYPE_UNDEF.
Lemma call_result_type name ts :
  name ∈ SPARQL "concat" :: SPARQL_TRIPLE :: unary_functions.*1 ++ binary_functions.*1 → call_type name ts = result_type name.
Proof.
  unfold unary_functions, binary_functions; csimpl; rewrite !list.elem_of_cons; intros H.
  repeat (destruct H as [->|H]; [vm_compute; reflexivity|]); set_solver.
Qed.
Lemma result_type_undef name : undef (result_type name) = true.
Proof. unfold result_type; by repeat case_bool_decide. Qed.

(** The functions on strings and the tests give literals. *)
Definition literal_value (o : option RdfTerm) : Prop := match o with Some (TermLiteral _) | None => True | _ => False end.
Lemma literal_value_typed o : literal_value o → typed_value o (type_or TYPE_LITERAL TYPE_UNDEF).
Proof. by destruct o as [[]|]. Qed.
Lemma literal_value_bind {A} (o : option A) f : (∀ x, literal_value (f x)) → literal_value (o ≫= f).
Proof. by destruct o; simpl. Qed.
Lemma literal_value_fmap {A} (o : option A) f : (∀ x, literal_value (Some (f x))) → literal_value (f <$> o).
Proof. intros H; destruct o; [apply H|done]. Qed.
Ltac literal_cases :=
  repeat first
    [ done
    | apply literal_value_bind; intros ?
    | apply literal_value_fmap; intros ?
    | match goal with |- literal_value match ?x with _ => _ end => destruct x end
    | match goal with |- literal_value (Some match ?x with _ => _ end) => destruct x end ].
Lemma concat_literal args text language : literal_value (concat_loop args text language).
Proof. revert text language; induction args as [|a args IH]; intros text language; simpl; literal_cases; apply IH. Qed.

Lemma unary_typed : Forall (λ nf, ∀ x, typed_value (nf.2 x) (result_type nf.1)) unary_functions.
Proof.
  unfold unary_functions; repeat apply List.Forall_cons; simpl; try done; intros x;
    try (apply literal_value_typed; unfold str_function, lang_function, langdir_function, encode_for_uri, term_test; literal_cases).
  all: destruct x as [| | |[] p o]; try done; simpl; by destruct o.
Qed.
Lemma binary_typed : Forall (λ nf, ∀ x y, typed_value (nf.2 x y) (result_type nf.1)) binary_functions.
Proof.
  unfold binary_functions; repeat apply List.Forall_cons; simpl; try done; intros x y; apply literal_value_typed;
    unfold compare_terms, lang_matches, string_test, strbefore, strafter, strdt; literal_cases.
Qed.
Lemma find_function_elem {A} name (table : list (RdfNamedNode * A)) f : find_function name table = Some f → (name, f) ∈ table.
Proof. induction table as [|[n g] table IH]; simpl; [done|]; case_bool_decide; [intros [= <-]; subst; left|right; auto]. Qed.
Lemma find_function_name {A} name (table : list (RdfNamedNode * A)) : name ∈ table.*1 → is_Some (find_function name table).
Proof. induction table as [|[n g] table IH]; csimpl; [set_solver|]; case_bool_decide; [eauto|]; set_solver. Qed.

Lemma value_function_typed name vs ts :
  supported_call name (length vs) = true → name ∉ [SPARQL_LOGICAL_NOT; SPARQL_EQUALS; SPARQL_NOT_EQUALS; SPARQL_SAME_TERM] →
  typed_value (value_function name vs) (call_type name ts).
Proof.
  intros Hs Hn; unfold value_function, supported_call in *; rewrite !list.elem_of_cons in Hn.
  case_bool_decide as Hc; [subst; rewrite call_result_type by left; apply literal_value_typed, concat_literal|]; cbn [orb] in Hs.
  destruct vs as [|a [|b [|c [|]]]]; try done; cbn [length] in Hs.
  - assert (Hname : name ∈ unary_functions.*1) by (repeat case_bool_decide; naive_solver).
    destruct (find_function_name name unary_functions Hname) as [f Ef]; rewrite Ef.
    rewrite call_result_type by (rewrite !list.elem_of_cons, elem_of_app; auto).
    destruct a as [x|]; simpl; [|apply result_type_undef]. apply find_function_elem in Ef.
    pose proof unary_typed as H; rewrite list.Forall_forall in H; by apply (H (name, f)).
  - assert (Hname : name ∈ binary_functions.*1) by (repeat case_bool_decide; [set_solver..|done|done]).
    destruct (find_function_name name binary_functions Hname) as [f Ef]; rewrite Ef.
    rewrite call_result_type by (rewrite !list.elem_of_cons, elem_of_app; auto).
    destruct a as [x|], b as [y|]; simpl; try apply result_type_undef. apply find_function_elem in Ef.
    pose proof binary_typed as H; rewrite list.Forall_forall in H; by apply (H (name, f)).
  - apply bool_decide_eq_true in Hs as ->; rewrite bool_decide_true by done; rewrite call_result_type by (right; left).
    destruct a as [s|], b as [p|], c as [o|]; simpl; try reflexivity.
    by destruct s, p.
Qed.

Lemma apply_function_typed name vs ts :
  supported_call name (length vs) = true → Forall2 typed_value vs ts → typed_value (apply_function name vs) (call_type name ts).
Proof.
  intros Hs F; destruct (decide (name ∈ [SPARQL_LOGICAL_NOT; SPARQL_EQUALS; SPARQL_NOT_EQUALS; SPARQL_SAME_TERM])) as [Hn|Hn].
  - assert (Hlen : length vs = 1%nat ∧ name = SPARQL_LOGICAL_NOT ∨ length vs = 2%nat ∧ name ∈ [SPARQL_EQUALS; SPARQL_NOT_EQUALS; SPARQL_SAME_TERM]).
    { rewrite !list.elem_of_cons in Hn; destruct Hn as [->|[->|[->|[->|Hn]]]]; [..|set_solver];
        destruct vs as [|a [|b [|c [|]]]]; try discriminate Hs; cbn [length]; set_solver. }
    destruct Hlen as [[Hlen ->]|[Hlen Hname]].
    + destruct vs as [|a [|]]; try done; unfold apply_function; rewrite bool_decide_true by done.
      rewrite call_type_literal by set_solver; apply typed_boolean; [|done|done]; destruct (a ≫= _); simpl; eauto.
    + destruct vs as [|a [|b [|]]]; try done; inversion F as [|? ta ? ? Ha F1]; subst; inversion F1 as [|? tb ? ? Hb F2]; subst; inversion F2; subst.
      unfold apply_function; case_bool_decide as E1; [|case_bool_decide as E2].
      1,2: rewrite call_type_literal by set_solver; apply typed_boolean; try done; destruct a, b; simpl; auto; destruct (term_equals _ _); simpl; eauto.
      rewrite !list.elem_of_cons in Hname; destruct Hname as [?|[?|[->|?]]]; [done..| |set_solver].
      rewrite bool_decide_true by done; rewrite call_type_same_term; simpl.
      destruct a as [x|]; simpl in *; [|by rewrite Ha].
      destruct b as [y|]; simpl in *; [|by rewrite Hb, orb_true_r].
      by destruct (_ || _).
  - pose proof (value_function_typed name vs ts Hs Hn) as H; rewrite !list.elem_of_cons in Hn.
    unfold apply_function; destruct vs as [|a [|b [|]]]; try done; repeat (rewrite bool_decide_false by naive_solver); done.
Qed.
Lemma expression_typed e t types :
  typable_expression e = true → typed (inner t) types → typed_value (eval_expression e t) (infer_expression_type e types).
Proof.
  intros He Ht; revert He.
  assert (F : ∀ l, Forall (λ e, typable_expression e = true → typed_value (eval_expression e t) (infer_expression_type e types)) l →
    forallb typable_expression l = true → Forall2 typed_value (map (λ e, eval_expression e t) l) (map (λ e, infer_expression_type e types) l)).
  { induction 1 as [|e' l He' _ IH]; simpl; [constructor|]; intros [??]%andb_true_iff; constructor; auto. }
  induction e as [| |v|l IH|l IH|q|v|a b c IHa IHb IHc|l IH|name args IH] using Expression_induction; cbn [eval_expression infer_expression_type typable_expression]; try done.
  - intros _; apply typed_boolean; [apply boolean_loop_spec|done|done].
  - intros _; apply typed_boolean; [apply boolean_loop_spec|done|done].
  - intros [[[Ha Hba]%andb_true_iff Hb]%andb_true_iff Hc]%andb_true_iff; specialize (IHa Ha); specialize (IHb Hb); specialize (IHc Hc).
    destruct (eval_expression a t) as [x|] eqn:Ea; simpl.
    + destruct (boolean_valued_spec a t x Hba Ea) as [[] ->]; destruct (undef (infer_expression_type a types));
        [apply typed_set_undef| |apply typed_set_undef|]; by (apply typed_or_l + apply typed_or_r).
    + simpl in IHa; by rewrite IHa.
  - intros H; by apply coalesce_typed, F.
  - intros [Hs Hl]%andb_true_iff; specialize (F _ IH Hl); clear IH Hl.
    apply apply_function_typed; [by rewrite length_map|done].
Qed.
End expressions.

(** ** The solutions of each operator *)

Section operators.
  Context {P : EvalParams}.

Lemma elem_of_hash_join keys built probed t :
  t ∈ hash_join keys built probed → ∃ tb tp, tb ∈ built ∧ tp ∈ probed ∧ combine_with tp tb = Some t.
Proof.
  unfold hash_join, set_get; destruct keys as [|k keys]; intros (tp & Hp & H)%elem_of_concat_map.
  - apply list_elem_of_omap in H as (tb & Hb & H); eauto.
  - apply list_elem_of_In, in_rev, list_elem_of_In, list_elem_of_omap in H as (tb & [_ Hb]%list_elem_of_filter & H); eauto.
Qed.
Lemma elem_of_left_join left right h algorithm from t :
  t ∈ left_join_evaluator left right h algorithm from →
  t ∈ left from ∨ ∃ tl tr, tl ∈ left from ∧ tr ∈ right from ∧ combine_with tl tr = Some t ∧ h t = true.
Proof.
  destruct algorithm as [keys]; unfold left_join_evaluator, set_get; intros (tl & Hl & H)%elem_of_concat_map.
  destruct (filter h _) as [|x l] eqn:E; [apply list_elem_of_singleton in H as ->; by left|].
  apply list_elem_of_In, in_rev, list_elem_of_In in H; rewrite <- E in H.
  apply list_elem_of_filter in H as [Hh (tr & [_ Hr]%list_elem_of_filter & H)%list_elem_of_omap].
  apply Is_true_true in Hh; right; eauto 8.
Qed.
Lemma elem_of_for_loop left right h from t :
  t ∈ for_loop_left_join left right h from → t ∈ left from ∨ ∃ tl, tl ∈ left from ∧ t ∈ right tl ∧ h t = true.
Proof.
  unfold for_loop_left_join; intros (tl & Hl & H)%elem_of_concat_map.
  destruct (filter h _) as [|x l] eqn:E; [apply list_elem_of_singleton in H as ->; by left|].
  rewrite <- E in H; apply list_elem_of_filter in H as [Hh%Is_true_true H]; eauto.
Qed.
Lemma elem_of_distinct seen l t : t ∈ distinct_tuples seen l → t ∈ l.
Proof. revert seen; induction l as [|x l IH]; intros seen; simpl; [done|]; case_decide; [intros ?%IH; by right|]; set_solver. Qed.
Lemma elem_of_consecutive current l t : t ∈ consecutive_deduplication current l → current = Some t ∨ t ∈ l.
Proof.
  revert current; induction l as [|x l IH]; intros current; simpl; [destruct current; set_solver|].
  destruct current as [c|]; [case_decide|]; try (intros [[= ->]|?]%IH; right; set_solver).
  intros [->|Hx]%list.elem_of_cons; [by left|]; apply IH in Hx as [[= ->]|?]; right; set_solver.
Qed.
Lemma elem_of_slice child offset limit from t : t ∈ slice_evaluator child offset limit from → t ∈ child from.
Proof.
  assert (Hd : ∀ n, t ∈ drop n (child from) → t ∈ child from) by (intros n; rewrite <- (take_drop n (child from)) at 2; set_solver).
  unfold slice_evaluator; destruct limit as [n|]; [|apply Hd]; intros H; apply (Hd (Z.to_nat offset)).
  rewrite <- (take_drop (Z.to_nat n) (drop _ _)); set_solver.
Qed.
Lemma eval_empty_singleton q t : is_empty_singleton q = true → eval q t = [t].
Proof.
  destruct q as [| | | | | | | | | |vs rows| | | | | | |]; try done; simpl; intros [Hl Hr]%andb_true_iff.
  destruct rows as [|row [|]]; try done; simpl in Hr; rewrite andb_true_r in Hr; clear Hl.
  assert (E : encode_row vs row (mkTuple ∅ None) = mkTuple ∅ None).
  { revert row Hr; induction vs as [|v vs IH]; intros [|[] row]; simpl; try done; apply IH. }
  unfold values_evaluator; simpl; rewrite E; unfold combine_with.
  rewrite decide_True by (intros v x _; simpl; rewrite lookup_empty; done); simpl.
  rewrite map_union_empty; destruct t; reflexivity.
Qed.

(** Projection: the input tuple with the projected variables of a solution. *)
Lemma project_output_spec from vs t out :
  project_output from vs t = Some out →
  inner from ⊆ inner out ∧ graph_name out = graph_name from ∧
  ∀ v, inner out !! v = match inner from !! v with Some x => Some x | None => if decide (v ∈ vs) then inner t !! v else None end.
Proof.
  unfold project_output; assert (N : ∀ l, foldl (project_step t) None l = None) by (induction l; done).
  revert from; induction vs as [|w vs IH]; simpl; intros from H.
  - injection H as <-; repeat split; intros v; by destruct (inner from !! v).
  - destruct (inner t !! w) as [x|] eqn:Et.
    + destruct (inner from !! w) as [y|] eqn:Ef; [case_decide; [|by rewrite N in H]; subst y|].
      * apply IH in H as (H1 & H2 & H3); repeat split; try done; intros v; rewrite H3.
        destruct (inner from !! v) eqn:Ev; [done|]; destruct (decide (v = w)) as [->|]; [congruence|].
        destruct (decide (v ∈ vs)), (decide (v ∈ w :: vs)); set_solver.
      * apply IH in H as (H1 & H2 & H3); simpl in *; repeat split; [etrans; [by apply insert_subseteq|done]|done|].
        intros v; rewrite H3; destruct (decide (v = w)) as [->|Hne].
        { rewrite lookup_insert_eq, Ef, decide_True by set_solver; done. }
        rewrite lookup_insert_ne by done; destruct (inner from !! v); [done|].
        destruct (decide (v ∈ vs)), (decide (v ∈ w :: vs)); set_solver.
    + apply IH in H as (H1 & H2 & H3); repeat split; try done; intros v; rewrite H3.
      destruct (inner from !! v); [done|]; destruct (decide (v = w)) as [->|].
      { rewrite Et; by destruct (decide (w ∈ vs)), (decide (w ∈ w :: vs)). }
      destruct (decide (v ∈ vs)), (decide (v ∈ w :: vs)); set_solver.
Qed.

(** Grouping: the keys of a solution and the aggregates. *)
Lemma group_keys_spec vs l key : key ∈ group_keys vs l → ∃ f, key = map f vs ∧ (vs = [] ∨ ∃ t, t ∈ l ∧ f = λ v, inner t !! v).
Proof.
  unfold group_keys; destruct vs as [|v vs]; [intros ->%list_elem_of_singleton; exists (λ _, None); eauto|].
  rewrite elem_of_hash_deduplicate; intros [(t & <- & Ht%list_elem_of_In)%list_elem_of_In%in_map_iff _].
  exists (λ v, inner t !! v); split; [done|]; right; eauto.
Qed.
Lemma group_base_lookup vs (f : VariableName -> option RdfTerm) t v :
  inner (foldl (λ t vx, match vx.2 with Some x => tuple_set t vx.1 x | None => t end) t (zip vs (map f vs))) !! v =
  if decide (v ∈ vs) then match f v with Some x => Some x | None => inner t !! v end else inner t !! v.
Proof.
  revert t; induction vs as [|w vs IH]; intros t; simpl; [done|]; rewrite IH; destruct (decide (v = w)) as [->|Hne].
  - rewrite (decide_True (P := w ∈ w :: vs)) by set_solver; destruct (f w); simpl; rewrite ?lookup_insert_eq; by case_decide.
  - assert (E : inner (match f w with Some x => tuple_set t w x | None => t end) !! v = inner t !! v)
      by (destruct (f w); simpl; by rewrite ?lookup_insert_ne).
    rewrite E; destruct (decide (v ∈ vs)), (decide (v ∈ w :: vs)); set_solver.
Qed.
Lemma group_aggregates_lookup group (aggs : list (VariableName * AggregateExpression)) t v :
  v ∉ aggs.*1 →
  inner (foldl (λ t va, match aggregate va.2 group with Some x => tuple_set t va.1 x | None => t end) t aggs) !! v = inner t !! v.
Proof.
  revert t; induction aggs as [|[w a] aggs IH]; intros t Hv; simpl; [done|].
  rewrite IH by set_solver; destruct (aggregate a group); simpl; [rewrite lookup_insert_ne; set_solver|done].
Qed.
Lemma group_result_lookup vs aggs l f v :
  v ∉ aggs.*1 → inner (group_result vs aggs l (map f vs)) !! v = if decide (v ∈ vs) then f v else None.
Proof.
  intros Hv; unfold group_result; rewrite group_aggregates_lookup; [|done].
  rewrite group_base_lookup; simpl; rewrite lookup_empty; case_decide; [by destruct (f v)|done].
Qed.
Lemma types_get_aggregates types (aggs : list (VariableName * AggregateExpression)) v :
  types_get (foldl (λ types va, <[va.1 := TYPE_ANY]> types) types aggs) v = if decide (v ∈ aggs.*1) then TYPE_ANY else types_get types v.
Proof.
  revert types; induction aggs as [|[w a] aggs IH]; intros types; [done|]; cbn [foldl fst]; rewrite IH, types_get_insert.
  rewrite fmap_cons; simpl; repeat case_decide; try done; exfalso; set_solver.
Qed.
End operators.

(** ** The queries the inference covers *)

Definition unbound (types : VariableTypes) : bool := bool_decide (map_Forall (fun _ t => t = TYPE_UNDEF) types).
Definition type_le (a b : VariableType) : bool :=
  implb (undef a) (undef b) && implb (named_node a) (named_node b) && implb (blank_node a) (blank_node b)
  && implb (literal a) (literal b) && implb (triple a) (triple b).
Definition with_types {A : Type} (types : option VariableTypes) (none : A) (f : VariableTypes -> A) : A :=
  match types with Some types => f types | None => none end.

(** An extension binds a variable that is not bound, a projection or a grouping
    is not under bindings of a lateral join, and there is no service. *)
Fixpoint typable (e : QueryExpression) (types : VariableTypes) : bool :=
  match e with
  | QQuadPattern _ _ _ _ => true
  | QValues variables _ => bool_decide (NoDup variables)
  | QPath subject path _ => match subject with GPVariable _ => starts_at_subject path | _ => true end
  | QGraph _ inner | QFilter _ inner | QDistinct inner | QReduced inner | QOrderBy inner _ | QSlice inner _ _ => typable inner types
  | QJoin l r _ | QLeftJoin l r _ _ | QMinus l r _ => typable l types && typable r types
  | QLateral l r => typable l types && with_types (infer_query_expression_types l types) false (fun lt => typable r lt)
  | QUnion children => forallb (fun c => typable c types) children
  | QExtend inner v expression =>
      typable inner types && typable_expression expression
      && with_types (infer_query_expression_types inner types) false (fun it => bool_decide (types_get it v = TYPE_UNDEF))
  | QProject inner _ => unbound types && typable inner types
  | QGroup inner variables _ =>
      unbound types && typable inner types
      && with_types (infer_query_expression_types inner types) false (fun t1 =>
           with_types (infer_query_expression_types inner t1) false (fun t2 =>
             forallb (fun v => type_le (types_get t1 v) (types_get t2 v)) variables))
  | QService _ _ _ => false
  end.

Lemma typed_unbound m types : unbound types = true → typed m types → m = ∅.
Proof.
  intros U H; apply map_empty; intros v; apply typed_undef; specialize (H v); unfold types_get in H.
  destruct (types !! v) eqn:E; [|done]; apply bool_decide_eq_true in U; specialize (U v _ E); simpl in *; by subst.
Qed.
Lemma typed_le o a b : type_le a b = true → typed_value o a → typed_value o b.
Proof.
  destruct a as [a1 a2 a3 a4 a5], b as [b1 b2 b3 b4 b5]; unfold type_le; simpl.
  intros [[[[H1 H2]%andb_true_iff H3]%andb_true_iff H4]%andb_true_iff H5]%andb_true_iff.
  destruct o as [[]|]; simpl; intros ->; by simpl in *.
Qed.

(** ** Soundness *)

Section soundness.
  Context {P : EvalParams} {L : EvalLaws P} (iris : iri_graphs eval_dataset).

(** The solutions of an expression on an input that has the types. *)
Definition sound_on (q : QueryExpression) : Prop := ∀ types types' from t,
  typable q types = true → infer_query_expression_types q types = Some types' → typed (inner from) types →
  t ∈ eval q from → inner from ⊆ inner t ∧ typed (inner t) types'.

Lemma bind_some {A B : Type} (o : option A) (f : A -> option B) b : o ≫= f = Some b → ∃ a, o = Some a ∧ f a = Some b.
Proof. destruct o; [eauto|done]. Qed.
Lemma with_types_true types f : with_types types false f = true → ∃ ts, types = Some ts ∧ f ts = true.
Proof. destruct types; [eauto|done]. Qed.

(** A tuple that extends one with the types of the left of an optional part. *)
Lemma typed_extension m m' A B :
  m ⊆ m' → typed m A → typed m' B → typed m' (intersect_with A B).
Proof.
  intros Hsub Ha Hb v; rewrite types_get_intersect; specialize (Ha v); specialize (Hb v).
  destruct (m !! v) as [x|] eqn:E; [|by apply typed_and_r].
  rewrite (lookup_weaken _ _ _ _ E Hsub) in Hb |- *; by apply typed_and.
Qed.
Lemma typed_optional_none m A B : typed m A → typed m (intersect_with A (set_undef <$> B)).
Proof. intros Ha v; rewrite types_get_intersect, types_get_set_undef; apply typed_and_l; [apply Ha|by destruct (types_get B v)]. Qed.
Lemma typed_optional m B : typed m B → typed m (set_undef <$> B).
Proof. intros H v; rewrite types_get_set_undef; by apply typed_set_undef. Qed.

Lemma graph_sound g q : sound_on q → sound_on (QGraph g q).
Proof.
  intros IH types types' from t Hq HT Hfrom Ht; simpl in Hq, HT, Ht.
  apply bind_some in HT as (ts & HT & [= <-]); unfold graph_evaluator in Ht.
  destruct (get_pattern_value _ from) as [[x|]|] eqn:Eg; [| |set_solver].
  - destruct (contains_internal_graph_name _ x) eqn:Hc; [|set_solver].
    apply list_elem_of_fmap in Ht as (t' & -> & Ht); destruct (IH types ts (with_graph from (Some x)) t' Hq HT Hfrom Ht) as [Hsub Htt]; simpl.
    split; [done|]; apply contains_graph_spec, (named_graph_iri _ _ iris) in Hc.
    apply (get_named_typed _ t' x); [|done|done]; by apply (get_pattern_value_mono _ from).
  - apply elem_of_concat_map in Ht as (x & Hx & (t' & Ht & Hput)%list_elem_of_omap).
    destruct (put_pattern_value _ x t') as [t2|] eqn:E; [|done]; injection Hput as <-; simpl.
    destruct (IH types ts (with_graph from (Some x)) t' Hq HT Hfrom Ht) as [Hsub Htt]; apply (named_graph_iri _ _ iris) in Hx.
    split; [etrans; [exact Hsub|apply (put_extends _ _ _ _ E)]|by eapply put_named_typed].
Qed.
Lemma join_sound l r a : sound_on l → sound_on r → sound_on (QJoin l r a).
Proof.
  intros IHl IHr types types' from t Hq HT Hfrom Ht; simpl in Hq, HT, Ht; apply andb_true_iff in Hq as [Hl Hr].
  apply bind_some in HT as (tl & HTl & (tr & HTr & [= <-])%bind_some).
  assert (Hs : ∀ q, typable q types = true → is_variable_service q = false) by (by destruct q).
  unfold join_evaluator in Ht; rewrite (Hs l), (Hs r) in Ht by done; destruct a as [keys].
  apply elem_of_hash_join in Ht as (b & p & Hb & Hp & H).
  destruct (IHl _ _ _ _ Hl HTl Hfrom Hb) as [Hsb Htb], (IHr _ _ _ _ Hr HTr Hfrom Hp) as [Hsp Htp].
  split; [|by eapply typed_combine_flip]; apply combine_with_spec in H as (_ & _ & _ & H & _); by etrans.
Qed.
Lemma left_join_sound l r e a : sound_on l → sound_on r → sound_on (QLeftJoin l r e a).
Proof.
  intros IHl IHr types types' from t Hq HT Hfrom Ht; simpl in Hq, HT, Ht; apply andb_true_iff in Hq as [Hl Hr].
  apply bind_some in HT as (ts_r & HTr & (ts_l & HTl & [= <-])%bind_some).
  apply elem_of_left_join in Ht as [Ht|(x & y & Hx & Hy & H & _)].
  - destruct (IHl _ _ _ _ Hl HTl Hfrom Ht); split; [done|by apply typed_optional_none].
  - destruct (IHl _ _ _ _ Hl HTl Hfrom Hx) as [Hsx Htx], (IHr _ _ _ _ Hr HTr Hfrom Hy) as [Hsy Hty].
    split; [apply combine_with_spec in H as (_ & _ & _ & H & _); etrans; [exact Hsx|done]|].
    eapply typed_combine; [done|done|by apply typed_optional].
Qed.
Lemma lateral_sound l r :
  sound_on l → sound_on r → match r with QLeftJoin rl rr _ _ => sound_on rl ∧ sound_on rr | _ => True end → sound_on (QLateral l r).
Proof.
  intros IHl IHr IHo types types' from t Hq HT Hfrom Ht; simpl in Hq, HT; apply andb_true_iff in Hq as [Hl Hr].
  apply bind_some in HT as (ts & HTl & HTr); rewrite HTl in Hr; simpl in Hr.
  assert (Step : t ∈ lateral_evaluator (eval l) (eval r) from → inner from ⊆ inner t ∧ typed (inner t) types').
  { intros (tl & Htl & Htr)%elem_of_concat_map; destruct (IHl _ _ _ _ Hl HTl Hfrom Htl) as [Hs Htt].
    destruct (IHr _ _ _ _ Hr HTr Htt Htr) as [Hs2 Ht2]; split; [by etrans|done]. }
  simpl in Ht; destruct r as [| | | |rl rr e a| | | | | | | | | | | | |]; try (by apply Step).
  destruct (is_empty_singleton rl) eqn:Es; [|by apply Step]; clear Step; destruct IHo as [IHo1 IHo2].
  simpl in Hr, HTr; apply andb_true_iff in Hr as [Hrl Hrr]; apply bind_some in HTr as (tsr & HTr & (tsl & HTrl & [= <-])%bind_some).
  assert (Hbase : ∀ tl, tl ∈ eval l from → inner from ⊆ inner tl ∧ typed (inner tl) ts ∧ typed (inner tl) tsl).
  { intros tl Htl; destruct (IHl _ _ _ _ Hl HTl Hfrom Htl) as [Hs Htt]; repeat split; try done.
    apply (IHo1 _ _ tl tl Hrl HTrl Htt); rewrite eval_empty_singleton by done; by left. }
  apply elem_of_for_loop in Ht as [Ht|(tl & Htl & Ht & _)].
  - destruct (Hbase t Ht) as (? & ? & ?); split; [done|by apply typed_optional_none].
  - destruct (Hbase tl Htl) as (Hs & Htt & Hts), (IHo2 _ _ _ _ Hrr HTr Htt Ht) as [Hs2 Ht2].
    split; [by etrans|]; eapply typed_extension; [done|done|by apply typed_optional].
Qed.
Lemma union_types_spec (all : list VariableTypes) o ts v :
  ts ∈ all → typed_value o (types_get ts v) →
  typed_value o (types_get (match all with [] => ∅ | t :: all => foldl union_with t all end) v).
Proof.
  assert (G : ∀ all t, typed_value o (types_get t v) → typed_value o (types_get (foldl union_with t all) v)).
  { induction all0 as [|u all' IH]; intros t Ht; simpl; [done|]; apply IH; rewrite types_get_union; by apply typed_or_l. }
  destruct all as [|t all]; [set_solver|]; intros [->|Hts]%list.elem_of_cons Ho; [by apply G|].
  revert t; induction all as [|u all IH]; intros t; [set_solver|]; simpl.
  apply list.elem_of_cons in Hts as [->|Hts]; [|by apply IH]; apply G; rewrite types_get_union; by apply typed_or_r.
Qed.
Lemma union_sound l : Forall sound_on l → sound_on (QUnion l).
Proof.
  intros IH types types' from t Hq HT Hfrom Ht; simpl in Hq, HT, Ht.
  apply bind_some in HT as (all & HT & [= <-]); apply elem_of_concat_map in Ht as (c & Hc & Ht).
  apply mapM_Some in HT; rewrite forallb_forall in Hq.
  apply list_elem_of_lookup in Hc as (i & Hi); destruct (Forall2_lookup_l _ _ _ _ _ HT Hi) as (ts & Hts & HTc).
  pose proof (Forall_lookup_1 _ _ _ _ IH Hi) as IHc.
  destruct (IHc types ts from t) as [Hsub Htt]; [|done|done|done|].
  { apply Hq, list_elem_of_In; by eapply list_elem_of_lookup_2. }
  split; [done|]; intros v; eapply union_types_spec; [by eapply list_elem_of_lookup_2|apply Htt].
Qed.
Lemma extend_sound q v e : sound_on q → sound_on (QExtend q v e).
Proof.
  intros IH types types' from t Hq HT Hfrom Ht; simpl in Hq, HT, Ht.
  apply andb_true_iff in Hq as [[Hq He]%andb_true_iff Hv]; apply bind_some in HT as (ts & HT & [= <-]).
  rewrite HT in Hv; apply bool_decide_eq_true in Hv; apply list_elem_of_fmap in Ht as (t' & -> & Ht).
  destruct (IH _ _ _ _ Hq HT Hfrom Ht) as [Hsub Htt].
  assert (N : inner t' !! v = None) by (apply typed_undef; specialize (Htt v); by rewrite Hv in Htt).
  pose proof (expression_typed e t' ts He Htt) as Hx; destruct (eval_expression e t') as [x|]; simpl.
  - split; [etrans; [exact Hsub|by apply insert_subseteq]|by apply typed_set].
  - split; [done|]; apply typed_intersect_variable; [done|by rewrite N].
Qed.
Lemma project_sound q vs : sound_on q → sound_on (QProject q vs).
Proof.
  intros IH types types' from t Hq HT Hfrom Ht; simpl in Hq, HT, Ht; apply andb_true_iff in Hq as [Hu Hq].
  apply bind_some in HT as (ts & HT & [= <-]); pose proof (typed_unbound _ _ Hu Hfrom) as E.
  apply list_elem_of_omap in Ht as (t' & Ht & Hout); apply project_output_spec in Hout as (Hsub & _ & Hv).
  split; [done|]; rewrite E in Ht, Hv; rewrite map_filter_empty in Ht; intros v.
  rewrite Hv, lookup_empty, types_get_keep; case_decide; [|done].
  assert (Ht' : t' ∈ eval q from) by (rewrite <- E in Ht; by destruct from).
  by apply (IH _ _ _ _ Hq HT Hfrom Ht').
Qed.
Lemma group_sound q vs aggs : sound_on q → sound_on (QGroup q vs aggs).
Proof.
  intros IH types types' from t Hq HT Hfrom Ht; simpl in Hq, HT, Ht.
  apply andb_true_iff in Hq as [[Hu Hq]%andb_true_iff Hle].
  apply bind_some in HT as (t1 & HT1 & (t2 & HT2 & [= <-])%bind_some); rewrite HT1 in Hle; simpl in Hle; rewrite HT2 in Hle.
  rewrite (typed_unbound _ _ Hu Hfrom); split; [apply map_empty_subseteq|].
  unfold group_evaluator in Ht; apply list_elem_of_In, in_map_iff in Ht as (key & <- & Hk%list_elem_of_In).
  apply group_keys_spec in Hk as (f & -> & Hf); intros v; rewrite types_get_aggregates.
  case_decide as Ha; [apply typed_any|]; rewrite group_result_lookup, types_get_keep by done.
  case_decide as Hv; [|done]; destruct Hf as [->|(t' & Ht' & ->)]; [set_solver|].
  simpl in Hle; rewrite forallb_forall in Hle; eapply typed_le; [by apply Hle, list_elem_of_In|].
  by apply (IH _ _ _ _ Hq HT1 Hfrom Ht').
Qed.

(** Every expression the inference covers is sound. *)
Lemma eval_typed (e : QueryExpression) : sound_on e.
Proof.
  induction e using QueryExpression_induction;
    auto using graph_sound, join_sound, left_join_sound, lateral_sound, union_sound, extend_sound, project_sound, group_sound;
    intros types types' from t Hq HT Hfrom Ht; simpl in Hq, HT, Ht.
  - injection HT as <-; by destruct (quad_pattern_sound iris _ _ _ _ _ _ _ Hfrom Ht) as (? & _ & ?).
  - injection HT as <-; by destruct (path_sound iris _ _ _ _ _ _ Hq Hfrom Ht) as (? & _ & ?).
  - apply list_elem_of_filter in Ht as [_ Ht]; by apply (IHe types).
  - apply andb_true_iff in Hq as [Hq _]; destruct a as [keys]; apply list_elem_of_filter in Ht as [_ Ht]; by apply (IHe1 types).
  - apply bool_decide_eq_true in Hq; by destruct (values_sound _ _ _ _ _ _ Hq HT Hfrom Ht) as (? & _ & ?).
  - rewrite sort_tuples_perm in Ht; by apply (IHe types).
  - apply elem_of_distinct in Ht; by apply (IHe types).
  - apply elem_of_consecutive in Ht as [|Ht]; [done|]; by apply (IHe types).
  - apply elem_of_slice in Ht; by apply (IHe types).
  - done.
Qed.

(** C22.  Type inference is sound: for an expression it covers, on an input with
    the given types, every solution extends the input and gives every variable
    a value, or no value, of a kind that the inferred types allow.  The named
    graphs are named by IRIs, the conditions are booleans, the functions are those
    of the model ([supported_call]; nothing is asked of the others), and the sort
    of ORDER BY permutes its input. *)
Theorem infer_query_expression_types_sound (e : QueryExpression) (types types' : VariableTypes) (from t : InternalTuple) :
  typable e types = true → infer_query_expression_types e types = Some types' → typed (inner from) types → t ∈ eval e from →
  inner from ⊆ inner t ∧ typed (inner t) types'.
Proof. apply eval_typed. Qed.
End soundness.

(** ** Examples *)

Section examples.
Definition example_iri (s : string) : RdfNamedNode := mkNamedNode (str s).
Definition example_integer (s : string) : RdfLiteral := TypedLiteral (str s) (XSD "integer").
Definition example_quad (s p : string) (o : RdfTerm) (g : RdfGraphName) : RdfQuad := mkQuad (NodeNamed (example_iri s)) (example_iri p) o g.
(** Two quads in the default graph and one in a named graph. *)
Definition example_dataset : EvalDataset :=
  mkEvalDataset
    [example_quad "a" "p" (TermLiteral (example_integer "1")) GraphDefault;
     example_quad "a" "q" (TermNamedNode (example_iri "b")) GraphDefault;
     example_quad "c" "r" (TermNamedNode (example_iri "d")) (GraphNamedNode (example_iri "g"))]
    [NodeNamed (example_iri "g")] (Some [None]) None false (fun _ n => n).
Definition example_params : EvalParams := {|
  eval_dataset := example_dataset;
  tuple_hash _ := 0;
  term_equals a b := Some (bool_decide (a = b));
  term_partial_cmp _ _ := None;
  numeric_boolean_value _ := None;
  call_function _ _ := None;
  aggregate _ _ := None;
  sort_tuples _ l := l;
  evaluate_service _ _ _ _ := []
|}.
#[local] Existing Instance example_params.
Lemma example_laws : EvalLaws example_params.
Proof. by split. Qed.

(** The tuple without bindings. *)
Definition empty_tuple : InternalTuple := mkTuple ∅ None.
Definition example_pattern (p v : string) : QueryExpression :=
  QQuadPattern (GPVariable (str "s")) (PatternNamedNode (example_iri p)) (GPVariable (str v)) None.
Definition example_query : QueryExpression :=
  QProject
    (QExtend (QFilter (EBound (str "o")) (QJoin (example_pattern "p" "o") (example_pattern "q" "x") (HashBuildLeftProbeRight [str "s"])))
       (str "b") (EIf (EBound (str "x")) (EFunctionCall (SPARQL "str") [EVariable (str "o")]) (ENamedNode (example_iri "none"))))
    [str "s"; str "b"].
Lemma infer_query_expression_types_sound_witness :
  length (eval example_query empty_tuple) = 1%nat ∧
  ∀ t, t ∈ eval example_query empty_tuple →
    inner empty_tuple ⊆ inner t ∧ typed (inner t) (default ∅ (infer_query_expression_types example_query ∅)).
Proof.
  split; [vm_compute; reflexivity|]; intros t Ht.
  apply (infer_query_expression_types_sound (L := example_laws)) with (e := example_query) (types := ∅).
  - split; [|split]; repeat constructor.
  - vm_compute; reflexivity.
  - vm_compute; reflexivity.
  - by apply typed_empty.
  - exact Ht.
Defined.

(** The start of an inverse path is the object of a quad, a literal here, but
    its variable is typed as a subject; then [=] is replaced with [sameTerm]. *)
Lemma path_subject_type_unsound :
  let q := QPath (GPVariable (str "s")) (PathInv (PathLink (example_iri "p"))) (GPVariable (str "o")) in
  (∃ t, t ∈ eval q empty_tuple ∧ inner t !! str "s" = Some (TermLiteral (example_integer "1"))) ∧
  literal (types_get (default ∅ (infer_query_expression_types q ∅)) (str "s")) = false.
Proof.
  split; [|vm_compute; reflexivity].
  eexists (mkTuple {[ str "s" := TermLiteral (example_integer "1"); str "o" := TermNamedNode (example_iri "a") ]} None).
  split; [|vm_compute; reflexivity].
  apply (bool_decide_unpack _); vm_compute; reflexivity.
Qed.

(** A variable for the graph is typed as an IRI; the name of a graph can be a blank
    node. *)
Lemma graph_type_unsound :
  let graph := BlankNamed (str "g") in
  let dataset := mkEvalDataset [example_quad "a" "p" (TermNamedNode (example_iri "b")) (GraphBlankNode graph)] [NodeBlank graph]
    (Some [None]) None false (fun _ n => n) in
  let params : EvalParams := {| eval_dataset := dataset; tuple_hash _ := 0; term_equals _ _ := None; term_partial_cmp _ _ := None;
    numeric_boolean_value _ := None; call_function _ _ := None; aggregate _ _ := None; sort_tuples _ l := l;
    evaluate_service _ _ _ _ := [] |} in
  let q := QQuadPattern (GPVariable (str "s")) (PatternNamedNode (example_iri "p")) (GPVariable (str "o")) (Some (PatternVariable (str "g"))) in
  (∃ t, eval (P := params) q empty_tuple = [t] ∧ inner t !! str "g" = Some (TermBlankNode graph)) ∧
  types_get (default ∅ (infer_query_expression_types q ∅)) (str "g") = TYPE_NAMED_NODE.
Proof. split; [eexists; split; vm_compute; reflexivity|vm_compute; reflexivity]. Qed.

(** A condition without effective boolean value leaves the variable of an
    extension unbound, but its type says it is bound: [BOUND] is replaced with
    true. *)
Lemma if_type_unsound :
  let q := QExtend (example_pattern "q" "x") (str "b") (EIf (EVariable (str "x")) (ELiteral (LiteralString [])) (ELiteral (LiteralString []))) in
  (∃ t, eval q empty_tuple = [t] ∧ inner t !! str "b" = None) ∧
  undef (types_get (default ∅ (infer_query_expression_types q ∅)) (str "b")) = false.
Proof. split; [eexists; split; vm_compute; reflexivity|vm_compute; reflexivity]. Qed.

(** The types of a group are inferred twice, the second time from the result of
    the first: a variable bound by one side of a join counts as bound in an
    extension of the other side. *)
Lemma group_type_unsound :
  let q := QGroup (QJoin (example_pattern "p" "o") (QExtend (QValues [] [[]]) (str "b") (EVariable (str "o"))) (HashBuildLeftProbeRight []))
             [str "b"] [] in
  (∃ t, eval q empty_tuple = [t] ∧ inner t !! str "b" = None) ∧
  undef (types_get (default ∅ (infer_query_expression_types q ∅)) (str "b")) = false.
Proof. split; [eexists; split; vm_compute; reflexivity|vm_compute; reflexivity]. Qed.

(** A projection under a lateral join forgets the types of the variables of the
    left side, which its solutions still bind: [BOUND] is replaced with false. *)
Lemma lateral_type_unsound :
  let q := QLateral (example_pattern "p" "o") (QProject (example_pattern "q" "x") [str "s"]) in
  (∃ t, eval q empty_tuple = [t] ∧ is_Some (inner t !! str "o")) ∧
  types_get (default ∅ (infer_query_expression_types q ∅)) (str "o") = TYPE_UNDEF.
Proof. split; [eexists; split; [vm_compute; reflexivity|vm_compute; eauto]|vm_compute; reflexivity]. Qed.

(** The result of a group forgets the active graph: a pattern under [EXISTS]
    over it is evaluated on the default graph, and the named graph, which has a
    match, yields nothing. *)
Lemma group_forgets_graph :
  let inner_query := QGroup (QValues [] [[]]) [] [] in
  let q e := QGraph (PatternNamedNode (example_iri "g")) (QFilter (EExists (example_pattern "r" "x")) e) in
  length (eval (q (QValues [] [[]])) empty_tuple) = 1%nat ∧ length (eval inner_query empty_tuple) = 1%nat ∧
  eval (q inner_query) empty_tuple = [].
Proof. repeat split; vm_compute; reflexivity. Qed.
End examples.
