(* ===== verification/SpOptimizer.v ===== *)
(** * Pushing filters

    The last pass of lib/sparopt/src/optimizer.rs: [push_filters] takes the
    conditions of the filters down to the parts of a query that bind their
    variables.  [None] is the panic of type inference on a table with a row that
    is too short. *)
From stdpp Require Import gmap.
From S2P Require Import Prelude MachineInt RustStr BTree RdfModel RdfDisplay SpAlgebra SpTypes.

Fixpoint does_contain_exists (e : Expression) : bool :=
  match e with
  | EExists _ => true
  | ENamedNode _ | ELiteral _ | EVariable _ | EBound _ => false
  | EOr l | EAnd l | ECoalesce l | EFunctionCall _ l => existsb does_contain_exists l
  | EIf a b c => does_contain_exists a || does_contain_exists b || does_contain_exists c
  end.
Definition are_all_expression_variables_bound (e : Expression) (types : VariableTypes) : bool :=
  forallb (fun v => negb (undef (types_get types v))) (elements (used_variables e)).
Definition are_no_expression_variables_bound (e : Expression) (types : VariableTypes) : bool :=
  forallb (fun v => bool_decide (types_get types v = TYPE_UNDEF)) (elements (used_variables e)).

(** The filters of a graph pattern that go inside: those without [EXISTS] that
    do not use the variable of the graph. *)
Definition pushes_into_graph (graph_name : NamedNodePattern) (f : Expression) : bool :=
  negb (does_contain_exists f)
  && match graph_name with PatternVariable v => negb (bool_decide (v ∈ used_variables f)) | PatternNamedNode _ => true end.
(** Whether the condition of an optional part goes to its right side. *)
Definition pushes_condition_right (expression : Expression) (left_types right_types : VariableTypes) : bool :=
  bool_decide (effective_boolean_value expression = None)
  && (are_all_expression_variables_bound expression right_types || are_no_expression_variables_bound expression left_types).

Section optimizer.
  Context {O : OrderParams}.

Fixpoint push_filters (e : QueryExpression) (filters : list Expression) (input_types : VariableTypes) : option QueryExpression :=
  match e with
  | QQuadPattern _ _ _ _ | QPath _ _ _ | QValues _ _ | QService _ _ _ => Some (query_filter e (and_all filters))
  | QJoin l r algorithm =>
      left_types ← infer_query_expression_types l input_types;
      right_types ← infer_query_expression_types r input_types;
      let push_left f := are_all_expression_variables_bound f left_types in
      let push_right f := are_all_expression_variables_bound f right_types in
      new_left ← push_filters l (filter push_left filters) input_types;
      new_right ← push_filters r (filter push_right filters) input_types;
      Some (query_filter (query_join new_left new_right algorithm)
              (and_all (filter (fun f => negb (push_left f || push_right f)) filters)))
  | QLateral l r =>
      left_types ← infer_query_expression_types l input_types;
      let push_left f := are_all_expression_variables_bound f left_types in
      new_left ← push_filters l (filter push_left filters) input_types;
      new_right ← push_filters r (filter (fun f => negb (push_left f)) filters) left_types;
      Some match new_right with
           | QFilter expression inner_right => query_filter (query_lateral new_left inner_right) expression
           | _ => query_lateral new_left new_right
           end
  | QLeftJoin l r expression algorithm =>
      left_types ← infer_query_expression_types l input_types;
      right_types ← infer_query_expression_types r input_types;
      let push_left f := are_all_expression_variables_bound f left_types in
      let condition_right := pushes_condition_right expression left_types right_types in
      new_left ← push_filters l (filter push_left filters) input_types;
      new_right ← push_filters r (if condition_right then [expression] else []) input_types;
      Some (query_filter (query_left_join new_left new_right (if condition_right then Expression_from_bool true else expression) algorithm)
              (and_all (filter (fun f => negb (push_left f)) filters)))
  | QMinus l r algorithm =>
      new_left ← push_filters l filters input_types;
      new_right ← push_filters r [] input_types;
      Some (query_minus new_left new_right algorithm)
  | QGraph graph_name inner =>
      let filters_to_write := filter (fun f => negb (pushes_into_graph graph_name f)) filters in
      inner ← push_filters inner (filter (pushes_into_graph graph_name) filters) input_types;
      let pattern := query_graph inner graph_name in
      Some match filters_to_write with [] => pattern | _ => query_filter pattern (and_all filters_to_write) end
  | QExtend inner variable expression =>
      let uses f := bool_decide (variable ∈ used_variables f) in
      inner ← push_filters inner (filter (fun f => negb (uses f)) filters) input_types;
      Some (query_filter (query_extend inner variable expression) (and_all (filter uses filters)))
  | QFilter expression inner =>
      push_filters inner (filters ++ match expression with EAnd expressions => expressions | _ => [expression] end) input_types
  | QUnion inner =>
      inner ← mapM (fun c => push_filters c filters input_types) inner;
      Some (union_all inner)
  | QSlice inner offset limit =>
      inner ← push_filters inner [] input_types;
      Some (query_filter (query_slice inner offset limit) (and_all filters))
  | QDistinct inner => query_distinct <$> push_filters inner filters input_types
  | QReduced inner => query_reduced <$> push_filters inner filters input_types
  | QProject inner variables => (fun inner => query_project inner variables) <$> push_filters inner filters input_types
  | QOrderBy inner expression => (fun inner => query_order_by inner expression) <$> push_filters inner filters input_types
  | QGroup inner variables aggregates =>
      inner ← push_filters inner [] input_types;
      Some (query_filter (query_group inner variables aggregates) (and_all filters))
  end.
End optimizer.
