(* ===== verification/SpFilterFacts.v ===== *)
(** * Pushing filters keeps the solutions

    The rewriting of [push_filters] evaluates to the solutions of the original
    expression that satisfy the pushed conditions, each as many times, for the
    expressions described by [pushable]. *)
From stdpp Require Import gmap.
From S2P Require Import Prelude MachineInt RustStr BTree RdfModel RdfDisplay SpAlgebra SpTypes.
From S2P Require Import SpDataset SpPath SpEval SpTypeFacts SpOptimizer.

(** ** Lists *)

Lemma filter_cons_bool {A : Type} (p : A -> bool) (x : A) (l : list A) :
  filter p (x :: l) = if p x then x :: filter p l else filter p l.
Proof. rewrite list.filter_cons; by destruct (p x). Qed.
Lemma filter_concat_map {A B : Type} (p : B -> bool) (f : A -> list B) (l : list A) :
  filter p (concat (map f l)) = concat (map (fun x => filter p (f x)) l).
Proof. induction l as [|x l IH]; simpl; [done|]; by rewrite list.filter_app, IH. Qed.
Lemma concat_map_filter {A B : Type} (p : A -> bool) (f : A -> list B) (l : list A) :
  concat (map f (filter p l)) = concat (map (fun x => if p x then f x else []) l).
Proof. induction l as [|x l IH]; simpl; [done|]; rewrite filter_cons_bool; destruct (p x); simpl; by rewrite IH. Qed.
Lemma concat_map_ext {A B : Type} (f g : A -> list B) (l : list A) :
  (∀ x, x ∈ l → f x = g x) → concat (map f l) = concat (map g l).
Proof. induction l as [|x l IH]; intros H; simpl; [done|]; rewrite IH by set_solver; rewrite H by set_solver; done. Qed.
Lemma concat_map_perm {A B : Type} (f g : A -> list B) (l l' : list A) :
  l ≡ₚ l' → (∀ x, x ∈ l' → f x ≡ₚ g x) → concat (map f l) ≡ₚ concat (map g l').
Proof.
  intros Hl H; transitivity (concat (map f l')).
  - clear H; induction Hl; simpl; [done|by f_equiv|by rewrite !app_assoc, (Permutation_app_comm (f y))|by etrans].
  - clear Hl; induction l' as [|x l' IH]; simpl; [done|]; rewrite (H x) by set_solver; rewrite IH; [done|set_solver].
Qed.
Lemma concat_map_one {A B : Type} (f : A -> B) (l : list A) : concat (map (fun x => [f x]) l) = map f l.
Proof. induction l; simpl; congruence. Qed.
Lemma filter_ext_bool {A : Type} (p q : A -> bool) (l : list A) : (∀ x, x ∈ l → p x = q x) → filter p l = filter q l.
Proof. induction l as [|x l IH]; intros H; [done|]; rewrite !filter_cons_bool, (H x), IH by set_solver; done. Qed.
Lemma filter_and {A : Type} (p q : A -> bool) (l : list A) : filter p (filter q l) = filter (fun x => p x && q x) l.
Proof.
  induction l as [|x l IH]; [done|]; rewrite !filter_cons_bool; destruct (q x); simpl; rewrite ?filter_cons_bool, ?IH; destruct (p x); done.
Qed.
Lemma filter_true {A : Type} (Q : A -> Prop) `{∀ x, Decision (Q x)} (l : list A) : (∀ x, x ∈ l → Q x) → filter Q l = l.
Proof. induction l as [|x l IH]; intros Hl; [done|]; rewrite list.filter_cons, decide_True by (apply Hl; set_solver); rewrite IH; [done|set_solver]. Qed.
Lemma filter_all {A : Type} (p : A -> bool) (l : list A) : (∀ x, x ∈ l → p x = true) → filter p l = l.
Proof. intros H; rewrite (filter_ext_bool _ (fun _ => true)) by done; clear H; induction l; [done|]; by rewrite filter_cons_bool, IHl. Qed.
Lemma filter_none {A : Type} (p : A -> bool) (l : list A) : (∀ x, x ∈ l → p x = false) → filter p l = [].
Proof. induction l as [|x l IH]; intros H; [done|]; rewrite filter_cons_bool, (H x), IH by set_solver; done. Qed.
Lemma filter_map {A B : Type} (p : B -> bool) (f : A -> B) (l : list A) : filter p (map f l) = map f (filter (fun x => p (f x)) l).
Proof. induction l as [|x l IH]; [done|]; simpl; rewrite !filter_cons_bool, IH; by destruct (p (f x)). Qed.
(** A filter of the results of a partial function, as one of its arguments. *)
Lemma filter_omap {A B : Type} (p : B -> bool) (q : A -> bool) (f : A -> option B) (l : list A) :
  (∀ x y, x ∈ l → f x = Some y → p y = q x) → filter p (omap f l) = omap f (filter q l).
Proof.
  induction l as [|x l IH]; intros H; [done|]; csimpl; rewrite filter_cons_bool; specialize (IH ltac:(set_solver)).
  pose proof (H x) as Hx; destruct (f x) as [y|] eqn:E.
  - rewrite filter_cons_bool, (Hx y), IH by set_solver; destruct (q x); csimpl; by rewrite ?E.
  - rewrite IH; destruct (q x); csimpl; by rewrite ?E.
Qed.
Lemma filter_nil {A : Type} (p : A -> bool) : filter p [] = [].
Proof. done. Qed.
Lemma filter_omap_split {A B : Type} (p p' : B -> bool) (q : A -> bool) (f : A -> option B) (l : list A) :
  (∀ x y, x ∈ l → f x = Some y → p y = p' y && q x) → filter p (omap f l) = filter p' (omap f (filter q l)).
Proof.
  induction l as [|x l IH]; intros H; [done|]; csimpl; rewrite filter_cons_bool; specialize (IH ltac:(set_solver)).
  pose proof (H x) as Hx; destruct (f x) as [y|] eqn:E.
  - rewrite filter_cons_bool, (Hx y), IH by set_solver; destruct (q x); csimpl; rewrite ?E, ?filter_cons_bool; by destruct (p' y).
  - rewrite IH; destruct (q x); csimpl; by rewrite ?E.
Qed.
Lemma elem_of_filter_bool {A : Type} (p : A -> bool) (l : list A) (x : A) : x ∈ filter p l ↔ p x = true ∧ x ∈ l.
Proof. by rewrite list_elem_of_filter, Is_true_true. Qed.

(** ** Conditions *)

Section conditions.
  Context {P : EvalParams}.

Definition holds_one (e : Expression) (t : InternalTuple) : bool := condition_holds (eval_expression e t).
(** The conjunction of some conditions. *)
Definition holds_all (filters : list Expression) (t : InternalTuple) : bool := forallb (fun e => holds_one e t) filters.

(** An expression without [EXISTS] reads only the variables it mentions. *)
Lemma eval_expression_agree e t t' :
  does_contain_exists e = false → (∀ v, v ∈ lookup_used_variables e → inner t !! v = inner t' !! v) →
  eval_expression e t = eval_expression e t'.
Proof.
  assert (G : ∀ l, Forall (fun e => does_contain_exists e = false → (∀ v, v ∈ lookup_used_variables e → inner t !! v = inner t' !! v) →
      eval_expression e t = eval_expression e t') l → existsb does_contain_exists l = false →
      (∀ v, v ∈ concat (map lookup_used_variables l) → inner t !! v = inner t' !! v) →
      map (fun e => eval_expression e t) l = map (fun e => eval_expression e t') l).
  { induction 1 as [|x l Hx _ IH]; simpl; [done|]; intros [??]%orb_false_iff Hv; f_equal; [apply Hx|apply IH]; set_solver. }
  induction e as [n|l|v|l IH|l IH|q|v|a b c IHa IHb IHc|l IH|n l IH] using Expression_induction; simpl; try done.
  - intros _ H; apply H; set_solver.
  - intros H1 H2; f_equal; by apply G.
  - intros H1 H2; f_equal; by apply G.
  - intros _ H; rewrite H by set_solver; done.
  - intros [[??]%orb_false_iff ?]%orb_false_iff Hv; rewrite IHa, IHb, IHc by set_solver; done.
  - intros H1 H2; f_equal; by apply G.
  - intros H1 H2; f_equal; by apply G.
Qed.

(** Conditions that can be pushed: without [EXISTS], over some variables. *)
Definition good (vs : gset VariableName) (e : Expression) : Prop := does_contain_exists e = false ∧ used_variables e ⊆ vs.
Lemma good_weaken vs vs' e : good vs e → vs ⊆ vs' → good vs' e.
Proof. intros [??] ?; split; [done|set_solver]. Qed.
Lemma holds_one_agree vs e t t' : good vs e → (∀ v, v ∈ used_variables e → inner t !! v = inner t' !! v) → holds_one e t = holds_one e t'.
Proof.
  intros [Hx _] H; unfold holds_one; f_equal; apply eval_expression_agree; [done|]; intros v Hv; apply H.
  by apply elem_of_list_to_set.
Qed.
Lemma holds_all_agree vs fs t t' :
  Forall (good vs) fs → (∀ f v, f ∈ fs → v ∈ used_variables f → inner t !! v = inner t' !! v) → holds_all fs t = holds_all fs t'.
Proof.
  induction 1 as [|f fs Hf _ IH]; intros H; simpl; [done|]; rewrite (holds_one_agree vs f t t'), IH by set_solver; done.
Qed.
Lemma holds_all_app fs gs t : holds_all (fs ++ gs) t = holds_all fs t && holds_all gs t.
Proof. unfold holds_all; by rewrite forallb_app. Qed.
(** Splitting the conditions. *)
Lemma holds_all_split (p : Expression -> bool) fs t : holds_all fs t = holds_all (filter p fs) t && holds_all (filter (fun f => negb (p f)) fs) t.
Proof.
  induction fs as [|f fs IH]; simpl; [done|]; rewrite !filter_cons_bool; destruct (p f); simpl; rewrite IH;
    [by rewrite andb_assoc|]; by rewrite !andb_assoc, (andb_comm (holds_one f t)).
Qed.
Lemma holds_all_split3 (p q : Expression -> bool) fs t :
  holds_all fs t = holds_all (filter p fs) t && holds_all (filter q fs) t && holds_all (filter (fun f => negb (p f || q f)) fs) t.
Proof.
  induction fs as [|f fs IH]; simpl; [done|]; rewrite !filter_cons_bool; destruct (p f), (q f); simpl; rewrite IH; destruct (holds_one f t); simpl;
    rewrite ?andb_false_r; done.
Qed.
Lemma good_filter vs (p : Expression -> bool) fs : Forall (good vs) fs → Forall (good vs) (filter p fs).
Proof. rewrite !list.Forall_forall; intros H f [_ ?]%elem_of_filter_bool; auto. Qed.
Lemma good_weaken_all vs vs' fs : Forall (good vs) fs → vs ⊆ vs' → Forall (good vs') fs.
Proof. intros H Hv; eapply list.Forall_impl; [exact H|]; intros e He; by apply (good_weaken vs). Qed.

(** The conjunction built by [and_all]. *)
Lemma condition_holds_term b : condition_holds (Some (boolean_term b)) = b.
Proof. unfold condition_holds; cbn [mbind option_bind]; rewrite boolean_term_value; by destruct b. Qed.
Lemma condition_holds_loop vs error :
  condition_holds (boolean_loop false error vs) = negb error && forallb condition_holds vs.
Proof.
  revert error; induction vs as [|v vs IH]; intros error; cbn [boolean_loop forallb].
  - destruct error; [done|]; by rewrite condition_holds_term.
  - unfold condition_holds at 2; destruct (v ≫= term_boolean_value) as [[]|].
    + by rewrite bool_decide_false, IH, bool_decide_true by done.
    + rewrite bool_decide_true, condition_holds_term by done; simpl; by rewrite andb_false_r.
    + rewrite IH; simpl; by rewrite andb_false_r.
Qed.
Lemma holds_and l t : holds_one (EAnd l) t = holds_all l t.
Proof. unfold holds_one; simpl; rewrite condition_holds_loop; unfold holds_all; simpl; induction l; simpl; [done|]; by rewrite IHl. Qed.
Lemma holds_constant e b t : effective_boolean_value e = Some b → holds_one e t = b.
Proof.
  destruct e as [|l| | | | | | | |]; try done; unfold holds_one, condition_holds; simpl; unfold literal_boolean_value; intros H.
  repeat case_bool_decide; simplify_eq/=; try done; unfold literal_boolean_value in *; repeat case_bool_decide; simplify_eq/=; congruence.
Qed.
Lemma holds_bool b t : holds_one (Expression_from_bool b) t = b.
Proof. apply holds_constant; by destruct b. Qed.
End conditions.

(** ** The constructors that simplify *)

(** The sorts of the commutative arguments keep them. *)
Class OrderLaws (O : OrderParams) : Prop := {
  order_expressions_perm (l : list Expression) : order_expressions l ≡ₚ l;
  order_queries_perm (l : list QueryExpression) : order_queries l ≡ₚ l
}.

(** A solution that extends its input, in the same graph. *)
Definition extends (from t : InternalTuple) : Prop := inner from ⊆ inner t ∧ graph_name t = graph_name from.
Definition binds (keys : list VariableName) (t : InternalTuple) : Prop := ∀ k, k ∈ keys → is_Some (inner t !! k).

Lemma combine_with_self t : combine_with t t = Some t.
Proof.
  unfold combine_with; rewrite decide_True.
  - rewrite map_union_idemp; by destruct t.
  - intros v x H; rewrite H; done.
Qed.
Lemma combine_extends_l from t : extends from t → combine_with from t = Some t.
Proof.
  intros [Hs Hg]; unfold combine_with; rewrite decide_True.
  - rewrite map_subseteq_union by done; rewrite <- Hg; by destruct t.
  - intros v x H; by rewrite (lookup_weaken _ _ _ _ H Hs).
Qed.
Lemma combine_extends_r from t : extends from t → combine_with t from = Some t.
Proof.
  intros [Hs Hg]; unfold combine_with; rewrite decide_True.
  - assert (E : inner t ∪ inner from = inner t); [|by rewrite E; destruct t].
    apply map_eq; intros v; rewrite lookup_union; destruct (inner from !! v) eqn:E; [|by destruct (inner t !! v)].
    by rewrite (lookup_weaken _ _ _ _ E Hs).
  - intros v x H; destruct (inner from !! v) as [y|] eqn:E; simpl; [|done].
    apply (lookup_weaken _ _ _ _ E) in Hs; congruence.
Qed.

Section constructors.
  Context {P : EvalParams} {O : OrderParams} {OL : OrderLaws O}.

Lemma holds_all_perm fs gs t : fs ≡ₚ gs → holds_all fs t = holds_all gs t.
Proof.
  intros H; apply eq_true_iff_eq; unfold holds_all; rewrite !forallb_forall; setoid_rewrite <- list_elem_of_In.
  by split; intros A x Hx; apply A; [rewrite H|rewrite <- H].
Qed.
Lemma and_args_spec args all t :
  match and_args args all with
  | None => holds_all args t = false
  | Some all' => holds_all all' t = holds_all all t && holds_all args t
  end.
Proof.
  revert all; induction args as [|a args IH]; intros all; simpl; [by rewrite andb_true_r|].
  destruct (effective_boolean_value a) as [[]|] eqn:E; [|by rewrite (holds_constant _ _ _ E)|].
  - rewrite (holds_constant _ _ _ E); simpl; apply IH.
  - assert (G : ∀ more, holds_all more t = holds_one a t →
      match and_args args (all ++ more) with
      | None => holds_one a t && holds_all args t = false
      | Some all' => holds_all all' t = holds_all all t && (holds_one a t && holds_all args t)
      end).
    { intros more Hm; specialize (IH (all ++ more)); destruct (and_args args (all ++ more)).
      - by rewrite IH, holds_all_app, Hm, andb_assoc.
      - by rewrite IH, andb_false_r. }
    destruct a; first [apply G; by rewrite holds_and|apply G; unfold holds_all; cbn [forallb]; apply andb_true_r].
Qed.
Lemma holds_and_all fs t : holds_one (and_all fs) t = holds_all fs t.
Proof.
  pose proof (and_args_spec fs [] t) as H; unfold and_all; destruct (and_args fs []) as [[|a [|b l]]|]; simpl in H.
  - by rewrite holds_bool.
  - rewrite <- H; destruct (returns_boolean a); [by rewrite andb_true_r|by rewrite holds_and].
  - by rewrite holds_and, (holds_all_perm _ _ _ (order_expressions_perm _)).
  - by rewrite holds_bool.
Qed.

Lemma eval_empty q t : query_is_empty q = true → eval q t = [].
Proof. by destruct q as [| | | | | | | | | |vs []| | | | | | |]. Qed.
Lemma eval_query_filter q e t : eval (query_filter q e) t = filter (holds_one e) (eval q t).
Proof.
  unfold query_filter; destruct (query_is_empty q) eqn:Eq; [by rewrite (eval_empty q)|].
  set (e' := match e with EAnd [e] => e | e => e end).
  assert (He : ∀ t, holds_one e t = holds_one e' t).
  { intros t'; destruct e as [| | | |[|? []]| | | | |]; try done; simpl; rewrite holds_and; simpl; by rewrite andb_true_r. }
  rewrite (filter_ext_bool _ (holds_one e')) by done; clearbody e'; clear He.
  destruct (effective_boolean_value e') as [[]|] eqn:Ee.
  - symmetry; apply filter_all; intros; by apply holds_constant.
  - symmetry; apply filter_none; intros; by apply holds_constant.
  - destruct q; try done; simpl; rewrite filter_and; apply filter_ext_bool; intros x _.
    change (holds_one (and_all [e'; expression]) x = holds_one e' x && holds_one expression x).
    rewrite holds_and_all; simpl; by rewrite andb_true_r.
Qed.
Lemma eval_filter_all q fs t : eval (query_filter q (and_all fs)) t = filter (holds_all fs) (eval q t).
Proof. rewrite eval_query_filter; apply filter_ext_bool; intros; apply holds_and_all. Qed.

(** *** Joins *)

Lemma set_get_nil built t : set_get [] built t = built.
Proof. by apply filter_true. Qed.
Lemma tuple_key_extends keys from t : extends from t → binds keys from → tuple_key keys t = tuple_key keys from.
Proof.
  intros [Hs _] Hb; unfold tuple_key; f_equal; induction keys as [|k keys IH]; csimpl; [done|].
  destruct (Hb k) as [x Hx]; [set_solver|]; rewrite Hx, (lookup_weaken _ _ _ _ Hx Hs), IH; [done|].
  intros j Hj; apply Hb; set_solver.
Qed.
(** The pairs that agree on the hash of the keys, combined. *)
Definition combine_pairs (keys : list VariableName) (built probed : list InternalTuple) : list InternalTuple :=
  concat (map (fun t => omap (combine_with t) (set_get keys built t)) probed).
Lemma hash_join_pairs keys built probed : hash_join keys built probed ≡ₚ combine_pairs keys built probed.
Proof.
  unfold hash_join, combine_pairs; destruct keys; apply concat_map_perm; try done; intros t _; [by rewrite set_get_nil|].
  symmetry; apply Permutation_rev.
Qed.
Lemma combine_pairs_perm keys l l' r r' : l ≡ₚ l' → r ≡ₚ r' → combine_pairs keys l r ≡ₚ combine_pairs keys l' r'.
Proof. intros Hl Hr; apply concat_map_perm; [done|]; intros t _; unfold set_get; by rewrite Hl. Qed.
Lemma set_get_extends keys built t : (∀ b, b ∈ built → extends t b) → binds keys t → set_get keys built t = built.
Proof.
  intros He Hb; apply filter_true; intros b ?; apply tuple_key_extends; auto.
Qed.
Lemma omap_id {A : Type} (f : A -> option A) (l : list A) : (∀ x, x ∈ l → f x = Some x) → omap f l = l.
Proof. induction l as [|x l IH]; intros H; [done|]; csimpl; rewrite (H x), IH by set_solver; done. Qed.
Lemma combine_pairs_nil_l keys r : combine_pairs keys [] r = [].
Proof. unfold combine_pairs; rewrite (concat_map_ext _ (fun _ => [])) by done; by induction r. Qed.
Lemma eval_query_join l r keys from :
  is_variable_service l = false → is_variable_service r = false →
  (∀ t, t ∈ eval l from ∨ t ∈ eval r from → extends from t ∧ binds keys t) →
  eval (query_join l r (HashBuildLeftProbeRight keys)) from ≡ₚ combine_pairs keys (eval l from) (eval r from).
Proof.
  intros Sl Sr He; unfold query_join; destruct (query_is_empty l) eqn:El; [by rewrite (eval_empty l), combine_pairs_nil_l|].
  destruct (query_is_empty r) eqn:Er; [by rewrite (eval_empty r)|]; simpl.
  destruct (is_empty_singleton l) eqn:Tl; [|destruct (is_empty_singleton r) eqn:Tr].
  - pose proof (He from) as [_ Hb]; [left; rewrite eval_empty_singleton by done; by left|].
    rewrite (eval_empty_singleton l) by done; unfold combine_pairs.
    rewrite (concat_map_ext _ (fun t => [t])); [by rewrite concat_map_one, map_id|]; intros t Ht.
    destruct (He t) as [Ht2 _]; [by right|]; unfold set_get.
    rewrite list.filter_cons, decide_True by (symmetry; by apply tuple_key_extends); csimpl; by rewrite combine_extends_r.
  - pose proof (He from) as [_ Hb]; [right; rewrite eval_empty_singleton by done; by left|].
    rewrite (eval_empty_singleton r) by done; unfold combine_pairs; simpl; rewrite app_nil_r.
    rewrite set_get_extends; [|intros; apply He; by left|done].
    rewrite omap_id; [done|]; intros t Ht; apply combine_extends_l, He; by left.
  - simpl; unfold join_evaluator; rewrite Sl, Sr; apply hash_join_pairs.
Qed.

(** *** Optional parts *)

Definition or_else (l : list InternalTuple) (t : InternalTuple) : list InternalTuple := match l with [] => [t] | l => l end.
Lemma or_else_perm l l' t : l ≡ₚ l' → or_else l t ≡ₚ or_else l' t.
Proof. intros H; destruct l as [|x l]; [by apply Permutation_nil in H as ->|]; destruct l'; [by apply Permutation_nil_r in H|done]. Qed.
(** Each tuple with its matches that satisfy the condition, or alone. *)
Definition optional_pairs (keys : list VariableName) (h : InternalTuple -> bool) (built l : list InternalTuple) : list InternalTuple :=
  concat (map (fun t => or_else (filter h (omap (combine_with t) (set_get keys built t))) t) l).
Lemma optional_pairs_perm keys h built built' l l' :
  built ≡ₚ built' → l ≡ₚ l' → optional_pairs keys h built l ≡ₚ optional_pairs keys h built' l'.
Proof. intros Hb Hl; apply concat_map_perm; [done|]; intros t _; apply or_else_perm; unfold set_get; by rewrite Hb. Qed.
Lemma optional_pairs_alone keys (h : InternalTuple -> bool) built l :
  (∀ t, t ∈ l → filter h (omap (combine_with t) (set_get keys built t)) ⊆ [t] ∧
     (length (filter h (omap (combine_with t) (set_get keys built t))) ≤ 1)%nat) →
  optional_pairs keys h built l = l.
Proof.
  intros H; unfold optional_pairs; rewrite (concat_map_ext _ (fun t => [t])); [by rewrite concat_map_one, map_id|].
  intros t Ht; destruct (H t Ht) as [Hs Hl]; destruct (filter _ _) as [|x [|]]; simpl in *; try done; [set_solver|lia].
Qed.
Lemma left_join_pairs l r (h : InternalTuple -> bool) keys from :
  left_join_evaluator l r h (LeftHashBuildRightProbeLeft keys) from ≡ₚ optional_pairs keys h (r from) (l from).
Proof.
  apply concat_map_perm; [done|]; intros t _; destruct (filter h _) as [|x k]; [done|]; symmetry; apply Permutation_rev.
Qed.
Lemma eval_query_left_join l r e keys from :
  (∀ t, t ∈ eval l from → extends from t) →
  eval (query_left_join l r e (LeftHashBuildRightProbeLeft keys)) from ≡ₚ optional_pairs keys (holds_one e) (eval r from) (eval l from).
Proof.
  intros He; unfold query_left_join; destruct (query_is_empty l) eqn:El; cbn [orb]; [by rewrite (eval_empty l)|].
  destruct (query_is_empty r) eqn:Er; cbn [orb]; [rewrite (eval_empty r) by done; by rewrite optional_pairs_alone by (intros t _; simpl; split; [set_solver|lia])|].
  destruct (is_empty_singleton r) eqn:Tr; [|destruct (bool_decide (effective_boolean_value e = Some false)) eqn:Ef]; cbn [orb].
  - rewrite (eval_empty_singleton r) by done; rewrite optional_pairs_alone; [done|]; intros t Ht; unfold set_get.
    rewrite list.filter_cons; case_decide; csimpl; [|split; simpl; [set_solver|lia]].
    rewrite combine_extends_r by auto; rewrite filter_cons_bool; destruct (holds_one e t); split; simpl; try lia; set_solver.
  - apply bool_decide_eq_true in Ef; rewrite optional_pairs_alone; [done|]; intros t _.
    rewrite filter_none by (intros; by apply holds_constant); split; simpl; [set_solver|lia].
  - cbn [eval]; rewrite left_join_pairs; apply concat_map_perm; [done|]; intros t _.
    rewrite (filter_ext_bool _ (holds_one e)); [done|]; intros x _; clear Ef; case_bool_decide as E; [|done].
    change (holds_one (Expression_from_bool true) x = holds_one e x).
    by rewrite holds_bool, (holds_constant _ _ _ E).
Qed.

(** *** The other operators *)

Lemma eval_query_minus l r a from : eval (query_minus l r a) from = minus_evaluator (eval l) (eval r) a from.
Proof.
  unfold query_minus; destruct a as [keys]; destruct (query_is_empty l) eqn:El; [unfold minus_evaluator; by rewrite (eval_empty l)|].
  destruct (query_is_empty r) eqn:Er; [|done]; unfold minus_evaluator; rewrite (eval_empty r) by done.
  symmetry; apply filter_true; intros t _; destruct keys; intros H; inversion H.
Qed.
Lemma minus_evaluator_perm (l l' r r' : InternalTuple -> list InternalTuple) (h : InternalTuple -> bool) a from :
  l' from ≡ₚ filter h (l from) → r' from ≡ₚ r from → minus_evaluator l' r' a from ≡ₚ filter h (minus_evaluator l r a from).
Proof.
  intros Hl Hr; destruct a as [keys]; unfold minus_evaluator; rewrite Hl, !list_filter_filter.
  erewrite list_filter_iff; [done|]; intros t; simpl.
  rewrite (and_comm (¬ _)); f_equiv; f_equiv; destruct keys; unfold set_get; by rewrite Hr.
Qed.
Lemma union_args_spec args all t :
  concat (map (fun q => eval q t) (union_args args all)) = concat (map (fun q => eval q t) all) ++ concat (map (fun q => eval q t) args).
Proof.
  revert all; induction args as [|a args IH]; intros all; simpl; [by rewrite app_nil_r|].
  destruct (query_is_empty a) eqn:Ea; [by rewrite IH, (eval_empty a)|].
  assert (G : ∀ more, concat (map (fun q => eval q t) more) = eval a t →
    concat (map (fun q => eval q t) (union_args args (all ++ more))) =
    concat (map (fun q => eval q t) all) ++ eval a t ++ concat (map (fun q => eval q t) args)).
  { intros more Hm; by rewrite IH, map_app, concat_app, Hm, app_assoc. }
  destruct a; try (apply G; simpl; by rewrite app_nil_r); by apply G.
Qed.
Lemma eval_union_all l t : eval (union_all l) t ≡ₚ concat (map (fun q => eval q t) l).
Proof.
  pose proof (union_args_spec l [] t) as H; simpl in H; unfold union_all; rewrite <- H.
  destruct (union_args l []) as [|q k]; [done|]; cbn [eval]; apply concat_map_perm; [apply order_queries_perm|done].
Qed.

(** What a lateral join asks of its right side: an optional part of the empty
    solution has bound keys. *)
Definition ready (q : QueryExpression) (from : InternalTuple) : Prop :=
  match q with
  | QLeftJoin l r _ (LeftHashBuildRightProbeLeft keys) =>
      is_empty_singleton l = true → binds keys from ∧ ∀ t, t ∈ eval r from → extends from t
  | QService _ _ _ => False
  | _ => True
  end.
Lemma eval_lateral l r from :
  (∀ t, t ∈ eval l from → ready r t) → eval (QLateral l r) from ≡ₚ concat (map (eval r) (eval l from)).
Proof.
  intros Hr; destruct r as [| | | |rl rr e [keys]| | | | | | | | | | | | |]; try done; cbn [eval].
  destruct (is_empty_singleton rl) eqn:E; [|done]; apply concat_map_perm; [done|]; intros t Ht.
  destruct (Hr t Ht E) as [Hb He]; rewrite left_join_pairs, (eval_empty_singleton rl) by done.
  unfold optional_pairs; simpl; rewrite app_nil_r, set_get_extends by done.
  rewrite omap_id by (intros; by apply combine_extends_l, He); by destruct (filter _ _).
Qed.
Lemma eval_query_lateral l r from :
  (∀ t, t ∈ eval l from → ready r t) → eval (query_lateral l r) from ≡ₚ concat (map (eval r) (eval l from)).
Proof.
  intros Hr; unfold query_lateral; destruct (query_is_empty l) eqn:El; [by rewrite (eval_empty l)|].
  destruct (query_is_empty r) eqn:Er; cbn [orb].
  { rewrite (concat_map_ext _ (fun _ => [])) by (intros; by apply eval_empty); clear; by induction (eval l from). }
  destruct (is_empty_singleton l) eqn:Tl; [rewrite (eval_empty_singleton l) by done; simpl; by rewrite app_nil_r|].
  destruct (is_empty_singleton r) eqn:Tr; [|by apply eval_lateral].
  rewrite (concat_map_ext _ (fun t => [t])) by (intros; by apply eval_empty_singleton); by rewrite concat_map_one, map_id.
Qed.
Lemma elem_of_distinct_iff seen l x :
  (∀ a b, a ∈ l → b ∈ l → inner a = inner b → a = b) → x ∈ distinct_tuples seen l ↔ x ∈ l ∧ inner x ∉ seen.
Proof.
  revert seen; induction l as [|a l IH]; intros seen Hi; simpl; [set_solver|].
  assert (IH' : ∀ seen, x ∈ distinct_tuples seen l ↔ x ∈ l ∧ inner x ∉ seen) by (intros; apply IH; set_solver).
  case_decide as E; [rewrite IH'; set_solver|]; rewrite !list.elem_of_cons, IH'; split; [set_solver|].
  intros [[->|Hx] Hs]; [by left|]; destruct (decide (inner x = inner a)) as [Eq|]; [|set_solver].
  left; apply Hi; [by right|by left|done].
Qed.
Lemma distinct_NoDup seen l : NoDup (distinct_tuples seen l).
Proof.
  assert (G : ∀ l seen x, x ∈ distinct_tuples seen l → inner x ∉ seen).
  { clear; induction l as [|a l IH]; intros seen x; simpl; [set_solver|]; case_decide; [apply IH|].
    intros [->|Hx]%list.elem_of_cons; [done|]; apply IH in Hx; set_solver. }
  revert seen; induction l as [|a l IH]; intros seen; simpl; [constructor|]; case_decide; [done|]; constructor; [|done].
  intros Ha; apply G in Ha; set_solver.
Qed.
Lemma distinct_perm_filter (h : InternalTuple -> bool) l l' :
  (∀ a b, a ∈ l → b ∈ l → inner a = inner b → a = b) → l' ≡ₚ filter h l →
  distinct_tuples [] l' ≡ₚ filter h (distinct_tuples [] l).
Proof.
  intros Hi Hl; apply NoDup_Permutation; [apply distinct_NoDup|apply list.NoDup_filter, distinct_NoDup|]; intros x.
  rewrite elem_of_filter_bool, !elem_of_distinct_iff, Hl, elem_of_filter_bool; [set_solver|done|].
  intros a b; rewrite !Hl, !elem_of_filter_bool; intros [_ ?] [_ ?]; by apply Hi.
Qed.
End constructors.

(** ** The expressions whose filters can be pushed *)

Definition keys_bound (keys : list VariableName) (types : VariableTypes) : bool :=
  forallb (fun k => negb (undef (types_get types k))) keys.
(** [vs] are the variables of the conditions that reach the expression.  A
    projection keeps them, the keys of a join are bound on its sides (as
    [join_key_variables] chooses them), no condition has [EXISTS], and there is no
    slice, reduction, group or service. *)
Fixpoint pushable (vs : gset VariableName) (e : QueryExpression) (types : VariableTypes) : bool :=
  match e with
  | QQuadPattern _ _ _ _ | QPath _ _ _ | QValues _ _ => true
  | QGraph _ inner | QOrderBy inner _ | QDistinct inner | QExtend inner _ _ => pushable vs inner types
  | QProject inner variables => bool_decide (vs ⊆ list_to_set variables) && pushable vs inner types
  | QJoin l r (HashBuildLeftProbeRight keys) =>
      pushable vs l types && pushable vs r types
      && with_types (infer_query_expression_types l types) false (keys_bound keys)
      && with_types (infer_query_expression_types r types) false (keys_bound keys)
  | QLeftJoin l r expression (LeftHashBuildRightProbeLeft keys) =>
      negb (does_contain_exists expression) && pushable vs l types && pushable (used_variables expression) r types
      && with_types (infer_query_expression_types l types) false (keys_bound keys)
      && with_types (infer_query_expression_types r types) false (fun _ => true)
  | QMinus l r _ => pushable vs l types && pushable ∅ r types
  | QLateral l r =>
      pushable vs l types
      && with_types (infer_query_expression_types l types) false (fun left_types =>
           pushable vs r left_types && with_types (infer_query_expression_types r left_types) false (fun _ => true))
  | QUnion inner => forallb (fun c => pushable vs c types) inner
  | QFilter expression inner => negb (does_contain_exists expression) && pushable (vs ∪ used_variables expression) inner types
  | QReduced _ | QSlice _ _ _ | QGroup _ _ _ | QService _ _ _ => false
  end.

Section pushing.
  Context {P : EvalParams} {L : EvalLaws P} {O : OrderParams} {OL : OrderLaws O} (iris : iri_graphs eval_dataset).

Lemma keys_bound_binds keys types t : keys_bound keys types = true → typed (inner t) types → binds keys t.
Proof.
  unfold keys_bound; rewrite forallb_forall; intros H Ht k Hk; eapply typed_defined; [apply Ht|].
  by apply negb_true_iff, H, list_elem_of_In.
Qed.
Lemma bound_variables e types t v :
  are_all_expression_variables_bound e types = true → typed (inner t) types → v ∈ used_variables e → is_Some (inner t !! v).
Proof.
  unfold are_all_expression_variables_bound; rewrite forallb_forall; intros H Ht Hv; eapply typed_defined; [apply Ht|].
  by apply negb_true_iff, H, list_elem_of_In, elem_of_elements.
Qed.
Lemma unbound_variables e types t v :
  are_no_expression_variables_bound e types = true → typed (inner t) types → v ∈ used_variables e → inner t !! v = None.
Proof.
  unfold are_no_expression_variables_bound; rewrite forallb_forall; intros H Ht Hv; apply typed_undef.
  assert (E : types_get types v = TYPE_UNDEF) by (eapply bool_decide_eq_true, H, list_elem_of_In, elem_of_elements; done).
  rewrite <- E; apply Ht.
Qed.
(** The conditions that a part binds do not see the rest of a solution. *)
Lemma holds_bound vs types fs t t' :
  Forall (good vs) fs → typed (inner t) types → inner t ⊆ inner t' →
  holds_all (filter (fun f => are_all_expression_variables_bound f types) fs) t' =
  holds_all (filter (fun f => are_all_expression_variables_bound f types) fs) t.
Proof.
  intros Hg Ht Hs; apply (holds_all_agree vs); [by apply good_filter|]; intros f v [Hf _]%elem_of_filter_bool Hv.
  destruct (bound_variables _ _ _ _ Hf Ht Hv) as [x Hx]; by rewrite Hx, (lookup_weaken _ _ _ _ Hx Hs).
Qed.

(** Solutions stay in the graph of their input. *)
Definition keeps_graph (q : QueryExpression) : Prop := ∀ vs types from t,
  typable q types = true → pushable vs q types = true → typed (inner from) types → t ∈ eval q from → graph_name t = graph_name from.

Lemma graph_keeps_graph g q : keeps_graph (QGraph g q).
Proof.
  intros vs types from t _ _ _ Ht; simpl in Ht; unfold graph_evaluator in Ht.
  destruct (get_pattern_value _ from) as [[x|]|]; [| |set_solver].
  - destruct (contains_internal_graph_name _ x); [|set_solver]; by apply list_elem_of_fmap in Ht as (t' & -> & _).
  - apply elem_of_concat_map in Ht as (x & _ & (t' & _ & Hp)%list_elem_of_omap).
    by destruct (put_pattern_value _ x t'); [injection Hp as <-|].
Qed.
Lemma join_keeps_graph l r a : keeps_graph l → keeps_graph r → keeps_graph (QJoin l r a).
Proof.
  intros IHl IHr vs types from t [Hl Hr]%andb_true_iff Hp Hfrom Ht; destruct a as [keys]; simpl in Hp, Ht.
  apply andb_true_iff in Hp as [[[Pl Pr]%andb_true_iff _]%andb_true_iff _].
  assert (Hs : ∀ q, typable q types = true → is_variable_service q = false) by (by destruct q).
  unfold join_evaluator in Ht; rewrite (Hs l), (Hs r) in Ht by done.
  apply elem_of_hash_join in Ht as (b & p & Hb & Hp & (_ & _ & -> & _)%combine_with_spec); by apply (IHr vs types).
Qed.
Lemma left_join_keeps_graph l r e a : keeps_graph l → keeps_graph (QLeftJoin l r e a).
Proof.
  intros IHl vs types from t [Hl _]%andb_true_iff Hp Hfrom Ht; destruct a as [keys]; simpl in Hp; cbn [eval] in Ht.
  apply andb_true_iff in Hp as [[[[_ Pl]%andb_true_iff _]%andb_true_iff _]%andb_true_iff _].
  apply elem_of_left_join in Ht as [Ht|(x & y & Hx & _ & (_ & _ & -> & _)%combine_with_spec & _)]; by apply (IHl vs types).
Qed.
Lemma lateral_keeps_graph l r :
  keeps_graph l → keeps_graph r → match r with QLeftJoin rl rr _ _ => keeps_graph rl ∧ keeps_graph rr | _ => True end →
  keeps_graph (QLateral l r).
Proof.
  intros IHl IHr IHo vs types from t [Hl Hr]%andb_true_iff [Pl Pr]%andb_true_iff Hfrom Ht.
  destruct (with_types_true _ _ Hr) as (ts & HT & Hr'); clear Hr; rewrite HT in Pr; simpl in Pr; apply andb_true_iff in Pr as [Pr _].
  assert (Hleft : ∀ tl, tl ∈ eval l from → graph_name tl = graph_name from ∧ typed (inner tl) ts).
  { intros tl Htl; split; [by apply (IHl vs types)|by apply (eval_typed iris l types ts from)]. }
  assert (Step : t ∈ lateral_evaluator (eval l) (eval r) from → graph_name t = graph_name from).
  { intros (tl & Htl & Htr)%elem_of_concat_map; destruct (Hleft tl Htl) as [<- ?]; by apply (IHr vs ts). }
  destruct r as [| | | |rl rr e [keys]| | | | | | | | | | | | |]; try (by apply Step).
  cbn [eval] in Ht, Step; destruct (is_empty_singleton rl) eqn:Es; [|by apply Step]; clear Step; destruct IHo as [_ IHo].
  simpl in Hr', Pr; apply andb_true_iff in Hr' as [_ Hr'].
  apply andb_true_iff in Pr as [[[[_ _]%andb_true_iff Pr]%andb_true_iff _]%andb_true_iff _].
  apply elem_of_for_loop in Ht as [Ht|(tl & Htl & Ht & _)]; [by apply Hleft|].
  destruct (Hleft tl Htl) as [<- ?]; by apply (IHo (used_variables e) ts).
Qed.
Lemma eval_keeps_graph q : keeps_graph q.
Proof.
  induction q using QueryExpression_induction;
    auto using graph_keeps_graph, join_keeps_graph, left_join_keeps_graph, lateral_keeps_graph;
    intros vs types from t Hq Hp Hfrom Ht; try done.
  - by apply (quad_pattern_sound iris _ _ _ _ _ _ _ Hfrom Ht).
  - by apply (path_sound iris _ _ _ _ _ _ Hq Hfrom Ht).
  - simpl in Ht, Hp; apply andb_true_iff in Hp as [_ Hp]; apply elem_of_filter_bool in Ht as [_ Ht]; by eapply IHq.
  - simpl in Hq, Hp, Ht; rewrite forallb_forall in Hq, Hp; apply elem_of_concat_map in Ht as (c & Hc & Ht).
    rewrite list.Forall_forall in H; apply list_elem_of_In in Hc as Hc'; by apply (H c Hc vs types); auto.
  - simpl in Hq; apply andb_true_iff in Hq as [[Hq _]%andb_true_iff _]; cbn [eval] in Ht; apply list_elem_of_fmap in Ht as (t' & -> & Ht).
    transitivity (graph_name t'); [destruct (eval_expression e t'); reflexivity|by apply (IHq vs types)].
  - simpl in Hq, Hp; apply andb_true_iff in Hq as [Hq _]; apply andb_true_iff in Hp as [Hp _].
    destruct a as [keys]; apply list_elem_of_filter in Ht as [_ Ht]; by eapply IHq1.
  - apply list_elem_of_omap in Ht as (r & _ & Ht); by apply combine_with_spec in Ht as (_ & _ & ? & _).
  - simpl in Ht; rewrite sort_tuples_perm in Ht; by eapply IHq.
  - apply list_elem_of_omap in Ht as (t' & _ & (_ & ? & _)%project_output_spec); done.
  - apply elem_of_distinct in Ht; by eapply IHq.
Qed.

(** ** The pass, operator by operator *)

Fixpoint ready_all (q : QueryExpression) (from : InternalTuple) : Prop :=
  match q with QFilter _ q => ready_all q from | _ => ready q from end.
(** The rewritten expression has the solutions that satisfy the conditions, and
    can be the right side of a lateral join. *)
Definition pushed (fs : list Expression) (q q' : QueryExpression) (from : InternalTuple) : Prop :=
  eval q' from ≡ₚ filter (holds_all fs) (eval q from) ∧ ready_all q' from.
Definition push_on (q : QueryExpression) : Prop := ∀ vs fs types,
  typable q types = true → pushable vs q types = true → Forall (good vs) fs →
  ∃ q', push_filters q fs types = Some q' ∧ ∀ from, typed (inner from) types → pushed fs q q' from.

Lemma ready_filter q e from : ready_all q from → ready_all (query_filter q e) from.
Proof.
  intros H; unfold query_filter; destruct (query_is_empty q); [done|]; destruct (effective_boolean_value _) as [[]|]; [done|done|].
  by destruct q.
Qed.
Lemma ready_service q from : ready_all q from → is_variable_service q = false.
Proof. by destruct q. Qed.
Lemma eval_extends vs q types ts from t :
  typable q types = true → pushable vs q types = true → infer_query_expression_types q types = Some ts →
  typed (inner from) types → t ∈ eval q from → extends from t ∧ typed (inner t) ts.
Proof.
  intros Hq Hp HT Hfrom Ht; destruct (eval_typed iris q types ts from t) as [Hs Hts]; try done.
  repeat split; [done|by apply (eval_keeps_graph q vs types)|done].
Qed.

(** What joins two filtered sides is what the filtered join has. *)
Lemma combine_pairs_filter keys (hl hr : InternalTuple -> bool) l r :
  (∀ a b t, a ∈ l → b ∈ r → combine_with b a = Some t → hl t = hl a ∧ hr t = hr b) →
  combine_pairs keys (filter hl l) (filter hr r) = filter (fun t => hl t && hr t) (combine_pairs keys l r).
Proof.
  intros H; unfold combine_pairs; rewrite concat_map_filter, filter_concat_map; apply concat_map_ext; intros b Hb; unfold set_get.
  rewrite list_filter_filter; rewrite (list_filter_iff _ (fun a => hl a ∧ tuple_key keys a = tuple_key keys b)) by tauto.
  rewrite <- list_filter_filter; fold (set_get keys l b); destruct (hr b) eqn:E.
  - symmetry; apply filter_omap; intros a t [_ Ha]%list_elem_of_filter Ht; destruct (H a b t) as [-> ->]; try done.
    by rewrite E, andb_true_r.
  - symmetry; apply filter_none; intros t (a & [_ Ha]%list_elem_of_filter & Ht)%list_elem_of_omap.
    destruct (H a b t) as [-> ->]; try done; by rewrite E, andb_false_r.
Qed.
Lemma join_pushed l r a : push_on l → push_on r → push_on (QJoin l r a).
Proof.
  intros IHl IHr vs fs types [Hl Hr]%andb_true_iff Hp Hg; destruct a as [keys]; simpl in Hp.
  apply andb_true_iff in Hp as [[[Pl Pr]%andb_true_iff Kl]%andb_true_iff Kr].
  apply with_types_true in Kl as (tl & HTl & Kl), Kr as (tr & HTr & Kr); simpl; rewrite HTl, HTr; cbn [mbind option_bind].
  destruct (IHl vs (filter (fun f => are_all_expression_variables_bound f tl) fs) types) as (l' & -> & El); [done|done|by apply good_filter|].
  destruct (IHr vs (filter (fun f => are_all_expression_variables_bound f tr) fs) types) as (r' & -> & Er); [done|done|by apply good_filter|].
  eexists; split; [done|]; intros from Hfrom; destruct (El from Hfrom) as [Pl' Rl], (Er from Hfrom) as [Pr' Rr].
  pose proof (λ t, eval_extends vs l types tl from t Hl Pl HTl Hfrom) as Sl.
  pose proof (λ t, eval_extends vs r types tr from t Hr Pr HTr Hfrom) as Sr.
  split; [|apply ready_filter; unfold query_join; by repeat case_match].
  rewrite eval_filter_all, eval_query_join; [|by apply (ready_service _ from)|by apply (ready_service _ from)|].
  - rewrite (combine_pairs_perm _ _ _ _ _ Pl' Pr'), combine_pairs_filter.
    + assert (Hs : ∀ q, typable q types = true → is_variable_service q = false) by (by destruct q).
      cbn [eval]; unfold join_evaluator; rewrite (Hs l), (Hs r) by done; rewrite hash_join_pairs, filter_and.
      rewrite (filter_ext_bool _ (holds_all fs)); [done|]; intros t _; rewrite andb_comm; symmetry; apply holds_all_split3.
    + intros x y t Hx Hy (_ & _ & _ & Hsy & Hsx)%combine_with_spec.
      split; eapply holds_bound; try done; [apply (Sl x Hx)|apply (Sr y Hy)].
  - intros t [Ht|Ht]; [rewrite Pl' in Ht|rewrite Pr' in Ht]; apply elem_of_filter_bool in Ht as [_ Ht].
    + apply Sl in Ht as [? Ht]; split; [done|by apply (keys_bound_binds _ tl)].
    + apply Sr in Ht as [? Ht]; split; [done|by apply (keys_bound_binds _ tr)].
Qed.

Lemma optional_pairs_filter keys (h h' hl hr : InternalTuple -> bool) l r :
  (∀ a b t, a ∈ l → b ∈ r → combine_with a b = Some t → hl t = hl a ∧ h t = h' t && hr b) →
  optional_pairs keys h' (filter hr r) (filter hl l) = filter hl (optional_pairs keys h r l).
Proof.
  intros H; unfold optional_pairs; rewrite concat_map_filter, filter_concat_map; apply concat_map_ext; intros a Ha; unfold set_get.
  rewrite list_filter_filter; rewrite (list_filter_iff (fun b => tuple_key keys b = tuple_key keys a ∧ hr b) (fun b => hr b ∧ tuple_key keys b = tuple_key keys a)) by tauto.
  rewrite <- list_filter_filter; fold (set_get keys r a).
  assert (E : filter h (omap (combine_with a) (set_get keys r a)) = filter h' (omap (combine_with a) (filter hr (set_get keys r a)))).
  { apply filter_omap_split; intros b t [_ Hb]%list_elem_of_filter Ht; by apply (H a b t). }
  rewrite <- E; assert (G : ∀ t, t ∈ or_else (filter h (omap (combine_with a) (set_get keys r a))) a → hl t = hl a).
  { intros t; unfold or_else; destruct (filter h _) eqn:Ef; [by intros ->%list_elem_of_singleton|]; rewrite <- Ef.
    intros [_ (b & [_ Hb]%list_elem_of_filter & Ht)%list_elem_of_omap]%elem_of_filter_bool; by apply (H a b t). }
  destruct (hl a) eqn:Ea; symmetry; [by apply filter_all|by apply filter_none].
Qed.
(** The condition of an optional part that goes right sees only the right side. *)
Lemma condition_right_agree vs e tl tr a b t :
  good vs e → pushes_condition_right e tl tr = true → typed (inner a) tl → typed (inner b) tr → combine_with a b = Some t →
  holds_one e t = holds_one e b.
Proof.
  intros Hg [_ Hc]%andb_true_iff Ha Hb Ht; apply (holds_one_agree vs); [done|]; intros v Hv.
  apply orb_true_iff in Hc as [Hc|Hc].
  - destruct (bound_variables _ _ _ _ Hc Hb Hv) as [x Hx]; rewrite Hx.
    apply combine_with_spec in Ht as (_ & _ & _ & _ & Hs); by apply (lookup_weaken _ _ _ _ Hx Hs).
  - pose proof (unbound_variables _ _ _ _ Hc Ha Hv) as Hx.
    destruct (combine_with_lookup a b t v Ht) as [[E1 [E2|E2]]|[_ ->]]; congruence.
Qed.
Lemma left_join_ready l r l' r' e keys fs gs tl from :
  pushed fs l l' from → pushed gs r r' from → keys_bound keys tl = true →
  (∀ t, t ∈ eval l from → extends from t ∧ typed (inner t) tl) → (∀ t, t ∈ eval r from → extends from t) →
  ready_all (query_left_join l' r' e (LeftHashBuildRightProbeLeft keys)) from.
Proof.
  intros [El Rl] [Er _] K Sl Sr; unfold query_left_join; case_match; [done|]; intros Hs; split.
  - assert (H' : from ∈ eval l' from) by (rewrite eval_empty_singleton by done; by left).
    rewrite El in H'; apply elem_of_filter_bool in H' as [_ H']; apply Sl in H' as [_ H']; by apply (keys_bound_binds _ tl).
  - intros t Ht; rewrite Er in Ht; apply elem_of_filter_bool in Ht as [_ Ht]; auto.
Qed.
Lemma left_join_pushed l r e a : push_on l → push_on r → push_on (QLeftJoin l r e a).
Proof.
  intros IHl IHr vs fs types [Hl Hr]%andb_true_iff Hp Hg; destruct a as [keys]; simpl in Hp.
  apply andb_true_iff in Hp as [[[[Hx Pl]%andb_true_iff Pr]%andb_true_iff Kl]%andb_true_iff Kr].
  apply with_types_true in Kl as (tl & HTl & Kl), Kr as (tr & HTr & _); simpl; rewrite HTl, HTr; cbn [mbind option_bind].
  assert (Ge : good (used_variables e) e) by (split; [by apply negb_true_iff|done]).
  set (cr := pushes_condition_right e tl tr).
  destruct (IHl vs (filter (fun f => are_all_expression_variables_bound f tl) fs) types) as (l' & -> & El); [done|done|by apply good_filter|].
  destruct (IHr (used_variables e) (if cr then [e] else []) types) as (r' & -> & Er); [done|done|by destruct cr; repeat constructor; apply Ge|].
  eexists; split; [done|]; intros from Hfrom.
  pose proof (λ t, eval_extends vs l types tl from t Hl Pl HTl Hfrom) as Sl.
  pose proof (λ t, eval_extends _ r types tr from t Hr Pr HTr Hfrom) as Sr.
  split; [|by eapply ready_filter, left_join_ready; [apply El|apply Er|..|intros; apply Sr]].
  destruct (El from Hfrom) as [Pl' _], (Er from Hfrom) as [Pr' _]; rewrite eval_filter_all, eval_query_left_join.
  - rewrite (optional_pairs_perm _ _ _ _ _ _ Pr' Pl'), (optional_pairs_filter _ (holds_one e)).
    + cbn [eval]; rewrite left_join_pairs, filter_and.
      rewrite (filter_ext_bool _ (holds_all fs)); [done|]; intros t _; rewrite andb_comm; symmetry; apply holds_all_split.
    + intros x y t Hx' Hy Ht; split; [eapply holds_bound; [done|by apply (Sl x)|by destruct (combine_with_spec _ _ _ Ht) as (_ & _ & _ & ? & _)]|].
      destruct cr eqn:Ec; unfold holds_all; cbn [forallb]; [|by rewrite andb_true_r]; rewrite holds_bool, andb_true_r.
      eapply (condition_right_agree _ _ tl tr x y); [done|done|by apply Sl|by apply Sr|done].
  - intros t Ht; rewrite Pl' in Ht; apply elem_of_filter_bool in Ht as [_ Ht]; by apply Sl.
Qed.

Lemma ready_all_ready q from : ready_all q from → ready q from.
Proof. by destruct q. Qed.
Lemma pushable_ready vs q types t : typable q types = true → pushable vs q types = true → typed (inner t) types → ready q t.
Proof.
  intros Hq Hp Ht; destruct q as [| | | |l r e [keys]| | | | | | | | | | | | |]; try done; intros Hs; simpl in Hq, Hp.
  apply andb_true_iff in Hq as [Hl Hr]; apply andb_true_iff in Hp as [[[[_ _]%andb_true_iff Pr]%andb_true_iff Kl]%andb_true_iff Kr].
  apply with_types_true in Kl as (tl & HTl & Kl), Kr as (tr & HTr & _); split.
  - apply (keys_bound_binds _ tl); [done|]; apply (eval_typed iris l types tl t t Hl HTl Ht); rewrite eval_empty_singleton by done; by left.
  - intros x Hx; by apply (eval_extends (used_variables e) r types tr t x).
Qed.
(** The conditions of the right side come out of a lateral join. *)
Lemma eval_lateral_filter l r from :
  (∀ t, t ∈ eval l from → ready_all r t) →
  eval match r with QFilter e inner => query_filter (query_lateral l inner) e | _ => query_lateral l r end from ≡ₚ
  concat (map (eval r) (eval l from)).
Proof.
  intros H; destruct r; try (apply eval_query_lateral; intros; by apply ready_all_ready, H).
  rewrite eval_query_filter, eval_query_lateral by (intros; by apply ready_all_ready, H); by rewrite filter_concat_map.
Qed.
Lemma lateral_ready l r from :
  ready_all l from → (is_empty_singleton l = true → ready_all r from) →
  ready_all match r with QFilter e inner => query_filter (query_lateral l inner) e | _ => query_lateral l r end from.
Proof.
  assert (G : ∀ q, ready_all l from → (is_empty_singleton l = true → ready_all q from) → ready_all (query_lateral l q) from).
  { intros q Hl Hq; unfold query_lateral; destruct (_ || _); [done|]; destruct (is_empty_singleton l); [auto|]; by case_match. }
  intros Hl Hr; destruct r; try by apply G.
  apply ready_filter, G; [done|]; apply Hr.
Qed.
Lemma lateral_pushed l r : push_on l → push_on r → push_on (QLateral l r).
Proof.
  intros IHl IHr vs fs types [Hl Hr]%andb_true_iff [Pl Pr]%andb_true_iff Hg.
  apply with_types_true in Pr as (tl & HTl & [Pr Kr]%andb_true_iff); apply with_types_true in Kr as (tr & HTr & _).
  simpl; change typable with typable in Hr; rewrite HTl in Hr |- *; cbn [mbind option_bind with_types] in Hr |- *.
  destruct (IHl vs (filter (fun f => are_all_expression_variables_bound f tl) fs) types) as (l' & -> & El); [done|done|by apply good_filter|].
  destruct (IHr vs (filter (fun f => negb (are_all_expression_variables_bound f tl)) fs) tl) as (r' & -> & Er); [done|done|by apply good_filter|].
  eexists; split; [done|]; intros from Hfrom; destruct (El from Hfrom) as [Pl' Rl].
  pose proof (λ t, eval_extends vs l types tl from t Hl Pl HTl Hfrom) as Sl.
  assert (Sl' : ∀ t, t ∈ eval l' from → typed (inner t) tl).
  { intros t Ht; rewrite Pl' in Ht; apply elem_of_filter_bool in Ht as [_ Ht]; by apply Sl. }
  split.
  - rewrite eval_lateral_filter by (intros t Ht; by apply Er, Sl').
    rewrite eval_lateral by (intros t Ht; apply (pushable_ready vs r tl); [done|done|by apply Sl]).
    rewrite (concat_map_perm _ _ _ _ Pl' (λ t Ht, proj1 (Er t (proj2 (Sl t (proj2 (proj1 (elem_of_filter_bool _ _ _) Ht))))))).
    rewrite concat_map_filter, filter_concat_map; erewrite concat_map_ext; [done|]; intros t Ht; cbn beta.
    assert (E : ∀ x, x ∈ eval r t → holds_all fs x =
      holds_all (filter (fun f => are_all_expression_variables_bound f tl) fs) t &&
      holds_all (filter (fun f => negb (are_all_expression_variables_bound f tl)) fs) x).
    { intros x Hx; rewrite (holds_all_split (fun f => are_all_expression_variables_bound f tl)); f_equal.
      apply (holds_bound vs); [done|by apply Sl|]; by apply (eval_extends vs r tl tr t x); [..|apply Sl|]. }
    rewrite (filter_ext_bool _ _ _ E); case_match; [done|symmetry; by apply filter_none].
  - apply lateral_ready; [done|]; intros Hs; apply Er, Sl'; rewrite eval_empty_singleton by done; by left.
Qed.

Lemma minus_pushed l r a : push_on l → push_on r → push_on (QMinus l r a).
Proof.
  intros IHl IHr vs fs types [Hl Hr]%andb_true_iff [Pl Pr]%andb_true_iff Hg; simpl.
  destruct (IHl vs fs types) as (l' & -> & El); [done|done|done|].
  destruct (IHr ∅ [] types) as (r' & -> & Er); [done|done|constructor|].
  eexists; split; [done|]; intros from Hfrom; destruct (El from Hfrom) as [Pl' Rl], (Er from Hfrom) as [Pr' _]; split.
  - rewrite eval_query_minus; apply minus_evaluator_perm; [done|]; rewrite Pr'; by rewrite filter_all by done.
  - unfold query_minus; by repeat case_match.
Qed.
Lemma eval_query_graph q g from : eval (query_graph q g) from = graph_evaluator g (eval q) from.
Proof.
  unfold query_graph; destruct (query_is_empty q) eqn:E; [|done]; unfold graph_evaluator.
  destruct (get_pattern_value _ from) as [[x|]|]; [|rewrite (concat_map_ext _ (fun _ => []))|done].
  - rewrite (eval_empty q) by done; by case_match.
  - clear; simpl; by induction (internal_named_graphs eval_dataset).
  - intros x _; by rewrite (eval_empty q).
Qed.
(** The conditions that do not mention the variable of the graph. *)
Lemma graph_filter vs g (child child' : InternalTuple -> list InternalTuple) fs from :
  Forall (good vs) fs → (∀ x, child' (with_graph from (Some x)) ≡ₚ filter (holds_all (filter (pushes_into_graph g) fs)) (child (with_graph from (Some x)))) →
  graph_evaluator g child' from ≡ₚ filter (holds_all (filter (pushes_into_graph g) fs)) (graph_evaluator g child from).
Proof.
  intros Hg Hc; unfold graph_evaluator; set (h := holds_all (filter (pushes_into_graph g) fs)).
  destruct (get_pattern_value (from_named_node_pattern g) from) as [[x|]|] eqn:Ev; [| |done].
  - destruct (contains_internal_graph_name _ x); [|done]; rewrite (Hc x).
    change (map (λ t, with_graph t (graph_name from)) (filter h (child (with_graph from (Some x)))) ≡ₚ
            filter h (map (λ t, with_graph t (graph_name from)) (child (with_graph from (Some x))))).
    rewrite filter_map; rewrite (filter_ext_bool (fun t => h (with_graph t (graph_name from))) h); [done|]; intros t _.
    by apply (holds_all_agree vs); [apply good_filter|].
  - rewrite filter_concat_map; apply concat_map_perm; [done|]; intros x _; rewrite (Hc x).
    rewrite (filter_omap h h); [done|]; intros t y _ Hy.
    destruct g as [n|v]; [discriminate|]; cbn [from_named_node_pattern] in Hy.
    destruct (put_pattern_value (SelectorVariable v) x t) as [t2|] eqn:Hput; [|done]; injection Hy as <-.
    apply (holds_all_agree vs); [by apply good_filter|]; intros f w [[_ Hf]%andb_true_iff _]%elem_of_filter_bool Hw.
    apply negb_true_iff, bool_decide_eq_false in Hf; apply put_variable in Hput as [[-> _]|[-> _]]; [done|].
    simpl; rewrite lookup_insert_ne; [done|]; by intros ->.
Qed.
Lemma graph_pushed g q : push_on q → push_on (QGraph g q).
Proof.
  intros IH vs fs types Hq Hp Hg; simpl.
  destruct (IH vs (filter (pushes_into_graph g) fs) types) as (q' & -> & E); [done|done|by apply good_filter|].
  eexists; split; [done|]; intros from Hfrom; cbn zeta.
  set (w := filter (fun f => negb (pushes_into_graph g f)) fs).
  assert (Ew : eval match w with [] => query_graph q' g | _ => query_filter (query_graph q' g) (and_all w) end from =
    filter (holds_all w) (graph_evaluator g (eval q') from)).
  { destruct w; [rewrite eval_query_graph; symmetry; by apply filter_all|]; by rewrite eval_filter_all, eval_query_graph. }
  split.
  - rewrite Ew, (graph_filter vs g (eval q)); [|done|intros x; by apply E]; rewrite filter_and.
    rewrite (filter_ext_bool _ (holds_all fs)); [done|]; intros t _; rewrite andb_comm; symmetry; apply holds_all_split.
  - clearbody w; assert (R : ready_all (query_graph q' g) from) by (unfold query_graph; by destruct (query_is_empty q')).
    destruct w; [done|by apply ready_filter].
Qed.
Lemma extend_pushed q v e : push_on q → push_on (QExtend q v e).
Proof.
  intros IH vs fs types [[Hq _]%andb_true_iff _]%andb_true_iff Hp Hg; simpl.
  destruct (IH vs (filter (fun f => negb (bool_decide (v ∈ used_variables f))) fs) types) as (q' & -> & E); [done|done|by apply good_filter|].
  eexists; split; [done|]; intros from Hfrom; destruct (E from Hfrom) as [Pq _].
  set (ext t := match eval_expression e t with Some x => tuple_set t v x | None => t end).
  assert (Ee : eval (query_extend q' v e) from = map ext (eval q' from)).
  { unfold query_extend; destruct (query_is_empty q') eqn:Eq; [by rewrite (eval_empty q')|done]. }
  split; [|apply ready_filter; unfold query_extend; by destruct (query_is_empty q')].
  change (eval (QExtend q v e) from) with (map ext (eval q from)); rewrite eval_filter_all, Ee, Pq, !filter_map, filter_and.
  rewrite (filter_ext_bool _ (fun t => holds_all fs (ext t))); [done|]; intros t _.
  rewrite (holds_all_split (fun f => bool_decide (v ∈ used_variables f)) fs); f_equal.
  apply (holds_all_agree vs); [by apply good_filter|]; intros f w [Hf _]%elem_of_filter_bool Hw.
  apply negb_true_iff, bool_decide_eq_false in Hf; unfold ext; destruct (eval_expression e t); [|done].
  simpl; rewrite lookup_insert_ne; [done|]; by intros ->.
Qed.
Lemma filter_pushed e q : push_on q → push_on (QFilter e q).
Proof.
  intros IH vs fs types Hq [Hx%negb_true_iff Hp]%andb_true_iff Hg; simpl.
  set (es := match e with EAnd es => es | _ => [e] end).
  assert (He : ∀ t, holds_all es t = holds_one e t).
  { intros t; subst es; destruct e; try (unfold holds_all; cbn [forallb]; by rewrite andb_true_r); by rewrite holds_and. }
  destruct (IH (vs ∪ used_variables e) (fs ++ es) types) as (q' & -> & E); [done|done| |].
  - apply Forall_app; split; [eapply good_weaken_all; [done|set_solver]|].
    assert (G1 : Forall (good (used_variables e)) [e]) by (repeat constructor; [done|set_solver]).
    apply (good_weaken_all (used_variables e)); [|set_solver]; subst es; destruct e as [| | | |l| | | | |]; try exact G1.
    simpl in Hx; apply list.Forall_forall; intros f Hf; split.
    + apply not_true_iff_false; intros Hc; rewrite (proj2 (existsb_exists _ _)) in Hx; [done|]; exists f; by rewrite <- list_elem_of_In.
    + intros v Hv; apply elem_of_list_to_set in Hv; apply elem_of_list_to_set; simpl; apply elem_of_concat_map; eauto.
  - eexists; split; [done|]; intros from Hfrom; destruct (E from Hfrom) as [Pq R]; split; [|done]; rewrite Pq.
    change (eval (QFilter e q) from) with (filter (holds_one e) (eval q from)); rewrite filter_and.
    rewrite (filter_ext_bool _ (fun t => holds_all fs t && holds_one e t)); [done|]; intros t _; by rewrite holds_all_app, He.
Qed.
Lemma leaf_pushed q fs from : ready_all q from → pushed fs q (query_filter q (and_all fs)) from.
Proof. intros R; split; [by rewrite eval_filter_all|by apply ready_filter]. Qed.
Lemma union_pushed l : Forall push_on l → push_on (QUnion l).
Proof.
  intros IH vs fs types Hq Hp Hg; simpl in Hq, Hp |- *; rewrite forallb_forall in Hq, Hp.
  assert (H : ∃ l', mapM (fun c => push_filters c fs types) l = Some l' ∧
     ∀ from, typed (inner from) types → Forall2 (fun q q' => pushed fs q q' from) l l').
  { induction IH as [|q l IHq _ IHl]; [by exists []|].
    destruct IHl as (l' & El & Hl'); [intros; apply Hq; by right|intros; apply Hp; by right|].
    destruct (IHq vs fs types) as (q' & Eq & Hq'); [apply Hq; by left|apply Hp; by left|done|].
    exists (q' :: l'); split; [simpl; by rewrite Eq, El|]; intros; constructor; auto. }
  destruct H as (l' & -> & H); eexists; split; [done|]; intros from Hfrom; split; [|unfold union_all; by case_match].
  rewrite eval_union_all; cbn [eval]; rewrite filter_concat_map; specialize (H from Hfrom); clear -H.
  induction H as [|q q' l l' [Hq _] _ IH]; simpl; [done|]; by rewrite Hq, IH.
Qed.
Lemma order_pushed q by_ : push_on q → push_on (QOrderBy q by_).
Proof.
  intros IH vs fs types Hq Hp Hg; destruct (IH vs fs types) as (q' & Eq & H); [done|done|done|]; simpl; rewrite Eq.
  eexists; split; [done|]; intros from Hfrom; destruct (H from Hfrom) as [Pq R]; cbn beta; split.
  - cbn [eval]; rewrite sort_tuples_perm, <- Pq; unfold query_order_by; destruct (query_is_empty q') eqn:E.
    + by rewrite (eval_empty q').
    + destruct by_; [done|]; apply sort_tuples_perm.
  - unfold query_order_by; destruct (query_is_empty q'); [done|]; by destruct by_.
Qed.
Lemma project_pushed q vars : push_on q → push_on (QProject q vars).
Proof.
  intros IH vs fs types [Hu Hq]%andb_true_iff [Hv%bool_decide_eq_true Hp]%andb_true_iff Hg.
  destruct (IH vs fs types) as (q' & Eq & H); [done|done|done|]; simpl; rewrite Eq.
  eexists; split; [done|]; intros from Hfrom; split; [|done]; pose proof (typed_unbound _ _ Hu Hfrom) as E.
  unfold query_project; cbn [eval]; unfold project_evaluator; rewrite E, map_filter_empty.
  assert (Hi : typed (inner (mkTuple ∅ (graph_name from))) types) by (simpl; by rewrite <- E).
  destruct (H _ Hi) as [Pq _]; rewrite Pq, (filter_omap (holds_all fs) (holds_all fs)); [done|].
  intros t y _ (_ & _ & Ho)%project_output_spec; apply (holds_all_agree vs); [done|]; intros f v Hf Hvf.
  rewrite Ho, E, lookup_empty, decide_True; [done|]; rewrite list.Forall_forall in Hg; apply Hg in Hf as [_ Hf]; set_solver.
Qed.
Lemma distinct_pushed q : push_on q → push_on (QDistinct q).
Proof.
  intros IH vs fs types Hq Hp Hg; destruct (IH vs fs types) as (q' & Eq & H); [done|done|done|]; simpl; rewrite Eq.
  eexists; split; [done|]; intros from Hfrom; destruct (H from Hfrom) as [Pq R]; split.
  - transitivity (distinct_tuples [] (eval q' from)).
    { unfold query_distinct; destruct (query_is_empty q') eqn:E; [by rewrite (eval_empty q')|done]. }
    cbn [eval]; rewrite (distinct_perm_filter (holds_all fs) (eval q from)); [done| |done].
    intros [a ga] [b gb] Ha Hb Ei; simpl in Ei; subst b.
    apply (eval_keeps_graph q vs types) in Ha, Hb; try done; simpl in *; congruence.
  - unfold query_distinct; by destruct (query_is_empty q').
Qed.

(** C23.  Pushing filters is correct: on a query that type inference covers and
    that [pushable] describes (its projections keep the variables of the pushed
    conditions), over a dataset whose named graphs are named by IRIs, the pass
    returns, and the new query has the solutions of the old one that satisfy the
    pushed conditions, each as many times. *)
Theorem push_filters_correct (e : QueryExpression) (filters : list Expression) (types : VariableTypes) (vs : gset VariableName) :
  typable e types = true → pushable vs e types = true → Forall (good vs) filters →
  ∃ e', push_filters e filters types = Some e' ∧
    ∀ from, typed (inner from) types → eval e' from ≡ₚ filter (holds_all filters) (eval e from).
Proof.
  assert (H : push_on e).
  { induction e using QueryExpression_induction;
      auto using graph_pushed, join_pushed, left_join_pushed, lateral_pushed, filter_pushed, union_pushed, extend_pushed, minus_pushed,
        order_pushed, project_pushed, distinct_pushed;
      intros vs' fs types' _ Hp _; try done; (eexists; split; [done|]; intros; by apply leaf_pushed). }
  intros Hq Hp Hg; destruct (H vs filters types Hq Hp Hg) as (e' & E & He); exists e'; split; [done|]; intros from Hf; by apply He.
Qed.
End pushing.

(** ** Examples *)

Section examples.
Definition example_order : OrderParams := {| expression_hash _ := 0; order_expressions l := l; order_queries l := l |}.
#[local] Existing Instance example_order.
Lemma example_order_laws : OrderLaws example_order.
Proof. by split. Qed.

(** A filter over a projection of a join with an optional part. *)
Definition example_filter : Expression := EAnd [EBound (str "o"); EFunctionCall SPARQL_EQUALS [EVariable (str "x"); EVariable (str "x")]].
Definition example_pushed : QueryExpression :=
  QFilter example_filter
    (QProject
       (QLeftJoin (QJoin (example_pattern "p" "o") (example_pattern "q" "x") (HashBuildLeftProbeRight [str "s"]))
          (example_pattern "p" "y") (EBound (str "y")) (LeftHashBuildRightProbeLeft [str "s"]))
       [str "s"; str "o"; str "x"]).
Lemma push_filters_correct_witness :
  length (eval (P := example_params) example_pushed empty_tuple) = 1%nat ∧
  ∃ e', push_filters example_pushed [] ∅ = Some e' ∧
    ∀ from, typed (inner from) ∅ → eval (P := example_params) e' from ≡ₚ filter (holds_all (P := example_params) []) (eval (P := example_params) example_pushed from).
Proof.
  split; [vm_compute; reflexivity|].
  apply (push_filters_correct (P := example_params) (L := example_laws) (OL := example_order_laws)) with (vs := ∅).
  - split; [|split]; repeat constructor.
  - vm_compute; reflexivity.
  - vm_compute; reflexivity.
  - constructor.
Defined.

(** A condition moves under a projection that hides its variable: outside, the
    variable is unbound; inside, a pattern binds it. *)
Lemma push_filters_captures_hidden :
  let q := QFilter (EFunctionCall SPARQL_LOGICAL_NOT [EBound (str "x")]) (QProject (example_pattern "q" "x") [str "s"]) in
  length (eval (P := example_params) q empty_tuple) = 1%nat ∧
  (fun q' => eval (P := example_params) q' empty_tuple) <$> push_filters q [] ∅ = Some [].
Proof. split; vm_compute; reflexivity. Qed.

(** A remote endpoint that answers when it is known. *)
Definition service_params : EvalParams := {|
  eval_dataset := example_dataset;
  tuple_hash _ := 0;
  term_equals a b := Some (bool_decide (a = b));
  term_partial_cmp _ _ := None;
  numeric_boolean_value _ := None;
  call_function _ _ := None;
  aggregate _ _ := None;
  sort_tuples _ l := l;
  evaluate_service name _ _ from :=
    match name with PatternVariable v => match inner from !! v with Some _ => [from] | None => [] end | PatternNamedNode _ => [from] end
|}.
(** A condition that moves to a remote query with a variable endpoint hides it
    from the join, which then does not bind the endpoint first. *)
Lemma push_filters_hides_service :
  let service := QService (PatternVariable (str "s")) (example_pattern "q" "x") false in
  let q := QFilter (EBound (str "s")) (QJoin (example_pattern "p" "o") service (HashBuildLeftProbeRight [])) in
  length (eval (P := service_params) q empty_tuple) = 1%nat ∧
  (fun q' => eval (P := service_params) q' empty_tuple) <$> push_filters q [] ∅ = Some [].
Proof. split; vm_compute; reflexivity. Qed.
End examples.
